(* ===== verification/_CoqProject ===== *)
-Q . S2P
Prelude.v
Prog.v
RingBuffer.v
HookFilter.v
GoStr.v
LogDriver.v
K8sFile.v
K8sWriter.v
K8sReader.v
K8sRead.v
K8sLog.v
Model.v
TermState.v
RuntimeState.v
Broadcaster.v
Output.v
Survivors.v
Supervisor.v
SupervisorProps.v
MuxCtl.v
Mux.v
ComposeSpec.v
Naming.v
Lifecycle.v
Graph.v
Normalize.v
Reconcile.v
Scheduling.v
Walk.v
WalkExec.v
WalkProps.v
BuiltGraph.v
WalkTheorems.v
Targets.v
Service.v
Plan.v
Config.v
Paths.v
Canonical.v
OpNames.v
HookDispatch.v
Streams.v
Logs.v
Client.v
ClientProps.v
EventLog.v
EventLogProps.v
SendKeys.v
HookData.v
HookOutput.v
ComposeSvc.v
HookRunner.v
HookSteps.v
HookProps.v
HookTheorems.v
Down.v
DownProps.v
DownReleases.v
DownTheorems.v
Create.v
CreateProps.v
Resource.v
Verbs.v
VerbProps.v
Listing.v
Select.v
Attach.v
AttachProps.v
Frame.v
FrameProps.v
MuxFrame.v
MuxRun.v
MuxProps.v
ComposeMux.v
DownJob.v
DownJobProps.v
Replicas.v
