(* ===== verification/Prelude.v ===== *)
(** * cmdman: a verified model

    cmdman runs shell commands in the background.  Every command has a _monitor_, a
    process that spawns it, restarts it by its policy, logs its output, relays it to the
    viewers that attach, and stops it on request.  On top of that, _compose_ manages a
    project of commands described by a YAML file: it normalizes the file, computes what
    has to be created, and starts and stops the commands in the order of their
    dependencies; _mux_ shows them in the panes of a terminal multiplexer.

    This library translates the decision-making part of the program (all paths below are
    relative to [src/]) into executable definitions, and proves what makes it correct.
    A comment [(* src/path.go:first-last symbol *)] above a definition names the code it
    translates.

    ** The files

    Foundations.
    - [Prelude]: results and errors, the state-error monad, tactics, lists as slices.
    - [GoStr]: the functions of Go's [strings], [strconv], [slices] that the code calls.
    - [Prog]: programs that call services and shared objects, as a free monad whose runs
      are the calls they make with the answers they get; groups of goroutines interleave.
    - [Config], [Paths]: [cmdman/config]; the layers of the configuration, the paths and
      environments derived from it, and what cleaning and joining paths satisfies.

    One supervised command.
    - [Model]: [cmdman/model], [pkg/hrstr]; the configuration of a command and its
      validation.
    - [Supervisor], [SupervisorProps]: [cmdman/monitor/mon.go], [mon_run.go],
      [stop_command.go]; the run loop, stops and signals as interleaved steps.
    - [Survivors]: [orphans_linux.go]; what becomes of processes a run leaves behind.
    - [RingBuffer], [Broadcaster], [Output]: [ringbuffer.go], [broadcaster.go], and the
      path of output through scrollback, log and viewers in [mon_run.go] and
      [mon_server.go].
    - [TermState], [RuntimeState], [HookFilter]: [terminal_state.go],
      [runtime_state.go], [hook_filter.go]; what is read out of a command's output.
    - [HookDispatch]: [hooks.go]; the queue and the worker of terminal hooks.
    - [Streams]: [runtime_stream.go], the streams of [mon_server.go]; what subscribers and
      viewers are sent, and the reported status.
    - [LogDriver]: [cmdman/logdriver]; lines, the stream adapter, options.
    - [K8sFile], [K8sWriter], [K8sReader], [K8sRead], [K8sLog]:
      [cmdman/logdriver/k8sfile]; the log files, their rotation, and reading them back.
    - [Client], [ClientProps]: the service in [cmdman/cmdman_*.go] over its store and the
      monitors: create, replace, start, stop, restart, remove, wait, list.
    - [SendKeys]: [cmdman_send-keys.go]; key names as terminal input.
    - [Logs]: [cmdman_logs.go]; replaying what is stored, following the
      monitor, and going on over restarts.
    - [Attach], [AttachProps]: [cmdman/cli/attach*.go], [sticky.go]; a terminal attached to
      a command: detach keys, signals, terminal modes, and the loop that stays there.
    - [EventLog], [EventLogProps]: [cmdman/eventlog]; the shared event log, its rotation,
      and the readers that follow it.

    A compose project.
    - [ComposeSpec], [Lifecycle]: [spec.go], [lifecycle.go], [label_hooks.go] of
      [cmdman/compose]; the data model and its rules.
    - [Naming]: the names of the commands compose creates ([hash.go], [lifecycle.go]).
    - [Normalize]: [normalize.go]; from a decoded file to a spec.
    - [Canonical]: [canonical.go]; a spec as a compose file again.
    - [Graph]: [graph.go]; unknown dependencies, cycles, layers.
    - [Plan]: [plan.go], [reconstruct_project.go]; what a create has to do, and a
      project rebuilt from the labels of its commands.
    - [Targets]: [target.go] and the closures of [reconcile.go].
    - [Reconcile], [Scheduling], [BuiltGraph]: [reconcile.go]; the graph, the operations
      on it, and the graph that a spec gives.
    - [Walk], [WalkExec], [WalkProps], [WalkTheorems]: [reconcileGraph.walk]; workers as
      interleaved steps, a scheduler for them, and what every run guarantees.
    - [Service]: [service_reconcile.go]; starting and stopping a project.
    - [ComposeSvc]: what the operations of compose call and share ([service.go],
      [event.go], [release_recorder.go]).
    - [HookData], [HookOutput], [HookRunner], [HookSteps], [HookProps], [HookTheorems]:
      [lifecycle_*.go], [intermediate.go]; hooks around the operations of a replica, the
      resources they acquire, and the releases that are kept for them.
    - [Down], [DownProps], [DownReleases], [DownTheorems]: [service_down.go].
    - [Create], [CreateProps]: [service_create.go], [service_orphan.go],
      [service_up.go], [service_scale.go].
    - [Verbs], [VerbProps]: [service_stop.go], [service_start.go], [service_restart.go].
    - [Resource], [Listing], [Replicas]: the verbs on resources, listings, waits, single replicas and logs.
    - [Select]: [discover.go], [selection.go]; which file and project.

    Dashboards.
    - [MuxCtl]: [pkg/muxctl]; layout trees, sizes, validation.
    - [Mux]: [cmdman/mux]; panes of a dashboard and the replica each shows.
    - [Frame], [FrameProps]: [cmdman/frame]; definitions that dock panes around a window.
    - [MuxFrame], [MuxRun], [MuxProps]: the verbs of [cmdman/mux] as programs over the
      calls of the multiplexer: frames, bringing dashboards up, landing on them, cycling
      what their panes show, taking them down.
    - [ComposeMux]: [compose/mux.go], [service_mux.go]; the replicas of a project as the
      leaves of its dashboards, and the verbs for a project.
    - [OpNames]: [cmdman/cli/mux_op.go]; the names that operations on windows go by.
    - [DownJob], [DownJobProps]: [cmdman/cli/compose_down_*.go]; a teardown as a command
      of its own, launched at most once and followed to its end.

    ** How the code is modelled

    Bytes are [list Z], Go strings [string], machine integers [Z] with their bounds
    where the code relies on them, and [wrap64] where a sum or a product may leave them.  A Go map is a [gmap]; where the code ranges over a
    map the order is an argument, any permutation of the entries.  A nil slice is told
    from an empty one only where the code does, with an [option].  A method that holds
    a mutex throughout is one step.  Concurrency is a step relation with an executable
    step function, so that a schedule can be run.  An error is a constructor that
    carries what its text would show.

    What is not under [src/], and what the kernel, the disk, the clock and the
    multiplexer answer, are arguments: the results of system calls in [Survivors], of
    file operations in [K8sFile], of spawns, waits and store updates in [Supervisor], of
    [Start], [Wait] and stops in [Service]; the digest, the JSON and YAML codecs, the
    formatting of times, path and dotenv libraries.  Where a theorem needs something of
    them, it is a named hypothesis with a witness that has a concrete instance.

    ** What the theorems show

    - Supervision ([SupervisorProps]): a stop that is acknowledged prevents every later
      restart and bounds the run loop; the restart budget is never exceeded; a state that
      the run loop stores was handed to the event log before; no goroutine of the monitor
      gets stuck.  A stop that
      arrives between two runs is lost: the theorem states the case.
    - Output ([Output], [RingBuffer], [TermState], [RuntimeState], [HookFilter]): a viewer
      gets the scrollback and then every later chunk, without gap or repetition; replaying
      the terminal modes rebuilds them; the filter removes exactly the captured
      sequences, apart from two malformed cases that theorems exhibit.
    - Survivors: the sweep signals nothing a stop is in charge of, the await only
      completes a kill, both return in bounded time.
    - Logs ([K8sLog]): whatever writers, one after another, opened the log, a reader
      returns exactly the lines its options select of those that were written and not
      rotated away; a writer stops at its first error; what can go wrong when reading while
      writing is stated by a counterexample.
    - Reconciling ([WalkTheorems], [Service]): dependencies before dependents on start,
      dependents before dependencies on stop, each command acted on at most once, workers
      neither block nor run for ever, and the reported outcomes are true.
    - Specs ([Normalize], [Canonical], [Graph], [Plan], [Targets], [Naming]): what a normalized spec
      satisfies, its canonical form normalizes to it again, the layers of a graph, exact characterizations of plans and targets, a
      project rebuilt from labels equals the spec that was deployed, and generated names
      never collide.
    - Layouts ([MuxCtl], [Mux]): cells fill their parent exactly, as long as the
      arithmetic stays within 64 bits ([cells_fit]).
    - Hooks ([HookTheorems]): a release leaves a trace unless it succeeded, the stored
      release is the one its hook would have run, and a holder is read back as written.
    - Teardown and creation ([DownTheorems], [CreateProps]): a replica that could not be
      stopped is kept unless forced, every failed release is retried or reported, a
      changed replica is stopped before it is removed and removed before it is created.
    - Verbs ([VerbProps], [Listing], [Resource], [Replicas], [Select]): each replica of a restart has one outcome, its own; listings count
      exactly; a resource that was set is read back; what a project name resolves to.
    - The service ([ClientProps]): a stop that reports success left nothing running; a
      removal leaves no monitor behind; a replacement happens whole or not at all; the
      cases where a start or a stop reports more than it knows.
    - Hooks of the terminal and streams ([HookDispatch], [Streams]): captured texts are
      dispatched in their order, each to the program and with the variables of its event,
      and a dropped one is counted; a watcher is never left
      behind the state of the command once it is idle.
    - Reading logs ([Logs]): a follower gets the log without gap and without
      repetition; two cases in which the request's bounds or a restart lose that.
    - Attaching ([AttachProps]): the command gets exactly what was typed in front of the
      detach keys, the terminal is restored, and only the user ends a sticky session.
    - The event log ([EventLogProps]): when no call fails, a reader gets each event once,
      in order, across rotations, and reaches the end; three runs show the hazards that
      remain.
    - Keys ([SendKeys]): every key argument has exactly one reading, and its bytes.
    - Frames and dashboards ([FrameProps], [MuxProps], [ComposeMux]): a validated definition can be
      carved, and its panes are where docking its entries one by one puts them; frames
      never stack; an up builds on one window, a teardown finds what an up built, by the
      identity it was given, and closes only what cmdman made, never the window it runs in; cycling stores only what it
      shows; a project's panes show the replicas that its file names; no two windows have
      their operations registered under one name ([OpNames]).
    - Teardowns as jobs ([DownJobProps]): a launch works under the lock of its job, joins
      a down only on evidence, starts at most one and asks for no record's removal from
      under a monitor; a follower gives an end only on evidence, and gives one when the record is
      gone or its job does not start.

    ** Fuel

    Recursion that is not structural takes fuel, and a lemma shows it is enough:
    [split_loop] and [read_entries] the bytes left; [search_back] and
    [skipLinesForward] the bytes still to search; [last_user_line] one more than the
    length of the file, since each round moves back past a line; [layer_loop] the number
    of commands, since each layer emits one; [first_unpinned] the number of replicas;
    the sweep and the await of [Survivors] the deadline plus the last rounds, since the
    clock advances on each poll; [strip] of [HookOutput] the length of the line.  The workers of [Walk] and the goroutines of
    [Supervisor] are step relations and have no fuel: termination is a theorem about
    them, by a measure.

    Programs over [Prog] need no fuel: their loops are over lists, and a loop that polls
    is one call, or counts the polls that its deadline allows ([wait_for_state]), or takes
    a number of rounds that is shown to be enough ([waitComposeDownJobExit]).  The event log assumes that a file identity is not reused
    while a reader holds it and that one append is one write.

    ** Not modelled

    The store ([cmdman/store]: SQL), the gRPC transport and generated code, process
    creation and inotify: system calls or calls into libraries.  The terminal user
    interface, the tmux driver and the command line, but for the definitions named
    above: rendering and I/O. *)

From stdpp Require Export base gmap strings list fin_maps sorting.
From Stdlib Require Export ZArith Lia.
From Stdlib Require Import DecimalString DecimalFacts DecimalZ Decimal.

(** ** Results of fallible operations

    A Go function returning [(T, error)] becomes a [result E T]: [Ok] is a nil
    error, [Err] carries the error. *)
Inductive result (E A : Type) : Type :=
| Ok (a : A)
| Err (e : E).
Arguments Ok {E A} _.
Arguments Err {E A} _.

Definition result_bind {E A B} (r : result E A) (f : A -> result E B) : result E B :=
  match r with Ok a => f a | Err e => Err e end.

Declare Scope cmdman_scope.
Delimit Scope cmdman_scope with cmdman.
Notation "'try' x ':=' r 'in' k" := (result_bind r (fun x => k))
  (at level 10, x pattern, r at level 100, k at level 200)
  : cmdman_scope.
#[global] Open Scope cmdman_scope.

Definition is_ok {E A} (r : result E A) : bool :=
  match r with Ok _ => true | Err _ => false end.

Lemma result_bind_ok {E A B} (r : result E A) (f : A -> result E B) b :
  result_bind r f = Ok b <-> exists a, r = Ok a /\ f a = Ok b.
Proof. destruct r; naive_solver. Qed.

(** [mapM] over a list, stopping at the first error, the way a Go loop with an
    early return does. *)
Fixpoint result_mapM {E A B} (f : A -> result E B) (l : list A) : result E (list B) :=
  match l with
  | [] => Ok []
  | x :: l => try y := f x in try ys := result_mapM f l in Ok (y :: ys)
  end.

Lemma result_mapM_ok {E A B} (f : A -> result E B) l ys :
  result_mapM f l = Ok ys <-> Forall2 (fun x y => f x = Ok y) l ys.
Proof.
  revert ys; induction l as [|x l IH]; intros ys; simpl.
  - split; [intros [= <-]; constructor|by inversion 1].
  - rewrite result_bind_ok. split.
    + intros (y & Hy & H). apply result_bind_ok in H as (zs & Hzs & [= <-]).
      constructor; [done|by apply IH].
    + inversion 1; subst. eexists; split; [done|]. rewrite result_bind_ok.
      eexists; split; [by apply IH|done].
Qed.

(** A fold that stops at the first error. *)
Fixpoint result_foldl {S E A} (f : S -> A -> result E S) (s : S) (l : list A) : result E S :=
  match l with
  | [] => Ok s
  | x :: l => try s := f s x in result_foldl f s l
  end.

Lemma result_foldl_app {S E A} (f : S -> A -> result E S) s l1 l2 :
  result_foldl f s (l1 ++ l2) = try s := result_foldl f s l1 in result_foldl f s l2.
Proof. revert s; induction l1 as [|x l1 IH]; intros s; simpl; [done|]. destruct (f s x); simpl; auto. Qed.

(** ** Fallible operations on a state

    [errst S E A]: code that changes a state of type [S] and returns a value or an
    error; what was changed before the error stays changed. *)
Definition errst (S E A : Type) : Type := S -> result E A * S.

#[export] Instance errst_ret {S E} : MRet (errst S E) := fun A a s => (Ok a, s).
#[export] Instance errst_bind {S E} : MBind (errst S E) := fun A B f m s =>
  match m s with (Ok a, s) => f a s | (Err e, s) => (Err e, s) end.

Definition throw {S E A} (e : E) : errst S E A := fun s => (Err e, s).
Definition get {S E} : errst S E S := fun s => (Ok s, s).
Definition modify {S E} (f : S -> S) : errst S E unit := fun s => (Ok tt, f s).

Lemma errst_bind_inv {S E A B} (m : errst S E A) (f : A -> errst S E B) s r s' :
  (m ≫= f) s = (r, s') ->
  (exists a s1, m s = (Ok a, s1) /\ f a s1 = (r, s')) \/
  (exists e, m s = (Err e, s') /\ r = Err e).
Proof. unfold mbind, errst_bind. destruct (m s) as [[a|e] s1]; intros H; simplify_eq; eauto 6. Qed.

(** Reasoning about a sequence: what the first part establishes when it succeeds is
    there for the second; when it fails it has to establish the conclusion. *)
Lemma errst_bind_rule {S E A B} (Q : A -> S -> Prop) (R : result E B -> S -> Prop)
    (m : errst S E A) (f : A -> errst S E B) s :
  (forall r s1, m s = (r, s1) -> match r with Ok a => Q a s1 | Err e => R (Err e) s1 end) ->
  (forall a s1 r s2, Q a s1 -> f a s1 = (r, s2) -> R r s2) ->
  forall r s', (m ≫= f) s = (r, s') -> R r s'.
Proof.
  intros Hm Hf r s' H. apply errst_bind_inv in H as [(a & s1 & H1 & H2)|(e & H1 & ->)].
  - eapply Hf; [exact (Hm _ _ H1)|exact H2].
  - exact (Hm _ _ H1).
Qed.

(** *** Chains of guards

    Go's validators return at the first failing check.  The [guards] rewrite
    base turns the success of such a chain into a conjunction of its checks. *)

Lemma is_ok_err_if {E A} (b : bool) (e : E) (k : result E A) :
  is_ok (if b then Err e else k) = negb b && is_ok k.
Proof. by destruct b. Qed.

Lemma is_ok_or_err_if {E A} (b : bool) (e : E) (k : result E A) :
  is_ok (if b then k else Err e) = b && is_ok k.
Proof. by destruct b. Qed.

Lemma is_ok_ok {E A} (a : A) : is_ok (Ok (E := E) a) = true.
Proof. done. Qed.

Lemma is_ok_bind_const {E A B} (r : result E A) (k : result E B) :
  is_ok (try _ := r in k) = is_ok r && is_ok k.
Proof. by destruct r. Qed.

(** An error passed on under a wrapping message. *)
Definition lift_err {E E' A} (f : E -> E') (r : result E A) : result E' A :=
  match r with Ok a => Ok a | Err e => Err (f e) end.

Lemma lift_err_ok {E E' A} (f : E -> E') (r : result E A) a : lift_err f r = Ok a <-> r = Ok a.
Proof. destruct r; naive_solver. Qed.

Lemma is_ok_lift_err {E E' A} (f : E -> E') (r : result E A) : is_ok (lift_err f r) = is_ok r.
Proof. by destruct r. Qed.

Lemma ok_tt_iff {E} (r : result E unit) : r = Ok tt <-> is_ok r = true.
Proof. destruct r as [[]|]; naive_solver. Qed.

Lemma is_ok_mapM {E A B} (f : A -> result E B) l :
  is_ok (result_mapM f l) = forallb (fun x => is_ok (f x)) l.
Proof.
  induction l as [|x l IH]; simpl; [done|]. rewrite <- IH.
  destruct (f x); simpl; [|done]. by destruct (result_mapM f l).
Qed.

Lemma forallb_elem_of {A} (f : A -> bool) l :
  forallb f l = true <-> forall x, x ∈ l -> f x = true.
Proof. rewrite forallb_forall. by setoid_rewrite list_elem_of_In. Qed.

#[export] Hint Rewrite @is_ok_err_if @is_ok_or_err_if @is_ok_ok @is_ok_bind_const
  @is_ok_lift_err @is_ok_mapM : guards.

(** Reflects a conjunction of boolean checks. *)
#[export] Hint Rewrite andb_true_iff orb_true_iff orb_false_iff negb_true_iff negb_false_iff bool_decide_eq_true
  bool_decide_eq_false negb_andb andb_true_r @forallb_elem_of : reflect_guards.

(** Membership in a list that grew by one element. *)
Lemma ex_snoc {A} (l : list A) y (P : A -> Prop) :
  (exists x, x ∈ l ++ [y] /\ P x) <-> (exists x, x ∈ l /\ P x) \/ P y.
Proof. setoid_rewrite elem_of_app. setoid_rewrite list_elem_of_singleton. naive_solver. Qed.

(** ** Tactics *)

(** Splits conjunctions, existentials and boolean conjunctions in the context. *)
Ltac split_hyps :=
  repeat match goal with
  | H : _ /\ _ |- _ => destruct H
  | H : exists _, _ |- _ => destruct H
  | H : andb _ _ = true |- _ => apply andb_true_iff in H
  | H : orb _ _ = false |- _ => apply orb_false_iff in H
  | H : negb _ = true |- _ => apply negb_true_iff in H
  | H : negb _ = false |- _ => apply negb_false_iff in H
  | H : bool_decide _ = true |- _ => apply bool_decide_eq_true in H
  | H : bool_decide _ = false |- _ => apply bool_decide_eq_false in H
  end.

(** Takes a successful sequence of fallible operations apart, naming what the first
    one gave. *)
Tactic Notation "inv_bind" hyp(H) "as" simple_intropattern(x) simple_intropattern(Hx) :=
  apply result_bind_ok in H as (x & Hx & H); try (apply lift_err_ok in Hx).

(** Matches two conjunctions conjunct by conjunct. *)
Ltac iff_conj :=
  repeat match goal with
  | |- (_ /\ _) <-> (_ /\ _) => apply Morphisms_Prop.and_iff_morphism
  end.

(** Case analysis on every [match] or [if] scrutinee of the goal. *)
Ltac case_all := repeat (case_match; simplify_eq/=; try done).

(** ** Lists as Go slices *)

(** [copy(dst[off:], src)]: overwrite from [off] on, as far as [dst] reaches. *)
Definition copy_at {A} (dst : list A) (off : nat) (src : list A) : list A :=
  take off dst ++ take (length dst - off) src ++ drop (off + length src) dst.

Lemma length_copy_at {A} (dst : list A) off src :
  off <= length dst -> length (copy_at dst off src) = length dst.
Proof. intros. unfold copy_at. rewrite !length_app, !length_take, length_drop. lia. Qed.

(** The writes of Go's [copy] that fit: the destination splits into what stays,
    what is replaced and what follows. *)
Lemma copy_at_app {A} (d1 d2 d3 src : list A) :
  length d2 = length src ->
  copy_at (d1 ++ d2 ++ d3) (length d1) src = d1 ++ src ++ d3.
Proof.
  intros H. unfold copy_at. rewrite take_app_length. f_equal.
  rewrite (take_ge src), (drop_app_ge d1) by (rewrite ?length_app; lia).
  replace (length d1 + length src - length d1) with (length d2) by lia.
  by rewrite drop_app_length.
Qed.

Lemma split_at_length {A} n (l : list A) :
  n <= length l -> exists l1 l2, l = l1 ++ l2 /\ length l1 = n.
Proof.
  intros. exists (take n l), (drop n l). rewrite take_drop, length_take. split; [done|lia].
Qed.

(** Updating a key that is there is inserting the updated value. *)
Lemma alter_Some `{Countable K} {A} (f : A -> A) (m : gmap K A) k x :
  m !! k = Some x -> alter f k m = <[k := f x]> m.
Proof.
  intros E. apply map_eq. intros j. destruct (decide (j = k)) as [->|Hj].
  - by rewrite lookup_alter_eq, lookup_insert_eq, E.
  - by rewrite lookup_alter_ne, lookup_insert_ne.
Qed.

(** A filter that rejects nothing. *)
Lemma list_filter_none {A} (P : A -> Prop) `{forall x, Decision (P x)} (l : list A) :
  (forall x, x ∈ l -> ~ P x) -> filter P l = [].
Proof.
  induction l as [|x l IH]; intros HP; [done|].
  rewrite filter_cons_False by (apply HP; by left). apply IH. intros y Hy. apply HP. by right.
Qed.

Lemma list_filter_all {A} (P : A -> Prop) `{forall x, Decision (P x)} (l : list A) :
  (forall x, x ∈ l -> P x) -> filter P l = l.
Proof.
  induction l as [|x l IH]; intros HP; [done|].
  rewrite filter_cons_True by (apply HP; by left). f_equal. apply IH. intros y Hy. apply HP. by right.
Qed.

(** The last [n] elements. *)
Definition last_n {A} (n : nat) (l : list A) : list A := drop (length l - n) l.

Lemma length_last_n {A} n (l : list A) : length (last_n n l) = min n (length l).
Proof. unfold last_n. rewrite length_drop. lia. Qed.

Lemma last_n_short {A} n (l : list A) : length l <= n -> last_n n l = l.
Proof. intros. unfold last_n. by replace (length l - n) with 0 by lia. Qed.

Lemma last_n_app {A} n (l1 l2 : list A) :
  last_n n (l1 ++ l2) = last_n n (last_n n l1 ++ l2).
Proof.
  unfold last_n. rewrite !length_app, length_drop.
  destruct (decide (n <= length l2)).
  - rewrite !drop_app_ge by (rewrite ?length_drop; lia).
    f_equal. rewrite length_drop. lia.
  - rewrite !drop_app_le by (rewrite ?length_drop; lia).
    rewrite drop_drop. f_equal. f_equal. lia.
Qed.

Lemma last_n_app_exact {A} (l1 l2 : list A) : last_n (length l2) (l1 ++ l2) = l2.
Proof.
  unfold last_n. rewrite length_app.
  by replace (length l1 + length l2 - length l2) with (length l1) by lia;
    rewrite drop_app_length.
Qed.
