(* ===== verification/Prog.v ===== *)
(** * Programs that call

    Code that calls services, shared objects and other goroutines, as a free monad: a
    program is what it calls and what it does with each answer.  Nothing is assumed of
    the answers.  [Par] is an error group: two programs whose calls interleave in any
    order.  [Sub] is a part whose runs another file describes by a relation.  A _run_
    of a program is the trace of its calls with their answers, and the result. *)

From S2P Require Import Prelude.

(** ** Interleavings *)

(** [l] is an interleaving of [l1] and [l2]. *)
Inductive merge {A} : list A -> list A -> list A -> Prop :=
| merge_nil : merge [] [] []
| merge_l x l1 l2 l : merge l1 l2 l -> merge (x :: l1) l2 (x :: l)
| merge_r x l1 l2 l : merge l1 l2 l -> merge l1 (x :: l2) (x :: l).

(** [l] is an interleaving of all the lists of [ls]. *)
Inductive merges {A} : list (list A) -> list A -> Prop :=
| merges_nil : merges [] []
| merges_cons l1 ls l2 l : merges ls l2 -> merge l1 l2 l -> merges (l1 :: ls) l.

#[export] Hint Constructors merge merges : core.

Section Merge.
Context {A : Type}.
Implicit Types (l : list A) (ls : list (list A)).

Lemma merge_refl_l l : merge l [] l.
Proof. induction l; auto. Qed.

Lemma merge_refl_r l : merge [] l l.
Proof. induction l; auto. Qed.

Lemma merge_app l1 l2 : merge l1 l2 (l1 ++ l2).
Proof. induction l1; simpl; [apply merge_refl_r|auto]. Qed.

Lemma merge_perm l1 l2 l : merge l1 l2 l -> l ≡ₚ l1 ++ l2.
Proof.
  induction 1 as [|x l1 l2 l _ IH|x l1 l2 l _ IH]; simpl; [done|by f_equiv|].
  by rewrite IH, Permutation_middle.
Qed.

Lemma merge_Forall (P : A -> Prop) l1 l2 l : merge l1 l2 l -> (Forall P l <-> Forall P l1 /\ Forall P l2).
Proof. intros H. by rewrite (merge_perm _ _ _ H), Forall_app. Qed.

Lemma merge_omap {B} (f : A -> option B) l1 l2 l :
  merge l1 l2 l -> merge (omap f l1) (omap f l2) (omap f l).
Proof. induction 1; simpl; [constructor|destruct (f x); simpl; auto..]. Qed.

Lemma merge_nil_inv l1 l2 : merge l1 l2 [] -> l1 = [] /\ l2 = [].
Proof. by inversion 1. Qed.

Lemma merges_perm ls l : merges ls l -> l ≡ₚ concat ls.
Proof. induction 1 as [|l1 ls l2 l _ IH Hm]; simpl; [done|]. by rewrite (merge_perm _ _ _ Hm), IH. Qed.

Lemma merges_elem ls l x : merges ls l -> (x ∈ l <-> exists t, t ∈ ls /\ x ∈ t).
Proof.
  intros H. rewrite (merges_perm _ _ H). rewrite list_elem_of_In, in_concat.
  setoid_rewrite list_elem_of_In. done.
Qed.

Lemma merges_Forall (P : A -> Prop) ls l : merges ls l -> (Forall P l <-> Forall (fun t => Forall P t) ls).
Proof. intros H. by rewrite (merges_perm _ _ H), Forall_concat. Qed.

Lemma merges_omap {B} (f : A -> option B) ls l :
  merges ls l -> merges (map (omap f) ls) (omap f l).
Proof. induction 1; simpl; [constructor|]. econstructor; [done|]. by apply merge_omap. Qed.

Lemma merge_comm l1 l2 l : merge l1 l2 l -> merge l2 l1 l.
Proof. induction 1; auto. Qed.

(** What precedes an element in its list precedes it in the interleaving. *)
Lemma merge_at u x v l2 l : merge (u ++ x :: v) l2 l -> exists a b, l = a ++ x :: b /\ u ⊆ a.
Proof.
  intros Hm. remember (u ++ x :: v) as l1 eqn:H1 in Hm. revert u H1. induction Hm as [|y l1 l2 l Hm IH|y l1 l2 l Hm IH]; intros u H1.
  - by destruct u.
  - destruct u as [|z u]; injection H1 as -> H1.
    + exists [], l. split; [done|set_solver].
    + destruct (IH u H1) as (a & b & -> & Hu). exists (z :: a), b. split; [done|set_solver].
  - destruct (IH u H1) as (a & b & -> & Hu). exists (y :: a), b. split; [done|set_solver].
Qed.

Lemma merges_at ls l u x v : merges ls l -> u ++ x :: v ∈ ls -> exists a b, l = a ++ x :: b /\ u ⊆ a.
Proof.
  intros Hm. revert u x v. induction Hm as [|l1 ls l2 l Hms IH Hm]; intros u x v Hin; [by apply elem_of_nil in Hin|].
  apply elem_of_cons in Hin as [<-|Hin]; [by eapply merge_at|].
  destruct (IH _ _ _ Hin) as (a & b & -> & Hu). apply merge_comm, merge_at in Hm as (a' & b' & -> & Ha).
  exists a', b'. split; [done|set_solver].
Qed.

Lemma merge_nil_l l r : merge [] l r -> r = l.
Proof. revert r. induction l as [|x l IH]; intros r H; inversion H; subst; [done|]. f_equal. by apply IH. Qed.

Lemma merge_assoc l s r : merge l s r -> forall l1 l2, merge l1 l2 l -> exists m, merge l2 s m /\ merge l1 m r.
Proof.
  induction 1 as [|x l s r H IH|x l s r H IH]; intros l1 l2 Hl.
  - apply merge_nil_inv in Hl as [-> ->]. eauto.
  - inversion Hl as [|? l1' ? ? Hl'|? ? l2' ? Hl']; subst; destruct (IH _ _ Hl') as (m & ? & ?); eauto.
  - destruct (IH _ _ Hl) as (m & ? & ?). eauto.
Qed.

Lemma merges_snoc ls l s r : merges ls l -> merge l s r -> merges (ls ++ [s]) r.
Proof.
  intros Hm. revert r. induction Hm as [|l1 ls l2 l Hms IH Hm]; intros r Hr; simpl.
  - apply merge_nil_l in Hr as ->. econstructor; [constructor|apply merge_refl_l].
  - destruct (merge_assoc _ _ _ Hr _ _ Hm) as (m & Hm2 & Hm1). econstructor; [by apply IH|done].
Qed.

Lemma merges_nil_add ls l : merges ls l -> merges ([] :: ls) l.
Proof. intros H. econstructor; [exact H|]. apply merge_refl_r. Qed.

Lemma merges_concat ls : merges ls (concat ls).
Proof. induction ls as [|l ls IH]; simpl; [constructor|]. econstructor; [exact IH|apply merge_app]. Qed.
End Merge.

(** ** Programs *)

Section Prog.
(** The calls, each with the type of its answer. *)
Context {E : Type -> Type}.

(** A call with its answer. *)
Inductive act : Type :=
| Act {X : Type} (e : E X) (x : X).

Inductive prog (A : Type) : Type :=
| Ret (a : A)
| Call {X : Type} (e : E X) (k : X -> prog A)
| Par {B C : Type} (p : prog B) (q : prog C) (k : B -> C -> prog A)
| Sub {B : Type} (R : list act -> B -> Prop) (k : B -> prog A).

#[global] Arguments Ret {A} a.
#[global] Arguments Call {A X} e k.
#[global] Arguments Par {A B C} p q k.
#[global] Arguments Sub {A B} R k.

#[export] Instance prog_ret : MRet prog := @Ret.

#[export] Instance prog_bind : MBind prog := fun A B f =>
  fix bind p :=
    match p with
    | Ret a => f a
    | Call e k => Call e (fun x => bind (k x))
    | Par p q k => Par p q (fun b c => bind (k b c))
    | Sub R k => Sub R (fun b => bind (k b))
    end.

(** One call. *)
Definition call {X} (e : E X) : prog X := Call e Ret.

(** One part known by its runs. *)
Definition sub {A} (R : list act -> A -> Prop) : prog A := Sub R Ret.

(** An error group: every program of the list, and their results in the list's order. *)
Fixpoint par_list {A} (ps : list (prog A)) : prog (list A) :=
  match ps with
  | [] => mret []
  | p :: ps => Par p (par_list ps) (fun a l => mret (a :: l))
  end.

(** A loop over a list, in order. *)
Fixpoint for_each {A} (f : A -> prog unit) (l : list A) : prog unit :=
  match l with
  | [] => mret tt
  | a :: l => f a ≫= fun _ => for_each f l
  end.

(** A loop that an error ends. *)
Fixpoint for_each_ok {Er A} (f : A -> prog (result Er unit)) (l : list A) : prog (result Er unit) :=
  match l with
  | [] => mret (Ok tt)
  | a :: l => f a ≫= fun r => match r with Ok _ => for_each_ok f l | Err e => mret (Err e) end
  end.

(** ** Runs *)

Fixpoint run {A} (p : prog A) (tr : list act) (r : A) : Prop :=
  match p with
  | Ret a => tr = [] /\ r = a
  | Call e k => exists x tr', tr = Act e x :: tr' /\ run (k x) tr' r
  | Par p q k => exists b c t1 t2 t12 t3, run p t1 b /\ run q t2 c /\ merge t1 t2 t12 /\
                   tr = t12 ++ t3 /\ run (k b c) t3 r
  | Sub R k => exists b t1 t2, R t1 b /\ tr = t1 ++ t2 /\ run (k b) t2 r
  end.

Lemma run_ret {A} (a : A) tr r : run (mret a) tr r <-> tr = [] /\ r = a.
Proof. done. Qed.

Lemma run_call {X} (e : E X) tr x : run (call e) tr x <-> tr = [Act e x].
Proof.
  unfold call; simpl. split; [intros (y & t & H & [? ?]); by subst|intros ->; eauto].
Qed.

Lemma run_sub {A} (R : list act -> A -> Prop) tr r : run (sub R) tr r <-> R tr r.
Proof.
  unfold sub; simpl. split; [intros (b & t1 & t2 & H & ? & [? ?]); subst; by rewrite app_nil_r|].
  intros H. exists r, tr, []. by rewrite app_nil_r.
Qed.

Lemma run_bind {A B} (p : prog A) (f : A -> prog B) tr r :
  run (p ≫= f) tr r <-> exists a t1 t2, tr = t1 ++ t2 /\ run p t1 a /\ run (f a) t2 r.
Proof.
  revert f tr r. induction p as [A a|A X e k IH|A B' C p IHp q IHq k IH|A B' R k IH]; intros f tr r; simpl.
  - split; [intros H; by exists a, [], tr|intros (a' & t1 & t2 & H0 & H1 & H2); destruct H1; by subst].
  - split.
    + intros (x & tr' & -> & (a & t1 & t2 & -> & H1 & H2)%IH). exists a, (Act e x :: t1), t2. eauto 10.
    + intros (a & t1 & t2 & -> & (x & t1' & -> & H1) & H2). exists x, (t1' ++ t2). split; [done|].
      apply IH. eauto 10.
  - split.
    + intros (b & c & t1 & t2 & t12 & t3 & Hp & Hq & Hm & -> & (a & u1 & u2 & -> & H1 & H2)%IH).
      exists a, (t12 ++ u1), u2. rewrite app_assoc. split; [done|]. split; [|done].
      exists b, c, t1, t2, t12, u1. eauto 10.
    + intros (a & u1 & u2 & -> & (b & c & t1 & t2 & t12 & t3 & Hp & Hq & Hm & -> & H1) & H2).
      exists b, c, t1, t2, t12, (t3 ++ u2). rewrite app_assoc. split_and!; try done.
      apply IH. eauto 10.
  - split.
    + intros (b & t1 & t2 & HR & -> & (a & u1 & u2 & -> & H1 & H2)%IH).
      exists a, (t1 ++ u1), u2. rewrite app_assoc. split; [done|]. split; [|done]. exists b, t1, u1. done.
    + intros (a & u1 & u2 & -> & (b & t1 & t2 & HR & -> & H1) & H2).
      exists b, t1, (t2 ++ u2). rewrite app_assoc. split_and!; try done. apply IH. eauto 10.
Qed.

Lemma run_par_list {A} (ps : list (prog A)) tr rs :
  run (par_list ps) tr rs <->
  exists trs, Forall3 (fun p t r => run p t r) ps trs rs /\ merges trs tr.
Proof.
  revert tr rs. induction ps as [|p ps IH]; intros tr rs; simpl.
  - split; [intros [-> ->]; exists []; split; constructor|].
    intros (trs & H & Hm). inversion H; subst. by inversion Hm.
  - split.
    + intros (a & l & t1 & t2 & t12 & t3 & Hp & (trs & H & Hm)%IH & Hmg & -> & -> & ->).
      rewrite app_nil_r. exists (t1 :: trs). split; [by constructor|by econstructor].
    + intros (trs & H & Hm). inversion H as [|? t1 a ? trs' l Hp Hps]; subst.
      inversion Hm as [|? ? t2 ? Hm' Hmg]; subst.
      exists a, l, t1, t2, tr, []. rewrite app_nil_r. split_and!; try done. apply IH. eauto.
Qed.

(** *** Postconditions

    [sat p Q]: every run of [p] satisfies [Q]. *)
Definition sat {A} (p : prog A) (Q : list act -> A -> Prop) : Prop := forall tr r, run p tr r -> Q tr r.

Lemma sat_conseq {A} (p : prog A) (Q Q' : list act -> A -> Prop) :
  sat p Q -> (forall tr r, Q tr r -> Q' tr r) -> sat p Q'.
Proof. intros H HQ tr r Hr. by apply HQ, H. Qed.

Lemma sat_ret {A} (a : A) Q : Q [] a -> sat (mret a) Q.
Proof. by intros H tr r [-> ->]. Qed.

Lemma sat_call {X} (e : E X) Q : (forall x, Q [Act e x] x) -> sat (call e) Q.
Proof. intros H tr r ->%run_call. apply H. Qed.

(** A sequence: what holds of the first part's trace is there to show the whole. *)
Lemma sat_bind {A B} (p : prog A) (f : A -> prog B) P Q :
  sat p P -> (forall a t1, P t1 a -> sat (f a) (fun t2 r => Q (t1 ++ t2) r)) -> sat (p ≫= f) Q.
Proof. intros Hp Hf tr r (a & t1 & t2 & -> & H1 & H2)%run_bind. eapply Hf; [by apply Hp|done]. Qed.

(** A property of traces that interleaving keeps. *)
Class Closed (Q : list act -> Prop) := {
  closed_nil : Q [];
  closed_merge t1 t2 t : merge t1 t2 t -> Q t1 -> Q t2 -> Q t;
}.

#[export] Instance Forall_closed P : Closed (Forall P).
Proof. split; [constructor|]. intros t1 t2 t Hm H1 H2. by apply (merge_Forall _ _ _ _ Hm). Qed.

Lemma closed_app Q `{HQ : !Closed Q} t1 t2 : Q t1 -> Q t2 -> Q (t1 ++ t2).
Proof. apply closed_merge, merge_app. Qed.

Lemma closed_merges Q `{HQ : !Closed Q} ts t : merges ts t -> Forall Q ts -> Q t.
Proof. induction 1 as [|t1 ts t2 t _ IH Hm]; intros Hq; [apply closed_nil|]. inversion Hq; subst. eapply closed_merge; eauto. Qed.

(** The traces of a program have the property. *)
Definition traces {A} (p : prog A) (Q : list act -> Prop) : Prop := sat p (fun tr _ => Q tr).

Section Holds.
Context (Q : list act -> Prop) `{HQ : !Closed Q}.

Lemma traces_ret {A} (a : A) : traces (mret a) Q.
Proof. apply sat_ret, closed_nil. Qed.

Lemma traces_bind {A B} (p : prog A) (f : A -> prog B) :
  traces p Q -> (forall a, traces (f a) Q) -> traces (p ≫= f) Q.
Proof.
  intros Hp Hf. eapply sat_bind; [exact Hp|]. intros a t1 H1 tr r Hr. apply closed_app; [done|done|].
  by eapply Hf.
Qed.

Lemma traces_Par {A B C} (p : prog A) (q : prog B) (k : A -> B -> prog C) :
  traces p Q -> traces q Q -> (forall a b, traces (k a b) Q) -> traces (Par p q k) Q.
Proof.
  intros Hp Hq Hk tr r (a & b & t1 & t2 & t12 & t3 & H1 & H2 & Hm & -> & H3).
  apply closed_app; [done| |by eapply Hk]. eapply closed_merge; [exact Hm|by eapply Hp|by eapply Hq].
Qed.

Lemma traces_par_list {A} (ps : list (prog A)) : Forall (fun p => traces p Q) ps -> traces (par_list ps) Q.
Proof.
  intros Hall tr rs (trs & H3 & Hm)%run_par_list. apply (closed_merges _ _ _ Hm). clear Hm.
  induction H3 as [|p t r ps trs rs Hr _ IH]; [constructor|]. inversion Hall; subst. constructor; [eauto|by apply IH].
Qed.

Lemma traces_for_each {A} (f : A -> prog unit) l :
  (forall a, a ∈ l -> traces (f a) Q) -> traces (for_each f l) Q.
Proof.
  induction l as [|a l IH]; intros H; simpl; [apply traces_ret|].
  apply traces_bind; [apply H; left|]. intros _. apply IH. intros b Hb. apply H. by right.
Qed.
End Holds.

(** A property of every act of a trace. *)
Definition always {A} (p : prog A) (P : act -> Prop) : Prop := traces p (Forall P).

Lemma always_ret {A} (a : A) P : always (mret a) P.
Proof. apply traces_ret, _. Qed.

Lemma always_call {X} (e : E X) P : (forall x, P (Act e x)) -> always (call e) P.
Proof. intros H. apply sat_call. intros x. constructor; [done|constructor]. Qed.

Lemma always_bind {A B} (p : prog A) (f : A -> prog B) P :
  always p P -> (forall a, always (f a) P) -> always (p ≫= f) P.
Proof. apply traces_bind, _. Qed.

Lemma always_Par {A B C} (p : prog A) (q : prog B) (k : A -> B -> prog C) P :
  always p P -> always q P -> (forall a b, always (k a b) P) -> always (Par p q k) P.
Proof. apply traces_Par, _. Qed.

Lemma always_par_list {A} (ps : list (prog A)) P : Forall (fun p => always p P) ps -> always (par_list ps) P.
Proof. apply traces_par_list, _. Qed.

Lemma always_for_each {A} (f : A -> prog unit) l P :
  (forall a, a ∈ l -> always (f a) P) -> always (for_each f l) P.
Proof. apply traces_for_each, _. Qed.

(** ** Running a program

    Against a handler that answers the calls; the programs of an error group one
    after another, which is one of their interleavings.  A [Sub] cannot be run. *)
Context {S : Type} (h : forall X, E X -> S -> X * S).

Fixpoint exec {A} (p : prog A) (s : S) : option (A * list act * S) :=
  match p with
  | Ret a => Some (a, [], s)
  | Call e k =>
    let '(x, s) := h _ e s in
    match exec (k x) s with Some (a, tr, s) => Some (a, Act e x :: tr, s) | None => None end
  | Par p q k =>
    match exec p s with
    | None => None
    | Some (b, t1, s) =>
      match exec q s with
      | None => None
      | Some (c, t2, s) =>
        match exec (k b c) s with Some (a, t3, s) => Some (a, (t1 ++ t2) ++ t3, s) | None => None end
      end
    end
  | Sub _ _ => None
  end.

Lemma exec_run {A} (p : prog A) s a tr s' : exec p s = Some (a, tr, s') -> run p tr a.
Proof.
  revert s a tr s'. induction p as [A a0|A X e k IH|A B C p IHp q IHq k IH|A B R k IH]; intros s a tr s'; simpl.
  - by intros [= -> <- _].
  - destruct (h X e s) as [x s1]. destruct (exec (k x) s1) as [[[a1 t] s2]|] eqn:E1; [|done].
    intros [= -> <- _]. eauto.
  - destruct (exec p s) as [[[b t1] s1]|] eqn:E1; [|done].
    destruct (exec q s1) as [[[c t2] s2]|] eqn:E2; [|done].
    destruct (exec (k b c) s2) as [[[a1 t3] s3]|] eqn:E3; [|done].
    intros [= -> <- _]. exists b, c, t1, t2, (t1 ++ t2), t3. split_and!; eauto using merge_app.
  - done.
Qed.
End Prog.

Arguments act : clear implicits.
Arguments prog : clear implicits.

(** A sequence in which an error ends the function: [x <-? p; k]. *)
Notation "'attempt' x := p 'in' k" :=
  (p ≫= fun r => match r with Ok x => k | Err e => mret (Err e) end)
  (at level 200, x pattern, p at level 100, k at level 200) : cmdman_scope.

(** Takes the runs of a sequence apart. *)
Ltac run_inv :=
  repeat match goal with
  | H : run (mret _) _ _ |- _ => apply run_ret in H as [-> ->]
  | H : run (Ret _) _ _ |- _ => apply run_ret in H as [-> ->]
  | H : run (call _) _ _ |- _ => apply run_call in H as ->
  | H : run (_ ≫= _) _ _ |- _ => apply run_bind in H as (? & ? & ? & -> & ? & ?)
  end.

(** Takes the first part of a sequence off: its result, its trace, and its run (a call
    is its trace at once). *)
Tactic Notation "inv_run" hyp(H) "as" simple_intropattern(x) ident(t) simple_intropattern(Hx) :=
  let t2 := fresh t "'" in
  apply run_bind in H as (x & t & t2 & -> & Hx & H); cbv beta iota zeta in H;
  try (apply run_call in Hx; subst t).

(** The end of a program. *)
Ltac inv_ret H :=
  apply run_ret in H as [-> H];
  first [discriminate H | injection H; clear H; intros; subst; try discriminate | progress subst | idtac].
