(* ===== verification/RingBuffer.v ===== *)
(** * The monitor's scrollback ring buffer

    [cmdman/monitor/ringbuffer.go]. A [ringBuffer] keeps the newest bytes of a
    command's output in a fixed array; [Bytes] replays them in order.  The
    abstract specification is the output history itself: the buffer holds its
    last [capacity] bytes. *)

From S2P Require Import Prelude.

(* src/cmdman/monitor/ringbuffer.go:6-11 ringBuffer *)
Record ringBuffer := RingBuffer {
  buf : list Z;
  pos : nat;
  full : bool;
}.

(* src/cmdman/monitor/ringbuffer.go:13-16 newRingBuffer *)
Definition newRingBuffer (capacity : nat) : ringBuffer :=
  {| buf := replicate capacity 0%Z; pos := 0; full := false |}.

(* src/cmdman/monitor/ringbuffer.go:18-50 ringBuffer.Write *)
Definition Write (r : ringBuffer) (p : list Z) : ringBuffer :=
  let pLen := length p in
  let bufLen := length (buf r) in
  if decide (bufLen <= pLen) then
    {| buf := copy_at (buf r) 0 (drop (pLen - bufLen) p); pos := 0; full := true |}
  else
    let remaining := bufLen - pos r in
    let buf' :=
      if decide (pLen <= remaining) then copy_at (buf r) (pos r) p
      else copy_at (copy_at (buf r) (pos r) (take remaining p)) 0 (drop remaining p) in
    let pos' := (pos r + pLen) mod bufLen in
    {| buf := buf'; pos := pos';
       full := full r || bool_decide (pos' < pLen) |}.

(* src/cmdman/monitor/ringbuffer.go:52-67 ringBuffer.Bytes *)
Definition Bytes (r : ringBuffer) : list Z :=
  if full r then drop (pos r) (buf r) ++ take (pos r) (buf r)
  else take (pos r) (buf r).

(** The buffer [r] of capacity [cap] represents the output history [h]. *)
Record represents (cap : nat) (h : list Z) (r : ringBuffer) : Prop := {
  rep_len : length (buf r) = cap;
  rep_pos : pos r <= cap;
  rep_wrap : 0 < cap -> pos r < cap;
  rep_part : full r = false -> length h = pos r;
  rep_full : full r = true -> cap <= length h;
  rep_bytes : Bytes r = last_n cap h;
}.

Lemma newRingBuffer_represents cap : represents cap [] (newRingBuffer cap).
Proof.
  constructor; simpl; try lia; try done.
  by rewrite length_replicate.
Qed.

(** The array as Go sees it: the bytes before the write position and those
    from it on. *)
Lemma buf_split r cap h :
  represents cap h r ->
  exists a b, buf r = a ++ b /\ length a = pos r /\ length a + length b = cap.
Proof.
  intros [Hl Hp _ _ _ _]. exists (take (pos r) (buf r)), (drop (pos r) (buf r)).
  rewrite take_drop, length_take, length_drop. split_and!; [done|lia..].
Qed.

(** What [Bytes] says of a buffer split at its write position. *)
Lemma Bytes_split a b f :
  Bytes {| buf := a ++ b; pos := length a; full := f |} = if f then b ++ a else a.
Proof.
  unfold Bytes; simpl. rewrite take_app_length, drop_app_length. by destruct f.
Qed.

(** The two shapes a write shorter than the array takes: it fits behind the
    write position, or it runs over the end of the array and wraps. *)
Lemma Write_fits a b1 b2 f p :
  length b1 = length p -> 0 < length a + length b2 ->
  Write {| buf := a ++ b1 ++ b2; pos := length a; full := f |} p
  = {| buf := a ++ p ++ b2;
       pos := (length a + length p) mod (length a + length p + length b2);
       full := f || bool_decide
         ((length a + length p) mod (length a + length p + length b2) < length p) |}.
Proof.
  intros H1 H2. unfold Write; simpl. rewrite !length_app.
  rewrite decide_False by lia. rewrite decide_True by lia.
  rewrite copy_at_app by done.
  by replace (length a + (length b1 + length b2))
    with (length a + length p + length b2) by lia.
Qed.

Lemma Write_wraps a1 a2 b f p1 p2 :
  length b = length p1 -> length a1 = length p2 -> 0 < length a2 -> 0 < length p1 -> 0 < length p2 ->
  Write {| buf := (a1 ++ a2) ++ b; pos := length (a1 ++ a2); full := f |} (p1 ++ p2)
  = {| buf := p2 ++ a2 ++ p1; pos := length p2; full := true |}.
Proof.
  intros H1 H2 H3 H4 H5. unfold Write; simpl. rewrite !length_app.
  rewrite decide_False by lia. rewrite decide_False by lia.
  replace (length a1 + length a2 + length b - (length a1 + length a2))
    with (length p1) by lia.
  rewrite take_app_length, drop_app_length.
  pose proof (copy_at_app (a1 ++ a2) b [] p1 H1) as E1.
  rewrite !app_nil_r, length_app in E1. rewrite E1.
  pose proof (copy_at_app [] a1 (a2 ++ p1) p2 H2) as E2. simpl in E2.
  rewrite <- (app_assoc a1). rewrite E2.
  replace (length a1 + length a2 + (length p1 + length p2))
    with (length p2 + 1 * (length a1 + length a2 + length b)) by lia.
  rewrite Nat.Div0.mod_add, Nat.mod_small by lia.
  rewrite bool_decide_true by lia. by rewrite orb_true_r.
Qed.

(** A write of at least the capacity replaces the whole array. *)
Lemma Write_represents_big cap h r p :
  represents cap h r -> cap <= length p -> represents cap (h ++ p) (Write r p).
Proof.
  intros [Hl _ _ _ _ _] Hbig. unfold Write. rewrite Hl, decide_True by done.
  pose proof (length_drop p (length p - cap)) as Hd.
  pose proof (copy_at_app [] (buf r) [] (drop (length p - cap) p)) as E.
  rewrite !app_nil_r in E. simpl in E. rewrite E by (rewrite Hd; lia).
  constructor; simpl; rewrite ?length_app; try lia; try done.
  unfold Bytes; simpl. rewrite drop_0, take_0, app_nil_r.
  rewrite last_n_app. unfold last_n at 1 2. rewrite length_app, length_drop.
  rewrite drop_app_ge by (rewrite length_drop; lia). rewrite length_drop.
  f_equal. lia.
Qed.

(** A shorter write that fits behind the write position. *)
Lemma Write_represents_fits cap h a b1 b2 f p :
  represents cap h {| buf := a ++ b1 ++ b2; pos := length a; full := f |} ->
  length b1 = length p -> length p < cap ->
  represents cap (h ++ p)
    (Write {| buf := a ++ b1 ++ b2; pos := length a; full := f |} p).
Proof.
  intros [Hl Hp Hw Hpart Hfull Hbytes] Hb1 Hsmall; simpl in *.
  rewrite !length_app in Hl. rewrite Write_fits by lia. rewrite Bytes_split in Hbytes.
  destruct (decide (0 < length b2)) as [Hb2|Hb2].
  - rewrite Nat.mod_small by lia. rewrite bool_decide_false, orb_false_r by lia.
    constructor; simpl; rewrite ?length_app; try lia.
    + intros ->. rewrite (Hpart eq_refl). lia.
    + intros ->. specialize (Hfull eq_refl). lia.
    + rewrite app_assoc, <- length_app, Bytes_split, last_n_app, <- Hbytes.
      destruct f.
      * rewrite <- !app_assoc. replace cap with (length (b2 ++ a ++ p))
          by (rewrite !length_app; lia). by rewrite last_n_app_exact.
      * rewrite last_n_short; [done|]. rewrite length_app. lia.
  - assert (b2 = []) as -> by (apply nil_length_inv; lia). simpl in *.
    rewrite Nat.add_0_r, Nat.Div0.mod_same.
    assert (f || bool_decide (0 < length p) = true) as ->.
    { destruct f; [done|]. simpl. apply bool_decide_true. lia. }
    constructor; simpl; rewrite ?length_app; try (simpl; lia); try done.
    + intros _. destruct f; [specialize (Hfull eq_refl); lia|].
      rewrite (Hpart eq_refl). lia.
    + unfold Bytes; simpl. rewrite drop_0, take_0, !app_nil_r.
      rewrite last_n_app, <- Hbytes.
      replace cap with (length (a ++ p)) by (rewrite length_app; lia).
      destruct f; [|by rewrite last_n_short].
      rewrite app_nil_r, <- app_assoc. by rewrite last_n_app_exact.
Qed.

(** A shorter write that runs over the end of the array. *)
Lemma Write_represents_wraps cap h a1 a2 b f p1 p2 :
  represents cap h {| buf := (a1 ++ a2) ++ b; pos := length (a1 ++ a2); full := f |} ->
  length b = length p1 -> length a1 = length p2 ->
  length (p1 ++ p2) < cap -> 0 < length p2 ->
  represents cap (h ++ p1 ++ p2)
    (Write {| buf := (a1 ++ a2) ++ b; pos := length (a1 ++ a2); full := f |} (p1 ++ p2)).
Proof.
  intros [Hl Hp Hw Hpart Hfull Hbytes] Hb Ha1 Hsmall Hp2; simpl in *.
  rewrite Bytes_split in Hbytes. rewrite length_app, length_app in Hl; rewrite !length_app in Hp, Hw, Hpart, Hsmall.
  rewrite Write_wraps by lia.
  constructor; simpl; rewrite ?length_app; try lia; try done.
  - intros _. destruct f; [specialize (Hfull eq_refl); lia|].
    rewrite (Hpart eq_refl). lia.
  - rewrite Bytes_split, last_n_app, <- Hbytes.
    replace cap with (length ((a2 ++ p1) ++ p2)) by (rewrite !length_app; lia).
    destruct f; [rewrite (app_assoc b)|]; rewrite <- !app_assoc.
    + rewrite (app_assoc b a1). by rewrite last_n_app_exact.
    + by rewrite last_n_app_exact.
Qed.

(** One write keeps the representation: the history grows by what was written. *)
Lemma Write_represents cap h r p :
  represents cap h r -> represents cap (h ++ p) (Write r p).
Proof.
  intros Hr. destruct (decide (cap <= length p)) as [Hbig|Hsmall].
  { by apply Write_represents_big. }
  destruct (buf_split _ _ _ Hr) as (a & b & Hb & Ha & Hc).
  destruct r as [rb rp rf]; simpl in *; subst rb rp.
  destruct (decide (length p <= length b)) as [Hfit|Hwrap].
  - destruct (split_at_length (length p) b Hfit) as (b1 & b2 & -> & Hb1).
    apply Write_represents_fits; [done|done|lia].
  - destruct (split_at_length (length b) p) as (p1 & p2 & -> & Hp1); [lia|].
    rewrite length_app in *.
    destruct (split_at_length (length p2) a) as (a1 & a2 & -> & Ha1); [lia|].
    apply Write_represents_wraps; [done| |done|rewrite length_app|]; lia.
Qed.

Lemma Writes_represent cap h r ws :
  represents cap h r -> represents cap (h ++ concat ws) (foldl Write r ws).
Proof.
  revert h r; induction ws as [|w ws IH]; intros h r Hr; simpl.
  - by rewrite app_nil_r.
  - rewrite app_assoc. by apply IH, Write_represents.
Qed.

(** however the output of a command is cut into writes, a scrollback buffer of any
    capacity (zero included) replays exactly the last [cap] bytes of everything
    written so far, in order. *)
Theorem scrollback_replays_last_bytes cap ws :
  Bytes (foldl Write (newRingBuffer cap) ws) = last_n cap (concat ws).
Proof.
  apply (rep_bytes _ _ _ (Writes_represent cap [] _ ws (newRingBuffer_represents cap))).
Qed.
