(* ===== verification/HookFilter.v ===== *)
(** * The filter of captured sequences

    [cmdman/monitor/hook_filter.go]: a byte-at-a-time state machine that takes the
    sequences a hook blocks (bells, titles, notifications) out of the stream a viewer
    gets.  The specification is a list of tokens (bytes, runes, escapes, OSC strings):
    the filter is the machine that drops the blocked tokens without ever holding more
    of the stream than it takes to tell. *)

From S2P Require Import Prelude.

(** ** The code *)

(* src/cmdman/monitor/hook_filter.go:5-11 hookBlocks *)
Record hookBlocks := { Bell : bool; Title : bool; Notification : bool }.

(* src/cmdman/monitor/hook_filter.go:13-15 hookBlocks.any *)
Definition blocks_any (b : hookBlocks) : bool := Bell b || Title b || Notification b.

(* src/cmdman/monitor/hook_filter.go:17-28 hookFilterGround *)
Inductive filterState :=
| hookFilterGround
| hookFilterEsc
| hookFilterUtf8
| hookFilterOscID
| hookFilterOscPass
| hookFilterOscDrop
| hookFilterOscDropEsc.

(* src/cmdman/monitor/hook_filter.go:30-41 oscByteData *)
Inductive oscByte := oscByteData | oscByteEnd | oscByteEsc | oscByteAbort.

#[export] Instance filterState_eq_dec : EqDecision filterState.
Proof. solve_decision. Defined.
#[export] Instance oscByte_eq_dec : EqDecision oscByte.
Proof. solve_decision. Defined.

(* src/cmdman/monitor/hook_filter.go:43-57 classifyOscByte *)
Definition classifyOscByte (b : Z) : oscByte :=
  if decide (b = 0x07 \/ b = 0x9c)%Z then oscByteEnd
  else if decide (b = 0x1b)%Z then oscByteEsc
  else if decide (b = 0x18 \/ b = 0x1a)%Z then oscByteAbort
  else oscByteData.

(* src/cmdman/monitor/hook_filter.go:59-62 oscDecideLimit *)
Definition oscDecideLimit : nat := 32.

(* src/cmdman/monitor/hook_filter.go:64-88 hookFilter *)
Record hookFilter := MkFilter {
  hf_blocks : hookBlocks;
  hf_state : filterState;
  hf_pending : list Z;
  prefixLen : nat;
  utf8Rest : Z;
  escCarry : nat;
}.

(** No filter ([None]) passes everything. *)
(* src/cmdman/monitor/hook_filter.go:90-97 newHookFilter *)
Definition newHookFilter (blocks : hookBlocks) : option hookFilter :=
  if blocks_any blocks then Some (MkFilter blocks hookFilterGround [] 0 0 0) else None.

(** [bytes.Cut] at a semicolon. *)
Fixpoint cut_semi (l : list Z) : list Z * list Z * bool :=
  match l with
  | [] => ([], [], false)
  | b :: l => if decide (b = 0x3b)%Z then ([], l, true)
              else let '(x, y, found) := cut_semi l in (b :: x, y, found)
  end.

(* src/cmdman/monitor/hook_filter.go:384-391 isDigits *)
Definition isDigits (l : list Z) : bool := forallb (fun c => bool_decide (0x30 <= c <= 0x39)%Z) l.

(* src/cmdman/monitor/hook_filter.go:345-365 hookFilter.decideOsc9 *)
Definition decideOsc9 (blocks : hookBlocks) (rest : list Z) (terminated : bool) : bool * bool :=
  match rest with
  | [] => if terminated then (false, true) else (false, false)
  | b :: rest' =>
    if negb (bool_decide (b = 0x34)%Z) then (Notification blocks, true)
    else match rest' with
         | [] => if terminated then (false, true) else (false, false)
         | c :: _ => if bool_decide (c = 0x3b)%Z then (false, true) else (Notification blocks, true)
         end
  end.

(** The bytes of ["notify"]. *)
Definition notify : list Z := [0x6e; 0x6f; 0x74; 0x69; 0x66; 0x79]%Z.

(* src/cmdman/monitor/hook_filter.go:367-382 hookFilter.decideOsc777 *)
Definition decideOsc777 (blocks : hookBlocks) (rest : list Z) (terminated : bool) : bool * bool :=
  let '(sub, _, hasSep) := cut_semi rest in
  if negb hasSep then
    if terminated || bool_decide (length notify < length sub) || negb (bool_decide (sub `prefix_of` notify))
    then (false, true) else (false, false)
  else if negb (bool_decide (sub = notify)) then (false, true)
  else (Notification blocks, true).

(** The number is compared as a string: ["0"], ["2"], ["9"], ["777"]. *)
(* src/cmdman/monitor/hook_filter.go:314-343 hookFilter.decideOsc *)
Definition decideOsc (blocks : hookBlocks) (body : list Z) (terminated : bool) : bool * bool :=
  let '(num, rest, hasSep) := cut_semi body in
  if bool_decide (num = []) || negb (isDigits num) then (false, true)
  else if negb hasSep then
    if terminated || bool_decide (3 < length num) then (false, true) else (false, false)
  else if decide (num = [0x30]%Z \/ num = [0x32]%Z) then (Title blocks, true)
  else if decide (num = [0x39]%Z) then decideOsc9 blocks rest terminated
  else if decide (num = [0x37; 0x37; 0x37]%Z) then decideOsc777 blocks rest terminated
  else (false, true).

(* src/cmdman/monitor/hook_filter.go:165-177 utf8RuneLen *)
Definition utf8RuneLen (b : Z) : Z :=
  if decide (0xc2 <= b <= 0xdf)%Z then 2
  else if decide (0xe0 <= b <= 0xef)%Z then 3
  else if decide (0xf0 <= b <= 0xf4)%Z then 4
  else 1.

(** Each handler gives the filter after the byte and the bytes it appends to the output. *)
Definition goto (f : hookFilter) (st : filterState) : hookFilter :=
  MkFilter (hf_blocks f) st (hf_pending f) (prefixLen f) (utf8Rest f) (escCarry f).

(* src/cmdman/monitor/hook_filter.go:179-191 hookFilter.beginOsc *)
Definition beginOsc (f : hookFilter) (introducer : list Z) : hookFilter :=
  let pending := replicate (escCarry f) 0x1b%Z ++ introducer in
  MkFilter (hf_blocks f) hookFilterOscID pending (length pending) (utf8Rest f) 0.

(* src/cmdman/monitor/hook_filter.go:127-148 hookFilter.ground *)
Definition ground (f : hookFilter) (b : Z) : hookFilter * list Z :=
  if decide (b = 0x1b)%Z then (goto f hookFilterEsc, [])
  else if decide (b = 0x9d)%Z then (beginOsc f [0x9d]%Z, [])
  else if bool_decide (b = 0x07)%Z && Bell (hf_blocks f) then (f, [])
  else if decide (1 < utf8RuneLen b)%Z
  then (MkFilter (hf_blocks f) hookFilterUtf8 (hf_pending f) (prefixLen f) (utf8RuneLen b - 1) (escCarry f), [b])
  else (f, [b]).

(* src/cmdman/monitor/hook_filter.go:150-163 hookFilter.utf8 *)
Definition utf8 (f : hookFilter) (b : Z) : hookFilter * list Z :=
  let rest := (utf8Rest f - 1)%Z in
  (MkFilter (hf_blocks f) (if decide (rest <= 0)%Z then hookFilterGround else hf_state f)
     (hf_pending f) (prefixLen f) rest (escCarry f), [b]).

(* src/cmdman/monitor/hook_filter.go:219-228 hookFilter.flushEscCarry *)
Definition flushEscCarry (f : hookFilter) : hookFilter * list Z :=
  (MkFilter (hf_blocks f) (hf_state f) (hf_pending f) (prefixLen f) (utf8Rest f) 0,
   replicate (escCarry f) 0x1b%Z).

(* src/cmdman/monitor/hook_filter.go:193-217 hookFilter.esc *)
Definition esc (f : hookFilter) (b : Z) : hookFilter * list Z :=
  if decide (b = 0x5d)%Z then (beginOsc f [0x1b; 0x5d]%Z, [])
  else if decide (b = 0x9d)%Z then (beginOsc f [0x1b; 0x9d]%Z, [])
  else if decide (b = 0x1b)%Z
  then (MkFilter (hf_blocks f) (hf_state f) (hf_pending f) (prefixLen f) (utf8Rest f) (S (escCarry f)), [])
  else let '(f, out) := flushEscCarry (goto f hookFilterGround) in (f, out ++ [0x1b; b]%Z).

(* src/cmdman/monitor/hook_filter.go:258-274 oscIDNext *)
Definition oscIDNext (class : oscByte) (block : bool) : filterState :=
  match class with
  | oscByteEnd | oscByteAbort => hookFilterGround
  | oscByteEsc => if block then hookFilterOscDropEsc else hookFilterEsc
  | oscByteData => if block then hookFilterOscDrop else hookFilterOscPass
  end.

(* src/cmdman/monitor/hook_filter.go:230-256 hookFilter.oscID *)
Definition oscID (f : hookFilter) (b : Z) : hookFilter * list Z :=
  let class := classifyOscByte b in
  let pending := if decide (class = oscByteEsc) then hf_pending f else hf_pending f ++ [b] in
  let body := drop (prefixLen f) pending in
  let body := if decide (class = oscByteEnd \/ class = oscByteAbort) then take (length body - 1) body else body in
  let '(block, decided) := decideOsc (hf_blocks f) body (negb (bool_decide (class = oscByteData))) in
  if negb decided && bool_decide (class = oscByteData) && bool_decide (length body < oscDecideLimit)
  then (MkFilter (hf_blocks f) (hf_state f) pending (prefixLen f) (utf8Rest f) (escCarry f), [])
  else (MkFilter (hf_blocks f) (oscIDNext class block) [] (prefixLen f) (utf8Rest f) (escCarry f),
        if block then [] else pending).

(* src/cmdman/monitor/hook_filter.go:276-287 hookFilter.oscPass *)
Definition oscPass (f : hookFilter) (b : Z) : hookFilter * list Z :=
  match classifyOscByte b with
  | oscByteEsc => (goto f hookFilterEsc, [])
  | oscByteEnd | oscByteAbort => (goto f hookFilterGround, [b])
  | oscByteData => (f, [b])
  end.

(* src/cmdman/monitor/hook_filter.go:289-300 hookFilter.oscDrop *)
Definition oscDrop (f : hookFilter) (b : Z) : hookFilter * list Z :=
  match classifyOscByte b with
  | oscByteEsc => (goto f hookFilterOscDropEsc, [])
  | oscByteEnd | oscByteAbort => (goto f hookFilterGround, [])
  | oscByteData => (f, [])
  end.

(* src/cmdman/monitor/hook_filter.go:302-312 hookFilter.oscDropEsc *)
Definition oscDropEsc (f : hookFilter) (b : Z) : hookFilter * list Z :=
  if decide (b = 0x5c)%Z then (goto f hookFilterGround, [])
  else esc (goto f hookFilterEsc) b.

(** The [switch] of the loop. *)
(* src/cmdman/monitor/hook_filter.go:107-122 hookFilter.filter *)
Definition filter_byte (f : hookFilter) (b : Z) : hookFilter * list Z :=
  match hf_state f with
  | hookFilterGround => ground f b
  | hookFilterEsc => esc f b
  | hookFilterUtf8 => utf8 f b
  | hookFilterOscID => oscID f b
  | hookFilterOscPass => oscPass f b
  | hookFilterOscDrop => oscDrop f b
  | hookFilterOscDropEsc => oscDropEsc f b
  end.

Fixpoint filter_bytes (f : hookFilter) (data : list Z) : hookFilter * list Z :=
  match data with
  | [] => (f, [])
  | b :: data => let '(f, o1) := filter_byte f b in let '(f, o2) := filter_bytes f data in (f, o1 ++ o2)
  end.

(* src/cmdman/monitor/hook_filter.go:99-125 hookFilter.filter *)
Definition hook_filter (f : option hookFilter) (data : list Z) : option hookFilter * list Z :=
  match f with
  | None => (None, data)
  | Some f => let '(f, out) := filter_bytes f data in (Some f, out)
  end.

(** A stream in the chunks it arrives in. *)
Fixpoint hook_filter_chunks (f : option hookFilter) (chunks : list (list Z)) : option hookFilter * list Z :=
  match chunks with
  | [] => (f, [])
  | c :: chunks => let '(f, o1) := hook_filter f c in let '(f, o2) := hook_filter_chunks f chunks in (f, o1 ++ o2)
  end.

(** ** When the decision is made *)

(** The hooked forms, on a whole body: the titles [0;…] and [2;…], the notification
    [9;msg] (with a message, and not the progress form [9;4]), and
    [777;notify;…]. *)
Definition hooked (blocks : hookBlocks) (body : list Z) : bool :=
  let '(num, rest, hasSep) := cut_semi body in
  hasSep &&
  (if decide (num = [0x30]%Z \/ num = [0x32]%Z) then Title blocks
   else if decide (num = [0x39]%Z)
   then Notification blocks && negb (bool_decide (rest = [] \/ rest = [0x34]%Z \/ [0x34; 0x3b]%Z `prefix_of` rest))
   else if decide (num = [0x37; 0x37; 0x37]%Z)
   then Notification blocks && bool_decide (notify ++ [0x3b]%Z `prefix_of` rest)
   else false).

Lemma cut_semi_found l x y : cut_semi l = (x, y, true) -> l = x ++ 0x3b%Z :: y /\ 0x3b%Z ∉ x.
Proof.
  revert x. induction l as [|b l IH]; intros x; simpl; [done|]. case_decide as Hb.
  - intros [= <- <-]. subst. split; [done|apply not_elem_of_nil].
  - destruct (cut_semi l) as [[x' y'] []]; [|done]. intros [= <- <-]. destruct (IH x' eq_refl) as [-> Hx].
    split; [done|]. by apply not_elem_of_cons.
Qed.

Lemma cut_semi_none l x y : cut_semi l = (x, y, false) -> x = l /\ y = [] /\ 0x3b%Z ∉ l.
Proof.
  revert x. induction l as [|b l IH]; intros x; simpl; [intros [= <- <-]; split_and!; try done; apply not_elem_of_nil|].
  case_decide as Hb; [done|]. destruct (cut_semi l) as [[x' y'] []]; [done|]. intros [= <- <-].
  destruct (IH x' eq_refl) as (-> & -> & Hx). split_and!; try done. by apply not_elem_of_cons.
Qed.

Lemma cut_semi_app x y : 0x3b%Z ∉ x -> cut_semi (x ++ 0x3b%Z :: y) = (x, y, true).
Proof.
  induction x as [|b x IH]; [done|]. intros [Hb Hx]%not_elem_of_cons.
  cbn [app cut_semi]. rewrite decide_False by congruence. by rewrite IH.
Qed.

Lemma cut_semi_more l s : 0x3b%Z ∉ l -> exists x y ok, cut_semi (l ++ s) = (x, y, ok) /\ l `prefix_of` x.
Proof.
  induction l as [|b l IH]; simpl; [intros _; destruct (cut_semi s) as [[x y] ok]; exists x, y, ok; split; [done|apply prefix_nil]|].
  intros [Hb Hl]%not_elem_of_cons. destruct (IH Hl) as (x & y & ok & -> & Hx). rewrite decide_False by done.
  exists (b :: x), y, ok. split; [done|by apply prefix_cons].
Qed.

Lemma sub_notify sub rest : cut_semi rest = (sub, drop (S (length sub)) rest, true) ->
  (sub = notify <-> notify ++ [0x3b]%Z `prefix_of` rest).
Proof.
  intros H. apply cut_semi_found in H as [Hr Hs]. split.
  - intros ->. exists (drop (S (length notify)) rest). by rewrite <- app_assoc.
  - intros [k Hk]. assert (E : cut_semi rest = (notify, k, true)).
    { rewrite Hk, <- app_assoc. apply cut_semi_app. apply (bool_decide_unpack _). vm_compute. exact I. }
    rewrite Hr, cut_semi_app in E by done. congruence.
Qed.

Lemma decideOsc9_whole blocks rest : decideOsc9 blocks rest true =
  (Notification blocks && negb (bool_decide (rest = [] \/ rest = [0x34]%Z \/ [0x34; 0x3b]%Z `prefix_of` rest)), true).
Proof.
  unfold decideOsc9. destruct rest as [|b [|c rest]].
  - rewrite bool_decide_true by (by left). by rewrite andb_false_r.
  - destruct (decide (b = 0x34%Z)) as [->|Hb].
    + rewrite !bool_decide_true by auto. by rewrite andb_false_r.
    + rewrite (bool_decide_false (b = 0x34%Z)) by done. cbn [negb].
      rewrite bool_decide_false; [by rewrite andb_true_r|]. intros [?|[?|[k ?]]]; by simplify_eq/=.
  - destruct (decide (b = 0x34%Z)) as [->|Hb].
    + rewrite (bool_decide_true (0x34%Z = 0x34%Z)) by done. cbn [negb]. destruct (decide (c = 0x3b%Z)) as [->|Hc].
      * rewrite (bool_decide_true (0x3b%Z = 0x3b%Z)) by done.
        rewrite bool_decide_true by (do 2 right; by exists rest). by rewrite andb_false_r.
      * rewrite (bool_decide_false (c = 0x3b%Z)) by done.
        rewrite bool_decide_false; [by rewrite andb_true_r|]. intros [?|[?|[k ?]]]; by simplify_eq/=.
    + rewrite (bool_decide_false (b = 0x34%Z)) by done. cbn [negb].
      rewrite bool_decide_false; [by rewrite andb_true_r|]. intros [?|[?|[k ?]]]; by simplify_eq/=.
Qed.

Lemma decideOsc777_whole blocks rest : decideOsc777 blocks rest true =
  (Notification blocks && bool_decide (notify ++ [0x3b]%Z `prefix_of` rest), true).
Proof.
  unfold decideOsc777. destruct (cut_semi rest) as [[sub y] []] eqn:E; cbn [negb orb].
  - assert (Hy : y = drop (S (length sub)) rest).
    { apply cut_semi_found in E as [-> _]. by rewrite drop_app_ge, Nat.sub_succ_l, Nat.sub_diag by lia. }
    subst y. apply sub_notify in E as Hn. destruct (decide (sub = notify)) as [Hs|Hs].
    + rewrite !bool_decide_true by tauto. by rewrite andb_true_r.
    + rewrite !bool_decide_false by tauto. by rewrite andb_false_r.
  - apply cut_semi_none in E as (-> & _ & Hs). rewrite bool_decide_false; [by rewrite andb_false_r|].
    intros [k ->]. apply Hs. rewrite !elem_of_app, list_elem_of_singleton. auto.
Qed.

(** On a whole body the decision is the declared one. *)
Lemma decideOsc_whole blocks body : decideOsc blocks body true = (hooked blocks body, true).
Proof.
  unfold decideOsc, hooked. destruct (cut_semi body) as [[num rest] hasSep].
  destruct (decide (num = [0x30]%Z \/ num = [0x32]%Z)) as [[-> | ->]|H1]; [by destruct hasSep..|].
  destruct (decide (num = [0x39]%Z)) as [->|H2]; [destruct hasSep; [apply decideOsc9_whole|done]|].
  destruct (decide (num = [0x37; 0x37; 0x37]%Z)) as [->|H3]; [destruct hasSep; [apply decideOsc777_whole|done]|].
  rewrite andb_false_r. destruct (_ || _); [done|]. by destruct hasSep.
Qed.

(** A decision on the bytes so far is the one the whole body would get. *)
Lemma decideOsc9_early blocks p s b :
  decideOsc9 blocks p false = (b, true) -> decideOsc9 blocks (p ++ s) true = (b, true).
Proof.
  unfold decideOsc9. destruct p as [|x [|y p]]; cbn [app]; [done| |done].
  destruct (negb _); [done|]. done.
Qed.

Lemma decideOsc777_early blocks p s b :
  decideOsc777 blocks p false = (b, true) -> decideOsc777 blocks (p ++ s) true = (b, true).
Proof.
  unfold decideOsc777. destruct (cut_semi p) as [[sub y] []] eqn:E; cbn [negb orb].
  - apply cut_semi_found in E as [-> Hs]. rewrite <- app_assoc. cbn [app]. by rewrite cut_semi_app.
  - apply cut_semi_none in E as (-> & _ & Hs). destruct (cut_semi_more p s Hs) as (x & y' & ok & -> & Hx).
    intros H. destruct (_ || _) eqn:El in H; [|done]. injection H as <-. destruct ok; cbn [negb orb]; [|done].
    rewrite bool_decide_false; [done|]. intros ->. apply orb_true_iff in El as [El|El].
    + apply bool_decide_eq_true in El. apply prefix_length in Hx. lia.
    + apply negb_true_iff, bool_decide_eq_false in El. done.
Qed.

Lemma not_digits_more l x : l `prefix_of` x -> isDigits l = false -> isDigits x = false.
Proof. intros [k ->]. unfold isDigits. rewrite forallb_app. by intros ->. Qed.

Lemma decideOsc_early blocks p s b : p <> [] ->
  decideOsc blocks p false = (b, true) -> decideOsc blocks (p ++ s) true = (b, true).
Proof.
  intros Hp. unfold decideOsc. destruct (cut_semi p) as [[num rest] []] eqn:E; cbn [negb].
  - apply cut_semi_found in E as [-> Hs]. rewrite <- app_assoc. cbn [app]. rewrite cut_semi_app by done. cbn [negb].
    destruct (_ || _); [done|]. do 2 (destruct (decide _); [done || apply decideOsc9_early|]).
    destruct (decide _); [apply decideOsc777_early|done].
  - apply cut_semi_none in E as (-> & _ & Hs). destruct (cut_semi_more p s Hs) as (x & y & ok & -> & Hx).
    rewrite (bool_decide_false (p = [])) by done. cbn [orb].
    destruct (isDigits p) eqn:Ed; cbn [negb].
    + case_bool_decide as Hl; [|done]. intros [= <-].
      apply prefix_length in Hx. destruct (_ || _); [done|]. destruct ok; cbn [negb orb]; [|done].
      rewrite !decide_False; [done|intros ->; simpl in Hx; lia|intros ->; simpl in Hx; lia|intros [-> | ->]; simpl in Hx; lia].
    + intros [= <-]. rewrite (not_digits_more _ _ Hx Ed). by rewrite orb_true_r.
Qed.

(** While nothing is decided the body is short: the cap on held bytes never decides. *)
Lemma decideOsc_short blocks p b : decideOsc blocks p false = (b, false) -> length p <= 10.
Proof.
  unfold decideOsc. destruct (cut_semi p) as [[num rest] []] eqn:E; cbn [negb orb].
  - apply cut_semi_found in E as [-> _]. destruct (_ || _); [done|].
    destruct (decide _); [done|]. destruct (decide _) as [->|].
    + unfold decideOsc9. destruct rest as [|x [|y rest]]; simpl; [lia|lia|]. destruct (negb _); [done|]. by destruct (bool_decide _).
    + destruct (decide _) as [->|]; [|done]. unfold decideOsc777. destruct (cut_semi rest) as [[sub y] []] eqn:E; cbn [negb orb].
      * by destruct (negb _).
      * apply cut_semi_none in E as (-> & _ & _). destruct (bool_decide (_ < _)) eqn:El; [done|].
        apply bool_decide_eq_false in El. intros _. rewrite length_app. simpl in *. lia.
  - apply cut_semi_none in E as (-> & _ & _). destruct (_ || _); [done|]. case_bool_decide; [done|]. intros _. lia.
Qed.

(** ** The specification: a stream of tokens *)

(** A byte by itself; a rune of several bytes; a run of ESCs, of which the last one is
    followed by a byte that opens no OSC; an OSC string: how many ESCs come before its
    introducer, whether that is the C1 byte, its body, and the byte that ends it ([None]
    when the ESC of the next token does). *)
Inductive token :=
| TByte (b : Z)
| TRune (lead : Z) (rest : list Z)
| TEsc (more : nat) (b : Z)
| TOsc (more : nat) (c1 : bool) (body : list Z) (term : option Z).

Definition introducer (more : nat) (c1 : bool) : list Z :=
  if c1 then replicate more 0x1b%Z ++ [0x9d]%Z else replicate (S more) 0x1b%Z ++ [0x5d]%Z.

Definition token_bytes (t : token) : list Z :=
  match t with
  | TByte b => [b]
  | TRune lead rest => lead :: rest
  | TEsc more b => replicate (S more) 0x1b%Z ++ [b]
  | TOsc more c1 body term => introducer more c1 ++ body ++ option_list term
  end.

Definition token_ok (t : token) : Prop :=
  match t with
  | TByte b => b <> 0x1b%Z /\ b <> 0x9d%Z /\ utf8RuneLen b = 1%Z
  | TRune lead rest => rest <> [] /\ utf8RuneLen lead = Z.of_nat (S (length rest))
  | TEsc _ b => b <> 0x1b%Z /\ b <> 0x9d%Z /\ b <> 0x5d%Z
  | TOsc _ _ body term => Forall (fun b => classifyOscByte b = oscByteData) body /\
      match term with Some t => classifyOscByte t = oscByteEnd \/ classifyOscByte t = oscByteAbort | None => True end
  end.

Definition starts_esc (t : token) : bool :=
  match t with
  | TEsc _ _ => true
  | TOsc more c1 _ _ => negb c1 || bool_decide (0 < more)
  | _ => false
  end.

(** An OSC string left open is ended by the ESC of the token after it. *)
Definition left_open (t : token) : bool := match t with TOsc _ _ _ None => true | _ => false end.

Fixpoint stream_ok (ts : list token) : Prop :=
  match ts with
  | [] => True
  | t :: ts => token_ok t /\ (left_open t = true -> match ts with [] => False | u :: _ => starts_esc u = true end) /\
      stream_ok ts
  end.

Definition blocked (blocks : hookBlocks) (t : token) : bool :=
  match t with
  | TByte b => bool_decide (b = 0x07)%Z && Bell blocks
  | TOsc _ _ body _ => hooked blocks body
  | _ => false
  end.

(** The two-byte string terminator. *)
Definition is_st (t : token) : bool :=
  match t with TEsc 0 b => bool_decide (b = 0x5c)%Z | _ => false end.

(** What is left of a stream: every token but the blocked ones, and but the string
    terminator of a blocked string ([st] says the token before is one left open). *)
Fixpoint unblocked (blocks : hookBlocks) (st : bool) (ts : list token) : list Z :=
  match ts with
  | [] => []
  | t :: ts =>
    if st && is_st t then unblocked blocks false ts
    else (if blocked blocks t then [] else token_bytes t) ++
         unblocked blocks (blocked blocks t && left_open t) ts
  end.

(** *** Runs of the machine *)

Lemma filter_bytes_app f l1 l2 :
  filter_bytes f (l1 ++ l2) = (let '(f1, o1) := filter_bytes f l1 in let '(f2, o2) := filter_bytes f1 l2 in (f2, o1 ++ o2)).
Proof.
  revert f. induction l1 as [|b l1 IH]; intros f; cbn [app filter_bytes].
  { by destruct (filter_bytes f l2). }
  destruct (filter_byte f b) as [f' o']. rewrite IH. destruct (filter_bytes f' l1) as [f1 o1].
  destruct (filter_bytes f1 l2) as [f2 o2]. by rewrite app_assoc.
Qed.

Lemma filter_bytes_cons f b l :
  filter_bytes f (b :: l) = (let '(f, o1) := filter_byte f b in let '(f, o2) := filter_bytes f l in (f, o1 ++ o2)).
Proof. done. Qed.

(** The run from [f] on [l] emits [out] and ends in the state [st], with no superseded
    ESC held. *)
Definition emits (blocks : hookBlocks) (f : hookFilter) (l out : list Z) (st : filterState) : Prop :=
  exists f', filter_bytes f l = (f', out) /\ hf_state f' = st /\ escCarry f' = 0 /\ hf_blocks f' = blocks.

Lemma emits_app blocks f l1 l2 o1 o2 st1 st2 :
  emits blocks f l1 o1 st1 ->
  (forall f', hf_state f' = st1 -> escCarry f' = 0 -> hf_blocks f' = blocks -> emits blocks f' l2 o2 st2) ->
  emits blocks f (l1 ++ l2) (o1 ++ o2) st2.
Proof.
  intros (f1 & H1 & Hs & Hc & Hb) H2. destruct (H2 f1 Hs Hc Hb) as (f2 & E2 & ?).
  exists f2. rewrite filter_bytes_app, H1, E2. done.
Qed.

(** A first byte that changes the state and emits nothing. *)
Lemma emits_cons blocks f b l out st f1 :
  filter_byte f b = (f1, []) -> emits blocks f1 l out st -> emits blocks f (b :: l) out st.
Proof. intros H1 (f2 & H2 & ?). exists f2. cbn [filter_bytes]. by rewrite H1, H2. Qed.

Lemma emits_nil blocks f : hf_blocks f = blocks -> escCarry f = 0 -> emits blocks f [] [] (hf_state f).
Proof. intros. by exists f. Qed.

Definition ends_string (t : Z) : Prop := classifyOscByte t <> oscByteData.

(** The byte that ends a string, when it belongs to the string. *)
Definition own_end (t : Z) : list Z := if decide (classifyOscByte t = oscByteEsc) then [] else [t].

Definition string_data (l : list Z) : Prop := Forall (fun b => classifyOscByte b = oscByteData) l.

Lemma pass_run blocks f rest t : hf_state f = hookFilterOscPass -> escCarry f = 0 -> hf_blocks f = blocks ->
  string_data rest -> ends_string t ->
  emits blocks f (rest ++ [t]) (rest ++ own_end t) (oscIDNext (classifyOscByte t) false).
Proof.
  intros Hs Hc Hb Hr Ht. unfold emits. revert f Hs Hc Hb. induction Hr as [|b rest Hd _ IH]; intros f Hs Hc Hb; cbn [app filter_bytes].
  - unfold filter_byte, own_end. rewrite Hs. unfold oscPass, ends_string in *.
    destruct (classifyOscByte t); [done|..]; eexists; (split; [reflexivity|]); done.
  - unfold filter_byte at 1. rewrite Hs. unfold oscPass. rewrite Hd.
    destruct (IH f Hs Hc Hb) as (f' & E & ?). exists f'. by rewrite E.
Qed.

Lemma drop_run blocks f rest t : hf_state f = hookFilterOscDrop -> escCarry f = 0 -> hf_blocks f = blocks ->
  string_data rest -> ends_string t ->
  emits blocks f (rest ++ [t]) [] (oscIDNext (classifyOscByte t) true).
Proof.
  intros Hs Hc Hb Hr Ht. unfold emits. revert f Hs Hc Hb. induction Hr as [|b rest Hd _ IH]; intros f Hs Hc Hb; cbn [app filter_bytes].
  - unfold filter_byte. rewrite Hs. unfold oscDrop, ends_string in *.
    destruct (classifyOscByte t); [done|..]; eexists; (split; [reflexivity|]); done.
  - unfold filter_byte at 1. rewrite Hs. unfold oscDrop. rewrite Hd.
    destruct (IH f Hs Hc Hb) as (f' & E & ?). exists f'. by rewrite E.
Qed.

(** A filter holding an undecided string: its introducer [intro] and the body so far. *)
Record holding (blocks : hookBlocks) (f : hookFilter) (intro body : list Z) : Prop := {
  ho_state : hf_state f = hookFilterOscID;
  ho_carry : escCarry f = 0;
  ho_blocks : hf_blocks f = blocks;
  ho_pending : hf_pending f = intro ++ body;
  ho_prefix : prefixLen f = length intro;
}.

Lemma holding_end blocks f intro body t : holding blocks f intro body -> ends_string t ->
  emits blocks f [t] (if hooked blocks body then [] else intro ++ body ++ own_end t)
    (oscIDNext (classifyOscByte t) (hooked blocks body)).
Proof.
  intros [Hs Hc Hb Hp Hl] Ht. unfold emits, ends_string, own_end in *. cbn [filter_bytes]. unfold filter_byte. rewrite Hs. unfold oscID.
  rewrite Hp, Hl, Hb.
  assert (Hbody : (if decide (classifyOscByte t = oscByteEnd \/ classifyOscByte t = oscByteAbort)
      then take (length (drop (length intro) (if decide (classifyOscByte t = oscByteEsc) then intro ++ body else (intro ++ body) ++ [t])) - 1)
             (drop (length intro) (if decide (classifyOscByte t = oscByteEsc) then intro ++ body else (intro ++ body) ++ [t]))
      else drop (length intro) (if decide (classifyOscByte t = oscByteEsc) then intro ++ body else (intro ++ body) ++ [t])) = body).
  { destruct (classifyOscByte t); [done| | |].
    - rewrite decide_True by (by left). rewrite decide_False, <- app_assoc, drop_app_length by done.
      by rewrite length_app, Nat.add_sub, take_app_length.
    - rewrite decide_False by (by intros [|]). by rewrite decide_True, drop_app_length by done.
    - rewrite decide_True by (by right). rewrite decide_False, <- app_assoc, drop_app_length by done.
      by rewrite length_app, Nat.add_sub, take_app_length. }
  rewrite Hbody, bool_decide_false by done. cbn [negb]. rewrite decideOsc_whole. cbn [negb andb].
  eexists. split; [f_equal|by split_and!]. rewrite app_nil_r.
  destruct (hooked blocks body); [done|].
  destruct (decide (classifyOscByte t = oscByteEsc)); [by rewrite app_nil_r|by rewrite <- app_assoc].
Qed.

Lemma hold_run blocks intro rest body f t : holding blocks f intro body -> string_data rest -> ends_string t ->
  emits blocks f (rest ++ [t]) (if hooked blocks (body ++ rest) then [] else intro ++ body ++ rest ++ own_end t)
    (oscIDNext (classifyOscByte t) (hooked blocks (body ++ rest))).
Proof.
  intros Hf Hr Ht. revert body f Hf. induction Hr as [|b rest Hd Hr IH]; intros body f Hf; cbn [app].
  { rewrite app_nil_r. by apply holding_end. }
  destruct (decideOsc blocks (body ++ [b]) false) as [block decided] eqn:Edec.
  pose proof Hf as [Hs Hc Hb Hp Hl].
  assert (Estep : filter_byte f b =
    if decided then (MkFilter blocks (oscIDNext oscByteData block) [] (length intro) (utf8Rest f) 0,
                     if block then [] else intro ++ body ++ [b])
    else (MkFilter blocks hookFilterOscID (intro ++ body ++ [b]) (length intro) (utf8Rest f) 0, [])).
  { unfold filter_byte. rewrite Hs. unfold oscID. rewrite Hd, Hp, Hl, Hb, Hc. rewrite !decide_False by (by intros [|] || done).
    rewrite <- app_assoc, drop_app_length. rewrite (bool_decide_true (oscByteData = oscByteData)) by done. cbn [negb].
    rewrite Edec. destruct decided; [done|]. apply decideOsc_short in Edec as Hshort.
    rewrite bool_decide_true by (unfold oscDecideLimit; lia). cbn [negb andb]. by rewrite Hs. }
  destruct decided.
  - apply decideOsc_early with (s := rest) in Edec as Hdec; [|by destruct body].
    rewrite decideOsc_whole, <- app_assoc in Hdec. injection Hdec as Hdec. cbn [app] in Hdec. rewrite Hdec.
    set (f1 := MkFilter blocks (oscIDNext oscByteData block) [] (length intro) (utf8Rest f) 0) in *.
    assert (E2 : emits blocks f1 (rest ++ [t]) (if block then [] else rest ++ own_end t) (oscIDNext (classifyOscByte t) block)).
    { destruct block; [by apply drop_run|by apply pass_run]. }
    destruct E2 as (f2 & E2 & ?). exists f2. cbn [filter_bytes]. rewrite Estep, E2.
    split; [|done]. f_equal. destruct block; [done|]. by rewrite <- !app_assoc.
  - set (f1 := MkFilter blocks hookFilterOscID (intro ++ body ++ [b]) (length intro) (utf8Rest f) 0) in *.
    destruct (IH (body ++ [b]) f1) as (f2 & E2 & ?); [by constructor|]. exists f2. cbn [filter_bytes].
    rewrite Estep, E2. rewrite <- !app_assoc. cbn [app]. split; [done|]. by rewrite <- app_assoc in *.
Qed.

(** *** Runs of ESCs, and the tokens they open *)

Lemma replicate_more {A} n (x : A) l : replicate n x ++ x :: l = replicate (S n) x ++ l.
Proof. rewrite cons_middle, app_assoc, <- replicate_S_end. done. Qed.

(** A run of ESCs from a held one: each supersedes the one before. *)
Lemma esc_run blocks f m l out st : hf_state f = hookFilterEsc -> hf_blocks f = blocks ->
  (forall f', hf_state f' = hookFilterEsc -> hf_blocks f' = blocks -> escCarry f' = escCarry f + m ->
     emits blocks f' l out st) ->
  emits blocks f (replicate m 0x1b%Z ++ l) out st.
Proof.
  revert f. induction m as [|m IH]; intros f Hs Hb H; cbn [replicate app].
  { apply H; [done..|lia]. }
  apply emits_cons with (MkFilter blocks hookFilterEsc (hf_pending f) (prefixLen f) (utf8Rest f) (S (escCarry f))).
  - unfold filter_byte. rewrite Hs. unfold esc. by rewrite Hs, Hb.
  - apply IH; [done..|]. intros f' ? ? Hc. apply H; [done..|]. simpl in Hc. lia.
Qed.

(** The byte behind a run of ESCs that opens nothing. *)
Lemma esc_plain blocks f b : hf_state f = hookFilterEsc -> hf_blocks f = blocks ->
  b <> 0x1b%Z -> b <> 0x9d%Z -> b <> 0x5d%Z ->
  emits blocks f [b] (replicate (S (escCarry f)) 0x1b%Z ++ [b]) hookFilterGround.
Proof.
  intros Hs Hb H1 H2 H3. eexists. cbn [filter_bytes]. unfold filter_byte. rewrite Hs. unfold esc.
  rewrite !decide_False by done. cbn [flushEscCarry]. rewrite app_nil_r, replicate_more.
  split; [reflexivity|]. by split_and!.
Qed.

(** The byte that opens an OSC string behind a run of ESCs, and the string. *)
Lemma esc_osc blocks f intro_byte body t : hf_state f = hookFilterEsc -> hf_blocks f = blocks ->
  (intro_byte = 0x5d \/ intro_byte = 0x9d)%Z -> string_data body -> ends_string t ->
  emits blocks f (intro_byte :: body ++ [t])
    (if hooked blocks body then [] else (replicate (S (escCarry f)) 0x1b%Z ++ [intro_byte]) ++ body ++ own_end t)
    (oscIDNext (classifyOscByte t) (hooked blocks body)).
Proof.
  intros Hs Hb Hi Hbody Ht.
  assert (E : filter_byte f intro_byte = (beginOsc f [0x1b; intro_byte]%Z, [])).
  { unfold filter_byte. rewrite Hs. unfold esc. by destruct Hi as [-> | ->]. }
  eapply emits_cons; [exact E|].
  rewrite <- (replicate_more (escCarry f)) by done.
  apply (hold_run blocks (replicate (escCarry f) 0x1b%Z ++ [0x1b; intro_byte]%Z) body []); [|done..].
  constructor; simpl; try done. by rewrite app_nil_r.
Qed.

(** The tokens that start with an ESC, without it. *)
Definition esc_tail (t : token) : list Z := tail (token_bytes t).

Lemma esc_tail_bytes t : starts_esc t = true -> token_bytes t = 0x1b%Z :: esc_tail t.
Proof. by destruct t as [| | |[|m] []]. Qed.

(** What a token leaves the machine in: the ground state, or with its ESC held. *)
Definition after_token (blocks : hookBlocks) (t : token) : filterState :=
  if left_open t then oscIDNext oscByteEsc (blocked blocks t) else hookFilterGround.

(** The bytes to feed to see the end of a token: its own, and for a string left open the
    ESC that ends it. *)
Definition closed (t : token) (l : list Z) : list Z := l ++ (if left_open t then [0x1b]%Z else []).

Definition kept (blocks : hookBlocks) (t : token) : list Z := if blocked blocks t then [] else token_bytes t.

Lemma ends_of_ok t : classifyOscByte t = oscByteEnd \/ classifyOscByte t = oscByteAbort ->
  ends_string t /\ own_end t = [t] /\ forall b, oscIDNext (classifyOscByte t) b = hookFilterGround.
Proof. unfold ends_string, own_end. by intros [-> | ->]. Qed.

(** An OSC string behind a run of ESCs, in the form of a token. *)
Lemma esc_osc_token blocks f m (c1 : bool) body term intro_byte :
  intro_byte = (if c1 then 0x9d else 0x5d)%Z -> token_ok (TOsc m c1 body term) ->
  hf_state f = hookFilterEsc -> hf_blocks f = blocks ->
  replicate (S (escCarry f)) 0x1b%Z ++ [intro_byte] = introducer m c1 ->
  emits blocks f (closed (TOsc m c1 body term) (intro_byte :: body ++ option_list term))
    (kept blocks (TOsc m c1 body term)) (after_token blocks (TOsc m c1 body term)).
Proof.
  intros Hi [Hbody Hterm] Hs Hb Hint. unfold kept, closed, after_token, blocked, token_bytes. rewrite <- Hint.
  assert (Hib : (intro_byte = 0x5d \/ intro_byte = 0x9d)%Z) by (subst; destruct c1; auto).
  destruct term as [t|]; cbn [left_open option_list].
  - destruct (ends_of_ok t Hterm) as (He & Ho & Hn). rewrite !app_nil_r. rewrite <- Ho at 2. rewrite <- (Hn (hooked blocks body)).
    cbn [app]. by apply esc_osc.
  - rewrite app_nil_r. cbn [app]. rewrite <- (app_nil_r body) at 3. by apply (esc_osc blocks f intro_byte body 0x1b%Z).
Qed.

Lemma tail_run blocks f t : token_ok t -> starts_esc t = true ->
  hf_state f = hookFilterEsc -> escCarry f = 0 -> hf_blocks f = blocks ->
  emits blocks f (closed t (esc_tail t)) (kept blocks t) (after_token blocks t).
Proof.
  intros Hok Ht Hs Hc Hb. destruct t as [b|lead rest|m b|m c1 body term]; [done|done|..].
  - unfold closed, esc_tail, kept, after_token; cbn [left_open token_bytes blocked replicate app tail]. rewrite app_nil_r.
    apply esc_run; [done..|]. intros f' Hs' Hb' Hc'. rewrite Hc in Hc'. cbn in Hc'. subst m.
    destruct Hok as (? & ? & ?). by apply esc_plain.
  - destruct c1.
    + destruct m as [|m]; [done|]. unfold closed, esc_tail, token_bytes, introducer. cbn [replicate app tail].
      rewrite <- !app_assoc. apply esc_run; [done..|]. intros f' Hs' Hb' Hc'. rewrite Hc in Hc'. cbn in Hc'.
      cbn [app]. rewrite (app_assoc body). change (?x :: ?y ++ ?z) with ((x :: y) ++ z).
      apply esc_osc_token; [done..|]. by rewrite Hc'.
    + unfold closed, esc_tail, token_bytes, introducer. cbn [replicate app tail].
      rewrite <- !app_assoc. apply esc_run; [done..|]. intros f' Hs' Hb' Hc'. rewrite Hc in Hc'. cbn in Hc'.
      cbn [app]. rewrite (app_assoc body). change (?x :: ?y ++ ?z) with ((x :: y) ++ z).
      apply esc_osc_token; [done..|]. by rewrite Hc'.
Qed.

Lemma utf8_run blocks f rest : hf_state f = hookFilterUtf8 -> escCarry f = 0 -> hf_blocks f = blocks ->
  utf8Rest f = Z.of_nat (length rest) -> rest <> [] -> emits blocks f rest rest hookFilterGround.
Proof.
  intros Hs Hc Hb Hr Hne. unfold emits. revert f Hs Hc Hb Hr. induction rest as [|b rest IH]; [done|]. intros f Hs Hc Hb Hr.
  rewrite filter_bytes_cons. unfold filter_byte. rewrite Hs. unfold utf8. rewrite Hs. destruct rest as [|c rest].
  - cbn [length] in Hr. rewrite decide_True by lia. by eexists.
  - cbn [length] in Hr. rewrite decide_False by lia.
    destruct (IH ltac:(done) (MkFilter (hf_blocks f) hookFilterUtf8 (hf_pending f) (prefixLen f) (utf8Rest f - 1) (escCarry f)))
      as (f' & E & ?); [done..|simpl; lia|]. exists f'. by rewrite E.
Qed.

Lemma ground_run blocks f t : token_ok t ->
  hf_state f = hookFilterGround -> escCarry f = 0 -> hf_blocks f = blocks ->
  emits blocks f (closed t (token_bytes t)) (kept blocks t) (after_token blocks t).
Proof.
  intros Hok Hs Hc Hb. destruct (starts_esc t) eqn:Ht.
  { unfold closed. rewrite (esc_tail_bytes t Ht). cbn [app]. eapply emits_cons; [|by apply (tail_run blocks (goto f hookFilterEsc))].
    unfold filter_byte. by rewrite Hs. }
  destruct t as [b|lead rest|m b|m c1 body term]; [..|done|].
  - unfold closed, kept, after_token; cbn [left_open token_bytes blocked app]. destruct Hok as (H1 & H2 & H3).
    eexists. cbn [filter_bytes]. unfold filter_byte. rewrite Hs. unfold ground. rewrite !decide_False by (done || rewrite H3; lia).
    rewrite Hb. destruct (_ && _); by split_and!.
  - unfold closed, kept, after_token; cbn [left_open token_bytes blocked app]. rewrite app_nil_r. destruct Hok as (Hne & Hlen).
    assert (Hl : (1 < utf8RuneLen lead)%Z) by (destruct rest; [done|]; rewrite Hlen; cbn [length]; lia).
    destruct (utf8_run blocks (MkFilter (hf_blocks f) hookFilterUtf8 (hf_pending f) (prefixLen f) (utf8RuneLen lead - 1) (escCarry f)) rest)
      as (f' & E & ?); [done..|simpl; lia|done|]. exists f'. rewrite filter_bytes_cons. unfold filter_byte. rewrite Hs. unfold ground.
    assert (Hn : lead <> 0x1b%Z /\ lead <> 0x9d%Z /\ lead <> 0x07%Z) by (split_and!; intros ->; by vm_compute in Hl).
    destruct Hn as (Hn1 & Hn2 & Hn3). rewrite (decide_False (P := lead = 0x1b%Z)), (decide_False (P := lead = 0x9d%Z)), bool_decide_false by done.
    cbn [andb]. by rewrite decide_True, E by done.
  - destruct c1, m as [|m]; [|done..]. destruct Hok as [Hbody Hterm].
    unfold closed, after_token, kept, blocked, token_bytes, introducer. cbn [replicate app].
    assert (E : filter_byte f 0x9d%Z = (beginOsc f [0x9d]%Z, [])) by (unfold filter_byte; by rewrite Hs).
    assert (Hh : holding blocks (beginOsc f [0x9d]%Z) [0x9d]%Z []).
    { constructor; try done; unfold beginOsc; simpl; by rewrite Hc. }
    eapply emits_cons; [exact E|]. destruct term as [t|]; cbn [left_open option_list].
    + destruct (ends_of_ok t Hterm) as (He & Ho & Hn). rewrite app_nil_r. rewrite <- Ho at 2. rewrite <- (Hn (hooked blocks body)).
      by apply (hold_run blocks [0x9d]%Z body []).
    + rewrite app_nil_r. rewrite <- (app_nil_r body) at 3. by apply (hold_run blocks [0x9d]%Z body [] _ 0x1b%Z).
Qed.

(** The ESC behind a blocked string: with a backslash it was that string's terminator,
    otherwise the start of the next token. *)
Lemma drop_st blocks f : hf_state f = hookFilterOscDropEsc -> escCarry f = 0 -> hf_blocks f = blocks ->
  emits blocks f [0x5c]%Z [] hookFilterGround.
Proof. intros Hs Hc Hb. eexists. rewrite filter_bytes_cons. unfold filter_byte. rewrite Hs. by split_and!. Qed.

Lemma drop_other blocks f t : token_ok t -> starts_esc t = true -> is_st t = false ->
  hf_state f = hookFilterOscDropEsc -> escCarry f = 0 -> hf_blocks f = blocks ->
  emits blocks f (closed t (esc_tail t)) (kept blocks t) (after_token blocks t).
Proof.
  intros Hok Ht Hst Hs Hc Hb. assert (Hfirst : exists b l, closed t (esc_tail t) = b :: l /\ b <> 0x5c%Z).
  { destruct t as [b|lead rest|[|m] b|[|[|m]] c1 body term]; [done|done|..|].
    - eexists _, _; split; [reflexivity|]. by intros ->.
    - eexists _, _; split; [reflexivity|done].
    - destruct c1; [by vm_compute in Ht|eexists _, _; split; [reflexivity|done]].
    - destruct c1; eexists _, _; (split; [reflexivity|done]).
    - destruct c1; eexists _, _; (split; [reflexivity|done]). }
  destruct (tail_run blocks (goto f hookFilterEsc) t) as (f' & E & H); [done..|].
  exists f'. split; [|done]. destruct Hfirst as (b & l & Hbl & Hne). rewrite Hbl in *. rewrite filter_bytes_cons in *.
  unfold filter_byte in *. rewrite Hs. cbn [goto hf_state] in E. unfold oscDropEsc. rewrite decide_False by done. exact E.
Qed.

(** From the three states a token can end in, what is left of the stream. *)
Record stream_runs (blocks : hookBlocks) (ts : list token) : Prop := {
  sr_ground : forall f, hf_state f = hookFilterGround -> escCarry f = 0 -> hf_blocks f = blocks ->
    emits blocks f (concat (map token_bytes ts)) (unblocked blocks false ts) hookFilterGround;
  sr_esc : forall f u us, ts = u :: us -> starts_esc u = true ->
    hf_state f = hookFilterEsc -> escCarry f = 0 -> hf_blocks f = blocks ->
    emits blocks f (esc_tail u ++ concat (map token_bytes us)) (unblocked blocks false ts) hookFilterGround;
  sr_drop : forall f u us, ts = u :: us -> starts_esc u = true ->
    hf_state f = hookFilterOscDropEsc -> escCarry f = 0 -> hf_blocks f = blocks ->
    emits blocks f (esc_tail u ++ concat (map token_bytes us)) (unblocked blocks true ts) hookFilterGround;
}.

(** A token, or what is left of it, and then the stream. *)
Lemma token_then blocks t ts f p : stream_runs blocks ts ->
  (left_open t = true -> match ts with [] => False | u :: _ => starts_esc u = true end) ->
  emits blocks f (closed t p) (kept blocks t) (after_token blocks t) ->
  emits blocks f (p ++ concat (map token_bytes ts)) (kept blocks t ++ unblocked blocks (blocked blocks t && left_open t) ts)
    hookFilterGround.
Proof.
  intros [Hg He Hd] Hopen Ht. unfold closed, after_token in Ht. destruct (left_open t) eqn:El.
  - specialize (Hopen eq_refl). destruct ts as [|u us]; [done|]. cbn [map concat].
    rewrite (esc_tail_bytes u Hopen). cbn [app]. rewrite cons_middle, app_assoc.
    eapply emits_app; [exact Ht|]. intros f' Hs Hc Hb. rewrite andb_true_r.
    destruct (blocked blocks t); [by apply (Hd f' u us)|by apply (He f' u us)].
  - rewrite andb_false_r. rewrite app_nil_r in Ht. eapply emits_app; [exact Ht|]. intros. by apply Hg.
Qed.

Lemma stream_run blocks ts : stream_ok ts -> stream_runs blocks ts.
Proof.
  induction ts as [|t ts IH]; intros Hok.
  { constructor; [|done..]. intros f Hs Hc Hb. cbn [map concat unblocked]. rewrite <- Hs. by apply emits_nil. }
  destruct Hok as (Ht & Hopen & Hts). specialize (IH Hts). constructor.
  - intros f Hs Hc Hb. apply (token_then blocks t ts f (token_bytes t)); [done..|]. by apply ground_run.
  - intros f u us [= <- <-] Hu Hs Hc Hb. apply (token_then blocks t ts f (esc_tail t)); [done..|]. by apply tail_run.
  - intros f u us [= <- <-] Hu Hs Hc Hb. cbn [unblocked andb]. destruct (is_st t) eqn:Est.
    + destruct t as [| |[|m] b|]; try done. apply bool_decide_eq_true in Est as ->.
      eapply (emits_app blocks f _ _ [] _ hookFilterGround); [by apply drop_st|]. intros. by apply IH.
    + apply (token_then blocks t ts f (esc_tail t)); [done..|]. by apply drop_other.
Qed.

(** Chunks only cut the run into pieces. *)
Lemma chunks_bytes f chunks :
  hook_filter_chunks (Some f) chunks = (let '(f', out) := filter_bytes f (concat chunks) in (Some f', out)).
Proof.
  revert f. induction chunks as [|c chunks IH]; intros f; cbn [hook_filter_chunks concat]; [done|].
  unfold hook_filter. rewrite filter_bytes_app. destruct (filter_bytes f c) as [f1 o1]. rewrite IH.
  by destruct (filter_bytes f1 (concat chunks)).
Qed.

(** C19: the filter is equivalent to dropping tokens. Whatever the blocked kinds and
    however the stream is cut into chunks, a stream made of bytes, runes, escape runs
    and OSC strings comes out as the same stream without its blocked tokens: every
    blocked bell, title and notification is gone with the terminator of its string, and
    every other byte comes out unchanged, in order and at once when its token ends. *)
Theorem hook_filter_drops_tokens blocks ts chunks
    (Hok : stream_ok ts) (Hchunks : concat chunks = concat (map token_bytes ts)) :
  (hook_filter_chunks (newHookFilter blocks) chunks).2 = unblocked blocks false ts.
Proof.
  unfold newHookFilter. destruct (blocks_any blocks) eqn:Hany.
  - rewrite chunks_bytes, Hchunks. destruct (stream_run blocks ts Hok) as [Hg _ _].
    destruct (Hg (MkFilter blocks hookFilterGround [] 0 0 0)) as (f' & -> & _); done.
  - assert (Hpass : forall cs, hook_filter_chunks None cs = (None, concat cs)).
    { induction cs as [|c cs IH]; [done|]. cbn. by rewrite IH. }
    rewrite Hpass, Hchunks. simpl. clear Hok Hchunks Hpass. destruct blocks as [[] [] []]; try done.
    assert (Hb : forall t, blocked (Build_hookBlocks false false false) t = false).
    { intros [| | |? ? body ?]; simpl; [by rewrite andb_false_r|done..|]. unfold hooked. destruct (cut_semi body) as [[num rest] ok].
      simpl. repeat destruct (decide _); by rewrite ?andb_false_r. }
    induction ts as [|t ts IH]; [done|]. cbn [unblocked andb map concat]. by rewrite Hb, IH.
Qed.

(** Text, a blocked title, a notification ended by the ST, a link, and a bell: cut in
    the middle of the title. *)
Definition demo_blocks : hookBlocks := {| Bell := true; Title := true; Notification := true |}.
Definition demo_tokens : list token :=
  [TByte 0x61; TOsc 0 false [0x32; 0x3b; 0x74] (Some 0x07); TOsc 0 false [0x39; 0x3b; 0x68; 0x69] None; TEsc 0 0x5c;
   TOsc 0 false [0x38; 0x3b; 0x3b; 0x75] (Some 0x07); TByte 0x07; TByte 0x62]%Z.

Lemma hook_filter_drops_tokens_witness :
  let bytes := concat (map token_bytes demo_tokens) in
  (hook_filter_chunks (newHookFilter demo_blocks) [take 4 bytes; drop 4 bytes]).2
  = [0x61; 0x1b; 0x5d; 0x38; 0x3b; 0x3b; 0x75; 0x07; 0x62]%Z.
Proof.
  intros bytes.
  exact (hook_filter_drops_tokens demo_blocks demo_tokens [take 4 bytes; drop 4 bytes]
    ltac:(cbn [stream_ok demo_tokens token_ok left_open starts_esc negb orb]; repeat split; try discriminate; try (left; reflexivity);
          repeat constructor)
    eq_refl).
Defined.

(** ** What the filter holds back *)

(** The held bytes of a string: its introducer, and no more of its body than it takes
    to tell whether it is blocked. *)
Record holds_little (f : hookFilter) : Prop := {
  hl_osc : hf_state f = hookFilterOscID ->
    prefixLen f <= length (hf_pending f) /\ length (hf_pending f) <= prefixLen f + 10 /\ escCarry f = 0;
  hl_other : hf_state f <> hookFilterOscID -> hf_pending f = [];
}.

Lemma holds_little_beginOsc f intro : holds_little (beginOsc f intro).
Proof. constructor; simpl; [intros _; lia|done]. Qed.

Lemma holds_little_other f : hf_pending f = [] -> hf_state f <> hookFilterOscID -> holds_little f.
Proof. by constructor. Qed.

(** Closes the cases that hold nothing or start to hold a string. *)
Ltac held := repeat case_match; simplify_eq; cbn [fst];
  first [apply holds_little_beginOsc | apply holds_little_other; cbn; congruence].

Lemma holds_little_esc f b : hf_pending f = [] -> hf_state f = hookFilterEsc -> holds_little (esc f b).1.
Proof. intros Hp Hs. unfold esc, flushEscCarry. held. Qed.

Lemma holds_little_oscID f b : holds_little f -> hf_state f = hookFilterOscID -> holds_little (oscID f b).1.
Proof.
  intros [Ho _] Hs. destruct (Ho Hs) as (H1 & H2 & H3). unfold oscID.
  destruct (decideOsc _ _ _) as [block decided] eqn:E. destruct (negb decided && _ && _) eqn:Eg; cbn [fst].
  - apply andb_true_iff in Eg as [Eg _]. apply andb_true_iff in Eg as [Ed Ec]. apply negb_true_iff in Ed as ->.
    apply bool_decide_eq_true in Ec. rewrite Ec in *.
    rewrite (decide_False (P := oscByteData = oscByteEsc)) in * by done.
    rewrite (decide_False (P := oscByteData = oscByteEnd \/ _)) in E by (by intros [|]).
    rewrite (bool_decide_true (oscByteData = oscByteData)) in E by done. cbn [negb] in E.
    apply decideOsc_short in E. rewrite length_drop, length_app in E. simpl in E.
    constructor; simpl; [|congruence]. intros _. rewrite length_app. simpl. lia.
  - apply holds_little_other; simpl; [done|]. by destruct (classifyOscByte b), block.
Qed.

Lemma holds_little_step f b : holds_little f -> holds_little (filter_byte f b).1.
Proof.
  intros Hf. pose proof Hf as [_ Ho]. unfold filter_byte. destruct (hf_state f) eqn:Es; try specialize (Ho ltac:(done)).
  - unfold ground. held.
  - by apply holds_little_esc.
  - unfold utf8. held.
  - by apply holds_little_oscID.
  - unfold oscPass. held.
  - unfold oscDrop. held.
  - unfold oscDropEsc. destruct (decide _); [held|by apply holds_little_esc].
Qed.

(** a viewer never waits for a long string. Whatever bytes came, the filter holds at
    most ten bytes of the body of the string it is in, and only while the string is
    unidentified; outside of that it holds no string at all. So [oscDecideLimit] never
    decides: every malformed string is told apart before it. *)
Theorem hook_filter_holds_little blocks data :
  let f := (filter_bytes (MkFilter blocks hookFilterGround [] 0 0 0) data).1 in
  (hf_state f = hookFilterOscID -> prefixLen f <= length (hf_pending f) <= prefixLen f + 10) /\
  (hf_state f <> hookFilterOscID -> hf_pending f = []) /\ 10 < oscDecideLimit.
Proof.
  assert (H : forall f, holds_little f -> holds_little (filter_bytes f data).1).
  { induction data as [|b data IH]; intros f Hf; [done|]. rewrite filter_bytes_cons.
    pose proof (holds_little_step f b Hf) as H1. destruct (filter_byte f b) as [f1 o1]. specialize (IH f1 H1).
    by destruct (filter_bytes f1 data). }
  cbv zeta. destruct (H (MkFilter blocks hookFilterGround [] 0 0 0)) as [H1 H2]; [by apply holds_little_other|].
  split_and!; [intros Hs; destruct (H1 Hs); lia|done|unfold oscDecideLimit; lia].
Qed.

(** ** Where it goes wrong *)

(** The parser of a viewer: the same machine, blocking nothing. *)
Definition viewer_state (data : list Z) : filterState :=
  hf_state (filter_bytes (MkFilter (Build_hookBlocks false false false) hookFilterGround [] 0 0 0) data).1.

(** a blocked string takes the terminator of the string before it. An icon name
    (OSC 1, which passes) left open by the ESC of a blocked title goes out without any
    terminator: the command's stream leaves a viewer's parser at ground, and so does the
    filter, but what the filter lets through leaves it inside the string, where it
    swallows the text that follows. *)
Theorem blocked_string_desyncs_viewer :
  let input := [0x1b; 0x5d; 0x31; 0x3b; 0x69; 0x1b; 0x5d; 0x32; 0x3b; 0x74; 0x07; 0x78]%Z in
  let '(f, out) := filter_bytes (MkFilter (Build_hookBlocks false true false) hookFilterGround [] 0 0 0) input in
  viewer_state input = hookFilterGround /\ hf_state f = hookFilterGround /\
  out = [0x1b; 0x5d; 0x31; 0x3b; 0x69; 0x78]%Z /\ viewer_state out = hookFilterOscPass.
Proof. vm_compute. done. Qed.

(** A bell behind an ESC passes a filter that blocks bells: the ESC state does not
    look for it, although a terminal executes it there. *)
Lemma esc_bell_passes :
  (hook_filter_chunks (newHookFilter (Build_hookBlocks true false false)) [[0x1b; 0x07]%Z]).2 = [0x1b; 0x07]%Z.
Proof. reflexivity. Qed.
