(* ===== verification/GoStr.v ===== *)
(** * Strings as the Go code uses them

    The functions of Go's [strings], [strconv] and [slices] packages that the
    modelled code calls, as executable definitions with the lemmas the
    components share.  Go strings are byte strings; Rocq's [string] is one too. *)

From stdpp Require Export pretty.
From S2P Require Import Prelude.
From Stdlib Require Ascii String.
Export Stdlib.Strings.Ascii.
From Stdlib Require Import Sorting.Sorted.

#[global] Arguments String.append !_ _ / : simpl nomatch.

(** ** [strings] *)

(** [strings.HasPrefix]. *)
Fixpoint hasPrefix (p s : string) : bool :=
  match p, s with
  | EmptyString, _ => true
  | String a p, String b s => bool_decide (a = b) && hasPrefix p s
  | _, _ => false
  end.

(** [strings.TrimPrefix]. *)
Fixpoint dropString (n : nat) (s : string) : string :=
  match n, s with
  | S n, String _ s => dropString n s
  | _, _ => s
  end.

Definition trimPrefix (p s : string) : string :=
  if hasPrefix p s then dropString (String.length p) s else s.

(** [strings.HasSuffix] and [strings.TrimSuffix]. *)
Fixpoint trimSuffix (suf s : string) : string :=
  if decide (s = suf) then EmptyString
  else match s with
       | EmptyString => EmptyString
       | String c s' => String c (trimSuffix suf s')
       end.

Fixpoint hasSuffix (suf s : string) : bool :=
  if decide (s = suf) then true
  else match s with
       | EmptyString => false
       | String _ s' => hasSuffix suf s'
       end.

(** [strings.Cut] for a one-byte separator. *)
Fixpoint cut (sep : ascii) (s : string) : string * string * bool :=
  match s with
  | EmptyString => (EmptyString, EmptyString, false)
  | String c s' =>
    if decide (c = sep) then (EmptyString, s', true)
    else let '(a, b, found) := cut sep s' in (String c a, b, found)
  end.

(** [strings.Join]. *)
Fixpoint join (sep : string) (l : list string) : string :=
  match l with
  | [] => EmptyString
  | [s] => s
  | s :: l => s +:+ sep +:+ join sep l
  end.

Fixpoint string_forallb (f : ascii -> bool) (s : string) : bool :=
  match s with
  | EmptyString => true
  | String c s => f c && string_forallb f s
  end.

Lemma string_app_assoc (a b c : string) : a +:+ (b +:+ c) = (a +:+ b) +:+ c.
Proof. induction a as [|x a IH]; simpl; [done|by rewrite IH]. Qed.

Lemma string_app_nil_r (a : string) : a +:+ "" = a.
Proof. induction a as [|x a IH]; simpl; [done|by rewrite IH]. Qed.

Lemma string_length_app (a b : string) :
  String.length (a +:+ b) = String.length a + String.length b.
Proof. induction a as [|x a IH]; simpl; [done|by rewrite IH]. Qed.

Lemma string_app_inj_l (a b c : string) : a +:+ b = a +:+ c -> b = c.
Proof. induction a; simpl; [done|]. intros [= H]. auto. Qed.

Lemma string_forallb_app f a b :
  string_forallb f (a +:+ b) = string_forallb f a && string_forallb f b.
Proof. induction a as [|x a IH]; simpl; [done|]. by rewrite IH, andb_assoc. Qed.

Lemma hasPrefix_app p s : hasPrefix p (p +:+ s) = true.
Proof. induction p; simpl; [done|]. by rewrite bool_decide_true. Qed.

Lemma hasPrefix_true p s : hasPrefix p s = true <-> exists r, s = p +:+ r.
Proof.
  split; [|intros [r ->]; apply hasPrefix_app].
  revert s; induction p as [|a p IH]; intros [|b s] H; simpl in *; try done; eauto.
  split_hyps. subst. destruct (IH s) as [r ->]; [done|]. by exists r.
Qed.

Lemma dropString_app p s : dropString (String.length p) (p +:+ s) = s.
Proof. by induction p. Qed.

Lemma trimPrefix_app p s : trimPrefix p (p +:+ s) = s.
Proof. unfold trimPrefix. by rewrite hasPrefix_app, dropString_app. Qed.

Lemma string_not_longer (a b : string) : a = b -> String.length a = String.length b.
Proof. by intros ->. Qed.

Lemma trimSuffix_app a suf : trimSuffix suf (a +:+ suf) = a.
Proof.
  induction a as [|c a IH]; simpl.
  - destruct suf; simpl; by rewrite ?decide_True.
  - rewrite decide_False, IH; [done|].
    intros H%string_not_longer. simpl in H.
    rewrite string_length_app in H. lia.
Qed.

Lemma cut_found sep a b :
  string_forallb (fun c => negb (bool_decide (c = sep))) a = true ->
  cut sep (a +:+ String sep b) = (a, b, true).
Proof.
  induction a as [|c a IH]; simpl; intros H.
  - by rewrite decide_True.
  - split_hyps. rewrite decide_False by done. by rewrite IH.
Qed.

Lemma cut_not_found sep a :
  string_forallb (fun c => negb (bool_decide (c = sep))) a = true ->
  cut sep a = (a, "", false).
Proof.
  induction a as [|c a IH]; simpl; intros H; [done|].
  split_hyps. rewrite decide_False by done. by rewrite IH.
Qed.

(** ** [strconv] *)

(** The value of a decimal digit. *)
Definition digit_val (c : ascii) : option Z :=
  let n := Z.of_nat (nat_of_ascii c) in
  if decide (48 <= n <= 57)%Z then Some (n - 48)%Z else None.

Definition is_digit (c : ascii) : bool := bool_decide (is_Some (digit_val c)).

Fixpoint parseDigits (s : string) (acc : Z) : option Z :=
  match s with
  | EmptyString => Some acc
  | String c s => d ← digit_val c; parseDigits s (acc * 10 + d)%Z
  end.

Definition int64_min : Z := (- 2 ^ 63)%Z.
Definition int64_max : Z := (2 ^ 63 - 1)%Z.

(** A value that fits Go's 64-bit [int]. *)
Definition in_int64 (z : Z) : Prop := (int64_min <= z <= int64_max)%Z.
#[export] Instance in_int64_dec z : Decision (in_int64 z).
Proof. unfold in_int64. apply _. Defined.

(** The wrap-around of [int64]. *)
Definition wrap64 (z : Z) : Z := ((z + 2 ^ 63) mod 2 ^ 64 - 2 ^ 63)%Z.

Lemma wrap64_in z : in_int64 (wrap64 z).
Proof. unfold wrap64, in_int64, int64_min, int64_max. pose proof (Z.mod_pos_bound (z + 2 ^ 63) (2 ^ 64)). lia. Qed.

Lemma wrap64_id z : in_int64 z -> wrap64 z = z.
Proof. unfold wrap64, in_int64, int64_min, int64_max. intros H. rewrite Z.mod_small by lia. lia. Qed.

Definition parseUnsigned (s : string) : option Z :=
  match s with EmptyString => None | _ => parseDigits s 0 end.

(** [strconv.Atoi]: an optional sign, at least one decimal digit, in range.
    [None] stands for both its syntax and its range error. *)
Definition Atoi (s : string) : option Z :=
  n ← match s with
      | String "-" s => Z.opp <$> parseUnsigned s
      | String "+" s => parseUnsigned s
      | _ => parseUnsigned s
      end;
  if decide (in_int64 n) then Some n else None.

(** [strconv.Itoa]. *)
Definition Itoa (z : Z) : string := pretty z.

Lemma digit_val_pretty n : (n < 10)%N -> digit_val (pretty_N_char n) = Some (Z.of_N n).
Proof.
  intros H. destruct n as [|p]; [done|].
  do 9 (destruct p as [p|p|]; try done; try lia).
Qed.

Lemma parseDigits_pretty_N_go n s :
  parseDigits (pretty_N_go n s) 0 = parseDigits s (Z.of_N n).
Proof.
  revert s. induction (N.lt_wf_0 n) as [n _ IH]; intros s.
  destruct (decide (n = 0)%N) as [->|Hn]; [by rewrite pretty_N_go_0|].
  rewrite pretty_N_go_step by lia. rewrite IH by (apply N.div_lt; lia). simpl.
  rewrite digit_val_pretty by (apply N.mod_lt; lia). simpl. f_equal.
  rewrite N2Z.inj_div, N2Z.inj_mod. change (Z.of_N 10) with 10%Z.
  pose proof (Z.div_mod (Z.of_N n) 10 ltac:(lia)). lia.
Qed.

Lemma pretty_N_digits (n : N) : string_forallb is_digit (pretty n) = true.
Proof.
  unfold pretty, pretty_N. case_decide; [done|].
  assert (forall n s, string_forallb is_digit s = true ->
    string_forallb is_digit (pretty_N_go n s) = true) as Hgo; [|by apply Hgo].
  clear. intros n. induction (N.lt_wf_0 n) as [n _ IH]; intros s Hs.
  destruct (decide (n = 0)%N) as [->|Hn]; [by rewrite pretty_N_go_0|].
  rewrite pretty_N_go_step by lia. apply IH; [apply N.div_lt; lia|]. simpl.
  rewrite Hs, andb_true_r. unfold is_digit.
  rewrite digit_val_pretty by (apply N.mod_lt; lia). by apply bool_decide_true.
Qed.

Lemma pretty_N_cons (n : N) : exists c s, pretty n = String c s /\ is_digit c = true.
Proof.
  pose proof (pretty_N_digits n) as H. destruct (pretty n) as [|c s] eqn:E.
  - unfold pretty, pretty_N in E. case_decide as Hn; [done|].
    rewrite pretty_N_go_step in E by lia.
    assert (forall n c s, pretty_N_go n (String c s) <> "") as Hne; [|by apply Hne in E].
    clear. intros n. induction (N.lt_wf_0 n) as [n _ IH]; intros c s.
    destruct (decide (n = 0)%N) as [->|Hn]; [by rewrite pretty_N_go_0|].
    rewrite pretty_N_go_step by lia. apply IH. apply N.div_lt; lia.
  - simpl in H. split_hyps. eauto.
Qed.

Lemma parseUnsigned_pretty (n : N) : parseUnsigned (pretty n) = Some (Z.of_N n).
Proof.
  destruct (pretty_N_cons n) as (c & s & E & _). unfold parseUnsigned. rewrite E, <- E.
  unfold pretty, pretty_N. case_decide as Hn; [by subst|].
  by rewrite parseDigits_pretty_N_go.
Qed.

Lemma Atoi_digit_first c s :
  is_digit c = true ->
  Atoi (String c s) =
    n ← parseUnsigned (String c s); if decide (in_int64 n) then Some n else None.
Proof.
  intros H. unfold Atoi. destruct c as [[] [] [] [] [] [] [] []]; try done.
Qed.

(** Parsing a printed integer gives it back, as far as [int] reaches. *)
Lemma Atoi_Itoa z : in_int64 z -> Atoi (Itoa z) = Some z.
Proof.
  intros Hz.
  assert (forall n : N, Atoi (pretty n) =
    if decide (in_int64 (Z.of_N n)) then Some (Z.of_N n) else None) as Hpos.
  { intros n. destruct (pretty_N_cons n) as (c & s & E & Hc).
    rewrite E, Atoi_digit_first, <- E, parseUnsigned_pretty by done. done. }
  unfold Itoa. destruct z as [|p|p].
  - done.
  - change (pretty (Z.pos p)) with (pretty (N.pos p)). rewrite Hpos. by rewrite decide_True.
  - change (pretty (Z.neg p)) with ("-" +:+ pretty (N.pos p)). simpl.
    unfold Atoi. rewrite parseUnsigned_pretty. simpl. by rewrite decide_True.
Qed.

Lemma Itoa_inj a b : Itoa a = Itoa b -> a = b.
Proof. apply (inj pretty). Qed.

Lemma Itoa_digits z : (0 <= z)%Z -> string_forallb is_digit (Itoa z) = true.
Proof. destruct z; [done| |lia]. intros _. apply (pretty_N_digits (N.pos p)). Qed.

Lemma is_digit_not c d : is_digit c = true -> is_digit d = false -> c <> d.
Proof. intros H1 H2 ->. congruence. Qed.

Lemma digits_no_char d s :
  is_digit d = false -> string_forallb is_digit s = true ->
  string_forallb (fun c => negb (bool_decide (c = d))) s = true.
Proof.
  intros Hd. induction s as [|c s IH]; simpl; [done|]. intros H. split_hyps.
  rewrite IH by done. rewrite bool_decide_false; [done|]. by apply is_digit_not.
Qed.

(** ** [slices] and [maps] *)

(** Byte order on strings, as Go's [<] and [strings.Compare] have it. *)
Definition string_le (a b : string) : Prop := String.leb a b = true.
#[export] Instance string_le_dec : RelDecision string_le.
Proof. intros a b. unfold string_le. apply _. Defined.

#[export] Instance string_le_total : Total string_le.
Proof. intros a b. unfold string_le. destruct (String.leb_total a b); auto. Qed.

Lemma ascii_compare_lt_trans a b c :
  Ascii.compare a b = Lt -> Ascii.compare b c = Lt -> Ascii.compare a c = Lt.
Proof. unfold Ascii.compare. rewrite !N.compare_lt_iff. lia. Qed.

Lemma string_compare_refl s : String.compare s s = Eq.
Proof. induction s as [|c s IH]; simpl; [done|]. unfold Ascii.compare. by rewrite N.compare_refl. Qed.

Lemma string_compare_trans_le a b c :
  String.compare a b <> Gt -> String.compare b c <> Gt -> String.compare a c <> Gt.
Proof.
  revert b c; induction a as [|x a IH]; intros [|y b] [|z c]; simpl; try done.
  destruct (Ascii.compare x y) eqn:E1; try done;
  destruct (Ascii.compare y z) eqn:E2; try done.
  - apply Ascii.compare_eq_iff in E1, E2. subst.
    unfold Ascii.compare. rewrite N.compare_refl. apply IH.
  - apply Ascii.compare_eq_iff in E1. subst. by rewrite E2.
  - apply Ascii.compare_eq_iff in E2. subst. by rewrite E1.
  - by rewrite (ascii_compare_lt_trans _ _ _ E1 E2).
Qed.

Lemma string_le_compare a b : string_le a b <-> String.compare a b <> Gt.
Proof. unfold string_le, String.leb. destruct (String.compare a b); naive_solver. Qed.

#[export] Instance string_le_preorder : PreOrder string_le.
Proof.
  split.
  - intros s. apply string_le_compare. by rewrite string_compare_refl.
  - intros a b c. rewrite !string_le_compare. apply string_compare_trans_le.
Qed.

#[export] Instance string_le_antisym : AntiSymm (=) string_le.
Proof.
  intros a b H1 H2. apply String.leb_antisym; done.
Qed.

#[export] Instance string_le_trans : Transitive string_le := _.

(** [slices.Sort] on strings, and [slices.Sorted(maps.Keys(m))]. *)
Definition sort_strings (l : list string) : list string := merge_sort string_le l.

Definition sorted_keys {A} (m : gmap string A) : list string :=
  sort_strings (map_to_list m).*1.

Lemma sort_strings_perm l : sort_strings l ≡ₚ l.
Proof. apply merge_sort_Permutation. Qed.

Lemma sort_strings_sorted l : StronglySorted string_le (sort_strings l).
Proof. apply StronglySorted_merge_sort; apply _. Qed.

(** The result of a sort depends on the elements alone. *)
Lemma sort_strings_unique l1 l2 : l1 ≡ₚ l2 -> sort_strings l1 = sort_strings l2.
Proof.
  intros H. apply (StronglySorted_unique string_le).
  - apply sort_strings_sorted.
  - apply sort_strings_sorted.
  - by rewrite !sort_strings_perm.
Qed.

Lemma elem_of_sort_strings x l : x ∈ sort_strings l <-> x ∈ l.
Proof. by rewrite sort_strings_perm. Qed.

Lemma NoDup_sort_strings l : NoDup (sort_strings l) <-> NoDup l.
Proof. by rewrite sort_strings_perm. Qed.

Lemma elem_of_sorted_keys {A} (m : gmap string A) k :
  k ∈ sorted_keys m <-> is_Some (m !! k).
Proof.
  unfold sorted_keys. rewrite elem_of_sort_strings, list_elem_of_fmap. split.
  - intros [[k' v] [-> H%elem_of_map_to_list]]. simpl. eauto.
  - intros [v H]. exists (k, v). split; [done|]. by apply elem_of_map_to_list.
Qed.

Lemma NoDup_sorted_keys {A} (m : gmap string A) : NoDup (sorted_keys m).
Proof. unfold sorted_keys. rewrite NoDup_sort_strings. apply NoDup_fst_map_to_list. Qed.

(** A map's contents in the order a sorted iteration visits them. *)
Definition sorted_items {A} (m : gmap string A) : list (string * A) :=
  omap (fun k => pair k <$> m !! k) (sorted_keys m).

Lemma elem_of_sorted_items {A} (m : gmap string A) k v :
  (k, v) ∈ sorted_items m <-> m !! k = Some v.
Proof.
  unfold sorted_items. rewrite list_elem_of_omap. split.
  - intros (k' & _ & H). destruct (m !! k') eqn:E; naive_solver.
  - intros H. exists k. rewrite elem_of_sorted_keys, H. eauto.
Qed.

(** [slices.SortFunc] by a string key.  Go leaves the order of elements with equal
    keys open; where it matters the keys are distinct. *)
Definition key_le {A} (key : A -> string) (x y : A) : Prop := string_le (key x) (key y).

#[export] Instance key_le_dec {A} (key : A -> string) : RelDecision (key_le key).
Proof. intros x y. unfold key_le. apply _. Defined.
#[export] Instance key_le_trans {A} (key : A -> string) : Transitive (key_le key).
Proof. intros x y z. unfold key_le. apply transitivity. Qed.
#[export] Instance key_le_total {A} (key : A -> string) : Total (key_le key).
Proof. intros x y. unfold key_le. apply total. apply _. Qed.

Definition sort_by {A} (key : A -> string) (l : list A) : list A := merge_sort (key_le key) l.

Lemma sort_by_perm {A} (key : A -> string) l : sort_by key l ≡ₚ l.
Proof. apply merge_sort_Permutation. Qed.

Lemma sort_by_sorted {A} (key : A -> string) l : StronglySorted (key_le key) (sort_by key l).
Proof. apply StronglySorted_merge_sort; apply _. Qed.

Lemma elem_of_sort_by {A} (key : A -> string) x l : x ∈ sort_by key l <-> x ∈ l.
Proof. by rewrite sort_by_perm. Qed.

(** With distinct keys the result depends on the elements alone. *)
Lemma sort_by_unique {A} (key : A -> string) l1 l2 :
  NoDup (key <$> l1) -> l1 ≡ₚ l2 -> sort_by key l1 = sort_by key l2.
Proof.
  intros Hnd Hp. apply (StronglySorted_unique_strong (key_le key)); [|apply sort_by_sorted..|by rewrite !sort_by_perm].
  intros x y Hx Hy H1 H2. rewrite elem_of_sort_by in Hx. rewrite elem_of_sort_by, <- Hp in Hy.
  assert (E : key x = key y) by (by apply (anti_symm string_le)).
  apply list_elem_of_lookup in Hx as [i Hi], Hy as [j Hj].
  assert (i = j) as ->; [|congruence].
  apply (NoDup_lookup _ i j (key x) Hnd); rewrite list_lookup_fmap; [by rewrite Hi|by rewrite Hj, E].
Qed.

(** [slices.SortStableFunc] by a string key: elements with equal keys keep their order. *)
Fixpoint insert_by {A} (key : A -> string) (x : A) (l : list A) : list A :=
  match l with
  | [] => [x]
  | y :: l' => if decide (string_le (key x) (key y)) then x :: l else y :: insert_by key x l'
  end.

Fixpoint stable_sort {A} (key : A -> string) (l : list A) : list A :=
  match l with
  | [] => []
  | x :: l => insert_by key x (stable_sort key l)
  end.

Lemma insert_by_perm {A} (key : A -> string) x l : insert_by key x l ≡ₚ x :: l.
Proof. induction l as [|y l IH]; simpl; [done|]. case_decide; [done|]. rewrite IH. apply Permutation_swap. Qed.

Lemma stable_sort_perm {A} (key : A -> string) l : stable_sort key l ≡ₚ l.
Proof. induction l as [|x l IH]; simpl; [done|]. by rewrite insert_by_perm, IH. Qed.

Lemma elem_of_stable_sort {A} (key : A -> string) x l : x ∈ stable_sort key l <-> x ∈ l.
Proof. by rewrite stable_sort_perm. Qed.

Lemma stable_sort_sorted {A} (key : A -> string) l : StronglySorted (key_le key) (stable_sort key l).
Proof.
  induction l as [|x l IH]; simpl; [constructor|]. revert IH. generalize (stable_sort key l) as t.
  induction t as [|y t IHt]; intros Ht; simpl; [repeat constructor|].
  inversion Ht as [|? ? Ht' Hy]; subst. case_decide as Hxy.
  - constructor; [done|]. constructor; [exact Hxy|]. eapply Forall_impl; [exact Hy|].
    intros z Hz. unfold key_le in *. by trans (key y).
  - constructor; [by apply IHt|]. rewrite insert_by_perm. constructor; [|done].
    unfold key_le. by destruct (total string_le (key x) (key y)).
Qed.

Lemma stable_sort_filter {A} (key : A -> string) k l :
  filter (fun x => key x = k) (stable_sort key l) = filter (fun x => key x = k) l.
Proof.
  induction l as [|x l IH]; simpl; [done|].
  assert (Hins : forall t, StronglySorted (key_le key) t -> filter (fun x => key x = k) (insert_by key x t) =
                   filter (fun x => key x = k) (x :: t)).
  { clear. induction t as [|y t IHt]; intros Ht; simpl; [done|]. case_decide as Hxy; [done|].
    inversion Ht as [|? ? Ht' Hy]; subst. rewrite (filter_cons _ y), IHt by done. rewrite !filter_cons.
    destruct (decide (key x = k)) as [Hx|], (decide (key y = k)) as [Hyk|]; try done.
    exfalso. apply Hxy. rewrite Hx, Hyk. by destruct (total string_le k k). }
  rewrite Hins by apply stable_sort_sorted. rewrite !filter_cons. by rewrite IH.
Qed.

(** [slices.Sorted] on integers. *)
Definition sort_ints (l : list Z) : list Z := merge_sort Z.le l.

Lemma sort_ints_perm l : sort_ints l ≡ₚ l.
Proof. apply merge_sort_Permutation. Qed.

Lemma sort_ints_sorted l : StronglySorted Z.le (sort_ints l).
Proof. apply StronglySorted_merge_sort; apply _. Qed.

(** ** White space and letter case *)

(** The ASCII part of [unicode.IsSpace]. *)
Definition is_space (c : ascii) : bool :=
  let n := nat_of_ascii c in bool_decide (n = 32 \/ 9 <= n <= 13).

Fixpoint trimLeft (s : string) : string :=
  match s with
  | EmptyString => EmptyString
  | String c s' => if is_space c then trimLeft s' else s
  end.

Definition string_rev (s : string) : string :=
  (fix go s acc := match s with EmptyString => acc | String c s => go s (String c acc) end)
    s EmptyString.

(** [strings.TrimSpace] on ASCII white space. *)
Definition trimSpace (s : string) : string := string_rev (trimLeft (string_rev (trimLeft s))).

(** [strings.ToUpper] on ASCII letters. *)
Definition upper_char (c : ascii) : ascii :=
  let n := nat_of_ascii c in if decide (97 <= n <= 122) then ascii_of_nat (n - 32) else c.

Fixpoint toUpper (s : string) : string :=
  match s with EmptyString => EmptyString | String c s => String (upper_char c) (toUpper s) end.

(** [strings.Fields] for ASCII white space. *)
Fixpoint fields_from (cur : string) (s : string) : list string :=
  match s with
  | EmptyString => if decide (cur = EmptyString) then [] else [cur]
  | String c s =>
    if is_space c
    then (if decide (cur = EmptyString) then [] else [cur]) ++ fields_from EmptyString s
    else fields_from (cur +:+ String c EmptyString) s
  end.

Definition fields (s : string) : list string := fields_from EmptyString s.

(** ** Strings and bytes

    The conversions [[]byte(s)] and [string(b)]. *)
Definition bytes_of (s : string) : list Z :=
  (fun c => Z.of_nat (nat_of_ascii c)) <$> String.list_ascii_of_string s.

Definition string_of_bytes (l : list Z) : string :=
  String.string_of_list_ascii ((fun b => ascii_of_nat (Z.to_nat b)) <$> l).

Lemma string_of_bytes_of s : string_of_bytes (bytes_of s) = s.
Proof.
  unfold string_of_bytes, bytes_of. rewrite <- list_fmap_compose.
  rewrite <- (String.string_of_list_ascii_of_string s) at 2. f_equal.
  rewrite <- (list_fmap_id (String.list_ascii_of_string s)) at 2.
  apply list_fmap_ext. intros _ c _. simpl. by rewrite Nat2Z.id, ascii_nat_embedding.
Qed.
