(* ===== verification/LogDriver.v ===== *)
(** * The log driver API

    [cmdman/logdriver/logdriver.go] and [options.go]: the structured log lines
    exchanged with drivers, the split of a byte stream into lines, the stream
    adapter on top of a [Writer], and the validation of driver options.  Bytes
    are [list Z]; times are nanoseconds in [Z] with 0 the zero time. *)

From S2P Require Import Prelude GoStr.

(* src/cmdman/logdriver/logdriver.go:13-19 Stream *)
Definition Stream := string.
Definition StreamStdout : Stream := "stdout".
Definition StreamStderr : Stream := "stderr".

(* src/cmdman/logdriver/logdriver.go:22-27 LogLine *)
Record LogLine := {
  Time : Z;
  stream : Stream;
  Partial : bool;
  Line : list Z;
}.

Definition newline : Z := 10.

(** [bytes.IndexByte(p, '\n')]: the line up to and with the newline, and the
    rest; [None] when there is no newline. *)
Fixpoint index_nl (p : list Z) : option nat :=
  match p with
  | [] => None
  | b :: p => if decide (b = newline) then Some 0 else S <$> index_nl p
  end.

(** The loop of [SplitLogLines]; each round takes at least one byte, so the
    length of [p] is enough fuel. *)
(* src/cmdman/logdriver/logdriver.go:157-178 SplitLogLines *)
Fixpoint split_loop (fuel : nat) (ts : Z) (st : Stream) (p : list Z) : list LogLine :=
  match fuel with
  | O => []
  | S fuel =>
    match p with
    | [] => []
    | _ =>
      match index_nl p with
      | None => [{| Time := ts; stream := st; Partial := true; Line := p |}]
      | Some nl =>
        {| Time := ts; stream := st; Partial := false; Line := take (S nl) p |}
        :: split_loop fuel ts st (drop (S nl) p)
      end
    end
  end.

(* src/cmdman/logdriver/logdriver.go:157-178 SplitLogLines *)
Definition SplitLogLines (ts : Z) (st : Stream) (p : list Z) : list LogLine :=
  split_loop (length p) ts st p.

(* src/cmdman/logdriver/logdriver.go:184-186 SplitLogLines_LegacyShape *)
Definition SplitLogLines_LegacyShape (p : list Z) : list LogLine := SplitLogLines 0 "" p.

(** A complete line: its only newline is its last byte. *)
Definition full_line (l : list Z) : Prop :=
  exists body, l = body ++ [newline] /\ newline ∉ body.

(** What [SplitLogLines] promises of one line. *)
Definition line_ok (ts : Z) (st : Stream) (l : LogLine) : Prop :=
  Time l = ts /\ stream l = st /\
  if Partial l then Line l <> [] /\ newline ∉ Line l else full_line (Line l).

Lemma index_nl_spec p :
  match index_nl p with
  | None => newline ∉ p
  | Some n => full_line (take (S n) p) /\ n < length p
  end.
Proof.
  induction p as [|b p IH]; simpl; [set_solver|].
  case_decide as Hb.
  - split; [|lia]. exists []. simpl. subst. rewrite take_0. split; [done|set_solver].
  - destruct (index_nl p) as [n|]; simpl; [|set_solver].
    destruct IH as [(body & Hbody & Hn) ?]. split; [|lia].
    exists (b :: body). rewrite Hbody. split; [done|]. set_solver.
Qed.

Lemma split_loop_spec fuel ts st p :
  length p <= fuel ->
  concat (Line <$> split_loop fuel ts st p) = p /\
  Forall (line_ok ts st) (split_loop fuel ts st p) /\
  (forall i l, split_loop fuel ts st p !! i = Some l -> Partial l = true ->
     S i = length (split_loop fuel ts st p)).
Proof.
  revert p; induction fuel as [|fuel IH]; intros p Hp.
  { destruct p; simpl in *; [|lia]. split_and!; [done|constructor|done]. }
  destruct p as [|b p0] eqn:E; [split_and!; [done|constructor|done]|].
  cbn [split_loop]. rewrite <- E in *.
  pose proof (index_nl_spec p) as Hnl. destruct (index_nl p) as [n|].
  - destruct Hnl as [Hfull Hn].
    destruct (IH (drop (S n) p)) as (Hc & Hf & Hpart); [rewrite length_drop; lia|].
    cbn [fmap list_fmap concat Line]. rewrite Hc, take_drop. split_and!; [done| |].
    + constructor; [|done]. split_and!; done.
    + intros [|i] l Hl Hpl; simpl in *; [by simplify_eq|]. f_equal. eauto.
  - simpl. rewrite app_nil_r. split_and!; [done| |].
    + constructor; [|constructor]. split_and!; try done. simpl. by subst.
    + intros [|i] l Hl Hpl; simpl in *; done.
Qed.

(** splitting a write into log lines loses and invents nothing (the lines
    concatenate to the bytes written), every full line holds exactly one newline
    and it is its last byte, a partial line is not empty and holds none, and only
    the last line of a write can be partial. *)
Theorem SplitLogLines_spec ts st p :
  concat (Line <$> SplitLogLines ts st p) = p /\
  Forall (line_ok ts st) (SplitLogLines ts st p) /\
  (forall i l, SplitLogLines ts st p !! i = Some l -> Partial l = true ->
     S i = length (SplitLogLines ts st p)).
Proof. by apply split_loop_spec. Qed.

(** ** The stream adapter over a [Writer]

    A [Writer] is a state with a fallible [WriteLogLine]; an error leaves the
    state the failed call produced. *)
Section StreamWriter.
Context {W E : Type} (WriteLogLine : LogLine -> W -> W * option E).

Fixpoint write_lines (w : W) (consumed : nat) (lines : list LogLine)
  : W * (nat * option E) :=
  match lines with
  | [] => (w, (consumed, None))
  | l :: lines =>
    match WriteLogLine l w with
    | (w, Some e) => (w, (consumed, Some e))
    | (w, None) => write_lines w (consumed + length (Line l)) lines
    end
  end.

(* src/cmdman/logdriver/logdriver.go:206-218 streamWriter.Write *)
Definition stream_Write (now : Z) (st : Stream) (w : W) (p : list Z)
  : W * (nat * option E) :=
  match p with
  | [] => (w, (0, None))
  | _ => write_lines w 0 (SplitLogLines now st p)
  end.

(** The lines a run of [write_lines] handed over successfully. *)
Inductive accepted : W -> list LogLine -> W -> Prop :=
| accepted_nil w : accepted w [] w
| accepted_cons w l w1 ls w2 :
    WriteLogLine l w = (w1, None) -> accepted w1 ls w2 -> accepted w (l :: ls) w2.

Lemma write_lines_spec lines w c w' n e :
  write_lines w c lines = (w', (n, e)) ->
  exists done_ rest w1, lines = done_ ++ rest /\ accepted w done_ w1 /\
    n = c + length (concat (Line <$> done_)) /\
    match e with
    | None => rest = [] /\ w' = w1
    | Some e => exists l rest', rest = l :: rest' /\ WriteLogLine l w1 = (w', Some e)
    end.
Proof.
  revert w c; induction lines as [|l lines IH]; intros w c H; simpl in H.
  - simplify_eq. exists [], [], w'. split_and!; [done|constructor|csimpl; lia|done|done].
  - destruct (WriteLogLine l w) as [w1 [e1|]] eqn:El.
    + simplify_eq. exists [], (l :: lines), w. split_and!; [done|constructor|csimpl; lia|eauto].
    + destruct (IH _ _ H) as (d & r & w2 & -> & Hacc & -> & He).
      exists (l :: d), r, w2. split_and!; [done|by econstructor| |done].
      csimpl. rewrite length_app. lia.
Qed.
End StreamWriter.

(** a byte write through a stream adapter hands the driver the lines of the
    write in order; without an error every byte is consumed, and when a line fails
    the count returned is exactly the bytes of the lines before it, so a caller
    that retries from there neither loses nor repeats a byte. *)
Theorem stream_Write_consumed {W E} (WriteLogLine : LogLine -> W -> W * option E)
    now st w p w' n e :
  stream_Write WriteLogLine now st w p = (w', (n, e)) ->
  exists ls w1, accepted WriteLogLine w ls w1 /\
    concat (Line <$> ls) = take n p /\ n <= length p /\
    match e with
    | None => n = length p /\ w' = w1
    | Some err => exists l, n + length (Line l) <= length p /\
        WriteLogLine l w1 = (w', Some err)
    end.
Proof.
  intros H.
  assert (exists ls rest w1, SplitLogLines now st p = ls ++ rest /\ accepted WriteLogLine w ls w1 /\
     n = length (concat (Line <$> ls)) /\
      match e with
      | None => rest = [] /\ w' = w1
      | Some e => exists l rest', rest = l :: rest' /\ WriteLogLine l w1 = (w', Some e)
      end) as (ls & rest & w1 & Hs & Hacc & -> & He).
  { destruct p as [|b p0]; simpl in H.
    - simplify_eq. exists [], [], w'. split_and!; try done. constructor.
    - by apply write_lines_spec in H. }
  pose proof (proj1 (split_loop_spec (length p) now st p (Nat.le_refl _))) as Hc.
  fold (SplitLogLines now st p) in Hc.
  rewrite Hs, fmap_app, concat_app in Hc. exists ls, w1. rewrite <- Hc at 1 2.
  rewrite take_app_length, length_app. split_and!; try done; [lia|].
  destruct e as [err|].
  - destruct He as (l & rest' & -> & Hl). exists l. split; [|done].
    rewrite <- Hc, length_app. simpl. rewrite length_app. lia.
  - destruct He as [-> ->]. split; [|done]. rewrite <- Hc, length_app. simpl. lia.
Qed.

Lemma stream_Write_consumed_witness :
  exists ls w1, accepted (fun l (w : nat) => (S w, if decide (w = 1) then Some tt else None)) 0 ls w1 /\
    concat (Line <$> ls) = take 2 [65; 10; 66; 67]%Z /\ 2 <= 4 /\
    (exists l, 2 + length (Line l) <= 4 /\
      (S w1, if decide (w1 = 1) then Some tt else None) = (2, Some tt)).
Proof.
  apply (stream_Write_consumed
    (fun l (w : nat) => (S w, if decide (w = 1) then Some tt else None))
    7 StreamStdout 0 [65; 10; 66; 67]%Z 2 2 (Some tt)). reflexivity.
Defined.

(** ** Driver options *)

(* src/cmdman/logdriver/options.go:15-18 DriverK8sFile *)
Definition DriverK8sFile : string := "k8s-file".
(* src/cmdman/logdriver/options.go:15-18 DriverNone *)
Definition DriverNone : string := "none".
(* src/cmdman/logdriver/options.go:54-58 LogOptPath *)
Definition LogOptPath : string := "path".
(* src/cmdman/logdriver/options.go:54-58 LogOptMaxSize *)
Definition LogOptMaxSize : string := "max-size".
(* src/cmdman/logdriver/options.go:54-58 LogOptMaxFile *)
Definition LogOptMaxFile : string := "max-file".

(** An opaque position: an offset the k8s-file driver minted, a file and a number of
    bytes, or any other value. *)
Inductive anyOffset := K8sOffset (path : string) (bytes : Z) | ForeignOffset.

(* src/cmdman/logdriver/options.go:21-38 ReaderOption *)
Record ReaderOption := {
  Follow : bool;
  Since : Z;
  Until : Z;
  Head : Z;
  Tail : Z;
  StartOffset : option anyOffset;
}.

(* src/cmdman/logdriver/options.go:41-52 ReaderOption.Validate *)
Inductive readerOptErr := HeadAndTail | FollowAndUntil | SinceAfterUntil.

(* src/cmdman/logdriver/options.go:41-52 ReaderOption.Validate *)
Definition ReaderOption_Validate (ro : ReaderOption) : result readerOptErr unit :=
  if bool_decide (0 < Head ro)%Z && bool_decide (0 < Tail ro)%Z then Err HeadAndTail
  else if Follow ro && negb (bool_decide (Until ro = 0%Z)) then Err FollowAndUntil
  else if negb (bool_decide (Since ro = 0%Z)) && negb (bool_decide (Until ro = 0%Z))
          && bool_decide (Until ro < Since ro)%Z then Err SinceAfterUntil
  else Ok tt.

(* src/cmdman/logdriver/options.go:60-66 IsDriver *)
Definition IsDriver (s : string) : bool :=
  bool_decide (s = DriverK8sFile) || bool_decide (s = DriverNone).

(* src/cmdman/logdriver/options.go:68-77 IsValidOpt *)
Definition IsValidOpt (driver key : string) : bool :=
  bool_decide (driver = DriverK8sFile) &&
  (bool_decide (key = LogOptPath) || bool_decide (key = LogOptMaxSize)
   || bool_decide (key = LogOptMaxFile)).

(* src/cmdman/logdriver/options.go:79-126 ValidateOpt *)
Inductive optErr :=
| InvalidOpt (key driver : string)
| PathNotAbs (value : string)
| InvalidSize (value : string)
| SizeOverflow (value : string)
| InvalidCount (value : string)
| CountTooSmall (value : string).

(** [filepath.IsAbs] on Unix. *)
Definition isAbs (p : string) : bool := hasPrefix "/" p.

Section Options.
(** [humanize.ParseBytes]: a [uint64] or an error. *)
Context (ParseBytes : string -> option Z).

(* src/cmdman/logdriver/options.go:100-112 ParseMaxSize *)
Definition ParseMaxSize (value : string) : result optErr Z :=
  if decide (value = "") then Ok 0%Z
  else match ParseBytes value with
       | None => Err (InvalidSize value)
       | Some n => if decide (int64_max < n)%Z then Err (SizeOverflow value) else Ok n
       end.

(* src/cmdman/logdriver/options.go:114-126 ParseMaxFile *)
Definition ParseMaxFile (value : string) : result optErr Z :=
  if decide (value = "" \/ value = "0") then Ok 0%Z
  else match Atoi value with
       | None => Err (InvalidCount value)
       | Some n => if decide (n < 1)%Z then Err (CountTooSmall value) else Ok n
       end.

(* src/cmdman/logdriver/options.go:79-98 ValidateOpt *)
Definition ValidateOpt (driver key value : string) : result optErr unit :=
  if negb (IsValidOpt driver key) then Err (InvalidOpt key driver)
  else if decide (key = LogOptPath) then
    if isAbs value then Ok tt else Err (PathNotAbs value)
  else if decide (key = LogOptMaxSize) then
    try _ := ParseMaxSize value in Ok tt
  else if decide (key = LogOptMaxFile) then
    try _ := ParseMaxFile value in Ok tt
  else Ok tt.

(** [k8sfile]'s reading of its options: absent keys take the defaults. *)
Definition DefaultLogMaxSize : Z := 5 * 1024 * 1024.
Definition DefaultLogMaxFile : Z := 3.

(* src/cmdman/logdriver/k8sfile/options.go:14-20 parseLogMaxSizeOption *)
Definition parseLogMaxSizeOption (opts : gmap string string) : result optErr Z :=
  match opts !! LogOptMaxSize with
  | None => Ok DefaultLogMaxSize
  | Some v => ParseMaxSize v
  end.

(* src/cmdman/logdriver/k8sfile/options.go:22-28 parseLogMaxFileOption *)
Definition parseLogMaxFileOption (opts : gmap string string) : result optErr Z :=
  match opts !! LogOptMaxFile with
  | None => Ok DefaultLogMaxFile
  | Some v => ParseMaxFile v
  end.
End Options.

(** options that pass validation are the ones the k8s-file driver can start
    with: when every option of the map is accepted for the driver, parsing the size
    limit and the file count succeeds, the size is a non-negative [int64] and the
    count is 0 (unlimited) or positive. *)
Theorem validated_opts_parse (ParseBytes : string -> option Z) (opts : gmap string string)
    (HParse : forall s n, ParseBytes s = Some n -> (0 <= n)%Z) :
  (forall k v, opts !! k = Some v -> ValidateOpt ParseBytes DriverK8sFile k v = Ok tt) ->
  exists size count, parseLogMaxSizeOption ParseBytes opts = Ok size /\
    parseLogMaxFileOption opts = Ok count /\
    (0 <= size)%Z /\ in_int64 size /\ (0 <= count)%Z.
Proof.
  intros H.
  assert (exists size, parseLogMaxSizeOption ParseBytes opts = Ok size /\ (0 <= size)%Z /\ in_int64 size)
    as (size & Hs & Hs0 & Hs1).
  { unfold parseLogMaxSizeOption. destruct (opts !! LogOptMaxSize) as [v|] eqn:E.
    - apply H in E. unfold ValidateOpt in E. simpl in E.
      destruct (ParseMaxSize ParseBytes v) as [n|] eqn:En; [|done]. exists n. split; [done|].
      unfold ParseMaxSize in En. case_decide; simplify_eq; [split; [lia|]; done|].
      destruct (ParseBytes v) as [m|] eqn:Em; [|done]. case_decide; simplify_eq.
      apply HParse in Em. split; [done|]. unfold in_int64, int64_max, int64_min in *. lia.
    - exists DefaultLogMaxSize. done. }
  assert (exists count, parseLogMaxFileOption opts = Ok count /\ (0 <= count)%Z)
    as (count & Hc & Hc0).
  { unfold parseLogMaxFileOption. destruct (opts !! LogOptMaxFile) as [v|] eqn:E.
    - apply H in E. unfold ValidateOpt in E. simpl in E.
      destruct (ParseMaxFile v) as [n|] eqn:En; [|done]. exists n. split; [done|].
      unfold ParseMaxFile in En. case_decide; simplify_eq; [lia|].
      destruct (Atoi v); [|done]. case_decide; simplify_eq. lia.
    - exists DefaultLogMaxFile. done. }
  eauto 10.
Qed.

Lemma validated_opts_parse_witness :
  exists size count,
    parseLogMaxSizeOption (fun _ => Some 1024%Z) {["max-file" := "4"]} = Ok size /\
    parseLogMaxFileOption {["max-file" := "4"]} = Ok count /\
    (0 <= size)%Z /\ in_int64 size /\ (0 <= count)%Z.
Proof.
  apply validated_opts_parse.
  - intros s n [= <-]. lia.
  - intros k v H. apply lookup_singleton_Some in H as [<- <-]. reflexivity.
Defined.
