(* ===== verification/K8sFile.v ===== *)
(** * The k8s-file log driver: writing

    [cmdman/logdriver/k8sfile/writer.go] and [parse.go]: the entry format, the
    writer with its buffer and its rotation over a file system in which any call
    may fail, and the parser of one entry.  Offsets and sizes are [Z], bytes are
    [list Z].  Formatting and parsing of a timestamp are the [time] package's. *)
From S2P Require Import Prelude GoStr LogDriver.

(* src/cmdman/logdriver/k8sfile/writer.go:18-19 DefaultLogFileName *)
Definition DefaultLogFileName : string := "console.log".

(* src/cmdman/logdriver/k8sfile/writer.go:25-29 tagFull *)
Definition tagFull : list Z := bytes_of "F".
(* src/cmdman/logdriver/k8sfile/writer.go:25-29 tagPartial *)
Definition tagPartial : list Z := bytes_of "P".
(* src/cmdman/logdriver/k8sfile/writer.go:25-29 tagRotation *)
Definition tagRotation : list Z := bytes_of "R".

Definition space : Z := 32.

(* src/cmdman/logdriver/k8sfile/writer.go:39-42 Offset *)
Record Offset := MkOffset { off_Path : string; off_Bytes : Z }.

#[export] Instance Offset_eq_dec : EqDecision Offset.
Proof. solve_decision. Defined.

(* src/cmdman/logdriver/k8sfile/writer.go:73-81 resolvePath *)
Definition resolvePath (Join : string -> string -> string) (dir : string)
    (opts : gmap string string) : option string :=
  let p := default "" (opts !! LogOptPath) in
  if decide (p <> "") then Some p
  else if decide (dir <> "") then Some (Join dir DefaultLogFileName) else None.

(** [fmt.Sprintf("%s.%d", path, i)], and the name of the file that rotation counts as
    number [i]. *)
Definition archive (path : string) (i : nat) : string := path +:+ "." +:+ Itoa (Z.of_nat i).
Definition log_name (path : string) (i : nat) : string :=
  match i with O => path | S _ => archive path i end.

(** ** The file system and the buffer

    The files by name, and how many system calls were made.  [fault n] says how the
    call number [n] goes: [None] is success, [Some k] an error, a write having
    written [k] bytes before it. *)
Record world := MkWorld { files : gmap string (list Z); calls : nat }.

Inductive writerErr :=
| WriteFailed | CloseFailed | RemoveFailed | OpenFailed | RenameFailed (src dst : string)
| PathEmpty.

(** [bufio.Writer] of the default size: the bytes not yet written, and its error,
    which sticks. *)
Definition bufio_size : nat := 4096.

(* src/cmdman/logdriver/k8sfile/writer.go:83-94 Writer *)
Record Writer := MkWriter {
  w_open : bool;        (* whether the file bw writes to is open *)
  w_nil : bool;         (* f = nil *)
  w_buf : list Z;       (* bw *)
  w_sticky : bool;      (* bw's error *)
  w_path : string;
  maxSize : Z;
  maxFile : Z;
  written : Z }.

Definition st : Type := Writer * world.

Definition set_buf (b : list Z) (k : bool) (w : Writer) : Writer :=
  MkWriter (w_open w) (w_nil w) b k (w_path w) (maxSize w) (maxFile w) (written w).
Definition set_written (n : Z) (w : Writer) : Writer :=
  MkWriter (w_open w) (w_nil w) (w_buf w) (w_sticky w) (w_path w) (maxSize w) (maxFile w) n.

Section Driver.
Context (fault : nat -> option nat).
(** [Time.Format] and [time.Parse] for the layout [K8sLogTimeFormat]. *)
Context (Format : Z -> list Z) (Parse : list Z -> option Z).

(** *** System calls *)

Definition sys (v : world) : option nat * world :=
  (fault (calls v), MkWorld (files v) (S (calls v))).

Definition set_file (name : string) (c : list Z) (v : world) : world :=
  MkWorld (<[name := c]> (files v)) (calls v).

(** [write(2)] on the open file, which rotation only renames once it is closed: how many
    bytes of [p] it took, and whether all went well. *)
Definition sys_write (p : list Z) (s : st) : (nat * bool) * st :=
  let '(w, v) := s in
  if w_open w then
    let '(r, v) := sys v in
    let n := match r with None => length p | Some n => min n (length p) end in
    let c := default [] (files v !! w_path w) in
    ((n, bool_decide (r = None)), (w, set_file (w_path w) (c ++ take n p) v))
  else ((0, false), s).

(** [bufio.Writer.Flush]. *)
Definition flush : errst st writerErr unit := fun s =>
  let '(w, _) := s in
  if w_sticky w then (Err WriteFailed, s)
  else if decide (w_buf w = []) then (Ok tt, s)
  else
    let '((n, ok), (w, v)) := sys_write (w_buf w) s in
    if ok : bool then (Ok tt, (set_buf [] false w, v))
    else (Err WriteFailed, (set_buf (drop n (w_buf w)) true w, v)).

(** [bufio.Writer.Write]: with nothing buffered, what exceeds the buffer is written
    directly; otherwise the buffer is filled and flushed first. *)
Definition bwrite_empty (p : list Z) : errst st writerErr unit := fun s =>
  let '(w, _) := s in
  if decide (length p <= bufio_size) then (Ok tt, (set_buf p (w_sticky w) w, s.2))
  else
    let '((_, ok), (w, v)) := sys_write p s in
    if ok : bool then (Ok tt, (w, v)) else (Err WriteFailed, (set_buf [] true w, v)).

Definition bwrite (p : list Z) : errst st writerErr unit := fun s =>
  let '(w, v) := s in
  let room := bufio_size - length (w_buf w) in
  if w_sticky w then (Err WriteFailed, s)
  else if decide (length p <= room) then (Ok tt, (set_buf (w_buf w ++ p) false w, v))
  else if decide (w_buf w = []) then bwrite_empty p s
  else (_ ← flush; bwrite_empty (drop room p)) (set_buf (w_buf w ++ take room p) false w, v).

(** *** Rotation *)

Definition close_file : errst st writerErr unit := fun s =>
  let '(w, v) := s in
  let '(r, v) := sys v in
  let w' := MkWriter false (w_nil w) (w_buf w) (w_sticky w) (w_path w) (maxSize w) (maxFile w) (written w) in
  (if decide (r = None /\ w_open w = true) then Ok tt else Err CloseFailed, (w', v)).

Definition set_nil (w : Writer) : Writer :=
  MkWriter (w_open w) true (w_buf w) (w_sticky w) (w_path w) (maxSize w) (maxFile w) (written w).

Definition sys_remove (name : string) : errst st writerErr unit := fun s =>
  let '(w, v) := s in
  let '(r, v) := sys v in
  if decide (r = None) then (Ok tt, (w, MkWorld (delete name (files v)) (calls v)))
  else (Err RemoveFailed, (w, v)).

(** [os.Rename], for which a missing source is no failure here. *)
Definition sys_rename (src dst : string) : errst st writerErr unit := fun s =>
  let '(w, v) := s in
  let '(r, v) := sys v in
  if decide (r = None) then
    (Ok tt, (w, match files v !! src with
                | Some c => MkWorld (<[dst := c]> (delete src (files v))) (calls v)
                | None => v end))
  else (Err (RenameFailed src dst), (w, v)).

(** [os.OpenFile] with [O_APPEND|O_CREATE]. *)
Definition open_file (name : string) (v : world) : option (list Z) * world :=
  let '(r, v) := sys v in
  if decide (r = None) then
    let c := default [] (files v !! name) in (Some c, set_file name c v)
  else (None, v).

Definition reopen : errst st writerErr unit := fun s =>
  let '(w, v) := s in
  let '(r, v) := open_file (w_path w) v in
  match r with
  | Some _ => (Ok tt, (MkWriter true false [] false (w_path w) (maxSize w) (maxFile w) 0, v))
  | None => (Err OpenFailed, (w, v))
  end.

(** What the writer adds to [written], also when it fails later on. *)
Definition add_written (n : Z) : errst st writerErr unit :=
  modify (fun s => (set_written (written s.1 + n) s.1, s.2)).

Definition marker (now : Z) : list Z := Format now ++ bytes_of " stdout " ++ tagRotation ++ bytes_of " -
".

(* src/cmdman/logdriver/k8sfile/writer.go:256-275 Writer.writeRotationMarker *)
Definition writeRotationMarker (now : Z) : errst st writerErr unit :=
  let tsText := Format now in
  _ ← bwrite tsText;
  _ ← bwrite (bytes_of " stdout ");
  _ ← bwrite tagRotation;
  _ ← bwrite (bytes_of " -
");
  _ ← flush;
  add_written (Z.of_nat (length (marker now))).

(** The renames of number [i - 1] to [i], down to that of the active file. *)
(* src/cmdman/logdriver/k8sfile/writer.go:236-245 Writer.rotate *)
Fixpoint rename_down (path : string) (i : nat) : errst st writerErr unit :=
  match i with
  | O => mret tt
  | S j => _ ← sys_rename (log_name path j) (archive path i); rename_down path j
  end.

(* src/cmdman/logdriver/k8sfile/writer.go:211-254 Writer.rotate *)
Definition rotate (now : Z) : errst st writerErr unit :=
  _ ← writeRotationMarker now;
  '(w, _) ← get;
  _ ← close_file;
  _ ← modify (fun s => (set_nil s.1, s.2));
  _ ← (if decide (maxFile w <= 1)%Z then sys_remove (w_path w)
       else rename_down (w_path w) (Z.to_nat (maxFile w - 1)));
  reopen.

(** ** Entries *)

Definition entry_stream (l : LogLine) : Stream :=
  if decide (stream l = "") then StreamStdout else stream l.
Definition entry_tag (l : LogLine) : list Z := if Partial l then tagPartial else tagFull.

(** [ts.IsZero] is time 0. *)
Definition entry_time (now : Z) (l : LogLine) : Z := if decide (Time l = 0%Z) then now else Time l.

(** The bytes of an entry. *)
Definition entry (now : Z) (l : LogLine) : list Z :=
  Format (entry_time now l) ++ [space] ++ bytes_of (entry_stream l) ++ [space] ++ entry_tag l ++
  [space] ++ Line l ++ (if Partial l then [newline] else []).

(** [now] is read at most twice: for a line without a time, and for the marker. *)
(* src/cmdman/logdriver/k8sfile/writer.go:123-180 Writer.WriteLogLine *)
Definition WriteLogLine (now now' : Z) (l : LogLine) : errst st writerErr unit :=
  if decide (Line l = []) then mret tt
  else
    let tsText := Format (entry_time now l) in
    let str := bytes_of (entry_stream l) in
    let tag := entry_tag l in
    let entrySize := (Z.of_nat (length tsText + 1 + length str + 1 + length tag + 1 + length (Line l)) +
                      (if Partial l then 1 else 0))%Z in
    '(w, _) ← get;
    _ ← (if decide (0 < maxSize w /\ maxSize w <= written w + entrySize)%Z
         then rotate now' else mret tt);
    _ ← bwrite tsText;
    _ ← bwrite [space];
    _ ← bwrite str;
    _ ← bwrite [space];
    _ ← bwrite tag;
    _ ← bwrite [space];
    _ ← bwrite (Line l);
    _ ← (if Partial l then bwrite [newline] else mret tt);
    _ ← add_written entrySize;
    flush.

(* src/cmdman/logdriver/k8sfile/writer.go:96-121 newWriter *)
Definition newWriter (path : string) (size count : Z) (v : world) : result writerErr Writer * world :=
  if decide (path = "") then (Err PathEmpty, v)
  else
    let '(r, v) := open_file path v in
    match r with
    | None => (Err OpenFailed, v)
    | Some c =>
        let '(r, v) := sys v in
        if decide (r = None)
        then (Ok (MkWriter true false [] false path size count (Z.of_nat (length c))), v)
        else (Err OpenFailed, v)
    end.

(** The loop of [Write], with a time for each line's rotation. *)
(* src/cmdman/logdriver/k8sfile/writer.go:182-196 Writer.Write *)
Fixpoint Write_lines (now : Z) (now' : nat -> Z) (consumed : nat) (lines : list LogLine) (s : st)
    : nat * option writerErr * st :=
  match lines with
  | [] => ((consumed, None), s)
  | l :: lines =>
      match WriteLogLine now (now' consumed) l s with
      | (Err e, s) => ((consumed, Some e), s)
      | (Ok _, s) => Write_lines now now' (consumed + length (Line l)) lines s
      end
  end.

(* src/cmdman/logdriver/k8sfile/writer.go:182-196 Writer.Write *)
Definition Write (now : Z) (now' : nat -> Z) (p : list Z) (s : st) : nat * option writerErr * st :=
  match p with
  | [] => ((0, None), s)
  | _ => Write_lines now now' 0 (SplitLogLines now StreamStdout p) s
  end.

(* src/cmdman/logdriver/k8sfile/writer.go:198-209 Writer.CurrentOffset *)
Definition CurrentOffset (s : st) : Offset * st :=
  let s := (flush s).2 in (MkOffset (w_path s.1) (written s.1), s).

(** The writer is not used after it was closed. *)
(* src/cmdman/logdriver/k8sfile/writer.go:277-289 Writer.Close *)
Definition Close (s : st) : result writerErr unit * world :=
  if w_nil s.1 then (Ok tt, s.2)
  else
    let '(r1, s) := flush s in
    let '(r2, s) := close_file s in
    (match r1 with Err _ => r1 | Ok _ => r2 end, s.2).

(** ** Parsing an entry *)

Inductive parseErr := MalformedEntry | MalformedTime | MalformedTag.

(** [bytes.IndexByte], and the bytes before and behind. *)
Fixpoint cut_at (sep : Z) (l : list Z) : option (list Z * list Z) :=
  match l with
  | [] => None
  | b :: l => if decide (b = sep) then Some ([], l)
              else '(x, y) ← cut_at sep l; Some (b :: x, y)
  end.

(** [bytes.TrimRight(content, "\n")]. *)
Fixpoint trim_newlines (l : list Z) : list Z :=
  match l with
  | [] => []
  | b :: l => match trim_newlines l with
              | [] => if decide (b = newline) then [] else [b]
              | l => b :: l end
  end.

Definition no_line : LogLine := {| Time := 0; stream := ""; Partial := false; Line := [] |}.

(* src/cmdman/logdriver/k8sfile/parse.go:18-59 parseEntry *)
Definition parseEntry (e : list Z) : result parseErr (LogLine * bool) :=
  match cut_at space e with
  | None => Err MalformedEntry
  | Some (t, e) =>
    match cut_at space e with
    | None => Err MalformedEntry
    | Some (str, e) =>
      match cut_at space e with
      | None => Err MalformedEntry
      | Some (tag, content) =>
        match Parse t with
        | None => Err MalformedTime
        | Some ts =>
          let line partial c :=
            ({| Time := ts; stream := string_of_bytes str; Partial := partial; Line := c |}, false) in
          if decide (tag = tagPartial) then Ok (line true (trim_newlines content))
          else if decide (tag = tagFull) then Ok (line false content)
          else if decide (tag = tagRotation) then Ok (no_line, true)
          else Err MalformedTag
        end
      end
    end
  end.
End Driver.
