(* ===== verification/K8sWriter.v ===== *)
(** * The k8s-file log driver: what the writer keeps

    The writer of [K8sFile.v] keeps the most recent lines, in order and complete, in at
    most [max-file] files of bounded size, and stops for good at its first error. *)
From S2P Require Import Prelude GoStr LogDriver K8sFile.

Lemma log_name_inj path i j : log_name path i = log_name path j -> i = j.
Proof.
  assert (forall k, path <> archive path k) as Hp.
  { intros k H. apply string_not_longer in H. unfold archive in H.
    rewrite !string_length_app in H. simpl in H. lia. }
  destruct i, j; simpl; intros H; [done|by apply Hp in H|by symmetry in H; apply Hp in H|].
  unfold archive in H. apply string_app_inj_l, string_app_inj_l, Itoa_inj in H. lia.
Qed.

Section Writing.
Context (fault : nat -> option nat) (Format : Z -> list Z).

(** ** States *)

Definition live (s : st) : Prop := w_open s.1 = true /\ w_sticky s.1 = false /\ w_nil s.1 = false.
Definition dead (s : st) : Prop := w_open s.1 = false \/ w_sticky s.1 = true.

(** What the active file is going to hold once the buffer is flushed. *)
Definition stored (s : st) : list Z := default [] (files s.2 !! w_path s.1) ++ w_buf s.1.

Record same_conf (s s' : st) : Prop := {
  sc_path : w_path s'.1 = w_path s.1;
  sc_size : maxSize s'.1 = maxSize s.1;
  sc_file : maxFile s'.1 = maxFile s.1 }.

#[global] Instance same_conf_refl : Reflexive same_conf.
Proof. done. Qed.
#[global] Instance same_conf_trans : Transitive same_conf.
Proof. intros s1 s2 s3 [] []. split; congruence. Qed.

(** The active file grew by [p], perhaps still in the buffer, and [written] by [k]. *)
Record grew (p : list Z) (k : Z) (s s' : st) : Prop := {
  gr_live : live s';
  gr_conf : same_conf s s';
  gr_stored : stored s' = stored s ++ p;
  gr_written : written s'.1 = (written s.1 + k)%Z;
  gr_there : is_Some (files s.2 !! w_path s.1) -> is_Some (files s'.2 !! w_path s.1);
  gr_files : forall name, name <> w_path s.1 -> files s'.2 !! name = files s.2 !! name }.

(** An operation that appends [p], or fails for good. *)
Definition grows (m : errst st writerErr unit) (p : list Z) (k : Z) : Prop :=
  forall s r s', live s -> m s = (r, s') ->
  match r with Ok _ => grew p k s s' | Err _ => dead s' end.

Lemma grew_trans p1 k1 p2 k2 s1 s2 s3 :
  grew p1 k1 s1 s2 -> grew p2 k2 s2 s3 -> grew (p1 ++ p2) (k1 + k2) s1 s3.
Proof.
  intros [H1 H2 H3 H4 H6 H5] [G1 G2 G3 G4 G6 G5]. rewrite (sc_path _ _ H2) in *.
  split; [done|by etrans| | | |].
  - by rewrite G3, H3, app_assoc.
  - lia.
  - auto.
  - intros name Hn. by rewrite G5, H5.
Qed.

Lemma grows_ret : grows (mret tt) [] 0.
Proof. intros s r s' Hs [= <- <-]. split; [done|done|by rewrite app_nil_r|lia|done|done]. Qed.

Lemma grows_bind m m' p k p' k' :
  grows m p k -> grows m' p' k' -> grows (_ ← m; m') (p ++ p') (k + k').
Proof.
  intros Hm Hm' s r s' Hs H. apply errst_bind_inv in H as [(a & s1 & H1 & H2)|(e & H1 & ->)].
  - apply Hm in H1; [|done]. apply Hm' in H2; [|apply H1]. destruct r; [|done].
    by eapply grew_trans.
  - by apply Hm in H1.
Qed.

(** *** The primitives *)

Lemma sys_write_grew p w v n ok s' :
  live (w, v) -> sys_write fault p (w, v) = ((n, ok), s') ->
  s'.1 = w /\ n <= length p /\ (ok = true -> n = length p) /\
  files s'.2 !! w_path w = Some (default [] (files v !! w_path w) ++ take n p) /\
  forall name, name <> w_path w -> files s'.2 !! name = files v !! name.
Proof.
  intros (Ho & _ & _) H. simpl in *. unfold sys_write, sys in H. rewrite Ho in H. simpl in H.
  injection H as <- <- <-. simpl. split; [done|]. split; [destruct (fault (calls v)); lia|].
  split; [by intros ->%bool_decide_eq_true|]. rewrite lookup_insert_eq.
  split; [done|]. intros name Hn. by rewrite lookup_insert_ne.
Qed.

Lemma flush_grows s r s' :
  live s -> flush fault s = (r, s') ->
  match r with Ok _ => grew [] 0 s s' /\ w_buf s'.1 = [] | Err _ => dead s' end.
Proof.
  intros Hs H. destruct s as [w v]. pose proof Hs as (Ho & Hk & Hn). simpl in Ho, Hk, Hn.
  unfold flush in H. rewrite Hk in H. case_decide as Hb.
  - injection H as <- <-. split.
    { split; [done|done|by rewrite app_nil_r|lia|done|done]. }
    done.
  - destruct (sys_write fault (w_buf w) (w, v)) as [[n ok] [w' v']] eqn:E.
    apply sys_write_grew in E as (Hw & Hl & Hok & Hf & Ho'); [|done]. simpl in Hw, Hf, Ho'. subst w'.
    destruct ok; injection H as <- <-; [|by right].
    rewrite Hok, take_ge in Hf by done. split; [|done].
    split; [done|done| |simpl; lia|simpl; eauto|done].
    unfold stored. simpl. by rewrite Hf, !app_nil_r.
Qed.

Lemma bwrite_empty_grows p s r s' :
  live s -> w_buf s.1 = [] -> bwrite_empty fault p s = (r, s') ->
  match r with Ok _ => grew p 0 s s' | Err _ => dead s' end.
Proof.
  intros Hs Hb H. destruct s as [w v]. pose proof Hs as (Ho & Hk & Hn). simpl in Ho, Hk, Hn, Hb.
  unfold bwrite_empty in H. case_decide.
  - injection H as <- <-. split; [by split_and!|done| |simpl; lia|done|done].
    unfold stored. simpl. by rewrite Hb, app_nil_r.
  - destruct (sys_write fault p (w, v)) as [[n ok] [w' v']] eqn:E.
    apply sys_write_grew in E as (Hw & Hl & Hok & Hf & Ho'); [|done]. simpl in Hw, Hf, Ho'. subst w'.
    destruct ok; injection H as <- <-; [|by right].
    rewrite Hok, take_ge in Hf by done. split; [done|done| |simpl; lia|simpl; eauto|done].
    unfold stored. simpl. by rewrite Hf, Hb, !app_nil_r.
Qed.

Lemma set_buf_grew q w v :
  live (w, v) -> grew q 0 (w, v) (set_buf (w_buf w ++ q) false w, v).
Proof.
  intros (Ho & Hk & Hn). split; [by split_and!|done| |simpl; lia|done|done].
  unfold stored. simpl. by rewrite app_assoc.
Qed.

Lemma bwrite_grows p : grows (bwrite fault p) p 0.
Proof.
  intros s r s' Hs H. destruct s as [w v]. pose proof Hs as (Ho & Hk & Hn). simpl in Ho, Hk, Hn.
  unfold bwrite in H. rewrite Hk in H. case_decide; [injection H as <- <-; by apply set_buf_grew|].
  case_decide as Hb; [by apply bwrite_empty_grows in H|].
  pose proof (set_buf_grew (take (bufio_size - length (w_buf w)) p) w v Hs) as Hg.
  apply errst_bind_inv in H as [(a & s1 & H1 & H2)|(e & H1 & ->)].
  - apply flush_grows in H1 as (G1 & Hb1); [|apply Hg].
    apply bwrite_empty_grows in H2; [|apply G1|done].
    destruct r; [|done]. pose proof (grew_trans _ _ _ _ _ _ _ (grew_trans _ _ _ _ _ _ _ Hg G1) H2) as G.
    by rewrite app_nil_r, take_drop in G.
  - apply flush_grows in H1; [done|apply Hg].
Qed.

Lemma add_written_grows k : grows (add_written k) [] k.
Proof.
  intros [w v] r s' (Ho & Hk & Hn) [= <- <-]. split; [by split_and!|done| |done|done|done].
  unfold stored. simpl. by rewrite app_nil_r.
Qed.

(** An operation that appends [p] and leaves nothing in the buffer, or fails for good. *)
Definition lands (m : errst st writerErr unit) (p : list Z) (k : Z) : Prop :=
  forall s r s', live s -> m s = (r, s') ->
  match r with Ok _ => grew p k s s' /\ w_buf s'.1 = [] | Err _ => dead s' end.

Lemma lands_flush : lands (flush fault) [] 0.
Proof. intros s r s' Hs H. by apply flush_grows in H. Qed.

Lemma lands_bind m m' p k p' k' :
  grows m p k -> lands m' p' k' -> lands (_ ← m; m') (p ++ p') (k + k').
Proof.
  intros Hm Hm' s r s' Hs H. apply errst_bind_inv in H as [(a & s1 & H1 & H2)|(e & H1 & ->)].
  - apply Hm in H1; [|done]. apply Hm' in H2; [|apply H1]. destruct r; [|done].
    destruct H2 as [H2 ?]. split; [by eapply grew_trans|done].
  - by apply Hm in H1.
Qed.

Lemma lands_eq m p p' k k' : lands m p k -> p = p' -> k = k' -> lands m p' k'.
Proof. by intros H -> ->. Qed.

(** *** A dead writer *)

(** Fails without touching a file, from every dead state; [fails_full]: at least from
    those with something in the buffer. *)
Definition fails_if (P : st -> Prop) (m : errst st writerErr unit) : Prop :=
  forall s r s', dead s -> P s -> m s = (r, s') ->
  dead s' /\ files s'.2 = files s.2 /\ exists e, r = Err e.
Definition fails_full := fails_if (fun s => w_buf s.1 <> []).
Definition fails := fails_if (fun _ => True).

Lemma fails_weaken m : fails m -> fails_full m.
Proof. intros H s r s' Hs _. by apply H. Qed.

Lemma fails_flush : fails_full (flush fault).
Proof.
  intros [w v] r s' Hs Hb H. simpl in Hb. unfold flush in H.
  destruct (w_sticky w) eqn:Hk; [injection H as <- <-; eauto|].
  rewrite decide_False in H by done. destruct Hs as [Ho|?]; [|simpl in *; congruence].
  simpl in Ho. unfold sys_write in H. rewrite Ho in H. injection H as <- <-.
  split; [by right|]. eauto.
Qed.

Lemma bwrite_dead p s r s' :
  dead s -> bwrite fault p s = (r, s') ->
  dead s' /\ files s'.2 = files s.2 /\
  match r with Ok _ => w_buf s'.1 = w_buf s.1 ++ p | Err _ => True end.
Proof.
  intros Hs H. destruct s as [w v]. unfold bwrite in H.
  destruct (w_sticky w) eqn:Hk; [by injection H as <- <-|].
  destruct Hs as [Ho|?]; [|simpl in *; congruence]. simpl in Ho.
  case_decide; [injection H as <- <-; split; [by left|done]|].
  case_decide as Hb.
  - unfold bwrite_empty in H. case_decide; [injection H as <- <-; simpl; rewrite Hb; split; [by left|done]|].
    unfold sys_write in H. rewrite Ho in H. injection H as <- <-. split; [by right|done].
  - apply errst_bind_inv in H as [(a & s1 & H1 & H2)|(e & H1 & ->)].
    + apply fails_flush in H1 as (_ & _ & e & He); [done|by left|]. simpl. by destruct (w_buf w).
    + apply fails_flush in H1 as (Hd & Hf & _); [done|by left|]. simpl. by destruct (w_buf w).
Qed.

Lemma fails_bwrite p m : fails_full m -> p <> [] -> fails (_ ← bwrite fault p; m).
Proof.
  intros Hm Hp s r s' Hs _ H. apply errst_bind_inv in H as [(a & s1 & H1 & H2)|(e & H1 & ->)].
  - apply bwrite_dead in H1 as (Hd & Hf & Hb); [|done].
    apply Hm in H2 as (? & Hf' & ?); [by rewrite <- Hf|done|]. rewrite Hb. by destruct (w_buf s.1), p.
  - apply bwrite_dead in H1 as (Hd & Hf & _); [|done]. eauto.
Qed.

Lemma fails_bwrite_any p m : fails m -> fails (_ ← bwrite fault p; m).
Proof.
  intros Hm s r s' Hs _ H. apply errst_bind_inv in H as [(a & s1 & H1 & H2)|(e & H1 & ->)].
  - apply bwrite_dead in H1 as (Hd & Hf & Hb); [|done].
    apply Hm in H2 as (? & Hf' & ?); [by rewrite <- Hf|done|done].
  - apply bwrite_dead in H1 as (Hd & Hf & _); [|done]. eauto.
Qed.

Lemma fails_full_bwrite p m : fails_full m -> fails_full (_ ← bwrite fault p; m).
Proof.
  intros Hm s r s' Hs Hb0 H. apply errst_bind_inv in H as [(a & s1 & H1 & H2)|(e & H1 & ->)].
  - apply bwrite_dead in H1 as (Hd & Hf & Hb); [|done].
    apply Hm in H2 as (? & Hf' & ?); [by rewrite <- Hf|done|]. rewrite Hb. by destruct (w_buf s.1).
  - apply bwrite_dead in H1 as (Hd & Hf & _); [|done]. eauto.
Qed.

Lemma fails_full_add k m : fails_full m -> fails_full (_ ← add_written k; m).
Proof.
  intros Hm [w v] r s' Hs Hb H. by apply (Hm (set_written (written w + k) w, v)).
Qed.

Lemma fails_bind m f : fails m -> fails (m ≫= f).
Proof.
  intros Hm s r s' Hs _ H. apply errst_bind_inv in H as [(a & s1 & H1 & H2)|(e & H1 & ->)].
  - by apply Hm in H1 as (_ & _ & e & ?).
  - apply Hm in H1 as (? & ? & _); eauto.
Qed.

(** ** Rotation *)

(** The contents of the numbered files of a log, from the active one on. *)
Definition contents (s : st) (i : nat) : option (list Z) := files s.2 !! log_name (w_path s.1) i.

Lemma sys_rename_spec src dst s r s' :
  src <> dst -> sys_rename fault src dst s = (r, s') ->
  s'.1 = s.1 /\
  match r with
  | Err _ => True
  | Ok _ => files s'.2 !! src = None /\
      files s'.2 !! dst = match files s.2 !! src with Some c => Some c | None => files s.2 !! dst end /\
      forall name, name <> src -> name <> dst -> files s'.2 !! name = files s.2 !! name
  end.
Proof.
  intros Hne H. destruct s as [w v]. unfold sys_rename, sys in H. case_decide; simpl in H.
  - injection H as <- <-. split; [done|]. simpl. destruct (files v !! src) as [c|] eqn:E; simpl.
    + rewrite lookup_insert_ne, lookup_delete_eq, lookup_insert_eq by done.
      split_and!; [done|done|]. intros name H1 H2. by rewrite lookup_insert_ne, lookup_delete_ne.
    + done.
  - by injection H as <- <-.
Qed.

(** Every file moves up by one; a gap would stop the files behind it from moving. *)
Lemma rename_down_spec k s r s' :
  (forall j, j < k -> contents s j = None -> contents s (S j) = None) ->
  rename_down fault (w_path s.1) k s = (r, s') ->
  s'.1 = s.1 /\
  match r with
  | Err _ => True
  | Ok _ => (0 < k -> contents s' 0 = None) /\
      (forall j, j < k -> contents s' (S j) = contents s j) /\
      (forall name, (forall j, j <= k -> 0 < k -> name <> log_name (w_path s.1) j) ->
         files s'.2 !! name = files s.2 !! name)
  end.
Proof.
  unfold contents.
  revert s; induction k as [|k IH]; intros s Hgap H; simpl in H.
  { injection H as <- <-. split_and!; [done|lia|lia|done]. }
  apply errst_bind_inv in H as [(a & s1 & H1 & H2)|(e & H1 & ->)].
  2: { apply sys_rename_spec in H1 as [? _]; [done|]. intros E.
       change (archive ?p (S k)) with (log_name p (S k)) in E. apply log_name_inj in E. lia. }
  change (archive ?p (S k)) with (log_name p (S k)) in H1.
  assert (forall i j, i <> j -> log_name (w_path s.1) i <> log_name (w_path s.1) j) as Hne
    by (intros i j Hij ?%log_name_inj; done).
  apply sys_rename_spec in H1 as (Hw & Hk & HSk & Ho); [|by apply Hne].
  assert (files s1.2 !! log_name (w_path s.1) (S k) = files s.2 !! log_name (w_path s.1) k) as HSk'.
  { rewrite HSk. destruct (files s.2 !! log_name (w_path s.1) k) eqn:E; [done|]. by apply Hgap; [lia|]. }
  rewrite <- Hw in H2. apply IH in H2 as (Hw' & H2).
  2: { intros j Hj. rewrite Hw, (Ho (log_name _ j)) by (apply Hne; lia). intros E.
       destruct (decide (S j = k)) as [->|]; [done|].
       rewrite Ho by (apply Hne; lia). apply Hgap; [lia|done]. }
  split; [congruence|]. destruct r; [|done]. rewrite Hw', Hw in *. destruct H2 as (H0 & Hs & Ho').
  split_and!.
  - intros _. destruct k; [|apply H0; lia]. by rewrite Ho' by lia.
  - intros j Hj. destruct (decide (j = k)) as [->|].
    + rewrite Ho'; [done|]. intros i Hi _. apply Hne. lia.
    + rewrite Hs by lia. apply Ho; apply Hne; lia.
  - intros name Hn. rewrite Ho' by (intros; apply Hn; lia). apply Ho; apply Hn; lia.
Qed.

(** The highest number of a rotated file. *)
Definition archives (s : st) : nat := Z.to_nat (maxFile s.1 - 1).

(** A writer between two lines, and what its files hold from the newest to the oldest. *)
Record holds (s : st) (cs : list (list Z)) : Prop := {
  ho_live : live s;
  ho_buf : w_buf s.1 = [];
  ho_written : written s.1 = Z.of_nat (length (default [] (head cs)));
  ho_files : forall i, i <= archives s -> contents s i = cs !! i;
  ho_len : 0 < length cs <= S (archives s) }.

Lemma lands_flush_add k : lands (_ ← flush fault; add_written k) [] k.
Proof.
  intros s r s' Hs H. apply errst_bind_inv in H as [(a & s1 & H1 & H2)|(e & H1 & ->)].
  - apply flush_grows in H1 as (G & Hb); [|done]. pose proof (gr_live _ _ _ _ G) as Hl.
    pose proof (add_written_grows k s1 r s' Hl H2) as G2. injection H2 as <- <-.
    split; [|done]. apply (grew_trans _ _ _ _ _ _ _ G G2).
  - by apply flush_grows in H1.
Qed.

Lemma marker_lands now :
  lands (writeRotationMarker fault Format now) (marker Format now)
    (Z.of_nat (length (marker Format now))).
Proof.
  eapply lands_eq.
  - unfold writeRotationMarker. do 4 (eapply lands_bind; [apply bwrite_grows|]).
    apply lands_flush_add.
  - unfold marker. by rewrite app_nil_r.
  - lia.
Qed.

(** What a file holds once an operation on an idle writer has landed. *)
Lemma landed_contents p k s s' cs c :
  holds s (c :: cs) -> grew p k s s' -> w_buf s'.1 = [] ->
  contents s' 0 = Some (c ++ p) /\ forall i, S i <= archives s -> contents s' (S i) = cs !! i.
Proof.
  intros [Hl Hb Hw Hf _] G Hb'. pose proof (Hf 0 ltac:(lia)) as H0. unfold contents in *.
  rewrite (sc_path _ _ (gr_conf _ _ _ _ G)). split.
  - simpl. destruct (gr_there _ _ _ _ G) as [c' Hc']; [rewrite (H0 : files s.2 !! w_path s.1 = _); eauto|].
    pose proof (gr_stored _ _ _ _ G) as Hs. unfold stored in Hs.
    rewrite Hb, Hb', !app_nil_r, (sc_path _ _ (gr_conf _ _ _ _ G)), Hc' in Hs.
    rewrite (H0 : files s.2 !! w_path s.1 = _) in Hs. simpl in Hs. by rewrite Hc', Hs.
  - intros i Hi. rewrite (gr_files _ _ _ _ G), (Hf (S i) Hi); [done|].
    intros E. change (w_path s.1) with (log_name (w_path s.1) 0) in E at 2. by apply log_name_inj in E.
Qed.

Lemma reopen_spec s r s' :
  dead s -> reopen fault s = (r, s') ->
  match r with
  | Ok _ => live s' /\ same_conf s s' /\ w_buf s'.1 = [] /\ written s'.1 = 0%Z /\
            files s'.2 = <[w_path s.1 := default [] (files s.2 !! w_path s.1)]> (files s.2)
  | Err _ => dead s'
  end.
Proof.
  intros Hd H. destruct s as [w v]. unfold reopen, open_file, sys in H.
  case_decide; simpl in H; injection H as <- <-; [|done]. by split_and!.
Qed.

(** The middle of a rotation: the files are moved out of the way. *)
Lemma moved_spec s r s' c cs :
  contents s 0 = Some c -> (forall i, S i <= archives s -> contents s (S i) = cs !! i) ->
  (if decide (maxFile s.1 <= 1)%Z then sys_remove fault (w_path s.1)
   else rename_down fault (w_path s.1) (Z.to_nat (maxFile s.1 - 1))) s = (r, s') ->
  s'.1 = s.1 /\
  match r with
  | Err _ => True
  | Ok _ => contents s' 0 = None /\
      forall i, S i <= archives s -> contents s' (S i) = (c :: cs) !! i
  end.
Proof.
  intros H0 HS H. case_decide as Hm.
  - destruct s as [w v]. unfold sys_remove, sys in H. case_decide; simpl in H.
    + injection H as <- <-. split; [done|]. split; [by apply lookup_delete_eq|].
      intros i Hi. unfold archives in Hi. simpl in *. lia.
    + by injection H as <- <-.
  - fold (archives s) in H. apply rename_down_spec in H as (Hw & H).
    + split; [done|]. destruct r; [|done]. destruct H as (H1 & H2 & _).
      split; [apply H1; unfold archives; lia|]. intros i Hi. rewrite H2 by lia.
      destruct i as [|i]; [done|]. apply HS. lia.
    + intros j Hj E. destruct j as [|j]; [congruence|]. rewrite HS in * by lia.
      apply lookup_ge_None in E. apply lookup_ge_None. lia.
Qed.

Lemma lookup_take_cons {A} n (x y : A) l i :
  S i <= n -> take (S n) (x :: y :: l) !! S i = (y :: l) !! i.
Proof. intros. change (take n (y :: l) !! i = (y :: l) !! i). by rewrite lookup_take_lt by lia. Qed.

Lemma rotate_spec now s r s' c cs :
  holds s (c :: cs) -> rotate fault Format now s = (r, s') ->
  match r with
  | Ok _ => holds s' (take (S (archives s)) ([] :: (c ++ marker Format now) :: cs)) /\ same_conf s s'
  | Err _ => dead s'
  end.
Proof.
  intros Hh H. unfold rotate in H.
  apply errst_bind_inv in H as [(? & s1 & H1 & H)|(e & H1 & ->)];
    apply marker_lands in H1; try apply Hh; [|done].
  destruct H1 as [G1 Hb1]. pose proof (landed_contents _ _ _ _ _ _ Hh G1 Hb1) as [C0 CS].
  pose proof (gr_conf _ _ _ _ G1) as Hc.
  assert (archives s = archives s1) as HN by (unfold archives; by rewrite (sc_file _ _ Hc)).
  destruct s1 as [w1 v1].
  apply errst_bind_inv in H as [(? & s2 & E & H)|(e & [=] & _)]. injection E as <- <-.
  apply errst_bind_inv in H as [(? & s2 & H2 & H)|(e & H2 & ->)].
  2: { injection H2 as _ <-. by left. }
  apply errst_bind_inv in H as [(? & s3 & [= <- <-] & H)|(e & [=] & _)].
  remember (set_nil s2.1, s2.2) as s2' eqn:Es2.
  assert (dead s2' /\ same_conf (w1, v1) s2' /\ files s2'.2 = files v1) as (Hd2 & Hc2 & Hf2).
  { rewrite Es2. injection H2 as _ <-. split; [by left|]. done. }
  clear Es2 H2.
  change w1 with (w1, v1).1 in H. rewrite <- (sc_file _ _ Hc2), <- (sc_path _ _ Hc2) in H.
  assert (forall i, contents s2' i = contents (w1, v1) i) as HC
    by (intros i; unfold contents; by rewrite Hf2, (sc_path _ _ Hc2)).
  assert (archives s = archives s2') as HN2
    by (rewrite HN; unfold archives; by rewrite (sc_file _ _ Hc2)).
  apply errst_bind_inv in H as [(? & s4 & H4 & H)|(e & H4 & ->)].
  all: apply moved_spec with (c := c ++ marker Format now) (cs := cs) in H4 as [Hw4 H4];
    [|by rewrite HC|intros; rewrite HC; apply CS; lia].
  2: { unfold dead in *. by rewrite Hw4. }
  destruct H4 as [M0 MS]. apply reopen_spec in H; [|unfold dead in *; by rewrite Hw4].
  destruct r; [|done]. destruct H as (Hl & Hcf & Hb & Hwr & Hf).
  assert (same_conf s s') as Hss'.
  { etrans; [exact Hc|]. etrans; [exact Hc2|]. etrans; [|exact Hcf].
    by split; rewrite Hw4. }
  split; [|done].
  assert (archives s' = archives s) as HN' by (unfold archives; by rewrite (sc_file _ _ Hss')).
  split; [done|done|done| |].
  - intros i Hi. rewrite HN' in Hi. unfold contents in *. rewrite Hf, (sc_path _ _ Hcf).
    destruct i as [|i].
    + simpl. rewrite lookup_insert_eq. rewrite Hw4 in *. simpl in M0. by rewrite M0.
    + rewrite lookup_insert_ne, lookup_take_cons by (try lia; intros E;
        change (w_path s4.1) with (log_name (w_path s4.1) 0) in E at 1; by apply log_name_inj in E).
      apply MS. lia.
  - rewrite HN'. simpl. rewrite length_take. lia.
Qed.

(** ** A line *)

(** The bytes of a line reach the active file and are counted. *)
Lemma landed_holds p s s' cs c :
  holds s (c :: cs) -> grew p (Z.of_nat (length p)) s s' -> w_buf s'.1 = [] ->
  holds s' ((c ++ p) :: cs).
Proof.
  intros Hh G Hb. pose proof (landed_contents _ _ _ _ _ _ Hh G Hb) as [C0 CS].
  pose proof (sc_file _ _ (gr_conf _ _ _ _ G)) as HN.
  split; [apply G|done| | |].
  - rewrite (gr_written _ _ _ _ G), (ho_written _ _ Hh). simpl. rewrite length_app. lia.
  - unfold archives. rewrite HN. intros [|i] Hi; [done|]. by apply CS.
  - unfold archives. rewrite HN. apply (ho_len _ _ Hh).
Qed.

Lemma length_entry now l :
  (Z.of_nat (length (Format (entry_time now l)) + 1 + length (bytes_of (entry_stream l)) + 1 +
             length (entry_tag l) + 1 + length (Line l)) + (if Partial l then 1 else 0))%Z =
  Z.of_nat (length (entry Format now l)).
Proof. unfold entry. rewrite !length_app. destruct (Partial l); simpl; lia. Qed.

Definition write_entry (now : Z) (l : LogLine) : errst st writerErr unit :=
  _ ← bwrite fault (Format (entry_time now l));
  _ ← bwrite fault [space];
  _ ← bwrite fault (bytes_of (entry_stream l));
  _ ← bwrite fault [space];
  _ ← bwrite fault (entry_tag l);
  _ ← bwrite fault [space];
  _ ← bwrite fault (Line l);
  _ ← (if Partial l then bwrite fault [newline] else mret tt);
  _ ← add_written (Z.of_nat (length (entry Format now l)));
  flush fault.

Lemma write_entry_lands now l :
  lands (write_entry now l) (entry Format now l) (Z.of_nat (length (entry Format now l))).
Proof.
  eapply lands_eq.
  - unfold write_entry. do 7 (eapply lands_bind; [apply bwrite_grows|]).
    eapply lands_bind; [|eapply lands_bind; [apply add_written_grows|apply lands_flush]].
    instantiate (1 := 0%Z). instantiate (1 := if Partial l then [newline] else []).
    destruct (Partial l); [apply bwrite_grows|apply grows_ret].
  - unfold entry. by rewrite !app_nil_r.
  - lia.
Qed.

Lemma WriteLogLine_eq now now' l s :
  Line l <> [] ->
  WriteLogLine fault Format now now' l s =
  (_ ← (if decide (0 < maxSize s.1 /\
                   maxSize s.1 <= written s.1 + Z.of_nat (length (entry Format now l)))%Z
        then rotate fault Format now' else mret tt);
   write_entry now l) s.
Proof.
  intros Hl. unfold WriteLogLine, write_entry. rewrite decide_False, length_entry by done.
  by destruct s.
Qed.

(** What the files hold after one more line. *)
Definition too_big (size : Z) (e : list Z) (cs : list (list Z)) : bool :=
  bool_decide (0 < size /\ size <= Z.of_nat (length (default [] (head cs)) + length e))%Z.

Definition put (size : Z) (n : nat) (now' : Z) (e : list Z) (cs : list (list Z)) : list (list Z) :=
  match cs with
  | [] => []
  | c :: cs' => if too_big size e cs then take (S n) (e :: (c ++ marker Format now') :: cs')
                else (c ++ e) :: cs'
  end.

Lemma WriteLogLine_spec now now' l s r s' cs :
  holds s cs -> Line l <> [] -> WriteLogLine fault Format now now' l s = (r, s') ->
  match r with
  | Ok _ => holds s' (put (maxSize s.1) (archives s) now' (entry Format now l) cs) /\ same_conf s s'
  | Err _ => dead s'
  end.
Proof.
  intros Hh Hl H. destruct cs as [|c cs]; [pose proof (ho_len _ _ Hh); simpl in *; lia|].
  rewrite WriteLogLine_eq, (ho_written _ _ Hh) in H by done. simpl in H.
  unfold put, too_big. simpl. rewrite Nat2Z.inj_add.
  case_decide as Hbig; [rewrite bool_decide_true by done|rewrite bool_decide_false by done].
  - apply errst_bind_inv in H as [(? & s1 & H1 & H)|(e & H1 & ->)];
      apply (rotate_spec _ _ _ _ _ _ Hh) in H1; [|done].
    destruct H1 as [Hh1 Hc]. simpl in Hh1. apply write_entry_lands in H; [|apply Hh1].
    destruct r; [|done]. destruct H as [G Hb]. split; [|etrans; [done|apply G]].
    by apply (landed_holds _ _ _ _ _ Hh1 G).
  - apply errst_bind_inv in H as [(? & s1 & [= <- <-] & H)|(e & [=] & ->)].
    apply write_entry_lands in H; [|apply Hh]. destruct r; [|done]. destruct H as [G Hb].
    split; [by eapply landed_holds|apply G].
Qed.

Lemma rotate_fails now : fails (rotate fault Format now).
Proof.
  unfold rotate. apply fails_bind. unfold writeRotationMarker. apply fails_bwrite_any.
  apply fails_bwrite; [|done]. apply fails_full_bwrite, fails_full_bwrite.
  intros s r s' Hs Hb H. apply errst_bind_inv in H as [(? & s1 & H1 & H)|(e & H1 & ->)];
    apply fails_flush in H1 as (? & ? & e' & ?); try done. eauto.
Qed.

Lemma WriteLogLine_fails now now' l : Line l <> [] -> fails (WriteLogLine fault Format now now' l).
Proof.
  intros Hl s r s' Hs HT H. rewrite WriteLogLine_eq in H by done.
  assert (fails (write_entry now l)) as Hw.
  { unfold write_entry. apply fails_bwrite_any. apply fails_bwrite; [|done].
    repeat apply fails_full_bwrite. destruct (Partial l).
    - apply fails_full_bwrite, fails_full_add, fails_flush.
    - intros s2 r2 s2' Hs2 Hb2. apply (fails_full_add _ _ fails_flush); done. }
  case_decide.
  - exact (fails_bind _ _ (rotate_fails now') s r s' Hs HT H).
  - exact (Hw s r s' Hs HT H).
Qed.
End Writing.
