(* ===== verification/K8sReader.v ===== *)
(** * The k8s-file log driver: reading

    [cmdman/logdriver/k8sfile/tail.go], [discover.go] and [reader.go]: finding lines
    from the end of a file in chunks, opening the active file and its archives, and the
    reader with its options.  A file is its contents; errors of reading an open file are
    not modelled.  A reader that follows is given what it finds at each poll. *)
From S2P Require Import Prelude GoStr LogDriver K8sFile.

(** ** Lines from the end of a file *)

Inductive tailErr := NegativeSize (size : Z).

(** [ReadAt(buf[:n], start)]. *)
Definition read_at (r : list Z) (start n : nat) : list Z := take n (drop start r).

(** The offset behind the [k]-th newline of the first [i] bytes of [buf], counted from
    their end, or how many are still missing. *)
Fixpoint back_newlines (buf : list Z) (i k : nat) : nat + nat :=
  match i with
  | O => inr k
  | S j =>
      if decide (buf !! j = Some newline) then
        match k with
        | O | S O => inl i
        | S k => back_newlines buf j k
        end
      else back_newlines buf j k
  end.

Section Chunks.
(** [tailChunkSize]: four pages. *)
Context (tailChunkSize : nat).

(** The loop of the backward searches: chunk by chunk from [pos] down to the start of
    the file.  Every round takes at least one byte, so [pos] rounds are enough. *)
(* src/cmdman/logdriver/k8sfile/tail.go:51-74 FindLastLine *)
Fixpoint search_back (fuel : nat) (r : list Z) (pos k : nat) : nat :=
  match fuel with
  | O => 0
  | S fuel =>
      if decide (pos = 0) then 0
      else
        let start := pos - tailChunkSize in
        match back_newlines (read_at r start (pos - start)) (pos - start) k with
        | inl i => start + i
        | inr k => search_back fuel r start k
        end
  end.

(* src/cmdman/logdriver/k8sfile/tail.go:39-75 FindLastLine *)
Definition FindLastLine (r : list Z) (size : Z) : result tailErr Z :=
  if decide (size < 0)%Z then Err (NegativeSize size)
  else Ok (Z.of_nat (search_back (Z.to_nat size) r (Z.to_nat size) 2)).

(* src/cmdman/logdriver/k8sfile/tail.go:85-104 snapLineStart *)
Definition snapLineStart (r : list Z) (offset : nat) : nat := search_back offset r offset 1.

(** The offset behind the [k]-th newline of [buf], or how many are still missing. *)
Fixpoint forward_newlines (buf : list Z) (k : nat) : nat + nat :=
  match buf with
  | [] => inr k
  | b :: buf =>
      if decide (b = newline) then
        match k with
        | O | S O => inl 1
        | S k => match forward_newlines buf k with inl i => inl (S i) | inr k => inr k end
        end
      else match forward_newlines buf k with inl i => inl (S i) | inr k => inr k end
  end.

(* src/cmdman/logdriver/k8sfile/tail.go:106-130 skipLinesForward *)
Fixpoint skipLinesForward (fuel : nat) (r : list Z) (size pos k : nat) : nat :=
  match fuel with
  | O => size
  | S fuel =>
      if decide (size <= pos) then size
      else
        let n := min tailChunkSize (size - pos) in
        match forward_newlines (read_at r pos n) k with
        | inl i => pos + i
        | inr k => skipLinesForward fuel r size (pos + n) k
        end
  end.

(* src/cmdman/logdriver/k8sfile/tail.go:132-157 skipLinesBackward *)
Definition skipLinesBackward (r : list Z) (offset k : nat) : nat :=
  if decide (offset = 0) then 0 else search_back (offset - 1) r (offset - 1) k.

(* src/cmdman/logdriver/k8sfile/tail.go:12-37 SkipLines *)
Definition SkipLines (r : list Z) (size startOffset lines : Z) : result tailErr Z :=
  if decide (size < 0)%Z then Err (NegativeSize size)
  else
    let start := Z.to_nat (Z.min (Z.max startOffset 0) size) in
    let offset := snapLineStart r start in
    Ok (Z.of_nat
      (if decide (lines = 0)%Z then offset
       else if decide (0 < lines)%Z
       then skipLinesForward (Z.to_nat size) r (Z.to_nat size) offset (Z.to_nat lines)
       else skipLinesBackward r offset (Z.to_nat (- lines)))).

(** ** Entries *)

Context (Parse : list Z -> option Z).

(** [ReadBytes('\n')] again and again until the end of what is there: entries with
    their newline, and what is left behind the last one. *)
Fixpoint read_entries (fuel : nat) (c : list Z) : list (list Z) :=
  match fuel with
  | O => []
  | S fuel =>
      match c with
      | [] => []
      | _ => match index_nl c with
             | None => [c]
             | Some n => take (S n) c :: read_entries fuel (drop (S n) c)
             end
      end
  end.
Definition entries (c : list Z) : list (list Z) := read_entries (length c) c.

Inductive readErr :=
| EntryErr (e : parseErr)
| TailErr (e : tailErr)
| OpenErr (path : string)
| EmptyPath
| StartOffsetType.

(** ** Discovering the files *)

(* src/cmdman/logdriver/k8sfile/discover.go:14-20 fileSpan *)
Record fileSpan := MkSpan {
  sp_Path : string;
  sp_File : list Z;
  HeadTime : Z;
  TailTime : Z;
  Empty : bool }.

(** The first entry that is not a rotation marker. *)
(* src/cmdman/logdriver/k8sfile/discover.go:104-128 readFirstUserLine *)
Fixpoint readFirstUserLine (es : list (list Z)) : result readErr (option Z) :=
  match es with
  | [] => Ok None
  | e :: es =>
      match parseEntry Parse e with
      | Err x => Err (EntryErr x)
      | Ok (_, true) => readFirstUserLine es
      | Ok (l, false) => Ok (Some (Time l))
      end
  end.

(** A complete entry at an offset; empty when there is none. *)
(* src/cmdman/logdriver/k8sfile/discover.go:168-181 readEntryAt *)
Definition readEntryAt (f : list Z) (offset : Z) : list Z :=
  let c := drop (Z.to_nat offset) f in
  match index_nl c with None => [] | Some n => take (S n) c end.

(** The loop of [readLastUserLine] and of [lastUserLineOffset]: from an offset back over
    the rotation markers.  Every round moves to a smaller offset. *)
(* src/cmdman/logdriver/k8sfile/reader.go:328-354 lastUserLineOffset *)
Fixpoint last_user_line (fuel : nat) (f : list Z) (size offset : Z)
    : result readErr (option (Z * LogLine)) :=
  match fuel with
  | O => Ok None
  | S fuel =>
      let e := readEntryAt f offset in
      if decide (e = []) then Ok None
      else
        match parseEntry Parse e with
        | Err x => Err (EntryErr x)
        | Ok (l, false) => Ok (Some (offset, l))
        | Ok (_, true) =>
            if decide (offset = 0)%Z then Ok None
            else
              match SkipLines f size offset (-1) with
              | Err x => Err (TailErr x)
              | Ok next => if decide (next = offset) then Ok None
                           else last_user_line fuel f size next
              end
        end
  end.

(* src/cmdman/logdriver/k8sfile/reader.go:323-355 lastUserLineOffset *)
Definition lastUserLine (f : list Z) : result readErr (option (Z * LogLine)) :=
  let size := Z.of_nat (length f) in
  match FindLastLine f size with
  | Err x => Err (TailErr x)
  | Ok offset => last_user_line (S (length f)) f size offset
  end.

(* src/cmdman/logdriver/k8sfile/discover.go:130-162 readLastUserLine *)
Definition readLastUserLine (f : list Z) : result readErr (option Z) :=
  try x := lastUserLine f in Ok ((fun p => Time p.2) <$> x).

(* src/cmdman/logdriver/k8sfile/discover.go:74-102 fillSpanTimes *)
Definition fillSpanTimes (path : string) (f : list Z) : result readErr fileSpan :=
  let empty := MkSpan path f 0 0 true in
  if decide (f = []) then Ok empty
  else
    try head := readFirstUserLine (entries f) in
    match head with
    | None => Ok empty
    | Some h =>
        try tail := readLastUserLine f in
        match tail with
        | None => Ok empty
        | Some t => Ok (MkSpan path f h t false)
        end
    end.

(** The archives from number [i] on, as long as they exist. *)
(* src/cmdman/logdriver/k8sfile/discover.go:34-47 discoverFiles *)
Fixpoint open_archives (fs : gmap string (list Z)) (path : string) (k i : nat)
    : list (string * list Z) :=
  match k with
  | O => []
  | S k =>
      match fs !! archive path i with
      | None => []
      | Some f => (archive path i, f) :: open_archives fs path k (S i)
      end
  end.

(* src/cmdman/logdriver/k8sfile/discover.go:24-56 discoverFiles *)
Definition discoverFiles (fs : gmap string (list Z)) (path : string) (maxFile : Z)
    : result readErr (list fileSpan) :=
  if decide (path = "") then Err EmptyPath
  else
    match fs !! path with
    | None => Err (OpenErr path)
    | Some active =>
        let opened := (path, active) :: open_archives fs path (Z.to_nat (maxFile - 1)) 1 in
        try spans := result_mapM (fun p => fillSpanTimes p.1 p.2) opened in Ok (reverse spans)
    end.

(** ** Choosing where to start *)

(* src/cmdman/logdriver/k8sfile/reader.go:38-42 readSpan *)
Record readSpan := MkRead { rs_span : fileSpan; Start : Z; End : Z }.

Definition from_start (sp : fileSpan) : readSpan := MkRead sp 0 0.
Definition file_size (sp : fileSpan) : Z := Z.of_nat (length (sp_File sp)).

(* src/cmdman/logdriver/k8sfile/reader.go:226-243 startOffset *)
Definition startOffset (ro : ReaderOption) : result readErr (option Offset) :=
  match StartOffset ro with
  | None => Ok None
  | Some ForeignOffset => Err StartOffsetType
  | Some (K8sOffset path bytes) =>
      if decide (path = "" \/ bytes <= 0)%Z then Ok None else Ok (Some (MkOffset path bytes))
  end.

(* src/cmdman/logdriver/k8sfile/reader.go:245-273 selectSpansFrom *)
Fixpoint selectSpansFrom (spans : list fileSpan) (off : Offset) : option (list readSpan) :=
  match spans with
  | [] => None
  | sp :: newer =>
      if decide (sp_Path sp <> off_Path off) then selectSpansFrom newer off
      else if decide (file_size sp < off_Bytes off)%Z then None
      else Some (MkRead sp (off_Bytes off) 0 :: (from_start <$> newer))
  end.

(* src/cmdman/logdriver/k8sfile/reader.go:357-382 countUserLines *)
Fixpoint count_entries (es : list (list Z)) (count : Z) : result readErr Z :=
  match es with
  | [] => Ok count
  | e :: es =>
      match parseEntry Parse e with
      | Err x => Err (EntryErr x)
      | Ok (_, true) => Ok count
      | Ok (_, false) => count_entries es (count + 1)
      end
  end.
Definition countUserLines (f : list Z) (offset : Z) : result readErr Z :=
  count_entries (entries (drop (Z.to_nat offset) f)) 0.

(** The spans from the newest on, each put in front of those selected before. *)
(* src/cmdman/logdriver/k8sfile/reader.go:275-321 selectTailSpans *)
Fixpoint select_tail (rev_spans : list fileSpan) (remaining : Z) (selected : list readSpan)
    : result readErr (list readSpan) :=
  match rev_spans with
  | [] => Ok selected
  | sp :: spans =>
      if decide (remaining <= 0)%Z then Ok selected
      else if Empty sp then select_tail spans remaining selected
      else
        try last := lastUserLine (sp_File sp) in
        match last with
        | None => select_tail spans remaining selected
        | Some (lastOffset, _) =>
            try start :=
              (if decide (1 < remaining)%Z
               then lift_err TailErr (SkipLines (sp_File sp) (file_size sp) lastOffset (- (remaining - 1)))
               else Ok lastOffset) in
            try count := countUserLines (sp_File sp) start in
            if decide (count = 0)%Z then select_tail spans remaining selected
            else select_tail spans (remaining - Z.min count remaining)
                   (MkRead sp start 0 :: selected)
        end
  end.

(* src/cmdman/logdriver/k8sfile/reader.go:275-321 selectTailSpans *)
Definition selectTailSpans (spans : list fileSpan) (tail : Z) : result readErr (list readSpan) :=
  if decide (tail <= 0)%Z then Ok [] else select_tail (reverse spans) tail [].

(** The spans from the first one whose last line is not older than [since]. *)
(* src/cmdman/logdriver/k8sfile/reader.go:195-207 selectReadSpans *)
Fixpoint from_since (spans : list fileSpan) (since : Z) : list fileSpan :=
  match spans with
  | [] => []
  | sp :: newer =>
      if Empty sp then from_since newer since
      else if decide (since <= TailTime sp)%Z then spans else from_since newer since
  end.

(* src/cmdman/logdriver/k8sfile/reader.go:178-224 selectReadSpans *)
Definition selectReadSpans (spans : list fileSpan) (ro : ReaderOption)
    : result readErr (list readSpan) :=
  try from := startOffset ro in
  match from ≫= selectSpansFrom spans with
  | Some selected => Ok selected
  | None =>
      if decide (0 < Tail ro)%Z then selectTailSpans spans (Tail ro)
      else
        let rest := if decide (Since ro = 0%Z) then spans else from_since spans (Since ro) in
        match rest with
        | [] => Ok (match last spans with
                    | Some latest => if Follow ro then [MkRead latest (file_size latest) 0] else []
                    | None => [] end)
        | _ => Ok (from_start <$> rest)
        end
  end.

(** ** Reading *)

(* src/cmdman/logdriver/logdriver.go:43-47 Record *)
Inductive record := Rec (line : LogLine) (offset : Offset) | RecErr (e : readErr).

(* src/cmdman/logdriver/k8sfile/reader.go:477-479 Reader.skipLine *)
Definition skipLine (ro : ReaderOption) (l : LogLine) : bool :=
  negb (bool_decide (Since ro = 0%Z)) && bool_decide (Time l < Since ro)%Z.
(* src/cmdman/logdriver/k8sfile/reader.go:481-483 Reader.afterUntil *)
Definition afterUntil (ro : ReaderOption) (l : LogLine) : bool :=
  negb (bool_decide (Until ro = 0%Z)) && bool_decide (Until ro < Time l)%Z.

(** How the scan of a span ends: at the end of what is there, at a rotation marker, for
    the whole read, or with an error. *)
Inductive scanEnd := ScanEOF | ScanNext | ScanDone | ScanFailed.

(** The records sent, and the count of all lines sent; the consumer takes them all. *)
(* src/cmdman/logdriver/k8sfile/reader.go:402-453 Reader.scanSpan *)
Fixpoint scan_entries (ro : ReaderOption) (sp : readSpan) (es : list (list Z)) (offset sent : Z)
    : list record * (scanEnd * Z) :=
  match es with
  | [] => ([], (ScanEOF, sent))
  | e :: es =>
      let offset := (offset + Z.of_nat (length e))%Z in
      if decide (0 < End sp /\ End sp < offset)%Z then ([], (ScanDone, sent))
      else
        match parseEntry Parse e with
        | Err x => ([RecErr (EntryErr x)], (ScanFailed, sent))
        | Ok (_, true) => ([], (ScanNext, sent))
        | Ok (l, false) =>
            if skipLine ro l then scan_entries ro sp es offset sent
            else if afterUntil ro l then ([], (ScanDone, sent))
            else
              let r := Rec l (MkOffset (sp_Path (rs_span sp)) offset) in
              if decide (0 < Head ro /\ Head ro <= sent + 1)%Z then ([r], (ScanDone, (sent + 1)%Z))
              else let '(rs, x) := scan_entries ro sp es offset (sent + 1) in (r :: rs, x)
        end
  end.

(** The bytes of a span to be read; [grown]: what a poll of the file finds appended. *)
(* src/cmdman/logdriver/k8sfile/reader.go:402-453 Reader.scanSpan *)
Definition scanSpan (ro : ReaderOption) (sp : readSpan) (grown : list (list Z)) (sent : Z)
    : list record * (scanEnd * Z) :=
  scan_entries ro sp
    (concat (entries <$> (drop (Z.to_nat (Start sp)) (sp_File (rs_span sp)) :: grown)))
    (Start sp) sent.

(** The latest span is scanned again, from where its scan had begun.  Without a span it
    is the active file from its end on. *)
(* src/cmdman/logdriver/k8sfile/reader.go:455-475 Reader.followLatest *)
Definition followLatest (ro : ReaderOption) (active : string * list Z) (latest : option readSpan)
    (grown : list (list Z)) (sent : Z) : list record :=
  match latest with
  | Some sp =>
      let f := sp_File (rs_span sp) ++ concat grown in
      (scanSpan ro (MkRead (MkSpan (sp_Path (rs_span sp)) f 0 0 false) (Start sp) (End sp)) [] sent).1
  | None =>
      let sp := MkSpan active.1 active.2 0 0 false in
      (scanSpan ro (MkRead sp (file_size sp) 0) grown sent).1
  end.

(** The loop of [run].  A reader that follows stays with the latest span at its end, and
    reads on until it is closed. *)
(* src/cmdman/logdriver/k8sfile/reader.go:388-400 Reader.run *)
Fixpoint run_spans (ro : ReaderOption) (active : string * list Z) (latest : option readSpan)
    (spans : list readSpan) (grown : list (list Z)) (sent : Z) : list record :=
  match spans with
  | [] => if Follow ro then followLatest ro active latest grown sent else []
  | sp :: rest =>
      let waits := Follow ro && bool_decide (rest = []) in
      let '(rs, (x, sent)) := scanSpan ro sp (if waits then grown else []) sent in
      rs ++ match x with
            | ScanEOF => if waits then [] else run_spans ro active (Some sp) rest grown sent
            | ScanNext => run_spans ro active (Some sp) rest grown sent
            | ScanDone | ScanFailed => []
            end
  end.

(** [newReader] and [run], for the files as they are when the reader is opened. *)
(* src/cmdman/logdriver/k8sfile/reader.go:55-82 newReader *)
Definition read_log (fs : gmap string (list Z)) (path : string) (maxFile : Z) (ro : ReaderOption)
    (grown : list (list Z)) : result readErr (list record) :=
  try spans := discoverFiles fs path maxFile in
  try selected := selectReadSpans spans ro in
  Ok (run_spans ro (path, default [] (fs !! path)) None selected grown 0).

(* src/cmdman/logdriver/k8sfile/reader.go:84-128 NewRangeReader *)
Definition NewRangeReader (fs : gmap string (list Z)) (path : string) (from to : Offset)
    : result readErr (list record) :=
  let no := {| Follow := false; Since := 0; Until := 0; Head := 0; Tail := 0; StartOffset := None |} in
  if decide (off_Path to = "" \/ off_Bytes to <= 0)%Z then Ok []
  else
    let from := if decide (off_Path from <> "" /\ off_Path from <> off_Path to)
                then MkOffset "" 0 else from in
    if decide (off_Path to <> path) then Ok []
    else
      match fs !! path with
      | None => Err (OpenErr path)
      | Some f =>
          if decide (off_Bytes to <= off_Bytes from)%Z then Ok []
          else Ok (run_spans no (path, f) None
                     [MkRead (MkSpan path f 0 0 false) (off_Bytes from) (off_Bytes to)] [] 0)
      end.

(* src/cmdman/logdriver/k8sfile/reader.go:143-161 CurrentEnd *)
Definition CurrentEnd (fs : gmap string (list Z)) (path : string) : Offset :=
  match fs !! path with
  | None => MkOffset "" 0
  | Some f => MkOffset path (Z.of_nat (length f))
  end.
End Chunks.
