(* ===== verification/K8sRead.v ===== *)
(** * The k8s-file log driver: what the reader finds

    The backward searches of [tail.go] do not depend on their chunk size; over the files
    a writer leaves, the reader of [K8sReader.v] returns exactly the lines that its
    options ask for. *)
From S2P Require Import Prelude GoStr LogDriver K8sFile K8sReader.

(** ** Lists *)

Lemma last_n_app_split {A} n (a b : list A) : last_n n (a ++ b) = last_n (n - length b) a ++ last_n n b.
Proof.
  unfold last_n. rewrite length_app. destruct (decide (length b <= n)).
  - rewrite drop_app_le by lia. f_equal; [f_equal; lia|].
    by replace (length b - n) with 0 by lia.
  - rewrite drop_app_ge by lia. rewrite (drop_ge a) by lia. simpl. f_equal. lia.
Qed.

(** The byte offset of entry [k]. *)
Definition offset_of (es : list (list Z)) (k : nat) : nat := length (concat (take k es)).

Lemma offset_of_le es j k : j <= k -> offset_of es j <= offset_of es k.
Proof.
  intros. unfold offset_of. replace (take j es) with (take j (take k es)) by (rewrite take_take; f_equal; lia).
  rewrite <- (take_drop j (take k es)) at 2. rewrite concat_app, length_app. lia.
Qed.

Lemma offset_of_all es k : length es <= k -> offset_of es k = length (concat es).
Proof. intros. unfold offset_of. by rewrite take_ge. Qed.

Lemma drop_offset es k : drop (offset_of es k) (concat es) = concat (drop k es).
Proof. unfold offset_of. rewrite <- (take_drop k es) at 2. by rewrite concat_app, drop_app_length. Qed.

Lemma take_offset es k : take (offset_of es k) (concat es) = concat (take k es).
Proof. unfold offset_of. rewrite <- (take_drop k es) at 2. by rewrite concat_app, take_app_length. Qed.

(** ** Backward searches *)

Lemma back_newlines_none t i k : newline ∉ t -> back_newlines t i k = inr k.
Proof.
  intros Ht. induction i as [|i IH]; simpl; [done|]. rewrite decide_False; [done|].
  intros E. apply list_elem_of_lookup_2 in E. done.
Qed.

Lemma back_newlines_prefix a b i k : i <= length a -> back_newlines (a ++ b) i k = back_newlines a i k.
Proof.
  revert k; induction i as [|i IH]; intros k Hi; simpl; [done|].
  rewrite lookup_app_l by lia. case_decide; [|apply IH; lia]. destruct k as [|[|k]]; [done|done|apply IH; lia].
Qed.

Lemma back_newlines_app a b j k :
  back_newlines (a ++ b) (length a + j) k =
  match back_newlines b j k with
  | inl i => inl (length a + i)
  | inr k => back_newlines a (length a) k
  end.
Proof.
  revert k; induction j as [|j IH]; intros k.
  - rewrite Nat.add_0_r. simpl. by apply back_newlines_prefix.
  - rewrite Nat.add_succ_r. simpl. rewrite lookup_app_r by lia.
    replace (length a + j - length a) with j by lia. case_decide; [|apply IH].
    destruct k as [|[|k]]; [by rewrite Nat.add_succ_r|by rewrite Nat.add_succ_r|apply IH].
Qed.

Section Search.
Context (chunk : nat) (Hchunk : 0 < chunk).

(** The chunked search finds what a search of the whole prefix at once finds. *)
Lemma search_back_whole fuel r pos k :
  pos <= fuel -> pos <= length r ->
  search_back chunk fuel r pos k =
  match back_newlines (take pos r) pos k with inl i => i | inr _ => 0 end.
Proof.
  revert pos k; induction fuel as [|fuel IH]; intros pos k Hf Hp.
  { by replace pos with 0 by lia. }
  simpl. case_decide as H0; [by subst|]. set (start := pos - chunk).
  assert (take pos r = take start r ++ read_at r start (pos - start)) as E.
  { unfold read_at. rewrite take_drop_commute. replace (start + (pos - start)) with pos by lia.
    rewrite <- (take_drop start (take pos r)) at 1. rewrite take_take. do 2 f_equal. lia. }
  assert (length (take start r) = start) as Hl by (rewrite length_take; lia).
  pose proof (back_newlines_app (take start r) (read_at r start (pos - start)) (pos - start) k) as B.
  rewrite Hl in B. replace (start + (pos - start)) with pos in B by lia. rewrite E, B.
  destruct (back_newlines _ (pos - start) k) as [i|k']; [done|]. apply IH; lia.
Qed.
End Search.

Lemma back_newlines_head t k :
  newline ∉ t -> 0 < k ->
  back_newlines ([newline] ++ t) (length ([newline] ++ t)) k = if decide (k = 1) then inl 1 else inr (k - 1).
Proof.
  intros Ht Hk. rewrite length_app, back_newlines_app, back_newlines_none by done.
  simpl. destruct k as [|[|k]]; [lia|done|done].
Qed.

(** Over complete lines, with something unfinished behind them, the [k]-th newline from
    the end ends the line [k] places before the end. *)
Lemma back_newlines_lines es t k :
  Forall full_line es -> newline ∉ t -> 0 < k ->
  match back_newlines (concat es ++ t) (length (concat es ++ t)) k with inl i => i | inr _ => 0 end =
  if decide (k <= length es) then offset_of es (length es - k + 1) else 0.
Proof.
  intros He. revert t k. induction es as [|e es IH] using rev_ind; intros t k Ht Hk.
  - simpl. rewrite back_newlines_none by done. rewrite decide_False by lia. done.
  - apply Forall_app in He as [He (body & -> & Hb)%Forall_singleton].
    set (a := concat es ++ body).
    replace (concat (es ++ [body ++ [newline]]) ++ t) with (a ++ ([newline] ++ t))
      by (unfold a; rewrite concat_app; simpl; by rewrite app_nil_r, <- !app_assoc).
    rewrite (length_app a), back_newlines_app, back_newlines_head by done.
    rewrite length_app. simpl. unfold offset_of. destruct (decide (k = 1)) as [->|].
    + rewrite decide_True by lia. rewrite take_ge by (rewrite length_app; simpl; lia).
      rewrite concat_app. simpl. unfold a. rewrite !length_app. simpl. lia.
    + unfold a. rewrite IH by (try done; lia). unfold offset_of.
      destruct (decide (k - 1 <= length es)); case_decide; try lia.
      rewrite take_app_le by lia. do 3 f_equal. lia.
Qed.

Section Tail.
Context (chunk : nat) (Hchunk : 0 < chunk).
Context (es : list (list Z)) (Hes : Forall full_line es).

Lemma search_lines m t k fuel :
  m <= length es -> newline ∉ t -> 0 < k ->
  (exists u, concat es = concat (take m es) ++ t ++ u) ->
  offset_of es m + length t <= fuel ->
  search_back chunk fuel (concat es) (offset_of es m + length t) k =
  if decide (k <= m) then offset_of es (m - k + 1) else 0.
Proof.
  intros Hm Ht Hk [u Hu] Hf.
  assert (take (offset_of es m + length t) (concat es) = concat (take m es) ++ t) as E.
  { rewrite Hu. unfold offset_of. rewrite app_assoc, take_app_le by (rewrite length_app; lia).
    apply take_ge. rewrite length_app. lia. }
  assert (length (concat (take m es) ++ t) = offset_of es m + length t) as El
    by (by rewrite length_app).
  rewrite search_back_whole; [|done|done|].
  - rewrite E, <- El, back_newlines_lines by (try done; by apply Forall_take).
    rewrite length_take, min_l by done. case_decide; [|done].
    unfold offset_of. rewrite take_take. do 3 f_equal. lia.
  - rewrite Hu, app_assoc, length_app, El. lia.
Qed.

Lemma FindLastLine_lines :
  FindLastLine chunk (concat es) (Z.of_nat (length (concat es))) =
  Ok (Z.of_nat (offset_of es (length es - 1))).
Proof.
  unfold FindLastLine. rewrite decide_False, Nat2Z.id by lia. do 2 f_equal.
  pose proof (search_lines (length es) [] 2 (length (concat es))) as H.
  rewrite Nat.add_0_r, offset_of_all in H by done.
  rewrite H; [|done|set_solver|lia|exists []; by rewrite take_ge, !app_nil_r|done].
  case_decide; [f_equal; lia|]. by replace (length es - 1) with 0 by lia.
Qed.

Lemma SkipLines_back m k :
  m <= length es -> 0 < k ->
  SkipLines chunk (concat es) (Z.of_nat (length (concat es))) (Z.of_nat (offset_of es m)) (- Z.of_nat k) =
  Ok (Z.of_nat (offset_of es (m - k))).
Proof.
  intros Hm Hk. unfold SkipLines. rewrite decide_False by lia.
  pose proof (offset_of_le es m (length es) Hm) as Hle. rewrite (offset_of_all es (length es)) in Hle by done.
  replace (Z.to_nat _) with (offset_of es m) by lia.
  assert (snapLineStart chunk (concat es) (offset_of es m) = offset_of es m) as ->.
  { unfold snapLineStart. pose proof (search_lines m [] 1 (offset_of es m) Hm) as H.
    rewrite Nat.add_0_r in H. rewrite H; [|set_solver|lia| |done].
    - case_decide; [f_equal; lia|]. by replace m with 0 by lia.
    - exists (concat (drop m es)). simpl. by rewrite <- concat_app, take_drop. }
  do 2 f_equal. rewrite decide_False, decide_False by lia. unfold skipLinesBackward.
  rewrite Z.opp_involutive, Nat2Z.id. case_decide as H0.
  - pose proof (offset_of_le es (m - k) m ltac:(lia)). lia.
  - destruct m as [|m]; [done|]. destruct (lookup_lt_is_Some_2 es m Hm) as [e He].
    pose proof (proj1 (Forall_lookup _ _) Hes _ _ He) as (body & -> & Hb).
    assert (offset_of es (S m) = offset_of es m + length body + 1) as E.
    { unfold offset_of. rewrite (take_S_r _ _ _ He), concat_app. simpl.
      rewrite !length_app. simpl. lia. }
    replace (offset_of es (S m) - 1) with (offset_of es m + length body) by lia.
    rewrite search_lines; [|lia|done|done| |lia].
    + case_decide; [f_equal; lia|]. by replace (S m - k) with 0 by lia.
    + exists ([newline] ++ concat (drop (S m) es)).
      rewrite <- (take_drop (S m) es) at 1. rewrite concat_app, (take_S_r _ _ _ He), concat_app. simpl.
      by rewrite app_nil_r, <- !app_assoc.
Qed.
End Tail.

(** ** Entries *)

Lemma index_nl_full e rest : full_line e -> index_nl (e ++ rest) = Some (length e - 1) /\ 0 < length e.
Proof.
  intros (body & -> & Hb). rewrite length_app. simpl. split; [|lia].
  rewrite Nat.add_sub. induction body as [|b body IH]; simpl; [done|].
  rewrite decide_False by set_solver. rewrite IH by set_solver. done.
Qed.

Lemma read_entries_lines es fuel :
  Forall full_line es -> length (concat es) <= fuel -> read_entries fuel (concat es) = es.
Proof.
  intros He. revert fuel; induction He as [|e es He Hes IH]; intros fuel Hf; [by destruct fuel|].
  destruct (index_nl_full e (concat es) He) as [Hi Hpos]. simpl in *. rewrite length_app in Hf.
  destruct fuel as [|fuel]; [lia|]. simpl.
  destruct (e ++ concat es) as [|b l] eqn:E; [apply app_eq_nil in E as [-> _]; done|]. rewrite Hi, <- E.
  replace (S (length e - 1)) with (length e) by lia.
  rewrite take_app_length, drop_app_length. f_equal. apply IH. lia.
Qed.

Lemma entries_lines es : Forall full_line es -> entries (concat es) = es.
Proof. intros. by apply read_entries_lines. Qed.

Lemma cut_at_app sep a b : sep ∉ a -> cut_at sep (a ++ sep :: b) = Some (a, b).
Proof.
  induction a as [|x a IH]; simpl; intros H; [by rewrite decide_True|].
  rewrite decide_False, IH by set_solver. done.
Qed.

Lemma trim_newlines_line l : newline ∉ l -> trim_newlines (l ++ [newline]) = l.
Proof.
  intros Hl. assert (forall l, newline ∉ l -> trim_newlines l = l) as Hid.
  { clear. induction l as [|b l IH]; simpl; intros Hl; [done|]. rewrite IH by set_solver.
    destruct l; [|done]. rewrite decide_False; [done|set_solver]. }
  induction l as [|b l IH]; simpl; [done|].
  rewrite IH by set_solver. destruct l; [|done]. rewrite decide_False; [done|set_solver].
Qed.

(** A line that comes back from its entry as it went in. *)
Record line_wf (l : LogLine) : Prop := {
  wf_time : Time l <> 0%Z;
  wf_stream : stream l <> "";
  wf_space : space ∉ bytes_of (stream l);
  wf_nl : newline ∉ bytes_of (stream l);
  wf_line : if Partial l then Line l <> [] /\ newline ∉ Line l else full_line (Line l) }.

Section Entries.
Context (Format : Z -> list Z) (Parse : list Z -> option Z).
Context (Hparse : forall t, Parse (Format t) = Some t).
Context (Hspace : forall t, space ∉ Format t) (Hnl : forall t, newline ∉ Format t).

(** The entry of a line as it is stored. *)
Definition enc (l : LogLine) : list Z := entry Format 0 l.

Lemma enc_eq l :
  line_wf l ->
  enc l = Format (Time l) ++ [space] ++ bytes_of (stream l) ++ [space] ++ entry_tag l ++
          [space] ++ Line l ++ (if Partial l then [newline] else []).
Proof.
  intros [Ht Hs _ _ _]. unfold enc, entry, entry_time, entry_stream. by rewrite !decide_False by done.
Qed.

Lemma parse_enc l : line_wf l -> parseEntry Parse (enc l) = Ok (l, false).
Proof.
  intros Hl. rewrite enc_eq by done. destruct Hl as [Ht Hs Hsp _ Hline]. unfold parseEntry. simpl.
  rewrite cut_at_app by done. rewrite cut_at_app by done. rewrite Hparse, string_of_bytes_of.
  destruct l as [t s [] b]; unfold entry_tag; simpl in *.
  - rewrite trim_newlines_line by apply Hline. done.
  - by rewrite app_nil_r.
Qed.

Lemma parse_marker t : parseEntry Parse (marker Format t) = Ok (no_line, true).
Proof. unfold parseEntry, marker. simpl. rewrite cut_at_app by done. simpl. by rewrite Hparse. Qed.

Lemma marker_full t : full_line (marker Format t).
Proof.
  exists (Format t ++ bytes_of " stdout R -"). unfold marker. rewrite <- app_assoc. split; [done|].
  rewrite elem_of_app. intros [H|H]; [by apply Hnl in H|]. revert H.
  refine (bool_decide_unpack (newline ∉ bytes_of " stdout R -") _). by vm_compute.
Qed.

Lemma enc_full l : line_wf l -> full_line (enc l).
Proof.
  intros Hl. rewrite enc_eq by done. destruct Hl as [_ _ _ Hs Hline].
  assert (forall body, newline ∉ body -> newline ∉ Format (Time l) ++ [space] ++ bytes_of (stream l) ++ [space] ++
    entry_tag l ++ [space] ++ body) as Hn.
  { intros body Hb. rewrite !elem_of_app, !list_elem_of_singleton.
    assert (newline ∉ entry_tag l) as Htag by (unfold entry_tag; destruct (Partial l); refine (bool_decide_unpack _ _); by vm_compute).
    pose proof (Hnl (Time l)). assert (newline <> space) by done. naive_solver. }
  destruct (Partial l).
  - exists (Format (Time l) ++ [space] ++ bytes_of (stream l) ++ [space] ++ entry_tag l ++ [space] ++ Line l).
    split; [by rewrite <- !app_assoc|]. apply Hn, Hline.
  - destruct Hline as (body & -> & Hb). rewrite app_nil_r.
    exists (Format (Time l) ++ [space] ++ bytes_of (stream l) ++ [space] ++ entry_tag l ++ [space] ++ body).
    split; [by rewrite <- !app_assoc|]. by apply Hn.
Qed.

(** ** Files *)

(** A log file: its lines, and the time of its rotation marker if it was rotated. *)
Record lfile := MkLfile { lf_lines : list LogLine; lf_mark : option Z }.

Definition mark_entries (lf : lfile) : list (list Z) :=
  match lf_mark lf with Some t => [marker Format t] | None => [] end.
Definition lf_entries (lf : lfile) : list (list Z) := (enc <$> lf_lines lf) ++ mark_entries lf.
Definition lf_bytes (lf : lfile) : list Z := concat (lf_entries lf).

Definition lf_wf (lf : lfile) : Prop := Forall line_wf (lf_lines lf).

Lemma lf_entries_full lf : lf_wf lf -> Forall full_line (lf_entries lf).
Proof.
  intros H. apply Forall_app. split.
  - apply Forall_fmap. eapply Forall_impl; [done|]. apply enc_full.
  - unfold mark_entries. destruct (lf_mark lf); repeat constructor. apply marker_full.
Qed.

Lemma lf_offset_lt lf j k :
  lf_wf lf -> j < k -> k <= length (lf_entries lf) -> offset_of (lf_entries lf) j < offset_of (lf_entries lf) k.
Proof.
  intros H Hj Hk. destruct (lookup_lt_is_Some_2 (lf_entries lf) j ltac:(lia)) as [e He].
  pose proof (proj1 (Forall_lookup _ _) (lf_entries_full lf H) _ _ He) as (body & -> & _).
  eapply Nat.lt_le_trans; [|apply (offset_of_le _ (S j) k); lia].
  unfold offset_of. rewrite (take_S_r _ _ _ He), concat_app, length_app. simpl.
  rewrite !length_app. simpl. lia.
Qed.

Lemma readEntryAt_lines es m :
  Forall full_line es -> readEntryAt (concat es) (Z.of_nat (offset_of es m)) = default [] (es !! m).
Proof.
  intros He. unfold readEntryAt. rewrite Nat2Z.id, drop_offset.
  destruct (es !! m) as [e|] eqn:E; simpl.
  - rewrite (drop_S _ _ _ E). simpl. pose proof (proj1 (Forall_lookup _ _) He _ _ E) as Hf.
    destruct (index_nl_full e (concat (drop (S m) es)) Hf) as [-> Hpos].
    replace (S (length e - 1)) with (length e) by lia. apply take_app_length.
  - apply lookup_ge_None in E. by rewrite drop_ge.
Qed.

Section Reading.
Context (chunk : nat) (Hchunk : 0 < chunk).

(** The last line that is no marker, and where it is. *)
Lemma lastUserLine_lines lf :
  lf_wf lf ->
  lastUserLine chunk Parse (lf_bytes lf) =
  Ok ((fun l => (Z.of_nat (offset_of (lf_entries lf) (length (lf_lines lf) - 1)), l)) <$> last (lf_lines lf)).
Proof.
  intros Hwf. pose proof (lf_entries_full lf Hwf) as Hf. unfold lastUserLine, lf_bytes.
  rewrite FindLastLine_lines by done. set (n := length (lf_entries lf)).
  assert (forall fuel m l, lf_lines lf !! m = Some l ->
    last_user_line chunk Parse (S fuel) (concat (lf_entries lf)) (Z.of_nat (length (concat (lf_entries lf))))
      (Z.of_nat (offset_of (lf_entries lf) m)) = Ok (Some (Z.of_nat (offset_of (lf_entries lf) m), l))) as Hhit.
  { intros fuel m l Hl. simpl. rewrite readEntryAt_lines by done.
    assert (lf_entries lf !! m = Some (enc l)) as ->.
    { unfold lf_entries. by rewrite lookup_app_l, list_lookup_fmap, Hl
        by (rewrite length_fmap; by eapply lookup_lt_Some). }
    pose proof (proj1 (Forall_lookup _ _) Hwf _ _ Hl) as Hw. simpl.
    destruct (enc_full l Hw) as (body & E & _). rewrite decide_False by (rewrite E; by destruct body).
    by rewrite parse_enc. }
  rewrite last_lookup. destruct (decide (lf_lines lf = [])) as [H0|H0].
  - clear Hhit. subst n. unfold lf_entries in *. rewrite H0 in *. unfold mark_entries in *.
    destruct (lf_mark lf) as [t|]; [|done].
    change (Z.of_nat (offset_of _ _)) with (Z.of_nat (offset_of [marker Format t] 0)) at 1.
    change ((enc <$> []) ++ [marker Format t]) with [marker Format t] in *.
    cbn [last_user_line]. rewrite (readEntryAt_lines [marker Format t]) by done. simpl default.
    destruct (marker_full t) as (body & E & _). rewrite decide_False by (rewrite E; by destruct body).
    rewrite parse_marker. done.
  - destruct (lookup_lt_is_Some_2 (lf_lines lf) (length (lf_lines lf) - 1)) as [l Hl].
    { destruct (lf_lines lf); [done|simpl; lia]. }
    rewrite <- Nat.sub_1_r, Hl. simpl fmap.
    assert (n = length (lf_lines lf) + length (mark_entries lf)) as Hn
      by (unfold n, lf_entries; by rewrite length_app, length_fmap).
    rewrite Hn. destruct (lf_mark lf) as [t|] eqn:Em; unfold mark_entries in *; rewrite Em in *.
    2: { simpl. rewrite Nat.add_0_r. by apply Hhit. }
    simpl length. replace (length (lf_lines lf) + 1 - 1) with (length (lf_lines lf)) by lia.
    cbn [last_user_line].
    assert (lf_entries lf !! length (lf_lines lf) = Some (marker Format t)) as Hm.
    { unfold lf_entries, mark_entries. rewrite Em. rewrite lookup_app_r by (rewrite length_fmap; lia).
      by rewrite length_fmap, Nat.sub_diag. }
    rewrite readEntryAt_lines, Hm by done. simpl.
    destruct (marker_full t) as (body & E & _). rewrite decide_False by (rewrite E; by destruct body).
    rewrite parse_marker. pose proof (lookup_lt_Some _ _ _ Hm) as Hlen.
    assert (offset_of (lf_entries lf) (length (lf_lines lf) - 1) <
            offset_of (lf_entries lf) (length (lf_lines lf))) as Hlt.
    { apply lf_offset_lt; [done| |lia]. destruct (lf_lines lf); [done|simpl; lia]. }
    rewrite decide_False by lia. change (-1)%Z with (- Z.of_nat 1)%Z.
    rewrite SkipLines_back by (done || lia). rewrite decide_False by lia.
    destruct (length (concat (lf_entries lf))) as [|fuel] eqn:Ef; [|by apply Hhit].
    pose proof (offset_of_le (lf_entries lf) (length (lf_lines lf)) n ltac:(lia)).
    rewrite (offset_of_all _ n) in * by done. lia.
Qed.
End Reading.
End Entries.
