(* ===== verification/K8sLog.v ===== *)
(** * The k8s-file log driver: what is written is what is read

    The reader of [K8sReader.v] over the files that the writer of [K8sFile.v] leaves. *)
From S2P Require Import Prelude GoStr LogDriver K8sFile K8sWriter K8sReader K8sRead.

Section Log.
Context (Format : Z -> list Z) (Parse : list Z -> option Z).
Context (Hparse : forall t, Parse (Format t) = Some t).
Context (Hspace : forall t, space ∉ Format t) (Hnl : forall t, newline ∉ Format t).
Context (chunk : nat) (Hchunk : 0 < chunk).

Notation lf_entries := (lf_entries Format).
Notation lf_bytes := (lf_bytes Format).
Notation enc := (enc Format).

(** ** Spans *)

Definition span_of (name : string) (lf : lfile) : fileSpan :=
  match lf_lines lf, last (lf_lines lf) with
  | l :: _, Some l' => MkSpan name (lf_bytes lf) (Time l) (Time l') false
  | _, _ => MkSpan name (lf_bytes lf) 0 0 true
  end.

Lemma sp_File_span_of name lf : sp_File (span_of name lf) = lf_bytes lf.
Proof. unfold span_of. by destruct (last (lf_lines lf)), (lf_lines lf). Qed.
Lemma sp_Path_span_of name lf : sp_Path (span_of name lf) = name.
Proof. unfold span_of. by destruct (last (lf_lines lf)), (lf_lines lf). Qed.
Lemma Empty_span_of name lf : Empty (span_of name lf) = bool_decide (lf_lines lf = []).
Proof.
  unfold span_of. destruct (lf_lines lf) as [|l ls] eqn:E; [done|].
  destruct (last (l :: ls)) eqn:El; [done|]. by apply last_None in El.
Qed.

Lemma entries_bytes lf : lf_wf lf -> entries (lf_bytes lf) = lf_entries lf.
Proof. intros H. by apply entries_lines, lf_entries_full. Qed.

Lemma fillSpanTimes_ok name lf :
  lf_wf lf -> fillSpanTimes chunk Parse name (lf_bytes lf) = Ok (span_of name lf).
Proof.
  intros Hwf. unfold fillSpanTimes. rewrite entries_bytes by done.
  unfold readLastUserLine. rewrite lastUserLine_lines by done. unfold span_of, lf_wf in *.
  case_decide as Hd.
  - destruct (lf_lines lf) as [|l ls] eqn:E; [done|]. apply Forall_cons in Hwf as [Hl _].
    unfold K8sRead.lf_bytes, K8sRead.lf_entries in Hd. rewrite E in Hd. simpl in Hd.
    apply app_eq_nil in Hd as [Hd _]. destruct (enc_full Format Hnl l Hl) as (b & Hb & _).
    rewrite Hb in Hd. by destruct b.
  - unfold K8sRead.lf_entries. destruct (lf_lines lf) as [|l ls] eqn:E.
    + simpl. unfold mark_entries. destruct (lf_mark lf); [|done]. simpl. by rewrite parse_marker.
    + simpl. apply Forall_cons in Hwf as [Hl _]. rewrite parse_enc by done. simpl.
      destruct (last (l :: ls)) eqn:El; [done|]. by apply last_None in El.
Qed.

(** The files of a log, from the active one on, as [maxFile] allows for. *)
Definition on_disk (fs : gmap string (list Z)) (path : string) (maxFile : Z) (log : list lfile) : Prop :=
  path <> "" /\ 0 < length log <= S (Z.to_nat (maxFile - 1)) /\ Forall lf_wf log /\
  forall i, i <= Z.to_nat (maxFile - 1) -> fs !! log_name path i = lf_bytes <$> (log !! i).

Definition spans_of (path : string) (log : list lfile) : list fileSpan :=
  imap (fun i lf => span_of (log_name path i) lf) log.

Lemma open_archives_log fs path k i (log : list lfile) :
  0 < i -> length log <= k ->
  (forall j, j < k -> fs !! log_name path (i + j) = lf_bytes <$> (log !! j)) ->
  open_archives fs path k i = imap (fun j lf => (log_name path (i + j), lf_bytes lf)) log.
Proof.
  revert i log; induction k as [|k IH]; intros i log Hi Hl H; [by destruct log; [|simpl in Hl; lia]|].
  simpl. pose proof (H 0 ltac:(lia)) as H0. rewrite Nat.add_0_r in H0.
  replace (archive path i) with (log_name path i) by (by destruct i; [lia|]). rewrite H0.
  destruct log as [|lf log]; [done|]. simpl. rewrite Nat.add_0_r. f_equal.
  rewrite (IH (S i) log); [|lia|simpl in Hl; lia|].
  - apply imap_ext. intros j x _. unfold compose. by rewrite Nat.add_succ_r.
  - intros j Hj. specialize (H (S j) ltac:(lia)). rewrite Nat.add_succ_r in H. exact H.
Qed.

Lemma mapM_fill (l : list (string * lfile)) :
  Forall (fun p => lf_wf p.2) l ->
  result_mapM (fun p => fillSpanTimes chunk Parse p.1 p.2) ((fun p => (p.1, lf_bytes p.2)) <$> l) =
  Ok ((fun p => span_of p.1 p.2) <$> l).
Proof.
  induction 1 as [|[n lf] l Hlf Hl IH]; [done|]. rewrite !fmap_cons. cbn [result_mapM fst snd].
  by rewrite fillSpanTimes_ok, IH by done.
Qed.

Lemma discoverFiles_ok fs path maxFile log :
  on_disk fs path maxFile log ->
  discoverFiles chunk Parse fs path maxFile = Ok (reverse (spans_of path log)).
Proof.
  intros (Hp & Hlen & Hwf & Hf). unfold discoverFiles. rewrite decide_False by done.
  destruct log as [|lf log]; [simpl in *; lia|]. pose proof (Hf 0 ltac:(lia)) as H0.
  simpl in H0. rewrite H0. rewrite (open_archives_log _ _ _ _ log); [|lia|simpl in Hlen; lia|].
  - set (nl := (path, lf) :: imap (fun j lf => (log_name path (1 + j), lf)) log).
    assert (((path, lf_bytes lf) :: imap (fun j lf => (log_name path (1 + j), lf_bytes lf)) log) =
            (fun p => (p.1, lf_bytes p.2)) <$> nl) as ->.
    { unfold nl. csimpl. f_equal. rewrite fmap_imap. by apply imap_ext. }
    rewrite mapM_fill.
    + simpl. do 2 f_equal. unfold spans_of, nl. csimpl. f_equal. rewrite fmap_imap. by apply imap_ext.
    + apply Forall_lookup. intros i [n x] Hx. unfold nl in Hx. destruct i as [|i]; simpl in Hx.
      * injection Hx as <- <-. by apply Forall_cons in Hwf as [? _].
      * rewrite list_lookup_imap in Hx. destruct (log !! i) eqn:E; [|done]. injection Hx as <- <-.
        apply Forall_cons in Hwf as [_ Hwf]. by apply (proj1 (Forall_lookup _ _) Hwf _ _ E).
  - intros j Hj. apply (Hf (S j)). lia.
Qed.

(** ** Scanning *)

(** The lines of a file from number [k] on, each with the offset behind it. *)
Definition recs_from (name : string) (lf : lfile) (k : nat) : list (LogLine * Offset) :=
  imap (fun i l => (l, MkOffset name (Z.of_nat (offset_of (lf_entries lf) (S (k + i))))))
    (drop k (lf_lines lf)).

Definition to_record (x : LogLine * Offset) : record := Rec x.1 x.2.

(** What a scan sends of some lines, whether it is over then, and the count. *)
Fixpoint scan_lines (ro : ReaderOption) (l : list (LogLine * Offset)) (sent : Z)
    : list record * (bool * Z) :=
  match l with
  | [] => ([], (false, sent))
  | x :: l =>
      if skipLine ro x.1 then scan_lines ro l sent
      else if afterUntil ro x.1 then ([], (true, sent))
      else if decide (0 < Head ro /\ Head ro <= sent + 1)%Z then ([to_record x], (true, (sent + 1)%Z))
      else let '(rs, r) := scan_lines ro l (sent + 1) in (to_record x :: rs, r)
  end.

Lemma scan_lines_app ro l1 l2 sent :
  scan_lines ro (l1 ++ l2) sent =
  let '(rs, (stop, sent')) := scan_lines ro l1 sent in
  if stop : bool then (rs, (true, sent'))
  else let '(rs2, r) := scan_lines ro l2 sent' in (rs ++ rs2, r).
Proof.
  revert sent; induction l1 as [|x l1 IH]; intros sent; simpl; [by destruct (scan_lines ro l2 sent)|].
  destruct (skipLine ro x.1); [apply IH|]. destruct (afterUntil ro x.1); [done|].
  case_decide; [done|]. rewrite IH.
  destruct (scan_lines ro l1 (sent + 1)) as [rs [[] s']]; [done|]. by destruct (scan_lines ro l2 s').
Qed.

Lemma recs_from_S name lf k l :
  lf_lines lf !! k = Some l ->
  recs_from name lf k =
  (l, MkOffset name (Z.of_nat (offset_of (lf_entries lf) (S k)))) :: recs_from name lf (S k).
Proof.
  intros Hl. unfold recs_from. rewrite (drop_S _ _ _ Hl). simpl. rewrite Nat.add_0_r. f_equal.
  apply imap_ext. intros j x _. unfold compose. by rewrite Nat.add_succ_r.
Qed.

Lemma recs_from_end name lf k : length (lf_lines lf) <= k -> recs_from name lf k = [].
Proof. intros. unfold recs_from. by rewrite drop_ge. Qed.

Lemma offset_of_S es k e : es !! k = Some e -> offset_of es (S k) = offset_of es k + length e.
Proof.
  intros He. unfold offset_of. rewrite (take_S_r _ _ _ He), concat_app, length_app. simpl.
  by rewrite app_nil_r.
Qed.

Lemma scan_entries_lines ro name lf k sent st :
  lf_wf lf -> k <= length (lf_lines lf) ->
  scan_entries Parse ro (MkRead (span_of name lf) st 0) (drop k (lf_entries lf))
    (Z.of_nat (offset_of (lf_entries lf) k)) sent =
  let '(rs, (stop, sent')) := scan_lines ro (recs_from name lf k) sent in
  (rs, (if stop : bool then ScanDone
        else match lf_mark lf with Some _ => ScanNext | None => ScanEOF end, sent')).
Proof.
  intros Hwf Hk. remember (length (lf_lines lf) - k) as n eqn:En.
  revert k sent Hk En; induction n as [|n IH]; intros k sent Hk En.
  - rewrite recs_from_end by lia. simpl. unfold K8sRead.lf_entries.
    rewrite drop_app_ge by (rewrite length_fmap; lia). rewrite length_fmap.
    replace (k - length (lf_lines lf)) with 0 by lia. rewrite drop_0. unfold mark_entries.
    destruct (lf_mark lf); [|done]. simpl. by rewrite parse_marker.
  - destruct (lookup_lt_is_Some_2 (lf_lines lf) k ltac:(lia)) as [l Hl].
    assert (lf_entries lf !! k = Some (enc l)) as He.
    { unfold K8sRead.lf_entries. by rewrite lookup_app_l, list_lookup_fmap, Hl by (rewrite length_fmap; lia). }
    rewrite (drop_S _ _ _ He), (recs_from_S _ _ _ _ Hl). cbn [scan_entries scan_lines End rs_span fst].
    rewrite <- Nat2Z.inj_add, <- (offset_of_S _ _ _ He), decide_False by lia.
    rewrite parse_enc by (try done; by apply (proj1 (Forall_lookup _ _) Hwf _ _ Hl)).
    rewrite sp_Path_span_of, !IH by lia.
    repeat case_match; simplify_eq; done.
Qed.

(** A file to read from a line on. *)
Definition chosen : Type := string * lfile * nat.
Definition read_of (c : chosen) : readSpan :=
  MkRead (span_of c.1.1 c.1.2) (Z.of_nat (offset_of (lf_entries c.1.2) c.2)) 0.
Definition recs_of (c : chosen) : list (LogLine * Offset) := recs_from c.1.1 c.1.2 c.2.

Lemma run_spans_lines ro active latest cs sent :
  Follow ro = false -> Forall (fun c => lf_wf c.1.2 /\ c.2 <= length (lf_lines c.1.2)) cs ->
  run_spans Parse ro active latest (read_of <$> cs) [] sent =
  (scan_lines ro (concat (recs_of <$> cs)) sent).1.
Proof.
  intros Hro Hcs. revert latest sent. induction Hcs as [|[[name lf] k] cs [Hwf Hk] _ IH]; intros latest sent.
  { simpl. by rewrite Hro. }
  rewrite !fmap_cons. cbn [run_spans concat]. rewrite Hro. simpl. unfold scanSpan, read_of at 1. simpl.
  rewrite sp_File_span_of, Nat2Z.id. unfold K8sRead.lf_bytes. rewrite drop_offset, app_nil_r.
  simpl in *. rewrite entries_lines by (apply Forall_drop; by apply lf_entries_full).
  rewrite scan_entries_lines, scan_lines_app by done.
  change (recs_of (name, lf, k)) with (recs_from name lf k).
  destruct (scan_lines ro (recs_from name lf k) sent) as [rs [[] sent']]; simpl; [by rewrite app_nil_r|].
  destruct (lf_mark lf); rewrite IH; by destruct (scan_lines ro (concat (recs_of <$> cs)) sent').
Qed.

(** What the options let through: nothing before [Since], nothing from the first line on
    that is after [Until], and of that the first [Head] lines. *)
Fixpoint until_cut (ro : ReaderOption) (l : list (LogLine * Offset)) : list (LogLine * Offset) :=
  match l with
  | [] => []
  | x :: l => if afterUntil ro x.1 then [] else x :: until_cut ro l
  end.

Definition not_skipped (ro : ReaderOption) (l : list (LogLine * Offset)) : list (LogLine * Offset) :=
  filter (fun x => skipLine ro x.1 = false) l.

Definition head_cut (n : Z) (l : list (LogLine * Offset)) : list (LogLine * Offset) :=
  if decide (0 < n)%Z then take (Z.to_nat n) l else l.

Definition let_through (ro : ReaderOption) (l : list (LogLine * Offset)) : list (LogLine * Offset) :=
  head_cut (Head ro) (until_cut ro (not_skipped ro l)).

Lemma scan_lines_closed ro l sent :
  (0 <= sent)%Z -> (0 < Head ro -> sent < Head ro)%Z ->
  (scan_lines ro l sent).1 = to_record <$>
    (if decide (0 < Head ro)%Z then take (Z.to_nat (Head ro - sent)) else id)
      (until_cut ro (not_skipped ro l)).
Proof.
  revert sent; induction l as [|x l IH]; intros sent H0 Hs; simpl.
  { case_decide; [by rewrite take_nil|done]. }
  unfold not_skipped. destruct (skipLine ro x.1) eqn:Hk.
  { rewrite filter_cons_False by congruence. by apply IH. }
  rewrite filter_cons_True by done. cbn [until_cut]. destruct (afterUntil ro x.1).
  { simpl. case_decide; [by rewrite take_nil|done]. }
  destruct (decide (0 < Head ro /\ Head ro <= sent + 1)%Z) as [Hh|Hh].
  - rewrite decide_True by lia. replace (Z.to_nat (Head ro - sent)) with 1 by lia. done.
  - destruct (scan_lines ro l (sent + 1)) as [rs r] eqn:E. simpl.
    assert (rs = (scan_lines ro l (sent + 1)).1) as -> by (by rewrite E).
    rewrite IH by lia. case_decide; [|done].
    replace (Z.to_nat (Head ro - sent)) with (S (Z.to_nat (Head ro - (sent + 1)))) by lia. done.
Qed.

Lemma scan_lines_let_through ro l : (scan_lines ro l 0).1 = to_record <$> let_through ro l.
Proof.
  rewrite scan_lines_closed by lia. unfold let_through, head_cut. rewrite Z.sub_0_r.
  by case_decide.
Qed.

(** ** Choosing *)

Definition named (path : string) (log : list lfile) : list (string * lfile) :=
  imap (fun i lf => (log_name path i, lf)) log.

Definition lines_of (p : string * lfile) : list (LogLine * Offset) := recs_from p.1 p.2 0.
Definition span_of' (p : string * lfile) : fileSpan := span_of p.1 p.2.

(** All lines that are kept, from the oldest on. *)
Definition all_lines (path : string) (log : list lfile) : list (LogLine * Offset) :=
  concat (reverse (lines_of <$> named path log)).

Lemma spans_of_named path log : spans_of path log = span_of' <$> named path log.
Proof. unfold spans_of, named. rewrite fmap_imap. by apply imap_ext. Qed.

Lemma recs_from_drop name lf k : recs_from name lf k = drop k (recs_from name lf 0).
Proof.
  induction k as [|k IH]; [done|]. destruct (lf_lines lf !! k) as [l|] eqn:Hl.
  - pose proof (recs_from_S name lf k l Hl) as E. rewrite IH in E.
    rewrite <- Nat.add_1_r at 2. by rewrite <- drop_drop, E.
  - apply lookup_ge_None in Hl. rewrite recs_from_end by lia. symmetry. apply drop_ge.
    unfold recs_from. rewrite length_imap, length_drop. lia.
Qed.

Lemma length_lines_of p : length (lines_of p) = length (lf_lines p.2).
Proof. unfold lines_of, recs_from. by rewrite length_imap, drop_0. Qed.

Definition chosen_ok (c : chosen) : Prop := lf_wf c.1.2 /\ c.2 <= length (lf_lines c.1.2).

Lemma count_entries_lines lf k n :
  lf_wf lf -> k <= length (lf_lines lf) ->
  count_entries Parse (drop k (lf_entries lf)) n = Ok (n + Z.of_nat (length (lf_lines lf) - k))%Z.
Proof.
  intros Hwf Hk. remember (length (lf_lines lf) - k) as m eqn:Em.
  revert k n Hk Em; induction m as [|m IH]; intros k n Hk Em; unfold K8sRead.lf_entries in *.
  - rewrite drop_app_ge by (rewrite length_fmap; lia). rewrite length_fmap.
    replace (k - length (lf_lines lf)) with 0 by lia. rewrite drop_0, Z.add_0_r. unfold mark_entries.
    destruct (lf_mark lf); [|done]. simpl. by rewrite parse_marker.
  - destruct (lookup_lt_is_Some_2 (lf_lines lf) k ltac:(lia)) as [l Hl].
    rewrite (drop_S _ (enc l)) by (by rewrite lookup_app_l, list_lookup_fmap, Hl by (rewrite length_fmap; lia)).
    simpl. rewrite parse_enc by (try done; by apply (proj1 (Forall_lookup _ _) Hwf _ _ Hl)).
    rewrite IH by lia. f_equal. lia.
Qed.

(** The start the backward search finds in one file. *)
Lemma tail_start lf l rem :
  lf_wf lf -> last (lf_lines lf) = Some l -> 0 < rem ->
  let m := length (lf_lines lf) in
  (if decide (1 < Z.of_nat rem)%Z
   then lift_err TailErr (SkipLines chunk (lf_bytes lf) (Z.of_nat (length (lf_bytes lf)))
          (Z.of_nat (offset_of (lf_entries lf) (m - 1))) (- (Z.of_nat rem - 1)))
   else Ok (Z.of_nat (offset_of (lf_entries lf) (m - 1)))) =
  Ok (Z.of_nat (offset_of (lf_entries lf) (m - rem))).
Proof.
  intros Hwf Hl Hr m. case_decide; [|by replace rem with 1 by lia].
  replace (- (Z.of_nat rem - 1))%Z with (- Z.of_nat (rem - 1))%Z by lia.
  unfold K8sRead.lf_bytes. rewrite SkipLines_back; [|done|by apply lf_entries_full| |lia].
  - by replace (m - 1 - (rem - 1)) with (m - rem) by lia.
  - unfold K8sRead.lf_entries. rewrite length_app, length_fmap. lia.
Qed.

Lemma select_tail_lines files rem sel :
  Forall (fun p => lf_wf p.2) files ->
  exists cs, select_tail chunk Parse (span_of' <$> files) (Z.of_nat rem) sel = Ok ((read_of <$> cs) ++ sel) /\
    Forall chosen_ok cs /\
    concat (recs_of <$> cs) = last_n rem (concat (reverse (lines_of <$> files))).
Proof.
  intros Hf. revert rem sel; induction Hf as [|[name lf] files Hwf _ IH]; intros rem sel.
  { exists []. split_and!; [done|constructor|]. done. }
  rewrite !fmap_cons, reverse_cons, concat_app. cbn [select_tail concat]. rewrite app_nil_r.
  case_decide as H0.
  { exists []. split_and!; [done|constructor|]. replace rem with 0 by lia. unfold last_n.
    rewrite Nat.sub_0_r. by rewrite drop_ge. }
  change (span_of' (name, lf)) with (span_of name lf). rewrite Empty_span_of.
  unfold file_size. rewrite sp_File_span_of, lastUserLine_lines by done.
  pose proof (length_lines_of (name, lf)) as Hlen. simpl in Hlen. rewrite last_n_app_split, Hlen.
  case_bool_decide as He.
  { destruct (IH rem sel) as (cs & -> & Hc & Hr). exists cs. split_and!; [done|done|].
    rewrite Hr, He in *. destruct (lines_of (name, lf)) eqn:E; [|done]. simpl.
    by rewrite app_nil_r, Nat.sub_0_r. }
  destruct (last (lf_lines lf)) as [l|] eqn:Hl; [|by apply last_None in Hl]. simpl result_bind.
  rewrite (tail_start lf l rem) by (done || lia). simpl result_bind.
  set (m := length (lf_lines lf)) in *. assert (0 < m) as Hm by (unfold m; destruct (lf_lines lf); [done|simpl; lia]).
  unfold countUserLines. rewrite Nat2Z.id. unfold K8sRead.lf_bytes. rewrite drop_offset.
  rewrite entries_lines by (apply Forall_drop; by apply lf_entries_full).
  rewrite count_entries_lines by (done || fold m; lia). fold m. simpl result_bind.
  rewrite decide_False by lia.
  replace (Z.of_nat rem - Z.min (0 + Z.of_nat (m - (m - rem))) (Z.of_nat rem))%Z with (Z.of_nat (rem - m)) by lia.
  destruct (IH (rem - m) (read_of (name, lf, m - rem) :: sel)) as (cs & E & Hc & Hr).
  exists (cs ++ [(name, lf, m - rem)]). split_and!.
  - unfold read_of at 1 in E. simpl in E. rewrite E, fmap_app, <- app_assoc. done.
  - apply Forall_app. split; [done|]. repeat constructor; simpl; [done|fold m; lia].
  - rewrite fmap_app, concat_app, Hr. simpl. rewrite app_nil_r. f_equal.
    unfold recs_of. simpl. rewrite recs_from_drop. unfold last_n. by rewrite Hlen.
Qed.

Lemma run_all ro active latest files :
  Follow ro = false -> Forall (fun p => lf_wf p.2) files ->
  run_spans Parse ro active latest (from_start <$> (span_of' <$> files)) [] 0 =
  to_record <$> let_through ro (concat (lines_of <$> files)).
Proof.
  intros Hro Hf.
  assert (from_start <$> (span_of' <$> files) = read_of <$> ((fun p => (p, 0)) <$> files)) as ->.
  { rewrite <- !list_fmap_compose. by apply list_fmap_ext. }
  rewrite run_spans_lines, scan_lines_let_through; [|done|].
  - do 3 f_equal. rewrite <- list_fmap_compose. by apply list_fmap_ext.
  - apply Forall_fmap. eapply Forall_impl; [done|]. intros p Hp. split; [done|simpl; lia].
Qed.

(** Times do not go back. *)
Definition in_time (l : list (LogLine * Offset)) : Prop :=
  StronglySorted (fun x y => (Time x.1 <= Time y.1)%Z) l.

Lemma lines_of_times p x : x ∈ lines_of p -> exists i, lf_lines p.2 !! i = Some x.1.
Proof.
  unfold lines_of, recs_from. rewrite drop_0. intros Hx.
  apply list_elem_of_lookup_1 in Hx as [i Hi]. rewrite list_lookup_imap in Hi.
  destruct (lf_lines p.2 !! i) eqn:E; [|done]. injection Hi as <-. eauto.
Qed.

Lemma in_time_app l1 l2 : in_time (l1 ++ l2) ->
  in_time l1 /\ in_time l2 /\ forall x y, x ∈ l1 -> y ∈ l2 -> (Time x.1 <= Time y.1)%Z.
Proof.
  unfold in_time. induction l1 as [|x l1 IH]; simpl; intros H.
  - split_and!; [constructor|done|set_solver].
  - apply StronglySorted_inv in H as [H Hx]. destruct (IH H) as (H1 & H2 & H3).
    apply Forall_app in Hx as [Hx1 Hx2]. split_and!; [by constructor|done|].
    intros a b [->|Ha]%elem_of_cons Hb; [|by apply H3]. by apply (proj1 (Forall_forall _ _) Hx2).
Qed.

(** The last line of a file is its newest. *)
Lemma last_newest p l x :
  in_time (lines_of p) -> last (lf_lines p.2) = Some l -> x ∈ lines_of p -> (Time x.1 <= Time l)%Z.
Proof.
  intros Hs Hl Hx. apply last_Some in Hl as [ls Els].
  unfold lines_of, recs_from in *. rewrite drop_0, Els, imap_app in *. apply in_time_app in Hs as (_ & _ & H).
  apply elem_of_app in Hx as [Hx|Hx].
  - apply (H x (l, MkOffset p.1 (Z.of_nat (offset_of (lf_entries p.2) (S (0 + (length ls + 0))))))); [done|].
    simpl. by left.
  - simpl in Hx. apply list_elem_of_singleton in Hx as ->. done.
Qed.

Lemma not_skipped_none ro l :
  (forall x, x ∈ l -> Time x.1 < Since ro)%Z -> Since ro <> 0%Z -> not_skipped ro l = [].
Proof.
  intros H Hs. induction l as [|x l IH]; [done|]. unfold not_skipped in *.
  rewrite filter_cons_False; [apply IH; set_solver|]. unfold skipLine.
  rewrite bool_decide_false by done. rewrite bool_decide_true by (apply H; left). done.
Qed.

(** Skipping whole files loses nothing. *)
Lemma from_since_lines ro files :
  Since ro <> 0%Z -> in_time (concat (lines_of <$> files)) ->
  exists rest, from_since (span_of' <$> files) (Since ro) = span_of' <$> rest /\ rest `suffix_of` files /\
    not_skipped ro (concat (lines_of <$> rest)) = not_skipped ro (concat (lines_of <$> files)).
Proof.
  intros Hs. induction files as [|[name lf] files IH]; intros Ht; [by exists []|].
  rewrite !fmap_cons in *. cbn [from_since concat] in *. apply in_time_app in Ht as (H1 & H2 & _).
  destruct (IH H2) as (rest & E & Hsuf & Hr). change (span_of' (name, lf)) with (span_of name lf).
  rewrite Empty_span_of. unfold not_skipped in *. rewrite filter_app.
  case_bool_decide as He.
  { exists rest. split; [done|]. split; [by apply suffix_cons_r|]. rewrite Hr.
    pose proof (length_lines_of (name, lf)) as Hlen. simpl in Hlen. rewrite He in Hlen.
    by destruct (lines_of (name, lf)). }
  assert (exists l, last (lf_lines lf) = Some l /\ TailTime (span_of name lf) = Time l) as (l & Hl & ->).
  { unfold span_of. destruct (last (lf_lines lf)) as [l|] eqn:El; [|by apply last_None in El].
    exists l. by destruct (lf_lines lf). }
  case_decide.
  { exists ((name, lf) :: files). rewrite !fmap_cons. cbn [concat]. by rewrite filter_app. }
  exists rest. split; [done|]. split; [by apply suffix_cons_r|]. rewrite Hr.
  assert (not_skipped ro (lines_of (name, lf)) = []) as E0.
  { apply not_skipped_none; [|done]. intros x Hx. pose proof (last_newest (name, lf) l x H1 Hl Hx). lia. }
  unfold not_skipped in E0. by rewrite E0.
Qed.

(** *** From an offset on *)

Lemma log_name_not_empty path i : path <> "" -> log_name path i <> "".
Proof. destruct i as [|i]; [done|]. intros _. unfold log_name, archive. by destruct path. Qed.

Lemma recs_from_lookup name lf k i x :
  recs_from name lf k !! i = Some x ->
  off_Path x.2 = name /\ off_Bytes x.2 = Z.of_nat (offset_of (lf_entries lf) (S (k + i))) /\
  k + i < length (lf_lines lf).
Proof.
  unfold recs_from. rewrite list_lookup_imap, lookup_drop. destruct (lf_lines lf !! (k + i)) eqn:E; [|done].
  intros [= <-]. split_and!; [done|done|]. by eapply lookup_lt_Some.
Qed.

(** The file of an offset, and what is behind it there and in the newer files. *)
Lemma select_from files l1 x l2 :
  NoDup files.*1 -> Forall (fun p => lf_wf p.2) files ->
  concat (lines_of <$> files) = l1 ++ x :: l2 ->
  exists cs, selectSpansFrom (span_of' <$> files) x.2 = Some (read_of <$> cs) /\
    Forall chosen_ok cs /\ concat (recs_of <$> cs) = l2 /\ (0 < off_Bytes x.2)%Z /\ off_Path x.2 ∈ files.*1.
Proof.
  intros Hnd Hwf. revert l1. induction files as [|[name lf] files IH]; intros l1 E; [by destruct l1|].
  rewrite !fmap_cons in *. cbn [concat] in E. apply NoDup_cons in Hnd as [Hn Hnd].
  apply Forall_cons in Hwf as [Hlf Hwf]. cbn [fst snd] in *.
  cbn [selectSpansFrom]. change (span_of' (name, lf)) with (span_of name lf). rewrite sp_Path_span_of.
  destruct (decide (length l1 < length (lines_of (name, lf)))) as [Hlt|Hge].
  - assert (lines_of (name, lf) !! length l1 = Some x) as Hx.
    { rewrite <- (lookup_app_l _ (concat (lines_of <$> files))), E by done. by apply list_lookup_middle. }
    pose proof (recs_from_lookup name lf 0 _ _ Hx) as (HP & HB & Hk). simpl in HB, Hk.
    rewrite decide_False by (rewrite HP; intros []; done).
    assert (offset_of (lf_entries lf) (S (length l1)) <= length (lf_bytes lf)) as Hle.
    { unfold K8sRead.lf_bytes. rewrite <- (offset_of_all _ (length (lf_entries lf))) by done.
      apply offset_of_le. unfold K8sRead.lf_entries. rewrite length_app, length_fmap. lia. }
    unfold file_size. rewrite sp_File_span_of, decide_False by lia.
    exists ((name, lf, S (length l1)) :: ((fun p => (p, 0)) <$> files)). split_and!.
    + rewrite fmap_cons. unfold read_of at 1. simpl. rewrite HB. do 2 f_equal.
      rewrite <- !list_fmap_compose. by apply list_fmap_ext.
    + constructor; [split; [done|simpl; lia]|]. apply Forall_fmap. eapply Forall_impl; [done|].
      intros p Hp. split; [done|simpl; lia].
    + rewrite fmap_cons. cbn [concat]. rewrite <- list_fmap_compose.
      unfold recs_of at 1. cbn [fst snd]. rewrite recs_from_drop.
      change (recs_from name lf 0) with (lines_of (name, lf)).
      rewrite (list_fmap_ext _ lines_of files) by done.
      rewrite <- (drop_app_le (lines_of (name, lf)) (concat (lines_of <$> files))) by lia.
      rewrite E, drop_app_ge by lia. by replace (S (length l1) - length l1) with 1 by lia.
    + rewrite HB. pose proof (lf_offset_lt Format Hnl lf (length l1) (S (length l1)) Hlf) as Ho.
      unfold K8sRead.lf_entries in *. rewrite length_app, length_fmap in Ho. specialize (Ho ltac:(lia) ltac:(lia)). lia.
    + rewrite HP. by left.
  - destruct (IH Hnd Hwf (drop (length (lines_of (name, lf))) l1)) as (cs & Es & Hc & Hr & Hb & Hp).
    { apply (f_equal (drop (length (lines_of (name, lf))))) in E.
      by rewrite drop_app_length, drop_app_le in E by lia. }
    exists cs. rewrite decide_True by (intros ->; done). split_and!; try done. by right.
Qed.

Lemma named_NoDup path log : NoDup ((named path log).*1).
Proof.
  unfold named. rewrite fmap_imap. apply NoDup_alt. intros i j x Hi Hj.
  rewrite list_lookup_imap in Hi, Hj.
  destruct (log !! i), (log !! j); try done. simpl in *. simplify_eq. by eapply log_name_inj.
Qed.

Lemma named_path path log p : p ∈ named path log -> exists i, p.1 = log_name path i /\ log !! i = Some p.2.
Proof.
  intros Hp. apply list_elem_of_lookup_1 in Hp as [i Hi]. unfold named in Hi.
  rewrite list_lookup_imap in Hi. destruct (log !! i) eqn:E; [|done]. injection Hi as <-. eauto.
Qed.

Lemma named_wf path log : Forall lf_wf log -> Forall (fun p => lf_wf p.2) (named path log).
Proof.
  intros H. apply Forall_forall. intros p Hp. apply named_path in Hp as (i & _ & Hi).
  by apply (proj1 (Forall_lookup _ _) H _ _ Hi).
Qed.

Lemma let_through_nil ro : let_through ro [] = [].
Proof. unfold let_through, head_cut. simpl. case_decide; [by rewrite take_nil|done]. Qed.

Lemma all_lines_eq path log : all_lines path log = concat (lines_of <$> reverse (named path log)).
Proof. unfold all_lines. by rewrite fmap_reverse. Qed.

Lemma read_log_eq fs path maxFile log ro :
  on_disk fs path maxFile log ->
  read_log chunk Parse fs path maxFile ro [] =
  try selected := selectReadSpans chunk Parse (span_of' <$> reverse (named path log)) ro in
  Ok (run_spans Parse ro (path, default [] (fs !! path)) None selected [] 0).
Proof.
  intros Hd. unfold read_log. rewrite (discoverFiles_ok _ _ _ _ Hd), spans_of_named.
  simpl result_bind. by rewrite <- fmap_reverse.
Qed.

(** Without a position to start from. *)
Lemma read_log_whole fs path maxFile log ro :
  on_disk fs path maxFile log -> (Since ro <> 0%Z -> in_time (all_lines path log)) ->
  Follow ro = false -> StartOffset ro = None ->
  read_log chunk Parse fs path maxFile ro [] = Ok (to_record <$> let_through ro
    (if decide (0 < Tail ro)%Z then last_n (Z.to_nat (Tail ro)) (all_lines path log)
     else all_lines path log)).
Proof.
  intros Hd Ht Hro Hs. pose proof (named_wf path _ (proj1 (proj2 (proj2 Hd)))) as Hnw.
  rewrite (read_log_eq _ _ _ _ _ Hd). unfold selectReadSpans, startOffset. rewrite Hs. simpl result_bind.
  case_decide as Htl.
  - unfold selectTailSpans. rewrite decide_False, <- fmap_reverse, reverse_involutive by lia.
    rewrite <- (Z2Nat.id (Tail ro)) at 1 by lia.
    destruct (select_tail_lines (named path log) (Z.to_nat (Tail ro)) [] Hnw) as (cs & -> & Hc & Hr).
    simpl result_bind. rewrite app_nil_r, run_spans_lines by done. by rewrite scan_lines_let_through, Hr.
  - rewrite all_lines_eq in *. set (files := reverse (named path log)) in *.
    assert (Forall (fun p => lf_wf p.2) files) as Hfw by (by apply Forall_reverse).
    assert (exists rest, (if decide (Since ro = 0%Z) then span_of' <$> files
        else from_since (span_of' <$> files) (Since ro)) = span_of' <$> rest /\ rest `suffix_of` files /\
        not_skipped ro (concat (lines_of <$> rest)) = not_skipped ro (concat (lines_of <$> files)))
      as (rest & -> & [pre Epre] & Hr)
      by (case_decide as H0; [by exists files|apply from_since_lines; auto]).
    rewrite Epre in Hfw. apply Forall_app in Hfw as [_ Hrw].
    replace (let_through ro (concat (lines_of <$> files))) with (let_through ro (concat (lines_of <$> rest)))
      by (unfold let_through; by rewrite Hr).
    destruct rest as [|f rest'] eqn:Ef.
    + rewrite Hro, let_through_nil. simpl. by destruct (last _); simpl; rewrite Hro.
    + rewrite fmap_cons. cbn [result_bind]. rewrite <- fmap_cons, <- Ef in *. by rewrite run_all.
Qed.

(** From the position behind a line on. *)
Lemma read_log_from fs path maxFile log ro l1 l off l2 :
  on_disk fs path maxFile log -> Follow ro = false ->
  all_lines path log = l1 ++ (l, off) :: l2 ->
  StartOffset ro = Some (K8sOffset (off_Path off) (off_Bytes off)) ->
  read_log chunk Parse fs path maxFile ro [] = Ok (to_record <$> let_through ro l2).
Proof.
  intros Hd Hro E Hs. pose proof Hd as (Hp & _ & Hwf & _). rewrite (read_log_eq _ _ _ _ _ Hd).
  rewrite all_lines_eq in E.
  destruct (select_from (reverse (named path log)) l1 (l, off) l2) as (cs & Es & Hc & Hr & Hb & Hin); [| |done|].
  { rewrite fmap_reverse, reverse_Permutation. apply named_NoDup. }
  { apply Forall_reverse. by apply named_wf. }
  simpl in Es, Hb, Hin. unfold selectReadSpans, startOffset. rewrite Hs. rewrite decide_False.
  - simpl. destruct off as [op ob]. simpl in *. rewrite Es. simpl. rewrite run_spans_lines by done.
    by rewrite scan_lines_let_through, Hr.
  - rewrite fmap_reverse, elem_of_reverse in Hin. apply list_elem_of_fmap in Hin as (p & Ep & Hin).
    apply named_path in Hin as (i & Ei & _). rewrite Ep, Ei. intros [H|H]; [|lia].
    by apply (log_name_not_empty path i).
Qed.

(** C17: The reader returns what its options ask for. Over the files of a log, whatever
    the size of the chunks in which it searches backwards, a reader that does not follow
    returns the lines that are kept, in order, each with the offset behind it: all of
    them, the last [Tail], or those behind [StartOffset], less those before [Since] or
    from the first one on that is after [Until], and at most [Head]. With [Since] this
    asks that the times of the lines do not go back: files whose last line is older are
    skipped whole. *)
Theorem reader_exact fs path maxFile log ro :
  on_disk fs path maxFile log -> (Since ro <> 0%Z -> in_time (all_lines path log)) ->
  Follow ro = false ->
  (StartOffset ro = None ->
   read_log chunk Parse fs path maxFile ro [] = Ok (to_record <$> let_through ro
     (if decide (0 < Tail ro)%Z then last_n (Z.to_nat (Tail ro)) (all_lines path log)
      else all_lines path log))) /\
  (forall l1 l off l2, all_lines path log = l1 ++ (l, off) :: l2 ->
   StartOffset ro = Some (K8sOffset (off_Path off) (off_Bytes off)) ->
   read_log chunk Parse fs path maxFile ro [] = Ok (to_record <$> let_through ro l2)).
Proof.
  intros Hd Ht Hro. split; [by apply read_log_whole|].
  intros l1 l off l2 E Hs. by eapply read_log_from.
Qed.

(** ** A run of the writer *)

Context (fault : nat -> option nat).



(** Lines with the two times the clock may be read at, written one after the other. *)
Fixpoint write_all (ws : list (Z * Z * LogLine)) : errst st writerErr unit :=
  match ws with
  | [] => mret tt
  | (now, now', l) :: ws => _ ← WriteLogLine fault Format now now' l; write_all ws
  end.





(** A log holds the lines written, but for the oldest. *)
Record kept (size count : Z) (lines : list LogLine) (log : list lfile) (dropped : list LogLine) : Prop := {
  ke_open : forall lf, head log = Some lf -> lf_mark lf = None;
  ke_wf : Forall lf_wf log;
  ke_lines : dropped ++ concat (reverse (lf_lines <$> log)) = lines;
  ke_unlimited : (size <= 0)%Z -> dropped = [];
  ke_full : dropped <> [] -> length log = S (Z.to_nat (count - 1));
  ke_small : (0 < size)%Z -> Forall (fun lf => length (lf_lines lf) <= 1 \/
     (Z.of_nat (length (concat (enc <$> lf_lines lf))) < size)%Z) log }.



(** The invariant of a writer that works. *)
Record keeps (size count : Z) (path : string) (lines : list LogLine) (s : st) (log : list lfile)
    (dropped : list LogLine) : Prop := {
  ke_holds : holds s (lf_bytes <$> log);
  ke_conf : w_path s.1 = path /\ maxSize s.1 = size /\ maxFile s.1 = count;
  ke_kept : kept size count lines log dropped }.



Lemma keeps_new path size count v w v' :
  newWriter fault path size count v = (Ok w, v') ->
  (forall i, i <= Z.to_nat (count - 1) -> files v !! log_name path i = None) ->
  path <> "" /\ keeps size count path [] (w, v') [MkLfile [] None] [].
Proof.
  intros H Hf. unfold newWriter, open_file, sys in H. case_decide; [done|].
  case_decide; simpl in H; [|done]. case_decide; [|done]. injection H as <- <-.
  pose proof (Hf 0 ltac:(lia)) as Hf0. simpl in Hf0. rewrite Hf0. simpl. split; [done|].
  split; [|done|].
  - split; [done|done|done| |simpl; lia]. intros [|i] Hi; unfold contents; simpl.
    + by rewrite lookup_insert_eq.
    + rewrite lookup_insert_ne; [by apply (Hf (S i))|].
      intros E. change path with (log_name path 0) in E at 1. by apply (log_name_inj path 0 (S i)) in E.
  - split; [by intros ? [= <-]|by repeat constructor|done|done|done|].
    intros _. repeat constructor.
Qed.



Definition no_options : ReaderOption :=
  {| Follow := false; Since := 0; Until := 0; Head := 0; Tail := 0; StartOffset := None |}.










(** Lines written whatever became of those before. *)
Fixpoint write_each (ws : list (Z * Z * LogLine)) (s : st) : list (result writerErr unit) * st :=
  match ws with
  | [] => ([], s)
  | (now, now', l) :: ws =>
      let '(r, s) := WriteLogLine fault Format now now' l s in
      let '(rs, s) := write_each ws s in (r :: rs, s)
  end.

(** A writer stops at its first error. Once a line could not be written, because a
    write, a rename or whatever else failed at whatever point of it, every later line
    fails too and no file is touched any more: nothing is appended behind a gap or
    behind half a line. *)
Theorem writer_fail_stop now now' l s cs e s1 ws rs s2 :
  holds s cs -> Line l <> [] -> WriteLogLine fault Format now now' l s = (Err e, s1) ->
  write_each ws s1 = (rs, s2) ->
  files s2.2 = files s1.2 /\
  forall i w r, ws !! i = Some w -> rs !! i = Some r -> Line w.2 <> [] -> exists e', r = Err e'.
Proof.
  intros Hh Hl H Hw. apply (WriteLogLine_spec _ _ _ _ _ _ _ _ _ Hh Hl) in H. simpl in H. clear Hl l.
  revert s1 rs H Hw; induction ws as [|[[n n'] l] ws IH]; intros s1 rs Hd Hw; [by injection Hw as <- <-|].
  simpl in Hw. destruct (WriteLogLine fault Format n n' l s1) as [r1 s3] eqn:E.
  destruct (write_each ws s3) as [rs' s4] eqn:E2. injection Hw as <- <-.
  assert (dead s3 /\ files s3.2 = files s1.2 /\ (Line l <> [] -> exists e', r1 = Err e')) as (Hd3 & Hf & Hr).
  { destruct (decide (Line l = [])) as [El|El].
    - unfold WriteLogLine in E. rewrite decide_True in E by done. by injection E as <- <-.
    - by apply (WriteLogLine_fails _ _ _ _ _ El) in E as (? & ? & ?). }
  destruct (IH _ _ Hd3 E2) as [Hf' Hr']. split; [by rewrite Hf'|].
  intros [|i] w r Hi Hri Hlw; [by simplify_eq/=; auto|]. by eapply Hr'.
Qed.
End Log.

(** ** Examples *)

(** A layout for timestamps, good enough for examples. *)
Definition demo_Format (t : Z) : list Z := [if decide (t < 0)%Z then 0 else 1; Z.abs t + 100]%Z.
Definition demo_Parse (l : list Z) : option Z :=
  match l with
  | [s; a] => Some (if decide (s = 0) then - (a - 100) else a - 100)%Z
  | _ => None
  end.

Lemma demo_parse t : demo_Parse (demo_Format t) = Some t.
Proof. unfold demo_Format. simpl. destruct (decide (t < 0)%Z); simpl; f_equal; lia. Qed.

Lemma demo_free b t : (2 <= b < 100)%Z -> b ∉ demo_Format t.
Proof.
  intros Hb H. unfold demo_Format in H. rewrite !elem_of_cons, elem_of_nil in H.
  destruct H as [H|[H|[]]]; [case_decide; lia|lia].
Qed.

Lemma demo_space t : space ∉ demo_Format t.
Proof. by apply demo_free. Qed.
Lemma demo_newline t : newline ∉ demo_Format t.
Proof. by apply demo_free. Qed.

Definition demo_line (n : nat) (t : Z) : LogLine :=
  {| Time := t; stream := StreamStdout; Partial := false; Line := replicate n 120%Z ++ [newline] |}.
Definition no_fault (n : nat) : option nat := None.
Definition demo_world : world := MkWorld ∅ 0.
Definition demo_new (size : Z) : st :=
  match newWriter no_fault "log" size 2 demo_world with
  | (Ok w, v) => (w, v)
  | (Err _, v) => (MkWriter false true [] false "log" size 2 0, v)
  end.
Definition demo_ws : list (Z * Z * LogLine) := (fun t => (1, t, demo_line 5 t)%Z) <$> [5; 6; 7; 8; 9]%Z.

Lemma demo_line_wf n t : (0 < t)%Z -> line_wf (demo_line n t).
Proof.
  intros Ht. split; [simpl; lia|done| | |].
  - refine (bool_decide_unpack (space ∉ bytes_of StreamStdout) _). by vm_compute.
  - refine (bool_decide_unpack (newline ∉ bytes_of StreamStdout) _). by vm_compute.
  - exists (replicate n 120%Z). split; [done|]. intros H. by apply elem_of_replicate in H as [H _].
Qed.




Lemma reader_exact_witness :
  exists fs ro rs, read_log 7 demo_Parse fs "log" 2 ro [] = Ok rs /\ length rs = 2.
Proof.
  set (log := [MkLfile [demo_line 5 8; demo_line 5 9] None; MkLfile [demo_line 5 6; demo_line 5 7] (Some 7%Z)]).
  exists (<["log" := lf_bytes demo_Format (MkLfile [demo_line 5 8; demo_line 5 9] None)]>
          {["log.1" := lf_bytes demo_Format (MkLfile [demo_line 5 6; demo_line 5 7] (Some 7%Z))]}).
  exists {| Follow := false; Since := 8; Until := 0; Head := 0; Tail := 3; StartOffset := None |}. eexists.
  split.
  - apply (reader_exact demo_Format demo_Parse demo_parse demo_space demo_newline 7 ltac:(lia)
      _ "log" 2 log).
    + split; [done|]. split; [simpl; lia|]. split.
      * repeat constructor; by apply demo_line_wf.
      * intros [|[|i]] Hi; [by vm_compute|by vm_compute|simpl in Hi; lia].
    + intros _. vm_compute. repeat constructor; done.
    + done.
    + done.
  - by vm_compute.
Defined.

Definition third_call_fails (n : nat) : option nat := if decide (n = 2) then Some 3 else None.

Lemma writer_fail_stop_witness :
  let s1 := (WriteLogLine third_call_fails demo_Format 1 1 (demo_line 5 8) (demo_new 0)).2 in
  let '(rs, s2) := write_each demo_Format third_call_fails demo_ws s1 in
  files s2.2 = files s1.2 /\ length rs = 5.
Proof.
  intros s1. destruct (write_each _ _ _ s1) as [rs s2] eqn:E. split.
  - refine (proj1 (writer_fail_stop demo_Format third_call_fails 1 1 (demo_line 5 8) (demo_new 0)
      [[]] WriteFailed s1 demo_ws rs s2 _ _ _ E)).
    + refine (ke_holds demo_Format _ _ _ _ _ _ _
        (proj2 (keeps_new demo_Format 7 ltac:(lia) no_fault "log" 0 2 demo_world _ _ _ _))); [by vm_compute|].
      intros i _. apply lookup_empty.
    + done.
    + by vm_compute.
  - apply (f_equal fst) in E. simpl in E. rewrite <- E. by vm_compute.
Defined.

(** ** Reading while the writer works *)

Definition demo_files (s : st) : gmap string (list Z) := files s.2.

(** The state in the middle of [WriteLogLine], when only the last flush is missing. *)
Definition before_flush (l : LogLine) : errst st writerErr unit :=
  _ ← bwrite no_fault (demo_Format (Time l));
  _ ← bwrite no_fault [space];
  _ ← bwrite no_fault (bytes_of (stream l));
  _ ← bwrite no_fault [space];
  _ ← bwrite no_fault tagFull;
  _ ← bwrite no_fault [space];
  bwrite no_fault (Line l).

Definition demo_long : LogLine := demo_line 5000 8.
Definition demo_torn : st := (before_flush demo_long (demo_new 0)).2.
Definition demo_whole : st := (WriteLogLine no_fault demo_Format 1 1 demo_long (demo_new 0)).2.
Definition demo_rest : list Z :=
  drop (length (default [] (demo_files demo_torn !! "log"))) (default [] (demo_files demo_whole !! "log")).

Definition follow_options : ReaderOption :=
  {| Follow := true; Since := 0; Until := 0; Head := 0; Tail := 0; StartOffset := None |}.

(** The lines of records; the error of one. *)
Definition shown (r : result readErr (list record)) : list (option (list Z)) :=
  match r with
  | Ok rs => (fun r => match r with Rec l _ => Some (Line l) | RecErr _ => None end) <$> rs
  | Err _ => []
  end.

(** A size limit that is reached with the third line. *)
Definition demo_after (n : nat) : st := (write_all demo_Format no_fault (take n demo_ws) (demo_new 45)).2.

(** Reading while the writer works can go wrong. A line longer than the buffer
    reaches the file in two writes: a reader in between takes its first 4096 bytes for a
    complete line, and a reader that follows then stops with an error. A follower that
    meets a rotation marker sends the whole file a second time. And the lines between
    two positions are all missed if the file was rotated between them. *)
Theorem reading_while_writing :
  (exists part, part <> Line demo_long /\ newline ∉ part /\
     shown (read_log 7 demo_Parse (demo_files demo_torn) "log" 2 no_options []) = [Some part] /\
     shown (read_log 7 demo_Parse (demo_files demo_torn) "log" 2 follow_options [demo_rest]) = [Some part; None]) /\
  shown (read_log 7 demo_Parse (demo_files (demo_after 1)) "log" 2 follow_options [marker demo_Format 9]) =
    [Some (Line (demo_line 5 5)); Some (Line (demo_line 5 5))] /\
  (let from := (CurrentOffset no_fault (demo_after 2)).1 in
   let to := (CurrentOffset no_fault (demo_after 4)).1 in
   NewRangeReader demo_Parse (demo_files (demo_after 4)) "log" from to = Ok [] /\
   (fun p => default [] (demo_files (demo_after 4) !! p)) <$> ["log.1"; "log"] =
     [concat (enc demo_Format <$> [demo_line 5 5; demo_line 5 6]) ++ marker demo_Format 7;
      concat (enc demo_Format <$> [demo_line 5 7; demo_line 5 8])]).
Proof.
  split; [|split; [by vm_compute|split; by vm_compute]].
  exists (replicate 4084 120%Z). split_and!; [|..].
  - intros H. apply (f_equal length) in H. revert H. by vm_compute.
  - intros H. by apply elem_of_replicate in H as [H _].
  - vm_compute. reflexivity.
  - vm_compute. reflexivity.
Qed.
