(* ===== verification/Model.v ===== *)
(** * The command model

    [cmdman/model]: restart policies, command events, terminal hooks with their
    precedence layers, and the stored command configuration with its validation;
    [pkg/hrstr], which parses the signals and timeouts of that configuration.
    Go's string enumerations stay strings with their named constants. *)

From S2P Require Import Prelude GoStr LogDriver.

(** ** Restart policies ([restart_policy.go]) *)

(* src/cmdman/model/restart_policy.go:9-16 RestartPolicy *)
Definition RestartPolicy := string.
(* src/cmdman/model/restart_policy.go:12-16 RestartPolicyNo *)
Definition RestartPolicyNo : RestartPolicy := "no".
(* src/cmdman/model/restart_policy.go:12-16 RestartPolicyOnFailure *)
Definition RestartPolicyOnFailure : RestartPolicy := "on-failure".
(* src/cmdman/model/restart_policy.go:12-16 RestartPolicyAlways *)
Definition RestartPolicyAlways : RestartPolicy := "always".

(* src/cmdman/model/restart_policy.go:18-25 IsRestartPolicy *)
Definition IsRestartPolicy (s : string) : bool :=
  bool_decide (s = RestartPolicyNo) || bool_decide (s = RestartPolicyOnFailure)
  || bool_decide (s = RestartPolicyAlways).

(* src/cmdman/model/restart_policy.go:31-54 ParseRestartPolicy *)
Inductive restartErr :=
| InvalidPolicy (name : string)
| RetriesNotAllowed (name : string)
| InvalidRetryCount (count : string)
| NegativeRetryCount (n : Z).

(* src/cmdman/model/restart_policy.go:27-54 ParseRestartPolicy *)
Definition ParseRestartPolicy (s : string) : result restartErr (RestartPolicy * Z) :=
  let '(name, count, hasCount) := cut ":" s in
  if negb (IsRestartPolicy name) then Err (InvalidPolicy name)
  else if negb hasCount then Ok (name, 0%Z)
  else if negb (bool_decide (name = RestartPolicyOnFailure)) then Err (RetriesNotAllowed name)
  else match Atoi count with
       | None => Err (InvalidRetryCount count)
       | Some n => if decide (n < 0)%Z then Err (NegativeRetryCount n) else Ok (name, n)
       end.

(** ** Events ([state.go]) *)

(* src/cmdman/model/state.go:17-46 EventType *)
Definition EventType := string.
(* src/cmdman/model/state.go:21-22 EventTypeCreated *)
Definition EventTypeCreated : EventType := "created".
(* src/cmdman/model/state.go:23-24 EventTypeRemoved *)
Definition EventTypeRemoved : EventType := "removed".
(* src/cmdman/model/state.go:25-28 EventTypeStarting *)
Definition EventTypeStarting : EventType := "starting".
(* src/cmdman/model/state.go:29-32 EventTypeRunning *)
Definition EventTypeRunning : EventType := "running".
(* src/cmdman/model/state.go:33-35 EventTypeExited *)
Definition EventTypeExited : EventType := "exited".
(* src/cmdman/model/state.go:36-38 EventTypeFailed *)
Definition EventTypeFailed : EventType := "failed".
(* src/cmdman/model/state.go:39-40 EventTypeStopped *)
Definition EventTypeStopped : EventType := "stopped".
(* src/cmdman/model/state.go:41-42 EventTypeSignaled *)
Definition EventTypeSignaled : EventType := "signaled".
(* src/cmdman/model/state.go:43-45 EventTypeRotation *)
Definition EventTypeRotation : EventType := "_rotation".

(* src/cmdman/model/state.go:5-15 Event *)
Record Event := {
  ev_Time : Z;
  ev_Type : EventType;
  ev_ID : string;
  ev_Name : string;
  ev_State : EventType;
  ev_ExitCode : option Z;
  ev_Error : string;
  ev_Attrs : gmap string string;
}.

(* src/cmdman/model/state.go:48-58 IsEventType *)
Definition IsEventType (s : string) : bool :=
  bool_decide (s ∈ [EventTypeCreated; EventTypeRemoved; EventTypeStarting; EventTypeRunning;
                    EventTypeExited; EventTypeFailed; EventTypeStopped; EventTypeSignaled]).

(** ** Terminal hooks ([hook.go]) *)

(* src/cmdman/model/hook.go:10-21 HookEvent *)
Definition HookEvent := string.
(* src/cmdman/model/hook.go:15-16 HookEventBell *)
Definition HookEventBell : HookEvent := "bell".
(* src/cmdman/model/hook.go:17-18 HookEventTitle *)
Definition HookEventTitle : HookEvent := "title".
(* src/cmdman/model/hook.go:19-20 HookEventNotification *)
Definition HookEventNotification : HookEvent := "notification".

(* src/cmdman/model/hook.go:23-26 HookEvents *)
Definition HookEvents : list HookEvent := [HookEventBell; HookEventTitle; HookEventNotification].

(* src/cmdman/model/hook.go:28-31 IsHookEvent *)
Definition IsHookEvent (s : string) : bool := bool_decide (s ∈ HookEvents).

(* src/cmdman/model/hook.go:33-46 HookAction *)
Definition HookAction := string.
(* src/cmdman/model/hook.go:40-43 HookActionPassthrough *)
Definition HookActionPassthrough : HookAction := "passthrough".
(* src/cmdman/model/hook.go:44-45 HookActionBlock *)
Definition HookActionBlock : HookAction := "block".

(* src/cmdman/model/hook.go:48-51 HookActions *)
Definition HookActions : list HookAction := [HookActionPassthrough; HookActionBlock].

(* src/cmdman/model/hook.go:53-62 Hook *)
Record Hook := MkHook { Action : HookAction; Exec : list string }.

Definition zeroHook : Hook := MkHook "" [].

(* src/cmdman/model/hook.go:64-67 Hook.Blocks *)
Definition Blocks (h : Hook) : bool := bool_decide (Action h = HookActionBlock).

(* src/cmdman/model/hook.go:69-71 HookSet *)
Definition HookSet := gmap HookEvent Hook.

(* src/cmdman/model/hook.go:73-98 HookSet.Validate *)
Inductive hookErr :=
| UnknownHookEvent (ev : HookEvent)
| UnknownHookAction (ev : HookEvent) (a : HookAction)
| EmptyHookExec (ev : HookEvent).

(** The checks one entry of a set goes through. *)
(* src/cmdman/model/hook.go:76-96 HookSet.Validate *)
Definition check_hook (ev : HookEvent) (h : Hook) : result hookErr unit :=
  if negb (IsHookEvent ev) then Err (UnknownHookEvent ev)
  else if negb (bool_decide (Action h = "")) && negb (bool_decide (Action h ∈ HookActions))
  then Err (UnknownHookAction ev (Action h))
  else if bool_decide (head (Exec h) = Some "") then Err (EmptyHookExec ev)
  else Ok tt.

(* src/cmdman/model/hook.go:73-98 HookSet.Validate *)
Definition HookSet_Validate (s : HookSet) : result hookErr unit :=
  try _ := result_mapM (fun e => check_hook e.1 e.2) (sorted_items s) in Ok tt.

(* src/cmdman/model/hook.go:104-117 HookLayers *)
Record HookLayers := { Frame : HookSet; Command_ : HookSet; Global : HookSet }.

(* src/cmdman/model/hook.go:121-128 HookLayers.Resolve *)
Definition Resolve (l : HookLayers) (ev : HookEvent) : Hook :=
  (fix first (sets : list HookSet) :=
     match sets with
     | [] => zeroHook
     | set :: sets => match set !! ev with Some h => h | None => first sets end
     end) [Frame l; Command_ l; Global l].

(** ** Human-readable signals and timeouts ([pkg/hrstr]) *)

Definition Duration := Z.
Definition Second : Duration := 1000000000%Z.

Section HrStr.
(** [unix.SignalName] ("" when unknown), [unix.SignalNum] (0 when unknown) and
    [time.ParseDuration]. *)
Context (SignalName : Z -> string) (SignalNum : string -> Z)
        (ParseDuration : string -> option Duration).

Inductive hrErr :=
| SignalEmpty
| SignalNotPositive (n : Z)
| UnknownSignalNumber (n : Z)
| UnknownSignal (s : string)
| TimeoutTooLarge (s : string)
| TimeoutSyntax (s : string)
| TimeoutNotPositive (s : string).

(** The conversion [int32(n)]. *)
Definition to_int32 (n : Z) : Z := ((n + 2 ^ 31) mod 2 ^ 32 - 2 ^ 31)%Z.

(* src/pkg/hrstr/signal.go:12-43 ParseSignal *)
Definition ParseSignal (s0 : string) : result hrErr (Z * string) :=
  let s := trimSpace s0 in
  if decide (s = "") then Err SignalEmpty
  else match Atoi s with
       | Some n =>
         if decide (n <= 0)%Z then Err (SignalNotPositive n)
         else let name := SignalName n in
              if decide (name = "") then Err (UnknownSignalNumber n)
              else Ok (to_int32 n, name)
       | None =>
         let up := toUpper s in
         let normalized := if hasPrefix "SIG" up then up else "SIG" +:+ up in
         let sig := SignalNum normalized in
         if decide (sig <= 0)%Z then Err (UnknownSignal s)
         else let name := SignalName sig in
              if decide (name = "") then Err (UnknownSignal s)
              else Ok (to_int32 sig, name)
       end.

(* src/pkg/hrstr/timeout.go:11-35 ParseTimeout *)
Definition ParseTimeout (s0 : string) : result hrErr Duration :=
  let s := trimSpace s0 in
  try d := match Atoi s with
           | Some n =>
             if decide (int64_max / Second < n)%Z then Err (TimeoutTooLarge s)
             else Ok (wrap64 (n * Second))
           | None =>
             match ParseDuration s with
             | None => Err (TimeoutSyntax s)
             | Some d => Ok d
             end
           end in
  if decide (d <= 0)%Z then Err (TimeoutNotPositive s) else Ok d.

(** ** The stored configuration ([command_config.go]) *)

(* src/cmdman/model/command_config.go:50-53 StopCommand *)
Record StopCommand := { stop_Args : list string }.

(* src/cmdman/model/command_config.go:12-48 CommandConfig *)
Record CommandConfig := {
  Argv : list string;
  cc_Dir : string;
  cc_Env : list string;
  cc_InjectEnv : bool;
  cc_RestartPolicy : RestartPolicy;
  cc_MaxRetries : Z;
  cc_StopSignal : string;
  StopTimeout : option Duration;
  cc_StopCommand : option StopCommand;
  cc_Tty : bool;
  cc_ScrollbackBytes : Z;
  cc_LogDriver : string;
  cc_LogOpts : gmap string string;
  Labels : gmap string string;
  Annotations : gmap string string;
  cc_Hooks : HookSet;
  CommandDir : string;
}.

(* src/cmdman/model/log_driver.go:5-6 DefaultLogDriver *)
Definition DefaultLogDriver : string := DriverK8sFile.
(** The numbers of the signals the monitor sends itself. *)
Definition SIGKILL : Z := 9.
Definition SIGTERM : Z := 15.

(* src/cmdman/model/signal.go:3-3 DefaultStopSignal *)
Definition DefaultStopSignal : string := "SIGTERM".

(* src/cmdman/model/log_driver.go:9-11 IsLogDriver *)
Definition IsLogDriver (s : string) : bool := IsDriver s.

Context (ParseBytes : string -> option Z).

(* src/cmdman/model/command_config.go:66-124 CommandConfig.ValidateCreate *)
Inductive configErr :=
| ConfigNil | ArgvEmpty | DirEmpty | EnvEmpty
| BadRestartPolicy (p : RestartPolicy)
| NegativeRetries (n : Z)
| RetriesWithoutOnFailure
| BadStopSignal (s : string) (e : hrErr)
| StopTimeoutNotPositive (d : Duration)
| StopCommandEmpty
| ScrollbackNotPositive (n : Z)
| BadLogDriver (d : string)
| BadLogOpt (e : optErr)
| BadHooks (e : hookErr)
| CommandDirEmpty.

Definition check_stop_signal (s : string) : result configErr unit :=
  if bool_decide (s = "") then Ok tt
  else try _ := lift_err (BadStopSignal s) (ParseSignal s) in Ok tt.

(** The log options are checked in Go's map order, which is any order [opts]
    of the map's entries. *)
(* src/cmdman/model/command_config.go:66-124 CommandConfig.ValidateCreate *)
Definition ValidateCreate (opts : list (string * string)) (c : option CommandConfig)
  : result configErr unit :=
  match c with
  | None => Err ConfigNil
  | Some c =>
    if bool_decide (Argv c = []) then Err ArgvEmpty
    else if bool_decide (cc_Dir c = "") then Err DirEmpty
    else if bool_decide (cc_Env c = []) then Err EnvEmpty
    else if negb (IsRestartPolicy (cc_RestartPolicy c))
    then Err (BadRestartPolicy (cc_RestartPolicy c))
    else if bool_decide (cc_MaxRetries c < 0)%Z then Err (NegativeRetries (cc_MaxRetries c))
    else if bool_decide (0 < cc_MaxRetries c)%Z
            && negb (bool_decide (cc_RestartPolicy c = RestartPolicyOnFailure))
    then Err RetriesWithoutOnFailure
    else try _ := check_stop_signal (cc_StopSignal c) in
    if bool_decide (default 1%Z (StopTimeout c) <= 0)%Z
    then Err (StopTimeoutNotPositive (default 1%Z (StopTimeout c)))
    else if match cc_StopCommand c with
            | Some sc => bool_decide (stop_Args sc = []) || bool_decide (head (stop_Args sc) = Some "")
            | None => false
            end
    then Err StopCommandEmpty
    else if bool_decide (cc_ScrollbackBytes c <= 0)%Z
    then Err (ScrollbackNotPositive (cc_ScrollbackBytes c))
    else if negb (IsLogDriver (cc_LogDriver c)) then Err (BadLogDriver (cc_LogDriver c))
    else try _ := lift_err BadLogOpt
                    (result_mapM (fun kv => ValidateOpt ParseBytes (cc_LogDriver c) kv.1 kv.2) opts) in
    lift_err BadHooks (HookSet_Validate (cc_Hooks c))
  end.

(* src/cmdman/model/command_config.go:55-64 CommandConfig.Validate *)
Definition CommandConfig_Validate (opts : list (string * string)) (c : option CommandConfig)
  : result configErr unit :=
  try _ := ValidateCreate opts c in
  match c with
  | None => Err ConfigNil
  | Some c => if decide (CommandDir c = "") then Err CommandDirEmpty else Ok tt
  end.

(* src/cmdman/model/command_config.go:126-133 CommandConfig.BackfillDefaults *)
Definition BackfillDefaults (c : CommandConfig) : CommandConfig :=
  if decide (cc_LogDriver c = "")
  then {| Argv := Argv c; cc_Dir := cc_Dir c; cc_Env := cc_Env c;
          cc_InjectEnv := cc_InjectEnv c; cc_RestartPolicy := cc_RestartPolicy c;
          cc_MaxRetries := cc_MaxRetries c; cc_StopSignal := cc_StopSignal c;
          StopTimeout := StopTimeout c; cc_StopCommand := cc_StopCommand c;
          cc_Tty := cc_Tty c; cc_ScrollbackBytes := cc_ScrollbackBytes c;
          cc_LogDriver := DefaultLogDriver; cc_LogOpts := cc_LogOpts c;
          Labels := Labels c; Annotations := Annotations c; cc_Hooks := cc_Hooks c;
          CommandDir := CommandDir c |}
  else c.

(* src/cmdman/model/command_config.go:135-153 CommandState *)
Record CommandState := {
  MonitorPID : Z;
  SocketPath : string;
  StartedAt : string;
  FinishedAt : string;
  RestartCount : Z;
  cs_Error : string;
  Warnings : list string;
  cs_ForceKilled : bool;
}.
End HrStr.

(** ** What the model's functions promise *)

(** The restart policy in the form a compose file spells it. *)
Definition print_policy (p : RestartPolicy) (n : Z) : string :=
  if bool_decide (p = RestartPolicyOnFailure) && bool_decide (0 < n)%Z
  then p +:+ ":" +:+ Itoa n else p.

Lemma IsRestartPolicy_true s :
  IsRestartPolicy s = true <->
  s = RestartPolicyNo \/ s = RestartPolicyOnFailure \/ s = RestartPolicyAlways.
Proof.
  unfold IsRestartPolicy. rewrite !orb_true_iff, !bool_decide_eq_true. tauto.
Qed.

(** A number of seconds below what [int64] holds is not refused: the product wraps around. *)
Lemma ParseTimeout_wraps ParseDuration : ParseTimeout ParseDuration "-10000000000" = Ok 8446744073709551616%Z.
Proof. reflexivity. Qed.

Lemma ParseTimeout_positive ParseDuration s d : ParseTimeout ParseDuration s = Ok d -> (0 < d)%Z.
Proof. unfold ParseTimeout. intros H. inv_bind H as d' Hd'. destruct (decide (d' <= 0)%Z) in H; [done|]. injection H as <-. lia. Qed.

(** A policy and a retry count that can be stored together. *)
Definition valid_policy (p : RestartPolicy) (n : Z) : Prop :=
  IsRestartPolicy p = true /\ (0 <= n)%Z /\ in_int64 n /\
  (n <> 0%Z -> p = RestartPolicyOnFailure).

#[export] Instance valid_policy_dec p n : Decision (valid_policy p n).
Proof. unfold valid_policy. apply _. Defined.

Lemma Atoi_in_int64 s n : Atoi s = Some n -> in_int64 n.
Proof.
  unfold Atoi. intros H. apply bind_Some in H as (m & _ & H). by case_decide; simplify_eq.
Qed.

(** [ParseRestartPolicy] accepts exactly the pairs a command can be stored with:
    whatever it returns is a known policy with a non-negative count that only
    on-failure carries, and every such pair is what its printed form parses to. *)
Theorem ParseRestartPolicy_exact p n :
  (exists s, ParseRestartPolicy s = Ok (p, n)) <-> valid_policy p n.
Proof.
  split.
  - intros [s H]. unfold ParseRestartPolicy in H. destruct (cut ":" s) as [[name count] has].
    destruct (IsRestartPolicy name) eqn:Hp; simpl in H; [|done].
    destruct has; simpl in H; [|simplify_eq; by split_and!].
    case_bool_decide as Hof; simpl in H; [|done].
    destruct (Atoi count) as [m|] eqn:E; [|done]. case_decide; simplify_eq.
    split_and!; [done|lia|by eapply Atoi_in_int64|done].
  - intros (Hp & Hn & Hi & Hof). exists (print_policy p n). unfold print_policy.
    destruct (decide (n = 0%Z)) as [->|Hn0].
    + rewrite andb_false_r. apply IsRestartPolicy_true in Hp as [->|[->| ->]]; reflexivity.
    + rewrite (Hof Hn0), !bool_decide_true by (done || lia). simpl.
      unfold ParseRestartPolicy.
      change (String "o" _) with (RestartPolicyOnFailure +:+ String ":" (Itoa n)).
      rewrite cut_found by reflexivity. simpl. rewrite Atoi_Itoa by done.
      by rewrite decide_False by lia.
Qed.

(** A configuration [ValidateCreate] lets through, in one predicate. *)
Definition config_ok SignalName SignalNum ParseBytes (c : CommandConfig) : Prop :=
  Argv c <> [] /\ cc_Dir c <> "" /\ cc_Env c <> [] /\
  IsRestartPolicy (cc_RestartPolicy c) = true /\ (0 <= cc_MaxRetries c)%Z /\
  ((0 < cc_MaxRetries c)%Z -> cc_RestartPolicy c = RestartPolicyOnFailure) /\
  (cc_StopSignal c <> "" -> is_ok (ParseSignal SignalName SignalNum (cc_StopSignal c)) = true) /\
  (forall d, StopTimeout c = Some d -> (0 < d)%Z) /\
  (forall sc, cc_StopCommand c = Some sc -> exists a args, stop_Args sc = a :: args /\ a <> "") /\
  (0 < cc_ScrollbackBytes c)%Z /\ IsLogDriver (cc_LogDriver c) = true /\
  (forall k v, cc_LogOpts c !! k = Some v -> ValidateOpt ParseBytes (cc_LogDriver c) k v = Ok tt) /\
  (forall ev h, cc_Hooks c !! ev = Some h -> check_hook ev h = Ok tt).

Lemma HookSet_Validate_ok s :
  is_ok (HookSet_Validate s) = true <-> forall ev h, s !! ev = Some h -> check_hook ev h = Ok tt.
Proof.
  unfold HookSet_Validate. autorewrite with guards reflect_guards. split.
  - intros H ev h Hl. apply ok_tt_iff, (H (ev, h)). by apply elem_of_sorted_items.
  - intros H [ev h] Hl%elem_of_sorted_items. simpl. by apply ok_tt_iff, H.
Qed.

Lemma check_stop_signal_ok SignalName SignalNum s :
  is_ok (check_stop_signal SignalName SignalNum s) = true <->
  (s <> "" -> is_ok (ParseSignal SignalName SignalNum s) = true).
Proof.
  unfold check_stop_signal. case_bool_decide; [naive_solver|].
  autorewrite with guards reflect_guards. tauto.
Qed.

(** [ValidateCreate] accepts a configuration exactly when it is complete (a
    program, a directory and an environment, a known restart policy with a retry cap
    only on-failure carries, a resolvable stop signal, a positive stop timeout and
    scrollback, a named stop command, log options the driver understands and hooks
    that name known events and actions), in whatever order the options are visited. *)
Theorem ValidateCreate_exact SignalName SignalNum ParseBytes c opts
    (Hopts : opts ≡ₚ map_to_list (cc_LogOpts c)) :
  ValidateCreate SignalName SignalNum ParseBytes opts (Some c) = Ok tt <->
  config_ok SignalName SignalNum ParseBytes c.
Proof.
  rewrite ok_tt_iff. unfold config_ok, ValidateCreate. autorewrite with guards reflect_guards.
  rewrite HookSet_Validate_ok, check_stop_signal_ok.
  iff_conj; try tauto; try lia.
  - destruct (decide (0 < cc_MaxRetries c)%Z); tauto.
  - destruct (StopTimeout c); simpl; naive_solver lia.
  - destruct (cc_StopCommand c) as [[args]|]; simpl; [|by split].
    autorewrite with reflect_guards. split.
    + intros [Hn Hh] sc [= <-]. destruct args as [|a args]; [done|].
      exists a, args. split; [done|]. by intros ->.
    + intros H. destruct (H _ eq_refl) as (a & args' & Ha & Hne). simpl in Ha. subst.
      split; [done|]. by intros [= ->].
  - setoid_rewrite Hopts. setoid_rewrite <- ok_tt_iff. split.
    + intros H k v Hl. by apply (H (k, v)), elem_of_map_to_list.
    + intros H [k v] Hl%elem_of_map_to_list. by apply H.
Qed.

Lemma ValidateCreate_exact_witness :
  let c := {| Argv := ["make"]; cc_Dir := "/srv"; cc_Env := ["A=1"]; cc_InjectEnv := true;
              cc_RestartPolicy := RestartPolicyOnFailure; cc_MaxRetries := 3; cc_StopSignal := "15";
              StopTimeout := Some 10%Z; cc_StopCommand := Some {| stop_Args := ["make"; "stop"] |};
              cc_Tty := false; cc_ScrollbackBytes := 4096; cc_LogDriver := "k8s-file";
              cc_LogOpts := {["max-file" := "4"]}; Labels := ∅; Annotations := ∅; cc_Hooks := ∅;
              CommandDir := "" |} in
  config_ok (fun n => if decide (n = 15%Z) then "SIGTERM" else "") (fun _ => 0%Z) (fun _ => None) c.
Proof.
  intros c.
  apply (ValidateCreate_exact (fun n => if decide (n = 15%Z) then "SIGTERM" else "") (fun _ => 0%Z)
    (fun _ => None) c [("max-file", "4")]).
  - unfold c. simpl. by rewrite map_to_list_singleton.
  - vm_compute. reflexivity.
Defined.
