(* ===== verification/TermState.v ===== *)
(** * Terminal modes replayed to a viewer

    [cmdman/monitor/terminal_state.go]: a parser that watches a command's output for
    the terminal modes a multiplexer infers from it, and the escape sequences that
    rebuild them in the terminal of a viewer that attaches later.  Bytes are [Z]. *)

From S2P Require Import Prelude GoStr.
From stdpp Require Import sorting.

(** The bytes of a string, and the string of bytes. *)
Definition bytes_of (s : string) : list Z :=
  map (fun c => Z.of_N (N_of_ascii c)) (String.list_ascii_of_string s).
Definition string_of (l : list Z) : string :=
  String.string_of_list_ascii (map (fun b => ascii_of_N (Z.to_N b)) l).

(* src/cmdman/monitor/terminal_state.go:16-29 replayableModes *)
Definition replayableModes : list Z :=
  [1; 9; 1000; 1001; 1002; 1003; 1004; 1005; 1006; 1015; 1016; 2004]%Z.

(* src/cmdman/monitor/terminal_state.go:96-100 terminalParseNormal *)
Inductive parseState := terminalParseNormal | terminalParseEsc | terminalParseCSI.

(** [terminalPaneState] with its parser. *)
(* src/cmdman/monitor/terminal_state.go:36-41 terminalPaneState *)
Record terminalPaneState := MkTerm {
  ts_state : parseState;
  ts_csi : list Z;
  decPrivate : gmap Z bool;
  appKeypad : bool;
}.

(* src/cmdman/monitor/terminal_state.go:43-47 newTerminalPaneState *)
Definition newTerminalPaneState : terminalPaneState := MkTerm terminalParseNormal [] ∅ false.

(* src/cmdman/monitor/terminal_state.go:81-89 terminalPaneState.reset *)
Definition reset (s : terminalPaneState) : terminalPaneState :=
  MkTerm terminalParseNormal [] ∅ false.

Definition with_parser (st : parseState) (csi : list Z) (s : terminalPaneState) : terminalPaneState :=
  MkTerm st csi (decPrivate s) (appKeypad s).

(** [bytes.SplitSeq] at semicolons. *)
Fixpoint split_semi (l : list Z) : list (list Z) :=
  match l with
  | [] => [[]]
  | b :: l =>
      if decide (b = 0x3b)%Z then [] :: split_semi l
      else match split_semi l with x :: xs => (b :: x) :: xs | [] => [[b]] end
  end.

(** One parameter of a mode sequence. *)
(* src/cmdman/monitor/terminal_state.go:161-170 terminalStateParser.applyCSI *)
Definition apply_mode (enabled : bool) (modes : gmap Z bool) (raw : list Z) : gmap Z bool :=
  if decide (raw = []) then modes
  else match Atoi (string_of raw) with
       | None => modes
       | Some mode => <[mode := enabled]> modes
       end.

(* src/cmdman/monitor/terminal_state.go:144-171 terminalStateParser.applyCSI *)
Definition applyCSI (s : terminalPaneState) : terminalPaneState :=
  match last (ts_csi s) with
  | None => s
  | Some final =>
      let params := take (length (ts_csi s) - 1) (ts_csi s) in
      if decide (final = 0x70%Z /\ params = [0x21]%Z) then reset s
      else if decide (final <> 0x68%Z /\ final <> 0x6c%Z) then s
      else match params with
           | p :: rest =>
               if decide (p = 0x3f)%Z
               then MkTerm (ts_state s) (ts_csi s)
                      (foldl (apply_mode (bool_decide (final = 0x68%Z))) (decPrivate s)
                         (split_semi rest)) (appKeypad s)
               else s
           | [] => s
           end
  end.

(* src/cmdman/monitor/terminal_state.go:102-142 terminalStateParser.observe *)
Definition observe_byte (s : terminalPaneState) (b : Z) : terminalPaneState :=
  match ts_state s with
  | terminalParseNormal =>
      if decide (b = 0x1b)%Z then with_parser terminalParseEsc (ts_csi s) s else s
  | terminalParseEsc =>
      if decide (b = 0x5b)%Z then with_parser terminalParseCSI [] s
      else if decide (b = 0x3d)%Z then MkTerm terminalParseNormal (ts_csi s) (decPrivate s) true
      else if decide (b = 0x3e)%Z then MkTerm terminalParseNormal (ts_csi s) (decPrivate s) false
      else if decide (b = 0x63)%Z then reset s
      else if decide (b = 0x1b)%Z then s
      else with_parser terminalParseNormal (ts_csi s) s
  | terminalParseCSI =>
      let csi := ts_csi s ++ [b] in
      if decide (128 < length csi) then with_parser terminalParseNormal [] s
      else if decide (0x40 <= b <= 0x7e)%Z
      then with_parser terminalParseNormal [] (applyCSI (with_parser terminalParseCSI csi s))
      else with_parser terminalParseCSI csi s
  end.

(* src/cmdman/monitor/terminal_state.go:49-51 terminalPaneState.Observe *)
Definition Observe (s : terminalPaneState) (p : list Z) : terminalPaneState := foldl observe_byte s p.

Definition enabled (s : terminalPaneState) (mode : Z) : bool :=
  bool_decide (decPrivate s !! mode = Some true).

(** The modes to replay: the map's keys are visited in some order and then sorted. *)
(* src/cmdman/monitor/terminal_state.go:54-60 terminalPaneState.Replay *)
Definition replay_modes (s : terminalPaneState) : list Z :=
  sort_ints (filter (fun mode => enabled s mode = true /\ mode ∈ replayableModes)
               (map_to_list (decPrivate s)).*1).

(** Numbers with semicolons between them. *)
Fixpoint join_modes (l : list Z) : list Z :=
  match l with
  | [] => []
  | [m] => bytes_of (Itoa m)
  | m :: l => bytes_of (Itoa m) ++ 0x3b%Z :: join_modes l
  end.

(** The sequences for given modes. *)
(* src/cmdman/monitor/terminal_state.go:62-78 terminalPaneState.Replay *)
Definition replay_bytes (modes : list Z) (keypad : bool) : list Z :=
  (if decide (modes = []) then [] else [0x1b; 0x5b; 0x3f]%Z ++ join_modes modes ++ [0x68]%Z) ++
  (if keypad then [0x1b; 0x3d]%Z else []).

(* src/cmdman/monitor/terminal_state.go:53-79 terminalPaneState.Replay *)
Definition Replay (s : terminalPaneState) : list Z := replay_bytes (replay_modes s) (appKeypad s).

(** ** The round trip *)

Fixpoint sublists {A} (l : list A) : list (list A) :=
  match l with
  | [] => [[]]
  | x :: l => map (cons x) (sublists l) ++ sublists l
  end.

Lemma filter_sublists {A} (P : A -> Prop) `{forall x, Decision (P x)} l : filter P l ∈ sublists l.
Proof.
  induction l as [|x l IH]; simpl; [by apply list_elem_of_singleton|].
  rewrite elem_of_app, filter_cons. case_decide; [left|by right].
  apply list_elem_of_fmap. eauto.
Qed.

Lemma list_filter_ext_elem {A} (P Q : A -> Prop) `{forall x, Decision (P x)}
    `{forall x, Decision (Q x)} (l : list A) :
  (forall x, x ∈ l -> (P x <-> Q x)) -> filter P l = filter Q l.
Proof.
  induction l as [|x l IH]; intros E; [done|].
  assert (filter P l = filter Q l) as El by (apply IH; intros y Hy; apply E; by right).
  specialize (E x ltac:(by left)). rewrite !filter_cons, El.
  destruct (decide (P x)), (decide (Q x)); tauto || done.
Qed.

(** What a viewer's terminal makes of a replay. *)
Definition replayed (modes : list Z) (keypad : bool) : terminalPaneState :=
  MkTerm terminalParseNormal [] (list_to_map (map (fun m => (m, true)) modes)) keypad.

#[export] Instance terminalPaneState_eq_dec : EqDecision terminalPaneState.
Proof. assert (EqDecision parseState) by solve_decision. solve_decision. Defined.

(** Every selection of the replayable modes, with and without the keypad. *)
Definition replay_check : bool :=
  forallb (fun modes => forallb (fun keypad =>
    bool_decide (Observe newTerminalPaneState (replay_bytes modes keypad) = replayed modes keypad))
    [true; false]) (sublists replayableModes).

Lemma replay_check_ok : replay_check = true.
Proof. vm_compute. reflexivity. Qed.

Lemma Observe_replay_bytes modes keypad :
  modes ∈ sublists replayableModes ->
  Observe newTerminalPaneState (replay_bytes modes keypad) = replayed modes keypad.
Proof.
  intros H. pose proof replay_check_ok as C. unfold replay_check in C.
  rewrite forallb_elem_of in C. specialize (C modes H). rewrite forallb_elem_of in C.
  specialize (C keypad). apply bool_decide_eq_true in C; [done|].
  destruct keypad; [by left|by right; left].
Qed.

Lemma replayableModes_sorted : StronglySorted Z.le replayableModes.
Proof. repeat constructor; lia. Qed.

Lemma replayableModes_NoDup : NoDup replayableModes.
Proof. apply (bool_decide_unpack _). vm_compute. exact I. Qed.

Lemma StronglySorted_filter {A} (R : A -> A -> Prop) (P : A -> Prop) `{forall x, Decision (P x)} l :
  StronglySorted R l -> StronglySorted R (filter P l).
Proof.
  induction 1 as [|x l Hs IH Hx]; [constructor|]. rewrite filter_cons. case_decide; [|done].
  constructor; [done|]. rewrite Forall_forall in *. intros y Hy.
  apply Hx. by apply list_elem_of_filter in Hy as [_ ?].
Qed.

(** Whatever the order the map is visited in, the modes are replayed in ascending order. *)
Lemma replay_modes_filter s :
  replay_modes s = filter (fun mode => enabled s mode = true) replayableModes.
Proof.
  unfold replay_modes. apply (StronglySorted_unique Z.le).
  - apply sort_ints_sorted.
  - apply StronglySorted_filter, replayableModes_sorted.
  - rewrite sort_ints_perm. apply NoDup_Permutation.
    + apply NoDup_filter, NoDup_fst_map_to_list.
    + apply NoDup_filter, replayableModes_NoDup.
    + intros m. rewrite !list_elem_of_filter. split; [tauto|]. intros [He Hm].
      split; [done|]. unfold enabled in He. apply bool_decide_eq_true in He.
      apply list_elem_of_fmap. exists (m, true). split; [done|]. by apply elem_of_map_to_list.
Qed.

Lemma enabled_replayed modes keypad m : enabled (replayed modes keypad) m = bool_decide (m ∈ modes).
Proof.
  unfold enabled. apply bool_decide_ext. simpl. induction modes as [|x modes IH]; simpl.
  - rewrite lookup_empty. split; [done|by intros ?%elem_of_nil].
  - rewrite elem_of_cons. destruct (decide (m = x)) as [->|Hne].
    + rewrite lookup_insert_eq. tauto.
    + rewrite lookup_insert_ne by done. rewrite IH. tauto.
Qed.

(** C18: Replaying rebuilds the modes. After any output, and whatever sequence the output
    broke off in, feeding the replayed bytes to a fresh terminal leaves it between
    sequences, with exactly the replayable modes that were on, no other mode, and
    the same keypad mode; a viewer of that viewer is told the same again. *)
Theorem Replay_roundtrip s :
  let viewer := Observe newTerminalPaneState (Replay s) in
  ts_state viewer = terminalParseNormal /\
  (forall mode, enabled viewer mode = enabled s mode && bool_decide (mode ∈ replayableModes)) /\
  appKeypad viewer = appKeypad s /\ Replay viewer = Replay s.
Proof.
  assert (Observe newTerminalPaneState (Replay s) = replayed (replay_modes s) (appKeypad s)) as ->.
  { apply Observe_replay_bytes. rewrite replay_modes_filter. apply filter_sublists. }
  assert (forall mode, enabled (replayed (replay_modes s) (appKeypad s)) mode =
    enabled s mode && bool_decide (mode ∈ replayableModes)) as He.
  { intros mode. rewrite enabled_replayed, replay_modes_filter.
    destruct (enabled s mode) eqn:E; simpl; apply bool_decide_ext || apply bool_decide_eq_false_2;
      rewrite list_elem_of_filter, E; naive_solver. }
  split; [done|]. split; [done|]. split; [done|]. unfold Replay. f_equal.
  rewrite (replay_modes_filter (replayed _ _)), (replay_modes_filter s) at 1.
  apply list_filter_ext_elem. intros m Hm.
  rewrite He, bool_decide_eq_true_2 by done. by rewrite andb_true_r.
Qed.
