(* ===== verification/RuntimeState.v ===== *)
(** * What a command reports about itself

    [cmdman/monitor/runtime_state.go]: the title, working directory, bell,
    notification and status latched for the current run, with the generation that
    tells a change from a spurious wake; the notification forms of OSC 9 and OSC 777;
    and how those agree with what [hook_filter.go] keeps from a viewer.  Strings are
    byte lists; [net/url] and the clock are arguments. *)

From S2P Require Import Prelude HookFilter GoStr.

(** ** UTF-8, as [unicode/utf8] decodes it *)

Definition cont (b : Z) : bool := bool_decide (0x80 <= b <= 0xbf)%Z.
Definition within (lo hi b : Z) : bool := bool_decide (lo <= b <= hi)%Z.

(** The bytes of the first rune and the rest; [None] for an invalid or empty start. *)
Definition decode_rune (l : list Z) : option (list Z * list Z) :=
  match l with
  | [] => None
  | a :: l =>
      if within 0 0x7f a then Some ([a], l)
      else if within 0xc2 0xdf a then
        match l with b :: l => if cont b then Some ([a; b], l) else None | _ => None end
      else if within 0xe0 0xef a then
        match l with
        | b :: c :: l =>
            if within (if decide (a = 0xe0)%Z then 0xa0 else 0x80)
                 (if decide (a = 0xed)%Z then 0x9f else 0xbf) b && cont c
            then Some ([a; b; c], l) else None
        | _ => None
        end
      else if within 0xf0 0xf4 a then
        match l with
        | b :: c :: d :: l =>
            if within (if decide (a = 0xf0)%Z then 0x90 else 0x80)
                 (if decide (a = 0xf4)%Z then 0x8f else 0xbf) b && cont c && cont d
            then Some ([a; b; c; d], l) else None
        | _ => None
        end
      else None
  end.

(** [utf8.ValidString]. *)
Fixpoint valid_from (fuel : nat) (l : list Z) : bool :=
  match fuel, l with
  | _, [] => true
  | S fuel, _ => match decode_rune l with Some (_, rest) => valid_from fuel rest | None => false end
  | O, _ => false
  end.
Definition ValidString (l : list Z) : bool := valid_from (length l) l.

(** [strings.ToValidUTF8]: one replacement for every run of invalid bytes. *)
Fixpoint toValid (fuel : nat) (repl : list Z) (invalid : bool) (l : list Z) : list Z :=
  match fuel, l with
  | _, [] => []
  | O, _ => []
  | S fuel, _ :: tl =>
      match decode_rune l with
      | Some (r, rest) => r ++ toValid fuel repl false rest
      | None => (if invalid then [] else repl) ++ toValid fuel repl true tl
      end
  end.
Definition ToValidUTF8 (l repl : list Z) : list Z := toValid (length l) repl false l.

(* src/cmdman/monitor/runtime_state.go:184-186 sanitizeTermString *)
Definition sanitizeTermString (s : list Z) : list Z := ToValidUTF8 s [0xef; 0xbf; 0xbd]%Z.

(** ** The latched state *)

(* src/cmdman/monitor/runtime_state.go:17-21 notificationEvent *)
Record notificationEvent := MkNotification { n_Title : list Z; n_Body : list Z; n_At : Z }.

(* src/cmdman/monitor/runtime_state.go:25-32 reportedStatus *)
Inductive reportedStatus :=
| reportedStatusNone | reportedStatusWorking | reportedStatusWaiting | reportedStatusDone.

#[export] Instance reportedStatus_eq_dec : EqDecision reportedStatus.
Proof. solve_decision. Defined.

(** What [snapshot] copies, but the generation. *)
(* src/cmdman/monitor/runtime_state.go:84-93 commandRuntimeState *)
Record latched := MkLatched {
  title : list Z;
  titleSet : bool;
  cwd : list Z;
  cwdSet : bool;
  status : reportedStatus;
  detail : list Z;
  bellUnread : bool;
  notif : option notificationEvent;
}.

(* src/cmdman/monitor/hooks.go:34-38 hookEvent *)
Inductive hookEvent :=
| HookTitle (title : list Z)
| HookBell
| HookNotification (title body : list Z).

(** [wakes] counts the sends on [changes]; [hook_events] are the events handed to
    [dispatchHook]. *)
(* src/cmdman/monitor/runtime_state.go:84-104 commandRuntimeState *)
Record commandRuntimeState := MkRuntime {
  gen : Z;
  vals : latched;
  attached : Z;
  wakes : nat;
  hook_events : list hookEvent;
}.

Definition none_latched : latched := MkLatched [] false [] false reportedStatusNone [] false None.

(* src/cmdman/monitor/runtime_state.go:106-108 newCommandRuntimeState *)
Definition newCommandRuntimeState : commandRuntimeState := MkRuntime 0 none_latched 0 0 [].

(* src/cmdman/monitor/runtime_state.go:116-121 commandRuntimeState.emitHook *)
Definition emitHook (ev : hookEvent) (s : commandRuntimeState) : commandRuntimeState :=
  MkRuntime (gen s) (vals s) (attached s) (wakes s) (hook_events s ++ [ev]).

(** [fn] gives the new fields and whether they count as a change. *)
(* src/cmdman/monitor/runtime_state.go:381-392 commandRuntimeState.mutate *)
Definition mutate (fn : latched -> Z -> latched * Z * bool) (s : commandRuntimeState)
    : commandRuntimeState * bool :=
  let '(v, n, changed) := fn (vals s) (attached s) in
  (MkRuntime (if changed then (gen s + 1) mod 2 ^ 64 else gen s)%Z v n
     (if changed then S (wakes s) else wakes s) (hook_events s), changed).

Definition mutate_ (fn : latched -> Z -> latched * Z * bool) (s : commandRuntimeState)
    : commandRuntimeState := (mutate fn s).1.

(* src/cmdman/monitor/runtime_state.go:192-205 commandRuntimeState.latchTitle *)
Definition latchTitle (t : list Z) (s : commandRuntimeState) : commandRuntimeState :=
  let t := sanitizeTermString t in
  let '(s, changed) := mutate (fun v n =>
    if titleSet v && bool_decide (title v = t) then (v, n, false)
    else (MkLatched t true (cwd v) (cwdSet v) (status v) (detail v) (bellUnread v) (notif v), n, true)) s in
  if changed then emitHook (HookTitle t) s else s.

(* src/cmdman/monitor/runtime_state.go:216-226 commandRuntimeState.latchCwd *)
Definition latchCwd (payload : list Z) : commandRuntimeState -> commandRuntimeState :=
  let p := sanitizeTermString payload in
  mutate_ (fun v n =>
    if cwdSet v && bool_decide (cwd v = p) then (v, n, false)
    else (MkLatched (title v) (titleSet v) p true (status v) (detail v) (bellUnread v) (notif v), n, true)).

(** [cwdURL] prints a [file] URL of the directory. *)
(* src/cmdman/monitor/runtime_state.go:234-239 commandRuntimeState.seedCwd *)
Definition seedCwd (cwdURL : list Z -> list Z) (dir : list Z) (s : commandRuntimeState)
    : commandRuntimeState :=
  if decide (dir = []) then s else latchCwd (cwdURL dir) s.

(* src/cmdman/monitor/runtime_state.go:290-299 commandRuntimeState.latchBell *)
Definition latchBell (s : commandRuntimeState) : commandRuntimeState :=
  emitHook HookBell (mutate_ (fun v n =>
    if bellUnread v then (v, n, false)
    else (MkLatched (title v) (titleSet v) (cwd v) (cwdSet v) (status v) (detail v) true (notif v), n, true)) s).

(* src/cmdman/monitor/runtime_state.go:303-311 commandRuntimeState.latchNotification *)
Definition latchNotification (now : Z) (t body : list Z) (s : commandRuntimeState) : commandRuntimeState :=
  let t := sanitizeTermString t in
  let body := sanitizeTermString body in
  emitHook (HookNotification t body) (mutate_ (fun v n =>
    (MkLatched (title v) (titleSet v) (cwd v) (cwdSet v) (status v) (detail v) (bellUnread v)
       (Some (MkNotification t body now)), n, true)) s).

(* src/cmdman/monitor/runtime_state.go:317-323 commandRuntimeState.clearBellLocked *)
Definition clearBellLocked (v : latched) : latched * bool :=
  if bellUnread v
  then (MkLatched (title v) (titleSet v) (cwd v) (cwdSet v) (status v) (detail v) false (notif v), true)
  else (v, false).

(* src/cmdman/monitor/runtime_state.go:329-334 commandRuntimeState.attachBegin *)
Definition attachBegin : commandRuntimeState -> commandRuntimeState :=
  mutate_ (fun v n => let '(v, c) := clearBellLocked v in (v, n + 1, c))%Z.

(* src/cmdman/monitor/runtime_state.go:336-343 commandRuntimeState.attachEnd *)
Definition attachEnd : commandRuntimeState -> commandRuntimeState :=
  mutate_ (fun v n => (v, if decide (0 < n) then n - 1 else n, false))%Z.

(* src/cmdman/monitor/runtime_state.go:347-355 commandRuntimeState.setReport *)
Definition setReport (st : reportedStatus) (d : list Z) : commandRuntimeState -> commandRuntimeState :=
  mutate_ (fun v n =>
    if bool_decide (status v = st) && bool_decide (detail v = d) then (v, n, false)
    else (MkLatched (title v) (titleSet v) (cwd v) (cwdSet v) st d (bellUnread v) (notif v), n, true)).

(* src/cmdman/monitor/runtime_state.go:358-360 commandRuntimeState.clearReport *)
Definition clearReport : commandRuntimeState -> commandRuntimeState := setReport reportedStatusNone [].

(* src/cmdman/monitor/runtime_state.go:365-376 commandRuntimeState.reset *)
Definition reset : commandRuntimeState -> commandRuntimeState :=
  mutate_ (fun v n =>
    if negb (titleSet v) && negb (cwdSet v) && bool_decide (status v = reportedStatusNone) &&
       bool_decide (detail v = []) && negb (bellUnread v) && negb (bool_decide (is_Some (notif v)))
    then (v, n, false) else (none_latched, n, true)).

(** ** Notifications *)

(* src/cmdman/monitor/runtime_state.go:397-406 parseOsc9Notification *)
Definition parseOsc9Notification (data : list Z) : option (list Z) :=
  match data with
  | a :: b :: (c :: tl) as rest =>
      if bool_decide (a = 0x39)%Z && bool_decide (b = 0x3b)%Z then
        if bool_decide (c = 0x34)%Z &&
           (bool_decide (tl = []) || bool_decide (head tl = Some 0x3b%Z))
        then None else Some (c :: tl)
      else None
  | _ => None
  end.

(** [bytes.SplitN] at semicolons into at most [n + 1] parts. *)
Fixpoint splitN_semi (n : nat) (l : list Z) : list (list Z) :=
  match n with
  | O => [l]
  | S n => let '(x, y, found) := cut_semi l in if found : bool then x :: splitN_semi n y else [l]
  end.

(* src/cmdman/monitor/runtime_state.go:411-420 parseOsc777Notification *)
Definition parseOsc777Notification (data : list Z) : option (list Z * list Z) :=
  match splitN_semi 3 data with
  | [_; sub; t] => if decide (sub = notify) then Some (t, []) else None
  | [_; sub; t; body] => if decide (sub = notify) then Some (t, body) else None
  | _ => None
  end.

(** The number the emulator dispatches an OSC string on.  Its [int] wraps, and one
    value stands for a number not seen yet. *)
(* src/internal/third_party/charmbracelet-x-ansi/parser/seq.go:10-12 MissingCommand *)
Definition MissingCommand : Z := 2147483647.
(* src/internal/third_party/charmbracelet-x-ansi/parser.go:279-296 Parser.parseStringCmd *)
Fixpoint parseStringCmd (cmd : Z) (l : list Z) : Z :=
  match l with
  | d :: l =>
      if decide (0x30 <= d <= 0x39)%Z
      then parseStringCmd
             (wrap64 (wrap64 ((if decide (cmd = MissingCommand) then 0 else cmd) * 10) + (d - 0x30)))%Z l
      else cmd
  | [] => cmd
  end.

(** The OSC strings that [observe] registers for, as events on the state. *)
(* src/cmdman/monitor/runtime_state.go:130-148 commandRuntimeState.observe *)
Definition observe_osc (now : Z) (data : list Z) (s : commandRuntimeState) : commandRuntimeState :=
  let cmd := parseStringCmd MissingCommand data in
  if decide (cmd = 9)%Z then
    match parseOsc9Notification data with
    | Some body => latchNotification now [] body s
    | None => s
    end
  else if decide (cmd = 777)%Z then
    match parseOsc777Notification data with
    | Some (t, body) => latchNotification now t body s
    | None => s
    end
  else s.

(** ** The state between operations *)

(** Every operation on the state. *)
Inductive op :=
| OTitle (t : list Z) | OCwd (p : list Z) | OSeed (url : list Z -> list Z) (dir : list Z)
| OBell | OOsc (now : Z) (data : list Z) | OBegin | OEnd
| OReport (st : reportedStatus) (d : list Z) | OClear | OReset.

Definition perform (o : op) : commandRuntimeState -> commandRuntimeState :=
  match o with
  | OTitle t => latchTitle t
  | OCwd p => latchCwd p
  | OSeed url dir => seedCwd url dir
  | OBell => latchBell
  | OOsc now data => observe_osc now data
  | OBegin => attachBegin
  | OEnd => attachEnd
  | OReport st d => setReport st d
  | OClear => clearReport
  | OReset => reset
  end.

(** The state of a command after some operations. *)
Definition performed (ops : list op) : commandRuntimeState :=
  foldl (fun s o => perform o s) newCommandRuntimeState ops.

Lemma decode_rune_app l r rest x :
  decode_rune l = Some (r, rest) -> l = r ++ rest /\ decode_rune (r ++ x) = Some (r, x) /\ r <> [].
Proof.
  unfold decode_rune. intros H.
  repeat (case_match; simplify_eq/=; try done); split_and!; try done; simpl;
    repeat match goal with E : _ = true |- _ => rewrite E; clear E
                         | E : within _ _ _ = false |- _ => rewrite E; clear E end; try done.
Qed.

(** Byte strings that are valid UTF-8. *)
Inductive utf8_ok : list Z -> Prop :=
| utf8_nil : utf8_ok []
| utf8_rune l r rest : decode_rune l = Some (r, rest) -> utf8_ok rest -> utf8_ok l.

Lemma utf8_ok_app a b : utf8_ok a -> utf8_ok b -> utf8_ok (a ++ b).
Proof.
  intros Ha Hb. induction Ha as [|l r rest Hl Hr IH]; [done|].
  destruct (decode_rune_app l r rest (rest ++ b) Hl) as (-> & H & _).
  rewrite <- app_assoc. by eapply utf8_rune.
Qed.

Lemma valid_from_spec fuel l : length l <= fuel -> valid_from fuel l = true <-> utf8_ok l.
Proof.
  revert l. induction fuel as [|fuel IH]; intros [|b l] Hl; simpl in Hl; try lia.
  1, 2: split; [constructor|done].
  cbn [valid_from]. destruct (decode_rune (b :: l)) as [[r rest]|] eqn:E.
  - destruct (decode_rune_app _ _ _ [] E) as (El & _ & Hr).
    assert (length rest <= fuel).
    { apply (f_equal length) in El. rewrite length_app in El. simpl in El.
      destruct r; [done|]. simpl in El. lia. }
    rewrite IH by done. split; [by intros; eapply utf8_rune|].
    inversion 1; simplify_eq. done.
  - split; [done|]. inversion 1; simplify_eq.
Qed.

Lemma ValidString_spec l : ValidString l = true <-> utf8_ok l.
Proof. by apply valid_from_spec. Qed.

Lemma toValid_ok fuel repl invalid l :
  utf8_ok repl -> length l <= fuel -> utf8_ok (toValid fuel repl invalid l).
Proof.
  intros Hr. revert invalid l. induction fuel as [|fuel IH]; intros invalid [|b l] Hl; simpl in Hl.
  all: try constructor; try lia.
  cbn [toValid]. destruct (decode_rune (b :: l)) as [[r rest]|] eqn:E.
  - destruct (decode_rune_app _ _ _ (toValid fuel repl false rest) E) as (El & H & Hn).
    eapply utf8_rune; [exact H|]. apply IH. apply (f_equal length) in El.
    rewrite length_app in El. simpl in El. destruct r; [done|]. simpl in El. lia.
  - apply utf8_ok_app; [destruct invalid; [constructor|done]|]. apply IH. lia.
Qed.

Lemma sanitize_ok s : utf8_ok (sanitizeTermString s).
Proof. apply toValid_ok; [by apply ValidString_spec|done]. Qed.

(** A valid string is left alone. *)
Lemma toValid_id fuel repl invalid l : utf8_ok l -> length l <= fuel -> toValid fuel repl invalid l = l.
Proof.
  intros H. revert fuel invalid. induction H as [|l r rest Hl Hr IH]; intros fuel invalid Hf.
  { by destruct fuel. }
  destruct (decode_rune_app _ _ _ [] Hl) as (El & _ & Hn). apply (f_equal length) in El as Hlen.
  rewrite length_app in Hlen. destruct l as [|b l]; [by destruct r|]. destruct fuel as [|fuel]; [simpl in Hf; lia|].
  cbn [toValid]. rewrite Hl, IH, El; [done|]. destruct r; [done|]. simpl in *. lia.
Qed.

Lemma sanitize_id s : utf8_ok s -> sanitizeTermString s = s.
Proof. intros. by apply toValid_id. Qed.

Record vals_ok (v : latched) : Prop := {
  vo_title : utf8_ok (title v);
  vo_cwd : utf8_ok (cwd v);
  vo_notif : forall n, notif v = Some n -> utf8_ok (n_Title n) /\ utf8_ok (n_Body n);
  vo_title_set : titleSet v = false -> title v = [];
  vo_cwd_set : cwdSet v = false -> cwd v = [];
}.

(** What one operation does: nothing a reader can see, or a new generation and a wake. *)
Definition moves (s s' : commandRuntimeState) : Prop :=
  (vals s' = vals s /\ gen s' = gen s /\ wakes s' = wakes s) \/
  (gen s' = (gen s + 1) mod 2 ^ 64 /\ wakes s' = S (wakes s))%Z.

Lemma none_latched_ok : vals_ok none_latched.
Proof. constructor; simpl; try done; constructor. Qed.

Lemma perform_ok o s : vals_ok (vals s) -> vals_ok (vals (perform o s)) /\ moves s (perform o s).
Proof.
  intros [Ht Hc Hn Hts Hcs]. unfold moves.
  destruct o; simpl; unfold seedCwd, observe_osc, latchTitle, latchBell, latchNotification, latchCwd,
    attachBegin, attachEnd, clearReport, setReport, reset, mutate_, mutate, clearBellLocked;
    repeat case_match; simplify_eq/=.
  all: split; [|first [by left|by right]].
  all: first [by constructor|exact none_latched_ok|constructor; simpl; try done; try apply sanitize_ok].
  all: intros ? [= <-]; split; apply sanitize_ok.
Qed.

Lemma performed_ok ops : vals_ok (vals (performed ops)).
Proof.
  induction ops as [|o ops IH] using rev_ind; [exact none_latched_ok|].
  unfold performed. rewrite foldl_app. by apply perform_ok.
Qed.

(** What a command reports stays sound. After any operations on its state, its
    title, directory and notification are valid UTF-8 whatever bytes the command
    wrote; a reset leaves nothing of the run; and any operation either changes nothing
    a reader can see or moves the generation and sends one wake. *)
Theorem runtime_state_sound ops :
  let s := performed ops in
  ValidString (title (vals s)) = true /\ ValidString (cwd (vals s)) = true /\
  (forall n, notif (vals s) = Some n ->
     ValidString (n_Title n) = true /\ ValidString (n_Body n) = true) /\
  vals (reset s) = none_latched /\
  (forall o, moves s (perform o s)).
Proof.
  intros s. pose proof (performed_ok ops) as H. fold s in H. setoid_rewrite ValidString_spec.
  split; [apply H|]. split; [apply H|]. split; [apply H|]. split; [|by intros o; apply perform_ok].
  destruct H as [_ _ _ Hts Hcs]. unfold reset, mutate_, mutate. simpl.
  destruct (_ && _) eqn:E; [simpl|done]. split_hyps.
  destruct (vals s) as [? ? ? ? ? ? ? [n|]]; simpl in *; subst.
  - destruct H0. by eexists.
  - rewrite Hts, Hcs by done. done.
Qed.

(** ** What is captured and what is kept from a viewer *)

(** A number without leading zeros, short enough not to wrap. *)
Definition canonical (num : list Z) : Prop :=
  Forall (fun d => 0x30 <= d <= 0x39)%Z num /\ length num <= 9 /\
  (1 < length num -> head num <> Some 0x30%Z).

(** The value of digits read after [acc]. *)
Definition digits_value (acc : Z) (l : list Z) : Z := foldl (fun a d => a * 10 + (d - 0x30))%Z acc l.

Lemma digits_value_bounds acc l :
  Forall (fun d => 0x30 <= d <= 0x39)%Z l -> (0 <= acc)%Z ->
  (acc * 10 ^ Z.of_nat (length l) <= digits_value acc l < (acc + 1) * 10 ^ Z.of_nat (length l))%Z.
Proof.
  unfold digits_value. intros F. revert acc. induction F as [|d l Hd F IH]; intros acc Ha.
  { simpl. lia. }
  cbn [foldl length]. specialize (IH (acc * 10 + (d - 0x30))%Z ltac:(lia)).
  rewrite Nat2Z.inj_succ, Z.pow_succ_r by lia. nia.
Qed.

(** Digits, then something else or the end. *)
Lemma parseStringCmd_digits acc l tl :
  Forall (fun d => 0x30 <= d <= 0x39)%Z l -> (forall d, head tl = Some d -> ~ (0x30 <= d <= 0x39)%Z) ->
  (0 <= acc)%Z -> ((acc + 1) * 10 ^ Z.of_nat (length l) <= 1000000000)%Z ->
  parseStringCmd acc (l ++ tl) = digits_value acc l.
Proof.
  intros F Ht. revert acc. induction F as [|d l Hd F IH]; intros acc Ha Hb.
  { simpl. destruct tl as [|d tl]; [done|]. simpl. rewrite decide_False by (by apply Ht). done. }
  cbn [length] in Hb. rewrite Nat2Z.inj_succ, Z.pow_succ_r in Hb by lia.
  assert (0 < 10 ^ Z.of_nat (length l))%Z by (apply Z.pow_pos_nonneg; lia).
  assert (acc < 100000000)%Z by nia.
  cbn [app parseStringCmd]. rewrite decide_True by done.
  rewrite decide_False by (unfold MissingCommand; lia).
  rewrite (wrap64_id (acc * 10)), wrap64_id by (unfold in_int64, int64_min, int64_max; lia). apply IH; [lia|nia].
Qed.

Lemma parseStringCmd_number num tl :
  canonical num -> num <> [] -> (forall d, head tl = Some d -> ~ (0x30 <= d <= 0x39)%Z) ->
  parseStringCmd MissingCommand (num ++ tl) = digits_value 0 num.
Proof.
  intros (F & Hl & _) Hn Ht. destruct num as [|d num]; [done|]. inversion F as [|? ? Hd F']; subst.
  cbn [app parseStringCmd]. rewrite decide_True by done. rewrite decide_True by done.
  rewrite (wrap64_id (0 * 10)), wrap64_id by (unfold in_int64, int64_min, int64_max; lia).
  rewrite parseStringCmd_digits; try done; [lia|]. cbn [length] in Hl.
  assert (10 ^ Z.of_nat (length num) <= 10 ^ 8)%Z by (apply Z.pow_le_mono_r; lia). nia.
Qed.

(** Numbers are read back uniquely. *)
Lemma canonical_value num n :
  canonical num -> num <> [] -> digits_value 0 num = n -> (n < 1000)%Z ->
  length num <= 3.
Proof.
  intros (F & Hl & Hz) Hn Hv Hs. destruct num as [|d num]; [done|]. inversion F as [|? ? Hd F']; subst.
  destruct (decide (length (d :: num) <= 3)) as [|Hlong]; [done|exfalso].
  cbn [length] in *. assert (d <> 0x30)%Z by (intros ->; by apply Hz; [lia|]).
  unfold digits_value in Hs. cbn [foldl] in Hs.
  pose proof (digits_value_bounds (0 * 10 + (d - 0x30)) num F' ltac:(lia)) as [Hb _].
  unfold digits_value in Hb.
  assert (10 ^ 3 <= 10 ^ Z.of_nat (length num))%Z by (apply Z.pow_le_mono_r; lia). nia.
Qed.

Lemma canonical_9 num : canonical num -> num <> [] -> digits_value 0 num = 9%Z <-> num = [0x39]%Z.
Proof.
  intros C Hn. split; [|by intros ->]. intros Hv.
  pose proof (canonical_value num 9 C Hn Hv ltac:(lia)) as Hl. destruct C as (F & _ & Hz).
  destruct num as [|a [|b [|c [|]]]]; simpl in Hl; try lia; try done;
    unfold digits_value in Hv; cbn [foldl] in Hv; rewrite ?Forall_cons in F; split_hyps.
  - f_equal. lia.
  - simpl in Hz. assert (a <> 0x30)%Z by (intros ->; by apply Hz; [lia|]). lia.
  - simpl in Hz. assert (a <> 0x30)%Z by (intros ->; by apply Hz; [lia|]). lia.
Qed.

Lemma canonical_777 num :
  canonical num -> num <> [] -> digits_value 0 num = 777%Z <-> num = [0x37; 0x37; 0x37]%Z.
Proof.
  intros C Hn. split; [|by intros ->]. intros Hv.
  pose proof (canonical_value num 777 C Hn Hv ltac:(lia)) as Hl. destruct C as (F & _ & Hz).
  destruct num as [|a [|b [|c [|]]]]; simpl in Hl; try lia; try done;
    unfold digits_value in Hv; cbn [foldl] in Hv; rewrite ?Forall_cons in F; split_hyps;
    [lia..|]. assert (a = 0x37 /\ b = 0x37 /\ c = 0x37)%Z as (-> & -> & ->) by lia. done.
Qed.

(** Whether an OSC string makes the monitor record a notification and run its hook. *)
Definition captured (body : list Z) : bool :=
  match hook_events (observe_osc 0 body newCommandRuntimeState) with [] => false | _ => true end.

Definition osc_number (body : list Z) : list Z := (cut_semi body).1.1.

Lemma captured_cmd body :
  captured body =
  if decide (parseStringCmd MissingCommand body = 9%Z) then bool_decide (is_Some (parseOsc9Notification body))
  else if decide (parseStringCmd MissingCommand body = 777%Z)
  then bool_decide (is_Some (parseOsc777Notification body)) else false.
Proof.
  unfold captured, observe_osc. repeat case_decide; try done.
  - by destruct (parseOsc9Notification body).
  - by destruct (parseOsc777Notification body) as [[]|].
Qed.

Lemma parse9_hooked rest :
  bool_decide (is_Some (parseOsc9Notification (0x39 :: 0x3b :: rest)%Z)) =
  negb (bool_decide (rest = [] \/ rest = [0x34]%Z \/ [0x34; 0x3b]%Z `prefix_of` rest)).
Proof.
  rewrite <- bool_decide_not. apply bool_decide_ext. destruct rest as [|c tl]; cbn [parseOsc9Notification].
  { split; [by intros []|]. intros H. destruct H. by left. }
  rewrite !bool_decide_eq_true_2 by done. cbn [andb]. split.
  - intros [x Hx] [?|[[= -> ->]|[k [= -> ->]]]]; done.
  - intros H. destruct (_ && _) eqn:E; [|by eexists]. destruct H. split_hyps. subst c. right.
    apply orb_true_iff in H0 as [H|H]; split_hyps; [subst; by left|right].
    destruct tl as [|d tl]; [done|]. injection H as ->. by exists tl.
Qed.

Lemma parse777_hooked rest :
  bool_decide (is_Some (parseOsc777Notification ([0x37; 0x37; 0x37; 0x3b]%Z ++ rest))) =
  bool_decide (notify ++ [0x3b]%Z `prefix_of` rest).
Proof.
  apply bool_decide_ext. unfold parseOsc777Notification.
  change (splitN_semi 3 ([0x37; 0x37; 0x37; 0x3b]%Z ++ rest))
    with ([0x37; 0x37; 0x37]%Z :: splitN_semi 2 rest).
  cbn [splitN_semi]. destruct (cut_semi rest) as [[sub y] found] eqn:E. split.
  - destruct found; [|by intros []]. apply cut_semi_found in E as [-> _].
    intros H. assert (sub = notify) as ->; [|by exists y; rewrite <- app_assoc].
    destruct (cut_semi y) as [[t body] []]; case_decide; done || by destruct H.
  - intros [k ->]. rewrite <- app_assoc in E. cbn [app] in E.
    rewrite cut_semi_app in E by (by apply (bool_decide_unpack _); vm_compute).
    injection E as <- <- <-. cbn [app]. destruct (cut_semi k) as [[t body] []];
      rewrite decide_True by done; by eexists.
Qed.

(** What is captured is what is blocked. For an OSC string whose number is written
    the ordinary way, the filter of a viewer keeps it back exactly if notifications are
    blocked and the monitor records it as a notification and runs its hook: a blocked
    notification is not lost, and nothing that is only passed on is. *)
Theorem blocked_iff_captured blocks body :
  canonical (osc_number body) -> Title blocks = false ->
  decideOsc blocks body true = (Notification blocks && captured body, true).
Proof.
  intros C HT. rewrite decideOsc_whole, captured_cmd. f_equal. unfold hooked.
  unfold osc_number in C. destruct (cut_semi body) as [[num rest] hasSep] eqn:E. simpl in C.
  assert (exists tl, body = num ++ tl /\ tl = if hasSep : bool then (0x3b :: rest)%Z else []) as (tl & -> & Htl).
  { destruct hasSep; [apply cut_semi_found in E as [-> _]; eauto|].
    apply cut_semi_none in E as (-> & _ & _). exists []. by rewrite app_nil_r. }
  assert (forall d, head tl = Some d -> ~ (0x30 <= d <= 0x39)%Z) as Hh.
  { subst tl. destruct hasSep; intros d [= <-]; lia. }
  destruct (decide (num = [])) as [->|Hn].
  { replace (parseStringCmd MissingCommand ([] ++ tl)) with MissingCommand
      by (subst tl; by destruct hasSep). by destruct hasSep, (Notification blocks). }
  rewrite (parseStringCmd_number num tl C Hn Hh), HT.
  pose proof (canonical_9 num C Hn) as H9. pose proof (canonical_777 num C Hn) as H7.
  destruct (decide (digits_value 0 num = 9%Z)) as [D9|D9].
  - apply H9 in D9 as ->. subst tl. destruct hasSep; [|by destruct (Notification blocks)].
    cbn [app]. rewrite parse9_hooked. by rewrite decide_False by (by intros [|]).
  - assert (num <> [0x39]%Z) by tauto.
    destruct (decide (digits_value 0 num = 777%Z)) as [D7|D7].
    + apply H7 in D7 as ->. subst tl. destruct hasSep; [|by destruct (Notification blocks)].
      change ([0x37; 0x37; 0x37]%Z ++ (0x3b :: rest)%Z) with ([0x37; 0x37; 0x37; 0x3b]%Z ++ rest).
      rewrite parse777_hooked. by rewrite decide_False by (by intros [|]).
    + assert (num <> [0x37; 0x37; 0x37]%Z) by tauto.
      rewrite andb_false_r. destruct hasSep; [simpl|done].
      destruct (decide (num = [0x30]%Z \/ num = [0x32]%Z)); [done|].
      by rewrite !decide_False by done.
Qed.

(** ["9;done"] and ["777;notify;build;done"], and the latter with a zero before the number. *)
Definition demo_osc9 : list Z := [0x39; 0x3b; 0x64; 0x6f; 0x6e; 0x65]%Z.
Definition demo_osc777 : list Z :=
  ([0x37; 0x37; 0x37; 0x3b] ++ notify ++ [0x3b; 0x62; 0x75; 0x69; 0x6c; 0x64; 0x3b; 0x64; 0x6f; 0x6e; 0x65])%Z.
Definition demo_zero : list Z := 0x30%Z :: demo_osc777.
Definition demo_notification_blocks : hookBlocks :=
  {| Bell := false; Title := false; Notification := true |}.

Lemma blocked_iff_captured_witness :
  decideOsc demo_notification_blocks demo_osc777 true = (true, true) /\
  decideOsc demo_notification_blocks demo_osc777 true = (true && captured demo_osc777, true).
Proof.
  split; [by vm_compute|]. apply (blocked_iff_captured demo_notification_blocks demo_osc777).
  - unfold canonical. split_and!; [repeat constructor; lia|vm_compute; lia|by vm_compute].
  - done.
Defined.

(** A zero before the number slips through. The emulator reads the number of an OSC
    string as an integer, the filter compares it as text: the notification
    [OSC 0777;notify;build;done] is recorded and runs its hook, and reaches a viewer
    that notifications are blocked for. *)
Theorem zero_prefixed_notification_leaks :
  captured demo_zero = true /\
  (hook_filter (newHookFilter demo_notification_blocks) ([0x1b; 0x5d] ++ demo_zero ++ [0x07])%Z).2 =
    ([0x1b; 0x5d] ++ demo_zero ++ [0x07])%Z.
Proof. by vm_compute. Qed.
