(* ===== verification/Broadcaster.v ===== *)
(** * The broadcaster

    [cmdman/monitor/broadcaster.go]: one producer, any number of subscribers, each
    with a buffered channel.  A channel is known by the id of its subscriber.  Sending
    on a closed channel and closing one twice are panics: the operations are partial,
    [None] is a panic. *)

From S2P Require Import Prelude.

(** The room of a subscriber's channel. *)
(* src/cmdman/monitor/broadcaster.go:26-26 broadcaster.Subscribe *)
Definition room : nat := 64.

Section Broadcaster.
Context {T : Type}.

(** A channel with its history, which the code does not keep: what was offered while
    the subscriber was subscribed, what it has received, and how many were dropped. *)
Record chan := MkChan {
  ch_buf : list T;
  ch_closed : bool;
  ch_offered : list T;
  ch_got : list T;
  ch_drops : nat;
}.

(* src/cmdman/monitor/broadcaster.go:5-11 broadcaster *)
Record broadcaster := MkBroadcaster {
  subscribers : gset nat;
  nextID : nat;
  closed : bool;
  chans : gmap nat chan;
}.

(* src/cmdman/monitor/broadcaster.go:13-17 newBroadcaster *)
Definition newBroadcaster : broadcaster := MkBroadcaster ∅ 0 false ∅.

Definition close_chan (c : chan) : option chan :=
  if ch_closed c then None
  else Some (MkChan (ch_buf c) true (ch_offered c) (ch_got c) (ch_drops c)).

(** The non-blocking send: dropped when the channel is full. *)
(* src/cmdman/monitor/broadcaster.go:52-58 broadcaster.Send *)
Definition offer (x : T) (c : chan) : option chan :=
  if ch_closed c then None
  else Some (if decide (length (ch_buf c) < room)
             then MkChan (ch_buf c ++ [x]) false (ch_offered c ++ [x]) (ch_got c) (ch_drops c)
             else MkChan (ch_buf c) false (ch_offered c ++ [x]) (ch_got c) (S (ch_drops c))).

(** Applies a partial operation to the channel of every subscriber. *)
Definition for_subscribers (op : chan -> option chan) (f : broadcaster)
    : option (gmap nat chan) :=
  if decide (map_Forall (fun id c => id ∈ subscribers f -> is_Some (op c)) (chans f))
  then Some (map_imap (fun id c => if decide (id ∈ subscribers f) then op c else Some c) (chans f))
  else None.

(* src/cmdman/monitor/broadcaster.go:19-42 broadcaster.Subscribe *)
Definition Subscribe (f : broadcaster) : nat * broadcaster :=
  let id := nextID f in
  if closed f
  then (id, MkBroadcaster (subscribers f) (S id) true
              (<[id := MkChan [] true [] [] 0]> (chans f)))
  else (id, MkBroadcaster ({[id]} ∪ subscribers f) (S id) false
              (<[id := MkChan [] false [] [] 0]> (chans f))).

(** The function [Subscribe] returns. *)
(* src/cmdman/monitor/broadcaster.go:33-41 broadcaster.Subscribe *)
Definition unsubscribe (id : nat) (f : broadcaster) : option broadcaster :=
  if decide (id ∈ subscribers f) then
    c ← chans f !! id;
    c ← close_chan c;
    Some (MkBroadcaster (subscribers f ∖ {[id]}) (nextID f) (closed f) (<[id := c]> (chans f)))
  else Some f.

(* src/cmdman/monitor/broadcaster.go:44-59 broadcaster.Send *)
Definition Send (x : T) (f : broadcaster) : option broadcaster :=
  if closed f then Some f
  else cs ← for_subscribers (offer x) f;
       Some (MkBroadcaster (subscribers f) (nextID f) false cs).

(* src/cmdman/monitor/broadcaster.go:61-72 broadcaster.Close *)
Definition Close (f : broadcaster) : option broadcaster :=
  if closed f then Some f
  else cs ← for_subscribers close_chan f;
       Some (MkBroadcaster ∅ (nextID f) true cs).

(** A receive that does not wait: nothing happens on an empty channel. *)
Definition receive (id : nat) (f : broadcaster) : broadcaster :=
  MkBroadcaster (subscribers f) (nextID f) (closed f)
    (alter (fun c => match ch_buf c with
                     | x :: buf => MkChan buf (ch_closed c) (ch_offered c) (ch_got c ++ [x]) (ch_drops c)
                     | [] => c end) id (chans f)).

(** ** Invariants *)

(** What a subscriber holds and has received is what it was offered, less what was
    dropped while its channel was full. *)
Record chan_ok (c : chan) : Prop := {
  co_room : length (ch_buf c) <= room;
  co_sub : ch_got c ++ ch_buf c `sublist_of` ch_offered c;
  co_all : ch_drops c = 0 -> ch_got c ++ ch_buf c = ch_offered c;
}.

Record broadcaster_ok (f : broadcaster) : Prop := {
  bo_chans : map_Forall (fun _ => chan_ok) (chans f);
  bo_open : forall id, id ∈ subscribers f -> exists c, chans f !! id = Some c /\ ch_closed c = false;
  bo_closed : closed f = true -> subscribers f = ∅;
  bo_fresh : forall id, id ∈ subscribers f -> id < nextID f;
}.

Lemma newBroadcaster_ok : broadcaster_ok newBroadcaster.
Proof. constructor; simpl; try done; set_solver. Qed.

Lemma close_chan_ok c c' : close_chan c = Some c' -> chan_ok c -> chan_ok c'.
Proof. unfold close_chan. destruct (ch_closed c); [done|]. intros [= <-] []. by constructor. Qed.

Lemma offer_ok x c c' : offer x c = Some c' -> chan_ok c -> chan_ok c'.
Proof.
  unfold offer. destruct (ch_closed c); [done|]. intros [= <-] [Hr Hs Ha].
  case_decide; constructor; simpl; try done; try lia.
  - rewrite length_app. simpl. lia.
  - rewrite app_assoc. by apply sublist_app.
  - intros Hd. by rewrite app_assoc, Ha.
  - by apply sublist_inserts_r.
Qed.

Lemma for_subscribers_ok op f cs :
  (forall c c', op c = Some c' -> chan_ok c -> chan_ok c') ->
  for_subscribers op f = Some cs -> map_Forall (fun _ => chan_ok) (chans f) ->
  map_Forall (fun _ => chan_ok) cs.
Proof.
  unfold for_subscribers. intros Hop H HF. case_decide; [|done]. injection H as <-.
  intros id c. rewrite map_lookup_imap. intros (c0 & Hc0 & Hc)%bind_Some.
  specialize (HF id c0 Hc0). case_decide; [by eapply Hop|by simplify_eq].
Qed.

Lemma for_subscribers_some op f :
  (forall c, ch_closed c = false -> is_Some (op c)) -> broadcaster_ok f ->
  exists cs, for_subscribers op f = Some cs /\
    (forall id, id ∈ subscribers f -> exists c c', chans f !! id = Some c /\
       op c = Some c' /\ cs !! id = Some c') /\
    (forall id, id ∉ subscribers f -> cs !! id = chans f !! id).
Proof.
  intros Hop [_ Ho _ _]. unfold for_subscribers. rewrite decide_True.
  - eexists. split; [done|]. split; intros id Hid.
    + destruct (Ho id Hid) as (c & Hc & Hcl). destruct (Hop c Hcl) as [c' Hc'].
      exists c, c'. rewrite map_lookup_imap, Hc. simpl. by rewrite decide_True.
    + rewrite map_lookup_imap. destruct (chans f !! id); simpl; [by rewrite decide_False|done].
  - intros id c Hc Hid. destruct (Ho id Hid) as (c' & Hc' & Hcl). simplify_eq. auto.
Qed.

Lemma offer_open x c : ch_closed c = false -> is_Some (offer x c).
Proof. unfold offer. intros ->. by eexists. Qed.
Lemma close_open c : ch_closed c = false -> is_Some (close_chan c).
Proof. unfold close_chan. intros ->. by eexists. Qed.

Lemma Subscribe_ok f id f' : Subscribe f = (id, f') -> broadcaster_ok f -> broadcaster_ok f'.
Proof.
  unfold Subscribe. intros H [Hc Ho Hcl Hf]. destruct (closed f) eqn:E; injection H as <- <-.
  - constructor; simpl.
    + apply map_Forall_insert_2; [by constructor; simpl; try lia|done].
    + intros id. rewrite (Hcl eq_refl). set_solver.
    + intros _. by apply Hcl.
    + intros id Hid. specialize (Hf id Hid). lia.
  - constructor; simpl; [|..|done|].
    + apply map_Forall_insert_2; [by constructor; simpl; try lia|done].
    + intros id [->%elem_of_singleton|Hid]%elem_of_union; [rewrite lookup_insert_eq; eauto|].
      rewrite lookup_insert_ne by (specialize (Hf id Hid); lia). auto.
    + intros id [->%elem_of_singleton|Hid]%elem_of_union; [lia|]. specialize (Hf id Hid). lia.
Qed.

Lemma unsubscribe_ok id f :
  broadcaster_ok f -> exists f', unsubscribe id f = Some f' /\ broadcaster_ok f'.
Proof.
  intros Hf. pose proof Hf as [Hc Ho Hcl Hfr]. unfold unsubscribe. case_decide as Hid; [|by exists f].
  destruct (Ho id Hid) as (c & Hl & Hop). rewrite Hl. simpl.
  destruct (close_open c Hop) as [c' Hc']. rewrite Hc'. simpl. eexists. split; [done|].
  constructor; simpl.
  - apply map_Forall_insert_2; [|done]. eapply close_chan_ok, Hc; done.
  - intros j [Hj Hne]%elem_of_difference. rewrite lookup_insert_ne by set_solver. auto.
  - intros E. rewrite (Hcl E). set_solver.
  - intros j [Hj _]%elem_of_difference. auto.
Qed.

Lemma Send_ok x f :
  broadcaster_ok f -> exists f', Send x f = Some f' /\ broadcaster_ok f' /\
    subscribers f' = subscribers f /\
    (closed f = false -> forall id, id ∈ subscribers f ->
       exists c c', chans f !! id = Some c /\ offer x c = Some c' /\ chans f' !! id = Some c').
Proof.
  intros Hf. pose proof Hf as [Hc Ho Hcl Hfr]. unfold Send.
  destruct (closed f) eqn:E; [by exists f|].
  destruct (for_subscribers_some (offer x) f (offer_open x) Hf) as (cs & Hcs & Hin & _).
  rewrite Hcs. simpl. eexists. split; [done|]. split; [|done]. constructor; simpl; [|..|done|done].
  - eapply for_subscribers_ok; [|done|done]. apply offer_ok.
  - intros id Hid. destruct (Hin id Hid) as (c & c' & Hl & Hofs & Hl'). exists c'. split; [done|].
    unfold offer in Hofs. destruct (ch_closed c); [done|]. injection Hofs as <-. by case_decide.
Qed.

Lemma Close_ok f : broadcaster_ok f -> exists f', Close f = Some f' /\ broadcaster_ok f'.
Proof.
  intros Hf. pose proof Hf as [Hc Ho Hcl Hfr]. unfold Close. destruct (closed f) eqn:E; [by exists f|].
  destruct (for_subscribers_some close_chan f close_open Hf) as (cs & Hcs & _).
  rewrite Hcs. simpl. eexists. split; [done|]. constructor; simpl; [|set_solver..].
  eapply for_subscribers_ok; [|done|done]. apply close_chan_ok.
Qed.

Lemma receive_ok id f : broadcaster_ok f -> broadcaster_ok (receive id f).
Proof.
  intros [Hc Ho Hcl Hfr]. constructor; simpl; try done.
  - intros j c. destruct (decide (j = id)) as [->|Hne].
    + rewrite lookup_alter_eq. intros (c0 & Hl & ->)%fmap_Some. destruct (Hc id c0 Hl) as [Hr Hs Ha].
      destruct (ch_buf c0) as [|x buf] eqn:Eb; [by constructor; rewrite ?Eb|].
      constructor; simpl; rewrite <- ?app_assoc; try done. simpl in Hr. lia.
    + rewrite lookup_alter_ne by done. apply Hc.
  - intros j Hj. destruct (Ho j Hj) as (c & Hl & Hop). destruct (decide (j = id)) as [->|Hne].
    + rewrite lookup_alter_eq, Hl. simpl. eexists. split; [done|]. by destruct (ch_buf c).
    + rewrite lookup_alter_ne by done. eauto.
Qed.

(** ** Any use of it *)

Inductive bop := BSubscribe | BUnsubscribe (id : nat) | BSend (x : T) | BClose | BReceive (id : nat).

Definition bstep (f : broadcaster) (o : bop) : option broadcaster :=
  match o with
  | BSubscribe => Some (Subscribe f).2
  | BUnsubscribe id => unsubscribe id f
  | BSend x => Send x f
  | BClose => Close f
  | BReceive id => Some (receive id f)
  end.

Fixpoint bsteps (f : broadcaster) (ops : list bop) : option broadcaster :=
  match ops with
  | [] => Some f
  | o :: ops => f ← bstep f o; bsteps f ops
  end.

Lemma bstep_ok f o : broadcaster_ok f -> exists f', bstep f o = Some f' /\ broadcaster_ok f'.
Proof.
  intros Hf. destruct o; simpl.
  - eexists. split; [done|]. eapply Subscribe_ok; [|done]. apply surjective_pairing.
  - by apply unsubscribe_ok.
  - destruct (Send_ok x f Hf) as (f' & ? & ? & _). eauto.
  - by apply Close_ok.
  - eexists. split; [done|]. by apply receive_ok.
Qed.

Lemma bsteps_ok f ops : broadcaster_ok f -> exists f', bsteps f ops = Some f' /\ broadcaster_ok f'.
Proof.
  revert f. induction ops as [|o ops IH]; intros f Hf; simpl; [eauto|].
  destruct (bstep_ok f o Hf) as (f1 & -> & Hf1). simpl. by apply IH.
Qed.

(** The broadcaster never panics, and a slow subscriber only loses. Whatever
    subscriptions, repeated unsubscriptions, sends, receives and closings happen in
    whatever order, no send hits a closed channel and no channel is closed twice, also
    once the broadcaster is closed. Every subscriber's channel stays within its room,
    and what it received and still holds is what was sent while it was subscribed, in
    order, less what found its channel full: all of it if nothing did. *)
Theorem broadcaster_delivers ops :
  exists f, bsteps newBroadcaster ops = Some f /\
    forall id c, chans f !! id = Some c ->
      length (ch_buf c) <= room /\ ch_got c ++ ch_buf c `sublist_of` ch_offered c /\
      (ch_drops c = 0 -> ch_got c ++ ch_buf c = ch_offered c).
Proof.
  destruct (bsteps_ok newBroadcaster ops newBroadcaster_ok) as (f & H & Hf). exists f.
  split; [done|]. intros id c Hc. by destruct (bo_chans _ Hf id c Hc).
Qed.

End Broadcaster.
Arguments chan : clear implicits.
Arguments broadcaster : clear implicits.
Arguments bop : clear implicits.
