(* ===== verification/Output.v ===== *)
(** * A command's output on its way to the viewers

    [logCommandOutput], [readOutput] and [awaitReaders] of
    [cmdman/monitor/mon_run.go] and [subscribeOutput] of [mon_server.go]: every chunk
    of output goes, under [outputMu], to the scrollback, the log driver, the
    subscribers and the screen mirror, unless the run it belongs to is over; a viewer
    subscribes under the same lock.  The log driver, the screen mirror and the
    encoding of a window title are arguments. *)

From S2P Require Import Prelude GoStr LogDriver RingBuffer TermState RuntimeState Broadcaster.

Section Output.
Context {W E : Type} (WriteLogLine : LogLine -> W -> W * option E).
Context {S : Type} (feed : list Z -> S -> S) (snapshot : S -> option (list Z)).
Context (SetWindowTitle : list Z -> list Z).

(** The fields under [outputMu] and the configuration they are used with;
    [accepted_out] is the output that was let through, which the code does not keep. *)
(* src/cmdman/monitor/mon.go:98-117 Monitor *)
Record outputState := MkOutput {
  tty : bool;
  ring : ringBuffer;
  bridge : broadcaster LogLine;
  logWriter : option W;
  term : terminalPaneState;
  runtime : commandRuntimeState;
  screen : S;
  runGen : nat;
  accepted_out : list Z;
}.

(** One line to the log driver, whose error is only logged, and to the subscribers. *)
(* src/cmdman/monitor/mon_run.go:698-705 Monitor.logCommandOutput *)
Definition fan_out_line (w : option W) (b : broadcaster LogLine) (line : LogLine)
    : option (option W * broadcaster LogLine) :=
  let w := match w with Some w => Some (WriteLogLine line w).1 | None => None end in
  b ← Send line b; Some (w, b).

Fixpoint fan_out (w : option W) (b : broadcaster LogLine) (lines : list LogLine)
    : option (option W * broadcaster LogLine) :=
  match lines with
  | [] => Some (w, b)
  | l :: lines => '(w, b) ← fan_out_line w b l; fan_out w b lines
  end.

(* src/cmdman/monitor/mon_run.go:680-711 Monitor.logCommandOutput *)
Definition logCommandOutput (gen : nat) (now : Z) (st : Stream) (data : list Z) (s : outputState)
    : option outputState :=
  if decide (data = []) then Some s
  else if decide (gen <> runGen s) then Some s
  else
    '(w, b) ← fan_out (logWriter s) (bridge s) (SplitLogLines now st data);
    Some (MkOutput (tty s) (RingBuffer.Write (ring s) data) b w
            (if tty s then Observe (term s) data else term s) (runtime s)
            (if tty s then feed data (screen s) else screen s) (runGen s)
            (accepted_out s ++ data)).

(** The end of a run: its output is closed for good. *)
(* src/cmdman/monitor/mon_run.go:673-677 Monitor.awaitReaders *)
Definition close_run (s : outputState) : outputState :=
  MkOutput (tty s) (ring s) (bridge s) (logWriter s) (term s) (runtime s) (screen s)
    (Datatypes.S (runGen s)) (accepted_out s).

(* src/cmdman/monitor/mon_run.go:330-336 Monitor.runOnce *)
Definition drop_writer (s : outputState) : outputState :=
  MkOutput (tty s) (ring s) (bridge s) None (term s) (runtime s) (screen s) (runGen s) (accepted_out s).

(** The section of [runOnce] that takes the shared output state over for a run with the
    configuration just read. *)
(* src/cmdman/monitor/mon_run.go:316-329 Monitor.runOnce *)
Definition open_run (tty : bool) (w : W) (cwdURL : list Z -> list Z) (dir : list Z) (s : outputState)
    : outputState :=
  MkOutput tty (ring s) (bridge s) (Some w) (TermState.reset (term s))
    (seedCwd cwdURL dir (RuntimeState.reset (runtime s))) (screen s) (runGen s) (accepted_out s).

(* src/cmdman/monitor/mon_server.go:23-31 monitorSubscription *)
Record monitorSubscription := MkSubscription {
  Records : nat;
  Scrollback : list Z;
  TerminalState : list Z;
}.

(** The sequences that rebuild what a viewer's terminal infers. *)
(* src/cmdman/monitor/mon_server.go:65-86 Monitor.subscribeOutput *)
Definition terminal_state (s : outputState) : list Z :=
  Replay (term s) ++
  (if titleSet (vals (runtime s)) then SetWindowTitle (title (vals (runtime s))) else []) ++
  (if cwdSet (vals (runtime s))
   then [0x1b; 0x5d; 0x37; 0x3b]%Z ++ cwd (vals (runtime s)) ++ [0x1b; 0x5c]%Z else []).

(* src/cmdman/monitor/mon_server.go:42-90 Monitor.subscribeOutput *)
Definition subscribeOutput (scrollback : bool) (s : outputState) : monitorSubscription * outputState :=
  let '(id, b) := Subscribe (bridge s) in
  let shot := if tty s then snapshot (screen s) else None in
  (MkSubscription id
     (if scrollback then match shot with Some x => x | None => RingBuffer.Bytes (ring s) end else [])
     (if scrollback then terminal_state s else []),
   MkOutput (tty s) (ring s) b (logWriter s) (term s) (runtime s) (screen s) (runGen s)
     (accepted_out s)).

(** What happens to the output state: a chunk that a reader of some run delivers, the
    start and the end of a run, a viewer that comes, receives or goes, and the end. *)
Inductive out_op :=
| OChunk (gen : nat) (now : Z) (st : Stream) (data : list Z)
| OOpen (tty : bool) (w : W) (url : list Z -> list Z) (dir : list Z)
| OCloseRun
| ODropWriter
| OSubscribe (scrollback : bool)
| OUnsubscribe (id : nat)
| OReceive (id : nat)
| OCloseBridge
| ORuntime (o : op)
| OScreen (f : S -> S).

Definition with_bridge (b : broadcaster LogLine) (s : outputState) : outputState :=
  MkOutput (tty s) (ring s) b (logWriter s) (term s) (runtime s) (screen s) (runGen s) (accepted_out s).

Definition out_step (s : outputState) (o : out_op) : option outputState :=
  match o with
  | OChunk gen now st data => logCommandOutput gen now st data s
  | OOpen tty w url dir => Some (open_run tty w url dir s)
  | OCloseRun => Some (close_run s)
  | ODropWriter => Some (drop_writer s)
  | OSubscribe scrollback => Some (subscribeOutput scrollback s).2
  | OUnsubscribe id => b ← unsubscribe id (bridge s); Some (with_bridge b s)
  | OReceive id => Some (with_bridge (receive id (bridge s)) s)
  | OCloseBridge => b ← Close (bridge s); Some (with_bridge b s)
  | ORuntime o => Some (MkOutput (tty s) (ring s) (bridge s) (logWriter s) (term s)
                          (perform o (runtime s)) (screen s) (runGen s) (accepted_out s))
  | OScreen f => Some (MkOutput (tty s) (ring s) (bridge s) (logWriter s) (term s) (runtime s)
                         (f (screen s)) (runGen s) (accepted_out s))
  end.

Fixpoint out_steps (s : outputState) (ops : list out_op) : option outputState :=
  match ops with
  | [] => Some s
  | o :: ops => s ← out_step s o; out_steps s ops
  end.

(* src/cmdman/monitor/mon.go:216-241 newMonitor *)
Definition newOutput (capacity : nat) (tty : bool) (scr : S) : outputState :=
  MkOutput tty (newRingBuffer capacity) newBroadcaster None newTerminalPaneState
    newCommandRuntimeState scr 0 [].

(** ** Nothing is lost between the scrollback and the stream *)

(** The lines offered to one subscriber are the output since [base]. *)
Definition follows (id : nat) (base : list Z) (out : list Z) (b : broadcaster LogLine) : Prop :=
  id < nextID b /\
  (id ∈ subscribers b -> exists c, chans b !! id = Some c /\
     out = base ++ concat (Line <$> ch_offered c)).

Lemma offer_offered (x : LogLine) c c' : offer x c = Some c' -> ch_offered c' = ch_offered c ++ [x].
Proof. unfold offer. destruct (ch_closed c); [done|]. intros [= <-]. by case_decide. Qed.

Lemma Send_follows id base out x b b' :
  broadcaster_ok b -> Send x b = Some b' -> follows id base out b ->
  broadcaster_ok b' /\ nextID b' = nextID b /\ closed b' = closed b /\ follows id base (out ++ Line x) b'.
Proof.
  intros Hb H [Hn Hf]. destruct (Send_ok x b Hb) as (b1 & H1 & Hb1 & Hs & Ho).
  rewrite H in H1. injection H1 as <-.
  assert (nextID b' = nextID b /\ closed b' = closed b) as [En Ec].
  { unfold Send in H. destruct (closed b) eqn:Ecl; [by simplify_eq|].
    apply bind_Some in H as (cs & _ & [= <-]). done. }
  split; [done|]. split; [done|]. split; [done|]. split; [lia|]. rewrite Hs. intros Hid.
  assert (closed b = false) as Hcl.
  { destruct (closed b) eqn:Ecl; [|done]. rewrite (bo_closed _ Hb Ecl) in Hid. set_solver. }
  destruct (Ho Hcl id Hid) as (c & c' & Hc & Hof & Hc'). destruct (Hf Hid) as (c0 & Hc0 & ->).
  simplify_eq. exists c'. split; [done|]. rewrite (offer_offered _ _ _ Hof), fmap_app, concat_app.
  simpl. by rewrite app_nil_r, app_assoc.
Qed.

Lemma fan_out_follows id base w b lines w' b' out :
  broadcaster_ok b -> fan_out w b lines = Some (w', b') -> follows id base out b ->
  broadcaster_ok b' /\ follows id base (out ++ concat (Line <$> lines)) b'.
Proof.
  revert w b out. induction lines as [|l lines IH]; intros w b out Hb H Hf; simpl in H.
  { simplify_eq. simpl. by rewrite app_nil_r. }
  apply bind_Some in H as ([w1 b1] & H1 & H). unfold fan_out_line in H1.
  apply bind_Some in H1 as (b2 & H1 & [= <- <-]).
  destruct (Send_follows id base out l b b2 Hb H1 Hf) as (Hb2 & _ & _ & Hf2).
  destruct (IH _ _ _ Hb2 H Hf2) as [Hb' Hf']. split; [done|].
  simpl. by rewrite app_assoc.
Qed.

(** The state between operations: the broadcaster is sound and the scrollback holds the
    end of the accepted output. *)
Definition out_ok (cap : nat) (s : outputState) : Prop :=
  broadcaster_ok (bridge s) /\ represents cap (accepted_out s) (ring s).

Lemma chunk_ok cap id base gen now st data s s' :
  logCommandOutput gen now st data s = Some s' -> out_ok cap s ->
  follows id base (accepted_out s) (bridge s) ->
  out_ok cap s' /\ follows id base (accepted_out s') (bridge s').
Proof.
  unfold logCommandOutput. intros H [Hb Hr] Hf. case_decide; [by simplify_eq|].
  case_decide; [by simplify_eq|]. apply bind_Some in H as ([w b] & H & [= <-]).
  destruct (fan_out_follows _ _ _ _ _ _ _ _ Hb H Hf) as [Hb' Hf']. simpl.
  pose proof (proj1 (split_loop_spec (length data) now st data (Nat.le_refl _))) as Hc.
  fold (SplitLogLines now st data) in Hc. rewrite Hc in Hf'.
  split; [split; [done|by apply Write_represents]|done].
Qed.

Lemma follows_bridge id base out b b' :
  nextID b <= nextID b' -> follows id base out b ->
  (forall j, j < nextID b -> j ∈ subscribers b' -> j ∈ subscribers b /\
     forall c, chans b !! j = Some c -> exists c', chans b' !! j = Some c' /\ ch_offered c' = ch_offered c) ->
  follows id base out b'.
Proof.
  intros Hn [Hi Hf] H. split; [lia|]. intros Hid. destruct (H id Hi Hid) as [Hs Hc].
  destruct (Hf Hs) as (c & Hl & ->). destruct (Hc c Hl) as (c' & Hl' & <-). eauto.
Qed.

Lemma Subscribe_follows id base out b j b' :
  Subscribe b = (j, b') -> follows id base out b -> follows id base out b'.
Proof.
  unfold Subscribe. intros H Hf. destruct (closed b); injection H as <- <-.
  all: eapply follows_bridge; [|done|]; simpl; [lia|]; intros k Hk Hs.
  all: split; [set_solver by lia|]; intros c Hc; rewrite lookup_insert_ne by lia; eauto.
Qed.

Lemma out_step_ok cap id base s o s' :
  out_step s o = Some s' -> out_ok cap s -> follows id base (accepted_out s) (bridge s) ->
  out_ok cap s' /\ follows id base (accepted_out s') (bridge s').
Proof.
  intros H Hs Hf. pose proof Hs as [Hb Hr]. destruct o; simpl in H; try (by simplify_eq).
  - by eapply chunk_ok.
  - unfold subscribeOutput in H. destruct (Subscribe (bridge s)) as [j b] eqn:Ecl. simplify_eq/=.
    split; [split; [by eapply Subscribe_ok|done]|by eapply Subscribe_follows].
  - apply bind_Some in H as (b & H & [= <-]). simpl.
    destruct (unsubscribe_ok id0 _ Hb) as (b' & H' & Hb'). rewrite H in H'. injection H' as <-.
    split; [done|]. unfold unsubscribe in H. case_decide; [|by simplify_eq].
    apply bind_Some in H as (c & Hc & H). apply bind_Some in H as (c' & Hc' & [= <-]).
    eapply follows_bridge; [|done|]; simpl; [lia|]. intros k Hk [Hs1 Hne]%elem_of_difference.
    split; [done|]. intros c0 Hc0. rewrite lookup_insert_ne by set_solver. eauto.
  - simplify_eq/=. split; [by split; [apply receive_ok|]|].
    eapply follows_bridge; [|done|]; simpl; [lia|]. intros k Hk Hsub. split; [done|]. intros c Hc.
    destruct (decide (k = id0)) as [->|Hne].
    + rewrite lookup_alter_eq, Hc. simpl. eexists. split; [done|]. by destruct (ch_buf c).
    + rewrite lookup_alter_ne by done. eauto.
  - apply bind_Some in H as (b & H & [= <-]). simpl.
    destruct (Close_ok _ Hb) as (b' & H' & Hb'). rewrite H in H'. injection H' as <-. split; [done|].
    unfold Close in H. destruct (closed (bridge s)); [by simplify_eq|].
    apply bind_Some in H as (cs & _ & [= <-]).
    eapply follows_bridge; [|done|]; simpl; [lia|]. intros k _ Hk. set_solver.
Qed.

Lemma out_steps_ok cap id base ops s s' :
  out_steps s ops = Some s' -> out_ok cap s -> follows id base (accepted_out s) (bridge s) ->
  out_ok cap s' /\ follows id base (accepted_out s') (bridge s').
Proof.
  revert s. induction ops as [|o ops IH]; intros s H Hs Hf; simpl in H; [by simplify_eq|].
  apply bind_Some in H as (s1 & H1 & H). destruct (out_step_ok _ _ _ _ _ _ H1 Hs Hf). eauto.
Qed.

Lemma fan_out_ok w b lines :
  broadcaster_ok b -> exists w' b', fan_out w b lines = Some (w', b') /\ broadcaster_ok b'.
Proof.
  revert w b. induction lines as [|l lines IH]; intros w b Hb; simpl; [by eexists _, _|].
  destruct (Send_ok l b Hb) as (b' & H & Hb' & _). unfold fan_out_line. rewrite H. simpl. by apply IH.
Qed.

Lemma out_step_sound cap s o : out_ok cap s -> exists s', out_step s o = Some s' /\ out_ok cap s'.
Proof.
  intros Hs. pose proof Hs as [Hb Hr]. unfold out_ok. destruct o; simpl; try by eexists.
  - unfold logCommandOutput. repeat case_decide; try by eexists.
    destruct (fan_out_ok (logWriter s) (bridge s) (SplitLogLines now st data) Hb) as (w & b & -> & Hb').
    simpl. eexists. split; [done|]. split; [done|]. by apply Write_represents.
  - eexists. split; [done|]. unfold subscribeOutput.
    destruct (Subscribe (bridge s)) as [j b] eqn:Ecl. simpl. split; [by eapply Subscribe_ok|done].
  - destruct (unsubscribe_ok id _ Hb) as (b & -> & Hb'). simpl. by eexists.
  - eexists. split; [done|]. split; [by apply receive_ok|done].
  - destruct (Close_ok _ Hb) as (b & -> & Hb'). simpl. by eexists.
Qed.

Lemma out_steps_sound cap ops s : out_ok cap s -> exists s', out_steps s ops = Some s' /\ out_ok cap s'.
Proof.
  revert s. induction ops as [|o ops IH]; intros s Hs; simpl; [by eexists|].
  destruct (out_step_sound cap s o Hs) as (s1 & -> & Hs1). simpl. by apply IH.
Qed.

Lemma newOutput_ok cap t scr : out_ok cap (newOutput cap t scr).
Proof. split; [apply newBroadcaster_ok|apply newRingBuffer_represents]. Qed.

(** C15: A viewer gets the output without a gap and without an overlap. Whatever runs,
    chunks, late readers and other viewers there are before and after, nothing panics,
    and a viewer that attaches to a command without a terminal is given the last
    [cap] bytes of the output accepted so far; as long as it stays subscribed, what it
    has received and what waits in its channel is exactly the output accepted since,
    unless the channel was full at some time. Output of a run that is over is accepted
    by no one. *)
Theorem attach_meets_stream cap t scr ops1 ops2 :
  exists s1 sub s2 s3,
    out_steps (newOutput cap t scr) ops1 = Some s1 /\ subscribeOutput true s1 = (sub, s2) /\
    out_steps s2 ops2 = Some s3 /\
    (tty s1 = false -> Scrollback sub = last_n cap (accepted_out s1)) /\
    (Records sub ∈ subscribers (bridge s3) -> exists c,
       chans (bridge s3) !! Records sub = Some c /\
       (ch_drops c = 0 ->
        accepted_out s3 = accepted_out s1 ++ concat (Line <$> (ch_got c ++ ch_buf c)))) /\
    (forall gen now st data, gen <> runGen s3 -> logCommandOutput gen now st data s3 = Some s3).
Proof.
  destruct (out_steps_sound cap ops1 _ (newOutput_ok cap t scr)) as (s1 & H1 & Hs1).
  pose proof Hs1 as [Hb Hr].
  destruct (subscribeOutput true s1) as [sub s2] eqn:E2. pose proof E2 as E3.
  unfold subscribeOutput in E3. destruct (Subscribe (bridge s1)) as [id b] eqn:Es.
  injection E3 as Esub Es2.
  assert (out_ok cap s2 /\ follows id (accepted_out s1) (accepted_out s2) (bridge s2)) as [Hs2 Hf].
  { subst s2. split; [split; [by eapply Subscribe_ok|done]|]. unfold Subscribe in Es. simpl.
    destruct (closed (bridge s1)) eqn:Ecl; injection Es as <- <-; split; simpl; try lia.
    - rewrite (bo_closed _ Hb Ecl). set_solver.
    - intros _. exists (MkChan [] false [] [] 0). rewrite lookup_insert_eq. simpl.
      by rewrite app_nil_r. }
  destruct (out_steps_sound cap ops2 s2 Hs2) as (s3 & H3 & Hs3).
  destruct (out_steps_ok cap id _ ops2 s2 s3 H3 Hs2 Hf) as [_ [_ Hf3]].
  exists s1, sub, s2, s3. split; [done|]. split; [done|]. split; [done|].
  subst sub. split; [|split]; simpl.
  - intros ->. apply (rep_bytes _ _ _ Hr).
  - intros Hid. destruct (Hf3 Hid) as (c & Hc & Ho). exists c. split; [done|]. intros Hd.
    by rewrite (co_all _ (bo_chans _ (proj1 Hs3) id c Hc) Hd).
  - intros gen now st data Hg. unfold logCommandOutput. case_decide; [done|].
    by rewrite decide_True.
Qed.

End Output.
