(* ===== verification/Survivors.v ===== *)
(** * What a run leaves behind

    [cmdman/monitor/orphans_linux.go]: the sweep that terminates the processes a run
    left in the command's session, the await that leaves them to a stop in progress,
    and the completion of a stop's SIGKILL, with the parser of [/proc/<pid>/stat] they
    identify processes by.  The processes, the clock and the context are a world of
    which only the answers are known; the two latches of the monitor are part of the
    state, because a latch stays set. *)

From S2P Require Import Prelude GoStr Model.

(** ** [/proc/<pid>/stat] *)

(* src/cmdman/monitor/orphans_linux.go:321-326 procIDs *)
Record procIDs := MkIDs { ppid : Z; pgrp : Z; session : Z }.

Inductive procErr := ENoComm | EFewFields | EPPid | EPGrp | ESession.

(** [strings.LastIndex] of a closing parenthesis, and what follows it. *)
Fixpoint after_last_paren (s : string) : option string :=
  match s with
  | EmptyString => None
  | String c s =>
      match after_last_paren s with
      | Some r => Some r
      | None => if decide (c = ")"%char) then Some s else None
      end
  end.

(* src/cmdman/monitor/orphans_linux.go:341-368 parseProcIDs *)
Definition parseProcIDs (stat : string) : result procErr procIDs :=
  match after_last_paren stat with
  | None => Err ENoComm
  | Some rest =>
      match fields rest with
      | _ :: p :: g :: s :: _ =>
          match Atoi p with
          | None => Err EPPid
          | Some p =>
              match Atoi g with
              | None => Err EPGrp
              | Some g => match Atoi s with None => Err ESession | Some s => Ok (MkIDs p g s) end
              end
          end
      | _ => Err EFewFields
      end
  end.

(** ** The sweep and the await *)

(** Why a wait for processes is over: a tick, the grace, or the context. *)
Inductive wake := WTick | WDeadline | WDone.

Section Survivors.
Context {W : Type}.

(** The answers of the operating system, the clock and the context: the entries of
    [/proc] with what their [stat] reads, the wait for one pid, one [stat], one kill,
    the two latches, the context's error and the end of a wait. *)
Record os := {
  os_scan : W -> option (list (string * option string)) * W;
  os_gone : Z -> W -> bool * W;
  os_stat : Z -> W -> option string * W;
  os_kill : Z -> Z -> W -> bool * W;
  os_stop : W -> bool * W;
  os_killed : W -> bool * W;
  os_done : W -> bool * W;
  os_wait : W -> wake * W;
}.
Context (sys : os) (self : Z).

(** A signal sent by pid, with the latches as last read and the process group the
    target was last seen in. *)
Record sent := MkSent { to : Z; sig : Z; when_stopping : bool; when_killed : bool; group : option Z }.

(** [found] collects the processes the scans have named, and [reached] counts the
    reports. *)
Record st := MkSt {
  world : W;
  stopSeen : bool;
  killSeen : bool;
  log : list sent;
  found : list Z;
  reached : nat;
}.

Definition with_world (w : W) (s : st) : st :=
  MkSt w (stopSeen s) (killSeen s) (log s) (found s) (reached s).

(** [stopRequested.Load()] and [stopKilled.Load()]: never cleared. *)
(* src/cmdman/monitor/orphans_linux.go:55-57 sweepOptions.stopping *)
Definition stopping (s : st) : bool * st :=
  let '(b, w) := os_stop sys (world s) in
  (stopSeen s || b, MkSt w (stopSeen s || b) (killSeen s) (log s) (found s) (reached s)).
Definition killed (s : st) : bool * st :=
  let '(b, w) := os_killed sys (world s) in
  (killSeen s || b, MkSt w (stopSeen s) (killSeen s || b) (log s) (found s) (reached s)).
Definition ctx_done (s : st) : bool * st :=
  let '(b, w) := os_done sys (world s) in (b, with_world w s).
Definition wait (s : st) : wake * st :=
  let '(k, w) := os_wait sys (world s) in (k, with_world w s).

Definition kill (pid sg : Z) (grp : option Z) (s : st) : bool * st :=
  let '(ok, w) := os_kill sys pid sg (world s) in
  (ok, MkSt w (stopSeen s) (killSeen s)
         (log s ++ [MkSent pid sg (stopSeen s) (killSeen s) grp]) (found s) (reached s)).

(* src/cmdman/monitor/orphans_linux.go:59-63 sweepOptions.report *)
Definition report (s : st) : st :=
  MkSt (world s) (stopSeen s) (killSeen s) (log s) (found s) (S (reached s)).

(* src/cmdman/monitor/orphans_linux.go:328-339 readProcIDs *)
Definition readProcIDs (stat : option string) : option procIDs :=
  match stat with
  | None => None
  | Some stat => match parseProcIDs stat with Ok ids => Some ids | Err _ => None end
  end.

(** The process of one entry of [/proc], if it is a child in the command's session. *)
(* src/cmdman/monitor/orphans_linux.go:302-316 runSurvivors *)
Definition survivor (pgid : Z) (entry : string * option string) : option Z :=
  pid ← Atoi entry.1;
  ids ← readProcIDs entry.2;
  if decide (ppid ids <> self \/ session ids <> pgid) then None else Some pid.

(* src/cmdman/monitor/orphans_linux.go:282-319 runSurvivors *)
Definition runSurvivors (pgid : Z) (s : st) : option (list Z) * st :=
  let '(r, w) := os_scan sys (world s) in
  match r with
  | None => (None, with_world w s)
  | Some entries =>
      let pids := omap (survivor pgid) entries in
      (Some pids, MkSt w (stopSeen s) (killSeen s) (log s) (found s ++ pids) (reached s))
  end.

(** [os_gone]: exited and reaped, or no child any more. *)
(* src/cmdman/monitor/orphans_linux.go:370-393 reapGone *)
Fixpoint reapGone (pids : list Z) (s : st) : list Z * st :=
  match pids with
  | [] => ([], s)
  | pid :: pids =>
      let '(gone, w) := os_gone sys pid (world s) in
      let '(alive, s) := reapGone pids (with_world w s) in
      (if gone : bool then alive else pid :: alive, s)
  end.

(** [fuel] bounds the ticks of the wait; [halt] is [None] where the code passes nil. *)
(* src/cmdman/monitor/orphans_linux.go:402-431 waitGoneUntil *)
Fixpoint waitGoneUntil (fuel : nat) (halt : option (st -> bool * st)) (pids : list Z) (s : st)
    : option (list Z * st) :=
  match fuel with
  | O => None
  | S fuel =>
      let '(pids, s) := reapGone pids s in
      if decide (pids = []) then Some ([], s)
      else
        let '(h, s) := match halt with Some h => h s | None => (false, s) end in
        if h : bool then Some (pids, s)
        else match wait s with
             | (WTick, s) => waitGoneUntil fuel halt pids s
             | (_, s) => Some (pids, s)
             end
  end.

(* src/cmdman/monitor/orphans_linux.go:436-449 signalEach *)
Fixpoint signalEach (pids : list Z) (sg : Z) (s : st) : bool * st :=
  match pids with
  | [] => (true, s)
  | pid :: pids =>
      let '(h, s) := stopping s in
      if h : bool then (false, s)
      else let '(_, s) := kill pid sg None s in signalEach pids sg s
  end.

Definition sweepHandedOver : Z := -1.

(** One round of the sweep: [inl] its result, [inr] another round. *)
(* src/cmdman/monitor/orphans_linux.go:109-145 sweepRunSurvivorsWith *)
Definition sweep_round (fuel : nat) (pgid : Z) (s : st) : option ((Z + unit) * st) :=
  let '(pids, s) := runSurvivors pgid s in
  match pids with
  | None => Some (inl 0%Z, s)
  | Some pids =>
      let '(alive, s) := reapGone pids s in
      if decide (alive = []) then Some (inl 0%Z, s)
      else
        let '(h, s) := stopping s in
        if h : bool then Some (inl sweepHandedOver, s)
        else
          let '(d, s) := ctx_done s in
          if d : bool then Some (inl (Z.of_nat (length alive)), s)
          else
            let '(all, s) := signalEach alive SIGTERM s in
            if negb all then Some (inl sweepHandedOver, s)
            else
              '(alive, s) ← waitGoneUntil fuel (Some stopping) alive s;
              if decide (alive = []) then Some (inr tt, s)
              else
                let '(all, s) := signalEach alive SIGKILL s in
                if negb all then Some (inl sweepHandedOver, s)
                else '(_, s) ← waitGoneUntil fuel (Some stopping) alive s; Some (inr tt, s)
  end.

(* src/cmdman/monitor/orphans_linux.go:88-146 sweepRunSurvivorsWith *)
Fixpoint sweep_loop (fuel : nat) (pgid : Z) (s : st) : option (Z * st) :=
  match fuel with
  | O => None
  | S fuel =>
      '(r, s) ← sweep_round fuel pgid s;
      match r with inl n => Some (n, s) | inr _ => sweep_loop fuel pgid s end
  end.

(* src/cmdman/monitor/orphans_linux.go:77-100 sweepRunSurvivors *)
Definition sweepRunSurvivors (fuel : nat) (pgid : Z) (s : st) : option (Z * st) :=
  if decide (pgid <= 0)%Z then Some (0%Z, s) else sweep_loop fuel pgid s.

(** The processes outside the group, each with the group read. *)
(* src/cmdman/monitor/orphans_linux.go:264-280 outsideGroup *)
Fixpoint outsideGroup (pids : list Z) (pgid : Z) (s : st) : list (Z * Z) * st :=
  match pids with
  | [] => ([], s)
  | pid :: pids =>
      let '(stat, w) := os_stat sys pid (world s) in
      let '(out, s) := outsideGroup pids pgid (with_world w s) in
      (match readProcIDs stat with
       | Some ids => if decide (pgrp ids = pgid) then out else (pid, pgrp ids) :: out
       | None => out
       end, s)
  end.

(** The kills by pid of one round. *)
(* src/cmdman/monitor/orphans_linux.go:252-256 completeStopKill *)
Fixpoint kill_outside (pids : list (Z * Z)) (s : st) : st :=
  match pids with
  | [] => s
  | (pid, grp) :: pids =>
      let '(ok, s) := kill pid SIGKILL (Some grp) s in
      kill_outside pids (if ok : bool then report s else s)
  end.

(* src/cmdman/monitor/orphans_linux.go:215-262 completeStopKill *)
Fixpoint completeStopKill (fuel : nat) (pgid : Z) (s : st) : option (Z * st) :=
  match fuel with
  | O => None
  | S fuel =>
      let '(pids, s) := runSurvivors pgid s in
      match pids with
      | None => Some (0%Z, s)
      | Some pids =>
          let '(alive, s) := reapGone pids s in
          if decide (alive = []) then Some (0%Z, s)
          else
            let '(d, s) := ctx_done s in
            if d : bool then Some (Z.of_nat (length alive), s)
            else
              let '(out, s) := outsideGroup alive pgid s in
              '(alive, s) ← waitGoneUntil fuel None alive (kill_outside out s);
              if decide (alive = []) then completeStopKill fuel pgid s
              else
                let '(d, s) := ctx_done s in
                if d : bool then Some (Z.of_nat (length alive), s) else completeStopKill fuel pgid s
      end
  end.

(* src/cmdman/monitor/orphans_linux.go:164-213 awaitRunSurvivorsWith *)
Fixpoint await_loop (fuel : nat) (pgid : Z) (s : st) : option (Z * st) :=
  match fuel with
  | O => None
  | S fuel =>
      let '(pids, s) := runSurvivors pgid s in
      match pids with
      | None => Some (0%Z, s)
      | Some pids =>
          let '(alive, s) := reapGone pids s in
          if decide (alive = []) then Some (0%Z, s)
          else
            let '(k, s) := killed s in
            if k : bool then completeStopKill fuel pgid s
            else match wait s with
                 | (WTick, s) => await_loop fuel pgid s
                 | (_, s) => Some (Z.of_nat (length alive), s)
                 end
      end
  end.

(* src/cmdman/monitor/orphans_linux.go:152-190 awaitRunSurvivors *)
Definition awaitRunSurvivors (fuel : nat) (pgid : Z) (s : st) : option (Z * st) :=
  if decide (pgid <= 0)%Z then Some (0%Z, s) else await_loop fuel pgid s.

(** ** Who is signalled, and when *)

(** Steps that send nothing: only the world moves on, and the latches may be set. *)
Record quiet (s s' : st) : Prop := {
  qu_log : log s' = log s;
  qu_found : found s' = found s;
  qu_stop : stopSeen s = true -> stopSeen s' = true;
  qu_kill : killSeen s = true -> killSeen s' = true;
}.

#[local] Instance quiet_refl : Reflexive quiet.
Proof. by intros s; constructor. Qed.
#[local] Instance quiet_trans : Transitive quiet.
Proof. intros a b c [] []. constructor; try congruence; auto. Qed.

Lemma with_world_quiet w s : quiet s (with_world w s).
Proof. by constructor. Qed.

Lemma stopping_spec s b s' : stopping s = (b, s') -> quiet s s' /\ stopSeen s' = b.
Proof.
  unfold stopping. destruct (os_stop sys (world s)). intros [= <- <-].
  split; [constructor; simpl; try done; by intros ->|done].
Qed.

Lemma killed_spec s b s' : killed s = (b, s') -> quiet s s' /\ killSeen s' = b.
Proof.
  unfold killed. destruct (os_killed sys (world s)). intros [= <- <-].
  split; [constructor; simpl; try done; by intros ->|done].
Qed.

Lemma ctx_done_quiet s b s' : ctx_done s = (b, s') -> quiet s s'.
Proof. unfold ctx_done. destruct (os_done _ _). intros [= <- <-]. apply with_world_quiet. Qed.

Lemma wait_quiet s k s' : wait s = (k, s') -> quiet s s'.
Proof. unfold wait. destruct (os_wait _ _). intros [= <- <-]. apply with_world_quiet. Qed.

Lemma reapGone_spec pids s alive s' : reapGone pids s = (alive, s') -> quiet s s' /\ alive ⊆ pids.
Proof.
  revert s alive s'. induction pids as [|pid pids IH]; intros s alive s' H; simpl in H; [by simplify_eq|].
  destruct (os_gone sys pid (world s)) as [gone w].
  destruct (reapGone pids (with_world w s)) as [l s1] eqn:E. apply IH in E as [Q Hl].
  split.
  - destruct gone; simplify_eq; (etrans; [apply with_world_quiet|exact Q]).
  - destruct gone; simplify_eq; set_solver.
Qed.

Lemma waitGoneUntil_spec fuel halt pids s alive s' :
  (forall h, halt = Some h -> forall s b s', h s = (b, s') -> quiet s s') ->
  waitGoneUntil fuel halt pids s = Some (alive, s') -> quiet s s' /\ alive ⊆ pids.
Proof.
  intros Hh. revert pids s. induction fuel as [|fuel IH]; intros pids s H; simpl in H; [done|].
  destruct (reapGone pids s) as [l s1] eqn:E. apply reapGone_spec in E as [Q1 Hl].
  case_decide; [simplify_eq; split; [done|set_solver]|].
  destruct (match halt with Some h => h s1 | None => (false, s1) end) as [b s2] eqn:Eh.
  assert (quiet s1 s2) as Q2 by (destruct halt as [h|]; [by eapply Hh|by simplify_eq]).
  assert (quiet s s2) as Q by (by etrans).
  destruct b; [by simplify_eq|].
  destruct (wait s2) as [k s3] eqn:Ew. apply wait_quiet in Ew.
  destruct k; [|by simplify_eq; split; [etrans|]..].
  apply IH in H as [Q3 H3]. split; [by repeat (etrans; [eassumption|])|set_solver].
Qed.

(** A signal of the sweep: before a stop was seen, to a process a scan found. *)
Definition sweep_signal (f : list Z) (x : sent) : Prop :=
  when_stopping x = false /\ (sig x = SIGTERM \/ sig x = SIGKILL) /\ to x ∈ f.

Lemma signalEach_spec pids sg s r s' :
  signalEach pids sg s = (r, s') ->
  exists new, log s' = log s ++ new /\ found s' = found s /\
    Forall (fun x => when_stopping x = false /\ sig x = sg /\ to x ∈ pids) new /\
    (r = false -> stopSeen s' = true).
Proof.
  revert s. induction pids as [|pid pids IH]; intros s H; simpl in H.
  { simplify_eq. exists []. by rewrite app_nil_r. }
  destruct (stopping s) as [h s1] eqn:E. apply stopping_spec in E as [[L F _ _] Hh].
  destruct h; [simplify_eq; exists []; by rewrite app_nil_r|].
  unfold kill in H. destruct (os_kill sys pid sg (world s1)) as [ok w].
  destruct (IH _ H) as (new & L2 & F2 & A & Hr). simpl in *.
  eexists (_ :: new). rewrite L2, L, F2, F, <- app_assoc. split; [done|]. split; [done|]. split; [|done].
  constructor; [simpl; rewrite Hh; split_and!; try done; by left|].
  eapply Forall_impl; [exact A|]. intros x (? & ? & ?). split_and!; try done. by right.
Qed.

(** What the sweep has sent since [s0]. *)
Definition swept (s0 s : st) : Prop :=
  exists new, log s = log s0 ++ new /\ Forall (sweep_signal (found s)) new.

Lemma swept_quiet s0 s s' : swept s0 s -> quiet s s' -> swept s0 s'.
Proof. intros (new & L & F) [L' F' _ _]. exists new. by rewrite L', F'. Qed.

Lemma swept_found s0 s f w r : swept s0 s ->
  swept s0 (MkSt w (stopSeen s) (killSeen s) (log s) (found s ++ f) r).
Proof.
  intros (new & L & F). exists new. split; [done|]. eapply Forall_impl; [exact F|].
  intros x (? & ? & ?). split_and!; try done. simpl. apply elem_of_app. by left.
Qed.

Lemma swept_signals s0 s pids sg r s' :
  swept s0 s -> pids ⊆ found s -> sg = SIGTERM \/ sg = SIGKILL ->
  signalEach pids sg s = (r, s') ->
  swept s0 s' /\ found s' = found s /\ (r = false -> stopSeen s' = true).
Proof.
  intros (new & L & F) Hp Hsg H. destruct (signalEach_spec _ _ _ _ _ H) as (new2 & L2 & F2 & A & Hr).
  split; [|done]. exists (new ++ new2). rewrite L2, L, app_assoc, F2. split; [done|].
  apply Forall_app. split; [done|]. eapply Forall_impl; [exact A|].
  intros x (H1 & H2 & H3). split_and!; [done|by rewrite H2|by apply Hp].
Qed.

Lemma runSurvivors_swept s0 pgid s r s' :
  runSurvivors pgid s = (r, s') -> swept s0 s ->
  swept s0 s' /\ forall pids, r = Some pids -> pids ⊆ found s'.
Proof.
  unfold runSurvivors. destruct (os_scan sys (world s)) as [[entries|] w]; intros [= <- <-] Hs.
  - split; [by apply swept_found|]. intros pids [= <-]. simpl. set_solver.
  - split; [|done]. eapply swept_quiet; [done|apply with_world_quiet].
Qed.

Lemma stopping_halt h : Some stopping = Some h -> forall s b s', h s = (b, s') -> quiet s s'.
Proof. intros [= <-] s b s' H. by apply stopping_spec in H as [? _]. Qed.

(** One round: a result says the sweep handed over, having seen the stop, or counts. *)
Lemma sweep_round_spec s0 fuel pgid s r s' :
  swept s0 s -> sweep_round fuel pgid s = Some (r, s') ->
  swept s0 s' /\
  match r with
  | inl n => (n = sweepHandedOver /\ stopSeen s' = true) \/ (0 <= n)%Z
  | inr _ => True
  end.
Proof.
  intros Hs H. unfold sweep_round in H.
  destruct (runSurvivors pgid s) as [[pids|] s1] eqn:E1;
    destruct (runSurvivors_swept s0 _ _ _ _ E1 Hs) as [Hs1 Hp]; [|simplify_eq; split; [done|by right]].
  specialize (Hp pids eq_refl).
  destruct (reapGone pids s1) as [alive s2] eqn:E2. apply reapGone_spec in E2 as [Q2 Hl].
  case_decide; [simplify_eq; split; [by eapply swept_quiet|by right]|].
  destruct (stopping s2) as [h s3] eqn:E3. apply stopping_spec in E3 as [Q3 Hh].
  assert (quiet s1 s3) as Q by by etrans. pose proof (swept_quiet _ _ _ Hs1 Q) as Hs3.
  destruct h; [simplify_eq; split; [done|by left]|].
  destruct (ctx_done s3) as [d s4] eqn:E4. apply ctx_done_quiet in E4.
  pose proof (swept_quiet _ _ _ Hs3 E4) as Hs4.
  assert (found s4 = found s1) as F4 by (rewrite (qu_found _ _ E4); apply (qu_found _ _ Q)).
  destruct d; [simplify_eq; split; [done|right; lia]|].
  destruct (signalEach alive SIGTERM s4) as [all s5] eqn:E5.
  apply (swept_signals s0) in E5 as (Hs5 & F5 & Hr5); [|done|rewrite F4; set_solver|by left].
  destruct all; simpl in H; [|simplify_eq; split; [done|left; auto]].
  destruct (waitGoneUntil fuel (Some stopping) alive s5) as [[alive2 s6]|] eqn:E6; [|done].
  apply waitGoneUntil_spec in E6 as [Q6 Hl6]; [|exact stopping_halt].
  pose proof (swept_quiet _ _ _ Hs5 Q6) as Hs6. simpl in H. case_decide; [by simplify_eq|].
  destruct (signalEach alive2 SIGKILL s6) as [all s7] eqn:E7.
  apply (swept_signals s0) in E7 as (Hs7 & F7 & Hr7);
    [|done|rewrite (qu_found _ _ Q6), F5, F4; set_solver|by right].
  destruct all; simpl in H; [|simplify_eq; split; [done|left; auto]].
  destruct (waitGoneUntil fuel (Some stopping) alive2 s7) as [[alive3 s8]|] eqn:E8; [|done].
  apply waitGoneUntil_spec in E8 as [Q8 _]; [|exact stopping_halt].
  simpl in H. injection H as <- <-. split; [|done]. eapply swept_quiet; [exact Hs7|exact Q8].
Qed.

Lemma sweep_loop_spec s0 fuel pgid s n s' :
  swept s0 s -> sweep_loop fuel pgid s = Some (n, s') ->
  swept s0 s' /\ ((n = sweepHandedOver /\ stopSeen s' = true) \/ (0 <= n)%Z).
Proof.
  revert s. induction fuel as [|fuel IH]; intros s Hs H; simpl in H; [done|].
  destruct (sweep_round fuel pgid s) as [[r s2]|] eqn:E; [|done].
  destruct (sweep_round_spec _ _ _ _ _ _ Hs E) as [Hs2 Hr]. simpl in H.
  destruct r as [m|]; [by simplify_eq|]. by eapply IH.
Qed.

(** The sweep yields to a stop. It signals only processes that a scan found as the
    monitor's own children in the command's session, with SIGTERM or SIGKILL, and
    nothing at all once it has seen that a stop is requested; it reports that it handed
    over only when it has seen one, and otherwise a count that is not negative. *)
Theorem sweep_yields_to_stop fuel pgid s n s' :
  sweepRunSurvivors fuel pgid s = Some (n, s') ->
  (exists new, log s' = log s ++ new /\ Forall (sweep_signal (found s')) new) /\
  ((n = sweepHandedOver /\ stopSeen s' = true) \/ (0 <= n)%Z).
Proof.
  unfold sweepRunSurvivors. intros H.
  assert (swept s s) as Hs by (exists []; by rewrite app_nil_r).
  case_decide; [simplify_eq; split; [done|by right]|]. by eapply sweep_loop_spec.
Qed.

(** A signal of the await: the SIGKILL of a stop whose own has gone out, to a process
    outside the command's group. *)
Definition await_signal (pgid : Z) (f : list Z) (x : sent) : Prop :=
  when_killed x = true /\ sig x = SIGKILL /\ to x ∈ f /\ exists g, group x = Some g /\ g <> pgid.

Definition awaited (pgid : Z) (s0 s : st) : Prop :=
  exists new, log s = log s0 ++ new /\ Forall (await_signal pgid (found s)) new.

Lemma awaited_quiet pgid s0 s s' : awaited pgid s0 s -> quiet s s' -> awaited pgid s0 s'.
Proof. intros (new & L & F) [L' F' _ _]. exists new. by rewrite L', F'. Qed.

Lemma runSurvivors_awaited s0 pgid s r s' :
  runSurvivors pgid s = (r, s') -> awaited pgid s0 s ->
  awaited pgid s0 s' /\ killSeen s' = killSeen s /\ forall pids, r = Some pids -> pids ⊆ found s'.
Proof.
  unfold runSurvivors. destruct (os_scan sys (world s)) as [[entries|] w]; intros [= <- <-] (new & L & F).
  - split; [|split; [done|]; intros pids [= <-]; simpl; set_solver]. exists new. split; [done|].
    eapply Forall_impl; [exact F|]. intros x (? & ? & ? & ?). split_and!; try done.
    simpl. apply elem_of_app. by left.
  - split; [|done]. by exists new.
Qed.

Lemma outsideGroup_spec pids pgid s out s' :
  outsideGroup pids pgid s = (out, s') ->
  quiet s s' /\ Forall (fun e => e.1 ∈ pids /\ e.2 <> pgid) out.
Proof.
  revert s out s'. induction pids as [|pid pids IH]; intros s out s' H; simpl in H; [by simplify_eq|].
  destruct (os_stat sys pid (world s)) as [stat w].
  destruct (outsideGroup pids pgid (with_world w s)) as [l s1] eqn:E. apply IH in E as [Q Hl].
  assert (Forall (fun e : Z * Z => e.1 ∈ pid :: pids /\ e.2 <> pgid) l) as Hl'.
  { eapply Forall_impl; [exact Hl|]. intros e []. split; [by right|done]. }
  assert (quiet s s1) by (etrans; [apply with_world_quiet|exact Q]).
  destruct (readProcIDs stat) as [ids|]; [case_decide|]; simplify_eq; split; try done.
  constructor; [|done]. split; [by left|done].
Qed.

Lemma kill_outside_spec pgid s0 out s :
  killSeen s = true -> Forall (fun e => e.1 ∈ found s /\ e.2 <> pgid) out -> awaited pgid s0 s ->
  awaited pgid s0 (kill_outside out s) /\ killSeen (kill_outside out s) = true /\
  found (kill_outside out s) = found s.
Proof.
  revert s. induction out as [|[pid grp] out IH]; intros s Hk Ho (new & L & F); simpl.
  { split_and!; try done. by exists new. }
  inversion Ho as [|? ? [H1 H2] Ho']; subst. unfold kill. destruct (os_kill sys pid SIGKILL (world s)) as [ok w].
  set (s1 := if ok then _ else _).
  assert (killSeen s1 = true /\ found s1 = found s /\
    log s1 = log s ++ [MkSent pid SIGKILL (stopSeen s) (killSeen s) (Some grp)]) as (K1 & F1 & L1)
    by (unfold s1; by destruct ok).
  destruct (IH s1) as (A & K & F2); [done|by rewrite F1| |by rewrite F2].
  exists (new ++ [MkSent pid SIGKILL (stopSeen s) (killSeen s) (Some grp)]).
  rewrite L1, L, F1, app_assoc. split; [done|]. apply Forall_app. split; [done|].
  apply Forall_singleton. split_and!; try done. by exists grp.
Qed.

Lemma completeStopKill_spec s0 fuel pgid s n s' :
  killSeen s = true -> awaited pgid s0 s -> completeStopKill fuel pgid s = Some (n, s') ->
  awaited pgid s0 s' /\ (0 <= n)%Z.
Proof.
  revert s. induction fuel as [|fuel IH]; intros s Hk Hs H; simpl in H; [done|].
  destruct (runSurvivors pgid s) as [[pids|] s1] eqn:E1;
    destruct (runSurvivors_awaited s0 _ _ _ _ E1 Hs) as (Hs1 & K1 & Hp); [|by simplify_eq].
  specialize (Hp pids eq_refl).
  destruct (reapGone pids s1) as [alive s2] eqn:E2. apply reapGone_spec in E2 as [Q2 Hl].
  pose proof (awaited_quiet _ _ _ _ Hs1 Q2) as Hs2. case_decide; [by simplify_eq|].
  destruct (ctx_done s2) as [d s3] eqn:E3. apply ctx_done_quiet in E3.
  pose proof (awaited_quiet _ _ _ _ Hs2 E3) as Hs3.
  destruct d; [simplify_eq; split; [done|lia]|].
  destruct (outsideGroup alive pgid s3) as [out s4] eqn:E4. apply outsideGroup_spec in E4 as [Q4 Ho].
  pose proof (awaited_quiet _ _ _ _ Hs3 Q4) as Hs4.
  assert (found s4 = found s1) as F4 by
    (rewrite (qu_found _ _ Q4), (qu_found _ _ E3); apply (qu_found _ _ Q2)).
  assert (killSeen s4 = true) as K4 by (apply Q4, E3, Q2; congruence).
  destruct (kill_outside_spec pgid s0 out s4 K4) as (Hs5 & K5 & F5); [|done|].
  { eapply Forall_impl; [exact Ho|]. intros e [He ?]. rewrite F4. set_solver. }
  destruct (waitGoneUntil fuel None alive (kill_outside out s4)) as [[alive2 s6]|] eqn:E6; [|done].
  apply waitGoneUntil_spec in E6 as [Q6 _]; [|done]. simpl in H.
  pose proof (awaited_quiet _ _ _ _ Hs5 Q6) as Hs6. case_decide.
  { eapply IH; [|exact Hs6|exact H]. by apply Q6. }
  destruct (ctx_done s6) as [d s7] eqn:E7. apply ctx_done_quiet in E7.
  pose proof (awaited_quiet _ _ _ _ Hs6 E7) as Hs7.
  destruct d; [simplify_eq; split; [done|lia]|]. eapply IH; [|exact Hs7|exact H]. by apply E7, Q6.
Qed.

Lemma await_loop_spec s0 fuel pgid s n s' :
  awaited pgid s0 s -> await_loop fuel pgid s = Some (n, s') -> awaited pgid s0 s' /\ (0 <= n)%Z.
Proof.
  revert s. induction fuel as [|fuel IH]; intros s Hs H; simpl in H; [done|].
  destruct (runSurvivors pgid s) as [[pids|] s1] eqn:E1;
    destruct (runSurvivors_awaited s0 _ _ _ _ E1 Hs) as (Hs1 & _ & _); [|by simplify_eq].
  destruct (reapGone pids s1) as [alive s2] eqn:E2. apply reapGone_spec in E2 as [Q2 _].
  pose proof (awaited_quiet _ _ _ _ Hs1 Q2) as Hs2. case_decide; [by simplify_eq|].
  destruct (killed s2) as [k s3] eqn:E3. apply killed_spec in E3 as [Q3 Hk].
  pose proof (awaited_quiet _ _ _ _ Hs2 Q3) as Hs3.
  destruct k; [by eapply completeStopKill_spec|].
  destruct (wait s3) as [k s4] eqn:E4. apply wait_quiet in E4.
  pose proof (awaited_quiet _ _ _ _ Hs3 E4) as Hs4.
  destruct k; [by eapply IH|by simplify_eq; split; [|lia]..].
Qed.

(** The await leaves the survivors to the stop. It sends nothing before it has seen
    that the stop's own SIGKILL went out, and then only SIGKILL, to children of the
    monitor in the command's session that have left the command's process group, which
    the stop's signal cannot reach; it never reports a hand-over. *)
Theorem await_only_completes_kill fuel pgid s n s' :
  awaitRunSurvivors fuel pgid s = Some (n, s') ->
  (exists new, log s' = log s ++ new /\ Forall (await_signal pgid (found s')) new) /\ (0 <= n)%Z.
Proof.
  unfold awaitRunSurvivors. intros H.
  assert (awaited pgid s s) as Hs by (exists []; by rewrite app_nil_r).
  case_decide; [by simplify_eq|]. by eapply await_loop_spec.
Qed.

(** ** The sweep returns *)

(** Time passes: [left] is what is left until the context ends.  Every scan takes some of
    it and so does every tick; once none is left the context's error is set and no wait
    ends with a tick. *)
Record timed (left : W -> nat) : Prop := {
  ti_scan : forall w, left (os_scan sys w).2 <= left w - 1;
  ti_tick : forall w, match (os_wait sys w).1 with
                      | WTick => left (os_wait sys w).2 < left w
                      | _ => left (os_wait sys w).2 <= left w end;
  ti_done : forall w, left w = 0 -> (os_done sys w).1 = true;
  ti_done_left : forall w, left (os_done sys w).2 <= left w;
  ti_gone : forall pid w, left (os_gone sys pid w).2 <= left w;
  ti_stat : forall pid w, left (os_stat sys pid w).2 <= left w;
  ti_kill : forall pid sg w, left (os_kill sys pid sg w).2 <= left w;
  ti_stop : forall w, left (os_stop sys w).2 <= left w;
  ti_killed : forall w, left (os_killed sys w).2 <= left w;
}.

Context (left : W -> nat) (T : timed left).

Definition time (s : st) : nat := left (world s).

Lemma reapGone_time pids s l s' : reapGone pids s = (l, s') -> time s' <= time s.
Proof.
  revert s l s'. induction pids as [|pid pids IH]; intros s l s' H; simpl in H; [by simplify_eq|].
  pose proof (ti_gone _ T pid (world s)). destruct (os_gone sys pid (world s)) as [gone w].
  destruct (reapGone pids (with_world w s)) as [l1 s1] eqn:E. apply IH in E.
  unfold time in *. simpl in *. destruct gone; simplify_eq; lia.
Qed.

Lemma stopping_time s b s' : stopping s = (b, s') -> time s' <= time s.
Proof.
  unfold stopping, time. pose proof (ti_stop _ T (world s)) as H.
  destruct (os_stop sys (world s)). by intros [= <- <-].
Qed.

Lemma ctx_done_time s b s' : ctx_done s = (b, s') -> time s' <= time s /\ (b = false -> 0 < time s).
Proof.
  unfold ctx_done, time. pose proof (ti_done_left _ T (world s)) as H.
  pose proof (ti_done _ T (world s)) as H0.
  destruct (os_done sys (world s)) as [d w]. intros [= <- <-]. split; [done|]. intros ->.
  simpl in H0. destruct (left (world s)); [by discriminate H0|lia].
Qed.

Lemma wait_time s k s' : wait s = (k, s') -> time s' <= time s /\ (k = WTick -> time s' < time s).
Proof.
  unfold wait, time. pose proof (ti_tick _ T (world s)) as H.
  destruct (os_wait sys (world s)) as [k1 w]. intros [= <- <-]. simpl in *. destruct k1; split; done || lia.
Qed.

Lemma signalEach_time pids sg s r s' : signalEach pids sg s = (r, s') -> time s' <= time s.
Proof.
  revert s. induction pids as [|pid pids IH]; intros s H; simpl in H; [by simplify_eq|].
  destruct (stopping s) as [h s1] eqn:E. apply stopping_time in E. destruct h; [by simplify_eq|].
  unfold kill in H. pose proof (ti_kill _ T pid sg (world s1)) as Hk.
  destruct (os_kill sys pid sg (world s1)) as [ok w]. apply IH in H. unfold time in *. simpl in *. lia.
Qed.

Lemma runSurvivors_time pgid s r s' : runSurvivors pgid s = (r, s') -> time s' <= time s - 1.
Proof.
  unfold runSurvivors, time. pose proof (ti_scan _ T (world s)) as H.
  destruct (os_scan sys (world s)) as [[entries|] w]; by intros [= <- <-].
Qed.

Lemma outsideGroup_time pids pgid s out s' : outsideGroup pids pgid s = (out, s') -> time s' <= time s.
Proof.
  revert s out s'. induction pids as [|pid pids IH]; intros s out s' H; simpl in H; [by simplify_eq|].
  pose proof (ti_stat _ T pid (world s)). destruct (os_stat sys pid (world s)) as [stat w].
  destruct (outsideGroup pids pgid (with_world w s)) as [l s1] eqn:E. apply IH in E.
  unfold time in *. simpl in *. destruct (readProcIDs stat); [case_decide|]; simplify_eq; lia.
Qed.

Lemma kill_outside_time out s : time (kill_outside out s) <= time s.
Proof.
  revert s. induction out as [|[pid grp] out IH]; intros s; simpl; [done|].
  unfold kill. pose proof (ti_kill _ T pid SIGKILL (world s)) as Hk.
  destruct (os_kill sys pid SIGKILL (world s)) as [ok w].
  etrans; [apply IH|]. unfold time. by destruct ok.
Qed.

Lemma waitGoneUntil_returns fuel halt pids s :
  (forall h, halt = Some h -> forall s b s', h s = (b, s') -> time s' <= time s) ->
  time s < fuel -> exists alive s', waitGoneUntil fuel halt pids s = Some (alive, s') /\ time s' <= time s.
Proof.
  intros Hh. revert pids s. induction fuel as [|fuel IH]; intros pids s Hf; [lia|]. simpl.
  destruct (reapGone pids s) as [l s1] eqn:E. apply reapGone_time in E.
  case_decide; [by eexists _, _|].
  destruct (match halt with Some h => h s1 | None => (false, s1) end) as [b s2] eqn:Eh.
  assert (time s2 <= time s1) by (destruct halt as [h|]; [by eapply Hh|by simplify_eq]).
  destruct b; [eexists _, _; split; [done|lia]|].
  destruct (wait s2) as [k s3] eqn:Ew. apply wait_time in Ew as [Hw Ht].
  destruct k; [|eexists _, _; split; [done|lia]..]. specialize (Ht eq_refl).
  destruct (IH l s3 ltac:(lia)) as (alive & s' & -> & H'). eexists _, _. split; [done|lia].
Qed.

Lemma stopping_halt_time h :
  Some stopping = Some h -> forall s b s', h s = (b, s') -> time s' <= time s.
Proof. intros [= <-]. exact stopping_time. Qed.

Lemma sweep_round_returns fuel pgid s :
  time s < fuel ->
  exists r s', sweep_round fuel pgid s = Some (r, s') /\ (r = inr tt -> time s' < time s).
Proof.
  intros Hf. unfold sweep_round.
  destruct (runSurvivors pgid s) as [[pids|] s1] eqn:E1; apply runSurvivors_time in E1;
    [|by eexists _, _].
  destruct (reapGone pids s1) as [alive s2] eqn:E2. apply reapGone_time in E2.
  case_decide; [by eexists _, _|].
  destruct (stopping s2) as [h s3] eqn:E3. apply stopping_time in E3. destruct h; [by eexists _, _|].
  destruct (ctx_done s3) as [d s4] eqn:E4. apply ctx_done_time in E4 as [E4 Hd].
  destruct d; [by eexists _, _|]. specialize (Hd eq_refl).
  destruct (signalEach alive SIGTERM s4) as [all s5] eqn:E5. apply signalEach_time in E5.
  destruct all; [|by eexists _, _]. cbn [negb].
  destruct (waitGoneUntil_returns fuel (Some stopping) alive s5 stopping_halt_time ltac:(lia))
    as (alive2 & s6 & -> & E6). simpl. case_decide; [eexists _, _; split; [done|lia]|].
  destruct (signalEach alive2 SIGKILL s6) as [all s7] eqn:E7. apply signalEach_time in E7.
  destruct all; [|by eexists _, _]. cbn [negb].
  destruct (waitGoneUntil_returns fuel (Some stopping) alive2 s7 stopping_halt_time ltac:(lia))
    as (alive3 & s8 & -> & E8). simpl. eexists _, _. split; [done|lia].
Qed.

Lemma killed_time s b s' : killed s = (b, s') -> time s' <= time s.
Proof.
  unfold killed, time. pose proof (ti_killed _ T (world s)) as H.
  destruct (os_killed sys (world s)). by intros [= <- <-].
Qed.

Lemma completeStopKill_returns fuel pgid s :
  time s + 2 <= fuel -> exists n s', completeStopKill fuel pgid s = Some (n, s').
Proof.
  revert s. induction fuel as [|fuel IH]; intros s Hf; [lia|]. simpl.
  destruct (runSurvivors pgid s) as [[pids|] s1] eqn:E1; apply runSurvivors_time in E1;
    [|by eexists _, _].
  destruct (reapGone pids s1) as [alive s2] eqn:E2. apply reapGone_time in E2.
  case_decide; [by eexists _, _|].
  destruct (ctx_done s2) as [d s3] eqn:E3. apply ctx_done_time in E3 as [E3 Hd].
  destruct d; [by eexists _, _|]. specialize (Hd eq_refl).
  destruct (outsideGroup alive pgid s3) as [out s4] eqn:E4. apply outsideGroup_time in E4.
  pose proof (kill_outside_time out s4) as E5.
  destruct (waitGoneUntil_returns fuel None alive (kill_outside out s4) ltac:(done) ltac:(lia))
    as (alive2 & s6 & -> & E6). simpl. case_decide; [apply IH; lia|].
  destruct (ctx_done s6) as [d s7] eqn:E7. apply ctx_done_time in E7 as [E7 _].
  destruct d; [by eexists _, _|]. apply IH. lia.
Qed.

Lemma await_loop_returns fuel pgid s :
  time s + 3 <= fuel -> exists n s', await_loop fuel pgid s = Some (n, s').
Proof.
  revert s. induction fuel as [|fuel IH]; intros s Hf; [lia|]. simpl.
  destruct (runSurvivors pgid s) as [[pids|] s1] eqn:E1; apply runSurvivors_time in E1;
    [|by eexists _, _].
  destruct (reapGone pids s1) as [alive s2] eqn:E2. apply reapGone_time in E2.
  case_decide; [by eexists _, _|].
  destruct (killed s2) as [k s3] eqn:E3. apply killed_time in E3.
  destruct k; [apply completeStopKill_returns; lia|].
  destruct (wait s3) as [k s4] eqn:E4. apply wait_time in E4 as [E4 Ht].
  destruct k; [|by eexists _, _..]. apply IH. specialize (Ht eq_refl). lia.
Qed.

(** The sweep and the await come to an end. With time passing, both return a result
    within as many rounds as there is time left of their context, whatever processes
    ignore their signals and however fast new ones appear. *)
Theorem sweep_and_await_return fuel pgid s :
  time s + 3 <= fuel ->
  (exists n s', sweepRunSurvivors fuel pgid s = Some (n, s')) /\
  (exists n s', awaitRunSurvivors fuel pgid s = Some (n, s')).
Proof.
  unfold sweepRunSurvivors, awaitRunSurvivors. intros Hf. case_decide; [by split; eexists _, _|].
  split; [|by apply await_loop_returns].
  assert (time s + 2 <= fuel) as Hf2 by lia. clear Hf.
  revert s Hf2. induction fuel as [|fuel IH]; intros s Hf; [lia|]. simpl.
  destruct (sweep_round_returns fuel pgid s ltac:(lia)) as (r & s' & -> & Hr). simpl.
  destruct r as [m|[]]; [by eexists _, _|]. apply IH. specialize (Hr eq_refl). lia.
Qed.

End Survivors.

(** ** A small system *)

(** Its processes with their groups, and the time left; SIGTERM is ignored, and a stop
    is requested once less than [w_stop] is left. *)
Record demo_world := MkWorld { w_procs : list (Z * Z); w_left : nat; w_stop : nat }.

Definition demo_stat (p : Z * Z) : string :=
  Itoa p.1 +:+ " (a) b) S 7 " +:+ Itoa p.2 +:+ " 100 0 -1".

Definition demo_tick (w : demo_world) : demo_world := MkWorld (w_procs w) (w_left w - 1) (w_stop w).

Definition demo_os : os := {|
  os_scan w := (Some (("self", None) :: map (fun p => (Itoa p.1, Some (demo_stat p))) (w_procs w)), demo_tick w);
  os_gone pid w := (negb (bool_decide (pid ∈ map fst (w_procs w))), w);
  os_stat pid w := (demo_stat <$> head (filter (fun p => p.1 = pid) (w_procs w)), w);
  os_kill pid sg w :=
    (true, if decide (sg = SIGKILL) then MkWorld (filter (fun p => p.1 <> pid) (w_procs w)) (w_left w) (w_stop w)
           else w);
  os_stop w := (bool_decide (w_left w < w_stop w), w);
  os_killed w := (true, w);
  os_done w := (bool_decide (w_left w = 0), w);
  os_wait w := (if decide (w_left w = 0) then WDone else WTick, demo_tick w);
|}.

Lemma demo_timed : timed demo_os w_left.
Proof.
  constructor; intros; simpl; try lia.
  - case_decide; simpl; lia.
  - by apply bool_decide_eq_true_2.
  - by case_decide.
Qed.

Definition demo_state (stop : nat) : st :=
  MkSt (MkWorld [(42, 100); (43, 43)]%Z 9 stop) false false [] [] 0.

Lemma sweep_yields_to_stop_witness :
  exists s', sweepRunSurvivors demo_os 7 12 100 (demo_state 6) = Some (sweepHandedOver, s') /\
    length (log s') = 2 /\ stopSeen s' = true /\ Forall (sweep_signal (found s')) (log s').
Proof.
  destruct (sweepRunSurvivors demo_os 7 12 100 (demo_state 6)) as [[n s']|] eqn:E; [|by vm_compute in E].
  destruct (sweep_yields_to_stop demo_os 7 12 100 (demo_state 6) n s' E) as [(new & Hl & HF) _].
  exists s'. vm_compute in E. injection E as <- <-. split; [done|]. split; [done|]. split; [done|].
  simpl in Hl. rewrite Hl. exact HF.
Defined.

Lemma await_only_completes_kill_witness :
  exists n s', awaitRunSurvivors demo_os 7 12 100 (demo_state 0) = Some (n, s') /\
    map to (log s') = [43%Z] /\ Forall (await_signal 100 (found s')) (log s').
Proof.
  destruct (awaitRunSurvivors demo_os 7 12 100 (demo_state 0)) as [[n s']|] eqn:E; [|by vm_compute in E].
  destruct (await_only_completes_kill demo_os 7 12 100 (demo_state 0) n s' E) as [(new & Hl & HF) _].
  exists n, s'. vm_compute in E. injection E as <- <-. split; [done|]. split; [done|].
  simpl in Hl. rewrite Hl. exact HF.
Defined.

Lemma sweep_and_await_return_witness :
  (exists n s', sweepRunSurvivors demo_os 7 12 100 (demo_state 0) = Some (n, s')) /\
  (exists n s', awaitRunSurvivors demo_os 7 12 100 (demo_state 0) = Some (n, s')).
Proof.
  apply (sweep_and_await_return demo_os 7 w_left demo_timed 12 100 (demo_state 0)). vm_compute. lia.
Defined.
