(* ===== verification/Supervisor.v ===== *)
(** * The monitor: supervising one command

    [cmdman/monitor/mon_run.go] (the run loop, one run, the sweep at its end),
    [mon.go] (state changes, signals, stops and their escalation) and
    [stop_command.go] (the stop sequence) as a step relation.  The run loop is one
    goroutine; stops, signals, fired deadlines and stop sequences are others.  A step
    is what a goroutine does between two points where another may run: a section
    under [procMu], the access to an atomic, a hand-over to the event log or the
    store.  What the operating system, the disk and the clock answer is chosen
    freely. *)

From S2P Require Import Prelude GoStr Model.

(** ** Signals and anomalies *)

(* src/cmdman/monitor/mon_run.go:38-47 runAnomaly *)
Record runAnomaly := MkAnomaly { an_attr : string; an_value : string; an_msg : string }.

(* src/cmdman/monitor/mon_run.go:49-56 anomalyReaderDetached *)
Definition anomalyReaderDetached : runAnomaly :=
  MkAnomaly "reader_detached" "" "output reader still blocked after 1s".

(* src/cmdman/monitor/mon_run.go:58-67 anomalySurvivorsUnreaped *)
Definition anomalySurvivorsUnreaped (n : Z) : runAnomaly :=
  MkAnomaly "survivors_unreaped" (Itoa n)
    (Itoa n +:+ " survivor(s) still alive after sweep bound").

(* src/cmdman/monitor/mon_run.go:69-77 anomalyForceKilled *)
Definition anomalyForceKilled : runAnomaly :=
  MkAnomaly "force_killed" ""
    ("the stop signal did not end the command within its grace period; " +:+
     "resorted to SIGKILL; detached processes may survive").

(** Assigning into the map in order: a later anomaly of the same kind wins. *)
(* src/cmdman/monitor/mon_run.go:83-98 Monitor.runAnomalyAttrs *)
Definition runAnomalyAttrs (l : list runAnomaly) : gmap string string :=
  foldl (fun m a => <[an_attr a := if decide (an_value a = "") then "true" else an_value a]> m) ∅ l.

(* src/cmdman/monitor/mon_run.go:100-111 Monitor.runAnomalyWarnings *)
Definition runAnomalyWarnings (l : list runAnomaly) : list string := map an_msg l.

(** ** The state *)

(** What the outside sees, in order: appends to the event log, writes of the state
    row, publications on the state bridge, signals, stop commands, the recorded exit
    code and the removal.  Appends and writes are what the monitor hands over: the
    code only logs their failures. *)
Inductive action :=
| AEvent (e : Event)
| AWrite (st : EventType) (code : option Z) (js : CommandState)
| APublish (st : EventType) (code pid : Z)
| ASignal (target sig : Z)
| AStopCommand (seq : nat)
| AExitCode (code : Z)
| ADelete.

(** The fields under [procMu]; a timer and a stop sequence are known by number. *)
(* src/cmdman/monitor/mon.go:84-92 Monitor *)
Record procState := MkProc {
  p_cmd : option Z;
  p_runPgid : Z;
  p_stopDeadline : option nat;
  p_stopSeq : option nat;
  p_gracefulStop : bool;
}.

(* src/cmdman/monitor/mon.go:158-174 Monitor *)
Record latches := MkLatches {
  l_stopRequested : bool;
  l_stopKilled : bool;
  l_forceKilled : bool;
}.

(** What only the goroutine of the run reads and writes. *)
(* src/cmdman/monitor/mon.go:53-54 Monitor *)
Record runOwned := MkOwned {
  o_stateJSON : CommandState;
  o_cfg : CommandConfig;
  o_runAnomalies : list runAnomaly;
}.

(* src/cmdman/monitor/stop_command.go:57-67 stopBegin *)
Record stopBegin := MkBegin { sb_sig : Z; sb_grace : Z; sb_bound : Z; sb_mainPID : Z }.

(** [begin] is a channel with room for one; [s_done] its closed [done] channel. *)
(* src/cmdman/monitor/stop_command.go:21-55 stopSequence *)
Record stopSequence := MkSeq {
  s_begin : list stopBegin;
  s_begun : bool;
  s_cancelled : bool;
  s_done : bool;
}.

(** The result of a signal: none to send it to, or the kernel's answer. *)
Inductive sigResult := SigOk | SigESRCH | SigNoProcess | SigOther (msg : string).

#[export] Instance sigResult_eq_dec : EqDecision sigResult.
Proof. solve_decision. Defined.

(** The result of a run: the exit code, or the error of its setup or its wait. *)
Definition runResult := result string Z.

(** The locals of a run: its process group and its stop sequence. *)
Record runLocal := MkLocal { rl_pgid : Z; rl_seq : option nat }.

(** Where the run's goroutine stands.  [PTop] carries the exit code of the run
    before, none for the first iteration. *)
Inductive runpc :=
| PTop (prev : option Z)
| PRestart
| PReadConfig
| PReset
| PSetup
| PPublish (pid : Z)
| PRunningEvent (L : runLocal)
| PRunningWrite (L : runLocal)
| PRunningPublish (L : runLocal)
| PWait (L : runLocal)
| PReaped (L : runLocal) (r : runResult)
| PSweep (L : runLocal) (r : runResult)
| PTerminate (L : runLocal) (r : runResult)
| PAwait (L : runLocal) (r : runResult)
| PNoteEvent (L : runLocal) (r : runResult)
| PAwaited (L : runLocal) (r : runResult) (n : Z)
| PTerminateAll (L : runLocal) (r : runResult)
| PSwept (L : runLocal) (r : runResult) (n : Z)
| PDrain (L : runLocal) (r : runResult)
| PFinishSeq (L : runLocal) (r : runResult)
| PRetireSeq (L : runLocal) (r : runResult) (seq : nat)
| PRetired (L : runLocal) (r : runResult) (seq : nat)
| PJoinSeq (L : runLocal) (r : runResult) (seq : nat)
| PGiveUp (r : runResult)
| PReturn (r : runResult)
| PDecide (code : Z)
| PExit (code : Z) (remove : bool)
| PExitWrite (code : Z) (remove : bool)
| PExitPublish (code : Z) (remove : bool)
| PFail (msg : string)
| PFailWrite
| PFailPublish
| PRemove
| PDefer
| PDone.

(** Where another goroutine stands: a stop, a signal, a fired deadline, or the
    goroutine of a stop sequence. *)
Inductive thread :=
| TStop (sig timeout : Z)
| TStopLatch (sig timeout : Z)
| TStopLock (sig timeout : Z)
| TStopCancel (sig : Z) (escalating : bool) (seq : nat)
| TStopSend (sig : Z) (escalating : bool)
| TSignal (sig : Z)
| TSignalSend (sig : Z) (cmd : option Z) (pgid : Z) (stop : bool)
| TForced (r : sigResult)
| TEscalate
| TEscalateKill
| TSeqWait (seq : nat)
| TSeqCommand (seq : nat) (b : stopBegin)
| TSeqRunning (seq : nat) (b : stopBegin)
| TSeqLock (seq : nat) (b : stopBegin)
| TSeqSignal (seq : nat) (pgid sig : Z)
| TReturn (r : sigResult).

Record system := MkSystem {
  proc : procState;
  latch : latches;
  own : runOwned;
  hist : list action;
  outputClosed : bool;
  stateClosed : bool;
  runGen : nat;
  seqs : gmap nat stopSequence;
  timers : gset nat;
  nextId : nat;
  ctxDone : bool;
  runAt : runpc;
  threads : list thread;
}.

Definition with_proc (f : procState -> procState) (s : system) : system :=
  MkSystem (f (proc s)) (latch s) (own s) (hist s) (outputClosed s) (stateClosed s) (runGen s)
    (seqs s) (timers s) (nextId s) (ctxDone s) (runAt s) (threads s).
Definition with_latch (f : latches -> latches) (s : system) : system :=
  MkSystem (proc s) (f (latch s)) (own s) (hist s) (outputClosed s) (stateClosed s) (runGen s)
    (seqs s) (timers s) (nextId s) (ctxDone s) (runAt s) (threads s).
Definition with_own (f : runOwned -> runOwned) (s : system) : system :=
  MkSystem (proc s) (latch s) (f (own s)) (hist s) (outputClosed s) (stateClosed s) (runGen s)
    (seqs s) (timers s) (nextId s) (ctxDone s) (runAt s) (threads s).
Definition act (a : action) (s : system) : system :=
  MkSystem (proc s) (latch s) (own s) (hist s ++ [a]) (outputClosed s) (stateClosed s) (runGen s)
    (seqs s) (timers s) (nextId s) (ctxDone s) (runAt s) (threads s).
Definition close_bridges (output state : bool) (s : system) : system :=
  MkSystem (proc s) (latch s) (own s) (hist s) (outputClosed s || output) (stateClosed s || state)
    (runGen s) (seqs s) (timers s) (nextId s) (ctxDone s) (runAt s) (threads s).
Definition next_gen (s : system) : system :=
  MkSystem (proc s) (latch s) (own s) (hist s) (outputClosed s) (stateClosed s) (S (runGen s))
    (seqs s) (timers s) (nextId s) (ctxDone s) (runAt s) (threads s).
Definition with_seqs (f : gmap nat stopSequence -> gmap nat stopSequence) (s : system) : system :=
  MkSystem (proc s) (latch s) (own s) (hist s) (outputClosed s) (stateClosed s) (runGen s)
    (f (seqs s)) (timers s) (nextId s) (ctxDone s) (runAt s) (threads s).
Definition with_timers (f : gset nat -> gset nat) (s : system) : system :=
  MkSystem (proc s) (latch s) (own s) (hist s) (outputClosed s) (stateClosed s) (runGen s)
    (seqs s) (f (timers s)) (nextId s) (ctxDone s) (runAt s) (threads s).
Definition fresh (s : system) : system :=
  MkSystem (proc s) (latch s) (own s) (hist s) (outputClosed s) (stateClosed s) (runGen s)
    (seqs s) (timers s) (S (nextId s)) (ctxDone s) (runAt s) (threads s).
Definition cancel_ctx (s : system) : system :=
  MkSystem (proc s) (latch s) (own s) (hist s) (outputClosed s) (stateClosed s) (runGen s)
    (seqs s) (timers s) (nextId s) true (runAt s) (threads s).
Definition goto (pc : runpc) (s : system) : system :=
  MkSystem (proc s) (latch s) (own s) (hist s) (outputClosed s) (stateClosed s) (runGen s)
    (seqs s) (timers s) (nextId s) (ctxDone s) pc (threads s).
Definition with_threads (f : list thread -> list thread) (s : system) : system :=
  MkSystem (proc s) (latch s) (own s) (hist s) (outputClosed s) (stateClosed s) (runGen s)
    (seqs s) (timers s) (nextId s) (ctxDone s) (runAt s) (f (threads s)).

Definition set_js (f : CommandState -> CommandState) (o : runOwned) : runOwned :=
  MkOwned (f (o_stateJSON o)) (o_cfg o) (o_runAnomalies o).
Definition set_anomalies (f : list runAnomaly -> list runAnomaly) (o : runOwned) : runOwned :=
  MkOwned (o_stateJSON o) (o_cfg o) (f (o_runAnomalies o)).

Definition js_restarted (js : CommandState) : CommandState :=
  Build_CommandState (MonitorPID js) (SocketPath js) (StartedAt js) (FinishedAt js)
    (RestartCount js + 1) (cs_Error js) (Warnings js) (cs_ForceKilled js).
Definition js_started (at_ : string) (js : CommandState) : CommandState :=
  Build_CommandState (MonitorPID js) (SocketPath js) at_ (FinishedAt js)
    (RestartCount js) (cs_Error js) (Warnings js) (cs_ForceKilled js).
Definition js_finished (at_ : string) (js : CommandState) : CommandState :=
  Build_CommandState (MonitorPID js) (SocketPath js) (StartedAt js) at_
    (RestartCount js) (cs_Error js) (Warnings js) (cs_ForceKilled js).
Definition js_error (msg : string) (js : CommandState) : CommandState :=
  Build_CommandState (MonitorPID js) (SocketPath js) (StartedAt js) (FinishedAt js)
    (RestartCount js) msg (Warnings js) (cs_ForceKilled js).
Definition js_outcome (warnings : list string) (forced : bool) (js : CommandState) : CommandState :=
  Build_CommandState (MonitorPID js) (SocketPath js) (StartedAt js) (FinishedAt js)
    (RestartCount js) (cs_Error js) warnings forced.

(* src/cmdman/monitor/mon_run.go:78-81 Monitor.noteRunAnomaly *)
Definition noteRunAnomaly (a : runAnomaly) : system -> system :=
  with_own (set_anomalies (fun l => l ++ [a])).

(** [time.Duration]s: ten seconds. *)
(* src/cmdman/monitor/orphans.go:11-14 sweepBound *)
Definition sweepBound : Z := 10 * Second.

(** The free choices of one step: the clock, the answers of the disk, the kernel and
    the child, and what the sweep and the await report. *)
Inductive choice :=
| CGo
| CTime (t : Z)
| CTimes (t1 t2 : Z)
| CConfig (r : result string CommandConfig)
| CStarted (r : result string Z)
| CExited (r : runResult)
| CSwept (n : option Z)
| CAwait (n : option Z)
| CReaders (detached : bool)
| CBound
| CKernel (r : sigResult)
| CStopped (gone : bool) (r : sigResult).

(** [None]: nothing to signal; otherwise the group the signal goes to. *)
(* src/cmdman/monitor/mon.go:607-622 signalRun *)
Definition signalTarget (cmd : option Z) (pgid : Z) : option Z :=
  match cmd with
  | Some pid => Some pid
  | None => if decide (pgid = 0)%Z then None else Some pgid
  end.

Definition kernel_answer (r : sigResult) : bool :=
  match r with SigNoProcess => false | _ => true end.

(** [signalRun] with the kernel's answer [k]. *)
(* src/cmdman/monitor/mon.go:607-622 signalRun *)
Definition signalRun (cmd : option Z) (pgid sig : Z) (k : sigResult) (s : system) : sigResult * system :=
  match signalTarget cmd pgid with
  | Some target => (k, act (ASignal target sig) s)
  | None => (SigNoProcess, s)
  end.

Definition latch_forced (l : latches) : latches :=
  MkLatches (l_stopRequested l) (l_stopKilled l) true.

Section Supervisor.
Context (ID : string) (rfc3339 : Z -> string).

Definition mk_event (t : Z) (typ st : EventType) (code : option Z) (err : string)
    (attrs : gmap string string) : Event :=
  Build_Event t typ ID "" st code err attrs.

(* src/cmdman/monitor/mon.go:665-676 Monitor.emitForcedKill *)
Definition emitForcedKill (t : Z) : system -> system :=
  act (AEvent (mk_event t EventTypeStopped "" None ""
    (<["signal" := Itoa SIGKILL]> (<["reason" := "timeout"]> ∅)))).

(* src/cmdman/monitor/mon.go:433-449 Monitor.publishStateChange *)
Definition publishStateChange (st : EventType) (code : Z) (s : system) : system :=
  if stateClosed s then s
  else act (APublish st code (default 0%Z (p_cmd (proc s)))) s.

(** ** State changes *)

(** The sections of [setRunning], [setExited] and [setFailed]: the event, the write
    of the state row, the publication. *)
(* src/cmdman/monitor/mon.go:455-515 Monitor.setRunning, setExited, setFailed *)
Definition state_step (c : choice) (s : system) : option system :=
  match runAt s, c with
  | PRunningEvent L, CTimes t1 t2 =>
      Some (goto (PRunningWrite L)
        (act (AEvent (mk_event t2 EventTypeRunning EventTypeRunning None "" ∅))
          (with_own (set_js (js_started (rfc3339 t1))) s)))
  | PRunningWrite L, CGo =>
      Some (goto (PRunningPublish L)
        (act (AWrite EventTypeRunning None (o_stateJSON (own s))) s))
  | PRunningPublish L, CGo =>
      Some (goto (PWait L) (publishStateChange EventTypeRunning 0 s))
  | PExit code remove, CTime t =>
      Some (goto (PExitWrite code remove)
        (act (AEvent (mk_event t EventTypeExited EventTypeExited (Some code) ""
                        (runAnomalyAttrs (o_runAnomalies (own s))))) s))
  | PExitWrite code remove, CGo =>
      let s := with_own (set_js (js_outcome (runAnomalyWarnings (o_runAnomalies (own s)))
                                   (l_forceKilled (latch s)))) s in
      Some (goto (PExitPublish code remove)
        (act (AWrite EventTypeExited (Some code) (o_stateJSON (own s))) s))
  | PExitPublish code remove, CGo =>
      Some (goto (if remove then PRemove else PDefer)
        (close_bridges false true (publishStateChange EventTypeExited code s)))
  | PFail msg, CTime t =>
      Some (goto PFailWrite
        (act (AEvent (mk_event t EventTypeFailed EventTypeFailed None msg
                        (runAnomalyAttrs (o_runAnomalies (own s)))))
          (with_own (set_js (js_error msg)) s)))
  | PFailWrite, CGo =>
      let s := with_own (set_js (js_outcome (runAnomalyWarnings (o_runAnomalies (own s)))
                                   (l_forceKilled (latch s)))) s in
      Some (goto PFailPublish
        (act (AWrite EventTypeFailed None (o_stateJSON (own s))) s))
  | PFailPublish, CGo =>
      Some (goto PDefer (close_bridges false true (publishStateChange EventTypeFailed 0 s)))
  | _, _ => None
  end.

(** ** The run loop *)

(** The restart decision, with the context's error read as the code reads it. *)
(* src/cmdman/monitor/mon_run.go:214-225 Monitor.runLoop *)
Definition restart_wanted (cfg : CommandConfig) (js : CommandState) (code : Z) (done : bool) : bool :=
  if decide (cc_RestartPolicy cfg = RestartPolicyOnFailure) then
    negb (bool_decide (code = 0%Z)) && negb done &&
      (bool_decide (cc_MaxRetries cfg = 0%Z) ||
       bool_decide (RestartCount js < cc_MaxRetries cfg)%Z)
  else if decide (cc_RestartPolicy cfg = RestartPolicyAlways) then negb done
  else false.

(* src/cmdman/monitor/mon_run.go:146-232 Monitor.runLoop *)
Definition loop_step (c : choice) (s : system) : option system :=
  match runAt s, c with
  | PTop None, CTime t =>
      Some (goto PReadConfig
        (act (AEvent (mk_event t EventTypeStarting EventTypeStarting None "" ∅)) s))
  | PTop (Some prev), CGo =>
      Some (goto (if l_stopRequested (latch s) then PExit prev true else PRestart)
        (if l_stopRequested (latch s) then close_bridges true false s else s))
  | PRestart, CTime t =>
      let s := with_own (set_js js_restarted) s in
      Some (goto PReadConfig
        (act (AEvent (mk_event t EventTypeStarting "" None ""
                (<["restart_count" := Itoa (RestartCount (o_stateJSON (own s)))]> ∅))) s))
  | PReadConfig, CConfig (Ok cfg) =>
      Some (goto PReset (with_own (fun o => MkOwned (o_stateJSON o) cfg (o_runAnomalies o)) s))
  | PReadConfig, CConfig (Err msg) => Some (goto (PFail ("read config: " +:+ msg)) s)
  | PReturn (Err msg), CGo =>
      Some (if ctxDone s then goto (PExit (-1) false) (close_bridges true false s)
            else goto (PFail ("run failed: " +:+ msg)) s)
  | PReturn (Ok code), CTime t =>
      Some (goto (PDecide code)
        (act (AExitCode code) (with_own (set_js (js_finished (rfc3339 t))) s)))
  | PDecide code, CGo =>
      Some (if restart_wanted (o_cfg (own s)) (o_stateJSON (own s)) code (ctxDone s)
            then goto (PTop (Some code)) s
            else goto (PExit code true) (close_bridges true false s))
  | PDefer, CGo => Some (goto PDone (close_bridges true true s))
  | _, _ => None
  end.

(* src/cmdman/monitor/mon.go:517-528 Monitor.maybeAutoRemove *)
Definition maybeAutoRemove (c : choice) (s : system) : option system :=
  match runAt s, c with
  | PRemove, CGo =>
      Some (goto PDefer
        (if decide (Annotations (o_cfg (own s)) !! "cmdman.auto-remove" = Some "true")
         then act ADelete s else s))
  | _, _ => None
  end.

(** ** One run *)

Definition seq_done (s : system) (id : nat) : bool :=
  match seqs s !! id with Some q => s_done q | None => true end.

Definition update_seq (id : nat) (f : stopSequence -> stopSequence) : system -> system :=
  with_seqs (alter f id).
Definition seq_cancel (q : stopSequence) : stopSequence :=
  MkSeq (s_begin q) (s_begun q) true (s_done q).
Definition seq_finish (q : stopSequence) : stopSequence :=
  MkSeq (s_begin q) (s_begun q) (s_cancelled q) true.

(** The sequence of a run about to be published, with its goroutine. *)
(* src/cmdman/monitor/stop_command.go:69-100 Monitor.startStopSequence *)
Definition startStopSequence (s : system) : option nat * system :=
  match cc_StopCommand (o_cfg (own s)) with
  | Some stop =>
      if decide (stop_Args stop = []) then (None, s)
      else (Some (nextId s),
            with_threads (fun l => l ++ [TSeqWait (nextId s)])
              (with_seqs (<[nextId s := MkSeq [] false false false]>) (fresh s)))
  | None => (None, s)
  end.

(* src/cmdman/monitor/mon_run.go:272-414 Monitor.runOnce *)
Definition once_step (c : choice) (s : system) : option system :=
  match runAt s, c with
  | PReset, CGo =>
      let s := with_own (fun o => set_anomalies (fun _ => []) (set_js (js_outcome [] false) o)) s in
      let s := with_proc (fun p => MkProc (p_cmd p) (p_runPgid p) (p_stopDeadline p)
                                     (p_stopSeq p) false) s in
      Some (goto PSetup
        (with_latch (fun l => MkLatches (l_stopRequested l) (l_stopKilled l) false) s))
  | PSetup, CStarted (Err msg) => Some (goto (PReturn (Err msg)) s)
  | PSetup, CStarted (Ok pid) => if (0 <? pid)%Z then Some (goto (PPublish pid) s) else None
  | PPublish pid, CGo =>
      let '(seq, s) := startStopSequence s in
      Some (goto (PRunningEvent (MkLocal pid seq))
        (with_proc (fun p => MkProc (Some pid) pid (p_stopDeadline p) seq (p_gracefulStop p)) s))
  | PWait L, CExited r => Some (goto (PReaped L r) s)
  | PReaped L r, CGo =>
      Some (goto (PSweep L r)
        (with_proc (fun p => MkProc None (p_runPgid p) (p_stopDeadline p) (p_stopSeq p)
                               (p_gracefulStop p)) s))
  | PDrain L r, CReaders detached =>
      Some (goto (PFinishSeq L r)
        (next_gen (if detached then noteRunAnomaly anomalyReaderDetached s else s)))
  | PGiveUp r, CGo =>
      let s := with_timers (fun ts => match p_stopDeadline (proc s) with
                                      | Some d => ts ∖ {[d]} | None => ts end) s in
      let s := with_proc (fun p => MkProc (p_cmd p) 0 None None (p_gracefulStop p)) s in
      Some (goto (PReturn r)
        (if l_forceKilled (latch s) then noteRunAnomaly anomalyForceKilled s else s))
  | _, _ => None
  end.

(** [finishStopSequence]: a sequence no stop has begun is retired, one that has is
    waited for, up to a bound. *)
(* src/cmdman/monitor/stop_command.go:262-307 Monitor.finishStopSequence *)
Definition finish_step (c : choice) (s : system) : option system :=
  match runAt s, c with
  | PFinishSeq L r, CGo =>
      match rl_seq L with
      | None => Some (goto (PGiveUp r) s)
      | Some id =>
          match seqs s !! id with
          | None => None
          | Some q =>
              if s_begun q then Some (goto (PJoinSeq L r id) s)
              else Some (goto (PRetireSeq L r id)
                     (with_proc (fun p => MkProc (p_cmd p) (p_runPgid p) (p_stopDeadline p) None
                                            (p_gracefulStop p)) s))
          end
      end
  | PRetireSeq L r id, CGo => Some (goto (PRetired L r id) (update_seq id seq_cancel s))
  | PRetired L r id, CGo => if seq_done s id then Some (goto (PGiveUp r) s) else None
  | PJoinSeq L r id, CGo =>
      if seq_done s id then Some (goto (PGiveUp r) (update_seq id seq_cancel s)) else None
  | PJoinSeq L r id, CBound => Some (goto (PGiveUp r) (update_seq id seq_cancel s))
  | _, _ => None
  end.

(** The section of [noteSurvivorKilled], and whether this call latched. *)
(* src/cmdman/monitor/mon.go:649-663 Monitor.noteSurvivorKilled *)
Definition noteSurvivorKilled (s : system) : bool * system :=
  if p_gracefulStop (proc s) && negb (l_forceKilled (latch s))
  then (true, with_latch latch_forced s) else (false, s).

(** The sweep hands over ([CSwept None]) only once a stop was requested, and the
    await carries a SIGKILL on ([CAwait None]) only once the stop's own went out. *)
(* src/cmdman/monitor/mon_run.go:421-507 Monitor.sweepSurvivors *)
Definition sweep_step (c : choice) (s : system) : option system :=
  match runAt s, c with
  | PSweep L r, CGo =>
      Some (goto (if l_stopRequested (latch s) then PAwait L r else PTerminate L r) s)
  | PTerminate L r, CSwept None =>
      if l_stopRequested (latch s) then Some (goto (PAwait L r) s) else None
  | PTerminate L r, CSwept (Some n) => if (0 <=? n)%Z then Some (goto (PSwept L r n) s) else None
  | PAwait L r, CAwait None =>
      if l_stopKilled (latch s) then
        let '(first, s) := noteSurvivorKilled s in
        Some (goto (if first then PNoteEvent L r else PAwait L r) s)
      else None
  | PNoteEvent L r, CTime t => Some (goto (PAwait L r) (emitForcedKill t s))
  | PAwait L r, CAwait (Some n) => if (0 <=? n)%Z then Some (goto (PAwaited L r n) s) else None
  | PAwaited L r n, CGo =>
      Some (goto (if ctxDone s && negb (l_stopKilled (latch s))
                  then PTerminateAll L r else PSwept L r n) s)
  | PTerminateAll L r, CSwept (Some n) =>
      if (0 <=? n)%Z then Some (goto (PSwept L r n) s) else None
  | PSwept L r n, CGo =>
      Some (goto (PDrain L r)
        (if decide (n = 0)%Z then s else noteRunAnomaly (anomalySurvivorsUnreaped n) s))
  | _, _ => None
  end.

Definition run_step (c : choice) (s : system) : option system :=
  match runAt s with
  | PTop _ | PRestart | PReadConfig | PReturn _ | PDecide _ | PDefer | PDone => loop_step c s
  | PRemove => maybeAutoRemove c s
  | PReset | PSetup | PPublish _ | PWait _ | PReaped _ _ | PDrain _ _ | PGiveUp _ => once_step c s
  | PFinishSeq _ _ | PRetireSeq _ _ _ | PRetired _ _ _ | PJoinSeq _ _ _ => finish_step c s
  | PSweep _ _ | PTerminate _ _ | PAwait _ _ | PNoteEvent _ _ | PAwaited _ _ _
  | PTerminateAll _ _ | PSwept _ _ _ => sweep_step c s
  | _ => state_step c s
  end.

(** ** Stops, signals and deadlines *)

(** [time.AfterFunc] and [Timer.Stop] on the field [stopDeadline]. *)
Definition arm_deadline (s : system) : system :=
  with_proc (fun p => MkProc (p_cmd p) (p_runPgid p) (Some (nextId s)) (p_stopSeq p) (p_gracefulStop p))
    (with_timers (fun ts => {[nextId s]} ∪ ts) (fresh s)).
Definition disarm_deadline (s : system) : system :=
  match p_stopDeadline (proc s) with
  | Some d =>
      with_proc (fun p => MkProc (p_cmd p) (p_runPgid p) None (p_stopSeq p) (p_gracefulStop p))
        (with_timers (fun ts => ts ∖ {[d]}) s)
  | None => s
  end.

(** The section of [forceKill]: the signal and the latch in one. *)
(* src/cmdman/monitor/mon.go:638-647 Monitor.forceKill *)
Definition forceKill (k : sigResult) (s : system) : sigResult * bool * system :=
  let '(r, s) := signalRun (p_cmd (proc s)) (p_runPgid (proc s)) SIGKILL k s in
  if decide (r = SigOk) then
    if l_forceKilled (latch s) then (r, false, s) else (r, true, with_latch latch_forced s)
  else (r, false, s).

(** What [StopProcess] makes of a signal that reached nothing. *)
(* src/cmdman/monitor/mon.go:745-750 Monitor.StopProcess *)
Definition stop_result (r : sigResult) : sigResult :=
  match r with SigNoProcess | SigESRCH => SigOk | _ => r end.

(** The send on [begin] needs room in the channel; [None] when it would block, with
    [procMu] held. *)
(* src/cmdman/monitor/stop_command.go:102-130 Monitor.beginStopSequence *)
Definition beginStopSequence (id : nat) (sig timeout : Z) (s : system) : option system :=
  match seqs s !! id with
  | None => None
  | Some q =>
      if s_begun q then Some s
      else match s_begin q with
           | [] =>
               let bound := if decide (timeout <= 0)%Z then sweepBound else timeout in
               let b := MkBegin sig timeout bound (default 0%Z (p_cmd (proc s))) in
               Some (with_seqs <[id := MkSeq [b] true (s_cancelled q) (s_done q)]> s)
           | _ => None
           end
  end.

Definition set_graceful (p : procState) : procState :=
  MkProc (p_cmd p) (p_runPgid p) (p_stopDeadline p) (p_stopSeq p) true.

(** The section of [StopProcess] under [procMu], up to where it goes on from. *)
(* src/cmdman/monitor/mon.go:706-734 Monitor.StopProcess *)
Definition stop_lock (sig timeout : Z) (s : system) : option (thread * system) :=
  let kill := bool_decide (sig = SIGKILL) in
  let escalating := kill && p_gracefulStop (proc s) in
  let s := if kill then s else with_proc set_graceful s in
  match p_stopSeq (proc s) with
  | Some id =>
      if kill then Some (TStopCancel sig escalating id, disarm_deadline s)
      else s ← beginStopSequence id sig timeout s; Some (TReturn SigOk, s)
  | None =>
      let s := disarm_deadline s in
      Some (TStopSend sig escalating,
            if negb kill && bool_decide (0 < timeout)%Z then arm_deadline s else s)
  end.

(* src/cmdman/monitor/mon.go:706-750 Monitor.StopProcess *)
Definition stop_step (c : choice) (t : thread) (s : system) : option (thread * system) :=
  match t, c with
  | TStop sig timeout, CGo =>
      Some (TStopLatch sig timeout,
        with_latch (fun l => MkLatches true (l_stopKilled l) (l_forceKilled l)) s)
  | TStopLatch sig timeout, CGo =>
      Some (TStopLock sig timeout,
        if decide (sig = SIGKILL)
        then with_latch (fun l => MkLatches (l_stopRequested l) true (l_forceKilled l)) s else s)
  | TStopLock sig timeout, CGo => stop_lock sig timeout s
  | TStopCancel sig escalating id, CGo =>
      Some (TStopSend sig escalating, update_seq id seq_cancel s)
  | TStopSend sig true, CKernel k =>
      if kernel_answer k then
        let '(r, first, s) := forceKill k s in
        Some (if first then TForced (stop_result r) else TReturn (stop_result r), s)
      else None
  | TStopSend sig false, CGo =>
      Some (TSignalSend sig (p_cmd (proc s)) (p_runPgid (proc s)) true, s)
  | TForced r, CTime t => Some (TReturn r, emitForcedKill t s)
  | _, _ => None
  end.

(** A bare signal, and the second half of a stop's: the handles were read under
    [procMu], the signal goes out after. *)
(* src/cmdman/monitor/mon.go:600-605 Monitor.SignalProcess *)
Definition signal_step (c : choice) (t : thread) (s : system) : option (thread * system) :=
  match t, c with
  | TSignal sig, CGo => Some (TSignalSend sig (p_cmd (proc s)) (p_runPgid (proc s)) false, s)
  | TSignalSend sig cmd pgid stop, CKernel k =>
      if kernel_answer k then
        let '(r, s) := signalRun cmd pgid sig k s in
        Some (TReturn (if stop then stop_result r else r), s)
      else None
  | _, _ => None
  end.

(* src/cmdman/monitor/mon.go:756-763 Monitor.escalateStop *)
Definition escalate_step (c : choice) (t : thread) (s : system) : option (thread * system) :=
  match t, c with
  | TEscalate, CGo =>
      Some (TEscalateKill,
        with_latch (fun l => MkLatches (l_stopRequested l) true (l_forceKilled l)) s)
  | TEscalateKill, CKernel k =>
      if kernel_answer k then
        let '(r, first, s) := forceKill k s in
        Some (if first then TForced r else TReturn r, s)
      else None
  | _, _ => None
  end.

(** ** The goroutine of a stop sequence *)

(** [ctx.Err() != nil] for the context of a sequence. *)
Definition seq_ctx_done (s : system) (id : nat) : bool :=
  ctxDone s || match seqs s !! id with Some q => s_cancelled q | None => false end.

(** The section of [sendStopSignal]: [None] when escalating is no longer the
    sequence's business, otherwise the group to signal. *)
(* src/cmdman/monitor/stop_command.go:212-247 Monitor.sendStopSignal *)
Definition sendStopSignal_lock (id : nat) (b : stopBegin) (s : system) : option Z * system :=
  if l_stopKilled (latch s) || negb (bool_decide (p_stopSeq (proc s) = Some id)) then (None, s)
  else (Some (p_runPgid (proc s)),
        if decide (0 < sb_grace b)%Z then arm_deadline (disarm_deadline s) else s).

(* src/cmdman/monitor/stop_command.go:132-147 Monitor.runStopSequence *)
Definition sequence_step (c : choice) (t : thread) (s : system) : option (thread * system) :=
  match t, c with
  | TSeqWait id, CGo =>
      match seqs s !! id with
      | Some q =>
          match s_begin q with
          | b :: rest =>
              Some (TSeqCommand id b,
                with_seqs <[id := MkSeq rest (s_begun q) (s_cancelled q) (s_done q)]> s)
          | [] => None
          end
      | None => None
      end
  | TSeqWait id, CBound =>
      if seq_ctx_done s id then Some (TReturn SigOk, update_seq id seq_finish s) else None
  | TSeqCommand id b, CGo => Some (TSeqRunning id b, act (AStopCommand id) s)
  | TSeqRunning id b, CGo =>
      Some (if seq_ctx_done s id then (TReturn SigOk, update_seq id seq_finish s)
            else (TSeqLock id b, s))
  | TSeqLock id b, CGo =>
      Some (match sendStopSignal_lock id b s with
            | (None, s) => (TReturn SigOk, update_seq id seq_finish s)
            | (Some pgid, s) => (TSeqSignal id pgid (sb_sig b), s)
            end)
  | TSeqSignal id pgid sig, CStopped gone k =>
      Some (TReturn SigOk, update_seq id seq_finish
        (if gone || bool_decide (pgid <= 0)%Z then s else act (ASignal pgid sig) s))
  | _, _ => None
  end.

Definition thread_step (c : choice) (t : thread) (s : system) : option (thread * system) :=
  match t with
  | TStop _ _ | TStopLatch _ _ | TStopLock _ _ | TStopCancel _ _ _ | TStopSend _ _ | TForced _ =>
      stop_step c t s
  | TSignal _ | TSignalSend _ _ _ _ => signal_step c t s
  | TEscalate | TEscalateKill => escalate_step c t s
  | TSeqWait _ | TSeqCommand _ _ | TSeqRunning _ _ | TSeqLock _ _ | TSeqSignal _ _ _ =>
      sequence_step c t s
  | TReturn _ => None
  end.

(** ** The system *)

(** What may happen next: a step of the run's goroutine or of another, a call that
    comes in, a deadline that fires, the end of the monitor's context. *)
Inductive move :=
| MRun (c : choice)
| MThread (i : nat) (c : choice)
| MStop (sig timeout : Z)
| MSignal (sig : Z)
| MFire (d : nat)
| MCancel.

Definition spawn (t : thread) : system -> system := with_threads (fun l => l ++ [t]).

Definition move_step (m : move) (s : system) : option system :=
  match m with
  | MRun c => run_step c s
  | MThread i c =>
      t ← threads s !! i;
      '(t', s') ← thread_step c t s;
      Some (with_threads <[i := t']> s')
  | MStop sig timeout => Some (spawn (TStop sig timeout) s)
  | MSignal sig => Some (spawn (TSignal sig) s)
  | MFire d =>
      if decide (d ∈ timers s)
      then Some (spawn TEscalate (with_timers (fun ts => ts ∖ {[d]}) s)) else None
  | MCancel => Some (cancel_ctx s)
  end.

(** A monitor about to enter [runLoop]. *)
(* src/cmdman/monitor/mon.go:216-241 newMonitor *)
Definition initial (pid : Z) (socket : string) (cfg : CommandConfig) : system :=
  MkSystem (MkProc None 0 None None false) (MkLatches false false false)
    (MkOwned (Build_CommandState pid socket "" "" 0 "" [] false) cfg [])
    [] false false 0 ∅ ∅ 0 false (PTop None) [].

Fixpoint execute (ms : list move) (s : system) : option system :=
  match ms with
  | [] => Some s
  | m :: ms => s ← move_step m s; execute ms s
  end.

End Supervisor.
