(* ===== verification/SupervisorProps.v ===== *)
(** * What the monitor guarantees

    Theorems about every execution of the supervisor: how often a command runs, what
    a stop means for the runs to come, what the stored state says and when, and that
    no goroutine of the monitor gets stuck. *)

From S2P Require Import Prelude GoStr Model Supervisor.

Section Props.
Context (ID : string) (rfc3339 : Z -> string).

Notation run_step := (run_step ID rfc3339).
Notation thread_step := (thread_step ID).
Notation move_step := (move_step ID rfc3339).
Notation execute := (execute ID rfc3339).

(** The configurations the disk may hold. *)
Context (cfgs : CommandConfig -> Prop).

Definition move_ok (m : move) : Prop :=
  match m with MRun (CConfig (Ok cfg)) => cfgs cfg | _ => True end.

Inductive steps : system -> system -> Prop :=
| steps_refl s : steps s s
| steps_snoc s1 m s2 s3 : steps s1 s2 -> move_ok m -> move_step m s2 = Some s3 -> steps s1 s3.

Definition reachable (s : system) : Prop :=
  exists pid socket cfg, cfgs cfg /\ steps (initial pid socket cfg) s.

Lemma steps_invariant (P : system -> Prop) s s' :
  (forall m s1 s2, P s1 -> move_ok m -> move_step m s1 = Some s2 -> P s2) ->
  steps s s' -> P s -> P s'.
Proof. intros HP. induction 1; eauto. Qed.

Lemma reachable_invariant (P : system -> Prop) s :
  (forall pid socket cfg, cfgs cfg -> P (initial pid socket cfg)) ->
  (forall m s1 s2, P s1 -> move_ok m -> move_step m s1 = Some s2 -> P s2) ->
  reachable s -> P s.
Proof. intros H0 HP (pid & socket & cfg & Hc & H). eapply steps_invariant; eauto. Qed.

(** ** One step *)

(** Takes a step of the run's goroutine apart by where it stood. *)
Ltac invert_run H :=
  unfold Supervisor.run_step, loop_step, once_step, finish_step, sweep_step, state_step,
    maybeAutoRemove, startStopSequence, publishStateChange, noteSurvivorKilled in H;
  repeat (case_match; simplify_eq/=; try discriminate);
  simplify_eq/=.

(** What a goroutine other than the run's leaves alone. *)
Record frame (s s' : system) : Prop := {
  fr_own : own s' = own s;
  fr_run : runAt s' = runAt s;
  fr_cmd : p_cmd (proc s') = p_cmd (proc s);
  fr_pgid : p_runPgid (proc s') = p_runPgid (proc s);
  fr_seq : p_stopSeq (proc s') = p_stopSeq (proc s);
  fr_closed : stateClosed s' = stateClosed s;
  fr_stop : l_stopRequested (latch s) = true -> l_stopRequested (latch s') = true;
  fr_latched : l_forceKilled (latch s) = true -> l_forceKilled (latch s') = true;
  fr_forced : p_cmd (proc s) = None -> p_runPgid (proc s) = 0%Z ->
    l_forceKilled (latch s') = l_forceKilled (latch s);
}.

#[local] Instance frame_refl : Reflexive frame.
Proof. by intros s; constructor. Qed.
#[local] Instance frame_trans : Transitive frame.
Proof.
  intros a b c F1 F2. constructor;
    try (rewrite ?(fr_own _ _ F2), ?(fr_run _ _ F2), ?(fr_cmd _ _ F2), ?(fr_pgid _ _ F2),
           ?(fr_seq _ _ F2), ?(fr_closed _ _ F2); by apply F1).
  - intros H. by apply F2, F1.
  - intros H. by apply (fr_latched _ _ F2), F1.
  - intros H1 H2. rewrite (fr_forced _ _ F2); [by apply F1|..].
    + by rewrite (fr_cmd _ _ F1).
    + by rewrite (fr_pgid _ _ F1).
Qed.

(** What a goroutine other than the run's may hand over: nothing about the state. *)
Definition quiet (a : action) : Prop :=
  match a with
  | AEvent e => ev_State e = "" /\ ev_Type e = EventTypeStopped
  | ASignal _ _ | AStopCommand _ => True
  | _ => False
  end.

Definition appends (P : action -> Prop) (s s' : system) : Prop :=
  exists new, hist s' = hist s ++ new /\ Forall P new.

#[local] Instance appends_refl P : Reflexive (appends P).
Proof. intros s. exists []. by rewrite app_nil_r. Qed.
#[local] Instance appends_trans P : Transitive (appends P).
Proof.
  intros a b c (n1 & H1 & F1) (n2 & H2 & F2). exists (n1 ++ n2).
  split; [by rewrite H2, H1, app_assoc|by apply Forall_app].
Qed.

Lemma appends_same P s s' : hist s' = hist s -> appends P s s'.
Proof. intros E. exists []. by rewrite E, app_nil_r. Qed.

Lemma appends_one (P : action -> Prop) s s' a : hist s' = hist s ++ [a] -> P a -> appends P s s'.
Proof. intros E Ha. exists [a]. by rewrite E, Forall_singleton. Qed.

Ltac frame_solve :=
  split; [by constructor|first [by apply appends_same|by eapply appends_one]].

Lemma arm_frame s : frame s (arm_deadline s) /\ appends quiet s (arm_deadline s).
Proof. frame_solve. Qed.

Lemma disarm_frame s : frame s (disarm_deadline s) /\ appends quiet s (disarm_deadline s).
Proof. unfold disarm_deadline. destruct (p_stopDeadline _); frame_solve. Qed.

Lemma signalRun_frame cmd pgid sig k s r s' :
  signalRun cmd pgid sig k s = (r, s') -> frame s s' /\ appends quiet s s'.
Proof. unfold signalRun. destruct (signalTarget cmd pgid); intros [= <- <-]; frame_solve. Qed.

Lemma forceKill_frame k s r first s' :
  forceKill k s = (r, first, s') -> frame s s' /\ appends quiet s s'.
Proof.
  unfold forceKill, signalRun. destruct (signalTarget _ _) eqn:E; intros H; cbv beta iota in H.
  - assert (~ (p_cmd (proc s) = None /\ p_runPgid (proc s) = 0%Z)) as Hrun.
    { intros [E1 E2]. by rewrite E1, E2 in E. }
    case_decide; [destruct (l_forceKilled _)|]; simplify_eq; try frame_solve.
    split; [|by eapply appends_one]. constructor; try done. intros E1 E2. by destruct Hrun.
  - case_decide; simplify_eq. frame_solve.
Qed.

Lemma beginStop_frame id sig timeout s s' :
  beginStopSequence id sig timeout s = Some s' -> frame s s' /\ appends quiet s s'.
Proof.
  unfold beginStopSequence. intros. repeat (case_match; simplify_eq/=); try done; frame_solve.
Qed.

Lemma stop_lock_frame sig timeout s t' s' :
  stop_lock sig timeout s = Some (t', s') -> frame s s' /\ appends quiet s s'.
Proof.
  unfold stop_lock. set (s1 := if bool_decide _ then s else _).
  assert (frame s s1 /\ appends quiet s s1) as [F1 A1].
  { unfold s1. destruct (bool_decide _); frame_solve. }
  clearbody s1. destruct (disarm_frame s1) as [F2 A2]. intros H.
  assert (frame s (disarm_deadline s1)) as F by (etrans; eauto).
  assert (appends quiet s (disarm_deadline s1)) as A by (etrans; eauto). clear F2 A2.
  destruct (p_stopSeq _) as [id|]; destruct (bool_decide (sig = SIGKILL)); simpl in H.
  - by injection H as <- <-.
  - apply bind_Some in H as (s2 & H & [= <- <-]). apply beginStop_frame in H as [F3 A3].
    split; by transitivity s1.
  - by injection H as <- <-.
  - destruct (bool_decide _); injection H as <- <-; [|done].
    destruct (arm_frame (disarm_deadline s1)) as [F3 A3].
    split; by transitivity (disarm_deadline s1).
Qed.

Lemma thread_frame c t s t' s' :
  thread_step c t s = Some (t', s') -> frame s s' /\ appends quiet s s'.
Proof.
  unfold Supervisor.thread_step, stop_step, signal_step, escalate_step, sequence_step,
    sendStopSignal_lock.
  intros H. repeat (case_match; simplify_eq/=); try done; try (by eapply stop_lock_frame);
    try (by eapply forceKill_frame); try (by eapply signalRun_frame); try frame_solve.
  destruct (disarm_frame s) as [F1 A1], (arm_frame (disarm_deadline s)) as [F2 A2].
  split; etrans; eauto.
Qed.

(** A move is the run's, or leaves what the run owns alone. *)
Lemma move_inv m s s' :
  move_step m s = Some s' ->
  (exists c, m = MRun c /\ run_step c s = Some s') \/
  (frame s s' /\ appends quiet s s' /\ forall c, m <> MRun c).
Proof.
  intros H. destruct m as [c|i c|sig timeout|sig|d|]; simpl in H; [by left; exists c|..];
    right; apply and_assoc; (split; [|done]).
  - apply bind_Some in H as (t & Ht & H). apply bind_Some in H as ([t' s1] & H & [= <-]).
    apply thread_frame in H as [F A]. split; [etrans; [exact F|by constructor]|].
    etrans; [exact A|by apply appends_same].
  - injection H as <-. frame_solve.
  - injection H as <-. frame_solve.
  - case_decide; [|done]. injection H as <-. frame_solve.
  - injection H as <-. frame_solve.
Qed.

(** ** How often a command runs *)

Definition is_start (a : action) : bool :=
  match a with AEvent e => bool_decide (ev_Type e = EventTypeStarting) | _ => false end.

(** The runs the loop has begun, one [starting] event each. *)
Definition starts (s : system) : nat := length (filter is_start (hist s)).

Lemma run_starts_snoc s s' a :
  hist s' = hist s ++ [a] -> starts s' = starts s + (if is_start a then 1 else 0).
Proof.
  intros E. unfold starts. rewrite E, filter_app, length_app. f_equal.
  rewrite filter_cons. destruct (is_start a) eqn:Ea; simpl; by rewrite ?decide_True, ?decide_False by auto.
Qed.

Lemma run_starts_quiet s s' : appends quiet s s' -> starts s' = starts s.
Proof.
  intros (new & E & F). unfold starts. rewrite E, filter_app, length_app. clear E.
  induction F as [|a new Ha F IH]; [done|]. rewrite filter_cons_False; [done|].
  destruct a; try (intros []; done). destruct Ha as [_ Ha]. simpl. rewrite Ha.
  intros H. vm_compute in H. done.
Qed.

(** Past the loop's check: one more run follows whatever is requested now. *)
Definition committed (pc : runpc) : bool :=
  match pc with PTop None | PRestart => true | _ => false end.

Lemma stopped_step m s s' :
  move_step m s = Some s' -> l_stopRequested (latch s) = true ->
  l_stopRequested (latch s') = true /\
  starts s' + (if committed (runAt s') then 1 else 0) <=
    starts s + (if committed (runAt s) then 1 else 0).
Proof.
  intros H Hs. destruct (move_inv _ _ _ H) as [(c & -> & Hr)|(F & A & Hm)].
  - clear H. invert_run Hr.
    all: split; [done|].
    all: try (erewrite (run_starts_snoc s) by reflexivity); simpl.
    all: unfold starts; simpl; lia.
  - rewrite (fr_run _ _ F), (run_starts_quiet _ _ A). split; [by apply (fr_stop _ _ F)|done].
Qed.

(** C9: A stop keeps the command down. In every execution of the monitor, once a stop
    has been latched at most one more run begins, whatever else happens: further
    stops, deadlines, signals, exits, and any answers of the disk and the kernel. None
    begins unless the run loop had already passed its check of the latch. *)
Theorem stop_prevents_restarts s s' :
  l_stopRequested (latch s) = true -> steps s s' ->
  starts s' <= starts s + (if committed (runAt s) then 1 else 0).
Proof.
  intros Hs H. cut (l_stopRequested (latch s') = true /\
    starts s' + (if committed (runAt s') then 1 else 0) <=
    starts s + (if committed (runAt s) then 1 else 0)); [intros []; lia|].
  induction H as [|s1 m s2 s3 H IH _ Hm]; [done|].
  destruct (IH Hs) as [Hs2 IH2]. destruct (stopped_step _ _ _ Hm Hs2) as [Hs3 H3]. split; [done|lia].
Qed.

(** How many restarts a policy allows; [None] when it sets no limit. *)
Definition budget (cfg : CommandConfig) : option Z :=
  if decide (cc_RestartPolicy cfg = RestartPolicyOnFailure) then
    if decide (cc_MaxRetries cfg = 0)%Z then None else Some (0 `max` cc_MaxRetries cfg)%Z
  else if decide (cc_RestartPolicy cfg = RestartPolicyAlways) then None
  else Some 0%Z.

Lemma restart_wanted_budget cfg js code done b :
  restart_wanted cfg js code done = true -> budget cfg = Some b -> (RestartCount js < b)%Z.
Proof.
  unfold restart_wanted, budget. intros H Hb.
  destruct (decide (_ = RestartPolicyOnFailure)).
  - apply andb_true_iff in H as [_ H]. destruct (decide _) as [|Hr]; simplify_eq.
    rewrite (bool_decide_eq_false_2 _ Hr) in H. simpl in H. split_hyps. lia.
  - destruct (decide _); done.
Qed.

(** The run loop counts its restarts, and restarts within the budget. *)
Definition counted (B : Z) (s : system) : Prop :=
  cfgs (o_cfg (own s)) /\
  Z.of_nat (starts s) =
    (RestartCount (o_stateJSON (own s)) + (match runAt s with PTop None => 0 | _ => 1 end))%Z /\
  (runAt s = PTop None -> RestartCount (o_stateJSON (own s)) = 0%Z) /\
  (RestartCount (o_stateJSON (own s)) +
    (match runAt s with PTop (Some _) | PRestart => 1 | _ => 0 end) <= B)%Z.

Lemma counted_step B m s s' :
  (forall cfg, cfgs cfg -> exists b, budget cfg = Some b /\ (b <= B)%Z) ->
  counted B s -> move_ok m -> move_step m s = Some s' -> counted B s'.
Proof.
  intros HB (Hc & Hn & H0 & Hb) Hok H. destruct (move_inv _ _ _ H) as [(c & -> & Hr)|(F & A & Hm)].
  - clear H. unfold counted in *. invert_run Hr.
    all: split_and!; try done; try lia.
    all: try (erewrite (run_starts_snoc s) by reflexivity); simpl; try lia.
    destruct (HB _ Hc) as (b & Hb1 & Hb2). specialize (restart_wanted_budget _ _ _ _ _ H1 Hb1). lia.
  - unfold counted. by rewrite (fr_run _ _ F), (fr_own _ _ F), (run_starts_quiet _ _ A).
Qed.

(** C11: The restart policy is a budget. In every execution of a monitor whose stored
    configuration, however often it is rewritten between runs, allows at most [B]
    restarts, the command is run at most [B + 1] times: once for policy [no], [n + 1]
    times for [on-failure:n]. The restart count that is stored is the number of runs
    less one. *)
Theorem restart_budget B s :
  (forall cfg, cfgs cfg -> exists b, budget cfg = Some b /\ (b <= B)%Z) ->
  (0 <= B)%Z -> reachable s ->
  (Z.of_nat (starts s) <= B + 1)%Z /\
  ((0 < Z.of_nat (starts s))%Z -> RestartCount (o_stateJSON (own s)) = Z.of_nat (starts s) - 1)%Z.
Proof.
  intros HB HB0 H. assert (counted B s) as (_ & Hn & H0 & Hb).
  { apply reachable_invariant with (P := counted B); [|by intros; eapply counted_step|done].
    intros pid socket cfg Hc. unfold counted. by split_and!; simpl; try lia. }
  repeat case_match; simpl in *; try specialize (H0 eq_refl); split; intros; lia.
Qed.

(** ** What the stored state says *)

Definition run_anomaly (a : runAnomaly) : Prop :=
  a = anomalyReaderDetached \/ a = anomalyForceKilled \/ exists n, a = anomalySurvivorsUnreaped n.

Lemma attrs_force_killed l :
  Forall run_anomaly l ->
  is_Some (runAnomalyAttrs l !! "force_killed") <-> anomalyForceKilled ∈ l.
Proof.
  induction l as [|a l IH] using rev_ind; intros H.
  - split; [by intros [? ?]|by intros ?%elem_of_nil].
  - apply Forall_app in H as [Hl Ha]. rewrite Forall_singleton in Ha. specialize (IH Hl).
    unfold runAnomalyAttrs in *. rewrite foldl_app, elem_of_app, list_elem_of_singleton. simpl.
    destruct Ha as [->|[->|[n ->]]]; simpl.
    + rewrite lookup_insert_ne by done. naive_solver.
    + rewrite lookup_insert_eq. naive_solver.
    + rewrite lookup_insert_ne by done. naive_solver.
Qed.

(** The event [e] announces the row [st], [code], [js]: the same state and exit code,
    and the anomalies of the same run, the forced kill among them. *)
Definition announces (e : Event) (st : EventType) (code : option Z) (js : CommandState) : Prop :=
  ev_State e = st /\ ev_Type e = st /\ ev_ExitCode e = code /\
  (exists l, ev_Attrs e = runAnomalyAttrs l /\ Warnings js = runAnomalyWarnings l) /\
  (cs_ForceKilled js = true <-> is_Some (ev_Attrs e !! "force_killed")).

(** The last event of [h] about the state is [e]. *)
Definition last_state_event (h : list action) (e : Event) : Prop :=
  exists h1 h2, h = h1 ++ AEvent e :: h2 /\ Forall quiet h2.

(** Every write of the state row in [h] was announced. *)
Definition all_announced (h : list action) : Prop :=
  forall h1 st code js h2, h = h1 ++ AWrite st code js :: h2 ->
    exists e, last_state_event h1 e /\ announces e st code js.

Lemma all_announced_snoc h a :
  all_announced h ->
  (forall st code js, a = AWrite st code js ->
     exists e, last_state_event h e /\ announces e st code js) ->
  all_announced (h ++ [a]).
Proof.
  intros H Ha h1 st code js h2 E. destruct h2 as [|b h2 _] using rev_ind.
  - apply app_inj_tail in E as [-> ->]. by apply Ha.
  - rewrite app_comm_cons, app_assoc in E. apply app_inj_tail in E as [-> ->]. by eapply H.
Qed.

Lemma all_announced_quiet h new : all_announced h -> Forall quiet new -> all_announced (h ++ new).
Proof.
  intros H F. induction new as [|a new IH] using rev_ind; [by rewrite app_nil_r|].
  apply Forall_app in F as [F Fa]. rewrite Forall_singleton in Fa. rewrite app_assoc.
  apply all_announced_snoc; [auto|]. by intros st code js ->.
Qed.

Lemma last_state_event_quiet h new e :
  last_state_event h e -> Forall quiet new -> last_state_event (h ++ new) e.
Proof.
  intros (h1 & h2 & -> & F) Fn. exists h1, (h2 ++ new). split; [by rewrite <- app_assoc|].
  by apply Forall_app.
Qed.

Lemma last_state_event_snoc h e : last_state_event (h ++ [AEvent e]) e.
Proof. by exists h, []. Qed.

(** No process and no group left to signal. *)
Definition idle (s : system) : Prop := p_cmd (proc s) = None /\ p_runPgid (proc s) = 0%Z.

(** The latch of a forced kill and the anomalies of the run that ended agree. *)
Definition in_sync (s : system) : Prop :=
  idle s /\ (l_forceKilled (latch s) = true <-> anomalyForceKilled ∈ o_runAnomalies (own s)).

Definition clean (s : system) : Prop :=
  o_runAnomalies (own s) = [] /\ Warnings (o_stateJSON (own s)) = [] /\
  cs_ForceKilled (o_stateJSON (own s)) = false.

(** The event of the state about to be written is the last one of the log. *)
Definition told (s : system) (st : EventType) (code : option Z) : Prop :=
  exists e, last_state_event (hist s) e /\ ev_State e = st /\ ev_Type e = st /\
    ev_ExitCode e = code /\ ev_Attrs e = runAnomalyAttrs (o_runAnomalies (own s)).

Record honest (s : system) : Prop := {
  ho_known : Forall run_anomaly (o_runAnomalies (own s));
  ho_announced : all_announced (hist s);
  ho_pc :
    match runAt s with
    | PSetup | PPublish _ => in_sync s /\ clean s
    | PRunningEvent _ => clean s
    | PRunningWrite _ => clean s /\ told s EventTypeRunning None
    | PRunningPublish _ | PWait _ | PReaped _ _ =>
        anomalyForceKilled ∉ o_runAnomalies (own s)
    | PSweep _ _ | PTerminate _ _ | PAwait _ _ | PNoteEvent _ _ | PAwaited _ _ _
    | PTerminateAll _ _ | PSwept _ _ _ | PDrain _ _ | PFinishSeq _ _ | PRetireSeq _ _ _
    | PRetired _ _ _ | PJoinSeq _ _ _ | PGiveUp _ =>
        p_cmd (proc s) = None /\ anomalyForceKilled ∉ o_runAnomalies (own s)
    | PExitWrite code _ => in_sync s /\ told s EventTypeExited (Some code)
    | PFailWrite => in_sync s /\ told s EventTypeFailed None
    | _ => in_sync s
    end;
}.

Lemma honest_frame s s' : frame s s' -> appends quiet s s' -> honest s -> honest s'.
Proof.
  intros F (new & E & Q) [K A P]. constructor.
  - by rewrite (fr_own _ _ F).
  - rewrite E. by apply all_announced_quiet.
  - assert (in_sync s -> in_sync s') as Hs.
    { intros [[H1 H2] H]. split; [by split; rewrite ?(fr_cmd _ _ F), ?(fr_pgid _ _ F)|].
      by rewrite (fr_own _ _ F), (fr_forced _ _ F H1 H2). }
    assert (forall st code, told s st code -> told s' st code) as Ht.
    { intros st code (e & He & ?). exists e. rewrite E, (fr_own _ _ F).
      split; [by apply last_state_event_quiet|done]. }
    rewrite (fr_run _ _ F). unfold clean in *. rewrite (fr_own _ _ F), (fr_cmd _ _ F).
    destruct (runAt s); naive_solver.
Qed.

(** The write of a row that [told] announced. *)
Lemma announced_write h st code js l forced e :
  all_announced h -> Forall run_anomaly l ->
  (forced = true <-> anomalyForceKilled ∈ l) ->
  Warnings js = runAnomalyWarnings l -> cs_ForceKilled js = forced ->
  last_state_event h e -> ev_State e = st -> ev_Type e = st -> ev_ExitCode e = code ->
  ev_Attrs e = runAnomalyAttrs l ->
  all_announced (h ++ [AWrite st code js]).
Proof.
  intros HA HK HF HW HJ HE H1 H2 H3 H4. apply all_announced_snoc; [done|].
  intros ? ? ? [= <- <- <-]. exists e. split; [done|]. split_and!; [done..| |].
  - by exists l.
  - rewrite HJ, H4, attrs_force_killed by done. done.
Qed.

Lemma all_announced_other h a :
  all_announced h -> (forall st code js, a <> AWrite st code js) -> all_announced (h ++ [a]).
Proof. intros H Ha. apply all_announced_snoc; [done|]. intros st code js E. by destruct (Ha st code js). Qed.

Lemma honest_run c s s' : run_step c s = Some s' -> honest s -> honest s'.
Proof.
  intros Hr [K A P]. unfold run_anomaly in *. invert_run Hr.
  all: constructor; unfold in_sync, clean, told, idle in *; simpl in *; try done; split_hyps.
  all: try (apply all_announced_other; done).
  all: try (apply Forall_app; split; [done|rewrite Forall_singleton]; unfold run_anomaly; naive_solver).
  all: try (rewrite not_elem_of_app, list_elem_of_singleton; done).
  all: try (rewrite elem_of_app, list_elem_of_singleton; naive_solver).
  all: try (split; [done|]; eexists; split; [apply last_state_event_snoc|done]).
  all: try (split_and!; try done; split; [done|by intros ?%elem_of_nil]).
  all: try (eapply announced_write; try done; fail).
  all: repeat match goal with H : _ /\ _ |- _ => destruct H | H : exists _, _ |- _ => destruct H end.
  all: try (split_and!; done).
  all: try (split; [done|]; split; [congruence|by intros ?]).
  all: try (by rewrite H0 || congruence).
  - split; [done|]. eexists. split; [apply last_state_event_snoc|]. by rewrite H0.
  - rewrite H0 in *. eapply announced_write with (l := []) (forced := false); eauto.
    split; [done|by intros ?%elem_of_nil].
  - rewrite H0. apply not_elem_of_nil.
Qed.

Lemma honest_reachable s : reachable s -> honest s.
Proof.
  apply reachable_invariant.
  - intros pid socket cfg _. constructor; simpl; [done|by intros []|].
    split; [done|]. simpl. split; [done|by intros ?%elem_of_nil].
  - intros m s1 s2 H _ Hm. destruct (move_inv _ _ _ Hm) as [(c & _ & Hr)|(F & A & _)].
    + by eapply honest_run.
    + by eapply honest_frame.
Qed.

(** C10: The stored state is announced and true to its event. In every execution of the run
    loop, when it hands a state row to the store, the last state event that it handed to
    the event log is the event of that state, with the same exit code; the warnings in
    the row are the anomalies the event reports, and the row says the run was
    force-killed exactly if the event does: no stop, deadline or signal running alongside
    gets in between. It is about what is handed over, in its order: whether an append or
    a write then fails is only logged, and the rows that [init] writes before the run
    loop starts are not part of it. *)
Theorem state_writes_announced s h1 st code js h2 :
  reachable s -> hist s = h1 ++ AWrite st code js :: h2 ->
  exists e, last_state_event h1 e /\ announces e st code js.
Proof. intros H. by apply (ho_announced _ (honest_reachable _ H)). Qed.

(** ** The loop ends *)

(** How far a stopped loop can still go.  Passing a SIGKILL on to one more survivor
    ([CAwait None]) goes nowhere, unless it is the one that latches. *)
Definition distance (pc : runpc) : nat :=
  match pc with
  | PTop None => 41 | PRestart => 41 | PReadConfig => 40 | PReset => 39 | PSetup => 36
  | PPublish _ => 35 | PRunningEvent _ => 34 | PRunningWrite _ => 33 | PRunningPublish _ => 32
  | PWait _ => 31 | PReaped _ _ => 30 | PSweep _ _ => 29 | PTerminate _ _ => 28
  | PNoteEvent _ _ => 27 | PAwait _ _ => 26 | PAwaited _ _ _ => 25 | PTerminateAll _ _ => 24
  | PSwept _ _ _ => 23 | PDrain _ _ => 22 | PFinishSeq _ _ => 21 | PRetireSeq _ _ _ => 20
  | PRetired _ _ _ => 19 | PJoinSeq _ _ _ => 19 | PGiveUp _ => 18 | PReturn _ => 17
  | PDecide _ => 16 | PTop (Some _) => 15 | PExit _ _ => 14 | PExitWrite _ _ => 13
  | PExitPublish _ _ => 12 | PFail _ => 14 | PFailWrite => 13 | PFailPublish => 12
  | PRemove => 11 | PDefer => 10 | PDone => 9
  end.

Definition left_to_go (s : system) : nat :=
  distance (runAt s) + (if l_forceKilled (latch s) then 0 else 2).

Definition counts (m : move) : bool :=
  match m with MRun (CAwait None) => false | MRun _ => true | _ => false end.

Lemma stopped_move m s s' :
  move_step m s = Some s' -> l_stopRequested (latch s) = true ->
  left_to_go s' + (if counts m then 1 else 0) <= left_to_go s.
Proof.
  intros H Hs. unfold left_to_go. destruct (move_inv _ _ _ H) as [(c & -> & Hr)|(F & A & Hm)].
  - clear H. invert_run Hr; try congruence; repeat case_match; simpl; lia.
  - rewrite (fr_run _ _ F). destruct m as [c| | | | |]; [by destruct (Hm c)|..]; simpl.
    all: pose proof (fr_latched _ _ F) as HL; repeat case_match; simpl; try lia; by rewrite HL in *.
Qed.

(** C13: A stop ends the loop. Once a stop is latched, the run's goroutine takes at most
    34 more steps, in whatever order the goroutines run and whatever the child, the
    disk and the kernel answer; waiting for the child to exit is one step. Not counted
    is the passing of the stop's SIGKILL to one more surviving process. *)
Theorem stop_bounds_the_loop ms s s' :
  l_stopRequested (latch s) = true -> execute ms s = Some s' ->
  length (filter counts ms) <= 34.
Proof.
  intros Hs H. cut (left_to_go s' + length (filter counts ms) <= left_to_go s).
  { assert (forall pc, 9 <= distance pc <= 41) as HD 
      by (intros pc; destruct pc; simpl; repeat case_match; lia).
    pose proof (HD (runAt s)). pose proof (HD (runAt s')). unfold left_to_go.
    repeat case_match; lia. }
  revert s Hs H. induction ms as [|m ms IH]; intros s Hs H; simpl in H.
  { injection H as ->. simpl. lia. }
  apply bind_Some in H as (s1 & Hm & H).
  destruct (stopped_step _ _ _ Hm Hs) as [Hs1 _]. specialize (IH s1 Hs1 H).
  pose proof (stopped_move _ _ _ Hm Hs) as HM. rewrite filter_cons.
  destruct (counts m); simpl in *; lia.
Qed.

(** ** Nothing gets stuck *)

(** A sequence no stop has begun has an empty channel, and its goroutine waits for it
    unless it is over. *)
Definition seq_waits (s : system) : Prop :=
  forall id q, seqs s !! id = Some q -> s_begun q = false ->
    s_begin q = [] /\ (s_done q = true \/ TSeqWait id ∈ threads s).

Record wired (s : system) : Prop := {
  wi_seq : seq_waits s;
  wi_stop : forall id, p_stopSeq (proc s) = Some id -> is_Some (seqs s !! id);
  wi_run :
    match runAt s with
    | PRunningEvent L | PRunningWrite L | PRunningPublish L | PWait L | PReaped L _
    | PSweep L _ | PTerminate L _ | PAwait L _ | PNoteEvent L _ | PAwaited L _ _
    | PTerminateAll L _ | PSwept L _ _ | PDrain L _ | PFinishSeq L _ =>
        forall id, rl_seq L = Some id -> is_Some (seqs s !! id)
    | PRetireSeq _ _ id =>
        p_stopSeq (proc s) = None /\ exists q, seqs s !! id = Some q /\ s_begun q = false
    | PRetired _ _ id =>
        p_stopSeq (proc s) = None /\
        exists q, seqs s !! id = Some q /\ s_begun q = false /\ s_cancelled q = true
    | _ => True
    end;
}.

(** What another goroutine may do to a sequence. *)
Definition seqs_kept (s s' : system) : Prop :=
  forall id q, seqs s !! id = Some q -> exists q', seqs s' !! id = Some q' /\
    (s_cancelled q = true -> s_cancelled q' = true) /\
    (p_stopSeq (proc s) <> Some id -> s_begun q = false -> s_begun q' = false).

Lemma seqs_kept_same s s' : seqs s' = seqs s -> seqs_kept s s'.
Proof. intros E id q. rewrite E. eauto. Qed.

Lemma seqs_kept_alter s s' id f :
  seqs s' = alter f id (seqs s) -> (forall q, s_cancelled q = true -> s_cancelled (f q) = true) ->
  (forall q, s_begun (f q) = s_begun q) -> seqs_kept s s'.
Proof.
  intros E Hc Hb j q Hj. rewrite E. destruct (decide (j = id)) as [->|Hne].
  - rewrite lookup_alter_eq, Hj. eexists. split; [done|]. rewrite Hb. auto.
  - rewrite lookup_alter_ne by done. eauto.
Qed.

Lemma seqs_kept_insert s s' id q q' :
  seqs s' = <[id := q']> (seqs s) -> seqs s !! id = Some q ->
  (s_cancelled q = true -> s_cancelled q' = true) ->
  (p_stopSeq (proc s) <> Some id -> s_begun q = false -> s_begun q' = false) -> seqs_kept s s'.
Proof.
  intros E Hq Hc Hb j q1 Hj. rewrite E. destruct (decide (j = id)) as [->|Hne].
  - rewrite lookup_insert_eq. simplify_eq. eauto.
  - rewrite lookup_insert_ne by done. eauto.
Qed.

Lemma arm_seqs s : seqs (arm_deadline s) = seqs s.
Proof. done. Qed.
Lemma disarm_seqs s : seqs (disarm_deadline s) = seqs s.
Proof. unfold disarm_deadline. by destruct (p_stopDeadline _). Qed.
Lemma signalRun_seqs cmd pgid sig k s r s' :
  signalRun cmd pgid sig k s = (r, s') -> seqs s' = seqs s.
Proof. unfold signalRun. by case_match; intros [= <- <-]. Qed.
Lemma forceKill_seqs k s r first s' : forceKill k s = (r, first, s') -> seqs s' = seqs s.
Proof.
  unfold forceKill, signalRun. intros H.
  repeat (case_match; simplify_eq/=; try done).
Qed.

Lemma signalRun_threads cmd pgid sig k s r s' :
  signalRun cmd pgid sig k s = (r, s') -> threads s' = threads s.
Proof. unfold signalRun. by case_match; intros [= <- <-]. Qed.
Lemma forceKill_threads k s r first s' : forceKill k s = (r, first, s') -> threads s' = threads s.
Proof.
  unfold forceKill, signalRun. intros H.
  repeat (case_match; simplify_eq/=; try done).
Qed.

Lemma thread_seqs c t s t' s' :
  thread_step c t s = Some (t', s') -> seq_waits s -> seqs_kept s s'.
Proof.
  unfold Supervisor.thread_step, stop_step, signal_step, escalate_step, sequence_step,
    sendStopSignal_lock, stop_lock, beginStopSequence.
  intros H W.
  repeat (case_match; simplify_eq/=; try done).
  all: try (apply seqs_kept_same; first [done|by eapply forceKill_seqs|by eapply signalRun_seqs
            |by rewrite ?arm_seqs, ?disarm_seqs]).
  all: try (eapply seqs_kept_alter; [reflexivity|done|done]).
  all: eapply seqs_kept_insert; [reflexivity|done|done|simpl; congruence].
Qed.

(** How a sequence that still waits relates to what it was before. *)
Definition still_waits (t : thread) (s s' : system) : Prop :=
  forall id q', seqs s' !! id = Some q' -> s_begun q' = false ->
    exists q, seqs s !! id = Some q /\ s_begun q = false /\ s_begin q' = s_begin q /\
      (s_done q = true -> s_done q' = true) /\ (t = TSeqWait id -> s_done q' = true).

Lemma still_waits_same t s s' :
  seqs s' = seqs s -> (forall id, t <> TSeqWait id) -> still_waits t s s'.
Proof. intros E Ht id q. rewrite E. intros Hq Hb. exists q. split_and!; try done. by intros ?%Ht. Qed.

Lemma still_waits_alter t s s' id f :
  seqs s' = alter f id (seqs s) -> (forall q, s_begun (f q) = s_begun q) ->
  (forall q, s_begin (f q) = s_begin q) -> (forall q, s_done q = true -> s_done (f q) = true) ->
  (forall j, t = TSeqWait j -> j = id /\ forall q, s_done (f q) = true) -> still_waits t s s'.
Proof.
  intros E Hb Hg Hd Ht j q'. rewrite E. destruct (decide (j = id)) as [->|Hne].
  - rewrite lookup_alter_eq. intros (q & Hq & ->)%fmap_Some H. rewrite Hb in H.
    exists q. split_and!; auto. by intros [_ H1]%Ht.
  - rewrite lookup_alter_ne by done. intros Hq H. exists q'. split_and!; auto.
    by intros [? _]%Ht.
Qed.

Lemma still_waits_insert t s s' id q' :
  seqs s' = <[id := q']> (seqs s) -> s_begun q' = true ->
  (forall j, t = TSeqWait j -> j = id) -> still_waits t s s'.
Proof.
  intros E Hb Ht j q1. rewrite E. destruct (decide (j = id)) as [->|Hne].
  - rewrite lookup_insert_eq. intros [= <-]. congruence.
  - rewrite lookup_insert_ne by done. intros Hq H. exists q1. split_and!; auto.
Qed.

Lemma seq_waits_update i t t' s s' :
  seq_waits s -> threads s' = threads s -> threads s !! i = Some t -> still_waits t s s' ->
  seq_waits (with_threads <[i := t']> s').
Proof.
  intros W Et Hi HS id q' Hq Hb. destruct (HS id q' Hq Hb) as (q & Hq0 & Hb0 & Hg & Hd & Ht).
  destruct (W id q Hq0 Hb0) as [Hn Hw]. simpl. rewrite Hg, Et. split; [done|].
  destruct Hw as [Hw|[k Hk]%list_elem_of_lookup]; [auto|].
  destruct (decide (k = i)) as [->|Hne]; [simplify_eq; auto|].
  right. apply list_elem_of_lookup. exists k. by rewrite list_lookup_insert_ne.
Qed.

Lemma thread_still_waits c t s t' s' :
  thread_step c t s = Some (t', s') -> seq_waits s ->
  still_waits t s s' /\ threads s' = threads s.
Proof.
  unfold Supervisor.thread_step, stop_step, signal_step, escalate_step, sequence_step,
    sendStopSignal_lock, stop_lock, beginStopSequence.
  intros H W.
  repeat (case_match; simplify_eq/=; try done).
  all: split; [|first [done|by eapply forceKill_threads|by eapply signalRun_threads
                     |by unfold disarm_deadline; case_match]].
  all: try (apply still_waits_same;
            [first [done|by eapply forceKill_seqs|by eapply signalRun_seqs
                   |by rewrite ?arm_seqs, ?disarm_seqs]|done]).
  all: try (eapply still_waits_alter; [reflexivity|done..|naive_solver]).
  all: eapply still_waits_insert; [reflexivity| |by intros ? [=]]; simpl; try done.
  destruct (s_begun s0) eqn:Eb; [done|].
  match goal with H : seqs s !! _ = Some _ |- _ => destruct (W _ _ H Eb); congruence end.
Qed.

Lemma wired_keep s s' :
  frame s s' -> seqs_kept s s' -> seq_waits s' -> wired s -> wired s'.
Proof.
  intros F K W [W0 HS HR]. constructor; [done| |].
  - intros id. rewrite (fr_seq _ _ F). intros [q Hq]%HS. destruct (K _ _ Hq) as (q' & -> & _). eauto.
  - assert (forall id, is_Some (seqs s !! id) -> is_Some (seqs s' !! id)) as Hk.
    { intros id [q Hq]. destruct (K _ _ Hq) as (q' & -> & _). eauto. }
    rewrite (fr_run _ _ F), (fr_seq _ _ F). destruct (runAt s); auto.
    + destruct HR as [Hn (q & Hq & Hb)]. split; [done|].
      destruct (K _ _ Hq) as (q' & Hq' & Hc & Hg). exists q'. rewrite Hn in Hg. auto.
    + destruct HR as [Hn (q & Hq & Hb & Hc0)]. split; [done|].
      destruct (K _ _ Hq) as (q' & Hq' & Hc & Hg). exists q'. rewrite Hn in Hg. auto.
Qed.

Lemma seq_waits_more s s' :
  seqs s' = seqs s -> (forall t, t ∈ threads s -> t ∈ threads s') -> seq_waits s -> seq_waits s'.
Proof. intros E Ht W id q. rewrite E. intros Hq Hb. destruct (W id q Hq Hb) as [? []]; auto. Qed.

Lemma wired_other m s s' :
  move_step m s = Some s' -> (forall c, m <> MRun c) -> frame s s' -> wired s -> wired s'.
Proof.
  intros H Hm F HW. pose proof (wi_seq _ HW) as W.
  destruct m as [c|i c|sig timeout|sig|d|]; simpl in H; [by destruct (Hm c)|..].
  - apply bind_Some in H as (t & Ht & H). apply bind_Some in H as ([t' s1] & H & [= <-]).
    destruct (thread_still_waits _ _ _ _ _ H W) as [HS Et].
    eapply wired_keep; [done| |by eapply seq_waits_update|done].
    intros id q Hq. by apply (thread_seqs _ _ _ _ _ H W id q Hq).
  - injection H as <-. eapply wired_keep; [done|by apply seqs_kept_same| |done].
    apply (seq_waits_more s); [done|intros t Ht; simpl; set_solver|done].
  - injection H as <-. eapply wired_keep; [done|by apply seqs_kept_same| |done].
    apply (seq_waits_more s); [done|intros t Ht; simpl; set_solver|done].
  - case_decide; [|done]. injection H as <-.
    eapply wired_keep; [done|by apply seqs_kept_same| |done].
    apply (seq_waits_more s); [done|intros t Ht; simpl; set_solver|done].
  - injection H as <-. eapply wired_keep; [done|by apply seqs_kept_same|done|done].
Qed.

Lemma seq_waits_cancel id s s' :
  seqs s' = alter seq_cancel id (seqs s) -> threads s' = threads s -> seq_waits s -> seq_waits s'.
Proof.
  intros E Et W j q. rewrite E, Et. destruct (decide (j = id)) as [->|Hne].
  - rewrite lookup_alter_eq. intros (q0 & Hq & ->)%fmap_Some. exact (W id q0 Hq).
  - rewrite lookup_alter_ne by done. apply W.
Qed.

Lemma seq_waits_new s s' id :
  seqs s' = <[id := MkSeq [] false false false]> (seqs s) ->
  threads s' = threads s ++ [TSeqWait id] -> seq_waits s -> seq_waits s'.
Proof.
  intros E Et W j q. rewrite E, Et. destruct (decide (j = id)) as [->|Hne].
  - rewrite lookup_insert_eq. intros [= <-] _. split; [done|]. right.
    rewrite elem_of_app, list_elem_of_singleton. auto.
  - rewrite lookup_insert_ne by done. intros Hq Hb. rewrite elem_of_app.
    destruct (W j q Hq Hb) as [? []]; auto.
Qed.

Lemma wired_run c s s' : run_step c s = Some s' -> wired s -> wired s'.
Proof.
  intros Hr [W HS HR]. invert_run Hr.
  all: constructor; simpl; try done; auto.
  all: try (by eapply seq_waits_cancel).
  all: try (by intros id [= <-]; rewrite lookup_insert_eq).
  all: try (by intros id; rewrite lookup_alter_is_Some; apply HS).
  - by eapply seq_waits_new.
  - eauto.
  - destruct HR as [Hn (q & Hq & Hb)]. split; [done|]. rewrite lookup_alter_eq, Hq. simpl. eauto.
Qed.

Lemma wired_reachable s : reachable s -> wired s.
Proof.
  apply reachable_invariant.
  - intros pid socket cfg _. constructor; simpl; [by intros ? ?|by intros ?|done].
  - intros m s1 s2 H _ Hm. destruct (move_inv _ _ _ Hm) as [(c & _ & Hr)|(F & _ & Hne)].
    + by eapply wired_run.
    + by eapply wired_other.
Qed.

(** A goroutine that is over, or the one of a sequence that no stop has begun. *)
Definition at_rest (t : thread) : bool :=
  match t with TReturn _ | TSeqWait _ => true | _ => false end.

Lemma thread_moves s t :
  wired s -> at_rest t = false -> exists c t' s', thread_step c t s = Some (t', s').
Proof.
  intros W Ht. destruct t; try done; simpl.
  all: try (exists CGo; by eexists _, _).
  - exists CGo. simpl. unfold stop_lock, beginStopSequence. repeat case_match; simpl; eauto.
    + destruct (wi_seq _ W n s0 H1 H2) as [E _]. congruence.
    + destruct (wi_stop _ W n H) as [q Hq]. change (seqs s !! n = None) in H1. congruence.
  - destruct escalating; [|by exists CGo; eexists _, _].
    exists (CKernel SigOk). simpl. destruct (forceKill SigOk s) as [[? []] ?]; eauto.
  - exists (CKernel SigOk). simpl. destruct (signalRun _ _ _ _ s); eauto.
  - exists (CTime 0). by eexists _, _.
  - exists (CKernel SigOk). simpl. destruct (forceKill SigOk s) as [[? []] ?]; eauto.
  - exists CGo. simpl. destruct (seq_ctx_done s seq); eauto.
  - exists CGo. simpl. destruct (sendStopSignal_lock seq b s) as [[] ?]; eauto.
  - exists (CStopped true SigOk). by eexists _, _.
Qed.

(** An answer from outside that lets the run's goroutine go on. *)
Definition answer (pc : runpc) : choice :=
  match pc with
  | PTop None | PRestart | PExit _ _ | PFail _ | PReturn (Ok _) | PNoteEvent _ _ => CTime 0
  | PReadConfig => CConfig (Err "")
  | PSetup => CStarted (Err "")
  | PRunningEvent _ => CTimes 0 0
  | PWait _ => CExited (Ok 0%Z)
  | PTerminate _ _ | PTerminateAll _ _ => CSwept (Some 0%Z)
  | PAwait _ _ => CAwait (Some 0%Z)
  | PDrain _ _ => CReaders false
  | PJoinSeq _ _ _ => CBound
  | _ => CGo
  end.

Lemma run_moves s :
  wired s -> runAt s <> PDone -> (forall L r id, runAt s <> PRetired L r id) ->
  is_Some (run_step (answer (runAt s)) s).
Proof.
  intros W Hd Hr. pose proof (wi_run _ W) as HR.
  unfold Supervisor.run_step, loop_step, once_step, finish_step, sweep_step, state_step,
    maybeAutoRemove.
  destruct (runAt s) as [prev| | | | | | | | | | | | | | | | | | | | | | | |r| | | | | | | | | |] eqn:E;
    try done; try (by eexists); simpl.
  - destruct prev; by eexists.
  - by destruct (startStopSequence s).
  - destruct (rl_seq L) as [id|] eqn:El; [|by eexists].
    destruct (HR id eq_refl) as [q ->]. by destruct (s_begun q).
  - by destruct (Hr L r seq).
  - destruct r; by eexists.
Qed.

Lemma retired_moves s L r id :
  wired s -> runAt s = PRetired L r id ->
  is_Some (run_step CGo s) \/
  exists i s', threads s !! i = Some (TSeqWait id) /\ move_step (MThread i CBound) s = Some s'.
Proof.
  intros W E. pose proof (wi_run _ W) as HR. rewrite E in HR.
  destruct HR as (_ & q & Hq & Hb & Hc). destruct (wi_seq _ W id q Hq Hb) as [_ [Hd|Hw]].
  - left. unfold Supervisor.run_step, finish_step, seq_done. rewrite E, Hq, Hd. by eexists.
  - right. apply list_elem_of_lookup in Hw as [i Hi]. exists i. simpl. rewrite Hi. simpl.
    unfold seq_ctx_done. rewrite Hq, Hc, orb_true_r. simpl. eauto.
Qed.

(** C12: No goroutine of the monitor is stuck. In every reachable state a goroutine
    that is not over can take its next step; in particular a stop that begins a stop
    sequence finds room in the sequence's channel, into which it sends with [procMu]
    held. Two only wait: the goroutine of a sequence waits for a stop, and a run that
    retires its sequence waits for that goroutine, which can then move. *)
Theorem monitor_never_stuck s :
  reachable s ->
  (forall i t, threads s !! i = Some t ->
     at_rest t = true \/ exists c s', move_step (MThread i c) s = Some s') /\
  (runAt s = PDone \/ (exists c s', move_step (MRun c) s = Some s') \/
   exists i id s', threads s !! i = Some (TSeqWait id) /\
     move_step (MThread i CBound) s = Some s').
Proof.
  intros H. pose proof (wired_reachable _ H) as W. split.
  - intros i t Hi. destruct (at_rest t) eqn:Ht; [by left|right].
    destruct (thread_moves s t W Ht) as (c & t' & s' & E). exists c. simpl.
    rewrite Hi. simpl. rewrite E. simpl. eauto.
  - assert (runAt s = PDone \/ (exists L r id, runAt s = PRetired L r id) \/
      (runAt s <> PDone /\ forall L r id, runAt s <> PRetired L r id)) as [HD|[(L & r & id & HD)|[H1 H2]]]
      by (destruct (runAt s); naive_solver); [by left| |]; right.
    + destruct (retired_moves s L r id W HD) as [[s' Hs]|(i & s' & Hi & Hs)];
        [left; exists CGo; by eexists|right; by exists i, id, s'].
    + left. destruct (run_moves s W H1 H2) as [s' Hs]. exists (answer (runAt s)). by eexists.
Qed.
End Props.

(** ** Executions *)

Section Runs.

Definition demo_cfg (policy : RestartPolicy) (retries : Z) : CommandConfig :=
  Build_CommandConfig ["serve"] "/srv" ["A=1"] false policy retries "SIGTERM" None None false 0
    "none" ∅ ∅ ∅ ∅ "/cmd".

Definition demo_start (policy : RestartPolicy) (retries : Z) : system :=
  initial 7 "/sock" (demo_cfg policy retries).

Definition demo_cfgs (policy : RestartPolicy) (retries : Z) (cfg : CommandConfig) : Prop :=
  cfg = demo_cfg policy retries.

Definition demo_execute := execute "c1" (fun _ => "t").

Lemma execute_steps cfgs ms s s' :
  Forall (move_ok cfgs) ms -> demo_execute ms s = Some s' -> steps "c1" (fun _ => "t") cfgs s s'.
Proof.
  revert s'. induction ms as [|m ms IH] using rev_ind; intros s' F H.
  { injection H as ->. constructor. }
  assert (forall l s, demo_execute (l ++ [m]) s =
    demo_execute l s ≫= move_step "c1" (fun _ => "t") m) as Happ.
  { induction l as [|m' l IHl]; intros s0; simpl.
    - by destruct (move_step _ _ m s0).
    - destruct (move_step _ _ m' s0) as [s1|]; simpl; [apply IHl|done]. }
  rewrite Happ in H. apply bind_Some in H as (s1 & H1 & H2).
  apply Forall_app in F as [F Fm]. rewrite Forall_singleton in Fm.
  eapply steps_snoc; eauto.
Qed.

(** One iteration of the loop up to the start of the child. *)
Definition demo_begin (cfg : CommandConfig) : list move :=
  [MRun (CTime 0); MRun (CConfig (Ok cfg)); MRun CGo; MRun (CStarted (Ok 100%Z)); MRun CGo;
   MRun (CTimes 0 0); MRun CGo; MRun CGo].

(** The child's exit and the end of its run. *)
Definition demo_end (code : Z) : list move :=
  [MRun (CExited (Ok code)); MRun CGo; MRun CGo; MRun (CSwept (Some 0%Z)); MRun CGo;
   MRun (CReaders false); MRun CGo; MRun CGo; MRun (CTime 1); MRun CGo].

(** A run that fails once, is restarted and told to stop while it runs: the loop ends
    although the policy would restart it. *)
Definition demo_stop : list move :=
  let cfg := demo_cfg RestartPolicyAlways 0 in
  demo_begin cfg ++ demo_end 1 ++ [MRun CGo] ++ demo_begin cfg ++
  [MStop SIGTERM 5; MThread 0 CGo; MThread 0 CGo; MThread 0 CGo; MThread 0 CGo;
   MThread 0 (CKernel SigOk)].

Definition demo_stopped : list move :=
  [MFire 0; MThread 1 CGo; MThread 1 (CKernel SigOk); MThread 1 (CTime 5);
   MRun (CExited (Ok (-1)%Z)); MRun CGo; MRun CGo; MRun (CAwait (Some 0%Z)); MRun CGo; MRun CGo;
   MRun (CReaders false); MRun CGo; MRun CGo; MRun (CTime 6); MRun CGo; MRun CGo;
   MRun (CTime 7); MRun CGo; MRun CGo; MRun CGo; MRun CGo].

Definition demo_run (ms : list move) (s : system) : system := default s (demo_execute ms s).

Definition demo_running : system := demo_run demo_stop (demo_start RestartPolicyAlways 0).
Definition demo_over : system := demo_run demo_stopped demo_running.

Lemma demo_running_steps :
  steps "c1" (fun _ => "t") (demo_cfgs RestartPolicyAlways 0) (demo_start RestartPolicyAlways 0) demo_running.
Proof. apply (execute_steps _ demo_stop); [by repeat constructor|by vm_compute]. Qed.

Lemma demo_over_steps :
  steps "c1" (fun _ => "t") (demo_cfgs RestartPolicyAlways 0) demo_running demo_over.
Proof. apply (execute_steps _ demo_stopped); [by repeat constructor|by vm_compute]. Qed.

Lemma demo_over_reachable :
  reachable "c1" (fun _ => "t") (demo_cfgs RestartPolicyAlways 0) demo_over.
Proof.
  exists 7%Z, "/sock", (demo_cfg RestartPolicyAlways 0). split; [done|].
  apply (execute_steps _ (demo_stop ++ demo_stopped)); [by repeat constructor|by vm_compute].
Qed.

Lemma stop_prevents_restarts_witness :
  starts demo_over <= starts demo_running + (if committed (runAt demo_running) then 1 else 0).
Proof.
  apply (stop_prevents_restarts "c1" (fun _ => "t") (demo_cfgs RestartPolicyAlways 0)).
  - by vm_compute.
  - exact demo_over_steps.
Defined.

Lemma stop_bounds_the_loop_witness : length (filter counts demo_stopped) <= 34.
Proof.
  apply (stop_bounds_the_loop "c1" (fun _ => "t") demo_stopped demo_running demo_over); by vm_compute.
Defined.

(** With [on-failure:1] the second failure is the last. *)
Definition demo_failing : list move :=
  let cfg := demo_cfg RestartPolicyOnFailure 1 in
  demo_begin cfg ++ demo_end 1 ++ [MRun CGo] ++ demo_begin cfg ++ demo_end 1 ++ [MRun (CTime 1)].

Definition demo_failed : system := demo_run demo_failing (demo_start RestartPolicyOnFailure 1).

Lemma restart_budget_witness :
  starts demo_failed = 2 /\ (Z.of_nat (starts demo_failed) <= 1 + 1)%Z.
Proof.
  split; [by vm_compute|].
  apply (restart_budget "c1" (fun _ => "t") (demo_cfgs RestartPolicyOnFailure 1) 1 demo_failed).
  - intros cfg ->. exists 1%Z. split; [by vm_compute|lia].
  - lia.
  - exists 7%Z, "/sock", (demo_cfg RestartPolicyOnFailure 1). split; [done|].
    apply (execute_steps _ demo_failing); [by repeat constructor|by vm_compute].
Defined.

Lemma state_writes_announced_witness :
  exists h1 js h2, hist demo_over = h1 ++ AWrite EventTypeExited (Some (-1)%Z) js :: h2 /\
    cs_ForceKilled js = true /\
    exists e, last_state_event h1 e /\ announces e EventTypeExited (Some (-1)%Z) js.
Proof.
  exists (take 14 (hist demo_over)),
    (Build_CommandState 7 "/sock" "t" "t" 1 "" [an_msg anomalyForceKilled] true),
    (drop 15 (hist demo_over)).
  assert (hist demo_over = take 14 (hist demo_over) ++
    AWrite EventTypeExited (Some (-1)%Z)
      (Build_CommandState 7 "/sock" "t" "t" 1 "" [an_msg anomalyForceKilled] true)
    :: drop 15 (hist demo_over)) as E by by vm_compute.
  split; [exact E|]. split; [done|].
  exact (state_writes_announced "c1" (fun _ => "t") (demo_cfgs RestartPolicyAlways 0)
    demo_over _ _ _ _ _ demo_over_reachable E).
Defined.

Lemma monitor_never_stuck_witness :
  runAt demo_over = PDone /\
  (forall i t, threads demo_over !! i = Some t ->
     at_rest t = true \/ exists c s', move_step "c1" (fun _ => "t") (MThread i c) demo_over = Some s').
Proof.
  split; [by vm_compute|].
  exact (proj1 (monitor_never_stuck "c1" (fun _ => "t") (demo_cfgs RestartPolicyAlways 0)
    demo_over demo_over_reachable)).
Defined.

(** A first run that fails; the stop comes once the loop has passed its check. *)
Definition demo_between : list move :=
  let cfg := demo_cfg RestartPolicyAlways 0 in
  demo_begin cfg ++ demo_end 1 ++ [MRun CGo].

Definition demo_lost_stop : list move :=
  [MStop SIGTERM 0; MThread 0 CGo; MThread 0 CGo; MThread 0 CGo; MThread 0 CGo;
   MThread 0 (CKernel SigOk)].

(** A stop can be lost. A stop that comes between two runs, after the loop's check
    of the latch and before the next run has published its handles, reports success,
    yet the next run starts and goes on: nothing has been signalled, no deadline is
    armed and no other goroutine is left to send a signal. *)
Theorem stop_between_runs_lost :
  exists s1 s2,
    reachable "c1" (fun _ => "t") (demo_cfgs RestartPolicyAlways 0) s1 /\
    runAt s1 = PRestart /\ threads s1 = [] /\
    steps "c1" (fun _ => "t") (demo_cfgs RestartPolicyAlways 0)
      (spawn (TStop SIGTERM 0) s1) s2 /\
    runAt s2 = PWait (MkLocal 100 None) /\ starts s2 = S (starts s1) /\
    threads s2 = [TReturn SigOk] /\ timers s2 = ∅ /\
    (forall target sig, ASignal target sig ∉ hist s2).
Proof.
  set (s1 := demo_run demo_between (demo_start RestartPolicyAlways 0)).
  set (s2 := demo_run (tail demo_lost_stop ++ demo_begin (demo_cfg RestartPolicyAlways 0))
               (spawn (TStop SIGTERM 0) s1)).
  exists s1, s2. split_and!; try by vm_compute.
  - exists 7%Z, "/sock", (demo_cfg RestartPolicyAlways 0). split; [done|].
    apply (execute_steps _ demo_between); [by repeat constructor|by vm_compute].
  - apply (execute_steps _ (tail demo_lost_stop ++ demo_begin (demo_cfg RestartPolicyAlways 0)));
      [by repeat constructor|by vm_compute].
  - intros target sig H. vm_compute in H.
    repeat (apply elem_of_cons in H as [H|H]; [discriminate|]). by apply elem_of_nil in H.
Qed.

End Runs.
