(* ===== verification/MuxCtl.v ===== *)
(** * Multiplexer layouts

    [pkg/muxctl]: the driver-independent layout tree with its size grammar
    ([spec.go]), the distribution of a parent's cells over its children and the
    choice of the focused leaf ([layout.go]), and the validation of a layout set
    ([validate.go]). *)

From S2P Require Import Prelude GoStr.

(** ** Sizes *)

(* src/pkg/muxctl/spec.go:152-163 Size *)
Record Size := MkSize { size_N : Z; Absolute : bool; Percent : bool }.

(* src/pkg/muxctl/spec.go:165-176 Size.String *)
Definition Size_String (s : Size) : string :=
  if Absolute s then Itoa (size_N s) +:+ "c"
  else if Percent s then Itoa (size_N s) +:+ "%"
  else Itoa (size_N s).

(* src/pkg/muxctl/spec.go:204-230 ParseSize *)
Inductive sizeErr := SizeEmpty | SizeNotNumber (s : string) | SizeNotPositive (s : string)
                   | SizePercentRange (s : string).

(** The unit a size ends with: the digits before it, absolute, percent. *)
(* src/pkg/muxctl/spec.go:208-218 ParseSize *)
Definition size_unit (s : string) : string * bool * bool :=
  if hasSuffix "c" s then (trimSuffix "c" s, true, false)
  else if hasSuffix "%" s then (trimSuffix "%" s, false, true)
  else (s, false, false).

(* src/pkg/muxctl/spec.go:198-230 ParseSize *)
Definition ParseSize (s : string) : result sizeErr Size :=
  if decide (s = "") then Err SizeEmpty
  else
    let '(body, absolute, percent) := size_unit s in
    match Atoi body with
    | None => Err (SizeNotNumber s)
    | Some n =>
      if decide (n <= 0)%Z then Err (SizeNotPositive s)
      else if percent && bool_decide (100 < n)%Z then Err (SizePercentRange s)
      else Ok (MkSize n absolute percent)
    end.

(** The invariant the type's comment states. *)
Definition size_ok (s : Size) : Prop :=
  (0 < size_N s)%Z /\ in_int64 (size_N s) /\ (Absolute s && Percent s = false) /\
  (Percent s = true -> (size_N s <= 100)%Z).

Lemma hasSuffix_app a suf : hasSuffix suf (a +:+ suf) = true.
Proof.
  induction a as [|c a IH]; simpl.
  - destruct suf; simpl; by rewrite ?decide_True.
  - by case_decide.
Qed.

Lemma hasSuffix_char_digits d s :
  is_digit d = false -> string_forallb is_digit s = true -> hasSuffix (String d "") s = false.
Proof.
  intros Hd. induction s as [|c s IH]; simpl; [done|]. intros H. split_hyps.
  rewrite decide_False; [auto|]. intros [= -> ->]. congruence.
Qed.

Lemma hasSuffix_char d s c :
  hasSuffix (String d "") (s +:+ String c "") = bool_decide (c = d).
Proof.
  induction s as [|x s IH]; simpl.
  - destruct (decide (String c "" = String d "")) as [[= ->]|Hn]; simpl.
    + by rewrite bool_decide_true.
    + symmetry. apply bool_decide_false. by intros ->.
  - rewrite decide_False; [done|]. intros [= _ H]. by destruct s.
Qed.

Lemma Itoa_not_empty z : Itoa z <> "".
Proof. intros H. assert (Itoa z = Itoa 0 -> z = 0%Z) by apply Itoa_inj.
  destruct z as [|p|p]; [done| |done].
  destruct (pretty_N_cons (N.pos p)) as (c & s & E & _).
  unfold Itoa in H. change (pretty (Z.pos p)) with (pretty (N.pos p)) in H. congruence.
Qed.

Lemma app_char_not_empty s c : s +:+ String c "" <> "".
Proof. by destruct s. Qed.

(** sizes round-trip: parsing the printed form of a well-formed size gives it
    back, and parsing accepts nothing else (positive, in range, not both absolute and
    percent, percentages at most 100). *)
Theorem ParseSize_String s :
  (size_ok s -> ParseSize (Size_String s) = Ok s) /\
  (forall str, ParseSize str = Ok s -> size_ok s).
Proof.
  split.
  - destruct s as [n a p]. intros (Hn & Hi & Hap & Hp). unfold ParseSize, size_unit, Size_String. simpl in *.
    pose proof (Itoa_digits n ltac:(lia)) as Hd.
    destruct a; [|destruct p]; simpl in *.
    + rewrite decide_False by apply app_char_not_empty.
      rewrite hasSuffix_app, trimSuffix_app, Atoi_Itoa, decide_False by (done || lia).
      by destruct p.
    + rewrite decide_False by apply app_char_not_empty.
      rewrite hasSuffix_char. rewrite bool_decide_false by done.
      rewrite hasSuffix_app, trimSuffix_app, Atoi_Itoa, decide_False by (done || lia).
      rewrite bool_decide_false; [done|]. specialize (Hp eq_refl). lia.
    + rewrite decide_False by apply Itoa_not_empty.
      rewrite !hasSuffix_char_digits by done.
      by rewrite Atoi_Itoa, decide_False by (done || lia).
  - intros str H. unfold ParseSize in H. case_decide; [done|].
    assert (Hap : forall body a p, size_unit str = (body, a, p) -> a && p = false).
    { unfold size_unit. repeat case_match; naive_solver. }
    destruct (size_unit str) as [[body a] p]. specialize (Hap _ _ _ eq_refl).
    destruct (Atoi body) as [n|] eqn:E; [|done]. case_decide; [done|].
    destruct (p && bool_decide (100 < n)%Z) eqn:Ep; simplify_eq.
    apply bind_Some in E as (m & _ & E). case_decide; simplify_eq.
    split_and!; simpl; [lia|done|done|]. intros ->. simpl in Ep.
    apply bool_decide_eq_false in Ep. lia.
Qed.

Lemma ParseSize_String_witness :
  let s := {| size_N := 50; Absolute := false; Percent := true |} in ParseSize (Size_String s) = Ok s.
Proof.
  intros s. apply (proj1 (ParseSize_String s)).
  split_and!; [reflexivity|unfold in_int64, int64_min, int64_max; simpl; lia|reflexivity|by intros _].
Defined.

(** ** Cell distribution *)

(** One child's fixed share: absolute cells, or a percentage of the parent,
    with Go's truncated division.  Every product and sum is of the machine's 64 bits. *)
(* src/pkg/muxctl/layout.go:15-29 ComputeChildCells *)
Definition reserved_of (parent : Z) (s : Size) : Z :=
  if Absolute s then size_N s else if Percent s then Z.quot (wrap64 (parent * size_N s)) 100 else 0%Z.

Definition weighted (s : Size) : bool := negb (Absolute s) && negb (Percent s).

(* src/pkg/muxctl/layout.go:18-29 ComputeChildCells *)
Definition weight_of (s : Size) : Z := if weighted s then size_N s else 0%Z.

Definition Zsum (l : list Z) : Z := foldr Z.add 0%Z l.

(** The sum as the loop adds it up: wrapping at every step or once at the end is the same. *)
Definition Zsum64 (l : list Z) : Z := wrap64 (Zsum l).

(** The share before the remainder is handed out. *)
(* src/pkg/muxctl/layout.go:36-46 ComputeChildCells *)
Definition base_cells (parent leftover sumWeight : Z) (s : Size) : Z :=
  if weighted s then
    if decide (sumWeight = 0)%Z then 0%Z else wrap64 (Z.quot (wrap64 (leftover * size_N s)) sumWeight)
  else reserved_of parent s.

(* src/pkg/muxctl/layout.go:41-46 ComputeChildCells *)
Definition assigned_of (leftover sumWeight : Z) (s : Size) : Z :=
  if weighted s then
    if decide (sumWeight = 0)%Z then 0%Z else wrap64 (Z.quot (wrap64 (leftover * size_N s)) sumWeight)
  else 0%Z.

(** The index of the last weighted child; none is counted when the weights sum
    to zero, as in the loop. *)
(* src/pkg/muxctl/layout.go:35-48 ComputeChildCells *)
Definition last_weighted (sumWeight : Z) (splits : list Size) : option nat :=
  if decide (sumWeight = 0)%Z then None
  else fst <$> last (filter (fun p => weighted p.2 = true) (imap pair splits)).

(* src/pkg/muxctl/layout.go:3-60 ComputeChildCells *)
Definition ComputeChildCells (parent : Z) (splits : list Size) : list Z :=
  match splits with
  | [] => []
  | _ =>
    let sumReserved := Zsum64 (map (reserved_of parent) splits) in
    let sumWeight := Zsum64 (map weight_of splits) in
    let separators := (Z.of_nat (length splits) - 1)%Z in
    let leftover := Z.max (wrap64 (parent - sumReserved - separators)) 0 in
    let cells := map (base_cells parent leftover sumWeight) splits in
    let assigned := Zsum64 (map (assigned_of leftover sumWeight) splits) in
    let cells :=
      match last_weighted sumWeight splits with
      | Some i =>
        if decide (assigned < leftover)%Z
        then alter (fun c => wrap64 (c + wrap64 (leftover - assigned))) i cells else cells
      | None => cells
      end in
    map (fun c => if decide (c < 1)%Z then 0%Z else c) cells
  end.

(* src/pkg/muxctl/spec.go:131-137 Direction *)
Definition Direction := string.
(* src/pkg/muxctl/spec.go:134-137 DirHorizontal *)
Definition DirHorizontal : Direction := "h".
(* src/pkg/muxctl/spec.go:134-137 DirVertical *)
Definition DirVertical : Direction := "v".

(* src/pkg/muxctl/layout.go:62-68 ParentDim *)
Definition ParentDim (dir : Direction) (w h : Z) : Z :=
  if decide (dir = DirVertical) then h else w.

(* src/pkg/muxctl/layout.go:70-76 ChildDims *)
Definition ChildDims (dir : Direction) (parentW parentH childCells : Z) : Z * Z :=
  if decide (dir = DirVertical) then (parentW, childCells) else (childCells, parentH).

Lemma Zsum_app l1 l2 : Zsum (l1 ++ l2) = (Zsum l1 + Zsum l2)%Z.
Proof. induction l1; simpl; lia. Qed.

Lemma Zsum_map_add {A} (f g : A -> Z) l :
  Zsum (map (fun x => f x + g x)%Z l) = (Zsum (map f l) + Zsum (map g l))%Z.
Proof. induction l; simpl; lia. Qed.

Lemma Zsum_nonneg l : Forall (fun z => 0 <= z)%Z l -> (0 <= Zsum l)%Z.
Proof. induction 1; simpl; lia. Qed.

Lemma Zsum_alter (d : Z) i l :
  i < length l -> Zsum (alter (Z.add d) i l) = (Zsum l + d)%Z.
Proof.
  unfold alter. revert i; induction l as [|x l IH]; intros [|i] H; simpl in *; try lia.
  specialize (IH i ltac:(lia)). lia.
Qed.

Lemma Zsum_in l x : Forall (fun z => 0 <= z)%Z l -> x ∈ l -> (x <= Zsum l)%Z.
Proof.
  intros Hl. induction Hl as [|y l Hy Hl IH]; [by intros ?%elem_of_nil|]. pose proof (Zsum_nonneg l Hl).
  intros [->|H'%IH]%elem_of_cons; simpl; lia.
Qed.

Lemma Zsum_quot_le w q (splits : list Z) :
  (0 <= w)%Z -> (0 < q)%Z -> Forall (fun n => 0 <= n)%Z splits ->
  (q * Zsum (map (fun n => Z.quot (w * n) q) splits) <= w * Zsum splits)%Z.
Proof.
  intros Hw Hq. induction 1 as [|n l Hn Hl IH]; simpl; [lia|].
  rewrite Z.quot_div_nonneg by nia.
  pose proof (Z.mul_div_le (w * n) q Hq). lia.
Qed.

(** *** The reference, over unbounded integers *)

Definition exact_reserved (parent : Z) (s : Size) : Z :=
  if Absolute s then size_N s else if Percent s then Z.quot (parent * size_N s) 100 else 0%Z.

Definition exact_assigned (leftover sumWeight : Z) (s : Size) : Z :=
  if weighted s then
    if decide (sumWeight = 0)%Z then 0%Z else Z.quot (leftover * size_N s) sumWeight
  else 0%Z.

Definition exact_base (parent leftover sumWeight : Z) (s : Size) : Z :=
  if weighted s then exact_assigned leftover sumWeight s else exact_reserved parent s.

Definition exact_leftover (parent : Z) (splits : list Size) : Z :=
  Z.max (parent - Zsum (map (exact_reserved parent) splits) - (Z.of_nat (length splits) - 1)) 0.

(** The cells before those below one are dropped. *)
Definition exact_cells (parent : Z) (splits : list Size) : list Z :=
  let leftover := exact_leftover parent splits in
  let q := Zsum (map weight_of splits) in
  let cells := map (exact_base parent leftover q) splits in
  let assigned := Zsum (map (exact_assigned leftover q) splits) in
  match last_weighted q splits with
  | Some i => if decide (assigned < leftover)%Z then alter (Z.add (leftover - assigned)) i cells else cells
  | None => cells
  end.

Section Cells.
Context (parent : Z) (splits : list Size) (Hok : Forall size_ok splits) (Hp : (0 <= parent)%Z).

Lemma weight_nonneg s : size_ok s -> (0 <= weight_of s)%Z.
Proof. unfold weight_of, size_ok. destruct (weighted s); lia. Qed.

Lemma reserved_nonneg s : size_ok s -> (0 <= exact_reserved parent s)%Z.
Proof.
  intros (? & _). unfold exact_reserved. destruct (Absolute s); [lia|]. destruct (Percent s); [|lia].
  apply Z.quot_pos; [nia|lia].
Qed.

Lemma assigned_eq leftover q s :
  exact_assigned leftover q s =
  if decide (q = 0)%Z then 0%Z else Z.quot (leftover * weight_of s) q.
Proof.
  unfold exact_assigned, weight_of. destruct (weighted s); [done|].
  case_decide; [done|]. by rewrite Z.mul_0_r, Z.quot_0_l.
Qed.

Lemma base_eq leftover q s :
  exact_base parent leftover q s = (exact_reserved parent s + exact_assigned leftover q s)%Z.
Proof.
  unfold exact_base, exact_assigned, exact_reserved, weighted.
  destruct (Absolute s), (Percent s); simpl; lia.
Qed.

Lemma sum_weight_nonneg : (0 <= Zsum (map weight_of splits))%Z.
Proof.
  apply Zsum_nonneg, Forall_map. eapply Forall_impl; [exact Hok|]. apply weight_nonneg.
Qed.

Lemma assigned_bound leftover :
  (0 <= leftover)%Z ->
  let q := Zsum (map weight_of splits) in
  (0 <= Zsum (map (exact_assigned leftover q) splits) <= leftover)%Z /\
  Forall (fun s => 0 <= exact_assigned leftover q s)%Z splits.
Proof.
  intros Hl q. pose proof sum_weight_nonneg as Hq. fold q in Hq.
  assert (Forall (fun s => 0 <= exact_assigned leftover q s)%Z splits) as Hpos.
  { eapply Forall_impl; [exact Hok|]. intros s Hs. simpl. rewrite assigned_eq.
    case_decide; [lia|]. apply weight_nonneg in Hs. apply Z.quot_pos; nia. }
  split; [|done]. split; [by apply Zsum_nonneg, Forall_map|].
  destruct (decide (q = 0)%Z) as [E|E].
  - assert (Zsum (map (exact_assigned leftover q) splits) = 0%Z) as ->; [|lia].
    rewrite E. clear. induction splits as [|s l IH]; simpl; [done|].
    rewrite IH, assigned_eq. by rewrite decide_True.
  - assert (map (exact_assigned leftover q) splits
      = map (fun n => Z.quot (leftover * n) q) (map weight_of splits)) as ->.
    { rewrite map_map. apply map_ext. intros s. by rewrite assigned_eq, decide_False. }
    assert (Forall (fun n => 0 <= n)%Z (map weight_of splits)) as Hw.
    { apply Forall_map. eapply Forall_impl; [exact Hok|]. apply weight_nonneg. }
    pose proof (Zsum_quot_le leftover q _ Hl ltac:(lia) Hw). fold q in H. nia.
Qed.

End Cells.

Lemma last_weighted_bound splits q i : last_weighted q splits = Some i -> i < length splits.
Proof.
  unfold last_weighted. case_decide; [done|]. intros H'.
  apply fmap_Some in H' as ([j s] & Hlast & ->). simpl.
  apply last_Some_elem_of, list_elem_of_filter in Hlast as [_ Hin].
  apply elem_of_lookup_imap in Hin as (k & y & [= -> ->] & Hk).
  by apply lookup_lt_Some in Hk.
Qed.

Lemma last_weighted_none splits q :
  last_weighted q splits = None -> q = Zsum (map weight_of splits) -> q = 0%Z.
Proof.
  unfold last_weighted. case_decide; [done|]. intros Hnone ->.
  apply fmap_None, last_None in Hnone.
  assert (forall s, s ∈ splits -> weight_of s = 0%Z) as Hw.
  { intros s [i Hi]%list_elem_of_lookup. unfold weight_of. destruct (weighted s) eqn:E; [|done].
    exfalso. assert ((i, s) ∈ filter (fun p => weighted p.2 = true) (imap pair splits)) as Hin.
    { apply list_elem_of_filter. split; [done|]. apply elem_of_lookup_imap. eauto. }
    rewrite Hnone in Hin. set_solver. }
  clear -Hw. induction splits as [|s l IH]; simpl; [done|].
  rewrite IH, Hw by set_solver. done.
Qed.

(** Rounding up small cells only drops non-positive ones. *)
Lemma clamp_sum l :
  Forall (fun z => 0 <= z)%Z l ->
  map (fun c => if decide (c < 1)%Z then 0%Z else c) l = l.
Proof.
  induction 1; simpl; [done|]. rewrite IHForall. f_equal. case_decide; lia.
Qed.

(** The weights of a split sum to zero exactly when no child is weighted. *)
Lemma sum_weight_zero splits :
  Forall size_ok splits ->
  (Zsum (map weight_of splits) = 0%Z <-> existsb weighted splits = false).
Proof.
  intros Hok. induction Hok as [|s l Hs Hl IH]; simpl; [done|].
  pose proof (sum_weight_nonneg l Hl). rewrite orb_false_iff, <- IH.
  destruct Hs as [Hs _]. unfold weight_of at 1. destruct (weighted s); split; intros;
    split_hyps; try done; lia.
Qed.

(** The cells before the clamp: the fixed sizes plus, when a weighted child
    exists, everything left over. *)
Lemma cells_sum parent splits leftover :
  Forall size_ok splits -> (0 <= parent)%Z -> (0 <= leftover)%Z ->
  let q := Zsum (map weight_of splits) in
  let cells := map (exact_base parent leftover q) splits in
  let assigned := Zsum (map (exact_assigned leftover q) splits) in
  let cells' := match last_weighted q splits with
    | Some i => if decide (assigned < leftover)%Z
                then alter (Z.add (leftover - assigned)) i cells else cells
    | None => cells end in
  length cells' = length splits /\ Forall (fun c => 0 <= c)%Z cells' /\
  Zsum cells' = (Zsum (map (exact_reserved parent) splits)
                 + if existsb weighted splits then leftover else 0)%Z.
Proof.
  intros Hok Hp Hl q cells assigned cells'.
  destruct (assigned_bound splits Hok leftover Hl) as [Ha Hpos]. fold q assigned in Ha, Hpos.
  assert (Hsum : Zsum cells = (Zsum (map (exact_reserved parent) splits) + assigned)%Z).
  { unfold cells, assigned. rewrite <- Zsum_map_add. f_equal. apply map_ext.
    intros s. apply base_eq. }
  assert (Hc0 : Forall (fun c => 0 <= c)%Z cells).
  { apply Forall_map, Forall_forall. intros s Hs. rewrite base_eq.
    rewrite Forall_forall in Hok, Hpos. specialize (Hpos s Hs). simpl in Hpos.
    pose proof (reserved_nonneg parent Hp s (Hok s Hs)). lia. }
  assert (Hlen : length cells = length splits) by apply length_map.
  pose proof (sum_weight_zero splits Hok) as Hq0. fold q in Hq0.
  unfold cells'. destruct (last_weighted q splits) as [i|] eqn:Elast.
  - destruct (existsb weighted splits).
    2:{ unfold last_weighted in Elast. rewrite decide_True in Elast by tauto. done. }
    case_decide; [|split_and!; [done|done|lia]].
    apply last_weighted_bound in Elast. rewrite length_alter, Zsum_alter by lia.
    split_and!; [done| |lia].
    apply Forall_alter; [done|]. intros x Hx Hx0. lia.
  - apply last_weighted_none in Elast; [|done].
    destruct (existsb weighted splits); [by apply Hq0 in Elast|].
    split_and!; [done|done|]. rewrite Hsum. unfold assigned. rewrite Elast.
    assert (forall l, Zsum (map (exact_assigned leftover 0) l) = 0%Z) as ->; [|done].
    induction l as [|s l IH]; simpl; [done|]. rewrite IH, assigned_eq. by rewrite decide_True.
Qed.

(** *** The machine's arithmetic computes the reference *)

(** What keeps every product and sum within 64 bits. *)
Definition cells_fit (parent : Z) (splits : list Size) : Prop :=
  (0 <= parent)%Z /\ ((parent + 2) * Zsum (map size_N splits) <= int64_max)%Z.

Section Fit.
Context (parent : Z) (splits : list Size) (Hok : Forall size_ok splits) (Hfit : cells_fit parent splits).

Lemma Zsum_member (f : Size -> Z) l s : Forall (fun s => 0 <= f s)%Z l -> s ∈ l -> (f s <= Zsum (map f l))%Z.
Proof.
  intros Hf. induction Hf as [|t l Ht Hl IH]; [by intros ?%elem_of_nil|].
  pose proof (Zsum_nonneg (map f l) ltac:(by apply Forall_map)).
  intros [->|Hs%IH]%elem_of_cons; simpl; lia.
Qed.

Lemma fit_member s : s ∈ splits -> (0 < size_N s /\ (parent + 2) * size_N s <= int64_max)%Z.
Proof.
  intros Hs. destruct Hfit as [Hp Hf]. assert (H : Forall (fun s => 0 <= size_N s)%Z splits)
    by (eapply Forall_impl; [exact Hok|intros ? [??]; lia]).
  pose proof (Zsum_member size_N splits s H Hs). rewrite Forall_forall in Hok. destruct (Hok s Hs). nia.
Qed.

Lemma reserved_exact s :
  s ∈ splits -> reserved_of parent s = exact_reserved parent s /\ (0 <= exact_reserved parent s < (parent + 2) * size_N s)%Z.
Proof.
  intros Hs. destruct (fit_member s Hs) as [Hn Hb], Hfit as [Hp _]. unfold reserved_of, exact_reserved.
  destruct (Absolute s); [split; [done|nia]|]. destruct (Percent s); [|split; [done|nia]].
  rewrite wrap64_id by (unfold in_int64, int64_min; nia). split; [done|].
  rewrite Z.quot_div_nonneg by nia. pose proof (Z.div_le_upper_bound (parent * size_N s) 100 (parent * size_N s)).
  pose proof (Z.div_pos (parent * size_N s) 100). nia.
Qed.

(** A sum of the children's shares and a line each stays in range when each share does. *)
Lemma sum_in_range (f : Size -> Z) :
  (forall s, s ∈ splits -> (0 <= f s < (parent + 2) * size_N s)%Z) ->
  (0 <= Zsum (map f splits) /\ Zsum (map f splits) + Z.of_nat (length splits) <= int64_max)%Z.
Proof.
  intros Hf. destruct Hfit as [_ Hb].
  enough (0 <= Zsum (map f splits) /\ Zsum (map f splits) + Z.of_nat (length splits) <= (parent + 2) * Zsum (map size_N splits))%Z by lia.
  clear Hb Hfit Hok. induction splits as [|s l IH]; [simpl; lia|].
  specialize (IH ltac:(intros t Ht; apply Hf; by apply list_elem_of_further)).
  specialize (Hf s ltac:(apply list_elem_of_here)). cbn [map Zsum foldr length] in *.
  change (foldr Z.add 0%Z (map size_N l)) with (Zsum (map size_N l)). change (foldr Z.add 0%Z (map f l)) with (Zsum (map f l)).
  nia.
Qed.

Lemma reserved_sum :
  Zsum64 (map (reserved_of parent) splits) = Zsum (map (exact_reserved parent) splits) /\
  (0 <= Zsum (map (exact_reserved parent) splits) /\
   Zsum (map (exact_reserved parent) splits) + Z.of_nat (length splits) <= int64_max)%Z.
Proof.
  assert (E : map (reserved_of parent) splits = map (exact_reserved parent) splits)
    by (apply map_ext_in; intros s Hs; by apply reserved_exact, list_elem_of_In).
  pose proof (sum_in_range (exact_reserved parent) ltac:(intros s Hs; by apply reserved_exact)) as H.
  unfold Zsum64. rewrite E, wrap64_id by (unfold in_int64, int64_min; lia). done.
Qed.

Lemma weight_sum : Zsum64 (map weight_of splits) = Zsum (map weight_of splits).
Proof.
  unfold Zsum64. apply wrap64_id. pose proof (sum_in_range weight_of) as H.
  unfold in_int64, int64_min. assert (forall s, s ∈ splits -> (0 <= weight_of s < (parent + 2) * size_N s)%Z) as Hw; [|specialize (H Hw); lia].
  intros s Hs. destruct (fit_member s Hs), Hfit. unfold weight_of. destruct (weighted s); nia.
Qed.

Lemma leftover_exact :
  splits <> [] ->
  Z.max (wrap64 (parent - Zsum64 (map (reserved_of parent) splits) - (Z.of_nat (length splits) - 1))) 0 = exact_leftover parent splits /\
  (0 <= exact_leftover parent splits <= parent)%Z /\ in_int64 parent.
Proof.
  intros Hne. destruct reserved_sum as [-> H]. unfold exact_leftover.
  assert (Hl : (1 <= Z.of_nat (length splits))%Z) by (destruct splits; [done|simpl; lia]).
  assert (Hi : in_int64 parent).
  { assert (exists s, s ∈ splits) as [s Hs] by (destruct splits as [|s l]; [done|exists s; apply list_elem_of_here]).
    destruct (fit_member s Hs), Hfit. unfold in_int64, int64_min. nia. }
  split; [|split; [destruct Hfit; lia|done]].
  rewrite wrap64_id; [done|]. destruct Hfit. unfold in_int64, int64_min, int64_max in *. lia.
Qed.

Lemma share_exact leftover s :
  (0 <= leftover <= parent)%Z -> s ∈ splits ->
  let q := Zsum (map weight_of splits) in
  assigned_of leftover q s = exact_assigned leftover q s /\ base_cells parent leftover q s = exact_base parent leftover q s.
Proof.
  intros Hl Hs q. destruct (fit_member s Hs) as [Hn Hb]. unfold base_cells, exact_base.
  rewrite (proj1 (reserved_exact s Hs)). enough (assigned_of leftover q s = exact_assigned leftover q s) as E.
  { split; [done|]. rewrite <- E. unfold assigned_of. by destruct (weighted s). }
  pose proof (sum_weight_nonneg splits Hok) as Hq. fold q in Hq.
  unfold assigned_of, exact_assigned. destruct (weighted s); [|done]. case_decide; [done|].
  rewrite (wrap64_id (leftover * size_N s)) by (unfold in_int64, int64_min; nia).
  apply wrap64_id. rewrite Z.quot_div_nonneg by nia.
  pose proof (Z.div_le_upper_bound (leftover * size_N s) q (leftover * size_N s)).
  pose proof (Z.div_pos (leftover * size_N s) q). unfold in_int64, int64_min. nia.
Qed.

(** Within that range the function distributes the cells as the reference does. *)
Lemma ComputeChildCells_exact :
  splits <> [] -> ComputeChildCells parent splits = map (fun c => if decide (c < 1)%Z then 0%Z else c) (exact_cells parent splits).
Proof.
  intros Hne. destruct (leftover_exact Hne) as (Hl & Hb & Hi). pose proof (proj1 Hfit) as Hp.
  assert (Hshare : forall s, s ∈ splits -> _) by (intros s Hs; exact (share_exact (exact_leftover parent splits) s Hb Hs)).
  destruct (cells_sum parent splits (exact_leftover parent splits) Hok Hp ltac:(lia)) as (Hlen & Hpos & Hsum).
  fold (exact_cells parent splits) in Hlen, Hpos, Hsum. pose proof reserved_sum as Hr. pose proof weight_sum as Hw.
  destruct (assigned_bound splits Hok (exact_leftover parent splits) ltac:(lia)) as [Ha _].
  clear Hfit. unfold ComputeChildCells. destruct splits as [|s0 l0] eqn:El; [done|]. rewrite <- El in *. cbv zeta.
  rewrite Hl, Hw. clear El s0 l0. f_equal. unfold exact_cells at 1.
  rewrite (map_ext_in (assigned_of _ _) (exact_assigned (exact_leftover parent splits) (Zsum (map weight_of splits))))
    by (intros s Hs%list_elem_of_In; by apply Hshare).
  rewrite (map_ext_in (base_cells _ _ _) (exact_base parent (exact_leftover parent splits) (Zsum (map weight_of splits))))
    by (intros s Hs%list_elem_of_In; by apply Hshare).
  unfold Zsum64. rewrite (wrap64_id (Zsum (map (exact_assigned _ _) _))) by (unfold in_int64, int64_min, int64_max in *; lia).
  unfold exact_cells in Hpos, Hsum. destruct (last_weighted _ splits) as [i|]; [|done]. case_decide; [|done].
  apply list_alter_ext; [|done]. intros x Hx. rewrite (wrap64_id (_ - _)) by (unfold in_int64, int64_min, int64_max in *; lia).
  rewrite wrap64_id; [lia|].
  match type of Hsum with Zsum ?l = _ => assert (Hin : (exact_leftover parent splits - Zsum (map (exact_assigned (exact_leftover parent splits) (Zsum (map weight_of splits))) splits) + x)%Z ∈ l) end.
  { apply list_elem_of_lookup. exists i. by rewrite list_lookup_alter_eq, Hx. }
  pose proof (Zsum_in _ _ Hpos Hin) as Hle. rewrite Hsum in Hle. rewrite Forall_forall in Hpos. specialize (Hpos _ Hin).
  assert (0 < length splits) by (destruct splits; [done|simpl; lia]).
  unfold in_int64, int64_min, int64_max in *. destruct (existsb weighted splits); unfold exact_leftover in *; lia.
Qed.

End Fit.

(** the cells of a split are one per child and none is negative; they add up to
    the fixed sizes (absolute cells and percentages) plus, when a weighted child
    exists, everything the fixed sizes and the separators leave over: a split with a
    weighted child whose fixed sizes fit fills its parent exactly. *)
Theorem ComputeChildCells_fills parent splits
    (Hok : Forall size_ok splits) (Hfit : cells_fit parent splits) (Hne : splits <> []) :
  let cells := ComputeChildCells parent splits in
  let separators := (Z.of_nat (length splits) - 1)%Z in
  let reserved := Zsum (map (exact_reserved parent) splits) in
  length cells = length splits /\
  Forall (fun c => 0 <= c)%Z cells /\
  Zsum cells = (reserved + if existsb weighted splits
                           then Z.max (parent - reserved - separators) 0 else 0)%Z.
Proof.
  intros cells separators reserved.
  destruct (cells_sum parent splits (exact_leftover parent splits) Hok (proj1 Hfit) ltac:(unfold exact_leftover; lia))
    as (Hlen & Hpos & Hsum).
  unfold cells. rewrite ComputeChildCells_exact, length_map by done. fold (exact_cells parent splits) in *.
  by rewrite clamp_sum by exact Hpos.
Qed.

Lemma ComputeChildCells_fills_witness :
  Zsum (ComputeChildCells 80 [MkSize 20 true false; MkSize 1 false false; MkSize 2 false false])
  = 78%Z.
Proof.
  destruct (ComputeChildCells_fills 80
    [MkSize 20 true false; MkSize 1 false false; MkSize 2 false false]) as (_ & _ & H).
  - repeat constructor; simpl; unfold in_int64, int64_min, int64_max; try lia; done.
  - split; [lia|]. unfold int64_max. simpl. lia.
  - done.
  - rewrite H. reflexivity.
Defined.

(** Out of that range the products wrap: nine tenths of a window this wide are negative. *)
Example ComputeChildCells_wraps :
  ComputeChildCells (2 ^ 57) [MkSize 90 false true; MkSize 1 false false] = [0%Z; (198878959544681102)%Z].
Proof. vm_compute. reflexivity. Qed.

(** ** Pane trees *)

(* src/pkg/muxctl/spec.go:72-129 PaneSpec *)
Inductive PaneSpec := MkPane {
  Dir : Direction;
  Splits : list Size;
  Panes : list PaneSpec;
  pane_Name : string;
  Cmd : list string;
  CmdOpt : gmap string string;
  Focus : bool;
  CycleKey : string;
}.

(** Induction through the children. *)
Lemma PaneSpec_ind' (P : PaneSpec -> Prop) :
  (forall d sp ps n c o f k, Forall P ps -> P (MkPane d sp ps n c o f k)) -> forall p, P p.
Proof.
  intros H. fix IH 1. intros [d sp ps n c o f k]. apply H.
  induction ps as [|p ps IHps]; constructor; [apply IH|done].
Qed.

(* src/pkg/muxctl/spec.go:139-144 PaneSpec.IsLeaf *)
Definition IsLeaf (p : PaneSpec) : bool :=
  negb (bool_decide (Cmd p = [])) && bool_decide (Dir p = "")
  && bool_decide (length (Splits p) = 0) && bool_decide (length (Panes p) = 0).

(* src/pkg/muxctl/spec.go:146-150 PaneSpec.IsContainer *)
Definition IsContainer (p : PaneSpec) : bool :=
  bool_decide (Cmd p = []) &&
  (negb (bool_decide (Dir p = "")) || bool_decide (0 < length (Panes p))
   || bool_decide (0 < length (Splits p))).

(* src/pkg/muxctl/spec.go:25-46 DriverSpec *)
Record DriverSpec := {
  driver_Name : string;
  Path : string;
  Socket : string;
  Opts : gmap string string;
}.

(* src/pkg/muxctl/spec.go:59-70 Layout *)
Record Layout := { layout_Name : string; Root : PaneSpec }.

(* src/pkg/muxctl/spec.go:12-23 MuxSpec *)
Record MuxSpec := { Driver : DriverSpec; Layouts : list Layout }.

(** The leaves in document order; below a leaf nothing is visited. *)
Fixpoint leaves (p : PaneSpec) : list PaneSpec :=
  if IsLeaf p then [p]
  else match p with MkPane _ _ ps _ _ _ _ _ => flat_map leaves ps end.

(** [PickFocus]'s walk over its two captured variables, [first] and [focused]. *)
(* src/pkg/muxctl/layout.go:80-102 PickFocus *)
Fixpoint pick_walk (p : PaneSpec) (st : string * string) : string * string :=
  let '(first, focused) := st in
  if negb (bool_decide (focused = "")) then st
  else if IsLeaf p then
    (if decide (first = "") then pane_Name p else first,
     if Focus p then pane_Name p else focused)
  else match p with
       | MkPane _ _ ps _ _ _ _ _ =>
         (fix children ps st :=
            match ps with
            | [] => st
            | c :: ps =>
              let st := pick_walk c st in
              if negb (bool_decide (st.2 = "")) then st else children ps st
            end) ps st
       end.

(* src/pkg/muxctl/layout.go:78-108 PickFocus *)
Definition PickFocus (root : PaneSpec) : string :=
  let '(first, focused) := pick_walk root ("", "") in
  if negb (bool_decide (focused = "")) then focused else first.

(* src/pkg/muxctl/layout.go:110-121 AppendLeafNames *)
Fixpoint AppendLeafNames (dst : list string) (node : PaneSpec) : list string :=
  if IsLeaf node then dst ++ [pane_Name node]
  else match node with
       | MkPane _ _ ps _ _ _ _ _ =>
         (fix go dst ps := match ps with
                           | [] => dst
                           | c :: ps => go (AppendLeafNames dst c) ps
                           end) dst ps
       end.

(** ** Validation *)

(* src/pkg/muxctl/validate.go:45-75 PaneSpec.validateShape *)
Inductive paneErr :=
| ErrLeafXorContainer
| ErrLeafNameRequired
| ErrInvalidDirection (d : Direction)
| ErrEmptyContainer
| ErrSplitsMismatch (splits panes : nat)
| InPane (i : nat) (e : paneErr)
| ErrDuplicatePaneName (n : string)
| ErrMultipleFocus.

(* src/pkg/muxctl/validate.go:45-75 PaneSpec.validateShape *)
Fixpoint validateShape (p : PaneSpec) : result paneErr unit :=
  let leaf := IsLeaf p in
  let cont := IsContainer p in
  if Bool.eqb leaf cont then Err ErrLeafXorContainer
  else if leaf then
    if bool_decide (pane_Name p = "") then Err ErrLeafNameRequired else Ok tt
  else if negb (bool_decide (Dir p = DirHorizontal)) && negb (bool_decide (Dir p = DirVertical))
  then Err (ErrInvalidDirection (Dir p))
  else if bool_decide (length (Panes p) = 0) then Err ErrEmptyContainer
  else if negb (bool_decide (length (Splits p) = length (Panes p)))
  then Err (ErrSplitsMismatch (length (Splits p)) (length (Panes p)))
  else match p with
       | MkPane _ _ ps _ _ _ _ _ =>
         (fix go i ps := match ps with
                         | [] => Ok tt
                         | c :: ps => try _ := lift_err (InPane i) (validateShape c) in go (S i) ps
                         end) 0 ps
       end.

(* src/pkg/muxctl/validate.go:77-89 walkLeaves *)
Fixpoint walkLeaves {S E} (p : PaneSpec) (f : S -> PaneSpec -> result E S) (s : S)
  : result E S :=
  if IsLeaf p then f s p
  else match p with
       | MkPane _ _ ps _ _ _ _ _ =>
         (fix go ps s := match ps with
                         | [] => Ok s
                         | c :: ps => try s := walkLeaves c f s in go ps s
                         end) ps s
       end.

(** The visitor of [Validate]: leaf names seen so far and the focus count. *)
(* src/pkg/muxctl/validate.go:23-37 MuxSpec.Validate *)
Definition leaf_check (s : gset string * nat) (p : PaneSpec) : result paneErr (gset string * nat) :=
  let '(names, focus) := s in
  if bool_decide (pane_Name p ∈ names) then Err (ErrDuplicatePaneName (pane_Name p))
  else if Focus p && bool_decide (0 < focus) then Err ErrMultipleFocus
  else Ok ({[pane_Name p]} ∪ names, if Focus p then S focus else focus).

(* src/pkg/muxctl/validate.go:7-43 MuxSpec.Validate *)
Inductive layoutErr :=
| ErrLayoutNameRequired (i : nat)
| ErrDuplicateLayoutName (i : nat) (n : string)
| InLayout (i : nat) (n : string) (e : paneErr).

(* src/pkg/muxctl/validate.go:8-42 MuxSpec.Validate *)
Fixpoint validate_layouts (i : nat) (seen : gset string) (ls : list Layout) : result layoutErr unit :=
  match ls with
  | [] => Ok tt
  | l :: ls =>
    if bool_decide (layout_Name l = "") then Err (ErrLayoutNameRequired i)
    else if bool_decide (layout_Name l ∈ seen) then Err (ErrDuplicateLayoutName i (layout_Name l))
    else try _ := lift_err (InLayout i (layout_Name l)) (validateShape (Root l)) in
         try _ := lift_err (InLayout i (layout_Name l)) (walkLeaves (Root l) leaf_check (∅, 0)) in
         validate_layouts (S i) ({[layout_Name l]} ∪ seen) ls
  end.

(* src/pkg/muxctl/validate.go:5-43 MuxSpec.Validate *)
Definition MuxSpec_Validate (s : MuxSpec) : result layoutErr unit :=
  validate_layouts 0 ∅ (Layouts s).

(** The tree walks as folds over the leaves. *)
Definition pick_step (st : string * string) (p : PaneSpec) : string * string :=
  if negb (bool_decide (st.2 = "")) then st
  else (if decide (st.1 = "") then pane_Name p else st.1, if Focus p then pane_Name p else st.2).

Lemma pick_step_focused st ps : st.2 <> "" -> foldl pick_step st ps = st.
Proof.
  intros H. induction ps as [|p ps IH]; simpl; [done|].
  unfold pick_step at 2. by rewrite bool_decide_false.
Qed.

Lemma pick_walk_leaves p st : pick_walk p st = foldl pick_step st (leaves p).
Proof.
  revert st. induction p as [d sp ps n c o f k IH] using PaneSpec_ind'. intros [first focused].
  cbn [pick_walk leaves]. destruct (IsLeaf _); [done|].
  destruct (decide (focused = "")) as [->|Hf].
  2:{ rewrite bool_decide_false by done. simpl. by rewrite pick_step_focused. }
  simpl. generalize (first, ""). clear first. intros st.
  revert st. induction IH as [|q qs Hq _ IHqs]; intros st; simpl; [done|].
  rewrite foldl_app, Hq. case_bool_decide as Hb; simpl; [apply IHqs|].
  symmetry. by apply pick_step_focused.
Qed.

Lemma AppendLeafNames_leaves dst p :
  AppendLeafNames dst p = dst ++ map pane_Name (leaves p).
Proof.
  revert dst. induction p as [d sp ps n c o f k IH] using PaneSpec_ind'. intros dst.
  cbn [AppendLeafNames leaves]. destruct (IsLeaf _); [done|].
  revert dst. induction IH as [|q qs Hq _ IHqs]; intros dst; simpl; [by rewrite app_nil_r|].
  by rewrite IHqs, Hq, map_app, app_assoc.
Qed.

Lemma walkLeaves_leaves {S E} p (f : S -> PaneSpec -> result E S) s :
  walkLeaves p f s = result_foldl f s (leaves p).
Proof.
  revert s. induction p as [d sp ps n c o fc k IH] using PaneSpec_ind'. intros s.
  cbn [walkLeaves leaves]. destruct (IsLeaf _); [simpl; by destruct (f s _)|].
  revert s. induction IH as [|q qs Hq _ IHqs]; intros s; simpl; [done|].
  rewrite result_foldl_app, Hq. destruct (result_foldl f s (leaves q)); simpl; auto.
Qed.

(** A tree of the shape the layout drivers can realise. *)
Inductive shape_ok : PaneSpec -> Prop :=
| shape_leaf p : IsLeaf p = true -> pane_Name p <> "" -> shape_ok p
| shape_container d sp ps n o f k :
    d = DirHorizontal \/ d = DirVertical -> ps <> [] -> length sp = length ps ->
    Forall shape_ok ps -> shape_ok (MkPane d sp ps n [] o f k).

Definition layout_ok (l : Layout) : Prop :=
  layout_Name l <> "" /\ shape_ok (Root l) /\
  NoDup (map pane_Name (leaves (Root l))) /\
  length (filter (fun p => Focus p = true) (leaves (Root l))) <= 1.

Lemma IsLeaf_true p :
  IsLeaf p = true <-> Cmd p <> [] /\ Dir p = "" /\ Splits p = [] /\ Panes p = [].
Proof.
  unfold IsLeaf. autorewrite with reflect_guards. rewrite !length_zero_iff_nil. tauto.
Qed.

Lemma validateShape_ok p : validateShape p = Ok tt <-> shape_ok p.
Proof.
  rewrite ok_tt_iff.
  induction p as [d sp ps n c o f k IH] using PaneSpec_ind'. cbn [validateShape].
  destruct (IsLeaf _) eqn:El.
  - apply IsLeaf_true in El as (Hc & Hd & Hs & Hp). simpl in *. subst.
    unfold IsContainer. simpl. rewrite (bool_decide_false (c = [])) by done. simpl.
    autorewrite with guards reflect_guards. split.
    + intros Hn. constructor; [|done]. by apply IsLeaf_true.
    + inversion 1; subst; done.
  - assert (shape_ok (MkPane d sp ps n c o f k) <->
      IsContainer (MkPane d sp ps n c o f k) = true /\ (d = DirHorizontal \/ d = DirVertical) /\
      ps <> [] /\ length sp = length ps /\ Forall shape_ok ps) as ->.
    { split.
      - inversion 1; subst; [congruence|]. split_and!; try done. unfold IsContainer. simpl.
        rewrite (bool_decide_false (d = "")); [done|]. by intros ->; naive_solver.
      - intros (Hc & Hd & Hp & Hl & Hf). unfold IsContainer in Hc. split_hyps. simpl in *. subst.
        by constructor. }
    destruct (IsContainer _); simpl; [|split; [done|by intros [? _]]].
    autorewrite with guards reflect_guards. rewrite length_zero_iff_nil.
    assert (forall i, is_ok ((fix go i ps := match ps with
        | [] => Ok tt
        | c :: ps => try _ := lift_err (InPane i) (validateShape c) in go (S i) ps
        end) i ps) = true <-> Forall shape_ok ps) as ->.
    { clear El. induction IH as [|q qs Hq _ IHqs]; intros i; [done|].
      rewrite Forall_cons, <- Hq, <- (IHqs (S i)). autorewrite with guards reflect_guards. done. }
    simpl. assert (d = DirHorizontal \/ d = DirVertical <-> ~ (d <> DirHorizontal /\ d <> DirVertical))
      as -> by (destruct (decide (d = DirHorizontal)), (decide (d = DirVertical)); tauto).
    destruct (decide (d = DirHorizontal)), (decide (d = DirVertical)); tauto.
Qed.

Definition count_focus (l : list PaneSpec) : nat := length (filter (fun p => Focus p = true) l).

Lemma count_focus_cons p l : count_focus (p :: l) = (if Focus p then 1 else 0) + count_focus l.
Proof.
  unfold count_focus. rewrite filter_cons.
  case_decide as H; [by rewrite H|]. by destruct (Focus p).
Qed.

Lemma fresh_cons {A} (f : A -> string) (x : A) (l : list A) (seen : gset string) :
  f x ∉ seen ->
  (NoDup (map f l) /\ (forall y, y ∈ l -> f y ∉ {[f x]} ∪ seen)) <->
  (f x ∉ map f l /\ NoDup (map f l)) /\ (f x ∉ seen /\ forall y, y ∈ l -> f y ∉ seen).
Proof.
  intros Hx. setoid_rewrite not_elem_of_union. setoid_rewrite not_elem_of_singleton.
  rewrite list_elem_of_fmap. split.
  - intros [Hn H]. split_and!; try done; [|by intros y [_ ?]%H].
    intros (y & E & Hy). destruct (H y Hy) as [Hne _]. by apply Hne.
  - intros [[Hl Hn] [_ H]]. split; [done|]. intros y Hy. split; [|by apply H].
    intros E. apply Hl. eauto.
Qed.

Lemma leaf_check_fold ls names focus :
  focus <= 1 ->
  (is_ok (result_foldl leaf_check (names, focus) ls) = true <->
   NoDup (map pane_Name ls) /\ Forall (fun p => pane_Name p ∉ names) ls /\
   focus + count_focus ls <= 1).
Proof.
  revert names focus. induction ls as [|p ls IH]; intros names focus Hf; cbn [result_foldl].
  { unfold count_focus. simpl. split; [|done].
    intros _. split_and!; [constructor|constructor|simpl; lia]. }
  rewrite count_focus_cons. cbn [map]. rewrite NoDup_cons, Forall_cons.
  unfold leaf_check at 1. case_bool_decide as Hin; [simpl; split; [done|tauto]|].
  destruct (Focus p && bool_decide (0 < focus)) eqn:Ef; simpl.
  { split_hyps. rewrite H. split; [done|lia]. }
  apply andb_false_iff in Ef. rewrite bool_decide_eq_false in Ef.
  rewrite IH by (destruct (Focus p); [destruct Ef; [done|lia]|lia]).
  rewrite !Forall_forall. pose proof (fresh_cons pane_Name p ls names Hin).
  destruct (Focus p); intuition lia.
Qed.

Lemma validate_layouts_ok i seen ls :
  is_ok (validate_layouts i seen ls) = true <->
  Forall layout_ok ls /\ NoDup (map layout_Name ls) /\ Forall (fun l => layout_Name l ∉ seen) ls.
Proof.
  revert i seen. induction ls as [|l ls IH]; intros i seen; cbn [validate_layouts].
  { split; [|done]. intros _. split_and!; constructor. }
  autorewrite with guards reflect_guards. rewrite <- ok_tt_iff, validateShape_ok, walkLeaves_leaves.
  rewrite leaf_check_fold, IH by lia. cbn [map]. rewrite !Forall_cons, NoDup_cons.
  unfold layout_ok, count_focus. rewrite !Forall_forall.
  destruct (decide (layout_Name l ∈ seen)) as [Hin|Hin]; [tauto|].
  pose proof (fresh_cons layout_Name l ls seen Hin).
  assert (Forall (fun q => pane_Name q ∉ (∅ : gset string)) (leaves (Root l))) as He.
  { apply Forall_forall. intros x _. apply not_elem_of_empty. }
  rewrite Forall_forall in He. tauto.
Qed.

(** [MuxSpec.Validate] accepts exactly the layout sets a driver can realise: layout
    names set and distinct, every tree made of named leaves and non-empty containers
    with a known direction and one size per child, leaf names distinct within a layout
    and at most one of them focused. *)
Theorem MuxSpec_Validate_exact s :
  MuxSpec_Validate s = Ok tt <->
  Forall layout_ok (Layouts s) /\ NoDup (map layout_Name (Layouts s)).
Proof.
  unfold MuxSpec_Validate. rewrite ok_tt_iff, validate_layouts_ok. split; [tauto|].
  intros [H1 H2]. split_and!; try done. apply Forall_forall. set_solver.
Qed.

Lemma pick_fold_nofocus ps first :
  count_focus ps = 0 ->
  (foldl pick_step (first, "") ps).2 = "" /\
  (first <> "" -> (foldl pick_step (first, "") ps).1 = first).
Proof.
  revert first. induction ps as [|p ps IH]; intros first; simpl; [done|].
  rewrite count_focus_cons. intros H. unfold pick_step at 2 4. simpl.
  destruct (Focus p); [lia|]. split; [by apply IH|]. intros Hf.
  rewrite decide_False by done. by apply IH.
Qed.

Lemma pick_fold_focus ps first :
  Forall (fun q => pane_Name q <> "") ps -> count_focus ps <= 1 -> count_focus ps <> 0 ->
  exists p, p ∈ ps /\ Focus p = true /\ (foldl pick_step (first, "") ps).2 = pane_Name p.
Proof.
  revert first. induction ps as [|p ps IH]; intros first Hn Hf H0; [done|].
  rewrite count_focus_cons in Hf, H0. inversion Hn as [|? ? Hp Hps]; subst.
  simpl. unfold pick_step at 2. simpl. destruct (Focus p) eqn:E.
  - exists p. rewrite pick_step_focused by done. split_and!; [set_solver|done|done].
  - destruct (IH (if decide (first = "") then pane_Name p else first))
      as (q & Hq & Efq & Eq); [done|lia|lia|].
    exists q. split_and!; [set_solver|done|done].
Qed.

Lemma shape_ok_leaves p : shape_ok p ->
  leaves p <> [] /\ Forall (fun q => pane_Name q <> "") (leaves p).
Proof.
  induction p as [d sp ps n c o f k IH] using PaneSpec_ind'. cbn [leaves].
  inversion 1 as [? Hl Hn|? ? ? ? ? ? ? Hd Hne Hlen Hf]; subst.
  - rewrite Hl. split; [done|]. by repeat constructor.
  - change (IsLeaf (MkPane d sp ps n [] o f k)) with false. split.
    + destruct ps as [|q qs]; [done|]. inversion IH as [|? ? Hq _]; subst.
      inversion Hf as [|? ? Sq _]; subst. simpl. destruct (Hq Sq) as [Hq' _]. by destruct (leaves q).
    + clear -IH Hf. induction IH as [|q qs Hq _ IHqs]; simpl; [constructor|].
      inversion Hf; subst. apply Forall_app. split; [by apply Hq|by apply IHqs].
Qed.

(** for every layout that passes validation, [PickFocus] names an existing leaf:
    the focused one when the layout has one, the first in document order otherwise. *)
Theorem PickFocus_spec l :
  layout_ok l ->
  exists p, p ∈ leaves (Root l) /\ PickFocus (Root l) = pane_Name p /\
    (Focus p = true \/
     count_focus (leaves (Root l)) = 0 /\ head (leaves (Root l)) = Some p).
Proof.
  intros (_ & Hs & _ & Hf). apply shape_ok_leaves in Hs as [Hne Hn].
  unfold PickFocus. rewrite pick_walk_leaves. fold (count_focus (leaves (Root l))) in Hf.
  destruct (decide (count_focus (leaves (Root l)) = 0)) as [H0|H0].
  - destruct (leaves (Root l)) as [|p ps]; [done|]. exists p.
    rewrite count_focus_cons in H0. inversion Hn as [|? ? Hp _]; subst.
    simpl. unfold pick_step at 2. simpl. destruct (Focus p) eqn:E; [lia|].
    destruct (pick_fold_nofocus ps (pane_Name p)) as [Hb Ha]; [lia|].
    destruct (foldl pick_step (pane_Name p, "") ps) as [a b]. simpl in *. subst b. simpl.
    split_and!; [set_solver|auto|]. right. split; [|done]. rewrite count_focus_cons, E. lia.
  - destruct (pick_fold_focus (leaves (Root l)) "" Hn Hf H0) as (p & Hp & Hfp & Hsnd).
    destruct (foldl pick_step ("", "") (leaves (Root l))) as [x y]. simpl in Hsnd. subst y.
    exists p. split_and!; [done| |by left].
    rewrite bool_decide_false; [done|]. rewrite Forall_forall in Hn. by apply Hn.
Qed.

Definition witness_leaf (n : string) (f : bool) : PaneSpec := MkPane "" [] [] n ["cmdman"] ∅ f "".
Definition witness_layout : Layout :=
  {| layout_Name := "main";
     Root := MkPane "h" [MkSize 1 false false; MkSize 30 true false]
               [witness_leaf "api" false; witness_leaf "db" true] "" [] ∅ false "" |}.

Lemma PickFocus_spec_witness :
  exists p, p ∈ leaves (Root witness_layout) /\ PickFocus (Root witness_layout) = pane_Name p /\
    (Focus p = true \/
     count_focus (leaves (Root witness_layout)) = 0 /\
     head (leaves (Root witness_layout)) = Some p).
Proof.
  apply PickFocus_spec.
  assert (MuxSpec_Validate {| Driver := {| driver_Name := ""; Path := ""; Socket := ""; Opts := ∅ |};
    Layouts := [witness_layout] |} = Ok tt) as H by (vm_compute; reflexivity).
  unfold MuxSpec_Validate in H. apply ok_tt_iff, validate_layouts_ok in H as (H & _).
  by inversion H.
Defined.
