(* ===== verification/Mux.v ===== *)
(** * Dashboards over compose commands

    [cmdman/mux]: the user-facing layout spec ([spec.go]), its translation into
    concrete panes ([build.go]), the choice of the replica a pane shows
    ([cycle_scale.go], [targets.go]) and the codec of the positions stored in the
    multiplexer window ([scale_codec.go]).  The resolver, the replica counter and
    the multiplexer server are parameters: they are callbacks in the code. *)

From S2P Require Import Prelude GoStr MuxCtl.

(** ** The layout spec *)

Definition Mode := string.
Definition ModeAttach : Mode := "attach".
Definition ModeLogs : Mode := "logs".

(* src/cmdman/mux/spec.go:42-62 PaneSpec *)
Inductive MuxPane := MkMuxPane {
  mp_Dir : Direction;
  mp_Splits : list Size;
  mp_Panes : list MuxPane;
  mp_Command : string;
  mp_Scale : Z;
  mp_Mode : Mode;
  mp_CmdOpt : gmap string string;
  mp_Focus : bool;
}.

(* src/cmdman/mux/spec.go:97-100 PaneSpec.IsLeaf *)
Definition mp_IsLeaf (p : MuxPane) : bool :=
  negb (bool_decide (mp_Command p = "")) && bool_decide (mp_Dir p = "")
  && bool_decide (length (mp_Splits p) = 0) && bool_decide (length (mp_Panes p) = 0).

(* src/cmdman/mux/spec.go:102-106 PaneSpec.IsContainer *)
Definition mp_IsContainer (p : MuxPane) : bool :=
  bool_decide (mp_Command p = "") &&
  (negb (bool_decide (mp_Dir p = "")) || bool_decide (0 < length (mp_Panes p))
   || bool_decide (0 < length (mp_Splits p))).

(* src/cmdman/mux/spec.go:29-35 Layout *)
Record MuxLayout := { ml_Name : string; ml_Root : MuxPane }.

(* src/cmdman/mux/spec.go:13-27 Spec *)
Record Spec := { spec_Driver : DriverSpec; spec_Layouts : list MuxLayout }.

Lemma MuxPane_ind' (P : MuxPane -> Prop) :
  (forall d sp ps c s m o f, Forall P ps -> P (MkMuxPane d sp ps c s m o f)) -> forall p, P p.
Proof.
  intros H. fix IH 1. intros [d sp ps c s m o f]. apply H.
  induction ps as [|p ps IHps]; constructor; [apply IH|done].
Qed.

(** The leaves in document order. *)
Fixpoint mp_leaves (p : MuxPane) : list MuxPane :=
  if mp_IsLeaf p then [p]
  else match p with MkMuxPane _ _ ps _ _ _ _ _ => flat_map mp_leaves ps end.

(* src/cmdman/mux/targets.go:26-36 collectUnpinnedLeafCommands *)
Fixpoint collectUnpinnedLeafCommands (p : MuxPane) (seen : gset string) : gset string :=
  if mp_IsLeaf p then
    if decide (mp_Scale p = 0%Z) then {[mp_Command p]} ∪ seen else seen
  else match p with
       | MkMuxPane _ _ ps _ _ _ _ _ =>
         (fix go ps seen := match ps with
                            | [] => seen
                            | c :: ps => go ps (collectUnpinnedLeafCommands c seen)
                            end) ps seen
       end.

(* src/cmdman/mux/targets.go:8-22 CollectCycleTargets *)
Definition CollectCycleTargets (spec : Spec) : list string :=
  sort_strings (elements
    (foldl (fun seen l => collectUnpinnedLeafCommands (ml_Root l) seen) ∅ (spec_Layouts spec))).

(** ** Building concrete panes *)

(* src/cmdman/mux/build.go:31-41 PaneArgvOpts *)
Record PaneArgvOpts := { Executable : string; DataDir : string; RuntimeDir : string }.

(* src/cmdman/mux/build.go:204-227 paneArgv *)
Definition paneArgv (opts : PaneArgvOpts) (mode : Mode) (id : string) : list string :=
  [Executable opts]
  ++ (if decide (DataDir opts = "") then [] else ["--data-dir"; DataDir opts])
  ++ (if decide (RuntimeDir opts = "") then [] else ["--runtime-dir"; RuntimeDir opts])
  ++ (if decide (mode = ModeLogs) then ["logs"; "--sticky"; id] else ["attach"; id]).

(** The replica a stored position selects: wrapped into [1, n]. *)
(* src/cmdman/mux/build.go:151-151 buildPane *)
Definition wrap_position (pos n : Z) : Z := (Z.rem (pos - 1) n + 1)%Z.

Section Build.
Context {E : Type}
  (resolver : string -> Z -> result E string)
  (replicas : option (string -> result E Z))
  (opts : PaneArgvOpts)
  (scalePositions : gmap string Z).

(* src/cmdman/mux/build.go:65-202 Build *)
Inductive buildErr :=
| CountReplicas (c : string) (e : E)
| ResolveLeaf (c : string) (e : E)
| DuplicateCommand (c : string) (replica : Z)
| BuildInPane (i : nat) (e : buildErr)
| NeitherLeafNorContainer
| ExecutableRequired
| InBuildLayout (i : nat) (n : string) (e : buildErr)
| BuildInvalid (e : layoutErr).

(** The replica a leaf shows, its pane name and its cycle key. *)
(* src/cmdman/mux/build.go:126-158 buildPane *)
Definition leaf_target (p : MuxPane) : result buildErr (Z * string * string) :=
  if decide (0 < mp_Scale p)%Z then
    Ok (mp_Scale p, mp_Command p +:+ "-" +:+ Itoa (mp_Scale p), "")
  else match replicas with
       | Some count =>
         try n := lift_err (CountReplicas (mp_Command p)) (count (mp_Command p)) in
         let n := Z.max n 1 in
         let storedPos := default 1%Z (scalePositions !! mp_Command p) in
         let idx := wrap_position storedPos n in
         Ok (idx, mp_Command p +:+ "-" +:+ Itoa idx, mp_Command p)
       | None => Ok (0%Z, mp_Command p, "")
       end.

(* src/cmdman/mux/build.go:125-178 buildPane *)
Definition build_leaf (p : MuxPane) (seen : gset string) : result buildErr (PaneSpec * gset string) :=
  try (idx, name, cycleKey) := leaf_target p in
  try id := lift_err (ResolveLeaf (mp_Command p)) (resolver (mp_Command p) idx) in
  if bool_decide (id ∈ seen) then Err (DuplicateCommand (mp_Command p) idx)
  else Ok (MkPane "" [] [] name (paneArgv opts (mp_Mode p) id) (mp_CmdOpt p) (mp_Focus p) cycleKey,
           {[id]} ∪ seen).

(* src/cmdman/mux/build.go:115-202 buildPane *)
Fixpoint buildPane (p : MuxPane) (seen : gset string) : result buildErr (PaneSpec * gset string) :=
  if mp_IsLeaf p then build_leaf p seen
  else if mp_IsContainer p then
    match p with
    | MkMuxPane d sp ps _ _ _ _ _ =>
      try (children, seen) :=
        (fix go i ps seen :=
           match ps with
           | [] => Ok ([], seen)
           | c :: ps =>
             try (b, seen) := lift_err (BuildInPane i) (buildPane c seen) in
             try (bs, seen) := go (S i) ps seen in
             Ok (b :: bs, seen)
           end) 0 ps seen in
      Ok (MkPane d sp children "" [] ∅ false "", seen)
    end
  else Err NeitherLeafNorContainer.

(* src/cmdman/mux/build.go:97-113 buildLayout *)
Definition buildLayout (l : MuxLayout) : result buildErr Layout :=
  try (root, _) := buildPane (ml_Root l) ∅ in
  Ok {| layout_Name := ml_Name l; Root := root |}.

(* src/cmdman/mux/build.go:77-90 Build *)
Fixpoint build_layouts (i : nat) (ls : list MuxLayout) : result buildErr (list Layout) :=
  match ls with
  | [] => Ok []
  | l :: ls =>
    try b := lift_err (InBuildLayout i (ml_Name l)) (buildLayout l) in
    try bs := build_layouts (S i) ls in
    Ok (b :: bs)
  end.

(* src/cmdman/mux/build.go:55-95 Build *)
Definition Build (spec : Spec) : result buildErr MuxSpec :=
  if bool_decide (Executable opts = "") then Err ExecutableRequired
  else
    try ls := build_layouts 0 (spec_Layouts spec) in
    let out := {| Driver := spec_Driver spec; Layouts := ls |} in
    try _ := lift_err BuildInvalid (MuxSpec_Validate out) in
    Ok out.
End Build.

(** ** Cycling through replicas *)

(* src/cmdman/mux/cycle_scale.go:355-370 findUnpinnedLeafInPane *)
Fixpoint findUnpinnedLeafInPane (p : MuxPane) (command : string) : option MuxPane :=
  if mp_IsLeaf p then
    if decide (mp_Command p = command /\ mp_Scale p = 0%Z) then Some p else None
  else match p with
       | MkMuxPane _ _ ps _ _ _ _ _ =>
         (fix go ps := match ps with
                       | [] => None
                       | c :: ps => match findUnpinnedLeafInPane c command with
                                    | Some q => Some q
                                    | None => go ps
                                    end
                       end) ps
       end.

(* src/cmdman/mux/cycle_scale.go:349-353 findUnpinnedLeaf *)
Definition findUnpinnedLeaf (layout : MuxLayout) (command : string) : option MuxPane :=
  findUnpinnedLeafInPane (ml_Root layout) command.

(* src/cmdman/mux/cycle_scale.go:335-347 isCycleScaleTarget *)
Definition isCycleScaleTarget (spec : Spec) (command : string) (hasReplicas : bool) : bool :=
  hasReplicas && existsb (fun l => bool_decide (is_Some (findUnpinnedLeaf l command))) (spec_Layouts spec).

(* src/cmdman/mux/cycle_scale.go:380-391 collectPinnedIndices *)
Fixpoint collectPinnedIndices (p : MuxPane) (command : string) (m : gset Z) : gset Z :=
  if mp_IsLeaf p then
    if decide (mp_Command p = command /\ (0 < mp_Scale p)%Z) then {[mp_Scale p]} ∪ m else m
  else match p with
       | MkMuxPane _ _ ps _ _ _ _ _ =>
         (fix go ps m := match ps with
                         | [] => m
                         | c :: ps => go ps (collectPinnedIndices c command m)
                         end) ps m
       end.

(* src/cmdman/mux/cycle_scale.go:372-378 pinnedScaleIndices *)
Definition pinnedScaleIndices (layout : MuxLayout) (command : string) : gset Z :=
  collectPinnedIndices (ml_Root layout) command ∅.

(* src/cmdman/mux/cycle_scale.go:405-434 computeTargetPosition *)
Inductive positionErr := PositionOutOfRange (p n : Z) | PositionPinned (p : Z) | AllPinned.

(** The search of the advance path, [i] rounds from [start]. *)
(* src/cmdman/mux/cycle_scale.go:426-432 computeTargetPosition *)
Fixpoint first_unpinned (fuel : nat) (i start n : Z) (pinned : gset Z) : option Z :=
  match fuel with
  | O => None
  | S fuel =>
    let candidate := (Z.rem (start - 1 + i) n + 1)%Z in
    if decide (candidate ∈ pinned) then first_unpinned fuel (i + 1) start n pinned
    else Some candidate
  end.

(* src/cmdman/mux/cycle_scale.go:393-434 computeTargetPosition *)
Definition computeTargetPosition (curPos explicitPos n : Z) (pinned : gset Z)
  : result positionErr Z :=
  if bool_decide (explicitPos <> 0%Z) then
    if bool_decide (explicitPos < 1 \/ n < explicitPos)%Z then Err (PositionOutOfRange explicitPos n)
    else if bool_decide (explicitPos ∈ pinned) then Err (PositionPinned explicitPos)
    else Ok explicitPos
  else
    let start := (Z.rem curPos n + 1)%Z in
    match first_unpinned (Z.to_nat n) 0 start n pinned with
    | Some p => Ok p
    | None => Err AllPinned
    end.

(** ** The stored positions *)

(* src/cmdman/mux/scale_codec.go:26-36 decodeScalePositions *)
Definition decode_pair (m : gmap string Z) (pair : string) : gmap string Z :=
  let '(name, posStr, ok) := cut "=" pair in
  if negb ok || bool_decide (name = "") || bool_decide (posStr = "") then m
  else match Atoi posStr with
       | Some pos => if decide (pos <= 0)%Z then m else <[name := pos]> m
       | None => m
       end.

(** A nil map and an empty one behave alike wherever the result is used. *)
(* src/cmdman/mux/scale_codec.go:15-41 decodeScalePositions *)
Definition decodeScalePositions (raw : string) : gmap string Z :=
  let raw := trimSpace raw in
  if decide (raw = "") then ∅ else foldl decode_pair ∅ (fields raw).

(* src/cmdman/mux/scale_codec.go:66-68 encodeScalePositions *)
Definition encode_pair (kv : string * Z) : string := kv.1 +:+ String "=" (Itoa kv.2).

(* src/cmdman/mux/scale_codec.go:43-72 encodeScalePositions *)
Definition encodeScalePositions (m : gmap string Z) : string :=
  join " " (map encode_pair (filter (fun kv => (0 < kv.2)%Z) (sorted_items m))).

(** *** The advance is a search from the next position on *)

Lemma first_unpinned_spec fuel i start n pinned :
  match first_unpinned fuel i start n pinned with
  | Some c => exists j, (0 <= j < Z.of_nat fuel)%Z /\ c = (Z.rem (start - 1 + (i + j)) n + 1)%Z /\
      c ∉ pinned /\
      forall k, (0 <= k < j)%Z -> (Z.rem (start - 1 + (i + k)) n + 1)%Z ∈ pinned
  | None => forall k, (0 <= k < Z.of_nat fuel)%Z -> (Z.rem (start - 1 + (i + k)) n + 1)%Z ∈ pinned
  end.
Proof.
  revert i; induction fuel as [|fuel IH]; intros i; cbn [first_unpinned]; [lia|].
  case_decide as Hc.
  - specialize (IH (i + 1)%Z). destruct (first_unpinned fuel (i + 1) start n pinned) as [c|].
    + destruct IH as (j & Hj & -> & Hn & Hk). exists (j + 1)%Z.
      replace (i + 1 + j)%Z with (i + (j + 1))%Z in * by lia. split_and!; [lia|lia|done|done|].
      intros k Hk'. destruct (decide (k = 0)%Z) as [->|]; [by rewrite Z.add_0_r|].
      replace (i + k)%Z with (i + 1 + (k - 1))%Z by lia. apply Hk. lia.
    + intros k Hk'. destruct (decide (k = 0)%Z) as [->|]; [by rewrite Z.add_0_r|].
      replace (i + k)%Z with (i + 1 + (k - 1))%Z by lia. apply IH. lia.
  - exists 0%Z. rewrite Z.add_0_r. split_and!; try done; lia.
Qed.

Lemma rem_position_range a n : (0 < n)%Z -> (0 <= a)%Z -> (1 <= Z.rem a n + 1 <= n)%Z.
Proof. intros. pose proof (Z.rem_bound_pos a n). lia. Qed.

(** Every position of [1, n] is one of the candidates of a full round. *)
Lemma rem_round c start n :
  (1 <= c <= n)%Z -> (1 <= start <= n)%Z ->
  exists k, (0 <= k < n)%Z /\ c = (Z.rem (start - 1 + k) n + 1)%Z.
Proof.
  intros Hc Hs. destruct (decide (start <= c)%Z).
  - exists (c - start)%Z. split; [lia|]. replace (start - 1 + (c - start))%Z with (c - 1)%Z by lia.
    rewrite Z.rem_small by lia. lia.
  - exists (c - start + n)%Z. split; [lia|].
    replace (start - 1 + (c - start + n))%Z with (c - 1 + 1 * n)%Z by lia.
    rewrite Z.rem_add by (try nia; lia). rewrite Z.rem_small by lia. lia.
Qed.

(** cycling a dashboard pane: an explicit position is taken exactly when it is a
    live replica no other leaf pins; advancing goes to the nearest unpinned replica
    after the current one, wrapping around, and fails exactly when every replica is
    pinned. *)
Theorem computeTargetPosition_spec curPos explicitPos n pinned
    (Hn : (1 <= n)%Z) (Hcur : (1 <= curPos <= n)%Z) :
  match computeTargetPosition curPos explicitPos n pinned with
  | Ok p => (1 <= p <= n)%Z /\ p ∉ pinned /\
      (explicitPos <> 0%Z -> p = explicitPos) /\
      (explicitPos = 0%Z -> exists j, (0 <= j < n)%Z /\ p = wrap_position (curPos + 1 + j) n /\
         forall k, (0 <= k < j)%Z -> wrap_position (curPos + 1 + k) n ∈ pinned)
  | Err (PositionOutOfRange p m) => p = explicitPos /\ m = n /\ ~ (1 <= explicitPos <= n)%Z
  | Err (PositionPinned p) => p = explicitPos /\ explicitPos ∈ pinned
  | Err AllPinned => explicitPos = 0%Z /\ forall p, (1 <= p <= n)%Z -> p ∈ pinned
  end.
Proof.
  unfold computeTargetPosition. case_bool_decide as He.
  - case_bool_decide; [split_and!; (done || lia)|].
    case_bool_decide; [done|]. split_and!; (done || lia).
  - assert (explicitPos = 0%Z) as -> by lia. clear He.
    pose proof (rem_position_range curPos n ltac:(lia) ltac:(lia)) as Hs.
    pose proof (first_unpinned_spec (Z.to_nat n) 0 (Z.rem curPos n + 1) n pinned) as H.
    assert (Hw : forall k, (0 <= k)%Z ->
      (Z.rem (Z.rem curPos n + 1 - 1 + (0 + k)) n + 1)%Z = wrap_position (curPos + 1 + k) n).
    { intros k Hk. unfold wrap_position.
      replace (curPos + 1 + k - 1)%Z with (curPos + k)%Z by lia.
      rewrite !Z.rem_mod_nonneg by (try apply Z.add_nonneg_nonneg; try lia).
      rewrite <- (Z.add_mod_idemp_l curPos k n) by lia. f_equal. f_equal. lia. }
    destruct (first_unpinned _ _ _ _ _) as [c|].
    + destruct H as (j & Hj & Ec & Hnp & Hk). rewrite Hw in Ec by lia. split_and!; try done.
      * subst c. unfold wrap_position. apply rem_position_range; lia.
      * subst c. unfold wrap_position. apply rem_position_range; lia.
      * intros _. exists j. split_and!; [lia|lia|done|]. intros k Hk'. rewrite <- Hw by lia.
        by apply Hk.
    + split; [done|]. intros p Hp. destruct (rem_round p _ n Hp Hs) as (k & Hk & ->).
      apply (H k). lia.
Qed.

Lemma computeTargetPosition_spec_witness :
  match computeTargetPosition 3 0 3 {[1%Z]} with
  | Ok p => (1 <= p <= 3)%Z /\ p ∉ ({[1%Z]} : gset Z) /\ (0 <> 0 -> p = 0)%Z /\
      (0 = 0 -> exists j, (0 <= j < 3) /\ p = wrap_position (3 + 1 + j) 3 /\
         forall k, 0 <= k < j -> wrap_position (3 + 1 + k) 3 ∈ ({[1%Z]} : gset Z))%Z
  | Err (PositionOutOfRange p m) => p = 0%Z /\ m = 3%Z /\ ~ (1 <= 0 <= 3)%Z
  | Err (PositionPinned p) => p = 0%Z /\ 0%Z ∈ ({[1%Z]} : gset Z)
  | Err AllPinned => 0%Z = 0%Z /\ forall p, (1 <= p <= 3)%Z -> p ∈ ({[1%Z]} : gset Z)
  end.
Proof. apply (computeTargetPosition_spec 3 0 3 {[1%Z]}); lia. Defined.
