(* ===== verification/ComposeSpec.v ===== *)
(** * The compose data model

    [cmdman/compose/spec.go], [lifecycle.go] (its types), [canonical.go] (its
    types) and the stored entries of [cmdman/store/list.go]: the records every
    compose component shares.  A Go map is a [gmap]; a nil slice that differs
    from an empty one in the code is an [option]. *)

From S2P Require Import Prelude GoStr LogDriver Model MuxCtl Mux.

(** ** Dependency conditions *)

(* src/cmdman/compose/spec.go:64-71 AfterCondition *)
Definition AfterCondition := string.
(* src/cmdman/compose/spec.go:67-71 ConditionCompleted *)
Definition ConditionCompleted : AfterCondition := "completed".
(* src/cmdman/compose/spec.go:67-71 ConditionRunning *)
Definition ConditionRunning : AfterCondition := "running".
(* src/cmdman/compose/spec.go:67-71 ConditionCompletedSuccessfully *)
Definition ConditionCompletedSuccessfully : AfterCondition := "completed_successfully".

(* src/cmdman/compose/spec.go:73-83 AfterCondition.Validate *)
Definition AfterCondition_Validate (c : AfterCondition) : bool :=
  bool_decide (c = ConditionCompleted) || bool_decide (c = ConditionRunning)
  || bool_decide (c = ConditionCompletedSuccessfully).

(* src/cmdman/compose/spec.go:259-265 AfterSpec *)
Record AfterSpec := MkAfter { after_Name : string; Condition : AfterCondition }.

#[export] Instance AfterSpec_eq_dec : EqDecision AfterSpec.
Proof. solve_decision. Defined.

(* src/cmdman/compose/spec.go:73-83 AfterCondition.Validate *)
Inductive afterErr := AfterNameEmpty | AfterBadCondition (n : string) (c : AfterCondition)
                    | AfterSelf.

(* src/cmdman/compose/spec.go:267-275 AfterSpec.Validate *)
Definition AfterSpec_Validate (a : AfterSpec) : result afterErr unit :=
  if bool_decide (after_Name a = "") then Err AfterNameEmpty
  else if AfterCondition_Validate (Condition a) then Ok tt
  else Err (AfterBadCondition (after_Name a) (Condition a)).

(** ** Lifecycle hooks *)

(* src/cmdman/compose/lifecycle.go:10-13 LifecycleEvent *)
Definition LifecycleEvent := string.
(* src/cmdman/compose/lifecycle.go:15-24 LifecycleCreatePre *)
Definition LifecycleCreatePre : LifecycleEvent := "create_pre".
(* src/cmdman/compose/lifecycle.go:15-24 LifecycleCreatePost *)
Definition LifecycleCreatePost : LifecycleEvent := "create_post".
(* src/cmdman/compose/lifecycle.go:15-24 LifecycleStartPre *)
Definition LifecycleStartPre : LifecycleEvent := "start_pre".
(* src/cmdman/compose/lifecycle.go:15-24 LifecycleStartPost *)
Definition LifecycleStartPost : LifecycleEvent := "start_post".
(* src/cmdman/compose/lifecycle.go:15-24 LifecycleStopPre *)
Definition LifecycleStopPre : LifecycleEvent := "stop_pre".
(* src/cmdman/compose/lifecycle.go:15-24 LifecycleStopPost *)
Definition LifecycleStopPost : LifecycleEvent := "stop_post".
(* src/cmdman/compose/lifecycle.go:15-24 LifecycleRemovePre *)
Definition LifecycleRemovePre : LifecycleEvent := "remove_pre".
(* src/cmdman/compose/lifecycle.go:15-24 LifecycleRemovePost *)
Definition LifecycleRemovePost : LifecycleEvent := "remove_post".

(* src/cmdman/compose/lifecycle.go:26-36 lifecycleEvents *)
Definition lifecycleEvents : list LifecycleEvent :=
  [LifecycleCreatePre; LifecycleCreatePost; LifecycleStartPre; LifecycleStartPost;
   LifecycleStopPre; LifecycleStopPost; LifecycleRemovePre; LifecycleRemovePost].

(* src/cmdman/compose/lifecycle.go:78-80 OnError *)
Definition OnError := string.
(* src/cmdman/compose/lifecycle.go:82-86 OnErrorFail *)
Definition OnErrorFail : OnError := "fail".
(* src/cmdman/compose/lifecycle.go:82-86 OnErrorContinue *)
Definition OnErrorContinue : OnError := "continue".
(* src/cmdman/compose/lifecycle.go:82-86 OnErrorIgnore *)
Definition OnErrorIgnore : OnError := "ignore".

(* src/cmdman/compose/lifecycle.go:88-95 OnError.Validate *)
Definition OnError_Validate (o : OnError) : bool :=
  bool_decide (o = "") || bool_decide (o = OnErrorFail) || bool_decide (o = OnErrorContinue)
  || bool_decide (o = OnErrorIgnore).

(* src/cmdman/compose/lifecycle.go:97-103 OnError.resolved *)
Definition resolved (o : OnError) : OnError := if decide (o = "") then OnErrorFail else o.

(* src/cmdman/compose/lifecycle.go:105-109 LifecycleExec *)
Record LifecycleExec := MkExec { exec_Args : list string; exec_OnError : OnError }.

(* src/cmdman/compose/lifecycle.go:111-123 LifecycleHook *)
Record LifecycleHook := MkLifecycleHook {
  hook_Name : string;
  Resource : string;
  Events : gmap LifecycleEvent LifecycleExec;
}.

(** ** The raw file *)

(* src/cmdman/compose/spec.go:253-257 EnvFileSpec *)
Record EnvFileSpec := { ef_Path : string; Required : option bool }.

(* src/cmdman/compose/spec.go:181-190 RawLifecycleExec *)
Record RawLifecycleExec := { rx_Args : list string; rx_OnError : OnError }.

(* src/cmdman/compose/spec.go:219-227 RawStopCommand *)
Record RawStopCommand := { rs_Args : list string }.

(* src/cmdman/compose/spec.go:141-156 RawLifecycleHook *)
Record RawLifecycleHook := {
  rh_Name : string;
  rh_Resource : string;
  CreatePre : option RawLifecycleExec;
  CreatePost : option RawLifecycleExec;
  StartPre : option RawLifecycleExec;
  StartPost : option RawLifecycleExec;
  StopPre : option RawLifecycleExec;
  StopPost : option RawLifecycleExec;
  RemovePre : option RawLifecycleExec;
  RemovePost : option RawLifecycleExec;
}.

(* src/cmdman/compose/spec.go:158-179 RawLifecycleHook.events *)
Definition raw_events (h : RawLifecycleHook) : list (LifecycleEvent * RawLifecycleExec) :=
  omap (fun f => pair f.1 <$> f.2)
    [(LifecycleCreatePre, CreatePre h); (LifecycleCreatePost, CreatePost h);
     (LifecycleStartPre, StartPre h); (LifecycleStartPost, StartPost h);
     (LifecycleStopPre, StopPre h); (LifecycleStopPost, StopPost h);
     (LifecycleRemovePre, RemovePre h); (LifecycleRemovePost, RemovePost h)].

(* src/cmdman/compose/spec.go:107-139 RawCommand *)
Record RawCommand := {
  rc_Dir : string;
  rc_Args : list string;
  rc_Env : list string;
  rc_EnvFile : list EnvFileSpec;
  rc_ImportHostEnv : option bool;
  rc_InjectEnv : option bool;
  rc_Labels : gmap string string;
  rc_RestartPolicy : string;
  rc_StopSignal : string;
  rc_StopGracePeriod : string;
  rc_Stop : option RawStopCommand;
  rc_Tty : bool;
  rc_ScrollbackBytes : Z;
  rc_LogDriver : string;
  rc_LogOpts : gmap string string;
  rc_After : gmap string AfterSpec;
  rc_Scale : option Z;
  rc_Hooks : list RawLifecycleHook;
}.

(* src/cmdman/compose/spec.go:87-105 RawComposeSpec *)
Record RawComposeSpec := {
  raw_Name : string;
  raw_WorkDir : string;
  raw_Env : list string;
  raw_EnvFile : list EnvFileSpec;
  raw_Commands : gmap string RawCommand;
  raw_Mux : option Spec;
}.

(** ** The normalized model *)

(* src/cmdman/compose/spec.go:300-345 Command *)
Record Command := {
  Name : string;
  c_Dir : string;
  Args : list string;
  Env : list string;
  ImportHostEnv : bool;
  InjectEnv : bool;
  c_Labels : gmap string string;
  c_RestartPolicy : RestartPolicy;
  MaxRetries : Z;
  StopSignal : string;
  StopGracePeriod : Duration;
  Stop : list string;
  Tty : bool;
  ScrollbackBytes : Z;
  c_LogDriver : string;
  LogOpts : gmap string string;
  After : list AfterSpec;
  Hooks : list LifecycleHook;
  Scale : Z;
  GeneratedName : string;
}.

(* src/cmdman/compose/spec.go:279-298 ComposeSpec *)
Record ComposeSpec := {
  ComposeFile : string;
  Project : string;
  WorkDir : string;
  WorkDirDeclared : bool;
  Commands : list Command;
  spec_Mux : option Spec;
}.

(** The names of a spec's commands, in order. *)
Definition command_names (cmds : list Command) : list string := map Name cmds.

(** A command with every field but its name, dependencies and scale at Go's
    zero value. *)
Definition mkCommand (name : string) (after : list AfterSpec) (scale : Z) : Command := {|
  Name := name; c_Dir := ""; Args := []; Env := []; ImportHostEnv := false; InjectEnv := false;
  c_Labels := ∅; c_RestartPolicy := ""; MaxRetries := 0; StopSignal := ""; StopGracePeriod := 0%Z;
  Stop := []; Tty := false; ScrollbackBytes := 0; c_LogDriver := ""; LogOpts := ∅;
  After := after; Hooks := []; Scale := scale; GeneratedName := name |}.

Definition mkSpec (cmds : list Command) : ComposeSpec := {|
  ComposeFile := "/p/compose.yaml"; Project := "p"; WorkDir := "/p"; WorkDirDeclared := true;
  Commands := cmds; spec_Mux := None |}.

(** ** Stored commands *)

(* src/cmdman/store/list.go:12-20 CommandEntry *)
Record CommandEntry := {
  ID : string;
  entry_Name : string;
  CreatedAt : string;
  entry_State : EventType;
  ExitCode : option Z;
  ConfigJSON : option CommandConfig;
  StateJSON : option CommandState;
}.

(* src/cmdman/compose/spec.go:17-18 LabelPrefix *)
Definition LabelPrefix : string := "cmdman.compose.".
(* src/cmdman/compose/spec.go:20-42 LabelProject *)
Definition LabelProject : string := "cmdman.compose.project".
(* src/cmdman/compose/spec.go:20-42 LabelCommand *)
Definition LabelCommand : string := "cmdman.compose.command".
(* src/cmdman/compose/spec.go:20-42 LabelConfigHash *)
Definition LabelConfigHash : string := "cmdman.compose.config-hash".
(* src/cmdman/compose/spec.go:20-42 LabelVersion *)
Definition LabelVersion : string := "cmdman.compose.version".
(* src/cmdman/compose/spec.go:20-42 LabelWorkdir *)
Definition LabelWorkdir : string := "cmdman.compose.workdir".
(* src/cmdman/compose/spec.go:20-42 LabelFile *)
Definition LabelFile : string := "cmdman.compose.file".
(* src/cmdman/compose/spec.go:20-42 LabelAfter *)
Definition LabelAfter : string := "cmdman.compose.after".
(* src/cmdman/compose/spec.go:20-42 LabelScaleIndex *)
Definition LabelScaleIndex : string := "cmdman.compose.scale-index".
(* src/cmdman/compose/spec.go:20-42 LabelScale *)
Definition LabelScale : string := "cmdman.compose.scale".
(* src/cmdman/compose/spec.go:20-42 LabelHooks *)
Definition LabelHooks : string := "cmdman.compose.hooks".
(* src/cmdman/compose/spec.go:20-42 LabelVersionValue *)
Definition LabelVersionValue : string := "1".

(** Go's lookup of a missing key in a [map[string]string]. *)
Definition label (m : gmap string string) (k : string) : string := default "" (m !! k).

(* src/cmdman/compose/selection.go:130-137 commandNameOf *)
Definition commandNameOf (e : CommandEntry) : string :=
  match ConfigJSON e with None => "" | Some cfg => label (Labels cfg) LabelCommand end.
