(* ===== verification/Naming.v ===== *)
(** * Generated command names

    [cmdman/compose/hash.go] (the names), [normalize.go] ([validateName]) and
    [lifecycle.go] ([ExecCommandName], [HolderName]).  Every command compose
    creates lives in one flat name space of the cmdman store: the replicas of
    every project, the commands that run their hooks and the holders of their
    resources.  The theorem of this file is that the names never collide. *)

From S2P Require Import Prelude GoStr ComposeSpec.

(* src/cmdman/compose/hash.go:22-26 escapeName *)
Fixpoint escapeName (s : string) : string :=
  match s with
  | EmptyString => EmptyString
  | String c s => if decide (c = "-"%char) then "--" +:+ escapeName s else String c (escapeName s)
  end.

(* src/cmdman/compose/hash.go:28-36 GenerateName *)
Definition GenerateName (wdHash project command : string) : string :=
  wdHash +:+ "-" +:+ escapeName project +:+ "-" +:+ escapeName command.

(* src/cmdman/compose/hash.go:38-59 GenerateProjectIdentity *)
Definition GenerateProjectIdentity (wdHash project : string) : string :=
  wdHash +:+ "-" +:+ escapeName project.

(* src/cmdman/compose/hash.go:61-67 InstanceName *)
Definition InstanceName (base : string) (scaleIndex : Z) : string :=
  base +:+ "-" +:+ Itoa scaleIndex.

(* src/cmdman/compose/hash.go:69-78 stripScaleIndexSuffix *)
Definition stripScaleIndexSuffix (instanceName : string) (scaleIndex : Z) : string :=
  if decide (scaleIndex <= 0)%Z then instanceName
  else trimSuffix ("-" +:+ Itoa scaleIndex) instanceName.

(* src/cmdman/compose/spec.go:347-356 Command.InstanceNames *)
Definition InstanceNames (c : Command) : list string :=
  map (fun i => InstanceName (GeneratedName c) (Z.of_nat i + 1)) (seq 0 (Z.to_nat (Z.max (Scale c) 1))).

(* src/cmdman/compose/lifecycle.go:234-238 ExecCommandName *)
Definition ExecCommandName (replica hook : string) (ev : LifecycleEvent) : string :=
  replica +:+ ".hook." +:+ hook +:+ "." +:+ ev.

(* src/cmdman/compose/lifecycle.go:240-244 HolderName *)
Definition HolderName (replica key : string) : string := replica +:+ ".res." +:+ key.

(* src/cmdman/compose/normalize.go:617-622 isNameChar *)
Definition isNameChar (r : ascii) : bool :=
  let n := nat_of_ascii r in
  bool_decide (65 <= n <= 90) || bool_decide (97 <= n <= 122) || bool_decide (48 <= n <= 57)
  || bool_decide (r = "."%char) || bool_decide (r = "_"%char) || bool_decide (r = "-"%char).

(** The rejections of [validateName].  The code words the last one differently
    for white space, path separators and other characters; here they are one. *)
(* src/cmdman/compose/normalize.go:537-565 validateName *)
Inductive nameErr :=
| NameEmpty (kind : string)
| NameTooLong (kind name : string)
| NameBadStart (kind name : string)
| NameBadChar (kind name : string).

(* src/cmdman/compose/normalize.go:537-565 validateName *)
Definition validateName (kind name : string) : result nameErr unit :=
  if bool_decide (trimSpace name = "") then Err (NameEmpty kind)
  else if bool_decide (63 < String.length name) then Err (NameTooLong kind name)
  else if match name with
          | String c _ => bool_decide (c = "."%char) || bool_decide (c = "-"%char)
          | EmptyString => false
          end then Err (NameBadStart kind name)
  else if negb (string_forallb isNameChar name) then Err (NameBadChar kind name)
  else Ok tt.

(** ** Names validation lets through *)

(** What the name space needs of a name: not empty, and no leading dash. *)
Definition no_lead_dash (s : string) : Prop := forall r, s <> String "-" r.

Lemma validateName_ok kind name :
  validateName kind name = Ok tt ->
  name <> "" /\ no_lead_dash name /\ string_forallb isNameChar name = true /\
  String.length name <= 63.
Proof.
  rewrite ok_tt_iff. unfold validateName. autorewrite with guards reflect_guards.
  intros (H1 & H2 & H3 & H4). split_and!; [by intros ->| |done|lia].
  intros r ->. apply orb_false_iff in H3 as [_ H3]. by rewrite bool_decide_true in H3.
Qed.

(** A name that is valid is no sentinel of the reconcile graph: the sentinels
    start with a NUL byte. *)
Lemma validateName_no_nul kind name s :
  validateName kind name = Ok tt -> name <> String "000" s.
Proof. intros (_ & _ & H & _)%validateName_ok ->. done. Qed.

(** ** Reading a generated name back *)

(** Reads one escaped component up to the separator: [--] stands for a dash, a
    single dash ends the component. *)
Fixpoint readEscaped (s : string) : string * string :=
  match s with
  | EmptyString => (EmptyString, EmptyString)
  | String "-" (String "-" r) => let '(a, b) := readEscaped r in (String "-" a, b)
  | String "-" r => (EmptyString, r)
  | String c r => let '(a, b) := readEscaped r in (String c a, b)
  end.

Lemma readEscaped_char c r :
  c <> "-"%char -> readEscaped (String c r) = let '(a, b) := readEscaped r in (String c a, b).
Proof. intros H. destruct c as [[] [] [] [] [] [] [] []]; try done. Qed.

Lemma readEscaped_escape s t :
  no_lead_dash t -> readEscaped (escapeName s +:+ String "-" t) = (s, t).
Proof.
  intros Ht. induction s as [|c s IH]; cbn [escapeName String.append].
  - destruct t as [|d t]; [done|]. destruct (decide (d = "-"%char)) as [->|Hd]; [by destruct (Ht t)|].
    destruct d as [[] [] [] [] [] [] [] []]; try done.
  - case_decide as Hc.
    + subst c. simpl. by rewrite IH.
    + cbn [String.append]. rewrite readEscaped_char by done. by rewrite IH.
Qed.

Lemma escapeName_no_lead_dash s t :
  s <> "" -> no_lead_dash s -> no_lead_dash (escapeName s +:+ t).
Proof.
  intros Hne Hs r. destruct s as [|c s]; [done|]. simpl. case_decide as Hc.
  - subst. by destruct (Hs s).
  - simpl. by intros [= ->].
Qed.

Lemma digits_no_lead_dash s t :
  string_forallb is_digit s = true -> s <> "" -> no_lead_dash (s +:+ t).
Proof.
  intros Hd Hne r. destruct s as [|c s]; [done|]. simpl in *. split_hyps. by intros [= -> _].
Qed.

(** The run of digits at the front. *)
Fixpoint spanDigits (s : string) : string * string :=
  match s with
  | String c r => if is_digit c then let '(a, b) := spanDigits r in (String c a, b) else (EmptyString, s)
  | EmptyString => (EmptyString, EmptyString)
  end.

Definition no_lead_digit (s : string) : Prop := forall c r, s = String c r -> is_digit c = false.

Lemma spanDigits_app d t :
  string_forallb is_digit d = true -> no_lead_digit t -> spanDigits (d +:+ t) = (d, t).
Proof.
  intros Hd Ht. induction d as [|c d IH]; simpl in *.
  - destruct t as [|c t]; simpl; [done|]. by rewrite (Ht c t).
  - split_hyps. rewrite H. by rewrite IH.
Qed.

(** ** The name space *)

(** Every command compose creates for a replica: the replica itself, the command
    running one of its hooks, and the holder of one of its resources. *)
Inductive genKind :=
| KReplica
| KExec (hook : string) (ev : LifecycleEvent)
| KHolder (key : string).

Record genCommand := {
  g_hash : string;
  g_project : string;
  g_command : string;
  g_index : Z;
  g_kind : genKind;
}.

Definition genSuffix (k : genKind) : string :=
  match k with
  | KReplica => ""
  | KExec hook ev => ".hook." +:+ hook +:+ "." +:+ ev
  | KHolder key => ".res." +:+ key
  end.

(** The name the code gives it. *)
Definition genName (g : genCommand) : string :=
  let replica := InstanceName (GenerateName (g_hash g) (g_project g) (g_command g)) (g_index g) in
  match g_kind g with
  | KReplica => replica
  | KExec hook ev => ExecCommandName replica hook ev
  | KHolder key => HolderName replica key
  end.

(** What normalization guarantees: a hexadecimal work directory hash, validated
    names, a replica index from 1 on and a known event. *)
Record gen_ok (g : genCommand) : Prop := {
  ok_hash : string_forallb (fun c => negb (bool_decide (c = "-"%char))) (g_hash g) = true;
  ok_project : validateName "project" (g_project g) = Ok tt;
  ok_command : validateName "command" (g_command g) = Ok tt;
  ok_index : (1 <= g_index g)%Z;
  ok_kind : match g_kind g with
            | KExec _ ev => ev ∈ lifecycleEvents
            | _ => True
            end;
}.

Lemma genName_eq g :
  genName g = g_hash g +:+ String "-" (escapeName (g_project g) +:+ String "-"
    (escapeName (g_command g) +:+ String "-" (Itoa (g_index g) +:+ genSuffix (g_kind g)))).
Proof.
  unfold genName, ExecCommandName, HolderName, InstanceName, GenerateName.
  destruct (g_kind g); cbn [genSuffix]; rewrite ?string_app_nil_r;
    repeat rewrite <- string_app_assoc; reflexivity.
Qed.

Lemma genSuffix_no_digit k : no_lead_digit (genSuffix k).
Proof. destruct k; intros c r [= <- _]; done. Qed.

(** No event name holds a dot, so the last dot of an exec command's name ends
    its hook. *)
Lemma event_no_dot ev :
  ev ∈ lifecycleEvents -> string_forallb (fun c => negb (bool_decide (c = "."%char))) ev = true.
Proof.
  intros H. repeat (apply elem_of_cons in H as [->|H]; [reflexivity|]). by apply elem_of_nil in H.
Qed.

Lemma last_dot_inj a1 b1 a2 b2 :
  string_forallb (fun c => negb (bool_decide (c = "."%char))) b1 = true ->
  string_forallb (fun c => negb (bool_decide (c = "."%char))) b2 = true ->
  a1 +:+ String "." b1 = a2 +:+ String "." b2 -> a1 = a2 /\ b1 = b2.
Proof.
  intros H1 H2. revert a2. induction a1 as [|c a1 IH]; intros [|d a2]; simpl.
  - by intros [= ->].
  - intros [= <- ->]. rewrite string_forallb_app in H1. simpl in H1.
    by rewrite andb_false_r in H1.
  - intros [= -> <-]. rewrite string_forallb_app in H2. simpl in H2.
    by rewrite andb_false_r in H2.
  - intros [= <- H]. by destruct (IH _ H) as [-> ->].
Qed.

Lemma genSuffix_inj k1 k2 :
  match k1 with KExec _ ev => ev ∈ lifecycleEvents | _ => True end ->
  match k2 with KExec _ ev => ev ∈ lifecycleEvents | _ => True end ->
  genSuffix k1 = genSuffix k2 -> k1 = k2.
Proof.
  destruct k1 as [|h1 e1|y1], k2 as [|h2 e2|y2]; intros H1 H2 H; try done.
  - apply string_app_inj_l in H.
    apply last_dot_inj in H as [-> ->]; [done|by apply event_no_dot|by apply event_no_dot].
  - by apply string_app_inj_l in H as ->.
Qed.

(** Compose's generated names never collide: two commands compose creates, be they
    replicas, hook commands or resource holders, in whatever work directories,
    projects and commands, share a name only if they are the same command. *)
Theorem generated_names_injective g1 g2
    (H1 : gen_ok g1) (H2 : gen_ok g2) :
  genName g1 = genName g2 -> g1 = g2.
Proof.
  rewrite !genName_eq. intros H.
  destruct g1 as [h1 p1 c1 i1 k1], g2 as [h2 p2 c2 i2 k2].
  destruct H1 as [Hh1 Hp1 Hc1 Hi1 Hk1], H2 as [Hh2 Hp2 Hc2 Hi2 Hk2]. simpl in *.
  apply (f_equal (cut "-")) in H. rewrite !cut_found in H by done. injection H as <- H.
  apply validateName_ok in Hc1 as (Hc1 & Hd1 & _), Hc2 as (Hc2 & Hd2 & _).
  apply (f_equal readEscaped) in H.
  rewrite !readEscaped_escape in H by (by apply escapeName_no_lead_dash). injection H as <- H.
  pose proof (Itoa_digits i1 ltac:(lia)) as Ht1. pose proof (Itoa_digits i2 ltac:(lia)) as Ht2.
  apply (f_equal readEscaped) in H.
  rewrite !readEscaped_escape in H by (apply digits_no_lead_dash; [done|apply MuxCtl.Itoa_not_empty]).
  injection H as <- H.
  apply (f_equal spanDigits) in H.
  rewrite !spanDigits_app in H by (done || apply genSuffix_no_digit). injection H as Hi Hs.
  apply Itoa_inj in Hi as ->. by apply genSuffix_inj in Hs as ->.
Qed.

Definition witness_gen : genCommand :=
  {| g_hash := "0123456789ab"; g_project := "my-app"; g_command := "web";
     g_index := 2; g_kind := KExec "net" LifecycleStartPre |}.

Lemma generated_names_injective_witness :
  genName witness_gen = "0123456789ab-my--app-web-2.hook.net.start_pre" /\
  witness_gen = witness_gen.
Proof.
  split; [vm_compute; reflexivity|].
  apply generated_names_injective; [| |reflexivity];
    (constructor; [reflexivity|vm_compute; reflexivity|vm_compute; reflexivity|simpl; lia|]);
    simpl; apply list_elem_of_In; simpl; tauto.
Defined.

(** the injectivity really rests on the rule that no name starts with a dash:
    without it two different commands of two projects of one work directory get the
    same base name, so doubling the dashes alone does not make the generated form
    uniquely decomposable, as the comment on [GenerateName] has it. *)
Theorem GenerateName_needs_validation :
  exists h p1 c1 p2 c2, (p1, c1) <> (p2, c2) /\
    validateName "project" p1 = Ok tt /\ validateName "command" c1 = Ok tt /\
    validateName "project" p2 = Ok tt /\ validateName "command" c2 = Err (NameBadStart "command" c2) /\
    GenerateName h p1 c1 = GenerateName h p2 c2.
Proof.
  exists "0123456789ab", "a-", "b", "a", "-b". split_and!; try (vm_compute; reflexivity).
  discriminate.
Qed.

Lemma strip_InstanceName base i : (0 < i)%Z -> stripScaleIndexSuffix (InstanceName base i) i = base.
Proof.
  intros H. unfold stripScaleIndexSuffix, InstanceName. rewrite decide_False by lia. apply trimSuffix_app.
Qed.

(** stripping a replica's index suffix is the inverse of adding it, for every base
    name and every index a replica can have; an index of zero or less strips nothing. *)
Theorem stripScaleIndexSuffix_InstanceName base i :
  stripScaleIndexSuffix (InstanceName base i) i
  = if decide (i <= 0)%Z then InstanceName base i else base.
Proof.
  unfold stripScaleIndexSuffix, InstanceName. case_decide; [done|]. apply trimSuffix_app.
Qed.
