(* ===== verification/Lifecycle.v ===== *)
(** * Lifecycle hooks

    [cmdman/compose/lifecycle.go] (the rules for hooks) and [label_hooks.go] (the
    hooks stored with a replica).  The decoding of the label is an argument. *)

From S2P Require Import Prelude GoStr ComposeSpec Naming.

(** ** Events *)

(* src/cmdman/compose/lifecycle.go:38-44 LifecycleEvent.Validate *)
Definition LifecycleEvent_Validate (e : LifecycleEvent) : bool := bool_decide (e ∈ lifecycleEvents).

(* src/cmdman/compose/lifecycle.go:46-54 LifecycleEvent.acquires *)
Definition acquires (e : LifecycleEvent) : bool :=
  bool_decide (e ∈ [LifecycleCreatePre; LifecycleCreatePost; LifecycleStartPre; LifecycleStartPost]).

(* src/cmdman/compose/lifecycle.go:56-68 LifecycleEvent.releases *)
Definition releases (e : LifecycleEvent) : list LifecycleEvent :=
  if decide (e ∈ [LifecycleCreatePre; LifecycleCreatePost]) then [LifecycleRemovePre; LifecycleRemovePost]
  else if decide (e ∈ [LifecycleStartPre; LifecycleStartPost]) then [LifecycleStopPre; LifecycleStopPost]
  else [].

(** ** One hook *)

(* src/cmdman/compose/lifecycle.go:128-201 LifecycleHook.Validate *)
Inductive hookItemErr :=
| HookNameRequired (i : nat)
| HookBadName (e : nameErr)
| HookNoEvent (hook : string)
| HookBadEvent (hook : string) (ev : LifecycleEvent)
| HookNoArgs (hook : string) (ev : LifecycleEvent)
| HookBadOnError (hook : string) (ev : LifecycleEvent) (o : OnError)
| HookBadResource (hook : string) (e : nameErr)
| HookNoAcquire (hook resource : string)
| HookManyAcquires (hook resource : string) (evs : list LifecycleEvent)
| HookWrongRelease (hook resource : string) (ev acquire : LifecycleEvent)
| HookManyReleases (hook resource : string) (evs : list LifecycleEvent)
| HookDuplicate (hook : string)
| HookResourceTaken (hook resource other : string).

(** The events of a hook that acquire, and the others, in declaration order. *)
(* src/cmdman/compose/lifecycle.go:159-169 LifecycleHook.validateResourceEvents *)
Definition set_events (h : LifecycleHook) : list LifecycleEvent * list LifecycleEvent :=
  let evs := filter (fun ev => is_Some (Events h !! ev)) lifecycleEvents in
  (filter (fun ev => acquires ev = true) evs, filter (fun ev => acquires ev = false) evs).

(* src/cmdman/compose/lifecycle.go:158-201 LifecycleHook.validateResourceEvents *)
Definition validateResourceEvents (h : LifecycleHook) : result hookItemErr unit :=
  let '(acqs, rels) := set_events h in
  match acqs with
  | [] => Err (HookNoAcquire (hook_Name h) (Resource h))
  | [acquire] =>
    match filter (fun ev => ev ∉ releases acquire) rels with
    | ev :: _ => Err (HookWrongRelease (hook_Name h) (Resource h) ev acquire)
    | [] => if bool_decide (1 < length rels) then Err (HookManyReleases (hook_Name h) (Resource h) rels) else Ok tt
    end
  | _ => Err (HookManyAcquires (hook_Name h) (Resource h) acqs)
  end.

(** One event of the loop, which visits them sorted by name. *)
(* src/cmdman/compose/lifecycle.go:137-148 LifecycleHook.Validate *)
Definition check_event (name : string) (kv : LifecycleEvent * LifecycleExec) : result hookItemErr unit :=
  let '(ev, exec) := kv in
  if negb (LifecycleEvent_Validate ev) then Err (HookBadEvent name ev)
  else if bool_decide (length (exec_Args exec) = 0) then Err (HookNoArgs name ev)
  else if negb (OnError_Validate (exec_OnError exec)) then Err (HookBadOnError name ev (exec_OnError exec))
  else Ok tt.

(* src/cmdman/compose/lifecycle.go:125-156 LifecycleHook.Validate *)
Definition LifecycleHook_Validate (h : LifecycleHook) : result hookItemErr unit :=
  try _ := lift_err HookBadName (validateName "hook" (hook_Name h)) in
  if bool_decide (Events h = ∅) then Err (HookNoEvent (hook_Name h))
  else
    try _ := result_mapM (check_event (hook_Name h)) (sorted_items (Events h)) in
    if bool_decide (Resource h = "") then Ok tt
    else try _ := lift_err (HookBadResource (hook_Name h)) (validateName "resource" (Resource h)) in
         validateResourceEvents h.

(** ** The hooks of a command *)

(** One hook of the loop: the names and resource keys taken so far. *)
(* src/cmdman/compose/lifecycle.go:209-230 validateLifecycleHooks *)
Fixpoint validate_hooks (i : nat) (names : gset string) (resources : gmap string string)
    (hooks : list LifecycleHook) : result hookItemErr unit :=
  match hooks with
  | [] => Ok tt
  | h :: hooks =>
    if bool_decide (hook_Name h = "") then Err (HookNameRequired i)
    else
      try _ := LifecycleHook_Validate h in
      if bool_decide (hook_Name h ∈ names) then Err (HookDuplicate (hook_Name h))
      else if decide (Resource h = "") then validate_hooks (S i) ({[hook_Name h]} ∪ names) resources hooks
      else match resources !! Resource h with
           | Some other => Err (HookResourceTaken (hook_Name h) (Resource h) other)
           | None => validate_hooks (S i) ({[hook_Name h]} ∪ names) (<[Resource h := hook_Name h]> resources) hooks
           end
  end.

(* src/cmdman/compose/lifecycle.go:203-232 validateLifecycleHooks *)
Definition validateLifecycleHooks (hooks : list LifecycleHook) : result hookItemErr unit :=
  validate_hooks 0 ∅ ∅ hooks.

(* src/cmdman/compose/label_hooks.go:8-23 decodeHooksLabel *)
Inductive hooksLabelErr := HooksNotJSON (err : string) | HooksInvalid (e : hookItemErr).

Section Label.
(** [json.Unmarshal] into a list of hooks. *)
Context (unmarshalHooks : string -> result string (list LifecycleHook)).

(* src/cmdman/compose/label_hooks.go:8-23 decodeHooksLabel *)
Definition decodeHooksLabel (raw : string) : result hooksLabelErr (list LifecycleHook) :=
  if decide (raw = "") then Ok []
  else
    try hooks := lift_err HooksNotJSON (unmarshalHooks raw) in
    try _ := lift_err HooksInvalid (validateLifecycleHooks hooks) in
    Ok hooks.
End Label.

(** ** What the rules say *)

(** A hook that declares a resource acquires it at one point and releases it at no
    more than one, which undoes that point: a create is undone by a remove, a start
    by a stop. *)
Definition undoes (release acquire : LifecycleEvent) : Prop :=
  (acquire ∈ [LifecycleCreatePre; LifecycleCreatePost] /\ release ∈ [LifecycleRemovePre; LifecycleRemovePost]) \/
  (acquire ∈ [LifecycleStartPre; LifecycleStartPost] /\ release ∈ [LifecycleStopPre; LifecycleStopPost]).

Record resource_ok (h : LifecycleHook) : Prop := {
  ro_name : is_ok (validateName "resource" (Resource h)) = true;
  ro_acquire : exists acquire, acquires acquire = true /\ is_Some (Events h !! acquire) /\
    (forall ev, acquires ev = true -> is_Some (Events h !! ev) -> ev = acquire) /\
    (forall ev, acquires ev = false -> is_Some (Events h !! ev) -> undoes ev acquire);
  ro_release : forall e1 e2, acquires e1 = false -> acquires e2 = false ->
    is_Some (Events h !! e1) -> is_Some (Events h !! e2) -> e1 = e2;
}.

Record hook_ok (h : LifecycleHook) : Prop := {
  ho_name : is_ok (validateName "hook" (hook_Name h)) = true;
  ho_some : Events h <> ∅;
  ho_events : forall ev exec, Events h !! ev = Some exec ->
    ev ∈ lifecycleEvents /\ exec_Args exec <> [] /\ OnError_Validate (exec_OnError exec) = true;
  ho_resource : Resource h <> "" -> resource_ok h;
}.

Definition hooks_ok (hooks : list LifecycleHook) : Prop :=
  (forall h, h ∈ hooks -> hook_ok h) /\ NoDup (hook_Name <$> hooks) /\
  NoDup (filter (fun r => r <> "") (Resource <$> hooks)).

Lemma NoDup_lifecycleEvents : NoDup lifecycleEvents.
Proof. apply (bool_decide_unpack _). vm_compute. exact I. Qed.

Lemma acquires_known ev : acquires ev = true -> ev ∈ lifecycleEvents.
Proof. unfold acquires, lifecycleEvents. rewrite bool_decide_eq_true, !elem_of_cons. tauto. Qed.

Lemma elem_of_releases ev a : ev ∈ releases a <-> undoes ev a.
Proof.
  unfold releases, undoes. case_decide as H1; [|case_decide as H2].
  - split; [by left|]. intros [[_ ?]|[H _]]; [done|]. exfalso. clear -H1 H.
    apply elem_of_cons in H1 as [->|H1%list_elem_of_singleton]; [|subst a]; by apply (bool_decide_pack _) in H; vm_compute in H.
  - split; [by right|]. intros [[? _]|[_ ?]]; done.
  - split; [by intros ?%elem_of_nil|]. by intros [[? _]|[? _]].
Qed.

(** A list without repetitions has at most one element when its elements agree. *)
Lemma length_le_1 {A} (l : list A) : NoDup l -> (length l <= 1 <-> forall x y, x ∈ l -> y ∈ l -> x = y).
Proof.
  intros Hnd. destruct l as [|a [|b l]]; simpl.
  - split; [by intros _ ? ? ?%elem_of_nil|lia].
  - split; [|lia]. by intros _ x y ->%list_elem_of_singleton ->%list_elem_of_singleton.
  - split; [lia|]. intros H. inversion Hnd as [|? ? Hn _]; subst. destruct Hn.
    rewrite (H a b); [left|left|right; left].
Qed.

Section ResourceEvents.
Context (h : LifecycleHook) (Hknown : forall ev, is_Some (Events h !! ev) -> ev ∈ lifecycleEvents).

Lemma elem_of_set_events ev :
  (ev ∈ (set_events h).1 <-> acquires ev = true /\ is_Some (Events h !! ev)) /\
  (ev ∈ (set_events h).2 <-> acquires ev = false /\ is_Some (Events h !! ev)).
Proof. unfold set_events; simpl. rewrite !list_elem_of_filter. naive_solver. Qed.

Lemma NoDup_set_events : NoDup (set_events h).1 /\ NoDup (set_events h).2.
Proof. unfold set_events; simpl. split; do 2 apply NoDup_filter; apply NoDup_lifecycleEvents. Qed.

Lemma validateResourceEvents_ok :
  is_ok (validateResourceEvents h) = true <->
  (exists acquire, acquires acquire = true /\ is_Some (Events h !! acquire) /\
    (forall ev, acquires ev = true -> is_Some (Events h !! ev) -> ev = acquire) /\
    (forall ev, acquires ev = false -> is_Some (Events h !! ev) -> undoes ev acquire)) /\
  (forall e1 e2, acquires e1 = false -> acquires e2 = false ->
    is_Some (Events h !! e1) -> is_Some (Events h !! e2) -> e1 = e2).
Proof.
  pose proof elem_of_set_events as He. destruct NoDup_set_events as [Ha Hr].
  unfold validateResourceEvents. destruct (set_events h) as [acqs rels]. simpl in *.
  destruct acqs as [|a [|b acqs]].
  - split; [done|]. intros [(a & H1 & H2 & _) _]. pose proof (proj2 (proj1 (He a)) (conj H1 H2)) as Hin.
    by apply elem_of_nil in Hin.
  - assert (Ha1 : acquires a = true /\ is_Some (Events h !! a)) by (apply He; left).
    transitivity ((forall ev, ev ∈ rels -> ev ∈ releases a) /\ length rels <= 1).
    { destruct (filter (fun ev => ev ∉ releases a) rels) as [|ev l] eqn:Ef.
      - rewrite is_ok_err_if, is_ok_ok, andb_true_r, negb_true_iff, bool_decide_eq_false. split; [|lia].
        intros Hl. split; [|lia]. intros ev Hev. destruct (decide (ev ∈ releases a)) as [|Hn]; [done|].
        assert (ev ∈ filter (fun ev => ev ∉ releases a) rels) as Hin by (by apply list_elem_of_filter).
        rewrite Ef in Hin. by apply elem_of_nil in Hin.
      - split; [done|]. intros [H _]. assert (ev ∈ filter (fun ev => ev ∉ releases a) rels) as Hin by (rewrite Ef; left).
        apply list_elem_of_filter in Hin as [Hn Hin]. destruct (Hn (H _ Hin)). }
    rewrite (length_le_1 rels Hr). setoid_rewrite elem_of_releases. split.
    + intros [Hu Hl]. split.
      * exists a. destruct Ha1. split_and!; try done.
        -- intros ev H1 H2. by apply list_elem_of_singleton, He.
        -- intros ev H1 H2. by apply Hu, He.
      * intros e1 e2 ? ? ? ?. by apply Hl; apply He.
    + intros [(a' & H1 & H2 & H3 & H4) Hl]. split.
      * intros ev [Hf Hs]%He. destruct Ha1 as [Ha1 Ha2]. rewrite (H3 a Ha1 Ha2). by apply H4.
      * intros x y [? ?]%He [? ?]%He. by apply Hl.
  - split; [done|]. intros [(a' & H1 & H2 & H3 & _) _]. inversion Ha as [|? ? Hn _]; subst. destruct Hn.
    assert (acquires a = true /\ is_Some (Events h !! a)) as [? ?] by (apply He; left).
    assert (acquires b = true /\ is_Some (Events h !! b)) as [? ?] by (apply He; right; left).
    rewrite (H3 a), <- (H3 b) by done. left.
Qed.
End ResourceEvents.

Lemma check_event_ok name ev exec :
  is_ok (check_event name (ev, exec)) = true <->
  ev ∈ lifecycleEvents /\ exec_Args exec <> [] /\ OnError_Validate (exec_OnError exec) = true.
Proof.
  unfold check_event, LifecycleEvent_Validate. autorewrite with guards. autorewrite with reflect_guards.
  rewrite length_zero_iff_nil. tauto.
Qed.

Lemma LifecycleHook_Validate_ok h : is_ok (LifecycleHook_Validate h) = true <-> hook_ok h.
Proof.
  unfold LifecycleHook_Validate. autorewrite with guards. rewrite !andb_true_iff, negb_true_iff, bool_decide_eq_false, forallb_elem_of.
  assert (Hev : (forall kv, kv ∈ sorted_items (Events h) -> is_ok (check_event (hook_Name h) kv) = true) <->
    forall ev exec, Events h !! ev = Some exec ->
      ev ∈ lifecycleEvents /\ exec_Args exec <> [] /\ OnError_Validate (exec_OnError exec) = true).
  { split.
    - intros H ev exec He. apply (check_event_ok (hook_Name h)), H. by apply elem_of_sorted_items.
    - intros H [ev exec] Hin%elem_of_sorted_items. by apply check_event_ok, H. }
  rewrite Hev. split.
  - intros (H1 & H2 & H3 & H4). constructor; [done..|]. intros Hr.
    rewrite (bool_decide_false _ Hr) in H4. autorewrite with guards in H4. apply andb_true_iff in H4 as [H4 H5].
    apply validateResourceEvents_ok in H5 as [Hacq Hrel]; [by constructor|]. intros ev [exec He]. by apply (H3 ev exec).
  - intros [H1 H2 H3 H4]. split_and!; [done..|]. case_bool_decide as Hr; [done|].
    destruct (H4 Hr) as [R1 R2 R3]. autorewrite with guards. rewrite R1. simpl.
    apply validateResourceEvents_ok; [|done]. intros ev [exec He]. by apply (H3 ev exec).
Qed.

Lemma NoDup_app_twice {A} (x : A) l1 l2 : x ∈ l1 -> ~ NoDup (l1 ++ x :: l2).
Proof. intros Hx (_ & H & _)%NoDup_app. apply (H x Hx). left. Qed.

Lemma NoDup_snoc {A} (x : A) l : NoDup l -> x ∉ l -> NoDup (l ++ [x]).
Proof.
  intros. apply NoDup_app. split_and!; [done| |apply NoDup_singleton]. by intros y ? ->%list_elem_of_singleton.
Qed.

(** The loop, having taken the names [ns] and the resource keys [rs]. *)
Lemma validate_hooks_ok hooks i ns rs names resources :
  names = list_to_set ns -> dom resources = list_to_set (C := gset string) rs -> NoDup ns -> NoDup rs ->
  is_ok (validate_hooks i names resources hooks) = true <->
  Forall hook_ok hooks /\ NoDup (ns ++ (hook_Name <$> hooks)) /\
  NoDup (rs ++ filter (fun r => r <> "") (Resource <$> hooks)).
Proof.
  revert i ns rs names resources. induction hooks as [|h hooks IH]; intros i ns rs names resources -> Hrs Hns Hrd;
    cbn [validate_hooks].
  { rewrite !app_nil_r. split; [|done]. intros _. by split_and!. }
  assert (Hne : hook_ok h -> hook_Name h <> "") by (intros [H _ _ _] E; by rewrite E in H).
  rewrite !fmap_cons, Forall_cons, filter_cons. autorewrite with guards.
  rewrite !andb_true_iff, LifecycleHook_Validate_ok, !negb_true_iff, !bool_decide_eq_false, elem_of_list_to_set.
  destruct (decide (hook_Name h ∈ ns)) as [Hin|Hin].
  { split; [tauto|]. intros (_ & H & _). by destruct (NoDup_app_twice _ _ _ Hin H). }
  assert (Hns' : NoDup (ns ++ [hook_Name h])) by by apply NoDup_snoc.
  assert (Hset : {[hook_Name h]} ∪ list_to_set ns = list_to_set (C := gset string) (ns ++ [hook_Name h])).
  { rewrite list_to_set_app_L. simpl. rewrite union_empty_r_L. apply (comm_L _). }
  rewrite (cons_middle (hook_Name h)), (app_assoc ns).
  destruct (decide (Resource h = "")) as [Hr|Hr].
  - rewrite decide_False by (intros H; done).
    rewrite (IH (S i) (ns ++ [hook_Name h]) rs _ _ Hset Hrs Hns' Hrd). tauto.
  - rewrite decide_True by done. destruct (resources !! Resource h) as [other|] eqn:E.
    + assert (Hk : Resource h ∈ rs) by (apply elem_of_dom_2 in E; rewrite Hrs in E; by apply elem_of_list_to_set in E).
      split; [intros (_ & _ & _ & [=])|]. intros (_ & _ & H). by destruct (NoDup_app_twice _ _ _ Hk H).
    + assert (Hk : Resource h ∉ rs).
      { apply not_elem_of_dom in E. rewrite Hrs in E. by intros ?%(elem_of_list_to_set (C := gset string)). }
      rewrite (cons_middle (Resource h)), (app_assoc rs).
      rewrite (IH (S i) (ns ++ [hook_Name h]) (rs ++ [Resource h]) _ _ Hset); [tauto| |done|by apply NoDup_snoc].
      rewrite dom_insert_L, Hrs, list_to_set_app_L. simpl. rewrite union_empty_r_L. apply (comm_L _).
Qed.

Lemma validateLifecycleHooks_ok hooks : is_ok (validateLifecycleHooks hooks) = true <-> hooks_ok hooks.
Proof.
  unfold validateLifecycleHooks, hooks_ok.
  rewrite (validate_hooks_ok hooks 0 [] [] ∅ ∅), Forall_forall by (done || constructor). done.
Qed.

(** what passes for hooks. [validateLifecycleHooks] accepts the hooks of a command
    exactly when each has a valid name and at least one known event, every event has a
    command and a known failure policy, names and resource keys occur once, and a hook
    that declares a resource acquires it at one point and releases it at no more than
    one, of the pair that undoes that point. *)
Theorem validateLifecycleHooks_exact hooks :
  validateLifecycleHooks hooks = Ok tt <-> hooks_ok hooks.
Proof. rewrite ok_tt_iff. apply validateLifecycleHooks_ok. Qed.
