(* ===== verification/Graph.v ===== *)
(** * The dependency graph of a compose file

    [cmdman/compose/graph.go]: the check for unknown dependencies and cycles, and
    the topological layering (Kahn's algorithm) the plan is ordered by. *)

From S2P Require Import Prelude GoStr ComposeSpec.
From stdpp Require Import relations.

(** The names a command depends on. *)
(* src/cmdman/compose/graph.go:55-55 topoLayers *)
Definition deps (c : Command) : list string := map after_Name (After c).

(* src/cmdman/compose/graph.go:40-77 topoLayers *)
Inductive graphErr :=
| UnknownDependency (command dep : string)
| CycleDetected (involved : list string).

(* src/cmdman/compose/graph.go:48-52 topoLayers *)
Definition nameSet_of (cmds : list Command) : gset string := list_to_set (command_names cmds).

(** The degree table and the lists of dependents under construction. *)
(* src/cmdman/compose/graph.go:45-46 topoLayers *)
Definition tables : Type := gmap string Z * gmap string (list string).

(** One dependency of [c]: [inDegree[c]++] and [dependents[dep] = append(...)]. *)
(* src/cmdman/compose/graph.go:55-61 topoLayers *)
Definition scan_dep (nameSet : gset string) (c : Command) (t : tables) (dep : string)
  : result graphErr tables :=
  if bool_decide (dep ∈ nameSet) then
    Ok (alter (Z.add 1) (Name c) t.1, <[dep := default [] (t.2 !! dep) ++ [Name c]]> t.2)
  else Err (UnknownDependency (Name c) dep).

(* src/cmdman/compose/graph.go:54-62 topoLayers *)
Definition scan_command (nameSet : gset string) (t : tables) (c : Command) : result graphErr tables :=
  result_foldl (scan_dep nameSet c) t (deps c).

(** The commands at degree zero, in declaration order. *)
(* src/cmdman/compose/graph.go:68-73 topoLayers *)
Definition ready (cmds : list Command) (inDegree : gmap string Z) : list string :=
  filter (fun n => inDegree !! n = Some 0%Z) (command_names cmds).

(* src/cmdman/compose/graph.go:94-105 detectCycle *)
Definition detectCycle (cmds : list Command) (inDegree : gmap string Z) : list string :=
  sort_strings (filter (fun n => (0 < default 0 (inDegree !! n))%Z) (command_names cmds)).

(** Emitting one command of a layer: mark it and release its dependents. *)
(* src/cmdman/compose/graph.go:82-88 topoLayers *)
Definition emit (dependents : gmap string (list string)) (inDegree : gmap string Z) (name : string)
  : gmap string Z :=
  foldl (fun d dep => alter (Z.add (-1)) dep d) (<[name := (-1)%Z]> inDegree)
        (default [] (dependents !! name)).

(** The loop [for remaining > 0]: every round emits a non-empty layer, so as
    many rounds as commands are enough. *)
(* src/cmdman/compose/graph.go:67-91 topoLayers *)
Fixpoint layer_loop (fuel : nat) (cmds : list Command) (dependents : gmap string (list string))
    (inDegree : gmap string Z) (remaining : nat) : result graphErr (list (list string)) :=
  match remaining, fuel with
  | O, _ => Ok []
  | _, O => Err (CycleDetected [])
  | _, S fuel =>
    match ready cmds inDegree with
    | [] => Err (CycleDetected (detectCycle cmds inDegree))
    | layer =>
      let layer := sort_strings layer in
      try layers := layer_loop fuel cmds dependents (foldl (emit dependents) inDegree layer)
                      (remaining - length layer) in
      Ok (layer :: layers)
    end
  end.

(* src/cmdman/compose/graph.go:39-92 topoLayers *)
Definition topoLayers (cmds : list Command) : result graphErr (list (list string)) :=
  match cmds with
  | [] => Ok []
  | _ =>
    let zeros := foldl (fun m c => <[Name c := 0%Z]> m) ∅ cmds in
    try (inDegree, dependents) := result_foldl (scan_command (nameSet_of cmds)) (zeros, ∅) cmds in
    layer_loop (length cmds) cmds dependents inDegree (length cmds)
  end.

(* src/cmdman/compose/graph.go:29-37 TopoLayers *)
Definition TopoLayers (cmds : list Command) : result graphErr (list (list string)) := topoLayers cmds.

(* src/cmdman/compose/graph.go:12-27 ValidateDAG *)
Fixpoint check_known (nameSet : gset string) (cmds : list Command) : result graphErr unit :=
  match cmds with
  | [] => Ok tt
  | c :: cmds =>
    match filter (fun d => d ∉ nameSet) (deps c) with
    | d :: _ => Err (UnknownDependency (Name c) d)
    | [] => check_known nameSet cmds
    end
  end.

(* src/cmdman/compose/graph.go:8-27 ValidateDAG *)
Definition ValidateDAG (cmds : list Command) : result graphErr unit :=
  try _ := check_known (nameSet_of cmds) cmds in
  try _ := topoLayers cmds in
  Ok tt.

(** ** The specification *)

(** [n] depends directly on [d]. *)
Definition depends (cmds : list Command) (n d : string) : Prop :=
  exists c, c ∈ cmds /\ Name c = n /\ d ∈ deps c.

Definition known (cmds : list Command) : Prop :=
  forall c d, c ∈ cmds -> d ∈ deps c -> d ∈ command_names cmds.

Definition acyclic (cmds : list Command) : Prop := forall n, ~ tc (depends cmds) n n.

(** What a layering promises: it lists every command once, its layers are not
    empty and sorted, and a command's dependencies all lie in earlier layers. *)
Record layering (cmds : list Command) (layers : list (list string)) : Prop := {
  lay_perm : concat layers ≡ₚ command_names cmds;
  lay_nonempty : Forall (fun l => l <> []) layers;
  lay_sorted : Forall (StronglySorted string_le) layers;
  lay_deps : forall i l n d, layers !! i = Some l -> n ∈ l -> depends cmds n d ->
    exists j l', j < i /\ layers !! j = Some l' /\ d ∈ l';
}.

(** ** Cycles in finite relations *)

Section Cycles.
Context (R : string -> string -> Prop).

(** Chains of [R] inside [S], newest first. *)
Inductive chain : list string -> Prop :=
| chain_one x : chain [x]
| chain_cons x y l : R y x -> chain (y :: l) -> chain (x :: y :: l).

Lemma chain_tc x l y : chain (x :: l) -> y ∈ l -> tc R y x.
Proof.
  intros Hc. remember (x :: l) as xs eqn:E. revert x l E.
  induction Hc as [z|z w l' Hr Hc IH]; intros ? ? [= <- <-] Hy; [by apply elem_of_nil in Hy|].
  apply elem_of_cons in Hy as [->|Hy]; [by apply tc_once|].
  eapply tc_r; [by eapply IH|done].
Qed.

Lemma chain_dup l : chain l -> ~ NoDup l -> exists x, tc R x x.
Proof.
  intros Hc Hn. induction Hc as [x|x y l Hr Hc IH].
  - exfalso. apply Hn. apply NoDup_singleton.
  - destruct (decide (x ∈ y :: l)) as [Hx|Hx].
    + exists x. eapply (chain_tc x (y :: l)); [by constructor|done].
    + apply IH. intros H. apply Hn. by constructor.
Qed.

(** A finite non-empty set in which every element has a successor holds a cycle. *)
Lemma serial_cycle (S : gset string) :
  S <> ∅ -> (forall x, x ∈ S -> exists y, y ∈ S /\ R x y) -> exists x, tc R x x.
Proof.
  intros Hne Hser.
  assert (forall n, exists l, length l = Datatypes.S n /\ chain l /\ forall x, x ∈ l -> x ∈ S)
    as Hchain.
  { induction n as [|n (l & Hl & Hc & Hin)].
    - apply set_choose_L in Hne as [x Hx]. exists [x]. split_and!; [done|constructor|].
      intros y ->%list_elem_of_singleton. done.
    - destruct l as [|x l]; [done|]. destruct (Hser x) as (y & Hy & Hr); [apply Hin; set_solver|].
      exists (y :: x :: l). split_and!; [simpl in *; lia|by constructor|].
      intros z [->|Hz]%elem_of_cons; auto. }
  destruct (Hchain (size S)) as (l & Hl & Hc & Hin). apply (chain_dup l Hc). intros Hnd.
  assert (size (list_to_set l : gset string) <= size S) as Hle.
  { apply subseteq_size. intros x Hx. apply Hin. by apply elem_of_list_to_set in Hx. }
  rewrite size_list_to_set in Hle by done. lia.
Qed.
End Cycles.

(** A relation that decreases a rank has no cycle. *)
Lemma ranked_acyclic (R : string -> string -> Prop) (rank : string -> nat) :
  (forall x y, R x y -> rank y < rank x) -> forall x, ~ tc R x x.
Proof.
  intros H x Hx. assert (forall a b, tc R a b -> rank b < rank a) as Ht.
  { induction 1 as [a b Hab|a b c Hab _ IH]; [by apply H|]. apply H in Hab. lia. }
  apply Ht in Hx. lia.
Qed.

(** ** Kahn's algorithm *)

(** How often [x] occurs in [l]. *)
Definition mult (x : string) (l : list string) : nat := length (filter (fun y => y = x) l).

Lemma mult_cons x y l : mult x (y :: l) = (if decide (y = x) then 1 else 0) + mult x l.
Proof. unfold mult. rewrite filter_cons. by case_decide. Qed.

Lemma mult_app x l1 l2 : mult x (l1 ++ l2) = mult x l1 + mult x l2.
Proof. unfold mult. by rewrite filter_app, length_app. Qed.

Lemma mult_0 x l : x ∉ l -> mult x l = 0.
Proof.
  induction l as [|y l IH]; [done|]. rewrite not_elem_of_cons, mult_cons. intros [Hn Hl].
  rewrite IH by done. by rewrite decide_False.
Qed.

(** The number of dependencies of [c] not emitted yet. *)
Definition pending (done_ : gset string) (c : Command) : nat :=
  length (filter (fun d => d ∉ done_) (deps c)).

Lemma pending_insert done_ n c :
  n ∉ done_ -> pending done_ c = pending ({[n]} ∪ done_) c + mult n (deps c).
Proof.
  intros Hn. unfold pending. induction (deps c) as [|d l IH]; [done|].
  rewrite !filter_cons, mult_cons.
  destruct (decide (d ∉ done_)) as [H1|H1], (decide (d ∉ {[n]} ∪ done_)) as [H2|H2], (decide (d = n));
    simpl; try lia; set_solver.
Qed.

Lemma pending_0 done_ c : pending done_ c = 0 <-> forall d, d ∈ deps c -> d ∈ done_.
Proof.
  unfold pending. rewrite length_zero_iff_nil. split.
  - intros H d Hd. destruct (decide (d ∈ done_)); [done|].
    assert (d ∈ filter (fun d => d ∉ done_) (deps c)) as Hf by (by apply list_elem_of_filter).
    rewrite H in Hf. by apply elem_of_nil in Hf.
  - intros H. apply elem_of_nil_inv. intros d [Hn Hd]%list_elem_of_filter. by apply Hn, H.
Qed.

(** *** The scan of the dependencies *)

Lemma scan_deps_spec ns c ds t :
  match result_foldl (scan_dep ns c) t ds with
  | Ok t' =>
      (forall d, d ∈ ds -> d ∈ ns) /\
      (forall m, t'.1 !! m = if decide (m = Name c) then Z.add (Z.of_nat (length ds)) <$> t.1 !! m
                           else t.1 !! m) /\
      (forall n x, mult x (default [] (t'.2 !! n))
                 = mult x (default [] (t.2 !! n)) + if decide (x = Name c) then mult n ds else 0)
  | Err e => exists d, e = UnknownDependency (Name c) d /\ d ∈ ds /\ d ∉ ns
  end.
Proof.
  revert t. induction ds as [|d ds IH]; intros t; cbn [result_foldl].
  { split_and!; [by intros d ?%elem_of_nil| |].
    - intros m. case_decide; [|done]. by destruct (t.1 !! m).
    - intros n x. change (mult n []) with 0. case_decide; lia. }
  unfold scan_dep at 1. case_bool_decide as Hd; simpl; [|exists d; set_solver].
  specialize (IH (alter (Z.add 1) (Name c) t.1,
                  <[d := default [] (t.2 !! d) ++ [Name c]]> t.2)).
  destruct (result_foldl _ _ ds) as [t'|e].
  - destruct IH as (H1 & H2 & H3). simpl in H2, H3. split_and!.
    + intros x [->|Hx]%elem_of_cons; auto.
    + intros m. rewrite H2. case_decide; subst.
      * rewrite lookup_alter_eq. destruct (t.1 !! Name c); simpl; [|done]. f_equal. lia.
      * by rewrite lookup_alter_ne.
    + intros n x. rewrite H3, mult_cons. destruct (decide (d = n)) as [->|Hne].
      * rewrite lookup_insert_eq. simpl. rewrite mult_app, mult_cons.
        change (mult x []) with 0.
        repeat case_decide; subst; try congruence; lia.
      * rewrite lookup_insert_ne by done. repeat case_decide; lia.
  - destruct IH as (d' & -> & Hd' & Hn). exists d'. split_and!; [done|by apply elem_of_cons; right|done].
Qed.

Lemma scan_commands_spec ns l t :
  NoDup (command_names l) ->
  match result_foldl (scan_command ns) t l with
  | Ok t' =>
      (forall c d, c ∈ l -> d ∈ deps c -> d ∈ ns) /\
      (forall c, c ∈ l -> t'.1 !! Name c = Z.add (Z.of_nat (length (deps c))) <$> t.1 !! Name c) /\
      (forall m, m ∉ command_names l -> t'.1 !! m = t.1 !! m) /\
      (forall n c, c ∈ l -> mult (Name c) (default [] (t'.2 !! n))
                          = mult (Name c) (default [] (t.2 !! n)) + mult n (deps c)) /\
      (forall n x, x ∉ command_names l ->
         mult x (default [] (t'.2 !! n)) = mult x (default [] (t.2 !! n)))
  | Err e => exists c d, e = UnknownDependency (Name c) d /\ c ∈ l /\ d ∈ deps c /\ d ∉ ns
  end.
Proof.
  revert t. induction l as [|c l IH]; intros t Hnd; cbn [result_foldl].
  { split_and!; try done; by intros ? ?%elem_of_nil || intros ? ? ?%elem_of_nil. }
  inversion Hnd as [|? ? Hc Hnd']; subst. unfold scan_command at 1.
  pose proof (scan_deps_spec ns c (deps c) t) as Hs.
  destruct (result_foldl (scan_dep ns c) t (deps c)) as [t1|e]; simpl.
  2:{ destruct Hs as (d & -> & Hd & Hn). exists c, d. set_solver. }
  destruct Hs as (S1 & S2 & S3). specialize (IH t1 Hnd').
  destruct (result_foldl _ t1 l) as [t'|e].
  2:{ destruct IH as (c' & d & -> & Hc' & Hd). exists c', d. set_solver. }
  destruct IH as (I1 & I2 & I3 & I4 & I5). split_and!.
  - intros c' d [->|Hc']%elem_of_cons; eauto.
  - intros c' [->|Hc']%elem_of_cons.
    + rewrite I3 by done. by rewrite S2, decide_True.
    + rewrite I2 by done. rewrite S2, decide_False; [done|].
      intros E. apply Hc. rewrite <- E. apply list_elem_of_fmap. eauto.
  - intros m [Hm Hml]%not_elem_of_cons. rewrite I3 by done. by rewrite S2, decide_False.
  - intros n c' [->|Hc']%elem_of_cons.
    + rewrite I5 by done. by rewrite S3, decide_True.
    + rewrite I4 by done. rewrite S3, decide_False; [lia|].
      intros E. apply Hc. rewrite <- E. apply list_elem_of_fmap. eauto.
  - intros n x [Hx Hxl]%not_elem_of_cons. rewrite I5 by done. rewrite S3, decide_False by done. lia.
Qed.

Lemma zeros_lookup cmds (m : gmap string Z) n :
  foldl (fun m c => <[Name c := 0%Z]> m) m cmds !! n
  = if decide (n ∈ command_names cmds) then Some 0%Z else m !! n.
Proof.
  revert m. induction cmds as [|c l IH]; intros m; simpl.
  - done.
  - rewrite IH. destruct (decide (n ∈ command_names l)) as [H|H].
    + rewrite decide_True; [done|]. by apply elem_of_cons; right.
    + destruct (decide (n = Name c)) as [->|Hn].
      * rewrite lookup_insert_eq, decide_True; [done|]. by apply elem_of_cons; left.
      * rewrite lookup_insert_ne by done. rewrite decide_False; [done|].
        by intros [?|?]%elem_of_cons.
Qed.

(** *** The rounds *)

Section Rounds.
Context (cmds : list Command) (Hnd : NoDup (command_names cmds)).
(** The degree table after the commands in [done_] were emitted. *)
Record degrees (done_ : gset string) (deg : gmap string Z) : Prop := {
  deg_val : forall c, c ∈ cmds ->
    deg !! Name c = Some (if decide (Name c ∈ done_) then (-1)%Z else Z.of_nat (pending done_ c));
  deg_closed : forall c d, c ∈ cmds -> Name c ∈ done_ -> d ∈ deps c -> d ∈ done_;
}.

Lemma name_inj c1 c2 : c1 ∈ cmds -> c2 ∈ cmds -> Name c1 = Name c2 -> c1 = c2.
Proof.
  intros [i Hi]%list_elem_of_lookup [j Hj]%list_elem_of_lookup E.
  assert (i = j) as ->; [|congruence].
  eapply (NoDup_lookup (command_names cmds)); [done| |];
    unfold command_names; rewrite list_lookup_fmap; [by rewrite Hi|by rewrite Hj, E].
Qed.

Lemma foldl_decrement l (d : gmap string Z) m :
  foldl (fun d dep => alter (Z.add (-1)) dep d) d l !! m
  = Z.add (- Z.of_nat (mult m l)) <$> d !! m.
Proof.
  revert d. induction l as [|x l IH]; intros d; simpl.
  - change (mult m []) with 0. by destruct (d !! m).
  - rewrite IH, mult_cons. destruct (decide (x = m)) as [->|Hx].
    + rewrite lookup_alter_eq. destruct (d !! m); simpl; [|done]. f_equal. lia.
    + by rewrite lookup_alter_ne.
Qed.

Section Emit.
Context (dependents : gmap string (list string)).
Context (Hdep : forall n c, c ∈ cmds ->
  mult (Name c) (default [] (dependents !! n)) = mult n (deps c)).

Lemma emit_degrees done_ deg c :
  degrees done_ deg -> c ∈ cmds -> Name c ∉ done_ -> (forall d, d ∈ deps c -> d ∈ done_) ->
  degrees ({[Name c]} ∪ done_) (emit dependents deg (Name c)).
Proof.
  intros [Hv Hcl] Hc Hn Hd. split.
  - intros c' Hc'. unfold emit. rewrite foldl_decrement, Hdep by done.
    destruct (decide (Name c' = Name c)) as [E|Hne].
    + rewrite (name_inj c' c) by done. rewrite lookup_insert_eq, decide_True by set_solver.
      rewrite mult_0; [done|]. intros H. by apply Hn, Hd.
    + rewrite lookup_insert_ne by done. rewrite Hv by done. simpl. f_equal.
      destruct (decide (Name c' ∈ done_)) as [Hin|Hin].
      * rewrite decide_True by set_solver. rewrite mult_0; [done|].
        intros H. apply Hn. by apply (Hcl c').
      * rewrite decide_False by set_solver. rewrite (pending_insert done_ (Name c) c') by done. lia.
  - intros c' d Hc' [H|H]%elem_of_union Hdd; [|set_solver].
    apply elem_of_singleton in H. rewrite (name_inj c' c) in Hdd by done. set_solver.
Qed.

Lemma emit_layer_degrees layer done_ deg :
  degrees done_ deg -> NoDup layer ->
  (forall n, n ∈ layer -> exists c, c ∈ cmds /\ Name c = n /\ n ∉ done_ /\
     forall d, d ∈ deps c -> d ∈ done_) ->
  degrees (list_to_set layer ∪ done_) (foldl (emit dependents) deg layer).
Proof.
  revert done_ deg. induction layer as [|n l IH]; intros done_ deg Hdeg Hl Hall; simpl.
  { by rewrite union_empty_l_L. }
  inversion Hl as [|? ? Hnl Hl']; subst.
  destruct (Hall n) as (c & Hc & <- & Hn & Hd); [by left|].
  replace ({[Name c]} ∪ list_to_set l ∪ done_) with (list_to_set l ∪ ({[Name c]} ∪ done_))
    by (clear; set_solver).
  apply IH; [by apply emit_degrees|done|].
  intros m Hm. destruct (Hall m) as (c' & Hc' & <- & Hm' & Hd'); [by right|].
  exists c'. split_and!; [done|done| |intros d ?%Hd'; by apply elem_of_union_r].
  rewrite not_elem_of_union, not_elem_of_singleton. split; [|done]. congruence.
Qed.

End Emit.

Lemma elem_of_ready done_ deg n :
  degrees done_ deg ->
  n ∈ ready cmds deg <-> exists c, c ∈ cmds /\ Name c = n /\ n ∉ done_ /\
    forall d, d ∈ deps c -> d ∈ done_.
Proof.
  intros [Hv _]. unfold ready. rewrite list_elem_of_filter. unfold command_names.
  rewrite list_elem_of_fmap. split.
  - intros [H (c & -> & Hc)]. exists c. rewrite Hv in H by done.
    case_decide; [done|]. split_and!; try done. apply pending_0. injection H. lia.
  - intros (c & Hc & <- & Hn & Hd). split; [|eauto]. rewrite Hv, decide_False by done.
    by rewrite (proj2 (pending_0 done_ c) Hd).
Qed.

(** What is left to emit. *)
Definition left_over (done_ : gset string) : list string :=
  filter (fun n => n ∉ done_) (command_names cmds).

Lemma left_over_layer done_ layer :
  NoDup layer -> (forall n, n ∈ layer -> n ∈ left_over done_) ->
  left_over done_ ≡ₚ layer ++ left_over (list_to_set layer ∪ done_).
Proof.
  intros Hl Hin. unfold left_over in *. apply NoDup_Permutation.
  - by apply NoDup_filter.
  - apply NoDup_app. split_and!; [done| |by apply NoDup_filter].
    intros n Hn [H _]%list_elem_of_filter. set_solver.
  - intros n. rewrite elem_of_app, !list_elem_of_filter.
    rewrite not_elem_of_union, elem_of_list_to_set. split.
    + intros [H1 H2]. destruct (decide (n ∈ layer)); tauto.
    + intros [H|[[_ H1] H2]]; [|done]. apply Hin in H. by apply list_elem_of_filter in H.
Qed.

(** The commands involved in a detected cycle: each waits for another one. *)
Definition stuck_set (l : list string) : Prop :=
  l <> [] /\ StronglySorted string_le l /\
  forall n, n ∈ l -> exists d, d ∈ l /\ depends cmds n d.

Context (Hknown : known cmds).

Lemma detectCycle_stuck done_ deg :
  degrees done_ deg -> ready cmds deg = [] -> left_over done_ <> [] ->
  stuck_set (detectCycle cmds deg).
Proof.
  intros Hdeg Hr Hl.
  assert (Hin : forall n, n ∈ detectCycle cmds deg <-> n ∈ left_over done_).
  { intros n. unfold detectCycle, left_over. rewrite elem_of_sort_strings, !list_elem_of_filter.
    split; intros [H1 H2]; split; try done;
      pose proof H2 as (c & -> & Hc)%list_elem_of_fmap;
      rewrite (deg_val _ _ Hdeg c Hc) in *; simpl in *.
    - by case_decide.
    - rewrite decide_False by done. destruct (decide (pending done_ c = 0)) as [E|E]; [|lia].
      exfalso. assert (Name c ∈ ready cmds deg) as Hrd.
      { apply (elem_of_ready done_ deg); [done|]. exists c. split_and!; try done. by apply pending_0. }
      rewrite Hr in Hrd. by apply elem_of_nil in Hrd. }
  split_and!.
  - destruct (left_over done_) as [|n l] eqn:E; [done|]. intros E2.
    assert (n ∈ detectCycle cmds deg) as H by (apply Hin; set_solver).
    rewrite E2 in H. by apply elem_of_nil in H.
  - apply sort_strings_sorted.
  - intros n Hn%Hin. unfold left_over in Hn. apply list_elem_of_filter in Hn as [Hn Hc].
    apply list_elem_of_fmap in Hc as (c & -> & Hc).
    destruct (decide (pending done_ c = 0)) as [E|E].
    + exfalso. assert (Name c ∈ ready cmds deg) as Hrd.
      { apply (elem_of_ready done_ deg); [done|]. exists c. split_and!; try done. by apply pending_0. }
      rewrite Hr in Hrd. by apply elem_of_nil in Hrd.
    + unfold pending in E. destruct (filter _ (deps c)) as [|d l] eqn:Ef; [done|].
      assert (d ∈ filter (fun d => d ∉ done_) (deps c)) as Hd by (rewrite Ef; set_solver).
      apply list_elem_of_filter in Hd as [Hd1 Hd2]. exists d. split.
      * apply Hin. apply list_elem_of_filter. split; [done|]. by apply (Hknown c).
      * exists c. done.
Qed.
End Rounds.

(** A layering of what is left after [done_]. *)
Definition layers_after (cmds : list Command) (done_ : gset string) (layers : list (list string)) : Prop :=
  concat layers ≡ₚ left_over cmds done_ /\ Forall (fun l => l <> []) layers /\
  Forall (StronglySorted string_le) layers /\
  (forall i l n d, layers !! i = Some l -> n ∈ l -> depends cmds n d ->
     d ∈ done_ \/ exists j l', j < i /\ layers !! j = Some l' /\ d ∈ l').

Lemma layers_after_cons cmds done_ layer layers :
  NoDup (command_names cmds) -> NoDup layer -> layer <> [] ->
  (forall n, n ∈ layer -> exists c, c ∈ cmds /\ Name c = n /\ n ∉ done_ /\
     forall d, d ∈ deps c -> d ∈ done_) ->
  layers_after cmds (list_to_set layer ∪ done_) layers ->
  layers_after cmds done_ (sort_strings layer :: layers).
Proof.
  intros Hnd Hl Hne Hall (Hp & Hf & Hs & Hd).
  assert (Hin : forall n, n ∈ layer -> n ∈ left_over cmds done_).
  { intros n (c & Hc & <- & Hn & _)%Hall. apply list_elem_of_filter. split; [done|].
    apply list_elem_of_fmap. eauto. }
  split_and!.
  - simpl. rewrite Hp, sort_strings_perm. symmetry. by apply left_over_layer.
  - constructor; [|done]. intros E. apply Hne. apply Permutation_nil_r. by rewrite <- (sort_strings_perm layer), E.
  - constructor; [apply sort_strings_sorted|done].
  - intros [|i] l n d Hi Hn Hdep; simpl in Hi.
    + simplify_eq. left. rewrite elem_of_sort_strings in Hn.
      destruct (Hall n Hn) as (c & Hc & E & _ & Hdd). destruct Hdep as (c' & Hc' & E' & Hd').
      apply Hdd. by rewrite (name_inj cmds Hnd c c' Hc Hc' ltac:(congruence)).
    + destruct (Hd i l n d Hi Hn Hdep) as [[H|H]%elem_of_union|(j & l' & Hj & Hl' & Hdl)]; [|by left|].
      * right. exists 0, (sort_strings layer). split_and!; [lia|done|].
        rewrite elem_of_sort_strings. by rewrite elem_of_list_to_set in H.
      * right. exists (S j), l'. split_and!; [lia|done|done].
Qed.

Lemma layer_loop_spec cmds dependents fuel done_ deg :
  NoDup (command_names cmds) -> known cmds ->
  (forall n c, c ∈ cmds -> mult (Name c) (default [] (dependents !! n)) = mult n (deps c)) ->
  degrees cmds done_ deg -> length (left_over cmds done_) <= fuel ->
  match layer_loop fuel cmds dependents deg (length (left_over cmds done_)) with
  | Ok layers => layers_after cmds done_ layers
  | Err e => exists l, e = CycleDetected l /\ stuck_set cmds l
  end.
Proof.
  intros Hnd Hk Hdep. revert done_ deg. induction fuel as [|fuel IH]; intros done_ deg Hdeg Hf.
  - assert (left_over cmds done_ = []) as E by (apply nil_length_inv; lia).
    rewrite E. split_and!; try constructor; [by rewrite E|done].
  - destruct (left_over cmds done_) as [|x0 l0] eqn:El.
    { split_and!; try constructor; [by rewrite El|done]. }
    cbn [length layer_loop]. change (S (length l0)) with (length (x0 :: l0)). rewrite <- El in *.
    destruct (ready cmds deg) as [|n0 ns] eqn:Er.
    { exists (detectCycle cmds deg). split; [done|].
      eapply detectCycle_stuck; [done|done|done|done|congruence]. }
    rewrite <- Er. assert (NoDup (ready cmds deg)) as Hrn by (by apply NoDup_filter).
    assert (Hall : forall n, n ∈ ready cmds deg -> exists c, c ∈ cmds /\ Name c = n /\ n ∉ done_ /\
      forall d, d ∈ deps c -> d ∈ done_) by (intros n; by apply elem_of_ready).
    set (layer := ready cmds deg) in *.
    assert (Hlo : left_over cmds done_ ≡ₚ layer ++ left_over cmds (list_to_set layer ∪ done_)).
    { apply left_over_layer; [done|done|]. intros n (c & Hc & <- & Hn & _)%Hall.
      apply list_elem_of_filter. split; [done|]. apply list_elem_of_fmap. eauto. }
    apply Permutation_length in Hlo. rewrite length_app in Hlo.
    assert (length (sort_strings layer) = length layer) as Hsl by (by rewrite sort_strings_perm).
    assert (0 < length layer) by (rewrite Er; simpl; lia).
    assert (degrees cmds (list_to_set layer ∪ done_) (foldl (emit dependents) deg (sort_strings layer)))
      as Hdeg'.
    { replace (list_to_set layer : gset string) with (list_to_set (sort_strings layer) : gset string).
      - apply emit_layer_degrees; [done|done|done|by apply NoDup_sort_strings|].
        intros n. rewrite elem_of_sort_strings. apply Hall.
      - apply list_to_set_perm_L, sort_strings_perm. }
    specialize (IH _ _ Hdeg' ltac:(lia)).
    replace (length (left_over cmds done_) - length (sort_strings layer))
      with (length (left_over cmds (list_to_set layer ∪ done_))) by lia.
    destruct (layer_loop _ _ _ _ _) as [layers|e]; simpl; [|done].
    apply layers_after_cons; try done. rewrite Er. done.
Qed.

(** What [topoLayers] returns, in every case. *)
Lemma topoLayers_spec cmds :
  NoDup (command_names cmds) ->
  match topoLayers cmds with
  | Ok layers => known cmds /\ layering cmds layers
  | Err (UnknownDependency n d) => depends cmds n d /\ d ∉ command_names cmds
  | Err (CycleDetected l) => known cmds /\ stuck_set cmds l
  end.
Proof.
  intros Hnd. unfold topoLayers. destruct cmds as [|c0 l0] eqn:E.
  { split; [by intros ? ? ?%elem_of_nil|]. by split. }
  rewrite <- E in *. clear E c0 l0.
  pose proof (scan_commands_spec (nameSet_of cmds) cmds
    (foldl (fun m c => <[Name c := 0%Z]> m) ∅ cmds, ∅) Hnd) as Hs.
  destruct (result_foldl _ _ cmds) as [[deg dependents]|e]; simpl in *.
  2:{ destruct Hs as (c & d & -> & Hc & Hd & Hn). split; [by exists c|].
      intros H. apply Hn. by apply elem_of_list_to_set. }
  destruct Hs as (S1 & S2 & _ & S4 & _).
  assert (Hk : known cmds).
  { intros c d Hc Hd. specialize (S1 c d Hc Hd). by apply elem_of_list_to_set in S1. }
  assert (Hdeg : degrees cmds ∅ deg).
  { split; [|by intros ? ? ? ?%not_elem_of_empty]. intros c Hc.
    rewrite decide_False by apply not_elem_of_empty.
    rewrite S2, zeros_lookup, decide_True by (done || apply list_elem_of_fmap; eauto). simpl. f_equal.
    unfold pending. rewrite Z.add_0_r. f_equal. f_equal. symmetry. apply list_filter_all.
    intros ? _. apply not_elem_of_empty. }
  assert (Hlo : left_over cmds ∅ = command_names cmds).
  { apply list_filter_all. intros ? _. apply not_elem_of_empty. }
  assert (length cmds = length (left_over cmds ∅)) as Hlen
      by (rewrite Hlo; unfold command_names; by rewrite length_map).
  assert (Hdep : forall n c, c ∈ cmds -> mult (Name c) (default [] (dependents !! n)) = mult n (deps c)).
  { intros n c Hc. rewrite S4 by done. by rewrite lookup_empty. }
  pose proof (layer_loop_spec cmds dependents (length cmds) ∅ deg Hnd Hk Hdep Hdeg ltac:(lia)) as H.
  rewrite <- Hlen in H. destruct (layer_loop _ _ _ _ _) as [layers|e].
  - destruct H as (Hp & Hne & Hst & Hd). split; [done|]. split; [by rewrite Hp, Hlo|done|done|].
    intros i l n d Hi Hn Hdp. by destruct (Hd i l n d Hi Hn Hdp) as [?%not_elem_of_empty|].
  - by destruct H as (l & -> & H).
Qed.

Lemma layering_acyclic cmds layers : layering cmds layers -> acyclic cmds.
Proof.
  intros [Hp _ _ Hd].
  assert (Hin : forall n d, depends cmds n d -> n ∈ concat layers).
  { intros n d (c & Hc & <- & _). rewrite Hp. apply list_elem_of_fmap. eauto. }
  assert (Hi : forall n d, depends cmds n d -> exists i l, layers !! i = Some l /\ n ∈ l).
  { intros n d H%Hin. apply list_elem_of_In, in_concat in H as (l & Hl & Hn).
    apply list_elem_of_In, list_elem_of_lookup in Hl as [i Hl]. apply list_elem_of_In in Hn. eauto. }
  (* a chain from [n] starts in a layer and only moves to earlier ones *)
  assert (Hchain : forall n d, tc (depends cmds) n d -> forall i l, layers !! i = Some l -> n ∈ l ->
    exists j l', j < i /\ layers !! j = Some l' /\ d ∈ l').
  { induction 1 as [n d Hdep|n m d Hdep _ IH]; intros i l Hl Hn; [by eapply Hd|].
    destruct (Hd i l n m Hl Hn Hdep) as (j & l' & Hj & Hl' & Hm).
    destruct (IH j l' Hl' Hm) as (k & l'' & Hk & ? & ?). exists k, l''. split_and!; [lia|done|done]. }
  intros n Hn.
  assert (forall i l, layers !! i = Some l -> n ∈ l -> False) as Hno.
  { intros i. induction (lt_wf i) as [i _ IH]. intros l Hl Hnl.
    destruct (Hchain n n Hn i l Hl Hnl) as (j & l' & Hj & Hl' & Hn'). by apply (IH j Hj l'). }
  assert (exists d, depends cmds n d) as [d Hdep] by (inversion Hn; eauto).
  destruct (Hi n d Hdep) as (i & l & Hl & Hnl). by apply (Hno i l).
Qed.

Lemma stuck_cyclic cmds l : stuck_set cmds l -> ~ acyclic cmds.
Proof.
  intros (Hne & _ & Hs) Ha.
  destruct (serial_cycle (depends cmds) (list_to_set l)) as [x Hx]; [| |by apply (Ha x)].
  - destruct l as [|x l]; [done|]. set_solver.
  - intros x Hx. setoid_rewrite elem_of_list_to_set. apply Hs. by apply elem_of_list_to_set in Hx.
Qed.

Lemma topoLayers_ok cmds :
  NoDup (command_names cmds) -> (is_ok (topoLayers cmds) = true <-> known cmds /\ acyclic cmds).
Proof.
  intros Hnd. pose proof (topoLayers_spec cmds Hnd) as H.
  destruct (topoLayers cmds) as [layers|[n d|l]]; simpl.
  - destruct H as [Hk Hl]. split; [|done]. intros _. split; [done|by eapply layering_acyclic].
  - split; [done|]. intros [Hk _]. destruct H as [(c & Hc & <- & Hd) Hn].
    by destruct Hn; apply (Hk c).
  - destruct H as [_ H]. split; [done|]. intros [_ Ha]. by apply stuck_cyclic in H.
Qed.

(** C20: [topoLayers] succeeds exactly on the dependency graphs without unknown names
    and cycles, and what it then returns is a topological layering: every command
    once, no empty layer, each layer sorted, every dependency in an earlier layer.
    In the other cases it names a real culprit: a command with an unknown dependency,
    or a non-empty set of commands each of which waits for another one of the set. *)
Theorem topoLayers_exact cmds
    (Hnd : NoDup (command_names cmds)) :
  (is_ok (topoLayers cmds) = true <-> known cmds /\ acyclic cmds) /\
  match topoLayers cmds with
  | Ok layers => layering cmds layers
  | Err (UnknownDependency n d) => depends cmds n d /\ d ∉ command_names cmds
  | Err (CycleDetected l) => stuck_set cmds l
  end.
Proof.
  split; [by apply topoLayers_ok|]. pose proof (topoLayers_spec cmds Hnd) as H.
  by destruct (topoLayers cmds) as [layers|[n d|l]]; try destruct H.
Qed.

Definition witness_cmds : list Command :=
  [mkCommand "web" [MkAfter "db" ConditionRunning; MkAfter "migrate" ConditionCompletedSuccessfully] 2;
   mkCommand "migrate" [MkAfter "db" ConditionRunning] 1;
   mkCommand "db" [] 1].

Lemma witness_cmds_NoDup : NoDup (command_names witness_cmds).
Proof. apply (bool_decide_unpack _). vm_compute. exact I. Qed.

Lemma topoLayers_exact_witness :
  topoLayers witness_cmds = Ok [["db"]; ["migrate"]; ["web"]] /\
  (is_ok (topoLayers witness_cmds) = true <-> known witness_cmds /\ acyclic witness_cmds).
Proof.
  split; [vm_compute; reflexivity|].
  apply (topoLayers_exact witness_cmds witness_cmds_NoDup).
Defined.

(** [ValidateDAG] is the success of the layering: the scan it makes first finds
    nothing the layering would not. *)
Lemma ValidateDAG_ok cmds :
  NoDup (command_names cmds) -> (ValidateDAG cmds = Ok tt <-> known cmds /\ acyclic cmds).
Proof.
  intros Hnd. rewrite <- (topoLayers_ok cmds Hnd). rewrite ok_tt_iff. unfold ValidateDAG.
  autorewrite with guards. rewrite andb_true_r, andb_true_iff. split; [tauto|]. intros H. split; [|done].
  apply topoLayers_ok in H as [Hk _]; [|done].
  assert (forall l, (forall c, c ∈ l -> c ∈ cmds) -> is_ok (check_known (nameSet_of cmds) l) = true)
    as Hall; [|by apply Hall].
  induction l as [|c l IH]; intros Hl; simpl; [done|].
  assert (filter (fun d => d ∉ nameSet_of cmds) (deps c) = []) as ->.
  { apply elem_of_nil_inv. intros d [Hn Hd]%list_elem_of_filter. apply Hn, elem_of_list_to_set.
    apply (Hk c); [|done]. apply Hl. by left. }
  apply IH. intros c' Hc'. apply Hl. by right.
Qed.
