(* ===== verification/Normalize.v ===== *)
(** * Normalization: from a compose file to a spec

    [cmdman/compose/normalize.go].  What the code takes from outside is an argument:
    the environment, the working directory and the file system, the interpolation and
    dotenv libraries, the hash of the work directory, and the order in which Go visits
    a map.  Warnings about unknown fields are left out. *)

From S2P Require Import Prelude GoStr LogDriver Model MuxCtl Mux ComposeSpec Naming Lifecycle Graph.

(** ** Paths ([path/filepath] on Unix) *)

(** [strings.Split] at slashes. *)
Fixpoint split_slash (cur s : string) : list string :=
  match s with
  | EmptyString => [cur]
  | String c s => if decide (c = "/"%char) then cur :: split_slash "" s
                  else split_slash (cur +:+ String c EmptyString) s
  end.

(** One element of a path; the elements kept so far, innermost first. *)
Definition clean_step (rooted : bool) (kept : list string) (elem : string) : list string :=
  if decide (elem = "" \/ elem = ".") then kept
  else if decide (elem = "..") then
    match kept with
    | [] => if rooted then [] else [".."]
    | top :: rest => if decide (top = "..") then ".." :: kept else rest
    end
  else elem :: kept.

Definition Clean (p : string) : string :=
  if decide (p = "") then "."
  else
    let rooted := isAbs p in
    let body := join "/" (rev (foldl (clean_step rooted) [] (split_slash "" p))) in
    if rooted then "/" +:+ body else if decide (body = "") then "." else body.

Definition Join (a b : string) : string :=
  match filter (fun s => s <> "") [a; b] with
  | [] => ""
  | l => Clean (join "/" l)
  end.

(** Up to and including the last slash. *)
Definition dir_part (p : string) : string :=
  let fix back s := match s with
                    | EmptyString => EmptyString
                    | String c s' => if decide (c = "/"%char) then s else back s'
                    end in
  string_rev (back (string_rev p)).

Definition Dir (p : string) : string := Clean (dir_part p).

(* src/cmdman/compose/normalize.go:490-500 resolvePath *)
Definition resolvePath (workDir p : string) : string :=
  if decide (p = "") then workDir
  else if isAbs p then Clean p
  else Join workDir p.

(** ** Lookups *)

Definition lookup_fn := string -> option string.

(* src/cmdman/compose/normalize.go:455-461 buildLookup *)
Definition buildLookup (env : gmap string string) : lookup_fn := fun key => env !! key.

(* src/cmdman/compose/normalize.go:463-474 buildLookupFromMaps *)
Definition buildLookupFromMaps (base overlay : gmap string string) : lookup_fn :=
  fun key => match overlay !! key with Some v => Some v | None => base !! key end.

(* src/cmdman/compose/normalize.go:444-453 osEnvMap *)
Definition osEnvMap (environ : list string) : gmap string string :=
  foldl (fun m entry => let '(k, v, _) := cut "=" entry in <[k := v]> m) ∅ environ.

(* src/cmdman/compose/normalize.go:476-488 mapToEnvSlice *)
Definition mapToEnvSlice (env : gmap string string) : list string :=
  map (fun kv => kv.1 +:+ "=" +:+ kv.2) (sorted_items env).

(** ** Checks that need nothing from outside *)

(* src/cmdman/compose/normalize.go:527-535 validateUserLabels *)
Definition validateUserLabels (ord : list (string * string)) : result string unit :=
  match filter (fun kv => hasPrefix LabelPrefix kv.1 = true) ord with
  | [] => Ok tt
  | (k, _) :: _ => Err k
  end.

(* src/cmdman/compose/normalize.go:637-650 normalizeAfter *)
Definition normalize_after_item (cmdName : string) (kv : string * AfterSpec) : result afterErr AfterSpec :=
  let '(n, spec) := kv in
  if decide (n = cmdName) then Err AfterSelf
  else
    let spec := MkAfter n (if decide (Condition spec = "") then ConditionCompleted else Condition spec) in
    try _ := AfterSpec_Validate spec in
    Ok spec.

(* src/cmdman/compose/normalize.go:624-652 normalizeAfter *)
Definition normalizeAfter (cmdName : string) (after : gmap string AfterSpec) : result afterErr (list AfterSpec) :=
  result_mapM (normalize_after_item cmdName) (sorted_items after).

(* src/cmdman/compose/normalize.go:581-615 validateMuxPane *)
Inductive muxRefErr :=
| MuxUnknownCommand (layout command : string)
| MuxScaleExceeds (layout command : string) (scale limit : Z).

(* src/cmdman/compose/normalize.go:581-615 validateMuxPane *)
Fixpoint validateMuxPane (layoutName : string) (pane : MuxPane) (cmds : gmap string Command)
  : result muxRefErr unit :=
  if mp_IsLeaf pane then
    match cmds !! mp_Command pane with
    | None => Err (MuxUnknownCommand layoutName (mp_Command pane))
    | Some cmd =>
      if decide (0 < mp_Scale pane /\ Scale cmd < mp_Scale pane)%Z
      then Err (MuxScaleExceeds layoutName (mp_Command pane) (mp_Scale pane) (Scale cmd))
      else Ok tt
    end
  else match pane with
       | MkMuxPane _ _ ps _ _ _ _ _ =>
         (fix go ps := match ps with
                       | [] => Ok tt
                       | c :: ps => try _ := validateMuxPane layoutName c cmds in go ps
                       end) ps
       end.

(* src/cmdman/compose/normalize.go:567-579 validateMux *)
Fixpoint validate_mux_layouts (ls : list MuxLayout) (cmds : gmap string Command) : result muxRefErr unit :=
  match ls with
  | [] => Ok tt
  | l :: ls => try _ := validateMuxPane (ml_Name l) (ml_Root l) cmds in validate_mux_layouts ls cmds
  end.

(* src/cmdman/compose/normalize.go:567-579 validateMux *)
Definition validateMux (spec : Spec) (cmds : gmap string Command) : result muxRefErr unit :=
  validate_mux_layouts (spec_Layouts spec) cmds.

(** ** Normalization *)

Inductive statResult := StatOk | StatNotExist | StatFailed (err : string).

(* src/cmdman/compose/normalize.go:365-442 buildEnvLayer *)
Inductive envErr :=
| EnvFileInterp (i : nat) (err : string)
| EnvFileStat (i : nat) (path err : string)
| EnvFileOpen (i : nat) (path err : string)
| EnvFileParse (i : nat) (path err : string)
| EnvInterp (j : nat) (err : string).

(* src/cmdman/compose/normalize.go:658-712 normalizeLifecycleHooks *)
Inductive hooksErr :=
| HooksNameRequired (i : nat)
| HooksInterp (hook : string) (ev : LifecycleEvent) (j : nat) (err : string)
| HooksRejected (e : hookItemErr).

(* src/cmdman/compose/normalize.go:718-746 normalizeStop *)
Inductive stopErr := StopNoArgs | StopInterp (i : nat) (err : string).

(* src/cmdman/compose/normalize.go:752-778 validateRuntimeFields *)
Inductive runtimeErr :=
| RuntimeNoArgs
| RuntimeBadPolicy (p : RestartPolicy)
| RuntimeBadSignal (s : string) (e : hrErr)
| RuntimeNegativeScrollback (n : Z)
| RuntimeBadLogDriver (d : string)
| RuntimeBadLogOpt (e : optErr).

(* src/cmdman/compose/normalize.go:196-333 Normalize *)
Inductive commandErr :=
| CommandBadName (e : nameErr)
| CommandDirInterp (err : string)
| CommandEnv (e : envErr)
| CommandArgInterp (i : nat) (err : string)
| CommandHooks (e : hooksErr)
| CommandReservedLabel (key : string)
| CommandLogOpts (err : string)
| CommandAfter (e : afterErr)
| CommandScale (scale : Z)
| CommandRestart (e : restartErr)
| CommandGrace (s : string) (e : hrErr)
| CommandStop (e : stopErr)
| CommandRuntime (e : runtimeErr).

(* src/cmdman/compose/normalize.go:103-359 Normalize *)
Inductive normErr :=
| NormCwd (err : string)
| NormWorkDirInterp (err : string)
| NormProjectRequired
| NormBadProject (e : nameErr)
| NormTopLevelEnv (e : envErr)
| NormCommand (name : string) (e : commandErr)
| NormGraph (e : graphErr)
| NormMux (e : muxRefErr).

(* src/cmdman/compose/normalize.go:53-61 NormalizeOpts *)
Record NormalizeOpts := { no_File : string; no_ProjectName : string; no_WorkDir : string }.

(* src/cmdman/compose/discover.go:27-27 ENV_CMDMAN_COMPOSE_FILE *)
Definition ENV_CMDMAN_COMPOSE_FILE : string := "CMDMAN_COMPOSE_FILE".
(* src/cmdman/compose/discover.go:31-31 ENV_CMDMAN_COMPOSE_DIR *)
Definition ENV_CMDMAN_COMPOSE_DIR : string := "CMDMAN_COMPOSE_DIR".
(* src/cmdman/compose/normalize.go:33-36 ENV_CMDMAN_COMPOSE_WORK_DIR *)
Definition ENV_CMDMAN_COMPOSE_WORK_DIR : string := "CMDMAN_COMPOSE_WORK_DIR".
(* src/cmdman/compose/normalize.go:38-43 ENV_CMDMAN_COMPOSE_WORK_DIR_HASH *)
Definition ENV_CMDMAN_COMPOSE_WORK_DIR_HASH : string := "CMDMAN_COMPOSE_WORK_DIR_HASH".
(* src/cmdman/compose/normalize.go:45-47 ENV_CMDMAN_COMPOSE_PROJECT *)
Definition ENV_CMDMAN_COMPOSE_PROJECT : string := "CMDMAN_COMPOSE_PROJECT".

Section Normalize.
(** [template.Substitute], [dotenv.ParseWithLookup] of a file's contents, [os.Stat],
    [os.Open], the work directory hash; what [hrstr] and [logdriver] take from
    outside; and, for each command, the order in which its labels and its log options
    are visited. *)
Context (Substitute : string -> lookup_fn -> result string string)
  (ParseDotenv : string -> lookup_fn -> result string (gmap string string))
  (Stat : string -> statResult) (Open : string -> result string string)
  (workdirHash : string -> string)
  (SignalName : Z -> string) (SignalNum : string -> Z) (ParseDuration : string -> option Duration)
  (ParseBytes : string -> option Z)
  (labelOrder logOptOrder : string -> gmap string string -> list (string * string)).

(** One [env_file] entry on top of what is accumulated. *)
(* src/cmdman/compose/normalize.go:377-416 buildEnvLayer *)
Definition env_file_step (workDir : string) (osEnv accum : gmap string string) (i : nat) (ef : EnvFileSpec)
  : result envErr (gmap string string) :=
  let required := default true (Required ef) in
  try interpPath := lift_err (EnvFileInterp i) (Substitute (ef_Path ef) (buildLookupFromMaps osEnv accum)) in
  let path := resolvePath workDir interpPath in
  match (if required then StatOk else Stat path) with
  | StatNotExist => Ok accum
  | StatFailed e => Err (EnvFileStat i path e)
  | StatOk =>
    try f := lift_err (EnvFileOpen i path) (Open path) in
    try fileVars := lift_err (EnvFileParse i path) (ParseDotenv f (buildLookupFromMaps osEnv accum)) in
    Ok (fileVars ∪ accum)
  end.

(* src/cmdman/compose/normalize.go:377-416 buildEnvLayer *)
Fixpoint env_files (workDir : string) (osEnv accum : gmap string string) (i : nat) (efs : list EnvFileSpec)
  : result envErr (gmap string string) :=
  match efs with
  | [] => Ok accum
  | ef :: efs => try accum := env_file_step workDir osEnv accum i ef in env_files workDir osEnv accum (S i) efs
  end.

(** One [env:] entry; a bare key takes the value of [merged], if there is one. *)
(* src/cmdman/compose/normalize.go:426-439 buildEnvLayer *)
Definition env_entry (merged cmdEnv : gmap string string) (j : nat) (entry : string)
  : result envErr (gmap string string) :=
  let '(k, v, hasVal) := cut "=" entry in
  if hasVal then
    try interpolated := lift_err (EnvInterp j) (Substitute v (buildLookup merged)) in
    Ok (<[k := interpolated]> cmdEnv)
  else match merged !! k with Some val => Ok (<[k := val]> cmdEnv) | None => Ok cmdEnv end.

(* src/cmdman/compose/normalize.go:426-439 buildEnvLayer *)
Fixpoint env_entries (merged cmdEnv : gmap string string) (j : nat) (env : list string)
  : result envErr (gmap string string) :=
  match env with
  | [] => Ok cmdEnv
  | e :: env => try cmdEnv := env_entry merged cmdEnv j e in env_entries merged cmdEnv (S j) env
  end.

(* src/cmdman/compose/normalize.go:361-442 buildEnvLayer *)
Definition buildEnvLayer (workDir : string) (envFiles : list EnvFileSpec) (env : list string)
    (osEnv seed : gmap string string) : result envErr (gmap string string) :=
  try envFileAccum := env_files workDir osEnv seed 0 envFiles in
  let envFileMerged := envFileAccum ∪ osEnv in
  env_entries envFileMerged envFileAccum 0 env.

(** Interpolation of a list of arguments, with the index of the one that fails. *)
(* src/cmdman/compose/normalize.go:225-237 Normalize *)
Fixpoint substitute_all {E} (mk : nat -> string -> E) (lookup : lookup_fn) (i : nat) (args : list string)
  : result E (list string) :=
  match args with
  | [] => Ok []
  | a :: args =>
    try v := lift_err (mk i) (Substitute a lookup) in
    try vs := substitute_all mk lookup (S i) args in
    Ok (v :: vs)
  end.

(** Only the path can fail to interpolate, so the order of the map does not matter. *)
(* src/cmdman/compose/normalize.go:502-525 resolveLogOptPaths *)
Definition resolveLogOptPaths (workDir : string) (opts : gmap string string) (lookup : lookup_fn)
  : result string (gmap string string) :=
  match opts !! LogOptPath with
  | None => Ok opts
  | Some v => try interp := Substitute v lookup in Ok (<[LogOptPath := resolvePath workDir interp]> opts)
  end.

(* src/cmdman/compose/normalize.go:680-701 normalizeLifecycleHooks *)
Fixpoint normalize_events (hook : string) (lookup : lookup_fn) (events : gmap LifecycleEvent LifecycleExec)
    (evs : list (LifecycleEvent * RawLifecycleExec)) : result hooksErr (gmap LifecycleEvent LifecycleExec) :=
  match evs with
  | [] => Ok events
  | (ev, exec) :: evs =>
    try args := substitute_all (HooksInterp hook ev) lookup 0 (rx_Args exec) in
    normalize_events hook lookup (<[ev := MkExec args (resolved (rx_OnError exec))]> events) evs
  end.

(* src/cmdman/compose/normalize.go:668-707 normalizeLifecycleHooks *)
Fixpoint normalize_hooks (lookup : lookup_fn) (i : nat) (raw : list RawLifecycleHook)
  : result hooksErr (list LifecycleHook) :=
  match raw with
  | [] => Ok []
  | rh :: raw =>
    if decide (rh_Name rh = "") then Err (HooksNameRequired i)
    else
      try events := normalize_events (rh_Name rh) lookup ∅ (raw_events rh) in
      try hooks := normalize_hooks lookup (S i) raw in
      Ok (MkLifecycleHook (rh_Name rh) (rh_Resource rh) events :: hooks)
  end.

(* src/cmdman/compose/normalize.go:654-712 normalizeLifecycleHooks *)
Definition normalizeLifecycleHooks (raw : list RawLifecycleHook) (lookup : lookup_fn)
  : result hooksErr (list LifecycleHook) :=
  match raw with
  | [] => Ok []
  | _ =>
    try hooks := normalize_hooks lookup 0 raw in
    try _ := lift_err HooksRejected (validateLifecycleHooks hooks) in
    Ok hooks
  end.

(* src/cmdman/compose/normalize.go:714-746 normalizeStop *)
Definition normalizeStop (raw : option RawStopCommand) (lookup : lookup_fn) : result stopErr (list string) :=
  match raw with
  | None => Ok []
  | Some r =>
    match rs_Args r with
    | [] => Err StopNoArgs
    | args => substitute_all StopInterp lookup 0 args
    end
  end.

(* src/cmdman/compose/normalize.go:748-778 validateRuntimeFields *)
Definition validateRuntimeFields (nc : Command) (logOpts : list (string * string)) : result runtimeErr unit :=
  if bool_decide (length (Args nc) = 0) then Err RuntimeNoArgs
  else if negb (bool_decide (c_RestartPolicy nc = "")) && negb (IsRestartPolicy (c_RestartPolicy nc))
  then Err (RuntimeBadPolicy (c_RestartPolicy nc))
  else
    try _ := (if decide (StopSignal nc = "") then Ok tt
              else try _ := lift_err (RuntimeBadSignal (StopSignal nc)) (ParseSignal SignalName SignalNum (StopSignal nc))
                   in Ok tt) in
    if bool_decide (ScrollbackBytes nc < 0)%Z then Err (RuntimeNegativeScrollback (ScrollbackBytes nc))
    else if negb (bool_decide (c_LogDriver nc = "")) && negb (IsLogDriver (c_LogDriver nc))
    then Err (RuntimeBadLogDriver (c_LogDriver nc))
    else if decide (c_LogDriver nc = "") then Ok tt
    else
      try _ := result_mapM (fun kv => lift_err RuntimeBadLogOpt
                                (ValidateOpt ParseBytes (c_LogDriver nc) kv.1 kv.2)) logOpts in
      Ok tt.

(** The body of the loop over the commands. *)
(* src/cmdman/compose/normalize.go:195-334 Normalize *)
Definition normalize_command (workDir wdHash project : string) (baseEnv projectEnv : gmap string string)
    (kv : string * RawCommand) : result normErr Command :=
  let '(name, cmd) := kv in
  lift_err (NormCommand name) (
    let baseLookup := buildLookup baseEnv in
    try _ := lift_err CommandBadName (validateName "command" name) in
    try dirVal := lift_err CommandDirInterp (Substitute (rc_Dir cmd) baseLookup) in
    let cmdDir := resolvePath workDir dirVal in
    try commandEnv := lift_err CommandEnv (buildEnvLayer workDir (rc_EnvFile cmd) (rc_Env cmd) baseEnv projectEnv) in
    let finalLookup := buildLookupFromMaps baseEnv commandEnv in
    try interpolatedArgs := substitute_all CommandArgInterp finalLookup 0 (rc_Args cmd) in
    try hooks := lift_err CommandHooks (normalizeLifecycleHooks (rc_Hooks cmd) finalLookup) in
    try _ := lift_err CommandReservedLabel (validateUserLabels (labelOrder name (rc_Labels cmd))) in
    try resolvedLogOpts := lift_err CommandLogOpts (resolveLogOptPaths workDir (rc_LogOpts cmd) baseLookup) in
    try afterList := lift_err CommandAfter (normalizeAfter name (rc_After cmd)) in
    try scale := match rc_Scale cmd with
                 | None => Ok 1%Z
                 | Some s => if decide (s < 1)%Z then Err (CommandScale s) else Ok s
                 end in
    let envSlice := mapToEnvSlice commandEnv in
    let genName := GenerateName wdHash project name in
    let importHostEnv := default true (rc_ImportHostEnv cmd) in
    let injectEnv := default true (rc_InjectEnv cmd) in
    try (restartPolicy, maxRetries) :=
      if decide (rc_RestartPolicy cmd = "") then Ok ("", 0%Z)
      else lift_err CommandRestart (ParseRestartPolicy (rc_RestartPolicy cmd)) in
    try stopGracePeriod :=
      if decide (rc_StopGracePeriod cmd = "") then Ok 0%Z
      else lift_err (CommandGrace (rc_StopGracePeriod cmd)) (ParseTimeout ParseDuration (rc_StopGracePeriod cmd)) in
    try stop := lift_err CommandStop (normalizeStop (rc_Stop cmd) finalLookup) in
    let nc := {|
      Name := name; c_Dir := cmdDir; Args := interpolatedArgs; Env := envSlice;
      ImportHostEnv := importHostEnv; InjectEnv := injectEnv; c_Labels := rc_Labels cmd;
      c_RestartPolicy := restartPolicy; MaxRetries := maxRetries; StopSignal := rc_StopSignal cmd;
      StopGracePeriod := stopGracePeriod; Stop := stop; Tty := rc_Tty cmd;
      ScrollbackBytes := rc_ScrollbackBytes cmd; c_LogDriver := rc_LogDriver cmd; LogOpts := resolvedLogOpts;
      After := afterList; Hooks := hooks; Scale := scale; GeneratedName := genName |} in
    try _ := lift_err CommandRuntime (validateRuntimeFields nc (logOptOrder name (LogOpts nc))) in
    Ok nc).

(** The work directory: what the interpolated declaration gives, made absolute. *)
(* src/cmdman/compose/normalize.go:140-149 Normalize *)
Definition effective_work_dir (cwd declared : string) : string :=
  let dir := if decide (declared = "") then cwd else declared in
  Clean (if isAbs dir then dir else Join cwd dir).

(* src/cmdman/compose/normalize.go:88-359 Normalize *)
Definition Normalize (environ : list string) (getwd : result string string) (composeFilePath0 : string)
    (raw : RawComposeSpec) (opts : NormalizeOpts) : result normErr ComposeSpec :=
  try cwd := lift_err NormCwd getwd in
  let composeFilePath := Clean (if isAbs composeFilePath0 then composeFilePath0 else Join cwd composeFilePath0) in
  let baseEnv := <[ENV_CMDMAN_COMPOSE_DIR := Dir composeFilePath]>
                   (<[ENV_CMDMAN_COMPOSE_FILE := composeFilePath]> (osEnvMap environ)) in
  let declaredWorkDir := if decide (no_WorkDir opts = "") then raw_WorkDir raw else no_WorkDir opts in
  try declaredWorkDir := lift_err NormWorkDirInterp (Substitute declaredWorkDir (buildLookup baseEnv)) in
  let workDirDeclared := negb (bool_decide (declaredWorkDir = "")) in
  let effectiveWorkDir := effective_work_dir cwd declaredWorkDir in
  let project := if decide (no_ProjectName opts = "") then raw_Name raw else no_ProjectName opts in
  if decide (project = "") then Err NormProjectRequired
  else
    try _ := lift_err NormBadProject (validateName "project" project) in
    let wdHash := workdirHash effectiveWorkDir in
    let baseEnv := <[ENV_CMDMAN_COMPOSE_PROJECT := project]>
                     (<[ENV_CMDMAN_COMPOSE_WORK_DIR_HASH := wdHash]>
                        (<[ENV_CMDMAN_COMPOSE_WORK_DIR := effectiveWorkDir]> baseEnv)) in
    try projectEnv := lift_err NormTopLevelEnv
                        (buildEnvLayer effectiveWorkDir (raw_EnvFile raw) (raw_Env raw) baseEnv ∅) in
    try normalized := result_mapM (normalize_command effectiveWorkDir wdHash project baseEnv projectEnv)
                        (sorted_items (raw_Commands raw)) in
    try _ := lift_err NormGraph (ValidateDAG normalized) in
    try _ := match raw_Mux raw with
             | None => Ok tt
             | Some m => lift_err NormMux (validateMux m (foldl (fun m c => <[Name c := c]> m) ∅ normalized))
             end in
    Ok {| ComposeFile := composeFilePath; Project := project; WorkDir := effectiveWorkDir;
          WorkDirDeclared := workDirDeclared; Commands := normalized; spec_Mux := raw_Mux raw |}.
End Normalize.

(** ** What normalization gives *)

(** *** Dependencies *)

Lemma normalize_after_item_ok cmdName n spec a :
  normalize_after_item cmdName (n, spec) = Ok a <->
  n <> cmdName /\ AfterSpec_Validate a = Ok tt /\
  a = MkAfter n (if decide (Condition spec = "") then ConditionCompleted else Condition spec).
Proof.
  unfold normalize_after_item. case_decide as Hn; [naive_solver|].
  set (b := MkAfter n _). destruct (AfterSpec_Validate b) as [[]|] eqn:E; simpl; [naive_solver|].
  split; [done|]. intros (_ & Ha & ->). congruence.
Qed.

Lemma sorted_items_keys {A} (m : gmap string A) : (sorted_items m).*1 = sorted_keys m.
Proof.
  unfold sorted_items. assert (H : forall k, k ∈ sorted_keys m -> is_Some (m !! k)).
  { intros k Hk%elem_of_sorted_keys. done. }
  induction (sorted_keys m) as [|k l IH]; [done|]. simpl. destruct (H k) as [v ->]; [left|]. simpl.
  f_equal. apply IH. intros; apply H; by right.
Qed.

Lemma normalizeAfter_ok cmdName after :
  is_ok (normalizeAfter cmdName after) = true <->
    after !! cmdName = None /\ after !! "" = None /\
    forall n a, after !! n = Some a -> Condition a = "" \/ AfterCondition_Validate (Condition a) = true.
Proof.
  unfold normalizeAfter. rewrite is_ok_mapM, forallb_elem_of. split.
  - intros H. assert (Hk : forall n a, after !! n = Some a -> n <> cmdName /\ n <> "" /\
      (Condition a = "" \/ AfterCondition_Validate (Condition a) = true)).
    { intros n a Ha%elem_of_sorted_items. specialize (H _ Ha).
      destruct (normalize_after_item cmdName (n, a)) as [b|] eqn:E; [|done].
      apply normalize_after_item_ok in E as (Hn & Hv & ->). unfold AfterSpec_Validate in Hv. simpl in Hv.
      case_bool_decide; [done|]. split_and!; [done..|]. case_decide; [by left|]. by destruct (AfterCondition_Validate _); [right|]. }
    split_and!; [..|intros n a Ha; by apply (Hk n a)].
    + destruct (after !! cmdName) as [a|] eqn:E; [|done]. by destruct (Hk _ _ E).
    + destruct (after !! "") as [a|] eqn:E; [|done]. by destruct (Hk _ _ E) as (_ & ? & _).
  - intros (H1 & H2 & H3) [n a] Ha%elem_of_sorted_items.
    assert (Hv : AfterSpec_Validate (MkAfter n (if decide (Condition a = "") then ConditionCompleted else Condition a)) = Ok tt).
    { unfold AfterSpec_Validate; simpl. rewrite bool_decide_false by congruence.
      case_decide; [done|]. destruct (H3 n a Ha) as [?|E]; [done|]. by rewrite E. }
    assert (Hn : n <> cmdName) by congruence.
    by rewrite (proj2 (normalize_after_item_ok cmdName n a _) (conj Hn (conj Hv eq_refl))).
Qed.

Lemma normalizeAfter_items cmdName after l :
  normalizeAfter cmdName after = Ok l ->
  after_Name <$> l = sorted_keys after /\
  forall a, a ∈ l -> AfterSpec_Validate a = Ok tt /\ exists a0, after !! after_Name a = Some a0 /\
    Condition a = if decide (Condition a0 = "") then ConditionCompleted else Condition a0.
Proof.
  unfold normalizeAfter. intros Hl%result_mapM_ok. split.
  - rewrite <- sorted_items_keys. induction Hl as [|[n a] b l l' Hb _ IH]; [done|].
    apply normalize_after_item_ok in Hb as (_ & _ & ->). simpl. by f_equal.
  - intros b Hb. apply list_elem_of_lookup in Hb as [i Hi].
    destruct (Forall2_lookup_r _ _ _ _ _ Hl Hi) as ([n a] & Hia & Hb).
    apply normalize_after_item_ok in Hb as (_ & Hv & ->). split; [done|]. exists a. split; [|done].
    apply elem_of_sorted_items, list_elem_of_lookup. eauto.
Qed.

(** the dependencies of a command. [normalizeAfter] fails exactly when the command
    waits for itself, for a nameless command or on an unknown condition; otherwise it
    gives one entry per key, sorted by name, whose condition is the one written or
    [completed] when none is. *)
Theorem normalizeAfter_exact cmdName after :
  (is_ok (normalizeAfter cmdName after) = true <->
    after !! cmdName = None /\ after !! "" = None /\
    forall n a, after !! n = Some a -> Condition a = "" \/ AfterCondition_Validate (Condition a) = true) /\
  (forall l, normalizeAfter cmdName after = Ok l ->
    after_Name <$> l = sorted_keys after /\
    forall a, a ∈ l -> AfterSpec_Validate a = Ok tt /\ exists a0, after !! after_Name a = Some a0 /\
      Condition a = if decide (Condition a0 = "") then ConditionCompleted else Condition a0).
Proof. split; [apply normalizeAfter_ok|apply normalizeAfter_items]. Qed.

(** *** What later steps rely on *)

(** What normalization gives a spec before its graph is checked. *)
Record spec_named (spec : ComposeSpec) : Prop := {
  sn_nodup : NoDup (command_names (Commands spec));
  sn_names : forall c, c ∈ Commands spec -> validateName "command" (Name c) = Ok tt;
  sn_after : forall c, c ∈ Commands spec -> NoDup (deps c);
}.

Lemma isAbs_Clean p : isAbs p = true -> isAbs (Clean p) = true.
Proof.
  intros H. unfold Clean. case_decide as Hp; [by subst|]. cbv zeta. rewrite H. apply hasPrefix_app.
Qed.

Lemma isAbs_Join a b : isAbs a = true -> isAbs (Join a b) = true.
Proof.
  intros H. unfold Join. rewrite !filter_cons, filter_nil. rewrite decide_True by (by intros ->).
  case_decide; apply isAbs_Clean; [|done]. cbn [join]. unfold isAbs in *. apply hasPrefix_true in H as [r ->].
  rewrite <- string_app_assoc. apply hasPrefix_app.
Qed.

Lemma effective_work_dir_abs cwd declared : isAbs cwd = true -> isAbs (effective_work_dir cwd declared) = true.
Proof.
  intros H. unfold effective_work_dir. apply isAbs_Clean. case_decide; [by rewrite H|].
  destruct (isAbs declared) eqn:E; [done|by apply isAbs_Join].
Qed.

Section Established.
Context (Substitute : string -> lookup_fn -> result string string)
  (ParseDotenv : string -> lookup_fn -> result string (gmap string string))
  (Stat : string -> statResult) (Open : string -> result string string) (workdirHash : string -> string)
  (SignalName : Z -> string) (SignalNum : string -> Z) (ParseDuration : string -> option Duration)
  (ParseBytes : string -> option Z)
  (labelOrder logOptOrder : string -> gmap string string -> list (string * string))
  (Hlabels : forall n m, labelOrder n m ≡ₚ map_to_list m)
  (Hlogopts : forall n m, logOptOrder n m ≡ₚ map_to_list m).

(** A normalized command of a project. *)
Record command_ok (wdHash project : string) (c : Command) : Prop := {
  co_name : validateName "command" (Name c) = Ok tt;
  co_generated : GeneratedName c = GenerateName wdHash project (Name c);
  co_scale : (1 <= Scale c)%Z;
  co_args : Args c <> [];
  co_deps : NoDup (deps c) /\ Name c ∉ deps c;
  co_after : forall a, a ∈ After c -> AfterSpec_Validate a = Ok tt;
  co_labels : forall k v, c_Labels c !! k = Some v -> hasPrefix LabelPrefix k = false;
  co_hooks : hooks_ok (Hooks c);
  co_policy : (c_RestartPolicy c = "" /\ MaxRetries c = 0%Z) \/ valid_policy (c_RestartPolicy c) (MaxRetries c);
  co_grace : (0 <= StopGracePeriod c)%Z;
  co_signal : StopSignal c = "" \/ is_ok (ParseSignal SignalName SignalNum (StopSignal c)) = true;
  co_scrollback : (0 <= ScrollbackBytes c)%Z;
  co_driver : c_LogDriver c = "" \/ (IsLogDriver (c_LogDriver c) = true /\
    forall k v, LogOpts c !! k = Some v -> is_ok (ValidateOpt ParseBytes (c_LogDriver c) k v) = true);
}.

Lemma validateUserLabels_ok n m :
  validateUserLabels (labelOrder n m) = Ok tt -> forall k v, m !! k = Some v -> hasPrefix LabelPrefix k = false.
Proof.
  unfold validateUserLabels. intros H k v Hk. destruct (hasPrefix LabelPrefix k) eqn:E; [|done].
  assert (Hin : (k, v) ∈ filter (fun kv => hasPrefix LabelPrefix kv.1 = true) (labelOrder n m)).
  { apply list_elem_of_filter. split; [done|]. rewrite Hlabels. by apply elem_of_map_to_list. }
  destruct (filter _ _) as [|[k' v'] l]; [by apply elem_of_nil in Hin|done].
Qed.

Lemma normalizeLifecycleHooks_ok raw lookup hooks :
  normalizeLifecycleHooks Substitute raw lookup = Ok hooks -> hooks_ok hooks.
Proof.
  unfold normalizeLifecycleHooks. destruct raw as [|rh raw].
  - intros [= <-]. apply validateLifecycleHooks_ok. done.
  - intros H. inv_bind H as hs Hhs. inv_bind H as u Hu. injection H as <-.
    apply validateLifecycleHooks_ok. by rewrite Hu.
Qed.

Lemma validateRuntimeFields_ok n c :
  is_ok (validateRuntimeFields SignalName SignalNum ParseBytes c (logOptOrder n (LogOpts c))) = true ->
  Args c <> [] /\ (c_RestartPolicy c = "" \/ IsRestartPolicy (c_RestartPolicy c) = true) /\
  (StopSignal c = "" \/ is_ok (ParseSignal SignalName SignalNum (StopSignal c)) = true) /\
  (0 <= ScrollbackBytes c)%Z /\
  (c_LogDriver c = "" \/ (IsLogDriver (c_LogDriver c) = true /\
    forall k v, LogOpts c !! k = Some v -> is_ok (ValidateOpt ParseBytes (c_LogDriver c) k v) = true)).
Proof.
  unfold validateRuntimeFields. intros H. autorewrite with guards in H. autorewrite with reflect_guards in H.
  destruct H as (H1 & H2 & H3 & H4 & H5 & H6). split_and!.
  - intros E. by rewrite E in H1.
  - destruct H2; auto.
  - destruct (decide (StopSignal c = "")); [by left|right]. autorewrite with guards in H3. by rewrite andb_true_r in H3.
  - lia.
  - destruct (decide (c_LogDriver c = "")) as [|Hd]; [by left|right]. split; [by destruct H5|].
    autorewrite with guards in H6. autorewrite with reflect_guards in H6. intros k v Hk. specialize (H6 (k, v)).
    rewrite is_ok_lift_err in H6. apply H6. rewrite Hlogopts. by apply elem_of_map_to_list.
Qed.

Lemma normalize_command_ok workDir wdHash project baseEnv projectEnv name cmd c :
  normalize_command Substitute ParseDotenv Stat Open SignalName SignalNum ParseDuration ParseBytes labelOrder logOptOrder
    workDir wdHash project baseEnv projectEnv (name, cmd) = Ok c ->
  Name c = name /\ command_ok wdHash project c.
Proof.
  unfold normalize_command. rewrite lift_err_ok. intros H.
  inv_bind H as u1 Hname. inv_bind H as dirVal Hdir. inv_bind H as commandEnv Henv. inv_bind H as args Hargs.
  inv_bind H as hooks Hhooks. inv_bind H as u2 Hlab. inv_bind H as opts Hopts. inv_bind H as after Hafter.
  inv_bind H as scale Hscale. inv_bind H as pol Hpol. destruct pol as [policy retries].
  inv_bind H as grace Hgrace. inv_bind H as stop Hstop. inv_bind H as u3 Hrun. injection H as <-.
  split; [done|]. destruct u1, u2.
  assert (Hr : is_ok (A := unit) (E := runtimeErr) (Ok u3) = true) by done. rewrite <- Hrun in Hr.
  apply validateRuntimeFields_ok in Hr as (R1 & R2 & R3 & R4 & R5).
  pose proof (normalizeAfter_items _ _ _ Hafter) as [Hkeys Hall].
  assert (Hself : rc_After cmd !! name = None).
  { apply (normalizeAfter_ok name (rc_After cmd)). by rewrite Hafter. }
  constructor; try done; simpl.
  - destruct (rc_Scale cmd) as [s|]; [|by injection Hscale as <-]. destruct (decide (s < 1)%Z); [discriminate Hscale|]. injection Hscale as <-. lia.
  - unfold deps; simpl. change (map after_Name after) with (after_Name <$> after). rewrite Hkeys. split; [apply NoDup_sorted_keys|].
    rewrite elem_of_sorted_keys, Hself. by intros [].
  - intros a Ha. by apply Hall.
  - exact (validateUserLabels_ok _ _ Hlab).
  - by apply normalizeLifecycleHooks_ok in Hhooks.
  - destruct (decide (rc_RestartPolicy cmd = "")); [injection Hpol as <- <-; by left|right].
    apply lift_err_ok in Hpol. apply ParseRestartPolicy_exact. by eexists.
  - destruct (decide (rc_StopGracePeriod cmd = "")); [by injection Hgrace as <-|].
    apply lift_err_ok, ParseTimeout_positive in Hgrace. lia.
Qed.

(** Every leaf of a dashboard shows a command, and a replica the command has. *)
Definition mux_refs_ok (cmds : list Command) (m : Spec) : Prop :=
  forall l p, l ∈ spec_Layouts m -> p ∈ mp_leaves (ml_Root l) ->
    exists c, c ∈ cmds /\ Name c = mp_Command p /\ (mp_Scale p <= 0 \/ mp_Scale p <= Scale c)%Z.
End Established.

Lemma validateMuxPane_ok layoutName cmds p :
  is_ok (validateMuxPane layoutName p cmds) = true <->
  forall q, q ∈ mp_leaves p -> exists c, cmds !! mp_Command q = Some c /\ (mp_Scale q <= 0 \/ mp_Scale q <= Scale c)%Z.
Proof.
  induction p as [d sp ps c s m o f IH] using MuxPane_ind'. cbn [validateMuxPane mp_leaves].
  destruct (mp_IsLeaf _) eqn:El.
  - setoid_rewrite list_elem_of_singleton. simpl. destruct (cmds !! c) as [cmd|] eqn:E.
    + case_decide as Hs; simpl.
      * split; [done|]. intros H. destruct (H _ eq_refl) as (c' & Hc & Hle). simpl in *. rewrite E in Hc. injection Hc as <-. lia.
      * split; [|done]. intros _ q ->. simpl. exists cmd. split; [done|]. lia.
    + split; [done|]. intros H. destruct (H _ eq_refl) as (c' & Hc & _). simpl in Hc. congruence.
  - clear El. induction IH as [|p ps Hp _ IHps]; simpl.
    + split; [|done]. by intros _ q ?%elem_of_nil.
    + rewrite is_ok_bind_const, andb_true_iff, Hp, IHps. setoid_rewrite elem_of_app. naive_solver.
Qed.

Lemma validateMux_ok m cmds :
  is_ok (validateMux m cmds) = true <->
  forall l q, l ∈ spec_Layouts m -> q ∈ mp_leaves (ml_Root l) ->
    exists c, cmds !! mp_Command q = Some c /\ (mp_Scale q <= 0 \/ mp_Scale q <= Scale c)%Z.
Proof.
  unfold validateMux. induction (spec_Layouts m) as [|l ls IH]; cbn [validate_mux_layouts].
  - split; [|done]. by intros _ l q ?%elem_of_nil.
  - rewrite is_ok_bind_const, andb_true_iff, validateMuxPane_ok, IH. setoid_rewrite elem_of_cons. naive_solver.
Qed.

Lemma named_lookup cmds (m0 : gmap string Command) n c :
  foldl (fun m c => <[Name c := c]> m) m0 cmds !! n = Some c -> m0 !! n = Some c \/ (c ∈ cmds /\ Name c = n).
Proof.
  revert m0. induction cmds as [|d cmds IH]; intros m0; simpl; [by left|]. intros [H|[Hc Hn]]%IH.
  - apply lookup_insert_Some in H as [[<- <-]|[_ H]]; [right; split; [left|done]|by left].
  - right. split; [by right|done].
Qed.

Section Loading.
Context (Substitute : string -> lookup_fn -> result string string)
  (ParseDotenv : string -> lookup_fn -> result string (gmap string string))
  (Stat : string -> statResult) (Open : string -> result string string) (workdirHash : string -> string)
  (SignalName : Z -> string) (SignalNum : string -> Z) (ParseDuration : string -> option Duration)
  (ParseBytes : string -> option Z)
  (labelOrder logOptOrder : string -> gmap string string -> list (string * string)).

(** C14: what a loaded compose file guarantees. A spec [Normalize] returns has exactly
    the commands of the file, sorted by name; the project and every command have a valid
    name; the dependency graph is known and acyclic; every command has a command line,
    a scale of at least one, valid dependencies without itself or repetitions, valid
    hooks, no label under the reserved prefix, a restart policy with a number of retries
    that can be stored together or none, a stop signal that is known or none, a stop grace
    period and a scrollback that are not negative, and a log driver that is known with
    options that it accepts, or none;
    every dashboard leaf names a command and a replica it has; and the work directory
    is absolute. So the assumptions of the theorems on graphs, plans and walks hold for
    every loaded file. *)
Theorem Normalize_establishes environ getwd file raw opts spec
    (Hlabels : forall n m, labelOrder n m ≡ₚ map_to_list m)
    (Hlogopts : forall n m, logOptOrder n m ≡ₚ map_to_list m)
    (Hn : Normalize Substitute ParseDotenv Stat Open workdirHash SignalName SignalNum ParseDuration ParseBytes
            labelOrder logOptOrder environ getwd file raw opts = Ok spec) :
  command_names (Commands spec) = sorted_keys (raw_Commands raw) /\
  validateName "project" (Project spec) = Ok tt /\ spec_named spec /\ ValidateDAG (Commands spec) = Ok tt /\
  (forall c, c ∈ Commands spec ->
     command_ok SignalName SignalNum ParseBytes (workdirHash (WorkDir spec)) (Project spec) c) /\
  (forall m, spec_Mux spec = Some m -> mux_refs_ok (Commands spec) m) /\
  (forall cwd, getwd = Ok cwd -> isAbs cwd = true -> isAbs (WorkDir spec) = true).
Proof.
  unfold Normalize in Hn. inv_bind Hn as cwd Hcwd. inv_bind Hn as declared Hdecl.
  destruct (decide (_ = "")) as [|Hp] in Hn; [discriminate Hn|].
  inv_bind Hn as u1 Hproj. inv_bind Hn as projectEnv Henv. inv_bind Hn as cmds Hcmds. inv_bind Hn as u2 Hdag.
  inv_bind Hn as u3 Hmux. injection Hn as <-. destruct u1, u2. simpl.
  apply result_mapM_ok in Hcmds.
  assert (Hall : Forall2 (fun kv c => Name c = kv.1 /\ command_ok SignalName SignalNum ParseBytes
    (workdirHash (effective_work_dir cwd declared)) (if decide (no_ProjectName opts = "") then raw_Name raw else no_ProjectName opts) c)
    (sorted_items (raw_Commands raw)) cmds).
  { eapply Forall2_impl; [exact Hcmds|]. intros [n rc] c Hc. by apply normalize_command_ok in Hc. }
  assert (Hnames : command_names cmds = sorted_keys (raw_Commands raw)).
  { rewrite <- sorted_items_keys. clear -Hall. induction Hall as [|[n rc] c l l' [Hc _] _ IH]; [done|]. unfold command_names in *.
    simpl in *. by rewrite IH, Hc. }
  assert (Hc : forall c, c ∈ cmds -> command_ok SignalName SignalNum ParseBytes
    (workdirHash (effective_work_dir cwd declared)) (if decide (no_ProjectName opts = "") then raw_Name raw else no_ProjectName opts) c).
  { intros c [i Hi]%list_elem_of_lookup. by destruct (Forall2_lookup_r _ _ _ _ _ Hall Hi) as (kv & _ & _ & ?). }
  split_and!; try done.
  - constructor; simpl; [rewrite Hnames; apply NoDup_sorted_keys|intros c Hcc; by apply Hc|intros c Hcc; by apply Hc].
  - intros m Hm l p Hl Hp'. rewrite Hm in Hmux. apply lift_err_ok in Hmux. destruct u3.
    apply ok_tt_iff in Hmux. rewrite validateMux_ok in Hmux. destruct (Hmux l p Hl Hp') as (c & Hlk & Hs).
    apply named_lookup in Hlk as [Hlk|[Hin Hn]]; [by rewrite lookup_empty in Hlk|]. by exists c.
  - intros cwd' -> Habs. injection Hcwd as ->. by apply effective_work_dir_abs.
Qed.
End Loading.

(** A small file: two commands, one of which waits for the other. *)
Definition demo_raw_command (args : list string) (after : gmap string AfterSpec) : RawCommand := {|
  rc_Dir := "app"; rc_Args := args; rc_Env := ["A=1"]; rc_EnvFile := []; rc_ImportHostEnv := None;
  rc_InjectEnv := None; rc_Labels := {["team" := "x"]}; rc_RestartPolicy := "on-failure:3"; rc_StopSignal := "";
  rc_StopGracePeriod := "10"; rc_Stop := None; rc_Tty := false; rc_ScrollbackBytes := 0; rc_LogDriver := "k8s-file";
  rc_LogOpts := {["path" := "log"]}; rc_After := after; rc_Scale := Some 2%Z; rc_Hooks := [] |}.

Definition demo_raw : RawComposeSpec := {|
  raw_Name := "p"; raw_WorkDir := ""; raw_Env := []; raw_EnvFile := [];
  raw_Commands := <["db" := demo_raw_command ["postgres"] ∅]>
    {["web" := demo_raw_command ["serve"] {["db" := MkAfter "" ConditionRunning]}]};
  raw_Mux := None |}.

Definition demo_normalize : result normErr ComposeSpec :=
  Normalize (fun s _ => Ok s) (fun _ _ => Ok ∅) (fun _ => StatOk) (fun _ => Ok "") (fun _ => "0a1b2c3d4e5f")
    (fun _ => "SIGTERM") (fun _ => 15%Z) (fun _ => None) (fun _ => Some 1%Z)
    (fun _ m => map_to_list m) (fun _ m => map_to_list m)
    ["HOME=/root"] (Ok "/srv") "compose.yaml" demo_raw {| no_File := ""; no_ProjectName := ""; no_WorkDir := "" |}.

Lemma Normalize_establishes_witness :
  exists spec, demo_normalize = Ok spec /\ c_Dir <$> Commands spec = ["/srv/app"; "/srv/app"] /\
    spec_named spec /\ ValidateDAG (Commands spec) = Ok tt.
Proof.
  destruct demo_normalize as [spec|] eqn:E; [|vm_compute in E; discriminate E].
  exists spec. split; [reflexivity|]. split; [vm_compute in E; injection E as <-; reflexivity|].
  destruct (Normalize_establishes (fun s _ => Ok s) (fun _ _ => Ok ∅) (fun _ => StatOk) (fun _ => Ok "") (fun _ => "0a1b2c3d4e5f")
    (fun _ => "SIGTERM") (fun _ => 15%Z) (fun _ => None) (fun _ => Some 1%Z)
    (fun _ m => map_to_list m) (fun _ m => map_to_list m)
    ["HOME=/root"] (Ok "/srv") "compose.yaml" demo_raw {| no_File := ""; no_ProjectName := ""; no_WorkDir := "" |} spec
    (fun _ _ => Permutation_refl _) (fun _ _ => Permutation_refl _) E) as (_ & _ & H1 & H2 & _).
  split; [exact H1|exact H2].
Defined.

(** ** Layers of environment *)

Section Layers.
Context (Substitute : string -> lookup_fn -> result string string)
  (ParseDotenv : string -> lookup_fn -> result string (gmap string string))
  (Stat : string -> statResult) (Open : string -> result string string).

(** What one [env:] entry sets: its interpolated value, or for a bare key the value it
    inherits, if there is one. *)
Definition entry_sets (merged : gmap string string) (entry : string) : option (string * string) :=
  let '(k, v, hasVal) := cut "=" entry in
  if hasVal then match Substitute v (buildLookup merged) with Ok x => Some (k, x) | Err _ => None end
  else pair k <$> merged !! k.

Lemma env_entries_spec merged env m j m' :
  env_entries Substitute merged m j env = Ok m' ->
  m' = list_to_map (rev (omap (entry_sets merged) env)) ∪ m.
Proof.
  revert m j. induction env as [|e env IH]; intros m j; cbn [env_entries omap list_omap rev].
  { intros [= <-]. simpl. by rewrite map_empty_union. }
  intros H. inv_bind H as m1 Hm1. rewrite (IH _ _ H). clear IH H.
  assert (Hstep : m1 = match entry_sets merged e with Some (k, x) => <[k := x]> m | None => m end).
  { unfold env_entry in Hm1. unfold entry_sets. destruct (cut "=" e) as [[k v] hasVal]. destruct hasVal.
    - inv_bind Hm1 as x Hx. injection Hm1 as <-. by rewrite Hx.
    - destruct (merged !! k) as [x|]; by injection Hm1 as <-. }
  subst m1. destruct (entry_sets merged e) as [[k x]|]; [|done]. simpl.
  rewrite list_to_map_app. simpl. rewrite <- (map_union_assoc _ (<[k:=x]> ∅)). f_equal.
  by rewrite insert_union_singleton_l, insert_empty.
Qed.

(** Every [env_file] keeps what is accumulated, except for the keys it sets. *)
Lemma env_files_spec workDir osEnv efs accum i accum' :
  env_files Substitute ParseDotenv Stat Open workDir osEnv accum i efs = Ok accum' ->
  dom accum ⊆ dom accum' /\
  forall k v, accum' !! k = Some v -> accum !! k = Some v \/
    exists ef file lookup vars, ef ∈ efs /\ ParseDotenv file lookup = Ok vars /\ vars !! k = Some v.
Proof.
  revert accum i. induction efs as [|ef efs IH]; intros accum i; cbn [env_files].
  { intros [= <-]. split; [done|by left]. }
  intros H. inv_bind H as a1 Ha1. apply IH in H as [Hd Hv]. unfold env_file_step in Ha1.
  inv_bind Ha1 as path Hpath.
  assert (Hcase : a1 = accum \/ exists f lookup vars, ParseDotenv f lookup = Ok vars /\ a1 = vars ∪ accum).
  { destruct (if default true (Required ef) then _ else _) in Ha1; [|by injection Ha1 as ->; left|done].
    inv_bind Ha1 as f Hf. inv_bind Ha1 as vars Hvars. injection Ha1 as <-. right. eauto. }
  destruct Hcase as [->|(f & lookup & vars & Hparse & ->)].
  - split; [done|]. intros k v [?|(ef' & f & l & vars & ? & ? & ?)]%Hv; [by left|]. right. exists ef', f, l, vars.
    split; [by right|done].
  - rewrite dom_union_L in Hd. split; [set_solver|]. intros k v [Hk|(ef' & f' & l & vars' & ? & ? & ?)]%Hv.
    + apply lookup_union_Some_raw in Hk as [Hk|[_ Hk]]; [|by left]. right. exists ef, f, lookup, vars. split; [left|done].
    + right. exists ef', f', l, vars'. split; [by right|done].
Qed.

(** the layering of a command's environment. What [buildEnvLayer] returns is, key by
    key, the value of the last [env:] entry that sets it, else what the files and the
    layer below gave: the seed is kept, a file overrides it, an entry overrides both, a
    bare key takes the inherited or the operating system's value, and nothing else of
    the operating system's environment gets in, so the hash of a command does not
    depend on it. *)
Theorem buildEnvLayer_layers workDir envFiles env osEnv seed layer
    (Hb : buildEnvLayer Substitute ParseDotenv Stat Open workDir envFiles env osEnv seed = Ok layer) :
  exists accum : gmap string string,
    dom seed ⊆ dom accum /\
    (forall k v, accum !! k = Some v -> seed !! k = Some v \/
       exists ef file lookup vars, ef ∈ envFiles /\ ParseDotenv file lookup = Ok vars /\ vars !! k = Some v) /\
    layer = list_to_map (rev (omap (entry_sets (accum ∪ osEnv)) env)) ∪ accum.
Proof.
  unfold buildEnvLayer in Hb. inv_bind Hb as accum Ha. exists accum.
  apply env_files_spec in Ha as [Hd Hv]. split_and!; [done..|]. by apply env_entries_spec in Hb.
Qed.
End Layers.

Lemma buildEnvLayer_layers_witness :
  let osEnv : gmap string string := {["HOME" := "/root"]} in
  exists accum : gmap string string,
    <["A" := "2"]> (<["HOME" := "/root"]> {["B" := "b"]})
    = list_to_map (rev (omap (entry_sets (fun s _ => Ok s) (accum ∪ osEnv)) ["A=1"; "HOME"; "A=2"; "NONE"])) ∪ accum.
Proof.
  intros osEnv.
  destruct (buildEnvLayer_layers (fun s _ => Ok s) (fun _ _ => Ok ∅) (fun _ => StatOk) (fun _ => Ok "") "/srv" []
    ["A=1"; "HOME"; "A=2"; "NONE"] osEnv {["B" := "b"]} (<["A" := "2"]> (<["HOME" := "/root"]> {["B" := "b"]})))
    as (accum & _ & _ & E); [vm_compute; reflexivity|]. exists accum. exact E.
Defined.
