(* ===== verification/Reconcile.v ===== *)
(** * The reconcile graph

    [cmdman/compose/reconcile.go], all but the walk itself: the snapshots a
    reconciliation starts from, the graph built from a spec, and the operations
    the workers run on it under the graph's lock ([claim], [complete], [seed],
    [done], [finalize]) with the readiness rules they rest on.

    A [map[vertexID]*graphVertex] is a [gmap]: the code never stores a nil
    vertex, so a missing key is the nil pointer its guards test for.  Where the
    code ranges over a map and the order could matter, the order is an argument:
    any permutation of the map's entries is an order Go may choose.  The texts of
    wait reasons and errors are the constructors of [reason]. *)

From S2P Require Import Prelude GoStr Model ComposeSpec Graph.

(** ** Snapshots *)

(* src/cmdman/compose/reconcile.go:31-46 instanceSnapshot *)
Record instanceSnapshot := {
  inst_ID : string;
  GenName : string;
  ScaleIndex : Z;
  inst_State : EventType;
  inst_ExitCode : option Z;
  Entry : option CommandEntry;
}.

(* src/cmdman/compose/reconcile.go:15-29 commandSnapshot *)
Record commandSnapshot := {
  Instances : list instanceSnapshot;
  snap_State : EventType;
  snap_ExitCode : option Z;
}.

(** One round of [aggregateInstances]: the three flags and the exit code. *)
(* src/cmdman/compose/reconcile.go:87-101 aggregateInstances *)
Definition agg_step (acc : bool * bool * bool * option Z) (inst : instanceSnapshot)
  : bool * bool * bool * option Z :=
  let '(anyFailed, allExited, allActive, exit) := acc in
  let st := inst_State inst in
  if decide (st = EventTypeFailed) then (true, false, false, exit)
  else if decide (st = EventTypeExited) then
    (anyFailed, allExited, false,
     match inst_ExitCode inst with
     | Some c => match exit with
                 | None => Some c
                 | Some x => if bool_decide (x = 0%Z) && negb (bool_decide (c = 0%Z))
                             then Some c else exit
                 end
     | None => exit
     end)
  else if decide (st = EventTypeRunning \/ st = EventTypeStarting)
  then (anyFailed, false, allActive, exit)
  else (anyFailed, false, false, exit).

(* src/cmdman/compose/reconcile.go:73-112 aggregateInstances *)
Definition aggregateInstances (insts : list instanceSnapshot) : EventType * option Z :=
  match insts with
  | [] => ("", None)
  | _ =>
    let '(anyFailed, allExited, allActive, exit) := foldl agg_step (false, true, true, None) insts in
    if (anyFailed : bool) then (EventTypeFailed, exit)
    else if (allExited : bool) then (EventTypeExited, exit)
    else if (allActive : bool) then (EventTypeRunning, None)
    else (EventTypeStarting, None)
  end.

(* src/cmdman/compose/reconcile.go:48-59 commandSnapshot.only *)
Definition only (s : commandSnapshot) (scaleIndices : list Z) : commandSnapshot :=
  let insts := filter (fun i => ScaleIndex i ∈ scaleIndices) (Instances s) in
  let '(state, exit) := aggregateInstances insts in
  {| Instances := insts; snap_State := state; snap_ExitCode := exit |}.

(* src/cmdman/compose/reconcile.go:61-71 commandSnapshot.activeInstances *)
Definition activeInstances (s : commandSnapshot) : list instanceSnapshot :=
  filter (fun i => inst_State i = EventTypeRunning \/ inst_State i = EventTypeStarting) (Instances s).

Definition zeroSnapshot : commandSnapshot :=
  {| Instances := []; snap_State := ""; snap_ExitCode := None |}.

(* src/cmdman/compose/reconcile.go:843-846 isTerminalState *)
Definition isTerminalState (s : EventType) : bool :=
  bool_decide (s = EventTypeExited) || bool_decide (s = EventTypeFailed).

(** ** The graph *)

(* src/cmdman/compose/reconcile.go:191-194 vertexID *)
Definition vertexID := string.
(* src/cmdman/compose/reconcile.go:196-199 beginVertex *)
Definition beginVertex : vertexID := String "000" "begin".
(* src/cmdman/compose/reconcile.go:196-199 endVertex *)
Definition endVertex : vertexID := String "000" "end".

(* src/cmdman/compose/reconcile.go:201-210 walkDirection *)
Inductive walkDirection := walkFromBegin | walkFromEnd.

(* src/cmdman/compose/reconcile.go:212-220 graphEdge *)
Record graphEdge := MkEdge { From : vertexID; To : vertexID; edge_Condition : AfterCondition }.

(** Why a vertex waits or failed: the messages the code formats, and the errors
    actions return. *)
(* src/cmdman/compose/reconcile.go:575-680 readinessLocked *)
Inductive reason :=
| WaitingToStop (child : vertexID)
| DependencyMissing
| DependencyBlocked (dep : vertexID)
| WaitingFor (dep : vertexID) (cond : AfterCondition)
| DependencyFailed (dep : vertexID) (e : reason)
| WaitingToComplete (dep : vertexID)
| WaitingToSucceed (dep : vertexID)
| NotSuccessful (dep : vertexID) (state : EventType) (exit : option Z)
| OutsideNotRunning (dep : vertexID)
| OutsideNotCompleted (dep : vertexID)
| UnsatisfiedConditions
| NotStarted (cmd genName : string) (e : reason)
| StartFailed (cmd genName : string) (e : reason)
| StopFailed (disp id : string) (e : reason)
| ActionError (msg : string).

(* src/cmdman/compose/reconcile.go:222-263 graphVertex *)
Record graphVertex := MkVertex {
  v_ID : vertexID;
  v_Command : option Command;
  Snapshot : commandSnapshot;
  Parents : gmap vertexID graphEdge;
  Children : gmap vertexID graphEdge;
  InClosure : bool;
  Replicas : option (list Z);
  Queued : bool;
  InProgress : bool;
  Consumed : bool;
  Blocked : bool;
  WaitReason : option reason;
  State : EventType;
  v_ExitCode : option Z;
  Err : option reason;
  ForceKilled : bool;
  Order : nat;
}.

(* src/cmdman/compose/reconcile.go:284-292 reconcileGraph *)
Record reconcileGraph := MkGraph { Vertices : gmap vertexID graphVertex; seq_ : nat }.

(* src/cmdman/compose/reconcile.go:301-309 actionResult *)
Record actionResult := {
  res_State : EventType;
  res_ExitCode : option Z;
  res_Err : option reason;
  res_ForceKilled : bool;
}.

(** Assignments to the scheduling fields and to the result fields of a vertex. *)
Definition v_sched (v : graphVertex) (queued inProgress consumed blocked : bool)
    (wait : option reason) : graphVertex :=
  MkVertex (v_ID v) (v_Command v) (Snapshot v) (Parents v) (Children v) (InClosure v) (Replicas v)
    queued inProgress consumed blocked wait (State v) (v_ExitCode v) (Err v) (ForceKilled v) (Order v).

Definition v_result (v : graphVertex) (st : EventType) (exit : option Z) (err : option reason)
    (killed : bool) (order : nat) : graphVertex :=
  MkVertex (v_ID v) (v_Command v) (Snapshot v) (Parents v) (Children v) (InClosure v) (Replicas v)
    (Queued v) (InProgress v) (Consumed v) (Blocked v) (WaitReason v) st exit err killed order.

Definition v_edges (v : graphVertex) (parents children : gmap vertexID graphEdge) : graphVertex :=
  MkVertex (v_ID v) (v_Command v) (Snapshot v) parents children (InClosure v) (Replicas v)
    (Queued v) (InProgress v) (Consumed v) (Blocked v) (WaitReason v) (State v) (v_ExitCode v)
    (Err v) (ForceKilled v) (Order v).

Definition set_vertex (g : reconcileGraph) (id : vertexID) (v : graphVertex) : reconcileGraph :=
  MkGraph (<[id := v]> (Vertices g)) (seq_ g).

(** A vertex as the graph is built: nothing scheduled, nothing run. *)
(* src/cmdman/compose/reconcile.go:332-341 buildReconcileGraph *)
Definition newVertex (id : vertexID) (cmd : option Command) (snap : commandSnapshot)
    (inClosure : bool) (replicas : option (list Z)) : graphVertex :=
  MkVertex id cmd snap ∅ ∅ inClosure replicas false false false false None
    (snap_State snap) (snap_ExitCode snap) None false 0.

(* src/cmdman/compose/reconcile.go:274-282 allReplicaIndices *)
Definition allReplicaIndices (cmd : Command) : list Z :=
  map (fun i => (Z.of_nat i + 1)%Z) (seq 0 (Z.to_nat (Z.max (Scale cmd) 1))).

(* src/cmdman/compose/reconcile.go:265-272 graphVertex.replicaIndices *)
Definition replicaIndices (v : graphVertex) (cmd : Command) : list Z :=
  match Replicas v with Some r => r | None => allReplicaIndices cmd end.

(** ** Building the graph *)

(* src/cmdman/compose/target.go:32-35 targetSet *)
Definition targetSet := gmap string (option (list Z)).

(* src/cmdman/compose/reconcile.go:345-368 buildReconcileGraph *)
Definition command_vertex (snaps : gmap string commandSnapshot) (closure : gset string)
    (targets : targetSet) (c : Command) : graphVertex :=
  let snap := default zeroSnapshot (snaps !! Name c) in
  let inc := bool_decide (Name c ∈ closure) in
  let replicas := if inc then mjoin (targets !! Name c) else None in
  let snap := match replicas with Some r => only snap r | None => snap end in
  newVertex (Name c) (Some c) snap inc replicas.

(* src/cmdman/compose/reconcile.go:387-389 buildReconcileGraph *)
Definition add_child (m : gmap vertexID graphVertex) (p c : vertexID) (e : graphEdge) :=
  alter (fun v => v_edges v (Parents v) (<[c := e]> (Children v))) p m.
(* src/cmdman/compose/reconcile.go:390-390 buildReconcileGraph *)
Definition add_parent (m : gmap vertexID graphVertex) (c p : vertexID) (e : graphEdge) :=
  alter (fun v => v_edges v (<[p := e]> (Parents v)) (Children v)) c m.

(** An edge from [p] to [c]: recorded on both ends.  [alter] leaves a missing
    parent alone, as the guard [p != nil] does. *)
(* src/cmdman/compose/reconcile.go:384-391 buildReconcileGraph *)
Definition add_edge (m : gmap vertexID graphVertex) (e : graphEdge) : gmap vertexID graphVertex :=
  add_parent (add_child m (From e) (To e) e) (To e) (From e) e.

(* src/cmdman/compose/reconcile.go:370-379 buildReconcileGraph *)
Definition virtual_edges (c : Command) : list graphEdge :=
  [MkEdge beginVertex (Name c) ""; MkEdge (Name c) endVertex ""].

(* src/cmdman/compose/reconcile.go:381-392 buildReconcileGraph *)
Definition after_edges (c : Command) : list graphEdge :=
  map (fun a => MkEdge (after_Name a) (Name c) (Condition a)) (After c).

(* src/cmdman/compose/reconcile.go:315-395 buildReconcileGraph *)
Definition buildReconcileGraph (spec : ComposeSpec) (snaps : gmap string commandSnapshot)
    (closure : gset string) (targets : targetSet) : reconcileGraph :=
  let m := <[endVertex := newVertex endVertex None zeroSnapshot false None]>
             {[beginVertex := newVertex beginVertex None zeroSnapshot false None]} in
  let m := foldl (fun m c => <[Name c := command_vertex snaps closure targets c]> m) m (Commands spec) in
  let m := foldl add_edge m (flat_map virtual_edges (Commands spec)) in
  let m := foldl add_edge m (flat_map after_edges (Commands spec)) in
  MkGraph m 0.

(** A command vertex of the operation's target set: what the scheduling loops
    do not skip. *)
Definition active (v : graphVertex) : bool := bool_decide (is_Some (v_Command v)) && InClosure v.

(* src/cmdman/compose/reconcile.go:397-406 commandCount *)
Definition commandCount (g : reconcileGraph) : nat :=
  size (filter (fun kv => is_Some (v_Command kv.2)) (Vertices g)).

(** ** Scheduling *)

(* src/cmdman/compose/reconcile.go:408-416 stepStatus *)
Inductive stepStatus := stepReady | stepPending | stepBlocked | stepSkip.

(* src/cmdman/compose/reconcile.go:418-425 edgeStatus *)
Inductive edgeStatus := edgeSatisfied | edgePending | edgeBlocked.

#[export] Instance edgeStatus_eq_dec : EqDecision edgeStatus.
Proof. solve_decision. Defined.
#[export] Instance stepStatus_eq_dec : EqDecision stepStatus.
Proof. solve_decision. Defined.
#[export] Instance walkDirection_eq_dec : EqDecision walkDirection.
Proof. solve_decision. Defined.

(** The edges that order a walk: what has to be consumed before a vertex, the
    virtual vertex among them that never counts, and what a finished vertex
    releases. *)
(* src/cmdman/compose/reconcile.go:733-737 hasInClosureRealNeighborLocked *)
Definition preds (dir : walkDirection) (v : graphVertex) : gmap vertexID graphEdge :=
  match dir with walkFromBegin => Parents v | walkFromEnd => Children v end.
(* src/cmdman/compose/reconcile.go:733-737 hasInClosureRealNeighborLocked *)
Definition skip_pred (dir : walkDirection) : vertexID :=
  match dir with walkFromBegin => beginVertex | walkFromEnd => endVertex end.
(* src/cmdman/compose/reconcile.go:552-556 complete *)
Definition succs (dir : walkDirection) (v : graphVertex) : gmap vertexID graphEdge :=
  match dir with walkFromBegin => Children v | walkFromEnd => Parents v end.
(* src/cmdman/compose/reconcile.go:552-556 complete *)
Definition skip_succ (dir : walkDirection) : vertexID :=
  match dir with walkFromBegin => endVertex | walkFromEnd => beginVertex end.

(** The state and exit code that satisfy [completed_successfully]. *)
(* src/cmdman/compose/reconcile.go:640-643 evalDownEdgeLocked *)
Definition succeeded (st : EventType) (exit : option Z) : bool :=
  bool_decide (st = EventTypeExited) && bool_decide (exit = Some 0%Z).

(* src/cmdman/compose/reconcile.go:607-680 evalDownEdgeLocked *)
Definition evalDownEdgeLocked (p : option graphVertex) (cond0 : AfterCondition)
  : edgeStatus * option reason :=
  let cond := if decide (cond0 = "") then ConditionCompleted else cond0 in
  match p with
  | None => (edgeBlocked, Some DependencyMissing)
  | Some p =>
    if InClosure p then
      if Blocked p then (edgeBlocked, Some (DependencyBlocked (v_ID p)))
      else if negb (Consumed p) then (edgePending, Some (WaitingFor (v_ID p) cond))
      else match Err p with
      | Some e => (edgeBlocked, Some (DependencyFailed (v_ID p) e))
      | None =>
        if decide (cond = ConditionRunning) then (edgeSatisfied, None)
        else if decide (cond = ConditionCompleted) then
          if isTerminalState (State p) then (edgeSatisfied, None)
          else (edgePending, Some (WaitingToComplete (v_ID p)))
        else
          if succeeded (State p) (v_ExitCode p) then (edgeSatisfied, None)
          else if isTerminalState (State p)
          then (edgeBlocked, Some (NotSuccessful (v_ID p) (State p) (v_ExitCode p)))
          else (edgePending, Some (WaitingToSucceed (v_ID p)))
      end
    else
      let st := snap_State (Snapshot p) in
      let exit := snap_ExitCode (Snapshot p) in
      if decide (cond = ConditionRunning) then
        if decide (st = EventTypeRunning \/ st = EventTypeStarting) then (edgeSatisfied, None)
        else (edgeBlocked, Some (OutsideNotRunning (v_ID p)))
      else if decide (cond = ConditionCompleted) then
        if isTerminalState st then (edgeSatisfied, None)
        else (edgeBlocked, Some (OutsideNotCompleted (v_ID p)))
      else
        if succeeded st exit then (edgeSatisfied, None)
        else (edgeBlocked, Some (NotSuccessful (v_ID p) st exit))
  end.

(** The up walk's loop over the children. *)
(* src/cmdman/compose/reconcile.go:576-586 readinessLocked *)
Fixpoint ready_up (g : reconcileGraph) (ord : list (vertexID * graphEdge))
  : edgeStatus * option reason :=
  match ord with
  | [] => (edgeSatisfied, None)
  | (cid, _) :: ord =>
    if decide (cid = endVertex) then ready_up g ord
    else match Vertices g !! cid with
         | Some c => if InClosure c && negb (Consumed c)
                     then (edgePending, Some (WaitingToStop cid)) else ready_up g ord
         | None => ready_up g ord
         end
  end.

(** The down walk's loop over the parents, with [worst] and [reason]. *)
(* src/cmdman/compose/reconcile.go:588-604 readinessLocked *)
Fixpoint ready_down (g : reconcileGraph) (worst : edgeStatus * option reason)
    (ord : list (vertexID * graphEdge)) : edgeStatus * option reason :=
  match ord with
  | [] => worst
  | (pid, edge) :: ord =>
    if decide (pid = beginVertex) then ready_down g worst ord
    else
      let '(st, r) := evalDownEdgeLocked (Vertices g !! pid) (edge_Condition edge) in
      match st with
      | edgeBlocked => (edgeBlocked, r)
      | edgePending => ready_down g (if decide (worst.1 = edgeSatisfied) then (edgePending, r) else worst) ord
      | edgeSatisfied => ready_down g worst ord
      end
  end.

(* src/cmdman/compose/reconcile.go:571-605 readinessLocked *)
Definition readinessLocked (g : reconcileGraph) (ord : list (vertexID * graphEdge))
    (dir : walkDirection) : edgeStatus * option reason :=
  match dir with
  | walkFromEnd => ready_up g ord
  | walkFromBegin => ready_down g (edgeSatisfied, None) ord
  end.

(* src/cmdman/compose/reconcile.go:501-534 claim *)
Definition claim (g : reconcileGraph) (ord : list (vertexID * graphEdge)) (id : vertexID)
    (dir : walkDirection) : reconcileGraph * stepStatus :=
  match Vertices g !! id with
  | None => (g, stepSkip)
  | Some v =>
    if negb (active v) || Consumed v || InProgress v then (g, stepSkip)
    else match readinessLocked g ord dir with
    | (edgeSatisfied, _) =>
      (set_vertex g id (v_sched v false true (Consumed v) (Blocked v) (WaitReason v)), stepReady)
    | (edgePending, r) =>
      (set_vertex g id (v_sched v false (InProgress v) (Consumed v) (Blocked v) r), stepPending)
    | (edgeBlocked, r) =>
      let v' := v_sched v false (InProgress v) true true r in
      let v' := v_result v' (State v') (v_ExitCode v')
                  (match Err v' with None => r | e => e end) (ForceKilled v') (Order v') in
      (set_vertex g id v', stepBlocked)
    end
  end.

(** Queueing one vertex of the frontier. *)
(* src/cmdman/compose/reconcile.go:557-567 complete *)
Definition release (skip : vertexID) (acc : reconcileGraph * list vertexID) (nid : vertexID)
  : reconcileGraph * list vertexID :=
  let '(g, next) := acc in
  if decide (nid = skip) then acc
  else match Vertices g !! nid with
       | None => acc
       | Some n =>
         if negb (InClosure n) || Consumed n || InProgress n || Queued n then acc
         else (set_vertex g nid (v_sched n true (InProgress n) (Consumed n) (Blocked n) (WaitReason n)),
               next ++ [nid])
       end.

(** Recording a result: [InProgress], [Consumed], [Order] and the result fields. *)
(* src/cmdman/compose/reconcile.go:543-550 complete *)
Definition record_result (g : reconcileGraph) (id : vertexID) (v : graphVertex) (res : actionResult)
  : reconcileGraph :=
  let v := v_sched v (Queued v) false true (Blocked v) (WaitReason v) in
  MkGraph
    (<[id := v_result v (res_State res) (res_ExitCode res) (res_Err res) (res_ForceKilled res)
               (S (seq_ g))]> (Vertices g))
    (S (seq_ g)).

(** The code panics on a vertex that does not exist; [complete] is only reached
    for one that [claim] found. *)
(* src/cmdman/compose/reconcile.go:536-569 complete *)
Definition complete (g : reconcileGraph) (ord : list vertexID) (id : vertexID) (res : actionResult)
    (dir : walkDirection) : reconcileGraph * list vertexID :=
  match Vertices g !! id with
  | None => (g, [])
  | Some v => foldl (release (skip_succ dir)) (record_result g id v res, []) ord
  end.

(* src/cmdman/compose/reconcile.go:731-747 hasInClosureRealNeighborLocked *)
Definition hasInClosureRealNeighborLocked (g : reconcileGraph) (v : graphVertex)
    (dir : walkDirection) : bool :=
  existsb (fun kv => negb (bool_decide (kv.1 = skip_pred dir)) &&
                     match Vertices g !! kv.1 with Some n => InClosure n | None => false end)
          (map_to_list (preds dir v)).

(* src/cmdman/compose/reconcile.go:717-723 seed *)
Definition is_seed (g : reconcileGraph) (dir : walkDirection) (v : graphVertex) : bool :=
  active v && negb (hasInClosureRealNeighborLocked g v dir).

(* src/cmdman/compose/reconcile.go:709-729 seed *)
Definition seed (g : reconcileGraph) (dir : walkDirection) : reconcileGraph * list vertexID :=
  (MkGraph
     ((fun v => if is_seed g dir v
                then v_sched v true (InProgress v) (Consumed v) (Blocked v) (WaitReason v)
                else v) <$> Vertices g) (seq_ g),
   sort_strings (filter (fun kv => is_seed g dir kv.2 = true) (map_to_list (Vertices g))).*1).

(* src/cmdman/compose/reconcile.go:749-764 done *)
Definition done (g : reconcileGraph) : bool :=
  forallb (fun kv => negb (active kv.2) || negb (Queued kv.2 || InProgress kv.2))
          (map_to_list (Vertices g)).

(* src/cmdman/compose/reconcile.go:772-786 finalize *)
Definition finalize_one (g : reconcileGraph) (id : vertexID) : reconcileGraph :=
  match Vertices g !! id with
  | None => g
  | Some v =>
    if negb (active v) || Consumed v then g
    else
      let err := match Err v with
                 | Some e => Some e
                 | None => Some (default UnsatisfiedConditions (WaitReason v))
                 end in
      let v' := v_sched v (Queued v) (InProgress v) true true (WaitReason v) in
      MkGraph (<[id := v_result v' (State v) (v_ExitCode v) err (ForceKilled v) (S (seq_ g))]>
                 (Vertices g)) (S (seq_ g))
  end.

(* src/cmdman/compose/reconcile.go:766-787 finalize *)
Definition finalize (g : reconcileGraph) (ord : list vertexID) : reconcileGraph :=
  foldl finalize_one g ord.

(* src/cmdman/compose/reconcile.go:682-707 anyDependentNeedsCompletion *)
Definition anyDependentNeedsCompletion (g : reconcileGraph) (id : vertexID) : bool :=
  match Vertices g !! id with
  | None => false
  | Some v =>
    existsb (fun kv =>
      negb (bool_decide (kv.1 = endVertex)) &&
      match Vertices g !! kv.1 with
      | Some c => InClosure c &&
                  (bool_decide (edge_Condition kv.2 = ConditionCompleted)
                   || bool_decide (edge_Condition kv.2 = ConditionCompletedSuccessfully))
      | None => false
      end) (map_to_list (Children v))
  end.

(** ** Outcomes *)

Record StartOutcome := { so_Command : string; so_Err : option reason }.
Record StopOutcome := { st_Command : string; st_Err : option reason; st_ForceKilled : bool }.

(* src/cmdman/compose/reconcile.go:789-805 startOutcomes *)
Definition startOutcomes (g : reconcileGraph) (spec : ComposeSpec) : list StartOutcome :=
  omap (fun c => match Vertices g !! Name c with
                 | Some v => if InClosure v then Some {| so_Command := Name c; so_Err := Err v |} else None
                 | None => None
                 end) (Commands spec).

(** [slices.SortStableFunc] by the order stamp, as an insertion sort. *)
Fixpoint insert_by_order (x : nat * StopOutcome) (l : list (nat * StopOutcome)) :=
  match l with
  | [] => [x]
  | y :: l' => if decide (x.1 <= y.1) then x :: l else y :: insert_by_order x l'
  end.
(* src/cmdman/compose/reconcile.go:834-834 stopOutcomes *)
Definition sort_by_order (l : list (nat * StopOutcome)) : list (nat * StopOutcome) :=
  foldr insert_by_order [] l.

(* src/cmdman/compose/reconcile.go:807-841 stopOutcomes *)
Definition stopOutcomes (g : reconcileGraph) (spec : ComposeSpec) : list StopOutcome :=
  (sort_by_order (omap (fun c =>
     match Vertices g !! Name c with
     | Some v => if InClosure v
                 then Some (Order v, {| st_Command := Name c; st_Err := Err v; st_ForceKilled := ForceKilled v |})
                 else None
     | None => None
     end) (Commands spec))).*2.
