(* ===== verification/Scheduling.v ===== *)
(** * What the graph operations do to a vertex

    Lemmas about the operations of [Reconcile] that the walk's theorems are
    built from: each operation described vertex by vertex, and readiness
    described independently of the order a map is ranged over. *)

From S2P Require Import Prelude GoStr Model ComposeSpec Reconcile.

(** The fields no operation of a walk assigns. *)
Definition statics (v : graphVertex) :=
  (v_ID v, v_Command v, Snapshot v, Parents v, Children v, InClosure v, Replicas v).

Definition same_static (g g' : reconcileGraph) : Prop :=
  forall id, statics <$> Vertices g' !! id = statics <$> Vertices g !! id.

Lemma statics_eq v w : statics v = statics w ->
  active v = active w /\ (forall dir, preds dir v = preds dir w) /\
  (forall dir, succs dir v = succs dir w) /\ InClosure v = InClosure w /\ Snapshot v = Snapshot w /\
  v_ID v = v_ID w /\ v_Command v = v_Command w.
Proof.
  intros [= H1 H2 H3 H4 H5 H6 H7]. unfold active, preds, succs. rewrite H2, H6, H4, H5.
  split_and!; try done; by intros [].
Qed.

Lemma same_static_refl g : same_static g g.
Proof. done. Qed.

Lemma same_static_trans g1 g2 g3 : same_static g1 g2 -> same_static g2 g3 -> same_static g1 g3.
Proof. intros H1 H2 id. by rewrite H2, H1. Qed.

Lemma same_static_lookup g g' id v' :
  same_static g g' -> Vertices g' !! id = Some v' ->
  exists v, Vertices g !! id = Some v /\ statics v = statics v'.
Proof.
  intros H E. specialize (H id). rewrite E in H. simpl in H. symmetry in H.
  apply fmap_Some in H as (v & ? & ?). eauto.
Qed.

Lemma same_static_lookup_r g g' id v :
  same_static g g' -> Vertices g !! id = Some v ->
  exists v', Vertices g' !! id = Some v' /\ statics v = statics v'.
Proof.
  intros H E. specialize (H id). rewrite E in H. simpl in H.
  apply fmap_Some in H as (v' & ? & ?). eauto.
Qed.

(** ** Readiness *)

(** One dependency edge lets the vertex go. *)
Definition edge_sat (g : reconcileGraph) (dir : walkDirection) (p : vertexID) (e : graphEdge) : bool :=
  match dir with
  | walkFromEnd => match Vertices g !! p with
                   | Some c => negb (InClosure c && negb (Consumed c))
                   | None => true
                   end
  | walkFromBegin => bool_decide ((evalDownEdgeLocked (Vertices g !! p) (edge_Condition e)).1 = edgeSatisfied)
  end.

Definition is_ready (g : reconcileGraph) (dir : walkDirection) (v : graphVertex) : Prop :=
  forall p e, preds dir v !! p = Some e -> p <> skip_pred dir -> edge_sat g dir p e = true.

Lemma ready_up_sat g ord :
  (ready_up g ord).1 = edgeSatisfied <->
  forall p e, (p, e) ∈ ord -> p <> endVertex -> edge_sat g walkFromEnd p e = true.
Proof.
  induction ord as [|[p e] ord IH]; simpl.
  { split; [|done]. by intros _ ? ? ?%elem_of_nil. }
  setoid_rewrite elem_of_cons. case_decide as Hp.
  - rewrite IH. naive_solver.
  - destruct (Vertices g !! p) as [c|] eqn:E.
    + destruct (InClosure c && negb (Consumed c)) eqn:Ec.
      * simpl. split; [done|]. intros H. specialize (H p e (or_introl eq_refl) Hp).
        rewrite E, Ec in H. done.
      * rewrite IH. split; [|intros H q e' Hq; apply (H q e'); by right].
        intros H q e' [[= -> ->]|Hq] Hne; [|by apply (H q e')]. by rewrite E, Ec.
    + rewrite IH. split; [|intros H q e' Hq; apply (H q e'); by right].
      intros H q e' [[= -> ->]|Hq] Hne; [|by apply (H q e')]. by rewrite E.
Qed.

Lemma ready_down_sat g worst ord :
  (ready_down g worst ord).1 = edgeSatisfied <->
  worst.1 = edgeSatisfied /\
  forall p e, (p, e) ∈ ord -> p <> beginVertex -> edge_sat g walkFromBegin p e = true.
Proof.
  revert worst. induction ord as [|[p e] ord IH]; intros worst; simpl.
  { split; [|tauto]. intros H. split; [done|]. by intros ? ? ?%elem_of_nil. }
  setoid_rewrite elem_of_cons. case_decide as Hp; [rewrite IH; naive_solver|].
  destruct (evalDownEdgeLocked (Vertices g !! p) (edge_Condition e)) as [st r] eqn:E.
  assert (Hst : bool_decide ((evalDownEdgeLocked (Vertices g !! p) (edge_Condition e)).1
    = edgeSatisfied) = true <-> st = edgeSatisfied).
  { rewrite E. simpl. apply bool_decide_eq_true. }
  destruct st; simpl.
  - rewrite IH. split; intros [Hw H]; (split; [done|]).
    + intros q e' [[= -> ->]|Hq] Hne; [|by apply (H q e')]. by apply Hst.
    + intros q e' Hq. apply (H q e'). by right.
  - rewrite IH. split.
    + intros [Hw _]. by case_decide.
    + intros [_ H]. specialize (H p e (or_introl eq_refl) Hp). apply Hst in H. done.
  - split; [done|]. intros [_ H]. specialize (H p e (or_introl eq_refl) Hp). apply Hst in H. done.
Qed.

(** The status does not depend on the order the map is ranged over. *)
Lemma readiness_ready g dir v ord :
  ord ≡ₚ map_to_list (preds dir v) ->
  (readinessLocked g ord dir).1 = edgeSatisfied <-> is_ready g dir v.
Proof.
  intros Ho.
  assert (forall p e, (p, e) ∈ ord <-> preds dir v !! p = Some e) as Hin.
  { intros p e. rewrite Ho. apply elem_of_map_to_list. }
  unfold is_ready. destruct dir; simpl.
  - rewrite ready_down_sat. setoid_rewrite Hin. naive_solver.
  - rewrite ready_up_sat. by setoid_rewrite Hin.
Qed.

(** Up walks never block a vertex. *)
Lemma ready_up_not_blocked g ord : (ready_up g ord).1 <> edgeBlocked.
Proof. induction ord as [|[p e] ord IH]; simpl; [done|]. repeat case_match; done. Qed.

(** A blocking edge comes with its reason. *)
Lemma evalDown_reason p cond r : evalDownEdgeLocked p cond = (edgeBlocked, r) -> is_Some r.
Proof.
  unfold evalDownEdgeLocked. intros H. repeat case_match; simplify_eq; eauto.
Qed.

Lemma ready_down_reason g worst ord r :
  worst.1 <> edgeBlocked -> ready_down g worst ord = (edgeBlocked, r) -> is_Some r.
Proof.
  revert worst. induction ord as [|[p e] ord IH]; intros worst Hw; simpl.
  { intros E. by rewrite E in Hw. }
  case_decide; [by apply IH|].
  destruct (evalDownEdgeLocked _ _) as [st r'] eqn:E. destruct st; [by apply IH| |].
  - apply IH. by case_decide.
  - intros [= <-]. by eapply evalDown_reason.
Qed.

(** ** [claim] *)

Lemma claim_spec g ord id dir v :
  Vertices g !! id = Some v -> active v = true -> Consumed v = false -> InProgress v = false ->
  ord ≡ₚ map_to_list (preds dir v) ->
  exists v' st, claim g ord id dir = (set_vertex g id v', st) /\ statics v' = statics v /\
    Queued v' = false /\
    match st with
    | stepReady => is_ready g dir v /\ InProgress v' = true /\ Consumed v' = false /\
        Blocked v' = Blocked v
    | stepPending => ~ is_ready g dir v /\ InProgress v' = false /\ Consumed v' = false /\
        Blocked v' = Blocked v
    | stepBlocked => ~ is_ready g dir v /\ dir = walkFromBegin /\ InProgress v' = false /\
        Consumed v' = true /\ Blocked v' = true /\ is_Some (Err v')
    | stepSkip => False
    end.
Proof.
  intros Hv Ha Hc Hp Ho. unfold claim. rewrite Hv, Ha, Hc, Hp. simpl.
  pose proof (readiness_ready g dir v ord Ho) as Hr.
  destruct (readinessLocked g ord dir) as [[] r] eqn:E; simpl in *.
  - eexists _, stepReady. split_and!; simpl; try done. by apply Hr.
  - eexists _, stepPending. split_and!; simpl; try done. by intros H%Hr.
  - assert (dir = walkFromBegin) as ->.
    { destruct dir; [done|]. exfalso. apply (ready_up_not_blocked g ord). simpl in E. by rewrite E. }
    eexists _, stepBlocked. split_and!; simpl; try done; [by intros H%Hr|].
    destruct (Err v); [eauto|]. by eapply ready_down_reason; [|exact E].
Qed.

(** ** [complete] *)

Definition eligible (g : reconcileGraph) (skip : vertexID) (k : vertexID) : bool :=
  negb (bool_decide (k = skip)) &&
  match Vertices g !! k with
  | None => false
  | Some n => InClosure n && negb (Consumed n) && negb (InProgress n) && negb (Queued n)
  end.

Definition queue (v : graphVertex) : graphVertex :=
  v_sched v true (InProgress v) (Consumed v) (Blocked v) (WaitReason v).

Lemma release_eligible skip g next k :
  release skip (g, next) k =
    if eligible g skip k
    then (MkGraph (alter queue k (Vertices g)) (seq_ g), next ++ [k]) else (g, next).
Proof.
  unfold release, eligible. case_decide; [by rewrite bool_decide_true|].
  rewrite bool_decide_false by done. simpl.
  destruct (Vertices g !! k) as [n|] eqn:E; [|done].
  rewrite (alter_Some queue _ k n E). unfold queue.
  by destruct (InClosure n), (Consumed n), (InProgress n), (Queued n).
Qed.

Lemma eligible_alter g skip j k :
  j <> k -> eligible (MkGraph (alter queue j (Vertices g)) (seq_ g)) skip k = eligible g skip k.
Proof. intros H. unfold eligible. simpl. by rewrite lookup_alter_ne. Qed.

Lemma release_fold skip ord g next :
  NoDup ord ->
  exists g', foldl (release skip) (g, next) ord
      = (g', next ++ filter (fun k => eligible g skip k = true) ord) /\
    seq_ g' = seq_ g /\
    forall k, Vertices g' !! k =
      if decide (k ∈ filter (fun k => eligible g skip k = true) ord)
      then queue <$> Vertices g !! k else Vertices g !! k.
Proof.
  revert g next. induction ord as [|j ord IH]; intros g next Hnd; cbn [foldl].
  { exists g. rewrite app_nil_r. by split_and!. }
  inversion Hnd as [|? ? Hj Hnd']; subst. rewrite release_eligible, filter_cons.
  destruct (eligible g skip j) eqn:Ej.
  - rewrite decide_True by done. set (g1 := MkGraph _ _).
    assert (Hf : filter (fun k => eligible g1 skip k = true) ord
               = filter (fun k => eligible g skip k = true) ord).
    { unfold g1. clear -Hj. induction ord as [|x l IHl]; [done|]. apply not_elem_of_cons in Hj as [Hx Hl].
      rewrite !filter_cons, eligible_alter by done. by rewrite IHl. }
    destruct (IH g1 (next ++ [j]) Hnd') as (g' & Hfold & Hseq & Hlk).
    exists g'. rewrite Hfold, Hf, <- app_assoc. split_and!; [done|done|].
    intros k. rewrite Hlk, Hf. unfold g1; simpl. destruct (decide (k = j)) as [->|Hk].
    + rewrite lookup_alter_eq. rewrite decide_False; [|by intros [_ ?]%list_elem_of_filter].
      by rewrite decide_True by by left.
    + rewrite lookup_alter_ne by done. apply decide_ext. rewrite elem_of_cons. naive_solver.
  - rewrite decide_False by done. destruct (IH g next Hnd') as (g' & Hfold & Hseq & Hlk). eauto.
Qed.

(** The result fields of a vertex as an [actionResult]. *)
Definition result_of (v : graphVertex) : actionResult :=
  {| res_State := State v; res_ExitCode := v_ExitCode v; res_Err := Err v;
     res_ForceKilled := ForceKilled v |}.

Lemma complete_spec g ord id res dir v :
  Vertices g !! id = Some v -> NoDup ord -> Consumed v = false ->
  exists g' ns v', complete g ord id res dir = (g', ns) /\ NoDup ns /\
    statics v' = statics v /\ Queued v' = Queued v /\ InProgress v' = false /\ Consumed v' = true /\
    Blocked v' = Blocked v /\ result_of v' = res /\ Order v' = S (seq_ g) /\ seq_ g' = S (seq_ g) /\
    (forall k, k ∈ ns <-> k ∈ ord /\ k <> id /\ k <> skip_succ dir /\
       exists n, Vertices g !! k = Some n /\ InClosure n = true /\ Consumed n = false /\
         InProgress n = false /\ Queued n = false) /\
    (forall k, Vertices g' !! k = if decide (k = id) then Some v' else
       if decide (k ∈ ns) then queue <$> Vertices g !! k else Vertices g !! k).
Proof.
  intros Hv Hnd Hc. unfold complete. rewrite Hv.
  set (g1 := record_result g id v res).
  destruct (release_fold (skip_succ dir) ord g1 [] Hnd) as (g' & Hfold & Hseq & Hlk).
  set (v' := v_result (v_sched v (Queued v) false true (Blocked v) (WaitReason v))
    (res_State res) (res_ExitCode res) (res_Err res) (res_ForceKilled res) (S (seq_ g))).
  assert (Hg1 : forall k, Vertices g1 !! k = if decide (k = id) then Some v' else Vertices g !! k).
  { intros k. unfold g1, record_result; simpl. case_decide; subst;
      [by rewrite lookup_insert_eq|by rewrite lookup_insert_ne]. }
  exists g', (filter (fun k => eligible g1 (skip_succ dir) k = true) ord), v'.
  rewrite Hfold. assert (Hin : forall k, k ∈ filter (fun k => eligible g1 (skip_succ dir) k = true) ord <->
    k ∈ ord /\ k <> id /\ k <> skip_succ dir /\
       exists n, Vertices g !! k = Some n /\ InClosure n = true /\ Consumed n = false /\
         InProgress n = false /\ Queued n = false).
  { intros k. rewrite list_elem_of_filter. unfold eligible. rewrite Hg1.
    rewrite andb_true_iff, negb_true_iff, bool_decide_eq_false.
    destruct (decide (k = id)) as [->|Hk].
    - simpl. rewrite andb_false_r. naive_solver.
    - destruct (Vertices g !! k) as [n|]; [|naive_solver].
      rewrite !andb_true_iff, !negb_true_iff. naive_solver. }
  split_and!; try done.
  - by apply NoDup_filter.
  - by destruct res.
  - intros k. rewrite Hlk. destruct (decide (k = id)) as [->|Hk].
    + rewrite decide_False by (intros H; apply Hin in H; naive_solver). by rewrite Hg1, decide_True.
    + by rewrite Hg1, (decide_False (P := k = id)) by done.
Qed.

(** ** [finalize] *)

Lemma finalize_spec ord g :
  NoDup ord ->
  seq_ g <= seq_ (finalize g ord) /\
  forall k, match Vertices g !! k with
    | None => Vertices (finalize g ord) !! k = None
    | Some v => exists v', Vertices (finalize g ord) !! k = Some v' /\ statics v' = statics v /\
        Queued v' = Queued v /\ InProgress v' = InProgress v /\
        if decide (k ∈ ord /\ active v = true /\ Consumed v = false)
        then Consumed v' = true /\ Blocked v' = true /\ is_Some (Err v') /\ seq_ g < Order v'
        else v' = v
    end.
Proof.
  unfold finalize. revert g. induction ord as [|j ord IH]; intros g Hnd; cbn [foldl].
  { split; [done|]. intros k. destruct (Vertices g !! k) as [v|]; [|done]. exists v.
    rewrite decide_False by (by intros [?%elem_of_nil _]). done. }
  inversion Hnd as [|? ? Hj Hnd']; subst. destruct (IH (finalize_one g j) Hnd') as [Hs Hk].
  assert (Hcons : forall k, k <> j -> k ∈ j :: ord <-> k ∈ ord).
  { intros k Hk'. rewrite elem_of_cons. naive_solver. }
  unfold finalize_one in *. destruct (Vertices g !! j) as [v|] eqn:Ev.
  2:{ split; [done|]. intros k. specialize (Hk k). destruct (Vertices g !! k) as [w|] eqn:Ew; [|done].
      destruct Hk as (v' & H1 & H2 & H3 & H4 & H5). exists v'. split_and!; try done.
      specialize (Hcons k ltac:(congruence)). repeat case_decide; tauto. }
  destruct (negb (active v) || Consumed v) eqn:Eg.
  - split; [done|]. intros k. specialize (Hk k). destruct (Vertices g !! k) as [w|] eqn:Ew; [|done].
    destruct Hk as (v' & H1 & H2 & H3 & H4 & H5). exists v'. split_and!; try done.
    destruct (decide (k = j)) as [->|Hkj].
    + rewrite decide_False in H5 by naive_solver. subst v'.
      rewrite decide_False; [done|]. intros (_ & Ha & Hc). simplify_eq. by rewrite Ha, Hc in Eg.
    + specialize (Hcons k Hkj). repeat case_decide; tauto.
  - apply orb_false_iff in Eg as [Ea%negb_false_iff Ec]. simpl in *. split; [lia|].
    intros k. specialize (Hk k). destruct (decide (k = j)) as [->|Hkj].
    + rewrite lookup_insert_eq in Hk. rewrite Ev.
      destruct Hk as (v' & H1 & H2 & H3 & H4 & H5). exists v'.
      rewrite decide_False in H5 by naive_solver. subst v'. split_and!; try done.
      rewrite decide_True by (split_and!; [by left|done|done]). simpl. split_and!; try done; [|lia].
      destruct (Err v); eauto.
    + rewrite lookup_insert_ne in Hk by done. destruct (Vertices g !! k) as [w|]; [|done].
      destruct Hk as (v' & H1 & H2 & H3 & H4 & H5). exists v'. split_and!; try done.
      specialize (Hcons k Hkj). repeat case_decide; try tauto.
      destruct H5 as (? & ? & ? & ?). split_and!; try done. lia.
Qed.

(** ** [seed] and [done] *)

Lemma seed_spec g dir :
  seq_ (seed g dir).1 = seq_ g /\
  (forall k, Vertices (seed g dir).1 !! k =
     (fun v => if is_seed g dir v then queue v else v) <$> Vertices g !! k) /\
  NoDup (seed g dir).2 /\
  (forall k, k ∈ (seed g dir).2 <-> exists v, Vertices g !! k = Some v /\ is_seed g dir v = true).
Proof.
  unfold seed; simpl. split_and!; [done| | |].
  - intros k. by rewrite lookup_fmap.
  - apply NoDup_sort_strings. apply (NoDup_fmap_fst _).
    + intros k a b [_ Ha]%list_elem_of_filter [_ Hb]%list_elem_of_filter.
      apply elem_of_map_to_list in Ha, Hb. congruence.
    + apply NoDup_filter, NoDup_map_to_list.
  - intros k. rewrite elem_of_sort_strings, list_elem_of_fmap. split.
    + intros ([k' v] & -> & [Hs Hin]%list_elem_of_filter). apply elem_of_map_to_list in Hin. eauto.
    + intros (v & Hv & Hs). exists (k, v). split; [done|]. apply list_elem_of_filter.
      split; [done|]. by apply elem_of_map_to_list.
Qed.

Lemma is_seed_true g dir v :
  is_seed g dir v = true <->
  active v = true /\ forall p e n, preds dir v !! p = Some e -> p <> skip_pred dir ->
    Vertices g !! p = Some n -> InClosure n = false.
Proof.
  unfold is_seed. rewrite andb_true_iff, negb_true_iff.
  unfold hasInClosureRealNeighborLocked. rewrite <- not_true_iff_false, existsb_exists.
  split; intros [Ha H]; split; try done.
  - intros p e n Hp Hs Hn. apply not_true_iff_false. intros Hc. apply H. exists (p, e). split.
    + apply list_elem_of_In. by apply elem_of_map_to_list.
    + simpl. by rewrite bool_decide_false, Hn.
  - intros ([p e] & Hin%list_elem_of_In & Hb). apply elem_of_map_to_list in Hin. simpl in Hb.
    split_hyps. destruct (Vertices g !! p) as [n|] eqn:E; [|done].
    rewrite (H p e n) in *; done.
Qed.

Lemma is_seed_false g dir v :
  active v = true -> is_seed g dir v = false ->
  exists p e n, preds dir v !! p = Some e /\ p <> skip_pred dir /\
    Vertices g !! p = Some n /\ InClosure n = true.
Proof.
  intros Ha. unfold is_seed. rewrite Ha. simpl. rewrite negb_false_iff.
  unfold hasInClosureRealNeighborLocked. rewrite existsb_exists.
  intros ([p e] & Hin%list_elem_of_In & Hb). apply elem_of_map_to_list in Hin. simpl in Hb.
  split_hyps. destruct (Vertices g !! p) as [n|] eqn:E; [|done]. exists p, e, n. done.
Qed.

Lemma done_spec g :
  done g = true <-> forall k v, Vertices g !! k = Some v -> active v = true ->
    Queued v = false /\ InProgress v = false.
Proof.
  unfold done. rewrite forallb_elem_of. split.
  - intros H k v Hv Ha. specialize (H (k, v)). rewrite elem_of_map_to_list in H. specialize (H Hv).
    simpl in H. rewrite Ha in H. simpl in H. rewrite negb_orb in H. by split_hyps.
  - intros H [k v] Hv%elem_of_map_to_list. simpl. destruct (active v) eqn:Ha; [|done].
    destruct (H k v Hv Ha) as [-> ->]. done.
Qed.
