(* ===== verification/Walk.v ===== *)
(** * The concurrent walk of the reconcile graph

    [reconcileGraph.walk] of [cmdman/compose/reconcile.go] as a step relation.
    [limit] workers share the graph, a buffered channel of vertices and a
    cancelled context.  A step is what one worker does between two points where
    another may run: a channel operation, or one call of a graph operation, which
    holds the graph's lock throughout.  The action runs between [claim] and
    [complete], outside the lock, and may return any result [act] allows. *)

From S2P Require Import Prelude GoStr Model ComposeSpec Reconcile Scheduling.

(** What an observer of the actions sees. *)
Inductive event := EvStart (id : vertexID) | EvFinish (id : vertexID) (res : actionResult).

(** Where a worker stands in its loop: at the [select]; holding a received
    vertex; running the action; sending the frontier; about to call [done];
    about to call [finalize]; about to cancel; returned (with the vertices it
    had not sent when the context was cancelled). *)
Inductive worker :=
| WIdle
| WClaim (id : vertexID)
| WAct (id : vertexID)
| WSend (ns : list vertexID)
| WCheck
| WFin
| WCancel
| WExit (dropped : list vertexID).

#[export] Instance worker_eq_dec : EqDecision worker.
Proof. solve_decision. Defined.

Record shared := MkShared { gr : reconcileGraph; workCh : list vertexID; cancelled : bool }.

(** [external] records that the caller's context ended, which cancels the
    walk's own context too. *)
Record wstate := MkState { sh : shared; workers : list worker; external : bool }.

(** The channel's capacity. *)
(* src/cmdman/compose/reconcile.go:445-445 walk *)
Definition capacity (g : reconcileGraph) : nat := max (commandCount g) 1.

Section Steps.
Context (dir : walkDirection) (cap : nat) (act : vertexID -> actionResult -> Prop).

(** One step of one worker: [step] and the body of the worker loop. *)
(* src/cmdman/compose/reconcile.go:455-499 walk.worker, step *)
Inductive local : shared -> worker -> list event -> shared -> worker -> Prop :=
| l_recv g id ch c :
    local (MkShared g (id :: ch) c) WIdle [] (MkShared g ch c) (WClaim id)
| l_stop g ch :
    local (MkShared g ch true) WIdle [] (MkShared g ch true) (WExit [])
| l_claim g ch c id ord g' st :
    (forall v, Vertices g !! id = Some v -> ord ≡ₚ map_to_list (preds dir v)) ->
    claim g ord id dir = (g', st) ->
    local (MkShared g ch c) (WClaim id)
          (if decide (st = stepReady) then [EvStart id] else [])
          (MkShared g' ch c)
          (if decide (st = stepReady) then WAct id else WSend [])
| l_complete g ch c id res ord g' ns :
    act id res ->
    (forall v, Vertices g !! id = Some v -> ord ≡ₚ (map_to_list (succs dir v)).*1) ->
    complete g ord id res dir = (g', ns) ->
    local (MkShared g ch c) (WAct id) [EvFinish id res] (MkShared g' ch c) (WSend ns)
| l_send g ch c n ns :
    length ch < cap ->
    local (MkShared g ch c) (WSend (n :: ns)) [] (MkShared g (ch ++ [n]) c) (WSend ns)
| l_send_stop g ch n ns :
    local (MkShared g ch true) (WSend (n :: ns)) [] (MkShared g ch true) (WExit (n :: ns))
| l_sent g ch c :
    local (MkShared g ch c) (WSend []) [] (MkShared g ch c) WCheck
| l_more g ch c :
    done g = false ->
    local (MkShared g ch c) WCheck [] (MkShared g ch c) WIdle
| l_done g ch c :
    done g = true ->
    local (MkShared g ch c) WCheck [] (MkShared g ch c) WFin
| l_finalize g ch c ord :
    ord ≡ₚ (map_to_list (Vertices g)).*1 ->
    local (MkShared g ch c) WFin [] (MkShared (finalize g ord) ch c) WCancel
| l_cancel g ch c :
    local (MkShared g ch c) WCancel [] (MkShared g ch true) (WExit []).

(** A step of the walk: some worker's, or the end of the caller's context. *)
(* src/cmdman/compose/reconcile.go:442-480 walk *)
Inductive wstep : wstate -> list event -> wstate -> Prop :=
| w_local s l1 w l2 x e s' w' :
    local s w e s' w' ->
    wstep (MkState s (l1 ++ w :: l2) x) e (MkState s' (l1 ++ w' :: l2) x)
| w_external s ws :
    wstep (MkState s ws false) [] (MkState (MkShared (gr s) (workCh s) true) ws true).

(** Runs, with the events in the order they happened. *)
(* src/cmdman/compose/reconcile.go:455-481 walk *)
Inductive run : wstate -> list event -> wstate -> Prop :=
| run_refl s : run s [] s
| run_step s tr s' e s'' : run s tr s' -> wstep s' e s'' -> run s (tr ++ e) s''.
End Steps.

(** What [walk] does before it waits for its workers: seed, and either finish at
    once or start the workers. *)
(* src/cmdman/compose/reconcile.go:432-481 walk *)
Inductive walk_start (g : reconcileGraph) (dir : walkDirection) (limit : nat) : wstate -> Prop :=
| start_empty ord :
    done (seed g dir).1 = true ->
    ord ≡ₚ (map_to_list (Vertices (seed g dir).1)).*1 ->
    walk_start g dir limit
      (MkState (MkShared (finalize (seed g dir).1 ord) (seed g dir).2 true) [] false)
| start_workers :
    done (seed g dir).1 = false ->
    walk_start g dir limit
      (MkState (MkShared (seed g dir).1 (seed g dir).2 false) (replicate (max limit 1) WIdle) false).

(** A state the walk of [g] can reach, with the events so far. *)
Definition reaches (g : reconcileGraph) (dir : walkDirection) (limit : nat)
    (act : vertexID -> actionResult -> Prop) (tr : list event) (s : wstate) : Prop :=
  exists s0, walk_start g dir limit s0 /\ run dir (capacity g) act s0 tr s.

(** ** The graph before a walk *)

Record graph_wf (g : reconcileGraph) : Prop := {
  wf_edges : forall a b va vb, Vertices g !! a = Some va -> Vertices g !! b = Some vb ->
    (is_Some (Parents va !! b) <-> is_Some (Children vb !! a));
  wf_virtual : forall dir v, Vertices g !! skip_succ dir = Some v -> active v = false;
  wf_closure : forall k v, Vertices g !! k = Some v -> InClosure v = true -> active v = true;
  wf_fresh : forall k v, Vertices g !! k = Some v ->
    Queued v = false /\ InProgress v = false /\ Consumed v = false /\ Blocked v = false;
}.

(** The edges of a walk seen from both ends. *)
Lemma wf_pred_succ g g0 dir a b va vb e :
  graph_wf g0 -> same_static g0 g ->
  Vertices g !! a = Some va -> Vertices g !! b = Some vb ->
  preds dir va !! b = Some e -> is_Some (succs dir vb !! a).
Proof.
  intros Hwf Hs Ha Hb He.
  destruct (same_static_lookup _ _ _ _ Hs Ha) as (va0 & Ha0 & Ea).
  destruct (same_static_lookup _ _ _ _ Hs Hb) as (vb0 & Hb0 & Eb).
  apply statics_eq in Ea as (_ & Ea & _), Eb as (_ & _ & Eb & _).
  rewrite <- Ea in He. rewrite <- Eb. destruct dir; simpl in *.
  - apply (wf_edges g0 Hwf a b va0 vb0 Ha0 Hb0). eauto.
  - apply (wf_edges g0 Hwf b a vb0 va0 Hb0 Ha0). eauto.
Qed.

(** ** The invariant of the graph

    [tk] are the vertices waiting to be claimed (in the channel, received, or
    still to be sent), [ac] those whose action runs. *)

Definition starts (tr : list event) : list vertexID :=
  omap (fun e => match e with EvStart id => Some id | _ => None end) tr.
Definition finishes (tr : list event) : list vertexID :=
  omap (fun e => match e with EvFinish id _ => Some id | _ => None end) tr.

(** The condition of an edge holds of a result, or of a state before the run. *)
Definition cond_of (e : graphEdge) : AfterCondition :=
  if decide (edge_Condition e = "") then ConditionCompleted else edge_Condition e.

Definition cond_holds (cond : AfterCondition) (res : actionResult) : Prop :=
  res_Err res = None /\
  (cond <> ConditionRunning ->
     if decide (cond = ConditionCompleted) then isTerminalState (res_State res) = true
     else succeeded (res_State res) (res_ExitCode res) = true).

Definition snapshot_holds (cond : AfterCondition) (s : commandSnapshot) : Prop :=
  if decide (cond = ConditionRunning)
  then snap_State s = EventTypeRunning \/ snap_State s = EventTypeStarting
  else if decide (cond = ConditionCompleted) then isTerminalState (snap_State s) = true
  else succeeded (snap_State s) (snap_ExitCode s) = true.

(** The order a walk promises: before the action of [id] starts, everything
    that has to come first has finished the way the edge asks for. *)
Definition ordered (g0 : reconcileGraph) (dir : walkDirection) (before : list event) (id : vertexID) : Prop :=
  forall v p e, Vertices g0 !! id = Some v -> preds dir v !! p = Some e -> p <> skip_pred dir ->
  match dir with
  | walkFromEnd => forall pv, Vertices g0 !! p = Some pv -> InClosure pv = true ->
      exists res, EvFinish p res ∈ before
  | walkFromBegin => exists pv, Vertices g0 !! p = Some pv /\
      if InClosure pv then exists res, EvFinish p res ∈ before /\ cond_holds (cond_of e) res
      else snapshot_holds (cond_of e) (Snapshot pv)
  end.

Record GInv (g0 : reconcileGraph) (dir : walkDirection) (g : reconcileGraph)
    (tk ac : list vertexID) (tr : list event) : Prop := {
  gi_static : same_static g0 g;
  gi_tk_nodup : NoDup tk;
  gi_tk : forall id, id ∈ tk <-> exists v, Vertices g !! id = Some v /\ Queued v = true;
  gi_ac_nodup : NoDup ac;
  gi_ac : forall id, id ∈ ac <-> exists v, Vertices g !! id = Some v /\ InProgress v = true;
  gi_queued : forall id v, Vertices g !! id = Some v -> Queued v = true ->
    active v = true /\ Consumed v = false /\ Blocked v = false /\ InProgress v = false;
  gi_running : forall id v, Vertices g !! id = Some v -> InProgress v = true ->
    active v = true /\ Consumed v = false /\ Blocked v = false;
  gi_idle : forall id v, Vertices g !! id = Some v -> active v = true ->
    Queued v = false -> InProgress v = false -> Consumed v = false -> ~ is_ready g dir v;
  gi_started : forall id, EvStart id ∈ tr <->
    exists v, Vertices g !! id = Some v /\
      (InProgress v = true \/ Consumed v = true /\ Blocked v = false);
  gi_starts : NoDup (starts tr);
  gi_finished : forall id res, EvFinish id res ∈ tr <->
    exists v, Vertices g !! id = Some v /\ Consumed v = true /\ Blocked v = false /\ result_of v = res;
  gi_finishes : NoDup (finishes tr);
  gi_blocked : forall id v, Vertices g !! id = Some v -> Blocked v = true ->
    Consumed v = true /\ is_Some (Err v);
  gi_consumed : forall id v, Vertices g !! id = Some v -> Consumed v = true -> active v = true;
  gi_up : dir = walkFromEnd -> (exists id v, Vertices g !! id = Some v /\ Blocked v = true) ->
    tk = [] /\ ac = [];
  gi_order : forall tr1 tr2 id, tr = tr1 ++ EvStart id :: tr2 -> ordered g0 dir tr1 id;
}.

#[export] Instance GInv_perm g0 dir g :
  Proper ((≡ₚ) ==> (≡ₚ) ==> (=) ==> iff) (GInv g0 dir g).
Proof.
  assert (forall tk1 tk2 ac1 ac2 tr, tk1 ≡ₚ tk2 -> ac1 ≡ₚ ac2 ->
    GInv g0 dir g tk1 ac1 tr -> GInv g0 dir g tk2 ac2 tr) as H.
  { intros tk1 tk2 ac1 ac2 tr Htk Hac []. constructor; try done.
    - by rewrite <- Htk.
    - intros id. by rewrite <- Htk.
    - by rewrite <- Hac.
    - intros id. by rewrite <- Hac.
    - intros Hd Hb. destruct (gi_up0 Hd Hb) as [-> ->].
      by apply Permutation_nil_l in Htk, Hac. }
  intros tk1 tk2 Htk ac1 ac2 Hac tr ? <-. split; by apply H.
Qed.

(** An active vertex that is neither finished nor queued for nothing does not
    satisfy an edge. *)
Lemma edge_unsat g dir p v e :
  Vertices g !! p = Some v -> InClosure v = true ->
  (Consumed v = false \/ Blocked v = true /\ dir = walkFromBegin) -> edge_sat g dir p e = false.
Proof.
  intros Hv Hi Hc. unfold edge_sat, evalDownEdgeLocked. rewrite Hv, Hi.
  destruct dir; simpl.
  - destruct (Blocked v); [done|]. destruct Hc as [->|[? _]]; done.
  - destruct Hc as [->|[_ ?]]; done.
Qed.

Lemma edge_sat_lookup g g' dir p e :
  Vertices g' !! p = Vertices g !! p -> edge_sat g' dir p e = edge_sat g dir p e.
Proof. intros H. unfold edge_sat. by rewrite H. Qed.

Lemma edge_sat_queue g g' dir p e :
  Vertices g' !! p = queue <$> Vertices g !! p -> edge_sat g' dir p e = edge_sat g dir p e.
Proof. intros H. unfold edge_sat. rewrite H. by destruct (Vertices g !! p). Qed.

Lemma active_closure v : active v = true -> InClosure v = true.
Proof. unfold active. intros H. by split_hyps. Qed.

Lemma same_static_set g0 g id v v' :
  same_static g0 g -> Vertices g !! id = Some v -> statics v' = statics v ->
  same_static g0 (set_vertex g id v').
Proof.
  intros Hs Hv E k. unfold set_vertex; simpl. destruct (decide (k = id)) as [->|Hk].
  - rewrite lookup_insert_eq. simpl. rewrite E, <- (Hs id), Hv. done.
  - rewrite lookup_insert_ne by done. apply Hs.
Qed.

(** The last event of a trace, or one before it. *)
Lemma snoc_split {A} (l l1 l2 : list A) x y :
  l ++ [x] = l1 ++ y :: l2 ->
  (l2 = [] /\ l1 = l /\ y = x) \/ exists l2', l2 = l2' ++ [x] /\ l = l1 ++ y :: l2'.
Proof.
  intros H. destruct l2 as [|z l2 _] using rev_ind.
  - left. apply app_inj_tail in H as [-> ->]. done.
  - right. exists l2. change (y :: l2 ++ [z]) with ((y :: l2) ++ [z]) in H.
    rewrite app_assoc in H. apply app_inj_tail in H as [-> ->]. done.
Qed.

Lemma elem_of_snoc {A} (x y : A) l : x ∈ l ++ [y] <-> x ∈ l \/ x = y.
Proof. rewrite elem_of_app, list_elem_of_singleton. done. Qed.

Lemma evalDown_sat p e :
  (evalDownEdgeLocked p (edge_Condition e)).1 = edgeSatisfied ->
  exists pv, p = Some pv /\
    if InClosure pv then Consumed pv = true /\ Blocked pv = false /\ cond_holds (cond_of e) (result_of pv)
    else snapshot_holds (cond_of e) (Snapshot pv).
Proof.
  unfold evalDownEdgeLocked. fold (cond_of e). destruct p as [pv|]; [|done]. intros H. exists pv.
  split; [done|]. unfold snapshot_holds, cond_holds; simpl.
  destruct (InClosure pv).
  - destruct (Blocked pv); [done|]. destruct (Consumed pv); [|done]. simpl in H.
    destruct (Err pv); [done|]. split_and!; try done. intros Hr.
    rewrite decide_False in H by done. case_decide.
    + by destruct (isTerminalState (State pv)).
    + destruct (succeeded _ _); [done|]. by destruct (isTerminalState (State pv)).
  - case_decide; [by case_decide|]. case_decide.
    + by destruct (isTerminalState _).
    + by destruct (succeeded _ _).
Qed.

(** A vertex found ready has everything before it finished, as the trace shows. *)
Lemma ready_ordered g0 dir g tk ac tr id v :
  GInv g0 dir g tk ac tr -> id ∈ tk -> Vertices g !! id = Some v -> is_ready g dir v ->
  ordered g0 dir tr id.
Proof.
  intros HI Hid Hv Hr v0 p e Hv0 He Hp.
  destruct (same_static_lookup _ _ _ _ (gi_static _ _ _ _ _ _ HI) Hv) as (w & Hw & Ew).
  replace w with v0 in Ew by congruence. apply statics_eq in Ew as (_ & Ew & _). rewrite Ew in He.
  specialize (Hr p e He Hp). destruct dir.
  - apply bool_decide_eq_true, evalDown_sat in Hr as (pv & Hpv & Hc).
    destruct (same_static_lookup _ _ _ _ (gi_static _ _ _ _ _ _ HI) Hpv) as (pv0 & Hpv0 & Es).
    apply statics_eq in Es as (_ & _ & _ & Ec & Esn & _).
    exists pv0. split; [done|]. rewrite Ec, Esn. destruct (InClosure pv); [|done].
    destruct Hc as (H1 & H2 & H3). exists (result_of pv). split; [|done].
    apply (gi_finished _ _ _ _ _ _ HI). eauto.
  - intros pv0 Hpv0 Hin.
    destruct (same_static_lookup_r _ _ _ _ (gi_static _ _ _ _ _ _ HI) Hpv0) as (pv & Hpv & Es).
    apply statics_eq in Es as (_ & _ & _ & Ec & _). unfold edge_sat in Hr. rewrite Hpv, <- Ec, Hin in Hr.
    simpl in Hr. apply negb_true_iff, negb_false_iff in Hr.
    exists (result_of pv). apply (gi_finished _ _ _ _ _ _ HI). exists pv. split_and!; try done.
    apply not_true_iff_false. intros Hb.
    destruct (gi_up _ _ _ _ _ _ HI eq_refl) as [-> _]; [eauto|]. by apply elem_of_nil in Hid.
Qed.

(** ** The invariant is kept by the graph operations *)

Lemma starts_snoc tr e : starts (tr ++ [e]) = starts tr ++ starts [e].
Proof. apply omap_app. Qed.
Lemma finishes_snoc tr e : finishes (tr ++ [e]) = finishes tr ++ finishes [e].
Proof. apply omap_app. Qed.

Lemma elem_of_starts id tr : id ∈ starts tr <-> EvStart id ∈ tr.
Proof.
  unfold starts. rewrite list_elem_of_omap. split.
  - intros ([] & ? & ?); by simplify_eq.
  - intros ?. by exists (EvStart id).
Qed.
Lemma elem_of_finishes id tr : id ∈ finishes tr <-> exists res, EvFinish id res ∈ tr.
Proof.
  unfold finishes. rewrite list_elem_of_omap. split.
  - intros ([] & ? & ?); simplify_eq; eauto.
  - intros (res & ?). by exists (EvFinish id res).
Qed.

Lemma ex_Some {A} (x : A) (Q : A -> Prop) : (exists w, Some x = Some w /\ Q w) <-> Q x.
Proof. split; [by intros (w & [= <-] & ?)|eauto]. Qed.

(** The vertex an operation changed: the goal follows from its fields. *)
Ltac at_id := intros [= <-]; intros; first [congruence | split_and!; congruence].

Lemma ginv_claim g0 dir g tk ac tr id ord g' st :
  GInv g0 dir g (id :: tk) ac tr ->
  (forall v, Vertices g !! id = Some v -> ord ≡ₚ map_to_list (preds dir v)) ->
  claim g ord id dir = (g', st) ->
  (st = stepReady /\ GInv g0 dir g' tk (id :: ac) (tr ++ [EvStart id])) \/
  (st <> stepReady /\ GInv g0 dir g' tk ac tr).
Proof.
  intros HI Ho Hc. pose proof HI as [Gs Gtn Gt Gan Ga Gq Gr Gi Gst Gsn Gf Gfn Gb Gc Gu Go].
  destruct (proj1 (Gt id) ltac:(by left)) as (v & Hv & Hqv).
  destruct (Gq id v Hv Hqv) as (Hav & Hcv & Hbv & Hpv).
  destruct (claim_spec g ord id dir v Hv Hav Hcv Hpv (Ho v Hv)) as (v' & st' & Hc' & Es & Hq' & Hst).
  rewrite Hc in Hc'. injection Hc' as -> ->. rename st' into st.
  inversion Gtn as [|? ? Hidtk Htk]; subst.
  set (g' := set_vertex g id v').
  assert (Hlk : forall k, Vertices g' !! k = if decide (k = id) then Some v' else Vertices g !! k).
  { intros k. unfold g'; simpl. case_decide; subst; [by rewrite lookup_insert_eq|by rewrite lookup_insert_ne]. }
  assert (Hst' : same_static g0 g') by (by eapply same_static_set).
  pose proof (statics_eq _ _ Es) as (Ea & Epr & _ & Ei & _).
  assert (Hact' : active v' = true) by congruence.
  (* the claimed vertex satisfies no edge, so no idle vertex became ready *)
  assert (Hun : forall e, edge_sat g' dir id e = false).
  { intros e. apply (edge_unsat g' dir id v'); [by rewrite Hlk, decide_True|by apply active_closure|].
    destruct st; naive_solver. }
  assert (Hidle : forall w, ~ is_ready g dir w -> ~ is_ready g' dir w).
  { intros w Hn H. apply Hn. intros p e Hp Hs. specialize (H p e Hp Hs).
    destruct (decide (p = id)) as [->|Hpid]; [by rewrite Hun in H|].
    rewrite (edge_sat_lookup g g') in H; [done|]. by rewrite Hlk, decide_False. }
  assert (Hnr : ~ is_ready g dir v -> ~ is_ready g' dir v').
  { intros Hn. apply Hidle. intros H. apply Hn. intros p e. rewrite <- Epr. apply H. }
  assert (Hnst : EvStart id ∉ tr).
  { rewrite Gst. intros (w & Hw & H). assert (w = v) as -> by congruence. destruct H as [|[]]; congruence. }
  assert (Hnf : forall res, EvFinish id res ∉ tr).
  { intros res. rewrite Gf. intros (w & Hw & ? & ?). congruence. }
  assert (Hnac : id ∉ ac).
  { rewrite Ga. intros (w & Hw & ?). congruence. }
  assert (Htk' : forall k, k ∈ tk <-> exists w, Vertices g' !! k = Some w /\ Queued w = true).
  { intros k. rewrite Hlk. destruct (decide (k = id)) as [->|Hk].
    - rewrite ex_Some. split; [done|congruence].
    - rewrite <- Gt, elem_of_cons. tauto. }
  assert (Hup : Blocked v' = Blocked v -> dir = walkFromEnd ->
    (exists k w, Vertices g' !! k = Some w /\ Blocked w = true) -> False).
  { intros Hs Hd (k & w & Hw & Hbw). destruct (Gu Hd) as [? _]; [|done].
    exists k. rewrite Hlk in Hw. case_decide; [|by exists w].
    exists v. subst. split; congruence. }
  destruct st; [left|right|right|done]; (split; [done|]).
  - destruct Hst as (Hrd & Hp' & Hc' & Hb'). constructor; try done.
    + by constructor.
    + intros k. rewrite Hlk, elem_of_cons, Ga.
      case_decide; [rewrite ex_Some; split; [done|by left]|]. split; [intros [?|?]; done|by right].
    + intros k w. rewrite Hlk. case_decide; [at_id|apply Gq].
    + intros k w. rewrite Hlk. case_decide; [at_id|apply Gr].
    + intros k w. rewrite Hlk. case_decide; [at_id|]. intros. apply Hidle. by eapply Gi.
    + intros k. rewrite elem_of_snoc, Hlk. case_decide as Hk; [subst; rewrite ex_Some; split; [by left|by right]|].
      rewrite <- Gst. split; [intros [H|[= H]]; [done|congruence]|by left].
    + rewrite starts_snoc. apply NoDup_app. split_and!; [done| |apply NoDup_singleton].
      intros k Hk%elem_of_starts. simpl. intros ->%list_elem_of_singleton. done.
    + intros k res. rewrite elem_of_snoc, Hlk. case_decide as Hk.
      * subst. rewrite ex_Some. split; [intros [H|H]; [by apply Hnf in H|done]|intros (? & _); congruence].
      * rewrite <- Gf. split; [by intros [?|?]|by left].
    + rewrite finishes_snoc. simpl. by rewrite app_nil_r.
    + intros k w. rewrite Hlk. case_decide; [at_id|apply Gb].
    + intros k w. rewrite Hlk. case_decide; [at_id|apply Gc].
    + intros Hd Hbl. by destruct (Hup Hb' Hd Hbl).
    + intros tr1 tr2 k H. apply snoc_split in H as [(-> & -> & [= ->])|(l & -> & ->)].
      * eapply ready_ordered; [exact HI|by left|done|done].
      * by eapply Go.
  - destruct Hst as (Hrd & Hp' & Hc' & Hb'). constructor; try done.
    + intros k. rewrite Hlk, Ga. case_decide; [subst; rewrite <- Ga, ex_Some; split; [done|congruence]|done].
    + intros k w. rewrite Hlk. case_decide; [at_id|apply Gq].
    + intros k w. rewrite Hlk. case_decide; [at_id|apply Gr].
    + intros k w. rewrite Hlk. case_decide; [intros [= <-] _ _ _ _; by apply Hnr|].
      intros. apply Hidle. by eapply Gi.
    + intros k. rewrite Hlk. case_decide; [|apply Gst]. subst. rewrite ex_Some.
      split; [done|intros [|[]]; congruence].
    + intros k res. rewrite Hlk. case_decide; [|apply Gf]. subst. rewrite ex_Some.
      split; [intros H; by apply Hnf in H|intros []; congruence].
    + intros k w. rewrite Hlk. case_decide; [at_id|apply Gb].
    + intros k w. rewrite Hlk. case_decide; [at_id|apply Gc].
    + intros Hd Hbl. by destruct (Hup Hb' Hd Hbl).
  - destruct Hst as (Hrd & -> & Hp' & Hc' & Hb' & He'). constructor; try done.
    + intros k. rewrite Hlk, Ga. case_decide; [subst; rewrite <- Ga, ex_Some; split; [done|congruence]|done].
    + intros k w. rewrite Hlk. case_decide; [at_id|apply Gq].
    + intros k w. rewrite Hlk. case_decide; [at_id|apply Gr].
    + intros k w. rewrite Hlk. case_decide; [at_id|]. intros. apply Hidle. by eapply Gi.
    + intros k. rewrite Hlk. case_decide; [|apply Gst]. subst. rewrite ex_Some.
      split; [done|intros [|[]]; congruence].
    + intros k res. rewrite Hlk. case_decide; [|apply Gf]. subst. rewrite ex_Some.
      split; [intros H; by apply Hnf in H|intros (? & ? & ?); congruence].
    + intros k w. rewrite Hlk. case_decide; [at_id|apply Gb].
    + intros k w. rewrite Hlk. case_decide; [at_id|apply Gc].
Qed.

Lemma ginv_complete g0 dir g tk ac tr id ord res g' ns :
  graph_wf g0 -> GInv g0 dir g tk (id :: ac) tr ->
  (forall v, Vertices g !! id = Some v -> ord ≡ₚ (map_to_list (succs dir v)).*1) ->
  complete g ord id res dir = (g', ns) ->
  GInv g0 dir g' (ns ++ tk) ac (tr ++ [EvFinish id res]).
Proof.
  intros Hwf HI Ho Hc. pose proof HI as [Gs Gtn Gt Gan Ga Gq Gr Gi Gst Gsn Gf Gfn Gb Gc Gu Go].
  destruct (proj1 (Ga id) ltac:(by left)) as (v & Hv & Hpv).
  destruct (Gr id v Hv Hpv) as (Hav & Hcv & Hbv). specialize (Ho v Hv).
  assert (Hnd : NoDup ord) by (rewrite Ho; apply NoDup_fst_map_to_list).
  destruct (complete_spec g ord id res dir v Hv Hnd Hcv) as
    (g1 & ns1 & v' & Hc1 & Hns & Es & Hq' & Hp' & Hc' & Hb' & Hres & _ & _ & Hin & Hlk).
  rewrite Hc in Hc1. injection Hc1 as <- <-. inversion Gan as [|? ? Hidac Hac]; subst.
  assert (Hqv : Queued v = false).
  { apply not_true_iff_false. intros H. destruct (Gq id v Hv H) as (_ & _ & _ & ?). congruence. }
  pose proof (statics_eq _ _ Es) as (Ea & _ & _ & Ei & _).
  assert (Hst' : same_static g0 g').
  { intros k. rewrite Hlk, <- (Gs k). case_decide; [subst; rewrite Hv; simpl; by rewrite Es|].
    case_decide; [|done]. by destruct (Vertices g !! k). }
  assert (Hns_v : forall k, k ∈ ns -> exists n, Vertices g !! k = Some n /\ Vertices g' !! k = Some (queue n) /\
     active n = true /\ Consumed n = false /\ Blocked n = false /\ InProgress n = false /\ Queued n = false /\ k <> id).
  { intros k Hk. pose proof Hk as (Hko & Hkid & Hks & n & Hn & H1 & H2 & H3 & H4)%Hin. exists n.
    rewrite Hlk, decide_False, decide_True, Hn by done.
    destruct (same_static_lookup _ _ _ _ Gs Hn) as (n0 & Hn0 & En). apply statics_eq in En as (En & _ & _ & Ein & _).
    split_and!; try done.
    - rewrite <- En. apply (wf_closure g0 Hwf k n0 Hn0). congruence.
    - apply not_true_iff_false. intros Hb. destruct (Gb k n Hn Hb). congruence. }
  assert (Hother : forall k, k <> id -> k ∉ ns -> Vertices g' !! k = Vertices g !! k).
  { intros k H1 H2. by rewrite Hlk, !decide_False. }
  assert (Hid' : Vertices g' !! id = Some v') by (by rewrite Hlk, decide_True).
  (* a vertex that became ready was released *)
  assert (Hidle : forall k w, k <> id -> k ∉ ns -> Vertices g !! k = Some w -> active w = true ->
    Queued w = false -> InProgress w = false -> Consumed w = false ->
    is_ready g' dir w -> is_ready g dir w).
  { intros k w Hkid Hkns Hw Haw H1 H2 H3 Hrd p e Hpe Hp. specialize (Hrd p e Hpe Hp).
    destruct (decide (p = id)) as [->|Hpid].
    - exfalso. apply Hkns, Hin. destruct (wf_pred_succ g g0 dir k id w v e Hwf Gs Hw Hv Hpe) as [e' He'].
      split_and!; [|done| |].
      + rewrite Ho. apply list_elem_of_fmap. exists (k, e'). split; [done|]. by apply elem_of_map_to_list.
      + intros ->. destruct (same_static_lookup _ _ _ _ Gs Hw) as (w0 & Hw0 & Ew).
        apply statics_eq in Ew as (Ew & _). rewrite <- Ew, (wf_virtual g0 Hwf dir w0 Hw0) in Haw. done.
      + exists w. split_and!; try done. by apply active_closure.
    - rewrite <- Hrd. destruct (decide (p ∈ ns)) as [Hpn|Hpn].
      + symmetry. apply edge_sat_queue. by rewrite Hlk, decide_False, decide_True.
      + symmetry. apply edge_sat_lookup. by apply Hother. }
  constructor; try done.
  - apply NoDup_app. split_and!; [done| |done]. intros k Hk Hkt. apply Gt in Hkt as (w & Hw & Hqw).
    destruct (Hns_v k Hk) as (n & Hn & _ & _ & _ & _ & _ & ? & _). congruence.
  - intros k. rewrite elem_of_app, Gt. destruct (decide (k ∈ ns)) as [Hk|Hk].
    + destruct (Hns_v k Hk) as (n & Hn & Hn' & _). rewrite Hn', ex_Some. split; [done|by left].
    + destruct (decide (k = id)) as [->|Hkid].
      * rewrite Hid', ex_Some, Hv, ex_Some, Hq'. split; [by intros [?|?]|by right].
      * rewrite Hother by done. split; [by intros [?|?]|by right].
  - intros k. destruct (decide (k = id)) as [->|Hkid].
    + rewrite Hid', ex_Some. split; [done|congruence].
    + transitivity (k ∈ id :: ac); [rewrite elem_of_cons; split; [by right|by intros [?|?]]|].
      rewrite Ga. destruct (decide (k ∈ ns)) as [Hk|Hk]; [|by rewrite Hother].
      destruct (Hns_v k Hk) as (n & -> & -> & _ & _ & _ & Hp & _). by rewrite !ex_Some.
  - intros k w. destruct (decide (k ∈ ns)) as [Hk|Hk].
    + destruct (Hns_v k Hk) as (n & _ & -> & H1 & H2 & H3 & H4 & _). intros [= <-] _. done.
    + destruct (decide (k = id)) as [->|Hkid]; [rewrite Hid'; at_id|]. rewrite Hother by done. apply Gq.
  - intros k w. destruct (decide (k ∈ ns)) as [Hk|Hk].
    + destruct (Hns_v k Hk) as (n & _ & -> & H1 & H2 & H3 & H4 & _). by intros [= <-] _.
    + destruct (decide (k = id)) as [->|Hkid]; [rewrite Hid'; at_id|]. rewrite Hother by done. apply Gr.
  - intros k w. destruct (decide (k ∈ ns)) as [Hk|Hk].
    + destruct (Hns_v k Hk) as (n & _ & -> & _). by intros [= <-].
    + destruct (decide (k = id)) as [->|Hkid]; [rewrite Hid'; at_id|]. rewrite Hother by done.
      intros Hw H1 H2 H3 H4 Hrd. eapply (Gi k w); try done. by eapply Hidle.
  - intros k. rewrite elem_of_snoc. transitivity (EvStart k ∈ tr); [split; [by intros [?|?]|by left]|].
    rewrite Gst. destruct (decide (k ∈ ns)) as [Hk|Hk].
    + destruct (Hns_v k Hk) as (n & -> & -> & _). by rewrite !ex_Some.
    + destruct (decide (k = id)) as [->|Hkid]; [|by rewrite Hother].
      rewrite Hid', Hv, !ex_Some. split; intros _; [right|left]; [split|]; congruence.
  - rewrite starts_snoc. simpl. by rewrite app_nil_r.
  - intros k r. rewrite elem_of_snoc. destruct (decide (k = id)) as [->|Hkid].
    + rewrite Hid', ex_Some, Hb'. split.
      * intros [H|[= ->]]; [|done]. apply Gf in H as (w & Hw & ? & _). congruence.
      * intros (_ & _ & <-). by right.
    + transitivity (EvFinish k r ∈ tr); [split; [intros [?|?]; [done|congruence]|by left]|].
      rewrite Gf. destruct (decide (k ∈ ns)) as [Hk|Hk]; [|by rewrite Hother].
      destruct (Hns_v k Hk) as (n & -> & -> & _). by rewrite !ex_Some.
  - rewrite finishes_snoc. apply NoDup_app. split_and!; [done| |apply NoDup_singleton].
    intros k Hk%elem_of_finishes ->%list_elem_of_singleton. destruct Hk as (r & Hr).
    apply Gf in Hr as (w & Hw & ? & _). congruence.
  - intros k w. destruct (decide (k ∈ ns)) as [Hk|Hk].
    + destruct (Hns_v k Hk) as (n & _ & -> & H1 & H2 & H3 & H4 & _). intros [= <-]. simpl. by rewrite H3.
    + destruct (decide (k = id)) as [->|Hkid]; [rewrite Hid'; at_id|]. rewrite Hother by done. apply Gb.
  - intros k w. destruct (decide (k ∈ ns)) as [Hk|Hk].
    + destruct (Hns_v k Hk) as (n & _ & -> & H1 & H2 & H3 & H4 & _). by intros [= <-] _.
    + destruct (decide (k = id)) as [->|Hkid]; [rewrite Hid'; at_id|]. rewrite Hother by done. apply Gc.
  - intros Hd (k & w & Hw & Hbw). exfalso. destruct (Gu Hd) as [_ ?]; [|done].
    destruct (decide (k ∈ ns)) as [Hk|Hk].
    + destruct (Hns_v k Hk) as (n & _ & E & _ & _ & Hb & _). rewrite Hw in E. injection E as ->.
      simpl in Hbw. congruence.
    + destruct (decide (k = id)) as [->|Hkid].
      * exists id, v. split; congruence.
      * rewrite Hother in Hw by done. eauto.
  - intros tr1 tr2 k H. apply snoc_split in H as [(-> & -> & [=])|(l & -> & ->)]. by eapply Go.
Qed.

(** Once no vertex is queued or running, the leftovers become blocked. *)
Definition all_consumed (g : reconcileGraph) : Prop :=
  forall k v, Vertices g !! k = Some v -> active v = true -> Consumed v = true.

Lemma ginv_finalize g0 dir g tk ac tr ord :
  GInv g0 dir g tk ac tr -> done g = true -> ord ≡ₚ (map_to_list (Vertices g)).*1 ->
  GInv g0 dir (finalize g ord) tk ac tr /\ all_consumed (finalize g ord) /\
  done (finalize g ord) = true.
Proof.
  intros HI Hd Ho. pose proof HI as [Gs Gtn Gt Gan Ga Gq Gr Gi Gst Gsn Gf Gfn Gb Gc Gu Go].
  rewrite done_spec in Hd.
  assert (Hnd : NoDup ord) by (rewrite Ho; apply NoDup_fst_map_to_list).
  assert (Hall : forall k v, Vertices g !! k = Some v -> k ∈ ord).
  { intros k v Hv. rewrite Ho. apply list_elem_of_fmap. exists (k, v). split; [done|].
    by apply elem_of_map_to_list. }
  destruct (finalize_spec ord g Hnd) as [_ Hf].
  (* what became of a vertex, and where one comes from *)
  assert (Hfw : forall k v', Vertices (finalize g ord) !! k = Some v' -> exists v,
    Vertices g !! k = Some v /\ statics v' = statics v /\ Queued v' = Queued v /\
    InProgress v' = InProgress v /\
    ((active v = true /\ Consumed v = false /\ Consumed v' = true /\ Blocked v' = true /\
      is_Some (Err v')) \/
     (v' = v /\ (active v = true -> Consumed v = true)))).
  { intros k v' Hv'. specialize (Hf k). destruct (Vertices g !! k) as [v|] eqn:Hv; [|congruence].
    destruct Hf as (v'' & E & H1 & H2 & H3 & H4). replace v'' with v' in * by congruence.
    exists v. split_and!; try done. case_decide as Hdec.
    - left. destruct Hdec as (_ & ? & ?), H4 as (? & ? & ? & ?). by split_and!.
    - right. split; [done|]. intros Ha. destruct (Consumed v); [done|].
      exfalso. apply Hdec. split_and!; try done. by eapply Hall. }
  assert (Hbw : forall k v, Vertices g !! k = Some v -> exists v', Vertices (finalize g ord) !! k = Some v').
  { intros k v Hv. specialize (Hf k). rewrite Hv in Hf. naive_solver. }
  assert (Hiff : forall k (Q : graphVertex -> Prop),
    (forall v v', statics v' = statics v -> Queued v' = Queued v -> InProgress v' = InProgress v ->
       active v = true -> Consumed v = false -> Consumed v' = true -> Blocked v' = true ->
       Vertices g !! k = Some v -> (Q v <-> Q v')) ->
    (exists v, Vertices g !! k = Some v /\ Q v) <->
    (exists v, Vertices (finalize g ord) !! k = Some v /\ Q v)).
  { intros k Q HQ. split.
    - intros (v & Hv & HQv). destruct (Hbw k v Hv) as (v' & Hv'). exists v'. split; [done|].
      destruct (Hfw k v' Hv') as (w & Hw & ? & ? & ? & Hor). replace w with v in * by congruence.
      destruct Hor as [(? & ? & ? & ? & _)|[-> _]]; [|done]. by apply (HQ v v').
    - intros (v' & Hv' & HQv). destruct (Hfw k v' Hv') as (v & Hv & ? & ? & ? & Hor). exists v. split; [done|].
      destruct Hor as [(? & ? & ? & ? & _)|[-> _]]; [|done]. by apply (HQ v v'). }
  split_and!.
  - constructor; try done.
    + intros k. specialize (Gs k). specialize (Hf k).
      destruct (Vertices g !! k) as [v|].
      * destruct Hf as (v' & -> & E & _). rewrite <- Gs. simpl. by rewrite E.
      * by rewrite Hf, <- Gs.
    + intros k. rewrite Gt. apply Hiff. intros v v' _ -> _ _ _ _ _ _. done.
    + intros k. rewrite Ga. apply Hiff. intros v v' _ _ -> _ _ _ _ _. done.
    + intros k v' Hv' Hq. destruct (Hfw k v' Hv') as (v & Hv & _ & Eq & _ & _). exfalso.
      rewrite Eq in Hq. destruct (Gq k v Hv Hq) as (Ha & _). destruct (Hd k v Hv Ha). congruence.
    + intros k v' Hv' Hp. destruct (Hfw k v' Hv') as (v & Hv & _ & _ & Ep & _). exfalso.
      rewrite Ep in Hp. destruct (Gr k v Hv Hp) as (Ha & _). destruct (Hd k v Hv Ha). congruence.
    + intros k v' Hv' Ha _ _ Hc. exfalso. destruct (Hfw k v' Hv') as (v & Hv & Es & _ & _ & Hor).
      apply statics_eq in Es as (Ea & _). destruct Hor as [(_ & _ & ? & _)|[-> H]]; [congruence|].
      rewrite H in Hc; congruence.
    + intros k. rewrite Gst. apply Hiff. intros v v' _ _ -> Ha Hc Hc' Hb' Hv.
      destruct (Hd k v Hv Ha) as [_ ->]. split; intros [|[]]; congruence.
    + intros k res. rewrite Gf. apply Hiff. intros v v' _ _ _ _ Hc Hc' Hb' _.
      split; intros (? & ? & ?); congruence.
    + intros k v' Hv'. destruct (Hfw k v' Hv') as (v & Hv & _ & _ & _ & Hor).
      destruct Hor as [(_ & _ & ? & _ & ?)|[-> _]]; [done|by apply (Gb k)].
    + intros k v' Hv' Hc. destruct (Hfw k v' Hv') as (v & Hv & Es & _ & _ & Hor).
      apply statics_eq in Es as (Ea & _). destruct Hor as [(? & _)|[-> _]]; [congruence|by apply (Gc k)].
    + intros _ _. split; apply elem_of_nil_inv.
      * intros k Hk. apply Gt in Hk as (v & Hv & Hq). destruct (Gq k v Hv Hq) as (Ha & _).
        destruct (Hd k v Hv Ha). congruence.
      * intros k Hk. apply Ga in Hk as (v & Hv & Hp). destruct (Gr k v Hv Hp) as (Ha & _).
        destruct (Hd k v Hv Ha). congruence.
  - intros k v' Hv' Ha. destruct (Hfw k v' Hv') as (v & Hv & Es & _ & _ & Hor).
    apply statics_eq in Es as (Ea & _). destruct Hor as [(_ & _ & ? & _)|[-> H]]; [done|by apply H].
  - apply done_spec. intros k v' Hv' Ha. destruct (Hfw k v' Hv') as (v & Hv & Es & -> & -> & _).
    apply statics_eq in Es as (Ea & _). apply (Hd k v Hv). congruence.
Qed.

Lemma ginv_seed g dir :
  graph_wf g -> GInv g dir (seed g dir).1 (seed g dir).2 [] [].
Proof.
  intros Hwf. destruct (seed_spec g dir) as (_ & Hlk & Hnd & Hin).
  assert (Hv : forall k v', Vertices (seed g dir).1 !! k = Some v' -> exists v,
    Vertices g !! k = Some v /\ statics v' = statics v /\ Queued v' = is_seed g dir v /\
    InProgress v' = false /\ Consumed v' = false /\ Blocked v' = false).
  { intros k v'. rewrite Hlk. intros (v & Hv & ->)%fmap_Some. exists v.
    destruct (wf_fresh g Hwf k v Hv) as (H1 & H2 & H3 & H4).
    destruct (is_seed g dir v) eqn:E; split_and!; done. }
  constructor; try done.
  - intros k. rewrite Hlk. destruct (Vertices g !! k) as [v|]; [|done]. simpl.
    by destruct (is_seed g dir v).
  - intros k. rewrite Hin. split.
    + intros (v & Hk & Hs). exists (queue v). rewrite Hlk, Hk. simpl. by rewrite Hs.
    + intros (v' & Hk & Hq). destruct (Hv k v' Hk) as (v & Hk' & _ & E & _). exists v. split; congruence.
  - constructor.
  - intros k. split; [by intros ?%elem_of_nil|]. intros (v' & Hk & Hp).
    destruct (Hv k v' Hk) as (v & _ & _ & _ & ? & _). congruence.
  - intros k v' Hk Hq. destruct (Hv k v' Hk) as (v & Hk' & Es & E & H1 & H2 & H3).
    apply statics_eq in Es as (-> & _). split_and!; try done.
    rewrite E in Hq. by apply is_seed_true in Hq as [? _].
  - intros k v' Hk Hp. destruct (Hv k v' Hk) as (v & _ & _ & _ & ? & _). congruence.
  - intros k v' Hk Ha Hq _ _ Hrd. destruct (Hv k v' Hk) as (v & Hk' & Es & E & _).
    apply statics_eq in Es as (Ea & Ep & _). rewrite E in Hq. rewrite Ea in Ha.
    destruct (is_seed_false g dir v Ha Hq) as (p & e & n & Hpe & Hps & Hn & Hc).
    specialize (Hrd p e). rewrite Ep in Hrd. specialize (Hrd Hpe Hps).
    destruct (Vertices (seed g dir).1 !! p) as [n'|] eqn:En.
    2:{ rewrite Hlk, Hn in En. done. }
    destruct (Hv p n' En) as (n'' & Hn'' & Es' & _ & _ & Hc' & _).
    replace n'' with n in * by congruence.
    apply statics_eq in Es' as (_ & _ & _ & Ei & _).
    rewrite (edge_unsat _ dir p n' e En) in Hrd; [done|congruence|by left].
  - intros k. split; [by intros ?%elem_of_nil|]. intros (v' & Hk & Hp).
    destruct (Hv k v' Hk) as (v & _ & _ & _ & ? & ? & _). destruct Hp as [|[]]; congruence.
  - constructor.
  - intros k res. split; [by intros ?%elem_of_nil|]. intros (v' & Hk & ? & _).
    destruct (Hv k v' Hk) as (v & _ & _ & _ & ? & ? & _). congruence.
  - constructor.
  - intros k v' Hk Hb. destruct (Hv k v' Hk) as (v & _ & _ & _ & _ & _ & ?). congruence.
  - intros k v' Hk Hb. destruct (Hv k v' Hk) as (v & _ & _ & _ & _ & ? & _). congruence.
  - intros _ (k & v' & Hk & Hb). destruct (Hv k v' Hk) as (v & _ & _ & _ & _ & _ & ?). congruence.
  - intros tr1 tr2 k H. by destruct tr1.
Qed.

(** ** The invariant of the workers *)

Definition wk_tokens (w : worker) : list vertexID :=
  match w with WClaim id => [id] | WSend ns => ns | WExit ns => ns | _ => [] end.
Definition wk_acting (w : worker) : list vertexID :=
  match w with WAct id => [id] | _ => [] end.

Definition tokens (s : wstate) : list vertexID := workCh (sh s) ++ flat_map wk_tokens (workers s).
Definition acting (s : wstate) : list vertexID := flat_map wk_acting (workers s).

(** A worker that will look at the graph again before it waits. *)
Definition busy (w : worker) : bool :=
  match w with WSend _ | WCheck | WFin | WCancel => true | _ => false end.
Definition finishing (w : worker) : bool :=
  match w with WFin | WCancel => true | _ => false end.

Record WInv (g0 : reconcileGraph) (dir : walkDirection) (s : wstate) (tr : list event) : Prop := {
  wi_graph : GInv g0 dir (gr (sh s)) (tokens s) (acting s) tr;
  wi_live : cancelled (sh s) = true \/ tokens s <> [] \/ acting s <> [] \/
    exists w, w ∈ workers s /\ busy w = true;
  wi_done : (exists w, w ∈ workers s /\ finishing w = true) -> done (gr (sh s)) = true;
  wi_final : WCancel ∈ workers s \/ (cancelled (sh s) = true /\ external s = false) ->
    all_consumed (gr (sh s)) /\ done (gr (sh s)) = true;
  wi_exit : forall ns, WExit ns ∈ workers s -> cancelled (sh s) = true;
  wi_external : external s = true -> cancelled (sh s) = true;
  wi_workers : workers s = [] -> cancelled (sh s) = true;
}.

Lemma done_no_tokens g0 dir g tk ac tr :
  GInv g0 dir g tk ac tr -> done g = true <-> tk = [] /\ ac = [].
Proof.
  intros HI. rewrite done_spec. split.
  - intros Hd. split; apply elem_of_nil_inv; intros k Hk.
    + apply (gi_tk _ _ _ _ _ _ HI) in Hk as (v & Hv & Hq).
      destruct (gi_queued _ _ _ _ _ _ HI k v Hv Hq) as (Ha & _). destruct (Hd k v Hv Ha). congruence.
    + apply (gi_ac _ _ _ _ _ _ HI) in Hk as (v & Hv & Hq).
      destruct (gi_running _ _ _ _ _ _ HI k v Hv Hq) as (Ha & _). destruct (Hd k v Hv Ha). congruence.
  - intros [-> ->] k v Hv _. split; apply not_true_iff_false; intros H.
    + assert (k ∈ ([] : list vertexID)) as Hk by (apply (gi_tk _ _ _ _ _ _ HI); eauto).
      by apply elem_of_nil in Hk.
    + assert (k ∈ ([] : list vertexID)) as Hk by (apply (gi_ac _ _ _ _ _ _ HI); eauto).
      by apply elem_of_nil in Hk.
Qed.

(** The tokens and running actions around one worker. *)
Lemma tokens_split s l1 w l2 x :
  tokens (MkState s (l1 ++ w :: l2) x)
  ≡ₚ wk_tokens w ++ (workCh s ++ flat_map wk_tokens l1 ++ flat_map wk_tokens l2).
Proof.
  unfold tokens; simpl. rewrite flat_map_app. simpl. solve_Permutation.
Qed.

Lemma acting_split s l1 w l2 x :
  acting (MkState s (l1 ++ w :: l2) x) ≡ₚ wk_acting w ++ (flat_map wk_acting l1 ++ flat_map wk_acting l2).
Proof. unfold acting; simpl. rewrite flat_map_app. simpl. solve_Permutation. Qed.

(** The graph part of a worker's step. *)
Lemma local_graph g0 dir cap act s w e s' w' tk ac tr :
  graph_wf g0 -> local dir cap act s w e s' w' ->
  GInv g0 dir (gr s) (wk_tokens w ++ workCh s ++ tk) (wk_acting w ++ ac) tr ->
  (finishing w = true -> done (gr s) = true) ->
  GInv g0 dir (gr s') (wk_tokens w' ++ workCh s' ++ tk) (wk_acting w' ++ ac) (tr ++ e).
Proof.
  intros Hwf Hl HI Hd. destruct Hl; simpl in *; rewrite ?app_nil_r; try done.
  - pose proof (ginv_claim g0 dir g _ ac tr id ord g' st HI H H0) as [[-> HI']|[Hst HI']]; simpl.
    + exact HI'.
    + rewrite !decide_False by done. simpl. by rewrite app_nil_r.
  - eapply ginv_complete; done.
  - revert HI. apply GInv_perm; [solve_Permutation|done|done].
  - apply ginv_finalize; auto.
Qed.

(** Once nothing is queued or running, only [finalize] changes the graph. *)
Lemma local_done g0 dir cap act s w e s' w' tk ac tr :
  local dir cap act s w e s' w' ->
  GInv g0 dir (gr s) (wk_tokens w ++ workCh s ++ tk) (wk_acting w ++ ac) tr ->
  done (gr s) = true ->
  (gr s' = gr s \/ exists ord, ord ≡ₚ (map_to_list (Vertices (gr s))).*1 /\ gr s' = finalize (gr s) ord)
  /\ e = [].
Proof.
  intros Hl HI Hd. apply (done_no_tokens _ _ _ _ _ _ HI) in Hd as [Ht Ha].
  destruct Hl; simpl in *; try done; eauto.
Qed.

(** What a worker does next, in a graph that still has work. *)
Lemma local_live dir cap act s w e s' w' :
  local dir cap act s w e s' w' ->
  cancelled s' = true \/ wk_tokens w' <> [] \/ wk_acting w' <> [] \/ busy w' = true \/
  (w = WCheck /\ w' = WIdle /\ done (gr s') = false).
Proof. destruct 1; try case_decide; simpl; naive_solver. Qed.

Lemma winv_step g0 dir cap act s tr e s' :
  graph_wf g0 -> WInv g0 dir s tr -> wstep dir cap act s e s' -> WInv g0 dir s' (tr ++ e).
Proof.
  intros Hwf [Hg Hlive Hdone Hfinal Hexit Hext _] Hstep.
  destruct Hstep as [s l1 w l2 x e s' w' Hl|s ws].
  2:{ rewrite app_nil_r. constructor; simpl in *; try done; [by left|].
      intros [H|[_ ?]]; [|done]. by apply Hfinal; left. }
  rewrite tokens_split, acting_split in Hg.
  assert (Hg1 : GInv g0 dir (gr s) (wk_tokens w ++ workCh s ++ flat_map wk_tokens l1 ++ flat_map wk_tokens l2)
    (wk_acting w ++ flat_map wk_acting l1 ++ flat_map wk_acting l2) tr) by exact Hg.
  assert (Hfin : finishing w = true -> done (gr s) = true).
  { intros H. apply Hdone. exists w. split; [set_solver|done]. }
  pose proof (local_graph g0 dir cap act s w e s' w' _ _ tr Hwf Hl Hg1 Hfin) as Hg'.
  assert (Hd' : done (gr s) = true -> done (gr s') = true).
  { intros Hd. destruct (local_done _ _ _ _ _ _ _ _ _ _ _ _ Hl Hg1 Hd) as [[->|(ord & Ho & ->)] _]; [done|].
    by eapply ginv_finalize. }
  assert (Hc' : all_consumed (gr s) -> done (gr s) = true -> all_consumed (gr s')).
  { intros Hc Hd. destruct (local_done _ _ _ _ _ _ _ _ _ _ _ _ Hl Hg1 Hd) as [[->|(ord & Ho & ->)] _]; [done|].
    by eapply ginv_finalize. }
  constructor; simpl.
  - by rewrite tokens_split, acting_split.
  - destruct (local_live _ _ _ _ _ _ _ _ Hl) as [H|[H|[H|[H|(-> & -> & H)]]]].
    + by left.
    + right. left. intros E. pose proof (tokens_split s' l1 w' l2 x) as Hp. rewrite E in Hp.
      apply Permutation_nil_l in Hp. by destruct (wk_tokens w').
    + right. right. left. intros E. pose proof (acting_split s' l1 w' l2 x) as Hp. rewrite E in Hp.
      apply Permutation_nil_l in Hp. by destruct (wk_acting w').
    + right. right. right. exists w'. split; [set_solver|done].
    + right. destruct (decide (tokens (MkState s' (l1 ++ WIdle :: l2) x) = [])) as [E1|]; [|by left].
      right. left. intros E2. apply not_true_iff_false in H. apply H.
      apply (done_no_tokens _ _ _ _ _ _ Hg').
      pose proof (tokens_split s' l1 WIdle l2 x) as Hp1. pose proof (acting_split s' l1 WIdle l2 x) as Hp2.
      rewrite E1 in Hp1. rewrite E2 in Hp2. by apply Permutation_nil_l in Hp1, Hp2.
  - intros (w0 & Hw0 & Hf0). apply elem_of_app in Hw0. rewrite elem_of_cons in Hw0.
    assert (w0 = w' \/ w0 ∈ l1 ++ w :: l2) as [->|Hw].
    { rewrite elem_of_app, elem_of_cons. tauto. }
    + clear Hfinal Hexit Hlive. destruct Hl; simpl in *; try done; [by case_decide|].
      apply Hd', Hdone. exists WFin. split; [set_solver|done].
    + apply Hd', Hdone. eauto.
  - intros H.
    assert (all_consumed (gr s) /\ done (gr s) = true \/
      (exists ord, ord ≡ₚ (map_to_list (Vertices (gr s))).*1 /\ gr s' = finalize (gr s) ord)
      /\ done (gr s) = true) as [[Ha Hd]|[(ord & Ho & E) Hd]].
    { destruct H as [H|[H ->]].
      - assert (WCancel = w' \/ WCancel ∈ l1 ++ w :: l2) as [<-|Hw].
        { apply elem_of_app in H. rewrite elem_of_cons in H. rewrite elem_of_app, elem_of_cons. tauto. }
        + right. inversion Hl; subst; simpl in *; try (by case_decide); eauto.
        + left. by apply Hfinal; left.
      - left. apply Hfinal. inversion Hl; subst; simpl in *; try (by right). left. set_solver. }
    + split; [by apply Hc'|by apply Hd'].
    + rewrite E. split; by eapply ginv_finalize.
  - intros ns H. assert (WExit ns = w' \/ WExit ns ∈ l1 ++ w :: l2) as [E|Hw].
    { apply elem_of_app in H. rewrite elem_of_cons in H. rewrite elem_of_app, elem_of_cons. tauto. }
    + subst w'. inversion Hl; subst; simpl in *; try done. by case_decide.
    + specialize (Hexit ns Hw). inversion Hl; subst; done.
  - intros ->. specialize (Hext eq_refl). inversion Hl; subst; done.
  - by destruct l1.
Qed.

Lemma winv_start g0 dir limit s :
  graph_wf g0 -> walk_start g0 dir limit s -> WInv g0 dir s [].
Proof.
  intros Hwf Hs. pose proof (ginv_seed g0 dir Hwf) as HI. destruct Hs as [ord Hd Ho|Hd].
  - destruct (ginv_finalize _ _ _ _ _ _ ord HI Hd Ho) as (HI' & Hall & Hd').
    unfold tokens, acting. constructor; unfold tokens, acting;
      cbn [sh workers workCh gr cancelled external flat_map]; rewrite ?app_nil_r; try done; by left.
  - assert (Hex : forall w, w ∈ replicate (max limit 1) WIdle -> w = WIdle).
    { intros w Hw. by apply elem_of_replicate in Hw as [-> _]. }
    assert (Ht : flat_map wk_tokens (replicate (max limit 1) WIdle) = []).
    { clear. induction (max limit 1); [done|]. simpl. done. }
    assert (Ha : flat_map wk_acting (replicate (max limit 1) WIdle) = []).
    { clear. induction (max limit 1); [done|]. simpl. done. }
    unfold tokens, acting. constructor; unfold tokens, acting; cbn [sh workers workCh gr cancelled external];
      rewrite ?Ht, ?Ha, ?app_nil_r; try done.
    + right. left. intros E. rewrite E in HI. apply not_true_iff_false in Hd. apply Hd.
      by apply (done_no_tokens _ _ _ _ _ _ HI).
    + intros (w & Hw%Hex & Hf). by subst.
    + intros [H%Hex|[? _]]; done.
    + by intros ns ?%Hex.
    + intros H. apply (f_equal length) in H. rewrite length_replicate in H. simpl in H. lia.
Qed.

(** Every reachable state satisfies the invariant. *)
Lemma reaches_winv g0 dir limit act tr s :
  graph_wf g0 -> reaches g0 dir limit act tr s -> WInv g0 dir s tr.
Proof.
  intros Hwf (s0 & Hs0 & Hrun). induction Hrun as [s|s tr s' e s'' _ IH Hstep].
  - by apply (winv_start g0 dir limit).
  - by eapply winv_step; [|apply IH|].
Qed.
