(* ===== verification/WalkExec.v ===== *)
(** * Running the walk

    A scheduler for the step relation of [Walk]: it lets one chosen worker take
    its next step, with the maps visited in the order [map_to_list] gives and the
    results of the actions given by a function.  Sound for the step relation, so a
    concrete schedule is a run; and a worker it cannot move is one that waits,
    which is what the progress theorem rests on. *)

From S2P Require Import Prelude GoStr Model ComposeSpec Reconcile Scheduling Walk.

Inductive choice := Move (i : nat) | Leave (i : nat) | Cancel.

Section Exec.
Context (dir : walkDirection) (cap : nat) (pick : vertexID -> actionResult).

Definition pred_order (g : reconcileGraph) (id : vertexID) : list (vertexID * graphEdge) :=
  match Vertices g !! id with Some v => map_to_list (preds dir v) | None => [] end.
Definition succ_order (g : reconcileGraph) (id : vertexID) : list vertexID :=
  match Vertices g !! id with Some v => (map_to_list (succs dir v)).*1 | None => [] end.

Definition local_fn (s : shared) (w : worker) : option (list event * shared * worker) :=
  let '(MkShared g ch c) := s in
  match w with
  | WIdle => match ch with
             | id :: ch => Some ([], MkShared g ch c, WClaim id)
             | [] => if (c : bool) then Some ([], s, WExit []) else None
             end
  | WClaim id =>
      let '(g', st) := claim g (pred_order g id) id dir in
      Some (if decide (st = stepReady) then [EvStart id] else [], MkShared g' ch c,
            if decide (st = stepReady) then WAct id else WSend [])
  | WAct id =>
      let '(g', ns) := complete g (succ_order g id) id (pick id) dir in
      Some ([EvFinish id (pick id)], MkShared g' ch c, WSend ns)
  | WSend [] => Some ([], s, WCheck)
  | WSend (n :: ns) =>
      if decide (length ch < cap) then Some ([], MkShared g (ch ++ [n]) c, WSend ns)
      else if (c : bool) then Some ([], s, WExit (n :: ns)) else None
  | WCheck => Some ([], s, if done g then WFin else WIdle)
  | WFin => Some ([], MkShared (finalize g (map_to_list (Vertices g)).*1) ch c, WCancel)
  | WCancel => Some ([], MkShared g ch true, WExit [])
  | WExit _ => None
  end.

Definition step_fn (s : wstate) (i : nat) : option (list event * wstate) :=
  match workers s !! i with
  | None => None
  | Some w =>
    match local_fn (sh s) w with
    | None => None
    | Some (e, s', w') => Some (e, MkState s' (<[i := w']> (workers s)) (external s))
    end
  end.

(** A worker that takes the [Done] case of its [select] although the other case
    is open too. *)
Definition leave_fn (s : wstate) (i : nat) : option (list event * wstate) :=
  if cancelled (sh s) then
    match workers s !! i with
    | Some WIdle => Some ([], MkState (sh s) (<[i := WExit []]> (workers s)) (external s))
    | Some (WSend (n :: ns)) =>
        Some ([], MkState (sh s) (<[i := WExit (n :: ns)]> (workers s)) (external s))
    | _ => None
    end
  else None.

(** A choice of the scheduler: a worker's step, a worker that leaves, or the end of
    the caller's context. *)
Definition choose (s : wstate) (c : choice) : option (list event * wstate) :=
  match c with
  | Move i => step_fn s i
  | Leave i => leave_fn s i
  | Cancel => if external s then None
              else Some ([], MkState (MkShared (gr (sh s)) (workCh (sh s)) true) (workers s) true)
  end.

(** Follow a schedule; choices that cannot move are passed over. *)
Fixpoint exec (s : wstate) (tr : list event) (cs : list choice) : list event * wstate :=
  match cs with
  | [] => (tr, s)
  | c :: cs => match choose s c with
               | Some (e, s') => exec s' (tr ++ e) cs
               | None => exec s tr cs
               end
  end.

Context (act : vertexID -> actionResult -> Prop) (Hpick : forall id, act id (pick id)).

Lemma local_fn_sound s w e s' w' :
  local_fn s w = Some (e, s', w') -> local dir cap act s w e s' w'.
Proof.
  destruct s as [g ch c], w as [|id|id|ns| | | |dr]; simpl; intros H; try done.
  - destruct ch as [|id ch]; [destruct c; [|done]|]; simplify_eq; constructor.
  - destruct (claim g (pred_order g id) id dir) as [g' st] eqn:E. simplify_eq.
    eapply l_claim; [|exact E]. intros v Hv. unfold pred_order. by rewrite Hv.
  - destruct (complete g (succ_order g id) id (pick id) dir) as [g' ns] eqn:E. simplify_eq.
    eapply l_complete; [apply Hpick| |exact E]. intros v Hv. unfold succ_order. by rewrite Hv.
  - destruct ns as [|n ns]; [|case_decide; [|destruct c; [|done]]]; simplify_eq; by constructor.
  - destruct (done g) eqn:E; simplify_eq; by constructor.
  - simplify_eq. by constructor.
  - simplify_eq. constructor.
Qed.

Lemma at_index s ws i w w' x e s' :
  ws !! i = Some w -> local dir cap act s w e s' w' ->
  wstep dir cap act (MkState s ws x) e (MkState s' (<[i := w']> ws) x).
Proof.
  intros (l1 & l2 & -> & ->)%list_elem_of_split_length Hl.
  rewrite insert_app_r_alt, Nat.sub_diag by done. by constructor.
Qed.

Lemma step_fn_sound s i e s' : step_fn s i = Some (e, s') -> wstep dir cap act s e s'.
Proof.
  unfold step_fn. destruct s as [s0 ws x]; simpl. destruct (ws !! i) as [w|] eqn:Hi; [|done].
  destruct (local_fn s0 w) as [[[e' s1] w']|] eqn:E; [|done]. intros [= <- <-].
  apply local_fn_sound in E. by eapply at_index.
Qed.

Lemma leave_fn_sound s i e s' : leave_fn s i = Some (e, s') -> wstep dir cap act s e s'.
Proof.
  unfold leave_fn. destruct s as [[g ch c] ws x]; simpl. destruct c; [|done].
  destruct (ws !! i) as [w|] eqn:Hi; [|done].
  destruct w as [| | |[|n ns]| | | |]; try done; intros [= <- <-]; (eapply at_index; [done|constructor]).
Qed.

Lemma choose_sound s c e s' : choose s c = Some (e, s') -> wstep dir cap act s e s'.
Proof.
  destruct c as [i|i|]; simpl; [apply step_fn_sound|apply leave_fn_sound|].
  destruct s as [s0 ws []]; simpl; [done|]. intros [= <- <-]. constructor.
Qed.

Lemma exec_sound s0 cs : forall s tr,
  run dir cap act s0 tr s -> run dir cap act s0 (exec s tr cs).1 (exec s tr cs).2.
Proof.
  induction cs as [|c cs IH]; intros s tr Hr; simpl; [done|].
  destruct (choose s c) as [[e s']|] eqn:E; [|by apply IH].
  apply IH. eapply run_step; [done|]. by eapply choose_sound.
Qed.

(** A worker that cannot move has returned, waits for a vertex, or waits for room
    in the channel. *)
Lemma local_fn_stuck s w :
  local_fn s w = None ->
  (exists ds, w = WExit ds) \/
  (w = WIdle /\ workCh s = [] /\ cancelled s = false) \/
  (exists n ns, w = WSend (n :: ns) /\ cap <= length (workCh s) /\ cancelled s = false).
Proof.
  destruct s as [g ch c], w as [|id|id|ns| | | |dr]; simpl; intros H; try done.
  - right. left. destruct ch; [|done]. by destruct c.
  - by destruct (claim _ _ _ _).
  - by destruct (complete _ _ _ _ _).
  - right. right. destruct ns as [|n ns]; [done|]. case_decide; [done|]. destruct c; [done|].
    exists n, ns. split_and!; [done|lia|done].
  - by left; exists dr.
Qed.
End Exec.

(** The state [walk] starts from. *)
Definition start_fn (g : reconcileGraph) (dir : walkDirection) (limit : nat) : wstate :=
  let '(g, ids) := seed g dir in
  if done g
  then MkState (MkShared (finalize g (map_to_list (Vertices g)).*1) ids true) [] false
  else MkState (MkShared g ids false) (replicate (max limit 1) WIdle) false.

Lemma start_fn_sound g dir limit : walk_start g dir limit (start_fn g dir limit).
Proof.
  unfold start_fn. destruct (seed g dir) as [g' ids] eqn:E.
  replace g' with (seed g dir).1 by by rewrite E. replace ids with (seed g dir).2 by by rewrite E.
  destruct (done (seed g dir).1) eqn:Hd.
  - by apply (start_empty g dir limit).
  - by constructor.
Qed.

(** The walk of [g] under a schedule. *)
Definition walk_fn (g : reconcileGraph) (dir : walkDirection) (limit : nat)
    (pick : vertexID -> actionResult) (cs : list choice) : list event * wstate :=
  exec dir (capacity g) pick (start_fn g dir limit) [] cs.

Lemma walk_fn_reaches g dir limit pick act cs :
  (forall id, act id (pick id)) ->
  reaches g dir limit act (walk_fn g dir limit pick cs).1 (walk_fn g dir limit pick cs).2.
Proof.
  intros Hp. exists (start_fn g dir limit). split; [apply start_fn_sound|].
  apply exec_sound; [done|]. constructor.
Qed.
