(* ===== verification/WalkProps.v ===== *)
(** * What the walk guarantees

    Facts about every reachable state of [reconcileGraph.walk], for any graph
    that [graph_wf] describes: sends never wait, every run ends, no run gets
    stuck, and what the vertices look like when the workers have returned. *)

From S2P Require Import Prelude GoStr Model ComposeSpec Reconcile Scheduling Walk WalkExec Graph.

(** ** Sends never wait *)

Lemma commandCount_static g0 g : same_static g0 g -> commandCount g = commandCount g0.
Proof.
  intros Hs. unfold commandCount. rewrite <- !size_dom. f_equal. apply set_eq. intros k.
  rewrite !elem_of_dom. unfold is_Some. setoid_rewrite map_lookup_filter_Some. simpl.
  split; intros (v & Hv & Hc).
  - destruct (same_static_lookup _ _ _ _ Hs Hv) as (w & Hw & E). apply statics_eq in E as (_ & _ & _ & _ & _ & _ & E).
    exists w. by rewrite E.
  - destruct (same_static_lookup_r _ _ _ _ Hs Hv) as (w & Hw & E). apply statics_eq in E as (_ & _ & _ & _ & _ & _ & E).
    exists w. by rewrite <- E.
Qed.

Lemma command_list_le g (l : list vertexID) :
  NoDup l -> (forall id, id ∈ l -> exists v, Vertices g !! id = Some v /\ active v = true) ->
  length l <= commandCount g.
Proof.
  intros Hnd Hl. unfold commandCount. rewrite <- size_dom.
  rewrite <- (size_list_to_set (C := gset vertexID) l Hnd). apply subseteq_size.
  intros id Hid%elem_of_list_to_set. destruct (Hl id Hid) as (v & Hv & Ha).
  apply elem_of_dom. exists v. apply map_lookup_filter_Some. split; [done|].
  unfold active in Ha. split_hyps. done.
Qed.

Lemma tokens_le g0 dir g tk ac tr : GInv g0 dir g tk ac tr -> length tk <= commandCount g0.
Proof.
  intros HI. rewrite <- (commandCount_static g0 g) by apply HI.
  apply command_list_le; [apply HI|]. intros id Hid.
  apply (gi_tk _ _ _ _ _ _ HI) in Hid as (v & Hv & Hq). exists v.
  split; [done|]. by apply (gi_queued _ _ _ _ _ _ HI id).
Qed.

Lemma send_room g0 dir s tr n ns :
  WInv g0 dir s tr -> WSend (n :: ns) ∈ workers s -> length (workCh (sh s)) < capacity g0.
Proof.
  intros HI (l1 & l2 & Hw)%list_elem_of_split. pose proof (tokens_le _ _ _ _ _ _ (wi_graph _ _ _ _ HI)) as Hle.
  destruct s as [s ws x]. simpl in *. subst ws. rewrite tokens_split in Hle.
  rewrite !length_app in Hle. simpl in Hle. unfold capacity. lia.
Qed.

(** ** Progress *)

Lemma flat_map_nil {A B} (f : A -> list B) l : (forall x, x ∈ l -> f x = []) -> flat_map f l = [].
Proof.
  induction l as [|x l IH]; intros H; [done|]. simpl. rewrite (H x) by (by left).
  apply IH. intros y Hy. apply H. by right.
Qed.

Definition exited (w : worker) : bool := match w with WExit _ => true | _ => false end.

(** Every worker has returned: [eg.Wait] is through. *)
Definition finished (s : wstate) : Prop := forall w, w ∈ workers s -> exited w = true.

Lemma finished_exits s n : workers s = replicate n (WExit []) -> finished s.
Proof. intros Hw w. rewrite Hw. by intros [-> _]%elem_of_replicate. Qed.

Lemma winv_progress g0 dir pick s tr :
  WInv g0 dir s tr -> finished s \/ exists i, is_Some (step_fn dir (capacity g0) pick s i).
Proof.
  intros HI.
  assert (Hmove : forall w, w ∈ workers s -> exited w = false -> w <> WIdle ->
    exists i, is_Some (step_fn dir (capacity g0) pick s i)).
  { intros w Hw He Hi. pose proof Hw as [i Hl]%list_elem_of_lookup. exists i. unfold step_fn. rewrite Hl.
    destruct (local_fn dir (capacity g0) pick (sh s) w) as [[[e s'] w']|] eqn:E; [by eexists|].
    apply local_fn_stuck in E as [(ds & ->)|[(-> & _)|(n & ns & -> & Hc & _)]]; [done|done|].
    pose proof (send_room _ _ _ _ _ _ HI Hw). lia. }
  destruct (decide (Exists (fun w => exited w = false /\ w <> WIdle) (workers s))) as [Hx|Hx].
  { apply Exists_exists in Hx as (w & Hw & He & Hi). right. by apply (Hmove w). }
  assert (Hall : forall w, w ∈ workers s -> exited w = true \/ w = WIdle).
  { intros w Hw. destruct (exited w) eqn:E; [by left|right].
    destruct w; try done; exfalso; apply Hx, Exists_exists; by eexists. }
  destruct (decide (WIdle ∈ workers s)) as [Hi|Hi].
  2:{ left. intros w Hw. destruct (Hall w Hw) as [?| ->]; done. }
  right. pose proof Hi as [i Hl]%list_elem_of_lookup. exists i. unfold step_fn. rewrite Hl.
  destruct (local_fn dir (capacity g0) pick (sh s) WIdle) as [[[e s'] w']|] eqn:E; [by eexists|].
  exfalso. apply local_fn_stuck in E as [[? ?]|[(_ & Hch & Hc)|(? & ? & ? & _)]]; try done.
  assert (Hno : forall w, w ∈ workers s -> wk_tokens w = [] /\ wk_acting w = [] /\ busy w = false).
  { intros w Hw. destruct (Hall w Hw) as [He| ->]; [|done]. destruct w as [| | | | | | |ds]; try done.
    by rewrite (wi_exit _ _ _ _ HI ds Hw) in Hc. }
  assert (Hf : forall f : worker -> list vertexID, (forall w, w ∈ workers s -> f w = []) ->
    flat_map f (workers s) = []).
  { intros f Hw. by apply flat_map_nil. }
  destruct (wi_live _ _ _ _ HI) as [H|[H|[H|(w & Hw & Hb)]]].
  - congruence.
  - apply H. unfold tokens. rewrite Hch, Hf; [done|]. intros w Hw. by apply Hno.
  - apply H. unfold acting. apply Hf. intros w Hw. by apply Hno.
  - destruct (Hno w Hw) as (_ & _ & ?). congruence.
Qed.

(** ** Termination *)

Definition worker_weight (w : worker) : nat :=
  match w with
  | WClaim _ => 7
  | WAct _ => 6
  | WSend ns => 5 + 8 * length ns
  | WCheck => 4
  | WIdle => 3
  | WFin => 2
  | WCancel => 1
  | WExit _ => 0
  end.

Definition unconsumed (g : reconcileGraph) : nat :=
  size (filter (fun kv => Consumed kv.2 = false) (Vertices g)).

(** What is left to do: every step makes it smaller. *)
Definition shared_weight (n : nat) (s : shared) : nat :=
  5 * length (workCh s) + (8 * n + 1) * unconsumed (gr s).

Definition work_left (n : nat) (s : wstate) : nat :=
  shared_weight n (sh s) + sum_list (worker_weight <$> workers s) + (if external s then 0 else 1).

Lemma unconsumed_dom g g' :
  (forall k v', Vertices g' !! k = Some v' -> Consumed v' = false ->
     exists v, Vertices g !! k = Some v /\ Consumed v = false) ->
  unconsumed g' <= unconsumed g /\
  forall k v, Vertices g !! k = Some v -> Consumed v = false ->
    (forall v', Vertices g' !! k = Some v' -> Consumed v' = true) -> unconsumed g' < unconsumed g.
Proof.
  intros H. unfold unconsumed. rewrite <- !size_dom.
  assert (dom (filter (fun kv => Consumed kv.2 = false) (Vertices g')) ⊆
          dom (filter (fun kv => Consumed kv.2 = false) (Vertices g))) as Hsub.
  { intros k. rewrite !elem_of_dom. intros [v' [Hv' Hc]%map_lookup_filter_Some]. simpl in Hc.
    destruct (H k v' Hv' Hc) as (v & Hv & Hcv). exists v. by apply map_lookup_filter_Some. }
  split; [by apply subseteq_size|]. intros k v Hv Hc Hk. apply subset_size. split; [done|].
  intros Hback. assert (k ∈ dom (filter (fun kv => Consumed kv.2 = false) (Vertices g))) as Hkd.
  { apply elem_of_dom. exists v. by apply map_lookup_filter_Some. }
  apply Hback, elem_of_dom in Hkd as [v' [Hv' Hc']%map_lookup_filter_Some]. simpl in Hc'.
  rewrite (Hk v' Hv') in Hc'. done.
Qed.

Lemma unconsumed_claim g ord id dir g' st : claim g ord id dir = (g', st) -> unconsumed g' <= unconsumed g.
Proof.
  intros Hc. apply unconsumed_dom. intros k v' Hv' Hcv. unfold claim in Hc.
  destruct (Vertices g !! id) as [v|] eqn:Hv; [|by simplify_eq; eauto].
  destruct (_ || _ || _); [by simplify_eq; eauto|].
  destruct (readinessLocked g ord dir) as [[] r]; simplify_eq; unfold set_vertex in Hv'; simpl in Hv';
    apply lookup_insert_Some in Hv' as [[<- <-]|[_ ?]]; simpl in *; eauto; done.
Qed.

Lemma unconsumed_finalize g ord : NoDup ord -> unconsumed (finalize g ord) <= unconsumed g.
Proof.
  intros Hnd. apply unconsumed_dom. intros k v' Hv' Hcv. destruct (finalize_spec ord g Hnd) as [_ Hf].
  specialize (Hf k). destruct (Vertices g !! k) as [v|]; [|congruence]. exists v. split; [done|].
  destruct Hf as (w & Hw & _ & _ & _ & Hor). replace w with v' in * by congruence.
  case_decide; [by destruct Hor as (? & _); congruence|congruence].
Qed.

Lemma local_weight g0 dir cap act s w e s' w' tk ac tr n :
  graph_wf g0 -> local dir cap act s w e s' w' ->
  GInv g0 dir (gr s) (wk_tokens w ++ workCh s ++ tk) (wk_acting w ++ ac) tr ->
  (finishing w = true -> done (gr s) = true) -> commandCount g0 <= n ->
  shared_weight n s' + worker_weight w' < shared_weight n s + worker_weight w.
Proof.
  intros Hwf Hl HI Hd Hn. pose proof (local_graph g0 dir cap act s w e s' w' tk ac tr Hwf Hl HI Hd) as HI'.
  unfold shared_weight. destruct Hl; simpl in *; try lia.
  - apply unconsumed_claim in H0. case_decide; simpl; nia.
  - pose proof (tokens_le _ _ _ _ _ _ HI') as Hle. rewrite length_app in Hle.
    destruct (proj1 (gi_ac _ _ _ _ _ _ HI id) ltac:(by left)) as (v & Hv & Hp).
    destruct (gi_running _ _ _ _ _ _ HI id v Hv Hp) as (_ & Hc & _).
    assert (Hnd : NoDup ord) by (rewrite (H0 v Hv); apply NoDup_fst_map_to_list).
    destruct (complete_spec g ord id res dir v Hv Hnd Hc) as
      (g1 & ns1 & v' & Hc1 & _ & _ & _ & _ & Hc' & _ & _ & _ & _ & _ & Hlk).
    rewrite H1 in Hc1. injection Hc1 as <- <-.
    assert (unconsumed g' < unconsumed g) as Hu; [|nia].
    eapply unconsumed_dom; [|exact Hv|done|].
    + intros k w' Hw' Hcw. rewrite Hlk in Hw'. case_decide; [congruence|].
      case_decide; [|by exists w']. apply fmap_Some in Hw' as (w & Hw & ->). by exists w.
    + intros w'. rewrite Hlk, decide_True by done. by intros [= <-].
  - rewrite length_app. simpl. lia.
  - pose proof (unconsumed_finalize g ord ltac:(rewrite H; apply NoDup_fst_map_to_list)). nia.
Qed.

Lemma work_left_step g0 dir cap act s tr e s' :
  graph_wf g0 -> WInv g0 dir s tr -> wstep dir cap act s e s' ->
  work_left (commandCount g0) s' < work_left (commandCount g0) s.
Proof.
  intros Hwf HI Hstep. destruct Hstep as [s l1 w l2 x e s' w' Hl|s ws].
  2:{ unfold work_left, shared_weight; simpl. lia. }
  pose proof (wi_graph _ _ _ _ HI) as Hg. rewrite tokens_split, acting_split in Hg.
  assert (shared_weight (commandCount g0) s' + worker_weight w' <
          shared_weight (commandCount g0) s + worker_weight w) as H.
  { eapply (local_weight g0 dir cap act s w e s' w' _ _ tr); [done|done|exact Hg| |done].
    intros Hf. apply (wi_done _ _ _ _ HI). exists w. split; [simpl; set_solver|done]. }
  unfold work_left. cbn [sh workers external]. rewrite !fmap_app, !fmap_cons. clear -H.
  assert (forall a b, sum_list (a ++ b) = sum_list a + sum_list b) as Hs.
  { intros a b. induction a as [|z a IH]; simpl; [done|]. rewrite IH. lia. }
  rewrite !Hs. simpl. lia.
Qed.

(** ** When the workers have returned *)

Lemma finished_consumed g0 dir s tr :
  WInv g0 dir s tr -> finished s -> external s = false ->
  all_consumed (gr (sh s)) /\ done (gr (sh s)) = true.
Proof.
  intros HI Hf Hx. apply (wi_final _ _ _ _ HI). right. split; [|done].
  destruct (cancelled (sh s)) eqn:Hc; [done|exfalso].
  assert (Hw : workers s = []).
  { apply elem_of_nil_inv. intros w Hw. pose proof (Hf w Hw) as He.
    destruct w as [| | | | | | |ds]; try done.
    rewrite (wi_exit _ _ _ _ HI ds Hw) in Hc. done. }
  by rewrite (wi_workers _ _ _ _ HI Hw) in Hc.
Qed.

(** How an active vertex ended: its action ran and left its result, or it was
    blocked with an error and never acted. *)
Lemma finished_vertex g0 dir s tr id v :
  WInv g0 dir s tr -> finished s -> external s = false ->
  Vertices (gr (sh s)) !! id = Some v -> active v = true ->
  (Blocked v = false /\ EvStart id ∈ tr /\ EvFinish id (result_of v) ∈ tr) \/
  (Blocked v = true /\ EvStart id ∉ tr /\ (forall res, EvFinish id res ∉ tr) /\ is_Some (Err v)).
Proof.
  intros HI Hf Hx Hv Ha. destruct (finished_consumed _ _ _ _ HI Hf Hx) as [Hc Hd].
  specialize (Hc id v Hv Ha). rewrite done_spec in Hd. destruct (Hd id v Hv Ha) as [_ Hp].
  pose proof (wi_graph _ _ _ _ HI) as HG. destruct (Blocked v) eqn:Hb; [right|left].
  - split_and!; [done| | |by apply (gi_blocked _ _ _ _ _ _ HG id)].
    + rewrite (gi_started _ _ _ _ _ _ HG). intros (w & Hw & H). assert (w = v) as -> by congruence.
      destruct H as [|[]]; congruence.
    + intros res. rewrite (gi_finished _ _ _ _ _ _ HG). intros (w & Hw & ? & ? & _). congruence.
  - split_and!; [done| |].
    + apply (gi_started _ _ _ _ _ _ HG). exists v. split; [done|by right].
    + apply (gi_finished _ _ _ _ _ _ HG). exists v. done.
Qed.

(** The results in a trace are results the actions may return. *)
Lemma act_of_finish g0 dir limit act tr s :
  reaches g0 dir limit act tr s -> forall id res, EvFinish id res ∈ tr -> act id res.
Proof.
  intros (s0 & _ & Hrun). induction Hrun as [s|s tr s' e s'' _ IH Hstep]; intros id res Hin.
  { by apply elem_of_nil in Hin. }
  apply elem_of_app in Hin as [Hin|Hin]; [by apply IH|].
  destruct Hstep as [s0' l1 w l2 x e s1 w' Hl|]; [|by apply elem_of_nil in Hin].
  destruct Hl; simpl in *; try (by apply elem_of_nil in Hin).
  - case_decide; [by apply list_elem_of_singleton in Hin|by apply elem_of_nil in Hin].
  - apply list_elem_of_singleton in Hin as [= -> ->]. done.
Qed.

(** ** Walks in which nothing blocks *)

(** [y] has to come before [x]. *)
Definition pred_rel (g0 : reconcileGraph) (dir : walkDirection) (x y : vertexID) : Prop :=
  exists v e w, Vertices g0 !! x = Some v /\ active v = true /\ preds dir v !! y = Some e /\
    y <> skip_pred dir /\ Vertices g0 !! y = Some w /\ active w = true.

(** Every condition a down walk will test is one the actions meet, and one the
    commands outside the walk already meet. *)
Definition can_go (g0 : reconcileGraph) (dir : walkDirection)
    (act : vertexID -> actionResult -> Prop) : Prop :=
  dir = walkFromBegin -> forall id v p e, Vertices g0 !! id = Some v -> active v = true ->
    Parents v !! p = Some e -> p <> beginVertex ->
    exists pv, Vertices g0 !! p = Some pv /\
      if InClosure pv then forall res, act p res -> cond_holds (cond_of e) res
      else snapshot_holds (cond_of e) (Snapshot pv).

Definition no_blocked (g : reconcileGraph) : Prop :=
  forall k v, Vertices g !! k = Some v -> Blocked v = false.

Lemma evalDown_holds pv e :
  Blocked pv = false ->
  (if InClosure pv then Consumed pv = true -> cond_holds (cond_of e) (result_of pv)
   else snapshot_holds (cond_of e) (Snapshot pv)) ->
  (evalDownEdgeLocked (Some pv) (edge_Condition e)).1
  = if InClosure pv && negb (Consumed pv) then edgePending else edgeSatisfied.
Proof.
  unfold evalDownEdgeLocked. fold (cond_of e). intros Hb H. destruct (InClosure pv); simpl.
  - rewrite Hb. destruct (Consumed pv); [simpl|done]. destruct (H eq_refl) as [He Hc]. simpl in *.
    rewrite He. destruct (decide (cond_of e = ConditionRunning)) as [|Hr]; [done|]. specialize (Hc Hr).
    destruct (decide (cond_of e = ConditionCompleted)); by rewrite Hc.
  - unfold snapshot_holds in H.
    destruct (decide (cond_of e = ConditionRunning)); [by rewrite decide_True|].
    destruct (decide (cond_of e = ConditionCompleted)); by rewrite H.
Qed.

Lemma ready_down_blocked g ord worst :
  (ready_down g worst ord).1 = edgeBlocked -> worst.1 = edgeBlocked \/
  exists p e, (p, e) ∈ ord /\ p <> beginVertex /\
    (evalDownEdgeLocked (Vertices g !! p) (edge_Condition e)).1 = edgeBlocked.
Proof.
  revert worst. induction ord as [|[p e] ord IH]; intros worst; simpl; [by left|].
  setoid_rewrite elem_of_cons. case_decide as Hp.
  { intros [?|(q & e' & ? & ?)]%IH; [by left|right; eauto]. }
  destruct (evalDownEdgeLocked _ _) as [st r] eqn:E. destruct st.
  - intros [?|(q & e' & ? & ?)]%IH; [by left|right; eauto].
  - intros [H|(q & e' & ? & ?)]%IH; [|right; eauto]. left. by case_decide.
  - intros _. right. exists p, e. rewrite E. auto.
Qed.

Section Unblocked.
Context (g0 : reconcileGraph) (dir : walkDirection) (act : vertexID -> actionResult -> Prop)
  (Hwf : graph_wf g0) (Hgo : can_go g0 dir act) (Hacyc : forall x, ~ tc (pred_rel g0 dir) x x).

(** The edge of an active vertex, while nothing is blocked: a down edge never
    blocks, and an unsatisfied one waits for a vertex still to be consumed. *)
Lemma edge_unblocked g tk ac tr id v p e :
  GInv g0 dir g tk ac tr -> no_blocked g -> (forall id res, EvFinish id res ∈ tr -> act id res) ->
  Vertices g !! id = Some v -> active v = true -> preds dir v !! p = Some e -> p <> skip_pred dir ->
  (dir = walkFromBegin -> (evalDownEdgeLocked (Vertices g !! p) (edge_Condition e)).1 <> edgeBlocked) /\
  (edge_sat g dir p e = false -> exists pv, Vertices g !! p = Some pv /\ active pv = true /\
     Consumed pv = false /\ pred_rel g0 dir id p).
Proof.
  intros HI Hnb Hact Hv Ha He Hp.
  destruct (same_static_lookup _ _ _ _ (gi_static _ _ _ _ _ _ HI) Hv) as (v0 & Hv0 & Ev).
  apply statics_eq in Ev as (Ea & Epr & _). rewrite <- Ea in Ha. rewrite <- Epr in He.
  assert (Hpend : forall pv, Vertices g !! p = Some pv -> InClosure pv = true -> Consumed pv = false ->
    exists pv, Vertices g !! p = Some pv /\ active pv = true /\ Consumed pv = false /\ pred_rel g0 dir id p).
  { intros pv Hpv Hi Hc.
    destruct (same_static_lookup _ _ _ _ (gi_static _ _ _ _ _ _ HI) Hpv) as (pv0 & Hpv0 & Ep).
    apply statics_eq in Ep as (Eap & _ & _ & Ein & _).
    assert (active pv0 = true) by (apply (wf_closure g0 Hwf p pv0 Hpv0); congruence).
    exists pv. split_and!; [done|congruence|done|]. exists v0, e, pv0. done. }
  destruct dir eqn:Hdir; simpl in *.
  - destruct (Hgo eq_refl id v0 p e Hv0 Ha He Hp) as (pv0 & Hpv0 & Hc).
    destruct (same_static_lookup_r _ _ _ _ (gi_static _ _ _ _ _ _ HI) Hpv0) as (pv & Hpv & Ep).
    apply statics_eq in Ep as (_ & _ & _ & Ein & Esn & _). rewrite Ein, Esn in Hc. rewrite Hpv.
    rewrite (evalDown_holds pv e (Hnb p pv Hpv)).
    2:{ destruct (InClosure pv); [|done]. intros Hcons. apply Hc, (Hact p).
        apply (gi_finished _ _ _ _ _ _ HI). exists pv. split_and!; try done. by eapply Hnb. }
    split; [by destruct (_ && _)|]. intros Hs. destruct (InClosure pv) eqn:Hi, (Consumed pv) eqn:Hcc; try done.
    rewrite <- Hpv. by apply (Hpend pv).
  - split; [done|]. intros Hs. destruct (Vertices g !! p) as [pv|] eqn:Hpv; [|done].
    destruct (InClosure pv) eqn:Hi, (Consumed pv) eqn:Hc; try done.
    by apply (Hpend pv).
Qed.

(** A vertex that is not ready waits for one that is still to be consumed. *)
Lemma not_ready_waits g tk ac tr id v :
  GInv g0 dir g tk ac tr -> no_blocked g -> (forall id res, EvFinish id res ∈ tr -> act id res) ->
  Vertices g !! id = Some v -> active v = true -> ~ is_ready g dir v ->
  exists p pv, Vertices g !! p = Some pv /\ active pv = true /\ Consumed pv = false /\ pred_rel g0 dir id p.
Proof.
  intros HI Hnb Hact Hv Ha Hn.
  destruct (decide (map_Forall (fun p e => p <> skip_pred dir -> edge_sat g dir p e = true) (preds dir v)))
    as [Hall|Hex].
  - exfalso. apply Hn. intros p e. apply Hall.
  - apply map_not_Forall in Hex as (p & e & He & Hpe); [|apply _].
    assert (p <> skip_pred dir /\ edge_sat g dir p e = false) as [Hp Hs].
    { destruct (decide (p = skip_pred dir)) as [->|?]; [by destruct Hpe|]. split; [done|].
      apply not_true_iff_false. intros ?. by apply Hpe. }
    exists p. by eapply edge_unblocked.
Qed.

(** Nothing queued and nothing running means everything is consumed: the
    vertices left over would wait for each other in a cycle. *)
Lemma done_all_consumed g tk ac tr :
  GInv g0 dir g tk ac tr -> no_blocked g -> (forall id res, EvFinish id res ∈ tr -> act id res) ->
  done g = true -> all_consumed g.
Proof.
  intros HI Hnb Hact Hd k v Hv Ha. apply not_false_iff_true. intros Hc.
  set (left := dom (filter (fun kv => active kv.2 = true /\ Consumed kv.2 = false) (Vertices g))).
  assert (Hin : forall x, x ∈ left <-> exists w, Vertices g !! x = Some w /\ active w = true /\ Consumed w = false).
  { intros x. unfold left. rewrite elem_of_dom. unfold is_Some. by setoid_rewrite map_lookup_filter_Some. }
  destruct (serial_cycle (pred_rel g0 dir) left) as [x Hx]; [| |by apply (Hacyc x)].
  - assert (k ∈ left) as Hk by (apply Hin; eauto). set_solver.
  - intros x (w & Hw & Haw & Hcw)%Hin. rewrite done_spec in Hd. destruct (Hd x w Hw Haw) as [Hq Hp].
    pose proof (gi_idle _ _ _ _ _ _ HI x w Hw Haw Hq Hp Hcw) as Hn.
    destruct (not_ready_waits g tk ac tr x w HI Hnb Hact Hw Haw Hn) as (p & pv & ? & ? & ? & ?).
    exists p. split; [|done]. apply Hin. eauto.
Qed.

Lemma local_no_blocked cap s w e s' w' tk ac tr :
  local dir cap act s w e s' w' ->
  GInv g0 dir (gr s) (wk_tokens w ++ workCh s ++ tk) (wk_acting w ++ ac) tr ->
  (forall id res, EvFinish id res ∈ tr -> act id res) ->
  (finishing w = true -> done (gr s) = true) ->
  no_blocked (gr s) -> no_blocked (gr s').
Proof.
  intros Hl HI Hact Hd Hnb. destruct Hl; simpl in *; try done.
  - destruct (proj1 (gi_tk _ _ _ _ _ _ HI id) ltac:(by left)) as (v & Hv & Hq).
    destruct (gi_queued _ _ _ _ _ _ HI id v Hv Hq) as (Ha & Hc & Hb & Hp).
    destruct (claim_spec g ord id dir v Hv Ha Hc Hp (H v Hv)) as (v' & st' & Hcl & _ & _ & Hst).
    assert (Hb' : Blocked v' = false).
    { destruct st'; [by destruct Hst as (_ & _ & _ & ->)|by destruct Hst as (_ & _ & _ & ->)| |done].
      exfalso. destruct Hst as (_ & Hdir & _). unfold claim in Hcl. rewrite Hv, Ha, Hc, Hp in Hcl. simpl in Hcl.
      destruct (readinessLocked g ord dir) as [rs rr] eqn:E. destruct rs; try discriminate.
      rewrite Hdir in E. simpl in E. pose proof (ready_down_blocked g ord (edgeSatisfied, None)) as Hr.
      rewrite E in Hr. destruct (Hr eq_refl) as [?|(p & ed & Hin & Hpb & Hbl)]; [done|].
      rewrite (H v Hv) in Hin. apply elem_of_map_to_list in Hin.
      destruct (edge_unblocked g _ _ _ id v p ed HI Hnb Hact Hv Ha Hin) as [Hx _]; [by rewrite Hdir|].
      by apply Hx. }
    rewrite H0 in Hcl. injection Hcl as -> ->. intros k w. unfold set_vertex; simpl.
    intros [[_ <-]|[_ ?]]%lookup_insert_Some; [done|by eapply Hnb].
  - destruct (proj1 (gi_ac _ _ _ _ _ _ HI id) ltac:(by left)) as (v & Hv & Hp).
    destruct (gi_running _ _ _ _ _ _ HI id v Hv Hp) as (_ & Hc & Hb).
    assert (Hnd : NoDup ord) by (rewrite (H0 v Hv); apply NoDup_fst_map_to_list).
    destruct (complete_spec g ord id res dir v Hv Hnd Hc) as
      (g1 & ns1 & v' & Hc1 & _ & _ & _ & _ & _ & Hb' & _ & _ & _ & _ & Hlk).
    rewrite H1 in Hc1. injection Hc1 as <- <-. intros k w. rewrite Hlk.
    case_decide; [intros [= <-]; congruence|]. case_decide; [|apply Hnb].
    intros (u & Hu & ->)%fmap_Some. simpl. by eapply Hnb.
  - pose proof (done_all_consumed g _ _ _ HI Hnb Hact (Hd eq_refl)) as Hall.
    destruct (finalize_spec ord g) as [_ Hf]; [rewrite H; apply NoDup_fst_map_to_list|].
    intros k w Hw. specialize (Hf k). destruct (Vertices g !! k) as [v|] eqn:Hv; [|congruence].
    destruct Hf as (v' & Hv' & _ & _ & _ & Hor). replace v' with w in * by congruence.
    rewrite decide_False in Hor; [subst; by eapply Hnb|]. intros (_ & Ha & Hc).
    rewrite (Hall k v Hv Ha) in Hc. done.
Qed.

End Unblocked.

Lemma reaches_step g0 dir limit act s tr e s' :
  reaches g0 dir limit act tr s -> wstep dir (capacity g0) act s e s' ->
  reaches g0 dir limit act (tr ++ e) s'.
Proof. intros (s0 & H0 & Hr) Hs. exists s0. split; [done|]. by eapply run_step. Qed.

Lemma reaches_ind_inv g0 dir limit act (I : list event -> wstate -> Prop) :
  (forall s, walk_start g0 dir limit s -> I [] s) ->
  (forall s tr e s', reaches g0 dir limit act tr s -> I tr s ->
     wstep dir (capacity g0) act s e s' -> I (tr ++ e) s') ->
  forall tr s, reaches g0 dir limit act tr s -> I tr s.
Proof.
  intros Hstart Hstep tr s (s0 & H0 & Hr).
  induction Hr as [s|s tr s' e s'' Hr IH Hs]; [by apply Hstart|].
  eapply Hstep; [|by apply IH|done]. by exists s.
Qed.

Lemma reaches_no_blocked g0 dir limit act tr s :
  graph_wf g0 -> can_go g0 dir act -> (forall x, ~ tc (pred_rel g0 dir) x x) ->
  reaches g0 dir limit act tr s -> no_blocked (gr (sh s)).
Proof.
  intros Hwf Hgo Hac. revert tr s. apply reaches_ind_inv.
  - assert (Hseed : no_blocked (seed g0 dir).1).
    { intros k v. destruct (seed_spec g0 dir) as (_ & -> & _). intros (w & Hw & ->)%fmap_Some.
      destruct (wf_fresh g0 Hwf k w Hw) as (_ & _ & _ & Hb). by destruct (is_seed g0 dir w). }
    intros s [ord Hd Ho|Hd]; [|done]. simpl.
    pose proof (ginv_seed g0 dir Hwf) as HI.
    eapply (local_no_blocked g0 dir act Hwf Hgo Hac 0 (MkShared _ [] false) WFin []
      (MkShared _ [] false) WCancel _ [] []); [by apply l_finalize| | |done|done].
    + simpl. exact HI.
    + by intros ? ? ?%elem_of_nil.
  - intros s tr e s' Hr Hnb Hs. pose proof (reaches_winv _ _ _ _ _ _ Hwf Hr) as HI.
    destruct Hs as [s l1 w l2 x e s' w' Hl|s ws]; [|done]. simpl in *.
    pose proof (wi_graph _ _ _ _ HI) as Hg. rewrite tokens_split, acting_split in Hg.
    eapply (local_no_blocked g0 dir act Hwf Hgo Hac _ s w e s' w' _ _ tr Hl Hg); [| |done].
    + by eapply act_of_finish.
    + intros Hf. apply (wi_done _ _ _ _ HI). exists w. split; [|done]. simpl.
      apply elem_of_app. right. by left.
Qed.

(** ** The order stamps *)

Definition order_of (g : reconcileGraph) (id : vertexID) : nat := from_option Order 0 (Vertices g !! id).

(** The stamps follow the order in which the actions finished. *)
Definition stamped (g : reconcileGraph) (tr : list event) : Prop :=
  StronglySorted (fun a b => order_of g a < order_of g b) (finishes tr) /\
  forall id, id ∈ finishes tr -> order_of g id <= seq_ g.

Lemma stamped_keep g g' tr :
  stamped g tr -> seq_ g <= seq_ g' -> (forall id, id ∈ finishes tr -> order_of g' id = order_of g id) ->
  stamped g' tr.
Proof.
  intros [Hs Hle] Hseq Ho. split.
  - induction Hs as [|a l Hs IH Hf]; constructor.
    + apply IH; intros; [apply Hle|apply Ho]; by right.
    + rewrite Forall_forall in *. intros b Hb. rewrite !Ho by (by left || by right). by apply Hf.
  - intros id Hid. rewrite Ho by done. specialize (Hle id Hid). lia.
Qed.

Lemma local_stamped g0 dir cap act s w e s' w' tk ac tr :
  local dir cap act s w e s' w' ->
  GInv g0 dir (gr s) (wk_tokens w ++ workCh s ++ tk) (wk_acting w ++ ac) tr ->
  stamped (gr s) tr -> stamped (gr s') (tr ++ e).
Proof.
  intros Hl HI Hst.
  assert (Hfin : forall id, id ∈ finishes tr -> exists v, Vertices (gr s) !! id = Some v /\ Consumed v = true).
  { intros id (res & H)%elem_of_finishes. apply (gi_finished _ _ _ _ _ _ HI) in H as (v & ? & ? & _). eauto. }
  destruct Hl; simpl in *; rewrite ?app_nil_r; try done.
  - assert (stamped g' tr) as H'.
    { destruct (proj1 (gi_tk _ _ _ _ _ _ HI id) ltac:(by left)) as (v & Hv & Hq).
      destruct (gi_queued _ _ _ _ _ _ HI id v Hv Hq) as (Ha & Hc & _ & Hp).
      destruct (claim_spec g ord id dir v Hv Ha Hc Hp (H v Hv)) as (v' & st' & Hcl & _).
      rewrite H0 in Hcl. injection Hcl as -> ->. apply (stamped_keep g); [done|done|].
      intros k (w & Hw & Hcw)%Hfin. unfold order_of, set_vertex; simpl.
      rewrite lookup_insert_ne; [done|congruence]. }
    destruct (decide (st = stepReady)); [|by rewrite app_nil_r].
    unfold stamped. by rewrite finishes_snoc, app_nil_r.
  - destruct (proj1 (gi_ac _ _ _ _ _ _ HI id) ltac:(by left)) as (v & Hv & Hp).
    destruct (gi_running _ _ _ _ _ _ HI id v Hv Hp) as (_ & Hc & _).
    assert (Hnd : NoDup ord) by (rewrite (H0 v Hv); apply NoDup_fst_map_to_list).
    destruct (complete_spec g ord id res dir v Hv Hnd Hc) as
      (g1 & ns1 & v' & Hc1 & _ & _ & _ & _ & _ & _ & _ & Ho' & Hseq & _ & Hlk).
    rewrite H1 in Hc1. injection Hc1 as <- <-.
    assert (Hold : forall k, k ∈ finishes tr -> order_of g' k = order_of g k).
    { intros k (w & Hw & Hcw)%Hfin. unfold order_of. rewrite Hlk, decide_False by congruence.
      case_decide; [|done]. by rewrite Hw. }
    assert (Hnew : order_of g' id = S (seq_ g)) by (unfold order_of; by rewrite Hlk, decide_True).
    destruct (stamped_keep g g' tr Hst ltac:(lia) Hold) as [Hss _]. destruct Hst as [_ Hle].
    unfold stamped. rewrite finishes_snoc. simpl. split.
    + apply StronglySorted_app. split_and!; [|done|repeat constructor].
      intros a b Ha ->%list_elem_of_singleton. rewrite Hnew, Hold by done. specialize (Hle a Ha). lia.
    + intros k [Hk| ->%list_elem_of_singleton]%elem_of_app; [|lia]. rewrite Hold by done.
      specialize (Hle k Hk). lia.
  - destruct (finalize_spec ord g) as [Hseq Hf]; [rewrite H; apply NoDup_fst_map_to_list|].
    apply (stamped_keep g); [done|done|]. intros k (w & Hw & Hcw)%Hfin. specialize (Hf k). rewrite Hw in Hf.
    destruct Hf as (v' & Hv' & _ & _ & _ & Hor). unfold order_of. rewrite Hv', Hw. simpl.
    rewrite decide_False in Hor by (intros (_ & _ & ?); congruence). by subst.
Qed.

Lemma reaches_stamped g0 dir limit act tr s :
  graph_wf g0 -> reaches g0 dir limit act tr s -> stamped (gr (sh s)) tr.
Proof.
  intros Hwf. revert tr s. apply reaches_ind_inv.
  - intros s _. split; [constructor|]. by intros ? ?%elem_of_nil.
  - intros s tr e s' Hr Hst Hs. pose proof (reaches_winv _ _ _ _ _ _ Hwf Hr) as HI.
    destruct Hs as [s l1 w l2 x e s' w' Hl|s ws]; [|by rewrite app_nil_r]. simpl in *.
    pose proof (wi_graph _ _ _ _ HI) as Hg. rewrite tokens_split, acting_split in Hg.
    by eapply (local_stamped g0 dir _ act s w e s' w' _ _ tr Hl Hg).
Qed.

(** ** Sorting by the stamps *)

Lemma insert_by_order_perm x l : insert_by_order x l ≡ₚ x :: l.
Proof.
  induction l as [|y l IH]; simpl; [done|]. case_decide; [done|]. rewrite IH. apply Permutation_swap.
Qed.

Lemma sort_by_order_perm l : sort_by_order l ≡ₚ l.
Proof. induction l as [|x l IH]; simpl; [done|]. by rewrite insert_by_order_perm, IH. Qed.

Lemma sort_by_order_sorted l : StronglySorted (fun a b => a.1 <= b.1) (sort_by_order l).
Proof.
  induction l as [|x l IH]; simpl; [constructor|].
  assert (forall ys, StronglySorted (fun a b : nat * StopOutcome => a.1 <= b.1) ys ->
    StronglySorted (fun a b => a.1 <= b.1) (insert_by_order x ys)) as H; [|by apply H].
  clear. intros ys Hs. induction Hs as [|y ys Hs IH Hf]; simpl; [repeat constructor|].
  case_decide as Hxy.
  - constructor; [by constructor|]. constructor; [done|]. eapply Forall_impl; [exact Hf|].
    simpl. intros z Hz. lia.
  - constructor; [done|]. rewrite insert_by_order_perm. constructor; [lia|done].
Qed.

(** A list that the stamps already sort is what sorting gives. *)
Lemma sort_by_order_unique l l' :
  l ≡ₚ l' -> StronglySorted (fun a b => a.1 < b.1) l' -> sort_by_order l = l'.
Proof.
  intros Hp Hs.
  assert (Hinj : forall a b, a ∈ l' -> b ∈ l' -> a.1 = b.1 -> a = b).
  { clear Hp. induction Hs as [|x l0 Hs IH Hf]; [by intros ? ? ?%elem_of_nil|].
    rewrite Forall_forall in Hf. intros a b. rewrite !elem_of_cons.
    intros [->|Ha] [->|Hb] E; [done| | |by apply IH].
    - specialize (Hf b Hb). simpl in Hf. lia.
    - specialize (Hf a Ha). simpl in Hf. lia. }
  apply (StronglySorted_unique_strong (fun a b => a.1 <= b.1)).
  - intros a b Ha Hb ? ?. rewrite sort_by_order_perm, Hp in Ha. apply Hinj; [done|done|lia].
  - apply sort_by_order_sorted.
  - clear -Hs. induction Hs as [|x l Hs IH Hf]; constructor; [done|].
    eapply Forall_impl; [exact Hf|]. simpl. intros. lia.
  - by rewrite sort_by_order_perm.
Qed.
