(* ===== verification/BuiltGraph.v ===== *)
(** * The graph that is built from a spec

    [buildReconcileGraph] described by lookups: which vertices there are, which
    edges they carry, and that the result is a graph a walk can start from. *)

From S2P Require Import Prelude GoStr Model ComposeSpec Naming Graph Reconcile Scheduling Walk.

(** A spec whose commands were normalised: distinct valid names, dependencies
    named once each, all of them declared. *)
Record spec_ok (spec : ComposeSpec) : Prop := {
  so_nodup : NoDup (command_names (Commands spec));
  so_names : forall c, c ∈ Commands spec -> validateName "command" (Name c) = Ok tt;
  so_after : forall c, c ∈ Commands spec -> NoDup (deps c);
  so_known : known (Commands spec);
}.

(** ** Folding edges into the vertex map *)

#[export] Instance graphEdge_eq_dec : EqDecision graphEdge.
Proof. solve_decision. Defined.

(** What the edges of [es] leave in the map of the vertex [k], which stands at
    the [near] end: [To] for the parents, [From] for the children. *)
Definition edges_after (near far : graphEdge -> vertexID) (k : vertexID) (es : list graphEdge)
    (m : gmap vertexID graphEdge) : gmap vertexID graphEdge :=
  foldl (fun m e => if decide (near e = k) then <[far e := e]> m else m) m es.

Lemma v_edges_eta v : v_edges v (Parents v) (Children v) = v.
Proof. by destruct v. Qed.

Lemma add_edge_lookup m e k :
  add_edge m e !! k =
  (fun v => v_edges v (if decide (To e = k) then <[From e := e]> (Parents v) else Parents v)
                      (if decide (From e = k) then <[To e := e]> (Children v) else Children v))
  <$> m !! k.
Proof.
  unfold add_edge, add_parent, add_child.
  destruct (decide (To e = k)) as [<-|H1].
  - rewrite lookup_alter_eq. destruct (decide (From e = To e)) as [E|H2].
    + rewrite E, lookup_alter_eq, <- option_fmap_compose. apply option_fmap_ext. by intros [].
    + rewrite lookup_alter_ne by done. apply option_fmap_ext. by intros [].
  - rewrite lookup_alter_ne by done. destruct (decide (From e = k)) as [<-|H2].
    + by rewrite lookup_alter_eq.
    + rewrite lookup_alter_ne by done. destruct (m !! k) as [v|]; [|done]. simpl. by rewrite v_edges_eta.
Qed.

Lemma add_edges_lookup es m k :
  foldl add_edge m es !! k =
  (fun v => v_edges v (edges_after To From k es (Parents v)) (edges_after From To k es (Children v))) <$> m !! k.
Proof.
  revert m. induction es as [|e es IH]; intros m; simpl.
  - destruct (m !! k) as [v|]; [|done]. simpl. by rewrite v_edges_eta.
  - rewrite IH, add_edge_lookup, <- option_fmap_compose. apply option_fmap_ext.
    intros v. simpl. by repeat case_decide.
Qed.

(** No two edges join the same vertices. *)
Definition unique_ends (es : list graphEdge) : Prop :=
  forall e1 e2, e1 ∈ es -> e2 ∈ es -> From e1 = From e2 -> To e1 = To e2 -> e1 = e2.

Lemma edges_after_some near far k es m p :
  is_Some (edges_after near far k es m !! p) <->
  (exists e, e ∈ es /\ far e = p /\ near e = k) \/ is_Some (m !! p).
Proof.
  revert m. induction es as [|e0 es IH]; intros m; simpl.
  { split; [by right|]. by intros [(? & ?%elem_of_nil & _)|?]. }
  rewrite IH. setoid_rewrite elem_of_cons.
  case_decide as Hk; [|naive_solver]. rewrite lookup_insert_is_Some.
  destruct (decide (far e0 = p)); naive_solver.
Qed.

Lemma edges_after_lookup near far k es p m e :
  edges_after near far k es m !! p = Some e ->
  (e ∈ es /\ far e = p /\ near e = k) \/ m !! p = Some e.
Proof.
  revert m. induction es as [|e0 es IH]; intros m; simpl; [by right|].
  intros [(He & ? & ?)|H]%IH.
  - left. split; [by right|done].
  - case_decide; [|by right]. apply lookup_insert_Some in H as [[? <-]|[_ ?]]; [|by right].
    left. split; [by left|done].
Qed.

(** ** The vertices before the edges *)

Definition bare_vertices (spec : ComposeSpec) snaps closure targets : gmap vertexID graphVertex :=
  foldl (fun m c => <[Name c := command_vertex snaps closure targets c]> m)
    (<[endVertex := newVertex endVertex None zeroSnapshot false None]>
       {[beginVertex := newVertex beginVertex None zeroSnapshot false None]})
    (Commands spec).

Definition all_edges (spec : ComposeSpec) : list graphEdge :=
  flat_map virtual_edges (Commands spec) ++ flat_map after_edges (Commands spec).

Lemma build_eq spec snaps closure targets :
  Vertices (buildReconcileGraph spec snaps closure targets)
  = foldl add_edge (bare_vertices spec snaps closure targets) (all_edges spec).
Proof. unfold all_edges. by rewrite foldl_app. Qed.

Lemma insert_commands_lookup snaps closure targets cmds (m : gmap vertexID graphVertex) k v :
  NoDup (command_names cmds) ->
  foldl (fun m c => <[Name c := command_vertex snaps closure targets c]> m) m cmds !! k = Some v <->
  (exists c, c ∈ cmds /\ Name c = k /\ v = command_vertex snaps closure targets c) \/
  (k ∉ command_names cmds /\ m !! k = Some v).
Proof.
  revert m. induction cmds as [|c cmds IH]; intros m Hnd; simpl.
  { split; [intros H; right; split; [by apply not_elem_of_nil|done]|].
    intros [(c & ?%elem_of_nil & _)|[_ ?]]; done. }
  inversion Hnd as [|? ? Hc Hnd']; subst. rewrite IH by done. clear IH.
  setoid_rewrite elem_of_cons.
  destruct (decide (Name c = k)) as [<-|Hk].
  - rewrite lookup_insert_eq. split.
    + intros [(c' & ? & ? & ?)|[_ [= <-]]]; [|by left; eauto].
      left. eauto.
    + intros [(c' & [->|?] & ? & ->)|[H _]]; [by right|left; by eauto|].
      by destruct H; left.
  - rewrite lookup_insert_ne by done. split.
    + intros [(c' & ? & ? & ?)|[H ?]]; [left; eauto|]. right. split; [|done]. intros [->|?]; done.
    + intros [(c' & [->|?] & ? & ?)|[H ?]]; [done|left; eauto|]. right. split; [|done].
      intros ?. apply H. by right.
Qed.

Lemma edge_from c e : e ∈ after_edges c <->
  exists a, a ∈ After c /\ e = MkEdge (after_Name a) (Name c) (Condition a).
Proof. unfold after_edges. rewrite list_elem_of_fmap. naive_solver. Qed.

Lemma elem_of_flat_map {A B} (f : A -> list B) l y : y ∈ flat_map f l <-> exists x, x ∈ l /\ y ∈ f x.
Proof. setoid_rewrite list_elem_of_In. rewrite in_flat_map. naive_solver. Qed.

Lemma elem_of_all_edges spec e :
  e ∈ all_edges spec <->
  exists c, c ∈ Commands spec /\
    (e = MkEdge beginVertex (Name c) "" \/ e = MkEdge (Name c) endVertex "" \/
     exists a, a ∈ After c /\ e = MkEdge (after_Name a) (Name c) (Condition a)).
Proof.
  unfold all_edges. rewrite elem_of_app, !elem_of_flat_map. setoid_rewrite edge_from.
  unfold virtual_edges. setoid_rewrite elem_of_cons. setoid_rewrite list_elem_of_singleton.
  naive_solver.
Qed.

Section Built.
Context (spec : ComposeSpec) (snaps : gmap string commandSnapshot) (closure : gset string)
  (targets : targetSet) (Hok : spec_ok spec).

Let g := buildReconcileGraph spec snaps closure targets.

Lemma name_real c : c ∈ Commands spec -> Name c <> beginVertex /\ Name c <> endVertex.
Proof. intros Hc%(so_names spec Hok). split; by eapply validateName_no_nul. Qed.

Lemma spec_name_inj c1 c2 : c1 ∈ Commands spec -> c2 ∈ Commands spec -> Name c1 = Name c2 -> c1 = c2.
Proof. apply name_inj. apply Hok. Qed.

Lemma dep_command c a : c ∈ Commands spec -> a ∈ After c ->
  exists d, d ∈ Commands spec /\ Name d = after_Name a.
Proof.
  intros Hc Ha. pose proof (so_known spec Hok c (after_Name a) Hc) as H.
  unfold deps in H. unfold command_names in H. rewrite !list_elem_of_fmap in H.
  destruct H as (d & ? & ?); [by exists a|]. by exists d.
Qed.

Lemma edges_unique e1 e2 :
  e1 ∈ all_edges spec -> e2 ∈ all_edges spec -> From e1 = From e2 -> To e1 = To e2 -> e1 = e2.
Proof.
  intros (c1 & Hc1 & H1)%elem_of_all_edges (c2 & Hc2 & H2)%elem_of_all_edges Hf Ht.
  destruct (name_real c1 Hc1) as [? ?], (name_real c2 Hc2) as [? ?].
  assert (forall c a, c ∈ Commands spec -> a ∈ After c -> after_Name a <> beginVertex) as Hb.
  { intros c a Hc (d & Hd & <-)%dep_command; [|done]. by apply name_real. }
  destruct H1 as [->|[->|(a1 & Ha1 & ->)]], H2 as [->|[->|(a2 & Ha2 & ->)]]; simpl in *;
    try congruence; try (by destruct (Hb c2 a2)); try (by destruct (Hb c1 a1)).
  apply spec_name_inj in Ht as ->; [|done..].
  apply list_elem_of_lookup in Ha1 as [i Hi], Ha2 as [j Hj].
  assert (i = j) as ->; [|congruence].
  apply (NoDup_lookup (deps c2) i j (after_Name a1)); [by apply Hok| |];
    unfold deps; rewrite list_lookup_fmap; [by rewrite Hi|by rewrite Hj, Hf].
Qed.

(** The vertices: the two virtual ones and one per command. *)
Lemma build_lookup k v :
  Vertices g !! k = Some v <->
  exists b, v = v_edges b (edges_after To From k (all_edges spec) ∅)
                          (edges_after From To k (all_edges spec) ∅) /\
    ((exists c, c ∈ Commands spec /\ Name c = k /\ b = command_vertex snaps closure targets c) \/
     (k = beginVertex \/ k = endVertex) /\ b = newVertex k None zeroSnapshot false None).
Proof.
  unfold g. rewrite build_eq, add_edges_lookup, fmap_Some.
  assert (forall b, bare_vertices spec snaps closure targets !! k = Some b <->
    (exists c, c ∈ Commands spec /\ Name c = k /\ b = command_vertex snaps closure targets c) \/
     (k = beginVertex \/ k = endVertex) /\ b = newVertex k None zeroSnapshot false None) as Hb.
  { intros b. unfold bare_vertices. rewrite insert_commands_lookup by apply Hok.
    assert ((k = beginVertex \/ k = endVertex) -> k ∉ command_names (Commands spec)) as Hreal.
    { unfold command_names. rewrite list_elem_of_fmap. intros H (c & -> & Hc). apply name_real in Hc. tauto. }
    rewrite lookup_insert_Some, lookup_singleton_Some.
    split; (intros [H|H]; [by left|right]); naive_solver. }
  setoid_rewrite Hb. split.
  - intros (b & H & ->). exists b. split; [|done]. destruct H as [(c & _ & _ & ->)|[_ ->]]; reflexivity.
  - intros (b & -> & H). exists b. split; [done|]. destruct H as [(c & _ & _ & ->)|[_ ->]]; reflexivity.
Qed.

Lemma build_command c : c ∈ Commands spec -> exists v,
  Vertices g !! Name c = Some v /\ v_Command v = Some c /\ v_ID v = Name c /\
  InClosure v = bool_decide (Name c ∈ closure) /\
  (Name c ∉ closure -> Snapshot v = default zeroSnapshot (snaps !! Name c)) /\
  Parents v = edges_after To From (Name c) (all_edges spec) ∅ /\
  Children v = edges_after From To (Name c) (all_edges spec) ∅.
Proof.
  intros Hc. eexists. split; [apply build_lookup; eexists; split; [reflexivity|left; by eauto]|].
  unfold v_edges, command_vertex, newVertex; simpl. split_and!; try done.
  intros Hn. by rewrite bool_decide_false.
Qed.

Lemma build_inv k v : Vertices g !! k = Some v ->
  (exists c, c ∈ Commands spec /\ Name c = k /\ v_Command v = Some c /\
     InClosure v = bool_decide (Name c ∈ closure)) \/
  ((k = beginVertex \/ k = endVertex) /\ v_Command v = None /\ InClosure v = false).
Proof.
  intros (b & -> & [(c & Hc & <- & ->)|[Hk ->]])%build_lookup; [left|right]; [|done].
  exists c. done.
Qed.

Lemma parents_of k v p : Vertices g !! k = Some v ->
  (is_Some (Parents v !! p) <-> exists e, e ∈ all_edges spec /\ From e = p /\ To e = k).
Proof.
  intros (b & -> & _)%build_lookup. simpl. rewrite edges_after_some, lookup_empty.
  split; [by intros [?|[? ?]]|by left].
Qed.

Lemma children_of k v p : Vertices g !! k = Some v ->
  (is_Some (Children v !! p) <-> exists e, e ∈ all_edges spec /\ To e = p /\ From e = k).
Proof.
  intros (b & -> & _)%build_lookup. simpl. rewrite edges_after_some, lookup_empty.
  split; [by intros [?|[? ?]]|by left].
Qed.

(** The parents of a command: the virtual begin vertex and its dependencies, each
    under its condition. *)
Lemma command_parents c v p e : c ∈ Commands spec -> Vertices g !! Name c = Some v ->
  (Parents v !! p = Some e <->
   (p = beginVertex /\ e = MkEdge beginVertex (Name c) "") \/
   exists a, a ∈ After c /\ p = after_Name a /\ e = MkEdge p (Name c) (Condition a)).
Proof.
  intros Hc Hv. destruct (name_real c Hc) as [Hnb Hne].
  transitivity (e ∈ all_edges spec /\ From e = p /\ To e = Name c).
  - split.
    + apply build_lookup in Hv as (b & -> & _). simpl. intros [?|?]%edges_after_lookup; done.
    + intros (He & Hf & Ht). destruct (proj2 (parents_of (Name c) v p Hv) ltac:(eauto)) as [e' He'].
      rewrite He'. f_equal. apply build_lookup in Hv as (b & -> & _). simpl in He'.
      apply edges_after_lookup in He' as [(? & ? & ?)|?]; [|done]. apply edges_unique; congruence.
  - rewrite elem_of_all_edges. split.
    + intros ((c' & Hc' & [->|[->|(a & Ha & ->)]]) & Hf & Ht); simpl in *; [left|congruence|right].
      * by rewrite Ht, Hf.
      * apply spec_name_inj in Ht as ->; [|done..]. exists a. by rewrite Hf.
    + intros [[-> ->]|(a & Ha & -> & ->)]; simpl; (split; [exists c|done]); (split; [done|]).
      * by left.
      * right. right. eauto.
Qed.

(** The edge to a dependent, seen from the dependency. *)
Lemma command_child c d a v : c ∈ Commands spec -> d ∈ Commands spec -> a ∈ After c ->
  after_Name a = Name d -> Vertices g !! Name d = Some v ->
  Children v !! Name c = Some (MkEdge (Name d) (Name c) (Condition a)).
Proof.
  intros Hc Hd Ha E Hv.
  assert (He : MkEdge (Name d) (Name c) (Condition a) ∈ all_edges spec).
  { apply elem_of_all_edges. exists c. split; [done|]. right. right. exists a. by rewrite E. }
  destruct (proj2 (children_of (Name d) v (Name c) Hv)) as [e He']; [by eexists|].
  etransitivity; [exact He'|]. f_equal. apply build_lookup in Hv as (b & -> & _). simpl in He'.
  apply edges_after_lookup in He' as [(? & ? & ?)|?]; [|done]. by apply edges_unique.
Qed.

Lemma build_wf : graph_wf g.
Proof.
  constructor.
  - intros a b va vb Ha Hb. rewrite (parents_of _ _ _ Ha), (children_of _ _ _ Hb). naive_solver.
  - intros dir v Hv. unfold active. apply build_inv in Hv as [(c & Hc & E & _)|(_ & -> & _)]; [|done].
    destruct (name_real c Hc), dir; done.
  - intros k v Hv Hi. unfold active. rewrite Hi.
    apply build_inv in Hv as [(c & _ & _ & -> & _)|(_ & _ & ?)]; [done|congruence].
  - intros k v (b & -> & [(c & _ & _ & ->)|[_ ->]])%build_lookup; done.
Qed.

End Built.
