(* ===== verification/WalkTheorems.v ===== *)
(** * Reconciling a project: the walk over the graph of a spec

    The theorems about [reconcileGraph.walk] on the graph [buildReconcileGraph]
    makes of a spec, in the words of the spec: which commands are acted on and how
    often, what has finished when an action starts, that the workers neither block
    nor run for ever, and what the outcomes report. *)

From S2P Require Import Prelude GoStr Model ComposeSpec Naming Graph Reconcile Scheduling Walk WalkExec WalkProps BuiltGraph.

(** The condition of a dependency; an empty one means [completed]. *)
Definition condition (a : AfterSpec) : AfterCondition :=
  if decide (Condition a = "") then ConditionCompleted else Condition a.

(** ** A project to try the theorems on

    [web] runs after [migrate] has succeeded and [db] runs; [migrate] runs once
    [db] runs.  Every action reports a successful exit. *)

Definition demo_spec : ComposeSpec := mkSpec witness_cmds.

Definition demo_closure : gset string := {["web"; "migrate"; "db"]}.

Definition demo_ok : actionResult :=
  {| res_State := EventTypeExited; res_ExitCode := Some 0%Z; res_Err := None; res_ForceKilled := false |}.

Definition demo_graph : reconcileGraph := buildReconcileGraph demo_spec ∅ demo_closure ∅.

(** Two workers taking turns, long enough for every run to end. *)
Definition demo_schedule : list choice := mjoin (replicate 30 [Move 0; Move 1]).

Definition demo_act (id : vertexID) (res : actionResult) : Prop := res = demo_ok.

Lemma demo_spec_ok : spec_ok demo_spec.
Proof.
  constructor.
  - apply witness_cmds_NoDup.
  - intros c Hc. change (c ∈ witness_cmds) in Hc. unfold witness_cmds in Hc.
    repeat (apply elem_of_cons in Hc as [->|Hc]; [reflexivity|]). by apply elem_of_nil in Hc.
  - intros c Hc. change (c ∈ witness_cmds) in Hc. unfold witness_cmds in Hc.
    repeat (apply elem_of_cons in Hc as [->|Hc]; [apply (bool_decide_unpack _); vm_compute; exact I|]).
    by apply elem_of_nil in Hc.
  - intros c d Hc. change (c ∈ witness_cmds) in Hc. unfold witness_cmds in Hc.
    repeat (apply elem_of_cons in Hc as [->|Hc];
      [intros Hd; cbn in Hd; repeat (apply elem_of_cons in Hd as [->|Hd];
        [apply (bool_decide_unpack _); vm_compute; exact I|]); by apply elem_of_nil in Hd|]).
    by apply elem_of_nil in Hc.
Qed.

Lemma demo_reaches dir cs :
  reaches demo_graph dir 2 demo_act (walk_fn demo_graph dir 2 (fun _ => demo_ok) cs).1
    (walk_fn demo_graph dir 2 (fun _ => demo_ok) cs).2.
Proof. by apply walk_fn_reaches. Qed.

(** ** From the graph to the spec *)

Section SpecWalk.
Context (spec : ComposeSpec) (snaps : gmap string commandSnapshot) (closure : gset string)
  (targets : targetSet) (Hok : spec_ok spec).

Let g0 := buildReconcileGraph spec snaps closure targets.

Lemma active_command id v : Vertices g0 !! id = Some v -> active v = true ->
  exists c, c ∈ Commands spec /\ Name c = id /\ id ∈ closure.
Proof.
  intros Hv Ha. unfold active in Ha. split_hyps.
  apply (build_inv spec snaps closure targets Hok) in Hv as [(c & Hc & <- & _ & Hi)|(_ & _ & ?)]; [|congruence].
  exists c. split_and!; [done|done|]. eapply bool_decide_eq_true_1. by rewrite <- Hi.
Qed.

Lemma command_active c : c ∈ Commands spec -> Name c ∈ closure ->
  exists v, Vertices g0 !! Name c = Some v /\ active v = true.
Proof.
  intros Hc Hin. destruct (build_command spec snaps closure targets Hok c Hc) as (v & Hv & Hcmd & _ & Hi & _).
  exists v. split; [done|]. unfold active. rewrite Hcmd, Hi, bool_decide_true; [|done].
  by rewrite bool_decide_true.
Qed.

Lemma pred_rel_depends dir x y : pred_rel g0 dir x y ->
  match dir with walkFromBegin => depends (Commands spec) x y | walkFromEnd => depends (Commands spec) y x end.
Proof.
  intros (v & e & w & Hv & Ha & He & Hs & Hw & Hb).
  destruct (active_command _ _ Hv Ha) as (c & Hc & <- & _).
  destruct (active_command _ _ Hw Hb) as (d & Hd & <- & _).
  destruct dir; simpl in *.
  - rewrite (command_parents spec snaps closure targets Hok c v _ e Hc Hv) in He.
    destruct He as [[? _]|(a & Ha' & E & _)]; [done|].
    exists c. split_and!; try done. rewrite E. apply list_elem_of_fmap. eauto.
  - destruct (proj2 (wf_edges _ (build_wf spec snaps closure targets Hok) _ _ _ _ Hw Hv)) as [e' He']; [by eexists|].
    rewrite (command_parents spec snaps closure targets Hok d w _ e' Hd Hw) in He'.
    destruct He' as [[E _]|(a & Ha' & E & _)].
    + by destruct (name_real spec Hok c Hc).
    + exists d. split_and!; try done. rewrite E. apply list_elem_of_fmap. eauto.
Qed.

Lemma pred_rel_acyclic dir : acyclic (Commands spec) -> forall x, ~ tc (pred_rel g0 dir) x x.
Proof.
  intros Hac x Hx. apply (Hac x). destruct dir.
  - clear Hac. assert (forall y, tc (pred_rel g0 walkFromBegin) x y -> tc (depends (Commands spec)) x y) as H;
      [|by apply H]. clear Hx. intros y. induction 1 as [a b H|a b c H _ IH].
    + apply tc_once. by apply (pred_rel_depends walkFromBegin).
    + eapply tc_l; [by apply (pred_rel_depends walkFromBegin)|done].
  - assert (forall y, tc (pred_rel g0 walkFromEnd) x y -> tc (depends (Commands spec)) y x) as H;
      [|by apply H]. clear Hx. intros y. induction 1 as [a b H|a b c H _ IH].
    + apply tc_once. by apply (pred_rel_depends walkFromEnd) in H.
    + eapply tc_r; [done|]. by apply (pred_rel_depends walkFromEnd) in H.
Qed.

(** What a start can rely on: actions bring every dependency in the closure to
    the state its dependents ask for, and the ones outside are there already. *)
Definition start_can_go (act : vertexID -> actionResult -> Prop) : Prop :=
  forall c a, c ∈ Commands spec -> Name c ∈ closure -> a ∈ After c ->
    if decide (after_Name a ∈ closure) then forall res, act (after_Name a) res -> cond_holds (condition a) res
    else snapshot_holds (condition a) (default zeroSnapshot (snaps !! after_Name a)).

Lemma can_go_build dir act : (dir = walkFromBegin -> start_can_go act) -> can_go g0 dir act.
Proof.
  intros Hgo Hdir id v p e Hv Ha He Hp. destruct (active_command _ _ Hv Ha) as (c & Hc & <- & Hin).
  rewrite (command_parents spec snaps closure targets Hok c v _ e Hc Hv) in He.
  destruct He as [[? _]|(a & Ha' & -> & ->)]; [done|].
  destruct (dep_command spec Hok c a Hc Ha') as (d & Hd & Ed).
  destruct (build_command spec snaps closure targets Hok d Hd) as (pv & Hpv & _ & _ & Hi & Hsn & _).
  rewrite Ed in *. exists pv. split; [done|]. rewrite Hi.
  pose proof (Hgo Hdir c a Hc Hin Ha') as Hcond. unfold cond_of; simpl. fold (condition a).
  case_decide as Hcl.
  - by rewrite bool_decide_true.
  - rewrite bool_decide_false by done. by rewrite Hsn.
Qed.

(** The vertex of a command in a reachable state. *)
Lemma reached_command dir limit act tr s c :
  reaches g0 dir limit act tr s -> c ∈ Commands spec ->
  exists v, Vertices (gr (sh s)) !! Name c = Some v /\ InClosure v = bool_decide (Name c ∈ closure) /\
    active v = bool_decide (Name c ∈ closure).
Proof.
  intros Hr Hc. pose proof (reaches_winv _ _ _ _ _ _ (build_wf spec snaps closure targets Hok) Hr) as HI.
  destruct (build_command spec snaps closure targets Hok c Hc) as (v0 & Hv0 & Hcmd & _ & Hi & _).
  destruct (same_static_lookup_r _ _ _ _ (gi_static _ _ _ _ _ _ (wi_graph _ _ _ _ HI)) Hv0) as (v & Hv & E).
  apply statics_eq in E as (Ea & _ & _ & Ei & _). exists v. rewrite <- Ei, <- Ea. split_and!; try done.
  unfold active. rewrite Hcmd, Hi. by rewrite bool_decide_true.
Qed.
End SpecWalk.

(** ** Safety *)

Lemma walk_acted spec snaps closure targets dir limit act tr s :
  spec_ok spec -> reaches (buildReconcileGraph spec snaps closure targets) dir limit act tr s ->
  (forall id, EvStart id ∈ tr -> exists c, c ∈ Commands spec /\ Name c = id /\ id ∈ closure) /\
  (forall id res, EvFinish id res ∈ tr -> EvStart id ∈ tr /\ act id res).
Proof.
  intros Hok Hr. pose proof (build_wf spec snaps closure targets Hok) as Hwf.
  pose proof (wi_graph _ _ _ _ (reaches_winv _ _ _ _ _ _ Hwf Hr)) as HG. split.
  - intros id Hid. apply (gi_started _ _ _ _ _ _ HG) in Hid as (v & Hv & Hs).
    destruct (same_static_lookup _ _ _ _ (gi_static _ _ _ _ _ _ HG) Hv) as (v0 & Hv0 & E).
    apply statics_eq in E as (Ea & _). eapply active_command; [done|exact Hv0|]. rewrite Ea.
    destruct Hs as [Hp|[Hc _]]; [by apply (gi_running _ _ _ _ _ _ HG id)|by apply (gi_consumed _ _ _ _ _ _ HG id)].
  - intros id res Hid. split; [|by eapply act_of_finish].
    apply (gi_finished _ _ _ _ _ _ HG) in Hid as (v & Hv & Hc & Hb & _).
    apply (gi_started _ _ _ _ _ _ HG). exists v. split; [done|by right].
Qed.

(** A walk acts on each command of its closure at most once and on nothing
    else: in every reachable state no command was started or finished twice, what
    was started is a command of the closure, and what finished had been started. *)
Theorem walk_acts_once spec snaps closure targets dir limit act tr s
    (Hok : spec_ok spec)
    (Hr : reaches (buildReconcileGraph spec snaps closure targets) dir limit act tr s) :
  NoDup (starts tr) /\ NoDup (finishes tr) /\
  (forall id, EvStart id ∈ tr -> exists c, c ∈ Commands spec /\ Name c = id /\ id ∈ closure) /\
  (forall id res, EvFinish id res ∈ tr -> EvStart id ∈ tr /\ act id res).
Proof.
  pose proof (build_wf spec snaps closure targets Hok) as Hwf.
  pose proof (wi_graph _ _ _ _ (reaches_winv _ _ _ _ _ _ Hwf Hr)) as HG.
  split; [apply HG|]. split; [apply HG|]. by eapply walk_acted.
Qed.

Lemma walk_acts_once_witness :
  let r := walk_fn demo_graph walkFromBegin 2 (fun _ => demo_ok) demo_schedule in
  NoDup (starts r.1) /\ length (starts r.1) = 3.
Proof.
  intros r. split; [|vm_compute; reflexivity].
  apply (walk_acts_once demo_spec ∅ demo_closure ∅ walkFromBegin 2 demo_act r.1 r.2 demo_spec_ok).
  apply demo_reaches.
Defined.

(** A command is started only after its dependencies: whenever the start walk
    runs the action of a command, each of its [after] dependencies in the closure has
    already finished, without an error and in the state its condition asks for, and
    each dependency outside the closure was in that state before the walk. *)
Lemma start_walk_order spec snaps closure targets limit act tr1 tr2 s c a
    (Hok : spec_ok spec)
    (Hr : reaches (buildReconcileGraph spec snaps closure targets) walkFromBegin limit act
            (tr1 ++ EvStart (Name c) :: tr2) s)
    (Hc : c ∈ Commands spec) (Ha : a ∈ After c) :
  if decide (after_Name a ∈ closure)
  then exists res, EvFinish (after_Name a) res ∈ tr1 /\ cond_holds (condition a) res
  else snapshot_holds (condition a) (default zeroSnapshot (snaps !! after_Name a)).
Proof.
  pose proof (build_wf spec snaps closure targets Hok) as Hwf.
  pose proof (wi_graph _ _ _ _ (reaches_winv _ _ _ _ _ _ Hwf Hr)) as HG.
  pose proof (gi_order _ _ _ _ _ _ HG tr1 tr2 (Name c) eq_refl) as Ho.
  destruct (build_command spec snaps closure targets Hok c Hc) as (v & Hv & _).
  destruct (dep_command spec Hok c a Hc Ha) as (d & Hd & Ed).
  destruct (build_command spec snaps closure targets Hok d Hd) as (dv & Hdv & _ & _ & Hi & Hsn & _).
  destruct (Ho v (after_Name a) (MkEdge (after_Name a) (Name c) (Condition a)) Hv) as (pv & Hpv & Hcond).
  - apply (command_parents spec snaps closure targets Hok c v _ _ Hc Hv). right. by exists a.
  - rewrite <- Ed. by destruct (name_real spec Hok d Hd).
  - rewrite <- Ed in Hpv. assert (Some dv = Some pv) as [= <-] by (by etransitivity; [symmetry; exact Hdv|exact Hpv]).
    rewrite Hi, Ed in Hcond.
    unfold cond_of in Hcond; simpl in Hcond. fold (condition a) in Hcond. case_decide as Hin.
    + by rewrite bool_decide_true in Hcond.
    + rewrite bool_decide_false in Hcond by done. rewrite Hsn, Ed in Hcond by (by rewrite Ed). done.
Qed.

(** A command is stopped only after everything that depends on it: whenever the
    stop walk runs the action of a command, each dependent of it in the closure has
    already finished its own. *)
Lemma stop_walk_order spec snaps closure targets limit act tr1 tr2 s c d
    (Hok : spec_ok spec)
    (Hr : reaches (buildReconcileGraph spec snaps closure targets) walkFromEnd limit act
            (tr1 ++ EvStart (Name d) :: tr2) s)
    (Hc : c ∈ Commands spec) (Hd : d ∈ Commands spec) (Hdep : Name d ∈ deps c)
    (Hin : Name c ∈ closure) :
  exists res, EvFinish (Name c) res ∈ tr1.
Proof.
  pose proof (build_wf spec snaps closure targets Hok) as Hwf.
  pose proof (wi_graph _ _ _ _ (reaches_winv _ _ _ _ _ _ Hwf Hr)) as HG.
  pose proof (gi_order _ _ _ _ _ _ HG tr1 tr2 (Name d) eq_refl) as Ho.
  destruct (build_command spec snaps closure targets Hok c Hc) as (cv & Hcv & _ & _ & Hi & _).
  destruct (build_command spec snaps closure targets Hok d Hd) as (dv & Hdv & _).
  apply list_elem_of_fmap in Hdep as (a & Ea & Ha).
  destruct (proj1 (wf_edges _ Hwf _ _ _ _ Hcv Hdv)) as [e He].
  { exists (MkEdge (Name d) (Name c) (Condition a)).
    apply (command_parents spec snaps closure targets Hok c cv _ _ Hc Hcv). right. by exists a. }
  assert (Hne : Name c <> endVertex) by apply (name_real spec Hok c Hc).
  apply (Ho dv (Name c) e Hdv He Hne cv Hcv).
  rewrite Hi. by rewrite bool_decide_true.
Qed.

(** ** The workers never get in each other's way *)

(** sending into the work channel never blocks: the seeds fit into it before any
    worker runs, and whenever a worker has a vertex to send there is room for it,
    because a vertex is queued at most once and only commands are queued. *)
Theorem walk_sends_never_block spec snaps closure targets dir limit act tr s
    (Hok : spec_ok spec)
    (Hr : reaches (buildReconcileGraph spec snaps closure targets) dir limit act tr s) :
  let g := buildReconcileGraph spec snaps closure targets in
  length (seed g dir).2 <= capacity g /\
  forall n ns, WSend (n :: ns) ∈ workers s -> length (workCh (sh s)) < capacity g.
Proof.
  pose proof (build_wf spec snaps closure targets Hok) as Hwf. split.
  - pose proof (tokens_le _ _ _ _ _ _ (ginv_seed _ dir Hwf)) as H. unfold capacity. lia.
  - intros n ns. eapply send_room. by eapply reaches_winv.
Qed.

Lemma walk_sends_never_block_witness :
  exists s tr n ns, reaches demo_graph walkFromBegin 2 demo_act tr s /\
    WSend (n :: ns) ∈ workers s /\ length (workCh (sh s)) < capacity demo_graph.
Proof.
  pose (r := walk_fn demo_graph walkFromBegin 2 (fun _ => demo_ok) [Move 0; Move 0; Move 0]).
  assert (Hw : workers r.2 = [WSend ["web"; "migrate"]; WIdle]) by (vm_compute; reflexivity).
  exists r.2, r.1, "web", ["migrate"]. split; [apply demo_reaches|].
  assert (Hin : WSend ["web"; "migrate"] ∈ workers r.2) by (rewrite Hw; left).
  split; [exact Hin|].
  exact (proj2 (walk_sends_never_block demo_spec ∅ demo_closure ∅ walkFromBegin 2 demo_act r.1 r.2
    demo_spec_ok (demo_reaches walkFromBegin _)) "web" ["migrate"] Hin).
Defined.

(** C3: every walk ends. From any reachable state there is no infinite run,
    whatever the actions return and even if the caller's context ends; and as long
    as some worker has not returned, some worker can move, provided the actions
    return. *)
Theorem walk_terminates spec snaps closure targets dir limit act pick tr s
    (Hok : spec_ok spec)
    (Hr : reaches (buildReconcileGraph spec snaps closure targets) dir limit act tr s)
    (Hpick : forall id, act id (pick id)) :
  let g := buildReconcileGraph spec snaps closure targets in
  Acc (fun s' s => exists e, wstep dir (capacity g) act s e s') s /\
  (finished s \/ exists i e s', step_fn dir (capacity g) pick s i = Some (e, s') /\
     wstep dir (capacity g) act s e s').
Proof.
  intros g. pose proof (build_wf spec snaps closure targets Hok) as Hwf. fold g in Hwf, Hr. split.
  - remember (work_left (commandCount g) s) as n eqn:En. revert s tr En Hr.
    induction n as [n IH] using lt_wf_ind. intros s tr En Hr. constructor. intros s' [e Hs].
    eapply (IH (work_left (commandCount g) s')); [|done|by eapply reaches_step].
    subst n. eapply work_left_step; [done| |done]. by eapply reaches_winv.
  - pose proof (reaches_winv _ _ _ _ _ _ Hwf Hr) as HI.
    destruct (winv_progress g dir pick s tr HI) as [?|[i [[e s'] Hs]]]; [by left|right].
    exists i, e, s'. split; [done|]. by eapply step_fn_sound.
Qed.

Lemma walk_terminates_witness :
  let s := start_fn demo_graph walkFromBegin 2 in
  Acc (fun s' s => exists e, wstep walkFromBegin (capacity demo_graph) demo_act s e s') s /\
  exists i e s', step_fn walkFromBegin (capacity demo_graph) (fun _ => demo_ok) s i = Some (e, s').
Proof.
  intros s.
  destruct (walk_terminates demo_spec ∅ demo_closure ∅ walkFromBegin 2 demo_act (fun _ => demo_ok) [] s
    demo_spec_ok (demo_reaches walkFromBegin []) (fun id => eq_refl)) as [Hacc [Hf|(i & e & s' & Hs & _)]].
  - assert (Hw : workers s = [WIdle; WIdle]) by (vm_compute; reflexivity).
    specialize (Hf WIdle). rewrite Hw in Hf. specialize (Hf ltac:(left)). discriminate Hf.
  - split; [exact Hacc|]. exists i, e, s'. exact Hs.
Defined.

(** ** What the outcomes report *)

(** One outcome of a finished walk: the command ran and the outcome is its result,
    or it never ran and the outcome is an error. *)
Definition outcome_fits (tr : list event) (name : string) (err : option reason) : Prop :=
  (exists res, EvFinish name res ∈ tr /\ err = res_Err res) \/ (EvStart name ∉ tr /\ is_Some err).

Lemma finished_command spec snaps closure targets dir limit act tr s c :
  spec_ok spec -> reaches (buildReconcileGraph spec snaps closure targets) dir limit act tr s ->
  finished s -> external s = false -> c ∈ Commands spec -> Name c ∈ closure ->
  exists v, Vertices (gr (sh s)) !! Name c = Some v /\ InClosure v = true /\ active v = true /\
    outcome_fits tr (Name c) (Err v).
Proof.
  intros Hok Hr Hf Hx Hc Hin.
  destruct (reached_command spec snaps closure targets Hok _ _ _ _ _ c Hr Hc) as (v & Hv & Hi & Ha).
  rewrite bool_decide_true in Hi, Ha by done. exists v. split_and!; try done.
  pose proof (reaches_winv _ _ _ _ _ _ (build_wf spec snaps closure targets Hok) Hr) as HI.
  destruct (finished_vertex _ _ _ _ _ _ HI Hf Hx Hv Ha) as [(_ & _ & ?)|(_ & ? & _ & ?)].
  - left. by exists (result_of v).
  - by right.
Qed.

(** C5: if the caller's context did not end, the outcomes of a finished start account for
    every command of the closure, in the order of the spec and for nothing else, and each
    is honest: the result of the command's own action, or an error for a command that
    never ran. (Once the context has ended, a command that never ran may be reported
    without an error: [cancelled_start_reports_success].) *)
Theorem start_outcomes_honest spec snaps closure targets limit act tr s
    (Hok : spec_ok spec)
    (Hr : reaches (buildReconcileGraph spec snaps closure targets) walkFromBegin limit act tr s)
    (Hf : finished s) (Hx : external s = false) :
  so_Command <$> startOutcomes (gr (sh s)) spec = filter (fun n => n ∈ closure) (command_names (Commands spec)) /\
  forall o, o ∈ startOutcomes (gr (sh s)) spec -> outcome_fits tr (so_Command o) (so_Err o).
Proof.
  pose proof (fun c => finished_command spec snaps closure targets walkFromBegin limit act tr s c
    Hok Hr Hf Hx) as Hcmd.
  pose proof (fun c => reached_command spec snaps closure targets Hok walkFromBegin limit act tr s c Hr) as Hrc.
  unfold startOutcomes. split.
  - unfold command_names. induction (Commands spec) as [|c cs IH]; [done|]. csimpl.
    destruct (Hrc c ltac:(by left)) as (v & -> & -> & _). rewrite filter_cons.
    destruct (decide (Name c ∈ closure)) as [Hin|Hin].
    + rewrite bool_decide_true by done. csimpl. f_equal. apply IH; intros; [apply Hcmd|apply Hrc]; try by right. all: done.
    + rewrite bool_decide_false by done. apply IH; intros; [apply Hcmd|apply Hrc]; try by right. all: done.
  - intros o (c & Hc & Ho)%list_elem_of_omap. destruct (Hrc c Hc) as (v & Hv & Hi & _).
    rewrite Hv, Hi in Ho. case_bool_decide as Hin; [|done]. injection Ho as <-. simpl.
    destruct (Hcmd c Hc Hin) as (v' & Hv' & _ & _ & Hfit). by replace v with v' by congruence.
Qed.

(** In a project without dependency cycles, when every action brings its command
    to the state its dependents ask for and the dependencies outside the closure are
    there already, a start runs every command of its closure: none is left blocked. *)
Lemma start_walk_complete spec snaps closure targets limit act tr s
    (Hok : spec_ok spec) (Hac : acyclic (Commands spec))
    (Hgo : start_can_go spec snaps closure act)
    (Hr : reaches (buildReconcileGraph spec snaps closure targets) walkFromBegin limit act tr s)
    (Hf : finished s) (Hx : external s = false) :
  forall c, c ∈ Commands spec -> Name c ∈ closure -> exists res, EvFinish (Name c) res ∈ tr /\ act (Name c) res.
Proof.
  intros c Hc Hin. pose proof (build_wf spec snaps closure targets Hok) as Hwf.
  destruct (reached_command spec snaps closure targets Hok _ _ _ _ _ c Hr Hc) as (v & Hv & _ & Ha).
  rewrite bool_decide_true in Ha by done.
  destruct (finished_vertex _ _ _ _ _ _ (reaches_winv _ _ _ _ _ _ Hwf Hr) Hf Hx Hv Ha) as [(_ & _ & H)|(Hb & _)].
  - exists (result_of v). split; [done|]. by eapply act_of_finish.
  - exfalso. assert (Hnb : Blocked v = false); [|congruence].
    eapply (reaches_no_blocked _ _ _ _ _ _ Hwf); [|by apply pred_rel_acyclic|exact Hr|exact Hv].
    by apply can_go_build.
Qed.

Lemma demo_acyclic : acyclic (Commands demo_spec).
Proof. apply (topoLayers_ok _ witness_cmds_NoDup). vm_compute. reflexivity. Qed.

Lemma demo_finished dir :
  let r := walk_fn demo_graph dir 2 (fun _ => demo_ok) demo_schedule in
  finished r.2 /\ external r.2 = false.
Proof.
  intros r. split; [apply (finished_exits _ 2)|]; destruct dir; vm_compute; reflexivity.
Qed.

Lemma start_outcomes_honest_witness :
  let r := walk_fn demo_graph walkFromBegin 2 (fun _ => demo_ok) demo_schedule in
  so_Command <$> startOutcomes (gr (sh r.2)) demo_spec = ["web"; "migrate"; "db"].
Proof.
  intros r. destruct (demo_finished walkFromBegin) as [Hf Hx].
  destruct (start_outcomes_honest demo_spec ∅ demo_closure ∅ 2 demo_act r.1 r.2 demo_spec_ok
    (demo_reaches walkFromBegin _) Hf Hx) as [E _].
  etransitivity; [exact E|]. vm_compute. reflexivity.
Defined.

(** The outcome a finished action leaves. *)
Definition stop_outcome_of (e : event) : option StopOutcome :=
  match e with
  | EvFinish id res => Some {| st_Command := id; st_Err := res_Err res; st_ForceKilled := res_ForceKilled res |}
  | EvStart _ => None
  end.

Lemma stop_outcome_names tr : st_Command <$> omap stop_outcome_of tr = finishes tr.
Proof.
  induction tr as [|[id|id res] tr IH]; [done|exact IH|].
  change (id :: (st_Command <$> omap stop_outcome_of tr) = id :: finishes tr). by rewrite IH.
Qed.

Lemma stamped_outcomes (stamp : vertexID -> nat) tr :
  StronglySorted (fun a b => stamp a < stamp b) (finishes tr) ->
  StronglySorted (fun a b => a.1 < b.1) ((fun o => (stamp (st_Command o), o)) <$> omap stop_outcome_of tr).
Proof.
  rewrite <- stop_outcome_names. generalize (omap stop_outcome_of tr) as l. intros l H.
  induction l as [|o l IH]; csimpl in *; [constructor|]. inversion H as [|? ? Hs Hf]; subst.
  constructor; [by apply IH|]. rewrite Forall_forall in Hf. rewrite Forall_forall.
  intros x (o' & -> & Ho')%list_elem_of_fmap. apply Hf, list_elem_of_fmap. by exists o'.
Qed.

(** An action that finished was a command's, and its vertex keeps the result. *)
Lemma finish_command spec snaps closure targets dir limit act tr s id res :
  spec_ok spec -> reaches (buildReconcileGraph spec snaps closure targets) dir limit act tr s ->
  EvFinish id res ∈ tr -> exists c v, c ∈ Commands spec /\ Name c = id /\
    Vertices (gr (sh s)) !! id = Some v /\ InClosure v = true /\ result_of v = res /\ id ∈ closure.
Proof.
  intros Hok Hr. pose proof (build_wf spec snaps closure targets Hok) as Hwf.
  pose proof (wi_graph _ _ _ _ (reaches_winv _ _ _ _ _ _ Hwf Hr)) as HG.
  intros (v & Hv & Hc & _ & Hres)%(gi_finished _ _ _ _ _ _ HG).
  pose proof (gi_consumed _ _ _ _ _ _ HG id v Hv Hc) as Ha.
  destruct (same_static_lookup _ _ _ _ (gi_static _ _ _ _ _ _ HG) Hv) as (v0 & Hv0 & E).
  apply statics_eq in E as (Ea & _). rewrite <- Ea in Ha.
  destruct (active_command spec snaps closure targets Hok _ _ Hv0 Ha) as (c & Hcs & Hn & Hin).
  exists c, v. rewrite Ea in Ha. apply active_closure in Ha. done.
Qed.

(** Where nothing is blocked, every command of the closure finished. *)
Lemma unblocked_finish spec snaps closure targets dir limit act tr s c v :
  spec_ok spec -> reaches (buildReconcileGraph spec snaps closure targets) dir limit act tr s ->
  finished s -> external s = false -> no_blocked (gr (sh s)) ->
  c ∈ Commands spec -> Vertices (gr (sh s)) !! Name c = Some v -> InClosure v = true ->
  EvFinish (Name c) (result_of v) ∈ tr.
Proof.
  intros Hok Hr Hf Hx Hnb Hc Hv Hi. pose proof (build_wf spec snaps closure targets Hok) as Hwf.
  destruct (reached_command spec snaps closure targets Hok _ _ _ _ _ c Hr Hc) as (w & Hw & Hwi & Hwa).
  replace w with v in * by congruence.
  destruct (finished_vertex _ _ _ _ _ _ (reaches_winv _ _ _ _ _ _ Hwf Hr) Hf Hx Hv)
    as [(_ & _ & ?)|(Hb & _)]; [congruence|done|]. by rewrite (Hnb _ _ Hv) in Hb.
Qed.

(** the outcomes of a finished stop of a project without dependency cycles list
    exactly the commands of the closure, in the order in which their actions finished,
    dependents before what they depend on, each with the error and the force-kill mark
    of its own action. *)
Theorem stop_outcomes_in_order spec snaps closure targets limit act tr s
    (Hok : spec_ok spec) (Hac : acyclic (Commands spec))
    (Hr : reaches (buildReconcileGraph spec snaps closure targets) walkFromEnd limit act tr s)
    (Hf : finished s) (Hx : external s = false) :
  stopOutcomes (gr (sh s)) spec = omap stop_outcome_of tr /\
  (forall n, n ∈ finishes tr <-> n ∈ command_names (Commands spec) /\ n ∈ closure).
Proof.
  pose proof (build_wf spec snaps closure targets Hok) as Hwf.
  pose proof (reaches_winv _ _ _ _ _ _ Hwf Hr) as HI. pose proof (wi_graph _ _ _ _ HI) as HG.
  assert (Hnb : no_blocked (gr (sh s))).
  { eapply (reaches_no_blocked _ _ _ _ _ _ Hwf); [|by apply pred_rel_acyclic|exact Hr]. by apply can_go_build. }
  split.
  2:{ intros n. rewrite elem_of_finishes. split.
      - intros (res & (c & v & Hc & <- & _ & _ & _ & Hin)%(finish_command _ _ _ _ _ _ _ _ _ _ _ Hok Hr)). split; [|done]. apply list_elem_of_fmap. eauto.
      - intros [(c & -> & Hc)%list_elem_of_fmap Hin].
        destruct (reached_command spec snaps closure targets Hok _ _ _ _ _ c Hr Hc) as (v & Hv & Hi & _).
        exists (result_of v). apply (unblocked_finish spec snaps closure targets walkFromEnd limit act tr s); try done. by rewrite Hi, bool_decide_true. }
  unfold stopOutcomes.
  rewrite (sort_by_order_unique _ ((fun o => (order_of (gr (sh s)) (st_Command o), o)) <$> omap stop_outcome_of tr)).
  - rewrite <- list_fmap_compose. by rewrite list_fmap_id.
  - apply NoDup_Permutation.
    + apply (NoDup_fmap_1 (fun x => st_Command x.2)). eapply sublist_NoDup; [apply (so_nodup _ Hok)|].
      unfold command_names. clear. induction (Commands spec) as [|c cs IH]; csimpl; [constructor|].
      destruct (Vertices (gr (sh s)) !! Name c) as [v|]; [destruct (InClosure v)|]; csimpl; by constructor.
    + apply (NoDup_fmap_1 (fun x => st_Command x.2)). rewrite <- list_fmap_compose.
      change (NoDup (st_Command <$> omap stop_outcome_of tr)). rewrite stop_outcome_names. apply HG.
    + intros [n o]. rewrite list_elem_of_omap, list_elem_of_fmap. setoid_rewrite list_elem_of_omap. split.
      * intros (c & Hc & Ho). destruct (Vertices _ !! Name c) as [v|] eqn:Hv; [|done].
        destruct (InClosure v) eqn:Hi; [|done]. injection Ho as <- <-. eexists. split.
        2:{ exists (EvFinish (Name c) (result_of v)). split; [by apply (unblocked_finish spec snaps closure targets walkFromEnd limit act tr s)|reflexivity]. }
        unfold order_of; simpl. f_equal. transitivity (from_option Order 0 (Some v)); [done|]. by f_equal.
      * intros (o' & [= -> ->] & [id|id res] & Hev & Ho); [done|]. injection Ho as <-.
        destruct (finish_command _ _ _ _ _ _ _ _ _ _ _ Hok Hr Hev) as (c & v & Hc & <- & Hv & Hi & <- & _). exists c. split; [done|].
        simpl. assert (Ho : order_of (gr (sh s)) (Name c) = Order v) by (unfold order_of; by rewrite Hv).
        rewrite Ho. destruct (Vertices (gr (sh s)) !! Name c) as [w|] eqn:Hw; [|by setoid_rewrite Hw in Hv].
        assert (w = v) as -> by (by setoid_rewrite Hw in Hv; injection Hv). by rewrite Hi.
  - apply stamped_outcomes. by apply (reaches_stamped _ _ _ _ _ _ Hwf Hr).
Qed.

Lemma stop_outcomes_in_order_witness :
  let r := walk_fn demo_graph walkFromEnd 2 (fun _ => demo_ok) demo_schedule in
  stopOutcomes (gr (sh r.2)) demo_spec = omap stop_outcome_of r.1 /\ finishes r.1 = ["web"; "migrate"; "db"].
Proof.
  intros r. destruct (demo_finished walkFromEnd) as [Hf Hx].
  destruct (stop_outcomes_in_order demo_spec ∅ demo_closure ∅ 2 demo_act r.1 r.2 demo_spec_ok demo_acyclic
    (demo_reaches walkFromEnd _) Hf Hx) as [E _].
  split; [exact E|]. vm_compute. reflexivity.
Defined.

(** When the caller's context ends during a start, a command whose action never
    ran can still be reported as started: the workers leave before the vertices are
    drained, [finalize] never runs, and the outcome of a vertex nobody claimed has
    no error. *)
Theorem cancelled_start_reports_success :
  exists tr s, reaches demo_graph walkFromBegin 2 demo_act tr s /\ finished s /\ external s = true /\
    EvStart "web" ∉ tr /\ {| so_Command := "web"; so_Err := None |} ∈ startOutcomes (gr (sh s)) demo_spec.
Proof.
  pose (r := walk_fn demo_graph walkFromBegin 2 (fun _ => demo_ok) [Cancel; Leave 0; Leave 1]).
  exists r.1, r.2. split; [apply demo_reaches|].
  assert (Hw : finished r.2) by (apply (finished_exits _ 2); vm_compute; reflexivity).
  assert (Hx : external r.2 = true) by (vm_compute; reflexivity).
  assert (Ht : r.1 = []) by (vm_compute; reflexivity).
  assert (Ho : startOutcomes (gr (sh r.2)) demo_spec = [{| so_Command := "web"; so_Err := None |};
    {| so_Command := "migrate"; so_Err := None |}; {| so_Command := "db"; so_Err := None |}])
    by (vm_compute; reflexivity).
  clearbody r. rewrite Ho, Ht. split_and!; [done|done|apply not_elem_of_nil|left].
Qed.
