(* ===== verification/Targets.v ===== *)
(** * What an operation is about: targets and closures

    [cmdman/compose/target.go], the replica labels of [plan.go] it reads, and the
    two closures of [reconcile.go]: [resolveTargetCommands], which pulls in what a
    start needs, and [resolveStopTargetCommands], which pulls in what a stop
    would break. *)

From S2P Require Import Prelude GoStr Model ComposeSpec Graph Reconcile.

(** ** Replica labels *)

(* src/cmdman/compose/plan.go:200-208 scaleLabelValue *)
Definition scaleLabelValue (v : string) : Z := default 0%Z (Atoi v).

(* src/cmdman/compose/plan.go:190-197 ScaleOf *)
Definition ScaleOf (labels : gmap string string) : Z * Z :=
  (scaleLabelValue (label labels LabelScaleIndex), scaleLabelValue (label labels LabelScale)).

(* src/cmdman/compose/plan.go:210-220 scaleIndexOf *)
Definition scaleIndexOf (e : CommandEntry) : Z :=
  match ConfigJSON e with None => 0%Z | Some cfg => (ScaleOf (Labels cfg)).1 end.

(** ** Targets *)

(* src/cmdman/compose/target.go:9-17 Target *)
Record Target := { t_Command : string; t_ScaleIndex : Z }.

(* src/cmdman/compose/target.go:19-30 TargetsOf *)
Definition TargetsOf (names : list string) : list Target :=
  map (fun n => {| t_Command := n; t_ScaleIndex := 0%Z |}) names.

(* src/cmdman/compose/target.go:42-95 resolveTargets *)
Inductive targetErr :=
| UnknownCommands (names : list string)
| ReplicaRange (t : Target) (count : Z).

(** The names no command has, each once, in the order the targets name them. *)
(* src/cmdman/compose/target.go:47-52 resolveTargets *)
Definition unknown_targets (replicas : gmap string Z) (targets : list Target) : list string :=
  foldl (fun unknown t =>
    if bool_decide (is_Some (replicas !! t_Command t)) || bool_decide (t_Command t ∈ unknown)
    then unknown else unknown ++ [t_Command t]) [] targets.

(** One target of the second loop: [every] and [picked]. *)
(* src/cmdman/compose/target.go:58-73 resolveTargets *)
Definition pick_target (replicas : gmap string Z) (st : gset string * gmap string (gset Z)) (t : Target)
  : result targetErr (gset string * gmap string (gset Z)) :=
  let '(every, picked) := st in
  if decide (t_ScaleIndex t = 0%Z) then Ok ({[t_Command t]} ∪ every, picked)
  else
    let count := default 0%Z (replicas !! t_Command t) in
    if decide (t_ScaleIndex t < 1 \/ count < t_ScaleIndex t)%Z then Prelude.Err (ReplicaRange t count)
    else Ok (every,
             <[t_Command t := {[t_ScaleIndex t]} ∪ default ∅ (picked !! t_Command t)]> picked).

(* src/cmdman/compose/target.go:37-85 resolveTargets *)
Definition resolveTargets (targets : list Target) (replicas : gmap string Z)
  : result targetErr targetSet :=
  match targets with
  | [] => Ok ∅
  | _ =>
    match unknown_targets replicas targets with
    | n :: ns => Prelude.Err (UnknownCommands (sort_strings (n :: ns)))
    | [] =>
      try (every, picked) := result_foldl (pick_target replicas) (∅, ∅) targets in
      Ok (set_to_map (fun n => (n, None)) every ∪
          ((fun ixs => Some (sort_ints (elements ixs))) <$> picked))
    end
  end.

(* src/cmdman/compose/target.go:97-105 declaredReplicas *)
Definition declaredReplicas (spec : ComposeSpec) : gmap string Z :=
  foldl (fun m c => <[Name c := Z.max (Scale c) 1]> m) ∅ (Commands spec).

(** One stored entry of [storedReplicas]. *)
(* src/cmdman/compose/target.go:121-131 storedReplicas *)
Definition count_replica (known_only : bool) (out : gmap string Z) (e : CommandEntry) : gmap string Z :=
  let name := commandNameOf e in
  if decide (name = "") then out
  else if known_only && bool_decide (out !! name = None) then out
  else <[name := Z.max (default 0%Z (out !! name)) (scaleIndexOf e)]> out.

(* src/cmdman/compose/target.go:107-133 storedReplicas *)
Definition storedReplicas (spec : option ComposeSpec) (entries : list CommandEntry) : gmap string Z :=
  let out := match spec with
             | Some s => foldl (fun m c => <[Name c := 0%Z]> m) ∅ (Commands s)
             | None => ∅
             end in
  foldl (count_replica (bool_decide (is_Some spec))) out entries.

(* src/cmdman/compose/target.go:135-138 targetSet.names *)
Definition names (ts : targetSet) : list string := sorted_keys ts.

(* src/cmdman/compose/target.go:140-149 targetSet.replicaScoped *)
Definition replicaScoped (ts : targetSet) : bool :=
  existsb (fun kv => bool_decide (is_Some (kv.2 : option (list Z)))) (map_to_list ts).

(* src/cmdman/compose/target.go:151-157 targetSet.covers *)
Definition covers (ts : targetSet) (command : string) (scaleIndex : Z) : bool :=
  match mjoin (ts !! command) with
  | None => true
  | Some indices => bool_decide (scaleIndex ∈ indices)
  end.

(* src/cmdman/compose/target.go:159-173 targetSet.filter *)
Definition ts_filter (ts : targetSet) (entries : list CommandEntry) : list CommandEntry :=
  if decide (ts = ∅) then entries
  else filter (fun e => is_Some (ts !! commandNameOf e) /\
                        covers ts (commandNameOf e) (scaleIndexOf e) = true) entries.

(** ** Closures *)

(** The recursion of both resolvers: visit a known, unseen name and then what
    [next] gives for it.  Every call below the first adds a name to [target], so
    one more than the number of names is fuel enough. *)
(* src/cmdman/compose/reconcile.go:130-143 resolveTargetCommands *)
Fixpoint visit (next : string -> option (list string)) (fuel : nat) (target : gset string) (n : string)
  : gset string :=
  match fuel with
  | O => target
  | S fuel =>
    if decide (n ∈ target) then target
    else match next n with
         | None => target
         | Some ds => foldl (visit next fuel) ({[n]} ∪ target) ds
         end
  end.

(* src/cmdman/compose/reconcile.go:119-122 resolveTargetCommands *)
Definition commands_by_name (spec : ComposeSpec) : gmap string Command :=
  foldl (fun m c => <[Name c := c]> m) ∅ (Commands spec).

(* src/cmdman/compose/reconcile.go:114-148 resolveTargetCommands *)
Definition resolveTargetCommands (spec : ComposeSpec) (ns : list string) : gset string :=
  let all := commands_by_name spec in
  match ns with
  | [] => dom all
  | _ => foldl (visit (fun n => deps <$> all !! n) (S (size all))) ∅ ns
  end.

(* src/cmdman/compose/reconcile.go:166-171 resolveStopTargetCommands *)
Definition dependents_of (spec : ComposeSpec) : gmap string (list string) :=
  foldl (fun m c => foldl (fun m d => <[d := default [] (m !! d) ++ [Name c]]> m) m (deps c)) ∅
    (Commands spec).

(* src/cmdman/compose/reconcile.go:150-189 resolveStopTargetCommands *)
Definition resolveStopTargetCommands (spec : ComposeSpec) (ns : list string) : gset string :=
  let all := list_to_set (command_names (Commands spec)) in
  let dependents := dependents_of spec in
  match ns with
  | [] => all
  | _ => foldl (visit (fun n => if decide (n ∈ all) then Some (default [] (dependents !! n)) else None)
                  (S (size all))) ∅ ns
  end.

(** ** The closures are exact *)

Section Visit.
Context (next : string -> option (list string)) (N : gset string)
  (HN : forall n, n ∈ N <-> is_Some (next n)).

Definition edge_to (x y : string) : Prop := exists ds, next x = Some ds /\ y ∈ ds /\ y ∈ N.

(** What one visit, or a row of them, adds to [T]. *)
Record visited (ns : list string) (T T' : gset string) : Prop := {
  vis_keep : T ⊆ T';
  vis_known : T' ⊆ N;
  vis_roots : forall n, n ∈ ns -> n ∈ N -> n ∈ T';
  vis_closed : forall x y, x ∈ T' -> x ∉ T -> edge_to x y -> y ∈ T';
  vis_reach : forall x, x ∈ T' -> x ∉ T -> exists n, n ∈ ns /\ n ∈ N /\ rtc edge_to n x;
}.

Lemma visited_fold fuel ns T :
  (forall n T, T ⊆ N -> size (N ∖ T) < fuel -> visited [n] T (visit next fuel T n)) ->
  T ⊆ N -> size (N ∖ T) < fuel -> visited ns T (foldl (visit next fuel) T ns).
Proof.
  intros Hv. revert T. induction ns as [|n ns IH]; intros T HT Hf; cbn [foldl].
  { constructor; try done. by intros ? ?%elem_of_nil. }
  destruct (Hv n T HT Hf) as [Hk1 Hn1 Hr1 Hc1 Hp1].
  destruct (IH (visit next fuel T n)) as [Hk2 Hn2 Hr2 Hc2 Hp2]; [done| |].
  { eapply Nat.le_lt_trans; [|exact Hf]. apply subseteq_size. intros x. rewrite !elem_of_difference. naive_solver. }
  constructor; try done.
  - by etransitivity.
  - intros m [->|Hm]%elem_of_cons HmN; [|by apply Hr2]. apply Hk2, Hr1; [left|done].
  - intros x y Hx HxT He. destruct (decide (x ∈ visit next fuel T n)) as [Hx1|Hx1]; [|by eapply Hc2].
    apply Hk2. by eapply Hc1.
  - intros x Hx HxT. destruct (decide (x ∈ visit next fuel T n)) as [Hx1|Hx1].
    + destruct (Hp1 x Hx1 HxT) as (m & ->%list_elem_of_singleton & ? & ?). exists n. split; [left|done].
    + destruct (Hp2 x Hx Hx1) as (m & ? & ?). exists m. split; [by right|done].
Qed.

Lemma visit_spec fuel n T : T ⊆ N -> size (N ∖ T) < fuel -> visited [n] T (visit next fuel T n).
Proof.
  revert n T. induction fuel as [|fuel IH]; intros n T HT Hf; [lia|]. cbn [visit].
  destruct (decide (n ∈ T)) as [Hin|Hin].
  { constructor; try done. by intros m ->%list_elem_of_singleton. }
  destruct (next n) as [ds|] eqn:Hn.
  2:{ constructor; try done. intros m ->%list_elem_of_singleton HmN%HN. rewrite Hn in HmN. by destruct HmN. }
  assert (HnN : n ∈ N) by (apply HN; rewrite Hn; done).
  destruct (visited_fold fuel ds ({[n]} ∪ T) IH) as [Hk Hk' Hr Hc Hp].
  { intros x [->%elem_of_singleton|Hx]%elem_of_union; [done|by apply HT]. }
  { assert (size (N ∖ ({[n]} ∪ T)) < size (N ∖ T)); [|lia]. apply subset_size. split.
    - intros x. rewrite !elem_of_difference, elem_of_union. naive_solver.
    - intros H. assert (Hx : n ∈ N ∖ T) by (by apply elem_of_difference).
      apply H, elem_of_difference in Hx as [_ Hx]. apply Hx, elem_of_union. left. by apply elem_of_singleton. }
  constructor; try done.
  - intros x Hx. apply Hk, elem_of_union. by right.
  - intros m ->%list_elem_of_singleton _. apply Hk, elem_of_union. left. by apply elem_of_singleton.
  - intros x y Hx HxT He. destruct (decide (x = n)) as [->|Hxn].
    + destruct He as (ds' & Hn' & Hy & HyN). apply Hr; [|done]. congruence.
    + eapply Hc; [exact Hx| |exact He]. intros [?%elem_of_singleton|?]%elem_of_union; done.
  - intros x Hx HxT. exists n. split; [left|]. split; [done|]. destruct (decide (x = n)) as [->|Hxn]; [apply rtc_refl|].
    destruct (Hp x Hx) as (d & Hd & HdN & Hreach); [intros [?%elem_of_singleton|?]%elem_of_union; done|].
    eapply rtc_l; [|exact Hreach]. by exists ds.
Qed.

(** From the empty set, the visits collect what the roots reach. *)
Lemma visit_all ns x :
  x ∈ foldl (visit next (S (size N))) ∅ ns <-> exists n, n ∈ ns /\ n ∈ N /\ rtc edge_to n x.
Proof.
  destruct (visited_fold (S (size N)) ns ∅) as [_ Hk Hr Hc Hp].
  { intros. by apply visit_spec. }
  { apply empty_subseteq. }
  { pose proof (subseteq_size (N ∖ ∅) N ltac:(apply subseteq_difference_l; done)). lia. }
  split.
  - intros Hx. apply Hp; [done|apply not_elem_of_empty].
  - intros (n & Hn & HnN & Hreach). pose proof (Hr n Hn HnN) as Hin. clear Hn HnN.
    induction Hreach as [|a b c He _ IH]; [done|]. apply IH. eapply Hc; [exact Hin|apply not_elem_of_empty|exact He].
Qed.
End Visit.

(** [y] is a command that [x] depends on. *)
Definition needs (spec : ComposeSpec) (x y : string) : Prop :=
  depends (Commands spec) x y /\ y ∈ command_names (Commands spec).

Section Closures.
Context (spec : ComposeSpec) (Hnd : NoDup (command_names (Commands spec))).

Lemma commands_by_name_lookup n c :
  commands_by_name spec !! n = Some c <-> c ∈ Commands spec /\ Name c = n.
Proof.
  unfold commands_by_name. revert Hnd. unfold command_names.
  assert (forall cs (m : gmap string Command), NoDup (map Name cs) ->
    foldl (fun m c => <[Name c := c]> m) m cs !! n = Some c <->
    (c ∈ cs /\ Name c = n) \/ (n ∉ map Name cs /\ m !! n = Some c)) as H.
  { induction cs as [|c0 cs IH]; intros m Hn; simpl.
    { split; [intros ?; right; split; [apply not_elem_of_nil|done]|]. by intros [[?%elem_of_nil _]|[_ ?]]. }
    inversion Hn as [|? ? Hc0 Hn']; subst. rewrite IH by done. rewrite !elem_of_cons.
    destruct (decide (Name c0 = n)) as [<-|Hne].
    - rewrite lookup_insert_eq. split.
      + intros [[Hc Hn0]|[_ [= <-]]]; [|by left; auto]. left. auto.
      + intros [[[->|Hc] Hn0]|[Hx _]]; [by right|by left|]. exfalso. apply Hx. by left.
    - rewrite lookup_insert_ne by done. split.
      + intros [[? ?]|[Hx ?]]; [left; auto|right]. split; [|done]. intros [?|?]; done.
      + intros [[[->|?] ?]|[Hx ?]]; [done|by left|right]. split; [|done]. intros ?. apply Hx. by right. }
  intros Hn. rewrite H by done. rewrite lookup_empty. naive_solver.
Qed.

Lemma commands_by_name_dom n : n ∈ dom (commands_by_name spec) <-> n ∈ command_names (Commands spec).
Proof.
  rewrite elem_of_dom. unfold is_Some. setoid_rewrite commands_by_name_lookup.
  unfold command_names. rewrite list_elem_of_fmap. naive_solver.
Qed.

Lemma dependents_lookup d n :
  n ∈ default [] (dependents_of spec !! d) <-> depends (Commands spec) n d.
Proof.
  unfold dependents_of.
  assert (forall c ds (m : gmap string (list string)),
    n ∈ default [] (foldl (fun m d => <[d := default [] (m !! d) ++ [Name c]]> m) m ds !! d) <->
    n ∈ default [] (m !! d) \/ (Name c = n /\ d ∈ ds)) as Hin.
  { intros c. induction ds as [|x ds IH]; intros m; simpl; [rewrite elem_of_nil; tauto|].
    rewrite IH, elem_of_cons. destruct (decide (x = d)) as [->|Hx].
    - rewrite lookup_insert_eq. simpl. rewrite elem_of_app, list_elem_of_singleton. naive_solver.
    - rewrite lookup_insert_ne by done. naive_solver. }
  assert (forall cs (m : gmap string (list string)),
    n ∈ default [] (foldl (fun m c => foldl (fun m d => <[d := default [] (m !! d) ++ [Name c]]> m) m (deps c))
      m cs !! d) <-> n ∈ default [] (m !! d) \/ exists c, c ∈ cs /\ Name c = n /\ d ∈ deps c) as H.
  { induction cs as [|c cs IH]; intros m; simpl.
    { setoid_rewrite elem_of_nil. naive_solver. }
    rewrite IH, Hin. setoid_rewrite elem_of_cons. naive_solver. }
  rewrite H, lookup_empty. simpl. rewrite elem_of_nil. unfold depends. naive_solver.
Qed.

Lemma rtc_iff {A} (R S : A -> A -> Prop) : (forall x y, R x y <-> S x y) -> forall x y, rtc R x y <-> rtc S x y.
Proof. intros H x y. split; apply rtc_subrel; intros a b; apply H. Qed.

Lemma start_closure ns n :
  n ∈ resolveTargetCommands spec ns <->
  n ∈ command_names (Commands spec) /\
  (ns = [] \/ exists m, m ∈ ns /\ m ∈ command_names (Commands spec) /\ rtc (needs spec) m n).
Proof.
  unfold resolveTargetCommands. destruct ns as [|m0 ns].
  { rewrite commands_by_name_dom. naive_solver. }
  pose proof (visit_all (fun n => deps <$> commands_by_name spec !! n) (dom (commands_by_name spec))) as H.
  rewrite size_dom in H. rewrite H; clear H.
  2:{ intros x. rewrite elem_of_dom, fmap_is_Some. done. }
  setoid_rewrite commands_by_name_dom.
  assert (forall x y, edge_to (fun n => deps <$> commands_by_name spec !! n) (dom (commands_by_name spec)) x y
    <-> needs spec x y) as He.
  { intros x y. unfold edge_to, needs, depends. setoid_rewrite commands_by_name_dom.
    split.
    - intros (ds & (c & Hc & ->)%fmap_Some & Hy & HyN). apply commands_by_name_lookup in Hc as [Hc <-]. eauto 6.
    - intros ((c & Hc & <- & Hy) & HyN). exists (deps c). split_and!; try done.
      apply fmap_Some. exists c. split; [by apply commands_by_name_lookup|done]. }
  setoid_rewrite (rtc_iff _ _ He). split.
  - intros (m & Hm & HmN & Hr). split; [|right; eauto].
    apply rtc_inv_r in Hr as [->|(z & _ & [_ ?])]; done.
  - intros [Hn [?|?]]; [done|eauto].
Qed.

Lemma stop_closure ns n :
  n ∈ resolveStopTargetCommands spec ns <->
  n ∈ command_names (Commands spec) /\
  (ns = [] \/ exists m, m ∈ ns /\ m ∈ command_names (Commands spec) /\ rtc (flip (depends (Commands spec))) m n).
Proof.
  unfold resolveStopTargetCommands. destruct ns as [|m0 ns].
  { rewrite elem_of_list_to_set. naive_solver. }
  set (all := list_to_set (command_names (Commands spec)) : gset string).
  rewrite (visit_all _ all).
  2:{ intros x. by case_decide. }
  assert (Hall : forall x, x ∈ all <-> x ∈ command_names (Commands spec)) by (intros; apply elem_of_list_to_set).
  assert (forall x y, edge_to (fun n => if decide (n ∈ all) then Some (default [] (dependents_of spec !! n)) else None)
    all x y <-> x ∈ command_names (Commands spec) /\ flip (depends (Commands spec)) x y) as He.
  { intros x y. unfold edge_to, flip. rewrite <- (dependents_lookup x y). split.
    - intros (ds & Hd & Hy & HyN). case_decide as Hx; [|done]. apply Hall in Hx. by injection Hd as <-.
    - intros [Hx%Hall Hy]. eexists. rewrite decide_True by done. split; [done|]. split; [done|].
      apply dependents_lookup in Hy as (c & Hc & <- & _). apply Hall. apply list_elem_of_fmap. eauto. }
  split.
  - intros (m & Hm & HmN%Hall & Hr%(rtc_iff _ _ He)). split.
    + apply rtc_inv_r in Hr as [->|(z & _ & [_ (c & Hc & <- & _)])]; [done|]. apply list_elem_of_fmap. eauto.
    + right. exists m. split_and!; try done. eapply rtc_subrel; [|exact Hr]. by intros a b [_ ?].
  - intros [Hn [?|(m & Hm & HmN & Hr)]]; [done|]. exists m. split_and!; [done|by apply Hall|].
    apply (rtc_iff _ _ He). clear Hn Hm. induction Hr as [|a b c Hab Hr IH]; [apply rtc_refl|].
    eapply rtc_l; [split; [done|exact Hab]|]. apply IH. destruct Hab as (x & Hx & <- & _). apply list_elem_of_fmap. eauto.
Qed.
End Closures.

(** The closures are exact. A start covers the named commands and whatever they
    depend on, directly or not, and nothing more; a stop covers the named commands and
    whatever depends on them; no names mean the whole project. Unknown names add
    nothing, and the recursion ends even if the dependencies form a cycle. *)
Theorem closures_exact spec ns n
    (Hnd : NoDup (command_names (Commands spec))) :
  (n ∈ resolveTargetCommands spec ns <->
     n ∈ command_names (Commands spec) /\
     (ns = [] \/ exists m, m ∈ ns /\ m ∈ command_names (Commands spec) /\ rtc (needs spec) m n)) /\
  (n ∈ resolveStopTargetCommands spec ns <->
     n ∈ command_names (Commands spec) /\
     (ns = [] \/ exists m, m ∈ ns /\ m ∈ command_names (Commands spec) /\
        rtc (flip (depends (Commands spec))) m n)).
Proof. split; [by apply start_closure|by apply stop_closure]. Qed.

Lemma closures_exact_witness :
  "db" ∈ resolveTargetCommands (mkSpec witness_cmds) ["migrate"] /\
  ~ rtc (needs (mkSpec witness_cmds)) "migrate" "web".
Proof.
  split.
  - apply (closures_exact (mkSpec witness_cmds) ["migrate"] "db" witness_cmds_NoDup).
    split; [apply (bool_decide_unpack _); vm_compute; exact I|]. right. exists "migrate".
    split; [left|]. split; [apply (bool_decide_unpack _); vm_compute; exact I|].
    apply rtc_once. split; [|apply (bool_decide_unpack _); vm_compute; exact I].
    exists (mkCommand "migrate" [MkAfter "db" ConditionRunning] 1). split; [right; left|].
    split; [reflexivity|left].
  - intros H. assert ("web" ∉ resolveTargetCommands (mkSpec witness_cmds) ["migrate"]) as Hn.
    { apply (bool_decide_unpack _). vm_compute. exact I. }
    apply Hn. apply (start_closure (mkSpec witness_cmds) witness_cmds_NoDup).
    split; [apply (bool_decide_unpack _); vm_compute; exact I|]. right. exists "migrate".
    split; [left|]. split; [apply (bool_decide_unpack _); vm_compute; exact I|exact H].
Defined.

(** ** What targets select *)

(** A target that can be resolved. *)
Definition target_ok (replicas : gmap string Z) (t : Target) : Prop :=
  exists count, replicas !! t_Command t = Some count /\
    (t_ScaleIndex t = 0%Z \/ (1 <= t_ScaleIndex t <= count)%Z).

(** The replica a target selects. *)
Definition selects (t : Target) (n : string) (i : Z) : Prop :=
  t_Command t = n /\ (t_ScaleIndex t = 0%Z \/ t_ScaleIndex t = i).

Lemma unknown_targets_nil replicas targets :
  unknown_targets replicas targets = [] <-> forall t, t ∈ targets -> is_Some (replicas !! t_Command t).
Proof.
  unfold unknown_targets.
  set (f := fun (unknown : list string) t => if bool_decide (is_Some (replicas !! t_Command t)) || bool_decide (t_Command t ∈ unknown)
    then unknown else unknown ++ [t_Command t]).
  assert (forall l u, foldl f u l = [] <-> u = [] /\ forall t, t ∈ l -> is_Some (replicas !! t_Command t)) as H.
  { induction l as [|t l IH]; intros u; simpl.
    - split; [|tauto]. intros ->. split; [done|]. by intros ? ?%elem_of_nil.
    - rewrite IH. setoid_rewrite elem_of_cons. unfold f. split.
      + case_bool_decide as Hs; simpl; [naive_solver|]. case_bool_decide as Hin; intros [Hu Hl].
        * subst. by apply elem_of_nil in Hin.
        * by destruct u.
      + intros [-> Hl]. rewrite bool_decide_true by (apply Hl; by left). naive_solver. }
  rewrite H. naive_solver.
Qed.

(** What the second loop has collected from the targets seen so far. *)
Definition collected (seen : list Target) (st : gset string * gmap string (gset Z)) : Prop :=
  (forall n, n ∈ st.1 <-> exists t, t ∈ seen /\ t_Command t = n /\ t_ScaleIndex t = 0%Z) /\
  (forall n i, i ∈ default ∅ (st.2 !! n) <->
     exists t, t ∈ seen /\ t_Command t = n /\ t_ScaleIndex t <> 0%Z /\ t_ScaleIndex t = i) /\
  (forall n s, st.2 !! n = Some s -> exists t, t ∈ seen /\ t_Command t = n /\ t_ScaleIndex t <> 0%Z).

Lemma collected_nil : collected [] (∅, ∅).
Proof.
  split_and!; simpl; [intros m|intros m i|intros m s].
  - split; [by intros ?%elem_of_empty|]. by intros (? & ?%elem_of_nil & _).
  - rewrite lookup_empty. simpl. split; [by intros ?%elem_of_empty|]. by intros (? & ?%elem_of_nil & _).
  - by rewrite lookup_empty.
Qed.

Lemma pick_target_collected replicas seen st t st' :
  collected seen st -> pick_target replicas st t = Ok st' -> collected (seen ++ [t]) st'.
Proof.
  destruct st as [every picked]. intros (H1 & H2 & H3) H. unfold pick_target in H; simpl in *.
  assert (Hw : forall n, (exists t0, t0 ∈ seen /\ t_Command t0 = n /\ t_ScaleIndex t0 <> 0%Z) ->
    exists t0, t0 ∈ seen ++ [t] /\ t_Command t0 = n /\ t_ScaleIndex t0 <> 0%Z).
  { intros n (t0 & Ht & ?). exists t0. split; [|done]. apply elem_of_app. by left. }
  case_decide as Hz; [|case_decide as Hr; [done|]]; injection H as <-; split_and!; simpl; intros n.
  - rewrite elem_of_union, elem_of_singleton, H1, ex_snoc.
    split; [intros [->|?]; [by right|by left]|intros [?|[<- _]]; [by right|by left]].
  - intros i. rewrite H2, ex_snoc. split; [by left|intros [?|(_ & ? & _)]; done].
  - intros s Hs. apply Hw. by eapply H3.
  - rewrite H1, ex_snoc. split; [by left|intros [?|[_ ?]]; done].
  - intros i. rewrite ex_snoc. destruct (decide (n = t_Command t)) as [->|Hn].
    + rewrite lookup_insert_eq. simpl. rewrite elem_of_union, elem_of_singleton, H2.
      split; [intros [->|?]; [by right|by left]|intros [?|(_ & _ & <-)]; [by right|by left]].
    + rewrite lookup_insert_ne by done. rewrite H2. split; [by left|intros [?|[? _]]; done].
  - intros s. destruct (decide (n = t_Command t)) as [->|Hn].
    + intros _. exists t. split; [|done]. apply elem_of_app. right. by left.
    + rewrite lookup_insert_ne by done. intros Hs. apply Hw. by eapply H3.
Qed.

Lemma pick_all_collected replicas l seen st st' :
  collected seen st -> result_foldl (pick_target replicas) st l = Ok st' -> collected (seen ++ l) st'.
Proof.
  revert seen st. induction l as [|t l IH]; intros seen st Hc; simpl.
  - intros [= <-]. by rewrite app_nil_r.
  - destruct (pick_target replicas st t) as [st1|] eqn:E; [|done]. simpl. intros H.
    apply (IH (seen ++ [t])) in H; [by rewrite <- app_assoc in H|]. by eapply pick_target_collected.
Qed.

Lemma pick_all_ok replicas l st :
  (forall t, t ∈ l -> is_Some (replicas !! t_Command t)) ->
  is_ok (result_foldl (pick_target replicas) st l) = true <-> Forall (target_ok replicas) l.
Proof.
  revert st. induction l as [|t l IH]; intros st Hk; simpl; [by split; [constructor|]|].
  rewrite Forall_cons.
  assert (Hp : is_ok (pick_target replicas st t) = true <-> target_ok replicas t).
  { destruct (Hk t ltac:(by left)) as [count Hc]. unfold pick_target, target_ok. destruct st as [every picked].
    rewrite Hc. simpl. case_decide as Hz; [|case_decide as Hr]; simpl.
    - split; [|done]. intros _. exists count. auto.
    - split; [done|]. intros (x & [= <-] & [?|?]); [done|lia].
    - split; [|done]. intros _. exists count. split; [done|]. right. lia. }
  destruct (pick_target replicas st t) as [st'|e]; simpl in *.
  - rewrite IH by (intros; apply Hk; by right). naive_solver.
  - naive_solver.
Qed.

(** Looking a command up in the resolved set. *)
Lemma targetSet_lookup (every : gset string) (picked : gmap string (gset Z)) n :
  (set_to_map (fun n => (n, None)) every ∪ ((fun ixs => Some (sort_ints (elements ixs))) <$> picked)
    : gmap string (option (list Z))) !! n
  = if decide (n ∈ every) then Some None
    else (fun ixs => Some (sort_ints (elements ixs))) <$> picked !! n.
Proof.
  rewrite lookup_union, lookup_fmap.
  assert (forall x, (set_to_map (fun n => (n, None)) every : gmap string (option (list Z))) !! n = Some x <-> n ∈ every /\ x = None) as H.
  { intros x. rewrite lookup_set_to_map by (by intros ? ? _ _ ?). split.
    - intros (y & Hy & [= -> <-]). done.
    - intros [Hy ->]. by exists n. }
  destruct (decide (n ∈ every)) as [Hn|Hn].
  - rewrite (proj2 (H None)) by done. by destruct (picked !! n).
  - destruct ((set_to_map _ every : gmap string (option (list Z))) !! n) as [x|] eqn:E.
    + exfalso. apply Hn. by apply (H x).
    + by destruct (picked !! n).
Qed.

(** Resolving targets is exact. It succeeds exactly when every target names a
    known command and either every replica of it or one that exists; the result then
    targets the commands the targets name, covers precisely the replicas one of them
    selects, and lists the picked replicas in ascending order without repetition. *)
Theorem resolveTargets_exact targets replicas
    (Hne : targets <> []) :
  (is_ok (resolveTargets targets replicas) = true <-> Forall (target_ok replicas) targets) /\
  forall ts, resolveTargets targets replicas = Ok ts -> forall n,
    (is_Some (ts !! n) <-> exists t, t ∈ targets /\ t_Command t = n) /\
    (is_Some (ts !! n) -> forall i, covers ts n i = true <-> exists t, t ∈ targets /\ selects t n i) /\
    (forall l, ts !! n = Some (Some l) -> StronglySorted Z.le l /\ NoDup l).
Proof.
  unfold resolveTargets. destruct targets as [|t0 rest]; [done|]. set (targets := t0 :: rest).
  pose proof (unknown_targets_nil replicas targets) as Hu.
  destruct (unknown_targets replicas targets) as [|u us].
  2:{ split; [|done]. split; [done|]. intros Hall. rewrite Forall_forall in Hall.
      discriminate (proj2 Hu (fun t Ht => let '(ex_intro _ c (conj Hc _)) := Hall t Ht in ex_intro _ c Hc)). }
  pose proof (proj1 Hu eq_refl) as Hk. split.
  - rewrite <- (pick_all_ok replicas targets (∅, ∅) Hk). by destruct (result_foldl _ _ _) as [[]|].
  - intros ts H n. apply result_bind_ok in H as ([every picked] & Hf & [= <-]).
    apply (pick_all_collected _ _ [] _ _ collected_nil) in Hf as (H1 & H2 & H3).
    unfold covers. rewrite targetSet_lookup. simpl in *. destruct (decide (n ∈ every)) as [Hin|Hin]; simpl.
    + pose proof (proj1 (H1 n) Hin) as (t & Ht & Hn & Hz). split_and!.
      * split; [|by eexists]. intros _. by exists t.
      * intros _ i. split; [|done]. intros _. exists t. split; [done|]. split; [done|by left].
      * done.
    + assert (Hz : forall t, t ∈ targets -> t_Command t = n -> t_ScaleIndex t <> 0%Z).
      { intros t Ht Hn Hz. apply Hin, H1. eauto. }
      split_and!.
      * rewrite fmap_is_Some. split.
        -- intros [s Hs]. destruct (H3 n s Hs) as (t & ? & ? & _). eauto.
        -- intros (t & Ht & Hn). destruct (picked !! n) as [s|] eqn:Hs; [by eexists|exfalso].
           specialize (H2 n (t_ScaleIndex t)). rewrite Hs in H2. simpl in H2.
           apply (not_elem_of_empty (C := gset Z) (t_ScaleIndex t)), H2. exists t. split_and!; try done. by apply Hz.
      * intros [s Hs]%fmap_is_Some i. rewrite Hs. simpl. specialize (H2 n i). rewrite Hs in H2. simpl in H2.
        rewrite bool_decide_eq_true, sort_ints_perm, elem_of_elements, H2. unfold selects.
        split; [naive_solver|]. intros (t & Ht & Hn & [?|?]); [by destruct (Hz t)|]. eauto 6.
      * intros l (s & Hs & [= ->])%fmap_Some. split; [apply sort_ints_sorted|].
        rewrite sort_ints_perm. apply NoDup_elements.
Qed.

Lemma resolveTargets_exact_witness :
  let targets := [{| t_Command := "web"; t_ScaleIndex := 2 |}; {| t_Command := "db"; t_ScaleIndex := 0 |}] in
  let replicas := <["web" := 2%Z]> {["db" := 1%Z]} in
  is_ok (resolveTargets targets replicas) = true /\ Forall (target_ok replicas) targets.
Proof.
  intros targets replicas. assert (H : is_ok (resolveTargets targets replicas) = true) by (vm_compute; reflexivity).
  split; [exact H|]. apply (resolveTargets_exact targets replicas); [discriminate|exact H].
Defined.
