(* ===== verification/Service.v ===== *)
(** * The reconciling service

    [cmdman/compose/service_reconcile.go]: [snapshotCommands], [reconcileStart] and
    [reconcileStop], and the actions they run on a vertex ([upStartAction],
    [stopAction]).  What the cmdman service answers to a call ([Start], [Wait], a
    replica's stop) is an argument; progress reports and logging are left out. *)

From S2P Require Import Prelude GoStr Model ComposeSpec Naming Graph Normalize Reconcile Scheduling Walk WalkExec WalkProps BuiltGraph WalkTheorems Targets.

(** ** Snapshots of the stored commands *)

(* src/cmdman/compose/service_reconcile.go:372-379 snapshotCommands *)
Definition snapshot_of (e : CommandEntry) : instanceSnapshot :=
  {| inst_ID := ID e; GenName := entry_Name e; ScaleIndex := scaleIndexOf e;
     inst_State := entry_State e; inst_ExitCode := ExitCode e; Entry := Some e |}.

(** Sorted by scale index; Go leaves the order of equal indices open. *)
(* src/cmdman/compose/service_reconcile.go:383-385 snapshotCommands *)
Definition index_le (a b : instanceSnapshot) : Prop := (ScaleIndex a <= ScaleIndex b)%Z.
#[export] Instance index_le_dec : RelDecision index_le.
Proof. intros a b. unfold index_le. apply _. Defined.

(* src/cmdman/compose/service_reconcile.go:348-390 snapshotCommands *)
Definition snapshotCommands (existing : list CommandEntry) : gmap string commandSnapshot :=
  let byName := foldl (fun m e =>
    if decide (commandNameOf e = "") then m
    else <[commandNameOf e := default [] (m !! commandNameOf e) ++ [snapshot_of e]]> m) ∅ existing in
  (fun insts =>
     let insts := merge_sort index_le insts in
     let '(state, exit) := aggregateInstances insts in
     {| Instances := insts; snap_State := state; snap_ExitCode := exit |}) <$> byName.

(** ** The two reconciliations *)

(* src/cmdman/compose/service_reconcile.go:15-17 reconcileWalkLimit *)
Definition reconcileWalkLimit : nat := 8.

(* src/cmdman/compose/service_reconcile.go:42-49 Service.reconcileStart *)
Inductive reconcileErr := DagInvalid (e : graphErr) | ListFailed (msg : string).

(** A run of [reconcileStart]: the events of its walk and the outcomes it returns.
    [listed] is what listing the stored commands gave. *)
(* src/cmdman/compose/service_reconcile.go:19-66 Service.reconcileStart *)
Inductive reconcileStart (spec : ComposeSpec) (listed : result string (list CommandEntry))
    (targets : targetSet) (act : vertexID -> actionResult -> Prop)
  : result reconcileErr (list event * wstate * list StartOutcome) -> Prop :=
| start_bad_graph e :
    ValidateDAG (Commands spec) = Prelude.Err e ->
    reconcileStart spec listed targets act (Prelude.Err (DagInvalid e))
| start_no_list msg :
    ValidateDAG (Commands spec) = Ok tt -> listed = Prelude.Err msg ->
    reconcileStart spec listed targets act (Prelude.Err (ListFailed msg))
| start_walked entries tr s closure :
    ValidateDAG (Commands spec) = Ok tt -> listed = Ok entries ->
    closure = resolveTargetCommands spec (names targets) ->
    reaches (buildReconcileGraph spec (snapshotCommands entries) closure targets) walkFromBegin
      (min (size closure) reconcileWalkLimit) act tr s ->
    finished s ->
    reconcileStart spec listed targets act (Ok (tr, s, startOutcomes (gr (sh s)) spec)).

(* src/cmdman/compose/service_reconcile.go:239-281 Service.reconcileStop *)
Inductive reconcileStop (spec : ComposeSpec) (listed : result string (list CommandEntry))
    (targets : targetSet) (act : vertexID -> actionResult -> Prop)
  : result reconcileErr (list event * wstate * list StopOutcome) -> Prop :=
| stop_bad_graph e :
    ValidateDAG (Commands spec) = Prelude.Err e ->
    reconcileStop spec listed targets act (Prelude.Err (DagInvalid e))
| stop_no_list msg :
    ValidateDAG (Commands spec) = Ok tt -> listed = Prelude.Err msg ->
    reconcileStop spec listed targets act (Prelude.Err (ListFailed msg))
| stop_walked entries tr s closure :
    ValidateDAG (Commands spec) = Ok tt -> listed = Ok entries ->
    closure = resolveStopTargetCommands spec (names targets) ->
    reaches (buildReconcileGraph spec (snapshotCommands entries) closure targets) walkFromEnd
      (min (size closure) reconcileWalkLimit) act tr s ->
    finished s ->
    reconcileStop spec listed targets act (Ok (tr, s, stopOutcomes (gr (sh s)) spec)).

Lemma spec_named_ok spec :
  spec_named spec -> ValidateDAG (Commands spec) = Ok tt -> spec_ok spec /\ acyclic (Commands spec).
Proof.
  intros [H1 H2 H3] Hd. apply (ValidateDAG_ok _ H1) in Hd as [Hk Ha]. split; [|done].
  by constructor.
Qed.

(** The closure of a start holds the dependencies of its commands. *)
Lemma start_closure_dep spec ns c a :
  spec_ok spec -> c ∈ Commands spec -> a ∈ After c -> Name c ∈ resolveTargetCommands spec ns ->
  after_Name a ∈ resolveTargetCommands spec ns.
Proof.
  intros Hok Hc Ha. rewrite !start_closure by apply Hok. intros [Hn Hm].
  destruct (dep_command spec Hok c a Hc Ha) as (d & Hd & E).
  assert (Hdn : after_Name a ∈ command_names (Commands spec)) by (rewrite <- E; apply list_elem_of_fmap; eauto).
  split; [done|]. destruct Hm as [?|(m & ? & ? & Hr)]; [by left|right]. exists m. split_and!; try done.
  eapply rtc_r; [exact Hr|]. split; [|done]. exists c. split; [done|]. split; [done|].
  apply list_elem_of_fmap. by exists a.
Qed.

Lemma stop_closure_dependent spec ns c d :
  spec_ok spec -> c ∈ Commands spec -> Name d ∈ deps c -> Name d ∈ resolveStopTargetCommands spec ns ->
  Name c ∈ resolveStopTargetCommands spec ns.
Proof.
  intros Hok Hc Hd. rewrite !stop_closure by apply Hok. intros [Hn Hm].
  split; [apply list_elem_of_fmap; eauto|].
  destruct Hm as [?|(m & ? & ? & Hr)]; [by left|right]. exists m. split_and!; try done.
  eapply rtc_r; [exact Hr|]. by exists c.
Qed.

(** C1: a start never runs a command before its dependencies: whenever
    [reconcileStart] runs the action of a command, each of its [after] dependencies
    was pulled into the operation and has already finished, without an error and in
    the state its condition asks for, with any number of workers and in any order of
    their steps, even if the caller's context ended meanwhile. *)
Theorem reconcileStart_dependencies_first spec listed targets act tr1 tr2 s outs c a
    (Hspec : spec_named spec)
    (Hrun : reconcileStart spec listed targets act (Ok (tr1 ++ EvStart (Name c) :: tr2, s, outs)))
    (Hc : c ∈ Commands spec) (Ha : a ∈ After c) :
  exists res, EvFinish (after_Name a) res ∈ tr1 /\ cond_holds (condition a) res.
Proof.
  inversion Hrun as [| |entries tr s' closure Hdag _ Hcl Hr Hf]; subst.
  destruct (spec_named_ok spec Hspec Hdag) as [Hok _].
  pose proof (start_walk_order _ _ _ _ _ _ _ _ _ c a Hok Hr Hc Ha) as H.
  rewrite decide_True in H; [done|]. eapply start_closure_dep; [done|exact Hc|done|].
  destruct (walk_acted _ _ _ _ _ _ _ _ _ Hok Hr) as [Hin _].
  destruct (Hin (Name c)) as (c' & _ & _ & ?); [|done]. apply elem_of_app. right. left.
Qed.

(** C2: a stop never stops a command before what depends on it: whenever
    [reconcileStop] runs the action of a command, every command that depends on it was
    pulled into the operation and has already finished its own action. *)
Theorem reconcileStop_dependents_first spec listed targets act tr1 tr2 s outs c d
    (Hspec : spec_named spec)
    (Hrun : reconcileStop spec listed targets act (Ok (tr1 ++ EvStart (Name d) :: tr2, s, outs)))
    (Hc : c ∈ Commands spec) (Hd : d ∈ Commands spec) (Hdep : Name d ∈ deps c) :
  exists res, EvFinish (Name c) res ∈ tr1.
Proof.
  inversion Hrun as [| |entries tr s' closure Hdag _ Hcl Hr Hf]; subst.
  destruct (spec_named_ok spec Hspec Hdag) as [Hok _].
  eapply stop_walk_order; [done|exact Hr|done|done|done|].
  eapply stop_closure_dependent; [done|done|exact Hdep|].
  destruct (walk_acted _ _ _ _ _ _ _ _ _ Hok Hr) as [Hin _].
  destruct (Hin (Name d)) as (d' & _ & _ & ?); [|done]. apply elem_of_app. right. left.
Qed.

(** ** What the states of the replicas add up to *)

Definition is_exited (i : instanceSnapshot) : bool := bool_decide (inst_State i = EventTypeExited).
Definition is_failed (i : instanceSnapshot) : bool := bool_decide (inst_State i = EventTypeFailed).
Definition is_live (i : instanceSnapshot) : bool :=
  bool_decide (inst_State i = EventTypeRunning) || bool_decide (inst_State i = EventTypeStarting).

(** The exit codes of the exited replicas. *)
Definition exit_codes (insts : list instanceSnapshot) : list Z :=
  omap inst_ExitCode (filter (fun i => is_exited i = true) insts).

(** The first code, or the first that is not zero. *)
Definition merge_code (x : option Z) (c : Z) : option Z :=
  match x with
  | None => Some c
  | Some x => if bool_decide (x = 0%Z) && negb (bool_decide (c = 0%Z)) then Some c else Some x
  end.

Lemma agg_fold insts f e a x :
  foldl agg_step (f, e, a, x) insts =
  (f || existsb is_failed insts, e && forallb is_exited insts, a && forallb is_live insts,
   foldl merge_code x (exit_codes insts)).
Proof.
  revert f e a x. induction insts as [|i insts IH]; intros f e a x; cbn [foldl existsb forallb].
  { by rewrite orb_false_r, !andb_true_r. }
  unfold agg_step at 2, exit_codes. rewrite filter_cons. unfold is_failed, is_exited, is_live.
  destruct (decide (inst_State i = EventTypeFailed)) as [E|H1].
  - rewrite IH. rewrite E. simpl. by rewrite orb_true_r, !andb_false_r.
  - destruct (decide (inst_State i = EventTypeExited)) as [E|H2].
    + rewrite IH. rewrite E. simpl. rewrite andb_false_r.
      destruct (inst_ExitCode i) as [c|]; simpl; [|done]. f_equal. f_equal. unfold merge_code.
      by destruct x.
    + rewrite (bool_decide_false (_ = EventTypeFailed)), (bool_decide_false (_ = EventTypeExited)) by done. simpl.
      case_decide as H3; rewrite IH; simpl; rewrite ?andb_false_r.
      * rewrite <- bool_decide_or, bool_decide_true by done. done.
      * rewrite <- bool_decide_or, bool_decide_false by done. by rewrite andb_false_r.
Qed.

Lemma merge_codes_zero cs x :
  foldl merge_code x cs = Some 0%Z <->
  (x = None \/ x = Some 0%Z) /\ (forall c, c ∈ cs -> c = 0%Z) /\ (x = Some 0%Z \/ cs <> []).
Proof.
  revert x. induction cs as [|c cs IH]; intros x; simpl.
  { split; [intros ->; split_and!; [by right| |by left]; by intros ? ?%elem_of_nil|].
    intros (_ & _ & [->|?]); done. }
  rewrite IH. setoid_rewrite elem_of_cons. unfold merge_code.
  destruct x as [x|]; simpl; [case_bool_decide as Hx; [case_bool_decide as Hc|]|]; simpl.
  - subst. naive_solver.
  - subst. split; [intros ([?|[= ->]] & _); done|]. intros (_ & Hz & _). by rewrite (Hz c (or_introl eq_refl)) in Hc.
  - split; [intros ([?|[= ->]] & _); done|]. intros ([?|[= ->]] & _); done.
  - split.
    + intros ([?|[= ->]] & Hz & _); [done|]. naive_solver.
    + intros (_ & Hz & _). rewrite (Hz c (or_introl eq_refl)). naive_solver.
Qed.

Lemma exit_codes_elem insts c :
  c ∈ exit_codes insts <-> exists i, i ∈ insts /\ inst_State i = EventTypeExited /\ inst_ExitCode i = Some c.
Proof.
  unfold exit_codes. rewrite list_elem_of_omap. setoid_rewrite list_elem_of_filter. unfold is_exited.
  setoid_rewrite bool_decide_eq_true. naive_solver.
Qed.

Lemma aggregate_eq insts : insts <> [] ->
  aggregateInstances insts =
    if existsb is_failed insts then (EventTypeFailed, foldl merge_code None (exit_codes insts))
    else if forallb is_exited insts then (EventTypeExited, foldl merge_code None (exit_codes insts))
    else if forallb is_live insts then (EventTypeRunning, None) else (EventTypeStarting, None).
Proof.
  intros Hne. unfold aggregateInstances. destruct insts as [|i l]; [done|]. by rewrite agg_fold.
Qed.

Lemma aggregate_success insts :
  succeeded (aggregateInstances insts).1 (aggregateInstances insts).2 = true <->
  insts <> [] /\ (forall i, i ∈ insts -> inst_State i = EventTypeExited) /\
  (forall i c, i ∈ insts -> inst_ExitCode i = Some c -> c = 0%Z) /\
  exists i, i ∈ insts /\ is_Some (inst_ExitCode i).
Proof.
  destruct (decide (insts = [])) as [->|Hne]; [split; [done|by intros [? _]]|].
  rewrite (aggregate_eq insts Hne).
  assert (Hex : forallb is_exited insts = true <-> forall i, i ∈ insts -> inst_State i = EventTypeExited).
  { rewrite forallb_elem_of. unfold is_exited. by setoid_rewrite bool_decide_eq_true. }
  destruct (existsb is_failed insts) eqn:Ef.
  { split; [done|]. intros (_ & H & _). apply existsb_exists in Ef as (i & Hi%list_elem_of_In & Hf).
    unfold is_failed in Hf. rewrite (H i Hi) in Hf. done. }
  destruct (forallb is_exited insts) eqn:Ee.
  2:{ split; [by destruct (forallb is_live insts)|]. intros (_ & H%Hex & _). done. }
  pose proof (proj1 Hex eq_refl) as Hall. unfold succeeded. simpl.
  rewrite bool_decide_eq_true, merge_codes_zero. setoid_rewrite exit_codes_elem. split.
  - intros (_ & Hz & [?|Hc]); [done|]. split_and!; [done|done|intros i c Hi Hic; apply Hz; exists i; auto|].
    destruct (exit_codes insts) as [|c cs] eqn:E; [done|].
    assert (Hin : c ∈ exit_codes insts) by (rewrite E; left).
    apply exit_codes_elem in Hin as (i & Hi & _ & Hic). eauto.
  - intros (_ & _ & Hz & i & Hi & [c Hc]). split_and!; [by left|intros x (j & Hj & _ & Hx); by eapply Hz|right].
    assert (Hin : c ∈ exit_codes insts) by (apply exit_codes_elem; eauto). intros E. rewrite E in Hin.
    by apply elem_of_nil in Hin.
Qed.

(** the aggregate state of a command's replicas is exact: failed when one failed,
    else exited when there are replicas and all exited, else running when all run or
    start, else starting (nothing for no replicas); and it counts as a successful exit
    exactly when every replica exited, no known exit code is other than zero and some
    exit code is known. *)
Theorem aggregateInstances_exact insts :
  (aggregateInstances insts).1 =
    (if decide (insts = []) then "" else if existsb is_failed insts then EventTypeFailed
     else if forallb is_exited insts then EventTypeExited
     else if forallb is_live insts then EventTypeRunning else EventTypeStarting) /\
  (succeeded (aggregateInstances insts).1 (aggregateInstances insts).2 = true <->
   insts <> [] /\ (forall i, i ∈ insts -> inst_State i = EventTypeExited) /\
   (forall i c, i ∈ insts -> inst_ExitCode i = Some c -> c = 0%Z) /\
   exists i, i ∈ insts /\ is_Some (inst_ExitCode i)).
Proof.
  split; [|apply aggregate_success]. case_decide as Hne; [by subst|]. rewrite (aggregate_eq insts Hne).
  by repeat case_match.
Qed.

(** ** The actions *)

(** Calls an action makes to the cmdman service, in order. *)
(* src/cmdman/compose/service_reconcile.go:157-195 Service.upStartAction *)
Inductive call :=
| CallStart (genName : string)
| CallWait (targets : list string).

Record waitResult := { wr_Err : option reason; wr_ExitCode : option Z }.

(** A wait result as an instance snapshot: state and exit code alone. *)
(* src/cmdman/compose/service_reconcile.go:208-227 Service.upStartAction *)
Definition waited (r : waitResult) : instanceSnapshot :=
  {| inst_ID := ""; GenName := ""; ScaleIndex := 0;
     inst_State := match wr_Err r, wr_ExitCode r with
                   | None, Some _ => EventTypeExited
                   | _, _ => EventTypeFailed
                   end;
     inst_ExitCode := wr_ExitCode r; Entry := None |}.

(** Results without errors add up to a success when every replica exited with 0. *)
Lemma waited_success results :
  Forall (fun r => wr_Err r = None) results ->
  succeeded (aggregateInstances (map waited results)).1 (aggregateInstances (map waited results)).2 = true <->
  results <> [] /\ Forall (fun r => wr_ExitCode r = Some 0%Z) results.
Proof.
  intros Herr. rewrite Forall_forall in Herr. rewrite aggregate_success, Forall_forall.
  assert (Hin : forall i, i ∈ map waited results <-> exists r, i = waited r /\ r ∈ results).
  { intros i. apply list_elem_of_fmap. }
  split.
  - intros (Hne & Hst & Hz & _). split; [by intros ->|]. intros r Hr.
    pose proof (Hst (waited r) (proj2 (Hin _) (ex_intro _ r (conj eq_refl Hr)))) as Hs. simpl in Hs.
    rewrite (Herr r Hr) in Hs. destruct (wr_ExitCode r) as [c|] eqn:Ec; [|done]. f_equal.
    apply (Hz (waited r) c); [|done]. apply Hin. eauto.
  - intros [Hne Hz]. destruct results as [|r0 rs]; [done|]. split_and!; [done|..].
    + intros i (r & -> & Hr)%Hin. simpl. by rewrite (Herr r Hr), (Hz r Hr).
    + intros i c (r & -> & Hr)%Hin. simpl. rewrite (Hz r Hr). by intros [= <-].
    + exists (waited r0). split; [left|]. simpl. rewrite (Hz r0); [done|left].
Qed.

Section Actions.
(** The error a start of a replica ends with (its start hooks included), and what
    waiting for the replicas to stop gives: one result per target, in order. *)
Context (start : string -> option reason) (wait : list string -> result reason (list waitResult)).

(** The loop over the replicas: the calls it makes, and either the error that ends
    the action or the first error of a held replica. *)
(* src/cmdman/compose/service_reconcile.go:130-177 Service.upStartAction *)
Fixpoint start_loop (cmd : Command) (stored : gmap string instanceSnapshot) (held : gmap string reason)
    (heldErr : option reason) (rs : list Z) : list call * result reason (option reason) :=
  match rs with
  | [] => ([], Ok heldErr)
  | idx :: rs =>
    let genName := InstanceName (GeneratedName cmd) idx in
    match held !! genName with
    | Some r =>
      start_loop cmd stored held
        (match heldErr with None => Some (NotStarted (Name cmd) genName r) | e => e end) rs
    | None =>
      if match stored !! genName with Some i => is_live i | None => false end
      then start_loop cmd stored held heldErr rs
      else match start genName with
           | Some e => ([CallStart genName], Prelude.Err (StartFailed (Name cmd) genName e))
           | None => let '(cs, r) := start_loop cmd stored held heldErr rs in (CallStart genName :: cs, r)
           end
    end
  end.

(* src/cmdman/compose/service_reconcile.go:122-125 Service.upStartAction *)
Definition by_genname (insts : list instanceSnapshot) : gmap string instanceSnapshot :=
  foldl (fun m i => <[GenName i := i]> m) ∅ insts.

Definition mkResult (st : EventType) (exit : option Z) (err : option reason) : actionResult :=
  {| res_State := st; res_ExitCode := exit; res_Err := err; res_ForceKilled := false |}.

(** [cmd] is the vertex's command, which the code dereferences: only command
    vertices are acted on. *)
(* src/cmdman/compose/service_reconcile.go:101-237 Service.upStartAction *)
Definition upStartAction (g : reconcileGraph) (v : graphVertex) (cmd : Command) (held : gmap string reason)
  : list call * actionResult :=
  let replicas := replicaIndices v cmd in
  let instances := map (InstanceName (GeneratedName cmd)) replicas in
  let snap := Snapshot v in
  match start_loop cmd (by_genname (Instances snap)) held None replicas with
  | (cs, Prelude.Err e) => (cs, mkResult (snap_State snap) None (Some e))
  | (cs, Ok (Some e)) => (cs, mkResult (snap_State snap) None (Some e))
  | (cs, Ok None) =>
    if negb (anyDependentNeedsCompletion g (v_ID v))
    then (cs, mkResult EventTypeRunning (snap_ExitCode snap) None)
    else
      (cs ++ [CallWait instances],
       match wait instances with
       | Prelude.Err e => mkResult EventTypeRunning None (Some e)
       | Ok results =>
         let '(state, exit) := aggregateInstances (map waited results) in
         match head (omap wr_Err results) with
         | Some e => mkResult EventTypeFailed exit (Some e)
         | None => if decide (state = EventTypeExited) then mkResult EventTypeExited exit None
                   else mkResult EventTypeFailed exit None
         end
       end)
  end.

(* src/cmdman/compose/service_create.go:245-253 instanceDisplayName *)
Definition instanceDisplayName (cmd : Command) (scaleIndex : Z) : string :=
  if decide (Scale cmd <= 1)%Z then Name cmd else Name cmd +:+ "-" +:+ Itoa scaleIndex.

(** [stop] gives, for a live replica, whether it had to be killed and the error its
    stop ended with; the replicas stop concurrently and each writes its own slot. *)
(* src/cmdman/compose/service_reconcile.go:283-346 Service.stopAction *)
Definition stopAction (stop : instanceSnapshot -> bool * option reason) (cmd : Command) (v : graphVertex)
  : actionResult :=
  let snap := Snapshot v in
  match activeInstances snap with
  | [] => mkResult (snap_State snap) (snap_ExitCode snap) None
  | live =>
    let outcomes := map stop live in
    let forceKilled := existsb fst outcomes in
    match head (omap (fun io => StopFailed (instanceDisplayName cmd (ScaleIndex io.1)) (inst_ID io.1) <$> io.2.2) (combine live outcomes)) with
    | Some e => {| res_State := snap_State snap; res_ExitCode := None; res_Err := Some e;
                   res_ForceKilled := forceKilled |}
    | None => {| res_State := EventTypeExited; res_ExitCode := snap_ExitCode snap; res_Err := None;
                 res_ForceKilled := forceKilled |}
    end
  end.

Lemma start_loop_ok cmd stored held h rs cs :
  start_loop cmd stored held h rs = (cs, Ok None) ->
  h = None /\
  (forall idx, idx ∈ rs -> held !! InstanceName (GeneratedName cmd) idx = None /\
     ((exists i, stored !! InstanceName (GeneratedName cmd) idx = Some i /\ is_live i = true) \/
      (CallStart (InstanceName (GeneratedName cmd) idx) ∈ cs /\
       start (InstanceName (GeneratedName cmd) idx) = None))).
Proof.
  revert h cs. induction rs as [|idx rs IH]; intros h cs; cbn [start_loop].
  { intros [= <- ->]. split; [done|]. by intros ? ?%elem_of_nil. }
  set (n := InstanceName (GeneratedName cmd) idx). destruct (held !! n) as [r|] eqn:Hh.
  { intros [Hn _]%IH. by destruct h. }
  destruct (match stored !! n with Some i => is_live i | None => false end) eqn:Hl.
  - intros [-> H]%IH. split; [done|]. intros j [->|Hj]%elem_of_cons; [|by apply H]. split; [done|]. left.
    unfold n in Hl. destruct (stored !! _) as [i|]; [by exists i|done].
  - destruct (start n) as [e|] eqn:Hs; [done|].
    destruct (start_loop cmd stored held h rs) as [cs' r] eqn:E. intros [= <- ->].
    destruct (IH h cs' E) as [-> H]. split; [done|].
    intros j [->|Hj]%elem_of_cons; [split; [done|right; split; [left|done]]|].
    destruct (H j Hj) as [? [?|[? ?]]]; (split; [done|]); [by left|right; split; [by right|done]].
Qed.

(** What an action that reports no error has achieved. *)
Lemma upStartAction_ok g v cmd held cs res :
  upStartAction g v cmd held = (cs, res) -> res_Err res = None ->
  (forall idx, idx ∈ replicaIndices v cmd -> held !! InstanceName (GeneratedName cmd) idx = None /\
     ((exists i, by_genname (Instances (Snapshot v)) !! InstanceName (GeneratedName cmd) idx = Some i /\ is_live i = true)
      \/ (CallStart (InstanceName (GeneratedName cmd) idx) ∈ cs /\
          start (InstanceName (GeneratedName cmd) idx) = None))) /\
  (if anyDependentNeedsCompletion g (v_ID v)
   then isTerminalState (res_State res) = true /\
        exists results, wait (map (InstanceName (GeneratedName cmd)) (replicaIndices v cmd)) = Ok results /\
          Forall (fun r => wr_Err r = None) results /\
          (succeeded (res_State res) (res_ExitCode res) = true <->
           results <> [] /\ Forall (fun r => wr_ExitCode r = Some 0%Z) results)
   else res_State res = EventTypeRunning).
Proof.
  unfold upStartAction. intros H He.
  destruct (start_loop _ _ _ _ _) as [cs0 [[e|]|e]] eqn:El; [by simplify_eq|..|by simplify_eq].
  destruct (start_loop_ok _ _ _ _ _ _ El) as [_ Hall].
  destruct (anyDependentNeedsCompletion g (v_ID v)); simpl in H.
  2:{ injection H as <- <-. split; [exact Hall|done]. }
  destruct (wait _) as [results|e] eqn:Ew; [|by simplify_eq].
  destruct (aggregateInstances (map waited results)) as [state exit] eqn:Ea.
  destruct (head (omap wr_Err results)) as [e|] eqn:Hh; [by simplify_eq|].
  assert (Herr : Forall (fun r => wr_Err r = None) results).
  { apply Forall_forall. intros r Hr. apply eq_None_not_Some. intros [e' He'].
    assert (Hin : e' ∈ omap wr_Err results) by (apply list_elem_of_omap; eauto).
    destruct (omap wr_Err results); [by apply elem_of_nil in Hin|done]. }
  injection H as <- <-. split.
  { intros idx Hidx. destruct (Hall idx Hidx) as [? [?|[? ?]]]; (split; [done|]); [by left|right].
    split; [apply elem_of_app; by left|done]. }
  split; [by case_decide|]. exists results. split_and!; [done|done|].
  rewrite <- (waited_success results Herr), Ea. simpl. case_decide as Hst; simpl; [by rewrite Hst|].
  unfold succeeded. by rewrite (bool_decide_false (state = EventTypeExited)).
Qed.
End Actions.

(** ** What stops a start *)

(** The results the action of [reconcileStart] may have in the graph [g0]. *)
Definition start_act (g0 : reconcileGraph) start wait (held : gmap string reason)
    (id : vertexID) (res : actionResult) : Prop :=
  exists v cmd, Vertices g0 !! id = Some v /\ v_Command v = Some cmd /\
    res = (upStartAction start wait g0 v cmd held).2.

(** The action of a command went wrong: it reports an error, or a dependent waits for
    its success and it did not succeed. *)
Definition action_failed (spec : ComposeSpec) (closure : gset string) (id : string) (res : actionResult) : Prop :=
  res_Err res <> None \/
  (succeeded (res_State res) (res_ExitCode res) = false /\
   exists c a, c ∈ Commands spec /\ Name c ∈ closure /\ a ∈ After c /\ after_Name a = id /\
     condition a = ConditionCompletedSuccessfully).

(** A run in which all results are of a kind is a run of actions of that kind. *)
Lemma reaches_strengthen g0 dir limit (act act' : vertexID -> actionResult -> Prop) tr s :
  reaches g0 dir limit act tr s -> (forall id res, EvFinish id res ∈ tr -> act' id res) ->
  reaches g0 dir limit act' tr s.
Proof.
  intros (s0 & Hs0 & Hrun) Hall. exists s0. split; [done|]. clear Hs0.
  induction Hrun as [s|s tr s' e s'' Hrun IH Hstep]; [constructor|].
  eapply run_step; [apply IH; intros; apply Hall, elem_of_app; by left|].
  destruct Hstep as [s1 l1 w l2 x e s2 w' Hl|]; [|constructor]. constructor.
  destruct Hl; try by econstructor. econstructor; [|done|done].
  apply Hall, elem_of_app. right. left.
Qed.

(** A dependency whose completion a dependent in the closure waits for is seen as
    such by [anyDependentNeedsCompletion]. *)
Lemma needs_completion spec snaps closure targets c d a v :
  spec_ok spec -> c ∈ Commands spec -> d ∈ Commands spec -> Name c ∈ closure -> a ∈ After c ->
  after_Name a = Name d -> Condition a = ConditionCompleted \/ Condition a = ConditionCompletedSuccessfully ->
  Vertices (buildReconcileGraph spec snaps closure targets) !! Name d = Some v ->
  v_ID v = Name d /\ anyDependentNeedsCompletion (buildReconcileGraph spec snaps closure targets) (Name d) = true.
Proof.
  intros Hok Hc Hd Hin Ha E Hcond Hv.
  pose proof (command_child spec snaps closure targets Hok c d a v Hc Hd Ha E Hv) as Hch.
  destruct (build_command spec snaps closure targets Hok d Hd) as (v' & Hv' & _ & Hid & _).
  destruct (build_command spec snaps closure targets Hok c Hc) as (w & Hw & _ & _ & Hi & _).
  split; [congruence|]. unfold anyDependentNeedsCompletion. setoid_rewrite Hv. apply existsb_exists.
  exists (Name c, MkEdge (Name d) (Name c) (Condition a)). split.
  { by apply list_elem_of_In, elem_of_map_to_list. }
  simpl. rewrite (bool_decide_false (Name c = endVertex)) by (by apply (name_real spec Hok)). setoid_rewrite Hw. rewrite Hi.
  rewrite bool_decide_true by done. destruct Hcond as [-> | ->]; done.
Qed.

(** An action that did not go wrong leaves its command in the state its dependents
    ask for. *)
Lemma start_act_meets spec snaps closure targets start wait held c a res :
  spec_ok spec -> c ∈ Commands spec -> Name c ∈ closure -> a ∈ After c ->
  AfterCondition_Validate (Condition a) = true ->
  start_act (buildReconcileGraph spec snaps closure targets) start wait held (after_Name a) res ->
  ~ action_failed spec closure (after_Name a) res -> cond_holds (condition a) res.
Proof.
  set (g0 := buildReconcileGraph spec snaps closure targets).
  intros Hok Hc Hin Ha Hval (v & cmd & Hv & Hcmd & ->) Hnf.
  destruct (dep_command spec Hok c a Hc Ha) as (d & Hd & Ed). rewrite <- Ed in Hv, Hnf.
  destruct (upStartAction start wait g0 v cmd held) as [cs res] eqn:Eu. simpl in *.
  assert (He : res_Err res = None).
  { destruct (res_Err res) eqn:Ee; [|done]. exfalso. apply Hnf. left. by rewrite Ee. }
  split; [done|]. intros Hrun.
  unfold AfterCondition_Validate in Hval. rewrite !orb_true_iff, !bool_decide_eq_true in Hval.
  assert (Hca : condition a = Condition a).
  { unfold condition. rewrite decide_False; [done|]. intros E0. rewrite E0 in Hval. by destruct Hval as [[|]|]. }
  rewrite Hca in *.
  destruct (needs_completion spec snaps closure targets c d a v Hok Hc Hd Hin Ha (eq_sym Ed))
    as [Hid Hneed]; [tauto|exact Hv|].
  destruct (upStartAction_ok start wait g0 v cmd held cs res Eu He) as [_ Hres]. rewrite Hid in Hres.
  unfold g0 in Hres. rewrite Hneed in Hres. destruct Hres as [Hterm _].
  case_decide as Hcomp; [done|]. apply not_false_iff_true. intros Hs. apply Hnf. right. split; [done|].
  exists c, a. rewrite Hca. split_and!; try done. tauto.
Qed.

(** C4: a start leaves a command out only for a reason: with the real start action, in
    a run the caller did not cancel, if no action reported an error and none fell short
    of a success a dependent asks for, every command of the closure was started. In
    particular the action waits for the completion of exactly the commands a dependent
    needs it of, so no [completed] edge is left pending. *)
Theorem reconcileStart_complete spec entries targets start wait held tr s outs
    (Hspec : spec_named spec)
    (Hcond : forall c a, c ∈ Commands spec -> a ∈ After c -> AfterCondition_Validate (Condition a) = true)
    (Hrun : reconcileStart spec (Ok entries) targets
       (start_act (buildReconcileGraph spec (snapshotCommands entries)
                     (resolveTargetCommands spec (names targets)) targets) start wait held)
       (Ok (tr, s, outs)))
    (Hx : external s = false)
    (Hgood : forall id res, EvFinish id res ∈ tr ->
       ~ action_failed spec (resolveTargetCommands spec (names targets)) id res) :
  forall c, c ∈ Commands spec -> Name c ∈ resolveTargetCommands spec (names targets) ->
  exists res, EvFinish (Name c) res ∈ tr /\ res_Err res = None.
Proof.
  inversion Hrun as [| |entries' tr' s' closure Hdag Hl Hcl Hr Hf]; subst. injection Hl as <-.
  destruct (spec_named_ok spec Hspec Hdag) as [Hok Hac].
  set (closure := resolveTargetCommands spec (names targets)) in *.
  set (g0 := buildReconcileGraph spec (snapshotCommands entries) closure targets) in *.
  pose (act := fun id res => start_act g0 start wait held id res /\ ~ action_failed spec closure id res).
  assert (Hr' : reaches g0 walkFromBegin (min (size closure) reconcileWalkLimit) act tr s).
  { eapply reaches_strengthen; [exact Hr|]. intros id res Hin. split; [|by apply Hgood].
    by apply (walk_acted _ _ _ _ _ _ _ _ _ Hok Hr). }
  intros c Hc Hin.
  assert (exists res, EvFinish (Name c) res ∈ tr /\ act (Name c) res) as (res & Hfin & _ & Hnf).
  2:{ exists res. split; [done|]. destruct (res_Err res) eqn:Ee; [|done]. exfalso. apply Hnf. left. by rewrite Ee. }
  eapply start_walk_complete; [exact Hok|exact Hac| |exact Hr'|exact Hf|exact Hx|exact Hc|exact Hin].
  intros c' a Hc' Hin' Ha. rewrite decide_True by (by eapply start_closure_dep).
  intros res [Hact Hnf].
  eapply (start_act_meets spec (snapshotCommands entries) closure targets start wait held c' a res Hok Hc' Hin' Ha);
    [by eapply Hcond|exact Hact|exact Hnf].
Qed.

(** ** A run of the demo project *)

Definition start_pick (g0 : reconcileGraph) start wait held (id : vertexID) : actionResult :=
  match Vertices g0 !! id with
  | Some v => match v_Command v with
              | Some cmd => (upStartAction start wait g0 v cmd held).2
              | None => demo_ok
              end
  | None => demo_ok
  end.

Lemma start_pick_reaches spec snaps closure targets dir limit start wait held tr s :
  let g0 := buildReconcileGraph spec snaps closure targets in
  spec_ok spec ->
  reaches g0 dir limit (fun id res => res = start_pick g0 start wait held id) tr s ->
  reaches g0 dir limit (start_act g0 start wait held) tr s.
Proof.
  intros g0 Hok Hr. eapply reaches_strengthen; [exact Hr|]. intros id res Hin.
  destruct (walk_acted _ _ _ _ _ _ _ _ _ Hok Hr) as [Hst Hfin].
  destruct (Hfin id res Hin) as [Hs ->]. destruct (Hst id Hs) as (c & Hc & <- & _).
  destruct (build_command spec snaps closure targets Hok c Hc) as (v & Hv & Hcmd & _).
  exists v, c. split; [exact Hv|]. split; [done|]. unfold start_pick, g0. setoid_rewrite Hv. by rewrite Hcmd.
Qed.

Definition demo_start (n : string) : option reason := None.
Definition demo_wait (l : list string) : result reason (list waitResult) :=
  Ok (map (fun _ => {| wr_Err := None; wr_ExitCode := Some 0%Z |}) l).

Definition demo_start_graph : reconcileGraph :=
  buildReconcileGraph demo_spec (snapshotCommands []) (resolveTargetCommands demo_spec (names ∅)) ∅.
Definition demo_stop_graph : reconcileGraph :=
  buildReconcileGraph demo_spec (snapshotCommands []) (resolveStopTargetCommands demo_spec (names ∅)) ∅.

Definition demo_start_run : list event * wstate :=
  walk_fn demo_start_graph walkFromBegin 3 (start_pick demo_start_graph demo_start demo_wait ∅)
    (mjoin (replicate 30 [Move 0; Move 1; Move 2])).
Definition demo_stop_run : list event * wstate :=
  walk_fn demo_stop_graph walkFromEnd 3 (fun _ => demo_ok) (mjoin (replicate 30 [Move 0; Move 1; Move 2])).

Lemma demo_named : spec_named demo_spec.
Proof. destruct demo_spec_ok. by constructor. Qed.

Lemma demo_start_reconcile :
  reconcileStart demo_spec (Ok []) ∅ (start_act demo_start_graph demo_start demo_wait ∅)
    (Ok (demo_start_run.1, demo_start_run.2, startOutcomes (gr (sh demo_start_run.2)) demo_spec)).
Proof.
  eapply start_walked; [vm_compute; reflexivity|reflexivity|reflexivity| |].
  - apply start_pick_reaches; [apply demo_spec_ok|].
    replace (min _ _) with 3 by (vm_compute; reflexivity). by apply walk_fn_reaches.
  - apply (finished_exits _ 3). vm_compute. reflexivity.
Qed.

Lemma demo_stop_reconcile :
  reconcileStop demo_spec (Ok []) ∅ (fun id res => res = demo_ok)
    (Ok (demo_stop_run.1, demo_stop_run.2, stopOutcomes (gr (sh demo_stop_run.2)) demo_spec)).
Proof.
  eapply stop_walked; [vm_compute; reflexivity|reflexivity|reflexivity| |].
  - replace (min _ _) with 3 by (vm_compute; reflexivity). by apply walk_fn_reaches.
  - apply (finished_exits _ 3). vm_compute. reflexivity.
Qed.

(** The command [web] of the demo project. *)
Definition demo_web : Command :=
  mkCommand "web" [MkAfter "db" ConditionRunning; MkAfter "migrate" ConditionCompletedSuccessfully] 2.

Lemma reconcileStart_dependencies_first_witness :
  exists tr1 tr2, demo_start_run.1 = tr1 ++ EvStart "web" :: tr2 /\
    exists res, EvFinish "migrate" res ∈ tr1 /\ cond_holds ConditionCompletedSuccessfully res.
Proof.
  set (fin := fun id => EvFinish id (start_pick demo_start_graph demo_start demo_wait ∅ id)).
  assert (E : demo_start_run.1 = [EvStart "db"; fin "db"; EvStart "migrate"; fin "migrate"]
    ++ EvStart "web" :: [fin "web"]) by (vm_compute; reflexivity).
  eexists _, _. split; [exact E|]. pose proof demo_start_reconcile as Hrun. rewrite E in Hrun.
  apply (reconcileStart_dependencies_first demo_spec (Ok []) ∅ _ _ _ _ _ demo_web
    (MkAfter "migrate" ConditionCompletedSuccessfully) demo_named Hrun).
  - left.
  - right. left.
Defined.

Lemma reconcileStop_dependents_first_witness :
  exists tr1 tr2, demo_stop_run.1 = tr1 ++ EvStart "db" :: tr2 /\ exists res, EvFinish "web" res ∈ tr1.
Proof.
  assert (E : demo_stop_run.1 = [EvStart "web"; EvFinish "web" demo_ok; EvStart "migrate"; EvFinish "migrate" demo_ok]
    ++ EvStart "db" :: [EvFinish "db" demo_ok]) by (vm_compute; reflexivity).
  eexists _, _. split; [exact E|]. pose proof demo_stop_reconcile as Hrun. rewrite E in Hrun.
  apply (reconcileStop_dependents_first demo_spec (Ok []) ∅ _ _ _ _ _ demo_web (mkCommand "db" [] 1)
    demo_named Hrun).
  - left.
  - right. right. left.
  - left.
Defined.

(** A finished action that did not go wrong, in a form that can be evaluated. *)
Definition clean (spec : ComposeSpec) (id : string) (res : actionResult) : Prop :=
  res_Err res = None /\
  (succeeded (res_State res) (res_ExitCode res) = true \/
   Forall (fun c => Forall (fun a => ~ (after_Name a = id /\ condition a = ConditionCompletedSuccessfully))
     (After c)) (Commands spec)).

Definition clean_event (spec : ComposeSpec) (e : event) : Prop :=
  match e with EvFinish id res => clean spec id res | EvStart _ => True end.

#[export] Instance clean_event_dec spec e : Decision (clean_event spec e).
Proof. destruct e; simpl; [|unfold clean]; apply _. Defined.

Lemma clean_not_failed spec closure tr :
  Forall (clean_event spec) tr -> forall id res, EvFinish id res ∈ tr -> ~ action_failed spec closure id res.
Proof.
  rewrite Forall_forall. intros Hall id res Hin. destruct (Hall _ Hin) as [He Hor].
  intros [?|[Hs (c & a & Hc & _ & Ha & En & Hcond)]]; [done|].
  destruct Hor as [?|Hor]; [congruence|]. rewrite Forall_forall in Hor. specialize (Hor c Hc).
  rewrite Forall_forall in Hor. by apply (Hor a Ha).
Qed.

Lemma reconcileStart_complete_witness : exists res, EvFinish "web" res ∈ demo_start_run.1 /\ res_Err res = None.
Proof.
  assert (Hclean : Forall (clean_event demo_spec) demo_start_run.1).
  { apply (bool_decide_unpack _). vm_compute. exact I. }
  assert (Hx : external demo_start_run.2 = false) by (vm_compute; reflexivity).
  assert (Hall : Forall (fun c => Forall (fun a => AfterCondition_Validate (Condition a) = true) (After c)) witness_cmds).
  { apply (bool_decide_unpack _). vm_compute. exact I. }
  assert (Hcond : forall c a, c ∈ Commands demo_spec -> a ∈ After c -> AfterCondition_Validate (Condition a) = true).
  { intros c a Hc Ha. rewrite Forall_forall in Hall. specialize (Hall c Hc). rewrite Forall_forall in Hall.
    exact (Hall a Ha). }
  assert (Hin : "web" ∈ resolveTargetCommands demo_spec (names ∅)) by (apply (bool_decide_unpack _); vm_compute; exact I).
  exact (reconcileStart_complete demo_spec [] ∅ demo_start demo_wait ∅ _ _ _ demo_named Hcond demo_start_reconcile
    Hx (clean_not_failed _ _ _ Hclean) demo_web ltac:(left) Hin).
Defined.
