(* ===== verification/Plan.v ===== *)
(** * Plans: what a create has to do

    [cmdman/compose/plan.go], the config hash of [hash.go] and the spec that
    [reconstruct_project.go] rebuilds from stored labels.  JSON encoding, SHA-256 and
    the decoding of label values are arguments. *)

From S2P Require Import Prelude GoStr Model ComposeSpec Naming Graph Reconcile BuiltGraph Targets.

(** ** The config hash *)

(* src/cmdman/compose/hash.go:116-119 hashAfterSpec *)
Record hashAfterSpec := { ha_Name : string; ha_Condition : string }.

(* src/cmdman/compose/hash.go:128-131 hashLifecycleExec *)
Record hashLifecycleExec := { he_Args : list string; he_OnError : string }.

(* src/cmdman/compose/hash.go:121-126 hashLifecycleHook *)
Record hashLifecycleHook := { hh_Name : string; hh_Resource : string; hh_Events : gmap string hashLifecycleExec }.

(** A nil slice or map, which the encoding omits, is [None]. *)
(* src/cmdman/compose/hash.go:80-114 hashCanonical *)
Record hashCanonical := {
  hc_Name : string;
  hc_Args : list string;
  hc_Dir : string;
  hc_Env : list string;
  hc_ImportHostEnv : bool;
  hc_InjectEnv : bool;
  hc_RestartPolicy : string;
  hc_MaxRetries : Z;
  hc_StopSignal : string;
  hc_StopGracePeriod : Duration;
  hc_Stop : option (list string);
  hc_Tty : bool;
  hc_ScrollbackBytes : Z;
  hc_LogDriver : string;
  hc_LogOpts : option (gmap string string);
  hc_UserLabels : option (gmap string string);
  hc_After : option (list hashAfterSpec);
  hc_Hooks : option (list hashLifecycleHook);
}.

(* src/cmdman/compose/hash.go:213-223 sortedMapCopy *)
Definition sortedMapCopy (m : gmap string string) : option (gmap string string) :=
  if decide (m = ∅) then None else Some m.

Definition nil_or {A B} (l : list A) (f : list A -> B) : option B :=
  match l with [] => None | _ => Some (f l) end.

(* src/cmdman/compose/hash.go:162-171 Hash *)
Definition hash_hook (h : LifecycleHook) : hashLifecycleHook :=
  {| hh_Name := hook_Name h; hh_Resource := Resource h;
     hh_Events := (fun e => {| he_Args := exec_Args e; he_OnError := resolved (exec_OnError e) |}) <$> Events h |}.

(** The input of the hash. *)
(* src/cmdman/compose/hash.go:137-202 Hash *)
Definition canonical (cmd : Command) : hashCanonical := {|
  hc_Name := Name cmd; hc_Args := Args cmd; hc_Dir := c_Dir cmd; hc_Env := sort_strings (Env cmd);
  hc_ImportHostEnv := ImportHostEnv cmd; hc_InjectEnv := InjectEnv cmd;
  hc_RestartPolicy := c_RestartPolicy cmd; hc_MaxRetries := MaxRetries cmd;
  hc_StopSignal := StopSignal cmd; hc_StopGracePeriod := StopGracePeriod cmd;
  hc_Stop := nil_or (Stop cmd) id; hc_Tty := Tty cmd; hc_ScrollbackBytes := ScrollbackBytes cmd;
  hc_LogDriver := c_LogDriver cmd; hc_LogOpts := sortedMapCopy (LogOpts cmd);
  hc_UserLabels := sortedMapCopy (c_Labels cmd);
  hc_After := nil_or (After cmd) (fun l =>
    sort_by ha_Name (map (fun a => {| ha_Name := after_Name a; ha_Condition := Condition a |}) l));
  hc_Hooks := nil_or (Hooks cmd) (map hash_hook) |}.

(** ** Plans *)

(* src/cmdman/compose/plan.go:14-26 ActionKind *)
Inductive ActionKind := ActionCreate | ActionRecreate | ActionUnchanged.

(* src/cmdman/compose/plan.go:28-41 CommandAction *)
Record CommandAction := {
  Kind : ActionKind;
  Desired : Command;
  ca_ScaleIndex : Z;
  ca_InstanceName : string;
  Existing : option CommandEntry;
  DesiredHash : string;
}.

(* src/cmdman/compose/plan.go:43-57 Plan *)
Record Plan := {
  Actions : list CommandAction;
  Orphans : list CommandEntry;
  ExcessReplicas : list CommandEntry;
}.

(* src/cmdman/compose/plan.go:71-131 ComputePlan *)
Inductive planErr :=
| PlanDag (e : graphErr)
| PlanCollision (project workDir existingFile file : string)
| PlanHash (name err : string).

(* src/cmdman/compose/plan.go:183-188 instanceKey *)
Definition instanceKey : Type := string * Z.

(** Scale indices 1 to [max scale 1]. *)
(* src/cmdman/compose/plan.go:133-134 ComputePlan *)
Definition replica_range (scale : Z) : list Z := map (fun i => Z.of_nat i + 1)%Z (seq 0 (Z.to_nat (Z.max scale 1))).

Section ComputePlan.
(** [json.Marshal] and SHA-256 of the hash input, and the encodings of the label
    values. *)
Context (digest : hashCanonical -> result string string)
  (marshalAfter : list AfterSpec -> string) (marshalHooks : list LifecycleHook -> string).

(* src/cmdman/compose/hash.go:133-211 Hash *)
Definition Hash (cmd : Command) : result string string :=
  try sum := digest (canonical cmd) in Ok ("sha256:" +:+ sum).

(* src/cmdman/compose/plan.go:222-256 BuildLabels *)
Definition BuildLabels (spec : ComposeSpec) (cmd : Command) (configHash : string) (scaleIndex : Z)
  : gmap string string :=
  let labels := c_Labels cmd in
  let labels := <[LabelProject := Project spec]> labels in
  let labels := <[LabelCommand := Name cmd]> labels in
  let labels := <[LabelConfigHash := configHash]> labels in
  let labels := <[LabelVersion := LabelVersionValue]> labels in
  let labels := <[LabelWorkdir := WorkDir spec]> labels in
  let labels := <[LabelFile := ComposeFile spec]> labels in
  let labels := <[LabelScaleIndex := Itoa scaleIndex]> labels in
  let labels := <[LabelScale := Itoa (Z.max (Scale cmd) 1)]> labels in
  let labels := match After cmd with [] => labels | a => <[LabelAfter := marshalAfter a]> labels end in
  match Hooks cmd with [] => labels | h => <[LabelHooks := marshalHooks h]> labels end.

(** The first loop of [ComputePlan]: index the replicas of the commands that are
    wanted, collect the others. *)
(* src/cmdman/compose/plan.go:88-110 ComputePlan *)
Definition index_entry (spec : ComposeSpec) (desired : gmap string Command)
    (acc : gmap instanceKey CommandEntry * list CommandEntry) (e : CommandEntry)
  : result planErr (gmap instanceKey CommandEntry * list CommandEntry) :=
  let '(byInstance, orphans) := acc in
  match ConfigJSON e with
  | None => Ok acc
  | Some cfg =>
    let existingFile := label (Labels cfg) LabelFile in
    if negb (bool_decide (existingFile = "")) && negb (bool_decide (existingFile = ComposeFile spec))
    then Prelude.Err (PlanCollision (Project spec) (WorkDir spec) existingFile (ComposeFile spec))
    else
      let cmdName := label (Labels cfg) LabelCommand in
      if bool_decide (is_Some (desired !! cmdName))
      then Ok (<[(cmdName, scaleIndexOf e) := e]> byInstance, orphans)
      else Ok (byInstance, orphans ++ [e])
  end.

(** One replica of a desired command, and the replicas left over. *)
(* src/cmdman/compose/plan.go:133-162 ComputePlan *)
Definition plan_replica (name : string) (desired : Command) (desiredHash : string)
    (acc : gmap instanceKey CommandEntry * list CommandAction) (idx : Z)
  : gmap instanceKey CommandEntry * list CommandAction :=
  let '(byInstance, actions) := acc in
  let mk kind existing := {| Kind := kind; Desired := desired; ca_ScaleIndex := idx;
    ca_InstanceName := InstanceName (GeneratedName desired) idx; Existing := existing;
    DesiredHash := desiredHash |} in
  match byInstance !! (name, idx) with
  | None => (byInstance, actions ++ [mk ActionCreate None])
  | Some ex =>
    let storedHash := match ConfigJSON ex with Some cfg => label (Labels cfg) LabelConfigHash | None => "" end in
    (delete (name, idx) byInstance,
     actions ++ [mk (if decide (storedHash = desiredHash) then ActionUnchanged else ActionRecreate) (Some ex)])
  end.

(* src/cmdman/compose/plan.go:125-163 ComputePlan *)
Definition plan_command (cmds : gmap string Command)
    (acc : gmap instanceKey CommandEntry * list CommandAction) (name : string)
  : result planErr (gmap instanceKey CommandEntry * list CommandAction) :=
  match cmds !! name with
  | None => Ok acc
  | Some desired =>
    try desiredHash := lift_err (PlanHash name) (Hash desired) in
    Ok (foldl (plan_replica name desired desiredHash) acc (replica_range (Scale desired)))
  end.

(** The layers only hold names of commands, so [cmds !! name] is there. *)
(* src/cmdman/compose/plan.go:59-181 ComputePlan *)
Definition ComputePlan (spec : ComposeSpec) (existing : list CommandEntry) : result planErr Plan :=
  try _ := lift_err PlanDag (ValidateDAG (Commands spec)) in
  let cmds := commands_by_name spec in
  try (byInstance, orphans) := result_foldl (index_entry spec cmds) (∅, []) existing in
  try layers := lift_err PlanDag (TopoLayers (Commands spec)) in
  try (surplus, actions) := result_foldl (plan_command cmds) (byInstance, []) (concat layers) in
  Ok {| Actions := actions; Orphans := orphans;
        ExcessReplicas := sort_by entry_Name (map_to_list surplus).*2 |}.
End ComputePlan.

(** ** What a plan says *)

Definition key_of (e : CommandEntry) : instanceKey := (commandNameOf e, scaleIndexOf e).

(** An entry of a command the spec has, and one of a command it has not. *)
Definition wanted (cmds : gmap string Command) (e : CommandEntry) : Prop :=
  is_Some (ConfigJSON e) /\ is_Some (cmds !! commandNameOf e).
Definition orphaned (cmds : gmap string Command) (e : CommandEntry) : Prop :=
  is_Some (ConfigJSON e) /\ cmds !! commandNameOf e = None.

#[export] Instance wanted_dec cmds e : Decision (wanted cmds e).
Proof. unfold wanted. apply _. Defined.
#[export] Instance orphaned_dec cmds e : Decision (orphaned cmds e).
Proof. unfold orphaned. apply _. Defined.

(** The file an entry was created from; no collision means it is the spec's. *)
Definition same_file (spec : ComposeSpec) (e : CommandEntry) : Prop :=
  forall cfg, ConfigJSON e = Some cfg ->
    label (Labels cfg) LabelFile = "" \/ label (Labels cfg) LabelFile = ComposeFile spec.

Lemma index_entry_ok spec cmds m o e :
  match index_entry spec cmds (m, o) e with
  | Ok acc => same_file spec e /\
      acc = (if decide (wanted cmds e) then <[key_of e := e]> m else m,
             o ++ if decide (orphaned cmds e) then [e] else [])
  | Prelude.Err _ => ~ same_file spec e
  end.
Proof.
  unfold index_entry. destruct (ConfigJSON e) as [cfg|] eqn:Ec.
  2:{ split; [intros cfg; by rewrite Ec|].
      rewrite !decide_False by (intros [H _]; rewrite Ec in H; by destruct H). by rewrite app_nil_r. }
  assert (Hn : commandNameOf e = label (Labels cfg) LabelCommand) by (unfold commandNameOf; by rewrite Ec).
  destruct (_ && _) eqn:Ef.
  { split_hyps. intros Hsame. by destruct (Hsame cfg Ec). }
  assert (Hf : same_file spec e).
  { intros cfg' Hc. assert (cfg' = cfg) as -> by congruence.
    apply andb_false_iff in Ef as [Ef|Ef]; apply negb_false_iff, bool_decide_eq_true in Ef; auto. }
  assert (Hs : is_Some (ConfigJSON e)) by (by rewrite Ec).
  clear Ef. unfold key_of. rewrite <- Hn. case_bool_decide as Hd; (split; [done|]).
  - rewrite (decide_True (P := wanted cmds e)) by done.
    rewrite (decide_False (P := orphaned cmds e)), app_nil_r; [done|]. intros [_ H]. rewrite H in Hd. by destruct Hd.
  - apply eq_None_not_Some in Hd. rewrite (decide_True (P := orphaned cmds e)) by done.
    rewrite (decide_False (P := wanted cmds e)); [done|]. intros [_ H]. rewrite Hd in H. by destruct H.
Qed.

(** Of two stored entries that name the same replica of a wanted command, as two whose
    index cannot be read do, only the second is indexed: the first is neither the existing
    side of an action, nor surplus, nor an orphan. *)
Lemma index_entry_replaces spec cmds e1 e2 :
  same_file spec e1 -> same_file spec e2 -> wanted cmds e1 -> wanted cmds e2 -> key_of e1 = key_of e2 ->
  result_foldl (index_entry spec cmds) (∅, []) [e1; e2] = Ok ({[key_of e2 := e2]}, []).
Proof.
  intros F1 F2 W1 W2 Hk. assert (Hstep : forall e m, same_file spec e -> wanted cmds e -> index_entry spec cmds (m, []) e = Ok (<[key_of e := e]> m, [])).
  { intros e m Hf Hw. pose proof (index_entry_ok spec cmds m [] e) as H. destruct (index_entry spec cmds (m, []) e) as [acc|]; [|by destruct H].
    destruct H as [_ ->]. rewrite decide_True by done. rewrite decide_False; [done|]. destruct Hw as [_ Hs]. intros [_ Ho]. rewrite Ho in Hs. by destruct Hs. }
  cbn [result_foldl]. rewrite (Hstep e1) by done. cbn [result_bind]. rewrite (Hstep e2) by done. rewrite Hk, insert_insert_eq. done.
Qed.

(** Indexing the stored entries. *)
Lemma index_entries spec cmds l m o :
  (forall e, e ∈ l -> same_file spec e) ->
  exists m', result_foldl (index_entry spec cmds) (m, o) l
      = Ok (m', o ++ filter (orphaned cmds) l) /\
    (forall k e, m' !! k = Some e -> m !! k = Some e \/ (e ∈ l /\ wanted cmds e /\ key_of e = k)) /\
    (forall k, is_Some (m' !! k) <-> is_Some (m !! k) \/ exists e, e ∈ l /\ wanted cmds e /\ key_of e = k).
Proof.
  revert m o. induction l as [|e l IH]; intros m o Hf; cbn [result_foldl].
  { exists m. rewrite app_nil_r. split_and!; [done|by left|]. intros k. split; [by left|].
    by intros [?|(e & ?%elem_of_nil & _)]. }
  pose proof (index_entry_ok spec cmds m o e) as He.
  destruct (index_entry spec cmds (m, o) e) as [acc|]; [|by destruct He; apply Hf; left].
  destruct He as [_ ->]. simpl.
  destruct (IH (if decide (wanted cmds e) then <[key_of e := e]> m else m) (o ++ if decide (orphaned cmds e) then [e] else []))
    as (m' & Hm' & H1 & H2); [intros; apply Hf; by right|].
  exists m'. rewrite Hm', filter_cons, <- app_assoc. split_and!.
  - by destruct (decide (orphaned cmds e)).
  - intros k x [H|(? & ? & ?)]%H1; [|right; split; [by right|done]]. destruct (decide (wanted cmds e)) as [Hw|]; [|by left].
    apply lookup_insert_Some in H as [[<- <-]|[_ ?]]; [|by left]. right. split; [left|done].
  - intros k. rewrite H2. setoid_rewrite elem_of_cons. destruct (decide (wanted cmds e)) as [Hw|Hw].
    + rewrite lookup_insert_is_Some. destruct (decide (key_of e = k)); naive_solver.
    + naive_solver.
Qed.

(** The action for one replica, given the entry found for it. *)
Definition action_for (name : string) (desired : Command) (h : string) (idx : Z) (ex : option CommandEntry)
  : CommandAction :=
  {| Kind := match ex with
             | None => ActionCreate
             | Some e => if decide (match ConfigJSON e with Some cfg => label (Labels cfg) LabelConfigHash
                                                       | None => "" end = h)
                         then ActionUnchanged else ActionRecreate
             end;
     Desired := desired; ca_ScaleIndex := idx; ca_InstanceName := InstanceName (GeneratedName desired) idx;
     Existing := ex; DesiredHash := h |}.

Lemma plan_replicas name desired h idxs m acts :
  NoDup idxs ->
  exists m', foldl (plan_replica name desired h) (m, acts) idxs
      = (m', acts ++ map (fun i => action_for name desired h i (m !! (name, i))) idxs) /\
    forall k, m' !! k = if decide (k.1 = name /\ k.2 ∈ idxs) then None else m !! k.
Proof.
  revert m acts. induction idxs as [|i idxs IH]; intros m acts Hnd; cbn [foldl map].
  { exists m. rewrite app_nil_r. split; [done|]. intros k. rewrite decide_False; [done|]. by intros [_ ?%elem_of_nil]. }
  inversion Hnd as [|? ? Hi Hnd']; subst.
  assert (Hstep : plan_replica name desired h (m, acts) i
    = (delete (name, i) m, acts ++ [action_for name desired h i (m !! (name, i))])).
  { unfold plan_replica, action_for. destruct (m !! (name, i)) as [ex|] eqn:E; [done|]. by rewrite delete_id. }
  rewrite Hstep. destruct (IH (delete (name, i) m) (acts ++ [action_for name desired h i (m !! (name, i))]) Hnd')
    as (m' & -> & Hm'). exists m'. split.
  - rewrite <- app_assoc. simpl. do 3 f_equal. apply map_ext_in. intros j Hj%list_elem_of_In.
    rewrite lookup_delete_ne; [done|]. intros [= ->]. done.
  - intros [n j]. rewrite Hm'. simpl. destruct (decide ((n, j) = (name, i))) as [[= -> ->]|Hne].
    + rewrite lookup_delete_eq. rewrite (decide_True (P := name = name /\ i ∈ i :: idxs)) by (split; [done|left]).
      by case_decide.
    + rewrite lookup_delete_ne by done. apply decide_ext. rewrite elem_of_cons.
      split; [intros [? ?]; auto|]. intros [-> [->|?]]; done.
Qed.

(** What the plan says about one command. *)
Definition actions_for (cmds : gmap string Command) (hash : string -> string)
    (m : gmap instanceKey CommandEntry) (name : string) : list CommandAction :=
  match cmds !! name with
  | None => []
  | Some c => map (fun i => action_for name c (hash name) i (m !! (name, i))) (replica_range (Scale c))
  end.

(** A replica key a command of [ns] plans for. *)
Definition planned (cmds : gmap string Command) (ns : list string) (k : instanceKey) : Prop :=
  k.1 ∈ ns /\ exists c, cmds !! k.1 = Some c /\ k.2 ∈ replica_range (Scale c).

#[export] Instance planned_dec cmds ns k : Decision (planned cmds ns k).
Proof.
  unfold planned. apply and_dec; [apply _|]. destruct (cmds !! k.1) as [c|] eqn:E.
  - destruct (decide (k.2 ∈ replica_range (Scale c))); [left; eauto|right; intros (? & [= <-] & ?); done].
  - right. by intros (? & [=] & _).
Defined.

Lemma replica_range_NoDup s : NoDup (replica_range s).
Proof.
  unfold replica_range. apply NoDup_fmap_2; [|apply NoDup_seq]. intros x y. lia.
Qed.

Lemma elem_of_replica_range s i : i ∈ replica_range s <-> (1 <= i <= Z.max s 1)%Z.
Proof.
  unfold replica_range. rewrite list_elem_of_fmap. setoid_rewrite elem_of_seq. split.
  - intros (n & -> & ?). lia.
  - intros H. exists (Z.to_nat (i - 1)). lia.
Qed.

Lemma actions_for_ext cmds hash m m' ns :
  (forall k, k.1 ∈ ns -> m' !! k = m !! k) ->
  flat_map (actions_for cmds hash m') ns = flat_map (actions_for cmds hash m) ns.
Proof.
  intros H. induction ns as [|n ns IH]; [done|]. simpl. f_equal; [|apply IH; intros; apply H; by right].
  unfold actions_for. destruct (cmds !! n); [|done]. apply map_ext. intros i. by rewrite H by left.
Qed.

Lemma plan_commands digest cmds hash ns m acts :
  NoDup ns -> (forall n c, n ∈ ns -> cmds !! n = Some c -> Hash digest c = Ok (hash n)) ->
  exists m', result_foldl (plan_command digest cmds) (m, acts) ns
      = Ok (m', acts ++ flat_map (actions_for cmds hash m) ns) /\
    forall k, m' !! k = if decide (planned cmds ns k) then None else m !! k.
Proof.
  revert m acts. induction ns as [|n ns IH]; intros m acts Hnd Hh; cbn [result_foldl flat_map].
  { exists m. rewrite app_nil_r. split; [done|]. intros k. rewrite decide_False; [done|]. by intros [?%elem_of_nil _]. }
  inversion Hnd as [|? ? Hn Hnd']; subst.
  assert (Hstep : exists m1, plan_command digest cmds (m, acts) n = Ok (m1, acts ++ actions_for cmds hash m n) /\
    forall k, m1 !! k = if decide (planned cmds [n] k) then None else m !! k).
  { unfold plan_command, actions_for. destruct (cmds !! n) as [c|] eqn:E.
    - rewrite (Hh n c) by (done || left). simpl.
      destruct (plan_replicas n c (hash n) (replica_range (Scale c)) m acts) as (m1 & -> & Hm1); [apply replica_range_NoDup|].
      exists m1. split; [done|]. intros k. rewrite Hm1. apply decide_ext. unfold planned.
      rewrite list_elem_of_singleton. split; [intros [-> ?]; eauto|]. intros [-> (? & ? & ?)]. split; [done|congruence].
    - exists m. rewrite app_nil_r. split; [done|]. intros k. rewrite decide_False; [done|].
      unfold planned. rewrite list_elem_of_singleton. intros [-> (? & ? & _)]. congruence. }
  destruct Hstep as (m1 & -> & Hm1). simpl.
  destruct (IH m1 (acts ++ actions_for cmds hash m n) Hnd') as (m' & -> & Hm').
  { intros; eapply Hh; [by right|done]. }
  exists m'. split.
  - rewrite <- app_assoc, (actions_for_ext cmds hash m m1); [done|]. intros k Hk.
    rewrite Hm1, decide_False; [done|]. intros [E%list_elem_of_singleton _]. by subst n.
  - intros k. rewrite Hm', Hm1.
    assert (planned cmds (n :: ns) k <-> planned cmds [n] k \/ planned cmds ns k) as E.
    { unfold planned. rewrite elem_of_cons, list_elem_of_singleton. tauto. }
    destruct (decide (planned cmds ns k)), (decide (planned cmds [n] k)), (decide (planned cmds (n :: ns) k)); tauto.
Qed.

(** ** The plan is exact *)

(** The action the plan has for a replica is the right one for what is stored. *)
Definition action_right digest (spec : ComposeSpec) (existing : list CommandEntry) (a : CommandAction) : Prop :=
  Desired a ∈ Commands spec /\ ca_InstanceName a = InstanceName (GeneratedName (Desired a)) (ca_ScaleIndex a) /\
  Hash digest (Desired a) = Ok (DesiredHash a) /\
  match Existing a with
  | None => Kind a = ActionCreate /\
      forall e, e ∈ existing -> is_Some (ConfigJSON e) -> key_of e <> (Name (Desired a), ca_ScaleIndex a)
  | Some e => e ∈ existing /\ key_of e = (Name (Desired a), ca_ScaleIndex a) /\
      exists cfg, ConfigJSON e = Some cfg /\
        Kind a = if decide (label (Labels cfg) LabelConfigHash = DesiredHash a)
                 then ActionUnchanged else ActionRecreate
  end.

(** Where a stored entry of the project ends up. *)
Definition in_range (spec : ComposeSpec) (e : CommandEntry) : Prop :=
  exists c, c ∈ Commands spec /\ Name c = commandNameOf e /\ (1 <= scaleIndexOf e <= Z.max (Scale c) 1)%Z.

Definition accounted (spec : ComposeSpec) (existing : list CommandEntry) (p : Plan) : Prop :=
  (forall e, e ∈ Orphans p <-> e ∈ existing /\ is_Some (ConfigJSON e) /\
     commandNameOf e ∉ command_names (Commands spec)) /\
  (forall e, e ∈ ExcessReplicas p <-> e ∈ existing /\ is_Some (ConfigJSON e) /\
     commandNameOf e ∈ command_names (Commands spec) /\ ~ in_range spec e) /\
  (forall e, (exists a, a ∈ Actions p /\ Existing a = Some e) <->
     e ∈ existing /\ is_Some (ConfigJSON e) /\ in_range spec e).

Lemma index_entries_same spec cmds l acc acc' :
  result_foldl (index_entry spec cmds) acc l = Ok acc' -> forall e, e ∈ l -> same_file spec e.
Proof.
  revert acc. induction l as [|e l IH]; intros [m o]; cbn [result_foldl]; [by intros _ ? ?%elem_of_nil|].
  pose proof (index_entry_ok spec cmds m o e) as He.
  destruct (index_entry spec cmds (m, o) e) as [acc|]; [|done]. simpl. intros H x [->|Hx]%elem_of_cons; [apply He|].
  by eapply IH.
Qed.

Definition hash_of digest (cmds : gmap string Command) (n : string) : string :=
  match cmds !! n with
  | Some c => match Hash digest c with Ok h => h | Prelude.Err _ => "" end
  | None => ""
  end.

Lemma plan_commands_hashed digest cmds ns acc acc' :
  result_foldl (plan_command digest cmds) acc ns = Ok acc' ->
  forall n c, n ∈ ns -> cmds !! n = Some c -> Hash digest c = Ok (hash_of digest cmds n).
Proof.
  revert acc. induction ns as [|n ns IH]; intros acc; cbn [result_foldl]; [by intros _ ? ? ?%elem_of_nil|].
  destruct (plan_command digest cmds acc n) as [acc1|] eqn:E; [|done]. simpl.
  intros H x c [->|Hx]%elem_of_cons Hc; [|by eapply IH].
  unfold plan_command in E. destruct acc as [m acts]. unfold hash_of. rewrite Hc in *. by destruct (Hash digest c).
Qed.

(** The pieces of a successful plan. *)
Lemma ComputePlan_parts digest spec existing p :
  ComputePlan digest spec existing = Ok p ->
  exists m layers surplus, ValidateDAG (Commands spec) = Ok tt /\ topoLayers (Commands spec) = Ok layers /\
    result_foldl (index_entry spec (commands_by_name spec)) (∅, []) existing = Ok (m, Orphans p) /\
    result_foldl (plan_command digest (commands_by_name spec)) (m, []) (concat layers) = Ok (surplus, Actions p) /\
    ExcessReplicas p = sort_by entry_Name (map_to_list surplus).*2.
Proof.
  unfold ComputePlan. intros H. apply result_bind_ok in H as ([] & Hd & H).
  apply result_bind_ok in H as ([m o] & Hi & H). apply result_bind_ok in H as (layers & Hl & H).
  apply result_bind_ok in H as ([s acts] & Hp & [= <-]). simpl.
  destruct (ValidateDAG (Commands spec)) as [[]|]; [|done].
  unfold TopoLayers in Hl. destruct (topoLayers (Commands spec)); [|done]. injection Hl as ->. eauto 10.
Qed.

Lemma in_range_planned spec ns e :
  NoDup (command_names (Commands spec)) -> ns ≡ₚ command_names (Commands spec) ->
  planned (commands_by_name spec) ns (key_of e) <-> in_range spec e.
Proof.
  intros Hnd Hns. unfold planned, in_range, key_of; simpl. rewrite Hns. split.
  - intros (_ & c & Hc & Hr). apply commands_by_name_lookup in Hc as [? ?]; [|done].
    apply elem_of_replica_range in Hr. eauto.
  - intros (c & Hc & Hn & Hr). split; [apply list_elem_of_fmap; eauto|]. exists c.
    rewrite commands_by_name_lookup, elem_of_replica_range by done. done.
Qed.

Lemma wanted_iff spec e : NoDup (command_names (Commands spec)) ->
  wanted (commands_by_name spec) e <-> is_Some (ConfigJSON e) /\ commandNameOf e ∈ command_names (Commands spec).
Proof.
  intros Hnd. unfold wanted. rewrite <- elem_of_dom, commands_by_name_dom by done. done.
Qed.

Lemma orphaned_iff spec e : NoDup (command_names (Commands spec)) ->
  orphaned (commands_by_name spec) e <-> is_Some (ConfigJSON e) /\ commandNameOf e ∉ command_names (Commands spec).
Proof.
  intros Hnd. unfold orphaned. rewrite <- not_elem_of_dom, commands_by_name_dom by done. done.
Qed.

Lemma elem_of_actions_for cmds hash m ns a :
  a ∈ flat_map (actions_for cmds hash m) ns <->
  exists n c i, n ∈ ns /\ cmds !! n = Some c /\ i ∈ replica_range (Scale c) /\
    a = action_for n c (hash n) i (m !! (n, i)).
Proof.
  rewrite elem_of_flat_map. unfold actions_for. split.
  - intros (n & Hn & Ha). destruct (cmds !! n) as [c|] eqn:E; [|by apply elem_of_nil in Ha].
    apply list_elem_of_fmap in Ha as (i & -> & Hi). eauto 8.
  - intros (n & c & i & Hn & Hc & Hi & ->). exists n. rewrite Hc. split; [done|]. apply list_elem_of_fmap. eauto.
Qed.

Section Exact.
Context (digest : hashCanonical -> result string string) (spec : ComposeSpec)
  (existing : list CommandEntry) (p : Plan)
  (Hnd : NoDup (command_names (Commands spec)))
  (Hkeys : forall e1 e2, e1 ∈ existing -> e2 ∈ existing -> is_Some (ConfigJSON e1) -> is_Some (ConfigJSON e2) ->
     commandNameOf e1 ∈ command_names (Commands spec) -> key_of e1 = key_of e2 -> e1 = e2)
  (Hplan : ComputePlan digest spec existing = Ok p).

(** The index and the outcome of the second loop, as lookups. *)
Lemma plan_lookups : exists (m surplus : gmap instanceKey CommandEntry) layers,
  topoLayers (Commands spec) = Ok layers /\ concat layers ≡ₚ command_names (Commands spec) /\
  Orphans p = filter (orphaned (commands_by_name spec)) existing /\
  (forall k e, m !! k = Some e <-> e ∈ existing /\ wanted (commands_by_name spec) e /\ key_of e = k) /\
  Actions p = flat_map (actions_for (commands_by_name spec) (hash_of digest (commands_by_name spec)) m) (concat layers) /\
  (forall n c, commands_by_name spec !! n = Some c -> Hash digest c = Ok (hash_of digest (commands_by_name spec) n)) /\
  (forall k, surplus !! k = if decide (planned (commands_by_name spec) (concat layers) k) then None else m !! k) /\
  ExcessReplicas p = sort_by entry_Name (map_to_list surplus).*2.
Proof.
  destruct (ComputePlan_parts _ _ _ _ Hplan) as (m & layers & surplus & _ & Hl & Hi & Hp & Hex).
  pose proof (index_entries_same _ _ _ _ _ Hi) as Hsame.
  destruct (index_entries spec (commands_by_name spec) existing ∅ [] Hsame) as (m' & Hi' & H1 & H2).
  rewrite Hi in Hi'. injection Hi' as <- Ho.
  pose proof (topoLayers_spec (Commands spec) Hnd) as Hlay. rewrite Hl in Hlay. destruct Hlay as [_ Hlay].
  pose proof (lay_perm _ _ Hlay) as Hperm.
  pose proof (plan_commands_hashed _ _ _ _ _ Hp) as Hh.
  destruct (plan_commands digest (commands_by_name spec) (hash_of digest (commands_by_name spec)) (concat layers) m [])
    as (s' & Hp' & Hs); [by rewrite Hperm|done|].
  rewrite Hp in Hp'. injection Hp' as <- Ha. exists m, surplus, layers. split_and!; try done.
  - intros k e. split.
    + intros H. destruct (H1 k e H) as [?|?]; [by rewrite lookup_empty in *|done].
    + intros (He & Hw & Hk). assert (is_Some (m !! k)) as [e' He'] by (apply H2; right; eauto).
      destruct (H1 k e' He') as [?|(Hin & Hw' & Hk')]; [by rewrite lookup_empty in *|].
      rewrite He'. f_equal. apply wanted_iff in Hw as [? ?], Hw' as [? ?]; [|done..]. apply Hkeys; congruence.
  - intros n c Hc. apply (Hh n c); [|done]. rewrite Hperm, <- commands_by_name_dom, elem_of_dom by done. by eexists.
Qed.

Lemma plan_actions_right a : a ∈ Actions p -> action_right digest spec existing a.
Proof.
  destruct plan_lookups as (m & surplus & layers & _ & _ & _ & Hm & Ha & Hh & _).
  rewrite Ha, elem_of_actions_for. intros (n & c & i & Hn & Hc & Hi & ->).
  pose proof (Hh n c Hc) as Hhash. pose proof Hc as Hc'. apply commands_by_name_lookup in Hc' as [Hc1 <-]; [|done].
  unfold action_right, action_for; simpl. split_and!; try done.
  destruct (m !! (Name c, i)) as [e|] eqn:E.
  - apply Hm in E as (He & Hw & Hk). apply wanted_iff in Hw as [[cfg Hcfg] _]; [|done]. rewrite Hcfg. eauto.
  - split; [done|]. intros e He Hcfg Hk. assert (m !! (Name c, i) = Some e); [|congruence].
    apply Hm. split_and!; try done. apply wanted_iff; [done|]. split; [done|]. unfold key_of in Hk.
    injection Hk as -> _. apply list_elem_of_fmap. eauto.
Qed.

Lemma plan_accounted : accounted spec existing p.
Proof.
  destruct plan_lookups as (m & surplus & layers & _ & Hperm & Ho & Hm & Ha & _ & Hs & Hex).
  assert (Hne : forall e, e ∈ existing -> wanted (commands_by_name spec) e ->
    in_range spec e <-> planned (commands_by_name spec) (concat layers) (key_of e)).
  { intros e _ _. symmetry. by apply in_range_planned. }
  split_and!.
  - intros e. rewrite Ho, list_elem_of_filter, orphaned_iff by done. tauto.
  - intros e. rewrite Hex, elem_of_sort_by, list_elem_of_fmap. split.
    + intros ([k e'] & -> & Hin%elem_of_map_to_list). rewrite Hs in Hin. case_decide as Hp; [done|].
      apply Hm in Hin as (He & Hw & <-). simpl. rewrite Hne by done. apply wanted_iff in Hw as [? ?]; [|done]. done.
    + intros (He & Hc & Hin & Hnr). exists (key_of e, e). split; [done|]. apply elem_of_map_to_list.
      assert (Hw : wanted (commands_by_name spec) e) by (by apply wanted_iff).
      rewrite Hs, decide_False by (by rewrite <- Hne). by apply Hm.
  - intros e. rewrite Ha. setoid_rewrite elem_of_actions_for. split.
    + intros (a & (n & c & i & Hn & Hc & Hi & ->) & Hex'). simpl in Hex'. apply Hm in Hex' as (He & Hw & Hk).
      split; [done|]. rewrite Hne by done. apply wanted_iff in Hw as [? _]; [|done]. split; [done|].
      rewrite Hk. split; [done|]. eauto.
    + intros (He & Hc & Hr). destruct Hr as (c & Hcs & Hn & Hi).
      assert (Hcm : commands_by_name spec !! commandNameOf e = Some c) by (by apply commands_by_name_lookup).
      eexists. split.
      * exists (commandNameOf e), c, (scaleIndexOf e). split_and!; [|done|by apply elem_of_replica_range|reflexivity].
        rewrite Hperm, <- Hn. apply list_elem_of_fmap. eauto.
      * simpl. apply Hm. split_and!; try done.
Qed.
End Exact.

(** The keys of the replicas a spec asks for of one command. *)
Definition desired_replicas (spec : ComposeSpec) (n : string) : list instanceKey :=
  match commands_by_name spec !! n with
  | Some c => map (pair n) (replica_range (Scale c))
  | None => []
  end.

(** C21: a plan is exact, for a spec whose commands have different names and as long as no
    two stored commands carry the name of the same wanted command with the same scale
    index, of which the later would take the place of the earlier unnoticed
    ([index_entry_replaces]). It has one action for each replica the spec asks for, in
    dependency order, that says to create it if nothing is stored for it, to leave it if
    what is stored has the same configuration hash and to recreate it otherwise; and
    every stored command of the project is accounted for exactly once: as the existing
    side of an action, as surplus of a scale-down, or as an orphan. *)
Theorem ComputePlan_exact digest spec existing p
    (Hnd : NoDup (command_names (Commands spec)))
    (Hkeys : forall e1 e2, e1 ∈ existing -> e2 ∈ existing -> is_Some (ConfigJSON e1) -> is_Some (ConfigJSON e2) ->
       commandNameOf e1 ∈ command_names (Commands spec) -> key_of e1 = key_of e2 -> e1 = e2)
    (Hplan : ComputePlan digest spec existing = Ok p) :
  (exists layers, layering (Commands spec) layers /\
     (fun a => (Name (Desired a), ca_ScaleIndex a)) <$> Actions p
     = flat_map (desired_replicas spec) (concat layers)) /\
  (forall a, a ∈ Actions p -> action_right digest spec existing a) /\
  accounted spec existing p.
Proof.
  split_and!; [|by apply plan_actions_right|by eapply plan_accounted].
  destruct (plan_lookups digest spec existing p Hnd Hkeys Hplan) as (m & surplus & layers & Hl & _ & _ & _ & Ha & _).
  exists layers. pose proof (topoLayers_spec (Commands spec) Hnd) as Hlay. rewrite Hl in Hlay.
  split; [apply Hlay|]. rewrite Ha. clear -Hnd. induction (concat layers) as [|n ns IH]; [done|].
  simpl. rewrite fmap_app, IH. f_equal. unfold actions_for, desired_replicas.
  destruct (commands_by_name spec !! n) as [c|] eqn:E; [|done]. apply commands_by_name_lookup in E as [_ <-]; [|done].
  simpl. rewrite map_map. by apply map_ext.
Qed.

(** ** Creating what a plan asks for settles it *)

(** The environment that tells a process which replica it is; [workdirHash] is the
    hash of the work directory. *)
(* src/cmdman/compose/service_create.go:432-443 composeContextEnv *)
Definition composeContextEnv (workdirHash : string -> string) (project workDir command : string)
    (scaleIndex scale : Z) : list string :=
  ["CMDMAN_COMPOSE_SCALE_INDEX=" +:+ Itoa scaleIndex;
   "CMDMAN_COMPOSE_SCALE=" +:+ Itoa (Z.max scale 1);
   "CMDMAN_COMPOSE_WORK_DIR=" +:+ workDir;
   "CMDMAN_COMPOSE_WORK_DIR_HASH=" +:+ workdirHash workDir;
   "CMDMAN_COMPOSE_PROJECT=" +:+ project;
   "CMDMAN_COMPOSE_COMMAND=" +:+ command].

(* src/cmdman/cmdman_create.go:18-66 CreateRequest *)
Record CreateRequest := {
  cr_Name : string;
  cr_Dir : string;
  cr_Env : list string;
  cr_ImportHostEnv : option bool;
  cr_InjectEnv : option bool;
  cr_AppendEnv : list string;
  cr_Labels : gmap string string;
  cr_RestartPolicy : RestartPolicy;
  cr_MaxRetries : Z;
  cr_StopSignal : string;
  cr_StopTimeout : Duration;
  cr_StopCommand : list string;
  cr_AutoRemove : bool;
  cr_Tty : bool;
  cr_ScrollbackBytes : Z;
  cr_LogDriver : string;
  cr_LogOpts : gmap string string;
  cr_Hooks : HookSet;
  cr_Argv : list string;
  cr_Replace : bool;
}.

(* src/cmdman/compose/service_create.go:392-430 buildCreateRequest *)
Definition buildCreateRequest workdirHash marshalAfter marshalHooks (spec : ComposeSpec) (nc : Command)
    (configHash instanceName : string) (scaleIndex : Z) : CreateRequest := {|
  cr_Name := instanceName; cr_Dir := c_Dir nc; cr_Env := Env nc;
  cr_ImportHostEnv := Some (ImportHostEnv nc); cr_InjectEnv := Some (InjectEnv nc);
  cr_AppendEnv := composeContextEnv workdirHash (Project spec) (WorkDir spec) (Name nc) scaleIndex (Scale nc);
  cr_Labels := BuildLabels marshalAfter marshalHooks spec nc configHash scaleIndex;
  cr_RestartPolicy := c_RestartPolicy nc; cr_MaxRetries := MaxRetries nc; cr_StopSignal := StopSignal nc;
  cr_StopTimeout := StopGracePeriod nc; cr_StopCommand := Stop nc; cr_AutoRemove := false; cr_Tty := Tty nc;
  cr_ScrollbackBytes := ScrollbackBytes nc; cr_LogDriver := c_LogDriver nc; cr_LogOpts := LogOpts nc;
  cr_Hooks := ∅; cr_Argv := Args nc; cr_Replace := false |}.

(** An entry stored for a request: it keeps the name and the labels. *)
Definition stored_as (r : CreateRequest) (e : CommandEntry) : Prop :=
  entry_Name e = cr_Name r /\ exists cfg, ConfigJSON e = Some cfg /\ Labels cfg = cr_Labels r.

(** The labels a plan reads back. *)
Lemma BuildLabels_lookup mA mH spec c h i k :
  k <> LabelAfter -> k <> LabelHooks ->
  BuildLabels mA mH spec c h i !! k =
  (<[LabelScale := Itoa (Z.max (Scale c) 1)]> (<[LabelScaleIndex := Itoa i]>
    (<[LabelFile := ComposeFile spec]> (<[LabelWorkdir := WorkDir spec]> (<[LabelVersion := LabelVersionValue]>
      (<[LabelConfigHash := h]> (<[LabelCommand := Name c]> (<[LabelProject := Project spec]> (c_Labels c))))))))) !! k.
Proof.
  intros H1 H2. unfold BuildLabels. destruct (After c), (Hooks c); rewrite ?lookup_insert_ne by done; done.
Qed.

Ltac read_label := unfold label; rewrite BuildLabels_lookup by done;
  repeat (first [rewrite lookup_insert_eq | rewrite lookup_insert_ne by done]).

Lemma BuildLabels_read mA mH spec c h i :
  (1 <= i <= Z.max (Scale c) 1)%Z -> in_int64 (Z.max (Scale c) 1) ->
  let l := BuildLabels mA mH spec c h i in
  label l LabelCommand = Name c /\ label l LabelConfigHash = h /\ label l LabelFile = ComposeFile spec /\
  label l LabelProject = Project spec /\ label l LabelWorkdir = WorkDir spec /\
  ScaleOf l = (i, Z.max (Scale c) 1).
Proof.
  intros Hi Hs l. unfold l. split_and!; try (by read_label).
  assert (Hint : in_int64 i) by (unfold in_int64, int64_min, int64_max in *; lia).
  unfold ScaleOf, scaleLabelValue. f_equal; read_label; simpl; by rewrite Atoi_Itoa.
Qed.

(** [e] is the stored replica [idx] of the command [c]. *)
Definition replica_of digest workdirHash mA mH (spec : ComposeSpec) (c : Command) (idx : Z) (e : CommandEntry) : Prop :=
  exists h, Hash digest c = Ok h /\
    stored_as (buildCreateRequest workdirHash mA mH spec c h (InstanceName (GeneratedName c) idx) idx) e.

(** The stored entries are the replicas of the spec, each once. *)
Record settled digest workdirHash mA mH (spec : ComposeSpec) (existing : list CommandEntry) : Prop := {
  set_only : forall e, e ∈ existing -> exists c idx, c ∈ Commands spec /\ idx ∈ replica_range (Scale c) /\
    replica_of digest workdirHash mA mH spec c idx e;
  set_all : forall c idx, c ∈ Commands spec -> idx ∈ replica_range (Scale c) ->
    exists e, e ∈ existing /\ replica_of digest workdirHash mA mH spec c idx e;
  set_once : forall e1 e2, e1 ∈ existing -> e2 ∈ existing -> key_of e1 = key_of e2 -> e1 = e2;
}.

Lemma replica_of_read digest workdirHash mA mH spec c idx e :
  idx ∈ replica_range (Scale c) -> in_int64 (Z.max (Scale c) 1) ->
  replica_of digest workdirHash mA mH spec c idx e ->
  key_of e = (Name c, idx) /\ same_file spec e /\ is_Some (ConfigJSON e) /\
  (forall h cfg, Hash digest c = Ok h -> ConfigJSON e = Some cfg -> label (Labels cfg) LabelConfigHash = h).
Proof.
  intros Hi%elem_of_replica_range Hs (h & Hh & Hn & cfg & Hc & Hl). simpl in Hl.
  destruct (BuildLabels_read mA mH spec c h idx Hi Hs) as (H1 & H2 & H3 & _ & _ & H4).
  unfold key_of, same_file, commandNameOf, scaleIndexOf. rewrite Hc, Hl, H1, H4. split_and!.
  - done.
  - intros cfg' [= <-]. rewrite Hl. by right.
  - by eexists.
  - intros h' cfg' Hh' [= <-]. rewrite Hl, H2. congruence.
Qed.

(** Nothing but a bad graph, a foreign file or a failing hash stops a plan. *)
Lemma ComputePlan_total digest spec existing :
  NoDup (command_names (Commands spec)) -> ValidateDAG (Commands spec) = Ok tt ->
  (forall e, e ∈ existing -> same_file spec e) ->
  (forall c, c ∈ Commands spec -> is_ok (Hash digest c) = true) ->
  exists p, ComputePlan digest spec existing = Ok p.
Proof.
  intros Hnd Hdag Hf Hh. unfold ComputePlan. rewrite Hdag. simpl.
  destruct (index_entries spec (commands_by_name spec) existing ∅ [] Hf) as (m & -> & _). simpl.
  pose proof (proj1 (ValidateDAG_ok _ Hnd) Hdag) as Hka. apply (topoLayers_ok _ Hnd) in Hka.
  pose proof (topoLayers_spec _ Hnd) as Hl. unfold TopoLayers. destruct (topoLayers (Commands spec)) as [layers|]; [|done].
  destruct Hl as [_ Hl]. simpl.
  destruct (plan_commands digest (commands_by_name spec) (hash_of digest (commands_by_name spec)) (concat layers) m [])
    as (s & -> & _); [by rewrite (lay_perm _ _ Hl)| |by eexists].
  intros n c _ Hc. unfold hash_of. rewrite Hc. apply commands_by_name_lookup in Hc as [Hc _]; [|done].
  specialize (Hh c Hc). by destruct (Hash digest c).
Qed.

Lemma plan_action_range digest spec existing p a :
  NoDup (command_names (Commands spec)) ->
  ComputePlan digest spec existing = Ok p -> a ∈ Actions p -> ca_ScaleIndex a ∈ replica_range (Scale (Desired a)).
Proof.
  intros Hnd Hp Ha. destruct (ComputePlan_parts _ _ _ _ Hp) as (m & layers & surplus & _ & Hl & _ & Hpc & _).
  pose proof (topoLayers_spec (Commands spec) Hnd) as Hlay. rewrite Hl in Hlay. destruct Hlay as [_ Hlay].
  destruct (plan_commands digest (commands_by_name spec) (hash_of digest (commands_by_name spec)) (concat layers) m [])
    as (s' & Hp' & _); [by rewrite (lay_perm _ _ Hlay)|by eapply plan_commands_hashed|].
  rewrite Hpc in Hp'. injection Hp' as _ E. rewrite E in Ha. simpl in Ha.
  apply elem_of_actions_for in Ha as (n & c & i & _ & _ & Hi & ->). done.
Qed.

(** C22: creating is idempotent: when every replica the spec asks for is stored the way
    [buildCreateRequest] writes it and nothing else is, the next plan finds every
    replica unchanged, no orphan and no surplus. So a second create, or the create of
    an up on a settled project, touches nothing. *)
Theorem settled_plan_unchanged digest workdirHash mA mH spec existing
    (Hnd : NoDup (command_names (Commands spec)))
    (Hdag : ValidateDAG (Commands spec) = Ok tt)
    (Hscale : forall c, c ∈ Commands spec -> in_int64 (Z.max (Scale c) 1))
    (Hset : settled digest workdirHash mA mH spec existing) :
  exists p, ComputePlan digest spec existing = Ok p /\ Orphans p = [] /\ ExcessReplicas p = [] /\
    forall a, a ∈ Actions p -> Kind a = ActionUnchanged.
Proof.
  destruct Hset as [Honly Hall Honce].
  assert (Hread : forall e, e ∈ existing -> same_file spec e /\ is_Some (ConfigJSON e) /\
    commandNameOf e ∈ command_names (Commands spec) /\ in_range spec e).
  { intros e He. destruct (Honly e He) as (c & i & Hc & Hi & Hr).
    destruct (replica_of_read _ _ _ _ _ _ _ _ Hi (Hscale c Hc) Hr) as (Hk & Hf & Hs & _). unfold key_of in Hk.
    injection Hk as Hn Hx. split_and!; try done; [rewrite Hn; apply list_elem_of_fmap; eauto|].
    exists c. rewrite Hn, Hx. apply elem_of_replica_range in Hi. done. }
  assert (exists p, ComputePlan digest spec existing = Ok p) as [p Hp].
  { apply ComputePlan_total; [done|done|intros e He; by apply Hread|].
    intros c Hc. destruct (Hall c 1%Z Hc) as (e & _ & h & -> & _); [apply elem_of_replica_range; lia|done]. }
  assert (Hkeys : forall e1 e2, e1 ∈ existing -> e2 ∈ existing -> is_Some (ConfigJSON e1) -> is_Some (ConfigJSON e2) ->
     commandNameOf e1 ∈ command_names (Commands spec) -> key_of e1 = key_of e2 -> e1 = e2) by eauto.
  destruct (plan_accounted digest spec existing p Hnd Hkeys Hp) as (Ho & Hx & _).
  exists p. split; [done|]. split_and!.
  - apply elem_of_nil_inv. intros e (He & _ & Hn)%Ho. by destruct (Hread e He) as (_ & _ & ? & _).
  - apply elem_of_nil_inv. intros e (He & _ & _ & Hn)%Hx. by destruct (Hread e He) as (_ & _ & _ & ?).
  - intros a Ha. destruct (plan_actions_right digest spec existing p Hnd Hkeys Hp a Ha) as (Hd & _ & Hh & Hex).
    assert (Hi : ca_ScaleIndex a ∈ replica_range (Scale (Desired a))) by (by eapply plan_action_range).
    destruct (Hall _ _ Hd Hi) as (e & He & Hr).
    destruct (replica_of_read _ _ _ _ _ _ _ _ Hi (Hscale _ Hd) Hr) as (Hk & _ & Hs & Hl).
    destruct (Existing a) as [e'|]; [|by destruct (proj2 Hex e He Hs)].
    destruct Hex as (He' & Hk' & cfg & Hcfg & ->). assert (e' = e) as -> by (apply Honce; congruence).
    by rewrite (Hl _ cfg Hh Hcfg), decide_True.
Qed.

(** A configuration with the given labels and nothing else. *)
Definition labelled (labels : gmap string string) : CommandConfig :=
  {| Argv := []; cc_Dir := ""; cc_Env := []; cc_InjectEnv := false; cc_RestartPolicy := ""; cc_MaxRetries := 0;
     cc_StopSignal := ""; StopTimeout := None; cc_StopCommand := None; cc_Tty := false; cc_ScrollbackBytes := 0;
     cc_LogDriver := ""; cc_LogOpts := ∅; Labels := labels; Annotations := ∅; cc_Hooks := ∅; CommandDir := "" |}.

Definition stored_entry (name : string) (labels : gmap string string) : CommandEntry :=
  {| ID := name; entry_Name := name; CreatedAt := ""; entry_State := EventTypeExited; ExitCode := None;
     ConfigJSON := Some (labelled labels); StateJSON := None |}.

(** The stored replicas of a spec. *)
Definition stored_replicas (h : string) workdirHash mA mH (spec : ComposeSpec) : list CommandEntry :=
  flat_map (fun c => map (fun i =>
    let r := buildCreateRequest workdirHash mA mH spec c h (InstanceName (GeneratedName c) i) i in
    stored_entry (cr_Name r) (cr_Labels r)) (replica_range (Scale c))) (Commands spec).

Lemma stored_replicas_settled digest h workdirHash mA mH spec :
  NoDup (command_names (Commands spec)) -> (forall c, c ∈ Commands spec -> Hash digest c = Ok h) ->
  (forall c, c ∈ Commands spec -> in_int64 (Z.max (Scale c) 1)) ->
  settled digest workdirHash mA mH spec (stored_replicas h workdirHash mA mH spec).
Proof.
  intros Hnd Hh Hs.
  assert (Hrep : forall c i, c ∈ Commands spec -> replica_of digest workdirHash mA mH spec c i
    (stored_entry (InstanceName (GeneratedName c) i) (BuildLabels mA mH spec c h i))).
  { intros c i Hc. exists h. split; [by apply Hh|]. split; [done|]. by eexists. }
  assert (Hin : forall e, e ∈ stored_replicas h workdirHash mA mH spec <-> exists c i, c ∈ Commands spec /\
    i ∈ replica_range (Scale c) /\ e = stored_entry (InstanceName (GeneratedName c) i) (BuildLabels mA mH spec c h i)).
  { intros e. unfold stored_replicas. rewrite elem_of_flat_map. split.
    - intros (c & Hc & (i & -> & Hi)%list_elem_of_fmap). eauto.
    - intros (c & i & Hc & Hi & ->). exists c. split; [done|]. apply list_elem_of_fmap. eauto. }
  constructor.
  - intros e (c & i & Hc & Hi & ->)%Hin. eauto 6.
  - intros c i Hc Hi. eexists. split; [apply Hin; eauto|]. by apply Hrep.
  - intros e1 e2 (c1 & i1 & Hc1 & Hi1 & ->)%Hin (c2 & i2 & Hc2 & Hi2 & ->)%Hin.
    destruct (replica_of_read _ _ _ _ _ _ _ _ Hi1 (Hs c1 Hc1) (Hrep c1 i1 Hc1)) as (-> & _).
    destruct (replica_of_read _ _ _ _ _ _ _ _ Hi2 (Hs c2 Hc2) (Hrep c2 i2 Hc2)) as (-> & _).
    intros [= Hn ->]. by rewrite (name_inj _ Hnd c1 c2 Hc1 Hc2 Hn).
Qed.

Definition demo_digest (c : hashCanonical) : result string string := Ok "0".

Lemma ComputePlan_exact_witness :
  let spec := mkSpec witness_cmds in
  let existing := [stored_entry "web-1" (<[LabelCommand := "web"]> {[LabelScaleIndex := "1"]});
                   stored_entry "web-7" (<[LabelCommand := "web"]> {[LabelScaleIndex := "7"]});
                   stored_entry "old-1" (<[LabelCommand := "old"]> {[LabelScaleIndex := "1"]})] in
  exists p, ComputePlan demo_digest spec existing = Ok p /\
    Kind <$> Actions p = [ActionCreate; ActionCreate; ActionRecreate; ActionCreate] /\
    accounted spec existing p.
Proof.
  intros spec existing. destruct (ComputePlan demo_digest spec existing) as [p|] eqn:E.
  2:{ vm_compute in E. discriminate E. }
  exists p. split; [reflexivity|]. split.
  - vm_compute in E. injection E as <-. reflexivity.
  - apply (ComputePlan_exact demo_digest spec existing p witness_cmds_NoDup); [|exact E].
    assert (Hk : NoDup (key_of <$> existing)) by (apply (bool_decide_unpack _); vm_compute; exact I).
    intros e1 e2 [i H1]%list_elem_of_lookup [j H2]%list_elem_of_lookup _ _ _ Hkk.
    assert (i = j) as ->; [|congruence].
    apply (NoDup_lookup _ i j (key_of e1) Hk); rewrite list_lookup_fmap; [by rewrite H1|by rewrite H2, Hkk].
Defined.

Lemma settled_plan_unchanged_witness :
  let spec := mkSpec witness_cmds in
  exists p, ComputePlan demo_digest spec (stored_replicas "sha256:0" (fun s => s) (fun _ => "a") (fun _ => "h") spec) = Ok p /\
    Orphans p = [] /\ ExcessReplicas p = [] /\ forall a, a ∈ Actions p -> Kind a = ActionUnchanged.
Proof.
  intros spec.
  assert (Hs : Forall (fun c => in_int64 (Z.max (Scale c) 1)) (Commands spec)).
  { apply (bool_decide_unpack _). vm_compute. exact I. }
  rewrite Forall_forall in Hs.
  apply (settled_plan_unchanged demo_digest (fun s => s) (fun _ => "a") (fun _ => "h") spec _ witness_cmds_NoDup).
  - vm_compute. reflexivity.
  - exact Hs.
  - apply stored_replicas_settled; [exact witness_cmds_NoDup|intros c _; reflexivity|exact Hs].
Defined.

(** ** The spec that stored labels give back *)

(* src/cmdman/compose/reconstruct_project.go:49-75 reconstructProjectFromMeta *)
Inductive rebuildErr :=
| BadAfterLabel (command err : string)
| StoredGraph (e : graphErr).

(** A command as it is rebuilt: the fields the labels carry. *)
(* src/cmdman/compose/reconstruct_project.go:55-60 reconstructProjectFromMeta *)
Definition rebuilt (name generated : string) (after : list AfterSpec) (scale : Z) : Command := {|
  Name := name; c_Dir := ""; Args := []; Env := []; ImportHostEnv := false; InjectEnv := false;
  c_Labels := ∅; c_RestartPolicy := ""; MaxRetries := 0; StopSignal := ""; StopGracePeriod := 0%Z;
  Stop := []; Tty := false; ScrollbackBytes := 0; c_LogDriver := ""; LogOpts := ∅;
  After := after; Hooks := []; Scale := scale; GeneratedName := generated |}.

Section Rebuild.
(** [json.Unmarshal] of the after label. *)
Context (unmarshalAfter : string -> result string (list AfterSpec)).

Definition bad_condition (e : afterErr) : string := "invalid after".

(* src/cmdman/compose/label_after.go:8-22 decodeAfterLabel *)
Definition decodeAfterLabel (raw : string) : result string (list AfterSpec) :=
  if decide (raw = "") then Ok []
  else try after := unmarshalAfter raw in
       try _ := lift_err bad_condition (result_mapM AfterSpec_Validate after) in
       Ok after.

(** The loop's state: the project seen first, the commands, and their order. *)
(* src/cmdman/compose/reconstruct_project.go:12-19 reconstructProjectFromMeta *)
Record rebuildState := { rs_project : option string; rs_byName : gmap string Command; rs_order : list string }.

(** One entry: [Ok None] is the early return for a second project. *)
(* src/cmdman/compose/reconstruct_project.go:20-62 reconstructProjectFromMeta *)
Definition rebuild_step (st : rebuildState) (e : CommandEntry) : result rebuildErr (option rebuildState) :=
  match ConfigJSON e with
  | None => Ok (Some st)
  | Some cfg =>
    let labels := Labels cfg in
    let name := label labels LabelCommand in
    let entryProject := label labels LabelProject in
    if decide (name = "") then Ok (Some st)
    else if negb (bool_decide (default entryProject (rs_project st) = entryProject)) then Ok None
    else
      let project := Some (default entryProject (rs_project st)) in
      match rs_byName st !! name with
      | Some c => Ok (Some {| rs_project := project;
                    rs_byName := <[name := rebuilt (Name c) (GeneratedName c) (After c) (Scale c + 1)]> (rs_byName st);
                    rs_order := rs_order st |})
      | None =>
        try after := lift_err (BadAfterLabel name) (decodeAfterLabel (label labels LabelAfter)) in
        let generated := stripScaleIndexSuffix (entry_Name e) (scaleIndexOf e) in
        let generated := if decide (generated = "") then ID e else generated in
        Ok (Some {| rs_project := project;
                    rs_byName := <[name := rebuilt name generated after 1]> (rs_byName st);
                    rs_order := rs_order st ++ [name] |})
      end
  end.

(* src/cmdman/compose/reconstruct_project.go:20-62 reconstructProjectFromMeta *)
Fixpoint rebuild_loop (st : rebuildState) (entries : list CommandEntry) : result rebuildErr (option rebuildState) :=
  match entries with
  | [] => Ok (Some st)
  | e :: entries =>
    try r := rebuild_step st e in
    match r with Some st => rebuild_loop st entries | None => Ok None end
  end.

(** [Ok None] is the result with [ok] false. *)
(* src/cmdman/compose/reconstruct_project.go:8-77 reconstructProjectFromMeta *)
Definition reconstructProjectFromMeta (workDir : string) (entries : list CommandEntry)
  : result rebuildErr (option ComposeSpec) :=
  try r := rebuild_loop {| rs_project := None; rs_byName := ∅; rs_order := [] |} entries in
  match r with
  | None => Ok None
  | Some st =>
    match rs_order st with
    | [] => Ok None
    | order =>
      let commands := sort_by Name (omap (fun n => rs_byName st !! n) order) in
      let spec := {| ComposeFile := ""; Project := default "" (rs_project st); WorkDir := workDir;
                     WorkDirDeclared := false; Commands := commands; spec_Mux := None |} in
      try _ := lift_err StoredGraph (ValidateDAG commands) in
      Ok (Some spec)
    end
  end.
End Rebuild.

(** What the loop has gathered from the entries [l]: for each command that occurs in
    them, once in the order, its rebuilt form with the number of its entries. *)
Record gathered (spec : ComposeSpec) (l : list CommandEntry) (st : rebuildState) : Prop := {
  ga_project : rs_project st = match l with [] => None | _ => Some (Project spec) end;
  ga_order : NoDup (rs_order st);
  ga_names : forall n, n ∈ rs_order st <-> exists e, e ∈ l /\ commandNameOf e = n;
  ga_commands : forall c, c ∈ Commands spec -> rs_byName st !! Name c =
    match filter (fun e => commandNameOf e = Name c) l with
    | [] => None
    | es => Some (rebuilt (Name c) (GeneratedName c) (After c) (Z.of_nat (length es)))
    end;
}.

Lemma of_name_snoc l e n :
  filter (fun x => commandNameOf x = n) (l ++ [e]) =
  if decide (commandNameOf e = n) then filter (fun x => commandNameOf x = n) l ++ [e]
  else filter (fun x => commandNameOf x = n) l.
Proof. rewrite filter_app, filter_cons, filter_nil. case_decide; by rewrite ?app_nil_r. Qed.

Section RebuildProof.
Context (digest : hashCanonical -> result string string) (workdirHash : string -> string)
  (mA : list AfterSpec -> string) (mH : list LifecycleHook -> string)
  (uA : string -> result string (list AfterSpec)) (spec : ComposeSpec)
  (Hnd : NoDup (command_names (Commands spec)))
  (HuA : forall l, l <> [] -> mA l <> "" /\ uA (mA l) = Ok l)
  (Hcmd : forall c, c ∈ Commands spec -> Name c <> "" /\ GeneratedName c <> "" /\ in_int64 (Z.max (Scale c) 1) /\
     c_Labels c !! LabelAfter = None /\ forall a, a ∈ After c -> AfterSpec_Validate a = Ok tt).

Lemma after_label c h i : c ∈ Commands spec ->
  decodeAfterLabel uA (label (BuildLabels mA mH spec c h i) LabelAfter) = Ok (After c).
Proof.
  intros Hc. destruct (Hcmd c Hc) as (_ & _ & _ & Hl & Hv). unfold decodeAfterLabel.
  assert (E : label (BuildLabels mA mH spec c h i) LabelAfter = match After c with [] => "" | a => mA a end).
  { unfold label, BuildLabels. destruct (After c), (Hooks c);
      repeat (first [rewrite lookup_insert_eq | rewrite lookup_insert_ne by done]); by rewrite ?Hl. }
  rewrite E. destruct (After c) as [|a l] eqn:Ea; [done|]. destruct (HuA (a :: l)) as [Hne Hu]; [done|].
  rewrite decide_False, Hu by done. cbn [result_bind].
  assert (Hm : is_ok (result_mapM AfterSpec_Validate (a :: l)) = true).
  { rewrite is_ok_mapM, forallb_elem_of. intros x Hx. by rewrite (Hv x Hx). }
  by destruct (result_mapM AfterSpec_Validate (a :: l)).
Qed.

Lemma rebuild_step_gathered l st c idx e :
  gathered spec l st -> c ∈ Commands spec -> idx ∈ replica_range (Scale c) ->
  replica_of digest workdirHash mA mH spec c idx e ->
  exists st', rebuild_step uA st e = Ok (Some st') /\ gathered spec (l ++ [e]) st'.
Proof.
  intros [Gp Go Gn Gc] Hc Hi Hr. destruct (Hcmd c Hc) as (Hne & Hg & Hs & _).
  pose proof (replica_of_read _ _ _ _ _ _ _ _ Hi Hs Hr) as (Hk & _). unfold key_of in Hk. injection Hk as Hn Hx.
  destruct Hr as (h & Hh & Hen & cfg & Hcfg & Hl). simpl in Hen, Hl.
  apply elem_of_replica_range in Hi.
  destruct (BuildLabels_read mA mH spec c h idx Hi Hs) as (H1 & _ & _ & H4 & _).
  unfold rebuild_step. rewrite Hcfg, Hl, H1, H4, decide_False by done.
  assert (Hp : default (Project spec) (rs_project st) = Project spec) by (rewrite Gp; by destruct l).
  rewrite Hp, bool_decide_true by done. simpl.
  assert (Hnames : forall n, (exists x, x ∈ l ++ [e] /\ commandNameOf x = n) <-> n ∈ rs_order st \/ n = Name c).
  { intros n. rewrite ex_snoc, Gn, Hn. naive_solver. }
  assert (Hpr : forall A (x y : A), match l ++ [e] with [] => x | _ => y end = y) by (by intros; destruct l).
  pose proof (Gc c Hc) as Hcc. destruct (rs_byName st !! Name c) as [c0|] eqn:E.
  - destruct (filter _ l) as [|e0 es] eqn:Ef; [done|]. injection Hcc as ->.
    eexists. split; [done|]. constructor; cbn [rs_project rs_order rs_byName].
    + by rewrite Hpr.
    + done.
    + intros n. rewrite Hnames, Gn. split; [auto|]. intros [?| ->]; [done|].
      assert (He0 : e0 ∈ filter (fun x => commandNameOf x = Name c) l) by (rewrite Ef; left).
      apply list_elem_of_filter in He0 as [? ?]. eauto.
    + intros d Hd. rewrite (of_name_snoc l e (Name d)), Hn. destruct (decide (Name c = Name d)) as [E'|Hdc].
      * apply (name_inj _ Hnd) in E' as <-; [|done..]. rewrite lookup_insert_eq, Ef. simpl.
        rewrite length_app. simpl. do 2 f_equal. lia.
      * rewrite lookup_insert_ne by done. by apply Gc.
  - destruct (filter _ l) as [|e0 es] eqn:Ef; [|done].
    rewrite after_label by done. cbn [lift_err result_bind].
    assert (Hgen : stripScaleIndexSuffix (entry_Name e) (scaleIndexOf e) = GeneratedName c).
    { rewrite Hen, Hx. by apply strip_InstanceName; lia. }
    rewrite Hgen, decide_False by done.
    assert (Hnin : Name c ∉ rs_order st).
    { intros (x & Hxl & Hxn)%Gn. assert (Hxf : x ∈ filter (fun x => commandNameOf x = Name c) l) by (by apply list_elem_of_filter).
      rewrite Ef in Hxf. by apply elem_of_nil in Hxf. }
    eexists. split; [done|]. constructor; cbn [rs_project rs_order rs_byName].
    + by rewrite Hpr.
    + apply NoDup_app. split_and!; [done| |apply NoDup_singleton]. by intros x Hxo ->%list_elem_of_singleton.
    + intros n. by rewrite Hnames, elem_of_app, list_elem_of_singleton.
    + intros d Hd. rewrite (of_name_snoc l e (Name d)), Hn. destruct (decide (Name c = Name d)) as [E'|Hdc].
      * apply (name_inj _ Hnd) in E' as <-; [|done..]. by rewrite lookup_insert_eq, Ef.
      * rewrite lookup_insert_ne by done. by apply Gc.
Qed.

Lemma rebuild_loop_gathered l2 l1 st :
  gathered spec l1 st ->
  (forall e, e ∈ l2 -> exists c idx, c ∈ Commands spec /\ idx ∈ replica_range (Scale c) /\
     replica_of digest workdirHash mA mH spec c idx e) ->
  exists st', rebuild_loop uA st l2 = Ok (Some st') /\ gathered spec (l1 ++ l2) st'.
Proof.
  revert l1 st. induction l2 as [|e l2 IH]; intros l1 st Hg Hl; cbn [rebuild_loop].
  { exists st. by rewrite app_nil_r. }
  destruct (Hl e) as (c & idx & Hc & Hi & Hr); [by left|].
  destruct (rebuild_step_gathered l1 st c idx e Hg Hc Hi Hr) as (st1 & -> & Hg1). cbn [result_bind].
  destruct (IH (l1 ++ [e]) st1 Hg1) as (st' & -> & Hg'); [intros; apply Hl; by right|].
  exists st'. by rewrite <- app_assoc in Hg'.
Qed.

(** The entries of a command are as many as its replicas. *)
Lemma replicas_counted existing c :
  settled digest workdirHash mA mH spec existing -> NoDup existing -> c ∈ Commands spec ->
  length (filter (fun e => commandNameOf e = Name c) existing) = Z.to_nat (Z.max (Scale c) 1).
Proof.
  intros [Honly Hall Honce] Hnde Hc. set (es := filter _ existing).
  assert (Hscale : forall d, d ∈ Commands spec -> in_int64 (Z.max (Scale d) 1)) by (intros d Hd; by apply Hcmd).
  assert (E : scaleIndexOf <$> es ≡ₚ replica_range (Scale c)).
  { apply NoDup_Permutation; [|apply replica_range_NoDup|].
    - apply NoDup_fmap_2_strong; [|by apply NoDup_filter]. intros x y Hx Hy Hxy.
      apply list_elem_of_filter in Hx as [Hnx Hx], Hy as [Hny Hy]. apply Honce; [done..|]. unfold key_of. congruence.
    - intros i. rewrite list_elem_of_fmap. split.
      + intros (e & -> & [Hn He]%list_elem_of_filter). destruct (Honly e He) as (d & j & Hd & Hj & Hr).
        destruct (replica_of_read _ _ _ _ _ _ _ _ Hj (Hscale d Hd) Hr) as ([= Hnd' ->] & _).
        assert (d = c) as -> by (apply (name_inj _ Hnd); congruence). done.
      + intros Hi. destruct (Hall c i Hc Hi) as (e & He & Hr).
        destruct (replica_of_read _ _ _ _ _ _ _ _ Hi (Hscale c Hc) Hr) as ([= Hn <-] & _).
        exists e. split; [done|]. by apply list_elem_of_filter. }
  apply Permutation_length in E. rewrite length_fmap in E. rewrite E. unfold replica_range.
  by rewrite length_map, length_seq.
Qed.
End RebuildProof.

(** What is left of a command. *)
Definition remembered (c : Command) : Command :=
  rebuilt (Name c) (GeneratedName c) (After c) (Z.max (Scale c) 1).

Definition remembered_spec (spec : ComposeSpec) : ComposeSpec :=
  {| ComposeFile := ""; Project := Project spec; WorkDir := WorkDir spec; WorkDirDeclared := false;
     Commands := sort_by Name (map remembered (Commands spec)); spec_Mux := None |}.

(** The check of the graph looks at names and dependencies only, in any order. *)
Lemma ValidateDAG_remembered cmds :
  NoDup (command_names cmds) -> ValidateDAG cmds = Ok tt -> ValidateDAG (sort_by Name (map remembered cmds)) = Ok tt.
Proof.
  intros Hnd Hd. set (l := sort_by Name (map remembered cmds)).
  assert (Hnames : command_names l ≡ₚ command_names cmds).
  { unfold command_names, l. rewrite sort_by_perm. by rewrite map_map. }
  assert (Hl : forall c, c ∈ l <-> exists d, d ∈ cmds /\ c = remembered d).
  { intros c. unfold l. rewrite elem_of_sort_by, list_elem_of_fmap. naive_solver. }
  apply ValidateDAG_ok in Hd as [Hk Ha]; [|done]. apply ValidateDAG_ok; [by rewrite Hnames|]. split.
  - intros c d (c0 & Hc0 & ->)%Hl Hdep. rewrite Hnames. by apply (Hk c0).
  - intros n Hn. apply (Ha n). revert Hn. generalize n at 2 4. intros m Hn.
    induction Hn as [x y H|x y z H _ IH]; [apply tc_once|eapply tc_l; [|exact IH]];
      destruct H as (c & (c0 & Hc0 & ->)%Hl & Hcn & Hdep); by exists c0.
Qed.

(** C23: a project whose compose file is gone can be run from what is stored. From the
    stored replicas of a valid project, in any order, [reconstructProjectFromMeta] gives
    back the project, the work directory and, sorted by name, every command with its
    name, generated name, dependencies and scale. *)
Theorem reconstruct_roundtrip digest workdirHash mA mH uA spec existing
    (Hnd : NoDup (command_names (Commands spec)))
    (Hsome : Commands spec <> [])
    (Hdag : ValidateDAG (Commands spec) = Ok tt)
    (HuA : forall l, l <> [] -> mA l <> "" /\ uA (mA l) = Ok l)
    (Hcmd : forall c, c ∈ Commands spec -> Name c <> "" /\ GeneratedName c <> "" /\ in_int64 (Z.max (Scale c) 1) /\
       c_Labels c !! LabelAfter = None /\ forall a, a ∈ After c -> AfterSpec_Validate a = Ok tt)
    (Hset : settled digest workdirHash mA mH spec existing)
    (Hdup : NoDup existing) :
  reconstructProjectFromMeta uA (WorkDir spec) existing = Ok (Some (remembered_spec spec)).
Proof.
  set (st0 := {| rs_project := None; rs_byName := ∅; rs_order := [] |}).
  assert (Hg0 : gathered spec [] st0).
  { constructor; simpl; [done|constructor| |done]. intros n. split; [by intros ?%elem_of_nil|by intros (? & ?%elem_of_nil & _)]. }
  destruct (rebuild_loop_gathered digest workdirHash mA mH uA spec Hnd HuA Hcmd existing [] st0 Hg0)
    as (st & Hl & [Gp Go Gn Gc]); [apply Hset|]. simpl in *.
  unfold reconstructProjectFromMeta. fold st0. rewrite Hl. cbn [result_bind].
  assert (Hby : forall c, c ∈ Commands spec -> rs_byName st !! Name c = Some (remembered c) /\ Name c ∈ rs_order st).
  { intros c Hc. pose proof (replicas_counted digest workdirHash mA mH spec Hnd Hcmd existing c Hset Hdup Hc) as Hlen.
    rewrite (Gc c Hc). destruct (filter _ existing) as [|e es] eqn:Ef; [simpl in Hlen; lia|]. split.
    - unfold remembered. do 2 f_equal. simpl in Hlen |- *. lia.
    - apply Gn. exists e. assert (He : e ∈ filter (fun x => commandNameOf x = Name c) existing) by (rewrite Ef; left).
      by apply list_elem_of_filter in He as [? ?]. }
  assert (Horder : rs_order st ≡ₚ command_names (Commands spec)).
  { apply NoDup_Permutation; [done..|]. intros n. split.
    - intros (e & He & <-)%Gn. destruct (set_only _ _ _ _ _ _ Hset e He) as (c & i & Hc & Hi & Hr).
      destruct (Hcmd c Hc) as (_ & _ & Hs & _).
      destruct (replica_of_read _ _ _ _ _ _ _ _ Hi Hs Hr) as ([= -> _] & _). apply list_elem_of_fmap. eauto.
    - intros (c & -> & Hc)%list_elem_of_fmap. by apply Hby. }
  assert (Hom : omap (fun n => rs_byName st !! n) (rs_order st) ≡ₚ map remembered (Commands spec)).
  { rewrite Horder. unfold command_names. clear -Hby. induction (Commands spec) as [|c l IH]; [done|]. simpl.
    destruct (Hby c) as [-> _]; [left|]. constructor. apply IH. intros; apply Hby; by right. }
  assert (Hne : existing <> []).
  { intros ->. destruct (Commands spec) as [|c l]; [done|]. destruct (Hby c) as [_ Hin]; [left|].
    apply Gn in Hin as (e & He & _). by apply elem_of_nil in He. }
  destruct (rs_order st) as [|n o] eqn:Eo.
  { symmetry in Horder. by apply Permutation_nil_r, map_eq_nil in Horder. }
  rewrite <- (sort_by_unique Name (map remembered (Commands spec))); [| |done].
  - cbv zeta. rewrite ValidateDAG_remembered by done. simpl. rewrite Gp. by destruct existing.
  - rewrite <- list_fmap_compose. exact Hnd.
Qed.

(** An encoding of the after label, to have one at hand. *)
#[export] Instance AfterSpec_countable : Countable AfterSpec.
Proof.
  refine (inj_countable' (fun a => (after_Name a, Condition a)) (fun p => MkAfter p.1 p.2) _). by intros [].
Defined.

Definition demo_marshal (l : list AfterSpec) : string := pretty (N.pos (encode l)).
Definition demo_unmarshal (s : string) : result string (list AfterSpec) :=
  match parseUnsigned s ≫= (fun z => decode (Z.to_pos z)) with
  | Some l => Ok l
  | None => Prelude.Err "invalid"
  end.

Lemma demo_unmarshal_marshal l : demo_marshal l <> "" /\ demo_unmarshal (demo_marshal l) = Ok l.
Proof.
  unfold demo_marshal, demo_unmarshal. split.
  - destruct (pretty_N_cons (N.pos (encode l))) as (c & s & -> & _). done.
  - rewrite parseUnsigned_pretty. simpl. by rewrite decode_encode.
Qed.

Lemma reconstruct_roundtrip_witness :
  let spec := mkSpec witness_cmds in
  let existing := stored_replicas "sha256:0" (fun s => s) demo_marshal (fun _ => "h") spec in
  length existing = 4 /\
  reconstructProjectFromMeta demo_unmarshal (WorkDir spec) existing = Ok (Some (remembered_spec spec)).
Proof.
  intros spec existing. split; [reflexivity|].
  assert (Hs : Forall (fun c => Name c <> "" /\ GeneratedName c <> "" /\ in_int64 (Z.max (Scale c) 1) /\
    c_Labels c !! LabelAfter = None /\ Forall (fun a => is_ok (AfterSpec_Validate a) = true) (After c)) (Commands spec)).
  { apply (bool_decide_unpack _). vm_compute. exact I. }
  rewrite Forall_forall in Hs.
  apply (reconstruct_roundtrip demo_digest (fun s => s) demo_marshal (fun _ => "h") demo_unmarshal spec existing witness_cmds_NoDup).
  - discriminate.
  - vm_compute. reflexivity.
  - intros l _. apply demo_unmarshal_marshal.
  - intros c Hc. destruct (Hs c Hc) as (H1 & H2 & H3 & H4 & H5). rewrite Forall_forall in H5.
    split_and!; try assumption. intros a Ha. apply ok_tt_iff. by apply H5.
  - apply stored_replicas_settled; [exact witness_cmds_NoDup|intros c _; reflexivity|intros c Hc; by apply Hs].
  - apply (NoDup_fmap_1 entry_Name). change (NoDup ["web-1"; "web-2"; "migrate-1"; "db-1"]).
    apply (bool_decide_unpack _). vm_compute. exact I.
Defined.
