(* ===== verification/Config.v ===== *)
(** * Configuration

    [cmdman/config]: the layers of the process configuration, the paths derived from it,
    and the environment handed to commands, hooks and stop commands.  The process
    environment, the file system and the decoders are arguments. *)

From S2P Require Import Prelude GoStr Model ComposeSpec Normalize.

(** [filepath.Join] of more than two elements. *)
Definition joinAll (elems : list string) : string :=
  match filter (fun s => s <> "") elems with
  | [] => ""
  | l => Clean (join "/" l)
  end.

(* src/cmdman/eventlog/watcher.go:13-13 WatcherKindInotify *)
Definition WatcherKindInotify : string := "inotify".
(* src/cmdman/eventlog/watcher.go:15-16 WatcherKindPoll *)
Definition WatcherKindPoll : string := "poll".

(* src/cmdman/eventlog/watcher.go:19-26 IsWatcherKind *)
Definition IsWatcherKind (s : string) : bool := bool_decide (s = WatcherKindInotify) || bool_decide (s = WatcherKindPoll).

(* src/cmdman/config/config.go:33-37 ENV_CMDMAN_DATA_DIR *)
Definition ENV_CMDMAN_DATA_DIR : string := "CMDMAN_DATA_DIR".
(* src/cmdman/config/config.go:38-38 ENV_CMDMAN_RUNTIME_DIR *)
Definition ENV_CMDMAN_RUNTIME_DIR : string := "CMDMAN_RUNTIME_DIR".
(* src/cmdman/config/config.go:39-43 ENV_CMDMAN_CMD_DATA_DIR *)
Definition ENV_CMDMAN_CMD_DATA_DIR : string := "CMDMAN_CMD_DATA_DIR".
(* src/cmdman/config/config.go:44-44 ENV_CMDMAN_CMD_ID *)
Definition ENV_CMDMAN_CMD_ID : string := "CMDMAN_CMD_ID".
(* src/cmdman/config/config.go:45-45 ENV_CMDMAN_CMD_NAME *)
Definition ENV_CMDMAN_CMD_NAME : string := "CMDMAN_CMD_NAME".
(* src/cmdman/config/config.go:46-50 ENV_CMDMAN_CONF *)
Definition ENV_CMDMAN_CONF : string := "CMDMAN_CONF".

(* src/cmdman/config/config.go:53-90 Config *)
Record Config := {
  cf_DataDir : string;
  cf_RuntimeDir : string;
  cf_DefaultWorkingDir : string;
  cf_DefaultEnvironment : list string;
  cf_DefaultScrollbackBytes : Z;
  cf_DefaultLogDriver : string;
  cf_EventWatcherKind : string;
  cf_DefaultHooks : HookSet;
  cf_DefaultFrame : string;
  cf_ConfigPath : string;
}.

(** An absent field is [None]. *)
(* src/cmdman/config/config.go:207-234 PartialConfig *)
Record PartialConfig := {
  pc_DataDir : option string;
  pc_RuntimeDir : option string;
  pc_DefaultWorkingDir : option string;
  pc_DefaultEnvironment : option (list string);
  pc_DefaultScrollbackBytes : option Z;
  pc_DefaultLogDriver : option string;
  pc_EventWatcherKind : option string;
  pc_DefaultHooks : option HookSet;
  pc_DefaultFrame : option string;
}.

Definition no_config : PartialConfig := {|
  pc_DataDir := None; pc_RuntimeDir := None; pc_DefaultWorkingDir := None; pc_DefaultEnvironment := None;
  pc_DefaultScrollbackBytes := None; pc_DefaultLogDriver := None; pc_EventWatcherKind := None;
  pc_DefaultHooks := None; pc_DefaultFrame := None |}.

Definition over {A} (p : option A) (base : A) : A := default base p.

(* src/cmdman/config/config.go:236-275 PartialConfig.Apply *)
Definition Apply (p : PartialConfig) (base : Config) : Config := {|
  cf_DataDir := over (pc_DataDir p) (cf_DataDir base);
  cf_RuntimeDir := over (pc_RuntimeDir p) (cf_RuntimeDir base);
  cf_DefaultWorkingDir := over (pc_DefaultWorkingDir p) (cf_DefaultWorkingDir base);
  cf_DefaultEnvironment := over (pc_DefaultEnvironment p) (cf_DefaultEnvironment base);
  cf_DefaultScrollbackBytes := over (pc_DefaultScrollbackBytes p) (cf_DefaultScrollbackBytes base);
  cf_DefaultLogDriver := over (pc_DefaultLogDriver p) (cf_DefaultLogDriver base);
  cf_EventWatcherKind := over (pc_EventWatcherKind p) (cf_EventWatcherKind base);
  cf_DefaultHooks := match pc_DefaultHooks p with Some h => h ∪ cf_DefaultHooks base | None => cf_DefaultHooks base end;
  cf_DefaultFrame := over (pc_DefaultFrame p) (cf_DefaultFrame base);
  cf_ConfigPath := cf_ConfigPath base |}.

Inductive configErr :=
| ConfigWorkingDir (err : string)
| ConfigEmpty (what : string)
| ConfigScrollback (n : Z)
| ConfigLogDriver (d : string)
| ConfigWatcherKind (k : string)
| ConfigHooks (e : hookErr)
| ConfigRead (path err : string)
| ConfigParse (path err : string)
| ConfigEnv (err : string).

(* src/cmdman/config/config.go:116-147 Config.Validate *)
Definition Config_Validate (c : Config) : result configErr unit :=
  if decide (cf_DataDir c = "") then Err (ConfigEmpty "data dir")
  else if decide (cf_RuntimeDir c = "") then Err (ConfigEmpty "runtime dir")
  else if decide (cf_DefaultWorkingDir c = "") then Err (ConfigEmpty "default working dir")
  else if decide (cf_DefaultEnvironment c = []) then Err (ConfigEmpty "default environment")
  else if decide (cf_DefaultScrollbackBytes c <= 0)%Z then Err (ConfigScrollback (cf_DefaultScrollbackBytes c))
  else if negb (IsLogDriver (cf_DefaultLogDriver c)) then Err (ConfigLogDriver (cf_DefaultLogDriver c))
  else if negb (IsWatcherKind (cf_EventWatcherKind c)) then Err (ConfigWatcherKind (cf_EventWatcherKind c))
  else lift_err ConfigHooks (HookSet_Validate (cf_DefaultHooks c)).

(** ** Paths *)

(* src/cmdman/config/config.go:149-157 Config.EventLogPath *)
Definition EventLogPath (c : Config) : result configErr string :=
  if decide (cf_RuntimeDir c = "") then Err (ConfigEmpty "runtime dir") else Ok (Join (cf_RuntimeDir c) "events.log").

(* src/cmdman/config/config.go:159-165 Config.DBPath *)
Definition DBPath (c : Config) : result configErr string :=
  if decide (cf_DataDir c = "") then Err (ConfigEmpty "data dir") else Ok (Join (cf_DataDir c) "commands.db").

(* src/cmdman/config/config.go:167-176 Config.CommandDir *)
Definition Config_CommandDir (c : Config) (id : string) : result configErr string :=
  if decide (cf_DataDir c = "") then Err (ConfigEmpty "data dir")
  else if decide (id = "") then Err (ConfigEmpty "command id")
  else Ok (joinAll [cf_DataDir c; "commands"; id]).

(* src/cmdman/config/config.go:178-187 Config.MonitorRuntimeDir *)
Definition MonitorRuntimeDir (c : Config) (id : string) : result configErr string :=
  if decide (cf_RuntimeDir c = "") then Err (ConfigEmpty "runtime dir")
  else if decide (id = "") then Err (ConfigEmpty "command id")
  else Ok (joinAll [cf_RuntimeDir c; "cmd"; id]).

(* src/cmdman/config/config.go:189-196 Config.MonitorSocketPath *)
Definition MonitorSocketPath (c : Config) (id : string) : result configErr string :=
  try dir := MonitorRuntimeDir c id in Ok (Join dir "monitor.sock").

(* src/cmdman/config/config.go:198-205 Config.MonitorPIDPath *)
Definition MonitorPIDPath (c : Config) (id : string) : result configErr string :=
  try dir := MonitorRuntimeDir c id in Ok (Join dir "pid").

(** ** Loading *)

(** What [os.ReadFile] gives. *)
Inductive fileRead := FileRead (contents : string) | FileMissing | FileFailed (err : string).

Section Load.
Context (Getenv : string -> string)
        (Getwd UserConfigDir UserHomeDir : result string string)
        (Environ : list string)
        (ReadFile : string -> fileRead)
        (Unmarshal : string -> result string PartialConfig)  (* [json.Unmarshal] *)
        (ParseEnv : result string PartialConfig).            (* [env.ParseWithOptions] *)

(* src/cmdman/config/config.go:408-421 defaultDataDir *)
Definition defaultDataDir : string :=
  let dir := Getenv "XDG_DATA_HOME" in
  if decide (dir = "") then
    match UserHomeDir with
    | Err _ => ""
    | Ok home => if decide (home = "") then "" else Join (joinAll [home; ".local"; "share"]) "cmdman"
    end
  else Join dir "cmdman".

(* src/cmdman/config/config.go:423-429 defaultRuntimeDir *)
Definition defaultRuntimeDir : string :=
  let dir := Getenv "XDG_RUNTIME_DIR" in
  Join (if decide (dir = "") then "/tmp" else dir) "cmdman".

(* src/cmdman/config/config_linux.go:7-12 defaultEventWatcherKind *)
Definition defaultEventWatcherKind : string := WatcherKindInotify.

(* src/cmdman/store/config.go:10-10 DefaultScrollbackBytes *)
Definition DefaultScrollbackBytes : Z := 1048576.

(* src/cmdman/config/config.go:94-114 DefaultConfig *)
Definition DefaultConfig : result configErr Config :=
  try workingDir := lift_err ConfigWorkingDir Getwd in
  Ok {| cf_DataDir := defaultDataDir; cf_RuntimeDir := defaultRuntimeDir; cf_DefaultWorkingDir := workingDir;
        cf_DefaultEnvironment := Environ; cf_DefaultScrollbackBytes := DefaultScrollbackBytes;
        cf_DefaultLogDriver := DefaultLogDriver; cf_EventWatcherKind := defaultEventWatcherKind;
        cf_DefaultHooks := ∅; cf_DefaultFrame := ""; cf_ConfigPath := "" |}.

(* src/cmdman/config/config.go:387-406 configPath *)
Definition configPath (flagPath : string) : string :=
  if decide (flagPath = "") then
    let path := Getenv ENV_CMDMAN_CONF in
    if decide (path = "") then
      match UserConfigDir with Err _ => "" | Ok dir => joinAll [dir; "cmdman"; "config.json"] end
    else path
  else flagPath.

(* src/cmdman/config/config.go:321-341 unmarshalConfigFile *)
Definition unmarshalConfigFile (path : string) : result configErr PartialConfig :=
  if decide (path = "") then Ok no_config
  else match ReadFile path with
       | FileMissing => Ok no_config
       | FileFailed e => Err (ConfigRead path e)
       | FileRead b => lift_err (ConfigParse path) (Unmarshal b)
       end.

Definition with_path (path : string) (c : Config) : Config := {|
  cf_DataDir := cf_DataDir c; cf_RuntimeDir := cf_RuntimeDir c; cf_DefaultWorkingDir := cf_DefaultWorkingDir c;
  cf_DefaultEnvironment := cf_DefaultEnvironment c; cf_DefaultScrollbackBytes := cf_DefaultScrollbackBytes c;
  cf_DefaultLogDriver := cf_DefaultLogDriver c; cf_EventWatcherKind := cf_EventWatcherKind c;
  cf_DefaultHooks := cf_DefaultHooks c; cf_DefaultFrame := cf_DefaultFrame c; cf_ConfigPath := path |}.

(* src/cmdman/config/config.go:282-319 Load *)
Definition Load (flagPath : string) : result configErr Config :=
  try cfg := DefaultConfig in
  let cfg := with_path flagPath cfg in
  try filePartial := unmarshalConfigFile (configPath flagPath) in
  let cfg := Apply filePartial cfg in
  try envPartial := lift_err ConfigEnv ParseEnv in
  let cfg := Apply envPartial cfg in
  try _ := Config_Validate cfg in
  Ok cfg.

(* src/cmdman/config/config.go:376-385 configSubDir *)
Definition configSubDir (name : string) : string :=
  let path := configPath "" in
  if decide (path = "") then "" else Join (Dir path) name.

(* src/cmdman/config/config.go:345-360 ComposeConfigDir *)
Definition ComposeConfigDir : string := configSubDir "compose".
(* src/cmdman/config/config.go:362-374 FrameConfigDir *)
Definition FrameConfigDir : string := configSubDir "frame".
End Load.

(** ** Environments *)

(* src/cmdman/config/env.go:11-13 ENV_CMDMAN_HOOK_EVENT *)
Definition ENV_CMDMAN_HOOK_EVENT : string := "CMDMAN_HOOK_EVENT".
(* src/cmdman/config/env.go:14-16 ENV_CMDMAN_HOOK_TITLE *)
Definition ENV_CMDMAN_HOOK_TITLE : string := "CMDMAN_HOOK_TITLE".
(* src/cmdman/config/env.go:17-19 ENV_CMDMAN_HOOK_BODY *)
Definition ENV_CMDMAN_HOOK_BODY : string := "CMDMAN_HOOK_BODY".
(* src/cmdman/config/env.go:20-23 ENV_CMDMAN_MAIN_PID *)
Definition ENV_CMDMAN_MAIN_PID : string := "CMDMAN_MAIN_PID".

(* src/cmdman/config/env.go:26-33 HookEventEnv *)
Record HookEventEnv := { hee_Event : HookEvent; hee_Title : string; hee_Body : string }.

(* src/cmdman/config/env.go:112-119 hasAnyPrefix *)
Definition hasAnyPrefix (s : string) (prefixes : list string) : bool := existsb (fun p => hasPrefix p s) prefixes.

(** Strips the variables and appends them. *)
Definition with_vars (env : list string) (vars : list (string * string)) : list string :=
  filter (fun entry => hasAnyPrefix entry ((fun v => v.1 +:+ "=") <$> vars) = false) env ++
  ((fun v => v.1 +:+ "=" +:+ v.2) <$> vars).

(* src/cmdman/config/env.go:35-60 WithHookEventEnv *)
Definition WithHookEventEnv (env : list string) (ev : HookEventEnv) : list string :=
  with_vars env [(ENV_CMDMAN_HOOK_EVENT, hee_Event ev); (ENV_CMDMAN_HOOK_TITLE, hee_Title ev);
                 (ENV_CMDMAN_HOOK_BODY, hee_Body ev)].

(* src/cmdman/config/env.go:62-80 WithStopCommandEnv *)
Definition WithStopCommandEnv (env : list string) (mainPID : Z) : list string :=
  with_vars env [(ENV_CMDMAN_MAIN_PID, if decide (0 < mainPID)%Z then Itoa mainPID else "")].

(* src/cmdman/config/env.go:82-110 WithCommandContextEnv *)
Definition WithCommandContextEnv (env : list string) (cfg : Config) (id name commandDir : string) : list string :=
  with_vars env [(ENV_CMDMAN_DATA_DIR, cf_DataDir cfg); (ENV_CMDMAN_RUNTIME_DIR, cf_RuntimeDir cfg);
                 (ENV_CMDMAN_CMD_DATA_DIR, commandDir); (ENV_CMDMAN_CMD_ID, id); (ENV_CMDMAN_CMD_NAME, name)].

(** ** What a child process sees *)

(** No equals sign: the name of a variable. *)
Fixpoint var_name (s : string) : Prop :=
  match s with EmptyString => True | String c s => c <> "="%char /\ var_name s end.

(** The value that an entry gives to a variable. *)
Definition var_of (name entry : string) : option string :=
  if hasPrefix (name +:+ "=") entry then Some (trimPrefix (name +:+ "=") entry) else None.

(** The values that an environment gives to a variable, in order. *)
Definition values (name : string) (env : list string) : list string := omap (var_of name) env.

Lemma values_cons name e env : values name (e :: env) = option_list (var_of name e) ++ values name env.
Proof. unfold values. simpl. by destruct (var_of name e). Qed.

Lemma values_app name e1 e2 : values name (e1 ++ e2) = values name e1 ++ values name e2.
Proof. apply omap_app. Qed.

Lemma hasPrefix_var n1 n2 v : var_name n1 -> var_name n2 -> hasPrefix (n1 +:+ "=") (n2 +:+ "=" +:+ v) = bool_decide (n1 = n2).
Proof.
  revert n2. induction n1 as [|c n1 IH]; intros [|c2 n2]; simpl.
  - done.
  - intros _ [Hc _]. rewrite bool_decide_false by congruence. done.
  - intros [Hc _] _. rewrite bool_decide_false by congruence. done.
  - intros [Hc H1] [Hc2 H2]. rewrite IH by done. destruct (decide (c = c2)) as [->|Hne].
    + rewrite bool_decide_true by done. apply bool_decide_ext. split; [by intros ->|by intros [= ->]].
    + rewrite (bool_decide_false (c = c2)) by done. symmetry. apply bool_decide_false. congruence.
Qed.

Lemma values_vars name vars :
  var_name name -> Forall (fun v => var_name v.1) vars ->
  values name ((fun v => v.1 +:+ "=" +:+ v.2) <$> vars) = (filter (fun v => v.1 = name) vars).*2.
Proof.
  intros Hn. induction vars as [|[n v] vars IH]; intros Hall; [done|]. apply Forall_cons in Hall as [Hv Hall].
  rewrite fmap_cons, filter_cons, values_cons, IH by done. unfold var_of. cbn [fst snd]. rewrite hasPrefix_var by done.
  destruct (decide (n = name)) as [->|Hne]; [|by rewrite bool_decide_false by congruence].
  rewrite bool_decide_true by done. replace (name +:+ "=" +:+ v) with ((name +:+ "=") +:+ v).
  - by rewrite trimPrefix_app.
  - clear. induction name as [|c name IH]; simpl; [done|by rewrite IH].
Qed.

(** An entry is of one variable. *)
Lemma prefix_var n1 n2 e :
  var_name n1 -> var_name n2 -> hasPrefix (n1 +:+ "=") e = true -> hasPrefix (n2 +:+ "=") e = true -> n1 = n2.
Proof.
  revert n1 n2. induction e as [|c e IH]; intros [|c1 n1] [|c2 n2]; simpl; try done.
  - intros _ [Hc _] [H1%bool_decide_eq_true _]%andb_true_iff [H2%bool_decide_eq_true _]%andb_true_iff. congruence.
  - intros [Hc _] _ [H1%bool_decide_eq_true _]%andb_true_iff [H2%bool_decide_eq_true _]%andb_true_iff. congruence.
  - intros [_ H1] [_ H2] [->%bool_decide_eq_true He1]%andb_true_iff [->%bool_decide_eq_true He2]%andb_true_iff.
    f_equal. by apply IH.
Qed.

(** Stripping takes the entries of the variables, and only those. *)
Lemma values_stripped name env (names : list string) :
  var_name name -> Forall var_name names ->
  values name (filter (fun entry => hasAnyPrefix entry ((fun n => n +:+ "=") <$> names) = false) env) =
  if decide (name ∈ names) then [] else values name env.
Proof.
  intros Hn Hns. induction env as [|e env IH]; [by case_decide|]. rewrite filter_cons, values_cons.
  destruct (decide (hasAnyPrefix e _ = false)) as [Hp|Hp]; rewrite ?values_cons, IH.
  - case_decide as Hin; [|done]. unfold var_of. destruct (hasPrefix (name +:+ "=") e) eqn:He; [|done]. exfalso.
    assert (H : hasAnyPrefix e ((fun n => n +:+ "=") <$> names) = true); [|congruence].
    apply existsb_exists. exists (name +:+ "="). split; [|done]. apply list_elem_of_In. by apply (list_elem_of_fmap_2 (fun n => n +:+ "=")).
  - case_decide as Hin; [done|]. unfold var_of. destruct (hasPrefix (name +:+ "=") e) eqn:He; [|done]. exfalso.
    apply Hin. apply not_false_is_true, existsb_exists in Hp as (p & Hpin & Hp).
    apply list_elem_of_In, list_elem_of_fmap in Hpin as (n & -> & Hnin).
    rewrite Forall_forall in Hns. rewrite (prefix_var name n e); auto.
Qed.

Lemma values_with_vars name env vars :
  var_name name -> Forall (fun v => var_name v.1) vars ->
  values name (with_vars env vars) =
  if decide (name ∈ vars.*1) then (filter (fun v => v.1 = name) vars).*2 else values name env.
Proof.
  intros Hn Hv. unfold with_vars. rewrite values_app, values_vars by done.
  replace ((fun v => v.1 +:+ "=") <$> vars) with ((fun n => n +:+ "=") <$> vars.*1) by (by rewrite <- list_fmap_compose).
  rewrite values_stripped by (done || by apply Forall_fmap).
  case_decide as Hin; [done|]. rewrite list_filter_none; [by rewrite app_nil_r|].
  intros [n v] Hvin Heq. apply Hin. simpl in Heq. subst n. apply list_elem_of_fmap. by exists (name, v).
Qed.

(** The variables of a command's context. *)
Definition context_vars (cfg : Config) (id name dir : string) : list (string * string) :=
  [(ENV_CMDMAN_DATA_DIR, cf_DataDir cfg); (ENV_CMDMAN_RUNTIME_DIR, cf_RuntimeDir cfg);
   (ENV_CMDMAN_CMD_DATA_DIR, dir); (ENV_CMDMAN_CMD_ID, id); (ENV_CMDMAN_CMD_NAME, name)].

(** Those of a hook. *)
Definition hook_vars (ev : HookEventEnv) : list (string * string) :=
  [(ENV_CMDMAN_HOOK_EVENT, hee_Event ev); (ENV_CMDMAN_HOOK_TITLE, hee_Title ev); (ENV_CMDMAN_HOOK_BODY, hee_Body ev)].

Ltac names_ok := repeat constructor; vm_compute; discriminate.

(** A hook's environment, whatever the command's own environment says of them, gives
    each variable of the command's context and each of the event exactly one value, the
    one of this command and this event; every other variable has the values it had. *)
Theorem hook_env_exact env cfg id name dir ev v :
  var_name v ->
  values v (WithHookEventEnv (WithCommandContextEnv env cfg id name dir) ev) =
  match list_to_map (M := gmap string string) (context_vars cfg id name dir ++ hook_vars ev) !! v with
  | Some value => [value]
  | None => values v env
  end.
Proof.
  intros Hv. unfold WithHookEventEnv, WithCommandContextEnv. rewrite !values_with_vars by (done || names_ok).
  fold (context_vars cfg id name dir) (hook_vars ev).
  assert (Hnd : NoDup (context_vars cfg id name dir ++ hook_vars ev).*1) by (apply (bool_decide_unpack _); vm_compute; exact I).
  destruct (list_to_map _ !! v) as [value|] eqn:Hl.
  - apply elem_of_list_to_map in Hl; [|done].
    repeat (apply elem_of_cons in Hl as [[= -> ->]|Hl]; [vm_compute; reflexivity|]). by apply elem_of_nil in Hl.
  - apply not_elem_of_list_to_map in Hl. rewrite fmap_app, elem_of_app in Hl. by rewrite !decide_False by tauto.
Qed.

Lemma hook_env_exact_witness :
  values "CMDMAN_CMD_ID" (WithHookEventEnv (WithCommandContextEnv ["CMDMAN_CMD_ID=outer"; "HOME=/h"]
    {| cf_DataDir := "/d"; cf_RuntimeDir := "/r"; cf_DefaultWorkingDir := "/"; cf_DefaultEnvironment := [];
       cf_DefaultScrollbackBytes := 1; cf_DefaultLogDriver := ""; cf_EventWatcherKind := ""; cf_DefaultHooks := ∅;
       cf_DefaultFrame := ""; cf_ConfigPath := "" |} "7" "web" "/d/commands/7")
    {| hee_Event := "bell"; hee_Title := ""; hee_Body := "" |}) = ["7"].
Proof. rewrite hook_env_exact; [vm_compute; reflexivity|names_ok]. Defined.

(** ** Layers *)

(** One partial configuration over another. *)
Definition overlay (top bottom : PartialConfig) : PartialConfig := {|
  pc_DataDir := union (pc_DataDir top) (pc_DataDir bottom);
  pc_RuntimeDir := union (pc_RuntimeDir top) (pc_RuntimeDir bottom);
  pc_DefaultWorkingDir := union (pc_DefaultWorkingDir top) (pc_DefaultWorkingDir bottom);
  pc_DefaultEnvironment := union (pc_DefaultEnvironment top) (pc_DefaultEnvironment bottom);
  pc_DefaultScrollbackBytes := union (pc_DefaultScrollbackBytes top) (pc_DefaultScrollbackBytes bottom);
  pc_DefaultLogDriver := union (pc_DefaultLogDriver top) (pc_DefaultLogDriver bottom);
  pc_EventWatcherKind := union (pc_EventWatcherKind top) (pc_EventWatcherKind bottom);
  pc_DefaultHooks := match pc_DefaultHooks top, pc_DefaultHooks bottom with
                     | Some a, Some b => Some (a ∪ b) | Some a, None => Some a | None, b => b end;
  pc_DefaultFrame := union (pc_DefaultFrame top) (pc_DefaultFrame bottom) |}.

Lemma over_union {A} (p q : option A) b : over p (over q b) = over (union p q) b.
Proof. by destruct p, q. Qed.

(** Applying two layers is applying the one over the other. *)
Theorem Apply_overlay top bottom base : Apply top (Apply bottom base) = Apply (overlay top bottom) base.
Proof.
  unfold Apply. simpl. rewrite !over_union. f_equal.
  destruct (pc_DefaultHooks top), (pc_DefaultHooks bottom); try done. apply map_union_assoc.
Qed.

(** What [Load] returns: the environment over the file over the defaults, valid, with the
    path it was given. *)
Theorem Load_layers Getenv Getwd UserConfigDir UserHomeDir Environ ReadFile Unmarshal ParseEnv flagPath c :
  Load Getenv Getwd UserConfigDir UserHomeDir Environ ReadFile Unmarshal ParseEnv flagPath = Ok c <->
  exists defaults file env,
    DefaultConfig Getenv Getwd UserHomeDir Environ = Ok defaults /\
    unmarshalConfigFile ReadFile Unmarshal (configPath Getenv UserConfigDir flagPath) = Ok file /\
    ParseEnv = Ok env /\ c = Apply (overlay env file) (with_path flagPath defaults) /\ Config_Validate c = Ok tt.
Proof.
  unfold Load. destruct (DefaultConfig _ _ _ _) as [d|]; [|split; [done|naive_solver]].
  destruct (unmarshalConfigFile _ _ _) as [f|]; [|split; [done|naive_solver]].
  destruct ParseEnv as [p|]; [|split; [done|naive_solver]]. cbn [result_bind lift_err]. rewrite Apply_overlay. split.
  - intros ([] & Hv & [= <-])%result_bind_ok. by exists d, f, p.
  - intros (d' & f' & p' & [= <-] & [= <-] & [= <-] & -> & Hv). by rewrite Hv.
Qed.
