(* ===== verification/Paths.v ===== *)
(** * Cleaning and joining paths

    What [filepath.Clean] and [filepath.Join] of [Normalize.v] satisfy: a path is its
    list of elements, cleaning is idempotent, and joining step by step is joining at once. *)

From S2P Require Import Prelude GoStr LogDriver Model ComposeSpec Normalize Config.

(** ** Elements *)

Fixpoint no_slash (s : string) : Prop :=
  match s with EmptyString => True | String c s => c <> "/"%char /\ no_slash s end.

Lemma no_slash_app a b : no_slash (a +:+ b) <-> no_slash a /\ no_slash b.
Proof. induction a as [|x a IH]; simpl; tauto. Qed.

Lemma split_no_slash cur s : no_slash cur -> Forall no_slash (split_slash cur s).
Proof.
  revert cur. induction s as [|c s IH]; intros cur Hcur; simpl; [by constructor|]. case_decide.
  - constructor; [done|]. by apply IH.
  - apply IH. by rewrite no_slash_app.
Qed.

Lemma split_one cur s : no_slash s -> split_slash cur s = [cur +:+ s].
Proof.
  revert cur. induction s as [|c s IH]; intros cur; simpl; [by rewrite string_app_nil_r|].
  intros [Hc Hs]. rewrite decide_False, IH by done. by rewrite <- string_app_assoc.
Qed.

Lemma split_app cur a b : split_slash cur (a +:+ "/" +:+ b) = split_slash cur a ++ split_slash "" b.
Proof.
  revert cur. induction a as [|c a IH]; intros cur; simpl; [done|]. case_decide; simpl in IH; by rewrite IH.
Qed.

Lemma split_join l : Forall no_slash l -> l <> [] -> split_slash "" (join "/" l) = l.
Proof.
  induction l as [|x l IH]; [done|]. intros [Hx Hl]%Forall_cons _. destruct l as [|y l]; [by apply split_one|].
  change (join "/" (x :: y :: l)) with (x +:+ "/" +:+ join "/" (y :: l)).
  by rewrite split_app, IH, split_one by done.
Qed.

(** ** Stacks of elements *)

(** Innermost first: no empty or dot element, and dots-dots only where they must be. *)
Fixpoint wf (rooted : bool) (kept : list string) : Prop :=
  match kept with
  | [] => True
  | top :: rest => no_slash top /\ top <> "" /\ top <> "." /\ wf rooted rest /\
                   (top = ".." -> rooted = false /\ match rest with [] => True | t :: _ => t = ".." end)
  end.

Lemma clean_step_wf rooted kept elem : no_slash elem -> wf rooted kept -> wf rooted (clean_step rooted kept elem).
Proof.
  intros He Hk. unfold clean_step. destruct (decide (elem = "" \/ elem = ".")) as [?|Hne]; [done|].
  destruct (decide (elem = "..")) as [->|Hd].
  - destruct kept as [|top rest]; [destruct rooted; [done|]|].
    + simpl. naive_solver.
    + destruct (decide (top = "..")) as [->|Ht]; [|by simpl in Hk; tauto].
      split; [done|]. split; [done|]. split; [done|]. split; [exact Hk|]. intros _. split; [|done]. by apply Hk.
  - simpl. tauto.
Qed.

Lemma clean_fold_wf rooted l kept : Forall no_slash l -> wf rooted kept -> wf rooted (foldl (clean_step rooted) kept l).
Proof.
  revert kept. induction l as [|x l IH]; intros kept; simpl; [done|]. intros [Hx Hl]%Forall_cons Hk. apply IH; [done|].
  by apply clean_step_wf.
Qed.

(** A stack is what its elements make. *)
Lemma clean_fold_rev rooted kept : wf rooted kept -> foldl (clean_step rooted) [] (rev kept) = kept.
Proof.
  induction kept as [|top rest IH]; [done|]. simpl. intros (_ & Hne & Hnd & Hr & Hdots). rewrite foldl_app, IH by done. simpl.
  unfold clean_step. rewrite decide_False by tauto. destruct (decide (top = "..")) as [->|Ht]; [|done].
  destruct (Hdots eq_refl) as [-> Hm]. destruct rest as [|t rest]; [done|]. by rewrite decide_True.
Qed.

(** ** Cleaning *)

Definition stack (p : string) : list string := foldl (clean_step (isAbs p)) [] (split_slash "" p).

Lemma stack_wf p : wf (isAbs p) (stack p).
Proof. apply clean_fold_wf; [by apply split_no_slash|done]. Qed.

(** A path of given elements. *)
Definition path_of (rooted : bool) (kept : list string) : string :=
  let body := join "/" (rev kept) in
  if rooted then "/" +:+ body else if decide (body = "") then "." else body.

Lemma Clean_path p : p <> "" -> Clean p = path_of (isAbs p) (stack p).
Proof. intros Hp. unfold Clean. by rewrite decide_False. Qed.

Lemma wf_no_slash rooted kept : wf rooted kept -> Forall no_slash (rev kept).
Proof.
  intros Hw. apply Forall_rev. induction kept as [|t k IH]; constructor; simpl in Hw; [tauto|]. apply IH. tauto.
Qed.

Lemma join_not_abs l : Forall no_slash l -> Forall (fun s => s <> "") l -> l <> [] -> join "/" l <> "" /\ isAbs (join "/" l) = false.
Proof.
  destruct l as [|x l]; [done|]. intros [Hx _]%Forall_cons [Hne _]%Forall_cons _.
  destruct x as [|c x]; [done|]. assert (Hc : c <> "/"%char) by (by destruct Hx).
  assert (He : forall s, isAbs (String c s) = false) by (intros s; unfold isAbs; simpl; by rewrite bool_decide_false).
  destruct l; simpl; (split; [done|apply He]).
Qed.

Lemma wf_nonempty rooted kept : wf rooted kept -> Forall (fun s => s <> "") (rev kept).
Proof.
  intros Hw. apply Forall_rev. induction kept as [|t k IH]; constructor; simpl in Hw; [tauto|]. apply IH. tauto.
Qed.

(** Cleaning keeps the elements. *)
Lemma path_of_stack rooted kept :
  wf rooted kept -> path_of rooted kept <> "" /\ isAbs (path_of rooted kept) = rooted /\ stack (path_of rooted kept) = kept.
Proof.
  intros Hw. pose proof (wf_no_slash _ _ Hw) as Hs. pose proof (wf_nonempty _ _ Hw) as Hne.
  assert (Hj : rev kept <> [] -> join "/" (rev kept) <> "" /\ isAbs (join "/" (rev kept)) = false) by (by apply join_not_abs).
  unfold path_of, stack. destruct rooted.
  - split; [done|]. split; [done|]. change ("/" +:+ join "/" (rev kept)) with ("" +:+ "/" +:+ join "/" (rev kept)).
    rewrite split_app. simpl. unfold clean_step at 2. rewrite decide_True by (by left).
    destruct kept as [|t k]; [done|]. rewrite split_join; [by apply clean_fold_rev|done|]. by intros []%app_eq_nil.
  - destruct kept as [|t k]; [done|]. destruct Hj as [H1 H2]; [by intros []%app_eq_nil|].
    rewrite decide_False by done. split; [done|]. split; [done|]. rewrite H2, split_join; [by apply clean_fold_rev|done|].
    by intros []%app_eq_nil.
Qed.

Lemma Clean_stack p : p <> "" -> Clean p <> "" /\ isAbs (Clean p) = isAbs p /\ stack (Clean p) = stack p.
Proof. intros Hp. rewrite Clean_path by done. apply path_of_stack, stack_wf. Qed.

Lemma Clean_idempotent p : Clean (Clean p) = Clean p.
Proof.
  destruct (decide (p = "")) as [->|Hp]; [done|]. destruct (Clean_stack p Hp) as (Hne & Ha & Hs).
  rewrite (Clean_path (Clean p)), Ha, Hs, <- Clean_path by done. done.
Qed.

(** A cleaned absolute path has no element that leads up or nowhere. *)
Lemma Clean_rooted p : isAbs p = true -> Clean p = "/" +:+ join "/" (rev (stack p)) /\
  Forall (fun e => no_slash e /\ e <> "" /\ e <> "." /\ e <> "..") (stack p).
Proof.
  intros Ha. assert (Hp : p <> "") by (by intros ->). split; [rewrite Clean_path, Ha by done; done|].
  pose proof (stack_wf p) as Hw. rewrite Ha in Hw. induction (stack p) as [|t k IH]; constructor; simpl in Hw; [|tauto].
  split_and!; try tauto. intros ->. by destruct Hw as (_ & _ & _ & _ & []).
Qed.

(** ** Joining *)

Lemma isAbs_app a b : a <> "" -> isAbs (a +:+ b) = isAbs a.
Proof. by destruct a. Qed.

Lemma stack_app a b : a <> "" -> stack (a +:+ "/" +:+ b) = foldl (clean_step (isAbs a)) (stack a) (split_slash "" b).
Proof. intros Ha. unfold stack. by rewrite isAbs_app, split_app, foldl_app. Qed.

Lemma Join_path a b : a <> "" -> b <> "" -> Join a b = Clean (a +:+ "/" +:+ b).
Proof. intros Ha Hb. unfold Join. rewrite !filter_cons_True by done. done. Qed.

Lemma joinAll_path a b c : a <> "" -> b <> "" -> c <> "" -> joinAll [a; b; c] = Clean (a +:+ "/" +:+ b +:+ "/" +:+ c).
Proof. intros Ha Hb Hc. unfold joinAll. rewrite !filter_cons_True by done. done. Qed.

(** Joining step by step is joining at once. *)
Lemma Join_joinAll a b c : a <> "" -> b <> "" -> c <> "" -> Join (Join a b) c = joinAll [a; b; c].
Proof.
  intros Ha Hb Hc. rewrite joinAll_path, (Join_path a b) by done.
  set (p := a +:+ "/" +:+ b). assert (Hp : p <> "") by (unfold p; by destruct a).
  destruct (Clean_stack p Hp) as (Hne & Habs & Hs). rewrite Join_path by done.
  replace (a +:+ "/" +:+ b +:+ "/" +:+ c) with (p +:+ "/" +:+ c) by (unfold p; by rewrite <- !string_app_assoc).
  assert (Happ : forall x y : string, x <> "" -> x +:+ y <> "") by (by intros [] ?).
  rewrite (Clean_path (Clean p +:+ _)), (Clean_path (p +:+ _)) by auto.
  by rewrite !isAbs_app, Habs, !stack_app, Habs, Hs by done.
Qed.

(** Joining an element that is a mere name adds it. *)
Lemma Join_name a b : isAbs a = true -> no_slash b -> b <> "" -> b <> "." -> b <> ".." -> stack (Join a b) = b :: stack a.
Proof.
  intros Ha Hs Hb Hb1 Hb2. assert (Hne : a <> "") by (by intros ->). rewrite Join_path by done.
  destruct (Clean_stack (a +:+ "/" +:+ b)) as (_ & _ & ->); [by destruct a|]. rewrite stack_app, Ha, split_one by done.
  simpl. unfold clean_step. rewrite !decide_False by tauto. done.
Qed.
