(* ===== verification/Canonical.v ===== *)
(** * The canonical form of a compose file

    [cmdman/compose/canonical.go]: a normalized spec as a compose file again, and that
    normalizing this file gives the spec back. *)

From S2P Require Import Prelude GoStr LogDriver Model MuxCtl Mux ComposeSpec Naming Lifecycle Graph Normalize Config Paths.

(* src/cmdman/compose/canonical.go:78-83 CanonicalLifecycleExec *)
Record CanonicalLifecycleExec := { cx_Args : list string; cx_OnError : string }.

(* src/cmdman/compose/canonical.go:63-76 CanonicalLifecycleHook *)
Record CanonicalLifecycleHook := {
  ch_Name : string;
  ch_Resource : string;
  ch_CreatePre : option CanonicalLifecycleExec;
  ch_CreatePost : option CanonicalLifecycleExec;
  ch_StartPre : option CanonicalLifecycleExec;
  ch_StartPost : option CanonicalLifecycleExec;
  ch_StopPre : option CanonicalLifecycleExec;
  ch_StopPost : option CanonicalLifecycleExec;
  ch_RemovePre : option CanonicalLifecycleExec;
  ch_RemovePost : option CanonicalLifecycleExec;
}.

(* src/cmdman/compose/canonical.go:85-89 CanonicalAfter *)
Record CanonicalAfter := { ca_Condition : string }.

(* src/cmdman/compose/canonical.go:33-61 CanonicalCommand *)
Record CanonicalCommand := {
  cn_Dir : string;
  cn_Args : list string;
  cn_Env : list string;
  cn_ImportHostEnv : option bool;
  cn_InjectEnv : option bool;
  cn_Labels : gmap string string;
  cn_RestartPolicy : string;
  cn_StopSignal : string;
  cn_StopGracePeriod : string;
  cn_Stop : list string;
  cn_Tty : bool;
  cn_ScrollbackBytes : Z;
  cn_LogDriver : string;
  cn_LogOpts : gmap string string;
  cn_After : gmap string CanonicalAfter;
  cn_Scale : Z;
  cn_Hooks : list CanonicalLifecycleHook;
}.

(* src/cmdman/compose/canonical.go:11-30 CanonicalSpec *)
Record CanonicalSpec := {
  cs_Name : string;
  cs_WorkDir : string;
  cs_Commands : gmap string CanonicalCommand;
  cs_Mux : option Spec;
}.

(* src/cmdman/compose/canonical.go:178-186 canonicalScale *)
Definition canonicalScale (scale : Z) : Z := if decide (scale <= 1)%Z then 0 else scale.

(* src/cmdman/compose/canonical.go:197-209 canonicalRestartPolicy *)
Definition canonicalRestartPolicy (policy : RestartPolicy) (maxRetries : Z) : string :=
  if decide (policy = "") then ""
  else if bool_decide (policy = RestartPolicyOnFailure) && bool_decide (0 < maxRetries)%Z
  then policy +:+ ":" +:+ Itoa maxRetries
  else policy.

(* src/cmdman/compose/canonical.go:155-161 canonicalLifecycleHooks *)
Definition canonical_event (h : LifecycleHook) (ev : LifecycleEvent) : option CanonicalLifecycleExec :=
  match Events h !! ev with
  | None => None
  | Some e => Some {| cx_Args := exec_Args e; cx_OnError := resolved (exec_OnError e) |}
  end.

(* src/cmdman/compose/canonical.go:149-176 canonicalLifecycleHooks *)
Definition canonicalLifecycleHooks (hooks : list LifecycleHook) : list CanonicalLifecycleHook :=
  map (fun h => {|
    ch_Name := hook_Name h; ch_Resource := Resource h;
    ch_CreatePre := canonical_event h LifecycleCreatePre; ch_CreatePost := canonical_event h LifecycleCreatePost;
    ch_StartPre := canonical_event h LifecycleStartPre; ch_StartPost := canonical_event h LifecycleStartPost;
    ch_StopPre := canonical_event h LifecycleStopPre; ch_StopPost := canonical_event h LifecycleStopPost;
    ch_RemovePre := canonical_event h LifecycleRemovePre; ch_RemovePost := canonical_event h LifecycleRemovePost |}) hooks.

(** A Go loop that fills a map: a later entry for a key wins. *)
Definition fill {A} (l : list (string * A)) (m : gmap string A) : gmap string A := foldl (fun m kv => <[kv.1 := kv.2]> m) m l.

Section Canonical.
(** [time.Duration.String]. *)
Context (DurationString : Duration -> string).

(* src/cmdman/compose/canonical.go:188-195 canonicalStopGracePeriod *)
Definition canonicalStopGracePeriod (d : Duration) : string := if decide (d <= 0)%Z then "" else DurationString d.

(* src/cmdman/compose/canonical.go:106-147 canonicalCommand *)
Definition canonicalCommand (c : Command) : CanonicalCommand := {|
  cn_Dir := c_Dir c;
  cn_Args := Args c;
  cn_Env := Env c;
  cn_ImportHostEnv := if ImportHostEnv c then None else Some false;
  cn_InjectEnv := if InjectEnv c then None else Some false;
  cn_Labels := c_Labels c;
  cn_RestartPolicy := canonicalRestartPolicy (c_RestartPolicy c) (MaxRetries c);
  cn_StopSignal := StopSignal c;
  cn_StopGracePeriod := canonicalStopGracePeriod (StopGracePeriod c);
  cn_Stop := Stop c;
  cn_Tty := Tty c;
  cn_ScrollbackBytes := ScrollbackBytes c;
  cn_LogDriver := c_LogDriver c;
  cn_LogOpts := LogOpts c;
  cn_After := fill (map (fun a => (after_Name a, {| ca_Condition := Condition a |})) (After c)) ∅;
  cn_Scale := canonicalScale (Scale c);
  cn_Hooks := canonicalLifecycleHooks (Hooks c) |}.

(* src/cmdman/compose/canonical.go:91-104 Canonicalize *)
Definition Canonicalize (spec : ComposeSpec) : CanonicalSpec := {|
  cs_Name := Project spec;
  cs_WorkDir := WorkDir spec;
  cs_Commands := fill (map (fun c => (Name c, canonicalCommand c)) (Commands spec)) ∅;
  cs_Mux := spec_Mux spec |}.
End Canonical.

(** ** The document read as a compose file

    The fields have the names of those of [RawComposeSpec], so that the codec gives each
    its value back; one that was left out, for its zero value, is read as absent. *)

Definition reread_exec (e : CanonicalLifecycleExec) : RawLifecycleExec := {| rx_Args := cx_Args e; rx_OnError := cx_OnError e |}.

Definition reread_hook (h : CanonicalLifecycleHook) : RawLifecycleHook := {|
  rh_Name := ch_Name h; rh_Resource := ch_Resource h;
  CreatePre := reread_exec <$> ch_CreatePre h; CreatePost := reread_exec <$> ch_CreatePost h;
  StartPre := reread_exec <$> ch_StartPre h; StartPost := reread_exec <$> ch_StartPost h;
  StopPre := reread_exec <$> ch_StopPre h; StopPost := reread_exec <$> ch_StopPost h;
  RemovePre := reread_exec <$> ch_RemovePre h; RemovePost := reread_exec <$> ch_RemovePost h |}.

Definition reread_command (c : CanonicalCommand) : RawCommand := {|
  rc_Dir := cn_Dir c; rc_Args := cn_Args c; rc_Env := cn_Env c; rc_EnvFile := [];
  rc_ImportHostEnv := cn_ImportHostEnv c; rc_InjectEnv := cn_InjectEnv c; rc_Labels := cn_Labels c;
  rc_RestartPolicy := cn_RestartPolicy c; rc_StopSignal := cn_StopSignal c; rc_StopGracePeriod := cn_StopGracePeriod c;
  rc_Stop := if decide (cn_Stop c = []) then None else Some {| rs_Args := cn_Stop c |};
  rc_Tty := cn_Tty c; rc_ScrollbackBytes := cn_ScrollbackBytes c; rc_LogDriver := cn_LogDriver c; rc_LogOpts := cn_LogOpts c;
  rc_After := (fun a => MkAfter "" (ca_Condition a)) <$> cn_After c;
  rc_Scale := if decide (cn_Scale c = 0)%Z then None else Some (cn_Scale c);
  rc_Hooks := map reread_hook (cn_Hooks c) |}.

Definition reread (s : CanonicalSpec) : RawComposeSpec := {|
  raw_Name := cs_Name s; raw_WorkDir := cs_WorkDir s; raw_Env := []; raw_EnvFile := [];
  raw_Commands := reread_command <$> cs_Commands s; raw_Mux := cs_Mux s |}.

(** ** Maps and strings *)

Definition lacks (sep : ascii) (s : string) : bool := string_forallb (fun c => negb (bool_decide (c = sep))) s.

Lemma cut_lacks sep s k v b : cut sep s = (k, v, b) -> lacks sep k = true.
Proof.
  revert k v b. induction s as [|c s IH]; intros k v b; simpl; [by intros [= <- _ _]|].
  case_decide as Hc; [by intros [= <- _ _]|]. destruct (cut sep s) as [[k' v'] b'] eqn:E. intros [= <- _ _].
  cbn [lacks string_forallb]. rewrite bool_decide_false by done. by eapply IH.
Qed.

Lemma fill_list {A} (l : list (string * A)) m : NoDup l.*1 -> fill l m = list_to_map l ∪ m.
Proof.
  unfold fill. revert m. induction l as [|[k v] l IH]; intros m; cbn; [by rewrite map_empty_union|].
  intros [Hk Hnd]%NoDup_cons. rewrite (IH _ Hnd), <- insert_union_l. symmetry. apply insert_union_r.
  by apply not_elem_of_list_to_map_1.
Qed.

Lemma fill_lookup {A} (l : list (string * A)) k v : NoDup l.*1 -> fill l ∅ !! k = Some v <-> (k, v) ∈ l.
Proof. intros Hnd. rewrite fill_list, map_union_empty by done. symmetry. by apply elem_of_list_to_map. Qed.

Lemma sorted_items_fill {A} (l : list (string * A)) : StronglySorted string_le l.*1 -> NoDup l.*1 -> sorted_items (fill l ∅) = l.
Proof.
  intros Hs Hnd. assert (Hk : sorted_keys (fill l ∅) = l.*1).
  { apply (StronglySorted_unique string_le); [apply sort_strings_sorted|done|].
    apply NoDup_Permutation; [apply NoDup_sorted_keys|done|]. intros k. rewrite elem_of_sorted_keys, list_elem_of_fmap. split.
    - intros [v Hv%fill_lookup]; [|done]. by exists (k, v).
    - intros ([k' v] & -> & Hin). exists v. by apply fill_lookup. }
  unfold sorted_items. rewrite Hk. assert (Hl : forall k v, (k, v) ∈ l -> fill l ∅ !! k = Some v) by (intros k v; by apply fill_lookup).
  revert Hl. generalize (fill l ∅) as m. clear Hs Hnd Hk. induction l as [|[k v] l IH]; intros m Hl; [done|].
  cbn. rewrite (Hl k v) by left. cbn. f_equal. apply IH. intros k' v' H. apply Hl. by right.
Qed.

Lemma fill_sorted_items {A} (m : gmap string A) : fill (sorted_items m) ∅ = m.
Proof.
  assert (Hnd : NoDup (sorted_items m).*1) by (rewrite sorted_items_keys; apply NoDup_sorted_keys).
  apply map_eq_iff. intros k. apply option_eq. intros v. by rewrite fill_lookup, elem_of_sorted_items.
Qed.

Lemma sorted_items_fmap {A B} (f : A -> B) (m : gmap string A) : sorted_items (f <$> m) = (fun kv => (kv.1, f kv.2)) <$> sorted_items m.
Proof.
  assert (Hk : sorted_keys (f <$> m) = sorted_keys m).
  { unfold sorted_keys. rewrite map_to_list_fmap. f_equal. rewrite <- list_fmap_compose. by apply list_fmap_ext. }
  unfold sorted_items. rewrite Hk. clear Hk. induction (sorted_keys m) as [|k l IH]; [done|]. cbn. rewrite lookup_fmap.
  destruct (m !! k); cbn; [f_equal|]; exact IH.
Qed.

Lemma sorted_keys_sorted {A} (m : gmap string A) : StronglySorted string_le (sorted_keys m).
Proof. apply sort_strings_sorted. Qed.

(** ** Normalizing what was normalized *)

Lemma resolved_twice o : resolved (resolved o) = resolved o.
Proof. unfold resolved. by repeat case_decide. Qed.

(** A path that resolving gave is resolved. *)
Lemma resolvePath_settled workDir p : isAbs workDir = true -> Clean workDir = workDir ->
  resolvePath workDir (resolvePath workDir p) = resolvePath workDir p.
Proof.
  intros Ha Hc. assert (H : isAbs (resolvePath workDir p) = true /\ Clean (resolvePath workDir p) = resolvePath workDir p).
  { unfold resolvePath. case_decide as Hp; [done|]. destruct (isAbs p) eqn:E; [by rewrite isAbs_Clean, Clean_idempotent|].
    rewrite isAbs_Join by done. split; [done|]. rewrite Join_path by (done || by intros ->). apply Clean_idempotent. }
  destruct H as [H1 H2]. set (q := resolvePath workDir p) in *. unfold resolvePath. rewrite decide_False by (by intros E; rewrite E in H1).
  by rewrite H1.
Qed.

Lemma print_policy_parses p n : valid_policy p n -> ParseRestartPolicy (canonicalRestartPolicy p n) = Ok (p, n).
Proof.
  intros (Hp & Hn & Hi & Hof). unfold canonicalRestartPolicy. rewrite decide_False by (by intros ->).
  destruct (decide (n = 0)%Z) as [->|Hn0].
  - rewrite andb_false_r. apply IsRestartPolicy_true in Hp as [->|[->| ->]]; reflexivity.
  - rewrite (Hof Hn0), !bool_decide_true by (done || lia). simpl. unfold ParseRestartPolicy.
    change (String "o" _) with (RestartPolicyOnFailure +:+ String ":" (Itoa n)).
    rewrite cut_found by reflexivity. simpl. rewrite Atoi_Itoa by done. by rewrite decide_False by lia.
Qed.

Section Again.
Context (Substitute : string -> lookup_fn -> result string string)
  (ParseDotenv : string -> lookup_fn -> result string (gmap string string))
  (Stat : string -> statResult) (Open : string -> result string string) (workdirHash : string -> string)
  (SignalName : Z -> string) (SignalNum : string -> Z) (ParseDuration : string -> option Duration)
  (ParseBytes : string -> option Z)
  (labelOrder logOptOrder : string -> gmap string string -> list (string * string))
  (DurationString : Duration -> string).

(** A string without a dollar is not changed by interpolation; a variable of an env file
    has no equals sign in its name. *)
Context (Hsub : forall s lookup, lacks "$" s = true -> Substitute s lookup = Ok s)
  (Hdotenv : forall f lookup vars k v, ParseDotenv f lookup = Ok vars -> vars !! k = Some v -> lacks "=" k = true).

Lemma substitute_literal {E} (mk : nat -> string -> E) lookup i args :
  Forall (fun a => lacks "$" a = true) args -> substitute_all Substitute mk lookup i args = Ok args.
Proof.
  intros H. revert i. induction H as [|a args Ha _ IH]; intros i; [done|]. cbn [substitute_all].
  rewrite Hsub by done. cbn. by rewrite IH.
Qed.

(** *** Environments *)

Definition keys_ok (m : gmap string string) : Prop := forall k v, m !! k = Some v -> lacks "=" k = true.

Lemma layer_keys workDir efs env osEnv seed layer : keys_ok seed ->
  buildEnvLayer Substitute ParseDotenv Stat Open workDir efs env osEnv seed = Ok layer -> keys_ok layer.
Proof.
  intros Hs H. apply buildEnvLayer_layers in H as (accum & _ & Ha & ->). intros k v Hk.
  apply lookup_union_Some_raw in Hk as [Hk|[_ Hk]].
  - apply elem_of_list_to_map_2, list_elem_of_In, in_rev, list_elem_of_In, list_elem_of_omap in Hk as (e & _ & He). unfold entry_sets in He.
    destruct (cut "=" e) as [[k' v'] has] eqn:Ec. apply cut_lacks in Ec. destruct has.
    + destruct (Substitute v' _) in He; [|done]. by injection He as <- <-.
    + destruct (_ !! k') in He; [|done]. cbn in He. by injection He as <- <-.
  - apply Ha in Hk as [Hk|(ef & f & l & vars & _ & Hp & Hk)]; [by eapply Hs|by eapply Hdotenv].
Qed.

Lemma entries_literal merged l m j : Forall (fun kv => lacks "=" kv.1 = true /\ lacks "$" kv.2 = true) l ->
  env_entries Substitute merged m j (map (fun kv => kv.1 +:+ "=" +:+ kv.2) l) = Ok (fill l m).
Proof.
  intros H. revert m j. induction H as [|[k v] l [Hk Hv] _ IH]; intros m j; [done|]. cbn [map env_entries fst snd].
  unfold env_entry. change ("=" +:+ v) with (String "=" v). rewrite cut_found by exact Hk. cbn [lift_err].
  rewrite Hsub by exact Hv. cbn. apply IH.
Qed.

Lemma layer_literal workDir osEnv layer : keys_ok layer -> Forall (fun e => lacks "$" e = true) (mapToEnvSlice layer) ->
  buildEnvLayer Substitute ParseDotenv Stat Open workDir [] (mapToEnvSlice layer) osEnv ∅ = Ok layer.
Proof.
  intros Hk Hl. unfold buildEnvLayer. cbn. unfold mapToEnvSlice in *. rewrite entries_literal; [by rewrite fill_sorted_items|].
  rewrite Forall_forall in Hl. apply Forall_forall. intros [k v] Hin. split; [by apply elem_of_sorted_items, Hk in Hin|].
  specialize (Hl (k +:+ "=" +:+ v)). unfold lacks in Hl. rewrite string_forallb_app in Hl. cbn in Hl. apply andb_true_iff in Hl; [tauto|].
  apply list_elem_of_fmap. by exists (k, v).
Qed.

(** *** Dependencies *)

Lemma after_again name after l : normalizeAfter name after = Ok l ->
  normalizeAfter name ((fun a => MkAfter "" (ca_Condition a)) <$> fill (map (fun a => (after_Name a, {| ca_Condition := Condition a |})) l) ∅) = Ok l.
Proof.
  intros H. apply normalizeAfter_items in H as Hi. destruct Hi as [Hn Hv]. unfold normalizeAfter. rewrite sorted_items_fmap, sorted_items_fill.
  2,3: change (map ?f l) with (f <$> l); rewrite <- list_fmap_compose; change (StronglySorted string_le (after_Name <$> l)) || change (NoDup (after_Name <$> l)); rewrite Hn; [apply sorted_keys_sorted||apply NoDup_sorted_keys].
  assert (Hself : Forall (fun a => after_Name a <> name /\ AfterSpec_Validate a = Ok tt) l).
  { apply Forall_forall. intros a Ha. split; [|by apply Hv]. intros Hna. destruct (Hv a Ha) as (_ & a0 & Ha0 & _).
    assert (Hok : is_ok (normalizeAfter name after) = true) by (by rewrite H). apply normalizeAfter_ok in Hok as [Hno _]. congruence. }
  clear H Hn Hv. apply result_mapM_ok. induction Hself as [|a l [Hn Hv] _ IH]; cbn; [constructor|]. constructor; [|exact IH].
  apply normalize_after_item_ok. split; [done|]. destruct a as [n c]. cbn in *. unfold AfterSpec_Validate in Hv. cbn in Hv.
  case_bool_decide; [done|]. rewrite decide_False; [|by intros ->]. split; [|done]. unfold AfterSpec_Validate. cbn. by rewrite bool_decide_false.
Qed.

(** *** Hooks *)

Definition literal_hook (h : LifecycleHook) : Prop :=
  forall ev e, Events h !! ev = Some e -> Forall (fun a => lacks "$" a = true) (exec_Args e).

Definition resolved_hook (h : LifecycleHook) : Prop := forall ev e, Events h !! ev = Some e -> resolved (exec_OnError e) = exec_OnError e.

Lemma normalized_resolved lookup i raw hooks : normalize_hooks Substitute lookup i raw = Ok hooks -> Forall resolved_hook hooks.
Proof.
  assert (Hev : forall hook evs events events', (forall ev e, events !! ev = Some e -> resolved (exec_OnError e) = exec_OnError e) ->
    normalize_events Substitute hook lookup events evs = Ok events' -> forall ev e, events' !! ev = Some e -> resolved (exec_OnError e) = exec_OnError e).
  { intros hook evs. induction evs as [|[ev x] evs IH]; intros events events' H; cbn [normalize_events]; [by intros [= <-]|].
    intros Hr. inv_bind Hr as args Hargs. eapply IH; [|exact Hr]. intros ev' e' [[<- <-]|[_ He]]%lookup_insert_Some; [apply resolved_twice|by eapply H]. }
  revert i hooks. induction raw as [|rh raw IH]; intros i hooks; cbn [normalize_hooks]; [intros [= <-]; constructor|].
  case_decide; [done|]. intros H'. inv_bind H' as events He. inv_bind H' as hs Hhs. injection H' as <-. constructor; [|by eapply IH].
  intros ev e. cbn. eapply Hev; [|exact He]. intros ev' e' Hl. by rewrite lookup_empty in Hl.
Qed.

(** The events of a canonical hook, in their order. *)
Definition listed (h : LifecycleHook) (evs : list LifecycleEvent) : list (LifecycleEvent * RawLifecycleExec) :=
  omap (fun ev => pair ev <$> (reread_exec <$> canonical_event h ev)) evs.

Lemma events_again lookup h hook evs m : literal_hook h -> resolved_hook h ->
  exists m', normalize_events Substitute hook lookup m (listed h evs) = Ok m' /\
    forall ev, m' !! ev = if decide (ev ∈ evs) then match Events h !! ev with Some e => Some e | None => m !! ev end else m !! ev.
Proof.
  intros Hl Hr. revert m. induction evs as [|ev evs IH]; intros m; [by exists m|]. unfold listed, canonical_event in *. cbn [omap list_omap].
  destruct (Events h !! ev) as [e|] eqn:E; cbn [fmap option_fmap option_map].
  - cbn [normalize_events reread_exec rx_Args rx_OnError cx_Args cx_OnError]. rewrite substitute_literal by (by eapply Hl). cbn [result_bind].
    rewrite resolved_twice, (Hr ev e E). destruct e as [args oe]. cbn [exec_Args exec_OnError].
    destruct (IH (<[ev := MkExec args oe]> m)) as (m' & -> & Hm'). exists m'. split; [done|]. intros ev'. rewrite Hm'.
    destruct (decide (ev' = ev)) as [->|Hne].
    + rewrite (decide_True (P := ev ∈ ev :: evs)) by left. rewrite E, lookup_insert_eq. by case_decide.
    + rewrite lookup_insert_ne by done. destruct (decide (ev' ∈ evs)) as [Hin|Hin].
      * by rewrite decide_True by (by right).
      * rewrite decide_False; [done|]. by intros [?|?]%elem_of_cons.
  - destruct (IH m) as (m' & -> & Hm'). exists m'. split; [done|]. intros ev'. rewrite Hm'.
    destruct (decide (ev' = ev)) as [->|Hne].
    + rewrite (decide_True (P := ev ∈ ev :: evs)) by left. rewrite E. by case_decide.
    + destruct (decide (ev' ∈ evs)) as [Hin|Hin]; [by rewrite decide_True by (by right)|].
      rewrite decide_False; [done|]. by intros [?|?]%elem_of_cons.
Qed.

Lemma hooks_again raw lookup lookup' hooks : normalizeLifecycleHooks Substitute raw lookup = Ok hooks -> Forall literal_hook hooks ->
  normalizeLifecycleHooks Substitute (map reread_hook (canonicalLifecycleHooks hooks)) lookup' = Ok hooks.
Proof.
  intros H Hl. pose proof (normalizeLifecycleHooks_ok Substitute raw lookup hooks H) as Hok.
  assert (Hr : Forall resolved_hook hooks).
  { unfold normalizeLifecycleHooks in H. destruct raw as [|rh raw]; [injection H as <-; constructor|]. inv_bind H as hs Hhs. inv_bind H as u Hu.
    injection H as <-. by eapply normalized_resolved. }
  assert (Hn : forall i, normalize_hooks Substitute lookup' i (map reread_hook (canonicalLifecycleHooks hooks)) = Ok hooks).
  { destruct Hok as (Hok & _ & _). clear H. induction hooks as [|h hooks IH]; intros i; [done|]. cbn [canonicalLifecycleHooks map normalize_hooks].
    apply Forall_cons in Hl as [Hl Hls], Hr as [Hr Hrs]. assert (Hh : hook_ok h) by (apply Hok; left).
    assert (Hname : hook_Name h <> "") by (intros E; pose proof (ho_name h Hh) as Hv; rewrite E in Hv; discriminate Hv).
    rewrite decide_False by exact Hname. cbn [reread_hook rh_Name ch_Name]. change (raw_events (reread_hook _)) with (listed h lifecycleEvents).
    destruct (events_again lookup' h (hook_Name h) lifecycleEvents ∅ Hl Hr) as (m' & -> & Hm'). cbn [result_bind].
    rewrite (IH Hls (fun h' Hin => Hok h' (list_elem_of_further _ _ _ Hin)) Hrs). cbn [result_bind]. do 2 f_equal. destruct h as [n r evs]. cbn in *. f_equal.
    apply map_eq_iff. intros ev. rewrite Hm', lookup_empty. destruct (evs !! ev) as [e|] eqn:E; case_decide as Hin; try done.
    destruct Hin. by apply (ho_events _ Hh ev e). }
  apply validateLifecycleHooks_ok in Hok. unfold normalizeLifecycleHooks. destruct (map reread_hook _) as [|rh rest] eqn:E.
  { destruct hooks; [done|discriminate E]. }
  rewrite Hn. cbn. destruct (validateLifecycleHooks hooks); [done|discriminate Hok].
Qed.

(** *** Commands *)

(** A time that the codec of durations reads back: what it prints is not a number of
    seconds. *)
Definition printable (d : Duration) : Prop :=
  DurationString d <> "" /\ ParseTimeout ParseDuration (DurationString d) = Ok d.

(** A command whose strings hold no dollar, and whose stop timeout, if any, is printable. *)
Record literal_command (c : Command) : Prop := {
  lc_dir : lacks "$" (c_Dir c) = true;
  lc_args : Forall (fun a => lacks "$" a = true) (Args c);
  lc_env : Forall (fun a => lacks "$" a = true) (Env c);
  lc_stop : Forall (fun a => lacks "$" a = true) (Stop c);
  lc_path : forall v, LogOpts c !! LogOptPath = Some v -> lacks "$" v = true;
  lc_hooks : Forall literal_hook (Hooks c);
  lc_grace : (0 < StopGracePeriod c)%Z -> printable (StopGracePeriod c);
}.

Lemma grace_again s d : (if decide (s = "") then Ok 0%Z else lift_err (CommandGrace s) (ParseTimeout ParseDuration s)) = Ok d ->
  ((0 < d)%Z -> printable d) ->
  (if decide (canonicalStopGracePeriod DurationString d = "") then Ok 0%Z
   else lift_err (CommandGrace (canonicalStopGracePeriod DurationString d)) (ParseTimeout ParseDuration (canonicalStopGracePeriod DurationString d))) = Ok d.
Proof.
  intros H Hp. unfold canonicalStopGracePeriod. destruct (decide (s = "")) as [Hs|Hs]; [by injection H as <-|]. apply lift_err_ok in H.
  assert (Hd : (0 < d)%Z).
  { by apply ParseTimeout_positive in H. }
  rewrite (decide_False (P := (d <= 0)%Z)) by lia. destruct (Hp Hd) as [Hn Ht]. by rewrite decide_False, Ht.
Qed.

Lemma policy_again s p n : (if decide (s = "") then Ok ("", 0%Z) else lift_err CommandRestart (ParseRestartPolicy s)) = Ok (p, n) ->
  (if decide (canonicalRestartPolicy p n = "") then Ok ("", 0%Z)
   else lift_err CommandRestart (ParseRestartPolicy (canonicalRestartPolicy p n))) = Ok (p, n).
Proof.
  case_decide as Hs; [by intros [= <- <-]|]. intros H%lift_err_ok.
  assert (Hv : valid_policy p n) by (apply ParseRestartPolicy_exact; by exists s).
  apply print_policy_parses in Hv. rewrite Hv. case_decide as Hc; [|done]. by rewrite Hc in Hv.
Qed.

Lemma scale_again r s : (match r with None => Ok 1%Z | Some s => if decide (s < 1)%Z then Err (CommandScale s) else Ok s end) = Ok s ->
  (match (if decide (canonicalScale s = 0)%Z then None else Some (canonicalScale s)) with
   | None => Ok 1%Z | Some s => if decide (s < 1)%Z then Err (CommandScale s) else Ok s end) = Ok s.
Proof.
  intros H. assert (Hs : (1 <= s)%Z).
  { destruct r as [s0|]; [|injection H as <-; lia]. destruct (decide (s0 < 1)%Z) in H; [done|]. injection H as <-. lia. }
  unfold canonicalScale. destruct (decide (s <= 1)%Z) as [Hle|Hgt]; cbn [decide].
  - rewrite decide_True by done. f_equal. lia.
  - destruct (decide (s = 0)%Z); [lia|]. destruct (decide (s < 1)%Z); [lia|done].
Qed.

Lemma stop_again raw lookup lookup' stop : normalizeStop Substitute raw lookup = Ok stop -> Forall (fun a => lacks "$" a = true) stop ->
  normalizeStop Substitute (if decide (stop = []) then None else Some {| rs_Args := stop |}) lookup' = Ok stop.
Proof.
  intros _ Hl. destruct stop as [|a stop]; [done|]. rewrite decide_False by done. exact (substitute_literal StopInterp lookup' 0 _ Hl).
Qed.

Lemma log_opts_again workDir opts lookup lookup' o : isAbs workDir = true -> Clean workDir = workDir ->
  resolveLogOptPaths Substitute workDir opts lookup = Ok o -> (forall v, o !! LogOptPath = Some v -> lacks "$" v = true) ->
  resolveLogOptPaths Substitute workDir o lookup' = Ok o.
Proof.
  intros Ha Hc H Hl. unfold resolveLogOptPaths in *. destruct (opts !! LogOptPath) as [v|] eqn:E; [|injection H as <-; by rewrite E].
  inv_bind H as i Hi. injection H as <-. rewrite lookup_insert_eq in *. rewrite Hsub by (by apply Hl). cbn.
  rewrite resolvePath_settled by done. by rewrite insert_insert_eq.
Qed.

Lemma command_name workDir wdHash project baseEnv projectEnv name cmd c :
  normalize_command Substitute ParseDotenv Stat Open SignalName SignalNum ParseDuration ParseBytes labelOrder logOptOrder
    workDir wdHash project baseEnv projectEnv (name, cmd) = Ok c -> Name c = name.
Proof.
  unfold normalize_command. rewrite lift_err_ok. intros H.
  inv_bind H as u1 Hname. inv_bind H as dirVal Hdir. inv_bind H as commandEnv Henv. inv_bind H as args Hargs.
  inv_bind H as hooks Hhooks. inv_bind H as u2 Hlab. inv_bind H as opts Hopts. inv_bind H as after Hafter.
  inv_bind H as scale Hscale. inv_bind H as pol Hpol. destruct pol as [policy retries].
  inv_bind H as grace Hgrace. inv_bind H as stop Hstop. inv_bind H as u3 Hrun. by injection H as <-.
Qed.

Lemma command_again workDir wdHash project baseEnv baseEnv' projectEnv name cmd c :
  isAbs workDir = true -> Clean workDir = workDir -> keys_ok projectEnv ->
  normalize_command Substitute ParseDotenv Stat Open SignalName SignalNum ParseDuration ParseBytes labelOrder logOptOrder
    workDir wdHash project baseEnv projectEnv (name, cmd) = Ok c -> literal_command c ->
  normalize_command Substitute ParseDotenv Stat Open SignalName SignalNum ParseDuration ParseBytes labelOrder logOptOrder
    workDir wdHash project baseEnv' ∅ (name, reread_command (canonicalCommand DurationString c)) = Ok c.
Proof.
  intros Ha Hc Hkeys. unfold normalize_command. rewrite !lift_err_ok. intros H.
  inv_bind H as u1 Hname. inv_bind H as dirVal Hdir. inv_bind H as commandEnv Henv. inv_bind H as args Hargs.
  inv_bind H as hooks Hhooks. inv_bind H as u2 Hlab. inv_bind H as opts Hopts. inv_bind H as after Hafter.
  inv_bind H as scale Hscale. inv_bind H as pol Hpol. destruct pol as [policy retries].
  inv_bind H as grace Hgrace. inv_bind H as stop Hstop. inv_bind H as u3 Hrun. injection H as <-. intros [L1 L2 L3 L4 L5 L6 L7].
  cbn [Name c_Dir Args Env ImportHostEnv InjectEnv c_Labels c_RestartPolicy MaxRetries StopSignal StopGracePeriod Stop Tty ScrollbackBytes
    c_LogDriver LogOpts After Scale Hooks] in *.
  cbn [canonicalCommand reread_command rc_Dir rc_Args rc_Env rc_EnvFile rc_ImportHostEnv rc_InjectEnv rc_Labels rc_RestartPolicy rc_StopSignal
    rc_StopGracePeriod rc_Stop rc_Tty rc_ScrollbackBytes rc_LogDriver rc_LogOpts rc_After rc_Scale rc_Hooks
    cn_Dir cn_Args cn_Env cn_ImportHostEnv cn_InjectEnv cn_Labels cn_RestartPolicy cn_StopSignal
    cn_StopGracePeriod cn_Stop cn_Tty cn_ScrollbackBytes cn_LogDriver cn_LogOpts cn_After cn_Scale cn_Hooks
    Name c_Dir Args Env ImportHostEnv InjectEnv c_Labels c_RestartPolicy MaxRetries StopSignal StopGracePeriod Stop Tty ScrollbackBytes
    c_LogDriver LogOpts After Scale Hooks].
  rewrite Hname. cbn [result_bind]. rewrite Hsub by done. cbn [lift_err result_bind]. rewrite resolvePath_settled by done.
  apply layer_keys in Henv; [|done]. rewrite layer_literal by done. cbn [lift_err result_bind].
  rewrite substitute_literal by done. cbn [result_bind].
  rewrite (hooks_again _ _ _ _ Hhooks L6). cbn [lift_err result_bind]. rewrite Hlab. cbn [result_bind].
  rewrite (log_opts_again _ _ _ _ _ Ha Hc Hopts L5). cbn [lift_err result_bind].
  rewrite (after_again _ _ _ Hafter). cbn [lift_err result_bind].
  rewrite (scale_again _ _ Hscale). cbn [result_bind]. rewrite (policy_again _ _ _ Hpol). cbn [result_bind].
  rewrite (grace_again _ _ Hgrace L7). cbn [result_bind]. rewrite (stop_again _ _ _ _ Hstop L4). cbn [lift_err result_bind].
  assert (Hb : forall b : option bool, default true (if default true b then None else Some false) = default true b) by (by intros [[]|]).
  rewrite !Hb. by rewrite Hrun.
Qed.

(** *** The whole file *)

Definition no_options : NormalizeOpts := {| no_File := ""; no_ProjectName := ""; no_WorkDir := "" |}.

Lemma effective_settled cwd declared cwd' : isAbs cwd = true ->
  let w := effective_work_dir cwd declared in isAbs w = true /\ Clean w = w /\ effective_work_dir cwd' w = w.
Proof.
  intros Ha w. assert (Hw : isAbs w = true) by (by apply effective_work_dir_abs).
  assert (Hc : Clean w = w) by (unfold w, effective_work_dir; by rewrite Clean_idempotent).
  split; [done|]. split; [done|]. unfold effective_work_dir. rewrite decide_False by (by intros E; rewrite E in Hw). by rewrite Hw.
Qed.

(** C36: the canonical form is a compose file of the same project.  When a spec that
    normalization gave, in whichever environment, holds no dollar and prints its stop
    timeouts so that they can be read, then its canonical form, read as a file and
    normalized without options, in any other environment and directory and under any
    other name, gives the same project, work directory, commands and dashboards, field by
    field; so rendering that again gives the same document. *)
Theorem canonical_again environ cwd file raw opts spec environ' cwd' file' :
  Normalize Substitute ParseDotenv Stat Open workdirHash SignalName SignalNum ParseDuration ParseBytes labelOrder logOptOrder
    environ (Ok cwd) file raw opts = Ok spec ->
  isAbs cwd = true -> lacks "$" (WorkDir spec) = true -> Forall literal_command (Commands spec) ->
  exists spec', Normalize Substitute ParseDotenv Stat Open workdirHash SignalName SignalNum ParseDuration ParseBytes labelOrder logOptOrder
    environ' (Ok cwd') file' (reread (Canonicalize DurationString spec)) no_options = Ok spec' /\
    Project spec' = Project spec /\ WorkDir spec' = WorkDir spec /\ Commands spec' = Commands spec /\ spec_Mux spec' = spec_Mux spec /\
    Canonicalize DurationString spec' = Canonicalize DurationString spec.
Proof.
  intros Hn Habs Hw Hl. unfold Normalize in Hn. inv_bind Hn as cwd0 Hcwd. injection Hcwd as <-. inv_bind Hn as declared Hdecl.
  set (project := if decide (no_ProjectName opts = "") then raw_Name raw else no_ProjectName opts) in *.
  destruct (decide (project = "")) as [|Hp] in Hn; [discriminate Hn|].
  inv_bind Hn as u1 Hproj. inv_bind Hn as projectEnv Henv. inv_bind Hn as cmds Hcmds. inv_bind Hn as u2 Hdag.
  inv_bind Hn as u3 Hmux. injection Hn as <-. cbn [WorkDir Commands Project spec_Mux] in *.
  destruct (effective_settled cwd declared cwd' Habs) as (Ha & Hc & He). set (w := effective_work_dir cwd declared) in *.
  apply layer_keys in Henv; [|by intros k v Hk; rewrite lookup_empty in Hk].
  apply result_mapM_ok in Hcmds.
  assert (Hnames : map Name cmds = sorted_keys (raw_Commands raw)).
  { rewrite <- sorted_items_keys. clear -Hcmds. induction Hcmds as [|[n rc] c l l' Hc _ IH]; [done|].
    apply command_name in Hc. simpl. by rewrite IH, Hc. }
  eexists. split.
  - unfold Normalize. cbn [lift_err result_bind reread Canonicalize raw_WorkDir raw_Name raw_Env raw_EnvFile raw_Commands raw_Mux cs_WorkDir cs_Name
      cs_Commands cs_Mux WorkDir Project Commands spec_Mux no_options no_WorkDir no_ProjectName].
    rewrite !(decide_True (P := "" = "")) by done. rewrite Hsub by done. cbn [lift_err result_bind]. rewrite (decide_False (P := project = "")) by done.
    rewrite Hproj, He. cbn [lift_err result_bind]. change (buildEnvLayer _ _ _ _ _ [] [] _ ∅) with (Ok (E := envErr) (∅ : gmap string string)). cbn [lift_err result_bind].
    rewrite sorted_items_fmap, sorted_items_fill.
    2,3: change (map ?f cmds) with (f <$> cmds); rewrite <- list_fmap_compose; change (StronglySorted string_le (map Name cmds)) || change (NoDup (map Name cmds));
      rewrite Hnames; [apply sorted_keys_sorted||apply NoDup_sorted_keys].
    erewrite (proj2 (result_mapM_ok _ _ cmds)); [cbn [result_bind]; rewrite Hdag; cbn [lift_err result_bind]; rewrite Hmux; reflexivity|].
    clear Hdag Hmux Hnames. induction Hcmds as [|[n rc] c l l' Hcm _ IH]; cbn; [constructor|]. apply Forall_cons in Hl as [Hlc Hl].
    constructor; [|by apply IH]. pose proof Hcm as Hcn. apply command_name in Hcn. rewrite Hcn.
    by apply (command_again _ _ _ _ _ _ _ _ _ Ha Hc Henv Hcm).
  - done.
Qed.
End Again.

(** ** A file with two commands, and one with an escaped dollar *)

(** Two dollars for one, and a variable for its value, in the one place they occur. *)
Definition demo_substitute (s : string) (lookup : lookup_fn) : result string string :=
  if decide (s = "$$HOME") then Ok "$HOME" else if decide (s = "$HOME") then Ok (default "" (lookup "HOME")) else Ok s.

Definition demo_load (environ : list string) (file : string) (raw : RawComposeSpec) : result normErr ComposeSpec :=
  Normalize demo_substitute (fun _ _ => Ok ∅) (fun _ => StatOk) (fun _ => Ok "") (fun _ => "0a1b2c3d4e5f")
    (fun _ => "SIGTERM") (fun _ => 15%Z) (fun s => if decide (s = "10s") then Some (10 * Second)%Z else None) (fun _ => Some 1%Z)
    (fun _ m => map_to_list m) (fun _ m => map_to_list m) environ (Ok "/srv") file raw no_options.

Definition demo_hook : RawLifecycleHook := {|
  rh_Name := "port"; rh_Resource := "port"; CreatePre := None; CreatePost := None;
  StartPre := Some {| rx_Args := ["take"]; rx_OnError := "" |}; StartPost := None; StopPre := None;
  StopPost := Some {| rx_Args := ["give"]; rx_OnError := OnErrorContinue |}; RemovePre := None; RemovePost := None |}.

Definition with_hook (c : RawCommand) : RawCommand := {|
  rc_Dir := rc_Dir c; rc_Args := rc_Args c; rc_Env := rc_Env c; rc_EnvFile := rc_EnvFile c; rc_ImportHostEnv := Some false;
  rc_InjectEnv := rc_InjectEnv c; rc_Labels := rc_Labels c; rc_RestartPolicy := rc_RestartPolicy c; rc_StopSignal := rc_StopSignal c;
  rc_StopGracePeriod := rc_StopGracePeriod c; rc_Stop := Some {| rs_Args := ["quit"] |}; rc_Tty := true; rc_ScrollbackBytes := 10;
  rc_LogDriver := rc_LogDriver c; rc_LogOpts := rc_LogOpts c; rc_After := rc_After c; rc_Scale := rc_Scale c; rc_Hooks := [demo_hook] |}.

Definition demo_hooked : RawComposeSpec := {|
  raw_Name := "p"; raw_WorkDir := "work"; raw_Env := ["TOP=1"]; raw_EnvFile := [];
  raw_Commands := with_hook <$> raw_Commands demo_raw; raw_Mux := None |}.

Lemma canonical_again_witness :
  exists spec spec', demo_load ["HOME=/root"] "compose.yaml" demo_hooked = Ok spec /\
    demo_load [] "/elsewhere/other.yaml" (reread (Canonicalize (fun _ => "10s") spec)) = Ok spec' /\
    Commands spec' = Commands spec /\ ComposeFile spec' <> ComposeFile spec.
Proof.
  destruct (demo_load ["HOME=/root"] "compose.yaml" demo_hooked) as [spec|e] eqn:E; [|vm_compute in E; discriminate E].
  exists spec. assert (Hl : lacks "$" (WorkDir spec) = true /\
    Forall (literal_command (fun s => if decide (s = "10s") then Some (10 * Second)%Z else None) (fun _ => "10s")) (Commands spec)).
  { vm_compute in E. injection E as <-. split; [reflexivity|]. repeat apply Forall_cons_2; [..|constructor].
    all: split; [reflexivity|repeat constructor..| | |].
    1,4: intros v Hv; vm_compute in Hv; by injection Hv as <-.
    1,3: apply Forall_cons_2; [|constructor]; intros ev x Hx; apply elem_of_map_to_list in Hx; vm_compute in Hx;
      apply elem_of_cons in Hx as [Hx|Hx%list_elem_of_singleton]; injection Hx as -> ->; repeat constructor.
    all: intros _; split; [done|]; vm_compute; reflexivity. }
  destruct Hl as [Hw Hl].
  destruct (canonical_again demo_substitute (fun _ _ => Ok ∅) (fun _ => StatOk) (fun _ => Ok "") (fun _ => "0a1b2c3d4e5f")
    (fun _ => "SIGTERM") (fun _ => 15%Z) (fun s => if decide (s = "10s") then Some (10 * Second)%Z else None) (fun _ => Some 1%Z)
    (fun _ m => map_to_list m) (fun _ m => map_to_list m) (fun _ => "10s")) with (environ := ["HOME=/root"]) (cwd := "/srv") (file := "compose.yaml")
    (raw := demo_hooked) (opts := no_options) (spec := spec) (environ' := @nil string) (cwd' := "/srv") (file' := "/elsewhere/other.yaml")
    as (spec' & Hn & _ & _ & Hc & _); [| |exact E|reflexivity|exact Hw|exact Hl|].
  - intros s lookup Hs. unfold demo_substitute. destruct (decide (s = "$$HOME")) as [->|]; [vm_compute in Hs; discriminate Hs|].
    destruct (decide (s = "$HOME")) as [->|]; [vm_compute in Hs; discriminate Hs|reflexivity].
  - intros f lookup vars k v Hv Hk. injection Hv as <-. rewrite lookup_empty in Hk. discriminate Hk.
  - exists spec'. split; [reflexivity|]. split; [exact Hn|]. split; [exact Hc|].
    vm_compute in E. injection E as <-. vm_compute in Hn. injection Hn as <-. vm_compute. intros H. discriminate H.
Defined.

(** What holds a dollar after normalization is not escaped when it is rendered: read
    again, it is interpolated. *)
Lemma canonical_unescaped :
  let raw := {| raw_Name := "p"; raw_WorkDir := ""; raw_Env := []; raw_EnvFile := [];
                raw_Commands := {["web" := demo_raw_command ["echo"; "$$HOME"] ∅]}; raw_Mux := None |} in
  exists spec spec', demo_load ["HOME=/root"] "compose.yaml" raw = Ok spec /\ Args <$> Commands spec = [["echo"; "$HOME"]] /\
    demo_load ["HOME=/root"] "compose.yaml" (reread (Canonicalize (fun _ => "10s") spec)) = Ok spec' /\
    Args <$> Commands spec' = [["echo"; "/root"]].
Proof.
  intros raw. destruct (demo_load ["HOME=/root"] "compose.yaml" raw) as [spec|] eqn:E; [|vm_compute in E; discriminate E].
  destruct (demo_load ["HOME=/root"] "compose.yaml" (reread (Canonicalize (fun _ => "10s") spec))) as [spec'|] eqn:E';
    vm_compute in E; injection E as <-; vm_compute in E'; [injection E' as <-|discriminate E'].
  do 2 eexists. split; [reflexivity|]. split; [reflexivity|]. split; reflexivity.
Qed.
