(* ===== verification/OpNames.v ===== *)
(** * The names of multiplexer operations

    [cmdman/cli/mux_op.go]: the name under which an operation on a window is registered
    and logged, and that two windows never share one.  The digest is an argument. *)

From S2P Require Import Prelude GoStr.

Definition dash : ascii := "-"%char.
Definition underscore : ascii := "_"%char.

(* src/cmdman/cli/mux_op.go:205-210 escapeMuxOpNamePart *)
Fixpoint escapeMuxOpNamePart (s : string) : string :=
  match s with
  | EmptyString => EmptyString
  | String c s => if decide (c = dash) then String dash (String dash (escapeMuxOpNamePart s)) else String c (escapeMuxOpNamePart s)
  end.

(* src/cmdman/cli/mux_op.go:197-203 muxOpNameSeparator *)
Definition muxOpNameSeparator : string := "-_".

(* src/cmdman/cli/mux_op.go:222-225 muxOpNameMaxLen *)
Definition muxOpNameMaxLen : nat := 120.
(* src/cmdman/cli/mux_op.go:227-229 muxOpNameDigestLen *)
Definition muxOpNameDigestLen : nat := 12.

(* src/cmdman/cli/mux_op.go:244-253 sanitizeMuxOpName *)
Definition portable (c : ascii) : bool :=
  let n := nat_of_ascii c in
  (bool_decide (97 <= n) && bool_decide (n <= 122)) || (bool_decide (65 <= n) && bool_decide (n <= 90)) ||
  (bool_decide (48 <= n) && bool_decide (n <= 57)) || bool_decide (c = dash) || bool_decide (c = underscore) || bool_decide (c = "."%char).

(** ** Runes

    How ranging over a string takes bytes together: the encodings of two, three and four
    bytes; any other byte is one (invalid) rune. *)

Definition in_range (lo hi : nat) (c : ascii) : bool := bool_decide (lo <= nat_of_ascii c) && bool_decide (nat_of_ascii c <= hi).
Definition cont : ascii -> bool := in_range 0x80 0xBF.

Definition rune2 (c1 c2 : ascii) : bool := in_range 0xC2 0xDF c1 && cont c2.

Definition rune3 (c1 c2 c3 : ascii) : bool :=
  cont c3 &&
  ((in_range 0xE0 0xE0 c1 && in_range 0xA0 0xBF c2) || (in_range 0xE1 0xEC c1 && cont c2) ||
   (in_range 0xED 0xED c1 && in_range 0x80 0x9F c2) || (in_range 0xEE 0xEF c1 && cont c2)).

Definition rune4 (c1 c2 c3 c4 : ascii) : bool :=
  cont c3 && cont c4 &&
  ((in_range 0xF0 0xF0 c1 && in_range 0x90 0xBF c2) || (in_range 0xF1 0xF3 c1 && cont c2) || (in_range 0xF4 0xF4 c1 && in_range 0x80 0x8F c2)).

Definition mark (r : string * bool) : string * bool := (String underscore r.1, true).

(** The name with what is not portable replaced, and whether anything was. *)
(* src/cmdman/cli/mux_op.go:243-254 sanitizeMuxOpName *)
Fixpoint replace_unportable (s : string) : string * bool :=
  match s with
  | EmptyString => (EmptyString, false)
  | String c1 r1 =>
    if portable c1 then let '(out, replaced) := replace_unportable r1 in (String c1 out, replaced)
    else match r1 with
         | String c2 r2 =>
           if rune2 c1 c2 then mark (replace_unportable r2)
           else match r2 with
                | String c3 r3 =>
                  if rune3 c1 c2 c3 then mark (replace_unportable r3)
                  else match r3 with
                       | String c4 r4 => if rune4 c1 c2 c3 c4 then mark (replace_unportable r4) else mark (replace_unportable r1)
                       | EmptyString => mark (replace_unportable r1)
                       end
                | EmptyString => mark (replace_unportable r1)
                end
         | EmptyString => mark (replace_unportable r1)
         end
  end.

(** The first bytes of a string. *)
Fixpoint string_take (n : nat) (s : string) : string :=
  match n, s with S n, String c s => String c (string_take n s) | _, _ => EmptyString end.

Section Names.
(** The SHA-256 of a string in hexadecimal. *)
Context (sha256hex : string -> string).

Definition digest (name : string) : string := string_take muxOpNameDigestLen (sha256hex name).

(* src/cmdman/cli/mux_op.go:231-272 sanitizeMuxOpName *)
Definition sanitizeMuxOpName (name : string) : string :=
  let '(out, replaced) := replace_unportable name in
  let replaced := if decide (out = "") then true else replaced in
  if negb replaced && bool_decide (String.length out <= muxOpNameMaxLen) then out
  else
    let keep := muxOpNameMaxLen - muxOpNameDigestLen - 1 in
    let out := if decide (keep < String.length out) then string_take keep out else out in
    out +:+ "-" +:+ digest name.

(** What a name is made of, before it is sanitized. *)
(* src/cmdman/cli/mux_op.go:190-193 MuxOpLogName *)
Definition joined_name (server identity : string) : string :=
  if decide (server = "") then escapeMuxOpNamePart identity
  else escapeMuxOpNamePart server +:+ muxOpNameSeparator +:+ escapeMuxOpNamePart identity.

(* src/cmdman/cli/mux_op.go:171-195 MuxOpLogName *)
Definition MuxOpLogName (server identity : string) : string := sanitizeMuxOpName (joined_name server identity).

(* src/cmdman/cli/mux_op.go:212-220 ComposeMuxOpLogName *)
Definition ComposeMuxOpLogName (projectIdentity : string) : string := sanitizeMuxOpName ("compose-" +:+ projectIdentity).

(* src/cmdman/cli/mux_op.go:274-280 muxOpCommandName *)
Definition muxOpCommandName (logName : string) : string := "muxop-" +:+ logName.
End Names.

(** ** Reading a joined name back *)

(** The part up to a separator, and what is behind it. *)
Fixpoint split_joined (s : string) : string * option string :=
  match s with
  | EmptyString => (EmptyString, None)
  | String c r =>
    if decide (c = dash) then
      match r with
      | String d r' => if decide (d = dash) then let '(a, b) := split_joined r' in (String dash a, b) else (EmptyString, Some r')
      | EmptyString => (EmptyString, None)
      end
    else let '(a, b) := split_joined r in (String c a, b)
  end.

Lemma split_escaped a : split_joined (escapeMuxOpNamePart a) = (a, None).
Proof.
  induction a as [|c a IH]; [done|]. cbn [escapeMuxOpNamePart]. destruct (decide (c = dash)) as [->|Hc]; cbn [split_joined].
  - rewrite !decide_True by done. by rewrite IH.
  - rewrite decide_False by done. by rewrite IH.
Qed.

Lemma split_separated a b : split_joined (escapeMuxOpNamePart a +:+ muxOpNameSeparator +:+ b) = (a, Some b).
Proof.
  induction a as [|c a IH]; [done|]. cbn [escapeMuxOpNamePart]. destruct (decide (c = dash)) as [->|Hc]; cbn [String.append split_joined].
  - rewrite !decide_True by done. by rewrite IH.
  - rewrite decide_False by done. by rewrite IH.
Qed.

Lemma joined_inj s1 i1 s2 i2 : joined_name s1 i1 = joined_name s2 i2 -> s1 = s2 /\ i1 = i2.
Proof.
  intros H. assert (Hs : forall s i, split_joined (joined_name s i) = if decide (s = "") then (i, None) else (s, Some (escapeMuxOpNamePart i))).
  { intros s i. unfold joined_name. destruct (decide (s = "")); [apply split_escaped|apply split_separated]. }
  pose proof (f_equal split_joined H) as H'. rewrite !Hs in H'.
  destruct (decide (s1 = "")) as [->|], (decide (s2 = "")) as [->|]; try discriminate H'; [by injection H' as ->|].
  injection H' as -> H'. split; [done|]. pose proof (split_escaped i1) as E1. rewrite H', split_escaped in E1. by injection E1 as ->.
Qed.

(** ** Runs of dashes

    A name is scanned for runs of dashes of odd length that no underscore follows; the
    state is whether an odd number of dashes was just read. *)

Fixpoint scan (odd : bool) (s : string) : option bool :=
  match s with
  | EmptyString => Some odd
  | String c s => if decide (c = dash) then scan (negb odd) s else if odd && negb (bool_decide (c = underscore)) then None else scan false s
  end.

Lemma scan_app odd a b : scan odd (a +:+ b) = scan odd a ≫= fun q => scan q b.
Proof. revert odd. induction a as [|c a IH]; intros odd; [done|]. cbn. destruct (decide _); [apply IH|]. destruct (_ && _); [done|apply IH]. Qed.

Lemma scan_escaped a : scan false (escapeMuxOpNamePart a) = Some false.
Proof.
  induction a as [|c a IH]; [done|]. cbn [escapeMuxOpNamePart]. destruct (decide (c = dash)) as [->|Hc]; cbn [scan].
  - by rewrite !decide_True by done.
  - by rewrite decide_False by done.
Qed.

Lemma scan_joined s i : scan false (joined_name s i) = Some false.
Proof.
  unfold joined_name. destruct (decide _); [apply scan_escaped|]. rewrite scan_app, scan_escaped. cbn [mbind option_bind]. rewrite scan_app.
  apply scan_escaped.
Qed.

Lemma scan_other c odd s q : c <> dash -> scan odd (String c s) = Some q -> scan false s = Some q.
Proof. intros Hc. cbn [scan]. rewrite decide_False by done. by destruct (_ && _). Qed.

Lemma high_not_dash lo hi c : 45 < lo -> in_range lo hi c = true -> c <> dash.
Proof. unfold in_range. intros H [Hl%bool_decide_eq_true _]%andb_true_iff ->. change (nat_of_ascii dash) with 45 in Hl. lia. Qed.

Ltac not_dash := repeat match goal with
  | H : _ && _ = true |- _ => apply andb_true_iff in H as [? ?]
  | H : _ || _ = true |- _ => apply orb_true_iff in H as [?|?]
  end; match goal with H : in_range _ _ ?c = true |- ?c <> dash => eapply high_not_dash; [|exact H]; lia end.

Lemma rune2_not_dash c1 c2 : rune2 c1 c2 = true -> c2 <> dash.
Proof. unfold rune2, cont. intros H. not_dash. Qed.

Lemma rune3_not_dash c1 c2 c3 : rune3 c1 c2 c3 = true -> c2 <> dash /\ c3 <> dash.
Proof. unfold rune3, cont. intros H. split; not_dash. Qed.

Lemma rune4_not_dash c1 c2 c3 c4 : rune4 c1 c2 c3 c4 = true -> c2 <> dash /\ c3 <> dash /\ c4 <> dash.
Proof. unfold rune4, cont. intros H. split; [|split]; not_dash. Qed.

Lemma unportable_not_dash c : portable c = false -> c <> dash.
Proof. by intros H ->. Qed.

Lemma scan_replaced s odd q : scan odd s = Some q -> scan odd (replace_unportable s).1 = Some q.
Proof.
  revert odd q. induction s as [s IH] using (induction_ltof1 _ String.length); unfold ltof in IH. intros odd q.
  assert (Hmark : forall r, String.length r < String.length s -> scan false r = Some q -> scan odd (mark (replace_unportable r)).1 = Some q).
  { intros r Hr H. cbn [mark fst scan]. rewrite decide_False by done. rewrite bool_decide_true, andb_false_r by done. by apply IH. }
  destruct s as [|c1 r1]; [done|]. cbn [replace_unportable String.length] in *. intros H. destruct (portable c1) eqn:Hp.
  - destruct (replace_unportable r1) as [out replaced] eqn:E. cbn [fst scan] in *.
    assert (Ho : forall odd' q', scan odd' r1 = Some q' -> scan odd' out = Some q') by (intros odd' q' Hs; apply IH in Hs; [by rewrite E in Hs|lia]).
    destruct (decide (c1 = dash)); [by apply Ho|]. destruct (_ && _); [done|by apply Ho].
  - apply unportable_not_dash in Hp. apply scan_other in H; [|done].
    destruct r1 as [|c2 r2]; [by apply Hmark; [simpl; lia|]|]. cbn [String.length] in Hmark.
    destruct (rune2 c1 c2) eqn:E2. { apply rune2_not_dash in E2. apply scan_other in H; [|done]. apply Hmark; [lia|done]. }
    destruct r2 as [|c3 r3]; [by apply Hmark; [simpl; lia|]|]. cbn [String.length] in Hmark.
    destruct (rune3 c1 c2 c3) eqn:E3.
    { apply rune3_not_dash in E3 as [? ?]. do 2 (apply scan_other in H; [|done]). apply Hmark; [lia|done]. }
    destruct r3 as [|c4 r4]; [by apply Hmark; [simpl; lia|]|]. cbn [String.length] in Hmark.
    destruct (rune4 c1 c2 c3 c4) eqn:E4; [|apply Hmark; [cbn; lia|done]].
    apply rune4_not_dash in E4 as (? & ? & ?). do 3 (apply scan_other in H; [|done]). apply Hmark; [lia|done].
Qed.

(** ** Names that keep windows apart *)

Lemma replaced_same s : (replace_unportable s).2 = false -> (replace_unportable s).1 = s.
Proof.
  induction s as [|c1 r1 IH]; [done|]. cbn [replace_unportable]. destruct (portable c1).
  - destruct (replace_unportable r1) as [out replaced]. cbn in *. intros H. by rewrite IH.
  - intros H. exfalso. repeat (case_match; try discriminate H).
Qed.

Lemma replace_portable s : string_forallb portable s = true -> replace_unportable s = (s, false).
Proof.
  induction s as [|c s IH]; [done|]. cbn [string_forallb replace_unportable]. intros [-> Hs]%andb_true_iff. by rewrite IH.
Qed.

Lemma replace_app a b : string_forallb portable a = true -> (replace_unportable (a +:+ b)).1 = a +:+ (replace_unportable b).1.
Proof.
  induction a as [|c a IH]; [done|]. cbn [string_forallb String.append replace_unportable]. intros [-> Ha]%andb_true_iff. specialize (IH Ha).
  destruct (replace_unportable (a +:+ b)). cbn in *. by rewrite IH.
Qed.

Lemma take_prefix n s : exists r, s = string_take n s +:+ r.
Proof. revert n. induction s as [|c s IH]; intros [|n]; cbn; [by exists ""|by exists ""|by eexists|]. destruct (IH n) as [r Hr]. exists r. by rewrite <- Hr. Qed.

Lemma take_length n s : n <= String.length s -> String.length (string_take n s) = n.
Proof. revert n. induction s as [|c s IH]; intros [|n] H; cbn in *; try done; [lia|]. rewrite IH by lia. done. Qed.

Lemma app_same_length a b c d : a +:+ b = c +:+ d -> String.length b = String.length d -> a = c /\ b = d.
Proof.
  revert c. induction a as [|x a IH]; intros [|y c] H Hl; cbn in *; try done.
  - subst b. cbn in Hl. rewrite string_length_app in Hl. lia.
  - subst d. cbn in Hl. rewrite string_length_app in Hl. lia.
  - injection H as -> H. destruct (IH c H Hl) as [-> ->]. done.
Qed.

(** The last byte is a dash. *)
Fixpoint ends_in_dash (s : string) : bool :=
  match s with EmptyString => false | String c s => if decide (s = "") then bool_decide (c = dash) else ends_in_dash s end.

Lemma scan_end odd s q : scan odd s = Some q -> s <> "" -> ends_in_dash s = false -> q = false.
Proof.
  revert odd. induction s as [|c s IH]; intros odd H Hne He; [by destruct Hne|]. clear Hne. cbn [scan ends_in_dash] in *. destruct (decide (s = "")) as [->|Hs].
  - apply bool_decide_eq_false in He. rewrite decide_False in H by done. cbn in H. by destruct (_ && _); [|injection H as <-].
  - destruct (decide (c = dash)); [by eapply IH|]. destruct (_ && _); [done|]. by eapply IH.
Qed.

Section Distinct.
Context (sha256hex : string -> string).

Definition hex_digit (c : ascii) : bool := in_range 48 57 c || in_range 97 102 c.

(** A digest in hexadecimal, long enough to be cut. *)
Context (sha256hex_hex : forall s, string_forallb hex_digit (sha256hex s) = true /\ muxOpNameDigestLen <= String.length (sha256hex s)).

(** The cut of a name that is too long leaves no dash at its end. *)
Definition clean_cut (name : string) : bool :=
  let out := (replace_unportable name).1 in negb (bool_decide (107 < String.length out) && ends_in_dash (string_take 107 out)).

Lemma digest_starts name : exists c r, digest sha256hex name = String c r /\ hex_digit c = true /\ String.length (digest sha256hex name) = 12.
Proof.
  destruct (sha256hex_hex name) as [Hh Hl]. unfold digest. pose proof (take_length _ _ Hl) as Ht. unfold muxOpNameDigestLen in *.
  destruct (sha256hex name) as [|c r]; [cbn in Hl; lia|]. exists c. eexists. split; [reflexivity|]. split; [|exact Ht].
  cbn in Hh. by apply andb_true_iff in Hh as [? _].
Qed.

Lemma hex_no_run c s : hex_digit c = true -> scan true (String c s) = None.
Proof.
  intros Hc. cbn [scan]. rewrite decide_False by (by intros ->). rewrite bool_decide_false by (by intros ->). done.
Qed.

(** A sanitized name is the name, or a part without a run of dashes at its end, a dash and
    the digest. *)
Lemma sanitized_shape name : clean_cut name = true -> scan false name = Some false ->
  sanitizeMuxOpName sha256hex name = name \/
  exists base, sanitizeMuxOpName sha256hex name = base +:+ "-" +:+ digest sha256hex name /\ scan false base = Some false.
Proof.
  intros Hc Hs. apply scan_replaced in Hs as Ho. unfold clean_cut in Hc. unfold sanitizeMuxOpName.
  destruct (replace_unportable name) as [out replaced] eqn:E. cbn [fst] in *.
  destruct (negb _ && _) eqn:Hb.
  - left. apply andb_true_iff in Hb as [Hb _]. apply negb_true_iff in Hb. destruct (decide (out = "")) as [|]; [done|].
    pose proof (replaced_same name) as Hr. rewrite E in Hr. by apply Hr.
  - right. eexists. split; [reflexivity|]. change (muxOpNameMaxLen - muxOpNameDigestLen - 1) with 107.
    destruct (decide (107 < String.length out)) as [Hlt|]; [|exact Ho]. rewrite bool_decide_true in Hc by done. apply negb_true_iff in Hc. cbn [andb] in Hc.
    destruct (take_prefix 107 out) as [r Hr]. rewrite Hr, scan_app in Ho. destruct (scan false (string_take 107 out)) as [q|] eqn:Hq; [|done].
    f_equal. eapply scan_end; [exact Hq| |exact Hc]. intros He. pose proof (take_length 107 out) as Hl. rewrite He in Hl. cbn in Hl. lia.
Qed.

Lemma run_before_digest base name : scan false base = Some false -> scan false (base +:+ "-" +:+ digest sha256hex name) = None.
Proof.
  intros Hb. destruct (digest_starts name) as (c & r & -> & Hc & _). rewrite scan_app, Hb. exact (hex_no_run c r Hc).
Qed.

(** The identity of a compose project: a digest of its directory comes first. *)
Definition project_identity (ident : string) : Prop :=
  (exists c r, ident = String c r /\ hex_digit c = true) /\ 13 <= String.length ident.

Lemma hex_portable c : hex_digit c = true -> portable c = true.
Proof.
  unfold hex_digit, portable, in_range. rewrite !orb_true_iff, !andb_true_iff, !bool_decide_eq_true. lia.
Qed.

Lemma hex_not_dash c : hex_digit c = true -> c <> dash /\ c <> underscore.
Proof. intros H. split; by intros ->. Qed.

(** What the name of a compose operation begins with is no part of a joined name. *)
Lemma compose_scan c s : hex_digit c = true -> scan false ("compose-" +:+ String c s) = None.
Proof. intros Hc. change ("compose-" +:+ String c s) with ("compose" +:+ "-" +:+ String c s). rewrite !scan_app. exact (hex_no_run c s Hc). Qed.

Lemma prefix_eq a b x y : a +:+ x = b +:+ y -> String.length b <= String.length a -> exists z, a = b +:+ z.
Proof.
  revert b. induction a as [|c a IH]; intros [|d b] H Hl; cbn in *; try lia; [by exists ""|by eexists|].
  injection H as -> H. destruct (IH b H) as [z ->]; [lia|]. by exists z.
Qed.

(** The name of an operation tells its window.  When the digests of the two names tell
    them apart and no name is cut inside a run of dashes, then operations on two windows
    are registered and logged under one name only if the windows are on the same server and
    have the same identity; and no window shares its name with a compose project. *)
Theorem MuxOpLogName_distinct s1 i1 s2 i2 ident :
  clean_cut (joined_name s1 i1) = true -> clean_cut (joined_name s2 i2) = true -> project_identity ident ->
  (forall n1 n2, digest sha256hex n1 = digest sha256hex n2 -> n1 ∈ [joined_name s1 i1; joined_name s2 i2; "compose-" +:+ ident] ->
     n2 ∈ [joined_name s1 i1; joined_name s2 i2; "compose-" +:+ ident] -> n1 = n2) ->
  (MuxOpLogName sha256hex s1 i1 = MuxOpLogName sha256hex s2 i2 -> s1 = s2 /\ i1 = i2) /\
  MuxOpLogName sha256hex s1 i1 <> ComposeMuxOpLogName sha256hex ident.
Proof.
  intros H1 H2 ((c & r & -> & Hc) & Hlen) Hd. unfold MuxOpLogName, ComposeMuxOpLogName.
  pose proof (sanitized_shape _ H1 (scan_joined s1 i1)) as Sh1. pose proof (sanitized_shape _ H2 (scan_joined s2 i2)) as Sh2.
  set (n1 := joined_name s1 i1) in *. set (n2 := joined_name s2 i2) in *. set (n3 := "compose-" +:+ String c r) in *.
  assert (Hdl : forall n, String.length (digest sha256hex n) = 12) by (intros n; by destruct (digest_starts n) as (? & ? & _ & _ & ?)).
  assert (Hne : n1 <> n3) by (intros E; pose proof (scan_joined s1 i1) as Hs; fold n1 in Hs; rewrite E in Hs; unfold n3 in Hs; by rewrite compose_scan in Hs).
  split.
  - intros E. apply joined_inj. fold n1 n2. destruct Sh1 as [E1|(b1 & E1 & Hb1)], Sh2 as [E2|(b2 & E2 & Hb2)]; rewrite E1, E2 in E; [done|..].
    + pose proof (scan_joined s1 i1) as Hs. fold n1 in Hs. rewrite E, run_before_digest in Hs; done.
    + pose proof (scan_joined s2 i2) as Hs. fold n2 in Hs. rewrite <- E, run_before_digest in Hs; done.
    + rewrite !string_app_assoc in E. apply app_same_length in E as [_ E]; [|by rewrite !Hdl]. by apply Hd; [|left|right; left].
  - assert (H3 : (sanitizeMuxOpName sha256hex n3 = n3 /\ True) \/
      exists z, sanitizeMuxOpName sha256hex n3 = ("compose-" +:+ String c z) +:+ "-" +:+ digest sha256hex n3).
    { unfold sanitizeMuxOpName. assert (Ho : (replace_unportable n3).1 = "compose-" +:+ String c (replace_unportable r).1).
      { unfold n3. change ("compose-" +:+ String c r) with (("compose-" +:+ String c "") +:+ r). rewrite replace_app; [done|].
        cbn. rewrite (hex_portable c Hc). reflexivity. }
      destruct (replace_unportable n3) as [out replaced] eqn:Er. cbn [fst] in Ho. subst out. rewrite decide_False by done. destruct (_ && _) eqn:Hb.
      - left. split; [|done]. apply andb_true_iff in Hb as [Hb%negb_true_iff _]. pose proof (replaced_same n3) as Hr. rewrite Er in Hr. by apply Hr.
      - right. change (muxOpNameMaxLen - muxOpNameDigestLen - 1) with 107. destruct (decide (107 < _)); [|by exists (replace_unportable r).1]. exists (string_take 98 (replace_unportable r).1). reflexivity. }
    intros E. destruct Sh1 as [E1|(b1 & E1 & Hb1)], H3 as [[E3 _]|(z & E3)]; rewrite E1, E3 in E; [done|..].
    + pose proof (scan_joined s1 i1) as Hs. fold n1 in Hs. rewrite E, scan_app, compose_scan in Hs; done.
    + assert (Hl : String.length "compose-" <= String.length b1).
      { apply (f_equal String.length) in E. unfold n3 in E. rewrite !string_length_app, Hdl in E. cbn in E, Hlen |- *. lia. }
      destruct (prefix_eq b1 "compose-" ("-" +:+ digest sha256hex n1) (String c r) E Hl) as [z ->].
      unfold n3 in E. rewrite <- string_app_assoc in E. apply string_app_inj_l in E. destruct z as [|d z]; [discriminate Hb1|].
      injection E as -> _. by rewrite compose_scan in Hb1.
    + rewrite !string_app_assoc in E. apply app_same_length in E as [_ E]; [|by rewrite !Hdl]. apply Hne. apply Hd; [exact E|left|right; right; left].
Qed.

(** Cutting a name in the middle of two dashes joins it with another one. *)
Fixpoint repeated (c : ascii) (n : nat) : string := match n with 0 => "" | S n => String c (repeated c n) end.

Definition long_identity : string := repeated "a" 106 +:+ "-" +:+ repeated "a" 20.
Definition short_identity : string := repeated "a" 106 +:+ "-" +:+ digest sha256hex (joined_name "" long_identity).

Lemma escape_app a b : escapeMuxOpNamePart (a +:+ b) = escapeMuxOpNamePart a +:+ escapeMuxOpNamePart b.
Proof. induction a as [|c a IH]; [done|]. cbn. case_decide; cbn; by rewrite IH. Qed.

Lemma digest_hex name : string_forallb hex_digit (digest sha256hex name) = true.
Proof.
  destruct (sha256hex_hex name) as [Hh _]. unfold digest. destruct (take_prefix muxOpNameDigestLen (sha256hex name)) as [r Hr].
  rewrite Hr, string_forallb_app in Hh. by apply andb_true_iff in Hh as [? _].
Qed.

Lemma escape_hex s : string_forallb hex_digit s = true -> escapeMuxOpNamePart s = s /\ string_forallb portable s = true.
Proof.
  induction s as [|c s IH]; [done|]. cbn. intros [Hc Hs]%andb_true_iff. destruct (IH Hs) as [-> ->]. rewrite (hex_portable c Hc).
  rewrite decide_False by (by apply hex_not_dash). done.
Qed.

Lemma cut_joins_names : long_identity <> short_identity /\ MuxOpLogName sha256hex "" long_identity = MuxOpLogName sha256hex "" short_identity.
Proof.
  destruct (escape_hex _ (digest_hex (joined_name "" long_identity))) as [He Hp]. split.
  - unfold long_identity, short_identity. intros E. apply string_app_inj_l, string_app_inj_l, (f_equal String.length) in E.
    destruct (digest_starts (joined_name "" long_identity)) as (? & ? & _ & _ & Hl). rewrite Hl in E. discriminate E.
  - assert (Hs : joined_name "" short_identity = (repeated "a" 106 +:+ "--") +:+ digest sha256hex (joined_name "" long_identity)).
    { unfold joined_name. cbn [decide]. rewrite !decide_True by done. unfold short_identity. rewrite !escape_app, He. reflexivity. }
    unfold MuxOpLogName at 2. rewrite Hs. unfold sanitizeMuxOpName. rewrite replace_portable by (rewrite string_forallb_app, Hp; reflexivity).
    rewrite decide_False by discriminate. rewrite bool_decide_true by
      (rewrite string_length_app; destruct (digest_starts (joined_name "" long_identity)) as (? & ? & _ & _ & ->); vm_compute; lia).
    reflexivity.
Qed.
End Distinct.

(** A digest by the length of the name. *)
Definition demo_sha (s : string) : string :=
  match String.length s with 3 => "aaaaaaaaaaaa" | 5 => "bbbbbbbbbbbb" | _ => "cccccccccccc" end.

Lemma MuxOpLogName_distinct_witness :
  MuxOpLogName demo_sha "" "a b" = "a_b-aaaaaaaaaaaa" /\
  MuxOpLogName demo_sha "" "a b"
    <> ComposeMuxOpLogName demo_sha "0a1b2c3d4e5f-p".
Proof.
  split; [vm_compute; reflexivity|].
  destruct (MuxOpLogName_distinct demo_sha) with
    (s1 := "") (i1 := "a b") (s2 := "a") (i2 := "bc") (ident := "0a1b2c3d4e5f-p") as [_ H]; [..|exact H].
  - intros s. unfold demo_sha. repeat case_match; split; try reflexivity; vm_compute; lia.
  - vm_compute. reflexivity.
  - vm_compute. reflexivity.
  - split; [by eexists _, _|vm_compute; lia].
  - intros n1 n2 E Hn1 Hn2. rewrite !elem_of_cons, elem_of_nil in Hn1, Hn2.
    destruct Hn1 as [->|[->|[->|[]]]], Hn2 as [->|[->|[->|[]]]]; first [reflexivity|vm_compute in E; discriminate E].
Defined.
