(* ===== verification/HookDispatch.v ===== *)
(** * Running terminal hooks

    [cmdman/monitor/hooks.go]: what is captured from a command's output is handed to a
    queue of one, behind which a single worker runs the hooks.  Steps of the worker, of the
    output path and of the run loop interleave. *)

From S2P Require Import Prelude GoStr Model Config HookFilter RuntimeState.

(** ** The code *)

(* src/cmdman/monitor/hooks.go:24-27 hookQueueDepth *)
Definition hookQueueDepth : nat := 1.

Definition hook_kind (ev : hookEvent) : HookEvent :=
  match ev with HookTitle _ => HookEventTitle | HookBell => HookEventBell | HookNotification _ _ => HookEventNotification end.
Definition hook_title (ev : hookEvent) : string :=
  match ev with HookTitle t | HookNotification t _ => string_of_bytes t | HookBell => "" end.
Definition hook_body (ev : hookEvent) : string :=
  match ev with HookNotification _ b => string_of_bytes b | _ => "" end.

(* src/cmdman/monitor/hooks.go:40-50 hookInvocation *)
Record hookInvocation := { hi_event : hookEvent; hi_argv : list string; hi_dir : string; hi_env : list string }.

(** Where the worker is: not started, waiting, running a hook, gone. *)
Inductive worker := Unstarted | Waiting | Running (inv : hookInvocation) | Gone.

(* src/cmdman/monitor/hooks.go:56-76 hookDispatcher *)
Record hookDispatcher := MkDispatcher {
  hd_layers : HookLayers;
  hd_dir : string;
  hd_env : list string;
  hd_events : list hookInvocation;
  hd_worker : worker;
  hd_cancelled : bool;
  hd_dropped : Z;
}.

(* src/cmdman/monitor/hooks.go:78-87 newHookDispatcher *)
Definition newHookDispatcher : hookDispatcher :=
  MkDispatcher {| Frame := ∅; Command_ := ∅; Global := ∅ |} "" [] [] Unstarted false 0.

(* src/cmdman/monitor/hooks.go:89-99 hookDispatcher.configure *)
Definition configure (layers : HookLayers) (dir : string) (env : list string) (d : hookDispatcher) : hookDispatcher :=
  MkDispatcher layers dir env (hd_events d) (hd_worker d) (hd_cancelled d) (hd_dropped d).

(* src/cmdman/monitor/hooks.go:101-114 hookDispatcher.blocks *)
Definition dispatcher_blocks (d : option hookDispatcher) : hookBlocks :=
  match d with
  | None => {| Bell := false; Title := false; Notification := false |}
  | Some d => {| Bell := Blocks (Resolve (hd_layers d) HookEventBell);
                 Title := Blocks (Resolve (hd_layers d) HookEventTitle);
                 Notification := Blocks (Resolve (hd_layers d) HookEventNotification) |}
  end.

(* src/cmdman/monitor/hooks.go:178-182 hookDispatcher.resolve *)
Definition resolve_hook (d : hookDispatcher) (kind : HookEvent) : list string * string * list string :=
  (Exec (Resolve (hd_layers d) kind), hd_dir d, hd_env d).

(** The invocation an event would be queued as. *)
Definition invocation (d : hookDispatcher) (ev : hookEvent) : hookInvocation :=
  let '(argv, dir, env) := resolve_hook d (hook_kind ev) in
  {| hi_event := ev; hi_argv := argv; hi_dir := dir; hi_env := env |}.

(** The counter is a [uint64]. *)
(* src/cmdman/monitor/hooks.go:159-176 hookDispatcher.dispatch *)
Definition dispatch (ev : hookEvent) (d : hookDispatcher) : hookDispatcher :=
  let inv := invocation d ev in
  if decide (hi_argv inv = []) then d
  else if decide (length (hd_events d) < hookQueueDepth) then
    MkDispatcher (hd_layers d) (hd_dir d) (hd_env d) (hd_events d ++ [inv]) (hd_worker d) (hd_cancelled d) (hd_dropped d)
  else MkDispatcher (hd_layers d) (hd_dir d) (hd_env d) (hd_events d) (hd_worker d) (hd_cancelled d) ((hd_dropped d + 1) mod 2 ^ 64)%Z.

(** What is seen of the dispatcher: a hook started with its environment, and under a
    context that is done or not; the warning of a hook that failed; the report of [close]. *)
Inductive hookOut :=
| ExecHook (argv : list string) (dir : string) (env : list string) (cancelled : bool)
| HookFailed (kind : HookEvent) (program : string) (err : string)
| DroppedReport (count : Z).

Inductive hookLabel :=
| Configure (layers : HookLayers) (dir : string) (env : list string)
| Dispatch (ev : hookEvent)
| StartWorker
| Take
| Finish (err : option string)
| CancelHooks
| LeaveLoop
| CloseReport.

Definition with_worker (w : worker) (q : list hookInvocation) (d : hookDispatcher) : hookDispatcher :=
  MkDispatcher (hd_layers d) (hd_dir d) (hd_env d) q w (hd_cancelled d) (hd_dropped d).

(* src/cmdman/monitor/hooks.go:184-192 hookDispatcher.runHook *)
Definition hook_exec (inv : hookInvocation) (cancelled : bool) : hookOut :=
  ExecHook (hi_argv inv) (hi_dir inv)
    (WithHookEventEnv (hi_env inv) {| hee_Event := hook_kind (hi_event inv); hee_Title := hook_title (hi_event inv); hee_Body := hook_body (hi_event inv) |})
    cancelled.

(* src/cmdman/monitor/hooks.go:192-198 hookDispatcher.runHook *)
Definition hook_end (inv : hookInvocation) (err : option string) : list hookOut :=
  match err with None => [] | Some e => [HookFailed (hook_kind (hi_event inv)) (default "" (head (hi_argv inv))) e] end.

(** One step of the worker's loop: take an event, end the hook, or leave. *)
(* src/cmdman/monitor/hooks.go:148-157 hookDispatcher.run *)
Definition worker_step (l : hookLabel) (d : hookDispatcher) : option (hookDispatcher * list hookOut) :=
  match l, hd_worker d, hd_events d with
  | Take, Waiting, inv :: q => Some (with_worker (Running inv) q d, [hook_exec inv (hd_cancelled d)])
  | Finish err, Running inv, q => Some (with_worker Waiting q d, hook_end inv err)
  | LeaveLoop, Waiting, q => if hd_cancelled d then Some (with_worker Gone q d, []) else None
  | _, _, _ => None
  end.

(** [close] waits for the worker before it reports. *)
(* src/cmdman/monitor/hooks.go:130-146 hookDispatcher.close *)
Definition close_report (d : hookDispatcher) : option (hookDispatcher * list hookOut) :=
  match hd_worker d with
  | Gone => Some (d, if decide (0 < hd_dropped d)%Z then [DroppedReport (hd_dropped d)] else [])
  | _ => None
  end.

(* src/cmdman/monitor/hooks.go:116-128 hookDispatcher.start *)
Definition start_worker (d : hookDispatcher) : option (hookDispatcher * list hookOut) :=
  match hd_worker d with Unstarted => Some (with_worker Waiting (hd_events d) d, []) | _ => None end.

(* src/cmdman/monitor/hooks.go:116-182 hookDispatcher *)
Definition hook_step (l : hookLabel) (d : hookDispatcher) : option (hookDispatcher * list hookOut) :=
  match l with
  | Configure layers dir env => Some (configure layers dir env d, [])
  | Dispatch ev => Some (dispatch ev d, [])
  | StartWorker => start_worker d
  | CancelHooks => Some (MkDispatcher (hd_layers d) (hd_dir d) (hd_env d) (hd_events d) (hd_worker d) true (hd_dropped d), [])
  | CloseReport => close_report d
  | l => worker_step l d
  end.

Fixpoint hook_run (ls : list hookLabel) (d : hookDispatcher) : option (hookDispatcher * list hookOut) :=
  match ls with
  | [] => Some (d, [])
  | l :: ls =>
    match hook_step l d with
    | None => None
    | Some (d, o) => match hook_run ls d with None => None | Some (d, os) => Some (d, o ++ os) end
    end
  end.

(** ** What the dispatcher guarantees *)

(** An event as it was captured: with the configuration of that moment. *)
Record capture := MkCapture { cp_event : hookEvent; cp_layers : HookLayers; cp_dir : string; cp_env : list string }.

(** The kind of an event, and the title and the message it carries. *)
Definition event_says (ev : hookEvent) : string * string * string :=
  match ev with
  | HookBell => ("bell", "", "")
  | HookTitle t => ("title", string_of_bytes t, "")
  | HookNotification t b => ("notification", string_of_bytes t, string_of_bytes b)
  end.

(** The program configured for it: the frame's, or else the command's, or else the global
    one. *)
Definition program_of (c : capture) : list string :=
  let kind := (event_says (cp_event c)).1.1 in
  match Frame (cp_layers c) !! kind, Command_ (cp_layers c) !! kind, Global (cp_layers c) !! kind with
  | Some h, _, _ | None, Some h, _ | None, None, Some h => Exec h
  | None, None, None => []
  end.

(** The captures a run of steps makes, in order, from the configuration it starts with;
    an event without a program is none. *)
Fixpoint captures (ls : list hookLabel) (layers : HookLayers) (dir : string) (env : list string) : list capture :=
  match ls with
  | [] => []
  | Configure layers dir env :: ls => captures ls layers dir env
  | Dispatch ev :: ls =>
    let c := MkCapture ev layers dir env in
    (if decide (program_of c = []) then [] else [c]) ++ captures ls layers dir env
  | _ :: ls => captures ls layers dir env
  end.

(** What running a capture's hook is: its program, in its directory, and in its
    environment but for the three variables that say what was captured. *)
Definition runs_capture (c : capture) (o : hookOut) : Prop :=
  exists env cancelled, o = ExecHook (program_of c) (cp_dir c) env cancelled /\
    forall v, var_name v ->
      values v env =
      let '(kind, title, body) := event_says (cp_event c) in
      if decide (v = "CMDMAN_HOOK_EVENT") then [kind]
      else if decide (v = "CMDMAN_HOOK_TITLE") then [title]
      else if decide (v = "CMDMAN_HOOK_BODY") then [body]
      else values v (cp_env c).

(** What is queued for a capture. *)
Definition queued_for (c : capture) (inv : hookInvocation) : Prop :=
  inv = {| hi_event := cp_event c; hi_argv := program_of c; hi_dir := cp_dir c; hi_env := cp_env c |}.

(** The hooks that were started, in order. *)
Definition started (os : list hookOut) : list hookOut :=
  omap (fun o => match o with ExecHook _ _ _ _ => Some o | _ => None end) os.

Lemma invocation_queued d ev : queued_for (MkCapture ev (hd_layers d) (hd_dir d) (hd_env d)) (invocation d ev).
Proof.
  unfold queued_for, invocation, resolve_hook, program_of. cbn [cp_event cp_layers cp_dir cp_env]. f_equal.
  unfold Resolve. destruct ev; cbn [hook_kind event_says fst]; unfold HookEventBell, HookEventTitle, HookEventNotification;
    by destruct (Frame _ !! _); [|destruct (Command_ _ !! _); [|destruct (Global _ !! _)]].
Qed.

Lemma hook_exec_runs c inv cancelled : queued_for c inv -> runs_capture c (hook_exec inv cancelled).
Proof.
  intros ->. do 2 eexists. split; [reflexivity|]. intros v Hv. unfold WithHookEventEnv.
  rewrite values_with_vars by (done || names_ok). cbn [hi_event hi_env hee_Event hee_Title hee_Body].
  unfold ENV_CMDMAN_HOOK_EVENT, ENV_CMDMAN_HOOK_TITLE, ENV_CMDMAN_HOOK_BODY. cbn [fmap list_fmap fst].
  replace (event_says (cp_event c)) with (hook_kind (cp_event c), hook_title (cp_event c), hook_body (cp_event c)) by (by destruct (cp_event c)).
  repeat match goal with |- context [decide (v = ?x)] => destruct (decide (v = x)) as [->|]; [vm_compute; reflexivity|] end.
  rewrite decide_False; [done|]. rewrite !elem_of_cons, elem_of_nil. naive_solver.
Qed.

(** One step: it starts what was queued first, queues what it captures, or drops it. *)
Lemma hook_step_queue l d d' os ws :
  Forall2 queued_for ws (hd_events d) -> length (hd_events d) <= hookQueueDepth -> hook_step l d = Some (d', os) ->
  length (hd_events d') <= hookQueueDepth /\
  exists rs ws', Forall2 runs_capture rs (started os) /\ Forall2 queued_for ws' (hd_events d') /\
  ((rs ++ ws' = ws ++ captures [l] (hd_layers d) (hd_dir d) (hd_env d) /\ hd_dropped d' = hd_dropped d) \/
   (rs = [] /\ ws' = ws /\ exists x, captures [l] (hd_layers d) (hd_dir d) (hd_env d) = [x] /\ hd_dropped d' = (hd_dropped d + 1) mod 2 ^ 64)%Z).
Proof.
  assert (Hsame : forall w, Forall2 queued_for ws (hd_events w) -> length (hd_events w) <= hookQueueDepth -> forall o, started o = [] -> hd_dropped w = hd_dropped d ->
    length (hd_events w) <= hookQueueDepth /\ exists rs ws', Forall2 runs_capture rs (started o) /\ Forall2 queued_for ws' (hd_events w) /\
    ((rs ++ ws' = ws ++ [] /\ hd_dropped w = hd_dropped d) \/ (rs = [] /\ ws' = ws /\ exists x : capture, [] = [x] /\ hd_dropped w = (hd_dropped d + 1) mod 2 ^ 64)%Z)).
  { intros w Hw Hl o -> Hd. split; [done|]. exists [], ws. split; [constructor|]. split; [done|]. left. by rewrite app_nil_r. }
  intros Hws Hq H. destruct l as [layers dir env|ev| | |err| | |]; cbn [captures]; simpl in H.
  - injection H as <- <-. by apply (Hsame (configure layers dir env d)).
  - injection H as <- <-. unfold dispatch. cbv zeta. pose proof (invocation_queued d ev) as Hi. unfold queued_for in Hi. rewrite Hi. cbn [hi_argv cp_event cp_layers cp_dir cp_env].
    case_decide as Ha; [by apply (Hsame d)|]. case_decide as Hl; simpl.
    + split; [rewrite length_app; simpl; unfold hookQueueDepth in *; lia|]. exists [], (ws ++ [MkCapture ev (hd_layers d) (hd_dir d) (hd_env d)]).
      split; [constructor|]. split; [by apply Forall2_app; [|repeat constructor]|by left].
    + split; [done|]. exists [], ws. split; [constructor|]. split; [done|]. right. split; [done|]. split; [done|]. by eexists.
  - unfold start_worker in H. destruct (hd_worker d); try done. injection H as <- <-. by apply (Hsame (with_worker Waiting (hd_events d) d)).
  - unfold worker_step in H. destruct (hd_worker d); try done. destruct Hws as [|c inv ws q Hc Hws]; [done|]. injection H as <- <-.
    simpl in *. split; [lia|]. exists [c], ws. split; [repeat constructor; by apply hook_exec_runs|]. split; [done|]. left. by rewrite ?app_nil_r.
  - unfold worker_step in H. destruct (hd_worker d) as [| |inv|]; try done. injection H as <- <-.
    apply (Hsame (with_worker Waiting (hd_events d) d)); [done|done|by destruct err|done].
  - injection H as <- <-. by apply (Hsame (MkDispatcher (hd_layers d) (hd_dir d) (hd_env d) (hd_events d) (hd_worker d) true (hd_dropped d))).
  - unfold worker_step in H. destruct (hd_worker d); try done. destruct (hd_cancelled d); [|done]. injection H as <- <-.
    by apply (Hsame (with_worker Gone (hd_events d) d)).
  - unfold close_report in H. destruct (hd_worker d); try done. injection H as <- <-. apply (Hsame d); [done|done|by case_decide|done].
Qed.

(** The next captures are made under the configuration the step leaves. *)
Lemma captures_cons l ls d d' os :
  hook_step l d = Some (d', os) ->
  captures (l :: ls) (hd_layers d) (hd_dir d) (hd_env d) =
  captures [l] (hd_layers d) (hd_dir d) (hd_env d) ++ captures ls (hd_layers d') (hd_dir d') (hd_env d').
Proof.
  intros H. destruct l; cbn [captures]; simpl in H; unfold start_worker, worker_step, close_report, dispatch in H;
    repeat case_match; simplify_eq/=; rewrite ?app_nil_r; done.
Qed.

Lemma hook_run_queue ls d0 d os ws :
  Forall2 queued_for ws (hd_events d0) -> length (hd_events d0) <= hookQueueDepth -> (0 <= hd_dropped d0 < 2 ^ 64)%Z ->
  hook_run ls d0 = Some (d, os) ->
  let all := ws ++ captures ls (hd_layers d0) (hd_dir d0) (hd_env d0) in
  length (hd_events d) <= hookQueueDepth /\
  exists rs ws' n, Forall2 runs_capture rs (started os) /\ Forall2 queued_for ws' (hd_events d) /\
    rs ++ ws' `sublist_of` all /\ length all = length (rs ++ ws') + n /\ hd_dropped d = ((hd_dropped d0 + Z.of_nat n) mod 2 ^ 64)%Z.
Proof.
  revert d0 os ws. induction ls as [|l ls IH]; intros d0 os ws Hws Hq Hd H; cbn [hook_run] in H.
  - injection H as <- <-. cbn [captures]. split; [done|]. exists [], ws, 0. split; [constructor|]. split; [done|]. rewrite app_nil_r.
    split; [done|]. split; [simpl; lia|]. rewrite Z.add_0_r, Z.mod_small; done.
  - destruct (hook_step l d0) as [[d1 o1]|] eqn:Hs; [|done]. destruct (hook_run ls d1) as [[d2 o2]|] eqn:Hr; [|done]. injection H as <- <-.
    rewrite (captures_cons _ ls _ _ _ Hs).
    destruct (hook_step_queue _ _ _ _ _ Hws Hq Hs) as (Hq1 & r1 & w1 & Hr1 & Hw1 & Hc). set (c := captures [l] _ _ _) in *.
    assert (Hd1 : (0 <= hd_dropped d1 < 2 ^ 64)%Z) by (destruct Hc as [[_ ->]|(_ & _ & x & _ & ->)]; [done|apply Z.mod_pos_bound; lia]).
    destruct (IH d1 o2 w1 Hw1 Hq1 Hd1 Hr) as (Hq2 & r2 & w2 & n & Hr2 & Hw2 & Hsub & Hn & Hdr). split; [done|].
    destruct Hc as [[Hc Hdc]|(-> & -> & x & Hx & Hdc)].
    + exists (r1 ++ r2), w2, n. unfold started in *. rewrite omap_app. split; [by apply Forall2_app|]. split; [done|].
      rewrite app_assoc, <- Hc, <- !app_assoc. split; [by apply sublist_app|]. rewrite !length_app in *. split; [lia|congruence].
    + exists r2, w2, (S n). unfold started in *. rewrite omap_app. apply Forall2_nil_inv_l in Hr1 as ->. split; [done|]. split; [done|].
      rewrite Hx. split; [etrans; [exact Hsub|]; apply sublist_app; [done|by apply sublist_cons]|].
      rewrite !length_app in *. simpl. split; [lia|]. rewrite Hdr, Hdc, Zplus_mod_idemp_l. f_equal. lia.
Qed.

(** C33: hooks run in the order of what was captured, each at most once.  The one that
    runs for a capture is the program configured for its kind in the first layer that has
    one, under the configuration at the capture, and its environment gives the three
    variables of the event one value each, the kind, the title and the message captured,
    and every other variable the values it had.  At most one capture waits; those that
    neither ran nor wait are exactly those that were counted as dropped, and an event is
    dropped only while another waits. *)
Theorem hooks_follow_captures ls d os :
  hook_run ls newHookDispatcher = Some (d, os) ->
  let all := captures ls {| Frame := ∅; Command_ := ∅; Global := ∅ |} "" [] in
  (exists ran waiting, Forall2 runs_capture ran (started os) /\ Forall2 queued_for waiting (hd_events d) /\ length waiting <= 1 /\
    ran ++ waiting `sublist_of` all /\
    hd_dropped d = (Z.of_nat (length all - length (ran ++ waiting)) mod 2 ^ 64)%Z) /\
  forall l1 ev l2 d1 o1, ls = l1 ++ Dispatch ev :: l2 -> hook_run l1 newHookDispatcher = Some (d1, o1) ->
    hd_dropped (dispatch ev d1) <> hd_dropped d1 -> hd_events d1 <> [].
Proof.
  intros H all. split.
  - destruct (hook_run_queue ls newHookDispatcher d os []) as (Hq & rs & ws & n & Hr & Hw & Hs & Hn & Hd);
      [constructor|simpl; lia|simpl; lia|done|]. simpl in Hs, Hn, Hd. fold all in Hs, Hn.
    exists rs, ws. split; [done|]. split; [done|]. split; [by rewrite (Forall2_length _ _ _ Hw)|]. split; [done|].
    rewrite Hd. do 2 f_equal. lia.
  - intros l1 ev l2 d1 o1 _ _ Hne He. apply Hne. unfold dispatch. cbv zeta. case_decide; [done|]. rewrite He. done.
Qed.

Definition bell_hook (argv : list string) : HookLayers := {| Frame := {["bell" := MkHook "" argv]}; Command_ := ∅; Global := ∅ |}.

(** The queue holds a bell of the run before while the next run is configured. *)
Definition two_runs : list hookLabel :=
  [StartWorker; Configure (bell_hook ["one"]) "/a" []; Dispatch HookBell; Take; Dispatch HookBell; Dispatch HookBell;
   Configure (bell_hook ["two"]) "/b" []; Finish None; Take].

Lemma hooks_follow_captures_witness :
  exists d os ran, hook_run two_runs newHookDispatcher = Some (d, os) /\ Forall2 runs_capture ran (started os) /\
    (program_of <$> ran) = [["one"]; ["one"]] /\ hd_dropped d = 1%Z.
Proof.
  destruct (hook_run two_runs newHookDispatcher) as [[d os]|] eqn:E; [|vm_compute in E; discriminate E].
  exists d, os. destruct (hooks_follow_captures two_runs d os E) as [(ran & waiting & Hr & Hw & _ & Hs & _) _].
  exists ran. split; [reflexivity|]. split; [exact Hr|].
  assert (H : length (started os) = 2 /\ hd_dropped d = 1%Z) by (vm_compute in E; injection E as <- <-; by split).
  destruct H as [H1 H2]. split; [|exact H2]. apply Forall2_length in Hr. rewrite H1 in Hr.
  assert (Hall : Forall (fun c => program_of c = ["one"]) ran).
  { apply Forall_forall. intros c Hc. assert (Hin : c ∈ captures two_runs {| Frame := ∅; Command_ := ∅; Global := ∅ |} "" [])
      by (eapply elem_of_submseteq; [|by apply sublist_submseteq]; apply elem_of_app; by left).
    cbn in Hin. repeat (apply elem_of_cons in Hin as [->|Hin]; [reflexivity|]). by apply elem_of_nil in Hin. }
  destruct ran as [|c1 [|c2 [|]]]; try discriminate Hr. inversion Hall as [|? ? P1 Q1]; subst. inversion Q1 as [|? ? P2 _]; subst.
  simpl. by rewrite P1, P2.
Defined.

(** *** Closing *)

Definition worker_label (l : hookLabel) : Prop := match l with Take | Finish _ | LeaveLoop => True | _ => False end.

(** The steps the worker has left when nothing more is captured. *)
Definition worker_left (d : hookDispatcher) : nat :=
  match hd_worker d with Unstarted | Gone => 0 | Waiting => 2 * length (hd_events d) + 1 | Running _ => 2 * length (hd_events d) + 2 end.

Lemma worker_step_left l d d' os : worker_label l -> hook_step l d = Some (d', os) -> worker_left d = S (worker_left d') \/ hd_worker d' = Gone.
Proof.
  intros Hl H. destruct l; try done; simpl in H; unfold worker_step in H; unfold worker_left.
  - destruct (hd_worker d); try done. destruct (hd_events d) as [|inv q]; [done|]. injection H as <- _. simpl. left. lia.
  - destruct (hd_worker d); try done. injection H as <- _. simpl. left. lia.
  - destruct (hd_worker d); try done. destruct (hd_cancelled d); [|done]. injection H as <- _. by right.
Qed.

(** The worker of a dispatcher that was cancelled can always go on until it is gone, and it
    is after at most as many steps as it has left: close returns. *)
Theorem close_returns d : hd_cancelled d = true -> hd_worker d <> Unstarted ->
  (hd_worker d <> Gone -> exists l d' os, worker_label l /\ hook_step l d = Some (d', os)) /\
  forall ls d' os, Forall worker_label ls -> hook_run ls d = Some (d', os) -> length ls <= worker_left d.
Proof.
  intros Hc Hu. split.
  - intros Hg. destruct (hd_worker d) as [| |inv|] eqn:Hw; try done.
    + exists LeaveLoop. eexists _, _. split; [done|]. simpl. unfold worker_step. by rewrite Hw, Hc.
    + exists (Finish None). eexists _, _. split; [done|]. simpl. unfold worker_step. by rewrite Hw.
  - intros ls d' os Hl. clear Hc Hu. revert d os. induction Hl as [|l ls Hl Hls IH]; intros d os H; simpl in H; [simpl; lia|].
    destruct (hook_step l d) as [[d1 o1]|] eqn:Hs; [|done]. destruct (hook_run ls d1) as [[d2 o2]|] eqn:Hr; [|done]. injection H as -> _.
    destruct (worker_step_left _ _ _ _ Hl Hs) as [Hw|Hg]; [apply IH in Hr; simpl; lia|].
    destruct ls as [|l2 ls]; [|exfalso; inversion Hls as [|? ? Hl2 _]; simpl in Hr; destruct l2; try done; unfold hook_step, worker_step in Hr; by rewrite Hg in Hr].
    simpl. destruct l; try done; simpl in Hs; unfold worker_step, worker_left in *; destruct (hd_worker d); try done; lia.
Qed.
