(* ===== verification/Streams.v ===== *)
(** * The streams of the monitor's server

    [cmdman/monitor/runtime_stream.go] and the stream handlers of [mon_server.go]: the
    views of the runtime state as they change, the log lines of a subscriber, and the
    output of an attached viewer.  The handler and the run are steps that interleave;
    channels hold what [broadcaster.go] lets them hold. *)

From S2P Require Import Prelude LogDriver Model Broadcaster HookFilter RuntimeState.

(** ** Views of the runtime state *)

(* src/cmdman/monitor/runtime_state.go:49-60 runtimeView *)
Record runtimeView := { rv_Title : list Z; rv_Cwd : list Z; rv_Status : reportedStatus; rv_Detail : list Z; rv_BellUnread : bool }.

#[export] Instance runtimeView_eq_dec : EqDecision runtimeView.
Proof. solve_decision. Defined.

(** [cwdPath] is the decoding of a URL by [net/url]. *)
(* src/cmdman/monitor/runtime_state.go:62-70 runtimeSnapshot.view *)
Definition view (cwdPath : list Z -> list Z) (s : latched) : runtimeView :=
  {| rv_Title := title s; rv_Cwd := cwdPath (cwd s); rv_Status := status s; rv_Detail := detail s; rv_BellUnread := bellUnread s |}.

(* src/cmdman/monitor/runtime_stream.go:99-103 titleOnlyChange *)
Definition titleOnlyChange (prev cur : runtimeView) : bool :=
  bool_decide ({| rv_Title := rv_Title cur; rv_Cwd := rv_Cwd prev; rv_Status := rv_Status prev; rv_Detail := rv_Detail prev;
                  rv_BellUnread := rv_BellUnread prev |} = cur).

(* src/cmdman/monitor/mon.go:451-453 isMonitorActiveState *)
Definition isMonitorActiveState (s : EventType) : bool := bool_decide (s = EventTypeStarting) || bool_decide (s = EventTypeRunning).

(** Where the handler is: subscribed but nothing sent, at its [select], woken, with its
    window elapsed, with the run over, or returned. *)
Inductive watchEnd := WatchOver | WatchCancelled | WatchSendFailed.
Inductive watchPc := WSubscribed | WSelect | WWoken | WFired | WOver | WEnded (e : watchEnd).

(** The handler with what it shares: the current view, the change signals that latches have
    still to send, the wakes in its channel, and the state changes in the other. *)
Record watch := MkWatch {
  w_cur : runtimeView;
  w_signals : nat;
  w_wakes : nat;
  w_states : list EventType;
  w_statesClosed : bool;
  w_cancelled : bool;
  w_pc : watchPc;
  w_sent : runtimeView;
  w_fire : bool;
  w_out : list runtimeView;
}.

Definition subscribed (v : runtimeView) : watch := MkWatch v 0 0 [] false false WSubscribed v false [].

Inductive watchLabel :=
| Latch (v : runtimeView) | Signal | PublishState (s : EventType) | CloseStates | CancelWatch
| FirstSend (ok : bool) | Wake | Inspect (ok : bool) | Fire | Flush (ok : bool) | StateReceived | CtxReceived.

Definition goto (pc : watchPc) (w : watch) : watch :=
  MkWatch (w_cur w) (w_signals w) (w_wakes w) (w_states w) (w_statesClosed w) (w_cancelled w) pc (w_sent w) (w_fire w) (w_out w).
Definition set_fire (f : bool) (w : watch) : watch :=
  MkWatch (w_cur w) (w_signals w) (w_wakes w) (w_states w) (w_statesClosed w) (w_cancelled w) (w_pc w) (w_sent w) f (w_out w).

(** Sends the current view, and goes to [pc] unless that fails. *)
Definition send_view (ok : bool) (pc : watchPc) (w : watch) : watch :=
  MkWatch (w_cur w) (w_signals w) (w_wakes w) (w_states w) (w_statesClosed w) (w_cancelled w)
    (if ok then pc else WEnded WatchSendFailed) (w_cur w) (w_fire w) (w_out w ++ [w_cur w]).

(* src/cmdman/monitor/runtime_stream.go:47-54 streamRuntimeState *)
Definition flush (ok : bool) (pc : watchPc) (w : watch) : watch :=
  if decide (w_cur w = w_sent w) then goto pc w else send_view ok pc w.

(** The run: a latch changes the view first and signals it after, a signal or a state that
    finds the channel full is dropped. *)
Definition run_step (l : watchLabel) (w : watch) : option watch :=
  match l with
  | Latch v => Some (MkWatch v (S (w_signals w)) (w_wakes w) (w_states w) (w_statesClosed w) (w_cancelled w) (w_pc w) (w_sent w) (w_fire w) (w_out w))
  | Signal =>
    match w_signals w with
    | 0 => None
    | S n => Some (MkWatch (w_cur w) n (if decide (w_wakes w < room) then S (w_wakes w) else w_wakes w) (w_states w) (w_statesClosed w)
                     (w_cancelled w) (w_pc w) (w_sent w) (w_fire w) (w_out w))
    end
  | PublishState s =>
    if w_statesClosed w then None
    else Some (MkWatch (w_cur w) (w_signals w) (w_wakes w) (if decide (length (w_states w) < room) then w_states w ++ [s] else w_states w)
                 false (w_cancelled w) (w_pc w) (w_sent w) (w_fire w) (w_out w))
  | CloseStates => Some (MkWatch (w_cur w) (w_signals w) (w_wakes w) (w_states w) true (w_cancelled w) (w_pc w) (w_sent w) (w_fire w) (w_out w))
  | CancelWatch => Some (MkWatch (w_cur w) (w_signals w) (w_wakes w) (w_states w) (w_statesClosed w) true (w_pc w) (w_sent w) (w_fire w) (w_out w))
  | _ => None
  end.

(** A woken handler compares the current view with what it sent last. *)
(* src/cmdman/monitor/runtime_stream.go:58-80 streamRuntimeState *)
Definition inspect (ok : bool) (w : watch) : watch :=
  if decide (w_cur w = w_sent w) then goto WSelect w
  else if titleOnlyChange (w_sent w) (w_cur w) then goto WSelect (set_fire true w)
  else send_view ok WSelect (set_fire false w).

(* src/cmdman/monitor/runtime_stream.go:86-92 streamRuntimeState *)
Definition state_received (w : watch) : option watch :=
  match w_states w with
  | s :: q =>
    Some (MkWatch (w_cur w) (w_signals w) (w_wakes w) q (w_statesClosed w) (w_cancelled w)
            (if isMonitorActiveState s then WSelect else WOver) (w_sent w) (w_fire w) (w_out w))
  | [] => if w_statesClosed w then Some (goto WOver w) else None
  end.

(* src/cmdman/monitor/runtime_stream.go:13-97 streamRuntimeState *)
Definition watch_step (l : watchLabel) (w : watch) : option watch :=
  match l, w_pc w with
  | FirstSend ok, WSubscribed => Some (send_view ok WSelect w)
  | Wake, WSelect =>
    match w_wakes w with
    | 0 => None
    | S n => Some (MkWatch (w_cur w) (w_signals w) n (w_states w) (w_statesClosed w) (w_cancelled w) WWoken (w_sent w) (w_fire w) (w_out w))
    end
  | Inspect ok, WWoken => Some (inspect ok w)
  | Fire, WSelect => if w_fire w then Some (goto WFired (set_fire false w)) else None
  | Flush ok, WFired => Some (flush ok WSelect w)
  | StateReceived, WSelect => state_received w
  | Flush ok, WOver => Some (flush ok (WEnded WatchOver) w)
  | CtxReceived, WSelect => if w_cancelled w then Some (goto (WEnded WatchCancelled) w) else None
  | l, _ => run_step l w
  end.

Fixpoint watch_run (ls : list watchLabel) (w : watch) : option watch :=
  match ls with
  | [] => Some w
  | l :: ls => match watch_step l w with Some w => watch_run ls w | None => None end
  end.

(** ** Lines and output *)

(** What the handlers of a subscriber and of a viewer receive from: the lines, the state
    changes, what the viewer sends, and the context. *)
Record feed := MkFeed {
  fd_lines : list LogLine;
  fd_linesClosed : bool;
  fd_states : list EventType;
  fd_statesClosed : bool;
  fd_recv : option bool;  (* the end of what the viewer sends: [true] at EOF *)
  fd_cancelled : bool;
}.

Inductive feedLabel := TakeLine (ok : bool) | TakeState | TakeRecv | TakeCtx.
Inductive feedEnd := FeedDone | FeedSendFailed | FeedRecvFailed | FeedCancelled.

Definition take_state (f : feed) : option (feed * option feedEnd) :=
  match fd_states f with
  | s :: q => Some (MkFeed (fd_lines f) (fd_linesClosed f) q (fd_statesClosed f) (fd_recv f) (fd_cancelled f),
                    if isMonitorActiveState s then None else Some FeedDone)
  | [] => if fd_statesClosed f then Some (f, Some FeedDone) else None
  end.

Definition take_line (f : feed) : option (feed * option LogLine) :=
  match fd_lines f with
  | x :: q => Some (MkFeed q (fd_linesClosed f) (fd_states f) (fd_statesClosed f) (fd_recv f) (fd_cancelled f), Some x)
  | [] => if fd_linesClosed f then Some (f, None) else None
  end.

(** One round of the subscriber's loop: what is left, what is sent, and the end. *)
(* src/cmdman/monitor/mon_server.go:231-252 monitorServer.Subscribe *)
Definition subscribe_step (l : feedLabel) (f : feed) : option (feed * list LogLine * option feedEnd) :=
  match l with
  | TakeLine ok =>
    match take_line f with
    | None => None
    | Some (f, None) => Some (f, [], Some FeedDone)
    | Some (f, Some x) => Some (f, if (ok : bool) then [x] else [], if ok then None else Some FeedSendFailed)
    end
  | TakeState => match take_state f with None => None | Some (f, e) => Some (f, [], e) end
  | TakeCtx => if fd_cancelled f then Some (f, [], Some FeedCancelled) else None
  | TakeRecv => None
  end.

(** One round of the viewer's loop, its output behind the filter. *)
(* src/cmdman/monitor/mon_server.go:177-206 monitorServer.Attach *)
Definition attach_step (l : feedLabel) (s : feed * option hookFilter) : option (feed * option hookFilter * list (list Z) * option feedEnd) :=
  let '(f, flt) := s in
  match l with
  | TakeLine ok =>
    match take_line f with
    | None => None
    | Some (f, None) => Some (f, flt, [], Some FeedDone)
    | Some (f, Some x) =>
      let '(flt, data) := hook_filter flt (Line x) in
      if decide (data = []) then Some (f, flt, [], None)
      else Some (f, flt, if (ok : bool) then [data] else [], if ok then None else Some FeedSendFailed)
    end
  | TakeRecv =>
    match fd_recv f with
    | None => None
    | Some eof => Some (f, flt, [], Some (if (eof : bool) then FeedDone else FeedRecvFailed))
    end
  | TakeState => match take_state f with None => None | Some (f, e) => Some (f, flt, [], e) end
  | TakeCtx => if fd_cancelled f then Some (f, flt, [], Some FeedCancelled) else None
  end.

(** What a viewer is sent first: the size of the terminal, the screen, the terminal modes. *)
Inductive attachMsg := ResizeMsg (rows cols : Z) | StdoutMsg (data : list Z).

Definition stdout_msg (data : list Z) : list attachMsg := if decide (data = []) then [] else [StdoutMsg data].

(* src/cmdman/monitor/mon_server.go:117-138 monitorServer.Attach *)
Definition attach_opening (blocks : hookBlocks) (size : option (Z * Z)) (scrollback terminalState : list Z)
  : list attachMsg * option hookFilter :=
  let '(flt, d1) := hook_filter (newHookFilter blocks) scrollback in
  let '(flt, d2) := hook_filter flt terminalState in
  ((match size with Some (r, c) => [ResizeMsg r c] | None => [] end) ++ stdout_msg d1 ++ stdout_msg d2, flt).

Fixpoint subscribe_run (ls : list feedLabel) (f : feed) : option (list LogLine * feed * option feedEnd) :=
  match ls with
  | [] => Some ([], f, None)
  | l :: ls =>
    match subscribe_step l f with
    | None => None
    | Some (f, out, Some e) => if decide (ls = []) then Some (out, f, Some e) else None
    | Some (f, out, None) => match subscribe_run ls f with Some (outs, f, e) => Some (out ++ outs, f, e) | None => None end
    end
  end.

Fixpoint attach_run (ls : list feedLabel) (s : feed * option hookFilter) : option (list (list Z) * feed * option feedEnd) :=
  match ls with
  | [] => Some ([], s.1, None)
  | l :: ls =>
    match attach_step l s with
    | None => None
    | Some (f, _, out, Some e) => if decide (ls = []) then Some (out, f, Some e) else None
    | Some (f, flt, out, None) => match attach_run ls (f, flt) with Some (outs, f, e) => Some (out ++ outs, f, e) | None => None end
    end
  end.

(** ** Reported statuses *)

Section Status.
(** The enumeration of the wire, with what a newer peer may add. *)
Inductive pbStatus := PbUnspecified | PbWorking | PbWaiting | PbDone | PbOther (n : Z).

(* src/cmdman/monitor/mon_server.go:429-440 protoReportedStatus *)
Definition protoReportedStatus (s : reportedStatus) : pbStatus :=
  match s with
  | reportedStatusWorking => PbWorking
  | reportedStatusWaiting => PbWaiting
  | reportedStatusDone => PbDone
  | reportedStatusNone => PbUnspecified
  end.

(* src/cmdman/monitor/mon_server.go:442-455 reportedStatusFromProto *)
Definition reportedStatusFromProto (s : pbStatus) : reportedStatus * bool :=
  match s with
  | PbWorking => (reportedStatusWorking, true)
  | PbWaiting => (reportedStatusWaiting, true)
  | PbDone => (reportedStatusDone, true)
  | PbUnspecified => (reportedStatusNone, true)
  | PbOther _ => (reportedStatusNone, false)
  end.

(** [Err] is the code [InvalidArgument]. *)
(* src/cmdman/monitor/mon_server.go:343-355 monitorServer.SetReportedStatus *)
Definition SetReportedStatus (s : pbStatus) (detail : list Z) (st : commandRuntimeState) : result pbStatus unit * commandRuntimeState :=
  let '(reported, ok) := reportedStatusFromProto s in
  if negb ok || bool_decide (reported = reportedStatusNone) then (Err s, st) else (Ok tt, setReport reported detail st).

(* src/cmdman/monitor/mon_server.go:357-366 monitorServer.GetReportedStatus *)
Definition GetReportedStatus (st : commandRuntimeState) : pbStatus * list Z := (protoReportedStatus (status (vals st)), detail (vals st)).

(* src/cmdman/monitor/mon_server.go:368-374 monitorServer.DeleteReportedStatus *)
Definition DeleteReportedStatus (st : commandRuntimeState) : commandRuntimeState := clearReport st.
End Status.

(** ** What the streams guarantee *)

(** The stream knows of every change it has not sent. *)
Definition watch_known (w : watch) : Prop :=
  match w_pc w with
  | WSelect => w_sent w = w_cur w \/ 0 < w_signals w \/ 0 < w_wakes w \/ w_fire w = true
  | _ => True
  end.

Definition no_repeats {A} (l : list A) : Prop := forall i a b, l !! i = Some a -> l !! S i = Some b -> a <> b.

Lemma no_repeats_snoc {A} (l : list A) y : no_repeats l -> (forall x, last l = Some x -> x <> y) -> no_repeats (l ++ [y]).
Proof.
  intros Hl Hy i a b Ha Hb. destruct (decide (S i < length l)) as [Hi|Hi].
  - rewrite lookup_app_l in Ha, Hb by lia. by apply (Hl i).
  - apply lookup_lt_Some in Hb as Hlt. rewrite length_app in Hlt. simpl in Hlt. assert (S i = length l) as Hi' by lia.
    rewrite lookup_app_l in Ha by lia. rewrite lookup_app_r, Hi', Nat.sub_diag in Hb by lia. injection Hb as <-.
    apply Hy. rewrite last_lookup, <- Hi'. done.
Qed.

(** The messages end with what was sent last, and none repeats the one before it. *)
Definition watch_msgs (w : watch) : Prop :=
  match w_pc w with
  | WSubscribed => w_out w = [] /\ w_fire w = false
  | _ => last (w_out w) = Some (w_sent w)
  end /\ no_repeats (w_out w).

Definition watch_inv (w : watch) : Prop := watch_known w /\ watch_msgs w.

Lemma send_view_inv ok pc w : pc <> WSubscribed -> no_repeats (w_out w) -> (forall x, last (w_out w) = Some x -> x <> w_cur w) ->
  watch_inv (send_view ok pc w).
Proof.
  intros Hp Hn Hl. unfold watch_inv, watch_known, watch_msgs, send_view; simpl. rewrite last_snoc.
  split; [destruct ok; [|done]; destruct pc; try done; by left|]. split; [by destruct ok, pc|by apply no_repeats_snoc].
Qed.

(** A step that leaves the handler where it was and adds no less to know. *)
Lemma run_step_inv l w w' : watch_inv w -> run_step l w = Some w' -> watch_inv w'.
Proof.
  intros [Hk Hm] H. assert (Hpc : w_pc w' = w_pc w /\ w_out w' = w_out w /\ w_sent w' = w_sent w /\ w_fire w' = w_fire w /\
    (w_sent w = w_cur w \/ 0 < w_signals w \/ 0 < w_wakes w \/ w_fire w = true ->
     w_sent w' = w_cur w' \/ 0 < w_signals w' \/ 0 < w_wakes w' \/ w_fire w' = true)).
  { destruct l; simpl in H; try done.
    - injection H as <-. simpl. repeat split. intros _. right; left; lia.
    - destruct (w_signals w) as [|n] eqn:Hs; [done|]. injection H as <-. simpl. repeat split. intros _. right; right; left.
      case_decide; [lia|]. unfold room in *. lia.
    - destruct (w_statesClosed w); [done|]. injection H as <-. by repeat split.
    - injection H as <-. by repeat split.
    - injection H as <-. by repeat split. }
  destruct Hpc as (Hpc & Ho & Hs & Hf & Hn). unfold watch_inv, watch_known, watch_msgs in *. rewrite Hpc, Ho, Hf in *. rewrite Hs in *.
  split; [destruct (w_pc w); auto|done].
Qed.

Lemma inspect_inv ok w : w_pc w = WWoken -> watch_inv w -> watch_inv (inspect ok w).
Proof.
  intros Hpc [_ Hm]. unfold watch_msgs in Hm. rewrite Hpc in Hm. destruct Hm as [Hl Hn]. unfold inspect. case_decide as He; [|case_match].
  - split; [by left|by split].
  - split; [by do 3 right|by split].
  - apply send_view_inv; [done|done|]. simpl. intros x Hx. rewrite Hl in Hx. injection Hx as <-. congruence.
Qed.

Lemma flush_inv ok pc w : pc <> WSubscribed -> (pc = WSelect \/ exists e, pc = WEnded e) -> last (w_out w) = Some (w_sent w) -> no_repeats (w_out w) ->
  watch_inv (flush ok pc w).
Proof.
  intros Hp Hpc Hl Hn. unfold flush. case_decide as He.
  - split; [destruct Hpc as [->|[e ->]]; [by left|done]|]. unfold watch_msgs; simpl. by destruct pc.
  - apply send_view_inv; [done|done|]. intros x Hx. rewrite Hl in Hx. injection Hx as <-. congruence.
Qed.

Lemma state_received_inv w w' : w_pc w = WSelect -> watch_inv w -> state_received w = Some w' -> watch_inv w'.
Proof.
  intros Hpc [Hk Hm] H. unfold watch_known, watch_msgs in Hk, Hm. rewrite Hpc in Hk, Hm. unfold state_received in H.
  destruct (w_states w) as [|s q]; [destruct (w_statesClosed w); [|done]|]; injection H as <-.
  - by split.
  - unfold watch_inv, watch_known, watch_msgs; simpl. by destruct (isMonitorActiveState s).
Qed.

Definition of_run (l : watchLabel) : bool :=
  match l with Latch _ | Signal | PublishState _ | CloseStates | CancelWatch => true | _ => false end.

Lemma watch_step_run l w : of_run l = true -> watch_step l w = run_step l w.
Proof. intros H. destruct l; try done; simpl; by destruct (w_pc w). Qed.

Lemma watch_step_inv l w w' : watch_inv w -> watch_step l w = Some w' -> watch_inv w'.
Proof.
  intros Hi H. pose proof Hi as [Hk Hm]. unfold watch_known, watch_msgs in Hk, Hm.
  destruct (of_run l) eqn:Hl; [rewrite watch_step_run in H by done; by eapply run_step_inv|].
  destruct l; try done; simpl in H; destruct (w_pc w) eqn:Hpc; try done.
  - injection H as <-. destruct Hm as [[Ho _] Hn]. apply send_view_inv; [done|done|]. by rewrite Ho.
  - destruct (w_wakes w) as [|n]; [done|]. injection H as <-. by split.
  - injection H as <-. by apply inspect_inv.
  - destruct (w_fire w); [|done]. injection H as <-. by split.
  - injection H as <-. destruct Hm. apply flush_inv; [done|by left|done|done].
  - injection H as <-. destruct Hm. apply flush_inv; [done|right; by eexists|done|done].
  - by eapply state_received_inv.
  - destruct (w_cancelled w); [|done]. injection H as <-. by split.
Qed.

Lemma watch_run_inv ls w w' : watch_inv w -> watch_run ls w = Some w' -> watch_inv w'.
Proof.
  revert w. induction ls as [|l ls IH]; intros w Hi H; simpl in H; [by injection H as <-|].
  destruct (watch_step l w) as [w1|] eqn:E; [|done]. eapply IH; [|exact H]. by eapply watch_step_inv.
Qed.

Lemma subscribed_inv v : watch_inv (subscribed v).
Proof. split; [done|]. split; [done|]. intros i a b Ha. by destruct i. Qed.

(** C34: a watcher is never left behind.  At every moment at which the handler waits, the
    last view it sent is the current one, or a change signal, a wake or the window of a title
    is still under way; no message repeats the one before it; and when the run is over, the
    last message is the view at that time, whatever the window still held. *)
Theorem watcher_never_behind v ls w :
  watch_run ls (subscribed v) = Some w ->
  (w_pc w = WSelect -> w_signals w = 0 -> w_wakes w = 0 -> w_fire w = false -> last (w_out w) = Some (w_cur w)) /\
  no_repeats (w_out w) /\
  forall w', w_pc w = WOver -> watch_step (Flush true) w = Some w' -> last (w_out w') = Some (w_cur w) /\ w_pc w' = WEnded WatchOver.
Proof.
  intros H. apply watch_run_inv in H; [|apply subscribed_inv]. destruct H as [Hk [Hm Hn]]. unfold watch_known in Hk. split; [|split; [done|]].
  - intros Hpc Hs Hw Hf. rewrite Hpc in Hk, Hm. rewrite Hm. destruct Hk as [->|[?|[?|?]]]; [done|lia|lia|congruence].
  - intros w' Hpc Hstep. rewrite Hpc in Hm. simpl in Hstep. rewrite Hpc in Hstep. injection Hstep as <-. unfold flush.
    case_decide as He; simpl; [by rewrite He|]. by rewrite last_snoc.
Qed.

(** A window that is armed stays armed, whatever further titles arrive, until it elapses or
    a message goes out with the title in it: a title that changes all the time is sent. *)
Theorem title_not_starved l w w' : w_fire w = true -> watch_step l w = Some w' ->
  w_fire w' = true \/ l = Fire \/ w_out w' = w_out w ++ [w_cur w].
Proof.
  intros Hf H. destruct (of_run l) eqn:Hl.
  - rewrite watch_step_run in H by done. left. destruct l; try done; simpl in H; repeat case_match; try done; by injection H as <-.
  - destruct l; try done; simpl in H; destruct (w_pc w); try done.
    + injection H as <-. by right; right.
    + destruct (w_wakes w); [done|]. injection H as <-. by left.
    + injection H as <-. unfold inspect. case_decide; [by left|]. case_match; [by left|]. by right; right.
    + by right; left.
    + injection H as <-. unfold flush. case_decide; [by left|by right; right].
    + injection H as <-. unfold flush. case_decide; [by left|by right; right].
    + unfold state_received in H. repeat case_match; try done; injection H as <-; by left.
    + destruct (w_cancelled w); [|done]. injection H as <-. by left.
Qed.

Definition titled (t : Z) : runtimeView := {| rv_Title := [t]; rv_Cwd := []; rv_Status := reportedStatusNone; rv_Detail := []; rv_BellUnread := false |}.

(** Two titles in one window, and a third that the end of the run catches. *)
Definition titles : list watchLabel :=
  [FirstSend true; Latch (titled 1); Signal; Wake; Inspect true; Latch (titled 2); Fire; Flush true;
   Signal; Latch (titled 3); PublishState EventTypeExited; StateReceived].

Lemma watcher_never_behind_witness :
  exists w w', watch_run titles (subscribed (titled 0)) = Some w /\ watch_step (Flush true) w = Some w' /\
    w_out w' = [titled 0; titled 2; titled 3] /\ last (w_out w') = Some (w_cur w).
Proof.
  destruct (watch_run titles (subscribed (titled 0))) as [w|] eqn:E; [|vm_compute in E; discriminate E].
  assert (Hw : w_pc w = WOver /\ exists w', watch_step (Flush true) w = Some w' /\ w_out w' = [titled 0; titled 2; titled 3]).
  { vm_compute in E. injection E as <-. split; [reflexivity|]. eexists. split; reflexivity. }
  destruct Hw as [Hpc (w' & Hs & Ho)]. exists w, w'. split; [reflexivity|]. split; [exact Hs|]. split; [exact Ho|].
  apply (watcher_never_behind (titled 0) titles w E); [exact Hpc|exact Hs].
Defined.

(** *** Lines and output *)

(** The lines taken in a run are the first ones, the rest is left. *)
Lemma attach_run_lines ls f flt out f' e : attach_run ls (f, flt) = Some (out, f', e) ->
  exists taken, fd_lines f = taken ++ fd_lines f' /\
    (concat out = (hook_filter_chunks flt (Line <$> taken)).2 \/ e = Some FeedSendFailed).
Proof.
  revert f flt out. induction ls as [|l ls IH]; intros f flt out H; cbn [attach_run] in H.
  { injection H as <- <- <-. exists []. split; [done|by left]. }
  destruct (attach_step l (f, flt)) as [[[[f1 flt1] o1] e1]|] eqn:Hs; [|done].
  assert (Hstep : (exists x, fd_lines f = x :: fd_lines f1 /\ (e1 = Some FeedSendFailed \/
      e1 = None /\ (flt1, concat o1) = hook_filter flt (Line x))) \/ (fd_lines f = fd_lines f1 /\ o1 = [] /\ flt1 = flt)).
  { destruct l as [ok| | |]; simpl in Hs.
    - unfold take_line in Hs. destruct (fd_lines f) as [|x q] eqn:Hq; [destruct (fd_linesClosed f); [|done]; injection Hs as <- <- <- <-; by right|].
      left. exists x. destruct (hook_filter flt (Line x)) as [flt2 data]. destruct (decide (data = [])) as [Hd|Hd]; injection Hs as <- <- <- <-; (split; [done|]).
      + right. subst data. done.
      + destruct ok; [right; simpl; by rewrite app_nil_r|by left].
    - right. unfold take_state in Hs. destruct (fd_states f); [destruct (fd_statesClosed f); [|done]|]; by injection Hs as <- <- <- <-.
    - right. destruct (fd_recv f); [|done]. by injection Hs as <- <- <- <-.
    - right. destruct (fd_cancelled f); [|done]. by injection Hs as <- <- <- <-. }
  destruct e1 as [e1|].
  - case_decide; [|done]. injection H as <- <- <-. destruct Hstep as [(x & Hx & [He|[He _]])|(Hx & -> & _)]; [|done|].
    + injection He as ->. exists [x]. split; [done|by right].
    + exists []. split; [done|by left].
  - destruct (attach_run ls (f1, flt1)) as [[[outs f2] e2]|] eqn:Hr; [|done]. injection H as <- <- <-.
    destruct (IH _ _ _ Hr) as (taken & Ht & Hc). destruct Hstep as [(x & Hx & [?|[_ Hf]])|(Hx & -> & ->)]; [done| |].
    + exists (x :: taken). rewrite Hx, Ht. split; [done|]. destruct Hc as [Hc|]; [left|by right]. rewrite concat_app, Hc. cbn [fmap list_fmap hook_filter_chunks].
      rewrite <- Hf. by destruct (hook_filter_chunks flt1 _).
    + exists taken. rewrite Hx. by split.
Qed.

Definition stdout_of (msgs : list attachMsg) : list Z := concat (omap (fun m => match m with StdoutMsg d => Some d | _ => None end) msgs).

Lemma stdout_of_msg d : stdout_of (stdout_msg d) = d.
Proof. unfold stdout_msg. case_decide as H; [done|]. unfold stdout_of. simpl. by rewrite app_nil_r. Qed.

(** What a viewer is sent is the filter's output on one stream: the screen, the terminal
    modes, and the lines in their order, as far as they were taken.  The filter goes on over
    all of it, so a sequence that is split between them is one sequence. *)
Theorem viewer_sees_filtered_stream blocks size scrollback terminalState ls f msgs flt out f' e :
  attach_opening blocks size scrollback terminalState = (msgs, flt) ->
  attach_run ls (f, flt) = Some (out, f', e) -> e <> Some FeedSendFailed ->
  exists taken, fd_lines f = taken ++ fd_lines f' /\
    stdout_of msgs ++ concat out = (hook_filter_chunks (newHookFilter blocks) (scrollback :: terminalState :: (Line <$> taken))).2.
Proof.
  intros Ho Hr He. destruct (attach_run_lines _ _ _ _ _ _ Hr) as (taken & Ht & [Hc|?]); [|done]. exists taken. split; [done|].
  unfold attach_opening in Ho. cbn [hook_filter_chunks].
  destruct (hook_filter (newHookFilter blocks) scrollback) as [f1 d1]. destruct (hook_filter f1 terminalState) as [f2 d2].
  injection Ho as <- <-. rewrite Hc. destruct (hook_filter_chunks f2 _) as [f3 d3]. simpl.
  assert (Hs : forall l1 l2, stdout_of (l1 ++ l2) = stdout_of l1 ++ stdout_of l2) by (intros; unfold stdout_of; by rewrite omap_app, concat_app).
  rewrite !Hs, !stdout_of_msg. rewrite <- !app_assoc. by destruct size as [[]|].
Qed.

(** The end of a run does not wait for its output.  The handlers choose between a line and
    a state change that are both there: when they take the state, the lines that are left,
    the last ones of the run, are not sent. *)
Lemma last_lines_lost : exists f x,
  fd_lines f = [x] /\
  (exists f', attach_run [TakeState] (f, None) = Some ([], f', Some FeedDone) /\ fd_lines f' = [x]) /\
  (exists f', subscribe_run [TakeState] f = Some ([], f', Some FeedDone) /\ fd_lines f' = [x]) /\
  (exists f', attach_run [TakeLine true; TakeState] (f, None) = Some ([Line x], f', Some FeedDone)).
Proof.
  exists (MkFeed [{| Time := 0; stream := StreamStdout; Partial := false; Line := [98; 121; 101]%Z |}] false [EventTypeExited] false None false).
  eexists. repeat split; eexists; split; reflexivity || (repeat split; reflexivity).
Qed.

(** What a client sets it gets back; an unknown status changes nothing. *)
Theorem reported_status_kept s d st :
  match SetReportedStatus s d st with
  | (Ok _, st') => GetReportedStatus st' = (s, d) /\ GetReportedStatus (DeleteReportedStatus st') = (PbUnspecified, [])
  | (Err e, st') => e = s /\ st' = st /\ (s = PbUnspecified \/ exists n, s = PbOther n)
  end.
Proof.
  unfold SetReportedStatus. destruct s as [| | | |n]; simpl; try (split; [done|]; split; [done|]; by (left + (right; eexists))).
  all: unfold GetReportedStatus, DeleteReportedStatus, clearReport, setReport, mutate_, mutate.
  all: destruct st as [g [t ts c cs stt dt b nt] a w hs]; simpl; repeat (case_match; simpl in *); simplify_eq/=; try done.
  all: repeat match goal with H : _ && _ = true |- _ => apply andb_true_iff in H as [?%bool_decide_eq_true ?%bool_decide_eq_true] end.
  all: by simplify_eq.
Qed.
