(* ===== verification/Logs.v ===== *)
(** * Reading the logs of a command

    [cmdman/cmdman_logs.go]: what is stored is replayed, then the running monitor is
    followed, with what was stored in between read again; a sticky reader goes on over the
    restarts of the command.  The drivers, the store, the monitor, the event log and the
    consumer are calls; what a reader yields until its channel is closed is one answer. *)

From S2P Require Import Prelude GoStr LogDriver Model Prog.

(** ** What is called *)

(* src/cmdman/logdriver/logdriver.go:41-47 Record *)
Record record := MkRecord { rec_Line : LogLine; rec_Err : option string; rec_Offset : option anyOffset }.

(** The messages of a subscription. *)
Inductive subMsg :=
| OffsetMsg (driver : string) (offset : list Z)
| LineMsg (line : option LogLine).

Inductive recvEnd := RecvEOF | RecvErr (text : string).

(** The end of waiting for an event: an event, a closed subscription, the context. *)
Inductive eventWake := GotEvent | EventsClosed | EventsCtx.

Inductive logReader := StorageReader (n : nat) | RangeReader.

(** The parts of a configuration that logs need. *)
Record logConfig := { lc_Driver : string; lc_Dir : string; lc_Opts : gmap string string }.

Inductive logsError :=
| LogsOpenStore (t : string) | LogsResolve (t : string) | LogsOpenReader (t : string) | LogsCaptureStart (t : string)
| LogsStickyState (t : string) | LogsStickyEvents (t : string) | LogsStickyReader (t : string) | LogsStickyOffset (t : string)
| LogsGetState (t : string) | LogsConnect (t : string) | LogsSubscribe (t : string) | LogsNoOffset
| LogsOffsetType | LogsDecodeOffset (t : string) | LogsRange (t : string) | LogsCtx.

(** A line that a sticky reader injects, by what it says. *)
Inductive metaLine :=
| MetaExited (prefix : string) (now : Z) (code : Z)
| MetaFailed (prefix : string) (now : Z) (code : Z)
| MetaNotRunning (prefix : string) (now : Z)
| MetaState (prefix : string) (now : Z) (state : EventType).

(** What is sent to the consumer. *)
Inductive item := SentRecord (r : record) | SentLive (l : LogLine) | SentMeta (m : metaLine) | SentErr (e : logsError).

Inductive logE : Type -> Type :=
| OpenStore : logE (option string)
| GetCommandConfig (idOrName : string) : logE (result string (string * logConfig))
| NewReader (n : nat) (cfg : logConfig) (ro : ReaderOption) : logE (option string)
| ReadRecords (r : logReader) : logE (list record)
| CloseReader (r : logReader) : logE unit
| CurrentEnd (cfg : logConfig) : logE (result string anyOffset)
| GetCommandState (id : string) : logE (result string (EventType * option Z))
| SubscribeEvents (id : string) (types : list EventType) : logE (option string)
| WaitEvent : logE eventWake
| CloseEvents : logE unit
| CtxDoneNow : logE bool
| Now : logE Z
| ConnectMonitor (id : string) : logE (option string)
| CloseConn : logE unit
| Subscribe : logE (option string)
| RecvFirst : logE (result recvEnd subMsg)
| RecvRest : logE (list subMsg * recvEnd)
| NewRangeReader (cfg : logConfig) (from to : option anyOffset) : logE (option string)
| Send (i : item) : logE bool.

Notation logprog := (prog logE).
Notation logact := (act logE).

(** ** The code *)

Section Logs.
(** [Offset.UnmarshalBinary], JSON. *)
Context (UnmarshalOffset : list Z -> result string anyOffset).

(* src/cmdman/cmdman_logs.go:392-410 forwardRecords *)
Fixpoint forward_records (last : option anyOffset) (recs : list record) : logprog (option anyOffset * bool) :=
  match recs with
  | [] => mret (last, true)
  | r :: recs =>
    match rec_Err r with
    | Some _ => ok ← call (Send (SentRecord r)); mret (last, ok)
    | None =>
      let last := match rec_Offset r with Some o => Some o | None => last end in
      ok ← call (Send (SentRecord r));
      if (ok : bool) then forward_records last recs else mret (last, false)
    end
  end.

(* src/cmdman/cmdman_logs.go:392-410 forwardRecords *)
Definition forwardRecords (r : logReader) : logprog (option anyOffset * bool) :=
  recs ← call (ReadRecords r); forward_records None recs.

(* src/cmdman/cmdman_logs.go:412-414 sendRecordErr *)
Definition sendRecordErr (e : logsError) : logprog unit := _ ← call (Send (SentErr e)); mret tt.

(* src/cmdman/cmdman_logs.go:354-390 Service.bridgeReread *)
Definition bridgeReread (cfg : logConfig) (lastOffset : option anyOffset) (driver : string) (offset : list Z) : logprog (option logsError) :=
  if negb (bool_decide (driver = DriverK8sFile)) then mret None
  else if decide (offset = []) then mret None
  else
    match lastOffset with
    | Some ForeignOffset => mret (Some LogsOffsetType)
    | _ =>
      match UnmarshalOffset offset with
      | Err t => mret (Some (LogsDecodeOffset t))
      | Ok to =>
        e ← call (NewRangeReader cfg lastOffset (Some to));
        match e with
        | Some t => mret (Some (LogsRange t))
        | None =>
          '(_, ok) ← forwardRecords RangeReader;
          _ ← call (CloseReader RangeReader);
          mret (if (ok : bool) then None else Some LogsCtx)
        end
      end
    end.

(** The loop over what the monitor sends. *)
(* src/cmdman/cmdman_logs.go:336-351 Service.streamLogs *)
Fixpoint live (msgs : list subMsg) (fin : recvEnd) : logprog unit :=
  match msgs with
  | [] =>
    match fin with
    | RecvEOF => mret tt
    | RecvErr t => c ← call CtxDoneNow; if (c : bool) then mret tt else sendRecordErr (LogsSubscribe t)
    end
  | LineMsg (Some l) :: msgs =>
    ok ← call (Send (SentLive l)); if (ok : bool) then live msgs fin else mret tt
  | _ :: msgs => live msgs fin
  end.

(** From the connection on. *)
(* src/cmdman/cmdman_logs.go:313-351 Service.streamLogs *)
Definition follow_monitor (id : string) (cfg : logConfig) (lastOffset : option anyOffset) : logprog unit :=
  e ← call Subscribe;
  match e with
  | Some t => sendRecordErr (LogsSubscribe t)
  | None =>
    first ← call RecvFirst;
    match first with
    | Err RecvEOF => mret tt
    | Err (RecvErr t) => sendRecordErr (LogsSubscribe t)
    | Ok (LineMsg _) => sendRecordErr LogsNoOffset
    | Ok (OffsetMsg driver offset) =>
      e ← bridgeReread cfg lastOffset driver offset;
      match e with
      | Some e => sendRecordErr e
      | None => '(msgs, fin) ← call RecvRest; live msgs fin
      end
    end
  end.

(* src/cmdman/cmdman_logs.go:276-352 Service.streamLogs *)
Definition streamLogs (id : string) (cfg : logConfig) (follow : bool) (reader : logReader) (followStart : option anyOffset) : logprog unit :=
  '(lastOffset, ok) ← forwardRecords reader;
  if negb ok || negb follow then mret tt
  else
    let lastOffset := match lastOffset with Some o => Some o | None => followStart end in
    s ← call (GetCommandState id);
    match s with
    | Err t => sendRecordErr (LogsGetState t)
    | Ok (state, _) =>
      if negb (bool_decide (state = EventTypeStarting)) && negb (bool_decide (state = EventTypeRunning)) then mret tt
      else
        c ← call (ConnectMonitor id);
        match c with
        | Some t => sendRecordErr (LogsConnect t)
        | None => _ ← follow_monitor id cfg lastOffset; call CloseConn
        end
    end.

(* src/cmdman/cmdman_logs.go:218-258 sendStickyMeta *)
Definition sendStickyMeta (prefix : string) (state : EventType) (exitCode : option Z) : logprog bool :=
  now ← call Now;
  call (Send (SentMeta
    match exitCode with
    | Some c => if decide (state = EventTypeExited) then MetaExited prefix now c
                else if decide (state = EventTypeFailed) then MetaFailed prefix now c
                else if decide (state = "") then MetaNotRunning prefix now else MetaState prefix now state
    | None => if decide (state = "") then MetaNotRunning prefix now else MetaState prefix now state
    end)).

(** Waits for the next start; [None] is no error. *)
(* src/cmdman/cmdman_logs.go:196-216 Service.waitForStart *)
Definition waitForStart (id : string) : logprog (option logsError) :=
  e ← call (SubscribeEvents id [EventTypeRunning]);
  match e with
  | Some t => mret (Some (LogsStickyEvents t))
  | None =>
    w ← call WaitEvent;
    r ← match w with
        | GotEvent => mret None
        | EventsClosed => c ← call CtxDoneNow; mret (if (c : bool) then Some LogsCtx else None)
        | EventsCtx => mret (Some LogsCtx)
        end;
    _ ← call CloseEvents;
    mret r
  end.

Definition since (t : Z) : ReaderOption := {| Follow := false; Since := t; Until := 0; Head := 0; Tail := 0; StartOffset := None |}.

(** What a sticky reader goes on with. *)
(* src/cmdman/cmdman_logs.go:168-192 Service.runStickyStreaming *)
Definition reopen (n : nat) (cfg : logConfig) : logprog (option (option anyOffset)) :=
  now ← call Now;
  e ← call (NewReader n cfg (since now));
  match e with
  | Some t => _ ← sendRecordErr (LogsStickyReader t); mret None
  | None =>
    if decide (lc_Driver cfg = DriverK8sFile) then
      fin ← call (CurrentEnd cfg);
      match fin with
      | Err t => _ ← call (CloseReader (StorageReader n)); _ ← sendRecordErr (LogsStickyOffset t); mret None
      | Ok o => mret (Some (Some o))
      end
    else mret (Some None)
  end.

(** One run of the command; what the next one is read from, or the end. *)
(* src/cmdman/cmdman_logs.go:141-193 Service.runStickyStreaming *)
Definition sticky_run (n : nat) (id : string) (cfg : logConfig) (prefix : string) (followStart : option anyOffset)
  : logprog (option (option anyOffset)) :=
  _ ← streamLogs id cfg true (StorageReader n) followStart;
  _ ← call (CloseReader (StorageReader n));
  c ← call CtxDoneNow;
  if (c : bool) then mret None
  else
    s ← call (GetCommandState id);
    match s with
    | Err t => _ ← sendRecordErr (LogsStickyState t); mret None
    | Ok (state, exitCode) =>
      ok ← sendStickyMeta prefix state exitCode;
      if negb ok then mret None
      else
        e ← waitForStart id;
        match e with
        | Some e => c ← call CtxDoneNow; _ ← (if (c : bool) then mret tt else sendRecordErr e); mret None
        | None =>
          c ← call CtxDoneNow;
          if (c : bool) then mret None else reopen (S n) cfg
        end
    end.

(** The first [rounds] runs; [false] when the loop goes on after them. *)
(* src/cmdman/cmdman_logs.go:117-194 Service.runStickyStreaming *)
Fixpoint runStickyStreaming (rounds n : nat) (id : string) (cfg : logConfig) (metaPrefix : string) (followStart : option anyOffset) : logprog bool :=
  match rounds with
  | 0 => mret false
  | S rounds =>
    let prefix := if decide (metaPrefix = "") then "#|" else metaPrefix in
    r ← sticky_run n id cfg prefix followStart;
    match r with
    | None => mret true
    | Some followStart => runStickyStreaming rounds (S n) id cfg metaPrefix followStart
    end
  end.

(* src/cmdman/cmdman_logs.go:18-43 LogsRequest *)
Record LogsRequest := {
  lr_IDOrName : string; lr_Follow : bool; lr_Since : Z; lr_Until : Z; lr_Head : Z; lr_Tail : Z;
  lr_StartOffset : option anyOffset; lr_Sticky : bool; lr_MetaPrefix : string }.

(** The goroutine of the reader follows the set-up; [rounds] bounds the runs of a sticky
    reader that are looked at. *)
(* src/cmdman/cmdman_logs.go:46-111 Service.Logs *)
Definition Logs (rounds : nat) (req : LogsRequest) : logprog (option logsError) :=
  let follow := lr_Follow req || lr_Sticky req in
  e ← call OpenStore;
  match e with
  | Some t => mret (Some (LogsOpenStore t))
  | None =>
    c ← call (GetCommandConfig (lr_IDOrName req));
    match c with
    | Err t => mret (Some (LogsResolve t))
    | Ok (id, cfg) =>
      e ← call (NewReader 0 cfg {| Follow := false; Since := lr_Since req; Until := lr_Until req; Head := lr_Head req; Tail := lr_Tail req;
                                   StartOffset := lr_StartOffset req |});
      match e with
      | Some t => mret (Some (LogsOpenReader t))
      | None =>
        start ← (if follow && bool_decide (lc_Driver cfg = DriverK8sFile)
                 then r ← call (CurrentEnd cfg); mret (match r with Ok o => Ok (Some o) | Err t => Err t end)
                 else mret (Ok None));
        match start with
        | Err t => _ ← call (CloseReader (StorageReader 0)); mret (Some (LogsCaptureStart t))
        | Ok followStart =>
          _ ← (if lr_Sticky req then _ ← runStickyStreaming rounds 0 id cfg (lr_MetaPrefix req) followStart; mret tt
               else _ ← streamLogs id cfg follow (StorageReader 0) followStart; call (CloseReader (StorageReader 0)));
          mret None
        end
      end
    end
  end.
End Logs.

(** * What reading logs guarantees

    A follower gets the stored lines it asked for and every later one, each once, although
    the storage is read before the monitor is subscribed to; what the request's bounds do
    not bound, and what a sticky reader misses. *)

(** ** A log and the answers that agree with it *)

Section Follow.
Context (UnmarshalOffset : list Z -> result string anyOffset).

(** The lines of the log, and the position behind the first of them. *)
Context (L : list LogLine) (pos : nat -> anyOffset).

Fixpoint records_at (i : nat) (ls : list LogLine) : list record :=
  match ls with [] => [] | l :: ls => MkRecord l None (Some (pos (S i))) :: records_at (S i) ls end.

(** The lines from [i] up to [j]. *)
Definition lines_between (i j : nat) : list LogLine := take (j - i) (drop i L).

(** The lines the monitor sends. *)
Definition live_lines (msgs : list subMsg) : list LogLine := omap (fun m => match m with LineMsg l => l | _ => None end) msgs.

(** The answers of a trace are those of the log, of which the storage gives the lines from
    [a] to [b] and to which the monitor subscribes at [c].  A range is read from the
    position asked for up to the one asked for, or, when none is, up to whatever is stored
    by then, the first [m] lines. *)
Definition agrees (a b c m : nat) (tr : list logact) : Prop :=
  (forall n recs, Act (ReadRecords (StorageReader n)) recs ∈ tr -> recs = records_at a (lines_between a b)) /\
  (forall cfg x to recs, Act (NewRangeReader cfg (Some (pos x)) to) None ∈ tr -> Act (ReadRecords RangeReader) recs ∈ tr ->
     (forall y, to = Some (pos y) -> recs = records_at x (lines_between x y)) /\
     (to = None -> recs = records_at x (lines_between x m))) /\
  (forall d o, Act RecvFirst (Ok (OffsetMsg d o)) ∈ tr -> d = DriverK8sFile /\ o <> [] /\ UnmarshalOffset o = Ok (pos c)) /\
  (forall msgs fin, Act RecvRest (msgs, fin) ∈ tr -> live_lines msgs = drop c L).

(** The lines the consumer took. *)
Definition taken (tr : list logact) : list LogLine :=
  omap (fun a => match a with
                 | Act e x => match e in logE X return X -> option LogLine with
                              | Send (SentRecord r) => fun ok => if (ok : bool) then match rec_Err r with None => Some (rec_Line r) | Some _ => None end else None
                              | Send (SentLive l) => fun ok => if (ok : bool) then Some l else None
                              | _ => fun _ => None end x end) tr.

Lemma taken_app t1 t2 : taken (t1 ++ t2) = taken t1 ++ taken t2.
Proof. apply omap_app. Qed.

(** Whether the consumer took everything it was sent. *)
Definition refused (a : logact) : Prop :=
  match a with Act e x => match e in logE X return X -> Prop with Send _ => fun ok => ok = false | _ => fun _ => False end x end.

Lemma forward_span i ls last tr last' ok : run (forward_records last (records_at i ls)) tr (last', ok) ->
  taken tr `prefix_of` ls /\ (ok = true -> taken tr = ls /\ last' = if decide (ls = []) then last else Some (pos (i + length ls))) /\
  (Forall (fun a => ~ refused a) tr -> ok = true).
Proof.
  revert i last tr. induction ls as [|l ls IH]; intros i last tr H; cbn [records_at forward_records rec_Err rec_Offset] in H.
  - apply run_ret in H as [-> [= -> ->]]. done.
  - inv_run H as o t1 H1. destruct o.
    + destruct (IH _ _ _ H) as (Hp & Ht & Hr). change (taken ([?x] ++ ?t)) with (l :: taken t). split; [by apply prefix_cons|]. split.
      * intros ->. destruct Ht as [-> ->]; [done|]. split; [done|]. case_decide as Hd; simpl; [subst ls; simpl; f_equal; f_equal; lia|f_equal; f_equal; lia].
      * intros Hf. apply Hr. by inversion Hf.
    + apply run_ret in H as [-> [= -> ->]]. split; [apply prefix_nil|]. split; [done|]. intros Hf. inversion Hf as [|? ? Hx _]. by destruct Hx.
Qed.

Lemma live_taken msgs fin tr : run (live msgs fin) tr tt ->
  taken tr `prefix_of` live_lines msgs /\
  (Forall (fun a => ~ refused a) tr -> taken tr = live_lines msgs).
Proof.
  revert tr. induction msgs as [|[d o|[l|]] msgs IH]; intros tr H; cbn [live] in H; try by apply IH.
  - assert (taken tr = []) as ->; [|done]. destruct fin; [by apply run_ret in H as [-> _]|]. inv_run H as c t1 H1. destruct c; [by apply run_ret in H as [-> _]|].
    unfold sendRecordErr in H. inv_run H as o t2 H2. apply run_ret in H as [-> _]. by destruct o.
  - inv_run H as o t1 H1. destruct o.
    + destruct (IH _ H) as [Hp Hr]. change (taken ([?x] ++ ?t)) with (l :: taken t). split; [by apply prefix_cons|]. intros Hf. cbn. f_equal. apply Hr. by inversion Hf.
    + apply run_ret in H as [-> _]. split; [apply prefix_nil|]. intros Hf. inversion Hf as [|? ? Hx _]. by destruct Hx.
Qed.

Lemma lines_split x c : x <= c -> drop x L = lines_between x c ++ drop c L.
Proof.
  intros H. unfold lines_between. rewrite <- (take_drop (c - x) (drop x L)) at 1. rewrite drop_drop. do 2 f_equal. lia.
Qed.

Lemma err_taken e tr : run (sendRecordErr e) tr tt -> taken tr = [].
Proof. unfold sendRecordErr. intros H. inv_run H as o t1 H1. apply run_ret in H as [-> _]. by destruct o. Qed.

Definition followed (tr : list logact) : Prop := exists msgs fin, Act RecvRest (msgs, fin) ∈ tr.

Definition not_rest (a : logact) : Prop := match a with Act RecvRest _ => False | _ => True end.

Ltac rests := repeat first [apply Forall_nil_2 | assumption | apply Forall_app_2 | apply Forall_cons_2; [exact I|] ].

Lemma not_followed tr : Forall not_rest tr -> ~ followed tr.
Proof. intros Hf (m & f & Hin). rewrite Forall_forall in Hf. exact (Hf _ Hin). Qed.

Lemma forward_not_rest last recs tr r : run (forward_records last recs) tr r -> Forall not_rest tr.
Proof.
  revert last tr. induction recs as [|x recs IH]; intros last tr H; cbn [forward_records] in H; [apply run_ret in H as [-> _]; constructor|].
  destruct (rec_Err x); inv_run H as o t1 H1; (apply Forall_cons_2; [exact I|]); [apply run_ret in H as [-> _]; constructor|].
  destruct o; [by eapply IH|apply run_ret in H as [-> _]; constructor].
Qed.

(** The range from a position up to where the monitor was subscribed to. *)
Lemma bridge_taken T a b c m x cfg d o tr e : agrees a b c m T -> tr ⊆ T -> UnmarshalOffset o = Ok (pos c) -> d = DriverK8sFile -> o <> [] ->
  run (bridgeReread UnmarshalOffset cfg (Some (pos x)) d o) tr e ->
  taken tr `prefix_of` lines_between x c /\ (e = None -> taken tr = lines_between x c) /\ ~ followed tr.
Proof.
  intros (_ & Hrange & _ & _) Hs Hu -> Ho H. unfold bridgeReread in H. rewrite bool_decide_true in H by done. cbn [negb] in H. rewrite decide_False in H by done.
  assert (Hnil : forall tr e0, taken tr = [] -> Forall not_rest tr -> e = Some e0 ->
    taken tr `prefix_of` lines_between x c /\ (e = None -> taken tr = lines_between x c) /\ ~ followed tr).
  { intros t e0 -> Hn ->. split; [apply prefix_nil|]. split; [done|]. by apply not_followed. }
  destruct (pos x) as [p n|] eqn:Hx; [|apply run_ret in H as [-> ->]; by eapply Hnil]. rewrite Hu in H. inv_run H as r t1 H1. destruct r as [t|].
  { apply run_ret in H as [-> ->]. eapply Hnil; [done|by repeat constructor|done]. }
  clear Hnil. inv_run H as [last ok] t2 H2. inv_run H as [] t3 H3. apply run_ret in H as [-> ->]. unfold forwardRecords in H2. inv_run H2 as recs t4 H4.
  assert (recs = records_at x (lines_between x c)) as ->.
  { rewrite <- Hx in Hs. refine (proj1 (Hrange cfg x (Some (pos c)) recs _ _) c eq_refl); apply Hs; set_solver. }
  apply forward_not_rest in H2 as Hn. apply forward_span in H2 as (Hp & Ht & _). rewrite !taken_app. cbn [taken omap list_omap app]. rewrite app_nil_r.
  split; [done|]. split; [destruct ok; [intros _; by apply Ht|done]|]. apply not_followed.
  rests.
Qed.

Lemma monitor_taken T a b c m x id cfg tr : agrees a b c m T -> tr ⊆ T -> x <= c ->
  run (follow_monitor UnmarshalOffset id cfg (Some (pos x))) tr tt ->
  taken tr `prefix_of` drop x L /\ (followed tr -> Forall (fun a => ~ refused a) tr -> taken tr = drop x L).
Proof.
  intros Ha Hs Hx H. assert (Hnil : forall tr, taken tr = [] -> ~ followed tr ->
    taken tr `prefix_of` drop x L /\ (followed tr -> Forall (fun a => ~ refused a) tr -> taken tr = drop x L)).
  { intros t -> Hn. split; [apply prefix_nil|done]. }
  assert (Herr : forall t e, run (sendRecordErr e) t tt -> taken t = [] /\ Forall not_rest t).
  { intros t e He. split; [by eapply err_taken|]. unfold sendRecordErr in He. inv_run He as o t1 H1. apply run_ret in He as [-> _]. by repeat constructor. }
  unfold follow_monitor in H. inv_run H as r t1 H1. destruct r as [t|].
  { apply Herr in H as [Ht Hn]. apply Hnil; [exact Ht|apply not_followed; rests]. }
  inv_run H as first t2 H2. destruct first as [[d o|l]|[|t]].
  - pose proof Ha as (_ & _ & Hf & Hl). destruct (Hf d o) as (Hd & Ho & Hu); [apply Hs; set_solver|].
    inv_run H as e t3 H3. eapply (bridge_taken T a b c m) in H3 as (Hp & He & Hn); [|exact Ha|set_solver|done..].
    change (taken ([?u] ++ [?v] ++ ?t)) with (taken t). rewrite !taken_app. destruct e as [e|].
    + apply Herr in H as [Ht Hn2]. rewrite Ht, app_nil_r, (lines_split x c) by done. split; [by apply prefix_app_r|].
      intros (ms & f & Hin). exfalso. apply elem_of_cons in Hin as [Hin|[Hin|[Hin|Hin]%elem_of_app]%elem_of_cons]; try done.
      * apply Hn. by exists ms, f.
      * rewrite Forall_forall in Hn2. exact (Hn2 _ Hin).
    + rewrite (He eq_refl), (lines_split x c) by done. inv_run H as [msgs fin] t4 H4. change (taken ([?u] ++ ?t)) with (taken t).
      apply live_taken in H as [Hp2 Hr2]. rewrite (Hl msgs fin) in * by (apply Hs; set_solver). split; [by apply prefix_app|].
      intros _ Hok. f_equal. apply Hr2. rewrite !Forall_app in Hok. apply Hok.
  - apply Herr in H as [Ht Hn]. apply Hnil; [exact Ht|apply not_followed; rests].
  - apply run_ret in H as [-> _]. apply Hnil; [done|apply not_followed; rests].
  - apply Herr in H as [Ht Hn]. apply Hnil; [exact Ht|apply not_followed; rests].
Qed.

(** C35: a follower gets the log without a gap and without a repetition.  When the answers
    are those of one log of the k8s-file driver, whose end was noted before the reading, of
    which the storage replays some lines in a row and to whose end at some
    later time the monitor subscribes, while more may be stored by the time a range is read
    again, the lines that the consumer takes are the log's from where the replay began, in
    order; without a replayed line, from where the storage ended when the reading began.  When the following is reached and the consumer takes all it
    is sent, they are all of them. *)
Theorem follow_without_gap a b c m e id cfg n tr : a <= b -> b <= c -> e <= c -> c <= m -> m <= length L ->
  run (streamLogs UnmarshalOffset id cfg true (StorageReader n) (Some (pos e))) tr tt ->
  agrees a b c m tr ->
  let from := if decide (a < b) then a else e in
  taken tr `prefix_of` drop from L /\
  (followed tr -> Forall (fun a => ~ refused a) tr -> taken tr = drop from L).
Proof.
  intros Hab Hbc Hec Hcm Hcl H Ha from. unfold streamLogs in H. inv_run H as [last ok] t1 H1. unfold forwardRecords in H1. inv_run H1 as recs t2 H2.
  assert (recs = records_at a (lines_between a b)) as -> by (apply (proj1 Ha) with n; set_solver).
  apply forward_not_rest in H1 as Hnr. apply forward_span in H1 as (Hp & Ht & Hf). rewrite !taken_app. cbn [taken omap list_omap app].
  set (x := if decide (a < b) then b else e).
  assert (Hlen : length (lines_between a b) = b - a) by (unfold lines_between; rewrite length_take, length_drop; lia).
  assert (Hxc : x <= c) by (subst x; destruct (decide (a < b)); lia).
  assert (Hsplit : drop from L = lines_between a b ++ drop x L).
  { subst from x. destruct (decide (a < b)); [apply lines_split; lia|]. destruct (lines_between a b); [done|simpl in Hlen; lia]. }
  rewrite Hsplit. destruct ok; cbn [negb orb] in H.
  2:{ apply run_ret in H as [-> _]. rewrite app_nil_r. split; [by apply prefix_app_r|].
      intros _ Hok. discriminate Hf. apply Forall_cons in Hok as [_ Hok]. by apply Forall_app in Hok as [Hok _]. }
  destruct (Ht eq_refl) as [-> ->]. clear Ht Hf Hp.
  assert (Hlast : match (if decide (lines_between a b = []) then None else Some (pos (a + length (lines_between a b)))) with Some o => Some o | None => Some (pos e) end = Some (pos x)).
  { subst x. destruct (decide (a < b)) as [Hlt|Hge].
    - rewrite decide_False by (intros Hn; rewrite Hn in Hlen; simpl in Hlen; lia). do 2 f_equal. lia.
    - rewrite decide_True; [done|]. destruct (lines_between a b); [done|simpl in Hlen; lia]. }
  rewrite Hlast in H. clear Hlast. set (t0 := [Act (ReadRecords _) _] ++ t2') in *.
  assert (Hn0 : Forall not_rest t0) by (subst t0; rests).
  assert (Hgoal : taken t1' `prefix_of` drop x L /\ (followed t1' -> Forall (fun a0 => ~ refused a0) t1' -> taken t1' = drop x L)).
  { assert (Hend : forall t, taken t = [] -> Forall not_rest t -> taken t `prefix_of` drop x L /\ (followed t -> Forall (fun a0 => ~ refused a0) t -> taken t = drop x L)).
    { intros t -> Hn. split; [apply prefix_nil|]. intros Hfo. exfalso. revert Hfo. by apply not_followed. }
    assert (Herr : forall t er, run (sendRecordErr er) t tt -> taken t = [] /\ Forall not_rest t).
    { intros t er He. split; [by eapply err_taken|]. unfold sendRecordErr in He. inv_run He as o t3 H3. apply run_ret in He as [-> _]. rests. }
    inv_run H as s t3 H3. destruct s as [[state code]|t]; [|apply Herr in H as [Ht Hn]; apply Hend; [exact Ht|rests]].
    destruct (_ && _); [apply run_ret in H as [-> _]; apply Hend; [done|rests]|].
    inv_run H as r t4 H4. destruct r as [t|]; [apply Herr in H as [Ht Hn]; apply Hend; [exact Ht|rests]|].
    inv_run H as [] t5 H5. apply run_call in H as ->.
    assert (Hm : taken t5 `prefix_of` drop x L /\ (followed t5 -> Forall (fun a0 => ~ refused a0) t5 -> taken t5 = drop x L)).
    { eapply (monitor_taken _ a b c m x); [exact Ha| |exact Hxc|exact H5]. set_solver. }
    change (taken ([?u] ++ [?v] ++ ?t)) with (taken t). rewrite taken_app. cbn [taken omap list_omap]. rewrite app_nil_r.
    destruct Hm as [Hp Hq]. split; [exact Hp|]. intros (ms & f & Hin) Hok. apply Hq; [|rewrite !Forall_app in Hok; apply Hok].
    exists ms, f. rewrite !elem_of_app, !list_elem_of_singleton in Hin. by destruct Hin as [Hin|[Hin|[Hin|Hin]]]. }
  destruct Hgoal as [Hp Hq]. split; [by apply prefix_app|]. intros (ms & f & Hin) Hok. f_equal. apply Hq.
  - exists ms, f. change (Act RecvRest (ms, f) ∈ t0 ++ t1') in Hin. apply elem_of_app in Hin as [Hin|Hin]; [|done]. exfalso. rewrite Forall_forall in Hn0. exact (Hn0 _ Hin).
  - change (Forall (fun a0 => ~ refused a0) (t0 ++ t1')) in Hok. by apply Forall_app in Hok as [_ Hok].
Qed.
End Follow.

(** ** A log that grows while it is read *)

Definition line_of (t : Z) : LogLine := {| Time := t; stream := StreamStdout; Partial := false; Line := [t] |}.
Definition demo_log : list LogLine := [line_of 1; line_of 2; line_of 3].
Definition demo_pos (i : nat) : anyOffset := K8sOffset "log" (Z.of_nat i).
Definition demo_unmarshal (b : list Z) : result string anyOffset := match b with [n] => Ok (K8sOffset "log" n) | _ => Err "bad offset" end.
Definition demo_config : logConfig := {| lc_Driver := DriverK8sFile; lc_Dir := "d"; lc_Opts := ∅ |}.

(** One line is stored when the storage is read, a second one when the monitor is
    subscribed to, and a third comes live; the state counts the starts of the command. *)
Definition growing (X : Type) (e : logE X) (s : nat) : X * nat :=
  (match e in logE X return X with
   | OpenStore => None
   | GetCommandConfig _ => Ok ("id", demo_config)
   | NewReader _ _ _ => None
   | ReadRecords (StorageReader n) => if decide (n = 0) then records_at demo_pos 0 [line_of 1] else []
   | ReadRecords RangeReader => records_at demo_pos 1 [line_of 2]
   | CurrentEnd _ => Ok (demo_pos (if decide (s = 0) then 1 else 3))
   | GetCommandState _ => Ok (if decide (s = 0) then EventTypeRunning else EventTypeExited, Some 0%Z)
   | SubscribeEvents _ _ => None
   | WaitEvent => GotEvent
   | CtxDoneNow => false
   | Now => 4%Z
   | ConnectMonitor _ => None
   | Subscribe => None
   | RecvFirst => Ok (OffsetMsg DriverK8sFile [2%Z])
   | RecvRest => ([LineMsg (Some (line_of 3))], RecvEOF)
   | NewRangeReader _ _ _ => None
   | Send _ => true
   | _ => tt
   end,
   match e with WaitEvent => S s | _ => s end).

(** What a call was answered, for calls whose answers differ in type. *)
Definition records_answer (a : logact) : option (logReader * list record) :=
  match a with Act e x => match e in logE X return X -> _ with ReadRecords r => fun x => Some (r, x) | _ => fun _ => None end x end.
Definition range_asked (a : logact) : option (option anyOffset * option anyOffset) :=
  match a with Act (NewRangeReader _ from to) _ => Some (from, to) | _ => None end.
Definition first_answer (a : logact) : option (result recvEnd subMsg) :=
  match a with Act e x => match e in logE X return X -> _ with RecvFirst => Some | _ => fun _ => None end x end.
Definition rest_answer (a : logact) : option (list subMsg * recvEnd) :=
  match a with Act e x => match e in logE X return X -> _ with RecvRest => Some | _ => fun _ => None end x end.

Lemma elem_answer {A} (f : logact -> option A) a y (tr : list logact) : a ∈ tr -> f a = Some y -> y ∈ omap f tr.
Proof. intros Ha Hf. apply list_elem_of_omap. by exists a. Qed.

Lemma demo_agrees tr s : exec growing (streamLogs demo_unmarshal "id" demo_config true (StorageReader 0) (Some (demo_pos 1))) 0 = Some (tt, tr, s) ->
  agrees demo_unmarshal demo_log demo_pos 0 1 2 3 tr.
Proof.
  intros E. vm_compute in E. injection E as <- _. split; [|split; [|split]].
  - intros n recs H. eapply (elem_answer records_answer) in H; [|reflexivity]. cbn in H.
    rewrite !elem_of_cons, elem_of_nil in H. by destruct H as [[= -> ->]|[[= ]|[]]].
  - intros cfg x to recs Hr H. eapply (elem_answer records_answer) in H; [|reflexivity]. cbn in H.
    rewrite !elem_of_cons, elem_of_nil in H. destruct H as [[=]|[[= ->]|[]]].
    eapply (elem_answer range_asked) in Hr; [|reflexivity]. cbn in Hr.
    rewrite !elem_of_cons, elem_of_nil in Hr. destruct Hr as [Hr|[]]. unfold demo_pos in Hr. injection Hr as Hx ->. assert (x = 1) as -> by lia.
    split; [|done]. intros y [= Hy]. assert (y = 2) as -> by lia. reflexivity.
  - intros d o H. eapply (elem_answer first_answer) in H; [|reflexivity]. cbn in H.
    rewrite !elem_of_cons, elem_of_nil in H. by destruct H as [[= -> ->]|[]].
  - intros msgs fin H. eapply (elem_answer rest_answer) in H; [|reflexivity]. cbn in H.
    rewrite !elem_of_cons, elem_of_nil in H. by destruct H as [[= -> ->]|[]].
Qed.

Lemma follow_without_gap_witness :
  exists tr, run (streamLogs demo_unmarshal "id" demo_config true (StorageReader 0) (Some (demo_pos 1))) tr tt /\
    agrees demo_unmarshal demo_log demo_pos 0 1 2 3 tr /\ taken tr = demo_log /\ taken tr `prefix_of` demo_log.
Proof.
  destruct (exec growing (streamLogs demo_unmarshal "id" demo_config true (StorageReader 0) (Some (demo_pos 1))) 0) as [[[[] tr] s]|] eqn:E;
    [|vm_compute in E; discriminate E].
  pose proof (demo_agrees tr s E) as Ha. assert (Ht : taken tr = demo_log) by (vm_compute in E; injection E as <- _; reflexivity).
  apply exec_run in E. exists tr. split; [exact E|]. split; [exact Ha|]. split; [exact Ht|].
  apply (follow_without_gap demo_unmarshal demo_log demo_pos 0 1 2 3 1 "id" demo_config 0 tr); [lia|lia|lia|lia|simpl; lia|exact E|exact Ha].
Defined.

(** ** What the bounds of a request do not bound *)

Definition until_2 (sticky : bool) : LogsRequest := {|
  lr_IDOrName := "id"; lr_Follow := true; lr_Since := 0; lr_Until := 2; lr_Head := 0; lr_Tail := 0; lr_StartOffset := None;
  lr_Sticky := sticky; lr_MetaPrefix := "" |}.

(** A follower may be asked for lines up to a time, or for the first so many; the driver
    refuses the first when it follows itself, but it is never asked to.  Both bound the
    stored lines that are replayed and nothing after them. *)
Lemma follow_ignores_until :
  exists tr, run (Logs demo_unmarshal 1 (until_2 false)) tr None /\ exists l, l ∈ taken tr /\ (Time l > lr_Until (until_2 false))%Z.
Proof.
  destruct (exec growing (Logs demo_unmarshal 1 (until_2 false)) 0) as [[[r tr] s]|] eqn:E; [|vm_compute in E; discriminate E].
  assert (H : r = None /\ taken tr = demo_log) by (vm_compute in E; injection E as <- <- _; by split). destruct H as [-> Ht].
  exists tr. split; [by eapply exec_run|]. exists (line_of 3). rewrite Ht. split; [|simpl; lia]. right; right; left.
Qed.

(** A command that runs for as long as the monitor is asked and then starts again with its
    output, here lines 2 and 3, already written. *)
Definition restarted (X : Type) (e : logE X) (s : nat) : X * nat :=
  (match e in logE X return X with
   | ReadRecords (StorageReader n) => if decide (n = 0) then records_at demo_pos 0 [line_of 1] else []
   | ReadRecords RangeReader => []
   | RecvFirst => Ok (OffsetMsg DriverK8sFile [if decide (s = 0%nat) then 1%Z else 3%Z])
   | RecvRest => ([], RecvEOF)
   | GetCommandState _ => Ok (EventTypeRunning, None)
   | NewReader _ _ _ => None
   | CurrentEnd _ => Ok (demo_pos (if decide (s = 0) then 1 else 3))
   | SubscribeEvents _ _ => None
   | WaitEvent => GotEvent
   | CtxDoneNow => false
   | Now => 4%Z
   | OpenStore => None
   | GetCommandConfig _ => Ok ("id", demo_config)
   | ConnectMonitor _ => None
   | Subscribe => None
   | NewRangeReader _ _ _ => None
   | Send _ => true
   | _ => tt
   end, match e with WaitEvent => S s | _ => s end).

(** A sticky reader takes the next run up from the time at which it noticed it: what the run
    wrote until then is neither replayed, being older than that time, nor read again, being
    in front of the end of the log at that time. *)
Lemma sticky_skips_start_of_run :
  exists tr, run (runStickyStreaming demo_unmarshal 2 0 "id" demo_config "" (Some (demo_pos 1))) tr false /\ taken tr = [line_of 1].
Proof.
  destruct (exec restarted (runStickyStreaming demo_unmarshal 2 0 "id" demo_config "" (Some (demo_pos 1))) 0) as [[[r tr] s]|] eqn:E; [|vm_compute in E; discriminate E].
  assert (H : r = false /\ taken tr = [line_of 1]) by (vm_compute in E; injection E as <- <- _; by split). destruct H as [-> Ht].
  exists tr. split; [by eapply exec_run|exact Ht].
Qed.
