(* ===== verification/Client.v ===== *)
(** * The service: commands in the store and their monitors

    [cmdman/cmdman.go], [cmdman_create.go], [cmdman_replace.go], [cmdman_start.go],
    [cmdman_stop.go], [cmdman_restart.go], [cmdman_remove.go], [cmdman_wait.go],
    [cmdman_list.go], [monitor/mon_clean.go] and [monitor/mon_spawn.go].  The store, the
    sockets of the monitors and the clock answer calls; each operation is a program over
    them.  Opening the store and logging are left out. *)

From S2P Require Import Prelude GoStr LogDriver Model ComposeSpec Normalize Config Prog Plan.

(** ** Calls *)

Inductive storeErr := NoRows | StoreFailed.

(** A call to a monitor fails because it does not answer, or otherwise. *)
Inductive rpcErr := Unavailable | RpcFailed.

(** What a select between a ticker and the end of a context of limited time takes. *)
Inductive waitEnd := DeadlineExceeded | ContextCanceled.

Definition stateRow : Type := EventType * option Z * CommandState.

Inductive cliE : Type -> Type :=
| GetCommandState (id : string) : cliE (result storeErr stateRow)
| GetCommandConfig (idOrName : string) : cliE (result storeErr (string * string * CommandConfig))
| ResolveID (idOrName : string) : cliE (result storeErr string)
| ResolveIDByName (name : string) : cliE (result storeErr string)
| FindByLabels (labels : gmap string string) : cliE (result storeErr (list string))
| ListAllCommands : cliE (result storeErr (list (string * EventType * CommandConfig)))
| ListCommands (all : bool) (labels : gmap string string) : cliE (result storeErr (list CommandEntry))
| UpdateCommandState (id : string) (state : EventType) (exitCode : option Z) (js : CommandState) : cliE (option storeErr)
| DeleteCommand (id : string) : cliE (option storeErr)
| InsertCommandConfig (id name : string) (cfg : CommandConfig) : cliE (option storeErr)
| InsertCommandState (id : string) (state : EventType) (js : CommandState) : cliE (option storeErr)
| ReplaceCommand (oldID id name : string) (cfg : CommandConfig) : cliE (option storeErr)
| WriteCommandConfig (dir : string) (cfg : CommandConfig) : cliE (option storeErr)
| RemoveAll (path : string) : cliE unit
| EmitEvent (type : EventType) (id : string) (signal : option Z) : cliE unit
| MonitorStop (js : CommandState) (sig : Z) (timeout : option Duration) : cliE (result rpcErr unit)
| WaitTick (wait : Duration) : cliE (option waitEnd)
| PollTick : cliE (option waitEnd)
| ContextDone : cliE bool
| KillProcess (pid : Z) : cliE unit
| SpawnMonitor (id : string) : cliE bool
| Sleep50ms : cliE unit
| ProbePIDLock (path : string) : cliE (result unit bool)
| GenerateID : cliE string.


Notation clprog := (prog cliE).
Notation clact := (act cliE).

Inductive cliErr :=
| BadStopTimeout (d : Duration)
| ResolveFailed (target : string) (e : storeErr)
| FindFailed (e : storeErr)
| NoCommands
| ReadState (e : storeErr)
| ReadConfig (e : storeErr)
| BadSignal (e : hrErr)
| SendStopStore (e : storeErr)
| NoSocket
| SendStopRpc (e : rpcErr)
| WaitFailed (e : storeErr)
| WaitEnded (e : waitEnd)
| KillFailed (e : cliErr)
| StillThere (e : cliErr)
| MarkDied (e : storeErr)
| Joined (e1 e2 : cliErr)
| StopStep (e : cliErr)
| StartStep (e : cliErr)
| StillRunning (state : EventType)
| DeleteFailed (e : storeErr)
| RuntimeDir
| StopCancelled
| BadConfig (e : Model.configErr)
| NotStartable (state : EventType)
| SpawnFailed
| EnteredFailed
| WaitTimedOut (last : EventType)
| BadCondition (c : EventType)
| ReplaceNeedsName
| InsertFailed (e : storeErr)
| ReplaceRunning (name : string) (state : EventType)
| ReplaceFailed (e : storeErr)
| CleanFailed (e : storeErr)
| ListFailed (e : storeErr).

(* src/cmdman/store/config.go:7-7 AnnotationAutoRemove *)
Definition AnnotationAutoRemove : string := "cmdman.auto-remove".

Section Client.
Context (SignalName : Z -> string) (SignalNum : string -> Z) (ParseBytes : string -> option Z) (cfg : Config).

(** ** Targets *)

(* src/cmdman/cmdman.go:194-200 resolveTargets *)
Fixpoint resolve_ids (args : list string) : clprog (result cliErr (list string)) :=
  match args with
  | [] => mret (Ok [])
  | a :: args =>
    r ← call (ResolveID a);
    match r with
    | Err e => mret (Err (ResolveFailed a e))
    | Ok id =>
      rest ← resolve_ids args;
      mret (match rest with Ok ids => Ok (id :: ids) | Err e => Err e end)
    end
  end.

(* src/cmdman/cmdman.go:191-214 resolveTargets *)
Definition resolveTargets (args : list string) (labels : gmap string string) : clprog (result cliErr (list string)) :=
  ids ← resolve_ids args;
  match ids with
  | Err e => mret (Err e)
  | Ok ids =>
    found ← (if decide (labels = ∅) then mret (Ok []) else call (FindByLabels labels));
    match found with
    | Err e => mret (Err (FindFailed e))
    | Ok more => mret (match ids ++ more with [] => Err NoCommands | all => Ok all end)
    end
  end.

(** ** A monitor that died *)

(* src/cmdman/monitor/mon_clean.go:85-85 monitorDiedError *)
Definition monitorDiedError : string := "monitor died unexpectedly".

(* src/cmdman/monitor/mon_clean.go:87-93 DiedUnexpectedly *)
Definition DiedUnexpectedly (js : CommandState) : bool := bool_decide (cs_Error js = monitorDiedError).

Definition with_error (msg : string) (js : CommandState) : CommandState :=
  {| MonitorPID := MonitorPID js; SocketPath := SocketPath js; StartedAt := StartedAt js; FinishedAt := FinishedAt js;
     RestartCount := RestartCount js; cs_Error := msg; Warnings := Warnings js; cs_ForceKilled := cs_ForceKilled js |}.

(* src/cmdman/monitor/mon_clean.go:95-127 MarkMonitorDied *)
Definition MarkMonitorDied (id : string) (js : CommandState) (c : CommandConfig) : clprog (option storeErr) :=
  e ← call (UpdateCommandState id EventTypeFailed None (with_error monitorDiedError js));
  match e with
  | Some e => mret (Some e)
  | None =>
    if decide (Annotations c !! AnnotationAutoRemove = Some "true") then
      e ← call (DeleteCommand id);
      match e with
      | Some e => mret (Some e)
      | None =>
        _ ← call (RemoveAll (CommandDir c));
        _ ← match MonitorRuntimeDir cfg id with Ok d => call (RemoveAll d) | Err _ => mret tt end;
        mret None
      end
    else mret None
  end.

(* src/cmdman/monitor/mon_clean.go:129-131 isStaleCheckState *)
Definition isStaleCheckState (state : EventType) : bool :=
  bool_decide (state = EventTypeStarting) || bool_decide (state = EventTypeRunning).

(** The probe opens the PID file without creating it and tries its lock. *)
(* src/cmdman/monitor/mon_clean.go:167-205 isStaleMonitor *)
Definition isStaleMonitor (id : string) : clprog (result unit bool) :=
  match MonitorPIDPath cfg id with
  | Err _ => mret (Err tt)
  | Ok path => call (ProbePIDLock path)
  end.

(* src/cmdman/monitor/mon_clean.go:41-83 cleanStaleEntry *)
Definition cleanStaleEntry (id : string) (state : EventType) (c : CommandConfig) : clprog (option storeErr) :=
  if negb (isStaleCheckState state) then mret None
  else
    stale ← isStaleMonitor id;
    match stale with
    | Err _ | Ok false => mret None
    | Ok true =>
      r ← call (GetCommandState id);
      match r with
      | Err NoRows => mret None
      | Err e => mret (Some e)
      | Ok (state, _, js) => if negb (isStaleCheckState state) then mret None else MarkMonitorDied id js c
      end
    end.

(* src/cmdman/monitor/mon_clean.go:26-38 CleanStaleEntries *)
Fixpoint clean_entries (entries : list (string * EventType * CommandConfig)) : clprog (option storeErr) :=
  match entries with
  | [] => mret None
  | (id, state, c) :: entries =>
    e ← cleanStaleEntry id state c;
    match e with Some e => mret (Some e) | None => clean_entries entries end
  end.

(* src/cmdman/monitor/mon_clean.go:20-39 CleanStaleEntries *)
Definition CleanStaleEntries : clprog (option storeErr) :=
  r ← call ListAllCommands;
  match r with Err e => mret (Some e) | Ok entries => clean_entries entries end.

(* src/cmdman/cmdman_list.go:17-31 Service.List *)
Definition List (all : bool) (labels : gmap string string) : clprog (result cliErr (list CommandEntry)) :=
  e ← CleanStaleEntries;
  match e with
  | Some e => mret (Err (CleanFailed e))
  | None => r ← call (ListCommands all labels); mret (match r with Ok es => Ok es | Err e => Err (ListFailed e) end)
  end.

(** ** Stop *)

(* src/cmdman/cmdman_stop.go:17-20 defaultStopTimeout *)
Definition defaultStopTimeout : Duration := (10 * Second)%Z.

(* src/cmdman/cmdman_stop.go:23-32 StopRequest *)
Record StopRequest := { sr_Targets : list string; sr_Signal : string; sr_Timeout : option Duration }.

(* src/cmdman/cmdman_stop.go:34-41 StopResult *)
Record StopResult := { st_ID : string; st_Err : option cliErr; st_ForceKilled : bool }.

(* src/cmdman/cmdman_stop.go:64-70 checkStopTimeout *)
Definition checkStopTimeout (timeout : option Duration) : option cliErr :=
  match timeout with
  | Some d => if decide (d <= 0)%Z then Some (BadStopTimeout d) else None
  | None => None
  end.

(* src/cmdman/cmdman_stop.go:72-83 stopTimeout *)
Definition stopTimeout (override : option Duration) (c : CommandConfig) : Duration :=
  match override with
  | Some d => d
  | None => match StopTimeout c with
            | Some d => if decide (0 < d)%Z then d else defaultStopTimeout
            | None => defaultStopTimeout
            end
  end.

(* src/cmdman/cmdman_stop.go:218-228 stopWait *)
Definition stopWait (timeout : Duration) (c : CommandConfig) : Duration :=
  match cc_StopCommand c with Some _ => wrap64 (2 * timeout) | None => timeout end.

(* src/cmdman/cmdman_stop.go:124-124 Service.stopReportingUnreachable *)
Definition run_over (state : EventType) : bool :=
  bool_decide (state = EventTypeExited) || bool_decide (state = EventTypeFailed).

(** The runs of [waitForStopped]: it reads, and waits for a tick or the end of its time. *)
(* src/cmdman/cmdman_stop.go:300-325 waitForStopped *)
Inductive waitForStopped (id : string) (wait : Duration) : list clact -> option cliErr -> Prop :=
| ws_gone : waitForStopped id wait [Act (GetCommandState id) (Err NoRows)] None
| ws_failed : waitForStopped id wait [Act (GetCommandState id) (Err StoreFailed)] (Some (WaitFailed StoreFailed))
| ws_over state code js : run_over state = true ->
    waitForStopped id wait [Act (GetCommandState id) (Ok (state, code, js))] None
| ws_ended state code js e : run_over state = false ->
    waitForStopped id wait [Act (GetCommandState id) (Ok (state, code, js)); Act (WaitTick wait) (Some e)] (Some (WaitEnded e))
| ws_tick state code js tr r : run_over state = false -> waitForStopped id wait tr r ->
    waitForStopped id wait (Act (GetCommandState id) (Ok (state, code, js)) :: Act (WaitTick wait) None :: tr) r.

(* src/cmdman/cmdman_stop.go:273-298 Service.sendStop *)
Definition sendStop (id : string) (sig : Z) (timeout : Duration) : clprog (option cliErr) :=
  r ← call (GetCommandState id);
  match r with
  | Err e => mret (Some (SendStopStore e))
  | Ok (_, _, js) =>
    if decide (SocketPath js = "") then mret (Some NoSocket)
    else
      r ← call (MonitorStop js sig (if decide (0 < timeout)%Z then Some timeout else None));
      mret (match r with Ok _ => None | Err e => Some (SendStopRpc e) end)
  end.

(* src/cmdman/cmdman.go:39-41 isMonitorUnavailable *)
Definition isMonitorUnavailable (e : cliErr) : bool := match e with SendStopRpc Unavailable => true | _ => false end.

(* src/cmdman/cmdman_stop.go:210-216 recordedForceKill *)
Definition recordedForceKill (id : string) : clprog bool :=
  r ← call (GetCommandState id);
  mret (match r with Ok (_, _, js) => cs_ForceKilled js | Err _ => false end).

Definition join_err (a : option cliErr) (b : cliErr) : cliErr := match a with Some a => Joined a b | None => b end.

(* src/cmdman/cmdman_stop.go:230-271 Service.settleUnreachableMonitor *)
Definition settleUnreachableMonitor (id : string) (c : CommandConfig) (retErr : option cliErr) : clprog (bool * option cliErr) :=
  r ← call (GetCommandState id);
  match r with
  | Err NoRows => mret (false, None)
  | Err e => mret (false, Some (join_err retErr (ReadState e)))
  | Ok (state, _, js) =>
    if DiedUnexpectedly js then mret (true, retErr)
    else if run_over state then mret (false, None)
    else
      e ← MarkMonitorDied id js c;
      mret (true, match e with Some e => Some (join_err retErr (MarkDied e)) | None => retErr end)
  end.

(** The signal a stop sends. *)
(* src/cmdman/cmdman_stop.go:134-140 Service.stopReportingUnreachable *)
Definition effective_signal (signalOverride : string) (c : CommandConfig) : string :=
  let effective := if decide (signalOverride = "") then cc_StopSignal c else signalOverride in
  if decide (effective = "") then DefaultStopSignal else effective.

(** What comes after the first wait ran out. *)
(* src/cmdman/cmdman_stop.go:172-207 Service.stopReportingUnreachable *)
Definition escalate (id : string) (c : CommandConfig) (wait : Duration) : clprog (bool * bool * option cliErr) :=
  sent ← sendStop id SIGKILL 0%Z;
  match sent with
  | None =>
    waited ← sub (waitForStopped id wait);
    match waited with
    | Some e => mret (false, false, Some (StillThere e))
    | None => fk ← recordedForceKill id; mret (false, fk, None)
    end
  | Some (SendStopStore NoRows) => mret (false, false, None)
  | Some e =>
    if isMonitorUnavailable e then
      '(died, err) ← settleUnreachableMonitor id c (Some (KillFailed e));
      if died || bool_decide (is_Some err) then mret (died, false, err)
      else fk ← recordedForceKill id; mret (false, fk, None)
    else mret (false, false, Some (KillFailed e))
  end.

(** Whether the monitor did not answer and died, whether the run was force-killed. *)
(* src/cmdman/cmdman_stop.go:102-208 Service.stopReportingUnreachable *)
Definition stopReportingUnreachable (id signalOverride : string) (timeoutOverride : option Duration)
  : clprog (bool * bool * option cliErr) :=
  r ← call (GetCommandState id);
  match r with
  | Err NoRows => mret (false, false, None)
  | Err e => mret (false, false, Some (ReadState e))
  | Ok (state, _, _) =>
    if run_over state then mret (false, false, None)
    else
      r ← call (GetCommandConfig id);
      match r with
      | Err e => mret (false, false, Some (ReadConfig e))
      | Ok (_, _, c) =>
        let timeout := stopTimeout timeoutOverride c in
        let wait := stopWait timeout c in
        match ParseSignal SignalName SignalNum (effective_signal signalOverride c) with
        | Err e => mret (false, false, Some (BadSignal e))
        | Ok (sig, _) =>
          _ ← call (EmitEvent EventTypeStopped id (Some sig));
          sent ← sendStop id sig timeout;
          match sent with
          | Some e =>
            if isMonitorUnavailable e then
              '(died, err) ← settleUnreachableMonitor id c None; mret (died, false, err)
            else mret (false, false, Some e)
          | None =>
            waited ← sub (waitForStopped id wait);
            match waited with
            | None => fk ← recordedForceKill id; mret (false, fk, None)
            | Some (WaitEnded DeadlineExceeded) => escalate id c wait
            | Some e => mret (false, false, Some e)
            end
          end
        end
      end
  end.

(* src/cmdman/cmdman_stop.go:85-100 Service.stop *)
Definition stop (id signalOverride : string) (timeoutOverride : option Duration) : clprog (bool * option cliErr) :=
  '(_, forceKilled, err) ← stopReportingUnreachable id signalOverride timeoutOverride;
  mret (forceKilled, err).

(* src/cmdman/cmdman_stop.go:57-61 Service.Stop *)
Fixpoint stop_each (ids : list string) (req : StopRequest) : clprog (list StopResult) :=
  match ids with
  | [] => mret []
  | id :: ids =>
    '(fk, e) ← stop id (sr_Signal req) (sr_Timeout req);
    rest ← stop_each ids req;
    mret ({| st_ID := id; st_Err := e; st_ForceKilled := fk |} :: rest)
  end.

(* src/cmdman/cmdman_stop.go:43-62 Service.Stop *)
Definition Stop (req : StopRequest) : clprog (result cliErr (list StopResult)) :=
  match checkStopTimeout (sr_Timeout req) with
  | Some e => mret (Err e)
  | None =>
    ids ← resolveTargets (sr_Targets req) ∅;
    match ids with
    | Err e => mret (Err e)
    | Ok ids => rs ← stop_each ids req; mret (Ok rs)
    end
  end.

(** ** Remove *)

(* src/cmdman/cmdman_remove.go:17-21 RemoveRequest *)
Record RemoveRequest := { rr_Targets : list string; rr_Labels : gmap string string; rr_Force : bool }.

(* src/cmdman/cmdman_remove.go:103-130 Service.stopForRemoval *)
Definition stopForRemoval (id : string) (monitorPID : Z) : clprog (option cliErr) :=
  '(unreachable, _, err) ← stopReportingUnreachable id "" None;
  cancelled ← call ContextDone;
  if cancelled : bool then mret (Some StopCancelled)
  else
    match err, unreachable with
    | None, false => mret None
    | _, _ => _ ← (if decide (0 < monitorPID)%Z then call (KillProcess monitorPID) else mret tt); mret None
    end.

Definition no_state : CommandState :=
  {| MonitorPID := 0; SocketPath := ""; StartedAt := ""; FinishedAt := ""; RestartCount := 0; cs_Error := ""; Warnings := [];
     cs_ForceKilled := false |}.

(** Deleting the record and the directories. *)
(* src/cmdman/cmdman_remove.go:85-97 Service.rmOne *)
Definition delete_record (id : string) (c : CommandConfig) : clprog (option cliErr) :=
  e ← call (DeleteCommand id);
  match e with
  | Some e => mret (Some (DeleteFailed e))
  | None =>
    _ ← (if decide (CommandDir c = "") then mret tt else call (RemoveAll (CommandDir c)));
    match MonitorRuntimeDir cfg id with
    | Err _ => mret (Some RuntimeDir)
    | Ok d => _ ← call (RemoveAll d); mret None
    end
  end.

(* src/cmdman/cmdman_remove.go:57-97 Service.rmOne *)
Definition rmOne (id : string) (force : bool) : clprog (option cliErr) :=
  r ← call (GetCommandState id);
  match (match r with
         | Err NoRows => Ok (EventTypeCreated, no_state)
         | Err e => Err e
         | Ok (state, _, js) => Ok (state, js)
         end) with
  | Err e => mret (Some (ReadState e))
  | Ok (state, js) =>
    r ← call (GetCommandConfig id);
    match r with
    | Err e => mret (Some (ReadConfig e))
    | Ok (_, _, c) =>
      if isStaleCheckState state then
        if negb force then mret (Some (StillRunning state))
        else
          e ← stopForRemoval id (MonitorPID js);
          match e with Some e => mret (Some e) | None => delete_record id c end
      else delete_record id c
    end
  end.

(* src/cmdman/cmdman_remove.go:40-54 Service.Remove *)
Fixpoint remove_each (ids : list string) (force : bool) : clprog (list (string * option cliErr)) :=
  match ids with
  | [] => mret []
  | id :: ids =>
    e ← rmOne id force;
    _ ← match e with None => call (EmitEvent EventTypeRemoved id None) | Some _ => mret tt end;
    rest ← remove_each ids force;
    mret ((id, e) :: rest)
  end.

(* src/cmdman/cmdman_remove.go:29-55 Service.Remove *)
Definition Remove (req : RemoveRequest) : clprog (result cliErr (list (string * option cliErr))) :=
  ids ← resolveTargets (rr_Targets req) (rr_Labels req);
  match ids with
  | Err e => mret (Err e)
  | Ok ids => rs ← remove_each ids (rr_Force req); mret (Ok rs)
  end.

(** ** Start *)

(* src/cmdman/monitor/mon_spawn.go:55-61 StateMark *)
Record StateMark := { sm_State : EventType; sm_MonitorPID : Z }.

(** The error with the state that was seen last. *)
Definition waitedState : Type := EventType * option cliErr.

(* src/cmdman/monitor/mon_spawn.go:63-106 WaitForState *)
Fixpoint wait_for_state (id : string) (desired : EventType) (since : StateMark) (progressed : bool) (attempts : nat)
  : clprog waitedState :=
  match attempts with
  | 0 =>
    r ← call (GetCommandState id);
    let state := match r with Ok (state, _, _) => state | Err _ => "" end in
    mret (state, Some (WaitTimedOut state))
  | S attempts =>
    r ← call (GetCommandState id);
    match r with
    | Err e => mret ("", Some (ReadState e))
    | Ok (state, _, js) =>
      let progressed := progressed || bool_decide (state <> sm_State since) || bool_decide (MonitorPID js <> sm_MonitorPID since) in
      if decide (state = desired) then mret (state, None)
      else if progressed && bool_decide (state = EventTypeFailed) then mret (state, Some EnteredFailed)
      else if progressed && bool_decide (state = EventTypeExited) then mret (state, None)
      else _ ← call Sleep50ms; wait_for_state id desired since progressed attempts
    end
  end.

Definition WaitForState (id : string) (desired : EventType) (since : StateMark) (maxAttempts : nat) : clprog waitedState :=
  wait_for_state id desired since false maxAttempts.

(** [cfg.Validate], with the log options in the order they are ranged over. *)
Definition validate (opts : gmap string string -> list (string * string)) (c : CommandConfig) : result Model.configErr unit :=
  CommandConfig_Validate SignalName SignalNum ParseBytes (opts (cc_LogOpts c)) (Some c).

(* src/cmdman/cmdman_start.go:31-42 Service.Start *)
Definition startable (state : EventType) : bool :=
  bool_decide (state ∈ [EventTypeCreated; EventTypeExited; EventTypeFailed]).

(* src/cmdman/cmdman_start.go:13-59 Service.Start *)
Definition Start (opts : gmap string string -> list (string * string)) (idOrName : string) : clprog (option cliErr) :=
  r ← call (GetCommandConfig idOrName);
  match r with
  | Err e => mret (Some (ReadConfig e))
  | Ok (id, _, c) =>
    match validate opts c with
    | Err e => mret (Some (BadConfig e))
    | Ok _ =>
      r ← call (GetCommandState id);
      match r with
      | Err e => mret (Some (ReadState e))
      | Ok (state, _, js) =>
        if negb (startable state) then mret (Some (NotStartable state))
        else
          spawned ← call (SpawnMonitor id);
          if negb spawned then mret (Some SpawnFailed)
          else
            '(final, e) ← WaitForState id EventTypeRunning {| sm_State := state; sm_MonitorPID := MonitorPID js |} 100;
            mret (match e with
                  | None => None
                  | Some (ReadState NoRows) => None
                  | Some e => if decide (final = EventTypeExited) then None else Some e
                  end)
      end
    end
  end.

(** ** Restart *)

(* src/cmdman/cmdman_restart.go:49-70 Service.restart *)
Definition restart (opts : gmap string string -> list (string * string)) (id signalOverride : string)
    (timeoutOverride : option Duration) : clprog (bool * option cliErr) :=
  r ← call (GetCommandState id);
  match r with
  | Err e => mret (false, Some (ReadState e))
  | Ok (state, _, _) =>
    '(fk, e) ← (if isStaleCheckState state then stop id signalOverride timeoutOverride else mret (false, None));
    match e with
    | Some e => mret (fk, Some (StopStep e))
    | None => e ← Start opts id; mret (fk, StartStep <$> e)
    end
  end.

(* src/cmdman/cmdman_restart.go:42-46 Service.Restart *)
Fixpoint restart_each (opts : gmap string string -> list (string * string)) (ids : list string) (req : StopRequest)
  : clprog (list StopResult) :=
  match ids with
  | [] => mret []
  | id :: ids =>
    '(fk, e) ← restart opts id (sr_Signal req) (sr_Timeout req);
    rest ← restart_each opts ids req;
    mret ({| st_ID := id; st_Err := e; st_ForceKilled := fk |} :: rest)
  end.

(* src/cmdman/cmdman_restart.go:28-47 Service.Restart *)
Definition Restart (opts : gmap string string -> list (string * string)) (req : StopRequest)
  : clprog (result cliErr (list StopResult)) :=
  match checkStopTimeout (sr_Timeout req) with
  | Some e => mret (Err e)
  | None =>
    ids ← resolveTargets (sr_Targets req) ∅;
    match ids with
    | Err e => mret (Err e)
    | Ok ids => rs ← restart_each opts ids req; mret (Ok rs)
    end
  end.

(** ** Wait *)

(* src/cmdman/cmdman_wait.go:86-93 validWaitCondition *)
Definition validWaitCondition (c : EventType) : bool :=
  bool_decide (c ∈ [EventTypeStopped; EventTypeCreated; EventTypeStarting; EventTypeRunning; EventTypeExited; EventTypeFailed]).

(* src/cmdman/cmdman_wait.go:95-100 matchesWaitCondition *)
Definition matchesWaitCondition (state condition : EventType) : bool :=
  if decide (condition = EventTypeStopped) then run_over state else bool_decide (state = condition).

(** The runs of [waitForCondition]: a round ends with a tick or an event, or the context. *)
(* src/cmdman/cmdman_wait.go:106-148 Service.waitForCondition *)
Inductive waitForCondition (id : string) (condition : EventType) : list clact -> option Z * option cliErr -> Prop :=
| wc_gone : waitForCondition id condition [Act (GetCommandState id) (Err NoRows)] (None, None)
| wc_failed : waitForCondition id condition [Act (GetCommandState id) (Err StoreFailed)] (None, Some (WaitFailed StoreFailed))
| wc_met state code js : matchesWaitCondition state condition = true ->
    waitForCondition id condition [Act (GetCommandState id) (Ok (state, code, js))] (code, None)
| wc_ended state code js e : matchesWaitCondition state condition = false ->
    waitForCondition id condition [Act (GetCommandState id) (Ok (state, code, js)); Act PollTick (Some e)] (code, Some (WaitEnded e))
| wc_round state code js tr r : matchesWaitCondition state condition = false -> waitForCondition id condition tr r ->
    waitForCondition id condition (Act (GetCommandState id) (Ok (state, code, js)) :: Act PollTick None :: tr) r.

(* src/cmdman/cmdman_wait.go:23-31 WaitResult *)
Record WaitResult := { wr_ID : string; wr_ExitCode : option Z; wr_Err : option cliErr }.

(* src/cmdman/cmdman_wait.go:68-83 Service.Wait *)
Fixpoint wait_each (targets : list string) (condition : EventType) (ignore : bool) : clprog (list WaitResult) :=
  match targets with
  | [] => mret []
  | target :: targets =>
    r ← call (ResolveID target);
    match r with
    | Err e =>
      rest ← wait_each targets condition ignore;
      mret (if ignore then rest else {| wr_ID := target; wr_ExitCode := None; wr_Err := Some (ResolveFailed target e) |} :: rest)
    | Ok id =>
      '(code, e) ← sub (waitForCondition id condition);
      rest ← wait_each targets condition ignore;
      mret ({| wr_ID := id; wr_ExitCode := code; wr_Err := e |} :: rest)
    end
  end.

(* src/cmdman/cmdman_wait.go:45-84 Service.Wait *)
Definition Wait (targets : list string) (condition : EventType) (ignore : bool) : clprog (result cliErr (list WaitResult)) :=
  let condition := if decide (condition = "") then EventTypeStopped else condition in
  if negb (validWaitCondition condition) then mret (Err (BadCondition condition))
  else rs ← wait_each targets condition ignore; mret (Ok rs).

(** ** Create *)

(* src/cmdman/cmdman_create.go:133-213 Service.buildCommandConfig *)
Definition buildCommandConfig (req : CreateRequest) : CommandConfig :=
  let stopSignal :=
    if decide (cr_StopSignal req = "") then DefaultStopSignal
    else match ParseSignal SignalName SignalNum (cr_StopSignal req) with Ok (_, canonical) => canonical | Err _ => cr_StopSignal req end in
  let base := if default true (cr_ImportHostEnv req) then cf_DefaultEnvironment cfg else [] in
  {| Argv := cr_Argv req;
     cc_Dir := if decide (cr_Dir req = "") then cf_DefaultWorkingDir cfg else cr_Dir req;
     cc_Env := base ++ cr_Env req ++ cr_AppendEnv req;
     cc_InjectEnv := default true (cr_InjectEnv req);
     cc_RestartPolicy := if decide (cr_RestartPolicy req = "") then RestartPolicyNo else cr_RestartPolicy req;
     cc_MaxRetries := cr_MaxRetries req;
     cc_StopSignal := stopSignal;
     StopTimeout := if decide (cr_StopTimeout req = 0%Z) then None else Some (cr_StopTimeout req);
     cc_StopCommand := match cr_StopCommand req with [] => None | args => Some {| stop_Args := args |} end;
     cc_Tty := cr_Tty req;
     cc_ScrollbackBytes := if decide (cr_ScrollbackBytes req = 0%Z) then cf_DefaultScrollbackBytes cfg else cr_ScrollbackBytes req;
     cc_LogDriver := if decide (cr_LogDriver req = "") then cf_DefaultLogDriver cfg else cr_LogDriver req;
     cc_LogOpts := cr_LogOpts req;
     Labels := cr_Labels req;
     Annotations := if cr_AutoRemove req then {[AnnotationAutoRemove := "true"]} else ∅;
     cc_Hooks := cr_Hooks req;
     CommandDir := "" |}.

Definition with_dir (dir : string) (env : list string) (c : CommandConfig) : CommandConfig :=
  {| Argv := Argv c; cc_Dir := cc_Dir c; cc_Env := env; cc_InjectEnv := cc_InjectEnv c; cc_RestartPolicy := cc_RestartPolicy c;
     cc_MaxRetries := cc_MaxRetries c; cc_StopSignal := cc_StopSignal c; StopTimeout := StopTimeout c; cc_StopCommand := cc_StopCommand c;
     cc_Tty := cc_Tty c; cc_ScrollbackBytes := cc_ScrollbackBytes c; cc_LogDriver := cc_LogDriver c; cc_LogOpts := cc_LogOpts c;
     Labels := Labels c; Annotations := Annotations c; cc_Hooks := cc_Hooks c; CommandDir := dir |}.

(* src/cmdman/cmdman_create.go:120-131 insertCommand *)
Definition insertCommand (id name : string) (c : CommandConfig) : clprog (option cliErr) :=
  e ← call (InsertCommandConfig id name c);
  match e with
  | Some e => mret (Some (InsertFailed e))
  | None =>
    e ← call (WriteCommandConfig (CommandDir c) c);
    match e with
    | Some e => mret (Some (InsertFailed e))
    | None => e ← call (InsertCommandState id EventTypeCreated no_state); mret (InsertFailed <$> e)
    end
  end.

(** The swap of the rows, and what goes with the old one. *)
(* src/cmdman/cmdman_replace.go:50-73 Service.replaceOrInsertCommand *)
Definition swap_command (oldID id name : string) (oldCfg c : CommandConfig) (oldRuntimeDir : string) : clprog (option cliErr) :=
  e ← call (WriteCommandConfig (CommandDir c) c);
  match e with
  | Some e => mret (Some (InsertFailed e))
  | None =>
    e ← call (ReplaceCommand oldID id name c);
    match e with
    | Some e => _ ← call (RemoveAll (CommandDir c)); mret (Some (ReplaceFailed e))
    | None =>
      _ ← (if decide (CommandDir oldCfg = "") then mret tt else call (RemoveAll (CommandDir oldCfg)));
      _ ← call (RemoveAll oldRuntimeDir);
      _ ← call (EmitEvent EventTypeRemoved oldID None);
      mret None
    end
  end.

(* src/cmdman/cmdman_replace.go:15-73 Service.replaceOrInsertCommand *)
Definition replaceOrInsertCommand (id name : string) (c : CommandConfig) : clprog (option cliErr) :=
  r ← call (ResolveIDByName name);
  match r with
  | Err NoRows => insertCommand id name c
  | Err e => mret (Some (ReplaceFailed e))
  | Ok oldID =>
    r ← call (GetCommandState oldID);
    match r with
    | Err e => mret (Some (ReadState e))
    | Ok (state, _, _) =>
      if isStaleCheckState state then mret (Some (ReplaceRunning name state))
      else
        r ← call (GetCommandConfig oldID);
        match r with
        | Err e => mret (Some (ReadConfig e))
        | Ok (_, _, oldCfg) =>
          match MonitorRuntimeDir cfg oldID with
          | Err _ => mret (Some RuntimeDir)
          | Ok oldRuntimeDir => swap_command oldID id name oldCfg c oldRuntimeDir
          end
        end
    end
  end.

(* src/cmdman/cmdman_create.go:74-118 Service.Create *)
Definition Create (opts : gmap string string -> list (string * string)) (req : CreateRequest)
  : clprog (result cliErr (string * string)) :=
  if cr_Replace req && bool_decide (cr_Name req = "") then mret (Err ReplaceNeedsName)
  else
    let c := buildCommandConfig req in
    match ValidateCreate SignalName SignalNum ParseBytes (opts (cc_LogOpts c)) (Some c) with
    | Err e => mret (Err (BadConfig e))
    | Ok _ =>
      id ← call GenerateID;
      match Config_CommandDir cfg id with
      | Err _ => mret (Err RuntimeDir)
      | Ok dir =>
        let env := if cc_InjectEnv c then WithCommandContextEnv (cc_Env c) cfg id (cr_Name req) dir else cc_Env c in
        let c := with_dir dir env c in
        match validate opts c with
        | Err e => mret (Err (BadConfig e))
        | Ok _ =>
          e ← (if cr_Replace req then replaceOrInsertCommand id (cr_Name req) c else insertCommand id (cr_Name req) c);
          match e with
          | Some e => mret (Err e)
          | None => _ ← call (EmitEvent EventTypeCreated id None); mret (Ok (id, cr_Name req))
          end
        end
      end
    end.
End Client.
