(* ===== verification/ClientProps.v ===== *)
(** * What stopping, removing, replacing and starting a command guarantees

    Theorems about every run of the programs of [Client.v], whatever the store and the
    monitors answer. *)

From S2P Require Import Prelude GoStr LogDriver Model ComposeSpec Normalize Config Prog Plan Client.

Section Props.
Context (SignalName : Z -> string) (SignalNum : string -> Z) (ParseBytes : string -> option Z) (cfg : Config).

Notation stop_of := (stopReportingUnreachable SignalName SignalNum cfg).
Notation remove_of := (rmOne SignalName SignalNum cfg).
Notation start_of := (Start SignalName SignalNum ParseBytes).

(** ** What was read *)

(** A read that shows the run over: a final state, or no record. *)
Definition read_over (id : string) (a : clact) : Prop :=
  a = Act (GetCommandState id) (Err NoRows) \/
  exists state code js, a = Act (GetCommandState id) (Ok (state, code, js)) /\ run_over state = true.

(** The error [err] says that the death could not be recorded, because of [e]. *)
Definition tells_unrecorded (e : storeErr) (err : option cliErr) : Prop :=
  err = Some (MarkDied e) \/ exists a, err = Some (Joined a (MarkDied e)).

(** A death of the monitor that was read, or was recorded, or that [err] says could not be
    recorded. *)
Definition death_known (id : string) (err : option cliErr) (a : clact) : Prop :=
  (exists state code js, a = Act (GetCommandState id) (Ok (state, code, js)) /\ cs_Error js = monitorDiedError) \/
  exists js e, a = Act (UpdateCommandState id EventTypeFailed None (with_error monitorDiedError js)) e /\
    match e with None => True | Some e => tells_unrecorded e err end.

(** A record of a forced end. *)
Definition force_recorded (id : string) (a : clact) : Prop :=
  exists state code js, a = Act (GetCommandState id) (Ok (state, code, js)) /\ cs_ForceKilled js = true.

Definition is_stop (a : clact) : Prop := match a with Act (MonitorStop _ _ _) _ => True | _ => False end.
Definition is_death (id : string) (a : clact) : Prop :=
  match a with Act (UpdateCommandState i s _ _) _ => i = id /\ s = EventTypeFailed | _ => False end.

(** Calls that send no stop. *)
Ltac no_stop :=
  repeat match goal with H : Forall _ (_ ++ _) |- _ => apply Forall_app in H as [? ?] end;
  repeat first [apply Forall_nil_2 | apply Forall_cons_2; [exact (fun f => f)|] | apply Forall_app_2]; try done.

Lemma waited_over id wait tr : waitForStopped id wait tr None -> Exists (read_over id) tr.
Proof.
  intros H. remember None as r eqn:Hr. induction H; try discriminate; [left; by left|left; right; eauto 6|].
  do 2 right. by apply IHwaitForStopped.
Qed.

Lemma waited_no_stop id wait tr r : waitForStopped id wait tr r -> Forall (fun a => ~ is_stop a) tr.
Proof. induction 1; no_stop. Qed.

(** Running out of time shows in the trace. *)
Lemma waited_deadline id wait tr e :
  waitForStopped id wait tr (Some (WaitEnded e)) -> Act (WaitTick wait) (Some e) ∈ tr.
Proof.
  intros H. remember (Some (WaitEnded e)) as r eqn:Hr. induction H; try discriminate.
  - injection Hr as ->. right. left.
  - right. right. by apply IHwaitForStopped.
Qed.

Lemma mark_died id js c tr e :
  run (MarkMonitorDied cfg id js c) tr e ->
  (forall err, (forall e', e = Some e' -> tells_unrecorded e' err) -> Exists (death_known id err) tr) /\ Forall (fun a => ~ is_stop a) tr.
Proof.
  unfold MarkMonitorDied. intros H. inv_run H as e1 t1 H1. split.
  - intros err He. left. right. exists js, e1. split; [done|]. destruct e1 as [e1|]; [|done]. inv_ret H. by apply He.
  - no_stop. destruct e1; [inv_ret H; no_stop|]. destruct (decide _); [|inv_ret H; no_stop].
    inv_run H as [e2|] t2 H2; [inv_ret H; no_stop|]. inv_run H as u t3 H3. inv_run H as u' t4 H4. inv_ret H. no_stop.
    destruct (MonitorRuntimeDir cfg id); [apply run_call in H4 as ->|inv_ret H4]; no_stop.
Qed.

(** Settling: without an error and without a death, the run is over. *)
Lemma settled id c e0 tr died err :
  run (settleUnreachableMonitor cfg id c e0) tr (died, err) ->
  (if died then Exists (death_known id err) tr else err = None -> Exists (read_over id) tr) /\
  Forall (fun a => ~ is_stop a) tr.
Proof.
  unfold settleUnreachableMonitor. intros H. inv_run H as [[[state code] js]|[|]] t1 H1.
  - destruct (DiedUnexpectedly js) eqn:Hd; [apply run_ret in H as [-> [= -> ->]]; split; [left; left; apply bool_decide_eq_true in Hd; eauto 6|no_stop]|].
    destruct (run_over state) eqn:Ho; [inv_ret H; split; [intros _; left; right; eauto 6|no_stop]|].
    inv_run H as e t2 H2. apply run_ret in H as [-> [= -> ->]]. rewrite app_nil_r. apply mark_died in H2 as [H2 H3]. split.
    + apply Exists_cons_tl, H2. intros e' ->. destruct e0 as [e0|]; [right; by exists e0|by left].
    + no_stop.
  - inv_ret H. split; [intros _; left; by left|no_stop].
  - inv_ret H. split; [done|no_stop].
Qed.

Lemma sent_store id sig timeout tr e :
  run (sendStop id sig timeout) tr (Some (SendStopStore e)) -> tr = [Act (GetCommandState id) (Err e)].
Proof.
  unfold sendStop. intros H. inv_run H as [[[state code] js]|er] t1 H1; [|by inv_ret H].
  destruct (decide _); [inv_ret H|]. inv_run H as [[]|er] t2 H2; inv_ret H.
Qed.

(** ** Stopping *)

Lemma sent_shape id sig timeout tr e :
  run (sendStop id sig timeout) tr e ->
  (Forall (fun a => ~ is_stop a) tr /\ e <> None) \/
  exists row js x, tr = [Act (GetCommandState id) row; Act (MonitorStop js sig (if decide (0 < timeout)%Z then Some timeout else None)) x] /\
    (e = None <-> x = Ok tt).
Proof.
  unfold sendStop. intros H. inv_run H as [[[state code] js]|er] t1 H1; [|inv_ret H; left; split; [no_stop|done]].
  destruct (decide (SocketPath js = "")); [inv_ret H; left; split; [no_stop|done]|].
  inv_run H as x t2 H2. apply run_ret in H as [-> ->]. right. do 2 eexists. exists x. split; [reflexivity|].
  by destruct x as [[]|].
Qed.

Lemma recorded_shape id tr fk :
  run (recordedForceKill id) tr fk -> exists x, tr = [Act (GetCommandState id) x] /\ (fk = true -> Exists (force_recorded id) tr).
Proof.
  unfold recordedForceKill. intros H. inv_run H as x t1 H1. apply run_ret in H as [-> ->]. exists x. split; [done|].
  destruct x as [[[state code] js]|]; [|done]. intros Hf. left. by exists state, code, js.
Qed.

(** What the end of a stop shows of its trace. *)
Definition stop_result (id : string) (tr : list clact) (r : bool * bool * option cliErr) : Prop :=
  let '(unreachable, fk, err) := r in
  (err = None -> unreachable = false -> Exists (read_over id) tr) /\
  (unreachable = true -> Exists (death_known id err) tr) /\
  (fk = true -> err = None /\ unreachable = false /\ exists t1 t2, tr = t1 ++ t2 /\ Exists (read_over id) t1 /\ Exists (force_recorded id) t2).

Lemma stop_result_app id t1 t2 r : stop_result id t2 r -> stop_result id (t1 ++ t2) r.
Proof.
  destruct r as [[u fk] err]. intros (H1 & H2 & H3). split; [|split].
  - intros. apply Exists_app. right. auto.
  - intros. apply Exists_app. right. auto.
  - intros Hf. destruct (H3 Hf) as (? & ? & a & b & -> & Ha & Hb). split; [done|split; [done|]].
    exists (t1 ++ a), b. rewrite <- app_assoc. split; [done|split; [|done]]. apply Exists_app. by right.
Qed.

Lemma stop_result_cons id a t r : stop_result id t r -> stop_result id (a :: t) r.
Proof. apply (stop_result_app id [a]). Qed.

Lemma stop_result_error id tr u e : (u = true -> Exists (death_known id (Some e)) tr) -> stop_result id tr (u, false, Some e).
Proof. by repeat split. Qed.

(** A run that was seen over, and the record of its end. *)
Lemma stop_result_over id t1 t2 fk :
  Exists (read_over id) t1 -> run (recordedForceKill id) t2 fk -> stop_result id (t1 ++ t2) (false, fk, None).
Proof.
  intros H1 (x & -> & H2)%recorded_shape. split; [|split; [done|]].
  - intros _ _. apply Exists_app. by left.
  - intros Hf. split; [done|split; [done|]]. exists t1, [Act (GetCommandState id) x]. auto.
Qed.

Lemma stop_result_settled id c e0 t died err :
  run (settleUnreachableMonitor cfg id c e0) t (died, err) -> stop_result id t (died, false, err).
Proof.
  intros [H _]%settled. destruct died.
  - split; [done|split; [by intros _|done]].
  - split; [auto|split; [done|done]].
Qed.

Lemma escalate_result id c wait tr r : run (escalate cfg id c wait) tr r -> stop_result id tr r.
Proof.
  unfold escalate. intros H. inv_run H as [e|] t1 H1.
  - assert (Hr : run (if isMonitorUnavailable e
        then '(died, err) ← settleUnreachableMonitor cfg id c (Some (KillFailed e));
             if died || bool_decide (is_Some err) then mret (died, false, err)
             else fk ← recordedForceKill id; mret (false, fk, None)
        else mret (false, false, Some (KillFailed e))) t1' r -> stop_result id (t1 ++ t1') r).
    { destruct (isMonitorUnavailable e); [|intros Hr; apply run_ret in Hr as [-> ->]; by apply stop_result_error].
      intros Hr. inv_run Hr as [died err] t2 H2. destruct (died || _) eqn:Hd.
      { apply run_ret in Hr as [-> ->]. rewrite app_nil_r. apply stop_result_app. by eapply stop_result_settled. }
      apply orb_false_iff in Hd as [-> Hd%bool_decide_eq_false]. apply settled in H2 as [H2 _].
      inv_run Hr as fk t3 H3. apply run_ret in Hr as [-> ->]. rewrite app_nil_r. apply stop_result_app.
      apply stop_result_over; [|done]. apply H2. destruct err; [by destruct Hd|done]. }
    destruct e as [| | | | | | |er| | | | | | | | | | | | | | | | | | | | | | | | | | ]; try by apply Hr.
    destruct er; [|by apply Hr].
    apply run_ret in H as [-> ->]. rewrite app_nil_r. apply sent_store in H1 as ->.
    split; [|done]. intros _ _. left. by left.
  - apply stop_result_app. inv_run H as [e|] t2 H2.
    + apply run_ret in H as [-> ->]. by apply stop_result_error.
    + apply (proj1 (run_sub _ _ _)) in H2. inv_run H as fk t3 H3. apply run_ret in H as [-> ->]. rewrite app_nil_r.
      apply stop_result_over; [by eapply waited_over|done].
Qed.
Lemma stop_results id sig timeout tr r : run (stop_of id sig timeout) tr r -> stop_result id tr r.
Proof.
  unfold stopReportingUnreachable. intros H. inv_run H as [[[state code] js]|er] t1 H1.
  2:{ destruct er; apply run_ret in H as [-> ->]; [|by apply stop_result_error]. split; [|done]. intros _ _. left. by left. }
  destruct (run_over state) eqn:Ho.
  { apply run_ret in H as [-> ->]. split; [|done]. intros _ _. left. right. eauto 6. }
  apply stop_result_app. inv_run H as [[[i n] c]|er] t2 H2; [|apply run_ret in H as [-> ->]; by apply stop_result_error].
  cbv zeta in H. destruct (ParseSignal _ _ _) as [[sg canon]|er]; [|apply run_ret in H as [-> ->]; by apply stop_result_error].
  apply stop_result_cons. inv_run H as [] t3 H3. apply stop_result_cons. inv_run H as [e|] t4 H4; apply stop_result_app.
  - destruct (isMonitorUnavailable e); [|apply run_ret in H as [-> ->]; by apply stop_result_error].
    inv_run H as [died err] t5 H5. apply run_ret in H as [-> ->]. rewrite app_nil_r. by eapply stop_result_settled.
  - inv_run H as e t5 H5. apply (proj1 (run_sub _ _ _)) in H5. destruct e as [e|].
    + assert (Hc : run (escalate cfg id c (stopWait (stopTimeout timeout c) c)) t5' r \/ exists e', t5' = [] /\ r = (false, false, Some e')).
      { destruct e as [| | | | | | | | | | |[]| | | | | | | | | | | | | | | | | | | | | |]; try (right; apply run_ret in H as [-> ->]; by eexists). by left. }
      apply stop_result_app. destruct Hc as [Hc|(e' & -> & ->)]; [by eapply escalate_result|by apply stop_result_error].
    + inv_run H as fk t6 H6. apply run_ret in H as [-> ->]. rewrite app_nil_r. apply stop_result_over; [by eapply waited_over|done].
Qed.

(** C27: a stop that reports no error and no dead monitor has seen the run over: it read a
    final state, or no record.  It reports a dead monitor only when it read that the
    monitor died, or recorded the death itself, or returns the error for which the death
    could not be recorded; and a forced end only without an error, from a record read
    after the run was seen over. *)
Theorem stop_settles id sig timeout tr unreachable fk err :
  run (stop_of id sig timeout) tr (unreachable, fk, err) ->
  (err = None -> unreachable = false -> Exists (read_over id) tr) /\
  (unreachable = true -> Exists (death_known id err) tr) /\
  (fk = true -> err = None /\ unreachable = false /\
     exists t1 t2, tr = t1 ++ t2 /\ Exists (read_over id) t1 /\ Exists (force_recorded id) t2).
Proof. exact (stop_results id sig timeout tr (unreachable, fk, err)). Qed.

(** *** The signals a stop sends

    At most two stop calls go out: the stop signal with the time it has, and SIGKILL. *)
Inductive stops_sent (sig timeout wait : Z) : list clact -> Prop :=
| sent_none tr : Forall (fun a => ~ is_stop a) tr -> stops_sent sig timeout wait tr
| sent_one t1 js x t2 : Forall (fun a => ~ is_stop a) (t1 ++ t2) ->
    stops_sent sig timeout wait (t1 ++ Act (MonitorStop js sig (if decide (0 < timeout)%Z then Some timeout else None)) x :: t2)
| sent_two t1 js t2 js' x t3 : Forall (fun a => ~ is_stop a) (t1 ++ t2 ++ t3) ->
    Act (WaitTick wait) (Some DeadlineExceeded) ∈ t2 ->
    stops_sent sig timeout wait
      (t1 ++ Act (MonitorStop js sig (if decide (0 < timeout)%Z then Some timeout else None)) (Ok tt) ::
       t2 ++ Act (MonitorStop js' SIGKILL None) x :: t3).

Lemma recorded_no_stop id t fk : run (recordedForceKill id) t fk -> Forall (fun a => ~ is_stop a) t.
Proof. intros (x & -> & _)%recorded_shape. no_stop. Qed.

Lemma settle_no_stop id c e0 t r : run (settleUnreachableMonitor cfg id c e0) t r -> Forall (fun a => ~ is_stop a) t.
Proof. destruct r. by intros [_ H]%settled. Qed.

(** After the first wait: SIGKILL at most. *)
Lemma escalate_stops id c wait tr r :
  run (escalate cfg id c wait) tr r ->
  Forall (fun a => ~ is_stop a) tr \/
  exists t1 js x t2, tr = t1 ++ Act (MonitorStop js SIGKILL None) x :: t2 /\ Forall (fun a => ~ is_stop a) (t1 ++ t2).
Proof.
  unfold escalate. intros H. inv_run H as e t1 H1.
  assert (Hr : Forall (fun a => ~ is_stop a) t1').
  { destruct e as [e|].
    - assert (Hc : t1' = [] \/ exists e0 p u q, run (settleUnreachableMonitor cfg id c e0) p u /\ t1' = p ++ q /\
        (q = [] \/ exists fk, run (recordedForceKill id) q fk)).
      { destruct e as [| | | | | | |[]| | | | | | | | | | | | | | | | | | | | | | | | | | ];
          try (destruct (isMonitorUnavailable _) in H); try (apply run_ret in H as [-> _]; by left).
        all: inv_run H as [died err] p Hp; destruct (died || _);
          [apply run_ret in H as [-> _]; right; do 4 eexists; split; [exact Hp|]; split; [done|by left]|
           inv_run H as fk q Hq; apply run_ret in H as [-> _]; rewrite app_nil_r; right; do 4 eexists; split; [exact Hp|]; split; [done|eauto]]. }
      destruct Hc as [->|(e0 & p & u & q & Hp%settle_no_stop & -> & [->|[fk Hq%recorded_no_stop]])]; no_stop.
    - inv_run H as w t2 H2. apply (proj1 (run_sub _ _ _)) in H2. apply waited_no_stop in H2. destruct w.
      + apply run_ret in H as [-> _]. no_stop.
      + inv_run H as fk t3 H3%recorded_no_stop. apply run_ret in H as [-> _]. no_stop. }
  apply sent_shape in H1 as [[H1 _]|(row & js & x & -> & _)]; [left; no_stop|].
  right. exists [Act (GetCommandState id) row], js, x, t1'. split; [done|]. no_stop.
Qed.
Lemma sent_none_app sig timeout wait t1 t2 :
  Forall (fun a => ~ is_stop a) t1 -> stops_sent sig timeout wait t2 -> stops_sent sig timeout wait (t1 ++ t2).
Proof.
  intros H1 H2. destruct H2 as [tr H|u js x v H|u js v js' x w H Hd].
  - apply sent_none. no_stop.
  - rewrite app_assoc. apply sent_one. rewrite <- app_assoc. no_stop.
  - rewrite app_assoc. apply sent_two; [|done]. rewrite <- app_assoc. no_stop.
Qed.

(** A stop sends the stop signal with the timeout it resolved, and SIGKILL at most
    once, after the whole wait derived from that timeout has run out. *)
Theorem kill_waits_its_time id signal timeout tr r :
  run (stop_of id signal timeout) tr r ->
  Forall (fun a => ~ is_stop a) tr \/
  exists i n c sig canon, Act (GetCommandConfig id) (Ok (i, n, c)) ∈ tr /\
    ParseSignal SignalName SignalNum (effective_signal signal c) = Ok (sig, canon) /\
    stops_sent sig (stopTimeout timeout c) (stopWait (stopTimeout timeout c) c) tr.
Proof.
  unfold stopReportingUnreachable. intros H. inv_run H as [[[state code] js]|er] t1 H1.
  2:{ destruct er; apply run_ret in H as [-> ->]; left; no_stop. }
  destruct (run_over state) eqn:Ho; [apply run_ret in H as [-> ->]; left; no_stop|].
  inv_run H as [[[i n] c]|er] t2 H2; [|apply run_ret in H as [-> ->]; left; no_stop].
  cbv zeta in H. destruct (ParseSignal _ _ _) as [[sig canon]|er] eqn:Hp; [|apply run_ret in H as [-> ->]; left; no_stop].
  right. exists i, n, c, sig, canon. split; [by right; left|split; [done|]].
  inv_run H as [] t3 H3. do 3 (apply (sent_none_app _ _ _ [_]); [no_stop|]).
  generalize dependent (stopTimeout timeout c). intros T H. inv_run H as e t4 H4.
  apply sent_shape in H4 as [[H4 He]|(row & js' & x & -> & Hx)].
  - apply sent_none_app; [done|]. apply sent_none. destruct e as [e|]; [|done]. destruct (isMonitorUnavailable e).
    + inv_run H as [died err] t5 H5%settle_no_stop. apply run_ret in H as [-> _]. no_stop.
    + apply run_ret in H as [-> _]. no_stop.
  - simpl. change (?a :: ?b :: t4') with ([a] ++ b :: t4'). destruct e as [e|].
    + apply sent_one. no_stop. destruct (isMonitorUnavailable e).
      * inv_run H as [died err] t5 H5%settle_no_stop. apply run_ret in H as [-> _]. no_stop.
      * apply run_ret in H as [-> _]. no_stop.
    + destruct Hx as [Hx _]. rewrite (Hx eq_refl). clear Hx. inv_run H as w t5 H5. apply (proj1 (run_sub _ _ _)) in H5.
      pose proof (waited_no_stop _ _ _ _ H5) as Hn.
      assert (Hc : w = Some (WaitEnded DeadlineExceeded) /\ run (escalate cfg id c (stopWait T c)) t5' r \/ Forall (fun a => ~ is_stop a) t5').
      { destruct w as [w|]; [|right; inv_run H as fk t6 H6%recorded_no_stop; apply run_ret in H as [-> _]; no_stop].
        destruct w as [| | | | | | | | | | |[]| | | | | | | | | | | | | | | | | | | | | |];
          try (right; apply run_ret in H as [-> _]; no_stop). by left. }
      destruct Hc as [[-> Hc]|Hc]; [|apply sent_one; no_stop].
      apply escalate_stops in Hc as [Hc|(u & js2 & x2 & v & -> & Hc)]; [apply sent_one; no_stop|].
      rewrite app_assoc. apply Forall_app in Hc as [? ?]. apply sent_two; [no_stop|].
      apply elem_of_app. left. by eapply waited_deadline.
Qed.

(** The wait of a command with a stop command is twice the timeout as long as that fits;
    beyond it wraps around, and the wait is over at once. *)
Lemma stopWait_bounds timeout c :
  (0 < timeout < 2 ^ 63)%Z -> cc_StopCommand c <> None ->
  stopWait timeout c = if decide (timeout < 2 ^ 62)%Z then (2 * timeout)%Z else (2 * timeout - 2 ^ 64)%Z.
Proof.
  intros Ht Hc. unfold stopWait, wrap64. destruct (cc_StopCommand c); [|done]. case_decide.
  - rewrite Z.mod_small by lia. lia.
  - replace (2 * timeout + 2 ^ 63)%Z with (2 * timeout + 2 ^ 63 - 2 ^ 64 + 1 * 2 ^ 64)%Z by lia.
    rewrite Z.mod_add, Z.mod_small by lia. lia.
Qed.

(** The first command that overflows, after some 146 years. *)
Lemma stopWait_overflows c : cc_StopCommand c <> None -> (stopWait (2 ^ 62) c < 0)%Z.
Proof. intros Hc. rewrite stopWait_bounds by (done || lia). by vm_compute. Qed.

(** ** Removing *)

(** What allows the record of a live command to go: its run was seen over, or its monitor
    was killed, unless it has none. *)
Definition monitor_gone (id : string) (pid : Z) (tr : list clact) : Prop :=
  Exists (read_over id) tr \/ (pid <= 0)%Z \/ Act (KillProcess pid) tt ∈ tr.

Lemma stopForRemoval_ok id pid tr :
  run (stopForRemoval SignalName SignalNum cfg id pid) tr None -> monitor_gone id pid tr /\ Act ContextDone false ∈ tr.
Proof.
  unfold stopForRemoval. intros H. inv_run H as [[u fk] err] t1 H1. inv_run H as cancelled t2 H2.
  destruct cancelled; [inv_ret H|].
  split; [|by apply elem_of_app; right; left]. destruct err as [e|]; [|destruct u].
  3:{ inv_ret H. left. apply Exists_app. left. by apply stop_results in H1 as [H1 _]; apply H1. }
  all: inv_run H as [] t3 H3; inv_ret H; case_decide; [|right; left; lia]; apply run_call in H3 as ->;
    right; right; apply elem_of_app; right; right; left.
Qed.

Lemma delete_record_ok id c tr :
  run (delete_record cfg id c) tr None -> exists t, tr = Act (DeleteCommand id) None :: t.
Proof. unfold delete_record. intros H. inv_run H as [e|] t1 H1; [inv_ret H|]. by eexists. Qed.

(** C28: a command that is starting or running is removed only by force, and then only
    after its run was seen over or its monitor was killed (a process id that is not
    positive stands for no monitor): no monitor outlives its record.  Without force nothing
    but reads happens. *)
Theorem removal_leaves_no_monitor id force tr r :
  run (remove_of id force) tr r ->
  exists row tr', tr = Act (GetCommandState id) row :: tr' /\
  forall state code js, row = Ok (state, code, js) -> isStaleCheckState state = true ->
  (r = None -> force = true /\ exists t1 t2, tr' = t1 ++ Act (DeleteCommand id) None :: t2 /\
     monitor_gone id (MonitorPID js) t1 /\ Act ContextDone false ∈ t1) /\
  (force = false -> is_Some r /\ exists x, tr' = [Act (GetCommandConfig id) x]).
Proof.
  unfold rmOne. intros H. inv_run H as row t1 H1. exists row, t1'. split; [done|]. intros state code js -> Hs.
  inv_run H as [[[i n] c]|e] t3 H3.
  2:{ apply run_ret in H as [-> ->]. split; [done|]. intros _. split; [by eexists|]. by eexists. }
  rewrite Hs in H. destruct force; cbn [negb] in H.
  2:{ apply run_ret in H as [-> ->]. split; [done|]. intros _. split; [by eexists|]. by eexists. }
  split; [|done]. intros ->. split; [done|]. inv_run H as [e|] t4 H4; [inv_ret H|].
  apply delete_record_ok in H as [t ->]. apply stopForRemoval_ok in H4 as [Hg Hc].
  exists (Act (GetCommandConfig id) (Ok (i, n, c)) :: t4), t. split; [done|]. split; [|by right].
  destruct Hg as [?|[?|?]]; [left; by right|right; by left|right; right; by right].
Qed.

(** ** Replacing *)

(** A call that leaves what is stored of other commands alone. *)
Definition keeps_stored (c : CommandConfig) (a : clact) : Prop :=
  match a with
  | Act (ReplaceCommand _ _ _ _) x => is_Some x
  | Act (RemoveAll path) _ => path = CommandDir c
  | Act (UpdateCommandState _ _ _ _) _ | Act (DeleteCommand _) _ | Act (KillProcess _) _ | Act (EmitEvent _ _ _) _
  | Act (MonitorStop _ _ _) _ => False
  | _ => True
  end.

Ltac kept := repeat first [apply Forall_nil_2 | apply Forall_cons_2; [first [exact I | reflexivity | by eexists]|] | apply Forall_app_2].

Lemma insertCommand_keeps id name c tr r : run (insertCommand id name c) tr r -> Forall (keeps_stored c) tr.
Proof.
  unfold insertCommand. intros H. inv_run H as [e|] t1 H1; [inv_ret H; kept|].
  inv_run H as [e|] t2 H2; [inv_ret H; kept|]. inv_run H as e t3 H3. apply run_ret in H as [-> ->]. kept.
Qed.

(** What a replacement that succeeded found under the name: nothing, or a command that
    does not run; its rows are swapped after the new files are written, and its own files
    go last. *)
Definition replaced (id name : string) (c : CommandConfig) (tr : list clact) : Prop :=
  (exists t, tr = Act (ResolveIDByName name) (Err NoRows) :: t /\ Forall (keeps_stored c) t) \/
  exists oldID state code js i n oldCfg oldDir t,
    tr = [Act (ResolveIDByName name) (Ok oldID); Act (GetCommandState oldID) (Ok (state, code, js));
          Act (GetCommandConfig oldID) (Ok (i, n, oldCfg)); Act (WriteCommandConfig (CommandDir c) c) None;
          Act (ReplaceCommand oldID id name c) None] ++ t ++ [Act (EmitEvent EventTypeRemoved oldID None) tt] /\
    isStaleCheckState state = false /\ MonitorRuntimeDir cfg oldID = Ok oldDir /\
    t = (if decide (CommandDir oldCfg = "") then [] else [Act (RemoveAll (CommandDir oldCfg)) tt]) ++ [Act (RemoveAll oldDir) tt].

(** A replacement is all or nothing for the command it replaces.  With an error the
    old one keeps its rows and its files.  Without one, the new files were written before
    the rows were swapped, the old command did not run, and only its files were removed. *)
Theorem replace_all_or_nothing id name c tr r :
  run (replaceOrInsertCommand cfg id name c) tr r ->
  match r with Some _ => Forall (keeps_stored c) tr | None => replaced id name c tr end.
Proof.
  unfold replaceOrInsertCommand. intros H. inv_run H as [oldID|[]] t1 H1.
  2:{ apply insertCommand_keeps in H. destruct r; [kept; done|]. left. by eexists. }
  2:{ apply run_ret in H as [-> ->]. kept. }
  inv_run H as [[[state code] js]|e] t2 H2; [|apply run_ret in H as [-> ->]; kept].
  destruct (isStaleCheckState state) eqn:Hs; [apply run_ret in H as [-> ->]; kept|].
  inv_run H as [[[i n] oldCfg]|e] t3 H3; [|apply run_ret in H as [-> ->]; kept].
  destruct (MonitorRuntimeDir cfg oldID) as [oldDir|e] eqn:Hd; [|apply run_ret in H as [-> ->]; kept].
  unfold swap_command in H. inv_run H as [e|] t4 H4; [apply run_ret in H as [-> ->]; kept|].
  inv_run H as [e|] t5 H5.
  { inv_run H as [] t6 H6. apply run_ret in H as [-> ->]. kept. }
  inv_run H as [] t7 H7. inv_run H as [] t8 H8. inv_run H as [] t9 H9. apply run_ret in H as [-> ->]. right.
  exists oldID, state, code, js, i, n, oldCfg, oldDir.
  exists ((if decide (CommandDir oldCfg = "") then [] else [Act (RemoveAll (CommandDir oldCfg)) tt]) ++ [Act (RemoveAll oldDir) tt]).
  split; [|done]. case_decide; [apply run_ret in H7 as [-> _]|apply run_call in H7 as ->]; done.
Qed.

(** ** Starting *)

Lemma timeout_run id desired state code js since progressed n :
  state <> desired -> state = sm_State since -> MonitorPID js = sm_MonitorPID since -> progressed = false ->
  exists tr, run (wait_for_state id desired since progressed n) tr (state, Some (WaitTimedOut state)) /\
    Forall (fun a => a = Act Sleep50ms tt \/ a = Act (GetCommandState id) (Ok (state, code, js))) tr.
Proof.
  intros Hd Hs Hp ->. induction n as [|n (tr & Hr & Ha)].
  - exists [Act (GetCommandState id) (Ok (state, code, js))]. split; [|apply Forall_cons_2; [by right|constructor]].
    cbn. exists (Ok (state, code, js)), []. done.
  - exists (Act (GetCommandState id) (Ok (state, code, js)) :: Act Sleep50ms tt :: tr). split.
    + exists (Ok (state, code, js)). eexists. split; [reflexivity|]. cbn [run wait_for_state mbind prog_bind call].
      rewrite (bool_decide_eq_false_2 (state <> _)), (bool_decide_eq_false_2 (MonitorPID js <> _)) by tauto.
      cbn. rewrite decide_False by done. cbn. exists tt, tr. done.
    + apply Forall_cons_2; [by right|]. apply Forall_cons_2; [by left|done].
Qed.

(** A start whose new monitor never gets as far as writing its state reports success,
    when the run before had exited: the wait ends on the old state, and that state is taken
    for the end of the new run. *)
Theorem start_timeout_reports_success opts idOrName id name c code js :
  validate SignalName SignalNum ParseBytes opts c = Ok tt ->
  exists tr, run (start_of opts idOrName)
      ([Act (GetCommandConfig idOrName) (Ok (id, name, c)); Act (GetCommandState id) (Ok (EventTypeExited, code, js));
        Act (SpawnMonitor id) true] ++ tr) None /\
    Forall (fun a => a = Act Sleep50ms tt \/ a = Act (GetCommandState id) (Ok (EventTypeExited, code, js))) tr.
Proof.
  intros Hv. destruct (timeout_run id EventTypeRunning EventTypeExited code js
    {| sm_State := EventTypeExited; sm_MonitorPID := MonitorPID js |} false 100) as (tr & Hr & Ha); [done..|].
  exists tr. split; [|done]. unfold Start.
  do 2 eexists. split; [reflexivity|]. cbn -[run wait_for_state WaitForState]. rewrite Hv.
  do 2 eexists. split; [reflexivity|]. cbn -[run wait_for_state WaitForState].
  do 2 eexists. split; [reflexivity|]. cbn -[run wait_for_state WaitForState].
  apply run_bind. eexists _, tr, []. rewrite app_nil_r. split; [done|]. split; [exact Hr|]. done.
Qed.
End Props.

(** ** Witnesses *)

Definition some_command : CommandConfig := {|
  Argv := ["serve"]; cc_Dir := "/"; cc_Env := ["HOME=/"]; cc_InjectEnv := false; cc_RestartPolicy := RestartPolicyNo;
  cc_MaxRetries := 0; cc_StopSignal := "SIGTERM"; StopTimeout := None; cc_StopCommand := None; cc_Tty := false;
  cc_ScrollbackBytes := 1; cc_LogDriver := "k8s-file"; cc_LogOpts := ∅; Labels := ∅; Annotations := ∅; cc_Hooks := ∅;
  CommandDir := "/data/cmd/1" |}.

Definition client_cfg : Config := {|
  cf_DataDir := "/data"; cf_RuntimeDir := "/run"; cf_DefaultWorkingDir := "/"; cf_DefaultEnvironment := [];
  cf_DefaultScrollbackBytes := 0; cf_DefaultLogDriver := ""; cf_EventWatcherKind := ""; cf_DefaultHooks := ∅;
  cf_DefaultFrame := ""; cf_ConfigPath := "" |}.

Definition monitored : CommandState :=
  {| MonitorPID := 7; SocketPath := "/run/cmd/1/monitor.sock"; StartedAt := ""; FinishedAt := ""; RestartCount := 0;
     cs_Error := ""; Warnings := []; cs_ForceKilled := false |}.

(** A store that answers the reads of the state one after the other, and a monitor that
    does not answer. *)
Definition scripted (X : Type) (e : cliE X) (rows : list (result storeErr stateRow)) : X * list (result storeErr stateRow) :=
  match e in cliE X return X * _ with
  | GetCommandState _ => (match rows with r :: _ => r | [] => Err NoRows end, tail rows)
  | GetCommandConfig n => (Ok (n, "c", some_command), rows)
  | ResolveID n => (Ok n, rows)
  | ResolveIDByName n => (Ok n, rows)
  | FindByLabels _ => (Ok [], rows)
  | ListAllCommands => (Ok [], rows)
  | ListCommands _ _ => (Ok [], rows)
  | UpdateCommandState _ _ _ _ => (None, rows)
  | DeleteCommand _ => (None, rows)
  | InsertCommandConfig _ _ _ => (None, rows)
  | InsertCommandState _ _ _ => (None, rows)
  | ReplaceCommand _ _ _ _ => (None, rows)
  | WriteCommandConfig _ _ => (None, rows)
  | RemoveAll _ => (tt, rows)
  | EmitEvent _ _ _ => (tt, rows)
  | MonitorStop _ _ _ => (Err Unavailable, rows)
  | WaitTick _ => (None, rows)
  | PollTick => (None, rows)
  | ContextDone => (false, rows)
  | KillProcess _ => (tt, rows)
  | SpawnMonitor _ => (true, rows)
  | Sleep50ms => (tt, rows)
  | ProbePIDLock _ => (Ok false, rows)
  | GenerateID => ("1", rows)
  end.

Lemma scripted_check {A} (p : clprog A) rows (check : A -> bool) :
  match exec scripted p rows with Some (a, _, _) => check a | None => false end = true ->
  exists tr a, run p tr a /\ check a = true.
Proof.
  destruct (exec scripted p rows) as [[[a tr] s]|] eqn:E; [|done]. intros H. exists tr, a.
  split; [by eapply exec_run|done].
Qed.

Definition in_state (state : EventType) : result storeErr stateRow := Ok (state, None, monitored).

(** The command exits between the first read and the stop call. *)
Definition exiting_stop : clprog (bool * bool * option cliErr) :=
  stopReportingUnreachable (fun _ => "SIGTERM") (fun _ => 15%Z) client_cfg "1" "" None.
Definition exiting_rows := [in_state EventTypeRunning; in_state EventTypeRunning; in_state EventTypeExited].

Lemma stop_settles_witness :
  exists tr, run exiting_stop tr (false, false, None) /\ Exists (read_over "1") tr.
Proof.
  destruct (scripted_check exiting_stop exiting_rows
    (fun r => match r with (false, false, None) => true | _ => false end)) as (tr & [[[] []] []] & Hr & Hc);
    [vm_compute; reflexivity|discriminate Hc..|].
  exists tr. split; [exact Hr|].
  destruct (stop_settles (fun _ => "SIGTERM") (fun _ => 15%Z) client_cfg "1" "" None tr false false None Hr) as [H _].
  by apply H.
Defined.

Lemma kill_waits_its_time_witness :
  exists tr, run exiting_stop tr (false, false, None) /\
    (Forall (fun a => ~ is_stop a) tr \/ exists sig T W, stops_sent sig T W tr).
Proof.
  destruct (scripted_check exiting_stop exiting_rows
    (fun r => match r with (false, false, None) => true | _ => false end)) as (tr & [[[] []] []] & Hr & Hc);
    [vm_compute; reflexivity|discriminate Hc..|].
  exists tr. split; [exact Hr|].
  destruct (kill_waits_its_time (fun _ => "SIGTERM") (fun _ => 15%Z) client_cfg "1" "" None tr _ Hr)
    as [H|(i & n & c & sig & canon & _ & _ & H)]; [by left|right; eauto].
Defined.

(** A forced removal of a command whose monitor does not answer kills the monitor. *)
Definition forced_removal : clprog (option cliErr) :=
  rmOne (fun _ => "SIGTERM") (fun _ => 15%Z) client_cfg "1" true.

Lemma removal_leaves_no_monitor_witness :
  exists tr row tr', run forced_removal tr None /\ tr = Act (GetCommandState "1") row :: tr' /\
  forall state code js, row = Ok (state, code, js) -> isStaleCheckState state = true ->
    exists t1 t2, tr' = t1 ++ Act (DeleteCommand "1") None :: t2 /\ monitor_gone "1" (MonitorPID js) t1.
Proof.
  destruct (scripted_check forced_removal (replicate 4 (in_state EventTypeRunning))
    (fun r => match r with None => true | _ => false end)) as (tr & [] & Hr & Hc); [vm_compute; reflexivity|discriminate Hc|].
  destruct (removal_leaves_no_monitor (fun _ => "SIGTERM") (fun _ => 15%Z) client_cfg "1" true tr None Hr)
    as (row & tr' & Ht & H).
  exists tr, row, tr'. split; [exact Hr|]. split; [exact Ht|]. intros state code js Hrow Hs.
  destruct (H state code js Hrow Hs) as [H1 _]. destruct (H1 eq_refl) as (_ & t1 & t2 & ? & ? & _). eauto.
Defined.

Lemma replace_all_or_nothing_witness :
  exists tr, run (replaceOrInsertCommand client_cfg "2" "web" some_command) tr None /\
    replaced client_cfg "2" "web" some_command tr.
Proof.
  destruct (scripted_check (replaceOrInsertCommand client_cfg "2" "web" some_command) [in_state EventTypeExited]
    (fun r => match r with None => true | _ => false end)) as (tr & [] & Hr & Hc); [vm_compute; reflexivity|discriminate Hc|].
  exists tr. split; [exact Hr|]. exact (replace_all_or_nothing client_cfg "2" "web" some_command tr None Hr).
Defined.

Lemma start_timeout_reports_success_witness :
  validate (fun _ => "SIGTERM") (fun _ => 15%Z) (fun _ => None) (fun _ => []) some_command = Ok tt /\
  exists tr, run (Start (fun _ => "SIGTERM") (fun _ => 15%Z) (fun _ => None) (fun _ => []) "web")
    ([Act (GetCommandConfig "web") (Ok ("1", "web", some_command));
      Act (GetCommandState "1") (Ok (EventTypeExited, Some 0%Z, monitored)); Act (SpawnMonitor "1") true] ++ tr) None.
Proof.
  split; [vm_compute; reflexivity|].
  destruct (start_timeout_reports_success (fun _ => "SIGTERM") (fun _ => 15%Z) (fun _ => None) (fun _ => [])
    "web" "1" "web" some_command (Some 0%Z) monitored) as (tr & H & _); [vm_compute; reflexivity|]. by exists tr.
Defined.
