(* ===== verification/EventLog.v ===== *)
(** * The event log

    [cmdman/eventlog]: a file of JSON lines that every process appends to under an
    advisory lock, with one archive, and readers that follow it across rotations; and
    [cmdman/cmdman_events.go], the subscription to it.

    Files are numbered in the order of their creation; a number is the identity of a file
    (device and inode), is not used again, and the file stays readable after it has lost
    its name, as an open descriptor does.  Writers exclude each other by the lock, so
    there is one writer machine, which any process can start; its calls, one step each,
    interleave with those of a reader, which takes the lock only to open files.  Each
    call is answered by the environment. *)

From S2P Require Import Prelude GoStr LogDriver Model Config.

(** ** Lines *)

Inductive logErr :=
| EmptyPath
| DecodeLine
| ReadLog
| OpenSnapshot
| SeekEnd
| MarshalEvent
| OpenLock
| OpenLog
| StatLog
| WriteMarker
| SyncMarker
| RemoveArchive
| RenameLog
| ReopenLog
| WriteEvent
| SyncLog
| UnknownWatcher (kind : string).

Section Codec.
Context (marshal : Event -> option (list Z)) (unmarshal : list Z -> option Event).

Definition stamped (now : Z) (e : Event) : Event :=
  if decide (ev_Time e = 0%Z) then
    {| ev_Time := now; ev_Type := ev_Type e; ev_ID := ev_ID e; ev_Name := ev_Name e; ev_State := ev_State e;
       ev_ExitCode := ev_ExitCode e; ev_Error := ev_Error e; ev_Attrs := ev_Attrs e |}
  else e.

(* src/cmdman/eventlog/event.go:17-27 marshalEvent *)
Definition marshalEvent (now : Z) (e : Event) : option (list Z) :=
  b ← marshal (stamped now e); Some (b ++ [newline]).

Definition rotation_event (now : Z) : Event :=
  {| ev_Time := now; ev_Type := EventTypeRotation; ev_ID := ""; ev_Name := ""; ev_State := "";
     ev_ExitCode := None; ev_Error := ""; ev_Attrs := ∅ |}.

(* src/cmdman/eventlog/event.go:29-32 rotationMarker *)
Definition rotationMarker (now now' : Z) : option (list Z) := marshalEvent now' (rotation_event now).

(** [bytes] without the line ends behind. *)
(* src/cmdman/eventlog/reader_scan.go:85-88 parseLine *)
Fixpoint trim_crlf (l : list Z) : list Z :=
  match l with
  | [] => []
  | b :: l => match trim_crlf l with
              | [] => if decide (b = newline \/ b = 13%Z) then [] else [b]
              | l => b :: l
              end
  end.

Inductive parsed := Skip | Rotation | Malformed | Parsed (e : Event).

(* src/cmdman/eventlog/reader_scan.go:79-100 parseLine *)
Definition parseLine (line : list Z) : parsed :=
  match trim_crlf line with
  | [] => Skip
  | trim =>
    match unmarshal trim with
    | None => Malformed
    | Some ev => if decide (ev_Type ev = EventTypeRotation) then Rotation else Parsed ev
    end
  end.

(** ** The directory *)

Record logdir := {
  inodes : gmap nat (list Z);
  active : option nat;
  archived : option nat;
  fresh : nat;
}.

Definition content (d : logdir) (f : nat) : list Z := default [] (inodes d !! f).

Definition append_to (f : nat) (bs : list Z) (d : logdir) : logdir :=
  {| inodes := <[f := content d f ++ bs]> (inodes d); active := active d; archived := archived d; fresh := fresh d |}.

(** [os.OpenFile] with [O_CREATE] on the path of the log. *)
Definition open_active (d : logdir) : nat * logdir :=
  match active d with
  | Some f => (f, d)
  | None => (fresh d, {| inodes := <[fresh d := []]> (inodes d); active := Some (fresh d);
                         archived := archived d; fresh := S (fresh d) |})
  end.

(** [os.Remove] of the archive; that it is not there is no error. *)
Definition remove_archive (d : logdir) : logdir :=
  {| inodes := inodes d; active := active d; archived := None; fresh := fresh d |}.

Definition rename_active (d : logdir) : logdir :=
  {| inodes := inodes d; active := None; archived := active d; fresh := fresh d |}.

(** ** The writer *)

(* src/cmdman/eventlog/writer.go:15-16 DefaultMaxSize *)
Definition DefaultMaxSize : Z := 5 * 1024 * 1024.

(** How a call is answered: it succeeds, fails, or writes a part and fails.  [Cancelled]
    is a select that takes the end of the context. *)
Inductive answer := Done | Fails | Short (n : nat) | Cancelled.

(** Where an [Append] stands: [WIdle] before and after, with the result of the last one;
    otherwise the next call, made with the lock held from [WOpen] on. *)
Inductive wpc :=
| WIdle (last : option logErr)
| WLock (e : Event) (line : list Z)
| WOpen (e : Event) (line : list Z)
| WStat (f : nat) (e : Event) (line : list Z)
| WMarker (f : nat) (e : Event) (line : list Z)
| WSyncMarker (f : nat) (e : Event) (line : list Z)
| WRemove (e : Event) (line : list Z)
| WRename (e : Event) (line : list Z)
| WReopen (e : Event) (line : list Z)
| WWrite (f : nat) (e : Event) (line : list Z)
| WSync.

Definition locked (pc : wpc) : bool := match pc with WIdle _ | WLock _ _ => false | _ => true end.

(** The beginning of [Append]: the event as it is written, and its line. *)
(* src/cmdman/eventlog/writer.go:64-67 Writer.Append *)
Definition begin_append (now : Z) (e : Event) : wpc :=
  match marshalEvent now e with
  | None => WIdle (Some MarshalEvent)
  | Some line => WLock (stamped now e) line
  end.

(* src/cmdman/eventlog/writer.go:95-95 Writer.Append *)
Definition exceeds (maxSize : Z) (size : nat) (line : list Z) : bool :=
  bool_decide (0 < maxSize)%Z && bool_decide (maxSize < Z.of_nat size + Z.of_nat (length line))%Z.

(** [Append] and [rotateLocked], call by call; also the event the call published. *)
(* src/cmdman/eventlog/writer.go:56-141 Writer.Append *)
Definition writer_step (maxSize now now' : Z) (a : answer) (pc : wpc) (d : logdir) : option (wpc * logdir * option Event) :=
  match pc, a with
  | WIdle _, _ => None
  | WLock e line, Done => Some (WOpen e line, d, None)
  | WLock _ _, Fails => Some (WIdle (Some OpenLock), d, None)
  | WOpen e line, Done => let '(f, d) := open_active d in Some (WStat f e line, d, None)
  | WOpen _ _, Fails => Some (WIdle (Some OpenLog), d, None)
  | WStat f e line, Done =>
    Some (if exceeds maxSize (length (content d f)) line then WMarker f e line else WWrite f e line, d, None)
  | WStat _ _ _, Fails => Some (WIdle (Some StatLog), d, None)
  | WMarker f e line, _ =>
    match rotationMarker now now', a with
    | None, _ => Some (WIdle (Some WriteMarker), d, None)
    | Some m, Done => Some (WSyncMarker f e line, append_to f m d, None)
    | Some m, Fails => Some (WIdle (Some WriteMarker), d, None)
    | Some m, Short n => Some (WIdle (Some WriteMarker), append_to f (take n m) d, None)
    | Some _, Cancelled => None
    end
  | WSyncMarker f e line, Done => Some (WRemove e line, d, None)
  | WSyncMarker _ _ _, Fails => Some (WIdle (Some SyncMarker), d, None)
  | WRemove e line, Done => Some (WRename e line, remove_archive d, None)
  | WRemove _ _, Fails => Some (WIdle (Some RemoveArchive), d, None)
  | WRename e line, Done => Some (WReopen e line, rename_active d, None)
  | WRename _ _, Fails => Some (WIdle (Some RenameLog), d, None)
  | WReopen e line, Done => let '(f, d) := open_active d in Some (WWrite f e line, d, None)
  | WReopen _ _, Fails => Some (WIdle (Some ReopenLog), d, None)
  | WWrite f e line, Done => Some (WSync, append_to f line d, Some e)
  | WWrite f e line, Fails => Some (WIdle (Some WriteEvent), d, None)
  | WWrite f e line, Short n => Some (WIdle (Some WriteEvent), append_to f (take n line) d, None)
  | WSync, Done => Some (WIdle None, d, None)
  | WSync, Fails => Some (WIdle (Some SyncLog), d, None)
  | _, _ => None
  end.

(** ** The reader *)

(** A zero time is no bound. *)
(* src/cmdman/eventlog/reader.go:13-32 ReaderOption *)
Record EventReaderOption := {
  eo_Follow : bool;
  eo_Since : Z;
  eo_Until : Z;
  eo_FromEnd : bool;
  eo_WatcherKind : string;
  eo_PollInterval : Z;
}.

(* src/cmdman/eventlog/watcher.go:54-72 NewWatcher *)
Definition NewWatcher (kind path : string) : result logErr string :=
  if decide (path = "") then Err EmptyPath
  else if decide (kind = "" \/ kind = WatcherKindPoll) then Ok WatcherKindPoll
  else if decide (kind = WatcherKindInotify) then Ok WatcherKindInotify
  else Err (UnknownWatcher kind).

(** The watcher of a new reader, if it has one. *)
(* src/cmdman/eventlog/reader.go:65-89 NewReader *)
Definition NewReader (path : string) (opt : EventReaderOption) : result logErr (option string) :=
  if decide (path = "") then Err EmptyPath
  else if eo_Follow opt then try w := NewWatcher (eo_WatcherKind opt) path in Ok (Some w)
  else Ok None.

(* src/cmdman/eventlog/reader.go:34-39 Record *)
Inductive EventRecord := Got (e : Event) | Failed (er : logErr).

(** What a scan goes on with at its end: with the active file of the snapshot, after a
    replay of the archive with that identity, or with the loop. *)
Inductive after := ThenActive (ident : option nat) (act : option nat) | ThenLoop.

(** Where a reader stands: at the top of its loop; with a snapshot; with the active file
    of one; in a scan, at an offset, before a read or before a send; in a wait; done. *)
Inductive rpc :=
| RTop
| RSnapshot (arch act : option nat)
| RActive (act : option nat)
| RSeek (f : nat)
| RIdent (f : nat)
| RScan (f off : nat) (tail : bool) (k : after)
| RSend (rec : EventRecord) (f off : nat) (tail : bool) (k : after) (stop : bool)
| RWaitScan (f off : nat) (k : after)
| RWaitTop
| RSendErr (er : logErr)
| RDone.

Record reader := {
  r_pc : rpc;
  r_seeked : bool;
  r_last : option nat;
  r_out : list EventRecord;
}.

Definition new_reader : reader := {| r_pc := RTop; r_seeked := false; r_last := None; r_out := [] |}.

Definition goto (r : reader) (pc : rpc) : reader :=
  {| r_pc := pc; r_seeked := r_seeked r; r_last := r_last r; r_out := r_out r |}.

(** [bufio.Reader.ReadBytes]: up to a newline, or what there is. *)
Definition ReadBytes (c : list Z) (off : nat) : list Z :=
  let rest := drop off c in
  match index_nl rest with Some n => take (S n) rest | None => rest end.

(** A scan that ends at a marker, or, when it is not [tail], at the end of the file. *)
(* src/cmdman/eventlog/reader.go:167-184 Reader.scanLoop *)
Definition scan_end (r : reader) (k : after) (rotated : bool) : reader :=
  match k with
  | ThenActive ident act =>
    {| r_pc := RActive act; r_seeked := r_seeked r; r_last := match ident with Some i => Some i | None => r_last r end;
       r_out := r_out r |}
  | ThenLoop => goto r (if rotated then RTop else RDone)
  end.

Section Reader.
Context (opt : EventReaderOption).

(** A read and what becomes of the line. *)
(* src/cmdman/eventlog/reader_scan.go:35-75 Reader.scanFile *)
Definition scan_line (d : logdir) (r : reader) (f off : nat) (tail : bool) (k : after) : reader :=
  match ReadBytes (content d f) off with
  | [] => if tail then goto r (RWaitScan f off k) else scan_end r k false
  | line =>
    let off := off + length line in
    match parseLine line with
    | Malformed => goto r (RSend (Failed DecodeLine) f off tail k false)
    | Skip => goto r (RScan f off tail k)
    | Rotation => scan_end r k true
    | Parsed ev =>
      if decide (eo_Until opt <> 0 /\ eo_Until opt <= ev_Time ev)%Z then goto r RDone
      else if decide (eo_Since opt <> 0 /\ ev_Time ev < eo_Since opt)%Z then goto r (RScan f off tail k)
      else goto r (RSend (Got ev) f off tail k false)
    end
  end.

(** The archive of a snapshot is replayed on the first pass, unless reading starts at the
    end, and when it is neither zero nor the file that was read last. *)
(* src/cmdman/eventlog/reader.go:154-184 Reader.scanLoop *)
Definition take_snapshot (stat_ok : bool) (r : reader) (arch act : option nat) : reader :=
  match arch with
  | None => goto r (RActive act)
  | Some a =>
    let archiveIdent := if stat_ok then Some a else None in
    let initialPass := bool_decide (r_last r = None) in
    let intermediatePass := negb initialPass && bool_decide (archiveIdent <> None) && bool_decide (archiveIdent <> r_last r) in
    if (initialPass && negb (eo_FromEnd opt)) || intermediatePass
    then goto r (RScan a 0 false (ThenActive archiveIdent act))
    else goto r (RActive act)
  end.

(** The reader, call by call.  [lock_free] says whether no writer holds the lock. *)
(* src/cmdman/eventlog/reader.go:121-253 Reader.scanLoop *)
Definition reader_step (lock_free cancelled : bool) (a : answer) (d : logdir) (r : reader) : option reader :=
  match r_pc r, a with
  | RTop, _ =>
    if cancelled then Some (goto r RDone)
    else if lock_free then
      match a with
      | Done => Some (goto r (RSnapshot (archived d) (active d)))
      | Fails => Some (goto r (RSendErr OpenSnapshot))
      | _ => None
      end
    else None
  | RSnapshot arch act, Done => Some (take_snapshot true r arch act)
  | RSnapshot arch act, Fails => Some (take_snapshot false r arch act)
  | RActive None, Done =>
    if eo_Follow opt
    then Some {| r_pc := RWaitTop; r_seeked := true; r_last := r_last r; r_out := r_out r |}
    else Some (goto r RDone)
  | RActive (Some f), Done =>
    Some (goto r (if eo_FromEnd opt && negb (r_seeked r) then RSeek f else RIdent f))
  | RSeek f, Done =>
    Some {| r_pc := RScan f (length (content d f)) (eo_Follow opt) ThenLoop; r_seeked := true;
            r_last := Some f; r_out := r_out r |}
  | RSeek f, Fails => Some (goto r (RSendErr SeekEnd))
  | RIdent f, Done =>
    Some {| r_pc := RScan f 0 (eo_Follow opt) ThenLoop; r_seeked := r_seeked r; r_last := Some f; r_out := r_out r |}
  | RIdent f, Fails => Some (goto r (RScan f 0 (eo_Follow opt) ThenLoop))
  | RScan f off tail k, _ =>
    if cancelled then Some (goto r RDone)
    else match a with
         | Done => Some (scan_line d r f off tail k)
         | Fails => Some (goto r (RSend (Failed ReadLog) f off tail k true))
         | _ => None
         end
  | RSend rec f off tail k stop, Done =>
    Some {| r_pc := if stop then RDone else RScan f off tail k; r_seeked := r_seeked r; r_last := r_last r;
            r_out := r_out r ++ [rec] |}
  | RSendErr er, Done =>
    Some {| r_pc := RDone; r_seeked := r_seeked r; r_last := r_last r; r_out := r_out r ++ [Failed er] |}
  | RSend _ _ _ _ _ _, Cancelled | RSendErr _, Cancelled => if cancelled then Some (goto r RDone) else None
  | RWaitScan f off k, Done => Some (goto r (RScan f off true k))
  | RWaitTop, Done => Some (goto r RTop)
  | RWaitScan _ _ _, Fails | RWaitTop, Fails => Some (goto r RDone)
  | RWaitScan _ _ _, Cancelled | RWaitTop, Cancelled => if cancelled then Some (goto r RDone) else None
  | _, _ => None
  end.
End Reader.

(** ** Both together *)

(** [s_hist] is what was published; [s_missed] counts the files that had lost their name
    when the reader took a snapshot although it had not read them, where [s_expect] is the
    file it has to read next. *)
Record logsys := {
  s_dir : logdir;
  s_writer : wpc;
  s_reader : reader;
  s_cancelled : bool;
  s_hist : list Event;
  s_expect : nat;
  s_missed : nat;
}.

Inductive label :=
| AppendBegins (now : Z) (e : Event)
| WriterCalls (now now' : Z) (a : answer)
| ReaderCalls (a : answer)
| ContextEnds.

Definition oldest (d : logdir) : nat :=
  match archived d, active d with Some a, _ => a | None, Some a => a | None, None => fresh d end.

(** The file a reader has done with when it makes this step. *)
Definition expect_after (s : logsys) (r : reader) : nat :=
  match r_pc (s_reader s), r_pc r with
  | RScan f _ _ _, RActive _ | RScan f _ _ _, RTop => S f
  | _, _ => s_expect s
  end.

Definition sys_step (opt : EventReaderOption) (maxSize : Z) (l : label) (s : logsys) : option logsys :=
  match l with
  | AppendBegins now e =>
    match s_writer s with
    | WIdle _ => Some {| s_dir := s_dir s; s_writer := begin_append now e; s_reader := s_reader s; s_cancelled := s_cancelled s;
                         s_hist := s_hist s; s_expect := s_expect s; s_missed := s_missed s |}
    | _ => None
    end
  | WriterCalls now now' a =>
    '(w, d, e) ← writer_step maxSize now now' a (s_writer s) (s_dir s);
    Some {| s_dir := d; s_writer := w; s_reader := s_reader s; s_cancelled := s_cancelled s;
            s_hist := s_hist s ++ option_list e; s_expect := s_expect s; s_missed := s_missed s |}
  | ReaderCalls a =>
    r ← reader_step opt (negb (locked (s_writer s))) (s_cancelled s) a (s_dir s) (s_reader s);
    Some {| s_dir := s_dir s; s_writer := s_writer s; s_reader := r; s_cancelled := s_cancelled s; s_hist := s_hist s;
            s_expect := expect_after s r;
            s_missed := match r_pc r with RSnapshot _ _ => s_missed s + (oldest (s_dir s) - s_expect s) | _ => s_missed s end |}
  | ContextEnds => Some {| s_dir := s_dir s; s_writer := s_writer s; s_reader := s_reader s; s_cancelled := true;
                           s_hist := s_hist s; s_expect := s_expect s; s_missed := s_missed s |}
  end.

Fixpoint sys_run (opt : EventReaderOption) (maxSize : Z) (ls : list label) (s : logsys) : option logsys :=
  match ls with
  | [] => Some s
  | l :: ls => s ← sys_step opt maxSize l s; sys_run opt maxSize ls s
  end.
End Codec.

(** ** The poll watcher *)

(** The identity, size and modification time of the file at the last tick. *)
(* src/cmdman/eventlog/watcher_poll.go:33-35 pollWatcher.Run *)
Record poll_state := { po_ident : option nat; po_size : nat; po_mod : Z }.

Definition poll_init : poll_state := {| po_ident := None; po_size := 0; po_mod := 0 |}.

(** A tick: the new state, and whether it sends a token. *)
(* src/cmdman/eventlog/watcher_poll.go:56-73 pollWatcher.Run *)
Definition poll_tick (st : poll_state) (seen : option poll_state) : poll_state * bool :=
  match seen with
  | None => if decide (po_ident st <> None \/ po_size st <> 0) then (poll_init, true) else (st, false)
  | Some now =>
    if decide (po_ident now <> po_ident st \/ po_size now <> po_size st \/ po_mod now <> po_mod st)
    then (now, true) else (st, false)
  end.

(** ** Subscriptions *)

(* src/cmdman/cmdman_events.go:14-40 EventsRequest *)
Record EventsRequest := {
  er_NoFollow : bool;
  er_Since : Z;
  er_Until : Z;
  er_FromStart : bool;
  er_IDFilter : list string;
  er_TypeFilter : list EventType;
}.

(** [None] is no filter. *)
(* src/cmdman/cmdman_events.go:134-149 buildSet *)
Definition buildSet (values : list string) : option (gset string) :=
  let out : gset string := list_to_set (filter (fun v => v <> "") values) in
  if decide (out = ∅) then None else Some out.

(* src/cmdman/cmdman_events.go:162-174 matchesFilter *)
Definition matchesFilter (e : Event) (idAllow typeAllow : option (gset string)) : bool :=
  match idAllow with Some ids => bool_decide (ev_ID e ∈ ids) | None => true end &&
  match typeAllow with Some types => bool_decide (ev_Type e ∈ types) | None => true end.

(** The reader a subscription opens. *)
(* src/cmdman/cmdman_events.go:54-81 Service.Events *)
Definition Events_reader (watcherKind : string) (req : EventsRequest) : result string EventReaderOption :=
  if decide (er_Since req <> 0 /\ er_Until req <> 0 /\ er_Until req < er_Since req)%Z then Err "since after until"
  else
    let follow := negb (er_NoFollow req) in
    Ok {| eo_Follow := follow; eo_Since := er_Since req; eo_Until := er_Until req;
          eo_FromEnd := follow && negb (er_FromStart req) && bool_decide (er_Since req = 0%Z) && bool_decide (er_Until req = 0%Z);
          eo_WatcherKind := watcherKind; eo_PollInterval := 0 |}.

(** What it delivers of what the reader sends. *)
(* src/cmdman/cmdman_events.go:90-116 Service.Events *)
Definition Events_deliver (req : EventsRequest) (records : list EventRecord) : list EventRecord :=
  filter (fun r => match r with Got e => matchesFilter e (buildSet (er_IDFilter req)) (buildSet (er_TypeFilter req)) | Failed _ => true end = true)
    records.
