(* ===== verification/EventLogProps.v ===== *)
(** * The event log: what readers get

    A reader gets the events in the order of their publication, each once, across
    rotations, unless more than one file it has not read lost its name in between; three
    runs show what goes wrong otherwise. *)

From S2P Require Import Prelude GoStr LogDriver Model Config EventLog.

(** ** Files and their events *)

(** The events of a file, and its marker when it was rotated. *)
Notation logfile := (list Event * option Event)%type.

Section Props.
Context (marshal : Event -> option (list Z)) (unmarshal : list Z -> option Event).

(** An event that [encoding/json] gives back as it was; its text is not empty and has no
    line ends, which JSON escapes. *)
Definition faithful (e : Event) : Prop :=
  exists b, marshal e = Some b /\ unmarshal b = Some e /\ b <> [] /\ Forall (fun x => x <> newline /\ x <> 13%Z) b.

Definition enc (e : Event) : list Z := default [] (marshal e) ++ [newline].

Definition bytes_of_events (es : list Event) : list Z := concat (enc <$> es).

Definition file_lines (f : logfile) : list Event := f.1 ++ option_list f.2.

Definition file_ok (f : logfile) : Prop :=
  Forall (fun e => faithful e /\ ev_Type e <> EventTypeRotation) f.1 /\
  (forall m, f.2 = Some m -> faithful m /\ ev_Type m = EventTypeRotation).

Definition closed (f : logfile) : Prop := is_Some f.2.

Lemma index_nl_line b c : Forall (fun x => x <> newline /\ x <> 13%Z) b -> index_nl (b ++ newline :: c) = Some (length b).
Proof.
  induction 1 as [|x b [Hx _] _ IH]; simpl; [done|]. rewrite decide_False by done. by rewrite IH.
Qed.

Lemma ReadBytes_line a e b : faithful e ->
  ReadBytes (bytes_of_events (a ++ e :: b)) (length (bytes_of_events a)) = enc e.
Proof.
  intros (x & Hm & _ & _ & Hx). unfold ReadBytes, bytes_of_events. rewrite fmap_app, concat_app, drop_app_length.
  simpl. unfold enc. rewrite Hm. simpl. rewrite <- (assoc_L (++)). simpl. rewrite index_nl_line by done.
  rewrite cons_middle, (assoc_L (++)), take_app_length'; [done|]. rewrite length_app. simpl. lia.
Qed.

Lemma ReadBytes_end a : ReadBytes (bytes_of_events a) (length (bytes_of_events a)) = [].
Proof. unfold ReadBytes. by rewrite drop_all. Qed.

Lemma trim_crlf_line b : Forall (fun x => x <> newline /\ x <> 13%Z) b -> trim_crlf (b ++ [newline]) = b.
Proof.
  induction 1 as [|x b [Hx Hx'] _ IH]; simpl; [done|]. rewrite IH. destruct b; [|done].
  rewrite decide_False; [done|]. naive_solver.
Qed.

Lemma parseLine_enc e : faithful e ->
  parseLine unmarshal (enc e) = if decide (ev_Type e = EventTypeRotation) then Rotation else Parsed e.
Proof.
  intros (b & Hm & Hu & Hb & Hx). unfold parseLine, enc. rewrite Hm. simpl. rewrite trim_crlf_line by done.
  destruct b; [done|]. by rewrite Hu.
Qed.

Lemma enc_nil e : enc e <> [].
Proof. unfold enc. intros H%app_nil. naive_solver. Qed.

Lemma bytes_snoc es e : bytes_of_events (es ++ [e]) = bytes_of_events es ++ enc e.
Proof. unfold bytes_of_events. rewrite fmap_app, concat_app. simpl. by rewrite app_nil_r. Qed.

Lemma enc_marshalEvent now e line : marshalEvent marshal now e = Some line -> line = enc (stamped now e).
Proof.
  unfold marshalEvent, enc. destruct (marshal (stamped now e)) as [b|]; simpl; [by intros [= <-]|done].
Qed.

(** ** The directory and the writer *)

Definition stored (gens : list logfile) (d : logdir) : Prop :=
  fresh d = length gens /\ Forall file_ok gens /\ forall i f, gens !! i = Some f -> content d i = bytes_of_events (file_lines f).

Definition prev (n : nat) : option nat := match n with 0 => None | S n => Some n end.

(** The active file is the last, the archive the one before. *)
Definition named (gens : list logfile) (n : nat) (d : logdir) : Prop :=
  active d = Some n /\ archived d = prev n /\ Forall closed (take n gens).

Definition settled (gens : list logfile) (d : logdir) : Prop :=
  (gens = [] /\ active d = None /\ archived d = None) \/
  exists old evs, gens = old ++ [(evs, None)] /\ named gens (length old) d.

Definition line_of (e : Event) (line : list Z) : Prop := line = enc e /\ faithful e /\ ev_Type e <> EventTypeRotation.

Definition writer_inv (gens : list logfile) (d : logdir) (pc : wpc) : Prop :=
  match pc with
  | WIdle _ | WSync => settled gens d
  | WLock e line | WOpen e line => settled gens d /\ line_of e line
  | WStat f e line | WMarker f e line | WWrite f e line =>
    line_of e line /\ exists old evs, gens = old ++ [(evs, None)] /\ named gens f d /\ f = length old
  | WSyncMarker f e line =>
    line_of e line /\ exists old evs m, gens = old ++ [(evs, Some m)] /\ named gens f d /\ f = length old
  | WRemove e line => line_of e line /\ exists old evs m, gens = old ++ [(evs, Some m)] /\ named gens (length old) d
  | WRename e line =>
    line_of e line /\ exists old evs m, gens = old ++ [(evs, Some m)] /\ active d = Some (length old) /\ Forall closed gens
  | WReopen e line =>
    line_of e line /\ exists old evs m, gens = old ++ [(evs, Some m)] /\ active d = None /\ archived d = Some (length old) /\ Forall closed gens
  end.

(** How the files grow: a new one, more events in the last, or its marker. *)
Inductive grows (gens : list logfile) : list logfile -> Prop :=
| grows_not : grows gens gens
| grows_new : grows gens (gens ++ [([], None)])
| grows_event old evs e : gens = old ++ [(evs, None)] -> grows gens (old ++ [(evs ++ [e], None)])
| grows_marker old evs m : gens = old ++ [(evs, None)] -> grows gens (old ++ [(evs, Some m)]).

Definition events (gens : list logfile) : list Event := concat (gens.*1).

Lemma stored_new gens d : stored gens d -> stored (gens ++ [([], None)])
  {| inodes := <[fresh d := []]> (inodes d); active := Some (fresh d); archived := archived d; fresh := S (fresh d) |}.
Proof.
  intros (Hf & Hok & Hc). split_and!; simpl; [rewrite length_app; simpl; lia| |].
  - apply Forall_app. split; [done|]. apply Forall_singleton. split; [constructor|done].
  - intros i f Hi. unfold content. simpl. apply lookup_app_Some in Hi as [Hi|[Hlen Hi]].
    + pose proof (lookup_lt_Some _ _ _ Hi). rewrite lookup_insert_ne by lia. by apply Hc.
    + apply list_lookup_singleton_Some in Hi as [Hz <-].
      replace i with (fresh d) by lia. by rewrite lookup_insert_eq.
Qed.

Lemma stored_append old f f' x d :
  stored (old ++ [f]) d -> file_ok f' -> file_lines f' = file_lines f ++ [x] ->
  stored (old ++ [f']) (append_to (length old) (enc x) d).
Proof.
  intros (Hf & Hok & Hc) Hf' Hl. split_and!; simpl; [by rewrite Hf, !length_app| |].
  - apply Forall_app in Hok as [? _]. apply Forall_app. split; [done|]. by apply Forall_singleton.
  - intros i g Hi. unfold content. simpl. destruct (decide (i = length old)) as [->|Hne].
    + rewrite list_lookup_middle in Hi by done. injection Hi as <-. rewrite lookup_insert_eq. simpl. rewrite Hl, bytes_snoc.
      f_equal. apply (Hc (length old)). by rewrite list_lookup_middle.
    + rewrite lookup_insert_ne by done. apply (Hc i). apply lookup_app_Some in Hi as [Hi|[Hlen Hi]].
      * by apply lookup_app_l_Some.
      * apply list_lookup_singleton_Some in Hi as [Hz _]. lia.
Qed.

Lemma named_snoc old f f' n d : n = length old -> named (old ++ [f]) n d -> named (old ++ [f']) n d.
Proof. intros ->. unfold named. by rewrite !take_app_length. Qed.

Lemma named_append gens n f bs d : named gens n d -> named gens n (append_to f bs d).
Proof. done. Qed.

Lemma closed_snoc old evs m d : named (old ++ [(evs, Some m)]) (length old) d -> Forall closed (old ++ [(evs, Some m)]).
Proof. intros (_ & _ & Hc). rewrite take_app_length in Hc. apply Forall_app. split; [done|]. apply Forall_singleton. by eexists. Qed.

Lemma events_snoc old evs m : events (old ++ [(evs, m)]) = events old ++ evs.
Proof. unfold events. rewrite fmap_app, concat_app. simpl. by rewrite app_nil_r. Qed.

(** The events a faultless step may publish, and its markers, are faithful. *)
Lemma writer_step_inv maxSize now now' pc d pc' d' e gens :
  faithful (stamped now' (rotation_event now)) ->
  writer_step marshal maxSize now now' Done pc d = Some (pc', d', e) ->
  stored gens d -> writer_inv gens d pc ->
  exists gens', grows gens gens' /\ stored gens' d' /\ writer_inv gens' d' pc' /\ events gens' = events gens ++ option_list e.
Proof.
  intros Hm Hstep Hst Hw. destruct pc; simpl in Hstep, Hw; try discriminate.
  - destruct Hw as [Hs Hl]. simplify_eq. exists gens. simpl. rewrite app_nil_r. split; [apply grows_not|done].
  - destruct Hw as [Hs Hl]. destruct Hs as [(-> & Ha & Har)|(old & evs & -> & Hn)].
    + unfold open_active in Hstep. rewrite Ha in Hstep. simplify_eq. exists ([] ++ [([], None)]). split; [|split; [|split]].
      * apply grows_new.
      * by apply stored_new.
      * split; [done|]. exists [], []. destruct Hst as (Hf & _). simpl in Hf. unfold named. simpl. rewrite Hf, Har. done.
      * done.
    + pose proof Hn as (Ha & _). unfold open_active in Hstep. rewrite Ha in Hstep. simplify_eq.
      exists (old ++ [(evs, None)]). simpl. rewrite app_nil_r. split; [apply grows_not|split; [done|split; [|done]]]. split; [done|]. by exists old, evs.
  - destruct Hw as [Hl (old & evs & -> & Hn & ->)]. simplify_eq. exists (old ++ [(evs, None)]). simpl. rewrite app_nil_r.
    split; [apply grows_not|split; [done|split; [|done]]]. destruct (exceeds _ _ _); (split; [done|]; by exists old, evs).
  - destruct Hw as [Hl (old & evs & -> & Hn & ->)]. unfold rotationMarker in Hstep.
    destruct (marshalEvent marshal now' (rotation_event now)) as [m|] eqn:Hmk; [|
      unfold marshalEvent in Hmk; destruct Hm as (b & Hb & _); rewrite Hb in Hmk; discriminate].
    apply enc_marshalEvent in Hmk as ->. simplify_eq. set (m := stamped now' (rotation_event now)) in *.
    exists (old ++ [(evs, Some m)]). simpl. rewrite app_nil_r. split; [|split; [|split]].
    + by apply (grows_marker _ old evs m).
    + eapply stored_append; [done| |unfold file_lines; simpl; by rewrite app_nil_r].
      destruct Hst as (_ & [_ [[Hev _] _]%Forall_cons]%Forall_app & _). split; [done|]. intros ? [= <-]. split; [done|].
      unfold m, stamped. by case_decide.
    + split; [done|]. exists old, evs, m. split; [done|split; [|done]]. apply named_append. eapply named_snoc; done.
    + by rewrite !events_snoc.
  - destruct Hw as [Hl (old & evs & m & -> & Hn & ->)]. simplify_eq. exists (old ++ [(evs, Some m)]). simpl. rewrite app_nil_r.
    split; [apply grows_not|split; [done|split; [|done]]]. split; [done|]. by exists old, evs, m.
  - destruct Hw as [Hl (old & evs & m & -> & Hn)]. simplify_eq. eexists. simpl. rewrite app_nil_r.
    split; [apply grows_not|split; [done|split; [|done]]]. split; [done|]. exists old, evs, m. split; [done|split; [by apply Hn|by eapply closed_snoc]].
  - destruct Hw as [Hl (old & evs & m & -> & Ha & Hc)]. simplify_eq. eexists. simpl. rewrite app_nil_r.
    split; [apply grows_not|split; [done|split; [|done]]]. split; [done|]. by exists old, evs, m.
  - destruct Hw as [Hl (old & evs & m & -> & Ha & Har & Hc)]. unfold open_active in Hstep. rewrite Ha in Hstep. simplify_eq.
    set (gens := old ++ [(evs, Some m)]) in *. exists (gens ++ [([], None)]). split; [|split; [|split]].
    + apply grows_new.
    + by apply stored_new.
    + split; [done|]. exists gens, []. destruct Hst as (Hf & _). unfold named. simpl. rewrite Hf, Har, take_app_length. split_and!; try done.
      unfold gens. by rewrite length_app, Nat.add_comm.
    + rewrite events_snoc. simpl. done.
  - destruct Hw as [(-> & Hfe & Hr) (old & evs & -> & Hn & ->)]. simplify_eq. exists (old ++ [(evs ++ [e0], None)]). split; [|split; [|split]].
    + by apply grows_event.
    + eapply stored_append; [done| |unfold file_lines; simpl; by rewrite !app_nil_r].
      destruct Hst as (_ & [_ [[Hev _] _]%Forall_cons]%Forall_app & _). split; [|done]. simpl. apply Forall_app. split; [done|]. by apply Forall_singleton.
    + right. exists old, (evs ++ [e0]). split; [done|]. apply named_append. eapply named_snoc; done.
    + rewrite !events_snoc. simpl. by rewrite (assoc_L (++)).
  - simplify_eq. exists gens. simpl. rewrite app_nil_r. split; [apply grows_not|done].
Qed.

(** ** The reader *)

Definition since_ok (opt : EventReaderOption) (e : Event) : Prop := eo_Since opt = 0%Z \/ (eo_Since opt <= ev_Time e)%Z.
Definition before_until (opt : EventReaderOption) (e : Event) : Prop := eo_Until opt = 0%Z \/ (ev_Time e < eo_Until opt)%Z.

#[local] Instance since_ok_dec opt e : Decision (since_ok opt e).
Proof. unfold since_ok. apply _. Defined.

(** [P] is what was read of the files before [i]: everything, if none was missed. *)
Definition covers_upto (gens : list logfile) (missed i : nat) (P : list Event) : Prop :=
  i <= length gens /\ Forall closed (take i gens) /\ P `sublist_of` events (take i gens) /\
  (missed = 0 -> P = events (take i gens)).

Definition at_line (gens : list logfile) (missed f off : nat) (P : list Event) : Prop :=
  exists P0 evs m j, covers_upto gens missed f P0 /\ gens !! f = Some (evs, m) /\ j <= length evs /\
    off = length (bytes_of_events (take j evs)) /\ P = P0 ++ take j evs.

Definition scan_inv (gens : list logfile) (f : nat) (tail : bool) (k : after) (last : option nat) : Prop :=
  match k with
  | ThenActive ident act => ident = Some f /\ act = Some (S f) /\ S f < length gens /\ tail = false /\
                            exists evs m, gens !! f = Some (evs, Some m)
  | ThenLoop => last = Some f
  end.

(** Where the reader stands when [P] has been read and [expect] is the next file. *)
Definition position (gens : list logfile) (opt : EventReaderOption) (expect missed : nat) (r : reader) (P : list Event) : Prop :=
  match r_pc r with
  | RTop | RWaitTop => r_last r = prev expect /\ covers_upto gens missed expect P
  | RSnapshot arch None => arch = None /\ r_last r = prev expect /\ expect = 0 /\ covers_upto gens missed 0 P
  | RSnapshot arch (Some a) =>
    arch = prev a /\ r_last r = prev expect /\ expect <= a < length gens /\ Forall closed (take a gens) /\
    covers_upto gens missed (max expect (pred a)) P
  | RActive None => r_last r = prev expect /\ expect = 0 /\ covers_upto gens missed 0 P
  | RActive (Some a) | RIdent a => a < length gens /\ covers_upto gens missed a P
  | RScan f off tail k => at_line gens missed f off P /\ scan_inv gens f tail k (r_last r)
  | RWaitScan f off k => at_line gens missed f off P /\ scan_inv gens f true k (r_last r)
  | RSend (Got e) f off tail k stop =>
    stop = false /\ at_line gens missed f off (P ++ [e]) /\ since_ok opt e /\ before_until opt e /\ scan_inv gens f tail k (r_last r)
  | RDone => P `sublist_of` events gens /\ (missed = 0 -> P `prefix_of` events gens)
  | RSend (Failed _) _ _ _ _ _ | RSendErr _ | RSeek _ => False
  end.

Lemma grows_take gens gens' i : grows gens gens' -> i <= length gens -> Forall closed (take i gens) ->
  i <= length gens' /\ take i gens' = take i gens.
Proof.
  intros Hg Hi Hc. assert (Hlast : forall old evs, gens = old ++ [(evs, None)] -> i <= length old).
  { intros old evs ->. destruct (decide (i <= length old)); [done|]. rewrite length_app in Hi. simpl in Hi.
    rewrite take_ge in Hc by (rewrite length_app; simpl; lia). apply Forall_app in Hc as [_ Hc]. rewrite Forall_singleton in Hc.
    by destruct Hc. }
  destruct Hg as [| |old evs e Heq|old evs m Heq]; [done| |specialize (Hlast _ _ Heq); subst gens..].
  - rewrite length_app. split; [lia|]. by rewrite take_app_le.
  - rewrite length_app. split; [lia|]. by rewrite !take_app_le.
  - rewrite length_app. split; [lia|]. by rewrite !take_app_le.
Qed.

Lemma grows_lookup gens gens' f evs m : grows gens gens' -> gens !! f = Some (evs, m) ->
  exists x m', gens' !! f = Some (evs ++ x, m') /\ (is_Some m -> x = [] /\ m' = m).
Proof.
  intros Hg Hf. assert (Hsnoc : forall old evs0 evs1 m1, gens = old ++ [(evs0, None)] ->
    exists x m', (old ++ [(evs0 ++ evs1, m1)]) !! f = Some (evs ++ x, m') /\ (is_Some m -> x = [] /\ m' = m)).
  { intros old evs0 evs1 m1 ->. apply lookup_app_Some in Hf as [Hf|[Hlen Hf]].
    - exists [], m. rewrite app_nil_r. split; [by apply lookup_app_l_Some|done].
    - apply list_lookup_singleton_Some in Hf as [Hz [= <- <-]]. exists evs1, m1. split; [|by intros []].
      rewrite lookup_app_r, Hz by lia. done. }
  destruct Hg as [| |old evs0 e Heq|old evs0 m0 Heq].
  - exists [], m. by rewrite app_nil_r.
  - exists [], m. rewrite app_nil_r. split; [by apply lookup_app_l_Some|done].
  - by apply Hsnoc.
  - specialize (Hsnoc old evs0 [] (Some m0) Heq). by rewrite app_nil_r in Hsnoc.
Qed.

Lemma grows_events gens gens' : grows gens gens' -> events gens `prefix_of` events gens'.
Proof.
  destruct 1 as [| |old evs e ->|old evs m ->]; rewrite ?events_snoc; [done|by apply prefix_app_r| |done].
  rewrite (assoc_L (++)). by apply prefix_app_r.
Qed.

Lemma grows_length gens gens' : grows gens gens' -> length gens <= length gens'.
Proof. destruct 1 as [| |old evs e ->|old evs m ->]; rewrite ?length_app; simpl; lia. Qed.

Lemma covers_grows gens gens' missed i P : grows gens gens' -> covers_upto gens missed i P -> covers_upto gens' missed i P.
Proof.
  intros Hg (Hi & Hc & Hs & He). destruct (grows_take _ _ _ Hg Hi Hc) as [Hi' Ht]. unfold covers_upto. by rewrite Ht.
Qed.

Lemma at_line_grows gens gens' missed f off P : grows gens gens' -> at_line gens missed f off P -> at_line gens' missed f off P.
Proof.
  intros Hg (P0 & evs & m & j & Hc & Hf & Hj & -> & ->). destruct (grows_lookup _ _ _ _ _ Hg Hf) as (x & m' & Hf' & _).
  exists P0, (evs ++ x), m', j. rewrite length_app, take_app_le by done. split_and!; [by eapply covers_grows|done|lia|done..].
Qed.

Lemma scan_grows gens gens' f tail k last : grows gens gens' -> scan_inv gens f tail k last -> scan_inv gens' f tail k last.
Proof.
  intros Hg. destruct k as [ident act|]; [|done]. intros (-> & -> & Hlt & -> & evs & m & Hf). pose proof (grows_length _ _ Hg).
  destruct (grows_lookup _ _ _ _ _ Hg Hf) as (x & m' & Hf' & Hsame). destruct Hsame as [-> ->]; [by eexists|].
  simpl. split_and!; [done|done|lia|done|eauto].
Qed.

Lemma position_grows gens gens' opt expect missed r P :
  grows gens gens' -> position gens opt expect missed r P -> position gens' opt expect missed r P.
Proof.
  intros Hg. unfold position. pose proof (grows_length _ _ Hg) as Hlen.
  destruct (r_pc r) as [|arch [a|]|[a|]| | | |[]| | | |]; try (naive_solver eauto using covers_grows, at_line_grows, scan_grows with lia).
  - intros (-> & Hl & Ha & Hc & Hcov). split_and!; [done|done|lia..| |by eapply covers_grows].
    destruct (grows_take _ _ a Hg) as [_ ->]; [lia|done..].
  - intros [Hs Hp]. pose proof (grows_events _ _ Hg) as [x Hx]. split.
    + rewrite Hx. by apply sublist_inserts_r.
    + intros Hm. specialize (Hp Hm). etrans; [done|]. rewrite Hx. by apply prefix_app_r.
Qed.

Lemma events_split gens f evs m : gens !! f = Some (evs, m) -> events gens = events (take f gens) ++ evs ++ events (drop (S f) gens).
Proof.
  intros Hf. rewrite <- (take_drop_middle gens f (evs, m)) at 1 by done. unfold events. by rewrite fmap_app, concat_app.
Qed.

Lemma covers_all gens missed i P : covers_upto gens missed i P ->
  P `sublist_of` events gens /\ (missed = 0 -> P `prefix_of` events gens).
Proof.
  intros (Hi & _ & Hs & He). rewrite <- (take_drop i gens). unfold events in *. rewrite fmap_app, concat_app. split.
  - by apply sublist_inserts_r.
  - intros Hm. rewrite (He Hm). by apply prefix_app_r.
Qed.

Lemma at_line_all gens missed f off P : at_line gens missed f off P ->
  P `sublist_of` events gens /\ (missed = 0 -> P `prefix_of` events gens).
Proof.
  intros (P0 & evs & m & j & (Hi & _ & Hs & He) & Hf & Hj & _ & ->). rewrite (events_split _ _ _ _ Hf). split.
  - apply sublist_app; [done|]. apply sublist_inserts_r. rewrite <- (take_drop j evs) at 2. by apply sublist_inserts_r.
  - intros Hm. rewrite (He Hm). apply prefix_app. apply prefix_app_r. exists (drop j evs). by rewrite take_drop.
Qed.

Lemma covers_next gens missed f evs m P :
  covers_upto gens missed f P -> gens !! f = Some (evs, Some m) -> covers_upto gens missed (S f) (P ++ evs).
Proof.
  intros (Hi & Hc & Hs & He) Hf. pose proof (lookup_lt_Some _ _ _ Hf). unfold covers_upto.
  rewrite (take_S_r _ _ _ Hf). unfold events in *. rewrite fmap_app, concat_app. simpl. rewrite app_nil_r. split_and!; [lia| | |].
  - apply Forall_app. split; [done|]. apply Forall_singleton. by eexists.
  - by apply sublist_app.
  - intros Hm. by rewrite (He Hm).
Qed.

Lemma covers_start gens missed f P : f < length gens -> covers_upto gens missed f P -> at_line gens missed f 0 P.
Proof.
  intros Hf Hc. destruct (lookup_lt_is_Some_2 gens f Hf) as [[evs m] Hl]. exists P, evs, m, 0. rewrite take_0, app_nil_r.
  split_and!; [done|done|lia|done|done].
Qed.

Lemma covers_missed gens missed n i j P : i <= j -> j <= length gens -> Forall closed (take j gens) -> (i < j -> 0 < n) ->
  covers_upto gens missed i P -> covers_upto gens (missed + n) j P.
Proof.
  intros Hij Hj Hc Hn (Hi & _ & Hs & He). assert (Hsub : events (take i gens) `sublist_of` events (take j gens)).
  { rewrite <- (take_drop i (take j gens)). rewrite take_take, Nat.min_l by done. unfold events. rewrite fmap_app, concat_app.
    by apply sublist_inserts_r. }
  split_and!; [done|done|by etrans|]. intros Hz. assert (i = j) as <- by lia. apply He. lia.
Qed.

(** A read at a line, and what the file holds there. *)
Lemma read_at gens d f evs m j : stored gens d -> gens !! f = Some (evs, m) -> j <= length evs ->
  ReadBytes (content d f) (length (bytes_of_events (take j evs))) =
  match evs !! j with Some e => enc e | None => match m with Some m => enc m | None => [] end end.
Proof.
  intros (_ & Hok & Hc) Hf Hj. rewrite (Hc _ _ Hf). unfold file_lines. simpl.
  apply (Forall_lookup_1 _ _ _ _ Hok) in Hf as [Hev Hm]. destruct (evs !! j) as [e|] eqn:He.
  - rewrite <- (take_drop_middle evs j e) at 1 by done. rewrite <- (assoc_L (++)). simpl. apply ReadBytes_line.
    by apply (Forall_lookup_1 _ _ _ _ Hev) in He as [? _].
  - apply lookup_ge_None in He. rewrite take_ge by lia. destruct m as [m|]; simpl; [|rewrite app_nil_r; apply ReadBytes_end].
    apply ReadBytes_line. by apply Hm.
Qed.

Section Follow.
Context (opt : EventReaderOption).

(** What has been sent, when [P] has been read. *)
Definition sent (P : list Event) (r : reader) : Prop :=
  r_out r = Got <$> filter (since_ok opt) P /\ Forall (before_until opt) P.

Lemma sent_not_since P e r : before_until opt e -> ~ since_ok opt e -> sent P r -> sent (P ++ [e]) r.
Proof.
  intros Hu Hs [Ho Hp]. split; [by rewrite filter_app, filter_cons_False, filter_nil, app_nil_r|].
  apply Forall_app. split; [done|]. by apply Forall_singleton.
Qed.

Lemma at_line_read gens missed f off P evs m j e P0 :
  off = length (bytes_of_events (take j evs)) -> gens !! f = Some (evs, m) -> evs !! j = Some e ->
  covers_upto gens missed f P0 -> P = P0 ++ take j evs -> at_line gens missed f (off + length (enc e)) (P ++ [e]).
Proof.
  intros -> Hf He Hc ->. exists P0, evs, m, (S j). pose proof (lookup_lt_Some _ _ _ He). rewrite (take_S_r _ _ _ He), bytes_snoc, length_app.
  split_and!; [done|done|lia|done|by rewrite <- (assoc_L (++))].
Qed.

Definition next_expect (r r' : reader) (expect : nat) : nat :=
  match r_pc r, r_pc r' with RScan f _ _ _, RActive _ | RScan f _ _ _, RTop => S f | _, _ => expect end.

Lemma scan_line_position gens d missed expect r f off tail k P :
  stored gens d -> r_pc r = RScan f off tail k -> at_line gens missed f off P -> scan_inv gens f tail k (r_last r) -> sent P r ->
  let r' := scan_line unmarshal opt d r f off tail k in
  exists P', position gens opt (next_expect r r' expect) missed r' P' /\ sent P' r'.
Proof.
  intros Hst Hpc Hat Hscan Hsent r'. pose proof Hat as (P0 & evs & m & j & Hc & Hf & Hj & Hoff & HP).
  pose proof (read_at _ _ _ _ _ _ Hst Hf Hj) as Hread. rewrite <- Hoff in Hread. subst r'. unfold scan_line, next_expect.
  rewrite Hpc. destruct Hst as (_ & Hok & _). pose proof (Forall_lookup_1 _ _ _ _ Hok Hf) as [Hev Hmk].
  destruct (evs !! j) as [e|] eqn:He.
  - apply (Forall_lookup_1 _ _ _ _ Hev) in He as Hfe. destruct Hfe as [Hfe Hnr]. rewrite Hread.
    destruct (enc e) as [|b bs] eqn:Henc; [by apply enc_nil in Henc|]. rewrite <- Henc, parseLine_enc, decide_False by done.
    pose proof (at_line_read _ _ _ _ _ _ _ _ _ _ Hoff Hf He Hc HP) as Hnext.
    case_decide as Hu; [|case_decide as Hs].
    + exists P. split; [|done]. by eapply at_line_all.
    + exists (P ++ [e]). split; [by split|]. apply sent_not_since; [unfold before_until; lia|unfold since_ok; lia|done].
    + exists P. split; [|done]. simpl. split_and!; [done|done|unfold since_ok; lia|unfold before_until; lia|done].
  - apply lookup_ge_None in He. rewrite take_ge in HP by lia. destruct m as [m|].
    + destruct (Hmk m) as [Hfm Hrot]; [done|]. rewrite Hread. destruct (enc m) as [|b bs] eqn:Henc; [by apply enc_nil in Henc|].
      rewrite <- Henc, parseLine_enc, decide_True by done. pose proof (covers_next _ _ _ _ _ _ Hc Hf) as Hn. rewrite <- HP in Hn.
      exists P. destruct k as [ident act|]; simpl; (split; [|done]).
      * destruct Hscan as (-> & -> & Hlt & _). by split.
      * by split; [exact Hscan|].
    + rewrite Hread. destruct tail.
      * exists P. split; [|done]. simpl. split; [done|]. destruct k; [|done]. by destruct Hscan as (_ & _ & _ & ? & _).
      * exists P. destruct k as [ident act|]; [|split; [|done]; simpl; by eapply at_line_all].
        destruct Hscan as (_ & _ & _ & _ & evs' & m & Hf'). congruence.
Qed.

Lemma oldest_settled gens d : settled gens d -> stored gens d ->
  oldest d = pred (pred (length gens)) /\ archived d = prev (pred (length gens)) /\
  active d = prev (length gens) /\ Forall closed (take (pred (length gens)) gens).
Proof.
  intros [(-> & Ha & Har)|(old & evs & -> & Ha & Har & Hc)] (Hf & _); unfold oldest; rewrite Ha, Har; [by rewrite Hf|].
  rewrite length_app, Nat.add_comm. simpl. split_and!; [by destruct (length old)|done..].
Qed.

Lemma snapshot_position gens d missed expect r P : settled gens d -> stored gens d ->
  r_last r = prev expect -> covers_upto gens missed expect P ->
  position gens opt expect (missed + (oldest d - expect)) (goto r (RSnapshot (archived d) (active d))) P.
Proof.
  intros Hs Hst Hl Hc. destruct (oldest_settled _ _ Hs Hst) as (-> & -> & -> & Hclosed). unfold position. simpl.
  pose proof Hc as (Hle & Hexp & _).
  destruct (length gens) as [|a] eqn:Hlen; simpl.
  { assert (expect = 0) as -> by lia. split_and!; [done|done|done|]. by rewrite Nat.add_0_r. }
  simpl in *. assert (expect <= a).
  { destruct (decide (expect = S a)) as [->|]; [|lia]. destruct Hs as [(-> & _)|(old & evs & -> & _)]; [done|].
    rewrite take_ge in Hexp by lia. apply Forall_app in Hexp as [_ Hexp]. rewrite Forall_singleton in Hexp. by destruct Hexp. }
  split_and!; [done|done|lia|lia|done|]. eapply covers_missed; [| | | |done]; try lia.
  pose proof (Forall_take closed (max expect (pred a)) _ Hclosed) as Ht. by rewrite take_take, Nat.min_l in Ht by lia.
Qed.

Lemma take_snapshot_position gens missed expect r P arch act : eo_FromEnd opt = false ->
  r_pc r = RSnapshot arch act -> position gens opt expect missed r P -> sent P r ->
  position gens opt expect missed (take_snapshot opt true r arch act) P /\ sent P (take_snapshot opt true r arch act).
Proof.
  intros Hfe Hpc Hpos Hsent. unfold position in Hpos. rewrite Hpc in Hpos. unfold take_snapshot. rewrite Hfe.
  destruct act as [a|]; [|by destruct Hpos as (-> & ? & ? & ?)].
  destruct Hpos as (-> & Hl & [Hea Hag] & Hc & Hcov). destruct a as [|a]; simpl.
  { split; [|done]. split; [done|]. by replace expect with 0 in Hcov by lia. }
  rewrite Hl. destruct (decide (expect = S a)) as [->|Hne]; simpl.
  - simpl. repeat case_bool_decide; try congruence. simpl.
    simpl. split; [|done]. split; [done|]. by rewrite Nat.max_l in Hcov by lia.
  - rewrite Nat.max_r in Hcov by (simpl; lia). simpl in Hcov.
    replace (_ || _) with true; [split; [|done]; split; [apply covers_start; [lia|done]|]|].
    + simpl. destruct (lookup_lt_is_Some_2 gens a) as [[evs m] Hf]; [lia|]. split_and!; [done|done|lia|done|].
      assert (Hin : take (S a) gens !! a = Some (evs, m)) by (rewrite lookup_take_lt by lia; done).
      apply (Forall_lookup_1 _ _ _ _ Hc) in Hin as [x Hx]. simpl in Hx. subst m. eauto.
    + destruct expect as [|e]; simpl; [done|]. repeat case_bool_decide; congruence.
Qed.

Lemma position_all gens missed expect r P : position gens opt expect missed r P ->
  P `sublist_of` events gens /\ (missed = 0 -> P `prefix_of` events gens).
Proof.
  unfold position. destruct (r_pc r) as [|arch [a|]|[a|]|f|f|f off tail k|[e|er] f off tail k stop|f off k| |er|]; intros Hp;
    destruct_and?; try done; try (by eapply covers_all); try (by eapply at_line_all).
  match goal with H : at_line _ _ _ _ _ |- _ => apply at_line_all in H as [Hs Hp] end. split.
  - etrans; [|exact Hs]. by apply sublist_inserts_r.
  - intros Hm. etrans; [|exact (Hp Hm)]. by apply prefix_app_r.
Qed.

Lemma reader_step_position gens d lock_free cancelled a missed expect r r' P : eo_FromEnd opt = false ->
  a = Done \/ a = Cancelled -> stored gens d -> (lock_free = true -> settled gens d) ->
  reader_step unmarshal opt lock_free cancelled a d r = Some r' -> position gens opt expect missed r P -> sent P r ->
  exists P', position gens opt (next_expect r r' expect)
    (match r_pc r' with RSnapshot _ _ => missed + (oldest d - expect) | _ => missed end) r' P' /\ sent P' r'.
Proof.
  intros Hfe Ha Hst Hlock Hstep Hpos Hsent.
  pose proof (position_all _ _ _ _ _ Hpos) as Hstop. unfold next_expect.
  assert (Hpos' := Hpos). unfold position in Hpos'. unfold reader_step in Hstep.
  destruct (r_pc r) as [|arch act|act|f|f|f off tail k|[e|er] f off tail k stop|f off k| |er|] eqn:Hpc.
  - destruct cancelled; [simplify_eq; by exists P|]. destruct lock_free; [|done]. destruct Ha as [-> | ->]; [|done]. simplify_eq.
    exists P. destruct Hpos' as [Hl Hc]. split; [|done]. by eapply (snapshot_position _ _ _ _ r); auto.
  - destruct Ha as [-> | ->]; [|done]. simplify_eq. exists P.
    destruct (take_snapshot_position _ _ _ _ _ _ _ Hfe Hpc Hpos Hsent) as [H1 H2]. split; [|done].
    replace (match _ with RSnapshot _ _ => _ | _ => _ end) with missed; [done|]. unfold take_snapshot. destruct arch; [|done]. by destruct (_ || _).
  - destruct Ha as [-> | ->]; [|by destruct act]. destruct act as [a|]; [rewrite Hfe in Hstep; simpl in Hstep|destruct (eo_Follow opt)];
      simplify_eq; exists P; (split; [|done]); [exact Hpos'|..].
    + destruct Hpos' as (Hl & -> & Hc). by split.
    + done.
  - done.
  - destruct Ha as [-> | ->]; [|done]. simplify_eq. exists P. split; [|done]. destruct Hpos' as [Hlt Hc].
    split; [by apply covers_start|done].
  - destruct cancelled; [simplify_eq; by exists P|]. destruct Ha as [-> | ->]; [|done]. simplify_eq. destruct Hpos' as [Hat Hscan].
    destruct (scan_line_position _ _ _ expect _ _ _ _ _ _ Hst Hpc Hat Hscan Hsent) as (P' & H1 & H2). exists P'. split; [|done].
    unfold next_expect in H1. rewrite Hpc in H1. revert H1. unfold scan_line.
    repeat case_match; simplify_eq/=; try done; destruct k; done.
  - destruct Hpos' as (-> & Hat & Hs & Hu & Hscan). destruct Ha as [-> | ->].
    + simplify_eq. exists (P ++ [e]). split; [by split|]. destruct Hsent as [Ho Hp]. split; simpl.
      * rewrite Ho, filter_app, filter_cons_True, filter_nil by done. by rewrite fmap_app.
      * apply Forall_app. split; [done|]. by apply Forall_singleton.
    + destruct cancelled; [|done]. simplify_eq. by exists P.
  - done.
  - destruct Ha as [-> | ->]; [simplify_eq; by exists P|]. destruct cancelled; [|done]. simplify_eq. by exists P.
  - destruct Ha as [-> | ->]; [simplify_eq; by exists P|]. destruct cancelled; [|done]. simplify_eq. by exists P.
  - done.
  - by destruct Ha as [-> | ->].
Qed.

(** ** Both together *)

Definition sys_inv (s : logsys) : Prop :=
  exists gens P, stored gens (s_dir s) /\ writer_inv gens (s_dir s) (s_writer s) /\ s_hist s = events gens /\
    position gens opt (s_expect s) (s_missed s) (s_reader s) P /\ sent P (s_reader s).

(** A step in which no call fails, with an event that JSON gives back. *)
Definition faultless (l : label) : Prop :=
  match l with
  | AppendBegins now e => faithful (stamped now e) /\ ev_Type e <> EventTypeRotation
  | WriterCalls now now' a => a = Done /\ faithful (stamped now' (rotation_event now))
  | ReaderCalls a => a = Done \/ a = Cancelled
  | ContextEnds => True
  end.

(** A new reader on a log at rest: the events of the archive and of the active file. *)
Definition starts (s : logsys) : Prop :=
  exists gens r, length gens <= 2 /\ stored gens (s_dir s) /\ settled gens (s_dir s) /\ s_writer s = WIdle r /\
    s_reader s = new_reader /\ s_hist s = events gens /\ s_expect s = 0 /\ s_missed s = 0.

(** The reader waits at the end of the active file and nobody is writing. *)
Definition caught_up (s : logsys) : Prop :=
  match r_pc (s_reader s) with
  | RWaitScan f off _ => locked (s_writer s) = false /\ active (s_dir s) = Some f /\ off = length (content (s_dir s) f)
  | _ => False
  end.

Lemma starts_inv s : starts s -> sys_inv s.
Proof.
  intros (gens & r & _ & Hst & Hs & Hw & Hr & Hh & He & Hm). exists gens, []. rewrite Hw, Hr, He, Hm. split_and!; try done.
  split; [done|]. unfold covers_upto. rewrite take_0. split_and!; [lia|constructor|done|done].
Qed.

Lemma unlocked_settled gens d w : locked w = false -> writer_inv gens d w -> settled gens d.
Proof. destruct w; try done. by intros _ [? _]. Qed.

Lemma sys_step_inv maxSize l s s' : eo_FromEnd opt = false -> faultless l ->
  sys_step marshal unmarshal opt maxSize l s = Some s' -> sys_inv s -> sys_inv s'.
Proof.
  intros Hfe Hl Hstep (gens & P & Hst & Hw & Hh & Hpos & Hsent). destruct l as [now e|now now' a|a|]; simpl in Hstep.
  - destruct (s_writer s) eqn:Hpc; try done. simplify_eq. exists gens, P. simpl. split_and!; try done.
    unfold begin_append. destruct (marshalEvent marshal now e) as [line|] eqn:Hm; [|done].
    apply enc_marshalEvent in Hm as ->. destruct Hl as [Hf Hr]. simpl. split; [done|]. split_and!; [done|done|].
    unfold stamped. by case_decide.
  - destruct Hl as [-> Hf]. apply bind_Some in Hstep as ([[w d] e] & Hws & [= <-]).
    destruct (writer_step_inv _ _ _ _ _ _ _ _ _ Hf Hws Hst Hw) as (gens' & Hg & Hst' & Hw' & He).
    exists gens', P. simpl. split_and!; try done; [by rewrite Hh, He|by eapply position_grows].
  - apply bind_Some in Hstep as (r & Hr & [= <-]).
    destruct (reader_step_position _ _ _ _ _ _ _ _ _ _ Hfe Hl Hst ltac:(intros Hlk; eapply unlocked_settled; [by apply negb_true_iff|done]) Hr Hpos Hsent) as (P' & Hp' & Hs').
    exists gens, P'. by split_and!.
  - simplify_eq. exists gens, P. by split_and!.
Qed.

Lemma sys_run_inv maxSize ls s s' : eo_FromEnd opt = false -> Forall faultless ls ->
  sys_run marshal unmarshal opt maxSize ls s = Some s' -> sys_inv s -> sys_inv s'.
Proof.
  intros Hfe Hls. revert s. induction Hls as [|l ls Hl _ IH]; intros s Hrun Hi; simpl in Hrun; [by simplify_eq|].
  apply bind_Some in Hrun as (s1 & H1 & Hrun). eapply IH; [exact Hrun|]. by eapply sys_step_inv.
Qed.

Lemma caught_up_all s gens P : stored gens (s_dir s) -> writer_inv gens (s_dir s) (s_writer s) ->
  position gens opt (s_expect s) (s_missed s) (s_reader s) P -> caught_up s -> s_missed s = 0 -> P = events gens.
Proof.
  intros Hst Hw Hpos Hup Hm. unfold caught_up in Hup. unfold position in Hpos.
  destruct (r_pc (s_reader s)) as [| | | | | | |f off k| | |]; try done.
  destruct Hup as (Hlk & Ha & Hoff). destruct Hpos as [(P0 & evs & m & j & (_ & _ & _ & Hc) & Hf & Hj & Hoff' & ->) _].
  destruct (unlocked_settled _ _ _ Hlk Hw) as [(-> & _ & _)|(old & evs' & -> & Ha' & _)]; [done|].
  assert (f = length old) as -> by congruence. rewrite list_lookup_middle in Hf by done. injection Hf as <- <-.
  rewrite (Hc Hm), take_app_length, events_snoc. f_equal. apply take_ge.
  destruct Hst as (_ & _ & Hct). rewrite (Hct (length old) (evs', None)) in Hoff by (by rewrite list_lookup_middle).
  unfold file_lines in Hoff. simpl in Hoff. rewrite app_nil_r in Hoff.
  destruct (drop j evs') as [|e rest] eqn:Hd; [apply (f_equal length) in Hd; rewrite length_drop in Hd; simpl in Hd; lia|].
  rewrite Hoff' in Hoff. rewrite <- (take_drop j evs') in Hoff at 2. rewrite Hd in Hoff. unfold bytes_of_events in Hoff.
  rewrite fmap_app, concat_app, length_app in Hoff. simpl in Hoff. rewrite length_app in Hoff.
  destruct (enc e) eqn:Henc; [by apply enc_nil in Henc|]. simpl in Hoff. lia.
Qed.

(** ** Reaching the end *)











(** C25: when no call of a writer or of the reader fails, and JSON gives the events back, a
    reader from the start of the log that is opened with the log at rest delivers only
    events that were published, in their order and none twice: those of its time window
    among what it has read. Unless a file it had not read lost its name before it took a
    snapshot, that is everything from the start on, across any number of rotations; and
    once it waits at the end of the active file with no writer at work, it has read
    everything there is. *)
Theorem reader_delivers_log maxSize ls s0 s : eo_FromEnd opt = false -> starts s0 -> Forall faultless ls ->
  sys_run marshal unmarshal opt maxSize ls s0 = Some s ->
  exists P, r_out (s_reader s) = Got <$> filter (since_ok opt) P /\ Forall (before_until opt) P /\
    P `sublist_of` s_hist s /\ (s_missed s = 0 -> P `prefix_of` s_hist s) /\
    (s_missed s = 0 -> caught_up s -> P = s_hist s).
Proof.
  intros Hfe Hs Hls Hrun. destruct (sys_run_inv _ _ _ _ Hfe Hls Hrun (starts_inv _ Hs)) as (gens & P & Hst & Hw & Hh & Hpos & Hout & Hu).
  destruct (position_all _ _ _ _ _ Hpos) as [Hsub Hpre]. exists P. rewrite Hh. split_and!; try done.
  intros Hm Hup. by eapply caught_up_all.
Qed.
End Follow.

End Props.

(** ** Readers that miss or repeat *)

Definition codec_event (type id : string) : Event :=
  {| ev_Time := 1; ev_Type := type; ev_ID := id; ev_Name := ""; ev_State := ""; ev_ExitCode := None; ev_Error := ""; ev_Attrs := ∅ |}.

(** A codec for four events. *)
Definition codec_table : list (list Z * Event) :=
  [(bytes_of "R", codec_event EventTypeRotation ""); (bytes_of "a", codec_event EventTypeRunning "a");
   (bytes_of "b", codec_event EventTypeRunning "b"); (bytes_of "c", codec_event EventTypeExited "c")].

Definition codec_marshal (e : Event) : option (list Z) :=
  Some (if decide (ev_Type e = EventTypeRotation) then bytes_of "R" else bytes_of (ev_ID e)).

Definition codec_unmarshal (b : list Z) : option Event := snd <$> head (filter (fun p => p.1 = b) codec_table).

Definition event_a : Event := codec_event EventTypeRunning "a".
Definition event_b : Event := codec_event EventTypeRunning "b".
Definition event_c : Event := codec_event EventTypeExited "c".

Definition no_dir : logdir := {| inodes := ∅; active := None; archived := None; fresh := 0 |}.

Definition at_rest : logsys :=
  {| s_dir := no_dir; s_writer := WIdle None; s_reader := new_reader; s_cancelled := false; s_hist := []; s_expect := 0; s_missed := 0 |}.

Definition follow_opt (fromEnd : bool) : EventReaderOption :=
  {| eo_Follow := true; eo_Since := 0; eo_Until := 0; eo_FromEnd := fromEnd; eo_WatcherKind := ""; eo_PollInterval := 0 |}.

Definition writes (n : nat) : list label := replicate n (WriterCalls 1 1 Done).
Definition reads (n : nat) : list label := replicate n (ReaderCalls Done).

(** An [Append] without a rotation makes five calls, one with a rotation ten. *)
Definition append_calls (e : Event) (rotates : bool) : list label := AppendBegins 1 e :: writes (if rotates then 10 else 5).

Definition run_from (opt : EventReaderOption) (maxSize : Z) (ls : list label) : option logsys :=
  sys_run codec_marshal codec_unmarshal opt maxSize ls at_rest.

Definition got (s : logsys) : list EventRecord := r_out (s_reader s).

(** A reader at the end of a file that has lost its name, and a writer that uses another. *)
Record dead (f off : nat) (out : list EventRecord) (s : logsys) : Prop := {
  dead_pc : r_pc (s_reader s) ∈ [RScan f off true ThenLoop; RWaitScan f off ThenLoop; RDone];
  dead_out : got s = out;
  dead_off : length (content (s_dir s) f) = off;
  dead_name : active (s_dir s) <> Some f /\ f < fresh (s_dir s);
  dead_writer : match s_writer s with WStat g _ _ | WMarker g _ _ | WSyncMarker g _ _ | WWrite g _ _ => g <> f | _ => True end;
}.

Lemma content_append_other f g bs d : g <> f -> content (append_to g bs d) f = content d f.
Proof. intros Hne. unfold content. simpl. by rewrite lookup_insert_ne. Qed.

Lemma open_active_other f d g d' : active d <> Some f -> f < fresh d -> open_active d = (g, d') ->
  g <> f /\ content d' f = content d f /\ active d' <> Some f /\ f < fresh d'.
Proof.
  intros Ha Hf. unfold open_active. destruct (active d) as [h|] eqn:Hact; intros [= <- <-]; [split_and!; try done; congruence|].
  unfold content. simpl. split_and!; [lia| |intros [=]; lia|lia]. by rewrite lookup_insert_ne by lia.
Qed.

Lemma writer_step_dead maxSize now now' a pc d pc' d' e f marshal :
  active d <> Some f -> f < fresh d ->
  match pc with WStat g _ _ | WMarker g _ _ | WSyncMarker g _ _ | WWrite g _ _ => g <> f | _ => True end ->
  writer_step marshal maxSize now now' a pc d = Some (pc', d', e) ->
  content d' f = content d f /\ (active d' <> Some f /\ f < fresh d') /\
  match pc' with WStat g _ _ | WMarker g _ _ | WSyncMarker g _ _ | WWrite g _ _ => g <> f | _ => True end.
Proof.
  intros Ha Hf Hpc Hstep. destruct pc; simpl in Hstep;
    try (destruct (open_active d) as [g d1] eqn:Ho; pose proof (open_active_other _ _ _ _ Ha Hf Ho) as (? & ? & ? & ?));
    repeat case_match; simplify_eq; rewrite ?content_append_other by done; try done; by split_and!.
Qed.

Lemma dead_step opt maxSize marshal unmarshal f off out l s s' : faultless marshal unmarshal l ->
  sys_step marshal unmarshal opt maxSize l s = Some s' -> dead f off out s -> dead f off out s'.
Proof.
  intros Hl Hstep [Hpc Hout Hoff [Hn Hf] Hw]. destruct l as [now e|now now' a|a|]; simpl in Hstep.
  - destruct (s_writer s); simplify_eq. split; try done. simpl. unfold begin_append. by destruct (marshalEvent _ _ _).
  - apply bind_Some in Hstep as ([[w d] e] & Hws & [= <-]).
    destruct (writer_step_dead _ _ _ _ _ _ _ _ _ _ _ Hn Hf Hw Hws) as (Hc & ? & ?). split; try done. simpl. by rewrite Hc.
  - apply bind_Some in Hstep as (r & Hr & [= <-]). assert (Hread : ReadBytes (content (s_dir s) f) off = []).
    { unfold ReadBytes. rewrite drop_ge by lia. done. }
    unfold reader_step in Hr. unfold got in Hout.
    rewrite !elem_of_cons, elem_of_nil in Hpc. destruct Hpc as [Hpc|[Hpc|[Hpc|[]]]]; rewrite Hpc in Hr.
    + destruct (s_cancelled s); [|destruct Hl as [-> | ->]; [|done]; unfold scan_line in Hr; rewrite Hread in Hr];
        simplify_eq; split; try done; simpl; set_solver.
    + destruct Hl as [-> | ->]; [|destruct (s_cancelled s); [|done]]; simplify_eq; split; try done; simpl; set_solver.
    + by destruct Hl as [-> | ->].
  - simplify_eq. by split.
Qed.

Lemma dead_run opt maxSize marshal unmarshal f off out ls s s' : Forall (faultless marshal unmarshal) ls ->
  sys_run marshal unmarshal opt maxSize ls s = Some s' -> dead f off out s -> dead f off out s'.
Proof.
  intros Hls. revert s. induction Hls as [|l ls Hl _ IH]; intros s Hrun Hd; simpl in Hrun; [by simplify_eq|].
  apply bind_Some in Hrun as (s1 & H1 & Hrun). eapply IH; [exact Hrun|]. by eapply dead_step.
Qed.

(** What a reader can miss. A follower that is to start at the end seeks there after
    it has released the lock; when a rotation comes in between, it waits behind the marker
    of a file that nobody writes to any more, and gets nothing, ever. When a rename
    fails, the marker stays in the active file and a follower reads that file again and
    again. When a write is cut short, the next event is appended to the torn line:
    [Append] reports success, and no reader gets the event. *)
Theorem eventlog_hazards :
  (exists s, run_from (follow_opt true) 4 (append_calls event_a false ++ append_calls event_b false ++ reads 2 ++ append_calls event_c true ++ reads 2) = Some s /\
     s_hist s = [event_a; event_b; event_c] /\
     forall ls s', Forall (faultless codec_marshal codec_unmarshal) ls ->
       sys_run codec_marshal codec_unmarshal (follow_opt true) 4 ls s = Some s' -> got s' = []) /\
  (exists s, run_from (follow_opt false) 2 (append_calls event_a false ++ [AppendBegins 1 event_b] ++ writes 6 ++ [WriterCalls 1 1 Fails] ++ reads 14) = Some s /\
     s_writer s = WIdle (Some RenameLog) /\ s_hist s = [event_a] /\ got s = [Got event_a; Got event_a]) /\
  (exists s, run_from (follow_opt false) 100 ([AppendBegins 1 event_a] ++ writes 3 ++ [WriterCalls 1 1 (Short 1)] ++ append_calls event_b false ++ reads 7) = Some s /\
     s_writer s = WIdle None /\ s_hist s = [event_b] /\ caught_up s /\ got s = [Failed DecodeLine]).
Proof.
  split; [|split]; (eexists; split; [vm_compute; reflexivity|]).
  - split; [reflexivity|]. intros ls s' Hls Hrun. apply (dead_run _ _ _ _ 0 6 [] _ _ _ Hls) in Hrun as []; [done|].
    split; try done; [set_solver|]. simpl. split; [done|lia].
  - by split_and!.
  - split; [reflexivity|]. split; [reflexivity|]. split; [|reflexivity]. vm_compute. done.
Qed.

(** ** Witnesses *)

Lemma starts_at_rest : starts codec_marshal codec_unmarshal at_rest.
Proof.
  exists [], None. simpl. split_and!; try done; [lia|by left].
Qed.

Lemma faithful_codec e : e ∈ codec_table.*2 -> faithful codec_marshal codec_unmarshal e.
Proof.
  intros H. repeat (apply elem_of_cons in H as [->|H]); [..|by apply elem_of_nil in H];
    (eexists; split; [reflexivity|]; split; [vm_compute; reflexivity|]; split; [done|]; repeat constructor; done).
Qed.

Lemma faultless_append e rotates : e ∈ [event_a; event_b; event_c] ->
  Forall (faultless codec_marshal codec_unmarshal) (append_calls e rotates).
Proof.
  intros He. constructor.
  - split; [|set_solver by done].
    replace (stamped 1 e) with e by (unfold stamped; rewrite !elem_of_cons, elem_of_nil in He; by destruct He as [->|[->|[->|[]]]]).
    apply faithful_codec. set_solver.
  - apply Forall_replicate. split; [done|]. apply (faithful_codec (codec_event EventTypeRotation "")). set_solver.
Qed.

Lemma faultless_reads n : Forall (faultless codec_marshal codec_unmarshal) (reads n).
Proof. apply Forall_replicate. by left. Qed.

Definition log_calls : list label := append_calls event_a false ++ append_calls event_b false ++ append_calls event_c true.

Lemma faultless_log_calls n : Forall (faultless codec_marshal codec_unmarshal) (log_calls ++ reads n).
Proof. repeat (apply Forall_app; split); (apply faultless_append || apply faultless_reads); set_solver. Qed.

Lemma reader_delivers_log_witness :
  exists s P, run_from (follow_opt false) 4 (log_calls ++ reads 18) = Some s /\ caught_up s /\ P = [event_a; event_b; event_c] /\
    got s = Got <$> filter (since_ok (follow_opt false)) P.
Proof.
  destruct (run_from (follow_opt false) 4 (log_calls ++ reads 18)) as [s|] eqn:Hrun; [|by vm_compute in Hrun].
  destruct (reader_delivers_log codec_marshal codec_unmarshal (follow_opt false) 4 _ at_rest s eq_refl starts_at_rest (faultless_log_calls 18) Hrun)
    as (P & Ho & _ & _ & _ & Hall).
  vm_compute in Hrun. injection Hrun as <-. assert (Hup : caught_up
    ltac:(match type of Ho with r_out (s_reader ?s) = _ => exact s end)) by (vm_compute; done).
  eexists _, P. split; [reflexivity|]. split; [exact Hup|]. split; [by apply Hall|exact Ho].
Defined.

