(* ===== verification/SendKeys.v ===== *)
(** * Keys as terminal input

    [cmdman/cmdman_send-keys.go]: key arguments in the manner of tmux, and the bytes a
    program behind a terminal gets for them.  The tables of package [unicode] are
    arguments. *)

From S2P Require Import Prelude GoStr.

(** ** Runes *)

Definition RuneError : Z := 0xFFFD.

Definition in_range (lo hi b : Z) : bool := bool_decide (lo <= b <= hi)%Z.

(** The range of the second byte behind a lead byte, and how many bytes there are. *)
Definition utf8_lead (b : Z) : option (nat * Z * Z) :=
  if in_range 0xC2 0xDF b then Some (2, 0x80%Z, 0xBF%Z)
  else if decide (b = 0xE0)%Z then Some (3, 0xA0%Z, 0xBF%Z)
  else if decide (b = 0xED)%Z then Some (3, 0x80%Z, 0x9F%Z)
  else if in_range 0xE1 0xEF b then Some (3, 0x80%Z, 0xBF%Z)
  else if decide (b = 0xF0)%Z then Some (4, 0x90%Z, 0xBF%Z)
  else if decide (b = 0xF4)%Z then Some (4, 0x80%Z, 0x8F%Z)
  else if in_range 0xF1 0xF3 b then Some (4, 0x80%Z, 0xBF%Z)
  else None.

Definition low6 (b : Z) : Z := Z.land b 0x3F.

(** [utf8.DecodeRuneInString]: the rune and its width. *)
Definition DecodeRune (s : list Z) : Z * nat :=
  match s with
  | [] => (RuneError, 0)
  | b0 :: rest =>
    if decide (b0 < 0x80)%Z then (b0, 1)
    else
      match utf8_lead b0, rest with
      | Some (2, lo, hi), b1 :: _ =>
        if in_range lo hi b1 then ((Z.shiftl (Z.land b0 0x1F) 6 + low6 b1)%Z, 2) else (RuneError, 1)
      | Some (3, lo, hi), b1 :: b2 :: _ =>
        if in_range lo hi b1 && in_range 0x80 0xBF b2
        then ((Z.shiftl (Z.land b0 0x0F) 12 + Z.shiftl (low6 b1) 6 + low6 b2)%Z, 3) else (RuneError, 1)
      | Some (4, lo, hi), b1 :: b2 :: b3 :: _ =>
        if in_range lo hi b1 && in_range 0x80 0xBF b2 && in_range 0x80 0xBF b3
        then ((Z.shiftl (Z.land b0 0x07) 18 + Z.shiftl (low6 b1) 12 + Z.shiftl (low6 b2) 6 + low6 b3)%Z, 4)
        else (RuneError, 1)
      | _, _ => (RuneError, 1)
      end
  end.

(** [utf8.RuneCountInString(s) == 1]. *)
Definition one_rune (s : list Z) : bool := bool_decide (s <> []) && bool_decide ((DecodeRune s).2 = length s).

(** [string(r)]. *)
Definition EncodeRune (r : Z) : list Z :=
  let cont n := Z.lor 0x80 (low6 (Z.shiftr r n)) in
  if in_range 0 0x7F r then [r]
  else if in_range 0x80 0x7FF r then [Z.lor 0xC0 (Z.shiftr r 6); cont 0]%Z
  else if in_range 0xD800 0xDFFF r || negb (in_range 0 0x10FFFF r) then [0xEF; 0xBF; 0xBD]%Z
  else if in_range 0x800 0xFFFF r then [Z.lor 0xE0 (Z.shiftr r 12); cont 6; cont 0]%Z
  else [Z.lor 0xF0 (Z.shiftr r 18); cont 12; cont 6; cont 0]%Z.

(** ** Keys *)

(* src/cmdman/cmdman_send-keys.go:14-20 SendKeysRequest *)
Record SendKeysRequest := { skr_Keys : list string; skr_Literal : bool; skr_Hex : bool; skr_RepeatCount : Z }.

(* src/cmdman/cmdman_send-keys.go:22-26 specialKey *)
Record specialKey := { sk_seq : list Z; allowModifiers : bool; allowShiftAlias : bool }.

(* src/cmdman/cmdman_send-keys.go:160-164 keyModifiers *)
Record keyModifiers := { km_ctrl : bool; km_meta : bool; km_shift : bool }.

Definition no_modifiers : keyModifiers := {| km_ctrl := false; km_meta := false; km_shift := false |}.

Definition ESC : Z := 0x1b.
Definition csi (tail : string) : list Z := ESC :: bytes_of ("[" +:+ tail).
Definition ss3 (tail : string) : list Z := ESC :: bytes_of ("O" +:+ tail).

Definition modifiable (s : list Z) : specialKey := {| sk_seq := s; allowModifiers := true; allowShiftAlias := false |}.
Definition fixed (s : list Z) : specialKey := {| sk_seq := s; allowModifiers := false; allowShiftAlias := false |}.

(* src/cmdman/cmdman_send-keys.go:28-74 sendKeysNamedKeys *)
Definition sendKeysNamedKeys : list (string * specialKey) := [
  ("space", modifiable [32]%Z);
  ("bspace", modifiable [0x7f]%Z);
  ("backspace", modifiable [0x7f]%Z);
  ("tab", {| sk_seq := [9]%Z; allowModifiers := true; allowShiftAlias := true |});
  ("btab", fixed (csi "Z"));
  ("enter", modifiable [13]%Z);
  ("return", modifiable [13]%Z);
  ("escape", modifiable [0x1b]%Z);
  ("esc", modifiable [0x1b]%Z);
  ("up", modifiable (csi "A"));
  ("down", modifiable (csi "B"));
  ("right", modifiable (csi "C"));
  ("left", modifiable (csi "D"));
  ("home", modifiable (csi "H"));
  ("end", modifiable (csi "F"));
  ("insert", modifiable (csi "2~"));
  ("ic", modifiable (csi "2~"));
  ("delete", modifiable (csi "3~"));
  ("dc", modifiable (csi "3~"));
  ("pagedown", modifiable (csi "6~"));
  ("pgdn", modifiable (csi "6~"));
  ("npage", modifiable (csi "6~"));
  ("pageup", modifiable (csi "5~"));
  ("pgup", modifiable (csi "5~"));
  ("ppage", modifiable (csi "5~"));
  ("f1", fixed (ss3 "P"));
  ("f2", fixed (ss3 "Q"));
  ("f3", fixed (ss3 "R"));
  ("f4", fixed (ss3 "S"));
  ("f5", fixed (csi "15~"));
  ("f6", fixed (csi "17~"));
  ("f7", fixed (csi "18~"));
  ("f8", fixed (csi "19~"));
  ("f9", fixed (csi "20~"));
  ("f10", fixed (csi "21~"));
  ("f11", fixed (csi "23~"));
  ("f12", fixed (csi "24~"))
].

(* src/cmdman/cmdman_send-keys.go:173-176 parseSpecialKey *)
Definition named_key (name : list Z) : option specialKey :=
  snd <$> head (filter (fun p => bytes_of p.1 = name) sendKeysNamedKeys).

(* src/cmdman/cmdman_send-keys.go:221-244 ctrlASCIIByte *)
Definition ctrlASCIIByte (r : Z) : option Z :=
  if decide (r = 63)%Z then Some 0x7f%Z
  else if in_range 97 122 r then Some (r - 97 + 1)%Z
  else if in_range 65 90 r then Some (r - 65 + 1)%Z
  else if decide (r = 64 \/ r = 32)%Z then Some 0%Z
  else if decide (r = 91)%Z then Some 0x1b%Z
  else if decide (r = 92)%Z then Some 0x1c%Z
  else if decide (r = 93)%Z then Some 0x1d%Z
  else if decide (r = 94)%Z then Some 0x1e%Z
  else if decide (r = 95)%Z then Some 0x1f%Z
  else None.

Definition dash : Z := 45.

Inductive modifier := Ctrl | Meta | Shift.

(** [unicode.ToLower] of a byte: it leads to no ASCII letter from above 127. *)
(* src/cmdman/cmdman_send-keys.go:145-154 parseKeyModifiers *)
Definition modifier_of (b : Z) : option modifier :=
  if decide (b = 67 \/ b = 99)%Z then Some Ctrl
  else if decide (b = 77 \/ b = 109)%Z then Some Meta
  else if decide (b = 83 \/ b = 115)%Z then Some Shift
  else None.

(* src/cmdman/cmdman_send-keys.go:145-151 parseKeyModifiers *)
Definition add_modifier (m : modifier) (mods : keyModifiers) : keyModifiers :=
  match m with
  | Ctrl => {| km_ctrl := true; km_meta := km_meta mods; km_shift := km_shift mods |}
  | Meta => {| km_ctrl := km_ctrl mods; km_meta := true; km_shift := km_shift mods |}
  | Shift => {| km_ctrl := km_ctrl mods; km_meta := km_meta mods; km_shift := true |}
  end.

(* src/cmdman/cmdman_send-keys.go:142-158 parseKeyModifiers *)
Fixpoint parse_modifiers (mods : keyModifiers) (s : list Z) : option (keyModifiers * list Z) :=
  match s with
  | b :: ((c :: rest) as s') =>
    if decide (c = dash) then
      match modifier_of b with Some m => parse_modifiers (add_modifier m mods) rest | None => None end
    else Some (mods, s)
  | _ => Some (mods, s)
  end.

(* src/cmdman/cmdman_send-keys.go:142-158 parseKeyModifiers *)
Definition parseKeyModifiers (s : list Z) : option (keyModifiers * list Z) := parse_modifiers no_modifiers s.

Definition unshifted (mods : keyModifiers) : keyModifiers :=
  {| km_ctrl := km_ctrl mods; km_meta := km_meta mods; km_shift := false |}.

(* src/cmdman/cmdman_send-keys.go:246-265 applySingleByteModifiers *)
Definition applySingleByteModifiers (b : Z) (mods : keyModifiers) : option (list Z) :=
  let '(b, mods) := if km_shift mods && in_range 97 122 b then ((b - 97 + 65)%Z, unshifted mods) else (b, mods) in
  b ← (if km_ctrl mods then ctrlASCIIByte b else Some b);
  if km_meta mods then Some [ESC; b]
  else if km_shift mods then None
  else Some [b].

(* src/cmdman/cmdman_send-keys.go:275-284 applyCSIOrMetaModifiers *)
Definition modParam (mods : keyModifiers) : Z :=
  1 + (if km_shift mods then 1 else 0) + (if km_meta mods then 2 else 0) + (if km_ctrl mods then 4 else 0).

(* src/cmdman/cmdman_send-keys.go:267-292 applyCSIOrMetaModifiers *)
Definition applyCSIOrMetaModifiers (s : list Z) (mods : keyModifiers) : option (list Z) :=
  if km_meta mods && negb (km_ctrl mods) && negb (km_shift mods) then Some (ESC :: s)
  else
    match s with
    | e :: l :: rest =>
      if decide (e = ESC /\ l = 91%Z) then
        suffix ← last rest;
        let body := removelast rest in
        let body := if decide (body = []) then bytes_of "1" else body in
        Some ([ESC; 91%Z] ++ body ++ bytes_of (";" +:+ Itoa (modParam mods)) ++ [suffix])
      else None
    | _ => None
    end.

Section Keys.
Context (ToLower : list Z -> list Z) (IsLower : Z -> bool) (ToUpper : Z -> Z).

(* src/cmdman/cmdman_send-keys.go:166-188 parseSpecialKey *)
Definition parseSpecialKey (name : list Z) (mods : keyModifiers) : option (list Z) :=
  let lower := ToLower name in
  let '(lower, mods) := if km_shift mods && bool_decide (lower = bytes_of "tab") then (bytes_of "btab", unshifted mods) else (lower, mods) in
  special ← named_key lower;
  let modified := km_ctrl mods || km_shift mods || km_meta mods in
  if modified && negb (allowModifiers special) then None
  else if negb modified then Some (sk_seq special)
  else match sk_seq special with
       | [b] => applySingleByteModifiers b mods
       | s => applyCSIOrMetaModifiers s mods
       end.

(* src/cmdman/cmdman_send-keys.go:190-219 parseRuneKey *)
Definition parseRuneKey (s : list Z) (mods : keyModifiers) : option (list Z) :=
  if negb (one_rune s) then None
  else
    let r := (DecodeRune s).1 in
    let '(r, mods) := if km_shift mods && IsLower r then (ToUpper r, unshifted mods) else (r, mods) in
    if km_ctrl mods then b ← ctrlASCIIByte r; Some (if km_meta mods then [ESC; b] else [b])
    else
      let buf := EncodeRune r in
      if km_meta mods then Some (ESC :: buf)
      else if km_shift mods then
        Some (match buf with [b] => if in_range 97 122 b then [b - 97 + 65]%Z else [b] | _ => buf end)
      else Some buf.

(* src/cmdman/cmdman_send-keys.go:115-140 parseKeyToken *)
Definition parseKeyToken (s : list Z) : option (list Z) :=
  let token s :=
    '(mods, rest) ← parseKeyModifiers s;
    if decide (rest = []) then None
    else match parseSpecialKey rest mods with
         | Some b => Some b
         | None => parseRuneKey rest mods
         end in
  match s with
  | [] => None
  | b :: ((c :: _) as s') =>
    if decide (b = 94%Z) then
      match s', ctrlASCIIByte c with
      | [_], Some r => Some [r]
      | _, _ => token (bytes_of "C-" ++ s')
      end
    else token s
  | _ => token s
  end.

(** [strconv.ParseUint(key, 16, 8)]. *)
Definition hex_digit (b : Z) : option Z :=
  if in_range 48 57 b then Some (b - 48)%Z
  else if in_range 97 102 b then Some (b - 87)%Z
  else if in_range 65 70 b then Some (b - 55)%Z
  else None.

Fixpoint hex_value (acc : Z) (s : list Z) : option Z :=
  match s with
  | [] => Some acc
  | b :: s => d ← hex_digit b; hex_value (16 * acc + d)%Z s
  end.

Definition ParseHexByte (s : list Z) : option Z :=
  match s with
  | [] => None
  | _ => n ← hex_value 0 s; if decide (n < 256)%Z then Some n else None
  end.

Inductive keyErr := InvalidHexByte (key : string).

(* src/cmdman/cmdman_send-keys.go:97-113 encodeOneKey *)
Definition encodeOneKey (key : string) (req : SendKeysRequest) : result keyErr (list Z) :=
  if skr_Hex req then
    match ParseHexByte (bytes_of key) with Some n => Ok [n] | None => Err (InvalidHexByte key) end
  else if skr_Literal req then Ok (bytes_of key)
  else match parseKeyToken (bytes_of key) with
       | Some b => Ok b
       | None => Ok (bytes_of key)
       end.

(* src/cmdman/cmdman_send-keys.go:79-82 EncodeSendKeys *)
Definition repeats (req : SendKeysRequest) : nat :=
  if decide (skr_RepeatCount req <= 0)%Z then 1 else Z.to_nat (skr_RepeatCount req).

(* src/cmdman/cmdman_send-keys.go:86-92 EncodeSendKeys *)
Fixpoint encode_keys (keys : list string) (req : SendKeysRequest) (data : list Z) : result keyErr (list Z) :=
  match keys with
  | [] => Ok data
  | key :: keys => try b := encodeOneKey key req in encode_keys keys req (data ++ b)
  end.

(* src/cmdman/cmdman_send-keys.go:85-93 EncodeSendKeys *)
Fixpoint encode_rounds (n : nat) (req : SendKeysRequest) (data : list Z) : result keyErr (list Z) :=
  match n with
  | 0 => Ok data
  | S n => try data := encode_keys (skr_Keys req) req data in encode_rounds n req data
  end.

(* src/cmdman/cmdman_send-keys.go:77-95 EncodeSendKeys *)
Definition EncodeSendKeys (req : SendKeysRequest) : result keyErr (list Z) := encode_rounds (repeats req) req [].

Inductive sendKeysErr := BadKeys (e : keyErr) | SendKeysConnect | SendKeysWrite.

(** What is written to the command's terminal: one call, unless there is nothing. *)
(* src/cmdman/cmdman_send-keys.go:294-315 Service.SendKeys *)
Definition SendKeys {E} (connect : result E unit) (write : list Z -> result E unit) (req : SendKeysRequest)
  : result keyErr (option (list Z * result E unit)) :=
  try data := EncodeSendKeys req in
  match data with
  | [] => Ok None
  | _ => Ok (Some (data, match connect with Ok _ => write data | Err e => Err e end))
  end.
End Keys.

(** * What sending keys guarantees

     *)

(** ** Runes *)

Definition is_byte (b : Z) : Prop := (0 <= b < 256)%Z.

Lemma in_range_true lo hi b : in_range lo hi b = true <-> (lo <= b <= hi)%Z.
Proof. unfold in_range. by rewrite bool_decide_eq_true. Qed.

Lemma low6_mod b : low6 b = (b mod 64)%Z.
Proof. unfold low6. change 0x3F%Z with (Z.ones 6). by rewrite Z.land_ones by lia. Qed.

Lemma land_mask b n : (0 <= n)%Z -> Z.land b (Z.ones n) = (b mod 2 ^ n)%Z.
Proof. intros. by rewrite Z.land_ones. Qed.

(** A lead or a continuation byte: the tag and the bits do not overlap. *)
Lemma lor_tag n a x : (0 <= n)%Z -> (0 <= x < 2 ^ n)%Z -> Z.lor (a * 2 ^ n) x = (a * 2 ^ n + x)%Z.
Proof.
  intros Hn Hx. assert (Hl : Z.land (a * 2 ^ n) x = 0%Z).
  { apply Z.bits_inj'. intros i Hi. rewrite Z.land_spec, Z.bits_0. destruct (Z.lt_ge_cases i n).
    - by rewrite Z.mul_pow2_bits_low.
    - rewrite <- (Z.mod_small x (2 ^ n)) by done. rewrite Z.mod_pow2_bits_high by lia. apply andb_false_r. }
  by rewrite <- Z.lxor_lor, <- Z.add_nocarry_lxor.
Qed.

Lemma cont_byte x : Z.lor 0x80 (low6 x) = (0x80 + x mod 64)%Z.
Proof. rewrite low6_mod. apply (lor_tag 6 2); [lia|]. pose proof (Z.mod_pos_bound x 64). lia. Qed.

Lemma lead2 x : (0 <= x < 32)%Z -> Z.lor 0xC0 x = (0xC0 + x)%Z.
Proof. apply (lor_tag 5 6). lia. Qed.

Lemma lead3 x : (0 <= x < 16)%Z -> Z.lor 0xE0 x = (0xE0 + x)%Z.
Proof. apply (lor_tag 4 14). lia. Qed.

Lemma lead4 x : (0 <= x < 8)%Z -> Z.lor 0xF0 x = (0xF0 + x)%Z.
Proof. apply (lor_tag 3 30). lia. Qed.

Lemma range_is lo hi b : (lo <= b <= hi)%Z -> in_range lo hi b = true.
Proof. apply in_range_true. Qed.

Lemma range_not lo hi b : ~ (lo <= b <= hi)%Z -> in_range lo hi b = false.
Proof. intros H. destruct (in_range lo hi b) eqn:E; [by apply in_range_true in E|done]. Qed.

(** [string(r)] of a decoded rune is what it was decoded from. *)
Lemma EncodeRune_ascii r : (0 <= r < 128)%Z -> EncodeRune r = [r].
Proof. intros. unfold EncodeRune. by rewrite range_is by lia. Qed.

Lemma EncodeRune_2 x y : (2 <= x < 32)%Z -> (0 <= y < 64)%Z -> EncodeRune (x * 64 + y) = [0xC0 + x; 0x80 + y]%Z.
Proof.
  intros Hx Hy. unfold EncodeRune. rewrite range_not, range_is by lia. rewrite cont_byte, Z.shiftr_0_r, Z.shiftr_div_pow2 by lia.
  change (2 ^ 6)%Z with 64%Z. replace ((x * 64 + y) / 64)%Z with x by (Z.div_mod_to_equations; lia).
  rewrite lead2 by lia. by replace ((x * 64 + y) mod 64)%Z with y by (Z.div_mod_to_equations; lia).
Qed.

Lemma EncodeRune_3 x y z : (0 <= x < 16)%Z -> (0 <= y < 64)%Z -> (0 <= z < 64)%Z ->
  (x = 0 -> 32 <= y)%Z -> (x = 13 -> y < 32)%Z ->
  EncodeRune (x * 4096 + y * 64 + z) = [0xE0 + x; 0x80 + y; 0x80 + z]%Z.
Proof.
  intros Hx Hy Hz H0 H13. unfold EncodeRune. rewrite !range_not, (range_is 0 0x10FFFF), (range_is 0x800) by lia. simpl orb. cbv iota.
  rewrite !cont_byte, Z.shiftr_0_r, !Z.shiftr_div_pow2 by lia. change (2 ^ 12)%Z with 4096%Z. change (2 ^ 6)%Z with 64%Z.
  replace ((x * 4096 + y * 64 + z) / 4096)%Z with x by (Z.div_mod_to_equations; lia). rewrite lead3 by lia.
  replace ((x * 4096 + y * 64 + z) / 64)%Z with (x * 64 + y)%Z by (Z.div_mod_to_equations; lia).
  replace ((x * 64 + y) mod 64)%Z with y by (Z.div_mod_to_equations; lia).
  by replace ((x * 4096 + y * 64 + z) mod 64)%Z with z by (Z.div_mod_to_equations; lia).
Qed.

Lemma EncodeRune_4 w x y z : (0 <= w < 5)%Z -> (0 <= x < 64)%Z -> (0 <= y < 64)%Z -> (0 <= z < 64)%Z ->
  (w = 0 -> 16 <= x)%Z -> (w = 4 -> x < 16)%Z ->
  EncodeRune (w * 262144 + x * 4096 + y * 64 + z) = [0xF0 + w; 0x80 + x; 0x80 + y; 0x80 + z]%Z.
Proof.
  intros Hw Hx Hy Hz H0 H4. unfold EncodeRune. set (r := (w * 262144 + x * 4096 + y * 64 + z)%Z).
  rewrite (range_not 0 0x7F r), (range_not 0x80 0x7FF r), (range_not 0xD800 0xDFFF r), (range_not 0x800 0xFFFF r), (range_is 0 0x10FFFF)
    by (subst r; lia). simpl orb. cbv iota.
  rewrite !cont_byte, Z.shiftr_0_r, !Z.shiftr_div_pow2 by lia. change (2 ^ 18)%Z with 262144%Z. change (2 ^ 12)%Z with 4096%Z. change (2 ^ 6)%Z with 64%Z.
  replace (r / 262144)%Z with w by (subst r; Z.div_mod_to_equations; lia). rewrite lead4 by lia.
  replace (r / 4096)%Z with (w * 64 + x)%Z by (subst r; Z.div_mod_to_equations; lia).
  replace (r / 64)%Z with (w * 4096 + x * 64 + y)%Z by (subst r; Z.div_mod_to_equations; lia).
  replace ((w * 64 + x) mod 64)%Z with x by (Z.div_mod_to_equations; lia).
  replace ((w * 4096 + x * 64 + y) mod 64)%Z with y by (Z.div_mod_to_equations; lia).
  by replace (r mod 64)%Z with z by (subst r; Z.div_mod_to_equations; lia).
Qed.

Lemma utf8_lead_spec b n lo hi : utf8_lead b = Some (n, lo, hi) ->
  (0x80 <= lo /\ hi <= 0xBF)%Z /\
  ((n = 2%nat /\ 0xC2 <= b <= 0xDF)%Z \/
   (n = 3%nat /\ 0xE0 <= b <= 0xEF /\ (b = 0xE0 -> lo = 0xA0) /\ (b = 0xED -> hi = 0x9F))%Z \/
   (n = 4%nat /\ 0xF0 <= b <= 0xF4 /\ (b = 0xF0 -> lo = 0x90) /\ (b = 0xF4 -> hi = 0x8F))%Z).
Proof.
  unfold utf8_lead, in_range.
  repeat (case_bool_decide || case_decide); intros [= <- <- <-]; (split; [lia|]); lia.
Qed.

(** A text of one rune, other than a single byte that is no UTF-8. *)
Lemma rune_roundtrip s : Forall is_byte s -> one_rune s = true ->
  EncodeRune (DecodeRune s).1 = s \/ (exists b, s = [b] /\ 0x80 <= b /\ EncodeRune (DecodeRune s).1 = [0xEF; 0xBF; 0xBD])%Z.
Proof.
  intros Hb H1. unfold one_rune in H1. apply andb_true_iff in H1 as [Hne Hlen].
  apply bool_decide_eq_true in Hne, Hlen. destruct s as [|b0 rest]; [done|]. apply Forall_cons in Hb as [Hb0 Hb].
  revert Hlen. unfold DecodeRune. case_decide as H80.
  { intros Hl. destruct rest; [|done]. left. apply EncodeRune_ascii. unfold is_byte in Hb0. lia. }
  assert (Hbad : (RuneError, 1).2 = length (b0 :: rest) ->
    EncodeRune (RuneError, 1).1 = b0 :: rest \/ (exists b, b0 :: rest = [b] /\ 0x80 <= b /\ EncodeRune (RuneError, 1).1 = [0xEF; 0xBF; 0xBD])%Z).
  { intros Hl. destruct rest; [|done]. right. exists b0. split_and!; [done|lia|reflexivity]. }
  destruct (utf8_lead b0) as [[[n lo] hi]|] eqn:Hlead; [|exact Hbad].
  apply utf8_lead_spec in Hlead as [[Hlo Hhi] [[-> Hr]|[(-> & Hr & He1 & He2)|(-> & Hr & He1 & He2)]]].
  - destruct rest as [|b1 rest]; [exact Hbad|]. destruct (in_range lo hi b1) eqn:E1; [|exact Hbad]. apply in_range_true in E1.
    intros Hl. destruct rest; [|done]. left. simpl. change 31%Z with (Z.ones 5). rewrite land_mask, Z.shiftl_mul_pow2, low6_mod by lia.
    change (2 ^ 5)%Z with 32%Z. change (2 ^ 6)%Z with 64%Z. rewrite EncodeRune_2 by (Z.div_mod_to_equations; lia).
    f_equal; [|f_equal]; Z.div_mod_to_equations; lia.
  - destruct rest as [|b1 [|b2 rest]]; [exact Hbad..|]. destruct (in_range lo hi b1 && in_range 128 191 b2) eqn:E1; [|exact Hbad].
    apply andb_true_iff in E1 as [E1%in_range_true E2%in_range_true].
    intros Hl. destruct rest; [|done]. left. simpl. change 15%Z with (Z.ones 4). rewrite land_mask, !Z.shiftl_mul_pow2, !low6_mod by lia.
    change (2 ^ 4)%Z with 16%Z. change (2 ^ 6)%Z with 64%Z. change (2 ^ 12)%Z with 4096%Z. rewrite EncodeRune_3 by (Z.div_mod_to_equations; lia).
    f_equal; [|f_equal; [|f_equal]]; Z.div_mod_to_equations; lia.
  - destruct rest as [|b1 [|b2 [|b3 rest]]]; [exact Hbad..|].
    destruct (in_range lo hi b1 && in_range 128 191 b2 && in_range 128 191 b3) eqn:E1; [|exact Hbad].
    apply andb_true_iff in E1 as [[E1%in_range_true E2%in_range_true]%andb_true_iff E3%in_range_true].
    intros Hl. destruct rest; [|done]. left. simpl. change 7%Z with (Z.ones 3). rewrite land_mask, !Z.shiftl_mul_pow2, !low6_mod by lia.
    change (2 ^ 3)%Z with 8%Z. change (2 ^ 6)%Z with 64%Z. change (2 ^ 12)%Z with 4096%Z. change (2 ^ 18)%Z with 262144%Z.
    rewrite EncodeRune_4 by (Z.div_mod_to_equations; lia).
    f_equal; [|f_equal; [|f_equal; [|f_equal]]]; Z.div_mod_to_equations; lia.
Qed.

(** ** Tokens *)

(** The table's names and what a key sends with modifiers, as xterm reports them: the
    inverse of what the code writes. *)
Definition modifiers_of (p : Z) : keyModifiers :=
  {| km_ctrl := Z.testbit (p - 1) 2; km_meta := Z.testbit (p - 1) 1; km_shift := Z.testbit (p - 1) 0 |}.

Definition all_modifiers : list keyModifiers := modifiers_of <$> [1; 2; 3; 4; 5; 6; 7; 8]%Z.

(** Splits ["\x1b[" body ";" p final]. *)
Definition split_csi (s : list Z) : option (list Z * Z * Z) :=
  match s with
  | 27%Z :: 91%Z :: rest =>
    match rev rest with
    | final :: p :: 59%Z :: body => Some (rev body, (p - 48)%Z, final)
    | _ => None
    end
  | _ => None
  end.

(** The sequence of the plain key and the modifiers that a report stands for. *)
Definition read_key (s : list Z) : option (list Z * keyModifiers) :=
  match split_csi s with
  | Some (body, p, final) => Some ([27; 91]%Z ++ (if decide (body = bytes_of "1") then [] else body) ++ [final], modifiers_of p)
  | None =>
    match s with
    | 27%Z :: (27%Z :: rest) as s' => Some (27%Z :: rest, modifiers_of 3)
    | _ => Some (s, modifiers_of 1)
    end
  end.

Definition is_csi (s : list Z) : bool := match s with 27%Z :: 91%Z :: _ :: _ => true | _ => false end.

Definition checks_out (p : string * specialKey) (mods : keyModifiers) : bool :=
  match parseSpecialKey (fun s => s) (bytes_of p.1) mods with
  | Some out => bool_decide (option_map (fun r => (r.1, km_ctrl r.2, km_meta r.2, km_shift r.2)) (read_key out) =
                             Some (sk_seq p.2, km_ctrl mods, km_meta mods, km_shift mods))
  | None => false
  end.

Lemma all_check_out : forallb (fun p => forallb (checks_out p) all_modifiers)
  (filter (fun p => allowModifiers p.2 = true /\ is_csi (sk_seq p.2) = true) sendKeysNamedKeys) = true.
Proof. vm_compute. reflexivity. Qed.

Lemma all_modifiers_all mods : mods ∈ all_modifiers.
Proof.
  unfold all_modifiers. rewrite list_elem_of_fmap.
  exists (1 + (if km_shift mods then 1 else 0) + (if km_meta mods then 2 else 0) + (if km_ctrl mods then 4 else 0))%Z.
  split; [by destruct mods as [[] [] []]|]. destruct mods as [[] [] []]; simpl; set_solver.
Qed.

Section Tokens.
Context (ToLower : list Z -> list Z) (IsLower : Z -> bool) (ToUpper : Z -> Z).

(** Names of the table are lower-case already. *)
Definition keeps_names : Prop := Forall (fun p => ToLower (bytes_of p.1) = bytes_of p.1) sendKeysNamedKeys.

(** A cursor or editing key reaches the program with its modifiers: whatever
    modifiers stand in front of it, the name is understood, and the bytes that are sent
    tell the key and exactly these modifiers. *)
Theorem modified_keys_read name key mods :
  keeps_names -> (name, key) ∈ sendKeysNamedKeys -> allowModifiers key = true -> is_csi (sk_seq key) = true ->
  exists out, parseSpecialKey ToLower (bytes_of name) mods = Some out /\ read_key out = Some (sk_seq key, mods).
Proof.
  intros Hk Hin Ha Hc. pose proof all_check_out as Hall. rewrite forallb_forall in Hall.
  specialize (Hall (name, key)). rewrite <- list_elem_of_In, list_elem_of_filter in Hall. specialize (Hall (conj (conj Ha Hc) Hin)).
  rewrite forallb_forall in Hall. specialize (Hall mods). rewrite <- list_elem_of_In in Hall. specialize (Hall (all_modifiers_all mods)).
  unfold checks_out in Hall. replace (parseSpecialKey ToLower (bytes_of name) mods) with (parseSpecialKey (fun s => s) (bytes_of name) mods).
  - destruct (parseSpecialKey _ _ _) as [out|]; [|done]. exists out. split; [done|]. apply bool_decide_eq_true in Hall. simpl in Hall.
    destruct (read_key out) as [[s [c m sh]]|]; [|done]. destruct mods. simpl in Hall. congruence.
  - unfold keeps_names in Hk. rewrite Forall_forall in Hk. unfold parseSpecialKey. specialize (Hk _ Hin). simpl in Hk. by rewrite Hk.
Qed.

(** Text that names no key and begins with no modifier is sent as it is. *)
Lemma plain_text_verbatim key req : skr_Hex req = false ->
  let s := bytes_of key in
  Forall is_byte s -> head s <> Some 94%Z -> s !! 1 <> Some dash -> named_key (ToLower s) = None ->
  (forall b, s = [b] -> b < 0x80)%Z ->
  encodeOneKey ToLower IsLower ToUpper key req = Ok s.
Proof.
  intros Hhex s Hb H94 Hdash Hn Hbad. unfold encodeOneKey. rewrite Hhex. fold s. destruct (skr_Literal req); [done|].
  assert (Hmods : parseKeyModifiers s = Some (no_modifiers, s)).
  { unfold parseKeyModifiers. destruct s as [|b [|c rest]]; [done..|]. simpl. rewrite decide_False; [done|]. simpl in Hdash. congruence. }
  assert (Hspecial : parseSpecialKey ToLower s no_modifiers = None) by (unfold parseSpecialKey; simpl; by rewrite Hn).
  assert (Hrune : default s (parseRuneKey IsLower ToUpper s no_modifiers) = s).
  { unfold parseRuneKey. destruct (one_rune s) eqn:H1; [|done]. simpl.
    destruct (rune_roundtrip s Hb H1) as [->|(b & Hs & H80 & _)]; [done|]. specialize (Hbad b Hs). lia. }
  destruct s as [|b [|c rest]]; [done| |]; unfold parseKeyToken; rewrite ?decide_False by (simpl in H94; congruence);
    rewrite Hmods; simpl; rewrite Hspecial;
    (destruct (parseRuneKey _ _ _ _); simpl in Hrune; by rewrite ?Hrune).
Qed.

(** An encoding fails only on a bad hex byte; otherwise it is the keys', repeated. *)
Lemma encode_keys_spec keys req data r : encode_keys ToLower IsLower ToUpper keys req data = r ->
  match r with
  | Ok out => exists bs, Forall2 (fun k b => encodeOneKey ToLower IsLower ToUpper k req = Ok b) keys bs /\ out = data ++ concat bs
  | Err (InvalidHexByte k) => skr_Hex req = true /\ k ∈ keys /\ ParseHexByte (bytes_of k) = None
  end.
Proof.
  revert data r. induction keys as [|k keys IH]; intros data r <-; simpl.
  { exists []. split; [constructor|by rewrite app_nil_r]. }
  destruct (encodeOneKey _ _ _ k req) as [b|[k']] eqn:Hk; simpl.
  - specialize (IH (data ++ b) _ eq_refl). destruct (encode_keys _ _ _ keys req _) as [out|[k']].
    + destruct IH as (bs & Hf & ->). exists (b :: bs). split; [by constructor|]. simpl. by rewrite (assoc_L (++)).
    + destruct IH as (? & ? & ?). split_and!; [done|by right|done].
  - unfold encodeOneKey in Hk. destruct (skr_Hex req); [|destruct (skr_Literal req); [done|by case_match]].
    destruct (ParseHexByte (bytes_of k)) eqn:Hp; [done|]. injection Hk as ->. split_and!; [done|left|done].
Qed.

Lemma encode_rounds_spec n req data r : encode_rounds ToLower IsLower ToUpper n req data = r ->
  match r with
  | Ok out => n = 0 /\ out = data \/
              exists bs, Forall2 (fun k b => encodeOneKey ToLower IsLower ToUpper k req = Ok b) (skr_Keys req) bs /\
                         out = data ++ concat (replicate n (concat bs))
  | Err (InvalidHexByte k) => skr_Hex req = true /\ k ∈ skr_Keys req /\ ParseHexByte (bytes_of k) = None
  end.
Proof.
  revert data r. induction n as [|n IH]; intros data r <-; simpl; [by left|].
  pose proof (encode_keys_spec (skr_Keys req) req data _ eq_refl) as Hk.
  destruct (encode_keys _ _ _ _ _ _) as [out|[k]]; simpl; [|done]. destruct Hk as (bs & Hbs & ->).
  specialize (IH (data ++ concat bs) _ eq_refl). destruct (encode_rounds _ _ _ n req _) as [out|[k]]; [|done]. right. exists bs. split; [done|].
  destruct IH as [[-> ->]|(bs' & Hbs' & ->)]; simpl; [by rewrite app_nil_r|].
  assert (bs' = bs) as ->; [|by rewrite (assoc_L (++))].
  clear -Hbs Hbs'. revert bs' Hbs'. induction Hbs as [|k b ks bs Hb _ IH]; intros bs' Hbs'; inversion Hbs'; subst; [done|].
  f_equal; [congruence|by apply IH].
Qed.

(** The encoding is that of the keys in order, as often as asked, at least once; only a
    hex argument that is no byte makes it fail. *)
Theorem EncodeSendKeys_exact req :
  match EncodeSendKeys ToLower IsLower ToUpper req with
  | Ok data => exists bs, Forall2 (fun k b => encodeOneKey ToLower IsLower ToUpper k req = Ok b) (skr_Keys req) bs /\
                          data = concat (replicate (repeats req) (concat bs))
  | Err (InvalidHexByte k) => skr_Hex req = true /\ k ∈ skr_Keys req /\ ParseHexByte (bytes_of k) = None
  end.
Proof.
  pose proof (encode_rounds_spec (repeats req) req [] _ eq_refl) as H. unfold EncodeSendKeys.
  destruct (encode_rounds _ _ _ _ _ _) as [out|[k]]; [|done]. destruct H as [[Hz _]|H]; [|done].
  unfold repeats in Hz. case_decide; lia.
Qed.
End Tokens.

Definition ascii_lower (s : list Z) : list Z := (fun b => if in_range 65 90 b then b + 32 else b)%Z <$> s.

Lemma modified_keys_read_witness :
  exists out, parseSpecialKey ascii_lower (bytes_of "up") (modifiers_of 6) = Some out /\ read_key out = Some (csi "A", modifiers_of 6).
Proof.
  apply (modified_keys_read ascii_lower "up" (modifiable (csi "A")) (modifiers_of 6)); [|set_solver|reflexivity|reflexivity].
  unfold keeps_names. repeat (apply Forall_cons; split; [vm_compute; reflexivity|]). apply Forall_nil. done.
Defined.
