(* ===== verification/HookData.v ===== *)
(** * What lifecycle hooks run for, and what they leave

    [cmdman/compose/lifecycle_replica.go] and the data of [intermediate.go]: the replica
    an event runs for, the holder that stores a resource value with its release, and the
    labels both are found by.  Every error of the hook runner is a constructor of [err].
    JSON is an argument. *)

From S2P Require Import Reconcile Prelude GoStr LogDriver Model ComposeSpec Naming Lifecycle Graph Targets Service Plan.

(** ** Errors *)

(** What the texts of the errors show. [Opaque] is an error of the cmdman service, of
    the context or of a library. *)
Inductive err :=
| Opaque (msg : string)
| NoStoredConfig (name : string)
| StoredHooks (name : string) (e : hooksLabelErr)
| HolderNoConfig (name : string)
| HolderBadIndex (name value : string)
| HolderBadRelease (name : string) (e : err)
| EncodeRelease (e : err)
| LookupHolder (key : string) (e : err)
| ManyHolders (key command : string) (scaleIndex : Z) (n : nat)
| StoreResource (key holder : string) (e : err)
| RemoveHolder (holder key : string) (e : err)
| LookupExecs (e : err)
| StopExec (name : string) (e : err)
| RemoveExec (name : string) (e : err)
| CreateExec (name : string) (e : err)
| StartExec (name : string) (e : err)
| WaitExec (name : string) (e : err)
| WaitResults (name : string) (n : nat)
| NoExitCode (name : string)
| ExitedWith (name : string) (code : Z)
| ReadResource (key exec : string) (e : err)
| ReleaseResource (key value : string) (e : err)
| HookFailed (hook : string) (ev : LifecycleEvent) (display : string) (e : err)
| NoRelease (holder : string)
| LookupHolders (replica : string) (e : err)
| WithoutHooks (step : string) (e : err)
| NoStopSlot (e : err)
| StopCommand (name id : string) (e : err)
| RemoveCommand (name id : string) (e : err)
| ReplicaKept (e : err)
| ListHolders (e : err)
| ListCommands (e : err)
| ListCompose (e : err)
| ListComposeHooks (e : err)
| ListHookCommands (e : err)
| WaitFailed (e : err)
| BadStopTimeout (d : Duration)
| CannotRemoveReplica (scaleIndex : Z) (command : string)
| BadTargets (e : targetErr)
| BadProject (e : rebuildErr)
| BadGraph (e : graphErr)
| AmbiguousGraph
| ListExisting (e : err)
| PlanError (project workDir : string) (e : planErr)
| CreateCommand (display name : string) (e : err)
| RecreateMissing (display : string)
| RecreateCommand (display : string) (e : err)
| StopForRecreate (display id : string) (e : err)
| RemoveForRecreate (display : string) (e : err)
| CreateAfterRemove (display : string) (e : err)
| StopExcess (display id : string) (e : err)
| RemoveExcess (display id : string) (e : err)
| OrphanLive (name state : string)
| RemoveOrphan (name id : string) (e : err)
| HeldStart (name genName : string) (e : err)
| StartCommand (name genName : string) (e : err)
| UnknownScale (name : string)
| BadScale (name : string) (n : Z)
| LoadError (e : err)
| NoProjectSelected
| BadResourceName (e : nameErr)
| BadResourceIndex (scaleIndex : Z)
| PickReplica (command : string) (count : Z)
| HeldForMany (key command : string) (heldBy : list Z)
| NoResource (key command : string) (scaleIndex : Z)
| Layers (e : graphErr)
| Reason (r : reason)
| Joined (es : list err).

(** [errors.Join]: nil when every error is. *)
Definition errors_Join (es : list err) : option err :=
  match es with [] => None | _ => Some (Joined es) end.

(** ** Labels *)

(* src/cmdman/compose/intermediate.go:26-28 LabelIntermediate *)
Definition LabelIntermediate : string := "cmdman.compose.intermediate".
(* src/cmdman/compose/intermediate.go:29-31 LabelOwner *)
Definition LabelOwner : string := "cmdman.compose.owner".
(* src/cmdman/compose/intermediate.go:32-33 LabelHooksProject *)
Definition LabelHooksProject : string := "cmdman.compose.hooks.project".
(* src/cmdman/compose/intermediate.go:34-35 LabelHooksWorkdir *)
Definition LabelHooksWorkdir : string := "cmdman.compose.hooks.workdir".
(* src/cmdman/compose/intermediate.go:37-38 LabelHook *)
Definition LabelHook : string := "cmdman.compose.hook".
(* src/cmdman/compose/intermediate.go:39-40 LabelHookEvent *)
Definition LabelHookEvent : string := "cmdman.compose.hook-event".
(* src/cmdman/compose/intermediate.go:42-43 LabelResourceKey *)
Definition LabelResourceKey : string := "cmdman.compose.resource.key".
(* src/cmdman/compose/intermediate.go:44-45 LabelResourceValue *)
Definition LabelResourceValue : string := "cmdman.compose.resource.value".
(* src/cmdman/compose/intermediate.go:46-47 LabelResourceCommand *)
Definition LabelResourceCommand : string := "cmdman.compose.resource.command".
(* src/cmdman/compose/intermediate.go:48-49 LabelResourceScaleIndex *)
Definition LabelResourceScaleIndex : string := "cmdman.compose.resource.scale-index".
(* src/cmdman/compose/intermediate.go:50-53 LabelResourceRelease *)
Definition LabelResourceRelease : string := "cmdman.compose.resource.release".
(* src/cmdman/compose/intermediate.go:56-60 IntermediateExec *)
Definition IntermediateExec : string := "exec".
(* src/cmdman/compose/intermediate.go:56-60 IntermediateHolder *)
Definition IntermediateHolder : string := "holder".

(** A Go map literal. *)
Definition labels_of (kvs : list (string * string)) : gmap string string := list_to_map (rev kvs).

(** ** The replica an event runs for *)

(* src/cmdman/compose/lifecycle_replica.go:8-27 hookReplica *)
Record hookReplica := {
  hr_Project : string;
  hr_WorkDir : string;
  hr_Command : string;
  hr_ScaleIndex : Z;
  hr_Scale : Z;
  hr_Name : string;
  hr_Display : string;
  hr_Dir : string;
  hr_Env : list string;
}.

(* src/cmdman/compose/service_create.go:255-270 entryDisplayName *)
Definition entryDisplayName (e : CommandEntry) : string :=
  match ConfigJSON e with
  | None => ""
  | Some cfg =>
    let name := label (Labels cfg) LabelCommand in
    let '(idx, scale) := ScaleOf (Labels cfg) in
    if bool_decide (scale <= 1)%Z || bool_decide (idx <= 0)%Z then name else name +:+ "-" +:+ Itoa idx
  end.

(** What the hooks inherit of the configuration of cmdman. *)
Record CmdmanConfig := {
  DataDir : string;
  RuntimeDir : string;
  ConfigPath : string;
  DefaultWorkingDir : string;
  DefaultEnvironment : list string;
}.

(* src/cmdman/compose/lifecycle_replica.go:29-58 Service.specHookReplica *)
Definition specHookReplica (workdirHash : string -> string) (cfg : CmdmanConfig) (spec : ComposeSpec)
    (nc : Command) (scaleIndex : Z) : hookReplica := {|
  hr_Project := Project spec;
  hr_WorkDir := WorkDir spec;
  hr_Command := Name nc;
  hr_ScaleIndex := scaleIndex;
  hr_Scale := Z.max (Scale nc) 1;
  hr_Name := InstanceName (GeneratedName nc) scaleIndex;
  hr_Display := instanceDisplayName nc scaleIndex;
  hr_Dir := if decide (c_Dir nc = "") then DefaultWorkingDir cfg else c_Dir nc;
  hr_Env := (if ImportHostEnv nc then DefaultEnvironment cfg else []) ++ Env nc ++
            composeContextEnv workdirHash (Project spec) (WorkDir spec) (Name nc) scaleIndex (Scale nc) |}.

(* src/cmdman/compose/lifecycle_replica.go:74-92 storedReplica *)
Definition storedReplica (e : CommandEntry) : result err hookReplica :=
  match ConfigJSON e with
  | None => Err (NoStoredConfig (entry_Name e))
  | Some cfg =>
    let labels := Labels cfg in
    let '(index, scale) := ScaleOf labels in
    Ok {| hr_Project := label labels LabelProject;
          hr_WorkDir := label labels LabelWorkdir;
          hr_Command := label labels LabelCommand;
          hr_ScaleIndex := index;
          hr_Scale := Z.max scale 1;
          hr_Name := entry_Name e;
          hr_Display := entryDisplayName e;
          hr_Dir := cc_Dir cfg;
          hr_Env := cc_Env cfg |}
  end.

Section StoredHooks.
Context (unmarshalHooks : string -> result string (list LifecycleHook)).

(** [storedReplica] succeeded before, so there is a configuration. *)
(* src/cmdman/compose/lifecycle_replica.go:94-102 storedHooks *)
Definition storedHooks (e : CommandEntry) : result err (list LifecycleHook) :=
  let raw := match ConfigJSON e with Some cfg => label (Labels cfg) LabelHooks | None => "" end in
  lift_err (StoredHooks (entry_Name e)) (decodeHooksLabel unmarshalHooks raw).

(* src/cmdman/compose/lifecycle_replica.go:60-72 storedHookReplica *)
Definition storedHookReplica (e : CommandEntry) : result err (hookReplica * list LifecycleHook) :=
  try r := storedReplica e in
  try hooks := storedHooks e in
  Ok (r, hooks).
End StoredHooks.

(* src/cmdman/compose/intermediate.go:61-72 execLabels *)
Definition execLabels (r : hookReplica) (hook : string) (ev : LifecycleEvent) : gmap string string :=
  labels_of [(LabelIntermediate, IntermediateExec); (LabelOwner, hr_Name r); (LabelHooksProject, hr_Project r);
             (LabelHooksWorkdir, hr_WorkDir r); (LabelHook, hook); (LabelHookEvent, ev)].

(** ** Resources *)

(* src/cmdman/compose/intermediate.go:74-82 resourceRef *)
Record resourceRef := {
  rref_Project : string;
  rref_WorkDir : string;
  rref_Command : string;
  rref_ScaleIndex : Z;
  rref_Key : string;
}.

(* src/cmdman/compose/intermediate.go:84-94 resourceRef.selector *)
Definition selector (r : resourceRef) : gmap string string :=
  labels_of [(LabelIntermediate, IntermediateHolder); (LabelHooksProject, rref_Project r);
             (LabelHooksWorkdir, rref_WorkDir r); (LabelResourceCommand, rref_Command r);
             (LabelResourceScaleIndex, Itoa (rref_ScaleIndex r)); (LabelResourceKey, rref_Key r)].

(* src/cmdman/compose/intermediate.go:96-100 resourceRef.replicaName *)
Definition replicaName (workdirHash : string -> string) (r : resourceRef) : string :=
  InstanceName (GenerateName (workdirHash (rref_WorkDir r)) (rref_Project r) (rref_Command r)) (rref_ScaleIndex r).

(* src/cmdman/compose/intermediate.go:102-107 resourceRelease *)
Record resourceRelease := {
  rel_Event : LifecycleEvent;
  rel_Args : list string;
  rel_OnError : OnError;
}.

(* src/cmdman/compose/intermediate.go:109-119 resourceHolder *)
Record resourceHolder := {
  h_Ref : resourceRef;
  h_Owner : string;
  h_Value : string;
  h_Release : option resourceRelease;
  h_Dir : string;
  h_Env : list string;
}.

(* src/cmdman/compose/intermediate.go:121-123 resourceHolder.name *)
Definition holder_name (h : resourceHolder) : string := HolderName (h_Owner h) (rref_Key (h_Ref h)).

(* src/cmdman/compose/intermediate.go:125-133 resourceHolder.envValue *)
Definition envValue (env : list string) (key : string) : option string :=
  head (omap (fun kv => let '(k, v, ok) := cut "=" kv in if ok && bool_decide (k = key) then Some v else None) (rev env)).

(* src/cmdman/compose/lifecycle.go:246-248 ENV_CMDMAN_COMPOSE_HOOK_NAME *)
Definition ENV_CMDMAN_COMPOSE_HOOK_NAME : string := "CMDMAN_COMPOSE_HOOK_NAME".
(* src/cmdman/compose/lifecycle.go:250-252 ENV_CMDMAN_COMPOSE_HOOK_EVENT *)
Definition ENV_CMDMAN_COMPOSE_HOOK_EVENT : string := "CMDMAN_COMPOSE_HOOK_EVENT".
(* src/cmdman/compose/lifecycle.go:254-256 ENV_CMDMAN_COMPOSE_RESOURCE_KEY *)
Definition ENV_CMDMAN_COMPOSE_RESOURCE_KEY : string := "CMDMAN_COMPOSE_RESOURCE_KEY".
(* src/cmdman/compose/lifecycle.go:258-261 ENV_CMDMAN_COMPOSE_RESOURCE_VALUE *)
Definition ENV_CMDMAN_COMPOSE_RESOURCE_VALUE : string := "CMDMAN_COMPOSE_RESOURCE_VALUE".

(** One entry of an environment. *)
Definition env_entry (k v : string) : string := k +:+ "=" +:+ v.

(* src/cmdman/compose/intermediate.go:136-143 resourceHolder.hookName *)
Definition hookName (h : resourceHolder) : string :=
  match envValue (h_Env h) ENV_CMDMAN_COMPOSE_HOOK_NAME with
  | Some name => if decide (name = "") then rref_Key (h_Ref h) else name
  | None => rref_Key (h_Ref h)
  end.

(* src/cmdman/compose/intermediate.go:145-157 resourceHolder.releasedAtStop *)
Definition releasedAtStop (h : resourceHolder) : bool :=
  match h_Release h with
  | None => false
  | Some rel => bool_decide (rel_Event rel = LifecycleStopPre) || bool_decide (rel_Event rel = LifecycleStopPost)
  end.

(* src/cmdman/compose/intermediate.go:159-183 resourceHolder.replica *)
Definition holder_replica (h : resourceHolder) : hookReplica :=
  let scale :=
    match envValue (h_Env h) "CMDMAN_COMPOSE_SCALE" ≫= Atoi with
    | Some n => if decide (1 < n)%Z then n else 1%Z
    | None => 1%Z
    end in
  {| hr_Project := rref_Project (h_Ref h);
     hr_WorkDir := rref_WorkDir (h_Ref h);
     hr_Command := rref_Command (h_Ref h);
     hr_ScaleIndex := rref_ScaleIndex (h_Ref h);
     hr_Scale := scale;
     hr_Name := h_Owner h;
     hr_Display := if decide (1 < scale)%Z then rref_Command (h_Ref h) +:+ "-" +:+ Itoa (rref_ScaleIndex (h_Ref h))
                   else rref_Command (h_Ref h);
     hr_Dir := h_Dir h;
     hr_Env := h_Env h |}.

(* src/cmdman/compose/lifecycle_replica.go:104-112 hookReplica.resourceRef *)
Definition ref_of (r : hookReplica) (key : string) : resourceRef := {|
  rref_Project := hr_Project r; rref_WorkDir := hr_WorkDir r; rref_Command := hr_Command r;
  rref_ScaleIndex := hr_ScaleIndex r; rref_Key := key |}.

(** ** The holder as a stored command *)

Section Codec.
Context (marshalRelease : resourceRelease -> result err string)
        (unmarshalRelease : string -> result err resourceRelease).

(* src/cmdman/compose/intermediate.go:185-197 resourceHolder.labels *)
Definition holder_labels (h : resourceHolder) : result err (gmap string string) :=
  let labels := <[LabelResourceValue := h_Value h]> (<[LabelOwner := h_Owner h]> (selector (h_Ref h))) in
  match h_Release h with
  | None => Ok labels
  | Some rel => try release := lift_err EncodeRelease (marshalRelease rel) in
                Ok (<[LabelResourceRelease := release]> labels)
  end.

(* src/cmdman/compose/intermediate.go:199-222 resourceHolder.createRequest *)
Definition holder_createRequest (h : resourceHolder) : result err CreateRequest :=
  try labels := holder_labels h in
  Ok {| cr_Name := holder_name h; cr_Dir := h_Dir h; cr_Env := h_Env h;
        cr_ImportHostEnv := Some false; cr_InjectEnv := Some false; cr_AppendEnv := [];
        cr_Labels := labels; cr_RestartPolicy := RestartPolicyNo; cr_MaxRetries := 0;
        cr_StopSignal := ""; cr_StopTimeout := 0%Z; cr_StopCommand := []; cr_AutoRemove := false;
        cr_Tty := false; cr_ScrollbackBytes := 0; cr_LogDriver := DriverNone; cr_LogOpts := ∅;
        cr_Hooks := ∅; cr_Argv := ["true"]; cr_Replace := true |}.

(* src/cmdman/compose/intermediate.go:224-257 decodeHolder *)
Definition decodeHolder (e : CommandEntry) : result err resourceHolder :=
  match ConfigJSON e with
  | None => Err (HolderNoConfig (entry_Name e))
  | Some cfg =>
    let labels := Labels cfg in
    match Atoi (label labels LabelResourceScaleIndex) with
    | None => Err (HolderBadIndex (entry_Name e) (label labels LabelResourceScaleIndex))
    | Some index =>
      let raw := label labels LabelResourceRelease in
      try release := if decide (raw = "") then Ok None
                     else lift_err (HolderBadRelease (entry_Name e)) (try r := unmarshalRelease raw in Ok (Some r)) in
      Ok {| h_Ref := {| rref_Project := label labels LabelHooksProject;
                        rref_WorkDir := label labels LabelHooksWorkdir;
                        rref_Command := label labels LabelResourceCommand;
                        rref_ScaleIndex := index;
                        rref_Key := label labels LabelResourceKey |};
            h_Owner := label labels LabelOwner;
            h_Value := label labels LabelResourceValue;
            h_Release := release;
            h_Dir := cc_Dir cfg;
            h_Env := cc_Env cfg |}
    end
  end.
End Codec.

(** ** Holders are found and read back *)

(** A stored command that [List] gives for a set of labels. *)
Definition has_labels (sel : gmap string string) (e : CommandEntry) : Prop :=
  exists cfg, ConfigJSON e = Some cfg /\ sel ⊆ Labels cfg.

(** The command that the service keeps of a request that neither imports nor injects
    an environment. *)
Definition stored_for (req : CreateRequest) (e : CommandEntry) : Prop :=
  entry_Name e = cr_Name req /\
  exists cfg, ConfigJSON e = Some cfg /\ Labels cfg = cr_Labels req /\ cc_Dir cfg = cr_Dir req /\ cc_Env cfg = cr_Env req.

(** A set of labels asks for each of them. *)
Lemma labels_of_subseteq kvs (m : gmap string string) :
  NoDup kvs.*1 -> labels_of kvs ⊆ m <-> Forall (fun kv => m !! kv.1 = Some kv.2) kvs.
Proof.
  intros Hnd. unfold labels_of. rewrite map_subseteq_spec, Forall_forall.
  assert (Hnd' : NoDup (rev kvs).*1) by (by rewrite <- Permutation_rev).
  split.
  - intros H [k v] Hin. apply H. apply elem_of_list_to_map_1; [done|]. by rewrite <- Permutation_rev.
  - intros H k v Hl. apply elem_of_list_to_map_2 in Hl. apply (H (k, v)). by rewrite Permutation_rev.
Qed.

Lemma selector_lookup r :
  selector r !! LabelIntermediate = Some IntermediateHolder /\
  selector r !! LabelHooksProject = Some (rref_Project r) /\
  selector r !! LabelHooksWorkdir = Some (rref_WorkDir r) /\
  selector r !! LabelResourceCommand = Some (rref_Command r) /\
  selector r !! LabelResourceScaleIndex = Some (Itoa (rref_ScaleIndex r)) /\
  selector r !! LabelResourceKey = Some (rref_Key r) /\
  selector r !! LabelResourceRelease = None.
Proof. by split_and!. Qed.

(** A holder is found by the reference it records, and by no other. *)
Lemma selector_holder mR h labels r :
  holder_labels mR h = Ok labels -> selector r ⊆ labels <-> r = h_Ref h.
Proof.
  unfold holder_labels, selector. rewrite labels_of_subseteq by (apply (bool_decide_unpack _); vm_compute; exact I).
  intros Hl.
  assert (Hk : forall k, k <> LabelResourceRelease -> k <> LabelResourceValue -> k <> LabelOwner ->
                 labels !! k = selector (h_Ref h) !! k).
  { intros k H1 H2 H3. destruct (h_Release h) as [rel|]; [apply result_bind_ok in Hl as (x & _ & Hl)|];
      injection Hl as <-; by rewrite !lookup_insert_ne by congruence. }
  rewrite !Forall_cons, Forall_nil. cbn [fst snd]. rewrite !Hk by done.
  destruct (selector_lookup (h_Ref h)) as (-> & -> & -> & -> & -> & -> & _).
  destruct r as [p w c i k], (h_Ref h) as [p' w' c' i' k']; cbn. split.
  - intros (_ & [= <-] & [= <-] & [= <-] & [= Hi%Itoa_inj] & [= <-] & _). by subst.
  - by intros [= -> -> -> -> ->].
Qed.

(** What a service stores for a holder decodes to the holder. *)
Lemma decodeHolder_stored mR uR h req e :
  (forall rel s, mR rel = Ok s -> s <> "" /\ uR s = Ok rel) ->
  in_int64 (rref_ScaleIndex (h_Ref h)) ->
  holder_createRequest mR h = Ok req -> stored_for req e -> decodeHolder uR e = Ok h.
Proof.
  intros Hcodec Hi Hreq (_ & cfg & Hcfg & Hl & Hd & He).
  apply result_bind_ok in Hreq as (labels & Hlab & [= <-]). simpl in *.
  unfold decodeHolder, label. rewrite Hcfg, Hl, Hd, He. unfold holder_labels in Hlab.
  destruct (selector_lookup (h_Ref h)) as (_ & Hp & Hw & Hc & Hx & Hk & Hr).
  revert Hlab Hp Hw Hc Hx Hk Hr. generalize (selector (h_Ref h)); intros sel Hlab Hp Hw Hc Hx Hk Hr.
  destruct h as [[p w c i k] o v [rel|] d env]; cbn in *.
  - apply result_bind_ok in Hlab as (s & Hs & [= <-]). apply lift_err_ok in Hs.
    destruct (Hcodec _ _ Hs) as [Hne Hu].
    repeat (first [rewrite lookup_insert_eq | rewrite lookup_insert_ne by done]).
    rewrite Hp, Hw, Hc, Hx, Hk. cbn [from_option id]. rewrite Atoi_Itoa by done. by rewrite decide_False, Hu.
  - injection Hlab as <-.
    repeat (first [rewrite lookup_insert_eq | rewrite lookup_insert_ne by done]).
    rewrite Hp, Hw, Hc, Hx, Hk, Hr. cbn [from_option id]. by rewrite Atoi_Itoa.
Qed.
