(* ===== verification/HookOutput.v ===== *)
(** * Reading back what a hook printed

    [cmdman/compose/lifecycle_output.go]: the records of a log driver are joined into
    lines, stream by stream, and the last line of standard output that is not blank is
    the value of the hook's resource.  Lines are bytes ([list Z]). *)

From S2P Require Import Prelude GoStr LogDriver.

(** ** Trimming *)

(** The UTF-8 encodings of the characters of [unicode.IsSpace]. *)
Definition space_encodings : list (list Z) :=
  ((fun b => [b]) <$> [9; 10; 11; 12; 13; 32])%Z ++
  [[194; 133]; [194; 160]; [225; 154; 128]]%Z ++
  ((fun b => [226; 128; b]) <$> [128; 129; 130; 131; 132; 133; 134; 135; 136; 137; 138; 168; 169; 175])%Z ++
  [[226; 129; 159]; [227; 128; 128]]%Z.

(** What follows [p] in [l], if [l] starts with [p]. *)
Fixpoint after_prefix (p l : list Z) : option (list Z) :=
  match p, l with
  | [], _ => Some l
  | x :: p, y :: l => if decide (x = y) then after_prefix p l else None
  | _ :: _, [] => None
  end.

(** Drops any of the given prefixes, again and again: each takes at least one byte, so
    the length of [l] is enough fuel. *)
Fixpoint strip (ps : list (list Z)) (fuel : nat) (l : list Z) : list Z :=
  match fuel with
  | O => l
  | S fuel => match head (omap (fun p => after_prefix p l) ps) with
              | Some l => strip ps fuel l
              | None => l
              end
  end.

(** [strings.TrimSpace]. *)
Definition TrimSpace (l : list Z) : list Z :=
  let l := strip space_encodings (length l) l in
  rev (strip (@rev Z <$> space_encodings) (length l) (rev l)).

(** [strings.TrimRight(line, "\r\n")]. *)
Fixpoint drop_eol (l : list Z) : list Z :=
  match l with
  | b :: l' => if decide (b = 10 \/ b = 13)%Z then drop_eol l' else l
  | [] => []
  end.
Definition TrimRight_eol (l : list Z) : list Z := rev (drop_eol (rev l)).

(** ** Lines *)

(* src/cmdman/compose/lifecycle_output.go:84-88 lineAssembler *)
Definition lineAssembler : Type := gmap Stream (list Z).

(* src/cmdman/compose/lifecycle_output.go:90-103 lineAssembler.add *)
Definition asm_add (a : lineAssembler) (l : LogLine) : lineAssembler * option (list Z) :=
  if Partial l then (<[stream l := default [] (a !! stream l) ++ Line l]> a, None)
  else (delete (stream l) a, Some (TrimRight_eol (default [] (a !! stream l) ++ Line l))).

(** The records of the lines left, by stream, with the fields the code sets. *)
(* src/cmdman/compose/lifecycle_output.go:105-119 lineAssembler.rest *)
Definition asm_rest (a : lineAssembler) : list LogLine :=
  (fun kv => {| Time := 0; stream := kv.1; Partial := false; Line := kv.2 |})
    <$> filter (fun kv => kv.2 <> []) (sorted_items a).

(* src/cmdman/compose/lifecycle_output.go:73-82 resourceValue *)
Definition resourceValue (stdout : list (list Z)) : list Z :=
  default [] (head (filter (fun v => v <> []) (TrimSpace <$> rev stdout))).

(** The loop over the records of a reader: a record may be an error, which ends it. *)
(* src/cmdman/compose/lifecycle_output.go:52-66 Service.readResourceValue *)
Fixpoint collect_stdout {Er} (a : lineAssembler) (stdout : list (list Z)) (recs : list (result Er LogLine))
  : result Er (lineAssembler * list (list Z)) :=
  match recs with
  | [] => Ok (a, stdout)
  | Err e :: _ => Err e
  | Ok l :: recs =>
    if decide (stream l = StreamStdout) then
      let '(a, line) := asm_add a l in
      collect_stdout a (match line with Some line => stdout ++ [line] | None => stdout end) recs
    else collect_stdout a stdout recs
  end.

(** What is read once the log could be opened. *)
(* src/cmdman/compose/lifecycle_output.go:51-70 Service.readResourceValue *)
Definition value_of_records {Er} (recs : list (result Er LogLine)) : result Er (list Z) :=
  try (a, stdout) := collect_stdout ∅ [] recs in
  Ok (resourceValue (stdout ++ (Line <$> asm_rest a))).

(** ** How a hook's output was split does not matter *)

(** The lines of a text: at each newline, and what is left when it does not end with
    one. *)
Fixpoint text_lines (cur : list Z) (b : list Z) : list (list Z) :=
  match b with
  | [] => match cur with [] => [] | _ => [cur] end
  | x :: b => if decide (x = newline) then TrimRight_eol (cur ++ [x]) :: text_lines [] b
              else text_lines (cur ++ [x]) b
  end.

(** A record as the splitter of [LogDriver] makes it. *)
Definition record_ok (l : LogLine) : Prop :=
  if Partial l then newline ∉ Line l else full_line (Line l).

Lemma text_lines_partial cur p b : newline ∉ p -> text_lines cur (p ++ b) = text_lines (cur ++ p) b.
Proof.
  revert cur; induction p as [|x p IH]; intros cur Hp; simpl; [by rewrite app_nil_r|].
  apply not_elem_of_cons in Hp as [Hx Hp]. rewrite decide_False by done. rewrite IH by done.
  by rewrite <- app_assoc.
Qed.

Lemma text_lines_full cur l b : full_line l -> text_lines cur (l ++ b) = TrimRight_eol (cur ++ l) :: text_lines [] b.
Proof.
  intros (p & -> & Hp). rewrite <- app_assoc, text_lines_partial by done. simpl.
  by rewrite <- app_assoc.
Qed.

(** The bytes a command wrote to its standard output, as the log has them. *)
Definition stdout_bytes (recs : list LogLine) : list Z :=
  concat (Line <$> filter (fun l => stream l = StreamStdout) recs).

(** An assembler that has seen standard output only, with [cur] still open. *)
Definition holds (a : lineAssembler) (cur : list Z) : Prop :=
  (a = ∅ /\ cur = []) \/ a = {[StreamStdout := cur]}.

Lemma holds_pending a cur : holds a cur -> default [] (a !! StreamStdout) = cur.
Proof. by intros [[-> ->]| ->]. Qed.

Lemma holds_rest a cur : holds a cur -> Line <$> asm_rest a = match cur with [] => [] | _ => [cur] end.
Proof.
  intros [[-> ->]| ->]; [done|]. unfold asm_rest.
  change (sorted_items {[StreamStdout := cur]}) with [(StreamStdout, cur)]. by destruct cur.
Qed.

Lemma holds_add a cur l :
  holds a cur -> stream l = StreamStdout ->
  if Partial l then holds (asm_add a l).1 (cur ++ Line l) /\ (asm_add a l).2 = None
  else holds (asm_add a l).1 [] /\ (asm_add a l).2 = Some (TrimRight_eol (cur ++ Line l)).
Proof.
  intros Ha Hs. unfold asm_add. rewrite Hs, (holds_pending _ _ Ha).
  destruct (Partial l); simpl; (split; [|done]); destruct Ha as [[-> ->]| ->].
  - by right.
  - right. apply (insert_singleton_eq (M := gmap string)).
  - left. split; [apply (delete_empty (M := gmap string))|done].
  - left. split; [apply (delete_singleton_eq (M := gmap string))|done].
Qed.

Lemma collect_stdout_lines {Er} a cur out recs :
  holds a cur -> Forall record_ok recs ->
  exists a' cur' out', collect_stdout a out (@Ok Er LogLine <$> recs) = Ok (a', out') /\ holds a' cur' /\
    out' ++ (Line <$> asm_rest a') = out ++ text_lines cur (stdout_bytes recs).
Proof.
  intros Ha Hr. revert a cur out Ha. induction Hr as [|l recs Hl _ IH]; intros a cur out Ha; simpl.
  { exists a, cur, out. by rewrite (holds_rest _ _ Ha). }
  unfold stdout_bytes. rewrite filter_cons. case_decide as Hs; [|by apply IH].
  simpl. pose proof (holds_add a cur l Ha Hs) as Hadd. unfold record_ok in Hl.
  destruct (asm_add a l) as [a1 line]. destruct (Partial l); simpl in Hadd; destruct Hadd as [Ha1 ->].
  - rewrite text_lines_partial by done. by apply IH.
  - simpl. destruct (IH a1 [] (out ++ [TrimRight_eol (cur ++ Line l)]) Ha1) as (a' & cur' & out' & Hc & ? & Ho).
    exists a', cur', out'. split_and!; [exact Hc|done|]. by rewrite Ho, <- app_assoc, text_lines_full.
Qed.

(** What is read back does not depend on how the output was cut into records, nor on
    what else was logged in between. *)
Lemma value_of_records_lines {Er} recs :
  Forall record_ok recs ->
  value_of_records (@Ok Er LogLine <$> recs) = Ok (resourceValue (text_lines [] (stdout_bytes recs))).
Proof.
  intros Hr. unfold value_of_records.
  destruct (collect_stdout_lines (Er := Er) ∅ [] [] recs) as (a & cur & out & -> & _ & Ho); [by left|done|].
  simpl. by rewrite Ho.
Qed.
