(* ===== verification/ComposeSvc.v ===== *)
(** * What compose calls

    The cmdman service as compose sees it ([cmdmanSvc] of [cmdman/compose/service.go]),
    the context, the reporter of [event.go], and the objects that the goroutines of one
    operation share: the release recorder of [release_recorder.go] and the [teardown] of
    [lifecycle_steps.go].  All are calls of a program ([Prog.v]).  The service, the
    context and the stop permits answer freely; what the shared objects answer is what
    earlier calls put into them ([shared]). *)

From S2P Require Import Prelude GoStr LogDriver Model Prog ComposeSpec Naming Lifecycle Plan HookData.

(** ** Requests and answers of the service *)

(* src/cmdman/cmdman_wait.go:23-31 WaitResult *)
Record WaitResult := { w_ID : string; w_ExitCode : option Z; w_Err : option err }.

(* src/cmdman/cmdman_stop.go:34-41 StopResult *)
Record StopResult := { s_ID : string; s_Err : option err; s_ForceKilled : bool }.

(* src/cmdman/cmdman_remove.go:24-27 RemoveResult *)
Record RemoveResult := { rm_ID : string; rm_Err : option err }.

(** ** Progress events *)

(* src/cmdman/compose/event.go:5-14 Phase *)
Definition Phase := string.
(* src/cmdman/compose/event.go:18-18 PhaseCreating *)
Definition PhaseCreating : Phase := "creating".
(* src/cmdman/compose/event.go:19-19 PhaseRecreating *)
Definition PhaseRecreating : Phase := "recreating".
(* src/cmdman/compose/event.go:21-21 PhaseCreated *)
Definition PhaseCreated : Phase := "created".
(* src/cmdman/compose/event.go:22-22 PhaseRecreated *)
Definition PhaseRecreated : Phase := "recreated".
(* src/cmdman/compose/event.go:23-23 PhaseUnchanged *)
Definition PhaseUnchanged : Phase := "unchanged".
(* src/cmdman/compose/event.go:27-27 PhaseWaiting *)
Definition PhaseWaiting : Phase := "waiting".
(* src/cmdman/compose/event.go:30-30 PhaseRunning *)
Definition PhaseRunning : Phase := "running".
(* src/cmdman/compose/event.go:31-31 PhaseExited *)
Definition PhaseExited : Phase := "exited".
(* src/cmdman/compose/event.go:51-51 PhaseFailed *)
Definition PhaseFailed : Phase := "failed".
(* src/cmdman/compose/event.go:26-26 PhaseStarting *)
Definition PhaseStarting : Phase := "starting".
(* src/cmdman/compose/event.go:34-34 PhaseStopping *)
Definition PhaseStopping : Phase := "stopping".
(* src/cmdman/compose/event.go:36-36 PhaseStopped *)
Definition PhaseStopped : Phase := "stopped".
(* src/cmdman/compose/event.go:39-39 PhaseRemoving *)
Definition PhaseRemoving : Phase := "removing".
(* src/cmdman/compose/event.go:41-41 PhaseRemoved *)
Definition PhaseRemoved : Phase := "removed".
(* src/cmdman/compose/event.go:43-50 PhaseSkipped *)
Definition PhaseSkipped : Phase := "skipped".
(* src/cmdman/compose/event.go:43-52 PhaseError *)
Definition PhaseError : Phase := "error".
(* src/cmdman/compose/event.go:54-65 PhaseHookRunning *)
Definition PhaseHookRunning : Phase := "hook-running".
(* src/cmdman/compose/event.go:66-66 PhaseHookSucceeded *)
Definition PhaseHookSucceeded : Phase := "hook-succeeded".
(* src/cmdman/compose/event.go:67-67 PhaseHookFailed *)
Definition PhaseHookFailed : Phase := "hook-failed".
(* src/cmdman/compose/event.go:68-68 PhaseHookWarning *)
Definition PhaseHookWarning : Phase := "hook-warning".
(* src/cmdman/compose/event.go:69-69 PhaseHookIgnored *)
Definition PhaseHookIgnored : Phase := "hook-ignored".
(* src/cmdman/compose/event.go:70-70 PhaseHookOutput *)
Definition PhaseHookOutput : Phase := "hook-output".
(* src/cmdman/compose/event.go:72-79 PhaseUnreleased *)
Definition PhaseUnreleased : Phase := "unreleased".

(* src/cmdman/compose/event.go:99-136 Event *)
Record ProgressEvent := {
  ev_Command : string;
  ev_Phase : Phase;
  ev_Err : option err;
  ev_ExitCode : option Z;
  ev_ForceKilled : bool;
  ev_ScaleIndex : Z;
  ev_Hook : string;
  ev_Lifecycle : LifecycleEvent;
  ev_Exec : string;
  ev_Stream : Stream;
  ev_Line : list Z;
  ev_Resource : string;
  ev_Value : string;
  ev_Retried : bool;
}.

(** An event with every other field at Go's zero value. *)
Definition mkEvent (command : string) (phase : Phase) (e : option err) (exit : option Z) : ProgressEvent := {|
  ev_Command := command; ev_Phase := phase; ev_Err := e; ev_ExitCode := exit; ev_ForceKilled := false;
  ev_ScaleIndex := 0; ev_Hook := ""; ev_Lifecycle := ""; ev_Exec := ""; ev_Stream := ""; ev_Line := [];
  ev_Resource := ""; ev_Value := ""; ev_Retried := false |}.

(** ** Failed releases *)

(* src/cmdman/compose/release_recorder.go:10-32 failedRelease *)
Record failedRelease := {
  fr_holder : resourceHolder;
  fr_display : string;
  fr_err : err;
  fr_onError : OnError;
  fr_retried : bool;
  fr_reportOnly : bool;
}.

(* src/cmdman/compose/release_recorder.go:34-37 failedRelease.fails *)
Definition fails (f : failedRelease) : bool := bool_decide (fr_onError f = OnErrorFail).

(** The recorders of a down: the one of its context, and one for each retry, known by
    the index of the release it retries. *)
Inductive recorder := DownRecorder | RetryRecorder (i : nat).

#[export] Instance recorder_eq_dec : EqDecision recorder.
Proof. solve_decision. Defined.

(* src/cmdman/compose/release_recorder.go:96-100 sortFailures *)
Definition sortFailures (l : list failedRelease) : list failedRelease :=
  stable_sort (fun f => holder_name (fr_holder f)) l.

(** ** The calls *)

(* src/cmdman/compose/service.go:16-47 cmdmanSvc *)
Inductive svcE : Type -> Type :=
(* the cmdman service *)
| SvcList (labels : gmap string string) : svcE (result err (list CommandEntry))
| SvcCreate (req : CreateRequest) : svcE (result err string)
| SvcStart (idOrName : string) : svcE (option err)
| SvcWait (targets : list string) : svcE (result err (list WaitResult))
| SvcStop (targets : list string) (timeout : option Duration) : svcE (result err (list StopResult))
| SvcRemove (targets : list string) (force : bool) : svcE (result err (list RemoveResult))
| SvcLogs (id : string) (follow : bool) : svcE (result err (list (result err LogLine)))
| SvcRecordHistory (workDir project file : string) : svcE (option err)
(* [ctx.Err()], the reporter, and the order in which goroutines end *)
| CtxErr : svcE (option err)
| Report (ev : ProgressEvent) : svcE unit
| EndOrder (n : nat) : svcE (list nat)
(* a release recorder *)
| RecordFailure (rec : recorder) (f : failedRelease) : svcE unit
| TakeFailures (rec : recorder) : svcE (list failedRelease)
| ReadFailures (rec : recorder) : svcE (list failedRelease)
(* the teardown *)
| AcquireStop : svcE (option err)
| ReleaseStop : svcE unit
| MarkStopped (name : string) : svcE unit
| MarkRemoved (name : string) : svcE unit
| MarkKept (id : string) (e : option err) : svcE unit
| KeptBy (id : string) : svcE (option err)
| RemovedUnstopped (name : string) : svcE bool.

(** A program of compose. *)
Notation cprog := (prog svcE).
Notation cact := (act svcE).

(** ** The shared objects *)

(* src/cmdman/compose/lifecycle_steps.go:311-332 teardown *)
Record shared := {
  sh_failed : recorder -> list failedRelease;
  sh_kept : gmap string (option err);
  sh_stopped : gset string;
  sh_removed : gset string;
}.

Definition shared0 : shared :=
  {| sh_failed := fun _ => []; sh_kept := ∅; sh_stopped := ∅; sh_removed := ∅ |}.

Definition set_failed (s : shared) (rec : recorder) (l : list failedRelease) : shared :=
  {| sh_failed := fun r => if decide (r = rec) then l else sh_failed s r;
     sh_kept := sh_kept s; sh_stopped := sh_stopped s; sh_removed := sh_removed s |}.

(** What a call does to them.  Every call holds their mutex throughout. *)
(* src/cmdman/compose/release_recorder.go:60-94 releaseRecorder.record *)
Definition sh_next (s : shared) (a : cact) : shared :=
  match a with
  | Act (RecordFailure rec f) _ => set_failed s rec (sh_failed s rec ++ [f])
  | Act (TakeFailures rec) _ => set_failed s rec []
  | Act (MarkStopped name) _ =>
    {| sh_failed := sh_failed s; sh_kept := sh_kept s; sh_stopped := {[name]} ∪ sh_stopped s; sh_removed := sh_removed s |}
  | Act (MarkRemoved name) _ =>
    {| sh_failed := sh_failed s; sh_kept := sh_kept s; sh_stopped := sh_stopped s; sh_removed := {[name]} ∪ sh_removed s |}
  | Act (MarkKept id e) _ =>
    {| sh_failed := sh_failed s; sh_kept := <[id := e]> (sh_kept s); sh_stopped := sh_stopped s; sh_removed := sh_removed s |}
  | _ => s
  end.

(** What they answer. *)
(* src/cmdman/compose/lifecycle_steps.go:348-387 teardown.keptBy *)
Definition sh_answers (s : shared) (a : cact) : Prop :=
  match a with
  | Act (TakeFailures rec) x => x = sortFailures (sh_failed s rec)
  | Act (ReadFailures rec) x => x = sortFailures (sh_failed s rec)
  | Act (KeptBy id) x => x = default None (sh_kept s !! id)
  | Act (RemovedUnstopped name) x => x = bool_decide (name ∈ sh_removed s /\ name ∉ sh_stopped s)
  | Act (EndOrder n) x => x ≡ₚ seq 0 n
  | _ => True
  end.

(** The traces in which the shared objects answer what they hold. *)
Fixpoint sh_trace (s : shared) (tr : list cact) : Prop :=
  match tr with
  | [] => True
  | a :: tr => sh_answers s a /\ sh_trace (sh_next s a) tr
  end.

Definition sh_after (s : shared) (tr : list cact) : shared := foldl sh_next s tr.

Lemma sh_trace_app s t1 t2 : sh_trace s (t1 ++ t2) <-> sh_trace s t1 /\ sh_trace (sh_after s t1) t2.
Proof.
  revert s; induction t1 as [|a t1 IH]; intros s; simpl; [tauto|]. rewrite IH. unfold sh_after; simpl. tauto.
Qed.

Lemma sh_after_app s t1 t2 : sh_after s (t1 ++ t2) = sh_after (sh_after s t1) t2.
Proof. apply foldl_app. Qed.

(** *** A concrete service

    The shared objects as they are, the service and the rest of the world as [svc]. *)
Definition shared_handler (svc : forall X, svcE X -> X) (X : Type) (e : svcE X) (s : shared) : X * shared :=
  let x :=
    match e in svcE X return X with
    | TakeFailures rec => sortFailures (sh_failed s rec)
    | ReadFailures rec => sortFailures (sh_failed s rec)
    | KeptBy id => default None (sh_kept s !! id)
    | RemovedUnstopped name => bool_decide (name ∈ sh_removed s /\ name ∉ sh_stopped s)
    | EndOrder n => seq 0 n
    | e => svc _ e
    end in
  (x, sh_next s (Act e x)).

Lemma shared_handler_answers svc X (e : svcE X) s : sh_answers s (Act e (shared_handler svc X e s).1).
Proof. destruct e; simpl; done. Qed.

Lemma exec_shared svc {A} (p : cprog A) s a tr s' :
  exec (shared_handler svc) p s = Some (a, tr, s') -> sh_trace s tr /\ s' = sh_after s tr.
Proof.
  revert s a tr s'. induction p as [A a0|A X e k IH|A B C p IHp q IHq k IH|A B R k IH]; intros s a tr s'; simpl.
  - by intros [= _ <- <-].
  - destruct (exec _ (k _) _) as [[[a1 t] s2]|] eqn:E1; [|done]. intros [= _ <- <-].
    destruct (IH _ _ _ _ _ E1) as [Ht ->]. split; [split; [|exact Ht]|done]. apply shared_handler_answers.
  - destruct (exec _ p s) as [[[b t1] s1]|] eqn:E1; [|done].
    destruct (exec _ q s1) as [[[c t2] s2]|] eqn:E2; [|done].
    destruct (exec _ (k b c) s2) as [[[a1 t3] s3]|] eqn:E3; [|done].
    intros [= _ <- <-]. destruct (IHp _ _ _ _ E1) as [H1 ->]. destruct (IHq _ _ _ _ E2) as [H2 ->].
    destruct (IH _ _ _ _ _ _ E3) as [H3 ->]. rewrite !sh_trace_app, !sh_after_app. done.
  - done.
Qed.

(** The trace and the result of a run against it. *)
Definition ran {A} (svc : forall X, svcE X -> X) (p : cprog A) : option (A * list cact) :=
  match exec (shared_handler svc) p shared0 with Some (a, tr, _) => Some (a, tr) | None => None end.

Lemma ran_run {A} svc (p : cprog A) a tr : ran svc p = Some (a, tr) -> run p tr a /\ sh_trace shared0 tr.
Proof.
  unfold ran. destruct (exec _ p shared0) as [[[b t] s]|] eqn:He; [|done]. intros [= <- <-].
  split; [by eapply exec_run|by eapply exec_shared].
Qed.

(** A run of which something can be computed. *)
Lemma ran_check svc {A} (p : cprog A) (check : A -> list cact -> bool) :
  match ran svc p with Some (a, tr) => check a tr | None => false end = true ->
  exists a tr, run p tr a /\ sh_trace shared0 tr /\ check a tr = true.
Proof.
  destruct (ran svc p) as [[a tr]|] eqn:E; [|done]. intros H. exists a, tr.
  destruct (ran_run _ _ _ _ E). done.
Qed.

Lemma existsb_act (f : cact -> bool) tr : existsb f tr = true -> exists a, a ∈ tr /\ f a = true.
Proof. intros (a & Ha & Hf)%existsb_exists. exists a. by rewrite list_elem_of_In. Qed.

(** A world in which commands exit with [exit] and the service stores [entries]. *)
Definition plain_svc (list : gmap string string -> list CommandEntry) (exit : Z) (X : Type) (e : svcE X) : X :=
  match e in svcE X return X with
  | SvcList labels => Ok (list labels)
  | SvcCreate req => Ok (cr_Name req)
  | SvcStart _ => None
  | SvcWait ids => Ok ((fun id => {| w_ID := id; w_ExitCode := Some exit; w_Err := None |}) <$> ids)
  | SvcStop ids _ => Ok ((fun id => {| s_ID := id; s_Err := None; s_ForceKilled := false |}) <$> ids)
  | SvcRemove ids _ => Ok ((fun id => {| rm_ID := id; rm_Err := None |}) <$> ids)
  | SvcLogs _ _ => Ok []
  | SvcRecordHistory _ _ _ => None
  | CtxErr => None
  | Report _ => tt
  | EndOrder n => seq 0 n
  | RecordFailure _ _ => tt
  | TakeFailures _ => []
  | ReadFailures _ => []
  | AcquireStop => None
  | ReleaseStop => tt
  | MarkStopped _ => tt
  | MarkRemoved _ => tt
  | MarkKept _ _ => tt
  | KeptBy _ => None
  | RemovedUnstopped _ => false
  end.
