(* ===== verification/HookRunner.v ===== *)
(** * Running lifecycle hooks

    [cmdman/compose/lifecycle_runner.go], with the calls of [intermediate.go] and
    [lifecycle_output.go]: an event of a replica's hooks, one hook, its exec command, and
    the resource it acquires or releases.  Programs over the calls of [ComposeSvc.v];
    logging is left out, and so are the time limits of a cancelled hook and of a
    forgotten output stream. *)

From S2P Require Import Prelude GoStr LogDriver Model Prog ComposeSpec Naming Lifecycle Plan HookData HookOutput ComposeSvc.

(** A step whose error ends the function with that error. *)
Notation "'check' p 'in' k" := (p ≫= fun e => match e with Some e => mret (Some e) | None => k end)
  (at level 200, p at level 100, k at level 200) : cmdman_scope.

(* src/cmdman/compose/lifecycle_runner.go:59-70 hookRun *)
Record hookRun := {
  hrun_replica : hookReplica;
  hrun_hook : string;
  hrun_event : LifecycleEvent;
  hrun_exec : string;
  hrun_env : list string;
  hrun_held : option resourceHolder;
}.

(** The first error among the results for each target. *)
(* src/cmdman/compose/service_stop.go:176-187 firstStopErr *)
Definition firstStopErr (results : list StopResult) : option err := head (omap s_Err results).

(** The error of a removal, or the first error among the results for each target. *)
(* src/cmdman/compose/intermediate.go:306-314 Service.removeIntermediate *)
Definition first_remove_err (r : result err (list RemoveResult)) : option err :=
  match r with Err e => Some e | Ok results => head (omap rm_Err results) end.

(* src/cmdman/compose/lifecycle_runner.go:402-420 hookExit *)
Definition hookExit (name : string) (results : list WaitResult) : option Z * option err :=
  match results with
  | [res] =>
    match w_Err res, w_ExitCode res with
    | Some e, exit => (exit, Some (WaitExec name e))
    | None, None => (None, Some (NoExitCode name))
    | None, Some code => if decide (code = 0%Z) then (Some code, None) else (Some code, Some (ExitedWith name code))
    end
  | _ => (None, Some (WaitResults name (length results)))
  end.

(** The acquiring event [acquire] of a hook is undone by the first of these that it
    sets. *)
(* src/cmdman/compose/lifecycle_runner.go:482-495 hookRelease *)
Definition hookRelease (h : LifecycleHook) (acquire : LifecycleEvent) : option resourceRelease :=
  head (omap (fun ev => (fun exec => {| rel_Event := ev; rel_Args := exec_Args exec;
                                        rel_OnError := resolved (exec_OnError exec) |}) <$> Events h !! ev)
          (releases acquire)).

(* src/cmdman/compose/lifecycle_steps.go:219-237 forcedHooks *)
Definition forcedHooks (hooks : list LifecycleHook) : list LifecycleHook :=
  (fun h => MkLifecycleHook (hook_Name h) (Resource h)
     ((fun exec => if decide (resolved (exec_OnError exec) = OnErrorFail)
                   then MkExec (exec_Args exec) OnErrorContinue else exec) <$> Events h)) <$> hooks.

Section Runner.
Context (marshalRelease : resourceRelease -> result err string)
        (unmarshalRelease : string -> result err resourceRelease)
        (workdirHash : string -> string)
        (cfg : CmdmanConfig)
        (absPath : string -> option string)  (* [filepath.Abs] *)
        (reporter : bool).                   (* whether there is a reporter *)

(** ** Reports *)

(* src/cmdman/compose/event.go:171-177 Service.reportEvent *)
Definition reportEvent (ev : ProgressEvent) : cprog unit :=
  if reporter then call (Report ev) else mret tt.

(* src/cmdman/compose/event.go:154-158 Service.report *)
Definition report (command : string) (phase : Phase) (e : option err) (exit : option Z) : cprog unit :=
  reportEvent (mkEvent command phase e exit).

(* src/cmdman/compose/lifecycle_runner.go:72-86 Service.reportHook *)
Definition reportHook (run : hookRun) (phase : Phase) (e : option err) (exit : option Z) : cprog unit :=
  reportEvent {|
    ev_Command := hr_Display (hrun_replica run); ev_Phase := phase; ev_Err := e; ev_ExitCode := exit;
    ev_ForceKilled := false; ev_ScaleIndex := hr_ScaleIndex (hrun_replica run); ev_Hook := hrun_hook run;
    ev_Lifecycle := hrun_event run; ev_Exec := hrun_exec run; ev_Stream := ""; ev_Line := [];
    ev_Resource := ""; ev_Value := ""; ev_Retried := false |}.

(* src/cmdman/compose/lifecycle_runner.go:88-102 Service.reportHookOutput *)
Definition reportHookOutput (run : hookRun) (st : Stream) (line : list Z) : cprog unit :=
  reportEvent {|
    ev_Command := hr_Display (hrun_replica run); ev_Phase := PhaseHookOutput; ev_Err := None; ev_ExitCode := None;
    ev_ForceKilled := false; ev_ScaleIndex := hr_ScaleIndex (hrun_replica run); ev_Hook := hrun_hook run;
    ev_Lifecycle := hrun_event run; ev_Exec := hrun_exec run; ev_Stream := st; ev_Line := line;
    ev_Resource := ""; ev_Value := ""; ev_Retried := false |}.

(** The loop over the records that follow an exec command: errors are skipped. *)
(* src/cmdman/compose/lifecycle_output.go:26-41 Service.forwardHookOutput *)
Fixpoint forward_records (run : hookRun) (a : lineAssembler) (recs : list (result err LogLine)) : cprog unit :=
  match recs with
  | [] => for_each (fun l => reportHookOutput run (stream l) (Line l)) (asm_rest a)
  | Err _ :: recs => forward_records run a recs
  | Ok l :: recs =>
    let '(a, line) := asm_add a l in
    match line with
    | Some line => _ ← reportHookOutput run (stream l) line; forward_records run a recs
    | None => forward_records run a recs
    end
  end.

(* src/cmdman/compose/lifecycle_output.go:14-42 Service.forwardHookOutput *)
Definition forwardHookOutput (run : hookRun) (id : string) : cprog unit :=
  r ← call (SvcLogs id true);
  match r with Err _ => mret tt | Ok recs => forward_records run ∅ recs end.

(* src/cmdman/compose/lifecycle_output.go:44-71 Service.readResourceValue *)
Definition readResourceValue (id : string) : cprog (result err string) :=
  attempt recs := call (SvcLogs id false) in
  mret (try v := value_of_records recs in Ok (string_of_bytes v)).

(** ** Intermediate commands *)

(* src/cmdman/compose/service_create.go:368-388 Service.stopForRecreate *)
Definition stopForRecreate (id : string) (timeout : option Duration) : cprog (bool * option err) :=
  r ← call (SvcStop [id] timeout);
  match r with
  | Err e => mret (false, Some e)
  | Ok results => mret (existsb s_ForceKilled results, firstStopErr results)
  end.

(* src/cmdman/compose/intermediate.go:302-315 Service.removeIntermediate *)
Definition removeIntermediate (id : string) : cprog (option err) :=
  r ← call (SvcRemove [id] false); mret (first_remove_err r).

Definition entry_live (e : CommandEntry) : bool :=
  bool_decide (entry_State e = EventTypeRunning) || bool_decide (entry_State e = EventTypeStarting).

(* src/cmdman/compose/intermediate.go:317-326 Service.stopLiveIntermediate *)
Definition stopLiveIntermediate (e : CommandEntry) : cprog (option err) :=
  if entry_live e then r ← stopForRecreate (ID e) None; mret r.2 else mret None.

(** One entry of the loop. *)
(* src/cmdman/compose/intermediate.go:340-345 Service.clearStaleExecs *)
Definition clear_exec (e : CommandEntry) : cprog (result err unit) :=
  stopped ← stopLiveIntermediate e;
  match stopped with
  | Some er => mret (Err (StopExec (entry_Name e) er))
  | None =>
    removed ← removeIntermediate (ID e);
    match removed with
    | Some er => mret (Err (RemoveExec (entry_Name e) er))
    | None => mret (Ok tt)
    end
  end.

(* src/cmdman/compose/intermediate.go:328-348 Service.clearStaleExecs *)
Definition clearStaleExecs (labels : gmap string string) : cprog (result err unit) :=
  r ← call (SvcList labels);
  match r with
  | Err e => mret (Err (LookupExecs e))
  | Ok entries => for_each_ok clear_exec entries
  end.

(* src/cmdman/compose/intermediate.go:259-276 Service.findHolder *)
Definition findHolder (ref : resourceRef) : cprog (result err (option CommandEntry)) :=
  r ← call (SvcList (selector ref));
  match r with
  | Err e => mret (Err (LookupHolder (rref_Key ref) e))
  | Ok [] => mret (Ok None)
  | Ok [e] => mret (Ok (Some e))
  | Ok entries => mret (Err (ManyHolders (rref_Key ref) (rref_Command ref) (rref_ScaleIndex ref) (length entries)))
  end.

(* src/cmdman/compose/intermediate.go:278-288 Service.putHolder *)
Definition putHolder (h : resourceHolder) : cprog (option err) :=
  match holder_createRequest marshalRelease h with
  | Err e => mret (Some e)
  | Ok req =>
    r ← call (SvcCreate req);
    match r with
    | Err e => mret (Some (StoreResource (rref_Key (h_Ref h)) (holder_name h) e))
    | Ok _ => mret None
    end
  end.

(* src/cmdman/compose/intermediate.go:290-300 Service.dropHolder *)
Definition dropHolder (ref : resourceRef) : cprog (option err) :=
  r ← findHolder ref;
  match r with
  | Err e => mret (Some e)
  | Ok None => mret None
  | Ok (Some holder) =>
    e ← removeIntermediate (ID holder);
    match e with
    | Some er => mret (Some (RemoveHolder (entry_Name holder) (rref_Key ref) er))
    | None => mret None
    end
  end.

(** ** One exec command *)

(* src/cmdman/compose/lifecycle_runner.go:422-448 Service.stopCancelledExec *)
Definition stopCancelledExec (run : hookRun) (id : string) : cprog unit :=
  r ← call (SvcList (execLabels (hrun_replica run) (hrun_hook run) (hrun_event run)));
  match r with
  | Err _ => mret tt
  | Ok entries =>
    for_each (fun e => if decide (ID e = id) then _ ← stopLiveIntermediate e; mret tt else mret tt) entries
  end.

(** [ctx.Err()] is read once more after the stop of a cancelled command, when it still
    says what it said before. *)
(* src/cmdman/compose/lifecycle_runner.go:365-400 Service.runExec *)
Definition runExec (run : hookRun) (id : string) : cprog (option Z * option err) :=
  started ← call (SvcStart id);
  match started with
  | Some e =>
    c ← call CtxErr;
    match c with
    | Some c => _ ← stopCancelledExec run id; mret (None, Some c)
    | None => mret (None, Some (StartExec (hrun_exec run) e))
    end
  | None =>
    waited ← Par (if reporter then forwardHookOutput run id else mret tt) (call (SvcWait [id])) (fun _ r => mret r);
    c ← call CtxErr;
    match c with
    | Some c => _ ← stopCancelledExec run id; mret (None, Some c)
    | None =>
      match waited with
      | Err e => mret (None, Some (WaitExec (hrun_exec run) e))
      | Ok results => mret (hookExit (hrun_exec run) results)
      end
    end
  end.

(** What an exec command gets on top of the environment of its replica. *)
(* src/cmdman/compose/lifecycle_runner.go:334-363 Service.hookEnv *)
Definition hookEnv (r : hookReplica) (h : LifecycleHook) (ev : LifecycleEvent) : list string :=
  composeContextEnv workdirHash (hr_Project r) (hr_WorkDir r) (hr_Command r) (hr_ScaleIndex r) (hr_Scale r) ++
  [env_entry ENV_CMDMAN_COMPOSE_HOOK_NAME (hook_Name h); env_entry ENV_CMDMAN_COMPOSE_HOOK_EVENT ev] ++
  (if decide (Resource h = "") then [] else [env_entry ENV_CMDMAN_COMPOSE_RESOURCE_KEY (Resource h)]) ++
  [env_entry "CMDMAN_DATA_DIR" (DataDir cfg); env_entry "CMDMAN_RUNTIME_DIR" (RuntimeDir cfg)] ++
  (if decide (ConfigPath cfg = "") then []
   else [env_entry "CMDMAN_CONF" (default (ConfigPath cfg) (absPath (ConfigPath cfg)))]).

(** The holder of what an acquiring run printed. *)
(* src/cmdman/compose/lifecycle_runner.go:467-479 Service.recordResource *)
Definition acquired (run : hookRun) (h : LifecycleHook) (value : string) : resourceHolder :=
  let r := hrun_replica run in
  let release := hookRelease h (hrun_event run) in
  {| h_Ref := ref_of r (Resource h); h_Owner := hr_Name r; h_Value := value; h_Release := release;
     h_Dir := hr_Dir r;
     h_Env := hr_Env r ++ hookEnv r h (match release with Some rel => rel_Event rel | None => hrun_event run end) |}.

(* src/cmdman/compose/lifecycle_runner.go:450-480 Service.recordResource *)
Definition recordResource (run : hookRun) (h : LifecycleHook) (id : string) : cprog (option err) :=
  if negb (acquires (hrun_event run)) then dropHolder (ref_of (hrun_replica run) (Resource h))
  else
    value ← readResourceValue id;
    match value with
    | Err e => mret (Some (ReadResource (Resource h) (hrun_exec run) e))
    | Ok value => putHolder (acquired run h value)
    end.

(** The request for the exec command of [run]. *)
(* src/cmdman/compose/lifecycle_runner.go:295-310 Service.execHookValue *)
Definition exec_request (run : hookRun) (h : LifecycleHook) (exec : LifecycleExec) (value : string) : CreateRequest := {|
  cr_Name := hrun_exec run; cr_Dir := hr_Dir (hrun_replica run);
  cr_Env := hrun_env run ++ (if decide (Resource h = "") then []
                             else [env_entry ENV_CMDMAN_COMPOSE_RESOURCE_VALUE value]);
  cr_ImportHostEnv := Some false; cr_InjectEnv := None; cr_AppendEnv := [];
  cr_Labels := execLabels (hrun_replica run) (hook_Name h) (hrun_event run);
  cr_RestartPolicy := RestartPolicyNo; cr_MaxRetries := 0; cr_StopSignal := ""; cr_StopTimeout := 0%Z;
  cr_StopCommand := []; cr_AutoRemove := false; cr_Tty := false; cr_ScrollbackBytes := 0;
  cr_LogDriver := DriverK8sFile; cr_LogOpts := ∅; cr_Hooks := ∅; cr_Argv := exec_Args exec; cr_Replace := false |}.

(** A removal that fails is logged. *)
(* src/cmdman/compose/lifecycle_runner.go:280-332 Service.execHookValue *)
Definition execHookValue (run : hookRun) (h : LifecycleHook) (exec : LifecycleExec) (value : string)
  : cprog (option Z * option err) :=
  cleared ← clearStaleExecs (execLabels (hrun_replica run) (hook_Name h) (hrun_event run));
  match cleared with
  | Err e => mret (None, Some e)
  | Ok _ =>
    created ← call (SvcCreate (exec_request run h exec value));
    match created with
    | Err e => mret (None, Some (CreateExec (hrun_exec run) e))
    | Ok id =>
      _ ← reportHook run PhaseHookRunning None None;
      '(exit, e) ← runExec run id;
      match e with
      | Some e => mret (exit, Some e)
      | None =>
        recorded ← (if decide (Resource h = "") then mret None else recordResource run h id);
        match recorded with
        | Some e => mret (exit, Some e)
        | None => _ ← removeIntermediate id; mret (exit, None)
        end
      end
    end
  end.

(** What the run knows of the holder before it starts: the holder, if it could be
    decoded, and its value. *)
(* src/cmdman/compose/lifecycle_runner.go:255-272 Service.execHook *)
Definition hook_value (run : hookRun) (h : LifecycleHook) : cprog (result err (option resourceHolder * string)) :=
  if decide (Resource h = "") then mret (Ok (None, ""))
  else match hrun_held run with
       | Some held => mret (Ok (Some held, h_Value held))
       | None =>
         attempt holder := findHolder (ref_of (hrun_replica run) (Resource h)) in
         match holder with
         | None => mret (Ok (None, ""))
         | Some e =>
           match ConfigJSON e with
           | None => mret (Ok (None, ""))
           | Some c =>
             mret (Ok (match decodeHolder unmarshalRelease e with Ok d => Some d | Err _ => None end,
                       label (Labels c) LabelResourceValue))
           end
         end
       end.

(** The exit code, the holder before the run, the value, and the error. *)
(* src/cmdman/compose/lifecycle_runner.go:239-278 Service.execHook *)
Definition execHook (run : hookRun) (h : LifecycleHook) (exec : LifecycleExec)
  : cprog (option Z * option resourceHolder * string * option err) :=
  found ← hook_value run h;
  match found with
  | Err e => mret (None, None, "", Some e)
  | Ok (held, value) =>
    '(exit, e) ← execHookValue run h exec value;
    mret (exit, held, value,
          if bool_decide (Resource h <> "") && negb (acquires (hrun_event run))
          then ReleaseResource (Resource h) value <$> e else e)
  end.

(** ** One hook *)

(** Whether a failure of the run leaves a resource unreleased. *)
Definition is_release (run : hookRun) (h : LifecycleHook) : bool :=
  bool_decide (Resource h <> "") && negb (acquires (hrun_event run)).

(** What the recorder keeps of a failed release. *)
(* src/cmdman/compose/lifecycle_runner.go:180-207 Service.runHookAs *)
Definition failure_of (run : hookRun) (h : LifecycleHook) (exec : LifecycleExec) (held : option resourceHolder)
    (value : string) (e : err) (cancelled : bool) : failedRelease :=
  let r := hrun_replica run in
  let record := match held with
                | Some held => held
                | None => {| h_Ref := ref_of r (Resource h); h_Owner := hr_Name r; h_Value := value;
                             h_Release := None; h_Dir := ""; h_Env := [] |}
                end in
  let record := match h_Release record with
                | Some _ => record
                | None => {| h_Ref := h_Ref record; h_Owner := h_Owner record; h_Value := h_Value record;
                             h_Release := Some {| rel_Event := hrun_event run; rel_Args := exec_Args exec;
                                                  rel_OnError := resolved (exec_OnError exec) |};
                             h_Dir := hr_Dir r; h_Env := hrun_env run |}
                end in
  {| fr_holder := record; fr_display := hr_Display r; fr_err := e;
     fr_onError := if cancelled then OnErrorFail else resolved (exec_OnError exec);
     fr_retried := false; fr_reportOnly := match held with None => true | Some _ => false end |}.

(** [ctx] carries the recorder, if any. *)
(* src/cmdman/compose/release_recorder.go:60-67 releaseRecorder.record *)
Definition record (ctx : option recorder) (f : failedRelease) : cprog unit :=
  match ctx with None => mret tt | Some rec => call (RecordFailure rec f) end.

(** The warning and the error. *)
(* src/cmdman/compose/lifecycle_runner.go:161-237 Service.runHookAs *)
Definition runHookAs (ctx : option recorder) (run : hookRun) (h : LifecycleHook) (exec : LifecycleExec)
  : cprog (option err * option err) :=
  '(exit, held, value, e) ← execHook run h exec;
  match e with
  | None => _ ← reportHook run PhaseHookSucceeded None exit; mret (None, None)
  | Some e =>
    let e := HookFailed (hook_Name h) (hrun_event run) (hr_Display (hrun_replica run)) e in
    _ ← (if is_release run h then
           c ← call CtxErr;
           record ctx (failure_of run h exec held value e (match c with Some _ => true | None => false end))
         else mret tt);
    c ← call CtxErr;
    match c with
    | Some _ => _ ← reportHook run PhaseHookFailed (Some e) exit; mret (None, Some e)
    | None =>
      if decide (resolved (exec_OnError exec) = OnErrorContinue) then
        _ ← reportHook run PhaseHookWarning (Some e) exit; mret (Some e, None)
      else if decide (resolved (exec_OnError exec) = OnErrorIgnore) then
        _ ← reportHook run PhaseHookIgnored (Some e) exit;
        _ ← (if is_release run h then _ ← dropHolder (ref_of (hrun_replica run) (Resource h)); mret tt
             else mret tt);
        mret (None, None)
      else _ ← reportHook run PhaseHookFailed (Some e) exit; mret (None, Some e)
    end
  end.

(* src/cmdman/compose/lifecycle_runner.go:104-121 Service.runHook *)
Definition runHook (ctx : option recorder) (r : hookReplica) (h : LifecycleHook) (ev : LifecycleEvent)
    (exec : LifecycleExec) : cprog (option err * option err) :=
  runHookAs ctx {| hrun_replica := r; hrun_hook := hook_Name h; hrun_event := ev;
                   hrun_exec := ExecCommandName (hr_Name r) (hook_Name h) ev;
                   hrun_env := hr_Env r ++ hookEnv r h ev; hrun_held := None |} h exec.

(** The hook of a stored release. *)
(* src/cmdman/compose/lifecycle_runner.go:139-149 Service.runRelease *)
Definition release_hook (h : resourceHolder) (rel : resourceRelease) (force : bool) : LifecycleHook :=
  let hook := MkLifecycleHook (hookName h) (rref_Key (h_Ref h))
                {[rel_Event rel := MkExec (rel_Args rel) (rel_OnError rel)]} in
  if force then default hook (head (forcedHooks [hook])) else hook.

(* src/cmdman/compose/lifecycle_runner.go:150-158 Service.runRelease *)
Definition release_run (h : resourceHolder) (rel : resourceRelease) : hookRun :=
  let r := holder_replica h in
  {| hrun_replica := r; hrun_hook := hookName h; hrun_event := rel_Event rel;
     hrun_exec := ExecCommandName (hr_Name r) (hookName h) (rel_Event rel);
     hrun_env := h_Env h ++ [env_entry ENV_CMDMAN_COMPOSE_RESOURCE_KEY (rref_Key (h_Ref h))];
     hrun_held := Some h |}.

(* src/cmdman/compose/lifecycle_runner.go:123-159 Service.runRelease *)
Definition runRelease (ctx : option recorder) (h : resourceHolder) (force : bool) : cprog (option err * option err) :=
  match h_Release h with
  | None => mret (None, Some (NoRelease (holder_name h)))
  | Some rel =>
    let hook := release_hook h rel force in
    match Events hook !! rel_Event rel with
    | Some exec => runHookAs ctx (release_run h rel) hook exec
    | None => mret (None, None)  (* the hook sets this event *)
    end
  end.

(** ** One event of a replica *)

(** The warnings and the error. *)
(* src/cmdman/compose/lifecycle_runner.go:29-57 Service.runLifecycleEvent *)
Fixpoint runLifecycleEvent (ctx : option recorder) (r : hookReplica) (hooks : list LifecycleHook) (ev : LifecycleEvent)
  : cprog (list err * option err) :=
  match hooks with
  | [] => mret ([], None)
  | h :: hooks =>
    match Events h !! ev with
    | None => runLifecycleEvent ctx r hooks ev
    | Some exec =>
      '(warning, e) ← runHook ctx r h ev exec;
      match e with
      | Some e => mret ([], Some e)
      | None =>
        '(warnings, e) ← runLifecycleEvent ctx r hooks ev;
        mret (match warning with Some w => w :: warnings | None => warnings end, e)
      end
    end
  end.
End Runner.
