(* ===== verification/HookSteps.v ===== *)
(** * Operations of a replica inside its hooks

    [cmdman/compose/lifecycle_steps.go]: creating, starting, stopping and removing a
    replica between the pre and post events of its hooks, the releases of a replica
    that was removed without being stopped, and the steps of a teardown. *)

From S2P Require Import Prelude GoStr LogDriver Model Prog ComposeSpec Naming Lifecycle Plan HookData HookOutput ComposeSvc HookRunner.

(* src/cmdman/compose/lifecycle_steps.go:24-25 hookSource *)
Inductive hookSource := hooksFromSpec | hooksFromStored.

(* src/cmdman/compose/selection.go:384-392 hooksProjectLabels *)
Definition hooksProjectLabels (workDir project : string) : gmap string string :=
  let labels := {[LabelHooksWorkdir := workDir]} in
  if decide (project = "") then labels else <[LabelHooksProject := project]> labels.

Section Steps.
Context (marshalRelease : resourceRelease -> result err string)
        (unmarshalRelease : string -> result err resourceRelease)
        (unmarshalHooks : string -> result string (list LifecycleHook))
        (workdirHash : string -> string)
        (cfg : CmdmanConfig)
        (absPath : string -> option string)
        (reporter : bool)
        (limited : bool).  (* whether the operation has a parallel limit *)

Notation event_of := (runLifecycleEvent marshalRelease unmarshalRelease workdirHash cfg absPath reporter).
Notation release_of := (runRelease marshalRelease unmarshalRelease workdirHash cfg absPath reporter).
Notation say := (report reporter).

(** ** Around one operation *)

(* src/cmdman/compose/lifecycle_steps.go:37-49 Service.replicaHooks *)
Definition replicaHooks (src : hookSource) (spec : ComposeSpec) (cmd : Command) (e : CommandEntry)
  : result err (hookReplica * list LifecycleHook) :=
  match src with
  | hooksFromStored => storedHookReplica unmarshalHooks e
  | hooksFromSpec => Ok (specHookReplica workdirHash cfg spec cmd (Targets.scaleIndexOf e), Hooks cmd)
  end.

(* src/cmdman/compose/lifecycle_steps.go:51-67 Service.createWithHooks *)
Definition createWithHooks (ctx : option recorder) (r : hookReplica) (hooks : list LifecycleHook) (req : CreateRequest)
  : cprog (option err) :=
  '(_, e) ← event_of ctx r hooks LifecycleCreatePre;
  match e with
  | Some e => mret (Some e)
  | None =>
    created ← call (SvcCreate req);
    match created with
    | Err e => mret (Some e)
    | Ok _ => '(_, e) ← event_of ctx r hooks LifecycleCreatePost; mret e
    end
  end.

(* src/cmdman/compose/lifecycle_steps.go:69-85 Service.startWithHooks *)
Definition startWithHooks (ctx : option recorder) (r : hookReplica) (hooks : list LifecycleHook) (idOrName : string)
  : cprog (option err) :=
  '(_, e) ← event_of ctx r hooks LifecycleStartPre;
  match e with
  | Some e => mret (Some e)
  | None =>
    check call (SvcStart idOrName) in
    '(_, e) ← event_of ctx r hooks LifecycleStartPost; mret e
  end.

(* src/cmdman/compose/lifecycle_steps.go:87-101 Service.startReplica *)
Definition startReplica (ctx : option recorder) (spec : ComposeSpec) (src : hookSource) (cmd : Command) (e : CommandEntry)
  : cprog (option err) :=
  match replicaHooks src spec cmd e with
  | Err er => mret (Some er)
  | Ok (r, hooks) => startWithHooks ctx r hooks (entry_Name e)
  end.

(** The stop of a teardown: whether a hook failed, whether the replica was killed, and
    the error. *)
(* src/cmdman/compose/lifecycle_steps.go:103-128 Service.stopWithHooks *)
Definition stopWithHooks (ctx : option recorder) (r : hookReplica) (hooks : list LifecycleHook) (id : string)
    (timeout : option Duration) : cprog (bool * bool * option err) :=
  '(_, e) ← event_of ctx r hooks LifecycleStopPre;
  match e with
  | Some e => mret (true, false, Some e)
  | None =>
    '(forceKilled, e) ← stopForRecreate id timeout;
    match e with
    | Some e => mret (false, forceKilled, Some e)
    | None =>
      '(_, e) ← event_of ctx r hooks LifecycleStopPost;
      match e with
      | Some e => mret (true, forceKilled, Some e)
      | None => mret (false, forceKilled, None)
      end
    end
  end.

(** One entry of the loop: a live exec command is left alone, a failed removal logged. *)
(* src/cmdman/compose/lifecycle_steps.go:456-462 Service.removeLeftExecs *)
Definition remove_left (e : CommandEntry) : cprog unit :=
  if entry_live e then mret tt else _ ← removeIntermediate (ID e); mret tt.

(* src/cmdman/compose/lifecycle_steps.go:436-464 Service.removeLeftExecs *)
Definition removeLeftExecs (r : hookReplica) : cprog unit :=
  l ← call (SvcList (labels_of [(LabelIntermediate, IntermediateExec); (LabelOwner, hr_Name r);
                                (LabelHooksProject, hr_Project r); (LabelHooksWorkdir, hr_WorkDir r)]));
  match l with Err _ => mret tt | Ok entries => for_each remove_left entries end.

(** Whether the replica was removed, and the error. *)
(* src/cmdman/compose/lifecycle_steps.go:130-158 Service.removeWithHooks *)
Definition removeWithHooks (ctx : option recorder) (r : hookReplica) (hooks : list LifecycleHook)
    (targets : list string) (force : bool) : cprog (bool * option err) :=
  '(_, e) ← event_of ctx r hooks LifecycleRemovePre;
  match e with
  | Some e => mret (false, Some e)
  | None =>
    results ← call (SvcRemove targets force);
    match first_remove_err results with
    | Some e => mret (false, Some e)
    | None =>
      '(_, e) ← event_of ctx r hooks LifecycleRemovePost;
      _ ← removeLeftExecs r;
      mret (true, e)
    end
  end.

(** One holder of the loop: the failure to add. *)
(* src/cmdman/compose/lifecycle_steps.go:203-214 Service.releaseStopResources *)
Definition release_stop (ctx : option recorder) (e : CommandEntry) : cprog (option err) :=
  match decodeHolder unmarshalRelease e with
  | Err _ => mret None
  | Ok h => if negb (releasedAtStop h) then mret None
            else '(_, e) ← release_of ctx h false; mret e
  end.

(** The loop, with the failures so far. *)
(* src/cmdman/compose/lifecycle_steps.go:201-216 Service.releaseStopResources *)
Fixpoint release_stops (ctx : option recorder) (entries : list CommandEntry) : cprog (list err) :=
  match entries with
  | [] => mret []
  | e :: entries =>
    failed ← release_stop ctx e;
    errs ← release_stops ctx entries;
    mret (match failed with Some er => er :: errs | None => errs end)
  end.

(* src/cmdman/compose/lifecycle_steps.go:181-217 Service.releaseStopResources *)
Definition releaseStopResources (ctx : option recorder) (r : hookReplica) : cprog (option err) :=
  l ← call (SvcList (labels_of [(LabelIntermediate, IntermediateHolder); (LabelOwner, hr_Name r);
                                (LabelHooksProject, hr_Project r); (LabelHooksWorkdir, hr_WorkDir r)]));
  match l with
  | Err e => mret (Some (LookupHolders (hr_Name r) e))
  | Ok entries => errs ← release_stops ctx entries; mret (errors_Join errs)
  end.

(* src/cmdman/compose/lifecycle_steps.go:160-179 Service.removeReplica *)
Definition removeReplica (ctx : option recorder) (r : hookReplica) (hooks : list LifecycleHook)
    (targets : list string) (force stopped : bool) : cprog (option err) :=
  '(removed, e) ← removeWithHooks ctx r hooks targets force;
  if removed && negb stopped then
    e' ← releaseStopResources ctx r;
    mret (errors_Join (match e with Some e => [e] | None => [] end ++ match e' with Some e => [e] | None => [] end))
  else mret e.

(** ** The steps of a teardown *)

(** [force] and [timeout] are those of the teardown. *)
(* src/cmdman/compose/lifecycle_steps.go:239-272 Service.teardownHooks *)
Definition teardownHooks (e : CommandEntry) (force : bool) (step : string)
  : cprog (result err (hookReplica * list LifecycleHook)) :=
  match storedReplica e with
  | Err er => mret (Err er)
  | Ok r =>
    match storedHooks unmarshalHooks e with
    | Err er =>
      if negb force then mret (Err er)
      else _ ← say (hr_Display r) PhaseHookWarning (Some (WithoutHooks step er)) None; mret (Ok (r, []))
    | Ok hooks => mret (Ok (r, if force then forcedHooks hooks else hooks))
    end
  end.

(* src/cmdman/compose/lifecycle_steps.go:274-290 Service.stopReplica *)
Definition stopReplica (ctx : option recorder) (e : CommandEntry) (force : bool) (timeout : option Duration)
  : cprog (bool * bool * option err) :=
  found ← teardownHooks e force "stop";
  match found with
  | Err er => mret (true, false, Some er)
  | Ok (r, hooks) => stopWithHooks ctx r hooks (ID e) timeout
  end.

(** Without a limit there are no permits. *)
(* src/cmdman/compose/lifecycle_steps.go:334-346 teardown.acquireStop *)
Definition acquireStop : cprog (option err) :=
  if limited then
    e ← call AcquireStop;
    match e with Some e => mret (Some (NoStopSlot e)) | None => mret None end
  else mret None.

(* src/cmdman/compose/lifecycle_steps.go:334-346 teardown.acquireStop *)
Definition releaseStop : cprog unit := if limited then call ReleaseStop else mret tt.

(* src/cmdman/compose/lifecycle_steps.go:373-387 teardown.releaseLeft *)
Definition releaseLeft (h : resourceHolder) : cprog bool :=
  if negb (releasedAtStop h) then mret false else call (RemovedUnstopped (h_Owner h)).

(** Whether the replica was killed, and the error. *)
(* src/cmdman/compose/lifecycle_steps.go:389-417 Service.teardownStop *)
Definition teardownStop (ctx : option recorder) (force : bool) (timeout : option Duration) (e : CommandEntry)
  : cprog (bool * option err) :=
  slot ← acquireStop;
  match slot with
  | Some er => mret (false, Some er)
  | None =>
    _ ← call (MarkStopped (entry_Name e));
    '(hookFailed, forceKilled, er) ← stopReplica ctx e force timeout;
    _ ← (if hookFailed : bool then call (MarkKept (ID e) er) else mret tt);
    _ ← releaseStop;
    mret (forceKilled, er)
  end.

(* src/cmdman/compose/lifecycle_steps.go:419-434 Service.teardownRemove *)
Definition teardownRemove (ctx : option recorder) (force : bool) (e : CommandEntry) : cprog (option err) :=
  found ← teardownHooks e force "remove";
  match found with
  | Err er => mret (Some er)
  | Ok (r, hooks) =>
    '(removed, er) ← removeWithHooks ctx r hooks [ID e] true;
    _ ← (if removed : bool then call (MarkRemoved (entry_Name e)) else mret tt);
    mret er
  end.
End Steps.
