(* ===== verification/HookProps.v ===== *)
(** * What running a hook guarantees

    Theorems about every run of the programs of [HookRunner.v] and [HookSteps.v],
    whatever the service, the context and the other goroutines answer. *)

From S2P Require Import Prelude GoStr LogDriver Model Prog ComposeSpec Naming Lifecycle Targets Service Plan HookData HookOutput Prog ComposeSvc HookRunner HookSteps.

(** ** What hooks call *)

(** The calls of a hook run: those of the service, removals without force where [rm]
    allows them, and records for the recorder of its context. *)
Definition hook_act (ctx : option recorder) (rm : Prop) (a : cact) : Prop :=
  match a with
  | Act (SvcRemove _ force) _ => force = false /\ rm
  | Act (RecordFailure rec _) _ => ctx = Some rec
  | Act (SvcList _) _ | Act (SvcCreate _) _ | Act (SvcStart _) _ | Act (SvcWait _) _ | Act (SvcStop _ _) _
  | Act (SvcLogs _ _) _ | Act CtxErr _ | Act (Report _) _ => True
  | _ => False
  end.

Lemma always_if {A} (b : bool) (p q : cprog A) P : always p P -> always q P -> always (if b then p else q) P.
Proof. by destruct b. Qed.

Create HintDb prog.

(** Proves that a program makes only calls of a kind, by following its text. *)
Ltac follow :=
  repeat match goal with
  | |- forall _, _ => intro
  | |- traces (mret _) _ => apply traces_ret; exact _
  | |- traces (_ ≫= _) _ => apply traces_bind; [exact _| |intros]
  | |- traces (match ?x with _ => _ end) _ => destruct x eqn:?
  | |- traces (let '(_, _) := ?x in _) _ => destruct x eqn:?
  | |- always (mret _) _ => apply always_ret
  | |- always (call _) _ => apply always_call; intros; cbn; first [exact I|done|by split|by intros []]
  | |- always (_ ≫= _) _ => apply always_bind; [|intros]
  | |- always (Par _ _ _) _ => apply always_Par; intros
  | |- always (if ?b then _ else _) _ => is_var b; apply always_if
  | |- always (match ?x with _ => _ end) _ => destruct x eqn:?
  | |- always (let '(_, _) := ?x in _) _ => destruct x eqn:?
  end; try (solve [eauto with prog]).

Lemma always_for_each_ok {Er A} (f : A -> cprog (result Er unit)) l P :
  (forall a, always (f a) P) -> always (for_each_ok f l) P.
Proof. intros H. induction l; simpl; follow. Qed.

(** ** What a run has recorded, and whether its command worked *)

(** The failures recorded with [rec], in order. *)
Definition recorded (rec : recorder) (tr : list cact) : list failedRelease :=
  omap (fun a => match a with
                 | Act (RecordFailure r f) _ => if decide (r = rec) then Some f else None
                 | _ => None
                 end) tr.

(** The exec command [name] ended with exit code 0. *)
Definition exited_ok (name : string) (tr : list cact) : Prop :=
  exists id results, Act (SvcWait [id]) (Ok results) ∈ tr /\ (hookExit name results).2 = None.

(** The context was done at some point. *)
Definition cancelled (tr : list cact) : Prop := exists c, Act CtxErr (Some c) ∈ tr.

Lemma recorded_app rec t1 t2 : recorded rec (t1 ++ t2) = recorded rec t1 ++ recorded rec t2.
Proof. apply omap_app. Qed.

Lemma recorded_none rec rm tr : Forall (hook_act None rm) tr -> recorded rec tr = [].
Proof.
  induction 1 as [|[X e x] tr Ha _ IH]; [done|]. simpl. rewrite IH. destruct e; try done; simpl in Ha; congruence.
Qed.

Lemma exited_ok_app name t1 t2 : exited_ok name t1 \/ exited_ok name t2 -> exited_ok name (t1 ++ t2).
Proof. intros [(i & r & H & ?)|(i & r & H & ?)]; exists i, r; (split; [|done]); apply elem_of_app; tauto. Qed.

Lemma cancelled_app t1 t2 : cancelled t1 \/ cancelled t2 -> cancelled (t1 ++ t2).
Proof. intros [[c H]|[c H]]; exists c; apply elem_of_app; tauto. Qed.

Lemma cancelled_call c : cancelled [Act CtxErr (Some c)].
Proof. exists c. left. Qed.

(** How the failure [f] of a run ends it: its warning and its error, by [on_error]. *)
Definition ends_by (onError : OnError) (f : failedRelease) (tr : list cact) (w e : option err) : Prop :=
  (w = None /\ e = Some (fr_err f) /\
     (cancelled tr \/ (resolved onError <> OnErrorContinue /\ resolved onError <> OnErrorIgnore))) \/
  (w = Some (fr_err f) /\ e = None /\ resolved onError = OnErrorContinue) \/
  (w = None /\ e = None /\ resolved onError = OnErrorIgnore).

(** Commands that earlier runs of the same event left. *)
Definition listed (labels : gmap string string) (tr : list cact) (id : string) : Prop :=
  exists entries : list CommandEntry, Act (SvcList labels) (Ok entries) ∈ tr /\ id ∈ ID <$> entries.

(** The commands that a trace removes. *)
Definition removed_in (tr : list cact) (id : string) : Prop :=
  exists force x, Act (SvcRemove [id] force) x ∈ tr.

Lemma removed_in_app t1 t2 id : removed_in (t1 ++ t2) id <-> removed_in t1 id \/ removed_in t2 id.
Proof. unfold removed_in. setoid_rewrite elem_of_app. naive_solver. Qed.

Lemma listed_app labels t1 t2 id : listed labels t1 id \/ listed labels t2 id -> listed labels (t1 ++ t2) id.
Proof. intros [(l & H & ?)|(l & H & ?)]; exists l; (split; [|done]); apply elem_of_app; tauto. Qed.

Lemma no_removal {A} (p : cprog A) ctx tr r id :
  always p (hook_act ctx False) -> run p tr r -> ~ removed_in tr id.
Proof.
  intros Hp Hr (force & x & H). specialize (Hp tr r Hr). rewrite Forall_forall in Hp.
  by apply Hp in H as [_ []].
Qed.

Section Calls.
Context (marshalRelease : resourceRelease -> result err string)
        (unmarshalRelease : string -> result err resourceRelease)
        (unmarshalHooks : string -> result string (list LifecycleHook))
        (workdirHash : string -> string) (cfg : CmdmanConfig) (absPath : string -> option string)
        (reporter limited : bool).

Section Ctx.
Context (ctx : option recorder) (rm : Prop).
Notation hooky p := (always p (hook_act ctx rm)).

Lemma reportHook_acts run ph e x : hooky (reportHook reporter run ph e x).
Proof. unfold reportHook, reportEvent. follow. Qed.
Lemma reportHookOutput_acts run st l : hooky (reportHookOutput reporter run st l).
Proof. unfold reportHookOutput, reportEvent. follow. Qed.
Lemma report_acts c ph e x : hooky (report reporter c ph e x).
Proof. unfold report, reportEvent. follow. Qed.
#[local] Hint Resolve reportHook_acts reportHookOutput_acts report_acts : prog.

Lemma forward_records_acts run a recs : hooky (forward_records reporter run a recs).
Proof.
  revert a; induction recs as [|[l|e] recs IH]; intros a; simpl; [|follow|apply IH].
  apply always_for_each. intros. follow.
Qed.
#[local] Hint Resolve forward_records_acts : prog.

Lemma forwardHookOutput_acts run id : hooky (forwardHookOutput reporter run id).
Proof. unfold forwardHookOutput. follow. Qed.
Lemma stopForRecreate_acts id t : hooky (stopForRecreate id t).
Proof. unfold stopForRecreate. follow. Qed.
#[local] Hint Resolve forwardHookOutput_acts stopForRecreate_acts : prog.

Lemma stopLiveIntermediate_acts e : hooky (stopLiveIntermediate e).
Proof. unfold stopLiveIntermediate. follow. Qed.
Lemma findHolder_acts ref : hooky (findHolder ref).
Proof. unfold findHolder. follow. Qed.
Lemma putHolder_acts h : hooky (putHolder marshalRelease h).
Proof. unfold putHolder. follow. Qed.
Lemma readResourceValue_acts id : hooky (readResourceValue id).
Proof. unfold readResourceValue. follow. Qed.
Lemma record_acts f : hooky (record ctx f).
Proof. unfold record. follow. Qed.
#[local] Hint Resolve stopLiveIntermediate_acts findHolder_acts putHolder_acts readResourceValue_acts
  record_acts : prog.

Lemma hook_value_acts run h : hooky (hook_value unmarshalRelease run h).
Proof. unfold hook_value. follow. Qed.
Lemma stopCancelledExec_acts run id : hooky (stopCancelledExec run id).
Proof. unfold stopCancelledExec. follow. apply always_for_each. intros. follow. Qed.
#[local] Hint Resolve hook_value_acts stopCancelledExec_acts : prog.

Lemma runExec_acts run id : hooky (runExec reporter run id).
Proof. unfold runExec. follow. Qed.
#[local] Hint Resolve runExec_acts : prog.

Context (Hrm : rm).

Lemma removeIntermediate_acts id : hooky (removeIntermediate id).
Proof. unfold removeIntermediate. follow. Qed.
#[local] Hint Resolve removeIntermediate_acts : prog.

Lemma clearStaleExecs_acts labels : hooky (clearStaleExecs labels).
Proof. unfold clearStaleExecs. follow. apply always_for_each_ok. intros. unfold clear_exec. follow. Qed.
Lemma dropHolder_acts ref : hooky (dropHolder ref).
Proof. unfold dropHolder. follow. Qed.
#[local] Hint Resolve clearStaleExecs_acts dropHolder_acts : prog.

Lemma recordResource_acts run h id : hooky (recordResource marshalRelease workdirHash cfg absPath run h id).
Proof. unfold recordResource. follow. Qed.
#[local] Hint Resolve recordResource_acts : prog.

Lemma execHookValue_acts run h exec v :
  hooky (execHookValue marshalRelease workdirHash cfg absPath reporter run h exec v).
Proof. unfold execHookValue. follow. Qed.
#[local] Hint Resolve execHookValue_acts : prog.

Lemma execHook_acts run h exec :
  hooky (execHook marshalRelease unmarshalRelease workdirHash cfg absPath reporter run h exec).
Proof. unfold execHook. follow. Qed.
#[local] Hint Resolve execHook_acts : prog.

Lemma runHookAs_acts run h exec :
  hooky (runHookAs marshalRelease unmarshalRelease workdirHash cfg absPath reporter ctx run h exec).
Proof. unfold runHookAs. follow. Qed.
#[local] Hint Resolve runHookAs_acts : prog.

Lemma runRelease_acts h force :
  hooky (runRelease marshalRelease unmarshalRelease workdirHash cfg absPath reporter ctx h force).
Proof. unfold runRelease. follow. Qed.
Lemma runLifecycleEvent_acts r hooks ev :
  hooky (runLifecycleEvent marshalRelease unmarshalRelease workdirHash cfg absPath reporter ctx r hooks ev).
Proof. induction hooks; simpl; unfold runHook; follow. Qed.
End Ctx.

(** ** What a run that succeeds has done *)

Lemma runExec_ok hrun id tr x : run (runExec reporter hrun id) tr (x, None) -> exited_ok (hrun_exec hrun) tr.
Proof.
  unfold runExec. intros H. inv_run H as [e|] t1 H1.
  { inv_run H as [c|] t2 H2; [inv_run H as y t3 H3|]; inv_ret H. }
  inv_run H as waited t2 H2. inv_run H as [c|] t3 H3; [inv_run H as y t4 H4; inv_ret H|].
  destruct waited as [results|e]; [|inv_ret H]. apply run_ret in H as [-> H].
  destruct H2 as (b & r & u1 & u2 & u12 & u3 & _ & Hw & Hm & -> & [-> Hr]).
  apply run_call in Hw as ->. subst r. exists id, results. rewrite <- H. split; [|done].
  apply elem_of_app; right. apply elem_of_app; left. rewrite app_nil_r, (merge_perm _ _ _ Hm). set_solver.
Qed.

Lemma execHookValue_ok hrun h exec v tr x :
  run (execHookValue marshalRelease workdirHash cfg absPath reporter hrun h exec v) tr (x, None) ->
  exited_ok (hrun_exec hrun) tr.
Proof.
  unfold execHookValue. intros H. inv_run H as [u|e] t1 H1; [|inv_ret H].
  inv_run H as [id|e] t2 H2; [|inv_ret H]. inv_run H as u' t3 H3. inv_run H as [exit [e|]] t4 H4; [inv_ret H|].
  do 3 (apply exited_ok_app; right). apply exited_ok_app; left. by apply runExec_ok in H4.
Qed.

Lemma execHook_ok hrun h exec tr x held v :
  run (execHook marshalRelease unmarshalRelease workdirHash cfg absPath reporter hrun h exec) tr (x, held, v, None) ->
  exited_ok (hrun_exec hrun) tr.
Proof.
  unfold execHook. intros H. inv_run H as [[held' v']|e] t1 H1; [|inv_ret H].
  inv_run H as [exit e] t2 H2. inv_ret H.
  apply exited_ok_app; right. apply exited_ok_app; left.
  destruct (bool_decide _ && _); destruct e; simplify_eq/=; by apply execHookValue_ok in H2.
Qed.

(** ** A failed release is recorded *)

Lemma recorded_quiet {A} (p : cprog A) rec rm tr r :
  always p (hook_act None rm) -> run p tr r -> recorded rec tr = [].
Proof. intros Hp Hr. by eapply recorded_none, Hp. Qed.

Lemma reportHook_quiet rec hrun ph e x tr r : run (reportHook reporter hrun ph e x) tr r -> recorded rec tr = [].
Proof. eapply recorded_quiet, (reportHook_acts None True). Qed.

Lemma execHook_held hrun h exec tr x held v e :
  run (execHook marshalRelease unmarshalRelease workdirHash cfg absPath reporter hrun h exec) tr (x, held, v, e) ->
  Resource h <> "" -> forall hh, hrun_held hrun = Some hh -> held = Some hh.
Proof.
  unfold execHook, hook_value. intros H Hr hh Hh. rewrite decide_False, Hh in H by done.
  inv_run H as r t1 H1. apply run_ret in H1 as [-> ->]. inv_run H as [exit e'] t2 H2. by inv_ret H.
Qed.

(** Whatever [on_error] says, a run of a release hook either ended its command with exit
    code 0, or recorded its failure. *)
Lemma runHookAs_release rec hrun h exec tr w e :
  run (runHookAs marshalRelease unmarshalRelease workdirHash cfg absPath reporter (Some rec) hrun h exec) tr (w, e) ->
  is_release hrun h = true ->
  (recorded rec tr = [] /\ w = None /\ e = None /\ exited_ok (hrun_exec hrun) tr) \/
  (exists held value er c, let f := failure_of hrun h exec held value er c in
     recorded rec tr = [f] /\ (forall hh, hrun_held hrun = Some hh -> held = Some hh) /\
     (c = true -> cancelled tr) /\ ends_by (exec_OnError exec) f tr w e).
Proof.
  unfold runHookAs. intros H Hrel. assert (Hres : Resource h <> "").
  { unfold is_release in Hrel. by apply andb_true_iff in Hrel as [?%bool_decide_eq_true _]. }
  inv_run H as [[[exit held] value] er] t1 H1.
  pose proof (execHook_held _ _ _ _ _ _ _ _ H1 Hres) as Hheld.
  pose proof (recorded_quiet _ rec True _ _ (execHook_acts None True I _ _ _) H1) as Hq1.
  destruct er as [er|].
  2:{ left. inv_run H as [] t2 H2. inv_ret H. apply reportHook_quiet with (rec := rec) in H2.
      rewrite app_nil_r, recorded_app, Hq1, H2. split_and!; try done. apply exited_ok_app; left. by apply execHook_ok in H1. }
  right. rewrite Hrel in H. inv_run H as [] t2 H2. inv_run H2 as c t3 H3. unfold record in H2. apply run_call in H2 as ->.
  set (er' := HookFailed (hook_Name h) (hrun_event hrun) (hr_Display (hrun_replica hrun)) er) in *.
  set (b := match c with Some _ => true | None => false end) in *.
  exists held, value, er', b. cbv zeta. set (f := failure_of hrun h exec held value er' b).
  inv_run H as c2 t4 H4.
  assert (Hc : b = true -> cancelled (t1 ++ ([Act CtxErr c] ++ [Act (RecordFailure rec f) ()]) ++ [Act CtxErr c2] ++ t4')).
  { unfold b. destruct c as [c|]; [|done]. intros _. apply cancelled_app; right. do 2 (apply cancelled_app; left).
    apply cancelled_call. }
  rewrite !recorded_app, Hq1. simpl. rewrite decide_True by done.
  enough (recorded rec t4' = [] /\ ends_by (exec_OnError exec) f
    (t1 ++ ([Act CtxErr c] ++ [Act (RecordFailure rec f) ()]) ++ [Act CtxErr c2] ++ t4') w e) as [-> ?] by done.
  unfold ends_by. destruct c2 as [c2|].
  { inv_run H as [] t5 H5. inv_ret H. apply reportHook_quiet with (rec := rec) in H5. rewrite app_nil_r.
    split; [done|]. left. split_and!; try done. left. do 2 (apply cancelled_app; right). apply cancelled_app; left.
    apply cancelled_call. }
  case_decide as Hon; [|case_decide as Hig].
  - inv_run H as [] t5 H5. inv_ret H. apply reportHook_quiet with (rec := rec) in H5. rewrite app_nil_r. tauto.
  - inv_run H as [] t5 H5. inv_run H as [] t6 H6. inv_ret H. apply reportHook_quiet with (rec := rec) in H5.
    inv_run H6 as y t7 H7. inv_ret H6.
    pose proof (recorded_quiet _ rec True _ _ (dropHolder_acts None True I _) H7) as Hq.
    rewrite !app_nil_r, recorded_app, H5, Hq. tauto.
  - inv_run H as [] t5 H5. inv_ret H. apply reportHook_quiet with (rec := rec) in H5. rewrite app_nil_r. tauto.
Qed.

Lemma clearStaleExecs_removes labels tr r id :
  run (clearStaleExecs labels) tr r -> removed_in tr id -> listed labels tr id.
Proof.
  unfold clearStaleExecs. intros H Hid. inv_run H as [entries|e] t1 H1.
  2:{ inv_ret H. destruct Hid as (? & ? & Hid). rewrite app_nil_r in Hid. by apply list_elem_of_singleton in Hid. }
  apply removed_in_app in Hid as [(? & ? & Hid)|Hid]; [by apply list_elem_of_singleton in Hid|].
  apply listed_app; left. exists entries. split; [left|]. clear -H Hid.
  revert t1' r H Hid. induction entries as [|e entries IH]; intros t r H Hid; simpl in H.
  { apply run_ret in H as [-> _]. destruct Hid as (? & ? & []%elem_of_nil). }
  inv_run H as x t1 H1. apply removed_in_app in Hid as [Hid|Hid].
  2:{ destruct x as [|er]; [|inv_ret H; by destruct Hid as (? & ? & []%elem_of_nil)].
      right. by eapply IH. }
  enough (id = ID e) as -> by left. clear IH H. unfold clear_exec in H1. inv_run H1 as [er|] t2 H2.
  { exfalso. inv_ret H1. rewrite app_nil_r in Hid. by eapply no_removal in Hid; [|apply (stopLiveIntermediate_acts None False)|]. }
  apply removed_in_app in Hid as [Hid|Hid].
  { exfalso. by eapply no_removal in Hid; [|apply (stopLiveIntermediate_acts None False)|]. }
  inv_run H1 as er t3 H3. unfold removeIntermediate in H3. inv_run H3 as y t4 H4. inv_ret H3.
  apply removed_in_app in Hid as [(f & z & Hid)|(f & z & Hid)].
  - rewrite app_nil_r in Hid. apply list_elem_of_singleton in Hid. by injection Hid.
  - exfalso. destruct (first_remove_err y); apply run_ret in H1 as [-> _]; by apply elem_of_nil in Hid.
Qed.

Lemma execHookValue_removes hrun h exec v tr r id :
  run (execHookValue marshalRelease workdirHash cfg absPath reporter hrun h exec v) tr r -> removed_in tr id ->
  listed (execLabels (hrun_replica hrun) (hook_Name h) (hrun_event hrun)) tr id \/ exited_ok (hrun_exec hrun) tr.
Proof.
  unfold execHookValue. intros H Hid. inv_run H as u t1 H1.
  apply removed_in_app in Hid as [Hid|Hid].
  { left. apply listed_app; left. by eapply clearStaleExecs_removes. }
  destruct u as [u|e]; [|inv_ret H; by destruct Hid as (? & ? & []%elem_of_nil)].
  inv_run H as c t2 H2. apply removed_in_app in Hid as [(? & ? & Hid)|Hid]; [by apply list_elem_of_singleton in Hid|].
  destruct c as [cid|e]; [|inv_ret H; by destruct Hid as (? & ? & []%elem_of_nil)].
  inv_run H as [] t3 H3. apply removed_in_app in Hid as [Hid|Hid].
  { exfalso. by eapply no_removal in Hid; [|apply (reportHook_acts None False)|]. }
  inv_run H as [exit [e|]] t4 H4; apply removed_in_app in Hid as [Hid|Hid].
  1,3: exfalso; by eapply no_removal in Hid; [|apply (runExec_acts None False)|].
  - inv_ret H. by destruct Hid as (? & ? & []%elem_of_nil).
  - right. do 3 (apply exited_ok_app; right). apply exited_ok_app; left. by apply runExec_ok in H4.
Qed.

(** A value is dropped, by removing its holder, only once the release worked, or failed
    under [on_error] ignore: the only other commands that a run removes are the exec
    commands that earlier runs left. *)
Lemma runHookAs_removes ctx hrun h exec tr r id :
  run (runHookAs marshalRelease unmarshalRelease workdirHash cfg absPath reporter ctx hrun h exec) tr r ->
  removed_in tr id ->
  listed (execLabels (hrun_replica hrun) (hook_Name h) (hrun_event hrun)) tr id \/ exited_ok (hrun_exec hrun) tr \/
  (is_release hrun h = true /\ resolved (exec_OnError exec) = OnErrorIgnore /\ Act CtxErr None ∈ tr).
Proof.
  unfold runHookAs. intros H Hid. inv_run H as [[[exit held] value] er] t1 H1.
  apply removed_in_app in Hid as [Hid|Hid].
  { unfold execHook in H1. inv_run H1 as f t2 H2. apply removed_in_app in Hid as [Hid|Hid].
    { exfalso. by eapply no_removal in Hid; [|apply (hook_value_acts None False)|]. }
    destruct f as [[hh v]|e]; [|inv_ret H1; by destruct Hid as (? & ? & []%elem_of_nil)].
    inv_run H1 as [x e] t3 H3. inv_ret H1. rewrite app_nil_r in Hid.
    destruct (execHookValue_removes _ _ _ _ _ _ _ H3 Hid) as [Hl|Hok].
    - left. apply listed_app; left. apply listed_app; right. apply listed_app; by left.
    - right; left. apply exited_ok_app; left. apply exited_ok_app; right. apply exited_ok_app; by left. }
  destruct er as [er|].
  2:{ exfalso. inv_run H as [] t2 H2. inv_ret H. rewrite app_nil_r in Hid.
      by eapply no_removal in Hid; [|apply (reportHook_acts None False)|]. }
  inv_run H as [] t2 H2. apply removed_in_app in Hid as [Hid|Hid].
  { exfalso. eapply no_removal in Hid; [done| |exact H2].
    apply always_if; [|apply always_ret]. apply always_bind; [by apply always_call|].
    intros. apply (record_acts _ False). }
  inv_run H as c t3 H3. apply removed_in_app in Hid as [(? & ? & Hid)|Hid]; [by apply list_elem_of_singleton in Hid|].
  destruct c as [c|].
  { exfalso. inv_run H as [] t5 H5. inv_ret H. rewrite app_nil_r in Hid.
    by eapply no_removal in Hid; [|apply (reportHook_acts None False)|]. }
  case_decide as Hon; [|case_decide as Hig].
  1,3: exfalso; inv_run H as [] t5 H5; inv_ret H; rewrite app_nil_r in Hid;
    by eapply no_removal in Hid; [|apply (reportHook_acts None False)|].
  inv_run H as [] t5 H5. apply removed_in_app in Hid as [Hid|Hid].
  { exfalso. by eapply no_removal in Hid; [|apply (reportHook_acts None False)|]. }
  right; right. destruct (is_release hrun h).
  - split_and!; [done|done|]. set_solver.
  - exfalso. inv_run H as [] t6 H6. inv_ret H6. inv_ret H. by destruct Hid as (? & ? & []%elem_of_nil).
Qed.

(** ** What force does *)

Lemma runHookAs_error ctx hrun h exec tr w e :
  run (runHookAs marshalRelease unmarshalRelease workdirHash cfg absPath reporter ctx hrun h exec) tr (w, Some e) ->
  cancelled tr \/ (resolved (exec_OnError exec) <> OnErrorContinue /\ resolved (exec_OnError exec) <> OnErrorIgnore).
Proof.
  unfold runHookAs. intros H. inv_run H as [[[exit held] value] [er|]] t1 H1; [|inv_run H as [] t2 H2; by inv_ret H].
  inv_run H as [] t2 H2. inv_run H as [c|] t3 H3.
  { left. do 2 (apply cancelled_app; right). apply cancelled_app; left. apply cancelled_call. }
  case_decide as Hon; [inv_run H as [] t5 H5; by inv_ret H|]. case_decide as Hig; [|by right].
  inv_run H as [] t5 H5. inv_run H as [] t6 H6. by inv_ret H.
Qed.

(** The [on_error] of every event is one the code knows. *)
Definition on_errors_ok (hooks : list LifecycleHook) : Prop :=
  forall h ev exec, h ∈ hooks -> Events h !! ev = Some exec -> OnError_Validate (exec_OnError exec) = true.

Lemma forced_on_error hooks h ev exec :
  on_errors_ok hooks -> h ∈ forcedHooks hooks -> Events h !! ev = Some exec ->
  resolved (exec_OnError exec) = OnErrorContinue \/ resolved (exec_OnError exec) = OnErrorIgnore.
Proof.
  intros Hok Hh Hev. apply list_elem_of_fmap in Hh as (h0 & -> & Hin). simpl in Hev.
  apply lookup_fmap_Some in Hev as (exec0 & <- & Hev). specialize (Hok h0 ev exec0 Hin Hev).
  case_decide as Hd; [by left|]. unfold OnError_Validate in Hok. unfold resolved in *.
  repeat (apply orb_true_iff in Hok as [Hok|Hok]); apply bool_decide_eq_true in Hok; rewrite Hok in *;
    first [exfalso; apply Hd; reflexivity|by left|by right].
Qed.

(** Under force no hook fails an event, short of a cancellation. *)
Lemma forced_event ctx r hooks ev tr ws e :
  on_errors_ok hooks ->
  run (runLifecycleEvent marshalRelease unmarshalRelease workdirHash cfg absPath reporter ctx r (forcedHooks hooks) ev)
    tr (ws, Some e) -> cancelled tr.
Proof.
  intros Hok. assert (Hall : forall h exec, h ∈ forcedHooks hooks -> Events h !! ev = Some exec ->
    resolved (exec_OnError exec) = OnErrorContinue \/ resolved (exec_OnError exec) = OnErrorIgnore).
  { intros h exec. by apply forced_on_error. }
  clear Hok. revert tr ws. induction (forcedHooks hooks) as [|h hs IH]; intros tr ws H; simpl in H; [by apply run_ret in H as [_ ?]|].
  assert (IH' : forall tr ws, run (runLifecycleEvent marshalRelease unmarshalRelease workdirHash cfg absPath reporter ctx r hs ev)
    tr (ws, Some e) -> cancelled tr).
  { apply IH. intros. apply (Hall h0); [by right|done]. }
  destruct (Events h !! ev) as [exec|] eqn:Hev; [|by eapply IH'].
  inv_run H as [w [e'|]] t1 H1.
  - inv_ret H. apply cancelled_app; left. apply runHookAs_error in H1 as [?|[H1 H2]]; [done|].
    destruct (Hall h exec) as [?|?]; [left|done|done|done].
  - inv_run H as [ws' e'] t2 H2. inv_ret H. apply cancelled_app; right. apply cancelled_app; left. by eapply IH'.
Qed.
End Calls.
