(* ===== verification/HookTheorems.v ===== *)
(** * What hooks promise

    The contracts of the hook runner as one theorem each: what a release run leaves, that
    a stored release is the release its hook would have run, that a holder is read back
    as it was written, and that the value of a resource is what the hook printed. *)

From S2P Require Import Prelude GoStr LogDriver Model Prog ComposeSpec Naming Lifecycle Plan HookData HookOutput ComposeSvc HookRunner HookSteps HookProps.

(** ** Releases *)

Section Release.
Context (marshalRelease : resourceRelease -> result err string)
        (unmarshalRelease : string -> result err resourceRelease)
        (unmarshalHooks : string -> result string (list LifecycleHook))
        (workdirHash : string -> string) (cfg : CmdmanConfig) (absPath : string -> option string) (reporter : bool).

(** C7: a run of a release hook either ended its command with exit code 0, reporting and
    recording nothing, or recorded exactly its failure, with the holder it knew, and
    ended by its [on_error]; and the commands it removed, a resource's value among them,
    are those that earlier runs left, unless the command ended with exit code 0 or the
    failure is ignored. *)
Theorem release_run_guarantee rec hrun h exec tr w e :
  run (runHookAs marshalRelease unmarshalRelease workdirHash cfg absPath reporter (Some rec) hrun h exec) tr (w, e) ->
  is_release hrun h = true ->
  ((recorded rec tr = [] /\ w = None /\ e = None /\ exited_ok (hrun_exec hrun) tr) \/
   (exists held value er c, let f := failure_of hrun h exec held value er c in
      recorded rec tr = [f] /\ (forall hh, hrun_held hrun = Some hh -> held = Some hh) /\
      (c = true -> cancelled tr) /\ ends_by (exec_OnError exec) f tr w e)) /\
  (forall id, removed_in tr id ->
     listed (execLabels (hrun_replica hrun) (hook_Name h) (hrun_event hrun)) tr id \/ exited_ok (hrun_exec hrun) tr \/
     (resolved (exec_OnError exec) = OnErrorIgnore /\ Act CtxErr None ∈ tr)).
Proof.
  intros H Hrel. split.
  - by apply (runHookAs_release _ _ unmarshalHooks) in H.
  - intros id Hid. destruct (runHookAs_removes _ _ unmarshalHooks _ _ _ _ _ _ _ _ _ _ _ H Hid) as [?|[?|(_ & ? & ?)]]; tauto.
Qed.
End Release.

(** ** A stored release *)

Lemma envValue_app a b key :
  envValue (a ++ b) key = match envValue b key with Some v => Some v | None => envValue a key end.
Proof.
  unfold envValue. rewrite rev_app_distr, omap_app. by destruct (omap _ (rev b)).
Qed.

Lemma envValue_entry k v key :
  string_forallb (fun c => negb (bool_decide (c = "="%char))) k = true ->
  envValue [env_entry k v] key = if decide (k = key) then Some v else None.
Proof.
  intros Hk. unfold envValue, env_entry. simpl. rewrite cut_found by done. simpl. by case_bool_decide as Hd; [rewrite decide_True|rewrite decide_False].
Qed.

(** The variables that cmdman sets for a hook. *)
Lemma hookEnv_values workdirHash cfg absPath r h ev env :
  envValue (env ++ hookEnv workdirHash cfg absPath r h ev) ENV_CMDMAN_COMPOSE_HOOK_NAME = Some (hook_Name h) /\
  envValue (env ++ hookEnv workdirHash cfg absPath r h ev) "CMDMAN_COMPOSE_SCALE" = Some (Itoa (Z.max (hr_Scale r) 1)).
Proof.
  rewrite !envValue_app. unfold hookEnv.
  assert (Hcons : forall k v l key, string_forallb (fun c => negb (bool_decide (c = "="%char))) k = true ->
    envValue (env_entry k v :: l) key =
      match envValue l key with Some v => Some v | None => if decide (k = key) then Some v else None end).
  { intros k v l key Hk. rewrite <- (envValue_entry k v key Hk). apply (envValue_app [_]). }
  rewrite !envValue_app, !Hcons by done. simpl.
  change (composeContextEnv ?h ?p ?w ?c ?i ?s) with
    [env_entry "CMDMAN_COMPOSE_SCALE_INDEX" (Itoa i); env_entry "CMDMAN_COMPOSE_SCALE" (Itoa (Z.max s 1));
     env_entry "CMDMAN_COMPOSE_WORK_DIR" w; env_entry "CMDMAN_COMPOSE_WORK_DIR_HASH" (h w);
     env_entry "CMDMAN_COMPOSE_PROJECT" p; env_entry "CMDMAN_COMPOSE_COMMAND" c].
  rewrite !Hcons by done. destruct (decide (Resource h = "")), (decide (ConfigPath cfg = "")); rewrite ?Hcons by done; done.
Qed.

(** A value of a release event with the fields of a hook. *)
Lemma hookRelease_event h acquire rel :
  hookRelease h acquire = Some rel ->
  exists exec, Events h !! rel_Event rel = Some exec /\ rel_Args rel = exec_Args exec /\
    rel_OnError rel = resolved (exec_OnError exec).
Proof.
  unfold hookRelease. intros H. apply head_Some_elem_of, list_elem_of_omap in H as (ev & _ & H).
  apply fmap_Some in H as (exec & Hev & ->). by exists exec.
Qed.

(** C8: releasing from what is stored runs the command that the hook itself would run for
    its release: under the same name and labels, for the same replica, in the same
    directory, with the same arguments and [on_error], and in the same environment up to
    a repeated entry. *)
Theorem stored_release_is_the_hooks workdirHash cfg absPath r h acquire name exec held v rel :
  hook_Name h <> "" -> Resource h <> "" -> (0 < hr_Scale r)%Z -> in_int64 (hr_Scale r) ->
  hookRelease h acquire = Some rel ->
  let own := {| hrun_replica := r; hrun_hook := hook_Name h; hrun_event := rel_Event rel;
                hrun_exec := ExecCommandName (hr_Name r) (hook_Name h) (rel_Event rel);
                hrun_env := hr_Env r ++ hookEnv workdirHash cfg absPath r h (rel_Event rel); hrun_held := None |} in
  let holder := acquired workdirHash cfg absPath
                  {| hrun_replica := r; hrun_hook := name; hrun_event := acquire; hrun_exec := exec;
                     hrun_env := []; hrun_held := held |} h v in
  let stored := release_run holder rel in
  h_Release holder = Some rel /\ h_Value holder = v /\ h_Ref holder = ref_of r (Resource h) /\
  hrun_hook stored = hrun_hook own /\ hrun_event stored = hrun_event own /\ hrun_exec stored = hrun_exec own /\
  (let r' := hrun_replica stored in
   hr_Name r' = hr_Name r /\ hr_Dir r' = hr_Dir r /\ hr_Scale r' = hr_Scale r /\
   execLabels r' (hrun_hook stored) (hrun_event stored) = execLabels r (hook_Name h) (rel_Event rel)) /\
  (exists entry, hrun_env stored = hrun_env own ++ [entry] /\ entry ∈ hrun_env own) /\
  (exists e1 e2, Events h !! rel_Event rel = Some e1 /\
     Events (release_hook holder rel false) !! rel_Event rel = Some e2 /\
     exec_Args e2 = exec_Args e1 /\ resolved (exec_OnError e2) = resolved (exec_OnError e1)).
Proof.
  intros Hname Hres Hscale H64 Hrel own holder stored.
  assert (Hholder : h_Release holder = Some rel) by done.
  assert (Henv : h_Env holder = hrun_env own) by (unfold holder, acquired; simpl; by rewrite Hrel).
  destruct (hookEnv_values workdirHash cfg absPath r h (rel_Event rel) (hr_Env r)) as [Hn Hs].
  assert (Hhn : hookName holder = hook_Name h).
  { unfold hookName. rewrite Henv. simpl. rewrite Hn. by rewrite decide_False. }
  assert (Hsc : hr_Scale (holder_replica holder) = hr_Scale r).
  { unfold holder_replica. simpl. rewrite Hrel. rewrite Hs. simpl. rewrite Z.max_l by lia. rewrite Atoi_Itoa by done.
    case_decide; lia. }
  split_and!; try done.
  - by simpl; rewrite Hhn.
  - unfold execLabels. by simpl; rewrite Hhn.
  - exists (env_entry ENV_CMDMAN_COMPOSE_RESOURCE_KEY (Resource h)). split; [by rewrite <- Henv|].
    simpl. unfold hookEnv. rewrite decide_False by done. set_solver.
  - destruct (hookRelease_event _ _ _ Hrel) as (e1 & H1 & Ha & Ho). exists e1, (MkExec (rel_Args rel) (rel_OnError rel)).
    split_and!; [done| |done|].
    + unfold release_hook. simpl. apply lookup_singleton_eq.
    + simpl. rewrite Ho. unfold resolved. by repeat case_decide.
Qed.

(** ** Holders and values *)

(** A holder that the service stores is found by its resource's reference, and by no
    other, and decodes to itself: its release, directory and environment are those it was
    written with. *)
Theorem holder_roundtrip mR uR h req e r :
  (forall rel s, mR rel = Ok s -> s <> "" /\ uR s = Ok rel) ->
  in_int64 (rref_ScaleIndex (h_Ref h)) ->
  holder_createRequest mR h = Ok req -> stored_for req e ->
  decodeHolder uR e = Ok h /\ (has_labels (selector r) e <-> r = h_Ref h).
Proof.
  intros Hcodec Hi Hreq Hst. split; [by eapply decodeHolder_stored|].
  destruct Hst as (_ & cfg & Hcfg & Hl & _). apply result_bind_ok in Hreq as (labels & Hlab & [= <-]). simpl in Hl. subst labels.
  rewrite <- (selector_holder _ _ _ _ Hlab). unfold has_labels. naive_solver.
Qed.

(** What a log has of the chunks a command wrote, each with its time and stream. *)
Definition records_of (chunks : list (Z * Stream * list Z)) : list LogLine :=
  chunks ≫= fun c => SplitLogLines c.1.1 c.1.2 c.2.

Lemma SplitLogLines_record_ok ts st p : Forall record_ok (SplitLogLines ts st p) /\
  concat (Line <$> SplitLogLines ts st p) = p /\ Forall (fun l => stream l = st) (SplitLogLines ts st p).
Proof.
  destruct (split_loop_spec (length p) ts st p (le_n _)) as (Hc & Hf & _). split_and!; [|exact Hc|].
  - eapply Forall_impl; [exact Hf|]. intros l (_ & _ & Hl). unfold record_ok. by destruct (Partial l); [destruct Hl|].
  - eapply Forall_impl; [exact Hf|]. by intros l (_ & ? & _).
Qed.

Lemma stdout_of_chunks chunks :
  stdout_bytes (records_of chunks) = concat ((fun c => c.2) <$> filter (fun c => c.1.2 = StreamStdout) chunks).
Proof.
  induction chunks as [|[[ts st] p] chunks IH]; [done|].
  change (records_of _) with (SplitLogLines ts st p ++ records_of chunks). unfold stdout_bytes in *.
  rewrite filter_app, fmap_app, concat_app, IH, filter_cons. simpl.
  destruct (SplitLogLines_record_ok ts st p) as (_ & Hc & Hs). case_decide as Hst; simpl.
  - f_equal. rewrite <- Hc at 2. f_equal. f_equal. clear Hc.
    induction Hs as [|l ls Hl _ IHs]; [done|]. rewrite filter_cons_True by congruence. by rewrite IHs.
  - replace (filter _ (SplitLogLines ts st p)) with (@nil LogLine); [done|]. symmetry.
    clear -Hs Hst. induction Hs as [|l ls Hl _ IH]; [done|]. rewrite filter_cons_False by congruence. done.
Qed.

(** The value recorded for a resource is the last line of the acquiring command's
    standard output that is not blank, trimmed: it does not depend on how the output was
    cut into writes, nor on what was written to standard error in between. *)
Theorem value_independent_of_chunks {Er} chunks :
  value_of_records (@Ok Er LogLine <$> records_of chunks) =
  Ok (resourceValue (text_lines [] (concat ((fun c => c.2) <$> filter (fun c => c.1.2 = StreamStdout) chunks)))).
Proof.
  rewrite value_of_records_lines, stdout_of_chunks; [done|]. apply Forall_bind, Forall_forall. intros c _.
  apply SplitLogLines_record_ok.
Qed.

(** ** Witnesses *)

Definition web_replica : hookReplica := {|
  hr_Project := "p"; hr_WorkDir := "/w"; hr_Command := "web"; hr_ScaleIndex := 2; hr_Scale := 3; hr_Name := "web-2";
  hr_Display := "web-2"; hr_Dir := "/srv"; hr_Env := ["PATH=/bin"; "CMDMAN_COMPOSE_SCALE=9"] |}.

Definition port_hook : LifecycleHook :=
  MkLifecycleHook "port" "tcp" {[LifecycleStartPre := MkExec ["take"] ""; LifecycleStopPost := MkExec ["give"; "back"] ""]}.

Definition web_cfg : CmdmanConfig :=
  {| DataDir := "/data"; RuntimeDir := "/run"; ConfigPath := "c.toml"; DefaultWorkingDir := "/"; DefaultEnvironment := [] |}.

Definition give_back : hookRun := {|
  hrun_replica := web_replica; hrun_hook := "port"; hrun_event := LifecycleStopPost;
  hrun_exec := ExecCommandName "web-2" "port" LifecycleStopPost; hrun_env := ["PATH=/bin"]; hrun_held := None |}.

(** The release command exits with code 1. *)
Lemma release_run_guarantee_witness :
  exists tr w e f,
    run (runHookAs (fun _ => Err (Opaque "")) (fun _ => Err (Opaque "")) (fun w => w) web_cfg Some true
           (Some DownRecorder) give_back port_hook (MkExec ["give"; "back"] OnErrorContinue)) tr (w, e) /\
    is_release give_back port_hook = true /\ recorded DownRecorder tr = [f] /\ w = Some (fr_err f).
Proof.
  destruct (ran_check (plain_svc (fun _ => []) 1)
    (runHookAs (fun _ => Err (Opaque "")) (fun _ => Err (Opaque "")) (fun w => w) web_cfg Some true
       (Some DownRecorder) give_back port_hook (MkExec ["give"; "back"] OnErrorContinue))
    (fun r tr => bool_decide (is_Some r.1)))
    as ([w e] & tr & Hr & _ & Hc%bool_decide_eq_true); [vm_compute; reflexivity|].
  destruct (release_run_guarantee _ _ (fun _ => Ok []) _ _ _ _ _ _ _ _ _ _ _ Hr eq_refl) as [H _]. simpl in Hc.
  destruct H as [(_ & -> & _)|(held & value & er & c & Hrec & _ & _ & Hend)]; [by destruct Hc|].
  exists tr, w, e. eexists. split_and!; [exact Hr|reflexivity|exact Hrec|].
  destruct Hend as [(-> & _)|[(-> & _)|(-> & _)]]; [by destruct Hc|done|by destruct Hc].
Defined.

Lemma stored_release_is_the_hooks_witness :
  exists rel, hookRelease port_hook LifecycleStartPre = Some rel /\ hook_Name port_hook <> "" /\ in_int64 (hr_Scale web_replica) /\
    let holder := acquired (fun w => w) web_cfg Some
      {| hrun_replica := web_replica; hrun_hook := "port"; hrun_event := LifecycleStartPre; hrun_exec := "x";
         hrun_env := []; hrun_held := None |} port_hook "8080" in
    h_Release holder = Some rel /\ hrun_exec (release_run holder rel) = ExecCommandName "web-2" "port" LifecycleStopPost.
Proof.
  eexists. split; [reflexivity|]. split; [done|]. split; [done|]. cbv zeta.
  edestruct (stored_release_is_the_hooks (fun w => w) web_cfg Some web_replica port_hook LifecycleStartPre "port" "x" None "8080")
    as (H1 & _ & _ & _ & _ & H2 & _); [done|done|done|done|reflexivity|]. split; [exact H1|exact H2].
Defined.

(** A codec for one release. *)
Definition give_back_release : resourceRelease :=
  {| rel_Event := LifecycleStopPost; rel_Args := ["give"; "back"]; rel_OnError := OnErrorFail |}.

Definition port_holder : resourceHolder := {|
  h_Ref := ref_of web_replica "tcp"; h_Owner := "web-2"; h_Value := "8080"; h_Release := Some give_back_release;
  h_Dir := "/srv"; h_Env := ["PATH=/bin"] |}.

#[export] Instance resourceRelease_eq_dec : EqDecision resourceRelease.
Proof. solve_decision. Defined.

Definition one_codec (rel : resourceRelease) : result err string :=
  if decide (rel = give_back_release) then Ok "{}" else Err (Opaque "").

Lemma holder_roundtrip_witness :
  exists req e, holder_createRequest one_codec port_holder = Ok req /\ stored_for req e /\
    decodeHolder (fun _ => Ok give_back_release) e = Ok port_holder.
Proof.
  destruct (holder_createRequest one_codec port_holder) as [req|er] eqn:Hreq; [|exfalso; vm_compute in Hreq; discriminate Hreq].
  set (cfg := {| Argv := []; cc_Dir := cr_Dir req; cc_Env := cr_Env req; cc_InjectEnv := false; cc_RestartPolicy := "";
     cc_MaxRetries := 0; cc_StopSignal := ""; StopTimeout := None; cc_StopCommand := None; cc_Tty := false;
     cc_ScrollbackBytes := 0; cc_LogDriver := ""; cc_LogOpts := ∅; Labels := cr_Labels req; Annotations := ∅;
     cc_Hooks := ∅; CommandDir := "" |}).
  exists req, {| ID := "1"; entry_Name := cr_Name req; CreatedAt := ""; entry_State := EventTypeExited; ExitCode := None;
                 ConfigJSON := Some cfg; StateJSON := None |}.
  assert (Hst : stored_for req {| ID := "1"; entry_Name := cr_Name req; CreatedAt := ""; entry_State := EventTypeExited;
                 ExitCode := None; ConfigJSON := Some cfg; StateJSON := None |}) by (split; [done|by exists cfg]).
  split; [done|]. split; [exact Hst|].
  apply (holder_roundtrip one_codec (fun _ => Ok give_back_release) port_holder req _ (h_Ref port_holder)); [|done|done|exact Hst].
  intros rel s. unfold one_codec. case_decide as Hd; [intros [= <-]; by subst|done].
Defined.
