(* ===== verification/Down.v ===== *)
(** * Tearing a project down

    [cmdman/compose/service_down.go], the concurrent stops of [service_stop.go] and the
    stop walk of [service_reconcile.go] with the stops it makes.  [Down] is a program over
    the calls of [ComposeSvc.v]; the stop walk is a part of it whose runs are those of
    [Service.reconcileStop] with the runs of the replica stops interleaved. *)

From S2P Require Import Reconcile Walk Service Prelude GoStr LogDriver Model Prog ComposeSpec Naming Lifecycle Graph Targets Plan HookData HookOutput ComposeSvc HookRunner HookSteps.

(* src/cmdman/compose/service_down.go:49-56 RemoveOutcome *)
Record RemoveOutcome := { ro_Command : string; ro_Err : option err }.

(* src/cmdman/compose/service_down.go:62-87 ReleaseOutcome *)
Record ReleaseOutcome := {
  rl_Holder : string;
  rl_Command : string;
  rl_Resource : string;
  rl_Value : string;
  rl_Err : option err;
  rl_Warning : option err;
  rl_Retried : bool;
}.

(* src/cmdman/compose/service_down.go:37-47 DownResult *)
Record DownResult := {
  dr_Stops : list StopOutcome;
  dr_Removes : list RemoveOutcome;
  dr_Releases : list ReleaseOutcome;
}.

(* src/cmdman/compose/service_down.go:19-35 DownOption *)
Record DownOption := { do_Targets : list Target; do_Force : bool; do_Timeout : option Duration }.

(* src/cmdman/compose/selection.go:18-29 ProjectSelection *)
Record ProjectSelection := { sel_Spec : option ComposeSpec; sel_WorkDir : string; sel_Project : string }.

(* src/cmdman/compose/selection.go:372-382 projectLabels *)
Definition projectLabels (workDir project : string) : gmap string string :=
  let labels := {[LabelWorkdir := workDir]} in
  if decide (project = "") then labels else <[LabelProject := project]> labels.

(** ** Pure parts *)

(* src/cmdman/monitor/mon_clean.go:87-93 DiedUnexpectedly *)
Definition DiedUnexpectedly (state : option CommandState) : bool :=
  match state with Some st => bool_decide (cs_Error st = "monitor died unexpectedly") | None => false end.

(* src/cmdman/compose/service_down.go:421-434 verifiedStopped *)
Definition verifiedStopped (e : CommandEntry) : bool :=
  if decide (entry_State e = EventTypeExited) then true
  else if decide (entry_State e = EventTypeFailed) then negb (DiedUnexpectedly (StateJSON e))
  else false.

(* src/cmdman/compose/service_stop.go:166-174 checkStopTimeout *)
Definition checkStopTimeout (timeout : option Duration) : option err :=
  match timeout with
  | Some d => if decide (d <= 0)%Z then Some (BadStopTimeout d) else None
  | None => None
  end.

(** The loop, with the project seen first. *)
(* src/cmdman/compose/service_down.go:503-517 spansMultipleProjects *)
Fixpoint spans_from (first : option string) (entries : list CommandEntry) : bool :=
  match entries with
  | [] => false
  | e :: entries =>
    match ConfigJSON e with
    | None => spans_from first entries
    | Some cfg =>
      let project := label (Labels cfg) LabelProject in
      match first with
      | None => spans_from (Some project) entries
      | Some p => if decide (project = p) then spans_from first entries else true
      end
    end
  end.

(* src/cmdman/compose/service_down.go:489-518 spansMultipleProjects *)
Definition spansMultipleProjects (entries : list CommandEntry) : bool := spans_from None entries.

(* src/cmdman/compose/service_down.go:520-530 runningEntries *)
Definition runningEntries (entries : list CommandEntry) : list CommandEntry :=
  filter (fun e => entry_live e = true) entries.

(** The entries the spec does not declare. *)
(* src/cmdman/compose/service_down.go:542-554 Service.stopOrphans *)
Definition orphans_of (spec : ComposeSpec) (entries : list CommandEntry) : list CommandEntry :=
  filter (fun e => is_Some (ConfigJSON e) /\ commandNameOf e ∉ command_names (Commands spec)) (runningEntries entries).

(* src/cmdman/compose/service_down.go:561-574 filterEntriesInClosure *)
Definition filterEntriesInClosure (entries : list CommandEntry) (closure : gset string) : list CommandEntry :=
  filter (fun e => is_Some (ConfigJSON e) /\ commandNameOf e ∈ closure) entries.

(** A holder recorded more than once in a row, as its last record has it. *)
(* src/cmdman/compose/service_down.go:348-355 Service.retryReleases *)
Definition keep_last (l : list failedRelease) : list failedRelease :=
  foldl (fun failed f =>
    match last failed with
    | Some g => if decide (holder_name (fr_holder g) = holder_name (fr_holder f))
                then take (length failed - 1) failed ++ [f] else failed ++ [f]
    | None => failed ++ [f]
    end) [] l.

(** The outcomes, where each holder's outcome is, and the holders in the order their
    first failure comes up. *)
Record unreleased := {
  un_outcomes : list ReleaseOutcome;
  un_at : gmap string nat;
  un_order : list string;
}.

(* src/cmdman/compose/service_down.go:444-449 Service.addUnreleased *)
Definition un_init (outcomes : list ReleaseOutcome) : unreleased := {|
  un_outcomes := outcomes;
  un_at := foldl (fun at_ io => if decide (rl_Holder io.2 = "") then at_ else <[rl_Holder io.2 := io.1]> at_) ∅
             (imap pair outcomes);
  un_order := [] |}.

(* src/cmdman/compose/service_down.go:461-469 Service.addUnreleased *)
Definition fill (name : string) (f : failedRelease) : ReleaseOutcome := {|
  rl_Holder := name; rl_Command := fr_display f; rl_Resource := rref_Key (h_Ref (fr_holder f));
  rl_Value := h_Value (fr_holder f); rl_Err := if fails f then Some (fr_err f) else None;
  rl_Warning := if fails f then None else Some (fr_err f); rl_Retried := fr_retried f |}.

(* src/cmdman/compose/service_down.go:453-474 Service.addUnreleased *)
Definition un_add (st : unreleased) (f : failedRelease) : unreleased :=
  let name := holder_name (fr_holder f) in
  let '(outcomes, at_, i) :=
    match un_at st !! name with
    | Some i => (un_outcomes st, un_at st, i)
    | None => (un_outcomes st ++ [fill name f], <[name := length (un_outcomes st)]> (un_at st), length (un_outcomes st))
    end in
  {| un_outcomes := <[i := fill name f]> outcomes; un_at := at_;
     un_order := if decide (name ∈ un_order st) then un_order st else un_order st ++ [name] |}.

(** What the loops of [addUnreleased] make of the outcomes, and the outcomes it then
    reports, in order. *)
(* src/cmdman/compose/service_down.go:440-487 Service.addUnreleased *)
Definition add_unreleased (outcomes : list ReleaseOutcome) (failed : list failedRelease)
  : list ReleaseOutcome * list ReleaseOutcome :=
  let st := foldl un_add (un_init outcomes) failed in
  (un_outcomes st, omap (fun name => un_at st !! name ≫= fun i => un_outcomes st !! i) (un_order st)).

(** The list in another order. *)
Definition reorder {A} (order : list nat) (l : list A) : list A := omap (fun i => l !! i) order.

Section Down.
Context (marshalRelease : resourceRelease -> result err string)
        (unmarshalRelease : string -> result err resourceRelease)
        (unmarshalHooks : string -> result string (list LifecycleHook))
        (unmarshalAfter : string -> result string (list AfterSpec))
        (workdirHash : string -> string)
        (cfg : CmdmanConfig)
        (absPath : string -> option string)
        (reporter limited : bool)
        (errText : err -> string).  (* the text of an error *)

Notation say := (report reporter).
Notation release_of := (runRelease marshalRelease unmarshalRelease workdirHash cfg absPath reporter).
Notation stop_of := (teardownStop marshalRelease unmarshalRelease unmarshalHooks workdirHash cfg absPath reporter limited).
Notation remove_of := (teardownRemove marshalRelease unmarshalRelease unmarshalHooks workdirHash cfg absPath reporter).

(** ** Concurrent stops and removals *)

(* src/cmdman/compose/event.go:160-169 Service.reportStopped *)
Definition reportStopped (command : string) (exit : option Z) (forceKilled : bool) : cprog unit :=
  reportEvent reporter {|
    ev_Command := command; ev_Phase := PhaseStopped; ev_Err := None; ev_ExitCode := exit;
    ev_ForceKilled := forceKilled; ev_ScaleIndex := 0; ev_Hook := ""; ev_Lifecycle := ""; ev_Exec := "";
    ev_Stream := ""; ev_Line := []; ev_Resource := ""; ev_Value := ""; ev_Retried := false |}.

(** Runs the programs of an error group whose results are appended as they come in. *)
Definition group {A} (ps : list (cprog A)) : cprog (list A) :=
  rs ← par_list ps; order ← call (EndOrder (length rs)); mret (reorder order rs).

(** An error as the outcomes of the walk carry it. *)
Definition reason_of (e : err) : reason := ActionError (errText e).

(* src/cmdman/compose/service_stop.go:137-161 stopAllConcurrent *)
Definition stop_entry (ctx : option recorder) (force : bool) (timeout : option Duration) (e : CommandEntry)
  : cprog StopOutcome :=
  let name := entryDisplayName e in
  _ ← say name PhaseStopping None None;
  '(forceKilled, er) ← stop_of ctx force timeout e;
  match er with
  | Some er =>
    _ ← say name PhaseError (Some (StopCommand name (ID e) er)) None;
    mret {| st_Command := name; st_Err := Some (StopFailed name (ID e) (reason_of er)); st_ForceKilled := forceKilled |}
  | None =>
    _ ← reportStopped name None forceKilled;
    mret {| st_Command := name; st_Err := None; st_ForceKilled := forceKilled |}
  end.

(* src/cmdman/compose/service_stop.go:119-164 stopAllConcurrent *)
Definition stopAllConcurrent (ctx : option recorder) (force : bool) (timeout : option Duration)
    (entries : list CommandEntry) : cprog (list StopOutcome) :=
  group (map (stop_entry ctx force timeout) entries).

(* src/cmdman/compose/service_down.go:532-559 Service.stopOrphans *)
Definition stopOrphans (ctx : option recorder) (force : bool) (timeout : option Duration)
    (entries : list CommandEntry) (spec : ComposeSpec) : cprog (list StopOutcome) :=
  match orphans_of spec entries with
  | [] => mret []
  | orphans => stopAllConcurrent ctx force timeout orphans
  end.

(* src/cmdman/compose/service_down.go:597-623 removeAllConcurrent *)
Definition remove_entry (ctx : option recorder) (force : bool) (e : CommandEntry) : cprog RemoveOutcome :=
  let name := entryDisplayName e in
  kept ← call (KeptBy (ID e));
  match kept with
  | Some k =>
    let er := RemoveCommand name (ID e) (ReplicaKept k) in
    _ ← say name PhaseSkipped (Some er) None;
    mret {| ro_Command := name; ro_Err := Some er |}
  | None =>
    _ ← say name PhaseRemoving None None;
    removed ← remove_of ctx force e;
    match removed with
    | Some er =>
      let er := RemoveCommand name (ID e) er in
      _ ← say name PhaseError (Some er) None;
      mret {| ro_Command := name; ro_Err := Some er |}
    | None => _ ← say name PhaseRemoved None None; mret {| ro_Command := name; ro_Err := None |}
    end
  end.

(* src/cmdman/compose/service_down.go:576-627 removeAllConcurrent *)
Definition removeAllConcurrent (ctx : option recorder) (force : bool) (entries : list CommandEntry)
  : cprog (list RemoveOutcome) :=
  group (map (remove_entry ctx force) entries).

(** ** The stop walk *)

(* src/cmdman/compose/event.go:181-197 Service.reportReplicas *)
Definition reportReplicas (cmd : Command) (scaleIndices : list Z) (phase : Phase) (e : option err) (exit : option Z)
  : cprog unit :=
  for_each (fun idx => say (instanceDisplayName cmd idx) phase e exit) scaleIndices.

(** The stored entry of a replica of a snapshot. *)
Definition inst_entry (i : instanceSnapshot) : CommandEntry :=
  default {| ID := ""; entry_Name := ""; CreatedAt := ""; entry_State := ""; ExitCode := None;
             ConfigJSON := None; StateJSON := None |} (Entry i).

(* src/cmdman/compose/service_reconcile.go:313-332 Service.stopAction *)
Definition stop_instance (ctx : option recorder) (force : bool) (timeout : option Duration) (cmd : Command)
    (exit : option Z) (i : instanceSnapshot) : cprog (bool * option reason) :=
  let disp := instanceDisplayName cmd (ScaleIndex i) in
  _ ← say disp PhaseStopping None None;
  '(forceKilled, er) ← stop_of ctx force timeout (inst_entry i);
  match er with
  | Some er =>
    _ ← say disp PhaseError (Some (StopCommand disp (inst_ID i) er)) None;
    mret (forceKilled, Some (StopFailed disp (inst_ID i) (reason_of er)))
  | None => _ ← reportStopped disp exit forceKilled; mret (forceKilled, None)
  end.

(** [Service.stopAction] with its calls. *)
(* src/cmdman/compose/service_reconcile.go:283-346 Service.stopAction *)
Definition stop_vertex (ctx : option recorder) (force : bool) (timeout : option Duration) (cmd : Command)
    (v : graphVertex) : cprog actionResult :=
  let snap := Snapshot v in
  match activeInstances snap with
  | [] =>
    _ ← reportReplicas cmd (replicaIndices v cmd) PhaseSkipped None (snap_ExitCode snap);
    mret (mkResult (snap_State snap) (snap_ExitCode snap) None)
  | live =>
    outs ← par_list (map (stop_instance ctx force timeout cmd (snap_ExitCode snap)) live);
    let forceKilled := existsb fst outs in
    mret (match head (omap snd outs) with
          | Some e => {| res_State := snap_State snap; res_ExitCode := None; res_Err := Some e;
                         res_ForceKilled := forceKilled |}
          | None => {| res_State := EventTypeExited; res_ExitCode := snap_ExitCode snap; res_Err := None;
                       res_ForceKilled := forceKilled |}
          end)
  end.

(** The vertices that were never acted on, visited in some order. *)
(* src/cmdman/compose/service_reconcile.go:68-99 Service.reportBlocked *)
Definition reportBlocked (vs : list graphVertex) : cprog unit :=
  for_each (fun v =>
    match v_Command v with
    | Some cmd => if InClosure v && Blocked v
                  then reportReplicas cmd (replicaIndices v cmd) PhaseError (Reason <$> Reconcile.Err v) None
                  else mret tt
    | None => mret tt
    end) vs.

(** The runs of [reconcileStop] with its calls: the listing, the runs of the actions of
    the vertices acted on, interleaved (when the walk is over they have all finished),
    and the reports of the others. *)
(* src/cmdman/compose/service_reconcile.go:239-281 Service.reconcileStop *)
Inductive stop_walk (ctx : option recorder) (force : bool) (timeout : option Duration) (spec : ComposeSpec)
    (targets : targetSet) : list cact -> result err (list StopOutcome) -> Prop :=
| stop_walk_bad_graph e :
    ValidateDAG (Commands spec) = Err e ->
    stop_walk ctx force timeout spec targets [] (Err (BadGraph e))
| stop_walk_no_list e :
    ValidateDAG (Commands spec) = Ok tt ->
    stop_walk ctx force timeout spec targets
      [Act (SvcList (projectLabels (WorkDir spec) (Project spec))) (Err e)] (Err (ListCommands e))
| stop_walk_done entries runs evs s outs tr order tr' :
    reconcileStop spec (Ok entries) targets
      (fun id res => exists v cmd, Vertices (buildReconcileGraph spec (snapshotCommands entries)
                                     (resolveStopTargetCommands spec (names targets)) targets) !! id = Some v /\
                       v_Command v = Some cmd /\ run (stop_vertex ctx force timeout cmd v) (runs id) res)
      (Ok (evs, s, outs)) ->
    merges (map runs (finishes evs)) tr ->
    order ≡ₚ (map_to_list (Vertices (gr (sh s)))).*2 ->
    run (reportBlocked order) tr' tt ->
    stop_walk ctx force timeout spec targets
      (Act (SvcList (projectLabels (WorkDir spec) (Project spec))) (Ok entries) :: tr ++ tr') (Ok outs).

(** ** Releases *)

(** One release of the retry: the failure as it is now, and whether it is gone. *)
(* src/cmdman/compose/service_down.go:394-409 Service.retryFailures *)
Definition retry_one (force : bool) (i : nat) (f : failedRelease) : cprog (failedRelease * bool) :=
  '(_, e) ← release_of (Some (RetryRecorder i)) (fr_holder f) force;
  retry ← call (ReadFailures (RetryRecorder i));
  match last retry with
  | Some l => mret ({| fr_holder := fr_holder f; fr_display := fr_display f; fr_err := fr_err l;
                       fr_onError := fr_onError l; fr_retried := true; fr_reportOnly := fr_reportOnly f |}, false)
  | None => mret (f, match e with None => true | Some _ => false end)
  end.

(** Whether the replica of each name has verifiably stopped. *)
(* src/cmdman/compose/service_down.go:383-386 Service.retryFailures *)
Definition stopped_map (entries : list CommandEntry) : gmap string bool :=
  foldl (fun m e => <[entry_Name e := verifiedStopped e]> m) ∅ entries.

Definition retriable (stopped : gmap string bool) (f : failedRelease) : bool :=
  negb (fr_reportOnly f) && default false (stopped !! h_Owner (fr_holder f)).

(* src/cmdman/compose/service_down.go:361-419 Service.retryFailures *)
Definition retryFailures (failed : list failedRelease) (selection : ProjectSelection) (force : bool)
  : cprog (list failedRelease) :=
  match failed with
  | [] => mret []
  | _ =>
    c ← call CtxErr;
    match c with
    | Some _ => mret failed
    | None =>
      l ← call (SvcList (projectLabels (sel_WorkDir selection) (sel_Project selection)));
      match l with
      | Err _ => mret failed
      | Ok entries =>
        let stopped := stopped_map entries in
        rs ← par_list (imap (fun i f => if retriable stopped f then retry_one force i f else mret (f, false)) failed);
        mret (omap (fun r => if r.2 : bool then None else Some r.1) rs)
      end
    end
  end.

(* src/cmdman/compose/service_down.go:329-359 Service.retryReleases *)
Definition retryReleases (rec : recorder) (selection : ProjectSelection) (force : bool) : cprog unit :=
  taken ← call (TakeFailures rec);
  left ← retryFailures (keep_last taken) selection force;
  for_each (fun f => call (RecordFailure rec f)) left.

(** The holders of the loop that are to be released. *)
(* src/cmdman/compose/service_down.go:285-300 Service.releaseStranded *)
Fixpoint stranded_of (live : gset string) (entries : list CommandEntry) : cprog (list resourceHolder) :=
  match entries with
  | [] => mret []
  | e :: entries =>
    match decodeHolder unmarshalRelease e with
    | Err _ => stranded_of live entries
    | Ok h =>
      match h_Release h with
      | None => stranded_of live entries
      | Some _ =>
        if decide (h_Owner h ∈ live) then
          left ← releaseLeft h;
          hs ← stranded_of live entries;
          mret (if left : bool then h :: hs else hs)
        else hs ← stranded_of live entries; mret (h :: hs)
      end
    end
  end.

(* src/cmdman/compose/service_down.go:305-323 Service.releaseStranded *)
Definition release_one (ctx : option recorder) (force : bool) (h : resourceHolder) : cprog ReleaseOutcome :=
  '(warning, e) ← release_of ctx h force;
  mret {| rl_Holder := holder_name h; rl_Command := hr_Display (holder_replica h); rl_Resource := rref_Key (h_Ref h);
          rl_Value := h_Value h; rl_Err := e; rl_Warning := warning; rl_Retried := false |}.

(* src/cmdman/compose/service_down.go:252-327 Service.releaseStranded *)
Definition releaseStranded (ctx : option recorder) (selection : ProjectSelection) (replicas : list CommandEntry)
    (force : bool) : cprog (list ReleaseOutcome) :=
  l ← call (SvcList (<[LabelIntermediate := IntermediateHolder]>
                       (hooksProjectLabels (sel_WorkDir selection) (sel_Project selection))));
  match l with
  | Err e =>
    let er := ListHolders e in
    _ ← say (if decide (sel_Project selection = "") then sel_WorkDir selection else sel_Project selection)
          PhaseError (Some er) None;
    mret [{| rl_Holder := ""; rl_Command := ""; rl_Resource := ""; rl_Value := ""; rl_Err := Some er;
             rl_Warning := None; rl_Retried := false |}]
  | Ok entries =>
    hs ← stranded_of (list_to_set (entry_Name <$> replicas)) entries;
    par_list (map (release_one ctx force) hs)
  end.

(* src/cmdman/compose/service_down.go:436-487 Service.addUnreleased *)
Definition addUnreleased (outcomes : list ReleaseOutcome) (failed : list failedRelease) : cprog (list ReleaseOutcome) :=
  let '(outcomes, reported) := add_unreleased outcomes failed in
  _ ← for_each (fun o => reportEvent reporter {|
        ev_Command := rl_Command o; ev_Phase := PhaseUnreleased;
        ev_Err := match rl_Err o with Some e => Some e | None => rl_Warning o end; ev_ExitCode := None;
        ev_ForceKilled := false; ev_ScaleIndex := 0; ev_Hook := ""; ev_Lifecycle := ""; ev_Exec := "";
        ev_Stream := ""; ev_Line := []; ev_Resource := rl_Resource o; ev_Value := rl_Value o;
        ev_Retried := rl_Retried o |}) reported;
  mret outcomes.

(** ** Down *)

(** The spec to stop by, from the selection or from what is stored; [None] when there
    is none to go by. *)
(* src/cmdman/compose/service_down.go:188-202 Service.Down *)
Definition down_spec (selection : ProjectSelection) (allEntries : list CommandEntry)
  : result err (option ComposeSpec) :=
  match sel_Spec selection with
  | Some spec => Ok (Some spec)
  | None =>
    if spansMultipleProjects allEntries then Ok None
    else
      try stored := lift_err BadProject (reconstructProjectFromMeta unmarshalAfter (sel_WorkDir selection) allEntries) in
      match stored with
      | Some spec => Ok (Some spec)
      | None => match allEntries with [] => Ok None | _ => Err AmbiguousGraph end
      end
  end.

(** The stop phase: the outcomes and what is to be removed. *)
(* src/cmdman/compose/service_down.go:206-232 Service.Down *)
Definition stop_phase (ctx : option recorder) (opts : DownOption) (spec : option ComposeSpec) (targets : targetSet)
    (allEntries : list CommandEntry) : cprog (result err (list StopOutcome * list CommandEntry)) :=
  let selected := ts_filter targets allEntries in
  match spec with
  | Some spec =>
    attempt stops := sub (stop_walk ctx (do_Force opts) (do_Timeout opts) spec targets) in
    if decide (targets = ∅) then
      orphans ← stopOrphans ctx (do_Force opts) (do_Timeout opts) allEntries spec;
      mret (Ok (stops ++ orphans, allEntries))
    else
      mret (Ok (stops, filterEntriesInClosure allEntries (resolveStopTargetCommands spec (names targets))))
  | None =>
    stops ← stopAllConcurrent ctx (do_Force opts) (do_Timeout opts) (runningEntries selected);
    mret (Ok (stops, selected))
  end.

(** Everything after the checks. *)
(* src/cmdman/compose/service_down.go:204-249 Service.Down *)
Definition tear_down (selection : ProjectSelection) (opts : DownOption) (spec : option ComposeSpec)
    (targets : targetSet) (allEntries : list CommandEntry) : cprog (result err DownResult) :=
  let ctx := Some DownRecorder in
  attempt (stops, removes) :=
    (match ts_filter targets allEntries with
     | [] => mret (Ok ([], []))
     | _ =>
       attempt (stops, removeTargets) := stop_phase ctx opts spec targets allEntries in
       _ ← retryReleases DownRecorder selection (do_Force opts);
       removes ← removeAllConcurrent ctx (do_Force opts) removeTargets;
       mret (Ok (stops, removes))
     end) in
  releases ← (if decide (targets = ∅) then releaseStranded ctx selection allEntries (do_Force opts) else mret []);
  failed ← call (ReadFailures DownRecorder);
  releases ← addUnreleased releases failed;
  mret (Ok {| dr_Stops := stops; dr_Removes := removes; dr_Releases := releases |}).

(* src/cmdman/compose/service_down.go:89-250 Service.Down *)
Definition Down (selection : ProjectSelection) (opts : DownOption) : cprog (result err DownResult) :=
  match checkStopTimeout (do_Timeout opts) with
  | Some e => mret (Err e)
  | None =>
    match list_find (fun t => t_ScaleIndex t <> 0%Z) (do_Targets opts) with
    | Some (_, t) => mret (Err (CannotRemoveReplica (t_ScaleIndex t) (t_Command t)))
    | None =>
      l ← call (SvcList (projectLabels (sel_WorkDir selection) (sel_Project selection)));
      match l with
      | Err e => mret (Err (ListCommands e))
      | Ok allEntries =>
        match (try targets := lift_err BadTargets (resolveTargets (do_Targets opts)
                                (storedReplicas (sel_Spec selection) allEntries)) in
               try spec := down_spec selection allEntries in Ok (targets, spec)) with
        | Err e => mret (Err e)
        | Ok (targets, spec) => tear_down selection opts spec targets allEntries
        end
      end
    end
  end.
End Down.
