(* ===== verification/DownProps.v ===== *)
(** * What a teardown guarantees

    Theorems about every run of [Down]: which replicas are removed, what force does, and
    that every failed release is accounted for, in any interleaving of the stops, the
    removals and the releases, and whatever the service and the context answer. *)

From S2P Require Import Reconcile Walk WalkProps Service Prelude GoStr LogDriver Model Prog ComposeSpec Naming Lifecycle Graph Targets Plan HookData HookOutput ComposeSvc HookRunner HookSteps HookProps Down.

(** ** The calls of each phase *)

(** The calls of a replica stop. *)
Definition stop_act (ctx : option recorder) (a : cact) : Prop :=
  match a with
  | Act AcquireStop _ | Act ReleaseStop _ | Act (MarkStopped _) _ | Act (EndOrder _) _ => True
  | Act (MarkKept _ e) _ => is_Some e
  | _ => hook_act ctx True a
  end.

(** The calls of the removal of the replica [id]. *)
Definition remove_act (ctx : option recorder) (id : string) (a : cact) : Prop :=
  match a with
  | Act (MarkRemoved _) _ => True
  | Act (SvcRemove ids force) _ => force = true -> ids = [id]
  | _ => hook_act ctx True a
  end.

(** The calls of a retry of releases. *)
Definition retry_act (a : cact) : Prop :=
  match a with
  | Act (RecordFailure _ _) _ | Act (TakeFailures _) _ | Act (ReadFailures _) _ => True
  | _ => hook_act None True a
  end.

(** The calls of the release of what is stranded. *)
Definition stranded_act (ctx : option recorder) (a : cact) : Prop :=
  match a with Act (RemovedUnstopped _) _ => True | _ => hook_act ctx True a end.

Lemma always_weaken {A} (p : cprog A) (P Q : cact -> Prop) : (forall a, P a -> Q a) -> always p P -> always p Q.
Proof. intros HPQ Hp tr r Hr. eapply Forall_impl; [by eapply Hp|done]. Qed.

Lemma hook_stop_act ctx a : hook_act ctx True a -> stop_act ctx a.
Proof. by destruct a as [X [] x]. Qed.

Lemma hook_remove_act ctx id a : hook_act ctx True a -> remove_act ctx id a.
Proof. destruct a as [X [] x]; simpl; try done. by intros [-> _]. Qed.

Lemma hook_retry_act ctx a : hook_act ctx True a -> retry_act a.
Proof. by destruct a as [X [] x]. Qed.

Section Props.
Context (marshalRelease : resourceRelease -> result err string)
        (unmarshalRelease : string -> result err resourceRelease)
        (unmarshalHooks : string -> result string (list LifecycleHook))
        (unmarshalAfter : string -> result string (list AfterSpec))
        (workdirHash : string -> string) (cfg : CmdmanConfig) (absPath : string -> option string)
        (reporter limited : bool) (errText : err -> string).

Notation event_of := (runLifecycleEvent marshalRelease unmarshalRelease workdirHash cfg absPath reporter).
Notation release_of := (runRelease marshalRelease unmarshalRelease workdirHash cfg absPath reporter).
Notation stop_of := (teardownStop marshalRelease unmarshalRelease unmarshalHooks workdirHash cfg absPath reporter limited).
Notation remove_of := (teardownRemove marshalRelease unmarshalRelease unmarshalHooks workdirHash cfg absPath reporter).

Lemma event_acts ctx r hooks ev : always (event_of ctx r hooks ev) (hook_act ctx True).
Proof. by apply runLifecycleEvent_acts. Qed.
Lemma release_acts ctx h force : always (release_of ctx h force) (hook_act ctx True).
Proof. by apply runRelease_acts. Qed.
#[local] Hint Resolve event_acts release_acts report_acts stopForRecreate_acts : prog.

Lemma teardownHooks_acts ctx rm e force step :
  always (teardownHooks unmarshalHooks reporter e force step) (hook_act ctx rm).
Proof. unfold teardownHooks. follow. Qed.
#[local] Hint Resolve teardownHooks_acts : prog.

Lemma stopWithHooks_acts ctx r hooks id timeout :
  always (stopWithHooks marshalRelease unmarshalRelease workdirHash cfg absPath reporter ctx r hooks id timeout)
    (hook_act ctx True).
Proof. unfold stopWithHooks. follow. Qed.

(** A hook that failed comes with its error. *)
Lemma stopWithHooks_failed ctx r hooks id timeout tr fk e :
  run (stopWithHooks marshalRelease unmarshalRelease workdirHash cfg absPath reporter ctx r hooks id timeout)
    tr (true, fk, e) -> is_Some e.
Proof.
  unfold stopWithHooks. intros H. inv_run H as [ws [e1|]] t1 H1; [inv_ret H; by eexists|].
  inv_run H as [fk' [e2|]] t2 H2; [inv_ret H|]. inv_run H as [ws' [e3|]] t3 H3; inv_ret H. by eexists.
Qed.

Lemma stopReplica_failed ctx e force timeout tr fk er :
  run (stopReplica marshalRelease unmarshalRelease unmarshalHooks workdirHash cfg absPath reporter ctx e force timeout)
    tr (true, fk, er) -> is_Some er.
Proof.
  unfold stopReplica. intros H. inv_run H as [[r hooks]|e1] t1 H1; [by eapply stopWithHooks_failed|].
  inv_ret H. by eexists.
Qed.

Lemma stopReplica_acts ctx e force timeout :
  always (stopReplica marshalRelease unmarshalRelease unmarshalHooks workdirHash cfg absPath reporter ctx e force timeout)
    (hook_act ctx True).
Proof. unfold stopReplica. follow. apply stopWithHooks_acts. Qed.

Lemma teardownStop_acts ctx force timeout e : always (stop_of ctx force timeout e) (stop_act ctx).
Proof.
  intros tr r H. unfold teardownStop in H. inv_run H as slot t1 H1. apply Forall_app. split.
  { revert H1. apply (always_weaken _ (stop_act ctx)); [done|]. unfold acquireStop. follow. }
  destruct slot as [er|]; [inv_ret H; constructor|]. inv_run H as [] t2 H2. constructor; [done|].
  inv_run H as [[failed fk] er] t3 H3. apply Forall_app. split.
  { eapply Forall_impl; [by eapply stopReplica_acts|apply hook_stop_act]. }
  inv_run H as [] t4 H4. apply Forall_app. split.
  { destruct failed; [|apply run_ret in H4 as [-> _]; constructor]. apply run_call in H4 as ->.
    constructor; [by eapply stopReplica_failed|constructor]. }
  inv_run H as [] t5 H5. inv_ret H. rewrite app_nil_r. revert H5. apply (always_weaken _ (stop_act ctx)); [done|].
  unfold releaseStop. follow.
Qed.

Lemma removeLeftExecs_acts ctx r : always (removeLeftExecs r) (hook_act ctx True).
Proof.
  unfold removeLeftExecs. follow. apply always_for_each. intros. unfold remove_left. follow.
  by apply removeIntermediate_acts.
Qed.

Lemma removeWithHooks_acts ctx r hooks id :
  always (removeWithHooks marshalRelease unmarshalRelease workdirHash cfg absPath reporter ctx r hooks [id] true)
    (remove_act ctx id).
Proof.
  assert (Hev : forall hooks ev, always (event_of ctx r hooks ev) (remove_act ctx id)).
  { intros. eapply always_weaken; [apply hook_remove_act|]. by apply event_acts. }
  unfold removeWithHooks. follow. eapply always_weaken; [apply hook_remove_act|]. by apply removeLeftExecs_acts.
Qed.

Lemma teardownRemove_acts ctx force e : always (remove_of ctx force e) (remove_act ctx (ID e)).
Proof.
  assert (Hh : always (teardownHooks unmarshalHooks reporter e force "remove") (remove_act ctx (ID e))).
  { eapply always_weaken; [apply hook_remove_act|apply teardownHooks_acts]. }
  pose proof removeWithHooks_acts. unfold teardownRemove. follow.
Qed.

(** One removal asks the teardown first: a replica that is kept is left alone. *)
Lemma remove_entry_run ctx force e tr o :
  run (remove_entry marshalRelease unmarshalRelease unmarshalHooks workdirHash cfg absPath reporter ctx force e) tr o ->
  exists kept tr', tr = Act (KeptBy (ID e)) kept :: tr' /\ ro_Command o = entryDisplayName e /\
    match kept with
    | Some k => ro_Err o = Some (RemoveCommand (entryDisplayName e) (ID e) (ReplicaKept k)) /\
                Forall (hook_act ctx False) tr'
    | None => Forall (remove_act ctx (ID e)) tr'
    end.
Proof.
  unfold remove_entry. intros H. inv_run H as kept t1 H1. exists kept, t1'. split; [done|].
  destruct kept as [k|].
  - inv_run H as [] t2 H2. inv_ret H. rewrite app_nil_r. split_and!; try done. eapply report_acts, H2.
  - assert (Hr : forall c ph er x, always (report reporter c ph er x) (remove_act ctx (ID e))).
    { intros. eapply always_weaken; [apply hook_remove_act|apply report_acts]. }
    inv_run H as [] t2 H2. inv_run H as er t3 H3.
    assert (ro_Command o = entryDisplayName e /\ Forall (remove_act ctx (ID e)) t3') as [-> ?].
    { destruct er as [er|]; inv_run H as [] t4 H4; inv_ret H; rewrite app_nil_r; (split; [done|]); by eapply Hr. }
    split; [done|]. apply Forall_app; split; [by eapply Hr|]. apply Forall_app; split; [|done].
    by eapply teardownRemove_acts.
Qed.

Lemma run_group {A} (ps : list (cprog A)) tr rs :
  run (group ps) tr rs ->
  exists trs outs order t, Forall3 (fun p t r => run p t r) ps trs outs /\ merges trs t /\
    tr = t ++ [Act (EndOrder (length outs)) order] /\ rs = reorder order outs.
Proof.
  unfold group. intros H. inv_run H as outs t1 H1. inv_run H as order t2 H2. inv_ret H.
  apply run_par_list in H1 as (trs & H3 & Hm). rewrite app_nil_r. eauto 10.
Qed.

(** ** The phases *)

Notation stop_walk_of := (stop_walk marshalRelease unmarshalRelease unmarshalHooks workdirHash cfg absPath reporter limited errText).

(** What holds of the trace of every replica stop, and of the calls around it, holds of
    the trace of the whole stop phase. *)
Definition quiet_act (a : cact) : Prop :=
  match a with Act (SvcList _) _ | Act (Report _) _ | Act (EndOrder _) _ => True | _ => False end.

Section StopPhase.
Context (Q : list cact -> Prop) `{HQ : !Closed Q} (ctx : option recorder) (force : bool) (timeout : option Duration).
Context (Qquiet : forall tr, Forall quiet_act tr -> Q tr).
Context (Qstop : forall e, traces (stop_of ctx force timeout e) Q).

Lemma quiet_traces {A} (p : cprog A) : always p quiet_act -> traces p Q.
Proof. intros Hp tr r Hr. by eapply Qquiet, Hp. Qed.

Lemma say_quiet c ph e x : traces (report reporter c ph e x) Q.
Proof. apply quiet_traces. unfold report, reportEvent. follow. Qed.

Lemma reportStopped_quiet c x fk : traces (reportStopped reporter c x fk) Q.
Proof. apply quiet_traces. unfold reportStopped, reportEvent. follow. Qed.

Lemma reportReplicas_quiet cmd idxs ph e x : traces (reportReplicas reporter cmd idxs ph e x) Q.
Proof. unfold reportReplicas. apply traces_for_each; [exact _|]. intros. apply say_quiet. Qed.
#[local] Hint Resolve say_quiet reportStopped_quiet reportReplicas_quiet Qstop : prog.

Lemma stop_vertex_traces cmd v :
  traces (stop_vertex marshalRelease unmarshalRelease unmarshalHooks workdirHash cfg absPath reporter limited errText
           ctx force timeout cmd v) Q.
Proof.
  unfold stop_vertex. destruct (activeInstances (Snapshot v)) as [|i l]; [follow|].
  apply traces_bind; [exact _| |intros; apply traces_ret; exact _]. apply traces_par_list; [exact _|].
  apply Forall_forall. intros p (j & -> & _)%list_elem_of_fmap. unfold stop_instance. follow.
Qed.

Lemma stop_walk_traces spec targets tr r : stop_walk_of ctx force timeout spec targets tr r -> Q tr.
Proof.
  intros [e Hd|e Hd|entries runs evs s outs t order t' Hrec Hm Ho Hb].
  - apply closed_nil.
  - apply Qquiet. by repeat constructor.
  - apply (closed_app Q [_]); [apply Qquiet; by repeat constructor|]. apply closed_app; [exact _| |].
    + inversion Hrec as [| |entries' evs' s' closure Hdag Hl Hcl Hr Hf]; subst. injection Hl as <-.
      apply (closed_merges _ _ _ Hm). apply Forall_forall. intros u (id & -> & Hid)%list_elem_of_fmap.
      apply elem_of_finishes in Hid as (res & Hid).
      destruct (WalkProps.act_of_finish _ _ _ _ _ _ Hr _ _ Hid) as (v & cmd & _ & _ & Hrun).
      by eapply stop_vertex_traces.
    + revert Hb. apply traces_for_each; [exact _|]. intros v _. follow.
Qed.

Lemma stop_group_traces es :
  traces (stopAllConcurrent marshalRelease unmarshalRelease unmarshalHooks workdirHash cfg absPath reporter limited errText
           ctx force timeout es) Q.
Proof.
  unfold stopAllConcurrent, group. apply traces_bind; [exact _| |].
  - apply traces_par_list; [exact _|]. apply Forall_forall. intros p (e & -> & _)%list_elem_of_fmap.
    unfold stop_entry. follow.
  - intros rs. follow. apply quiet_traces. follow.
Qed.

Lemma stop_phase_traces opts spec targets all :
  do_Force opts = force -> do_Timeout opts = timeout ->
  traces (stop_phase marshalRelease unmarshalRelease unmarshalHooks workdirHash cfg absPath reporter limited errText
           ctx opts spec targets all) Q.
Proof.
  intros Hf Ht. pose proof stop_group_traces as Hg.
  assert (Ho : forall spec, traces (stopOrphans marshalRelease unmarshalRelease unmarshalHooks workdirHash cfg absPath
    reporter limited errText ctx force timeout all spec) Q).
  { intros. unfold stopOrphans. follow. }
  unfold stop_phase. rewrite Hf, Ht. destruct spec as [spec|]; [|follow].
  apply traces_bind; [exact _| |intros; follow]. intros tr r Hr. rewrite run_sub in Hr. by eapply stop_walk_traces.
Qed.
End StopPhase.

Lemma stop_phase_acts ctx opts spec targets all :
  always (stop_phase marshalRelease unmarshalRelease unmarshalHooks workdirHash cfg absPath reporter limited errText
            ctx opts spec targets all) (stop_act ctx).
Proof.
  eapply stop_phase_traces; [exact _| |apply teardownStop_acts|done|done].
  intros tr H. eapply Forall_impl; [exact H|]. by intros [X [] x].
Qed.

Lemma retry_one_acts force i f :
  always (retry_one marshalRelease unmarshalRelease workdirHash cfg absPath reporter force i f) retry_act.
Proof.
  unfold retry_one. apply always_bind; [|follow].
  eapply always_weaken; [apply (hook_retry_act (Some (RetryRecorder i)))|apply release_acts].
Qed.

Lemma retryReleases_acts rec sel force :
  always (retryReleases marshalRelease unmarshalRelease workdirHash cfg absPath reporter rec sel force) retry_act.
Proof.
  unfold retryReleases, retryFailures. follow.
  - apply always_par_list, Forall_forall. intros p (j & f' & -> & _)%elem_of_lookup_imap.
    pose proof retry_one_acts. follow.
  - apply always_for_each. intros. follow.
Qed.

Lemma hook_stranded_act ctx a : hook_act ctx True a -> stranded_act ctx a.
Proof. by destruct a as [X [] x]. Qed.

Lemma releaseStranded_acts ctx sel replicas force :
  always (releaseStranded marshalRelease unmarshalRelease workdirHash cfg absPath reporter ctx sel replicas force) (stranded_act ctx).
Proof.
  assert (Hr : forall c ph er x, always (report reporter c ph er x) (stranded_act ctx)).
  { intros. eapply always_weaken; [apply (hook_stranded_act ctx)|apply report_acts]. }
  assert (Hs : forall live es, always (stranded_of unmarshalRelease live es) (stranded_act ctx)).
  { intros live es. induction es; simpl; unfold releaseLeft; follow. }
  unfold releaseStranded. follow. apply always_par_list, Forall_forall.
  intros p (h & -> & _)%list_elem_of_fmap. unfold release_one. follow.
  eapply always_weaken; [apply (hook_stranded_act ctx)|apply release_acts].
Qed.
End Props.
