(* ===== verification/DownReleases.v ===== *)
(** * The outcomes of failed releases

    What the retry of a teardown tries again, and what its result says of each holder:
    the loops of [retryReleases] and [addUnreleased] against what they are for. *)

From S2P Require Import Prelude GoStr LogDriver Model Prog ComposeSpec Naming Lifecycle Plan HookData HookOutput ComposeSvc Down.

Implicit Types (f g : failedRelease) (l : list failedRelease) (n : string).

(** The holder that a failure is about. *)
Notation nm f := (holder_name (fr_holder f)).

Definition failures_of n l : list failedRelease := filter (fun f => nm f = n) l.

Lemma failures_of_app n l1 l2 : failures_of n (l1 ++ l2) = failures_of n l1 ++ failures_of n l2.
Proof. apply filter_app. Qed.

Lemma failures_of_one n f : failures_of n [f] = if decide (nm f = n) then [f] else [].
Proof. unfold failures_of. rewrite filter_cons. by case_decide. Qed.

(** The last failure of a holder. *)
Definition last_failure n l : option failedRelease := last (failures_of n l).

Lemma last_failure_snoc n l f :
  last_failure n (l ++ [f]) = if decide (nm f = n) then Some f else last_failure n l.
Proof.
  unfold last_failure. rewrite failures_of_app, failures_of_one. case_decide; [by rewrite last_snoc|by rewrite app_nil_r].
Qed.

Lemma last_failure_elem n l f : last_failure n l = Some f -> f ∈ l /\ nm f = n.
Proof. intros H. apply last_Some_elem_of, list_elem_of_filter in H. tauto. Qed.

Lemma last_failure_some n l f : f ∈ l -> nm f = n -> is_Some (last_failure n l).
Proof.
  intros Hf Hn. apply last_is_Some. intros He. assert (H : f ∈ failures_of n l) by (by apply list_elem_of_filter).
  rewrite He in H. by apply elem_of_nil in H.
Qed.

(** ** Each holder is retried once *)

Lemma keep_last_snoc l f :
  keep_last (l ++ [f]) =
    match last (keep_last l) with
    | Some g => if decide (nm g = nm f) then take (length (keep_last l) - 1) (keep_last l) ++ [f] else keep_last l ++ [f]
    | None => keep_last l ++ [f]
    end.
Proof. unfold keep_last. by rewrite foldl_app. Qed.

(** In a sorted list the failures of a holder are next to each other. *)
Lemma sorted_snoc_gap l f g :
  StronglySorted (key_le (fun f => nm f)) (l ++ [f]) -> last l = Some g -> nm g <> nm f -> failures_of (nm f) l = [].
Proof.
  intros Hs (l' & ->)%last_Some Hne. rewrite <- app_assoc in Hs. simpl in Hs.
  destruct (failures_of (nm f) (l' ++ [g])) as [|h r] eqn:Eh; [done|exfalso].
  assert (Hh : h ∈ failures_of (nm f) (l' ++ [g])) by (rewrite Eh; left).
  apply list_elem_of_filter in Hh as [Heq [Hh|Hh%list_elem_of_singleton]%elem_of_app]; [|by subst].
  assert (H1 : key_le (fun f => nm f) h g) by (eapply StronglySorted_app_1_elem_of; [exact Hs|done|left]).
  apply StronglySorted_app_1_r, StronglySorted_inv in Hs as [_ H2]. rewrite Forall_singleton in H2.
  unfold key_le in *. rewrite Heq in H1. apply Hne. by apply (anti_symm string_le).
Qed.

Lemma keep_last_sorted l :
  StronglySorted (key_le (fun f => nm f)) l ->
  last (keep_last l) = last l /\ forall n, failures_of n (keep_last l) = option_list (last_failure n l).
Proof.
  induction l as [|f l IH] using rev_ind; intros Hs; [done|].
  assert (Hs' : StronglySorted (key_le (fun f => nm f)) l) by (by apply StronglySorted_app_1_l in Hs).
  destruct (IH Hs') as [Hl Hn]. clear IH. rewrite keep_last_snoc, Hl, last_snoc.
  destruct (last l) as [g|] eqn:Hg.
  2:{ apply last_None in Hg as ->. split; [done|]. intros n. by rewrite last_failure_snoc; simpl; rewrite failures_of_one; case_decide. }
  apply last_Some in Hl as [r Hr]. rewrite Hr in *. case_decide as Hgf.
  - rewrite length_app, Nat.add_sub, take_app_length. split; [by rewrite last_snoc|].
    intros n. specialize (Hn n). rewrite failures_of_app, failures_of_one in *. rewrite last_failure_snoc, Hgf in *.
    case_decide as Hfn; [|by rewrite app_nil_r in *].
    destruct (last_failure n l); [|by destruct (failures_of n r)]. by destruct (failures_of n r) as [|? []].
  - split; [by rewrite last_snoc|]. intros n. rewrite (failures_of_app _ (r ++ [g])), Hn, failures_of_one, last_failure_snoc.
    case_decide as Hfn; [|by rewrite app_nil_r]. subst n. unfold last_failure. by rewrite (sorted_snoc_gap l f g).
Qed.

Lemma last_failure_sort n l : last_failure n (sortFailures l) = last_failure n l.
Proof. unfold last_failure, failures_of, sortFailures. f_equal. apply (stable_sort_filter (fun f => nm f)). Qed.

(** The retries take up the holder of every failure. *)
Lemma keep_last_all l f : f ∈ l -> exists g, g ∈ keep_last (sortFailures l) /\ g ∈ l /\ nm g = nm f.
Proof.
  intros Hf. destruct (last_failure_some (nm f) l f Hf eq_refl) as [g Hg]. exists g.
  destruct (last_failure_elem _ _ _ Hg) as [Hgl Hn]. split; [|done].
  enough (H : g ∈ failures_of (nm f) (keep_last (sortFailures l))) by (unfold failures_of in H; apply list_elem_of_filter in H; tauto).
  destruct (keep_last_sorted (sortFailures l)) as [_ ->]; [apply (stable_sort_sorted (fun f => nm f))|].
  rewrite last_failure_sort, Hg. left.
Qed.

(** a retry takes up each holder once, as its last failure has it, however often and
    in whatever order its failures were recorded. *)
Theorem retried_once_as_last l n : failures_of n (keep_last (sortFailures l)) = option_list (last_failure n l).
Proof. rewrite <- last_failure_sort. by apply keep_last_sorted, stable_sort_sorted. Qed.

(** ** The outcomes *)

Lemma holder_name_nonempty h : holder_name h <> "".
Proof. unfold holder_name, HolderName. by destruct (h_Owner h). Qed.

(** The different strings of a list, as they first come up. *)
Definition firsts (names : list string) : list string :=
  foldl (fun seen n => if decide (n ∈ seen) then seen else seen ++ [n]) [] names.

Lemma firsts_snoc names n :
  firsts (names ++ [n]) = if decide (n ∈ firsts names) then firsts names else firsts names ++ [n].
Proof. unfold firsts. by rewrite foldl_app. Qed.

Lemma elem_of_firsts names n : n ∈ firsts names <-> n ∈ names.
Proof.
  induction names as [|m names IH] using rev_ind; [done|]. rewrite firsts_snoc, elem_of_app, list_elem_of_singleton, <- IH.
  case_decide as Hm; [|by rewrite elem_of_app, list_elem_of_singleton]. naive_solver.
Qed.

Lemma NoDup_firsts names : NoDup (firsts names).
Proof.
  induction names as [|m names IH] using rev_ind; [constructor|]. rewrite firsts_snoc. case_decide as Hm; [done|].
  apply NoDup_app. split_and!; [done| |apply NoDup_singleton]. by intros x Hx ->%list_elem_of_singleton.
Qed.

Section Outcomes.
Context (outcomes : list ReleaseOutcome).

(** Where the outcome of each holder is, among [outs]. *)
Definition placed (at_ : gmap string nat) (outs : list ReleaseOutcome) : Prop :=
  (forall n i, at_ !! n = Some i -> exists o, outs !! i = Some o /\ rl_Holder o = n) /\
  (forall o, o ∈ outs -> rl_Holder o <> "" -> is_Some (at_ !! rl_Holder o)).

Lemma placed_init : placed (un_at (un_init outcomes)) outcomes.
Proof.
  assert (H : forall os os2, os ++ os2 = outcomes ->
    placed (foldl (fun at_ io => if decide (rl_Holder io.2 = "") then at_ else <[rl_Holder io.2 := io.1]> at_) ∅
             (imap pair os)) os).
  { induction os as [|o os IH] using rev_ind; intros os2 Hl.
    { split; [by intros ? ?|by intros ? ?%elem_of_nil]. }
    rewrite <- app_assoc in Hl. destruct (IH _ Hl) as [H1 H2]. clear IH.
    rewrite imap_app, foldl_app. simpl. rewrite Nat.add_0_r. case_decide as Ho; split.
    - intros n i (o' & Hi & Hn)%H1. exists o'. split; [by apply lookup_app_l_Some|done].
    - intros o' [Ho' | ->%list_elem_of_singleton]%elem_of_app Hne; [by apply H2|done].
    - intros n i [[<- <-]|[Hne Hi]]%lookup_insert_Some; [exists o; by rewrite list_lookup_middle|].
      apply H1 in Hi as (o' & Hi & Hn). exists o'. split; [by apply lookup_app_l_Some|done].
    - intros o' [Ho' | ->%list_elem_of_singleton]%elem_of_app Hne; [|by rewrite lookup_insert_eq].
      destruct (decide (rl_Holder o = rl_Holder o')) as [->|]; [by rewrite lookup_insert_eq|].
      rewrite lookup_insert_ne by done. by apply H2. }
  apply (H outcomes []). by rewrite app_nil_r.
Qed.

(** The state of the loop after the failures [l]. *)
Record un_inv (l : list failedRelease) (st : unreleased) : Prop := {
  ui_order : un_order st = firsts ((fun f => nm f) <$> l);
  ui_placed : placed (un_at st) (un_outcomes st);
  ui_names : rl_Holder <$> un_outcomes st =
               (rl_Holder <$> outcomes) ++ filter (.∉ rl_Holder <$> outcomes) (firsts ((fun f => nm f) <$> l));
  ui_filled n f : last_failure n l = Some f ->
    exists i, un_at st !! n = Some i /\ un_outcomes st !! i = Some (fill n f);
  ui_others i : (forall n, is_Some (last_failure n l) -> un_at st !! n <> Some i) ->
    i < length (un_outcomes st) -> un_outcomes st !! i = outcomes !! i;
}.

Lemma un_inv_init : un_inv [] (un_init outcomes).
Proof. split; [done|apply placed_init| |done|done]. by rewrite app_nil_r. Qed.

Lemma un_inv_new l st f :
  un_inv l st -> un_at st !! nm f = None ->
  nm f ∉ firsts ((fun f => nm f) <$> l) /\ nm f ∉ rl_Holder <$> outcomes.
Proof.
  intros [Ho [_ Hp] Hn Hf Hx] Hnone. split.
  - rewrite elem_of_firsts, list_elem_of_fmap. intros (g & Hg & Hin).
    destruct (last_failure_some (nm f) l g) as [h Hh]; [done|done|]. destruct (Hf _ _ Hh) as (i & Hi & _). congruence.
  - intros Hin. assert (Hin' : nm f ∈ rl_Holder <$> un_outcomes st) by (rewrite Hn; set_solver).
    apply list_elem_of_fmap in Hin' as (o & Ho' & Hin'). rewrite Ho' in Hnone.
    destruct (Hp o Hin') as [i Hi]; [|congruence]. rewrite <- Ho'. apply holder_name_nonempty.
Qed.

(** What one failure does to the outcomes, its holder having one at [i] or none. *)
Lemma un_add_known st f i :
  un_at st !! nm f = Some i ->
  un_outcomes (un_add st f) = <[i := fill (nm f) f]> (un_outcomes st) /\ un_at (un_add st f) = un_at st.
Proof. intros H. unfold un_add. by rewrite H. Qed.

Lemma un_add_fresh st f :
  un_at st !! nm f = None ->
  un_outcomes (un_add st f) = un_outcomes st ++ [fill (nm f) f] /\
  un_at (un_add st f) = <[nm f := length (un_outcomes st)]> (un_at st).
Proof.
  intros H. unfold un_add. rewrite H. simpl. split; [|done].
  apply list_insert_id. by rewrite list_lookup_middle.
Qed.

Lemma un_add_order l st f : un_inv l st -> un_order (un_add st f) = firsts ((fun f => nm f) <$> (l ++ [f])).
Proof.
  intros Hinv. rewrite fmap_app. simpl. rewrite firsts_snoc, <- (ui_order _ _ Hinv).
  unfold un_add. by destruct (un_at st !! nm f).
Qed.

Lemma un_known_inv l st f i : un_inv l st -> un_at st !! nm f = Some i -> un_inv (l ++ [f]) (un_add st f).
Proof.
  intros Hinv Hat. pose proof (un_add_order l st f Hinv) as Hord. destruct (un_add_known st f i Hat) as [Hout Hat'].
  destruct Hinv as [Ho [Hp1 Hp2] Hn Hf Hx]. destruct (Hp1 _ _ Hat) as (o & Hi & Hname).
  assert (Hlen : i < length (un_outcomes st)) by (by eapply lookup_lt_Some).
  assert (Hnames : rl_Holder <$> un_outcomes (un_add st f) = rl_Holder <$> un_outcomes st).
  { rewrite Hout, list_fmap_insert. simpl. apply list_insert_id. by rewrite list_lookup_fmap, Hi; simpl; rewrite Hname. }
  split; [done| | | |].
  - rewrite Hat'. split.
    + intros n j Hj. destruct (Hp1 _ _ Hj) as (o' & Hj' & Hn'). rewrite Hout. destruct (decide (i = j)) as [<-|Hne].
      * rewrite list_lookup_insert_eq by done. eexists; split; [done|]. simpl. congruence.
      * rewrite list_lookup_insert_ne by done. eauto.
    + intros o' Ho' Hne. apply (list_elem_of_fmap_2 rl_Holder) in Ho'. rewrite Hnames in Ho'.
      apply list_elem_of_fmap in Ho' as (o2 & Ho2 & Hin). rewrite Ho2 in *. by apply Hp2.
  - rewrite Hnames, Hn, fmap_app. simpl. rewrite firsts_snoc. case_decide as Hs; [done|].
    rewrite filter_app, filter_cons_False, filter_nil, app_nil_r; [done|]. intros Hni.
    assert (Hin : nm f ∈ rl_Holder <$> un_outcomes st) by (rewrite <- Hname; by eapply list_elem_of_fmap_2, list_elem_of_lookup_2).
    rewrite Hn in Hin. apply elem_of_app in Hin as [Hin|[_ Hin]%list_elem_of_filter]; tauto.
  - intros n g. rewrite last_failure_snoc, Hat', Hout. case_decide as Hfn.
    + intros [= <-]. subst n. exists i. split; [done|]. by apply list_lookup_insert_eq.
    + intros (j & Hj & Hfill)%Hf. exists j. split; [done|]. rewrite list_lookup_insert_ne; [done|].
      intros <-. apply Hfn. rewrite Hi in Hfill. injection Hfill as ->. by rewrite <- Hname.
  - intros j Hj Hl. rewrite Hat' in Hj. rewrite Hout in *. rewrite length_insert in Hl. rewrite list_lookup_insert_ne.
    + apply Hx; [|done]. intros n [g Hg]. apply Hj. rewrite last_failure_snoc. case_decide; [done|by rewrite Hg].
    + intros <-. apply (Hj (nm f)); [|done]. by rewrite last_failure_snoc, decide_True.
Qed.

Lemma un_fresh_inv l st f : un_inv l st -> un_at st !! nm f = None -> un_inv (l ++ [f]) (un_add st f).
Proof.
  intros Hinv Hat. pose proof (un_add_order l st f Hinv) as Hord. destruct (un_add_fresh st f Hat) as [Hout Hat'].
  destruct (un_inv_new l st f Hinv Hat) as [Hs Hni]. destruct Hinv as [Ho [Hp1 Hp2] Hn Hf Hx].
  split; [done| | | |]; rewrite ?Hout, ?Hat'.
  - split.
    + intros n j [[<- <-]|[Hne Hj]]%lookup_insert_Some.
      * exists (fill (nm f) f). by rewrite list_lookup_middle.
      * destruct (Hp1 _ _ Hj) as (o & Ho' & Hn'). exists o. split; [by apply lookup_app_l_Some|done].
    + intros o [Ho' | ->%list_elem_of_singleton]%elem_of_app Hne; [|by rewrite lookup_insert_eq].
      apply lookup_insert_is_Some'. right. by apply Hp2.
  - rewrite !fmap_app, Hn. simpl. rewrite firsts_snoc, decide_False by done.
    by rewrite filter_app, filter_cons_True, filter_nil, app_assoc.
  - intros n g. rewrite last_failure_snoc. case_decide as Hfn.
    + intros [= <-]. subst n. exists (length (un_outcomes st)). rewrite lookup_insert_eq. by rewrite list_lookup_middle.
    + intros (j & Hj & Hfill)%Hf. exists j. rewrite lookup_insert_ne by done. split; [done|]. by apply lookup_app_l_Some.
  - intros j Hj Hl. rewrite length_app in Hl. simpl in Hl. assert (j <> length (un_outcomes st)) as Hne.
    { intros ->. apply (Hj (nm f)); [by rewrite last_failure_snoc, decide_True|by rewrite lookup_insert_eq]. }
    rewrite lookup_app_l by lia. apply Hx; [|lia]. intros n [g Hg] Hnj. destruct (decide (nm f = n)) as [<-|Hfn]; [congruence|].
    apply (Hj n); [rewrite last_failure_snoc; case_decide; [done|by rewrite Hg]|by rewrite lookup_insert_ne].
Qed.

Lemma un_all l : un_inv l (foldl un_add (un_init outcomes) l).
Proof.
  induction l as [|f l IH] using rev_ind; [apply un_inv_init|]. rewrite foldl_app. simpl.
  destruct (un_at (foldl un_add (un_init outcomes) l) !! nm f) as [i|] eqn:Hat; [by eapply un_known_inv|by apply un_fresh_inv].
Qed.
End Outcomes.

(** Every failed release has its outcome. *)
Lemma add_unreleased_all outcomes failed f :
  f ∈ failed -> exists g, last_failure (nm f) failed = Some g /\ fill (nm f) g ∈ (add_unreleased outcomes failed).1.
Proof.
  intros Hf. destruct (last_failure_some (nm f) failed f Hf eq_refl) as [g Hg]. exists g. split; [done|].
  destruct (ui_filled _ _ _ (un_all outcomes failed) _ _ Hg) as (i & _ & Hi). by eapply list_elem_of_lookup_2.
Qed.

(** A list of keys without repetitions, the empty ones apart. *)
Lemma nonempty_keys_inj (keys : list string) i j n :
  NoDup (filter (fun n => n <> "") keys) -> n <> "" -> keys !! i = Some n -> keys !! j = Some n -> i = j.
Proof.
  revert i j. induction keys as [|k keys IH]; intros i j Hnd Hne Hi Hj; [done|]. rewrite filter_cons in Hnd.
  assert (Hin : forall j, keys !! j = Some n -> n ∈ filter (fun n => n <> "") keys).
  { intros j' ?%list_elem_of_lookup_2. by apply list_elem_of_filter. }
  destruct i as [|i], j as [|j]; simpl in *; try done.
  - injection Hi as ->. rewrite decide_True in Hnd by done. inversion Hnd; subst. by apply Hin in Hj.
  - injection Hj as ->. rewrite decide_True in Hnd by done. inversion Hnd; subst. by apply Hin in Hi.
  - f_equal. apply IH; [|done..]. case_decide; [by inversion Hnd|done].
Qed.

(** The result of a down has the releases that were tried, in order, then one outcome
    for each further holder that could not be released, in the order their failures come
    up; the outcome of a holder with a failure is its last failure, the others are as the
    release left them; and each holder with a failure is reported once, as it is in the
    result. *)
Theorem add_unreleased_exact outcomes failed :
  NoDup (filter (fun n => n <> "") (rl_Holder <$> outcomes)) ->
  let '(outs, reported) := add_unreleased outcomes failed in
  let names := firsts ((fun f => nm f) <$> failed) in
  rl_Holder <$> outs = (rl_Holder <$> outcomes) ++ filter (.∉ rl_Holder <$> outcomes) names /\
  (forall i o, outs !! i = Some o ->
     match last_failure (rl_Holder o) failed with
     | Some f => o = fill (rl_Holder o) f
     | None => outcomes !! i = Some o
     end) /\
  rl_Holder <$> reported = names /\ (forall o, o ∈ reported -> o ∈ outs).
Proof.
  intros Hnd. unfold add_unreleased. pose proof (un_all outcomes failed) as [Ho [Hp1 Hp2] Hn Hf Hx].
  set (st := foldl un_add _ _) in *. set (names := firsts _) in *.
  assert (Hnd' : NoDup (filter (fun n => n <> "") (rl_Holder <$> un_outcomes st))).
  { rewrite Hn, filter_app. apply NoDup_app. split_and!; [done| |by do 2 apply NoDup_filter; apply NoDup_firsts].
    intros x [_ Hx1]%list_elem_of_filter [_ [Hx2 _]%list_elem_of_filter]%list_elem_of_filter. done. }
  split_and!; [done| | |].
  - intros i o Hi. destruct (last_failure (rl_Holder o) failed) as [f|] eqn:Hl.
    + destruct (Hf _ _ Hl) as (j & Hj & Hfill). enough (i = j) as -> by congruence.
      assert (rl_Holder o <> "") as Hne.
      { apply last_failure_elem in Hl as [_ <-]. apply holder_name_nonempty. }
      eapply nonempty_keys_inj; [exact Hnd'|exact Hne| |]; rewrite list_lookup_fmap; [by rewrite Hi|by rewrite Hfill].
    + rewrite <- Hx; [done| |by eapply lookup_lt_Some]. intros n [f Hs] (o' & Hi' & Hn')%Hp1. congruence.
  - rewrite Ho. assert (Hall : forall n, n ∈ names -> is_Some (last_failure n failed)).
    { intros n (f & -> & Hin)%elem_of_firsts%list_elem_of_fmap. by eapply last_failure_some. }
    clearbody names. clear -Hall Hf. induction names as [|n names IH]; [done|]. simpl.
    destruct (Hall n) as [f Hl]; [left|]. destruct (Hf _ _ Hl) as (i & -> & Hi). simpl. rewrite Hi. simpl. f_equal.
    apply IH. intros m Hm. apply Hall. by right.
  - intros o (n & _ & Hn')%list_elem_of_omap. apply bind_Some in Hn' as (i & _ & Hi). by eapply list_elem_of_lookup_2.
Qed.

Definition a_holder (owner key value : string) : resourceHolder := {|
  h_Ref := {| rref_Project := "p"; rref_WorkDir := "/w"; rref_Command := owner; rref_ScaleIndex := 1; rref_Key := key |};
  h_Owner := owner; h_Value := value; h_Release := None; h_Dir := ""; h_Env := [] |}.

Definition a_failure (h : resourceHolder) (onError : OnError) (why : string) : failedRelease := {|
  fr_holder := h; fr_display := h_Owner h; fr_err := Opaque why; fr_onError := onError; fr_retried := false;
  fr_reportOnly := false |}.

Definition a_release (h : resourceHolder) : ReleaseOutcome := {|
  rl_Holder := holder_name h; rl_Command := h_Owner h; rl_Resource := rref_Key (h_Ref h); rl_Value := h_Value h;
  rl_Err := None; rl_Warning := None; rl_Retried := false |}.

Lemma add_unreleased_exact_witness :
  let outcomes := [a_release (a_holder "web" "db" "1"); a_release (a_holder "web" "dir" "2")] in
  let failed := [a_failure (a_holder "job" "db" "3") OnErrorFail "first"; a_failure (a_holder "web" "dir" "2") OnErrorContinue "left";
                 a_failure (a_holder "job" "db" "3") OnErrorFail "second"] in
  NoDup (filter (fun n => n <> "") (rl_Holder <$> outcomes)) /\
  length (add_unreleased outcomes failed).1 = 3 /\
  rl_Holder <$> (add_unreleased outcomes failed).2 = firsts ((fun f => nm f) <$> failed).
Proof.
  intros outcomes failed.
  assert (Hnd : NoDup (filter (fun n => n <> "") (rl_Holder <$> outcomes))).
  { apply (bool_decide_unpack _). vm_compute. exact I. }
  split; [exact Hnd|]. split; [reflexivity|].
  pose proof (add_unreleased_exact outcomes failed Hnd) as H.
  destruct (add_unreleased outcomes failed) as [outs reported]. by destruct H as (_ & _ & H & _).
Defined.
