(* ===== verification/DownTheorems.v ===== *)
(** * What a teardown guarantees, the theorems

    Every run of [Down] taken apart into its phases, and what follows: which replicas
    are kept, that an error leaves the project as it is, what force does, and that every
    failed release is accounted for. *)

From S2P Require Import Reconcile Walk WalkProps Service Prelude GoStr LogDriver Model Prog ComposeSpec Naming Lifecycle Graph Targets Plan HookData HookOutput ComposeSvc HookRunner HookSteps HookProps Down DownProps DownReleases.

(** ** The shared objects along a trace *)

Lemma sh_trace_at s t1 a t2 : sh_trace s (t1 ++ a :: t2) -> sh_answers (sh_after s t1) a.
Proof. by intros (_ & H & _)%sh_trace_app. Qed.

Lemma sh_after_cons s a tr : sh_after s (a :: tr) = sh_after (sh_next s a) tr.
Proof. done. Qed.

(** Nothing marks a replica as kept but [MarkKept]. *)
Definition marks_kept (a : cact) : Prop := match a with Act (MarkKept _ _) _ => True | _ => False end.

Lemma sh_kept_quiet s tr : Forall (fun a => ~ marks_kept a) tr -> sh_kept (sh_after s tr) = sh_kept s.
Proof.
  revert s. induction tr as [|a tr IH]; intros s H; [done|]. inversion H as [|? ? Ha Htr]; subst.
  rewrite sh_after_cons, (IH _ Htr). by destruct a as [X [] x].
Qed.

Lemma sh_kept_stays ctx s tr id :
  Forall (stop_act ctx) tr -> (exists k, sh_kept s !! id = Some (Some k)) ->
  exists k, sh_kept (sh_after s tr) !! id = Some (Some k).
Proof.
  revert s. induction tr as [|a tr IH]; intros s H Hk; [done|]. inversion H as [|? ? Ha Htr]; subst.
  rewrite sh_after_cons. apply IH; [done|]. destruct a as [X [] x]; try done. simpl.
  destruct (decide (id0 = id)) as [->|]; [|by rewrite lookup_insert_ne].
  destruct Ha as [k ->]. rewrite lookup_insert_eq. by eexists.
Qed.

Lemma sh_kept_marked ctx s tr id e u :
  Forall (stop_act ctx) tr -> Act (MarkKept id e) u ∈ tr -> exists k, sh_kept (sh_after s tr) !! id = Some (Some k).
Proof.
  revert s. induction tr as [|a tr IH]; intros s H Hin; [by apply elem_of_nil in Hin|].
  inversion H as [|? ? Ha Htr]; subst. apply elem_of_cons in Hin as [<-|Hin]; rewrite sh_after_cons; [|by apply IH].
  apply (sh_kept_stays ctx); [done|]. simpl. destruct Ha as [k ->]. rewrite lookup_insert_eq. by eexists.
Qed.

(** A recorder holds what was recorded since it was last emptied. *)
Definition takes (rec : recorder) (a : cact) : Prop := match a with Act (TakeFailures r) _ => r = rec | _ => False end.

Lemma sh_failed_after rec s tr :
  Forall (fun a => ~ takes rec a) tr -> sh_failed (sh_after s tr) rec = sh_failed s rec ++ recorded rec tr.
Proof.
  revert s. induction tr as [|a tr IH]; intros s H; [by rewrite app_nil_r|].
  inversion H as [|? ? Ha Htr]; subst. rewrite sh_after_cons, (IH _ Htr).
  destruct a as [X [] x]; try done; simpl.
  - destruct (decide (rec = rec0)) as [->|Hne]; [by rewrite decide_True, <- app_assoc by done|by rewrite decide_False by congruence].
  - destruct (decide (rec = rec0)) as [->|Hne]; [by destruct Ha|done].
Qed.

Section Theorems.
Context (marshalRelease : resourceRelease -> result err string)
        (unmarshalRelease : string -> result err resourceRelease)
        (unmarshalHooks : string -> result string (list LifecycleHook))
        (unmarshalAfter : string -> result string (list AfterSpec))
        (workdirHash : string -> string) (cfg : CmdmanConfig) (absPath : string -> option string)
        (reporter limited : bool) (errText : err -> string).

Notation down := (Down marshalRelease unmarshalRelease unmarshalHooks unmarshalAfter workdirHash cfg absPath reporter limited errText).
Notation stops_of := (stop_phase marshalRelease unmarshalRelease unmarshalHooks workdirHash cfg absPath reporter limited errText).
Notation retries_of := (retryReleases marshalRelease unmarshalRelease workdirHash cfg absPath reporter).
Notation removes_of := (removeAllConcurrent marshalRelease unmarshalRelease unmarshalHooks workdirHash cfg absPath reporter).

(** ** The phases of a run *)

(** The stops, the retries and the removals of a down that selects something. *)
Inductive work (selection : ProjectSelection) (opts : DownOption) (spec : option ComposeSpec) (targets : targetSet)
    (entries : list CommandEntry) : list cact -> DownResult -> Prop :=
| work_none d :
    ts_filter targets entries = [] -> dr_Stops d = [] -> dr_Removes d = [] ->
    work selection opts spec targets entries [] d
| work_done removeTargets t1 t2 t3 d :
    run (stops_of (Some DownRecorder) opts spec targets entries) t1 (Ok (dr_Stops d, removeTargets)) ->
    run (retries_of DownRecorder selection (do_Force opts)) t2 tt ->
    run (removes_of (Some DownRecorder) (do_Force opts) removeTargets) t3 (dr_Removes d) ->
    work selection opts spec targets entries (t1 ++ t2 ++ t3) d.

(** The calls that only report. *)
Definition reports (a : cact) : Prop := match a with Act (Report _) _ => True | _ => False end.

Lemma addUnreleased_run outcomes failed tr r :
  run (addUnreleased reporter outcomes failed) tr r -> Forall reports tr /\ r = (add_unreleased outcomes failed).1.
Proof.
  unfold addUnreleased. destruct (add_unreleased outcomes failed) as [outs rep]. intros H.
  inv_run H as [] t1 H1. inv_ret H. rewrite app_nil_r. split; [|done]. revert H1.
  apply always_for_each. intros o _. unfold reportEvent. follow.
Qed.

(** What is left after the work: no marks, no forced removals, and the recorder is not
    emptied. *)
Definition after_act (a : cact) : Prop :=
  match a with
  | Act (MarkKept _ _) _ => False
  | Act (SvcRemove _ force) _ => force = false
  | Act (TakeFailures _) _ => False
  | _ => True
  end.

Lemma tear_down_run selection opts spec targets entries tr d :
  run (tear_down marshalRelease unmarshalRelease unmarshalHooks workdirHash cfg absPath reporter limited errText
         selection opts spec targets entries) tr (Ok d) ->
  exists tw ts failed outcomes tr', tr = tw ++ ts ++ Act (ReadFailures DownRecorder) failed :: tr' /\
    work selection opts spec targets entries tw d /\
    Forall after_act (ts ++ Act (ReadFailures DownRecorder) failed :: tr') /\
    recorded DownRecorder tr' = [] /\ dr_Releases d = (add_unreleased outcomes failed).1.
Proof.
  unfold tear_down. intros H. inv_run H as [[stops removes]|e] tw Hw; [|inv_ret H].
  inv_run H as rels ts Hs. inv_run H as failed t3 H3. inv_run H as rels' t4 H4. inv_ret H.
  apply addUnreleased_run in H4 as [Hrep ->]. exists tw, ts, failed, rels, t4. rewrite app_nil_r. split_and!; try done.
  - destruct (ts_filter targets entries) eqn:Hsel.
    { apply run_ret in Hw as [-> [= -> ->]]. by constructor. }
    inv_run Hw as [[stops' removeTargets]|e] t1 H1; [|inv_ret Hw].
    inv_run Hw as [] t2 H2. inv_run Hw as rm t5 H5. inv_ret Hw. rewrite app_nil_r. by econstructor.
  - apply Forall_app. split; [|constructor; [done|]; eapply Forall_impl; [exact Hrep|]; by intros [X [] x]].
    destruct (decide (targets = ∅)); [|by apply run_ret in Hs as [-> _]].
    apply releaseStranded_acts in Hs. eapply Forall_impl; [exact Hs|]. intros [X [] x]; try done. by intros [-> _].
  - clear -Hrep. induction Hrep as [|[X [] x] t Ha _ IH]; try done.
Qed.

Lemma Down_run selection opts tr d :
  run (down selection opts) tr (Ok d) ->
  exists entries targets spec tr', tr = Act (SvcList (projectLabels (sel_WorkDir selection) (sel_Project selection))) (Ok entries) :: tr' /\
    run (tear_down marshalRelease unmarshalRelease unmarshalHooks workdirHash cfg absPath reporter limited errText
         selection opts spec targets entries) tr' (Ok d).
Proof.
  unfold Down. intros H. destruct (checkStopTimeout (do_Timeout opts)); [inv_ret H|].
  destruct (list_find _ (do_Targets opts)) as [[? ?]|]; [inv_ret H|].
  inv_run H as [entries|e] t1 H1; [|inv_ret H].
  destruct (try targets := _ in _) as [[targets spec]|e]; [|inv_ret H]. eauto 10.
Qed.

(** ** Which replicas are removed *)

(** The removals, each with the question whether its replica is kept before it. *)
Lemma removes_run ctx force es tr rs :
  run (removes_of ctx force es) tr rs ->
  exists trs outs order t, merges trs t /\ tr = t ++ [Act (EndOrder (length outs)) order] /\ rs = reorder order outs /\
    Forall (fun a => ~ marks_kept a) tr /\
    Forall3 (fun e t o => run (remove_entry marshalRelease unmarshalRelease unmarshalHooks workdirHash cfg absPath
                                 reporter ctx force e) t o) es trs outs.
Proof.
  intros (trs & outs & order & t & H3 & Hm & -> & ->)%run_group. exists trs, outs, order, t. split_and!; try done.
  - apply Forall_app. split; [|apply Forall_singleton; by intros []]. apply (merges_Forall _ _ _ Hm). clear Hm.
    revert trs outs H3. induction es as [|e es IH]; intros trs outs H3; inversion H3 as [|? t1 ? ? trs' outs' He Hes]; subst; [constructor|].
    constructor; [|by eapply IH]. apply remove_entry_run in He as (kept & t' & -> & _ & Hk). constructor; [by intros []|].
    destruct kept; [destruct Hk as [_ Hk]|]; (eapply Forall_impl; [exact Hk|]; by intros [X [] x] ? []).
  - clear Hm. revert trs outs H3. induction es as [|e es IH]; intros trs outs H3; inversion H3; subst; constructor; auto.
Qed.

Lemma reorder_seq {A} (pre l : list A) : reorder (seq (length pre) (length l)) (pre ++ l) = l.
Proof.
  revert pre; induction l as [|a l IH]; intros pre; [done|]. unfold reorder in *. simpl.
  rewrite list_lookup_middle by done. f_equal. specialize (IH (pre ++ [a])).
  by rewrite length_app, Nat.add_1_r, <- app_assoc in IH.
Qed.

Lemma reorder_perm {A} order (l : list A) : order ≡ₚ seq 0 (length l) -> reorder order l ≡ₚ l.
Proof. intros H. rewrite <- (reorder_seq [] l) at 2. simpl. unfold reorder. by rewrite H. Qed.

(** A replica that is kept is not removed; asking says so in its outcome. *)
Lemma removes_keep ctx force es s tr rs id k :
  run (removes_of ctx force es) tr rs -> sh_trace s tr -> sh_kept s !! id = Some (Some k) ->
  (forall ids x, Act (SvcRemove ids true) x ∈ tr -> id ∉ ids) /\
  (forall e, e ∈ es -> ID e = id -> let name := entryDisplayName e in
     {| ro_Command := name; ro_Err := Some (RemoveCommand name id (ReplicaKept k)) |} ∈ rs).
Proof.
  intros (trs & outs & order & t & Hm & -> & -> & Hq & H3)%removes_run Hsh Hk.
  assert (Hask : forall e kept t', Act (KeptBy (ID e)) kept :: t' ∈ trs -> ID e = id -> kept = Some k).
  { intros e kept t' Hin <-. destruct (merges_at trs t [] (Act (KeptBy (ID e)) kept) t' Hm Hin) as (a & b & -> & _).
    rewrite <- app_assoc in Hsh, Hq. apply sh_trace_at in Hsh. simpl in Hsh.
    rewrite sh_kept_quiet in Hsh by (by apply Forall_app in Hq as [? _]). by rewrite Hk in Hsh. }
  split.
  - intros ids x Hin Hid. apply elem_of_app in Hin as [Hin|Hin]; [|by apply list_elem_of_singleton in Hin].
    apply (merges_elem _ _ _ Hm) in Hin as (t1 & Ht1 & Hin). apply list_elem_of_lookup in Ht1 as [i Hi].
    destruct (Forall3_lookup_m _ _ _ _ _ _ H3 Hi) as (e & o & _ & _ & Hrun).
    apply remove_entry_run in Hrun as (kept & t' & -> & _ & Hacts).
    apply elem_of_cons in Hin as [?|Hin]; [done|]. destruct kept as [k'|].
    + destruct Hacts as [_ Hacts]. rewrite Forall_forall in Hacts. by apply Hacts in Hin as [_ []].
    + rewrite Forall_forall in Hacts. apply Hacts in Hin. simpl in Hin. rewrite Hin in Hid by done.
      apply list_elem_of_singleton in Hid. enough (None = Some k) by done.
      by eapply Hask, eq_sym; [eapply list_elem_of_lookup_2|].
  - intros e [i Hi]%list_elem_of_lookup He. cbv zeta.
    destruct (Forall3_lookup_l _ _ _ _ _ _ H3 Hi) as (t1 & o & Ht1 & Ho & Hrun).
    apply remove_entry_run in Hrun as (kept & t' & -> & Hc & Hacts).
    assert (kept = Some k) as -> by (by eapply Hask, He; eapply list_elem_of_lookup_2).
    destruct Hacts as [Hr _]. rewrite reorder_perm.
    + apply list_elem_of_lookup. exists i. rewrite Ho. destruct o as [c r]; simpl in *. by subst.
    + apply sh_trace_app in Hsh as [_ [Hsh _]]. exact Hsh.
Qed.
(** The marks of a run are made in its stop phase. *)
Lemma work_marks selection opts spec targets entries tw d id e u :
  work selection opts spec targets entries tw d -> Act (MarkKept id e) u ∈ tw ->
  exists t1 t2 t3 removeTargets, tw = t1 ++ t2 ++ t3 /\ Act (MarkKept id e) u ∈ t1 /\
    run (stops_of (Some DownRecorder) opts spec targets entries) t1 (Ok (dr_Stops d, removeTargets)) /\
    run (retries_of DownRecorder selection (do_Force opts)) t2 tt /\
    run (removes_of (Some DownRecorder) (do_Force opts) removeTargets) t3 (dr_Removes d).
Proof.
  intros [? _ _ _|removeTargets t1 t2 t3 d' H1 H2 H3] Hin; [by apply elem_of_nil in Hin|].
  exists t1, t2, t3, removeTargets. split_and!; try done.
  apply elem_of_app in Hin as [Hin|[Hin|Hin]%elem_of_app]; [done|exfalso..].
  - apply retryReleases_acts in H2. rewrite Forall_forall in H2. by apply H2 in Hin.
  - apply removes_run in H3 as (_ & _ & _ & _ & _ & _ & _ & Hq & _). rewrite Forall_forall in Hq. by apply Hq in Hin.
Qed.

(** A replica whose stop hooks failed is not removed by the [Down] that stopped it:
    no forced removal of the run, which are the removals of replicas, names it. *)
Theorem down_keeps_failed selection opts tr d id e u :
  run (down selection opts) tr (Ok d) -> sh_trace shared0 tr -> Act (MarkKept id e) u ∈ tr ->
  forall ids x, Act (SvcRemove ids true) x ∈ tr -> id ∉ ids.
Proof.
  intros (entries & targets & spec & tr' & -> & Hr)%Down_run [_ Hsh] Hin ids x Hrm.
  apply elem_of_cons in Hin as [?|Hin]; [done|]. apply elem_of_cons in Hrm as [?|Hrm]; [done|].
  apply tear_down_run in Hr as (tw & ts & failed & outcomes & tr2 & -> & Hw & Hts & _ & _).
  rewrite Forall_forall in Hts. apply elem_of_app in Hin as [Hin|Hin]; [|by apply Hts in Hin].
  apply elem_of_app in Hrm as [Hrm|Hrm]; [|by apply Hts in Hrm].
  destruct (work_marks _ _ _ _ _ _ _ _ _ _ Hw Hin) as (t1 & t2 & t3 & rmt & -> & Hm & H1 & H2 & H3).
  apply stop_phase_acts in H1. apply retryReleases_acts in H2. apply sh_trace_app in Hsh as [Hsh _].
  rewrite app_assoc in Hsh. apply sh_trace_app in Hsh as [_ Hsh].
  apply elem_of_app in Hrm as [Hrm|[Hrm|Hrm]%elem_of_app].
  - rewrite Forall_forall in H1. by apply H1 in Hrm as [? _].
  - rewrite Forall_forall in H2. by apply H2 in Hrm as [? _].
  - destruct (sh_kept_marked _ shared0 _ _ _ _ H1 Hm) as [k Hk].
    eapply removes_keep in H3 as [H3 _]; [by eapply H3|exact Hsh|].
    rewrite sh_after_app, sh_kept_quiet; [exact Hk|]. eapply Forall_impl; [exact H2|]. by intros [X [] y] ? [].
Qed.
(** ** A down that returns an error *)

Definition lists_only (a : cact) : Prop := match a with Act (SvcList _) _ => True | _ => False end.

Lemma stop_phase_error ctx opts spec targets entries tr e :
  run (stops_of ctx opts spec targets entries) tr (Err e) -> Forall lists_only tr.
Proof.
  unfold stop_phase. destruct spec as [spec|]; intros H.
  - inv_run H as [stops|e'] t1 H1.
    + destruct (decide (targets = ∅)); [inv_run H as orphans t2 H2|]; inv_ret H.
    + inv_ret H. rewrite app_nil_r. rewrite run_sub in H1. by inversion H1; subst; repeat constructor.
  - inv_run H as stops t1 H1. inv_ret H.
Qed.

(** A [Down] that returns an error has stopped, removed, released and run nothing: all
    it did was list commands. *)
Theorem down_error_untouched selection opts tr e :
  run (down selection opts) tr (Err e) -> Forall lists_only tr.
Proof.
  unfold Down. intros H. destruct (checkStopTimeout (do_Timeout opts)); [inv_ret H; constructor|].
  destruct (list_find _ (do_Targets opts)) as [[? ?]|]; [inv_ret H; constructor|].
  inv_run H as [entries|er] t1 H1; [|inv_ret H; by repeat constructor].
  constructor; [done|]. destruct (try targets := _ in _) as [[targets spec]|er]; [|inv_ret H; constructor].
  unfold tear_down in H. inv_run H as [[stops removes]|er] t2 H2.
  { inv_run H as rels t3 H3. inv_run H as failed t4 H4. inv_run H as rels' t5 H5. inv_ret H. }
  inv_ret H. rewrite app_nil_r. destruct (ts_filter targets entries); [by inv_ret H2|].
  inv_run H2 as [[stops' rmt]|er'] t3 H3.
  { inv_run H2 as [] t4 H4. inv_run H2 as rm t5 H5. inv_ret H2. }
  inv_ret H2. rewrite app_nil_r. by eapply stop_phase_error.
Qed.

(** ** Under force *)

(** Whatever is kept is kept because the context ended, or because the replica has no
    stored configuration. *)
Definition forced_marks (tr : list cact) : Prop :=
  forall id e u, Act (MarkKept id e) u ∈ tr -> cancelled tr \/ exists name, e = Some (NoStoredConfig name).

#[export] Instance forced_marks_closed : Closed forced_marks.
Proof.
  split; [by intros ? ? ? ?%elem_of_nil|]. intros t1 t2 t Hm H1 H2 id e u Hin.
  pose proof (merge_perm _ _ _ Hm) as Hp. rewrite Hp in Hin.
  assert (Hc : cancelled t1 \/ cancelled t2 -> cancelled t).
  { intros [[c Hc]|[c Hc]]; exists c; rewrite Hp; apply elem_of_app; tauto. }
  apply elem_of_app in Hin as [Hin|Hin]; [destruct (H1 _ _ _ Hin)|destruct (H2 _ _ _ Hin)]; tauto.
Qed.

Lemma decoded_on_errors raw hooks : decodeHooksLabel unmarshalHooks raw = Ok hooks -> on_errors_ok hooks.
Proof.
  unfold decodeHooksLabel. case_decide as Hr; [intros [= <-]; by intros ? ? ? ?%elem_of_nil|].
  intros (hs & Hu & (u & Hv%lift_err_ok & [= <-])%result_bind_ok)%result_bind_ok.
  destruct (proj1 (validateLifecycleHooks_ok hs)) as [Hh _]; [by rewrite Hv|].
  intros h ev exec Hin Hev. by apply (ho_events _ (Hh h Hin) ev exec).
Qed.

Lemma forcedHooks_nil : forcedHooks [] = [].
Proof. done. Qed.

Lemma teardownHooks_forced e step tr r :
  run (teardownHooks unmarshalHooks reporter e true step) tr r ->
  (exists name, r = Err (NoStoredConfig name)) \/
  (exists rep hooks, r = Ok (rep, forcedHooks hooks) /\ on_errors_ok hooks).
Proof.
  unfold teardownHooks. intros H. destruct (storedReplica e) as [rep|er] eqn:Hs.
  2:{ left. inv_ret H. exists (entry_Name e). unfold storedReplica in Hs.
      destruct (ConfigJSON e); [by destruct (ScaleOf _)|by injection Hs as <-]. }
  right. unfold storedHooks in H. destruct (lift_err _ _) as [hooks|er] eqn:Hh.
  - inv_ret H. exists rep, hooks. split; [done|]. apply lift_err_ok in Hh. by eapply decoded_on_errors.
  - inv_run H as [] t1 H1. inv_ret H. exists rep, []. split; [done|]. by intros ? ? ? ?%elem_of_nil.
Qed.

Lemma stopReplica_forced ctx e timeout tr fk er :
  run (stopReplica marshalRelease unmarshalRelease unmarshalHooks workdirHash cfg absPath reporter ctx e true timeout)
    tr (true, fk, er) -> cancelled tr \/ exists name, er = Some (NoStoredConfig name).
Proof.
  unfold stopReplica. intros H. inv_run H as found t1 H1.
  destruct (teardownHooks_forced _ _ _ _ H1) as [[name ->]|(rep & hooks & -> & Hok)].
  { right. inv_ret H. by exists name. }
  left. apply cancelled_app. right. unfold stopWithHooks in H. inv_run H as [ws [e1|]] t2 H2.
  { inv_ret H. rewrite app_nil_r. by eapply forced_event. }
  inv_run H as [fk' [e2|]] t3 H3; [inv_ret H|]. inv_run H as [ws' [e3|]] t4 H4; inv_ret H.
  do 2 (apply cancelled_app; right). rewrite app_nil_r. by eapply forced_event.
Qed.

Lemma unmarked_forced tr : Forall (fun a => ~ marks_kept a) tr -> forced_marks tr.
Proof. intros H id e u Hin. rewrite Forall_forall in H. by destruct (H _ Hin). Qed.

Lemma teardownStop_forced ctx timeout e :
  traces (teardownStop marshalRelease unmarshalRelease unmarshalHooks workdirHash cfg absPath reporter limited
            ctx true timeout e) forced_marks.
Proof.
  intros tr r H. unfold teardownStop in H. inv_run H as slot t1 H1. apply closed_app; [exact _| |].
  { apply unmarked_forced. revert H1. unfold acquireStop. apply always_if; follow. }
  destruct slot as [er|]; [inv_ret H; apply closed_nil|]. inv_run H as [] t2 H2.
  apply (closed_app _ [_]); [apply unmarked_forced, Forall_singleton; by intros []|].
  inv_run H as [[failed fk] er] t3 H3. inv_run H as [] t4 H4. inv_run H as [] t5 H5. inv_ret H. rewrite app_nil_r.
  rewrite app_assoc. apply closed_app; [exact _| |].
  2:{ apply unmarked_forced. revert H5. unfold releaseStop. apply always_if; follow. }
  pose proof H3 as Hq. apply stopReplica_acts in Hq.
  destruct failed; [|apply run_ret in H4 as [-> _]; rewrite app_nil_r; apply unmarked_forced; eapply Forall_impl; [exact Hq|]; by intros [X [] x] ? []].
  apply run_call in H4 as ->. apply stopReplica_forced in H3. intros id e' u Hin.
  destruct H3 as [Hc|[name ->]]; [left; by apply cancelled_app; left|right].
  apply elem_of_app in Hin as [Hin|Hin%list_elem_of_singleton].
  - rewrite Forall_forall in Hq. by apply Hq in Hin.
  - injection Hin as _ ->. by exists name.
Qed.

(** Under force a replica is kept only when the context ended while it was being
    stopped, or when it has no stored configuration to remove it by. *)
Theorem forced_down_removes selection opts tr d id e u :
  do_Force opts = true -> run (down selection opts) tr (Ok d) -> Act (MarkKept id e) u ∈ tr ->
  cancelled tr \/ exists name, e = Some (NoStoredConfig name).
Proof.
  intros Hf (entries & targets & spec & tr' & -> & Hr)%Down_run Hin.
  apply elem_of_cons in Hin as [?|Hin]; [done|].
  apply tear_down_run in Hr as (tw & ts & failed & outcomes & tr2 & -> & Hw & Hts & _ & _).
  apply elem_of_app in Hin as [Hin|Hin]; [|rewrite Forall_forall in Hts; by apply Hts in Hin].
  destruct (work_marks _ _ _ _ _ _ _ _ _ _ Hw Hin) as (t1 & t2 & t3 & rmt & -> & Hm & H1 & _).
  assert (Hq : forced_marks t1).
  { revert H1. eapply stop_phase_traces; [exact _| |apply teardownStop_forced|done|done].
    intros t Ht. apply unmarked_forced. eapply Forall_impl; [exact Ht|]. by intros [X [] x] ? []. }
  destruct (Hq _ _ _ Hm) as [Hc|]; [left|by right].
  apply (cancelled_app [_]); right. do 2 (apply cancelled_app; left). done.
Qed.

(** ** Every failed release is accounted for *)

Notation release_of := (runRelease marshalRelease unmarshalRelease workdirHash cfg absPath reporter).
Notation failures_left := (retryFailures marshalRelease unmarshalRelease workdirHash cfg absPath reporter).
Notation one_retry := (retry_one marshalRelease unmarshalRelease workdirHash cfg absPath reporter).

(** The release of the holder [h] has run and ended with exit code 0. *)
Definition released (h : resourceHolder) (tr : list cact) : Prop :=
  exists rel, h_Release h = Some rel /\
    (rref_Key (h_Ref h) <> "" -> acquires (rel_Event rel) = false ->
     exited_ok (ExecCommandName (h_Owner h) (hookName h) (rel_Event rel)) tr).

Lemma exited_ok_mono name t tr : exited_ok name t -> t ⊆ tr -> exited_ok name tr.
Proof. intros (i & r & H & ?) Ht. exists i, r. split; [by apply Ht|done]. Qed.

Lemma released_mono h t tr : released h t -> t ⊆ tr -> released h tr.
Proof. intros (rel & H & Hr) Ht. exists rel. split; [done|]. intros. eapply exited_ok_mono; eauto. Qed.

Lemma release_hook_resource h rel force : Resource (release_hook h rel force) = rref_Key (h_Ref h).
Proof. by destruct force. Qed.

(** A stored release that neither failed nor recorded a failure has run. *)
Lemma runRelease_released rec h force t w :
  run (release_of (Some rec) h force) t (w, None) -> recorded rec t = [] -> released h t.
Proof.
  unfold runRelease. destruct (h_Release h) as [rel|] eqn:Hrel; [|intros H; inv_ret H].
  intros H Hrec. exists rel. split; [done|]. intros Hkey Hacq.
  assert (His : is_release (release_run h rel) (release_hook h rel force) = true).
  { unfold is_release. rewrite release_hook_resource. simpl. rewrite Hacq. simpl. rewrite andb_true_r.
    by apply bool_decide_eq_true. }
  destruct (Events (release_hook h rel force) !! rel_Event rel) as [exec|] eqn:Hev.
  - eapply (runHookAs_release _ _ unmarshalHooks) in H; [|exact His]. destruct H as [(_ & _ & _ & H)|(? & ? & ? & ? & Hr & _)]; [exact H|].
    by rewrite Hr in Hrec.
  - exfalso. destruct force; simpl in Hev; [rewrite lookup_fmap in Hev; unfold OnError, LifecycleEvent in Hev|]; by rewrite lookup_singleton_eq in Hev.
Qed.

(** The calls of the retries themselves. *)
Definition retried_act (a : cact) : Prop :=
  match a with
  | Act (RecordFailure rec _) _ => rec <> DownRecorder
  | Act (TakeFailures _) _ => False
  | _ => True
  end.

Lemma hook_retried_act i a : hook_act (Some (RetryRecorder i)) True a -> retried_act a.
Proof. destruct a as [X [] x]; simpl; try done. by intros [= <-]. Qed.

Lemma retryFailures_acts failed sel force : always (failures_left failed sel force) retried_act.
Proof.
  assert (H1 : forall i f, always (one_retry force i f) retried_act).
  { intros i f. unfold retry_one. follow. eapply always_weaken; [apply hook_retried_act|].
    apply release_acts. }
  unfold retryFailures. follow. apply always_par_list, Forall_forall.
  intros p (j & f' & -> & _)%elem_of_lookup_imap. follow.
Qed.

(** One retry: the release, and what its own recorder then holds. *)
Lemma retry_one_run force i f tr g gone :
  run (one_retry force i f) tr (g, gone) ->
  fr_holder g = fr_holder f /\
  exists t w e x, tr = t ++ [Act (ReadFailures (RetryRecorder i)) x] /\
    run (release_of (Some (RetryRecorder i)) (fr_holder f) force) t (w, e) /\ (gone = true -> x = [] /\ e = None).
Proof.
  unfold retry_one. intros H. inv_run H as [w e] t1 H1. inv_run H as x t2 H2.
  assert (fr_holder g = fr_holder f /\ t2' = [] /\ (gone = true -> x = [] /\ e = None)) as (Hh & -> & Hg).
  { destruct (last x) as [l|] eqn:Hx; [inv_ret H; split_and!; done|]. apply last_None in Hx as ->.
    inv_ret H. split_and!; [done..|]. by destruct e. }
  split; [done|]. by exists t1, w, e, x.
Qed.

(** Once a retry is over its recorder tells whether it recorded a failure, however the
    other retries interleave with it. *)
Lemma retry_in_group s trs t i force f u g :
  sh_trace s t -> (forall i, sh_failed s (RetryRecorder i) = []) ->
  merges trs t -> Forall (fun a => ~ takes (RetryRecorder i) a) t ->
  u ∈ trs -> run (one_retry force i f) u (g, true) -> released (fr_holder f) t.
Proof.
  intros Hsh Hs Hm Hq Hu (_ & u1 & w & e & x & -> & Hr & Hg)%retry_one_run. destruct (Hg eq_refl) as [-> ->]. clear Hg.
  destruct (merges_at trs t u1 (Act (ReadFailures (RetryRecorder i)) []) [] Hm Hu) as (a & b & -> & Hsub).
  apply sh_trace_at in Hsh. apply Forall_app in Hq as [Hq _]. simpl in Hsh. rewrite sh_failed_after, Hs in Hsh by done.
  simpl in Hsh. unfold sortFailures in Hsh. symmetry in Hsh.
  assert (recorded (RetryRecorder i) a = []) as Ha.
  { apply Permutation_nil_r. rewrite <- Hsh. symmetry. apply stable_sort_perm. }
  eapply released_mono; [eapply runRelease_released; [exact Hr|]|set_solver].
  apply elem_of_nil_inv. intros y (c & Hc & Hy)%list_elem_of_omap.
  enough (y ∈ recorded (RetryRecorder i) a) as H by (rewrite Ha in H; by apply elem_of_nil in H).
  apply list_elem_of_omap. exists c. split; [by apply Hsub|done].
Qed.

(** A failure taken up by the retries is left in some form, or its release has run. *)
Lemma failures_left_run failed sel force s tr left f :
  run (failures_left failed sel force) tr left -> sh_trace s tr ->
  (forall i, sh_failed s (RetryRecorder i) = []) -> f ∈ failed ->
  (exists g, g ∈ left /\ fr_holder g = fr_holder f) \/ released (fr_holder f) tr.
Proof.
  intros H Hsh Hs Hf. pose proof H as Hacts. apply retryFailures_acts in Hacts. unfold retryFailures in H.
  destruct failed as [|f0 failed']; [by apply elem_of_nil in Hf|]. set (failed := f0 :: failed') in *.
  inv_run H as [c|] t1 H1; [left; inv_ret H; eauto|]. inv_run H as [entries|er] t2 H2; [|left; inv_ret H; eauto].
  inv_run H as rs t3 H3. inv_ret H. rewrite app_nil_r in *. apply run_par_list in H3 as (trs & H3 & Hm).
  apply list_elem_of_lookup in Hf as [i Hi].
  destruct (Forall3_lookup_l _ _ _ _ i (if retriable (stopped_map entries) f then one_retry force i f else mret (f, false)) H3)
    as (u & [g gone] & Hu & Hg & Hrun); [by rewrite list_lookup_imap, Hi|].
  assert (Hleft : gone = false -> g ∈ omap (fun r : failedRelease * bool => if r.2 then None else Some r.1) rs).
  { intros ->. apply list_elem_of_omap. exists (g, false). split; [by eapply list_elem_of_lookup_2|done]. }
  destruct (retriable (stopped_map entries) f).
  - destruct gone; [right|left; exists g; split; [by apply Hleft|by apply retry_one_run in Hrun as [? _]]].
    apply sh_trace_app in Hsh as [_ Hsh]. apply (sh_trace_app _ [_]) in Hsh as [_ Hsh].
    eapply (released_mono _ t3); [|set_solver].
    eapply retry_in_group; [exact Hsh|exact Hs|exact Hm| |by eapply list_elem_of_lookup_2|exact Hrun].
    do 2 (apply Forall_cons in Hacts as [_ Hacts]). eapply Forall_impl; [exact Hacts|]. by intros [X [] y] ? ?.
  - left. apply run_ret in Hrun as [_ [= -> ->]]. exists f. split; [by apply Hleft|done].
Qed.

Lemma recorded_elem rec f u tr : Act (RecordFailure rec f) u ∈ tr -> f ∈ recorded rec tr.
Proof. intros H. apply list_elem_of_omap. eexists; split; [exact H|]. simpl. by rewrite decide_True. Qed.

Lemma retried_quiet tr : Forall retried_act tr -> recorded DownRecorder tr = [] /\ forall rec, Forall (fun a => ~ takes rec a) tr.
Proof.
  intros H. split; [|intros rec; eapply Forall_impl; [exact H|]; by intros [X [] x] ? ?].
  induction H as [|[X [] x] tr Ha _ IH]; try done. simpl. by rewrite decide_False.
Qed.

Lemma for_each_records rec l tr :
  run (for_each (fun f => call (RecordFailure rec f)) l) tr tt ->
  recorded rec tr = l /\ forall rec, Forall (fun a => ~ takes rec a) tr.
Proof.
  revert tr; induction l as [|f l IH]; intros tr H; [by inv_ret H|]. inv_run H as u t1 H1.
  destruct (IH _ H) as [Hr Ht]. simpl. rewrite decide_True, Hr by done. split; [done|]. intros rec'. constructor; [by intros []|done].
Qed.

(** After the retries the recorder holds what they could not release, and every failure
    from before is there in some form, or was released. *)
Lemma retries_run sel force s tr :
  run (retries_of DownRecorder sel force) tr tt -> sh_trace s tr ->
  (forall i, sh_failed s (RetryRecorder i) = []) ->
  sh_failed (sh_after s tr) DownRecorder = recorded DownRecorder tr /\
  forall f, f ∈ sh_failed s DownRecorder ->
    (exists g, g ∈ recorded DownRecorder tr /\ nm g = nm f) \/
    exists g, g ∈ sh_failed s DownRecorder /\ nm g = nm f /\ released (fr_holder g) tr.
Proof.
  unfold retryReleases. intros H Hsh Hs. inv_run H as taken t1 H1. inv_run H as left t2 H2.
  destruct (for_each_records _ _ _ H) as [Hrec Ht]. destruct Hsh as [Htaken Hsh]. simpl in Htaken.
  apply (sh_trace_app _ t2) in Hsh as [Hsh _]. pose proof H2 as Hacts. apply retryFailures_acts, retried_quiet in Hacts as [Hq Htk].
  set (s1 := sh_next s (Act (TakeFailures DownRecorder) taken)) in *. split.
  - rewrite !sh_after_app. change (sh_after s [_]) with s1. rewrite !sh_failed_after by done. by rewrite !recorded_app, Hq.
  - intros f (g & Hg & Hgs & Hn)%keep_last_all. simpl. rewrite recorded_app, Hq, Hrec. simpl. subst taken.
    destruct (failures_left_run _ _ _ _ _ _ _ H2 Hsh ltac:(done) Hg) as [(g' & Hg' & Hh)|Hrel].
    + left. exists g'. split; [done|]. by rewrite Hh.
    + right. exists g. split; [done|]. split; [done|]. eapply released_mono; [exact Hrel|set_solver].
Qed.

Lemma removes_quiet ctx force es tr rs rec : run (removes_of ctx force es) tr rs -> Forall (fun a => ~ takes rec a) tr.
Proof.
  intros (trs & outs & order & t & Hm & -> & _ & _ & H3)%removes_run.
  apply Forall_app. split; [|apply Forall_singleton; by intros []]. apply (merges_Forall _ _ _ Hm). clear Hm.
  induction H3 as [|e t1 o es trs outs He _ IH]; constructor; [|done].
  apply remove_entry_run in He as (kept & t' & -> & _ & Hk). constructor; [by intros []|].
  destruct kept; [destruct Hk as [_ Hk]|]; (eapply Forall_impl; [exact Hk|]; by intros [X [] x] ? ?).
Qed.

Lemma stops_quiet tr : Forall (stop_act (Some DownRecorder)) tr ->
  (forall rec, Forall (fun a => ~ takes rec a) tr) /\ forall i, recorded (RetryRecorder i) tr = [].
Proof.
  intros H. split; [intros rec; eapply Forall_impl; [exact H|]; by intros [X [] x] ? ?|].
  intros i. induction H as [|[X [] x] tr Ha _ IH]; try done. simpl. rewrite decide_False; [done|]. by injection Ha as <-.
Qed.

(** [f] was recorded, and after it the release stored for the holder it is about, as it or
    another failure recorded for that holder gives it, has run and ended with exit code 0. *)
Definition released_after (f : failedRelease) (tr : list cact) : Prop :=
  exists a b g, tr = a ++ b /\ f ∈ recorded DownRecorder a /\ g ∈ recorded DownRecorder a /\ nm g = nm f /\ released (fr_holder g) b.

(** The failures of the work: the recorder has them at its end, or they were released. *)
Lemma work_accounts selection opts spec targets entries s tw d f :
  work selection opts spec targets entries tw d -> sh_trace s tw -> (forall rec, sh_failed s rec = []) ->
  f ∈ recorded DownRecorder tw ->
  (exists g, g ∈ sh_failed (sh_after s tw) DownRecorder /\ nm g = nm f) \/ released_after f tw.
Proof.
  intros [d' _ _ _|rmt t1 t2 t3 d' H1 H2 H3] Hsh Hs Hf; [by apply elem_of_nil in Hf|].
  apply stop_phase_acts, stops_quiet in H1 as [Htk1 Hr1].
  apply sh_trace_app in Hsh as [_ Hsh]. apply (sh_trace_app _ t2) in Hsh as [Hsh _].
  destruct (retries_run _ _ _ _ H2 Hsh) as [Hafter Hacc]; [intros i; by rewrite sh_failed_after, Hs, Hr1|].
  rewrite !sh_after_app, (sh_failed_after _ _ t3), Hafter by (by eapply removes_quiet). rewrite !recorded_app in Hf.
  apply elem_of_app in Hf as [Hf|Hf]; [|left; exists f; done].
  destruct (Hacc f) as [(g & Hg & Hn)|(g & Hg & Hn & Hrel)]; [by rewrite sh_failed_after, Hs by done| |].
  - left. exists g. split; [set_solver|done].
  - right. rewrite sh_failed_after, Hs in Hg by done. exists t1, (t2 ++ t3), g. split_and!; [done..|].
    eapply released_mono; [exact Hrel|set_solver].
Qed.

(** C6: every failed release of a [Down] is accounted for: either the result has an
    outcome for its holder, with an error or a warning, or the retries released it: after
    the failure was recorded, the release stored with it, or with another failure recorded
    for the holder before, has run and ended with exit code 0, if it releases at all (its holder has a resource key, and
    its event is not one that acquires). *)
Theorem down_accounts_for_releases selection opts tr d f u :
  run (down selection opts) tr (Ok d) -> sh_trace shared0 tr -> Act (RecordFailure DownRecorder f) u ∈ tr ->
  (exists o, o ∈ dr_Releases d /\ rl_Holder o = nm f /\ (is_Some (rl_Err o) \/ is_Some (rl_Warning o))) \/
  released_after f tr.
Proof.
  intros (entries & targets & spec & tr' & -> & Hr)%Down_run [_ Hsh] Hf%recorded_elem. simpl in Hf.
  apply tear_down_run in Hr as (tw & ts & failed & outcomes & tr2 & -> & Hw & Hts & Hq & Hrel).
  set (s0 := sh_next shared0 _) in *. assert (Hs0 : forall rec, sh_failed s0 rec = []) by done. clearbody s0.
  rewrite app_assoc in Hsh. pose proof (sh_trace_at _ _ _ _ Hsh) as Hfailed. simpl in Hfailed.
  apply Forall_app in Hts as [Hts _]. rewrite !recorded_app in Hf. simpl in Hf. rewrite Hq, app_nil_r in Hf.
  assert (Htk : Forall (fun a => ~ takes DownRecorder a) ts) by (eapply Forall_impl; [exact Hts|]; by intros [X [] x] ? ?).
  rewrite sh_after_app, sh_failed_after in Hfailed by done.
  assert (Hout : forall g, nm g = nm f -> g ∈ sh_failed (sh_after s0 tw) DownRecorder ++ recorded DownRecorder ts ->
    exists o, o ∈ dr_Releases d /\ rl_Holder o = nm f /\ (is_Some (rl_Err o) \/ is_Some (rl_Warning o))).
  { intros g Hn Hg. assert (Hg' : g ∈ failed) by (subst failed; unfold sortFailures; by rewrite elem_of_stable_sort).
    destruct (add_unreleased_all outcomes failed g Hg') as (l & Hl & Hin). exists (fill (nm g) l). rewrite Hrel, <- Hn.
    split_and!; [done|done|]. simpl. destruct (fails l); [left|right]; by eexists. }
  do 2 apply sh_trace_app in Hsh as [Hsh _].
  apply elem_of_app in Hf as [Hf|Hf]; [|left; apply (Hout f); set_solver].
  destruct (work_accounts _ _ _ _ _ _ _ _ _ Hw Hsh Hs0 Hf) as [(g & Hg & Hn)|(a & b & g & -> & Hfa & Hg & Hn & Hh)].
  - left. apply (Hout g); [done|set_solver].
  - right. eexists (_ :: a), (b ++ _), g. split; [by rewrite <- !app_assoc|]. split_and!; [done..|].
    eapply released_mono; [exact Hh|set_solver].
Qed.
End Theorems.

(** ** Witnesses *)

(** Two projects in a directory, whose stored hooks are those of the label. *)
Definition running_entry (id project hooks : string) : CommandEntry := {|
  ID := id; entry_Name := id; CreatedAt := ""; entry_State := EventTypeRunning; ExitCode := None;
  ConfigJSON := Some (labelled {[LabelProject := project; LabelCommand := "web"; LabelHooks := hooks]});
  StateJSON := None |}.

(** The label "broken" does not decode, "db" is a hook that holds a database. *)
Definition db_hook : LifecycleHook :=
  MkLifecycleHook "db" "db" {[LifecycleStartPost := MkExec ["up"] ""; LifecycleStopPost := MkExec ["down"] ""]}.
Definition some_hooks (raw : string) : result string (list LifecycleHook) :=
  if decide (raw = "db") then Ok [db_hook] else Err "no JSON".

Definition no_codec {A B} (_ : A) : result err B := Err (Opaque "no codec").
Definition some_cfg : CmdmanConfig :=
  {| DataDir := "/data"; RuntimeDir := "/run"; ConfigPath := ""; DefaultWorkingDir := "/"; DefaultEnvironment := [] |}.
Definition whole_dir : ProjectSelection := {| sel_Spec := None; sel_WorkDir := "/w"; sel_Project := "" |}.

Definition some_down (force : bool) : cprog (result err DownResult) :=
  Down no_codec no_codec some_hooks (fun _ => Ok []) (fun w => w) some_cfg Some true true (fun _ => "") whole_dir
    {| do_Targets := []; do_Force := force; do_Timeout := None |}.

(** What the service lists: for the whole directory, the two commands. *)
Definition listing (entries : list CommandEntry) (labels : gmap string string) : list CommandEntry :=
  if decide (labels = projectLabels "/w" "") then entries else [].

Definition two (hooks : string) : list CommandEntry := [running_entry "a" "p" hooks; running_entry "b" "q" ""].

Definition marks (id : string) (a : cact) : bool :=
  match a with Act (MarkKept i _) _ => bool_decide (i = id) | _ => false end.
Definition removes (id : string) (a : cact) : bool :=
  match a with Act (SvcRemove ids force) _ => force && bool_decide (ids = [id]) | _ => false end.

Lemma marks_elem id tr : existsb (marks id) tr = true -> exists e u, Act (MarkKept id e) u ∈ tr.
Proof. intros ([X [] x] & Ha & Hf)%existsb_act; try done. simpl in Hf. apply bool_decide_eq_true in Hf as ->. eauto. Qed.

Lemma removes_elem id tr : existsb (removes id) tr = true -> exists x, Act (SvcRemove [id] true) x ∈ tr.
Proof.
  intros ([X [] x] & Ha & Hf)%existsb_act; try done. simpl in Hf.
  apply andb_true_iff in Hf as [-> ->%bool_decide_eq_true]. eauto.
Qed.

Lemma down_keeps_failed_witness :
  exists tr d e u, run (some_down false) tr (Ok d) /\ sh_trace shared0 tr /\ Act (MarkKept "a" e) u ∈ tr /\
    (exists x, Act (SvcRemove ["b"] true) x ∈ tr) /\
    (forall ids x, Act (SvcRemove ids true) x ∈ tr -> "a" ∉ ids).
Proof.
  destruct (ran_check (plain_svc (listing (two "broken")) 0) (some_down false)
    (fun r tr => match r with Ok _ => existsb (marks "a") tr && existsb (removes "b") tr | _ => false end))
    as ([d|e] & tr & Hr & Hs & Hc); [vm_compute; reflexivity| |done].
  apply andb_true_iff in Hc as [(e & u & Hm)%marks_elem (x & Hx)%removes_elem].
  exists tr, d, e, u. split_and!; eauto. by eapply down_keeps_failed.
Defined.

Lemma forced_down_removes_witness :
  exists tr d e u, run (some_down true) tr (Ok d) /\ Act (MarkKept "c" e) u ∈ tr /\
    (cancelled tr \/ exists name, e = Some (NoStoredConfig name)).
Proof.
  destruct (ran_check (plain_svc (listing (two "broken" ++
      [{| ID := "c"; entry_Name := "c"; CreatedAt := ""; entry_State := EventTypeRunning; ExitCode := None;
          ConfigJSON := None; StateJSON := None |}])) 0) (some_down true)
    (fun r tr => match r with Ok _ => existsb (marks "c") tr | _ => false end))
    as ([d|e] & tr & Hr & Hs & Hc); [vm_compute; reflexivity| |done].
  apply marks_elem in Hc as (e & u & Hm). exists tr, d, e, u. split_and!; eauto.
  eapply forced_down_removes, Hm; [|exact Hr]. reflexivity.
Defined.

Lemma down_error_untouched_witness :
  exists tr e, run (some_down false) tr (Err e) /\ length tr = 1 /\ Forall lists_only tr.
Proof.
  exists [Act (SvcList (projectLabels "/w" "")) (Err (Opaque "no store"))], (ListCommands (Opaque "no store")).
  assert (H : run (some_down false) [Act (SvcList (projectLabels "/w" "")) (Err (Opaque "no store"))]
                (Err (ListCommands (Opaque "no store")))) by (eexists _, []; done).
  split_and!; [exact H|done|]. by eapply down_error_untouched.
Defined.

Definition records (a : cact) : bool :=
  match a with Act (RecordFailure rec _) _ => bool_decide (rec = DownRecorder) | _ => false end.

Lemma records_elem tr : existsb records tr = true -> exists f u, Act (RecordFailure DownRecorder f) u ∈ tr.
Proof. intros ([X [] x] & Ha & Hf)%existsb_act; try done. simpl in Hf. apply bool_decide_eq_true in Hf as ->. eauto. Qed.

Lemma down_accounts_for_releases_witness :
  exists tr d f u, run (some_down true) tr (Ok d) /\ sh_trace shared0 tr /\ Act (RecordFailure DownRecorder f) u ∈ tr /\
    ((exists o, o ∈ dr_Releases d /\ rl_Holder o = nm f /\ (is_Some (rl_Err o) \/ is_Some (rl_Warning o))) \/
     released_after f tr).
Proof.
  destruct (ran_check (plain_svc (listing (two "db")) 1) (some_down true)
    (fun r tr => match r with Ok _ => existsb records tr | _ => false end))
    as ([d|e] & tr & Hr & Hs & Hc); [vm_compute; reflexivity| |done].
  apply records_elem in Hc as (f & u & Hf). exists tr, d, f, u. split_and!; eauto.
  by eapply down_accounts_for_releases.
Defined.
