(* ===== verification/Create.v ===== *)
(** * Creating a project

    [cmdman/compose/service_create.go], [service_orphan.go], [service_up.go] and the
    overrides of [service_scale.go]: applying a plan replica by replica, removing what a
    scale-down leaves, and starting what was created.  The start walk is a part whose
    runs are those of [Service.reconcileStart] with the runs of the starts interleaved. *)

From S2P Require Import Reconcile Walk Service Prelude GoStr LogDriver Model Prog ComposeSpec Naming Lifecycle Graph Targets Plan HookData HookOutput ComposeSvc HookRunner HookSteps Down.

(* src/cmdman/compose/service_create.go:34-42 ActionOutcome *)
Record ActionOutcome := { ao_Command : string; ao_Action : string; ao_Err : option err }.

(** A Go string of [%s-%d]. *)
Definition numbered (name : string) (n : Z) : string := name +:+ "-" +:+ Itoa n.

(** ** Scale overrides *)

Definition with_scale (n : Z) (c : Command) : Command := {|
  Name := Name c; c_Dir := c_Dir c; Args := Args c; Env := Env c; ImportHostEnv := ImportHostEnv c;
  InjectEnv := InjectEnv c; c_Labels := c_Labels c; c_RestartPolicy := c_RestartPolicy c; MaxRetries := MaxRetries c;
  StopSignal := StopSignal c; StopGracePeriod := StopGracePeriod c; Stop := Stop c; Tty := Tty c;
  ScrollbackBytes := ScrollbackBytes c; c_LogDriver := c_LogDriver c; LogOpts := LogOpts c; After := After c;
  Hooks := Hooks c; Scale := n; GeneratedName := GeneratedName c |}.

(** The overrides one by one: a map's entries, in any order. *)
(* src/cmdman/compose/service_scale.go:67-77 applyScaleOverrides *)
Fixpoint apply_overrides (cmds : list Command) (index : gmap string nat) (scales : list (string * Z))
  : result err (list Command) :=
  match scales with
  | [] => Ok cmds
  | (name, num) :: scales =>
    match index !! name with
    | None => Err (UnknownScale name)
    | Some i =>
      if decide (num < 1)%Z then Err (BadScale name num)
      else apply_overrides (alter (with_scale num) i cmds) index scales
    end
  end.

(* src/cmdman/compose/service_scale.go:56-78 applyScaleOverrides *)
Definition applyScaleOverrides (spec : ComposeSpec) (scales : list (string * Z)) : result err ComposeSpec :=
  let index := foldl (fun m (ic : nat * Command) => <[Name ic.2 := ic.1]> m) (∅ : gmap string nat)
                 (imap pair (Commands spec)) in
  try cmds := apply_overrides (Commands spec) index scales in
  Ok {| ComposeFile := ComposeFile spec; Project := Project spec; WorkDir := WorkDir spec;
        WorkDirDeclared := WorkDirDeclared spec; Commands := cmds; spec_Mux := spec_Mux spec |}.

Section Create.
Context (marshalRelease : resourceRelease -> result err string)
        (unmarshalRelease : string -> result err resourceRelease)
        (unmarshalHooks : string -> result string (list LifecycleHook))
        (marshalAfter : list AfterSpec -> string)
        (marshalHooks : list LifecycleHook -> string)
        (digest : hashCanonical -> result string string)
        (workdirHash : string -> string)
        (cfg : CmdmanConfig)
        (absPath : string -> option string)
        (reporter : bool)
        (errText : err -> string).

Notation say := (report reporter).
Notation said := (reportStopped reporter).
Notation create_in := (createWithHooks marshalRelease unmarshalRelease workdirHash cfg absPath reporter).
Notation stop_in := (stopWithHooks marshalRelease unmarshalRelease workdirHash cfg absPath reporter).
Notation remove_in := (removeWithHooks marshalRelease unmarshalRelease workdirHash cfg absPath reporter).
Notation remove_replica := (removeReplica marshalRelease unmarshalRelease workdirHash cfg absPath reporter).
Notation start_in := (startReplica marshalRelease unmarshalRelease unmarshalHooks workdirHash cfg absPath reporter).

(** None of these operations has a recorder of failed releases. *)
Notation ctx := (@None recorder).

(** ** Orphans and surplus replicas *)

(* src/cmdman/compose/service_orphan.go:30-96 Service.handleOrphans *)
Definition handle_orphan (orphan : CommandEntry) : cprog ActionOutcome :=
  let name := commandNameOf orphan in
  if entry_live orphan then
    mret {| ao_Command := name; ao_Action := "skipped"; ao_Err := Some (OrphanLive name (entry_State orphan)) |}
  else
    er ← (match storedHookReplica unmarshalHooks orphan with
          | Err e => mret (Some e)
          | Ok (r, hooks) => '(_, e) ← remove_in ctx r hooks [ID orphan] false; mret e
          end);
    mret {| ao_Command := name; ao_Action := "remove-orphan";
            ao_Err := RemoveOrphan name (ID orphan) <$> er |}.

(** Orphans that are not to be removed are logged. *)
(* src/cmdman/compose/service_orphan.go:13-99 Service.handleOrphans *)
Fixpoint handleOrphans (orphans : list CommandEntry) (removeOrphan : bool) : cprog (list ActionOutcome) :=
  match orphans with
  | [] => mret []
  | orphan :: orphans =>
    if negb removeOrphan then handleOrphans orphans removeOrphan
    else o ← handle_orphan orphan; os ← handleOrphans orphans removeOrphan; mret (o :: os)
  end.

(** The end of a step that failed. *)
Definition action_failed (disp action : string) (werr : err) : cprog ActionOutcome :=
  _ ← say disp PhaseError (Some werr) None;
  mret {| ao_Command := disp; ao_Action := action; ao_Err := Some werr |}.

(** One surplus replica of a targeted command. *)
(* src/cmdman/compose/service_create.go:309-364 Service.handleExcessReplicas *)
Definition handle_excess (name : string) (e : CommandEntry) : cprog ActionOutcome :=
  let disp := numbered name (scaleIndexOf e) in
  _ ← say disp PhaseRemoving None None;
  match storedHookReplica unmarshalHooks e with
  | Err er => action_failed disp "remove-excess" (RemoveExcess disp (ID e) er)
  | Ok (r, hooks) =>
    stopped ← (if entry_live e then '(_, _, er) ← stop_in ctx r hooks (ID e) None; mret er else mret None);
    match stopped with
    | Some er => action_failed disp "remove-excess" (StopExcess disp (ID e) er)
    | None =>
      er ← remove_replica ctx r hooks [ID e] true (entry_live e);
      match er with
      | Some er => action_failed disp "remove-excess" (RemoveExcess disp (ID e) er)
      | None => _ ← say disp PhaseRemoved None None;
                mret {| ao_Command := disp; ao_Action := "remove-excess"; ao_Err := None |}
      end
    end
  end.

(* src/cmdman/compose/service_create.go:295-366 Service.handleExcessReplicas *)
Fixpoint handleExcessReplicas (excess : list CommandEntry) (targets : gset string) : cprog (list ActionOutcome) :=
  match excess with
  | [] => mret []
  | e :: excess =>
    match ConfigJSON e with
    | None => handleExcessReplicas excess targets
    | Some c =>
      let name := label (Labels c) LabelCommand in
      if decide (name ∈ targets) then
        o ← handle_excess name e; os ← handleExcessReplicas excess targets; mret (o :: os)
      else handleExcessReplicas excess targets
    end
  end.

(** ** One action of the plan *)

(** The request for the replica of an action. *)
Definition action_request (spec : ComposeSpec) (a : CommandAction) : CreateRequest :=
  buildCreateRequest workdirHash marshalAfter marshalHooks spec (Desired a) (DesiredHash a)
    (ca_InstanceName a) (ca_ScaleIndex a).

(* src/cmdman/compose/service_create.go:159-170 Service.executeAction *)
Definition create_action (spec : ComposeSpec) (a : CommandAction) : cprog ActionOutcome :=
  let nc := Desired a in
  let disp := instanceDisplayName nc (ca_ScaleIndex a) in
  _ ← say disp PhaseCreating None None;
  er ← create_in ctx (specHookReplica workdirHash cfg spec nc (ca_ScaleIndex a)) (Hooks nc) (action_request spec a);
  match er with
  | Some e => action_failed disp "create" (CreateCommand disp (ca_InstanceName a) e)
  | None => _ ← say disp PhaseCreated None None; mret {| ao_Command := disp; ao_Action := "create"; ao_Err := None |}
  end.

(** A replica that changed: stopped if it is live, removed, and created again. *)
(* src/cmdman/compose/service_create.go:179-238 Service.executeAction *)
Definition recreate_action (spec : ComposeSpec) (a : CommandAction) (existing : CommandEntry) : cprog ActionOutcome :=
  let nc := Desired a in
  let disp := instanceDisplayName nc (ca_ScaleIndex a) in
  match storedHookReplica unmarshalHooks existing with
  | Err e => action_failed disp "recreate" (RecreateCommand disp e)
  | Ok (old, oldHooks) =>
    let live := entry_live existing in
    stopped ← (if live then
                 _ ← say disp PhaseStopping None None;
                 '(_, forceKilled, e) ← stop_in ctx old oldHooks (ID existing) None;
                 match e with
                 | Some e => mret (Some (StopForRecreate disp (ID existing) e))
                 | None => _ ← said disp None forceKilled; mret None
                 end
               else mret None);
    match stopped with
    | Some werr => action_failed disp "recreate" werr
    | None =>
      _ ← say disp PhaseRecreating None None;
      removed ← remove_replica ctx old oldHooks [ID existing] false live;
      match removed with
      | Some e => action_failed disp "recreate" (RemoveForRecreate disp e)
      | None =>
        er ← create_in ctx (specHookReplica workdirHash cfg spec nc (ca_ScaleIndex a)) (Hooks nc) (action_request spec a);
        match er with
        | Some e => action_failed disp "recreate" (CreateAfterRemove disp e)
        | None => _ ← say disp PhaseRecreated None None;
                  mret {| ao_Command := disp; ao_Action := "recreate"; ao_Err := None |}
        end
      end
    end
  end.

(* src/cmdman/compose/service_create.go:142-243 Service.executeAction *)
Definition executeAction (spec : ComposeSpec) (a : CommandAction) : cprog ActionOutcome :=
  let disp := instanceDisplayName (Desired a) (ca_ScaleIndex a) in
  match Kind a with
  | ActionUnchanged => _ ← say disp PhaseUnchanged None None;
                       mret {| ao_Command := disp; ao_Action := "unchanged"; ao_Err := None |}
  | ActionCreate => create_action spec a
  | ActionRecreate =>
    match Existing a with
    | None => _ ← say disp PhaseSkipped (Some (RecreateMissing disp)) None;
              mret {| ao_Command := disp; ao_Action := "skipped"; ao_Err := Some (RecreateMissing disp) |}
    | Some existing => recreate_action spec a existing
    end
  end.

(** ** The whole plan *)

Definition action_targeted (closure : gset string) (targets : targetSet) (a : CommandAction) : bool :=
  bool_decide (Name (Desired a) ∈ closure) && covers targets (Name (Desired a)) (ca_ScaleIndex a).

(** The outcomes and, by command name, why a replica is not to be started. *)
(* src/cmdman/compose/service_create.go:114-133 Service.create *)
Fixpoint run_actions (spec : ComposeSpec) (closure : gset string) (targets : targetSet)
    (held : gmap string err) (actions : list CommandAction) : cprog (list ActionOutcome * gmap string err) :=
  match actions with
  | [] => mret ([], held)
  | a :: actions =>
    if action_targeted closure targets a then
      o ← executeAction spec a;
      let held := match ao_Err o with Some e => <[ca_InstanceName a := e]> held | None => held end in
      '(os, held) ← run_actions spec closure targets held actions;
      mret (o :: os, held)
    else run_actions spec closure targets held actions
  end.

(** The actions, and the replicas not to be started. *)
(* src/cmdman/compose/service_create.go:66-140 Service.create *)
Definition create (spec : ComposeSpec) (removeOrphan : bool) (targets : targetSet)
  : cprog (result err (list ActionOutcome * gmap string err)) :=
  listed ← call (SvcList (<[LabelProject := Project spec]> {[LabelWorkdir := WorkDir spec]}));
  match listed with
  | Err e => mret (Err (ListExisting e))
  | Ok existing =>
    match ComputePlan digest spec existing with
    | Err e => mret (Err (PlanError (Project spec) (WorkDir spec) e))
    | Ok plan =>
      let closure := resolveTargetCommands spec (names targets) in
      orphans ← (if decide (targets = ∅) then handleOrphans (Orphans plan) removeOrphan else mret []);
      excess ← (if replicaScoped targets then mret [] else handleExcessReplicas (ExcessReplicas plan) closure);
      '(done, held) ← run_actions spec closure targets ∅ (Actions plan);
      _ ← call (SvcRecordHistory (WorkDir spec) (Project spec) (ComposeFile spec));
      mret (Ok (orphans ++ excess ++ done, held))
    end
  end.

(* src/cmdman/compose/service_create.go:43-64 Service.Create *)
Definition Create (spec : ComposeSpec) (targets : list Target) (removeOrphan : bool)
  : cprog (result err (list ActionOutcome)) :=
  match resolveTargets targets (declaredReplicas spec) with
  | Err e => mret (Err (BadTargets e))
  | Ok ts => attempt (actions, _) := create spec removeOrphan ts in mret (Ok actions)
  end.

(** ** The start walk *)

(** One replica of the loop: the error that ends the action, or whether the replica was
    held back and why. *)
(* src/cmdman/compose/service_reconcile.go:131-173 Service.upStartAction *)
Definition start_replica (spec : ComposeSpec) (src : hookSource) (cmd : Command)
    (stored : gmap string instanceSnapshot) (held : gmap string err) (idx : Z)
  : cprog (result err (option err)) :=
  let genName := InstanceName (GeneratedName cmd) idx in
  let disp := instanceDisplayName cmd idx in
  match held !! genName with
  | Some reason =>
    let werr := HeldStart (Name cmd) genName reason in
    _ ← say disp PhaseSkipped (Some werr) None; mret (Ok (Some werr))
  | None =>
    if match stored !! genName with Some i => is_live i | None => false end then mret (Ok None)
    else
      _ ← say disp PhaseStarting None None;
      er ← (match stored !! genName with
            | Some i => start_in ctx spec src cmd (inst_entry i)
            | None => call (SvcStart genName)
            end);
      match er with
      | Some e =>
        let werr := StartCommand (Name cmd) genName e in
        _ ← say disp PhaseError (Some werr) None; mret (Err werr)
      | None => mret (Ok None)
      end
  end.

(** The loop: the first error of a held replica, and the replicas not held. *)
(* src/cmdman/compose/service_reconcile.go:126-173 Service.upStartAction *)
Fixpoint start_replicas (spec : ComposeSpec) (src : hookSource) (cmd : Command)
    (stored : gmap string instanceSnapshot) (held : gmap string err) (heldErr : option err) (started : list Z)
    (rs : list Z) : cprog (result err (option err * list Z)) :=
  match rs with
  | [] => mret (Ok (heldErr, started))
  | idx :: rs =>
    attempt skipped := start_replica spec src cmd stored held idx in
    match skipped with
    | Some w => start_replicas spec src cmd stored held (match heldErr with None => Some w | e => e end) started rs
    | None => start_replicas spec src cmd stored held heldErr (started ++ [idx]) rs
    end
  end.

(** The phase of one wait result. *)
(* src/cmdman/compose/service_reconcile.go:208-227 Service.upStartAction *)
Definition waited_result (r : WaitResult) : instanceSnapshot :=
  {| inst_ID := ""; GenName := ""; ScaleIndex := 0;
     inst_State := match w_Err r, w_ExitCode r with None, Some _ => EventTypeExited | _, _ => EventTypeFailed end;
     inst_ExitCode := w_ExitCode r; Entry := None |}.

(* src/cmdman/compose/service_reconcile.go:211-226 Service.upStartAction *)
Definition report_waited (cmd : Command) (replicas : list Z) (results : list WaitResult) : cprog unit :=
  for_each (fun ir =>
    let '(idx, r) := ir : Z * WaitResult in
    match w_Err r, w_ExitCode r with
    | Some e, exit => say (instanceDisplayName cmd idx) PhaseFailed (Some e) exit
    | None, None => say (instanceDisplayName cmd idx) PhaseFailed None None
    | None, exit => say (instanceDisplayName cmd idx) PhaseExited None exit
    end) (zip replicas results).

Definition act_result (st : EventType) (exit : option Z) (e : option err) : actionResult :=
  mkResult st exit (reason_of errText <$> e).

(** [Service.upStartAction] with its calls; [Wait] gives a result for each target, in
    order. *)
(* src/cmdman/compose/service_reconcile.go:101-237 Service.upStartAction *)
Definition start_vertex (spec : ComposeSpec) (src : hookSource) (held : gmap string err) (g : reconcileGraph)
    (cmd : Command) (v : graphVertex) : cprog actionResult :=
  let snap := Snapshot v in
  let replicas := replicaIndices v cmd in
  let instances := map (InstanceName (GeneratedName cmd)) replicas in
  r ← start_replicas spec src cmd (by_genname (Instances snap)) held None [] replicas;
  match r with
  | Err e => mret (act_result (snap_State snap) None (Some e))
  | Ok (Some e, started) =>
    _ ← reportReplicas reporter cmd started PhaseRunning None None;
    mret (act_result (snap_State snap) None (Some e))
  | Ok (None, _) =>
    if negb (anyDependentNeedsCompletion g (v_ID v)) then
      _ ← reportReplicas reporter cmd replicas PhaseRunning None (snap_ExitCode snap);
      mret (act_result EventTypeRunning (snap_ExitCode snap) None)
    else
      _ ← reportReplicas reporter cmd replicas PhaseWaiting None None;
      w ← call (SvcWait instances);
      match w with
      | Err e =>
        _ ← reportReplicas reporter cmd replicas PhaseError (Some e) None;
        mret (act_result EventTypeRunning None (Some e))
      | Ok results =>
        _ ← report_waited cmd replicas results;
        let '(state, exit) := aggregateInstances (map waited_result results) in
        mret (match head (omap w_Err results) with
              | Some e => act_result EventTypeFailed exit (Some e)
              | None => if decide (state = EventTypeExited) then act_result EventTypeExited exit None
                        else act_result EventTypeFailed exit None
              end)
      end
  end.

(** The runs of [reconcileStart] with its calls. *)
(* src/cmdman/compose/service_reconcile.go:19-66 Service.reconcileStart *)
Inductive start_walk (spec : ComposeSpec) (targets : targetSet) (src : hookSource) (held : gmap string err)
  : list cact -> result err (list StartOutcome) -> Prop :=
| start_walk_bad_graph e :
    ValidateDAG (Commands spec) = Err e ->
    start_walk spec targets src held [] (Err (BadGraph e))
| start_walk_no_list e :
    ValidateDAG (Commands spec) = Ok tt ->
    start_walk spec targets src held
      [Act (SvcList (projectLabels (WorkDir spec) (Project spec))) (Err e)] (Err (ListCommands e))
| start_walk_done entries runs evs s outs tr order tr' :
    reconcileStart spec (Ok entries) targets
      (fun id res => let g := buildReconcileGraph spec (snapshotCommands entries)
                                (resolveTargetCommands spec (names targets)) targets in
         exists v cmd, Vertices g !! id = Some v /\ v_Command v = Some cmd /\
           run (start_vertex spec src held g cmd v) (runs id) res)
      (Ok (evs, s, outs)) ->
    merges (map runs (finishes evs)) tr ->
    order ≡ₚ (map_to_list (Vertices (gr (sh s)))).*2 ->
    run (reportBlocked reporter order) tr' tt ->
    start_walk spec targets src held
      (Act (SvcList (projectLabels (WorkDir spec) (Project spec))) (Ok entries) :: tr ++ tr') (Ok outs).

(** ** Up and scale *)

(* src/cmdman/compose/service_up.go:25-58 Service.Up *)
Definition Up (spec : ComposeSpec) (targets : list Target) (removeOrphan : bool)
  : cprog (result err (list ActionOutcome * list StartOutcome)) :=
  match resolveTargets targets (declaredReplicas spec) with
  | Err e => mret (Err (BadTargets e))
  | Ok ts =>
    attempt (actions, held) := create spec removeOrphan ts in
    attempt starts := sub (start_walk spec ts hooksFromSpec held) in
    mret (Ok (actions, starts))
  end.

(* src/cmdman/compose/service_scale.go:35-54 Service.Scale *)
Definition Scale_up (spec : result err ComposeSpec) (scales : list (string * Z))
  : cprog (result err (list ActionOutcome * list StartOutcome)) :=
  match (try spec := spec in applyScaleOverrides spec scales) with
  | Err e => mret (Err e)
  | Ok spec => Up spec (TargetsOf (sort_strings scales.*1)) false
  end.
End Create.
