(* ===== verification/CreateProps.v ===== *)
(** * What creating and starting a project guarantees

    Theorems about every run of the programs of [Create.v]: a changed replica is stopped
    before it is removed and removed before it is created, every targeted action has its
    outcome, and a replica whose create failed is not started. *)

From S2P Require Import Reconcile Walk WalkProps WalkTheorems Service Prelude GoStr LogDriver Model Prog ComposeSpec Naming Lifecycle Graph Targets Plan HookData HookOutput ComposeSvc HookRunner HookSteps HookProps Down DownProps Create.

Section Props.
Context (marshalRelease : resourceRelease -> result err string)
        (unmarshalRelease : string -> result err resourceRelease)
        (unmarshalHooks : string -> result string (list LifecycleHook))
        (marshalAfter : list AfterSpec -> string)
        (marshalHooks : list LifecycleHook -> string)
        (digest : hashCanonical -> result string string)
        (workdirHash : string -> string)
        (cfg : CmdmanConfig)
        (absPath : string -> option string)
        (reporter : bool)
        (errText : err -> string).

Notation stop_in := (stopWithHooks marshalRelease unmarshalRelease workdirHash cfg absPath reporter).
Notation remove_in := (removeWithHooks marshalRelease unmarshalRelease workdirHash cfg absPath reporter).
Notation remove_replica := (removeReplica marshalRelease unmarshalRelease workdirHash cfg absPath reporter).
Notation create_in := (createWithHooks marshalRelease unmarshalRelease workdirHash cfg absPath reporter).
Notation execute := (executeAction marshalRelease unmarshalRelease unmarshalHooks marshalAfter marshalHooks workdirHash cfg
                       absPath reporter).

(** ** What a step that succeeds has called *)

Definition stopped_ok (id : string) (a : cact) : Prop :=
  exists timeout rs, a = Act (SvcStop [id] timeout) (Ok rs) /\ firstStopErr rs = None.
Definition removed_ok (id : string) (force : bool) (a : cact) : Prop :=
  exists r, a = Act (SvcRemove [id] force) r /\ first_remove_err r = None.
Definition created_ok (req : CreateRequest) (a : cact) : Prop :=
  exists id, a = Act (SvcCreate req) (Ok id).

Lemma stopForRecreate_ok id timeout tr fk :
  run (stopForRecreate id timeout) tr (fk, None) -> Exists (stopped_ok id) tr.
Proof.
  unfold stopForRecreate. intros H. inv_run H as [rs|e] t1 H1; [|inv_ret H].
  apply run_ret in H as [-> [= _ H]]. left. by exists timeout, rs.
Qed.

Lemma stopWithHooks_ok ctx r hooks id timeout tr hf fk :
  run (stop_in ctx r hooks id timeout) tr (hf, fk, None) -> Exists (stopped_ok id) tr.
Proof.
  unfold stopWithHooks. intros H. inv_run H as [ws [e|]] t1 H1; [inv_ret H|].
  inv_run H as [fk' [e|]] t2 H2; [inv_ret H|]. apply Exists_app; right. apply Exists_app; left.
  by eapply stopForRecreate_ok.
Qed.

Lemma removeWithHooks_ok ctx r hooks id force tr e :
  run (remove_in ctx r hooks [id] force) tr (true, e) -> Exists (removed_ok id force) tr.
Proof.
  unfold removeWithHooks. intros H. inv_run H as [ws [e'|]] t1 H1; [inv_ret H|].
  inv_run H as rs t2 H2. destruct (first_remove_err rs) as [e'|] eqn:Hf; [inv_ret H|].
  apply Exists_app; right. apply Exists_app; left. left. by exists rs.
Qed.

Lemma removeReplica_ok ctx r hooks id force stopped tr :
  run (remove_replica ctx r hooks [id] force stopped) tr None -> Exists (removed_ok id force) tr.
Proof.
  unfold removeReplica. intros H. inv_run H as [removed e] t1 H1. apply Exists_app; left.
  destruct removed; [by eapply removeWithHooks_ok|]. simpl in H. apply run_ret in H as [_ <-].
  exfalso. unfold removeWithHooks in H1. inv_run H1 as [ws [e'|]] t2 H2; [inv_ret H1|].
  inv_run H1 as rs t3 H3. destruct (first_remove_err rs); [inv_ret H1|].
  inv_run H1 as [ws' e'] t4 H4. inv_run H1 as [] t5 H5. inv_ret H1.
Qed.

Lemma createWithHooks_ok ctx r hooks req tr :
  run (create_in ctx r hooks req) tr None -> Exists (created_ok req) tr.
Proof.
  unfold createWithHooks. intros H. inv_run H as [ws [e|]] t1 H1; [inv_ret H|].
  inv_run H as [id|e] t2 H2; [|inv_ret H]. apply Exists_app; right. apply Exists_app; left. left. by exists id.
Qed.

Lemma action_failed_run disp action werr tr o :
  run (action_failed reporter disp action werr) tr o -> ao_Err o = Some werr.
Proof. unfold action_failed. intros H. inv_run H as [] t1 H1. by inv_ret H. Qed.

(** C24: a changed replica that is live is recreated in order: the outcome has no error
    only when it was stopped, then removed without force, then created as the plan wants
    it, each successfully. *)
Theorem recreate_in_order spec a e tr o :
  Kind a = ActionRecreate -> Existing a = Some e -> entry_live e = true ->
  run (execute spec a) tr o -> ao_Err o = None ->
  exists t1 t2 t3, tr = t1 ++ t2 ++ t3 /\ Exists (stopped_ok (ID e)) t1 /\
    Exists (removed_ok (ID e) false) t2 /\
    Exists (created_ok (action_request marshalAfter marshalHooks workdirHash spec a)) t3.
Proof.
  intros Hk He Hl H Ho. unfold executeAction in H. rewrite Hk, He in H. unfold recreate_action in H.
  destruct (storedHookReplica unmarshalHooks e) as [[old hooks]|er]; [|apply action_failed_run in H; congruence].
  rewrite Hl in H. inv_run H as [werr|] t1 H1; [apply action_failed_run in H; congruence|].
  inv_run H as [] t2 H2. inv_run H as [er|] t3 H3; [apply action_failed_run in H; congruence|].
  exists t1, (t2 ++ t3), t3'. split; [by rewrite <- app_assoc|]. split_and!.
  - inv_run H1 as [] t4 H4. apply Exists_app; right. inv_run H1 as [[hf fk] er] t5 H5. apply Exists_app; left.
    destruct er; [inv_ret H1|]. by eapply stopWithHooks_ok.
  - apply Exists_app; right. by eapply removeReplica_ok.
  - inv_run H as er t6 H6. apply Exists_app; left. destruct er; [apply action_failed_run in H; congruence|].
    by eapply createWithHooks_ok.
Qed.

(** ** Every action of a plan has its outcome *)

Definition instance_named (a : CommandAction) : Prop :=
  ca_InstanceName a = InstanceName (GeneratedName (Desired a)) (ca_ScaleIndex a).

Lemma plan_instances spec existing plan :
  ComputePlan digest spec existing = Ok plan -> Forall instance_named (Actions plan).
Proof.
  unfold ComputePlan. intros (u & _ & H)%result_bind_ok. apply result_bind_ok in H as ([m orphans] & _ & H).
  apply result_bind_ok in H as (layers & _ & H). apply result_bind_ok in H as ([surplus acts] & Hf & [= <-]). simpl.
  assert (Hgen : forall l m acts r, Forall instance_named acts ->
    result_foldl (plan_command digest (commands_by_name spec)) (m, acts) l = Ok r -> Forall instance_named r.2).
  { clear. induction l as [|n l IH]; intros m acts r Ha; simpl; [by intros [= <-]|].
    intros ([m' acts'] & Hs & Hr)%result_bind_ok. eapply IH; [|exact Hr]. clear IH Hr r.
    unfold plan_command in Hs. destruct (commands_by_name spec !! n) as [d|]; [|by injection Hs as <- <-].
    apply result_bind_ok in Hs as (h & _ & [= Hs]). change acts' with ((m', acts').2). rewrite <- Hs. clear Hs m' acts'.
    generalize (replica_range (Scale d)) as rs. revert m acts Ha. intros m acts Ha rs.
    revert m acts Ha. induction rs as [|i rs IH]; intros m acts Ha; simpl; [done|].
    destruct (m !! (n, i)); (apply IH; apply Forall_app; split; [done|]; by repeat constructor). }
  by apply (Hgen _ _ _ _ (Forall_nil_2 _) Hf).
Qed.

(** What failed, by command name. *)
Definition hold (held : gmap string err) (ao : CommandAction * ActionOutcome) : gmap string err :=
  match ao_Err ao.2 with Some e => <[ca_InstanceName ao.1 := e]> held | None => held end.

Lemma run_actions_run spec closure targets held actions tr os held' :
  run (run_actions marshalRelease unmarshalRelease unmarshalHooks marshalAfter marshalHooks workdirHash cfg absPath
         reporter spec closure targets held actions) tr (os, held') ->
  let todo := filter (fun a => action_targeted closure targets a = true) actions in
  exists trs, Forall3 (fun a t o => run (execute spec a) t o) todo trs os /\ tr = concat trs /\
    held' = foldl hold held (zip todo os).
Proof.
  revert held tr os held'. induction actions as [|a actions IH]; intros held tr os held' H; simpl in H.
  { apply run_ret in H as [-> [= -> ->]]. exists []. by split_and!; [constructor|..]. }
  cbv zeta in *. rewrite filter_cons. destruct (action_targeted closure targets a) eqn:Ht.
  - rewrite decide_True by done. inv_run H as o t1 H1. inv_run H as [os' h'] t2 H2.
    apply run_ret in H as [-> [= -> ->]]. apply IH in H2 as (trs & H3 & -> & ->). exists (t1 :: trs).
    split_and!; [by constructor| |done]. simpl. by rewrite app_nil_r.
  - rewrite decide_False by done. by apply IH.
Qed.

Lemma hold_some held aos n :
  is_Some (foldl hold held aos !! n) <->
  is_Some (held !! n) \/ exists a o e, (a, o) ∈ aos /\ ao_Err o = Some e /\ ca_InstanceName a = n.
Proof.
  revert held. induction aos as [|[a o] aos IH]; intros held; simpl.
  { split; [by left|]. intros [?|(? & ? & ? & []%elem_of_nil & _)]. done. }
  rewrite IH. unfold hold at 1. simpl. split.
  - intros [H|(a' & o' & e & Hin & ?)]; [|right; exists a', o', e; split; [by right|done]].
    destruct (ao_Err o) as [e|] eqn:He; [|by left].
    apply lookup_insert_is_Some in H as [<-|[_ H]]; [right; exists a, o, e; split; [by left|done]|by left].
  - intros [H|(a' & o' & e & Hin & He & Hn)].
    + left. destruct (ao_Err o); [|done]. apply lookup_insert_is_Some'. by right.
    + apply elem_of_cons in Hin as [[= -> ->]|Hin]; [left; rewrite He, Hn, lookup_insert_eq; by eexists|].
      right. by exists a', o', e.
Qed.

(** ** What failed is not started *)

Notation start_one := (start_replica marshalRelease unmarshalRelease unmarshalHooks workdirHash cfg absPath reporter).
Notation start_all := (start_replicas marshalRelease unmarshalRelease unmarshalHooks workdirHash cfg absPath reporter).
Notation start_of := (start_vertex marshalRelease unmarshalRelease unmarshalHooks workdirHash cfg absPath reporter errText).

(** A held replica is reported and nothing else. *)
Lemma start_replica_held spec src cmd stored held idx tr r :
  is_Some (held !! InstanceName (GeneratedName cmd) idx) ->
  run (start_one spec src cmd stored held idx) tr r ->
  (exists w, r = Ok (Some w)) /\ Forall (fun a => match a with Act (Report _) _ => True | _ => False end) tr.
Proof.
  intros [e He] H. unfold start_replica in H. rewrite He in H. inv_run H as [] t1 H1. inv_ret H. rewrite app_nil_r.
  split; [by eexists|]. revert H1. unfold report, reportEvent. by apply always_if; follow.
Qed.

Lemma start_replicas_held spec src cmd stored held heldErr started rs tr r :
  run (start_all spec src cmd stored held heldErr started rs) tr (Ok r) ->
  is_Some heldErr \/ (exists idx, idx ∈ rs /\ is_Some (held !! InstanceName (GeneratedName cmd) idx)) -> is_Some r.1.
Proof.
  revert heldErr started tr. induction rs as [|idx rs IH]; intros heldErr started tr H Hor; simpl in H.
  { inv_ret H. destruct Hor as [?|(? & []%elem_of_nil & _)]. done. }
  inv_run H as [[w|]|e] t1 H1; [| |inv_ret H].
  - apply (IH _ _ _ H). left. by destruct heldErr.
  - apply (IH _ _ _ H). destruct Hor as [?|(i & [->|Hi]%elem_of_cons & Hh)]; [by left| |right; by exists i].
    exfalso. apply (start_replica_held _ _ _ _ _ _ _ _ Hh) in H1 as [[w Hw] _]. by injection Hw.
Qed.

Lemma start_vertex_held spec src held g cmd v tr res idx :
  run (start_of spec src held g cmd v) tr res -> idx ∈ replicaIndices v cmd ->
  is_Some (held !! InstanceName (GeneratedName cmd) idx) -> is_Some (res_Err res).
Proof.
  unfold start_vertex. intros H Hi Hh. inv_run H as [[heldErr started]|e] t1 H1.
  - destruct (start_replicas_held _ _ _ _ _ _ _ _ _ _ H1) as [e He]; [right; eauto|]. simpl in He. subst heldErr.
    inv_run H as [] t2 H2. inv_ret H. by eexists.
  - inv_ret H. by eexists.
Qed.

(** A create has one outcome for each action of the plan that the targets select, in
    order, and [held] names exactly the replicas whose action failed; starting a command
    with one of them fails, whatever the service answers, so that its dependents stay
    blocked. *)
Theorem create_holds_failed spec removeOrphan targets tr actions held :
  run (create marshalRelease unmarshalRelease unmarshalHooks marshalAfter marshalHooks digest workdirHash cfg absPath
         reporter spec removeOrphan targets) tr (Ok (actions, held)) ->
  exists existing plan pre done,
    ComputePlan digest spec existing = Ok plan /\ actions = pre ++ done /\
    let todo := filter (fun a => action_targeted (resolveTargetCommands spec (names targets)) targets a = true) (Actions plan) in
    length done = length todo /\
    (forall n, is_Some (held !! n) <-> exists a o e, (a, o) ∈ zip todo done /\ ao_Err o = Some e /\ ca_InstanceName a = n) /\
    (forall a o e src g v t res, (a, o) ∈ zip todo done -> ao_Err o = Some e ->
       ca_ScaleIndex a ∈ replicaIndices v (Desired a) -> run (start_of spec src held g (Desired a) v) t res ->
       is_Some (res_Err res)).
Proof.
  unfold create. intros H. inv_run H as [existing|er] t1 H1; [|inv_ret H].
  destruct (ComputePlan digest spec existing) as [plan|er] eqn:Hp; [|inv_ret H].
  inv_run H as orphans t2 H2. inv_run H as excess t3 H3. inv_run H as [done held'] t4 H4. inv_run H as u t5 H5.
  apply run_ret in H as [-> [= -> ->]]. apply run_actions_run in H4 as (trs & H4 & _ & ->).
  exists existing, plan, (orphans ++ excess), done. rewrite <- app_assoc. split_and!; [done|done| | |].
  - symmetry. clear -H4. by induction H4; simpl; f_equal.
  - intros n. rewrite hold_some, lookup_empty. split; [by intros [[? ?]|?]|by right].
  - intros a o e src g v t res Hin He Hi Hrun. eapply start_vertex_held; [exact Hrun|exact Hi|].
    apply hold_some. right. exists a, o, e. split_and!; [done|done|].
    pose proof (plan_instances spec existing plan Hp) as Hall. rewrite Forall_forall in Hall. apply Hall.
    apply elem_of_zip_l in Hin. by apply list_elem_of_filter in Hin as [_ ?].
Qed.
End Props.

(** ** Witnesses *)

Definition no_codec {A B} (_ : A) : result err B := Err (Opaque "no codec").
Definition no_hooks (_ : string) : result string (list LifecycleHook) := Ok [].
Definition some_cfg : CmdmanConfig :=
  {| DataDir := "/data"; RuntimeDir := "/run"; ConfigPath := ""; DefaultWorkingDir := "/"; DefaultEnvironment := [] |}.

(** Two commands, the first of which has a hook to run before it is created. *)
Definition hooked : Command :=
  let c := mkCommand "db" [] 1 in
  {| Name := Name c; c_Dir := c_Dir c; Args := Args c; Env := Env c; ImportHostEnv := ImportHostEnv c;
     InjectEnv := InjectEnv c; c_Labels := c_Labels c; c_RestartPolicy := c_RestartPolicy c; MaxRetries := MaxRetries c;
     StopSignal := StopSignal c; StopGracePeriod := StopGracePeriod c; Stop := Stop c; Tty := Tty c;
     ScrollbackBytes := ScrollbackBytes c; c_LogDriver := c_LogDriver c; LogOpts := LogOpts c; After := After c;
     Hooks := [MkLifecycleHook "prep" "" {[LifecycleCreatePre := MkExec ["prepare"] ""]}];
     Scale := Scale c; GeneratedName := GeneratedName c |}.
Definition two_commands : ComposeSpec := mkSpec [hooked; mkCommand "web" [] 1].

(** A replica of "web" that was stored with another hash and runs. *)
Definition changed_web : CommandAction := {|
  Kind := ActionRecreate; Desired := mkCommand "web" [] 1; ca_ScaleIndex := 1; ca_InstanceName := "web-1";
  Existing := Some {| ID := "7"; entry_Name := "web-1"; CreatedAt := ""; entry_State := EventTypeRunning; ExitCode := None;
                      ConfigJSON := Some (labelled {[LabelProject := "p"; LabelCommand := "web"]}); StateJSON := None |};
  DesiredHash := "sha256:2" |}.

Lemma recreate_in_order_witness :
  exists tr o t1 t2 t3,
    run (executeAction no_codec no_codec no_hooks (fun _ => "") (fun _ => "") id some_cfg Some true two_commands changed_web) tr o /\
    ao_Err o = None /\ tr = t1 ++ t2 ++ t3 /\ Exists (stopped_ok "7") t1 /\ Exists (removed_ok "7" false) t2 /\
    Exists (created_ok (action_request (fun _ => "") (fun _ => "") id two_commands changed_web)) t3.
Proof.
  destruct (ran_check (plain_svc (fun _ => []) 0)
    (executeAction no_codec no_codec no_hooks (fun _ => "") (fun _ => "") id some_cfg Some true two_commands changed_web)
    (fun o _ => match ao_Err o with None => true | Some _ => false end))
    as (o & tr & Hr & _ & Hc); [vm_compute; reflexivity|].
  assert (Ho : ao_Err o = None) by (by destruct (ao_Err o)).
  assert (He : Existing changed_web = Some (default (Build_CommandEntry "" "" "" "" None None None) (Existing changed_web)))
    by reflexivity.
  destruct (recreate_in_order no_codec no_codec no_hooks (fun _ => "") (fun _ => "") id some_cfg Some true
    two_commands changed_web _ tr o eq_refl He eq_refl Hr Ho) as (t1 & t2 & t3 & ?).
  exists tr, o, t1, t2, t3. split_and!; naive_solver.
Defined.

Lemma create_holds_failed_witness :
  exists tr actions held existing plan pre done,
    run (create no_codec no_codec no_hooks (fun _ => "") (fun _ => "") (fun _ => Ok "0") id some_cfg Some true
           two_commands false ∅) tr (Ok (actions, held)) /\
    is_Some (held !! "db-1") /\ held !! "web-1" = None /\
    ComputePlan (fun _ => Ok "0") two_commands existing = Ok plan /\ actions = pre ++ done.
Proof.
  destruct (ran_check (plain_svc (fun _ => []) 1)
    (create no_codec no_codec no_hooks (fun _ => "") (fun _ => "") (fun _ => Ok "0") id some_cfg Some true two_commands false ∅)
    (fun r _ => match r with Ok (_, held) => match held !! "db-1", held !! "web-1" with Some _, None => true | _, _ => false end
                | Err _ => false end))
    as ([[actions held]|e] & tr & Hr & _ & Hc); [vm_compute; reflexivity| |done].
  destruct (create_holds_failed _ _ _ _ _ _ _ _ _ _ (fun _ => "") _ _ _ _ _ _ Hr) as (existing & plan & pre & done & Hp & Ha & _).
  exists tr, actions, held, existing, plan, pre, done. split_and!; try done; destruct (held !! "db-1"), (held !! "web-1"); try done; by eexists.
Defined.
