(* ===== verification/Resource.v ===== *)
(** * Reading and writing resources by hand

    [cmdman/compose/service_resource.go]: the value of a resource of a replica, set and
    removed through the holder that stores it. *)

From S2P Require Import Reconcile Walk Service Prelude GoStr LogDriver Model Prog ComposeSpec Naming Lifecycle Graph Targets Plan HookData HookOutput ComposeSvc HookRunner HookSteps HookProps Down.

(* src/cmdman/compose/service_resource.go:16-27 ResourceOption *)
Record ResourceOption := { ropt_Command : string; ropt_ScaleIndex : Z; ropt_Key : string }.

(* src/cmdman/compose/service_resource.go:110-117 resourceTarget *)
Record resourceTarget := {
  rt_ref : resourceRef;
  rt_scale : Z;
  rt_holder : option CommandEntry;
}.

(* src/cmdman/compose/service_resource.go:119-122 resourceTarget.missing *)
Definition missing (t : resourceTarget) : err :=
  NoResource (rref_Key (rt_ref t)) (rref_Command (rt_ref t)) (rref_ScaleIndex (rt_ref t)).

(* src/cmdman/compose/service_resource.go:195-213 knownReplicas *)
Definition knownReplicas (spec : option ComposeSpec) (replicas : list CommandEntry) (command : string) : Z :=
  let stored := foldl (fun count e => if decide (commandNameOf e = command) then Z.max count (Targets.scaleIndexOf e) else count)
                  0%Z replicas in
  match spec with
  | Some spec => match list_find (fun c => Name c = command) (Commands spec) with
                 | Some (_, c) => Z.max (Scale c) 1
                 | None => stored
                 end
  | None => stored
  end.

(* src/cmdman/compose/service_resource.go:215-240 resourceScaleIndex *)
Definition resourceScaleIndex (opts : ResourceOption) (count : Z) (heldBy : list Z) : result err Z :=
  if decide (0 < ropt_ScaleIndex opts)%Z then Ok (ropt_ScaleIndex opts)
  else if decide (1 < count)%Z then Err (PickReplica (ropt_Command opts) count)
  else if decide (count = 1)%Z then Ok 1%Z
  else match heldBy with
       | [] => Ok 1%Z
       | [index] => Ok index
       | _ => Err (HeldForMany (ropt_Key opts) (ropt_Command opts) heldBy)
       end.

(** What the options must satisfy. *)
(* src/cmdman/compose/service_resource.go:132-145 Service.resolveResource *)
Definition check_options (selection : ProjectSelection) (opts : ResourceOption) : result err unit :=
  if decide (sel_Project selection = "") then Err NoProjectSelected
  else
    try _ := lift_err BadResourceName (validateName "command" (ropt_Command opts)) in
    try _ := lift_err BadResourceName (validateName "resource" (ropt_Key opts)) in
    if decide (ropt_ScaleIndex opts < 0)%Z then Err (BadResourceIndex (ropt_ScaleIndex opts)) else Ok tt.

Section Resource.
Context (marshalRelease : resourceRelease -> result err string)
        (unmarshalRelease : string -> result err resourceRelease)
        (workdirHash : string -> string).

(** The holders by scale index, in the order they were listed. *)
(* src/cmdman/compose/service_resource.go:165-172 Service.resolveResource *)
Fixpoint by_index (acc : gmap Z (list CommandEntry)) (holders : list CommandEntry)
  : result err (gmap Z (list CommandEntry)) :=
  match holders with
  | [] => Ok acc
  | h :: holders =>
    try decoded := decodeHolder unmarshalRelease h in
    let i := rref_ScaleIndex (h_Ref decoded) in
    by_index (<[i := default [] (acc !! i) ++ [h]]> acc) holders
  end.

Definition key_ref (selection : ProjectSelection) (opts : ResourceOption) (index : Z) : resourceRef := {|
  rref_Project := sel_Project selection; rref_WorkDir := sel_WorkDir selection; rref_Command := ropt_Command opts;
  rref_ScaleIndex := index; rref_Key := ropt_Key opts |}.

(** What the listings give. *)
(* src/cmdman/compose/service_resource.go:165-192 Service.resolveResource *)
Definition pick_resource (selection : ProjectSelection) (opts : ResourceOption) (count : Z)
    (holders : list CommandEntry) : result err resourceTarget :=
  try byIndex := by_index ∅ holders in
  try index := resourceScaleIndex opts count (sort_ints (map_to_list byIndex).*1) in
  let target held := {| rt_ref := key_ref selection opts index; rt_scale := Z.max count 1; rt_holder := held |} in
  match default [] (byIndex !! index) with
  | [] => Ok (target None)
  | [h] => Ok (target (Some h))
  | held => Err (ManyHolders (ropt_Key opts) (ropt_Command opts) index (length held))
  end.

(** The labels of the holders of a key, for any replica. *)
Definition key_labels (selection : ProjectSelection) (opts : ResourceOption) : gmap string string :=
  delete LabelResourceScaleIndex (selector (key_ref selection opts 0)).

(* src/cmdman/compose/service_resource.go:124-193 Service.resolveResource *)
Definition resolveResource (selection : ProjectSelection) (opts : ResourceOption)
  : cprog (result err resourceTarget) :=
  match check_options selection opts with
  | Err e => mret (Err e)
  | Ok _ =>
    r ← call (SvcList (projectLabels (sel_WorkDir selection) (sel_Project selection)));
    match r with
    | Err e => mret (Err (ListCommands e))
    | Ok replicas =>
      let count := knownReplicas (sel_Spec selection) replicas (ropt_Command opts) in
      l ← call (SvcList (key_labels selection opts));
      match l with
      | Err e => mret (Err (LookupHolder (ropt_Key opts) e))
      | Ok holders => mret (pick_resource selection opts count holders)
      end
    end
  end.

(* src/cmdman/compose/service_resource.go:29-51 Service.ResourceGet *)
Definition ResourceGet (selection : ProjectSelection) (opts : ResourceOption) : cprog (result err string) :=
  attempt target := resolveResource selection opts in
  match rt_holder target with
  | None => mret (Err (missing target))
  | Some e => mret (try h := decodeHolder unmarshalRelease e in Ok (h_Value h))
  end.

(** The holder of a resource that has none. *)
(* src/cmdman/compose/service_resource.go:67-78 Service.ResourceSet *)
Definition new_holder (selection : ProjectSelection) (t : resourceTarget) : resourceHolder :=
  let r := rt_ref t in
  {| h_Ref := r; h_Owner := replicaName workdirHash r; h_Value := ""; h_Release := None; h_Dir := sel_WorkDir selection;
     h_Env := composeContextEnv workdirHash (rref_Project r) (rref_WorkDir r) (rref_Command r) (rref_ScaleIndex r) (rt_scale t) ++
              [env_entry ENV_CMDMAN_COMPOSE_RESOURCE_KEY (rref_Key r)] |}.

Definition with_value (v : string) (h : resourceHolder) : resourceHolder := {|
  h_Ref := h_Ref h; h_Owner := h_Owner h; h_Value := v; h_Release := h_Release h; h_Dir := h_Dir h; h_Env := h_Env h |}.

(* src/cmdman/compose/service_resource.go:53-87 Service.ResourceSet *)
Definition ResourceSet (selection : ProjectSelection) (opts : ResourceOption) (value : string) : cprog (option err) :=
  r ← resolveResource selection opts;
  match r with
  | Err e => mret (Some e)
  | Ok target =>
    match (match rt_holder target with
           | None => Ok (new_holder selection target)
           | Some e => decodeHolder unmarshalRelease e
           end) with
    | Err e => mret (Some e)
    | Ok holder => putHolder marshalRelease (with_value value holder)
    end
  end.

(* src/cmdman/compose/service_resource.go:89-108 Service.ResourceUnset *)
Definition ResourceUnset (selection : ProjectSelection) (opts : ResourceOption) : cprog (option err) :=
  r ← resolveResource selection opts;
  match r with
  | Err e => mret (Some e)
  | Ok target =>
    match rt_holder target with
    | None => mret None
    | Some e =>
      removed ← removeIntermediate (ID e);
      mret (RemoveHolder (entry_Name e) (ropt_Key opts) <$> removed)
    end
  end.
End Resource.

(** * What the verbs on resources guarantee

    The store behind the service as a map from names to commands, and the round trip
    through it: what [ResourceSet] writes [ResourceGet] reads, for any state of the store
    that compose can have left. *)

(** ** The store *)

(** The stored commands, by name. *)
Notation store := (gmap string CommandEntry).

(** What a call finds in the store and leaves there. *)
Definition store_step (st : store) (a : cact) (st' : store) : Prop :=
  match a with
  | Act (SvcList labels) (Ok es) =>
    st' = st /\ NoDup es /\ forall e, e ∈ es <-> has_labels labels e /\ st !! entry_Name e = Some e
  | Act (SvcCreate req) (Ok id) => exists e, stored_for req e /\ ID e = id /\ st' = <[entry_Name e := e]> st
  | _ => st' = st
  end.

Fixpoint store_run (st : store) (tr : list cact) (st' : store) : Prop :=
  match tr with
  | [] => st' = st
  | a :: tr => exists s1, store_step st a s1 /\ store_run s1 tr st'
  end.

Lemma store_run_app st t1 t2 st' : store_run st (t1 ++ t2) st' <-> exists s1, store_run st t1 s1 /\ store_run s1 t2 st'.
Proof.
  revert st; induction t1 as [|a t1 IH]; intros st; simpl; [naive_solver|]. setoid_rewrite IH. naive_solver.
Qed.

Section Props.
Context (marshalRelease : resourceRelease -> result err string)
        (unmarshalRelease : string -> result err resourceRelease)
        (workdirHash : string -> string)
        (codec : forall rel s, marshalRelease rel = Ok s -> s <> "" /\ unmarshalRelease s = Ok rel).
Context (selection : ProjectSelection) (opts : ResourceOption).

Notation decode := (decodeHolder unmarshalRelease).
Notation index_of h := (rref_ScaleIndex (h_Ref h)).

(** The scale index of a stored holder. *)
Definition index_at (e : CommandEntry) : option Z :=
  match decode e with Ok h => Some (index_of h) | Err _ => None end.

(** A store that compose wrote: commands are under their names, holders under the names
    of what they hold, and no replica of the project has the name of a holder. *)
Record store_ok (st : store) : Prop := {
  so_name : forall n e, st !! n = Some e -> entry_Name e = n;
  so_holder : forall n e h, st !! n = Some e -> has_labels (key_labels selection opts) e -> decode e = Ok h ->
    entry_Name e = holder_name h;
  so_free : forall n e owner, st !! n = Some e ->
    has_labels (projectLabels (sel_WorkDir selection) (sel_Project selection)) e -> n <> HolderName owner (ropt_Key opts);
}.

(** ** Holders by index *)

Lemma by_index_spec acc hs m :
  by_index unmarshalRelease acc hs = Ok m ->
  (forall i, default [] (m !! i) = default [] (acc !! i) ++ filter (fun e => index_at e = Some i) hs) /\
  (forall i, is_Some (m !! i) <-> is_Some (acc !! i) \/ exists e, e ∈ hs /\ index_at e = Some i).
Proof.
  revert acc. induction hs as [|e hs IH]; intros acc; simpl.
  { intros [= ->]. split; [intros i; by rewrite app_nil_r|]. intros i. split; [by left|].
    intros [?|(? & []%elem_of_nil & _)]. done. }
  intros (h & Hh & Hm)%result_bind_ok. assert (Hi : index_at e = Some (index_of h)) by (unfold index_at; by rewrite Hh).
  destruct (IH _ Hm) as [H1 H2]. split; intros i.
  - rewrite H1, filter_cons, Hi. destruct (decide (index_of h = i)) as [<-|Hne].
    + rewrite lookup_insert_eq, decide_True by done. simpl. by rewrite <- app_assoc.
    + rewrite lookup_insert_ne, decide_False by congruence. done.
  - rewrite H2, lookup_insert_is_Some'. setoid_rewrite elem_of_cons. split.
    + intros [[<-|?]|(e' & ? & ?)]; [right; exists e; auto|by left|right; exists e'; auto].
    + intros [?|(e' & [->|Hin] & He')]; [left; by right| |right; by exists e'].
      left; left. congruence.
Qed.

Lemma by_index_total acc hs : (forall e, e ∈ hs -> is_Some (index_at e)) -> exists m, by_index unmarshalRelease acc hs = Ok m.
Proof.
  revert acc. induction hs as [|e hs IH]; intros acc Hall; simpl; [by eexists|].
  destruct (Hall e ltac:(by left)) as [i Hi]. unfold index_at in Hi. destruct (decode e) as [h|]; [|done]. simpl.
  apply IH. intros e' He'. apply Hall. by right.
Qed.

Lemma by_index_all acc hs m e : by_index unmarshalRelease acc hs = Ok m -> e ∈ hs -> is_Some (index_at e).
Proof.
  revert acc. induction hs as [|e' hs IH]; intros acc; simpl; [by intros _ []%elem_of_nil|].
  intros (h & Hh & Hm)%result_bind_ok [->|Hin]%elem_of_cons; [|by eapply IH]. unfold index_at. by rewrite Hh.
Qed.

(** The sorted keys of a map with one key. *)
Lemma one_key {A} (m : gmap Z A) i : (forall j, is_Some (m !! j) <-> j = i) -> sort_ints (map_to_list m).*1 = [i].
Proof.
  intros H. apply Permutation_singleton_r. rewrite sort_ints_perm. apply NoDup_Permutation; [apply NoDup_fst_map_to_list|apply NoDup_singleton|].
  intros j. rewrite list_elem_of_singleton, <- H, list_elem_of_fmap. split.
  - intros ([k x] & -> & Hin%elem_of_map_to_list). by eexists.
  - intros [x Hx]. exists (j, x). split; [done|]. by apply elem_of_map_to_list.
Qed.

Lemma no_keys {A} (m : gmap Z A) : sort_ints (map_to_list m).*1 = [] -> m = ∅.
Proof.
  intros H. assert (Hp : (map_to_list m).*1 ≡ₚ []) by (rewrite <- H; symmetry; apply sort_ints_perm).
  apply Permutation_nil_r, fmap_nil_inv in Hp. by apply map_to_list_empty_iff.
Qed.

Lemma knownReplicas_perm spec l1 l2 c : l1 ≡ₚ l2 -> knownReplicas spec l1 c = knownReplicas spec l2 c.
Proof.
  intros Hp. unfold knownReplicas.
  set (f := fun count e => if decide (commandNameOf e = c) then Z.max count (Targets.scaleIndexOf e) else count).
  assert (Hf : forall acc, foldl f acc l1 = foldl f acc l2).
  { induction Hp as [|x l1 l2 _ IH|x y l|l1 l2 l3 _ IH1 _ IH2]; intros acc; simpl; [done|apply IH| |by rewrite IH1].
    f_equal. unfold f. repeat case_decide; lia. }
  by rewrite Hf.
Qed.

(** ** The holder that is written *)

Lemma key_labels_lookup k :
  k <> LabelResourceScaleIndex -> key_labels selection opts !! k = selector (key_ref selection opts 0) !! k.
Proof. intros H. unfold key_labels. by rewrite lookup_delete_ne. Qed.

(** What a holder of the key records. *)
Lemma key_labels_ref e h :
  has_labels (key_labels selection opts) e -> decode e = Ok h -> h_Ref h = key_ref selection opts (index_of h).
Proof.
  intros (cfg & Hcfg & Hsub) Hd. unfold decodeHolder in Hd. rewrite Hcfg in Hd.
  destruct (Atoi _) as [i|]; [|done]. apply result_bind_ok in Hd as (rel & _ & [= <-]). simpl.
  destruct (selector_lookup (key_ref selection opts 0)) as (_ & Hp & Hw & Hc & _ & Hk & _).
  assert (Hl : forall k v, k <> LabelResourceScaleIndex -> selector (key_ref selection opts 0) !! k = Some v ->
    label (Labels cfg) k = v).
  { intros k v Hk' Hv. unfold label. rewrite <- (key_labels_lookup k Hk') in Hv.
    by rewrite (lookup_weaken _ _ _ _ Hv Hsub). }
  unfold key_ref. f_equal; [apply (Hl LabelHooksProject _)|apply (Hl LabelHooksWorkdir _)|apply (Hl LabelResourceCommand _)|apply (Hl LabelResourceKey _)]; done.
Qed.

Lemma decode_index e h : decode e = Ok h -> in_int64 (index_of h).
Proof.
  unfold decodeHolder. destruct (ConfigJSON e) as [cfg|]; [|done]. destruct (Atoi _) as [i|] eqn:Hi; [|done].
  intros (rel & _ & [= <-])%result_bind_ok. simpl. by eapply Atoi_in_int64.
Qed.

(** The selector but for the scale index. *)
Lemma selector_index i k :
  k <> LabelResourceScaleIndex -> selector (key_ref selection opts i) !! k = selector (key_ref selection opts 0) !! k.
Proof.
  intros Hk. unfold selector, labels_of, key_ref. cbn [rev app list_to_map foldr fst snd rref_Project rref_WorkDir rref_Command rref_ScaleIndex rref_Key].
  rewrite !lookup_insert. by rewrite !(decide_False (P := LabelResourceScaleIndex = k)) by congruence.
Qed.

(** A holder with a reference of the key, once stored: it is listed with the holders of
    the key, and not with the replicas of the project. *)
Lemma stored_holder_listed h i req e :
  h_Ref h = key_ref selection opts i -> sel_Project selection <> "" ->
  holder_createRequest marshalRelease h = Ok req -> stored_for req e ->
  has_labels (key_labels selection opts) e /\ entry_Name e = holder_name h /\
  ~ has_labels (projectLabels (sel_WorkDir selection) (sel_Project selection)) e.
Proof.
  intros Href Hproj Hreq (Hname & cfg & Hcfg & Hl & _). apply result_bind_ok in Hreq as (labels & Hlab & [= <-]). simpl in *.
  pose proof (proj2 (selector_holder _ _ _ (h_Ref h) Hlab) eq_refl) as Hsel. subst labels. split_and!; [|done|].
  - exists cfg. split; [done|]. transitivity (selector (h_Ref h)); [|done].
    apply map_subseteq_spec. intros k v. unfold key_labels. intros [Hk Hv]%lookup_delete_Some. by rewrite Href, selector_index.
  - intros (cfg' & Hcfg' & Hsub). replace cfg' with cfg in Hsub by congruence.
    assert (Hp : Labels cfg !! LabelProject = Some (sel_Project selection)).
    { eapply lookup_weaken, Hsub. unfold projectLabels. rewrite decide_False by done. apply lookup_insert_eq. }
    revert Hlab Hp. generalize (Labels cfg). intros labels Hlab Hp. unfold holder_labels in Hlab.
    assert (Hn : selector (h_Ref h) !! LabelProject = None) by done.
    destruct (h_Release h); [apply result_bind_ok in Hlab as (x & _ & Hlab)|]; injection Hlab as <-;
      repeat (rewrite lookup_insert_ne in Hp by done); congruence.
Qed.

(** ** Setting, then getting *)

Notation project := (projectLabels (sel_WorkDir selection) (sel_Project selection)).
Notation count_of rs := (knownReplicas (sel_Spec selection) rs (ropt_Command opts)).
Notation pick rs hs := (pick_resource unmarshalRelease selection opts (count_of rs) hs).

(** What a listing of the store gives. *)
Definition listing_of (st : store) (labels : gmap string string) (es : list CommandEntry) : Prop :=
  NoDup es /\ forall e, e ∈ es <-> has_labels labels e /\ st !! entry_Name e = Some e.

(** The holder that a set starts from. *)
Definition base_holder (t : resourceTarget) : result err resourceHolder :=
  match rt_holder t with None => Ok (new_holder workdirHash selection t) | Some e => decode e end.

Lemma set_run st v tr st1 :
  run (ResourceSet marshalRelease unmarshalRelease workdirHash selection opts v) tr None -> store_run st tr st1 ->
  check_options selection opts = Ok tt /\
  exists rs hs t h req e, listing_of st project rs /\ listing_of st (key_labels selection opts) hs /\
    pick rs hs = Ok t /\ base_holder t = Ok h /\ holder_createRequest marshalRelease (with_value v h) = Ok req /\
    stored_for req e /\ st1 = <[entry_Name e := e]> st.
Proof.
  unfold ResourceSet, resolveResource. intros H Hst. destruct (check_options selection opts) as [[]|]; [|inv_run H as t t1 H1; inv_ret H1; inv_ret H].
  split; [done|]. inv_run H as t t1 H1. inv_run H1 as [rs|e] t2 H2; [|inv_ret H1; inv_ret H].
  inv_run H1 as [hs|e] t3 H3; [|inv_ret H1; inv_ret H]. apply run_ret in H1 as [-> ->].
  destruct (pick rs hs) as [t|e] eqn:Hp; [|inv_ret H]. fold (base_holder t) in H.
  destruct (base_holder t) as [h|e] eqn:Hb; [|inv_ret H]. unfold putHolder in H.
  destruct (holder_createRequest marshalRelease (with_value v h)) as [req|e] eqn:Hreq; [|inv_ret H].
  inv_run H as [id|e] t4 H4; [|inv_ret H]. apply run_ret in H as [-> _].
  destruct Hst as (s1 & (-> & Hl1) & s2 & (-> & Hl2) & s3 & (e & He & _ & ->) & ->).
  by exists rs, hs, t, h, req, e.
Qed.

Lemma get_run st tr st1 r :
  run (ResourceGet unmarshalRelease selection opts) tr r -> store_run st tr st1 -> check_options selection opts = Ok tt ->
  (exists labels e, Act (SvcList labels) (Err e) ∈ tr) \/
  exists rs hs, listing_of st project rs /\ listing_of st (key_labels selection opts) hs /\
    r = (try t := pick rs hs in
         match rt_holder t with None => Err (missing t) | Some e => try h := decode e in Ok (h_Value h) end).
Proof.
  unfold ResourceGet, resolveResource. intros H Hst Hok. rewrite Hok in H.
  inv_run H as t t1 H1. inv_run H1 as [rs|e] t2 H2; [|left; set_solver].
  inv_run H1 as [hs|e] t3 H3; [|left; set_solver]. apply run_ret in H1 as [-> ->]. right. exists rs, hs.
  assert (listing_of st project rs /\ listing_of st (key_labels selection opts) hs) as [Hl1 Hl2].
  { simpl in Hst. destruct Hst as (s1 & [-> Hl1] & s2 & [-> Hl2] & _). done. }
  split; [done|]. split; [done|]. destruct (pick rs hs) as [t|e]; [|by inv_ret H]. simpl.
  destruct (rt_holder t); apply run_ret in H as [_ ->]; done.
Qed.

(** What the choice of the target says of the holders. *)
Lemma pick_inv rs hs t :
  pick rs hs = Ok t ->
  exists i, rt_ref t = key_ref selection opts i /\ (forall e, e ∈ hs -> is_Some (index_at e)) /\
    filter (fun e => index_at e = Some i) hs = option_list (rt_holder t) /\
    (exists m, by_index unmarshalRelease ∅ hs = Ok m /\
       resourceScaleIndex opts (count_of rs) (sort_ints (map_to_list m).*1) = Ok i).
Proof.
  unfold pick_resource. intros (m & Hm & H)%result_bind_ok. apply result_bind_ok in H as (i & Hi & H). exists i.
  destruct (by_index_spec _ _ _ Hm) as [Hf _]. specialize (Hf i). rewrite lookup_empty in Hf. simpl in Hf. rewrite <- Hf.
  destruct (default [] (m !! i)) as [|h [|h2 l]]; [injection H as <-|injection H as <-|done];
    (split_and!; [done|intros e; by eapply by_index_all|done|by exists m]).
Qed.

(** Whether the options or the replicas fix the index, or the holders do. *)
Lemma scale_index_again count ix1 ix2 i :
  resourceScaleIndex opts count ix1 = Ok i -> (ix1 = [] \/ ix1 = [i] -> ix2 = [i]) ->
  resourceScaleIndex opts count ix2 = Ok i.
Proof.
  unfold resourceScaleIndex. repeat case_decide; try done. destruct ix1 as [|j [|? ?]]; try done.
  - intros [= <-] H2. by rewrite H2 by (by left).
  - intros [= <-] H2. by rewrite H2 by (by right).
Qed.

Lemma keys_elem {A} (m : gmap Z A) j : is_Some (m !! j) -> j ∈ sort_ints (map_to_list m).*1.
Proof.
  intros [x Hx]. rewrite sort_ints_perm. apply list_elem_of_fmap. exists (j, x). split; [done|]. by apply elem_of_map_to_list.
Qed.

Lemma only_elem {A} (l : list A) x : NoDup l -> (forall y, y ∈ l <-> y = x) -> l = [x].
Proof.
  intros Hnd H. apply Permutation_singleton_r, NoDup_Permutation; [done|apply NoDup_singleton|].
  intros y. by rewrite list_elem_of_singleton.
Qed.

(** The holder that a set writes: its reference, and its name among the others. *)
Lemma base_holder_spec st rs hs t h i :
  store_ok st -> in_int64 (ropt_ScaleIndex opts) -> listing_of st (key_labels selection opts) hs ->
  pick rs hs = Ok t -> rt_ref t = key_ref selection opts i ->
  filter (fun e => index_at e = Some i) hs = option_list (rt_holder t) ->
  resourceScaleIndex opts (count_of rs) (sort_ints (map_to_list (default ∅ (match by_index unmarshalRelease ∅ hs with Ok m => Some m | Err _ => None end))).*1) = Ok i ->
  base_holder t = Ok h ->
  h_Ref h = key_ref selection opts i /\ in_int64 i /\
  (forall x, x ∈ hs -> index_at x = Some i -> entry_Name x = holder_name h).
Proof.
  intros Hst H64 [_ Hhs] Hp Href Hfil Hi Hb. unfold base_holder in Hb.
  assert (Hall : forall x, x ∈ hs -> index_at x = Some i -> rt_holder t = Some x).
  { intros x Hx Hix. assert (Hin : x ∈ option_list (rt_holder t)) by (rewrite <- Hfil; by apply list_elem_of_filter).
    destruct (rt_holder t) as [e0|]; [|by apply elem_of_nil in Hin]. by apply list_elem_of_singleton in Hin as ->. }
  destruct (rt_holder t) as [e0|] eqn:Ht.
  - assert (Hin : e0 ∈ filter (fun e => index_at e = Some i) hs) by (rewrite Hfil; by left).
    apply list_elem_of_filter in Hin as [Hi0 Hin]. unfold index_at in Hi0. rewrite Hb in Hi0. injection Hi0 as Hi0.
    apply Hhs in Hin as [Hlab Hl0]. pose proof (key_labels_ref e0 h Hlab Hb) as Hr. rewrite Hi0 in Hr.
    split_and!; [done|rewrite <- Hi0; by eapply decode_index|].
    intros x Hx Hix. pose proof (Hall x Hx Hix) as [= <-]. by eapply so_holder.
  - injection Hb as <-. split_and!; [by simpl|..].
    + unfold resourceScaleIndex in Hi. repeat case_decide; try done; simplify_eq; try done.
      destruct (pick_inv _ _ _ Hp) as (i' & Href' & _ & Hfil' & m & Hm & _). rewrite Href in Href'. injection Href' as <-.
      rewrite Hm in Hi. simpl in Hi. destruct (sort_ints (map_to_list m).*1) as [|j [|? ?]] eqn:Hk; simplify_eq; [done|].
      exfalso. destruct (by_index_spec _ _ _ Hm) as [Hf Hd].
      assert (Hj : is_Some (m !! i)).
      { assert (Hin : i ∈ sort_ints (map_to_list m).*1) by (rewrite Hk; left). rewrite sort_ints_perm in Hin.
        apply list_elem_of_fmap in Hin as ([j x] & -> & Hin%elem_of_map_to_list). by eexists. }
      apply Hd in Hj as [[? ?]|(x & Hx & Hix)]; [done|]. by apply Hall in Hix.
    + intros x Hx Hix. by apply Hall in Hix.
Qed.

(** Storing a holder leaves the replicas of the project as they are, and adds to the
    holders of the key, or replaces the one with its name. *)
Lemma replicas_kept st e h rs rs2 :
  store_ok st -> entry_Name e = holder_name h -> rref_Key (h_Ref h) = ropt_Key opts -> ~ has_labels project e ->
  listing_of st project rs -> listing_of (<[entry_Name e := e]> st) project rs2 -> rs ≡ₚ rs2.
Proof.
  intros Hst HN Hk Hnp [Hnd1 Hrs] [Hnd2 Hrs2]. apply NoDup_Permutation; [done..|]. intros x.
  rewrite Hrs, Hrs2. split; intros [Hx Hl]; (split; [done|]).
  - rewrite lookup_insert_ne; [done|]. intros Heq. rewrite <- Heq in Hl.
    apply (so_free _ Hst _ _ (h_Owner h) Hl Hx). rewrite HN. unfold holder_name. by rewrite Hk.
  - apply lookup_insert_Some in Hl as [[Heq Hxe]|[_ Hl]]; [by subst|done].
Qed.

Lemma holders_after st e hs hs2 :
  has_labels (key_labels selection opts) e -> listing_of st (key_labels selection opts) hs ->
  listing_of (<[entry_Name e := e]> st) (key_labels selection opts) hs2 ->
  NoDup hs2 /\ e ∈ hs2 /\ forall x, x ∈ hs2 -> x = e \/ x ∈ hs /\ entry_Name x <> entry_Name e.
Proof.
  intros Hlab [_ Hhs] [Hnd Hhs2]. split_and!; [done| |].
  - apply Hhs2. split; [done|apply lookup_insert_eq].
  - intros x [Hx Hl]%Hhs2. apply lookup_insert_Some in Hl as [[_ ->]|[Hne Hl]]; [by left|right]. rewrite Hhs. done.
Qed.

(** With the holder in its place the same target is picked, and it is the holder. *)
Lemma pick_again rs hs t rs2 hs2 e i :
  pick rs hs = Ok t -> rt_ref t = key_ref selection opts i -> rs ≡ₚ rs2 -> NoDup hs2 -> e ∈ hs2 -> index_at e = Some i ->
  (forall x, x ∈ hs2 -> x = e \/ x ∈ hs /\ index_at x <> Some i) ->
  exists t2, pick rs2 hs2 = Ok t2 /\ rt_holder t2 = Some e.
Proof.
  intros Hp Href Hrp Hnd Hin Hie Hother. destruct (pick_inv _ _ _ Hp) as (i' & Href' & Hdec & _ & m & Hm & Hi).
  rewrite Href in Href'. injection Href' as <-. destruct (by_index_total ∅ hs2) as [m2 Hm2].
  { intros x Hx. destruct (Hother x Hx) as [->|[Hx' _]]; [by eexists|by apply Hdec]. }
  destruct (by_index_spec _ _ _ Hm2) as [Hf2 Hk2]. destruct (by_index_spec _ _ _ Hm) as [_ Hk1].
  assert (Hone : filter (fun e => index_at e = Some i) hs2 = [e]).
  { apply only_elem; [by apply NoDup_filter|]. intros x. rewrite list_elem_of_filter. split; [|by intros ->].
    intros [Hix Hx]. by destruct (Hother x Hx) as [->|[_ ?]]. }
  assert (Hi2 : resourceScaleIndex opts (count_of rs2) (sort_ints (map_to_list m2).*1) = Ok i).
  { rewrite <- (knownReplicas_perm _ rs) by done. eapply scale_index_again; [exact Hi|]. intros Hor. apply one_key.
    intros j. rewrite Hk2. split; [|intros ->; right; by exists e]. intros [[? ?]|(x & Hx & Hxj)]; [done|].
    destruct (Hother x Hx) as [->|[Hx' _]]; [congruence|]. assert (Hj : is_Some (m !! j)) by (apply Hk1; right; by exists x).
    apply keys_elem in Hj. destruct Hor as [Ho|Ho]; rewrite Ho in Hj; [by apply elem_of_nil in Hj|by apply list_elem_of_singleton in Hj]. }
  unfold pick_resource. rewrite Hm2. simpl. rewrite Hi2. simpl. rewrite Hf2, lookup_empty. simpl. rewrite Hone.
  by eexists.
Qed.

(** A resource that was set is read back: after a [ResourceSet] that returned no
    error a [ResourceGet] with the same options gives the value, unless the service could
    not list the commands, whether the resource had a holder before or not. *)
Theorem set_then_get st v t1 st1 t2 st2 r :
  store_ok st -> in_int64 (ropt_ScaleIndex opts) ->
  run (ResourceSet marshalRelease unmarshalRelease workdirHash selection opts v) t1 None -> store_run st t1 st1 ->
  run (ResourceGet unmarshalRelease selection opts) t2 r -> store_run st1 t2 st2 ->
  r = Ok v \/ exists labels e, Act (SvcList labels) (Err e) ∈ t2.
Proof.
  intros Hst H64 Hset Hs1 Hget Hs2. destruct (set_run _ _ _ _ Hset Hs1) as (Hok & rs & hs & t & h & req & e & Hrs & Hhs & Hp & Hb & Hreq & He & ->).
  destruct (get_run _ _ _ _ Hget Hs2 Hok) as [?|(rs2 & hs2 & Hrs2 & Hhs2 & ->)]; [by right|left].
  destruct (pick_inv _ _ _ Hp) as (i & Href & Hdec & Hfil & m & Hm & Hi).
  assert (Hproj : sel_Project selection <> "") by (unfold check_options in Hok; by case_decide).
  destruct (base_holder_spec st rs hs t h i Hst H64 Hhs Hp Href Hfil) as (Hhr & Hi64 & Hname); [by rewrite Hm|done|].
  destruct (stored_holder_listed (with_value v h) i req e Hhr Hproj Hreq He) as (Hlab & HN & Hnp).
  assert (Hd : decode e = Ok (with_value v h)).
  { eapply decodeHolder_stored; [exact codec| |exact Hreq|exact He]. simpl. by rewrite Hhr. }
  assert (Hie : index_at e = Some i) by (unfold index_at; rewrite Hd; simpl; by rewrite Hhr).
  pose proof (replicas_kept st e (with_value v h) rs rs2 Hst HN ltac:(by simpl; rewrite Hhr) Hnp Hrs Hrs2) as Hrp.
  destruct (holders_after st e hs hs2 Hlab Hhs Hhs2) as (Hnd & Hin & Hother).
  destruct (pick_again rs hs t rs2 hs2 e i Hp Href Hrp Hnd Hin Hie) as (t' & -> & Ht').
  - intros x Hx. destruct (Hother x Hx) as [->|[Hx' Hne]]; [by left|right]. split; [done|].
    intros Hix. apply Hne. rewrite HN. by apply Hname.
  - simpl. rewrite Ht', Hd. done.
Qed.
End Props.

(** ** Witness *)

(** A codec of releases without releases. *)
Definition no_release (_ : resourceRelease) : result err string := Err (Opaque "").

Definition in_p : ProjectSelection := {| sel_Spec := None; sel_WorkDir := "/w"; sel_Project := "p" |}.
Definition web_db : ResourceOption := {| ropt_Command := "web"; ropt_ScaleIndex := 0; ropt_Key := "db" |}.

(** The holder that a first set writes, as a request and as the service stores it. *)
Definition first_holder : resourceHolder :=
  with_value "pg" (new_holder id in_p {| rt_ref := key_ref in_p web_db 1; rt_scale := 1; rt_holder := None |}).
Definition first_request : CreateRequest := {|
  cr_Name := holder_name first_holder; cr_Dir := h_Dir first_holder; cr_Env := h_Env first_holder;
  cr_ImportHostEnv := Some false; cr_InjectEnv := Some false; cr_AppendEnv := [];
  cr_Labels := <[LabelResourceValue := "pg"]> (<[LabelOwner := h_Owner first_holder]> (selector (key_ref in_p web_db 1)));
  cr_RestartPolicy := RestartPolicyNo; cr_MaxRetries := 0; cr_StopSignal := ""; cr_StopTimeout := 0%Z;
  cr_StopCommand := []; cr_AutoRemove := false; cr_Tty := false; cr_ScrollbackBytes := 0; cr_LogDriver := DriverNone;
  cr_LogOpts := ∅; cr_Hooks := ∅; cr_Argv := ["true"]; cr_Replace := true |}.
Definition first_entry : CommandEntry := {|
  ID := cr_Name first_request; entry_Name := cr_Name first_request; CreatedAt := ""; entry_State := EventTypeExited; ExitCode := None;
  ConfigJSON := Some {| Argv := ["true"]; cc_Dir := cr_Dir first_request; cc_Env := cr_Env first_request; cc_InjectEnv := false;
     cc_RestartPolicy := ""; cc_MaxRetries := 0; cc_StopSignal := ""; StopTimeout := None; cc_StopCommand := None; cc_Tty := false;
     cc_ScrollbackBytes := 0; cc_LogDriver := ""; cc_LogOpts := ∅; Labels := cr_Labels first_request; Annotations := ∅;
     cc_Hooks := ∅; CommandDir := "" |};
  StateJSON := None |}.

Definition first_set : list cact := [
  Act (SvcList (projectLabels "/w" "p")) (Ok []); Act (SvcList (key_labels in_p web_db)) (Ok []);
  Act (SvcCreate first_request) (Ok (cr_Name first_request))].
Definition first_get : list cact := [
  Act (SvcList (projectLabels "/w" "p")) (Ok []); Act (SvcList (key_labels in_p web_db)) (Ok [first_entry])].

Definition read_release (_ : string) : result err resourceRelease := Err (Opaque "").

(** The service of the witness: it lists the holder once it is there. *)
Definition listing_holder (stored : bool) (labels : gmap string string) : list CommandEntry :=
  if stored && bool_decide (labels = key_labels in_p web_db) then [first_entry] else [].

Lemma first_set_run : run (ResourceSet no_release read_release id in_p web_db "pg") first_set None.
Proof.
  assert (H : ran (plain_svc (listing_holder false) 0) (ResourceSet no_release read_release id in_p web_db "pg") =
    Some (None, first_set)) by (vm_compute; reflexivity).
  by apply ran_run in H as [H _].
Qed.

Lemma first_get_run : run (ResourceGet read_release in_p web_db) first_get (Ok "pg").
Proof.
  assert (H : ran (plain_svc (listing_holder true) 0) (ResourceGet read_release in_p web_db) =
    Some (Ok "pg", first_get)) by (vm_compute; reflexivity).
  by apply ran_run in H as [H _].
Qed.

(** The listings of the second trace are those of the store with the holder. *)
Lemma one_entry (e : CommandEntry) l (b : bool) :
  (if b then has_labels l e else ~ has_labels l e) ->
  listing_of {[entry_Name e := e]} l (if b then [e] else []).
Proof.
  intros Hb. split; [destruct b; [apply NoDup_singleton|constructor]|]. intros x.
  assert (Hx : ({[entry_Name e := e]} : store) !! entry_Name x = Some x <-> x = e).
  { rewrite lookup_singleton_Some. split; [by intros [_ ->]|by intros ->]. }
  rewrite Hx. destruct b; rewrite ?list_elem_of_singleton; [naive_solver|]. split; [by intros []%elem_of_nil|].
  by intros [? ->].
Qed.

Lemma first_get_listed : store_run {[cr_Name first_request := first_entry]} first_get {[cr_Name first_request := first_entry]}.
Proof.
  exists {[cr_Name first_request := first_entry]}. split.
  - split; [done|]. apply (one_entry first_entry _ false). intros (c & Hc & Hsub). apply (inj Some) in Hc as <-.
    rewrite map_subseteq_spec in Hsub. specialize (Hsub LabelProject "p" ltac:(vm_compute; reflexivity)).
    vm_compute in Hsub. discriminate.
  - exists {[cr_Name first_request := first_entry]}. split; [|done]. split; [done|]. apply (one_entry first_entry _ true).
    eexists. split; [reflexivity|]. apply map_subseteq_spec.
    assert (H : bool_decide (map_Forall (fun k v => cr_Labels first_request !! k = Some v) (key_labels in_p web_db)) = true)
      by (vm_compute; reflexivity).
    by apply bool_decide_eq_true in H.
Qed.

Definition list_failed (a : cact) : bool := match a with Act (SvcList _) (Err _) => true | _ => false end.

Lemma set_then_get_witness :
  exists st1 r, store_run ∅ first_set st1 /\ st1 !! cr_Name first_request = Some first_entry /\
    run (ResourceGet read_release in_p web_db) first_get r /\ r = Ok "pg".
Proof.
  assert (Hst : store_run ∅ first_set {[cr_Name first_request := first_entry]}).
  { assert (Hnil : forall l, NoDup (@nil CommandEntry) /\ forall e : CommandEntry,
      e ∈ [] <-> has_labels l e /\ (∅ : store) !! entry_Name e = Some e).
    { intros l. split; [constructor|]. intros e. rewrite lookup_empty. split; [by intros []%elem_of_nil|by intros [_ ?]]. }
    exists ∅. split; [done|]. exists ∅. split; [done|]. exists {[cr_Name first_request := first_entry]}.
    split; [|done]. exists first_entry. split_and!; [|done..]. split; [done|]. by eexists. }
  exists {[cr_Name first_request := first_entry]}, (Ok "pg").
  split_and!; [exact Hst|by rewrite lookup_singleton_eq|exact first_get_run|].
  destruct (set_then_get no_release read_release id ltac:(by intros ? ?) in_p web_db ∅ "pg" first_set
    {[cr_Name first_request := first_entry]} first_get {[cr_Name first_request := first_entry]} (Ok "pg"))
    as [H|(labels & e & Hin)]; [| |exact first_set_run|exact Hst|exact first_get_run| |exact H|].
  - split; intros; by rewrite lookup_empty in *.
  - vm_compute. split; discriminate.
  - exact first_get_listed.
  - apply (list_elem_of_fmap_2 list_failed) in Hin. vm_compute in Hin. set_solver.
Defined.
