(* ===== verification/Verbs.v ===== *)
(** * Stopping, starting and restarting a project

    [cmdman/compose/service_stop.go], [service_start.go] and [service_restart.go], with
    the labels of [replicaNamer] from [service_create.go].  A restart works layer by
    layer: the programs of a layer's replicas run interleaved and each writes the outcome
    of its own replica. *)

From S2P Require Import Reconcile Walk Service Prelude GoStr LogDriver Model Prog ComposeSpec Naming Lifecycle Graph Targets Plan HookData HookOutput ComposeSvc HookRunner HookSteps Down Create.

(** How many replicas a command has: as declared, or as stored when those are more. *)
(* src/cmdman/compose/service_create.go:283-288 replicaNamer *)
Definition known_scale (spec : option ComposeSpec) (entries : list CommandEntry) (name : string) : Z :=
  let stored := default 0%Z (storedReplicas None entries !! name) in
  match spec ≫= (fun s => declaredReplicas s !! name) with
  | Some n => Z.max stored n
  | None => stored
  end.

(* src/cmdman/compose/service_create.go:272-293 replicaNamer *)
Definition replicaNamer (spec : option ComposeSpec) (entries : list CommandEntry) (e : CommandEntry) : string :=
  let name := commandNameOf e in
  instanceDisplayName (mkCommand name [] (known_scale spec entries name)) (Targets.scaleIndexOf e).

(* src/cmdman/compose/service_restart.go:34-42 RestartOutcome *)
Record RestartOutcome := { rs_Command : string; rs_StopErr : option err; rs_StartErr : option err }.

(* src/cmdman/compose/service_restart.go:17-27 RestartOption *)
Record RestartOption := { rso_Targets : list Target; rso_Timeout : option Duration }.

(** The replicas by command, in the order listed. *)
(* src/cmdman/compose/service_restart.go:328-333 buildEntriesByCommand *)
Definition group_entries (entries : list CommandEntry) : gmap string (list CommandEntry) :=
  foldl (fun m e => let name := commandNameOf e in
                    if decide (name = "") then m else <[name := default [] (m !! name) ++ [e]]> m) ∅ entries.

(** What the phases of a restart share: an outcome per replica, and the replicas whose
    stop hooks failed. *)
Record restart_state := {
  out_by_id : gmap string RestartOutcome;
  held_ids : gset string;
}.

(** The goroutine of one replica in the stop phase writes what its stop gave. *)
(* src/cmdman/compose/service_restart.go:239-254 stopLayerRestartConcurrent *)
Definition record_stop (st : restart_state) (er : CommandEntry * (bool * option err)) : restart_state :=
  let '(e, (startable, stopErr)) := er in
  {| out_by_id := alter (fun o => {| rs_Command := rs_Command o; rs_StopErr := stopErr; rs_StartErr := rs_StartErr o |})
                    (ID e) (out_by_id st);
     held_ids := if startable : bool then held_ids st else {[ID e]} ∪ held_ids st |}.

(* src/cmdman/compose/service_restart.go:307-316 startLayerRestartConcurrent *)
Definition record_start (st : restart_state) (er : CommandEntry * option err) : restart_state :=
  {| out_by_id := alter (fun o => {| rs_Command := rs_Command o; rs_StopErr := rs_StopErr o; rs_StartErr := er.2 |})
                    (ID er.1) (out_by_id st);
     held_ids := held_ids st |}.

Section Verbs.
Context (marshalRelease : resourceRelease -> result err string)
        (unmarshalRelease : string -> result err resourceRelease)
        (unmarshalHooks : string -> result string (list LifecycleHook))
        (unmarshalAfter : string -> result string (list AfterSpec))
        (workdirHash : string -> string)
        (cfg : CmdmanConfig)
        (absPath : string -> option string)
        (reporter limited : bool)
        (errText : err -> string)
        (sortByScaleIndex : list CommandEntry -> list CommandEntry).  (* [slices.SortFunc], which is not stable *)

(** A restart, a stop and a start have no recorder of failed releases. *)
Notation ctx := (@None recorder).
Notation stop_replica := (stopReplica marshalRelease unmarshalRelease unmarshalHooks workdirHash cfg absPath reporter ctx).
Notation start_of := (startReplica marshalRelease unmarshalRelease unmarshalHooks workdirHash cfg absPath reporter ctx).
Notation stops := (stop_walk marshalRelease unmarshalRelease unmarshalHooks workdirHash cfg absPath reporter limited errText ctx false).
Notation starts := (start_walk marshalRelease unmarshalRelease unmarshalHooks workdirHash cfg absPath reporter errText).

(** What the verbs do first: list the project and resolve the targets. *)
(* src/cmdman/compose/service_restart.go:66-77 Service.Restart *)
Definition with_entries {A} (selection : ProjectSelection) (targets : list Target)
    (k : list CommandEntry -> targetSet -> cprog (result err A)) : cprog (result err A) :=
  l ← call (SvcList (projectLabels (sel_WorkDir selection) (sel_Project selection)));
  match l with
  | Err e => mret (Err (ListCommands e))
  | Ok entries =>
    match resolveTargets targets (storedReplicas (sel_Spec selection) entries) with
    | Err e => mret (Err (BadTargets e))
    | Ok ts => k entries ts
    end
  end.

(** The spec rebuilt from what is stored. *)
(* src/cmdman/compose/service_stop.go:101-109 Service.Stop *)
Definition rebuilt_spec (selection : ProjectSelection) (entries : list CommandEntry) : result err ComposeSpec :=
  match reconstructProjectFromMeta unmarshalAfter (sel_WorkDir selection) entries with
  | Err e => Err (BadProject e)
  | Ok None => Err AmbiguousGraph
  | Ok (Some spec) => Ok spec
  end.

(** ** Stop *)

(* src/cmdman/compose/service_stop.go:61-117 Service.Stop *)
Definition Stop_project (selection : ProjectSelection) (targets : list Target) (timeout : option Duration)
  : cprog (result err (list StopOutcome)) :=
  match checkStopTimeout timeout with
  | Some e => mret (Err e)
  | None =>
    with_entries selection targets (fun entries ts =>
      match entries with
      | [] => mret (Ok [])
      | _ =>
        match (match sel_Spec selection with Some spec => Ok spec | None => rebuilt_spec selection entries end) with
        | Err e => mret (Err e)
        | Ok spec => sub (stops timeout spec ts)
        end
      end)
  end.

(** ** Start *)

(* src/cmdman/compose/history.go:21-30 Service.bumpRecency *)
Definition bumpRecency (workDir project : string) : cprog unit :=
  _ ← call (SvcRecordHistory workDir project ""); mret tt.

(* src/cmdman/compose/service_start.go:60-74 Service.startWithSpec *)
Definition startWithSpec (spec : ComposeSpec) (ts : targetSet) : cprog (result err (list StartOutcome)) :=
  attempt outs := sub (starts spec ts hooksFromSpec ∅) in
  _ ← bumpRecency (WorkDir spec) (Project spec); mret (Ok outs).

(* src/cmdman/compose/service_start.go:76-108 Service.startWithoutSpec *)
Definition startWithoutSpec (selection : ProjectSelection) (entries : list CommandEntry) (ts : targetSet)
  : cprog (result err (list StartOutcome)) :=
  match entries with
  | [] => mret (Ok [])
  | _ =>
    match rebuilt_spec selection entries with
    | Err e => mret (Err e)
    | Ok spec =>
      attempt outs := sub (starts spec ts hooksFromStored ∅) in
      _ ← bumpRecency (WorkDir spec) (Project spec); mret (Ok outs)
    end
  end.

(* src/cmdman/compose/service_start.go:34-58 Service.Start *)
Definition Start_project (selection : ProjectSelection) (targets : list Target)
  : cprog (result err (list StartOutcome)) :=
  with_entries selection targets (fun entries ts =>
    match sel_Spec selection with
    | Some spec => startWithSpec spec ts
    | None => startWithoutSpec selection entries ts
    end).

(** ** Restart *)

(* src/cmdman/compose/service_restart.go:324-340 buildEntriesByCommand *)
Definition buildEntriesByCommand (entries : list CommandEntry) : gmap string (list CommandEntry) :=
  sortByScaleIndex <$> group_entries entries.

(** The replicas of a layer, command by command. *)
Definition layer_entries (byCommand : gmap string (list CommandEntry)) (layer : list string) : list CommandEntry :=
  layer ≫= (fun name => default [] (byCommand !! name)).

(** Whether the replica is to be started, and the error of its stop. *)
(* src/cmdman/compose/service_restart.go:261-283 Service.restartStop *)
Definition restartStop (timeout : option Duration) (e : CommandEntry) : cprog (bool * option err) :=
  if negb (entry_live e) then mret (true, None)
  else
    slot ← acquireStop limited;
    match slot with
    | Some er => mret (true, Some er)
    | None =>
      '(hookFailed, _, er) ← stop_replica e false timeout;
      _ ← releaseStop limited;
      mret (negb hookFailed, er)
    end.

(* src/cmdman/compose/service_restart.go:219-259 stopLayerRestartConcurrent *)
Definition stopLayerRestartConcurrent (timeout : option Duration) (byCommand : gmap string (list CommandEntry))
    (st : restart_state) (layer : list string) : cprog restart_state :=
  let es := layer_entries byCommand layer in
  rs ← par_list (map (restartStop timeout) es);
  mret (foldl record_stop st (zip es rs)).

(* src/cmdman/compose/service_restart.go:285-322 startLayerRestartConcurrent *)
Definition startLayerRestartConcurrent (start : CommandEntry -> cprog (option err))
    (byCommand : gmap string (list CommandEntry)) (st : restart_state) (layer : list string) : cprog restart_state :=
  let es := filter (fun e => ID e ∉ held_ids st) (layer_entries byCommand layer) in
  rs ← par_list (map start es);
  mret (foldl record_start st (zip es rs)).

(** The layers one after the other. *)
Fixpoint each_layer (f : restart_state -> list string -> cprog restart_state) (st : restart_state)
    (layers : list (list string)) : cprog restart_state :=
  match layers with
  | [] => mret st
  | layer :: layers => st ← f st layer; each_layer f st layers
  end.

(** An outcome for each replica of a declared command. *)
(* src/cmdman/compose/service_restart.go:164-174 Service.restartWithSpec *)
Definition restart_init (declared : gset string) (byCommand : gmap string (list CommandEntry))
    (nameOf : CommandEntry -> string) : restart_state := {|
  out_by_id := map_fold (fun name replicas m =>
    if decide (name ∈ declared)
    then foldl (fun m e => <[ID e := {| rs_Command := nameOf e; rs_StopErr := None; rs_StartErr := None |}]> m) m replicas
    else m) ∅ byCommand;
  held_ids := ∅ |}.

(** The collection reads the outcome of every replica of the layers; each has one. *)
(* src/cmdman/compose/service_restart.go:114-217 Service.restartWithSpec *)
Definition restartWithSpec (spec : ComposeSpec) (entries : list CommandEntry) (ts : targetSet) (src : hookSource)
    (timeout : option Duration) : cprog (result err (list RestartOutcome)) :=
  match TopoLayers (Commands spec) with
  | Err e => mret (Err (Layers e))
  | Ok layers =>
    let nameOf := replicaNamer (Some spec) entries in
    let byCommand := buildEntriesByCommand (ts_filter ts entries) in
    let st := restart_init (list_to_set (command_names (Commands spec))) byCommand nameOf in
    st ← each_layer (stopLayerRestartConcurrent timeout byCommand) st (rev layers);
    st ← each_layer (startLayerRestartConcurrent
           (fun e => start_of spec src (default (mkCommand "" [] 0) (commands_by_name spec !! commandNameOf e)) e)
           byCommand) st layers;
    mret (Ok (omap (fun e => out_by_id st !! ID e) (layers ≫= layer_entries byCommand)))
  end.

(* src/cmdman/compose/service_restart.go:44-104 Service.Restart *)
Definition Restart (selection : ProjectSelection) (opts : RestartOption) : cprog (result err (list RestartOutcome)) :=
  match checkStopTimeout (rso_Timeout opts) with
  | Some e => mret (Err e)
  | None =>
    with_entries selection (rso_Targets opts) (fun entries ts =>
      match entries with
      | [] => mret (Ok [])
      | _ =>
        match sel_Spec selection with
        | Some spec => restartWithSpec spec entries ts hooksFromSpec (rso_Timeout opts)
        | None =>
          match rebuilt_spec selection entries with
          | Err e => mret (Err e)
          | Ok spec => restartWithSpec spec entries ts hooksFromStored (rso_Timeout opts)
          end
        end
      end)
  end.
End Verbs.
