(* ===== verification/VerbProps.v ===== *)
(** * What a restart does to each replica

    Every run of [restartWithSpec]: the replicas of a layer are stopped together and
    started together, layer after layer, and each has one outcome, its own. *)

From S2P Require Import Reconcile Walk Service Prelude GoStr LogDriver Model Prog ComposeSpec Naming Lifecycle Graph Targets Plan HookData HookOutput ComposeSvc HookRunner HookSteps HookProps Down Create Verbs.

Notation name_of := commandNameOf.

(** ** The replicas by command *)

Lemma group_entries_lookup es n :
  default [] (group_entries es !! n) = if decide (n = "") then [] else filter (fun e => name_of e = n) es.
Proof.
  unfold group_entries. assert (Hf : forall (m : gmap string (list CommandEntry)), m !! "" = None ->
    default [] (foldl (fun m e => let name := name_of e in
        if decide (name = "") then m else <[name := default [] (m !! name) ++ [e]]> m) m es !! n)
      = if decide (n = "") then [] else default [] (m !! n) ++ filter (fun e => name_of e = n) es).
  { induction es as [|e es IH]; intros m Hm; simpl.
    { case_decide as Hn; [subst n; by rewrite Hm|]. by rewrite app_nil_r. }
    rewrite filter_cons. destruct (decide (name_of e = "")) as [He|He].
    - rewrite IH by done. destruct (decide (n = "")); [done|]. by rewrite decide_False by congruence.
    - rewrite IH by (by rewrite lookup_insert_ne). destruct (decide (n = "")); [done|].
      destruct (decide (name_of e = n)) as [->|Hen].
      + rewrite lookup_insert_eq. simpl. by rewrite <- app_assoc.
      + by rewrite lookup_insert_ne. }
  by rewrite Hf.
Qed.

(** ** Outcomes by ID *)

Section Alter.
Context {X O : Type} (f : X -> O -> O).
Implicit Types (l : list (CommandEntry * X)) (m : gmap string O).

Definition alter_all m l : gmap string O := foldl (fun m ex => alter (f ex.2) (ID ex.1) m) m l.

Lemma alter_all_ne m l i : i ∉ (fun ex => ID ex.1) <$> l -> alter_all m l !! i = m !! i.
Proof.
  revert m. induction l as [|[e x] l IH]; intros m; simpl; [done|]. intros [Hne Hn]%not_elem_of_cons.
  rewrite IH by done. by apply lookup_alter_ne.
Qed.

Lemma alter_all_eq m l e x : NoDup ((fun ex => ID ex.1) <$> l) -> (e, x) ∈ l -> alter_all m l !! ID e = f x <$> m !! ID e.
Proof.
  revert m. induction l as [|[e' x'] l IH]; intros m; simpl; [by intros _ []%elem_of_nil|].
  intros [Hn Hnd]%NoDup_cons [[= -> ->]|Hin]%elem_of_cons.
  - rewrite alter_all_ne by done. by rewrite lookup_alter_eq.
  - rewrite IH by done. rewrite lookup_alter_ne; [done|]. intros Heq. apply Hn. rewrite Heq.
    apply list_elem_of_fmap. by exists (e, x).
Qed.
End Alter.

Definition set_stop (r : bool * option err) (o : RestartOutcome) : RestartOutcome :=
  {| rs_Command := rs_Command o; rs_StopErr := r.2; rs_StartErr := rs_StartErr o |}.
Definition set_start (r : option err) (o : RestartOutcome) : RestartOutcome :=
  {| rs_Command := rs_Command o; rs_StopErr := rs_StopErr o; rs_StartErr := r |}.

Lemma record_stop_out st l : out_by_id (foldl record_stop st l) = alter_all set_stop (out_by_id st) l.
Proof. revert st. induction l as [|[e [b r]] l IH]; intros st; simpl; [done|]. by rewrite IH. Qed.

Lemma record_stop_held st l i :
  i ∈ held_ids (foldl record_stop st l) <-> i ∈ held_ids st \/ exists e r, (e, (false, r)) ∈ l /\ ID e = i.
Proof.
  revert st. induction l as [|[e [b r]] l IH]; intros st; simpl.
  { split; [by left|]. by intros [?|(? & ? & []%elem_of_nil & _)]. }
  rewrite IH. simpl. setoid_rewrite elem_of_cons. split.
  - intros [H|(e' & r' & ? & ?)]; [|right; exists e', r'; auto]. destruct b; [by left|].
    apply elem_of_union in H as [->%elem_of_singleton|?]; [right; exists e, r; auto|by left].
  - intros [H|(e' & r' & [[= -> <- ->]|?] & <-)]; [|left; set_solver|right; eauto]. left. destruct b; set_solver.
Qed.

Lemma record_start_out st l : out_by_id (foldl record_start st l) = alter_all set_start (out_by_id st) l.
Proof. revert st. induction l as [|[e r] l IH]; intros st; simpl; [done|]. by rewrite IH. Qed.

Lemma record_start_held st l : held_ids (foldl record_start st l) = held_ids st.
Proof. revert st. induction l as [|[e r] l IH]; intros st; simpl; [done|]. by rewrite IH. Qed.

(** ** Groups of replicas *)

(** A group run: each replica with its trace and its result. *)
Definition traced (R : Type) : Type := CommandEntry * (list cact * R).
Definition trace_of {R} (x : traced R) : list cact := x.2.1.
Definition answer_of {R} (x : traced R) : CommandEntry * R := (x.1, x.2.2).

Lemma group_run {R} (p : CommandEntry -> cprog R) es tr rs :
  run (par_list (map p es)) tr rs ->
  exists l : list (traced R), l.*1 = es /\ Forall (fun x => run (p x.1) (trace_of x) x.2.2) l /\
    merges (trace_of <$> l) tr /\ zip es rs = answer_of <$> l.
Proof.
  intros (trs & H & Hm)%run_par_list.
  enough (exists l : list (traced R), l.*1 = es /\ Forall (fun x => run (p x.1) (trace_of x) x.2.2) l /\
    trace_of <$> l = trs /\ zip es rs = answer_of <$> l) as (l & ? & ? & <- & ?) by (exists l; done).
  clear Hm tr. revert trs rs H. induction es as [|e es IH]; intros trs rs H; inversion H as [|? t r ? trs' rs' Hr Hrest]; subst.
  { by exists []. }
  destruct (IH _ _ Hrest) as (l & <- & Hl & <- & Hz). exists ((e, (t, r)) :: l). simpl. rewrite Hz.
  split_and!; try done. by constructor.
Qed.

(** A phase: the layers one after the other, each a group of the replicas that [sel]
    takes of it. *)
Lemma phase_run {R} (sel : restart_state -> list string -> list CommandEntry) (p : CommandEntry -> cprog R)
    (rec : restart_state -> CommandEntry * R -> restart_state) layers st tr st' :
  (forall st l, sel (foldl rec st l) = sel st) ->
  run (each_layer (fun st layer => rs ← par_list (map p (sel st layer)); mret (foldl rec st (zip (sel st layer) rs))) st layers) tr st' ->
  exists (ls : list (list (traced R))) ts,
    (fun l => l.*1) <$> ls = sel st <$> layers /\ Forall (Forall (fun x => run (p x.1) (trace_of x) x.2.2)) ls /\
    Forall2 (fun l t => merges (trace_of <$> l) t) ls ts /\ tr = concat ts /\
    st' = foldl rec st (answer_of <$> concat ls).
Proof.
  intros Hsel. revert st tr. induction layers as [|layer layers IH]; intros st tr H; simpl in H.
  { apply run_ret in H as [-> ->]. exists [], []. by split_and!. }
  inv_run H as st1 t1 H1. inv_run H1 as rs t2 H2. inv_ret H1. rewrite app_nil_r.
  apply group_run in H2 as (l & Hl & Hrun & Hm & Hz). apply IH in H as (ls & ts & Hls & Hruns & Hms & -> & ->).
  rewrite Hsel in Hls. exists (l :: ls), (t2 :: ts). split_and!; [by apply (f_equal2 cons)|by constructor..|done|].
  simpl. by rewrite fmap_app, foldl_app, Hz.
Qed.

(** What happened to one replica. *)
Record replica_restart := {
  rr_entry : CommandEntry;
  rr_out : RestartOutcome;
  rr_stop : list cact;
  rr_start : list cact;
}.

(** The stops of a layer with the starts of those of its replicas that are not held. *)
Lemma pair_up (out : CommandEntry -> RestartOutcome) (held : CommandEntry -> Prop) `{!forall e, Decision (held e)} {R S}
    (l : list (traced R)) (g : list (traced S)) t :
  g.*1 = filter (fun e => ~ held e) l.*1 -> merges (trace_of <$> g) t ->
  exists rrs, rr_entry <$> rrs = l.*1 /\ rr_stop <$> rrs = trace_of <$> l /\ merges (rr_start <$> rrs) t /\
    Forall (fun rr => rr_out rr = out (rr_entry rr) /\ (exists r, (rr_entry rr, (rr_stop rr, r)) ∈ l) /\
      if decide (held (rr_entry rr)) then rr_start rr = [] else exists s, (rr_entry rr, (rr_start rr, s)) ∈ g) rrs.
Proof.
  revert g t. induction l as [|[e [tr r]] l IH]; intros g t; simpl.
  { intros ->%fmap_nil_inv Hm. exists []. by split_and!. }
  rewrite filter_cons. destruct (decide (held e)) as [He|He].
  - rewrite decide_False by tauto. intros Hg Hm. destruct (IH g t Hg Hm) as (rrs & H1 & H2 & H3 & H4).
    exists ({| rr_entry := e; rr_out := out e; rr_stop := tr; rr_start := [] |} :: rrs). rewrite !fmap_cons, H1, H2. split_and!; try done; [by apply merges_nil_add|]. constructor.
    + simpl. rewrite decide_True by done. split_and!; [done|exists r; by left|done].
    + eapply Forall_impl; [exact H4|]. intros rr (? & [r' ?] & ?). split_and!; [done|exists r'; by right|done].
  - rewrite decide_True by tauto. destruct g as [|[e' [tg s]] g]; [done|]. simpl. intros [= -> Hg] Hm.
    inversion Hm as [|? ? t2 ? Hm' Hmg]; subst. destruct (IH g t2 Hg Hm') as (rrs & H1 & H2 & H3 & H4).
    exists ({| rr_entry := e; rr_out := out e; rr_stop := tr; rr_start := tg |} :: rrs). rewrite !fmap_cons, H1, H2. split_and!; try done; [by econstructor|]. constructor.
    + simpl. rewrite decide_False by done. split_and!; [done|exists r; by left|exists s; by left].
    + eapply Forall_impl; [exact H4|]. intros rr (? & [r' ?] & Hs). split_and!; [done|exists r'; by right|].
      destruct (decide _); [done|]. destruct Hs as [s' ?]. exists s'. by right.
Qed.

(** ** Restart *)

Section Restart.
Context (marshalRelease : resourceRelease -> result err string)
        (unmarshalRelease : string -> result err resourceRelease)
        (unmarshalHooks : string -> result string (list LifecycleHook))
        (workdirHash : string -> string)
        (cfg : CmdmanConfig)
        (absPath : string -> option string)
        (reporter limited : bool)
        (sortByScaleIndex : list CommandEntry -> list CommandEntry)
        (sort_perm : forall l, sortByScaleIndex l ≡ₚ l).

Notation stop_one := (restartStop marshalRelease unmarshalRelease unmarshalHooks workdirHash cfg absPath reporter limited).
Notation start_one := (startReplica marshalRelease unmarshalRelease unmarshalHooks workdirHash cfg absPath reporter None).
Notation restart := (restartWithSpec marshalRelease unmarshalRelease unmarshalHooks workdirHash cfg absPath reporter limited sortByScaleIndex).
Notation by_command := (buildEntriesByCommand sortByScaleIndex).

(** A stored replica of one of the commands. *)
Definition replica_of (layer : list string) (e : CommandEntry) : Prop := name_of e <> "" /\ name_of e ∈ layer.

Lemma by_command_perm es n :
  default [] (by_command es !! n) ≡ₚ filter (fun e => name_of e <> "" /\ name_of e = n) es.
Proof.
  assert (Hg : default [] (group_entries es !! n) = filter (fun e => name_of e <> "" /\ name_of e = n) es).
  { rewrite group_entries_lookup. case_decide as Hn.
    - subst n. symmetry. apply list_filter_none. by intros e _ [? ?].
    - apply list_filter_iff. intros e. split; [by intros <-|tauto]. }
  rewrite <- Hg. unfold buildEntriesByCommand. rewrite lookup_fmap.
  destruct (group_entries es !! n); simpl; [apply sort_perm|done].
Qed.

Lemma layer_entries_perm es layer :
  NoDup layer -> layer_entries (by_command es) layer ≡ₚ filter (replica_of layer) es.
Proof.
  induction layer as [|n layer IH]; simpl; intros Hnd.
  { rewrite list_filter_none; [done|]. by intros e _ [_ []%elem_of_nil]. }
  apply NoDup_cons in Hnd as [Hn Hnd]. unfold layer_entries in *. simpl. rewrite by_command_perm, IH by done.
  clear IH. induction es as [|e es IH]; [done|]. rewrite !filter_cons. unfold replica_of in *.
  destruct (decide (name_of e <> "" /\ name_of e = n)) as [[He Hen]|H1].
  - rewrite (decide_True (P := name_of e <> "" /\ name_of e ∈ n :: layer)) by (rewrite Hen in *; split; [done|by left]).
    rewrite decide_False by (intros [_ ?]; congruence). simpl. by rewrite IH.
  - destruct (decide (name_of e <> "" /\ name_of e ∈ layer)) as [[He Hin]|H2].
    + rewrite decide_True by (split; [done|by right]). by rewrite <- Permutation_middle, IH.
    + rewrite decide_False; [done|]. intros [He [?|Hin]%elem_of_cons]; tauto.
Qed.

(** *** What is there before the phases *)

Definition fresh (nameOf : CommandEntry -> string) (e : CommandEntry) : RestartOutcome :=
  {| rs_Command := nameOf e; rs_StopErr := None; rs_StartErr := None |}.

Lemma insert_fresh (U : CommandEntry -> Prop) nameOf es (m : gmap string RestartOutcome) e :
  (forall a b, U a -> U b -> ID a = ID b -> a = b) -> Forall U es -> U e -> m !! ID e = Some (fresh nameOf e) \/ e ∈ es ->
  foldl (fun m e => <[ID e := fresh nameOf e]> m) m es !! ID e = Some (fresh nameOf e).
Proof.
  intros Hinj. revert m. induction es as [|x es IH]; intros m Hu He Hor; simpl.
  { destruct Hor as [?|[]%elem_of_nil]. done. }
  apply Forall_cons in Hu as [Hx Hu]. apply IH; try done. destruct (decide (ID x = ID e)) as [Heq|Hne].
  - rewrite <- (Hinj x e) by done. left. apply lookup_insert_eq.
  - rewrite lookup_insert_ne by done. destruct Hor as [?|[->|?]%elem_of_cons]; [by left|done|by right].
Qed.

Lemma restart_init_lookup (declared : gset string) (byc : gmap string (list CommandEntry)) nameOf n rs e :
  (forall a b na nb la lb, byc !! na = Some la -> byc !! nb = Some lb -> a ∈ la -> b ∈ lb -> ID a = ID b -> a = b) ->
  byc !! n = Some rs -> n ∈ declared -> e ∈ rs ->
  out_by_id (restart_init declared byc nameOf) !! ID e = Some (fresh nameOf e).
Proof.
  intros Hinj. unfold restart_init. cbn [out_by_id]. revert n rs e.
  set (U e := exists n rs, byc !! n = Some rs /\ e ∈ rs).
  assert (HU : forall a b, U a -> U b -> ID a = ID b -> a = b) by (intros a b (?&?&?&?) (?&?&?&?); eauto).
  enough (H : forall n rs e, byc !! n = Some rs -> n ∈ declared -> e ∈ rs ->
    map_fold (fun name replicas m => if decide (name ∈ declared)
      then foldl (fun m e => <[ID e := fresh nameOf e]> m) m replicas else m) ∅ byc !! ID e = Some (fresh nameOf e)) by done.
  assert (Hsub : byc ⊆ byc) by done. revert Hsub. generalize byc at 1 3 4 as m.
  refine (map_fold_weak_ind (fun r m => m ⊆ byc -> forall n rs e, m !! n = Some rs -> n ∈ declared -> e ∈ rs ->
    r !! ID e = Some (fresh nameOf e)) _ _ _ _); [intros _ n rs e; by rewrite lookup_empty|].
  intros n rs m r Hn IH Hsub n' rs' e Hn' Hd He.
  assert (Hm : m ⊆ byc) by (etrans; [by apply insert_subseteq|done]).
  assert (Hbyc : byc !! n = Some rs) by (eapply lookup_weaken; [apply lookup_insert_eq|exact Hsub]).
  assert (Hbyc' : byc !! n' = Some rs') by (by eapply lookup_weaken).
  destruct (decide (n = n')) as [<-|Hne].
  - rewrite lookup_insert_eq in Hn'. injection Hn' as ->. rewrite decide_True by done.
    apply (insert_fresh U); [done| |exists n, rs'; done|by right]. apply Forall_forall. intros x Hx. by exists n, rs'.
  - rewrite lookup_insert_ne in Hn' by done. pose proof (IH Hm n' rs' e Hn' Hd He) as Hr.
    destruct (decide (n ∈ declared)); [|done].
    apply (insert_fresh U); [done| |exists n', rs'; done|by left]. apply Forall_forall. intros x Hx. by exists n, rs.
Qed.

(** *** All layers *)

Lemma in_head {A} (x : A) l L : x ∈ l -> x ∈ concat (l :: L).
Proof. simpl. rewrite elem_of_app. auto. Qed.
Lemma in_tail {A} (x : A) l L : x ∈ concat L -> x ∈ concat (l :: L).
Proof. simpl. rewrite elem_of_app. auto. Qed.

Lemma pair_layers (out : CommandEntry -> RestartOutcome) (held : CommandEntry -> Prop) `{!forall e, Decision (held e)} {R S}
    (L : list (list (traced R))) (G : list (list (traced S))) ts :
  (fun g => g.*1) <$> G = filter (fun e => ~ held e) <$> ((fun l => l.*1) <$> L) ->
  Forall2 (fun g t => merges (trace_of <$> g) t) G ts ->
  exists runs, (fun rs => rr_entry <$> rs) <$> runs = (fun l => l.*1) <$> L /\
    (fun rs => rr_stop <$> rs) <$> runs = (fun l => trace_of <$> l) <$> L /\
    Forall2 (fun rs t => merges (rr_start <$> rs) t) runs ts /\
    Forall (Forall (fun rr => rr_out rr = out (rr_entry rr) /\ (exists r, (rr_entry rr, (rr_stop rr, r)) ∈ concat L) /\
      if decide (held (rr_entry rr)) then rr_start rr = [] else exists s, (rr_entry rr, (rr_start rr, s)) ∈ concat G)) runs.
Proof.
  revert G ts. induction L as [|l L IH]; intros G ts HG Hm.
  { apply fmap_nil_inv in HG as ->. inversion Hm; subst. exists []. by split_and!. }
  destruct G as [|g G]; [done|]. rewrite !fmap_cons in HG. injection HG as Hg HG. inversion Hm as [|? t ? ts' Hmg Hms]; subst.
  destruct (IH G ts' HG Hms) as (runs & H1 & H2 & H3 & H4). destruct (pair_up out held l g t Hg Hmg) as (rrs & P1 & P2 & P3 & P4).
  exists (rrs :: runs). rewrite !fmap_cons, H1, H2, P1, P2. split_and!; [done|done|by constructor|]. constructor.
  - eapply Forall_impl; [exact P4|]. intros rr (? & [r Hr] & Hs). split_and!; [done|exists r; by apply in_head|].
    destruct (decide _); [done|]. destruct Hs as [s ?]. exists s. by apply in_head.
  - eapply Forall_impl; [exact H4|]. intros rrs' Hrrs. eapply Forall_impl; [exact Hrrs|]. intros rr (? & [r Hr] & Hs).
    split_and!; [done|exists r; by apply in_tail|].
    destruct (decide _); [done|]. destruct Hs as [s ?]. exists s. by apply in_tail.
Qed.

Lemma layer_entries_concat byc layers : layers ≫= layer_entries byc = layer_entries byc (concat layers).
Proof.
  induction layers as [|l layers IH]; [done|]. rewrite bind_cons, IH. unfold layer_entries. simpl. by rewrite bind_app.
Qed.

Lemma NoDup_fmap_eq {A B} (f : A -> B) l a b : NoDup (f <$> l) -> a ∈ l -> b ∈ l -> f a = f b -> a = b.
Proof.
  induction l as [|x l IH]; [by intros _ []%elem_of_nil|]. rewrite fmap_cons. intros [Hn Hnd]%NoDup_cons.
  intros [->|Ha]%elem_of_cons [->|Hb]%elem_of_cons He; [done| | |by apply IH].
  - destruct Hn. rewrite He. by apply list_elem_of_fmap_2.
  - destruct Hn. rewrite <- He. by apply list_elem_of_fmap_2.
Qed.

(** The replicas of the layers: their IDs differ, and each is in its command's list. *)
Lemma layered_entries es layers :
  NoDup (ID <$> es) -> NoDup (concat layers) ->
  NoDup (ID <$> (layers ≫= layer_entries (by_command es))) /\
  (forall e, e ∈ layers ≫= layer_entries (by_command es) -> e ∈ es /\
     exists n rs, n ∈ concat layers /\ by_command es !! n = Some rs /\ e ∈ rs) /\
  (forall a b na nb la lb, by_command es !! na = Some la -> by_command es !! nb = Some lb -> a ∈ la -> b ∈ lb -> ID a = ID b -> a = b).
Proof.
  intros Hid Hnd.
  assert (Hin : forall n rs e, by_command es !! n = Some rs -> e ∈ rs -> e ∈ es).
  { intros n rs e Hn He. pose proof (by_command_perm es n) as Hp. rewrite Hn in Hp. simpl in Hp.
    rewrite Hp in He. by apply list_elem_of_filter in He as [_ ?]. }
  rewrite layer_entries_concat. split_and!.
  - rewrite (layer_entries_perm es _ Hnd). eapply sublist_NoDup; [exact Hid|]. apply fmap_sublist, sublist_filter.
  - intros e (n & He & Hn)%list_elem_of_bind. destruct (by_command es !! n) as [rs|] eqn:Hrs; [|by apply elem_of_nil in He].
    split; [by eapply Hin|]. by exists n, rs.
  - intros a b na nb la lb Ha Hb Hina Hinb. eapply (NoDup_fmap_eq ID); eauto.
Qed.

Lemma answered {R} (l : list (traced R)) e t r : (e, (t, r)) ∈ l -> (e, r) ∈ answer_of <$> l.
Proof. intros H. apply list_elem_of_fmap. by exists (e, (t, r)). Qed.

Lemma answer_ids {R} (l : list (traced R)) : (fun ex => ID ex.1) <$> (answer_of <$> l) = ID <$> l.*1.
Proof. by rewrite <- !list_fmap_compose. Qed.

(** What the state has for a replica after both phases. *)
Lemma outcome_lookup init nameOf (l : list (traced (bool * option err))) (g : list (traced (option err)))
    e (t : list cact) (r : bool * option err) st1 st2 :
  let o s := {| rs_Command := nameOf e; rs_StopErr := r.2; rs_StartErr := s |} in
  held_ids init = ∅ -> (forall x, x ∈ l.*1 -> out_by_id init !! ID x = Some (fresh nameOf x)) ->
  NoDup (ID <$> l.*1) -> NoDup (ID <$> g.*1) -> (e, (t, r)) ∈ l ->
  st1 = foldl record_stop init (answer_of <$> l) -> st2 = foldl record_start st1 (answer_of <$> g) ->
  (ID e ∈ held_ids st1 <-> r.1 = false) /\
  (forall tg s, (e, (tg, s)) ∈ g -> out_by_id st2 !! ID e = Some (o s)) /\
  (ID e ∉ ID <$> g.*1 -> out_by_id st2 !! ID e = Some (o None)).
Proof.
  intros o Hheld Hinit Hl Hg He Hst1 Hst2. assert (Hel : e ∈ l.*1) by (apply list_elem_of_fmap; by exists (e, (t, r))).
  assert (H1 : out_by_id st1 !! ID e = Some {| rs_Command := nameOf e; rs_StopErr := r.2; rs_StartErr := None |}).
  { subst st1. rewrite record_stop_out, (alter_all_eq _ _ _ e r); [by rewrite Hinit| |by eapply answered].
    by rewrite answer_ids. }
  split_and!.
  - subst st1. rewrite record_stop_held, Hheld. split.
    + intros [[]%not_elem_of_empty|(e' & r' & ([e0 [t0 r0]] & Heq & Hx)%list_elem_of_fmap & Hid)].
      injection Heq as -> <-. rewrite <- list_fmap_compose in Hl.
      by pose proof (NoDup_fmap_eq (ID ∘ fst) l _ _ Hl Hx He Hid) as [= -> _ <-].
    + destruct r as [b r]; simpl. intros ->. right. exists e, r. split; [by eapply answered|done].
  - intros tg s Hs. subst st2. rewrite record_start_out, (alter_all_eq _ _ _ e s); [by rewrite H1| |by eapply answered].
    by rewrite answer_ids.
  - intros Hn. subst st2. rewrite record_start_out, alter_all_ne; [done|]. by rewrite answer_ids.
Qed.

(** *** Lists of lists *)

Lemma concat_fst {R} (L : list (list (traced R))) : (concat L).*1 = concat ((fun l => l.*1) <$> L).
Proof. induction L as [|l L IH]; [done|]. simpl. by rewrite fmap_app, IH. Qed.

Lemma concat_filter {A} (P : A -> Prop) `{!forall x, Decision (P x)} (L : list (list A)) :
  concat ((fun l => filter P l) <$> L) = filter P (concat L).
Proof. induction L as [|l L IH]; [done|]. simpl. by rewrite filter_app, <- IH. Qed.

Lemma concat_rev_perm {A} (L : list (list A)) : concat (rev L) ≡ₚ concat L.
Proof.
  induction L as [|l L IH]; [done|]. simpl. rewrite concat_app, IH. simpl. rewrite app_nil_r. apply Permutation_app_comm.
Qed.

Lemma fmap_rev {A B} (f : A -> B) (l : list A) : f <$> rev l = rev (f <$> l).
Proof. induction l as [|x l IH]; [done|]. simpl. by rewrite fmap_app, IH. Qed.

Lemma bind_concat {A B} (f : A -> list B) l : l ≫= f = concat (f <$> l).
Proof. induction l as [|x l IH]; [done|]. rewrite bind_cons, IH. done. Qed.

Lemma Forall2_image {A B C} (f : A -> C) (g : B -> C) (P : B -> C -> Prop) l k :
  f <$> l = g <$> k -> Forall (fun y => P y (g y)) k -> Forall2 (fun y x => P y (f x)) k l.
Proof.
  revert l. induction k as [|y k IH]; intros [|x l] He Hk; try done. rewrite !fmap_cons in He. injection He as Hx He.
  apply Forall_cons in Hk as [Hy Hk]. constructor; [by rewrite Hx|by apply IH].
Qed.

Lemma Forall2_image_l {A B C D} (f : A -> C) (g : B -> C) (Q : C -> D -> Prop) l k ts :
  f <$> l = g <$> k -> Forall2 (fun y t => Q (g y) t) k ts -> Forall2 (fun x t => Q (f x) t) l ts.
Proof.
  revert l ts. induction k as [|y k IH]; intros [|x l] ts He Hk; try done; [by inversion Hk|].
  rewrite !fmap_cons in He. injection He as Hx He. inversion Hk; subst. constructor; [by rewrite Hx|by apply IH].
Qed.

Lemma concat_entries (runs : list (list replica_restart)) : concat ((fun rs : list replica_restart => (rr_entry <$> rs : list CommandEntry)) <$> runs : list (list CommandEntry)) = rr_entry <$> concat runs.
Proof. induction runs as [|rs runs IH]; [done|]. rewrite fmap_cons. cbn [concat]. by rewrite fmap_app, IH. Qed.

Lemma omap_fmap {A B C} (f : A -> B) (g : B -> option C) (l : list A) : omap g (f <$> l) = omap (fun x => g (f x)) l.
Proof. induction l as [|x l IH]; [done|]. simpl. destruct (g (f x)); [by apply (f_equal2 cons)|apply IH]. Qed.

Lemma sublist_concat {A} (l : list A) L : l ∈ L -> l `sublist_of` concat L.
Proof.
  intros (i & j & ->)%list_elem_of_split. rewrite concat_app. simpl. apply sublist_inserts_l, sublist_inserts_r. done.
Qed.

Lemma omap_all {A B} (f : A -> option B) (g : A -> B) (l : list A) : (forall x, x ∈ l -> f x = Some (g x)) -> omap f l = g <$> l.
Proof.
  induction l as [|x l IH]; intros Hf; [done|]. simpl. rewrite (Hf x) by (by left). apply (f_equal2 cons); [done|].
  apply IH. intros y Hy. apply Hf. by right.
Qed.

(** What the phases leave for the replicas of the layers. *)
Lemma phases_lookup es declared nameOf layers (L : list (list (traced (bool * option err))))
    (G : list (list (traced (option err)))) st1 st2 :
  let byc := by_command es in
  NoDup (ID <$> es) -> NoDup (concat layers) -> (forall n, n ∈ concat layers -> n ∈ declared) ->
  (fun l => l.*1) <$> L = layer_entries byc <$> rev layers ->
  (fun g => g.*1) <$> G = filter (fun e => ID e ∉ held_ids st1) <$> (layer_entries byc <$> layers) ->
  st1 = foldl record_stop (restart_init declared byc nameOf) (answer_of <$> concat L) ->
  st2 = foldl record_start st1 (answer_of <$> concat G) ->
  forall e t r, (e, (t, r)) ∈ concat L ->
    (ID e ∈ held_ids st1 <-> r.1 = false) /\
    (forall tg s, (e, (tg, s)) ∈ concat G ->
       out_by_id st2 !! ID e = Some {| rs_Command := nameOf e; rs_StopErr := r.2; rs_StartErr := s |}) /\
    (ID e ∈ held_ids st1 ->
       out_by_id st2 !! ID e = Some {| rs_Command := nameOf e; rs_StopErr := r.2; rs_StartErr := None |}).
Proof.
  intros byc Hids Hlay Hdecl HL HG Hst1 Hst2 e t r He.
  destruct (layered_entries es layers Hids Hlay) as (Hnd & Hin & Hinj).
  assert (Hperm : (concat L).*1 ≡ₚ layers ≫= layer_entries byc).
  { rewrite concat_fst, HL, fmap_rev, bind_concat. apply concat_rev_perm. }
  assert (Hg : (concat G).*1 = filter (fun e => ID e ∉ held_ids st1) (layers ≫= layer_entries byc)).
  { by rewrite concat_fst, HG, concat_filter, bind_concat. }
  destruct (outcome_lookup (restart_init declared byc nameOf) nameOf (concat L) (concat G) e t r st1 st2 eq_refl)
    as (H1 & H2 & H3); try done.
  - intros x Hx. rewrite Hperm in Hx. destruct (Hin x Hx) as (_ & n & rs & Hn & Hrs & Hxrs).
    eapply restart_init_lookup; eauto.
  - by rewrite Hperm.
  - rewrite Hg. eapply sublist_NoDup; [exact Hnd|]. apply fmap_sublist, sublist_filter.
  - split_and!; [done|done|]. intros Hh. apply H3. intros (x & Hx & Hxg)%list_elem_of_fmap.
    rewrite Hg in Hxg. apply list_elem_of_filter in Hxg as [Hn _]. congruence.
Qed.

(** *** The theorem *)

Section Restarts.
Context (spec : ComposeSpec) (entries : list CommandEntry) (ts : targetSet) (src : hookSource) (timeout : option Duration).

Notation start_of := (fun e => start_one spec src (default (mkCommand "" [] 0) (commands_by_name spec !! name_of e)) e).

(** A replica stops and, unless its stop hooks failed, starts; its outcome says how. *)
Definition restarted (rr : replica_restart) : Prop :=
  let o := rr_out rr in
  rs_Command o = replicaNamer (Some spec) entries (rr_entry rr) /\
  exists startable, run (stop_one timeout (rr_entry rr)) (rr_stop rr) (startable, rs_StopErr o) /\
    if startable : bool then run (start_of (rr_entry rr)) (rr_start rr) (rs_StartErr o)
    else rr_start rr = [] /\ rs_StartErr o = None.

(** The outcome of one replica, from what the phases left for it. *)
Lemma restarted_one (G : list (list (traced (option err)))) st1 st2 rr dflt r :
  let o s := {| rs_Command := replicaNamer (Some spec) entries (rr_entry rr); rs_StopErr := r.2; rs_StartErr := s |} in
  (ID (rr_entry rr) ∈ held_ids st1 <-> r.1 = false) /\
  (forall tg s, (rr_entry rr, (tg, s)) ∈ concat G -> out_by_id st2 !! ID (rr_entry rr) = Some (o s)) /\
  (ID (rr_entry rr) ∈ held_ids st1 -> out_by_id st2 !! ID (rr_entry rr) = Some (o None)) ->
  run (stop_one timeout (rr_entry rr)) (rr_stop rr) r ->
  Forall (Forall (fun x => run (start_of x.1) (trace_of x) x.2.2)) G ->
  rr_out rr = default dflt (out_by_id st2 !! ID (rr_entry rr)) ->
  (if decide (ID (rr_entry rr) ∈ held_ids st1) then rr_start rr = []
   else exists s, (rr_entry rr, (rr_start rr, s)) ∈ concat G) ->
  restarted rr /\ out_by_id st2 !! ID (rr_entry rr) = Some (rr_out rr).
Proof.
  intros o (Hh & Hg & Hn) Hstop Hstarts Hout Hs. destruct r as [startable er]. simpl in *. unfold restarted.
  destruct (decide _) as [Hheld|Hheld].
  - rewrite (Hn Hheld) in *. simpl in Hout. rewrite Hout. split; [|done]. split; [done|]. exists startable.
    split; [done|]. by rewrite (proj1 Hh Hheld).
  - destruct Hs as [x Hx]. rewrite (Hg _ _ Hx) in *. simpl in Hout. rewrite Hout. split; [|done]. split; [done|].
    exists startable. split; [done|]. destruct startable; [|tauto]. apply Forall_concat in Hstarts.
    rewrite Forall_forall in Hstarts. exact (Hstarts _ Hx).
Qed.

(** A restart of a project, when it has results, has one for each targeted replica of
    a declared command, and it is that replica's own: the error of its stop and of its
    start, or of its stop alone when its stop hooks failed and it was therefore not
    started. The replicas of a layer of the dependency graph stop and start together;
    the layers stop last to first, and start first to last after every stop. *)
Theorem restart_replicas tr outs :
  NoDup (command_names (Commands spec)) -> NoDup (ID <$> entries) ->
  run (restart spec entries ts src timeout) tr (Ok outs) ->
  exists layers runs t1 t2,
    TopoLayers (Commands spec) = Ok layers /\
    Forall2 (fun layer rs => rr_entry <$> rs ≡ₚ filter (replica_of layer) (ts_filter ts entries)) layers runs /\
    outs = rr_out <$> concat runs /\ Forall restarted (concat runs) /\
    tr = concat t1 ++ concat t2 /\
    Forall2 (fun rs t => merges (rr_stop <$> rs) t) (rev runs) t1 /\
    Forall2 (fun rs t => merges (rr_start <$> rs) t) runs t2.
Proof.
  intros Hnames Hids H. unfold restartWithSpec in H. destruct (TopoLayers (Commands spec)) as [layers|] eqn:Hl; [|inv_ret H].
  pose proof (topoLayers_spec _ Hnames) as Hlay. unfold TopoLayers in Hl. rewrite Hl in Hlay. destruct Hlay as [_ Hlay].
  set (es := ts_filter ts entries) in *. set (init := restart_init _ _ _) in H.
  inv_run H as st1 t1' H1. inv_run H as st2 t2' H2. apply run_ret in H as [-> [= ->]]. rewrite app_nil_r.
  apply (phase_run (fun _ => layer_entries (by_command es)) _ record_stop) in H1 as (L' & t1 & HL' & Hr1 & Hm1 & -> & Hst1); [|done].
  apply (phase_run (fun st layer => filter (fun e => ID e ∉ held_ids st) (layer_entries (by_command es) layer)) _ record_start)
    in H2 as (G & t2 & HG & Hr2 & Hm2 & -> & Hst2).
  2:{ intros st l. by rewrite record_start_held. }
  set (byc := by_command es) in *. set (L := rev L'). set (out e := default (fresh (fun _ => "") e) (out_by_id st2 !! ID e)).
  assert (HL : (fun l => l.*1) <$> L = layer_entries byc <$> layers).
  { unfold L. rewrite fmap_rev, HL', fmap_rev. apply rev_involutive. }
  assert (HGL : (fun g => g.*1) <$> G = filter (fun e => ~ ID e ∈ held_ids st1) <$> ((fun l => l.*1) <$> L)).
  { rewrite HG, HL. by rewrite <- list_fmap_compose. }
  destruct (pair_layers out (fun e => ID e ∈ held_ids st1) L G t2 HGL Hm2) as (runs & R1 & R2 & R3 & R4).
  assert (Hes : NoDup (ID <$> es)).
  { unfold es, ts_filter. case_decide; [done|]. eapply sublist_NoDup; [exact Hids|]. apply fmap_sublist, sublist_filter. }
  assert (Hnd : NoDup (concat layers)) by (by rewrite (lay_perm _ _ Hlay)).
  assert (HGL' : (fun g => g.*1) <$> G = filter (fun e => ID e ∉ held_ids st1) <$> (layer_entries byc <$> layers)) by (rewrite HGL, HL; done).
  assert (Hdecl : forall n, n ∈ concat layers -> n ∈ (list_to_set (command_names (Commands spec)) : gset string)).
  { intros n. by rewrite (lay_perm _ _ Hlay), elem_of_list_to_set. }
  pose proof (phases_lookup es _ (replicaNamer (Some spec) entries) layers L' G st1 st2 Hes Hnd Hdecl HL' HGL' Hst1 Hst2) as Hlk.
  assert (Hall : forall rr, rr ∈ concat runs -> restarted rr /\ out_by_id st2 !! ID (rr_entry rr) = Some (rr_out rr)).
  { intros rr Hrr. apply Forall_concat in R4. rewrite Forall_forall in R4. destruct (R4 rr Hrr) as (Hout & [r Hr] & Hs).
    unfold L in Hr. rewrite concat_rev_perm in Hr. apply Forall_concat in Hr1. rewrite Forall_forall in Hr1.
    exact (restarted_one G st1 st2 rr _ r (Hlk _ _ _ Hr) (Hr1 _ Hr) Hr2 Hout Hs). }
  exists layers, runs, t1, t2. split_and!; try done.
  - apply (Forall2_image (fun rs => rr_entry <$> rs) (layer_entries byc) (fun layer x => x ≡ₚ filter (replica_of layer) es));
      [by rewrite R1|]. apply Forall_forall. intros layer Hlayer. apply layer_entries_perm.
    eapply sublist_NoDup; [exact Hnd|]. by apply sublist_concat.
  - rewrite bind_concat, <- HL, <- R1, concat_entries, omap_fmap. apply omap_all. intros rr Hrr. by apply Hall.
  - apply Forall_forall. intros rr Hrr. by apply Hall.
  - apply (Forall2_image_l (fun rs => rr_stop <$> rs) (fun l => trace_of <$> l) merges _ L'); [|done].
    rewrite fmap_rev, R2. unfold L. by rewrite fmap_rev, rev_involutive.
Qed.
End Restarts.
End Restart.

(** ** Witness *)

Definition running_entry (id command hooks : string) : CommandEntry := {|
  ID := id; entry_Name := id; CreatedAt := ""; entry_State := EventTypeRunning; ExitCode := None;
  ConfigJSON := Some (labelled {[LabelProject := "p"; LabelCommand := command; LabelHooks := hooks]});
  StateJSON := None |}.
Definition some_entries : list CommandEntry :=
  [running_entry "1" "db" ""; running_entry "2" "web" "broken"; running_entry "3" "old" ""].

Definition restart_some : cprog (result err (list RestartOutcome)) :=
  restartWithSpec (fun _ => Err (Opaque "")) (fun _ => Err (Opaque ""))
    (fun raw => if decide (raw = "broken") then Err "no JSON" else Ok []) id
    {| DataDir := "/data"; RuntimeDir := "/run"; ConfigPath := ""; DefaultWorkingDir := "/"; DefaultEnvironment := [] |}
    Some true true id (mkSpec witness_cmds) some_entries ∅ hooksFromStored None.

(** The replica whose hooks cannot be read is stopped no further and not started. *)
Lemma restart_replicas_witness :
  exists tr outs runs, run restart_some tr (Ok outs) /\ outs = rr_out <$> concat runs /\
    (rs_StopErr <$> outs !! 0) = Some None /\ exists e, (rs_StopErr <$> outs !! 1) = Some (Some e).
Proof.
  destruct (ran_check (plain_svc (fun _ => []) 0) restart_some
    (fun r _ => match r with Ok [o1; o2] => match rs_StopErr o1, rs_StopErr o2 with None, Some _ => true | _, _ => false end
                | _ => false end))
    as ([outs|e] & tr & Hr & _ & Hc); [vm_compute; reflexivity| |done].
  destruct (restart_replicas (fun _ => Err (Opaque "")) (fun _ => Err (Opaque ""))
    (fun raw => if decide (raw = "broken") then Err "no JSON" else Ok []) id
    {| DataDir := "/data"; RuntimeDir := "/run"; ConfigPath := ""; DefaultWorkingDir := "/"; DefaultEnvironment := [] |}
    Some true true id (fun l => reflexivity l) (mkSpec witness_cmds) some_entries ∅ hooksFromStored None tr outs)
    as (layers & runs & t1 & t2 & _ & _ & Hout & _); [|apply (bool_decide_unpack _); vm_compute; exact I|exact Hr|].
  - exact witness_cmds_NoDup.
  - exists tr, outs, runs. split; [exact Hr|]. split; [exact Hout|]. clear - Hc. destruct outs as [|o1 [|o2 [|? ?]]]; try done; simpl;
      destruct (rs_StopErr o1), (rs_StopErr o2); try done. split; [done|by eexists].
Defined.
