(* ===== verification/Listing.v ===== *)
(** * Listing projects and replicas, and waiting for them

    [cmdman/compose/service_list.go] and [service_wait.go].  The listings of the service
    are arguments: a function from labels to entries. *)

From S2P Require Import Reconcile Walk Service Prelude GoStr LogDriver Model Prog ComposeSpec Naming Lifecycle Graph Targets Plan HookData HookOutput ComposeSvc HookRunner HookSteps Down Create Verbs.

(** What [Service.List] answers to a set of labels. *)
Notation lister := (gmap string string -> result err (list CommandEntry)).

(** ** Projects *)

(* src/cmdman/compose/service_list.go:13-31 ProjectSummary *)
Record ProjectSummary := {
  ps_Project : string;
  ps_WorkDir : string;
  ps_ComposeFile : string;
  ps_Commands : nat;
  ps_Running : nat;
  ps_Exited : nat;
  ps_Failed : nat;
  ps_Intermediates : nat;
}.

Definition fresh_summary (project workDir : string) : ProjectSummary := {|
  ps_Project := project; ps_WorkDir := workDir; ps_ComposeFile := ""; ps_Commands := 0; ps_Running := 0;
  ps_Exited := 0; ps_Failed := 0; ps_Intermediates := 0 |}.

(** The summaries by key, and the keys as they came up. *)
Notation summaries := (gmap string ProjectSummary * list string)%type.

Definition NUL : string := String (Ascii.ascii_of_nat 0) "".
Definition summary_key (project workDir : string) : string := workDir +:+ NUL +:+ project.

(** [summaryOf] and what is then done to the summary it returns. *)
(* src/cmdman/compose/service_list.go:84-93 Service.ListProjects *)
Definition summaryOf (project workDir : string) (f : ProjectSummary -> ProjectSummary) (st : summaries) : summaries :=
  let key := summary_key project workDir in
  match st.1 !! key with
  | None => (<[key := f (fresh_summary project workDir)]> st.1, st.2 ++ [key])
  | Some s => (<[key := f s]> st.1, st.2)
  end.

(* src/cmdman/compose/service_list.go:106-117 Service.ListProjects *)
Definition add_replica (file : string) (state : EventType) (s : ProjectSummary) : ProjectSummary := {|
  ps_Project := ps_Project s; ps_WorkDir := ps_WorkDir s;
  ps_ComposeFile := if decide (ps_ComposeFile s = "") then file else ps_ComposeFile s;
  ps_Commands := S (ps_Commands s);
  ps_Running := if decide (state = EventTypeRunning) then S (ps_Running s) else ps_Running s;
  ps_Exited := if decide (state = EventTypeExited) then S (ps_Exited s) else ps_Exited s;
  ps_Failed := if decide (state = EventTypeFailed) then S (ps_Failed s) else ps_Failed s;
  ps_Intermediates := ps_Intermediates s |}.

Definition add_intermediate (s : ProjectSummary) : ProjectSummary := {|
  ps_Project := ps_Project s; ps_WorkDir := ps_WorkDir s; ps_ComposeFile := ps_ComposeFile s;
  ps_Commands := ps_Commands s; ps_Running := ps_Running s; ps_Exited := ps_Exited s; ps_Failed := ps_Failed s;
  ps_Intermediates := S (ps_Intermediates s) |}.

(** The project of an entry by two of its labels, when both are set. *)
Definition project_by (projectLabel workdirLabel : string) (e : CommandEntry) : option (string * string) :=
  match ConfigJSON e with
  | None => None
  | Some c =>
    let project := label (Labels c) projectLabel in
    let workDir := label (Labels c) workdirLabel in
    if bool_decide (project = "") || bool_decide (workDir = "") then None else Some (project, workDir)
  end.

Definition file_of (e : CommandEntry) : string :=
  match ConfigJSON e with Some c => label (Labels c) LabelFile | None => "" end.

(* src/cmdman/compose/service_list.go:95-118 Service.ListProjects *)
Definition summarize_replica (st : summaries) (e : CommandEntry) : summaries :=
  match project_by LabelProject LabelWorkdir e with
  | None => st
  | Some (project, workDir) => summaryOf project workDir (add_replica (file_of e) (entry_State e)) st
  end.

(* src/cmdman/compose/service_list.go:130-141 Service.ListProjects *)
Definition summarize_intermediate (st : summaries) (e : CommandEntry) : summaries :=
  match project_by LabelHooksProject LabelHooksWorkdir e with
  | None => st
  | Some (project, workDir) => summaryOf project workDir add_intermediate st
  end.

(** By project, then by directory. *)
(* src/cmdman/compose/service_list.go:144-159 Service.ListProjects *)
Definition summary_le (a b : ProjectSummary) : Prop :=
  if decide (ps_Project a = ps_Project b) then string_le (ps_WorkDir a) (ps_WorkDir b)
  else string_le (ps_Project a) (ps_Project b).

#[export] Instance summary_le_dec : RelDecision summary_le.
Proof. intros a b. unfold summary_le. destruct (decide _); apply _. Defined.

(* src/cmdman/compose/service_list.go:68-166 Service.ListProjects *)
Definition ListProjects (ls : lister) : result err (list ProjectSummary) :=
  try entries := lift_err ListCompose (ls {[LabelVersion := LabelVersionValue]}) in
  let st := foldl summarize_replica (∅, []) entries in
  try execs := lift_err ListComposeHooks (ls {[LabelIntermediate := IntermediateExec]}) in
  let st := foldl summarize_intermediate st execs in
  try holders := lift_err ListComposeHooks (ls {[LabelIntermediate := IntermediateHolder]}) in
  let st := foldl summarize_intermediate st holders in
  Ok (merge_sort summary_le (omap (fun key => st.1 !! key) st.2)).

(** ** Replicas *)

(* src/cmdman/compose/service_list.go:41-66 CommandStatus *)
Record CommandStatus := {
  cst_Command : string;
  cst_ID : string;
  cst_Name : string;
  cst_Intermediate : string;
  cst_Owner : string;
  cst_State : EventType;
  cst_ExitCode : option Z;
  cst_Argv : list string;
  cst_Title : string;
  cst_Status : string;
  cst_Detail : string;
  cst_BellUnread : bool;
}.

(* src/cmdman/cmdman_runtime_state.go:21-35 RuntimeState *)
Record RuntimeState := {
  rt_Title : string;
  rt_Status : string;
  rt_Detail : string;
  rt_BellUnread : bool;
  rt_Cwd : string;
}.

(** A missing key of the map. *)
Definition no_runtime : RuntimeState :=
  {| rt_Title := ""; rt_Status := ""; rt_Detail := ""; rt_BellUnread := false; rt_Cwd := "" |}.

(** The entry has a config. *)
(* src/cmdman/compose/service_list.go:254-267 commandStatus *)
Definition commandStatus (e : CommandEntry) (c : CommandConfig) (command : string) (rs : RuntimeState) : CommandStatus := {|
  cst_Command := command; cst_ID := ID e; cst_Name := entry_Name e; cst_Intermediate := ""; cst_Owner := "";
  cst_State := entry_State e; cst_ExitCode := ExitCode e; cst_Argv := Argv c; cst_Title := rt_Title rs;
  cst_Status := rt_Status rs; cst_Detail := rt_Detail rs; cst_BellUnread := rt_BellUnread rs |}.

(* src/cmdman/compose/service_list.go:269-277 ownedIntermediate *)
Record ownedIntermediate := {
  oi_entry : CommandEntry;
  oi_config : CommandConfig;   (* that of the entry, which has one *)
  oi_kind : string;
  oi_owner : string;
  oi_command : string;
  oi_scaleIndex : Z;
}.

(** One entry of the loop. *)
(* src/cmdman/compose/service_list.go:288-308 ownIntermediates *)
Definition own_intermediate (byName : gmap string CommandEntry) (e : CommandEntry) : option ownedIntermediate :=
  match ConfigJSON e with
  | None => None
  | Some c =>
    let labels := Labels c in
    let kind := label labels LabelIntermediate in
    if decide (kind = "") then None
    else
      let owner := label labels LabelOwner in
      let command := label labels LabelResourceCommand in
      let '(command, scaleIndex) :=
        match byName !! owner with
        | Some r => if decide (command = "") then (commandNameOf r, Targets.scaleIndexOf r)
                    else (command, scaleLabelValue (label labels LabelResourceScaleIndex))
        | None => (command, scaleLabelValue (label labels LabelResourceScaleIndex))
        end in
      Some {| oi_entry := e; oi_config := c; oi_kind := kind; oi_owner := owner; oi_command := command;
              oi_scaleIndex := scaleIndex |}
  end.

(* src/cmdman/compose/service_list.go:279-310 ownIntermediates *)
Definition ownIntermediates (entries replicas : list CommandEntry) : list ownedIntermediate :=
  omap (own_intermediate (foldl (fun m r => <[entry_Name r := r]> m) ∅ replicas)) entries.

(* src/cmdman/compose/service_list.go:312-320 targetSet.coversIntermediate *)
Definition coversIntermediate (ts : targetSet) (i : ownedIntermediate) : bool :=
  if decide (ts = ∅) then true
  else bool_decide (is_Some (ts !! oi_command i)) && covers ts (oi_command i) (oi_scaleIndex i).

(** The commands by name and those without one last; the intermediates of a command
    after its replicas, by name; replicas by ID. *)
(* src/cmdman/compose/service_list.go:230-250 Service.Ps *)
Definition status_le (a b : CommandStatus) : Prop :=
  if decide (cst_Command a = cst_Command b) then
    match bool_decide (cst_Intermediate a = ""), bool_decide (cst_Intermediate b = "") with
    | false, true => False
    | true, false => True
    | false, false => if decide (cst_Name a = cst_Name b) then string_le (cst_ID a) (cst_ID b)
                      else string_le (cst_Name a) (cst_Name b)
    | true, true => string_le (cst_ID a) (cst_ID b)
    end
  else if decide (cst_Command a = "") then False
  else if decide (cst_Command b = "") then True
  else string_le (cst_Command a) (cst_Command b).

#[export] Instance status_le_dec : RelDecision status_le.
Proof. intros a b. unfold status_le. repeat case_decide; repeat case_bool_decide; apply _. Defined.

(** The status of a replica that has a config. *)
(* src/cmdman/compose/service_list.go:217-223 Service.Ps *)
Definition replica_status (runtime : gmap string RuntimeState) (e : CommandEntry) : option CommandStatus :=
  (fun c => commandStatus e c (label (Labels c) LabelCommand) (default no_runtime (runtime !! ID e))) <$> ConfigJSON e.

(* src/cmdman/compose/service_list.go:224-229 Service.Ps *)
Definition intermediate_status (runtime : gmap string RuntimeState) (i : ownedIntermediate) : CommandStatus :=
  let s := commandStatus (oi_entry i) (oi_config i) (oi_command i) (default no_runtime (runtime !! ID (oi_entry i))) in
  {| cst_Command := cst_Command s; cst_ID := cst_ID s; cst_Name := cst_Name s; cst_Intermediate := oi_kind i;
     cst_Owner := oi_owner i; cst_State := cst_State s; cst_ExitCode := cst_ExitCode s; cst_Argv := cst_Argv s;
     cst_Title := cst_Title s; cst_Status := cst_Status s; cst_Detail := cst_Detail s;
     cst_BellUnread := cst_BellUnread s |}.

(** [runtimeStates] asks the monitors of the entries it is given. *)
(* src/cmdman/compose/service_list.go:172-249 Service.Ps *)
Definition Ps (ls : lister) (runtimeStates : list CommandEntry -> gmap string RuntimeState)
    (selection : ProjectSelection) (targets : list Target) : result err (list CommandStatus) :=
  try entries := lift_err ListCommands (ls (projectLabels (sel_WorkDir selection) (sel_Project selection))) in
  try ts := lift_err BadTargets (resolveTargets targets (storedReplicas (sel_Spec selection) entries)) in
  try hookEntries := lift_err ListHookCommands (ls (hooksProjectLabels (sel_WorkDir selection) (sel_Project selection))) in
  let intermediates := filter (fun i => coversIntermediate ts i = true) (ownIntermediates hookEntries entries) in
  let entries := ts_filter ts entries in
  let runtime := runtimeStates (entries ++ (oi_entry <$> intermediates)) in
  Ok (merge_sort status_le (omap (replica_status runtime) entries ++ (intermediate_status runtime <$> intermediates))).

(** ** Wait *)

(* src/cmdman/compose/service_wait.go:13-26 WaitOption *)
Record WaitOption := { wo_Targets : list Target; wo_Condition : EventType; wo_Interval : Duration; wo_Ignore : bool }.

(* src/cmdman/compose/service_wait.go:33-41 WaitOutcome *)
Record WaitOutcome := { wo_Command : string; wo_ExitCode : option Z; wo_Err : option err }.

(* src/cmdman/compose/service_wait.go:103-114 Service.Wait *)
Definition wait_outcome (nameByID : gmap string string) (r : WaitResult) : WaitOutcome :=
  let name := default "" (nameByID !! w_ID r) in
  {| wo_Command := if decide (name = "") then w_ID r else name; wo_ExitCode := w_ExitCode r; wo_Err := w_Err r |}.

(** [wait] is the wait of the service for a condition. *)
(* src/cmdman/compose/service_wait.go:43-117 Service.Wait *)
Definition Wait_project (ls : lister)
    (wait : list string -> EventType -> Duration -> bool -> result err (list WaitResult))
    (selection : ProjectSelection) (opts : WaitOption) : result err (list WaitOutcome) :=
  try entries := lift_err ListCommands (ls (projectLabels (sel_WorkDir selection) (sel_Project selection))) in
  try ts := lift_err BadTargets (resolveTargets (wo_Targets opts) (storedReplicas (sel_Spec selection) entries)) in
  let nameOf := replicaNamer (sel_Spec selection) entries in
  match ts_filter ts entries with
  | [] => Ok []
  | selected =>
    let nameByID := foldl (fun m e => <[ID e := nameOf e]> m) (∅ : gmap string string) selected in
    let condition := if decide (wo_Condition opts = "") then EventTypeStopped else wo_Condition opts in
    try results := lift_err WaitFailed (wait (ID <$> selected) condition (wo_Interval opts) (wo_Ignore opts)) in
    Ok (wait_outcome nameByID <$> results)
  end.

(** * What the listings guarantee

    [ListProjects] has one summary for each project that a replica or an intermediate
    names, with the exact counts, in order.  [Ps] lists what the targets select. *)

(** ** Keys of projects *)

Fixpoint no_NUL (s : string) : Prop :=
  match s with EmptyString => True | String c s => c <> Ascii.ascii_of_nat 0 /\ no_NUL s end.

Lemma summary_key_inj p w p' w' :
  no_NUL w -> no_NUL w' -> summary_key p w = summary_key p' w' -> p = p' /\ w = w'.
Proof.
  unfold summary_key, NUL. revert w'. induction w as [|c w IH]; intros [|c' w'] Hw Hw'; simpl in *.
  - by intros [= ->].
  - intros [= <- _]. tauto.
  - intros [= -> _]. tauto.
  - intros [= -> H]. destruct (IH w') as [-> ->]; tauto.
Qed.

(** ** The summary of a project *)

Notation replica_in p w := (fun e => project_by LabelProject LabelWorkdir e = Some (p, w)).
Notation intermediate_in p w := (fun e => project_by LabelHooksProject LabelHooksWorkdir e = Some (p, w)).

(** The first file that the replicas name. *)
Definition first_file (l : list CommandEntry) : string := default "" (head (filter (fun f => f <> "") (file_of <$> l))).

Definition count_state (st : EventType) (l : list CommandEntry) : nat := length (filter (fun e => entry_State e = st) l).

Definition summary_of (p w : string) (replicas intermediates : list CommandEntry) : ProjectSummary :=
  let rs := filter (replica_in p w) replicas in {|
    ps_Project := p; ps_WorkDir := w; ps_ComposeFile := first_file rs; ps_Commands := length rs;
    ps_Running := count_state EventTypeRunning rs; ps_Exited := count_state EventTypeExited rs;
    ps_Failed := count_state EventTypeFailed rs; ps_Intermediates := length (filter (intermediate_in p w) intermediates) |}.

(** Whether one of the entries names the project. *)
Definition named (p w : string) (replicas intermediates : list CommandEntry) : Prop :=
  (exists e, e ∈ replicas /\ replica_in p w e) \/ exists e, e ∈ intermediates /\ intermediate_in p w e.

Lemma first_file_snoc l e : first_file (l ++ [e]) = if decide (first_file l = "") then file_of e else first_file l.
Proof.
  unfold first_file. rewrite fmap_app, filter_app. simpl. rewrite filter_cons, filter_nil.
  destruct (filter _ (file_of <$> l)) as [|f fs] eqn:Hf; simpl.
  - case_decide; [|by destruct (decide (file_of e = "")) as [->|]]. done.
  - assert (Hne : f <> ""); [|by rewrite decide_False].
    assert (Hin : f ∈ filter (fun f => f <> "") (file_of <$> l)) by (rewrite Hf; left). by apply list_elem_of_filter in Hin as [? _].
Qed.

Lemma count_state_snoc st l e :
  count_state st (l ++ [e]) = if decide (entry_State e = st) then S (count_state st l) else count_state st l.
Proof.
  unfold count_state. rewrite filter_app, length_app, filter_cons, filter_nil. case_decide; simpl; lia.
Qed.

(** An entry of the project adds to its summary, and to no other. *)
Lemma summary_of_replica p w rs hs e :
  summary_of p w (rs ++ [e]) hs = if decide (replica_in p w e) then add_replica (file_of e) (entry_State e) (summary_of p w rs hs)
                                  else summary_of p w rs hs.
Proof.
  unfold summary_of. rewrite filter_app, filter_cons, filter_nil. destruct (decide (replica_in p w e)) as [H|H].
  - unfold add_replica. simpl.
    rewrite first_file_snoc, !count_state_snoc, length_app. simpl. by rewrite Nat.add_comm.
  - by rewrite app_nil_r.
Qed.

Lemma summary_of_intermediate p w rs hs e :
  summary_of p w rs (hs ++ [e]) = if decide (intermediate_in p w e) then add_intermediate (summary_of p w rs hs)
                                  else summary_of p w rs hs.
Proof.
  unfold summary_of, add_intermediate. rewrite filter_app, length_app, filter_cons, filter_nil.
  case_decide; simpl; f_equal; lia.
Qed.

Lemma summary_of_none p w rs hs : ~ named p w rs hs -> summary_of p w rs hs = fresh_summary p w.
Proof.
  intros Hn. unfold summary_of. rewrite !list_filter_none; [done|..].
  - intros e He H. apply Hn. right. by exists e.
  - intros e He H. apply Hn. left. by exists e.
Qed.

(** ** The state of the loops *)

(** The map has the summary of each project that was named, and the keys list it. *)
Record summarized (rs hs : list CommandEntry) (st : summaries) : Prop := {
  sz_lookup : forall p w, no_NUL w -> (st.1 !! summary_key p w = Some (summary_of p w rs hs) /\ named p w rs hs) \/
                                      (st.1 !! summary_key p w = None /\ ~ named p w rs hs);
  sz_key : forall k, is_Some (st.1 !! k) -> exists p w, no_NUL w /\ k = summary_key p w;
  sz_nodup : NoDup st.2;
  sz_keys : forall k, k ∈ st.2 <-> is_Some (st.1 !! k);
}.

Lemma summarized_nil : summarized [] [] (∅, []).
Proof.
  split; simpl.
  - intros p w _. right. split; [apply lookup_empty|]. by intros [(? & []%elem_of_nil & _)|(? & []%elem_of_nil & _)].
  - intros k. rewrite lookup_empty. by intros [].
  - constructor.
  - intros k. rewrite lookup_empty. split; [by intros []%elem_of_nil|by intros []].
Qed.

(** What one entry of a project does to the state. *)
Lemma summarized_step rs hs rs' hs' st p w f :
  summarized rs hs st -> no_NUL w ->
  (forall q v, no_NUL v -> named q v rs' hs' <-> named q v rs hs \/ (q, v) = (p, w)) ->
  summary_of p w rs' hs' = f (summary_of p w rs hs) ->
  (forall q v, (q, v) <> (p, w) -> summary_of q v rs' hs' = summary_of q v rs hs) ->
  summarized rs' hs' (summaryOf p w f st).
Proof.
  intros [Hl Hk Hnd Hks] Hw Hn Hf Ho.
  assert (Hlook : forall k, (summaryOf p w f st).1 !! k =
    if decide (k = summary_key p w) then Some (summary_of p w rs' hs') else st.1 !! k).
  { intros k. unfold summaryOf. destruct (Hl p w Hw) as [[Hs _]|[Hs Hno]]; rewrite Hs; simpl.
    - case_decide as He; [subst k; by rewrite lookup_insert_eq, Hf|by rewrite lookup_insert_ne].
    - case_decide as He; [subst k|by rewrite lookup_insert_ne].
      by rewrite lookup_insert_eq, Hf, (summary_of_none p w rs hs Hno). }
  split.
  - intros q v Hv. rewrite Hlook, Hn by done. case_decide as He.
    + apply summary_key_inj in He as [-> ->]; [|done..]. left. split; [done|by right].
    + assert (Hne : (q, v) <> (p, w)) by congruence. rewrite (Ho q v Hne). destruct (Hl q v Hv); [left|right]; tauto.
  - intros k. rewrite Hlook. case_decide; [by exists p, w|apply Hk].
  - unfold summaryOf. destruct (Hl p w Hw) as [[Hs _]|[Hs _]]; rewrite Hs; simpl; [done|].
    apply NoDup_app. split_and!; [done| |apply NoDup_singleton]. intros k Hkin ->%list_elem_of_singleton.
    apply Hks in Hkin. rewrite Hs in Hkin. by destruct Hkin.
  - intros k. rewrite Hlook. unfold summaryOf. destruct (Hl p w Hw) as [[Hs _]|[Hs _]]; rewrite Hs; simpl.
    + rewrite Hks. case_decide as He; [|done]. subst k. rewrite Hs. split; by eexists.
    + rewrite elem_of_app, list_elem_of_singleton, Hks. case_decide as He; [subst k|tauto]. split; [by eexists|by right].
Qed.

Lemma summarized_replicas hs l rs st :
  Forall (fun e => forall p w, replica_in p w e -> no_NUL w) l ->
  summarized rs hs st -> summarized (rs ++ l) hs (foldl summarize_replica st l).
Proof.
  revert rs st. induction l as [|e l IH]; intros rs st Hl Hst; simpl; [by rewrite app_nil_r|].
  apply Forall_cons in Hl as [He Hl]. rewrite cons_middle, app_assoc. apply IH; [done|].
  unfold summarize_replica. destruct (project_by _ _ e) as [[p w]|] eqn:Hp.
  - eapply (summarized_step rs hs); [done|by eapply He|..].
    + intros q v _. unfold named. setoid_rewrite elem_of_app. setoid_rewrite list_elem_of_singleton.
      split; [intros [(x & [?| ->] & ?)|?]; eauto; right; congruence|].
      intros [[(x & ? & ?)|?]|[= -> ->]]; [left; exists x; auto|by right|left; exists e; auto].
    + by rewrite summary_of_replica, decide_True.
    + intros q v Hne. rewrite summary_of_replica, decide_False by congruence. done.
  - destruct Hst as [Hlk ? ? ?]. split; try done. intros q v Hv. rewrite summary_of_replica, decide_False by congruence.
    unfold named in *. setoid_rewrite elem_of_app. setoid_rewrite list_elem_of_singleton.
    destruct (Hlk q v Hv) as [[? [(x & ? & ?)|?]]|[? Hno]]; [left; split; [done|]; left; exists x; auto|left; auto|right].
    split; [done|]. intros [(x & [?| ->] & ?)|?]; [apply Hno; left; eauto|congruence|apply Hno; by right].
Qed.

Lemma summarized_intermediates rs l hs st :
  Forall (fun e => forall p w, intermediate_in p w e -> no_NUL w) l ->
  summarized rs hs st -> summarized rs (hs ++ l) (foldl summarize_intermediate st l).
Proof.
  revert hs st. induction l as [|e l IH]; intros hs st Hl Hst; simpl; [by rewrite app_nil_r|].
  apply Forall_cons in Hl as [He Hl]. rewrite cons_middle, app_assoc. apply IH; [done|].
  unfold summarize_intermediate. destruct (project_by _ _ e) as [[p w]|] eqn:Hp.
  - eapply (summarized_step rs hs); [done|by eapply He|..].
    + intros q v _. unfold named. setoid_rewrite elem_of_app. setoid_rewrite list_elem_of_singleton.
      split; [intros [?|(x & [?| ->] & ?)]; eauto; right; congruence|].
      intros [[?|(x & ? & ?)]|[= -> ->]]; [by left|right; exists x; auto|right; exists e; auto].
    + by rewrite summary_of_intermediate, decide_True.
    + intros q v Hne. rewrite summary_of_intermediate, decide_False by congruence. done.
  - destruct Hst as [Hlk ? ? ?]. split; try done. intros q v Hv. rewrite summary_of_intermediate, decide_False by congruence.
    unfold named in *. setoid_rewrite elem_of_app. setoid_rewrite list_elem_of_singleton.
    destruct (Hlk q v Hv) as [[? [?|(x & ? & ?)]]|[? Hno]]; [left; auto|left; split; [done|]; right; exists x; auto|right].
    split; [done|]. intros [?|(x & [?| ->] & ?)]; [apply Hno; by left|apply Hno; right; eauto|congruence].
Qed.

(** ** The order *)

#[export] Instance summary_le_trans : Transitive summary_le.
Proof.
  intros a b c. unfold summary_le.
  destruct (decide (ps_Project a = ps_Project b)) as [E1|E1], (decide (ps_Project b = ps_Project c)) as [E2|E2];
    [rewrite decide_True by congruence|rewrite decide_False by congruence..|].
  - by etrans.
  - by rewrite E1.
  - by rewrite <- E2.
  - intros H1 H2. destruct (decide _) as [E3|E3]; [|by etrans]. exfalso. apply E1, (anti_symm string_le); congruence.
Qed.
#[export] Instance summary_le_total : Total summary_le.
Proof.
  intros a b. unfold summary_le. destruct (decide (ps_Project a = ps_Project b)) as [He|Hne].
  - rewrite decide_True by done. apply total. apply _.
  - rewrite decide_False by done. apply total. apply _.
Qed.

(** By project and directory, strictly: no two are of one project. *)
Definition summary_lt (a b : ProjectSummary) : Prop := summary_le a b /\ (ps_Project a, ps_WorkDir a) <> (ps_Project b, ps_WorkDir b).

Lemma strictly_sorted l :
  NoDup ((fun s => (ps_Project s, ps_WorkDir s)) <$> l) -> StronglySorted summary_le l -> StronglySorted summary_lt l.
Proof.
  induction l as [|s l IH]; intros Hnd Hs; [constructor|]. rewrite fmap_cons in Hnd. apply NoDup_cons in Hnd as [Hn Hnd].
  inversion Hs as [|? ? Hs' Hall]; subst. constructor; [by apply IH|]. rewrite Forall_forall in Hall |- *.
  intros t Ht. split; [by apply Hall|]. intros He. apply Hn. rewrite He. by apply (list_elem_of_fmap_2 (fun s => (ps_Project s, ps_WorkDir s))).
Qed.

(** Different keys are of different projects. *)
Lemma distinct_projects (m : gmap string ProjectSummary) ks :
  (forall k s, m !! k = Some s -> k = summary_key (ps_Project s) (ps_WorkDir s)) -> NoDup ks ->
  NoDup ((fun s => (ps_Project s, ps_WorkDir s)) <$> omap (fun k => m !! k) ks).
Proof.
  intros Hm. induction ks as [|k ks IH]; intros Hnd; [constructor|]. apply NoDup_cons in Hnd as [Hn Hnd]. simpl.
  destruct (m !! k) as [s|] eqn:Hs; [|by apply IH]. rewrite fmap_cons. apply NoDup_cons. split; [|by apply IH].
  intros (t & He & (k' & Hk' & Ht)%list_elem_of_omap)%list_elem_of_fmap. apply Hn.
  rewrite (Hm _ _ Hs). injection He as -> ->. by rewrite <- (Hm _ _ Ht).
Qed.

(** ** The theorem *)

(** When the listings succeed, [ListProjects] lists each project that a replica or an
    intermediate names exactly once, in order of name and directory, with the number of
    its replicas, of those running, exited and failed, and of its intermediates; provided
    that no directory name holds a NUL. *)
Theorem ListProjects_exact (ls : lister) replicas execs holders :
  ls {[LabelVersion := LabelVersionValue]} = Ok replicas ->
  ls {[LabelIntermediate := IntermediateExec]} = Ok execs ->
  ls {[LabelIntermediate := IntermediateHolder]} = Ok holders ->
  Forall (fun e => forall p w, replica_in p w e -> no_NUL w) replicas ->
  Forall (fun e => forall p w, intermediate_in p w e -> no_NUL w) (execs ++ holders) ->
  exists ss, ListProjects ls = Ok ss /\ StronglySorted summary_lt ss /\
    forall s, s ∈ ss <-> exists p w, named p w replicas (execs ++ holders) /\ s = summary_of p w replicas (execs ++ holders).
Proof.
  intros Hr He Hh Hn1 Hn2. unfold ListProjects. rewrite Hr, He, Hh. simpl. rewrite <- foldl_app.
  set (st := foldl summarize_intermediate _ _). set (hs := execs ++ holders) in *.
  assert (Hst : summarized replicas hs st).
  { apply (summarized_intermediates replicas hs []); [done|]. apply (summarized_replicas [] replicas []); [done|]. apply summarized_nil. }
  clearbody st. destruct Hst as [Hl Hk Hnd Hks].
  assert (Hin : forall s, s ∈ omap (fun key => st.1 !! key) st.2 <-> exists p w, named p w replicas hs /\ s = summary_of p w replicas hs).
  { intros s. rewrite list_elem_of_omap. split.
    - intros (k & _ & Hs). destruct (Hk k ltac:(by eexists)) as (p & w & Hw & ->). exists p, w.
      destruct (Hl p w Hw) as [[Hs' ?]|[Hs' _]]; [|congruence]. split; congruence.
    - intros (p & w & Hnm & ->). assert (Hw : no_NUL w).
      { rewrite !Forall_forall in *. destruct Hnm as [(e & Hein & Hep)|(e & Hein & Hep)]; eauto. }
      destruct (Hl p w Hw) as [[Hs' _]|[_ ?]]; [|done]. exists (summary_key p w). split; [|done]. apply Hks. by eexists. }
  exists (merge_sort summary_le (omap (fun key => st.1 !! key) st.2)). split; [done|]. split.
  - apply strictly_sorted; [|apply StronglySorted_merge_sort; apply _]. rewrite merge_sort_Permutation.
    apply distinct_projects; [|done]. intros k s Hs. destruct (Hk k ltac:(by eexists)) as (p & w & Hw & ->).
    destruct (Hl p w Hw) as [[Hs' ?]|[Hs' _]]; [|congruence]. rewrite Hs in Hs'. by injection Hs' as ->.
  - intros s. by rewrite merge_sort_Permutation.
Qed.

(** ** Witness *)

Definition of_project (p w f : string) (st : EventType) : CommandEntry := {|
  ID := p; entry_Name := p; CreatedAt := ""; entry_State := st; ExitCode := None;
  ConfigJSON := Some (labelled {[LabelProject := p; LabelWorkdir := w; LabelFile := f]}); StateJSON := None |}.
Definition hook_of (p w : string) : CommandEntry := {|
  ID := p; entry_Name := p; CreatedAt := ""; entry_State := EventTypeExited; ExitCode := None;
  ConfigJSON := Some (labelled {[LabelHooksProject := p; LabelHooksWorkdir := w]}); StateJSON := None |}.

Definition some_replicas : list CommandEntry :=
  [of_project "web" "/w" "" EventTypeRunning; of_project "api" "/w" "f" EventTypeExited; of_project "web" "/w" "g" EventTypeFailed].

Definition some_list (labels : gmap string string) : result err (list CommandEntry) :=
  match labels !! LabelVersion, labels !! LabelIntermediate with
  | Some _, _ => Ok some_replicas
  | _, Some kind => Ok (if decide (kind = IntermediateExec) then [hook_of "old" "/v"] else [])
  | _, _ => Ok []
  end.

Lemma ListProjects_exact_witness :
  exists ss, ListProjects some_list = Ok ss /\ ps_Project <$> ss = ["api"; "old"; "web"] /\ StronglySorted summary_lt ss.
Proof.
  destruct (ListProjects_exact some_list some_replicas [hook_of "old" "/v"] []) as (ss & Hss & Hs & _); [reflexivity..| | |].
  - repeat constructor; intros p w [= <- <-]; vm_compute; repeat split; discriminate.
  - repeat constructor; intros p w [= <- <-]; vm_compute; repeat split; discriminate.
  - exists ss. split_and!; [done| |done]. revert Hss. vm_compute. by intros [= <-].
Defined.
