(* ===== verification/Select.v ===== *)
(** * Finding the project

    [cmdman/compose/discover.go] and [selection.go]: which compose file an operation
    reads, and which project it is about.  The file system, the process environment and
    the YAML decoder are arguments; [Normalize] is that of [Normalize.v] with its
    arguments given. *)

From S2P Require Import Config Paths Reconcile Walk Service Prelude GoStr LogDriver Model Prog ComposeSpec Naming Lifecycle Graph Normalize Targets Plan HookData HookOutput ComposeSvc HookRunner HookSteps Down.

(** [strings.ContainsAny]. *)
Fixpoint containsAny (s : string) (chars : list ascii) : bool :=
  match s with
  | EmptyString => false
  | String c s => bool_decide (c ∈ chars) || containsAny s chars
  end.

(** [filepath.Base]. *)
Fixpoint trim_slashes (r : string) : string :=
  match r with String "/" r' => trim_slashes r' | _ => r end.
Fixpoint up_to_slash (r : string) : string :=
  match r with
  | EmptyString => EmptyString
  | String c r' => if decide (c = "/"%char) then EmptyString else String c (up_to_slash r')
  end.
Definition Base (p : string) : string :=
  if decide (p = "") then "."
  else match trim_slashes (string_rev p) with
       | EmptyString => "/"
       | r => string_rev (up_to_slash r)
       end.

(** What [os.Stat] finds. *)
Inductive stat := RegularFile | Directory | OtherFile | Missing | StatError (err : string).

Inductive selectErr :=
| SelectCwd (err : string)
| SelectDecode (path err : string)
| SelectConfigDir (err : string)
| SelectNoComposeIn (name dir : string)
| SelectStat (path err : string)
| SelectNoFile (tried : list string)
| SelectReadDir (dir err : string)
| SelectNormalize (e : normErr)
| SelectNoMux
| SelectNoFileFor (name : string)
| SelectNoMuxIn (name : string)
| SelectNoCandidate
| SelectManyCandidates (labels : list string).

(* src/cmdman/compose/discover.go:16-17 defaultFileNames *)
Definition defaultFileNames : list string := ["cmd-compose.yaml"; "cmd-compose.yml"].
(* src/cmdman/compose/discover.go:19-21 namedComposeFile *)
Definition namedComposeFile : string := "compose.yaml".

(* src/cmdman/compose/normalize.go:25-27 ENV_CMDMAN_COMPOSE_SCALE_INDEX *)
Definition ENV_CMDMAN_COMPOSE_SCALE_INDEX : string := "CMDMAN_COMPOSE_SCALE_INDEX".
(* src/cmdman/compose/normalize.go:49-51 ENV_CMDMAN_COMPOSE_COMMAND *)
Definition ENV_CMDMAN_COMPOSE_COMMAND : string := "CMDMAN_COMPOSE_COMMAND".

Section Select.
Context (Stat : string -> stat)
        (decodeFile : string -> result string RawComposeSpec)
        (ReadDir : string -> result (option string) (list (string * bool)))
          (* the entries with whether each is a directory; [Err None] when there is no such directory *)
        (ComposeConfigDir : string)  (* as [Config.ComposeConfigDir] gives it *)
        (Getwd : result string string)
        (normalize : string -> RawComposeSpec -> NormalizeOpts -> result normErr ComposeSpec)
        (LookupEnv : string -> option string).

(** ** Discovery *)

Definition is_regular (path : string) : bool := match Stat path with RegularFile => true | _ => false end.

Definition decode (path : string) : result selectErr (string * RawComposeSpec) :=
  match decodeFile path with Ok raw => Ok (path, raw) | Err e => Err (SelectDecode path e) end.

(* src/cmdman/compose/discover.go:92-141 resolveNamedComposeFile *)
Definition resolveNamedComposeFile (name : string) : result selectErr (option string) :=
  if bool_decide (name = "") || bool_decide (name = ".") || bool_decide (name = "..") || containsAny name ["/"; "\"]%char then Ok None
  else
    let dir := ComposeConfigDir in
    if decide (dir = "") then Ok None
    else
      let candidates := (if hasSuffix ".yaml" name || hasSuffix ".yml" name then [Join dir name] else []) ++
                        [Join dir (name +:+ ".yaml"); Join dir (name +:+ ".yml")] in
      match filter (fun c => is_regular c = true) candidates with
      | cand :: _ => Ok (Some cand)
      | [] =>
        let dirCand := Join dir name in
        match Stat dirCand with
        | Directory =>
          let cand := Join dirCand namedComposeFile in
          if is_regular cand then Ok (Some cand) else Err (SelectNoComposeIn name dirCand)
        | _ => Ok None
        end
      end.

(** The loop over the default names. *)
(* src/cmdman/compose/discover.go:68-89 DiscoverFile *)
Fixpoint try_defaults (cwd : string) (tried names : list string) : result selectErr (string * RawComposeSpec) :=
  match names with
  | [] => Err (SelectNoFile tried)
  | name :: names =>
    let candidate := Join cwd name in
    let tried := tried ++ [candidate] in
    match Stat candidate with
    | Missing => try_defaults cwd tried names
    | StatError e => Err (SelectStat candidate e)
    | RegularFile => decode candidate
    | _ => try_defaults cwd tried names
    end
  end.

(* src/cmdman/compose/discover.go:33-90 DiscoverFile *)
Definition DiscoverFile (cwd : string) (opts : NormalizeOpts) : result selectErr (string * RawComposeSpec) :=
  let file := no_File opts in
  if decide (file = "") then try_defaults cwd [] defaultFileNames
  else
    let path := Clean (if isAbs file then file else Join cwd file) in
    if is_regular path then decode path
    else
      try named := resolveNamedComposeFile file in
      match named with
      | Some named => decode named
      | None => decode path
      end.

(** The name of the project of one directory entry. *)
(* src/cmdman/compose/discover.go:171-186 ListNamedProjects *)
Definition project_name (dir : string) (e : string * bool) : option string :=
  let '(name, isDir) := e in
  if isDir : bool then
    if is_regular (joinAll [dir; name; namedComposeFile]) then Some name else None
  else if hasSuffix ".yaml" name then Some (trimSuffix ".yaml" name)
  else if hasSuffix ".yml" name then Some (trimSuffix ".yml" name)
  else None.

(* src/cmdman/compose/discover.go:143-188 ListNamedProjects *)
Definition ListNamedProjects : result selectErr (list string) :=
  let dir := ComposeConfigDir in
  if decide (dir = "") then Ok []
  else match ReadDir dir with
       | Err None => Ok []
       | Err (Some e) => Err (SelectReadDir dir e)
       | Ok entries => Ok (sort_strings (foldl (fun names n => if decide (n ∈ names) then names else names ++ [n]) []
                                           (omap (project_name dir) entries)))
       end.

(** ** Selections *)

(* src/cmdman/compose/normalize.go:73-86 LoadAndNormalize *)
Definition LoadAndNormalize (opts : NormalizeOpts) : result selectErr ComposeSpec :=
  try cwd := lift_err SelectCwd Getwd in
  try found := DiscoverFile cwd opts in let '(path, raw) := found in
  lift_err SelectNormalize (normalize path raw opts).

(** The projects that load and declare a mux section; the others are skipped. *)
(* src/cmdman/compose/discover.go:197-218 ListMuxProjects *)
Definition ListMuxProjects : result selectErr (list (string * ComposeSpec)) :=
  try names := ListNamedProjects in
  Ok (omap (fun name => match LoadAndNormalize {| no_File := name; no_ProjectName := ""; no_WorkDir := "" |} with
                        | Ok spec => match spec_Mux spec with Some _ => Some (name, spec) | None => None end
                        | Err _ => None
                        end) names).

(* src/cmdman/compose/selection.go:57-67 SelectionFromSpec *)
Definition SelectionFromSpec (spec : ComposeSpec) : ProjectSelection :=
  {| sel_Spec := Some spec; sel_WorkDir := WorkDir spec; sel_Project := Project spec |}.

(* src/cmdman/compose/selection.go:264-276 specSelection *)
Definition specSelection (path : string) (raw : RawComposeSpec) (opts : NormalizeOpts) : result selectErr ProjectSelection :=
  try spec := lift_err SelectNormalize (normalize path raw opts) in Ok (SelectionFromSpec spec).

(* src/cmdman/compose/selection.go:278-296 workdirSelection *)
Definition workdirSelection (cwd : string) (opts : NormalizeOpts) : ProjectSelection :=
  let workDir := if decide (no_WorkDir opts = "") then cwd else no_WorkDir opts in
  let workDir := if isAbs workDir then workDir else Join cwd workDir in
  {| sel_Spec := None; sel_WorkDir := Clean workDir; sel_Project := no_ProjectName opts |}.

(* src/cmdman/compose/selection.go:146-175 LoadOrProject *)
Definition LoadOrProject (opts : NormalizeOpts) : result selectErr ProjectSelection :=
  try cwd := lift_err SelectCwd Getwd in
  match DiscoverFile cwd opts with
  | Ok (path, raw) => specSelection path raw opts
  | Err e => if decide (no_File opts = "") then Ok (workdirSelection cwd opts) else Err e
  end.

(* src/cmdman/compose/selection.go:233-262 LoadOrWorkdir *)
Definition LoadOrWorkdir (opts : NormalizeOpts) : result selectErr ProjectSelection :=
  try cwd := lift_err SelectCwd Getwd in
  if decide (no_File opts = "") then Ok (workdirSelection cwd opts)
  else try found := DiscoverFile cwd opts in let '(path, raw) := found in specSelection path raw opts.

(** The value of a variable, "" when it is not set. *)
Definition env_value (name : string) : string := default "" (LookupEnv name).

(* src/cmdman/compose/selection.go:177-202 ResolveContextSelection *)
Definition ResolveContextSelection (opts : NormalizeOpts) : result selectErr ProjectSelection :=
  if negb (bool_decide (no_File opts = "")) || negb (bool_decide (no_ProjectName opts = ""))
     || negb (bool_decide (no_WorkDir opts = "")) then LoadOrProject opts
  else
    let workDir := env_value ENV_CMDMAN_COMPOSE_WORK_DIR in
    let project := env_value ENV_CMDMAN_COMPOSE_PROJECT in
    if negb (bool_decide (workDir = "")) && negb (bool_decide (project = ""))
    then Ok {| sel_Spec := None; sel_WorkDir := Clean workDir; sel_Project := project |}
    else LoadOrProject opts.

(* src/cmdman/compose/selection.go:204-231 ContextScaleIndex *)
Definition ContextScaleIndex (selection : ProjectSelection) (command : string) : Z :=
  let envCommand := env_value ENV_CMDMAN_COMPOSE_COMMAND in
  let envProject := env_value ENV_CMDMAN_COMPOSE_PROJECT in
  let envWorkDir := env_value ENV_CMDMAN_COMPOSE_WORK_DIR in
  if bool_decide (envCommand = "") || negb (bool_decide (envCommand = command))
     || negb (bool_decide (envProject = sel_Project selection)) || bool_decide (envWorkDir = "")
     || negb (bool_decide (Clean envWorkDir = Clean (sel_WorkDir selection))) then 0
  else match Atoi (env_value ENV_CMDMAN_COMPOSE_SCALE_INDEX) with
       | Some index => if decide (index < 1)%Z then 0 else index
       | None => 0
       end%Z.

(** ** Mux projects *)

Definition has_mux (selection : ProjectSelection) : bool :=
  match sel_Spec selection with Some spec => bool_decide (is_Some (spec_Mux spec)) | None => false end.

(** The candidates: their labels with their selections. *)
(* src/cmdman/compose/selection.go:316-352 SelectMuxProject *)
Definition mux_candidates (cwd : string) (opts : NormalizeOpts) : result selectErr (list (string * ProjectSelection)) :=
  try cwdSel := LoadOrProject opts in
  let own := match sel_Spec cwdSel with
             | Some spec => if has_mux cwdSel then [(Base (ComposeFile spec), cwdSel)] else []
             | None => []
             end in
  try projects := ListMuxProjects in
  Ok (own ++ omap (fun p : string * ComposeSpec =>
                     if decide (Clean (WorkDir p.2) = cwd) then Some (p.1, SelectionFromSpec p.2) else None) projects).

(* src/cmdman/compose/selection.go:305-370 SelectMuxProject *)
Definition SelectMuxProject (opts : NormalizeOpts) : result selectErr ProjectSelection :=
  try cwd := lift_err SelectCwd Getwd in
  try candidates := mux_candidates (Clean cwd) opts in
  match candidates with
  | [] => Err SelectNoCandidate
  | [(_, sel)] => Ok sel
  | _ => Err (SelectManyCandidates candidates.*1)
  end.

(* src/cmdman/compose/selection.go:69-89 ResolveMuxSelection *)
Definition ResolveMuxSelection (opts : NormalizeOpts) : result selectErr ProjectSelection :=
  if decide (no_File opts = "") then SelectMuxProject opts
  else
    try selection := LoadOrProject opts in
    if has_mux selection then Ok selection else Err SelectNoMux.

(* src/cmdman/compose/selection.go:93-128 ResolveMuxSelectionByName *)
Definition ResolveMuxSelectionByName (projectName composeFile workDir : string) : result selectErr ProjectSelection :=
  let opts := if decide (composeFile = "")
              then {| no_File := projectName; no_ProjectName := ""; no_WorkDir := workDir |}
              else {| no_File := composeFile; no_ProjectName := projectName; no_WorkDir := workDir |} in
  try selection := LoadOrProject opts in
  match sel_Spec selection with
  | None => Err (SelectNoFileFor projectName)
  | Some _ => if has_mux selection then Ok selection else Err (SelectNoMuxIn projectName)
  end.
End Select.

(** * What selection guarantees

    Every project that [ListNamedProjects] lists by a proper name is found again under
    that name; what a compose file that does not decode does to the selection; and which
    directory entries are listed under a name that is not one. *)

Lemma hasSuffix_split suf s : hasSuffix suf s = true -> s = trimSuffix suf s +:+ suf.
Proof.
  induction s as [|c s IH]; simpl.
  - destruct (decide ("" = suf)) as [H|H]; [by intros _|done].
  - destruct (decide (String c s = suf)) as [H|H]; [by intros _|]. intros Hs. simpl. f_equal. by apply IH.
Qed.

Lemma dedup_elem (l acc : list string) n :
  n ∈ foldl (fun names n => if decide (n ∈ names) then names else names ++ [n]) acc l <-> n ∈ acc \/ n ∈ l.
Proof.
  revert acc. induction l as [|x l IH]; intros acc; simpl; [set_solver|]. rewrite IH. case_decide; set_solver.
Qed.

Lemma first_regular (Stat : string -> stat) cands c : c ∈ cands -> is_regular Stat c = true ->
  exists d, head (filter (fun c => is_regular Stat c = true) cands) = Some d /\ is_regular Stat d = true.
Proof.
  intros Hc Hr. destruct (filter _ cands) as [|d l] eqn:Hf.
  - assert (Hin : c ∈ filter (fun c => is_regular Stat c = true) cands) by (by apply list_elem_of_filter).
    rewrite Hf in Hin. by apply elem_of_nil in Hin.
  - exists d. split; [done|]. assert (Hin : d ∈ filter (fun c => is_regular Stat c = true) cands) by (rewrite Hf; left).
    by apply list_elem_of_filter in Hin as [? _].
Qed.

Section Props.
Context (Stat : string -> stat)
        (decodeFile : string -> result string RawComposeSpec)
        (ReadDir : string -> result (option string) (list (string * bool)))
        (dir : string)
        (Getwd : result string string)
        (normalize : string -> RawComposeSpec -> NormalizeOpts -> result normErr ComposeSpec).

Notation resolve := (resolveNamedComposeFile Stat dir).

(** A directory whose entries are files and directories as [Stat] sees them. *)
Record dir_ok (entries : list (string * bool)) : Prop := {
  do_file : forall n, (n, false) ∈ entries -> Stat (Join dir n) = RegularFile;
  do_dir : forall n, (n, true) ∈ entries -> Stat (Join dir n) = Directory;
}.

(** A name that can name a project. *)
Definition proper_name (n : string) : Prop := n <> "" /\ n <> "." /\ n <> ".." /\ containsAny n ["/"; "\"]%char = false.

(** Every project that the listing of the compose directory names, by a name that is
    one, resolves to a regular file by that name. *)
Theorem listed_names_resolve entries names n :
  dir <> "" -> ReadDir dir = Ok entries -> dir_ok entries ->
  ListNamedProjects Stat ReadDir dir = Ok names -> n ∈ names -> proper_name n ->
  exists p, resolve n = Ok (Some p) /\ Stat p = RegularFile.
Proof using Type.
  clear decodeFile normalize Getwd.
  intros Hdir Hread [Hfile Hdirs] Hlist Hn (Hn1 & Hn2 & Hn3 & Hn4). unfold ListNamedProjects in Hlist.
  rewrite decide_False, Hread in Hlist by done. injection Hlist as <-.
  rewrite elem_of_sort_strings, dedup_elem in Hn. destruct Hn as [[]%elem_of_nil|Hn].
  apply list_elem_of_omap in Hn as ([m isDir] & Hin & Hp). unfold resolveNamedComposeFile.
  rewrite !bool_decide_false, Hn4, decide_False by done. cbn [orb].
  set (cands := _ ++ _). assert (Hcands : forall suf, suf = ".yaml" \/ suf = ".yml" -> Join dir (n +:+ suf) ∈ cands).
  { intros suf Hsuf. apply elem_of_app. right. destruct Hsuf as [-> | ->]; set_solver. }
  assert (Hreg : forall c, is_regular Stat c = true -> Stat c = RegularFile).
  { intros c. unfold is_regular. by destruct (Stat c). }
  destruct (filter _ cands) as [|d l] eqn:Hf.
  2:{ exists d. split; [done|]. apply Hreg. assert (Hd : d ∈ filter (fun c => is_regular Stat c = true) cands) by (rewrite Hf; left).
      by apply list_elem_of_filter in Hd as [? _]. }
  assert (Hnone : forall c, c ∈ cands -> Stat c <> RegularFile).
  { intros c Hc Hs. apply (first_regular Stat cands c) in Hc as (d & Hd & _); [by rewrite Hf in Hd|]. unfold is_regular. by rewrite Hs. }
  unfold project_name in Hp. destruct isDir.
  - destruct (is_regular Stat (joinAll [dir; m; namedComposeFile])) eqn:Hr; [|done]. injection Hp as ->.
    rewrite (Hdirs n Hin), Join_joinAll, Hr by done. eexists. split; [done|]. by apply Hreg.
  - exfalso. destruct (hasSuffix ".yaml" m) eqn:Hs1; [|destruct (hasSuffix ".yml" m) eqn:Hs2; [|done]]; injection Hp as <-.
    + apply (Hnone (Join dir m)); [|by apply Hfile]. rewrite (hasSuffix_split _ _ Hs1) at 1. apply Hcands. by left.
    + apply (Hnone (Join dir m)); [|by apply Hfile]. rewrite (hasSuffix_split _ _ Hs2) at 1. apply Hcands. by right.
Qed.

(** A default compose file that is there but does not decode is no error: without an
    explicit file the operation goes on with everything in the work directory. *)
Theorem broken_default_file_ignored cwd opts e :
  Getwd = Ok cwd -> no_File opts = "" -> Stat (Join cwd "cmd-compose.yaml") = RegularFile ->
  decodeFile (Join cwd "cmd-compose.yaml") = Err e ->
  LoadOrProject Stat decodeFile dir Getwd normalize opts = Ok (workdirSelection cwd opts).
Proof using Type.
  intros Hcwd Hf Hs Hd. unfold LoadOrProject. rewrite Hcwd. simpl. unfold DiscoverFile. rewrite Hf. simpl.
  rewrite Hs. unfold decode. by rewrite Hd.
Qed.
(** A file of the compose directory whose name is only a suffix is listed as the project
    "", and that name stands for the default file of the work directory: its project is
    then a candidate twice, and the selection fails as ambiguous. *)
Theorem suffix_only_file_is_ambiguous cwd path raw spec m :
  let none := {| no_File := ""; no_ProjectName := ""; no_WorkDir := "" |} in
  Getwd = Ok cwd -> dir <> "" -> ReadDir dir = Ok [(".yaml", false)] ->
  DiscoverFile Stat decodeFile dir cwd none = Ok (path, raw) -> normalize path raw none = Ok spec ->
  spec_Mux spec = Some m -> Clean (WorkDir spec) = Clean cwd ->
  SelectMuxProject Stat decodeFile ReadDir dir Getwd normalize none = Err (SelectManyCandidates [Base (ComposeFile spec); ""]).
Proof.
  intros none Hcwd Hdir Hread Hd Hn Hm Hw. unfold SelectMuxProject, mux_candidates, LoadOrProject, ListMuxProjects, ListNamedProjects.
  rewrite Hcwd. cbn [result_bind lift_err]. rewrite Hd. cbn [result_bind lift_err]. unfold specSelection. rewrite Hn.
  cbn [result_bind lift_err]. rewrite decide_False, Hread by done. unfold SelectionFromSpec, has_mux. simpl. rewrite Hm. simpl.
  unfold sort_strings. simpl. fold none. unfold LoadAndNormalize. simpl. fold none. rewrite Hd. simpl. rewrite Hn. simpl.
  rewrite Hm. simpl. by rewrite decide_True.
Qed.
End Props.

(** ** Witnesses *)

(** A directory with a file, a directory-style project, and a file that is no project. *)
Definition some_dir : list (string * bool) := [("a.yaml", false); ("b", true); ("notes", false)].
Definition some_stat (path : string) : stat :=
  if decide (path ∈ ["/c/a.yaml"; "/c/b/compose.yaml"; "/c/notes"; "/w/cmd-compose.yaml"]) then RegularFile
  else if decide (path = "/c/b") then Directory else Missing.
Definition some_read (path : string) : result (option string) (list (string * bool)) :=
  if decide (path = "/c") then Ok some_dir else Err None.

Lemma listed_names_resolve_witness :
  exists p, resolveNamedComposeFile some_stat "/c" "b" = Ok (Some p) /\ some_stat p = RegularFile.
Proof.
  apply (listed_names_resolve some_stat some_read "/c" some_dir ["a"; "b"]); try done.
  - split; intros n Hn; repeat (apply elem_of_cons in Hn as [Hn|Hn]; [injection Hn as ->; vm_compute; reflexivity || discriminate|]);
      by apply elem_of_nil in Hn.
  - right; left.
Defined.

Lemma broken_default_file_ignored_witness :
  LoadOrProject some_stat (fun _ => Err "bad YAML") "/c" (Ok "/w") (fun _ _ _ => Err NormProjectRequired)
    {| no_File := ""; no_ProjectName := ""; no_WorkDir := "" |} = Ok {| sel_Spec := None; sel_WorkDir := "/w"; sel_Project := "" |}.
Proof.
  rewrite (broken_default_file_ignored some_stat (fun _ => Err "bad YAML") "/c" (Ok "/w") _ "/w" _ "bad YAML"); try reflexivity.
Defined.
