(* ===== verification/Attach.v ===== *)
(** * Attaching a terminal to a command

    [cmdman/cli]: the reader that looks for the detach keys in what is typed and the
    parser of those keys ([attach_detachkeys.go]), the attach session with its signals and
    pumps ([attach.go]), and the loop that stays at a command over its restarts
    ([sticky.go]).  The terminal, the session and the hooks answer as they like. *)

From S2P Require Import Prelude GoStr Prog.

(** ** The keys *)

Section DetachKeys.
Context (ToLower : list Z -> list Z).

(* src/cmdman/cli/attach_detachkeys.go:136-147 ctrlKeyBytes *)
Definition ctrlKeyBytes : gmap Z Z :=
  list_to_map (zip (bytes_of "@abcdefghijklmnopqrstuvwxyz[\]^_") (seqZ 0 32)).

(* src/cmdman/cli/attach_detachkeys.go:149-157 detachKeyPrefixes *)
Definition detachKeyPrefixes : gmap (list Z) (gmap Z Z) :=
  {[ bytes_of "ctrl-" := ctrlKeyBytes; bytes_of "c-" := ctrlKeyBytes ]}.

Inductive detachKeyErr :=
| InvalidDetachKey (token : list Z)
| NotControlCharacter (token : list Z)
| SliceOutOfRange.

(** The empty token is sliced to a negative length, which panics. *)
(* src/cmdman/cli/attach_detachkeys.go:181-199 parseDetachKeyToken *)
Definition parseDetachKeyToken (token : list Z) : result detachKeyErr Z :=
  match token with
  | [b] => Ok b
  | _ =>
    match last token with
    | None => Err SliceOutOfRange
    | Some key =>
      match detachKeyPrefixes !! take (length token - 1) token with
      | None => Err (InvalidDetachKey token)
      | Some keys => match keys !! key with None => Err (NotControlCharacter token) | Some code => Ok code end
      end
    end
  end.

(** [strings.SplitSeq] at a byte: one token more than there are separators. *)
Fixpoint split_byte (sep : Z) (l : list Z) : list (list Z) :=
  match l with
  | [] => [[]]
  | b :: l =>
    if decide (b = sep) then [] :: split_byte sep l
    else match split_byte sep l with t :: ts => (b :: t) :: ts | [] => [[b]] end
  end.

(* src/cmdman/cli/attach_detachkeys.go:159-179 parseDetachKeys *)
Definition parseDetachKeys (detachKeys : list Z) : result detachKeyErr (list Z) :=
  if decide (detachKeys = []) then Ok []
  else result_mapM parseDetachKeyToken (split_byte 44 (ToLower detachKeys)).

End DetachKeys.

(* src/cmdman/cli/attach.go:69-72 DefaultDetachKeys *)
Definition DefaultDetachKeys : list Z := bytes_of "ctrl-p,ctrl-q".

(** ** The reader *)

Inductive readErr := errDetach | StdinEOF | StdinClosed | StdinErr (text : string).

#[export] Instance readErr_eq_dec : EqDecision readErr.
Proof. solve_decision. Defined.

(** What standard input still has to give: the bytes of each read that will arrive, none
    of them empty, and the error after the last one. *)
Record stdin := MkStdin { si_reads : list (Z * list Z); si_end : readErr }.

(** The reader with the buffer of its [bufio.Reader]. *)
(* src/cmdman/cli/attach_detachkeys.go:11-23 detachKeyReader *)
Record detachKeyReader := MkReader {
  dk_buffered : list Z;
  dk_stdin : stdin;
  detachKey : list Z;
  dk_match : nat;
  dk_pending : list Z;
  dk_detached : bool;
}.

(** Without keys there is no reader in between. *)
(* src/cmdman/cli/attach_detachkeys.go:25-33 newDetachKeyReader *)
Definition newDetachKeyReader (r : stdin) (detachKeys : list Z) : stdin + detachKeyReader :=
  if decide (detachKeys = []) then inl r else inr (MkReader [] r detachKeys 0 [] false).

(** [bufio.Reader.ReadByte]: the next byte, from the buffer or the next read. *)
Definition ReadByte (r : detachKeyReader) : result readErr (Z * detachKeyReader) :=
  match dk_buffered r with
  | b :: bs => Ok (b, MkReader bs (dk_stdin r) (detachKey r) (dk_match r) (dk_pending r) (dk_detached r))
  | [] =>
    match si_reads (dk_stdin r) with
    | [] => Err (si_end (dk_stdin r))
    | (b, bs) :: rs => Ok (b, MkReader bs (MkStdin rs (si_end (dk_stdin r))) (detachKey r) (dk_match r) (dk_pending r) (dk_detached r))
    end
  end.

Definition set_match (m : nat) (r : detachKeyReader) : detachKeyReader :=
  MkReader (dk_buffered r) (dk_stdin r) (detachKey r) m (dk_pending r) (dk_detached r).
Definition set_pending (l : list Z) (r : detachKeyReader) : detachKeyReader :=
  MkReader (dk_buffered r) (dk_stdin r) (detachKey r) (dk_match r) l (dk_detached r).
Definition set_detached (r : detachKeyReader) : detachKeyReader :=
  MkReader (dk_buffered r) (dk_stdin r) (detachKey r) (dk_match r) (dk_pending r) true.
Definition discard (n : nat) (r : detachKeyReader) : detachKeyReader :=
  MkReader (drop n (dk_buffered r)) (dk_stdin r) (detachKey r) (dk_match r) (dk_pending r) (dk_detached r).

(** [out] is [p[:n]] and [size] the length of [p]. *)
(* src/cmdman/cli/attach_detachkeys.go:126-134 detachKeyReader.emit *)
Definition emit (size : nat) (out : list Z) (src : list Z) (r : detachKeyReader) : list Z * detachKeyReader :=
  let room := size - length out in
  (out ++ take room src, set_pending (dk_pending r ++ drop room src) r).

(** The bytes of [l] before the first [b]. *)
Fixpoint until (b : Z) (l : list Z) : list Z :=
  match l with [] => [] | x :: l => if decide (x = b) then [] else x :: until b l end.

Definition key_first (r : detachKeyReader) : Z := default 0%Z (head (detachKey r)).

(** A byte that diverged, after what it diverged from was flushed. *)
(* src/cmdman/cli/attach_detachkeys.go:116-121 detachKeyReader.Read *)
Definition literal (size : nat) (out : list Z) (b : Z) (r : detachKeyReader)
  : (list Z * option readErr * detachKeyReader) + (list Z * detachKeyReader) :=
  if bool_decide (dk_pending r <> []) || bool_decide (length out = size)
  then inl (out, None, set_pending (dk_pending r ++ [b]) r)
  else inr (out ++ [b], r).

(** One byte: the read is over, or goes on with what it has so far. *)
(* src/cmdman/cli/attach_detachkeys.go:80-121 detachKeyReader.Read *)
Definition read_one (size : nat) (out : list Z) (r : detachKeyReader)
  : (list Z * option readErr * detachKeyReader) + (list Z * detachKeyReader) :=
  match ReadByte r with
  | Err e =>
    let '(out, r) := if decide (0 < dk_match r) then
                       let '(out, r) := emit size out (take (dk_match r) (detachKey r)) r in (out, set_match 0 r)
                     else (out, r) in
    inl (out, if decide (out = []) then Some e else None, r)
  | Ok (b, r) =>
    if decide (detachKey r !! dk_match r = Some b) then
      if decide (S (dk_match r) = length (detachKey r)) then inl (out, Some errDetach, set_detached (set_match 0 r))
      else inr (out, set_match (S (dk_match r)) r)
    else if decide (0 < dk_match r) then
      let '(out, r) := emit size out (take (dk_match r) (detachKey r)) (set_match 0 r) in
      if decide (b = key_first r) then
        let r := set_match 1 r in
        if bool_decide (dk_pending r <> []) || bool_decide (length out = size) then inl (out, None, r) else inr (out, r)
      else literal size out b r
    else literal size out b r
  end.

(** The loop of a read.  Each round takes a byte of the input, so its fuel is one more
    than the bytes there are. *)
(* src/cmdman/cli/attach_detachkeys.go:54-123 detachKeyReader.Read *)
Fixpoint read_loop (fuel : nat) (size : nat) (out : list Z) (r : detachKeyReader)
  : list Z * option readErr * detachKeyReader :=
  match fuel with
  | 0 => (out, None, r)
  | S fuel =>
    if decide (size <= length out) then (out, None, r)
    else if bool_decide (out <> []) && bool_decide (dk_buffered r = []) then (out, None, r)
    else
      let run := until (key_first r) (dk_buffered r) in
      if bool_decide (dk_match r = 0) && bool_decide (run <> []) then
        let copied := take (size - length out) run in
        read_loop fuel size (out ++ copied) (discard (length copied) r)
      else match read_one size out r with
           | inl res => res
           | inr (out, r) => read_loop fuel size out r
           end
  end.

(** The bytes that were not looked at yet. *)
Definition unread (r : detachKeyReader) : list Z :=
  dk_buffered r ++ concat (map (fun c => c.1 :: c.2) (si_reads (dk_stdin r))).

(* src/cmdman/cli/attach_detachkeys.go:35-124 detachKeyReader.Read *)
Definition Read (size : nat) (r : detachKeyReader) : list Z * option readErr * detachKeyReader :=
  if decide (size = 0) then ([], None, r)
  else
    let out := take size (dk_pending r) in
    if decide (length out < length (dk_pending r)) then (out, None, set_pending (drop (length out) (dk_pending r)) r)
    else
      let r := set_pending [] r in
      if dk_detached r then (out, Some errDetach, r)
      else read_loop (S (length (unread r))) size out r.

(** ** Signals *)

Definition SIGINT : Z := 2.
Definition SIGTERM : Z := 15.
Definition SIGWINCH : Z := 28.

(** What the program of an attach calls: the terminal, the pipes it derives, the session,
    and the waits for its goroutines. *)
Inductive attErr :=
| PumpErr (e : readErr)
| RemoteEOF
| Transport (text : string).

Inductive deriveAnswer := Derived | DeriveEOF | DeriveErr (text : string).

Inductive attachErr :=
| AttachInvalid
| BadDetachKeys (e : detachKeyErr)
| DeriveFailed (text : string)
| ErrRemoteEOF
| ErrForceExit
| PumpFailed (e : attErr).

(** The status line of a prompt. *)
Inductive promptStatus :=
| StatusLine (text : string)
| OpenSessionFailed (text : string)
| AttachFailed (e : attachErr).

Inductive attEvent := FirstErr (e : attErr) | ForceExit | CtxDone.

(* src/cmdman/cli/attach.go:49-67 AttachSession *)
Inductive attE : Type -> Type :=
| Chdir (dir : string) : attE unit
| DeriveStdout : attE deriveAnswer
| DeriveStdin : attE deriveAnswer
| StdinIsTerminal : attE bool
| StdoutIsTerminal : attE bool
| MakeRaw : attE bool
| RestoreTermios : attE unit
| ResetDisplay : attE unit
| TerminalSize : attE (Z * Z)
| Resize (rows cols : Z) : attE unit
| SendSignal (sig : Z) : attE unit
| PauseSignals : attE bool
| ResumeSignals : attE unit
| InstallSignals : attE unit
| RemoveSignals : attE unit
| StartPumps (signals stdin : bool) : attE unit
| AwaitFirst : attE attEvent
| CancelCtx : attE unit
| CloseSession : attE unit
| CloseStdin : attE unit
| CloseStdout : attE unit
| JoinGoroutines : attE unit
| CloseSend : attE unit
| SendStdin (data : list Z) : attE (option attErr)
| HookState : attE (result string (bool * string))
| HookOpenSession : attE (option string)
| HookRestart : attE (option string)
| CtxCancelled : attE bool
| PrintPrompt (status : promptStatus) : attE unit
| PrintRestartFailed (text : string) : attE unit
| PromptInput : attE stdin
| CtxFirst : attE bool.

Notation attprog := (prog attE).
Notation attact := (act attE).

(* src/cmdman/cli/attach.go:395-400 sendResize *)
Definition sendResize : attprog unit :=
  '(rows, cols) ← call TerminalSize;
  if bool_decide (0 < rows)%Z && bool_decide (0 < cols)%Z then call (Resize rows cols) else mret tt.

(** The handler over the signals it receives, [None] one that is not a [syscall.Signal];
    [true] when the exit is forced. *)
(* src/cmdman/cli/attach.go:306-352 handleAttachSignals *)
Fixpoint handleAttachSignals (forceCount : nat) (sigs : list (option Z)) : attprog bool :=
  match sigs with
  | [] => mret false
  | None :: sigs => handleAttachSignals forceCount sigs
  | Some sig :: sigs =>
    if decide (sig = SIGWINCH) then _ ← sendResize; handleAttachSignals 0 sigs
    else
      _ ← call (SendSignal sig);
      if bool_decide (sig = SIGINT) || bool_decide (sig = SIGTERM) then
        if decide (3 <= S forceCount) then mret true else handleAttachSignals (S forceCount) sigs
      else handleAttachSignals 0 sigs
  end.

(** ** Standard input to the session *)

(** What the pump reads with, a reader for the keys or standard input itself. *)
Definition source : Type := stdin + detachKeyReader.

Definition stdin_read (size : nat) (r : stdin) : list Z * option readErr * stdin :=
  match si_reads r with
  | [] => ([], Some (si_end r), r)
  | (b, bs) :: rs =>
    (take size (b :: bs), None,
     MkStdin (match drop size (b :: bs) with [] => rs | c :: cs => (c, cs) :: rs end) (si_end r))
  end.

Definition source_read (size : nat) (r : source) : list Z * option readErr * source :=
  match r with
  | inl s => let '(out, e, s) := stdin_read size s in (out, e, inl s)
  | inr k => let '(out, e, k) := Read size k in (out, e, inr k)
  end.

(** The pump; what it puts on the error channel, if anything.  Every round reads something
    or ends, so the fuel is the bytes there are and one more. *)
(* src/cmdman/cli/attach.go:365-393 pumpStdinToStream *)
Fixpoint pump_loop (fuel : nat) (r : source) : attprog (option attErr) :=
  match fuel with
  | 0 => mret None
  | S fuel =>
    let '(data, err, r) := source_read (32 * 1024) r in
    sent ← (if decide (data = []) then mret None else call (SendStdin data));
    match sent with
    | Some e => mret (Some e)
    | None =>
      match err with
      | Some StdinEOF => mret None
      | Some e => mret (Some (PumpErr e))
      | None => pump_loop fuel r
      end
    end
  end.

(* src/cmdman/cli/attach.go:365-393 pumpStdinToStream *)
Definition pumpStdinToStream (r : stdin) (detachKeys : list Z) : attprog (option attErr) :=
  pump_loop (S (length (concat (map (fun c => c.1 :: c.2) (si_reads r))))) (newDetachKeyReader r detachKeys).

(** ** A session *)

(* src/cmdman/cli/attach.go:74-124 AttachOptions *)
Record AttachOptions := {
  NoStdin : bool;
  SigProxy : bool;
  ao_DetachKeys : list Z;
  ao_WorkDir : string;
  has_hooks : bool;
  has_files : bool;
}.

(* src/cmdman/cli/attach.go:230-246 Attach *)
Definition exit_of (ev : attEvent) : option attachErr :=
  match ev with
  | FirstErr (PumpErr errDetach) => None
  | FirstErr RemoteEOF => Some ErrRemoteEOF
  | FirstErr e => Some (PumpFailed e)
  | ForceExit => Some ErrForceExit
  | CtxDone => None
  end.

(* src/cmdman/cli/attach.go:263-275 chdirWorkDir *)
Definition chdirWorkDir (dir : string) : attprog unit :=
  if decide (dir = "") then mret tt else call (Chdir dir).

(** Whether the terminal was put into raw mode. *)
(* src/cmdman/cli/attach.go:277-292 setupRawTerminal *)
Definition setupRawTerminal (noStdin : bool) : attprog bool :=
  if noStdin then mret false
  else t ← call StdinIsTerminal; if (t : bool) then call MakeRaw else mret false.

(** The restore function; it works once, the first time it is called. *)
(* src/cmdman/cli/attach.go:293-303 setupRawTerminal *)
Definition restoreTerminal (raw : bool) : attprog unit :=
  if raw then
    _ ← call RestoreTermios;
    t ← call StdoutIsTerminal;
    if (t : bool) then call ResetDisplay else mret tt
  else mret tt.

Section Attach.
Context (ToLower : list Z -> list Z).

(** The body of an attach that has its pipes, up to the deferred calls. *)
(* src/cmdman/cli/attach.go:187-260 Attach *)
Definition attached (opts : AttachOptions) (stdinPipe : bool) : attprog (option attachErr) :=
  raw ← setupRawTerminal (NoStdin opts);
  _ ← sendResize;
  remove ← (if SigProxy opts then
              p ← (if has_hooks opts then call PauseSignals else mret false);
              if (p : bool) then mret (call ResumeSignals)
              else _ ← call InstallSignals; mret (call RemoveSignals)
            else mret (mret tt));
  _ ← call (StartPumps (SigProxy opts) stdinPipe);
  ev ← call AwaitFirst;
  _ ← call CancelCtx;
  _ ← call CloseSession;
  _ ← (if (stdinPipe : bool) then call CloseStdin else mret tt);
  _ ← call CloseStdout;
  _ ← call JoinGoroutines;
  _ ← call CloseSend;
  _ ← restoreTerminal raw;
  _ ← remove;
  mret (exit_of ev).

(* src/cmdman/cli/attach.go:140-261 Attach *)
Definition Attach (opts : AttachOptions) : attprog (option attachErr) :=
  if negb (has_files opts) then mret (Some AttachInvalid)
  else
    match parseDetachKeys ToLower (ao_DetachKeys opts) with
    | Err e => mret (Some (BadDetachKeys e))
    | Ok _ =>
      _ ← chdirWorkDir (ao_WorkDir opts);
      out ← call DeriveStdout;
      match out with
      | DeriveErr t => _ ← call CancelCtx; mret (Some (DeriveFailed t))
      | DeriveEOF => _ ← call CancelCtx; mret (Some (DeriveFailed "EOF"))
      | Derived =>
        p ← (if NoStdin opts then mret DeriveEOF else call DeriveStdin);
        match p with
        | DeriveErr t => _ ← call CloseStdout; _ ← call CancelCtx; mret (Some (DeriveFailed t))
        | DeriveEOF => r ← attached opts false; _ ← call CloseStdout; _ ← call CancelCtx; mret r
        | Derived => r ← attached opts true; _ ← call CloseStdin; _ ← call CloseStdout; _ ← call CancelCtx; mret r
        end
      end
    end.

(** ** Staying at a command *)

(* src/cmdman/cli/sticky.go:37-47 PromptResult *)
Inductive PromptResult := PromptRestart | PromptDetach.

Inductive stickyErr :=
| StickyInvalid
| StateFailed (text : string)
| PromptBadKeys (e : detachKeyErr)
| PromptDerive (text : string)
| PromptRead (e : readErr)
| PromptCtx
| StickyAttach (e : attachErr).

(** The goroutine of the prompt over the input; its fuel as that of the pump. *)
(* src/cmdman/cli/sticky.go:238-261 promptWait *)
Fixpoint prompt_scan (fuel : nat) (r : source) : result stickyErr PromptResult :=
  match fuel with
  | 0 => Ok PromptDetach
  | S fuel =>
    let '(data, err, r) := source_read 64 r in
    if bool_decide (114%Z ∈ data \/ 82%Z ∈ data) then Ok PromptRestart
    else match err with
         | None => prompt_scan fuel r
         | Some errDetach | Some StdinEOF | Some StdinClosed => Ok PromptDetach
         | Some e => Err (PromptRead e)
         end
  end.

Definition prompt_answer (r : stdin) (detachKeys : list Z) : result stickyErr PromptResult :=
  prompt_scan (S (length (concat (map (fun c => c.1 :: c.2) (si_reads r))))) (newDetachKeyReader r detachKeys).

(* src/cmdman/cli/sticky.go:199-272 promptWait *)
Definition promptWait (opts : AttachOptions) (status : promptStatus) : attprog (result stickyErr PromptResult) :=
  match parseDetachKeys ToLower (ao_DetachKeys opts) with
  | Err e => mret (Err (PromptBadKeys e))
  | Ok detachKeys =>
    p ← call DeriveStdin;
    match p with
    | DeriveEOF => mret (Ok PromptDetach)
    | DeriveErr t => c ← call CtxCancelled; mret (Err (if (c : bool) then PromptCtx else PromptDerive t))
    | Derived =>
      raw ← setupRawTerminal false;
      _ ← call (PrintPrompt status);
      input ← call PromptInput;
      c ← call CtxFirst;
      _ ← (if (c : bool) then call CloseStdin else mret tt);
      _ ← restoreTerminal raw;
      _ ← call CloseStdin;
      mret (if (c : bool) then Err PromptCtx else prompt_answer input detachKeys)
    end
  end.

(** Whether the user is done. *)
(* src/cmdman/cli/sticky.go:157-181 waitAtPrompt *)
Definition waitAtPrompt (opts : AttachOptions) (status : promptStatus) : attprog (result stickyErr bool) :=
  r ← promptWait opts status;
  match r with
  | Err e => mret (Err e)
  | Ok PromptRestart =>
    e ← call HookRestart;
    match e with None => mret tt | Some t => call (PrintRestartFailed t) end ≫= fun _ => mret (Ok false)
  | Ok PromptDetach => mret (Ok true)
  end.

(** The end of the session ([Some]), or another round. *)
Definition at_prompt (opts : AttachOptions) (status : promptStatus) : attprog (option (option stickyErr)) :=
  r ← waitAtPrompt opts status;
  mret (match r with Err e => Some (Some e) | Ok true => Some None | Ok false => None end).

(* src/cmdman/cli/sticky.go:88-151 AttachSticky *)
Definition sticky_round (opts : AttachOptions) : attprog (option (option stickyErr)) :=
  s ← call HookState;
  match s with
  | Err t => mret (Some (Some (StateFailed t)))
  | Ok (false, status) => at_prompt opts (StatusLine status)
  | Ok (true, _) =>
    o ← call HookOpenSession;
    match o with
    | Some t => at_prompt opts (OpenSessionFailed t)
    | None =>
      err ← Attach opts;
      match err with
      | Some ErrRemoteEOF => mret None
      | Some ErrForceExit => mret (Some (Some (StickyAttach ErrForceExit)))
      | _ =>
        c ← call CtxCancelled;
        if (c : bool) then mret (Some (StickyAttach <$> err))
        else match err with
             | Some e => at_prompt opts (AttachFailed e)
             | None => mret (Some None)
             end
      end
    end
  end.

(** The first [n] rounds, [None] when the loop goes on after them. *)
(* src/cmdman/cli/sticky.go:87-152 AttachSticky *)
Fixpoint sticky_rounds (n : nat) (opts : AttachOptions) : attprog (option (option stickyErr)) :=
  match n with
  | 0 => mret None
  | S n =>
    r ← sticky_round opts;
    match r with Some e => mret (Some e) | None => sticky_rounds n opts end
  end.

(* src/cmdman/cli/sticky.go:68-153 AttachSticky *)
Definition AttachSticky (n : nat) (opts : AttachOptions) : attprog (option (option stickyErr)) :=
  if negb (has_files opts) then mret (Some (Some StickyInvalid))
  else
    _ ← chdirWorkDir (ao_WorkDir opts);
    sticky_rounds n {| NoStdin := NoStdin opts; SigProxy := SigProxy opts; ao_DetachKeys := ao_DetachKeys opts;
                       ao_WorkDir := ""; has_hooks := has_hooks opts; has_files := has_files opts |}.
End Attach.
