(* ===== verification/AttachProps.v ===== *)
(** * What attaching a terminal guarantees

    The reader passes on every byte that is typed, in order, up to the detach keys, however
    the bytes arrive and whatever buffers it is read with; which sequences it finds, and
    which it misses; that the terminal is left as it was; and that only the user, a forced
    exit or the end of the context ends a session that stays at its command. *)

From S2P Require Import Prelude GoStr Prog Attach.

(** ** The automaton

    What the reader does of one byte after the other: what it passes on, how much of the
    keys the last bytes match, and what is left when it detached. *)
Fixpoint forward (key : list Z) (m : nat) (l : list Z) : list Z * nat * option (list Z) :=
  match l with
  | [] => ([], m, None)
  | b :: l =>
    if decide (key !! m = Some b) then
      if decide (S m = length key) then ([], 0, Some l) else forward key (S m) l
    else if decide (0 < m) then
      if decide (head key = Some b) then let '(out, m', d) := forward key 1 l in (take m key ++ out, m', d)
      else let '(out, m', d) := forward key 0 l in (take m key ++ b :: out, m', d)
    else let '(out, m', d) := forward key 0 l in (b :: out, m', d)
  end.

Lemma forward_app key m l1 l2 :
  forward key m (l1 ++ l2) =
  match forward key m l1 with
  | (out, m', Some d) => (out, m', Some (d ++ l2))
  | (out, m', None) => let '(out', m'', d) := forward key m' l2 in (out ++ out', m'', d)
  end.
Proof.
  revert m. induction l1 as [|b l1 IH]; intros m; cbn [app forward]; [by destruct (forward key m l2) as [[? ?] ?]|].
  repeat case_decide; [done|apply IH|rewrite IH..];
    destruct (forward key _ l1) as [[? ?] [?|]]; try done;
    destruct (forward key _ l2) as [[? ?] ?]; by rewrite <- ?app_assoc.
Qed.

(** Nothing is lost or reordered: what was passed on and what is held make up the bytes. *)
Lemma forward_bytes key m l : m <= length key ->
  match forward key m l with
  | (out, m', None) => out ++ take m' key = take m key ++ l /\ m' <= length key
  | (out, _, Some d) => out ++ key ++ d = take m key ++ l
  end.
Proof.
  revert m. induction l as [|b l IH]; intros m Hm; cbn [forward]; [by rewrite app_nil_r|].
  case_decide as Hb; [|case_decide as H0; [case_decide as Hh|]].
  - assert (Ht : take m key ++ b :: l = take (S m) key ++ l).
    { rewrite (take_S_r _ _ _ Hb), <- app_assoc. done. }
    case_decide as Hl; [rewrite Ht, Hl; by rewrite take_ge|]. rewrite Ht. apply IH. apply lookup_lt_Some in Hb. lia.
  - specialize (IH 1). destruct key as [|k key]; [done|]. injection Hh as ->.
    destruct (forward _ 1 l) as [[out m'] [d|]]; rewrite <- app_assoc; [by rewrite IH by (simpl; lia)|].
    destruct (IH ltac:(simpl; lia)) as [-> ?]. done.
  - specialize (IH 0 ltac:(lia)). destruct (forward _ 0 l) as [[out m'] [d|]]; rewrite <- app_assoc; simpl in *; [by rewrite IH|].
    destruct IH as [-> ?]. done.
  - replace m with 0 by lia. specialize (IH 0 ltac:(lia)). destruct (forward _ 0 l) as [[out m'] [d|]]; simpl in *; [by rewrite IH|].
    destruct IH as [-> ?]. done.
Qed.

(** Keys whose first byte does not come again are found wherever they are typed first. *)
Definition self_free (key : list Z) : Prop := exists k rest, key = k :: rest /\ k ∉ rest.

Definition occurs (key l : list Z) : Prop := exists a b, l = a ++ key ++ b.

Lemma occurs_cons key x l : occurs key (x :: l) <-> (exists b, x :: l = key ++ b) \/ occurs key l.
Proof.
  split.
  - intros ([|y a] & b & H); [left; by exists b|]. injection H as -> ->. right. by exists a, b.
  - intros [[b ->]|(a & b & ->)]; [by exists [], b|by exists (x :: a), b].
Qed.

Lemma occurs_skip k rest s l : k ∉ s -> occurs (k :: rest) (s ++ l) -> occurs (k :: rest) l.
Proof.
  induction s as [|x s IH]; simpl; [done|]. intros Hk [[b H]|H]%occurs_cons; [injection H as -> _; set_solver|]. apply IH; [set_solver|done].
Qed.

Lemma prefix_lookup (key b' l : list Z) m b : m < length key -> take m key ++ b :: l = key ++ b' -> key !! m = Some b.
Proof.
  intros Hm H. rewrite <- (lookup_app_l key b') by done. rewrite <- H, lookup_app_r by (rewrite length_take; lia).
  by rewrite length_take, Nat.min_l, Nat.sub_diag by lia.
Qed.

(** A byte that does not go on with the keys ends what was matched of them. *)
Lemma occurs_diverge k rest m b l : k ∉ rest -> m < length (k :: rest) -> (k :: rest) !! m <> Some b ->
  occurs (k :: rest) (take m (k :: rest) ++ b :: l) -> occurs (k :: rest) (b :: l).
Proof.
  intros Hk Hm Hb. destruct m as [|m]; [done|]. change (take (S m) (k :: rest)) with (k :: take m rest). rewrite <- app_comm_cons.
  intros [[b' H]|H]%occurs_cons.
  - exfalso. apply Hb. by eapply (prefix_lookup (k :: rest) b' l (S m) b).
  - eapply occurs_skip; [|exact H]. intros Hin%elem_of_take. destruct Hin as (i & Hi & _). apply Hk, list_elem_of_lookup. by exists i.
Qed.

Lemma forward_misses_none k rest m l out m' : k ∉ rest -> m < length (k :: rest) ->
  forward (k :: rest) m l = (out, m', None) -> m' < length (k :: rest) /\ ~ occurs (k :: rest) (take m (k :: rest) ++ l).
Proof.
  intros Hk. revert m out. induction l as [|b l IH]; intros m out Hm H; cbn [forward] in H.
  - injection H as _ ->. split; [done|]. rewrite app_nil_r. intros (a & c & Ha). apply (f_equal length) in Ha.
    rewrite !length_app, length_take in Ha. lia.
  - assert (Hstep : forall j o, j < length (k :: rest) -> forward (k :: rest) j l = (o, m', None) ->
      m' < length (k :: rest) /\ ~ occurs (k :: rest) (take j (k :: rest) ++ l)) by (intros j o; apply IH). clear IH.
    case_decide as Hb.
    + case_decide as Hl; [done|]. pose proof (lookup_lt_Some _ _ _ Hb) as Hlt. destruct (Hstep (S m) out ltac:(lia) H) as [? Hn]. split; [done|].
      by rewrite (take_S_r _ _ _ Hb), <- app_assoc in Hn.
    + assert (Hd : forall j, (j = 0 -> k <> b) -> occurs (k :: rest) (take j (k :: rest) ++ l) \/ occurs (k :: rest) (b :: l) -> True) by done.
      clear Hd. case_decide as H0; [case_decide as Hh|].
      * injection Hh as ->. destruct (forward _ 1 l) as [[o m2] d] eqn:E. injection H as _ -> ->.
        destruct (Hstep 1 o ltac:(simpl in *; lia) E) as [? Hn]. split; [done|]. intros Ho. apply Hn. exact (occurs_diverge _ _ _ _ _ Hk Hm Hb Ho).
      * destruct (forward _ 0 l) as [[o m2] d] eqn:E. injection H as _ -> ->.
        destruct (Hstep 0 o ltac:(lia) E) as [? Hn]. split; [done|]. intros Ho. apply Hn.
        apply (occurs_diverge _ _ _ _ _ Hk Hm Hb), occurs_cons in Ho as [[b' He]|Ho]; [|done]. exfalso. apply Hh. by injection He as -> _.
      * assert (m = 0) as -> by lia. destruct (forward _ 0 l) as [[o m2] d] eqn:E. injection H as _ -> ->.
        destruct (Hstep 0 o ltac:(lia) E) as [? Hn]. split; [done|]. intros Ho. apply Hn.
        apply occurs_cons in Ho as [[b' He]|Ho]; [|done]. exfalso. apply Hb. by injection He as -> _.
Qed.

(** A detach comes with the last byte of the keys. *)
Lemma forward_detach key m l out m' d : m < length key -> forward key m l = (out, m', Some d) ->
  exists l1 b, l = l1 ++ b :: d /\ forward key m l1 = (out, length key - 1, None) /\ key !! (length key - 1) = Some b.
Proof.
  revert m out. induction l as [|b l IH]; intros m out Hm H; cbn [forward] in H; [done|].
  case_decide as Hb.
  - pose proof (lookup_lt_Some _ _ _ Hb) as Hlt. case_decide as Hl.
    + injection H as <- _ ->. exists [], b. replace (length key - 1) with m by lia. done.
    + destruct (IH (S m) out ltac:(lia) H) as (l1 & x & -> & Hf & Hx). exists (b :: l1), x. cbn [forward]. by rewrite decide_True, decide_False.
  - assert (Hpos : 0 < length key) by lia. case_decide as H0; [case_decide as Hh|].
    + destruct (forward key 1 l) as [[o m2] [d'|]] eqn:E; [|done]. injection H as <- -> ->.
      destruct (decide (1 < length key)) as [H1|H1]; [|lia].
      destruct (IH 1 o H1 E) as (l1 & x & -> & Hf & Hx). exists (b :: l1), x. cbn [forward].
      by rewrite decide_False, decide_True, decide_True, Hf by done.
    + destruct (forward key 0 l) as [[o m2] [d'|]] eqn:E; [|done]. injection H as <- -> ->.
      destruct (IH 0 o Hpos E) as (l1 & x & -> & Hf & Hx). exists (b :: l1), x. cbn [forward].
      by rewrite decide_False, decide_True, decide_False, Hf by done.
    + destruct (forward key 0 l) as [[o m2] [d'|]] eqn:E; [|done]. injection H as <- -> ->.
      destruct (IH 0 o Hpos E) as (l1 & x & -> & Hf & Hx). exists (b :: l1), x. cbn [forward].
      by rewrite decide_False, decide_False, Hf by done.
Qed.

(** ** The reader implements the automaton *)

(** What a reader still has to pass on, and the error after it. *)
Definition finish (key : list Z) (e : readErr) (f : list Z * nat * option (list Z)) : list Z * readErr :=
  match f with (out, m, None) => (out ++ take m key, e) | (out, _, Some _) => (out, errDetach) end.

Definition to_come (r : detachKeyReader) : list Z * readErr :=
  if dk_detached r then (dk_pending r, errDetach)
  else let '(out, e) := finish (detachKey r) (si_end (dk_stdin r)) (forward (detachKey r) (dk_match r) (unread r)) in
       (dk_pending r ++ out, e).

Definition after (out : list Z) (r : detachKeyReader) : list Z * readErr := (out ++ (to_come r).1, (to_come r).2).

Definition wf (r : detachKeyReader) : Prop := dk_match r < length (detachKey r).

(** What a read that is over leaves. *)
Definition read_done (t : list Z * readErr) (r0 : detachKeyReader) (res : list Z * option readErr * detachKeyReader) : Prop :=
  let '(out, e, r) := res in
  after out r = t /\ wf r /\ detachKey r = detachKey r0 /\
  match e with None => out <> [] | Some x => t.2 = x /\ (to_come r).1 = [] end.

Lemma ReadByte_spec r :
  match ReadByte r with
  | Err e => unread r = [] /\ e = si_end (dk_stdin r)
  | Ok (b, r') => unread r = b :: unread r' /\ detachKey r' = detachKey r /\ dk_match r' = dk_match r /\
      dk_pending r' = dk_pending r /\ dk_detached r' = dk_detached r /\ si_end (dk_stdin r') = si_end (dk_stdin r) /\
      (dk_buffered r <> [] -> dk_stdin r' = dk_stdin r)
  end.
Proof.
  destruct r as [bu [rs en] key m p d]. unfold ReadByte, unread; simpl. destruct bu as [|b bu]; [|done].
  destruct rs as [|[b bs] rs]; simpl; [done|]. repeat split; done.
Qed.

Lemma until_prefix b l : exists l', l = until b l ++ l' /\ Forall (fun x => x <> b) (until b l).
Proof.
  induction l as [|x l (l' & IH & Hf)]; simpl; [by exists []|]. case_decide; [by exists (x :: l)|].
  exists l'. simpl. rewrite <- IH. split; [done|]. by constructor.
Qed.

Lemma forward_literal key c l : key <> [] -> Forall (fun x => x <> default 0%Z (head key)) c ->
  forward key 0 (c ++ l) = let '(out, m, d) := forward key 0 l in (c ++ out, m, d).
Proof.
  intros Hk. induction 1 as [|x c Hx _ IH]; cbn [app forward]; [by destruct (forward key 0 l) as [[? ?] ?]|].
  destruct key as [|k key]; [done|]. rewrite decide_False by (intros [= ->]; done). rewrite decide_False by lia. rewrite IH.
  by destruct (forward _ 0 l) as [[? ?] ?].
Qed.

Lemma finish_cons key e c f : finish key e (let '(out, m, d) := f in (c ++ out, m, d)) = (c ++ (finish key e f).1, (finish key e f).2).
Proof. destruct f as [[o m] [d|]]; simpl; [done|]. by rewrite app_assoc. Qed.

Lemma to_come_live r : dk_detached r = false ->
  to_come r = (dk_pending r ++ (finish (detachKey r) (si_end (dk_stdin r)) (forward (detachKey r) (dk_match r) (unread r))).1,
               (finish (detachKey r) (si_end (dk_stdin r)) (forward (detachKey r) (dk_match r) (unread r))).2).
Proof. unfold to_come. intros ->. by destruct (finish _ _ _). Qed.

(** What the rest of the bytes gives a reader that matched [m] of the keys. *)
Definition rest_from (m : nat) (r : detachKeyReader) : list Z * readErr :=
  finish (detachKey r) (si_end (dk_stdin r)) (forward (detachKey r) m (unread r)).

Lemma after_live out r : dk_detached r = false ->
  after out r = (out ++ dk_pending r ++ (rest_from (dk_match r) r).1, (rest_from (dk_match r) r).2).
Proof. intros Hd. unfold after. by rewrite to_come_live. Qed.

Lemma emit_spec size out src r : dk_pending r = [] -> length out < size -> src <> [] ->
  exists out' p', emit size out src r = (out', set_pending p' r) /\ out' ++ p' = out ++ src /\ out' <> [] /\
    length out' <= size /\ length out <= length out' /\ (p' <> [] -> length out' = size).
Proof.
  intros Hp Hs Hsrc. unfold emit. eexists _, _. split; [done|]. rewrite Hp. simpl. rewrite <- app_assoc, take_drop.
  rewrite length_app, length_take. split; [done|]. split; [|split; [lia|split; [lia|]]].
  - intros [_ H]%app_eq_nil. apply (f_equal length) in H. rewrite length_take in H. destruct src; [done|]. simpl in *. lia.
  - intros Hd. destruct (decide (size - length out < length src)) as [|Hge]; [lia|]. by rewrite drop_ge in Hd by lia.
Qed.

(** The loop goes on with [out'] and [r']. *)
Definition goes_on (size : nat) (t : list Z * readErr) (r : detachKeyReader) (res : list Z * detachKeyReader) : Prop :=
  let '(out', r') := res in
  after out' r' = t /\ wf r' /\ detachKey r' = detachKey r /\ dk_pending r' = [] /\ dk_detached r' = false /\
  length (unread r') < length (unread r) /\ length out' <= size.

Definition step_ok (size : nat) (t : list Z * readErr) (r : detachKeyReader)
  (res : (list Z * option readErr * detachKeyReader) + (list Z * detachKeyReader)) : Prop :=
  match res with inl res => read_done t r res | inr res => goes_on size t r res end.

Lemma literal_spec size out b r0 r : dk_detached r = false -> dk_match r = 0 -> 0 < length (detachKey r) -> detachKey r = detachKey r0 ->
  length (unread r) < length (unread r0) -> 0 < size -> length out <= size -> (dk_pending r <> [] -> length out = size) ->
  step_ok size (out ++ dk_pending r ++ b :: (rest_from 0 r).1, (rest_from 0 r).2) r0 (literal size out b r).
Proof.
  intros Hd Hm Hk Hk0 Hu Hs Hl Hp. unfold literal. destruct (bool_decide _ || bool_decide _) eqn:E.
  - assert (length out = size) as He.
    { apply orb_true_iff in E as [H%bool_decide_eq_true|H%bool_decide_eq_true]; auto. }
    simpl. rewrite after_live by done. simpl. rewrite Hm. change (rest_from 0 (set_pending _ r)) with (rest_from 0 r).
    rewrite <- app_assoc. split; [done|]. split; [unfold wf; simpl; lia|]. split; [done|]. intros ->. simpl in *; lia.
  - apply orb_false_iff in E as [H1%bool_decide_eq_false H2%bool_decide_eq_false]. apply dec_stable in H1. simpl.
    rewrite after_live, Hm, H1 by done. rewrite <- app_assoc. split; [done|]. split; [unfold wf; lia|].
    repeat split; [done..|]. rewrite length_app. simpl. lia.
Qed.

(** A byte that does not go on with the keys. *)
Lemma diverge_spec size out b r0 r : dk_match r < length (detachKey r) -> dk_pending r = [] -> dk_detached r = false -> length out < size ->
  detachKey r = detachKey r0 -> length (unread r) < length (unread r0) -> detachKey r !! dk_match r <> Some b ->
  let f := if decide (0 < dk_match r) then
             if decide (head (detachKey r) = Some b) then let '(o, m', d) := forward (detachKey r) 1 (unread r) in (take (dk_match r) (detachKey r) ++ o, m', d)
             else let '(o, m', d) := forward (detachKey r) 0 (unread r) in (take (dk_match r) (detachKey r) ++ b :: o, m', d)
           else let '(o, m', d) := forward (detachKey r) 0 (unread r) in (b :: o, m', d) in
  step_ok size (out ++ (finish (detachKey r) (si_end (dk_stdin r)) f).1, (finish (detachKey r) (si_end (dk_stdin r)) f).2) r0
    (if decide (0 < dk_match r) then
      let '(out, r) := emit size out (take (dk_match r) (detachKey r)) (set_match 0 r) in
      if decide (b = key_first r) then
        let r := set_match 1 r in
        if bool_decide (dk_pending r <> []) || bool_decide (length out = size) then inl (out, None, r) else inr (out, r)
      else literal size out b r
    else literal size out b r).
Proof.
  intros Hm Hp Hd Hs Hk Hu Hb f. subst f. case_decide as H0.
  - destruct (emit_spec size out (take (dk_match r) (detachKey r)) (set_match 0 r)) as (out' & p' & -> & Hout & Hne & Hle & _ & Hfull);
      [done|done|intros Hx; apply (f_equal length) in Hx; rewrite length_take in Hx; simpl in Hx; lia|].
    destruct (decide (head (detachKey r) = Some b)) as [Hh|Hh].
    + rewrite decide_True by (unfold key_first; simpl; by rewrite Hh). rewrite finish_cons.
      change (finish _ _ (forward _ 1 _)) with (rest_from 1 r). cbv zeta.
      assert (Ha : after out' (set_match 1 (set_pending p' (set_match 0 r))) =
        (out ++ take (dk_match r) (detachKey r) ++ (rest_from 1 r).1, (rest_from 1 r).2)).
      { rewrite after_live by done. simpl. change (rest_from 1 (set_match _ _)) with (rest_from 1 r). by rewrite !app_assoc, Hout. }
      destruct (bool_decide _ || bool_decide _) eqn:E; simpl; rewrite Ha; (split; [done|]); (split; [unfold wf; simpl; lia|]); [done|].
      apply orb_false_iff in E as [H1%bool_decide_eq_false _]. apply dec_stable in H1. simpl in H1. done.
    + rewrite decide_False by (unfold key_first; simpl; destruct (detachKey r); simpl in *; [lia|congruence]).
      pose proof (literal_spec size out' b r0 (set_pending p' (set_match 0 r)) Hd eq_refl ltac:(simpl; lia) Hk Hu ltac:(lia) Hle Hfull) as Hlit.
      change (rest_from 0 (set_pending _ _)) with (rest_from 0 r) in Hlit. simpl in Hlit. rewrite (app_assoc out'), Hout, <- app_assoc in Hlit.
      destruct (forward (detachKey r) 0 (unread r)) as [[o m'] d] eqn:Ef.
      replace (finish _ _ (take _ _ ++ b :: o, m', d)) with (take (dk_match r) (detachKey r) ++ b :: (rest_from 0 r).1, (rest_from 0 r).2); [done|].
      unfold rest_from. rewrite Ef. destruct d; simpl; [done|]. by rewrite <- app_assoc.
  - change (b :: ?o) with ([b] ++ o).
    pose proof (literal_spec size out b r0 r Hd ltac:(lia) ltac:(lia) Hk Hu ltac:(lia) ltac:(lia)) as Hlit.
    rewrite Hp in Hlit. specialize (Hlit ltac:(done)). 
    replace (finish _ _ _) with (b :: (rest_from 0 r).1, (rest_from 0 r).2); [done|].
    unfold rest_from. destruct (forward (detachKey r) 0 (unread r)) as [[o m'] [d|]]; simpl; done.
Qed.

(** One byte of the loop. *)
Lemma read_one_spec size out r : wf r -> dk_pending r = [] -> dk_detached r = false -> length out < size ->
  step_ok size (after out r) r (read_one size out r).
Proof.
  intros Hw Hp Hd Hs. unfold wf in Hw. unfold read_one. pose proof (ReadByte_spec r) as Hr. destruct (ReadByte r) as [[b r1]|e].
  - destruct Hr as (Hu & Hk & Hm & Hp1 & Hd1 & He & _). rewrite Hk, Hm.
    assert (HF : forall j, finish (detachKey r) (si_end (dk_stdin r)) (forward (detachKey r) j (unread r1)) = rest_from j r1).
    { intros j. unfold rest_from. by rewrite Hk, He. }
    assert (Hlen : length (unread r1) < length (unread r)) by (rewrite Hu; simpl; lia).
    assert (Ht : after out r = (out ++ (finish (detachKey r) (si_end (dk_stdin r)) (forward (detachKey r) (dk_match r) (b :: unread r1))).1,
                               (finish (detachKey r) (si_end (dk_stdin r)) (forward (detachKey r) (dk_match r) (b :: unread r1))).2)).
    { unfold after. by rewrite to_come_live, Hp, Hu by done. }
    rewrite Ht. clear Ht. cbn [forward]. case_decide as Hb; [case_decide as Hl|].
    + simpl. unfold after, to_come, wf; simpl. rewrite Hk, Hp1, Hp, !app_nil_r. repeat split; lia.
    + pose proof (lookup_lt_Some _ _ _ Hb). rewrite HF. simpl. unfold wf. rewrite after_live by (simpl; congruence). simpl.
      rewrite Hk, Hp1, Hp. change (rest_from _ (set_match _ r1)) with (rest_from (S (dk_match r)) r1). repeat split; try done; try lia. by rewrite Hd1.
    + rewrite <- Hk, <- Hm, <- He. apply diverge_spec; congruence || lia.
  - destruct Hr as [Hu ->]. rewrite after_live by done. unfold rest_from. rewrite Hp, Hu. cbn [forward finish app fst snd].
    destruct (decide (0 < dk_match r)) as [H0|H0].
    + destruct (emit_spec size out (take (dk_match r) (detachKey r)) r) as (out' & p' & -> & Hout & Hne & _);
        [done|done|intros Hx; apply (f_equal length) in Hx; rewrite length_take in Hx; simpl in Hx; lia|].
      rewrite decide_False by done. simpl. rewrite after_live by done. unfold rest_from. simpl.
      change (unread (set_match _ _)) with (unread r). rewrite Hu. simpl. rewrite take_0, app_nil_r, Hout.
      split; [done|]. split; [unfold wf; simpl; lia|]. done.
    + assert (dk_match r = 0) as Hm by lia. rewrite Hm, take_0, app_nil_r. simpl. rewrite after_live by done. unfold rest_from. rewrite Hp, Hu, Hm.
      cbn [forward finish app fst snd]. rewrite take_0, !app_nil_r. split; [done|]. split; [unfold wf; lia|]. split; [done|].
      case_decide; [|done]. split; [done|]. rewrite to_come_live by done. simpl. by rewrite Hp, Hu, Hm.
Qed.

Lemma read_done_key t r1 r2 res : detachKey r1 = detachKey r2 -> read_done t r1 res -> read_done t r2 res.
Proof. intros Hk. destruct res as [[out e] r]. unfold read_done. by rewrite Hk. Qed.

(** The run of bytes that cannot begin the keys. *)
Lemma copy_run size out r : wf r -> dk_pending r = [] -> dk_detached r = false -> dk_match r = 0 -> length out < size ->
  until (key_first r) (dk_buffered r) <> [] ->
  let copied := take (size - length out) (until (key_first r) (dk_buffered r)) in
  after (out ++ copied) (discard (length copied) r) = after out r /\ length (unread (discard (length copied) r)) < length (unread r).
Proof.
  intros Hw Hp Hd Hm Hs Hrun copied. destruct (until_prefix (key_first r) (dk_buffered r)) as (l' & Hl' & Hf).
  set (run := until _ _) in *. assert (Hbuf : dk_buffered r = copied ++ drop (length copied) (dk_buffered r)).
  { assert (Hc : run = copied ++ drop (size - length out) run) by (unfold copied; by rewrite take_drop).
    clearbody copied. rewrite Hl', Hc. by rewrite <- app_assoc, drop_app_length. }
  assert (Hu : unread r = copied ++ unread (discard (length copied) r)).
  { unfold unread. rewrite Hbuf at 1. by rewrite <- app_assoc. }
  assert (Hc : Forall (fun x => x <> default 0%Z (head (detachKey r))) copied) by by apply Forall_take.
  split.
  - rewrite !after_live by done. simpl. rewrite Hp, Hm. unfold rest_from. simpl. rewrite Hu, forward_literal, finish_cons by (done || (intros Hx; unfold wf in Hw; rewrite Hx in Hw; simpl in Hw; lia)).
    simpl. by rewrite <- app_assoc.
  - rewrite Hu, length_app. assert (0 < length copied); [|lia]. unfold copied. rewrite length_take. destruct run; [done|]. simpl. lia.
Qed.

Lemma read_loop_spec size fuel out r : wf r -> dk_pending r = [] -> dk_detached r = false -> length out <= size -> 0 < size ->
  length (unread r) < fuel -> read_done (after out r) r (read_loop fuel size out r).
Proof.
  intros Hw Hp Hd Hl Hs. revert out r Hw Hp Hd Hl. induction fuel as [|fuel IH]; intros out r Hw Hp Hd Hl Hf; [lia|]. cbn [read_loop].
  case_decide as Hfull; [simpl; repeat split; [done..|intros ->; simpl in *; lia]|].
  destruct (bool_decide _ && _) eqn:Hstop; [apply andb_true_iff in Hstop as [Hne%bool_decide_eq_true _]; done|]. clear Hstop. cbv zeta.
  destruct (bool_decide (dk_match r = 0) && _) eqn:Hrun.
  - apply andb_true_iff in Hrun as [Hm%bool_decide_eq_true Hrun%bool_decide_eq_true].
    destruct (copy_run size out r Hw Hp Hd Hm ltac:(lia) Hrun) as [Ha Hlt]. rewrite <- Ha.
    eapply read_done_key; [|apply IH]; try done; [rewrite length_app, length_take; lia|lia].
  - pose proof (read_one_spec size out r Hw Hp Hd ltac:(lia)) as Hone. destruct (read_one size out r) as [res|[out' r']]; [done|].
    destruct Hone as (<- & Hw' & Hk & Hp' & Hd' & Hlt & Hle). eapply read_done_key; [done|]. apply IH; try done. lia.
Qed.

Lemma after_drained out p r : dk_pending r = out ++ p -> after out (set_pending p r) = to_come r.
Proof.
  intros Hp. unfold after, to_come. simpl. change (unread (set_pending p r)) with (unread r). destruct (dk_detached r); simpl; [by rewrite Hp|].
  destruct (finish _ _ _). simpl. by rewrite app_assoc, Hp.
Qed.

(** A read passes on the next bytes there are to pass on, or gives the error. *)
Lemma Read_spec size r : wf r -> 0 < size -> read_done (to_come r) r (Read size r).
Proof.
  intros Hw Hs. unfold Read. rewrite decide_False by lia. cbv zeta. case_decide as Hl.
  - rewrite length_take in Hl. rewrite length_take, Nat.min_l by lia. split; [apply after_drained; by rewrite take_drop|]. repeat split; [done|].
    intros He. apply (f_equal length) in He. rewrite length_take in He. simpl in He. lia.
  - rewrite length_take in Hl. rewrite take_ge by lia.
    assert (Ha : after (dk_pending r) (set_pending [] r) = to_come r) by (apply after_drained; by rewrite app_nil_r).
    destruct (dk_detached (set_pending [] r)) eqn:Hd; simpl in Hd.
    + simpl. rewrite Ha. unfold to_come. rewrite Hd. simpl. by rewrite Hd.
    + rewrite <- Ha. eapply read_done_key; [|apply read_loop_spec]; try done; lia.
Qed.

(** Reads with buffers of the given sizes, up to the first error. *)
Fixpoint reads (sizes : list nat) (r : detachKeyReader) : list Z * option readErr :=
  match sizes with
  | [] => ([], None)
  | size :: sizes =>
    match Read size r with
    | (out, Some e, _) => (out, Some e)
    | (out, None, r) => let '(rest, e) := reads sizes r in (out ++ rest, e)
    end
  end.

Lemma reads_spec sizes r : wf r -> Forall (fun n => 0 < n) sizes ->
  let '(out, e) := reads sizes r in
  match e with
  | Some x => to_come r = (out, x)
  | None => length sizes <= length (to_come r).1 /\ exists l, (to_come r).1 = out ++ l
  end.
Proof.
  intros Hw Hs. revert r Hw. induction Hs as [|size sizes Hn Hs IH]; intros r Hw; cbn [reads]; [split; [simpl; lia|by eexists]|].
  pose proof (Read_spec size r Hw Hn) as Hr. destruct (Read size r) as [[out [x|]] r']; destruct Hr as (Ht & Hw' & _ & He).
  - destruct He as [He Hn']. rewrite <- Ht in *. unfold after in *. simpl in He. rewrite Hn', app_nil_r, He. done.
  - specialize (IH r' Hw'). destruct (reads sizes r') as [rest [x|]].
    + rewrite <- Ht. unfold after. by rewrite IH.
    + destruct IH as [Hl [l Hl']]. rewrite <- Ht. unfold after. simpl. rewrite length_app. split; [|exists l; by rewrite Hl', app_assoc].
      destruct out; [done|]. simpl. lia.
Qed.

(** ** What the reader promises *)

Definition typed (s : stdin) : list Z := concat (map (fun c => c.1 :: c.2) (si_reads s)).

(** C31: the reader passes on what is typed.  However the bytes arrive and whatever buffers
    it is read with, enough reads end in the error of standard input with every byte passed
    on in order, or in a detach, with every byte before the keys passed on, and no byte of
    the keys.  Keys whose first byte does not come again in them are found the first time
    they are typed. *)
Theorem typed_until_detach key s r sizes :
  newDetachKeyReader s key = inr r -> Forall (fun n => 0 < n) sizes -> length (typed s) < length sizes ->
  exists out e, reads sizes r = (out, Some e) /\
    ((e = errDetach /\ (exists rest, typed s = out ++ key ++ rest) /\ (self_free key -> ~ occurs key (out ++ removelast key))) \/
     (e = si_end s /\ out = typed s /\ (self_free key -> ~ occurs key (typed s)))).
Proof.
  unfold newDetachKeyReader. case_decide as Hk; [done|]. intros [= <-] Hs Hlen.
  assert (Hpos : 0 < length key) by (destruct key; [done|simpl; lia]).
  pose proof (reads_spec sizes (MkReader [] s key 0 [] false) Hpos Hs) as Hr. destruct (reads _ _) as [out e].
  unfold to_come in Hr. cbn [dk_detached detachKey dk_match dk_stdin dk_pending] in Hr.
  change (unread _) with (typed s) in Hr. pose proof (forward_bytes key 0 (typed s) ltac:(lia)) as Hb.
  destruct (forward key 0 (typed s)) as [[o m] [d|]] eqn:Hf; cbn [finish fst snd app] in Hr; cbn [take app] in Hb.
  - destruct e as [e|]; [|exfalso; destruct Hr as [Hr _]; simpl in Hr; apply (f_equal length) in Hb; rewrite take_0, length_app in Hb; simpl in Hb; lia].
    injection Hr as -> <-. exists out, errDetach. split; [done|]. left. split; [done|]. rewrite take_0 in Hb. split; [by exists d|].
    intros (k & rest & -> & Hfree). destruct (forward_detach _ _ _ _ _ _ Hpos Hf) as (l1 & b & _ & Hf1 & _).
    pose proof (forward_bytes (k :: rest) 0 l1 ltac:(lia)) as Hb1. rewrite Hf1 in Hb1. destruct Hb1 as [Hb1 _].
    destruct (forward_misses_none _ _ _ _ _ _ Hfree Hpos Hf1) as [_ Hn]. rewrite removelast_firstn_len, Nat.sub_1_r in *.
    change firstn with (@take Z) in *. rewrite <- Nat.sub_1_r in *. by rewrite Hb1.
  - destruct Hb as [Hb _]. rewrite take_0 in Hb. simpl in Hb. rewrite Hb in Hr.
    destruct e as [e|]; [|exfalso; destruct Hr as [Hr _]; simpl in Hr; lia]. injection Hr as <- <-.
    exists (typed s), (si_end s). split; [done|]. right. split; [done|]. split; [done|]. intros (k & rest & -> & Hfree).
    destruct (forward_misses_none _ _ _ _ _ _ Hfree Hpos Hf) as [_ Hn]. done.
Qed.

(** Keys whose first byte comes again in them can be typed and missed: after a part of them
    that diverges, the reader only looks at the last byte for a new start. *)
Lemma overlapping_keys_missed :
  let s := MkStdin [(97%Z, [97; 97; 98]%Z)] StdinEOF in
  let key := [97; 97; 98]%Z in
  occurs key (typed s) /\
  match newDetachKeyReader s key with inr r => reads [64; 64] r = (typed s, Some StdinEOF) | inl _ => False end.
Proof. split; [by exists [97%Z], []|vm_compute; reflexivity]. Qed.

(** A separator at the end, or two in a row, panics. *)
Lemma empty_detach_key_panics : parseDetachKeys id (bytes_of "ctrl-p,") = Err SliceOutOfRange.
Proof. reflexivity. Qed.

(** The keys after parsing are lower-cased, literal ones too. *)
Lemma literal_keys_lowered (ToLower : list Z -> list Z) :
  ToLower [81%Z] = [113%Z] -> parseDetachKeys ToLower [81%Z] = Ok [113%Z].
Proof. intros H. unfold parseDetachKeys. simpl. by rewrite H. Qed.

Lemma default_keys_found : exists key, parseDetachKeys id DefaultDetachKeys = Ok key /\ self_free key.
Proof. eexists. split; [reflexivity|]. exists 16%Z, [17%Z]. split; [reflexivity|]. intros H%list_elem_of_singleton. lia. Qed.

Lemma typed_until_detach_witness :
  let s := MkStdin [(104%Z, [105; 16]%Z); (112%Z, []); (16%Z, [17; 120]%Z)] StdinEOF in
  exists r, newDetachKeyReader s [16; 17]%Z = inr r /\
    reads (replicate 8 2) r = ([104; 105; 16; 112]%Z, Some errDetach) /\
    ~ occurs [16; 17]%Z [104; 105; 16; 112; 16]%Z.
Proof.
  eexists. split; [reflexivity|].
  destruct (typed_until_detach [16; 17]%Z (MkStdin [(104%Z, [105; 16]%Z); (112%Z, []); (16%Z, [17; 120]%Z)] StdinEOF) _ (replicate 8 2) eq_refl)
    as (out & e & Hr & H); [by repeat constructor; lia|vm_compute; lia|].
  assert (Hv : reads (replicate 8 2) (MkReader [] (MkStdin [(104%Z, [105; 16]%Z); (112%Z, []); (16%Z, [17; 120]%Z)] StdinEOF) [16; 17]%Z 0 [] false)
    = ([104; 105; 16; 112]%Z, Some errDetach)) by (vm_compute; reflexivity).
  split; [exact Hv|]. rewrite Hv in Hr. injection Hr as <- <-. destruct H as [(_ & _ & H)|(H & _)]; [|discriminate H].
  apply H. exists 16%Z, [17%Z]. split; [reflexivity|]. intros Hin%list_elem_of_singleton. lia.
Defined.

(** ** The pump and the prompt *)

(** What a source gives in the end, and the error. *)
Definition passed (r : source) : list Z * readErr :=
  match r with inl s => (typed s, si_end s) | inr k => to_come k end.

Definition source_wf (r : source) : Prop := match r with inl _ => True | inr k => wf k end.

Lemma source_read_spec size r : source_wf r -> 0 < size ->
  let '(out, e, r') := source_read size r in
  (out ++ (passed r').1, (passed r').2) = passed r /\ source_wf r' /\
  match e with None => out <> [] | Some x => (passed r).2 = x /\ (passed r').1 = [] end.
Proof.
  intros Hw Hs. destruct r as [[rs en]|k]; simpl.
  - unfold stdin_read. simpl. destruct rs as [|[b bs] rs]; [by repeat split|]. destruct size as [|size]; [lia|]. simpl.
    unfold typed. simpl. split; [|by split]. f_equal. rewrite <- (take_drop size bs) at 3. destruct (drop size bs) as [|c cs]; simpl; by rewrite <- ?app_assoc, ?app_nil_r.
  - pose proof (Read_spec size k Hw Hs) as H. destruct (Read size k) as [[out e] k']. destruct H as (Ht & Hw' & _ & He).
    simpl. split; [exact Ht|]. by split.
Qed.

Lemma new_source key s : source_wf (newDetachKeyReader s key) /\ length (passed (newDetachKeyReader s key)).1 <= length (typed s).
Proof.
  unfold newDetachKeyReader. case_decide as Hk; [done|]. split; [simpl; unfold wf; simpl; destruct key; [done|simpl; lia]|].
  simpl. unfold to_come. cbn [dk_detached detachKey dk_match dk_stdin dk_pending]. change (unread _) with (typed s).
  pose proof (forward_bytes key 0 (typed s) ltac:(lia)) as Hb. destruct (forward key 0 (typed s)) as [[o m] [d|]]; simpl in *.
  - rewrite <- Hb, !length_app. lia.
  - destruct Hb as [Hb _]. by rewrite Hb.
Qed.

Definition restarts (l : list Z) : Prop := 114%Z ∈ l \/ 82%Z ∈ l.

Definition prompt_end (e : readErr) : result stickyErr PromptResult :=
  match e with errDetach | StdinEOF | StdinClosed => Ok PromptDetach | e => Err (PromptRead e) end.

Lemma prompt_scan_spec fuel r : source_wf r -> length (passed r).1 < fuel ->
  prompt_scan fuel r = if decide (restarts (passed r).1) then Ok PromptRestart else prompt_end (passed r).2.
Proof.
  revert r. induction fuel as [|fuel IH]; intros r Hw Hf; [lia|]. cbn [prompt_scan].
  pose proof (source_read_spec 64 r Hw ltac:(lia)) as Hr. destruct (source_read 64 r) as [[out e] r']. destruct Hr as (Ht & Hw' & He).
  rewrite <- Ht in *. cbn [fst snd] in *. destruct (decide (restarts out)) as [Ho|Ho].
  - rewrite bool_decide_true by done. rewrite decide_True; [done|]. destruct Ho; [left|right]; apply elem_of_app; by left.
  - rewrite bool_decide_false by done. destruct e as [e|].
    + destruct He as [<- Hn]. rewrite Hn, app_nil_r. rewrite decide_False by done. by destruct (passed r').2.
    + rewrite IH; [|done|rewrite length_app in Hf; destruct out; [done|simpl in Hf; lia]].
      destruct (decide (restarts (passed r').1)) as [H|H]; [rewrite decide_True|rewrite decide_False]; try done.
      * destruct H; [left|right]; apply elem_of_app; by right.
      * intros [[?|?]%elem_of_app|[?|?]%elem_of_app]; [apply Ho; by left|apply H; by left|apply Ho; by right|apply H; by right].
Qed.

(** The prompt answers what was typed before the keys: a restart when an [r] is in it. *)
Theorem prompt_answer_exact s key :
  prompt_answer s key = if decide (restarts (passed (newDetachKeyReader s key)).1) then Ok PromptRestart
                        else prompt_end (passed (newDetachKeyReader s key)).2.
Proof. destruct (new_source key s) as [Hw Hl]. apply prompt_scan_spec; [done|]. unfold typed in Hl. lia. Qed.

(** What was sent, in order. *)
Definition sent (tr : list attact) : list Z :=
  concat (omap (fun a => match a with Act (SendStdin d) _ => Some d | _ => None end) tr).

Definition sent_ok (a : attact) : Prop :=
  match a with Act e x => match e in attE X return X -> Prop with SendStdin _ => fun x => x = None | _ => fun _ => False end x end.

Lemma sent_app t1 t2 : sent (t1 ++ t2) = sent t1 ++ sent t2.
Proof. unfold sent. by rewrite omap_app, concat_app. Qed.

Lemma pump_loop_spec fuel r tr e : source_wf r -> length (passed r).1 < fuel -> run (pump_loop fuel r) tr e ->
  (exists d x t, tr = t ++ [Act (SendStdin d) (Some x)] /\ e = Some x /\ exists l, (passed r).1 = sent tr ++ l) \/
  (Forall sent_ok tr /\ sent tr = (passed r).1 /\ e = match (passed r).2 with StdinEOF => None | x => Some (PumpErr x) end).
Proof.
  revert r tr e. induction fuel as [|fuel IH]; intros r tr e Hw Hf H; [lia|]. cbn [pump_loop] in H.
  pose proof (source_read_spec (32 * 1024) r Hw ltac:(lia)) as Hr. destruct (source_read (32 * 1024) r) as [[out re] r']. destruct Hr as (Ht & Hw' & He).
  rewrite <- Ht in *. cbn [fst snd] in *. clear Ht. inv_run H as a t1 H1.
  assert (Ha : exists x, a = x /\ (Forall sent_ok t1 /\ sent t1 = out /\ x = None \/ exists y, x = Some y /\ t1 = [Act (SendStdin out) (Some y)])).
  { exists a. split; [done|]. case_decide as Ho.
    - apply run_ret in H1 as [-> ->]. subst out. left. by repeat constructor.
    - apply run_call in H1 as ->. destruct a as [y|]; [right; by exists y|]. left. split; [by repeat constructor|]. unfold sent. simpl. by rewrite app_nil_r. }
  destruct Ha as (x & -> & [(Hok & Hs & ->)|(y & -> & ->)]).
  - destruct re as [re|].
    + destruct He as [He Hn]. rewrite He, Hn, app_nil_r. right. destruct re; apply run_ret in H as [-> ->]; by rewrite app_nil_r.
    + apply IH in H; [|done|rewrite length_app in Hf; destruct out; [done|simpl in Hf; lia]].
      destruct H as [(d & z & t' & Htr & -> & l & Hl)|(Hok' & Hs' & ->)]; subst.
      * left. exists d, z, (t1 ++ t'). rewrite app_assoc. split; [done|]. split; [done|]. exists l. rewrite <- app_assoc, sent_app, Hl, <- app_assoc. done.
      * right. split; [by apply Forall_app_2|]. split; [by rewrite sent_app, Hs'|done].
  - apply run_ret in H as [-> ->]. left. exists out, y, []. split; [done|]. split; [done|]. exists (passed r').1. unfold sent. simpl. by rewrite app_nil_r.
Qed.

(** The pump sends what was typed up to the keys, piece by piece, until a send fails or the
    input ends; the end of the input alone does not end the session. *)
Theorem pump_sends_typed s key tr e : run (pumpStdinToStream s key) tr e ->
  let p := passed (newDetachKeyReader s key) in
  (exists d x t, tr = t ++ [Act (SendStdin d) (Some x)] /\ e = Some x /\ exists l, p.1 = sent tr ++ l) \/
  (Forall sent_ok tr /\ sent tr = p.1 /\ e = match p.2 with StdinEOF => None | x => Some (PumpErr x) end).
Proof.
  intros H p. destruct (new_source key s) as [Hw Hl]. unfold pumpStdinToStream in H. apply pump_loop_spec in H; [done|done|].
  unfold typed in Hl. lia.
Qed.

(** ** Signals *)

Definition is_stop (sig : Z) : Prop := sig = SIGINT \/ sig = SIGTERM.

Definition three_in_a_row (l : list Z) : Prop := exists a t c, l = a ++ t ++ c /\ length t = 3 /\ Forall is_stop t.

Lemma three_skip p sig l : length p < 3 -> ~ is_stop sig -> three_in_a_row (p ++ sig :: l) <-> three_in_a_row l.
Proof.
  intros Hp Hs. assert (Hhead : forall k t c, length k < length t -> Forall is_stop t -> t ++ c = k ++ sig :: l -> False).
  { intros k t c Hk Ht H. apply app_eq_inv in H as [(k2 & -> & H)|(k2 & -> & _)]; [|rewrite length_app in Hk; lia].
    apply Forall_app in Ht as [_ Ht]. destruct k2 as [|x k2]; [rewrite app_nil_r in Hk; lia|]. injection H as <- _. by inversion Ht. }
  split.
  - intros (a & t & c & H & Hl & Ht). apply app_eq_inv in H as [(k & -> & H)|(k & -> & H)].
    + exfalso. eapply (Hhead k t c); [|done..]. rewrite length_app in Hp. lia.
    + destruct k as [|x k]; [exfalso; eapply (Hhead [] t c); [simpl; lia|done..]|]. injection H as <- ->. by exists k, t, c.
  - intros (a & t & c & -> & Hl & Ht). exists (p ++ sig :: a), t, c. by rewrite <- app_assoc.
Qed.

Lemma signals_spec p sigs tr b : length p < 3 -> Forall is_stop p -> run (handleAttachSignals (length p) sigs) tr b ->
  b = true <-> three_in_a_row (p ++ omap id sigs).
Proof.
  intros Hn Hp H. revert p tr Hn Hp H. induction sigs as [|[sig|] sigs IH]; intros p tr Hn Hp H; cbn [handleAttachSignals omap list_omap id] in H |- *.
  - apply run_ret in H as [_ ->]. split; [done|]. intros (a & t & c & Ht & Hl & _). apply (f_equal length) in Ht.
    rewrite !length_app in Ht. simpl in Ht. lia.
  - assert (Hreset : forall t, ~ is_stop sig -> run (handleAttachSignals 0 sigs) t b -> b = true <-> three_in_a_row (p ++ sig :: omap id sigs)).
    { intros t Hs Hr. rewrite three_skip by done. apply (IH [] t); [simpl; lia|constructor|exact Hr]. }
    case_decide as Hw; inv_run H as u t1 H1.
    + eapply Hreset; [|exact H]. intros [->| ->]; done.
    + destruct (bool_decide _ || _) eqn:Hs.
      * assert (Hstop : is_stop sig) by (apply orb_true_iff in Hs as [Hx%bool_decide_eq_true|Hx%bool_decide_eq_true]; [by left|by right]).
        change (sig :: omap id sigs) with ([sig] ++ omap id sigs). rewrite app_assoc.
        assert (Hp' : Forall is_stop (p ++ [sig])) by (apply Forall_app_2; [done|]; by apply Forall_singleton). case_decide as H3.
        -- apply run_ret in H as [_ ->]. split; [|done]. intros _. exists [], (p ++ [sig]), (omap id sigs). split; [done|].
           split; [rewrite length_app; simpl; lia|done].
        -- eapply (IH (p ++ [sig])); [rewrite length_app; simpl; lia|done|]. rewrite length_app, Nat.add_1_r. exact H.
      * apply orb_false_iff in Hs as [H1'%bool_decide_eq_false H2%bool_decide_eq_false]. eapply Hreset; [|exact H]. intros [?|?]; done.
  - by eapply IH.
Qed.

(** The exit is forced by three interrupts or terminations in a row, and by nothing less. *)
Theorem forced_exit_exact sigs tr b : run (handleAttachSignals 0 sigs) tr b -> b = true <-> three_in_a_row (omap id sigs).
Proof. apply (signals_spec []); [simpl; lia|constructor]. Qed.

(** ** A session *)

Definition is_restore (a : attact) : Prop := match a with Act RestoreTermios _ => True | _ => False end.
Definition is_raw (a : attact) : Prop :=
  match a with Act e x => match e in attE X return X -> Prop with MakeRaw => fun x => x = true | _ => fun _ => False end x end.

(** A call that neither enters nor leaves raw mode. *)
Definition plain (a : attact) : Prop := ~ is_raw a /\ ~ is_restore a.

Ltac plain_acts :=
  repeat first [apply Forall_nil_2 | apply Forall_app_2 | assumption
               | apply Forall_cons_2; [split; (let f := fresh in intros f; first [discriminate f | destruct f])|] ].

Lemma setup_run noStdin tr raw : run (setupRawTerminal noStdin) tr raw ->
  exists t, Forall plain t /\ tr = t ++ if (raw : bool) then [Act MakeRaw true] else [].
Proof.
  unfold setupRawTerminal. intros H. destruct noStdin; [apply run_ret in H as [-> ->]; exists []; split; [constructor|done]|].
  inv_run H as t t1 H1. destruct t; [|apply run_ret in H as [-> ->]; exists [Act StdinIsTerminal false]; split; [plain_acts|done]].
  apply run_call in H as ->. destruct raw; [exists [Act StdinIsTerminal true]|exists [Act StdinIsTerminal true; Act MakeRaw false]]; split; try done; plain_acts.
Qed.

Lemma restore_run raw tr : run (restoreTerminal raw) tr tt ->
  if (raw : bool) then exists t, tr = Act RestoreTermios tt :: t /\ Forall plain t else tr = [].
Proof.
  unfold restoreTerminal. intros H. destruct raw; [|by apply run_ret in H as [-> _]].
  inv_run H as [] t1 H1. inv_run H as t t2 H2. eexists. split; [done|].
  destruct t; [apply run_call in H as ->|apply run_ret in H as [-> _]]; plain_acts.
Qed.

Lemma resize_plain tr : run sendResize tr tt -> Forall plain tr.
Proof.
  unfold sendResize. intros H. inv_run H as [rows cols] t1 H1. destruct (_ && _); [apply run_call in H as ->|apply run_ret in H as [-> _]]; plain_acts.
Qed.

(** Raw mode entered and left once, with the goroutines joined in between. *)
Definition bracketed (tr : list attact) : Prop :=
  exists t1 t2 t3, tr = t1 ++ Act MakeRaw true :: t2 ++ Act RestoreTermios tt :: t3 /\
    Forall plain t1 /\ Forall plain t2 /\ Forall plain t3 /\ Act JoinGoroutines tt ∈ t2 /\ Act CloseSession tt ∈ t2.

Lemma attached_run opts stdinPipe tr r : run (attached opts stdinPipe) tr r ->
  (Forall plain tr \/ bracketed tr) /\ Act CloseSession tt ∈ tr /\ exists ev, Act AwaitFirst ev ∈ tr /\ r = exit_of ev.
Proof.
  unfold attached. intros H. inv_run H as raw t1 H1. apply setup_run in H1 as (t0 & Ht0 & ->).
  inv_run H as [] t2 H2. apply resize_plain in H2. inv_run H as remove t3 H3.
  assert (Hrm : Forall plain t3 /\ forall t, run remove t tt -> Forall plain t).
  { destruct (SigProxy opts); [|apply run_ret in H3 as [-> ->]; split; [constructor|]; intros t Ht; by apply run_ret in Ht as [-> _]].
    inv_run H3 as p t4 H4. assert (Ht4 : Forall plain t4).
    { destruct (has_hooks opts); [apply run_call in H4 as ->|apply run_ret in H4 as [-> _]]; plain_acts. }
    destruct p; [apply run_ret in H3 as [-> ->]|inv_run H3 as [] t5 H5; apply run_ret in H3 as [-> ->]]; (split; [plain_acts|]);
      intros t Ht; apply run_call in Ht as ->; plain_acts. }
  destruct Hrm as [Ht3 Hrm]. inv_run H as [] t4 H4. inv_run H as ev t5 H5. inv_run H as [] t6 H6. inv_run H as [] t7 H7.
  inv_run H as [] t8 H8. assert (Ht8 : Forall plain t8) by (destruct stdinPipe; [apply run_call in H8 as ->|apply run_ret in H8 as [-> _]]; plain_acts).
  inv_run H as [] t9 H9. inv_run H as [] t10 H10. inv_run H as [] t11 H11. inv_run H as [] t12 H12. apply restore_run in H12.
  inv_run H as [] t13 H13. apply Hrm in H13. apply run_ret in H as [-> ->].
  split; [|split; [set_solver|exists ev; split; [set_solver|done]]].
  destruct raw; [right|left; subst t12; plain_acts]. destruct H12 as (t & -> & Ht).
  exists t0, (t2 ++ t3 ++ [Act (StartPumps (SigProxy opts) stdinPipe) tt; Act AwaitFirst ev; Act CancelCtx tt; Act CloseSession tt] ++ t8 ++
              [Act CloseStdout tt; Act JoinGoroutines tt; Act CloseSend tt]), (t ++ t13 ++ []).
  split; [by rewrite <- !app_assoc|]. split; [done|]. split; [plain_acts|]. split; [plain_acts|]. set_solver.
Qed.

Lemma bracketed_app t1 tr t2 : Forall plain t1 -> Forall plain t2 -> Forall plain tr \/ bracketed tr ->
  Forall plain (t1 ++ tr ++ t2) \/ bracketed (t1 ++ tr ++ t2).
Proof.
  intros H1 H2 [H|(a & b & c & -> & Ha & Hb & Hc & Hj & Hs)]; [left; plain_acts|right].
  exists (t1 ++ a), b, (c ++ t2). split; [by rewrite <- !app_assoc; simpl; rewrite <- !app_assoc|]. repeat split; try done; plain_acts.
Qed.

Section Session.
Context (ToLower : list Z -> list Z).

Lemma Attach_run opts tr r : run (Attach ToLower opts) tr r ->
  (Forall plain tr \/ bracketed tr) /\
  ((Act CloseSession tt ∈ tr /\ exists ev, Act AwaitFirst ev ∈ tr /\ r = exit_of ev) \/
   match r with Some AttachInvalid | Some (BadDetachKeys _) | Some (DeriveFailed _) => True | _ => False end).
Proof.
  unfold Attach. intros H. destruct (has_files opts); [|apply run_ret in H as [-> ->]; split; [left; constructor|by right]].
  destruct (parseDetachKeys _ _); [|apply run_ret in H as [-> ->]; split; [left; constructor|by right]]. cbn [negb] in H.
  inv_run H as [] t1 H1. assert (Ht1 : Forall plain t1).
  { unfold chdirWorkDir in H1. case_decide; [apply run_ret in H1 as [-> _]|apply run_call in H1 as ->]; plain_acts. }
  inv_run H as out t2 H2. destruct out as [| |t].
  2,3: inv_run H as [] t3 H3; apply run_ret in H as [-> ->]; split; [left; plain_acts|by right].
  inv_run H as p t3 H3. assert (Ht3 : Forall plain t3) by (destruct (NoStdin opts); [apply run_ret in H3 as [-> _]|apply run_call in H3 as ->]; plain_acts).
  destruct p as [| |t].
  - inv_run H as x t4 H4. apply attached_run in H4 as (Hb & Hc & Hev). inv_run H as [] t5 H5. inv_run H as [] t6 H6. inv_run H as [] t7 H7.
    apply run_ret in H as [-> ->]. split; [|left; split; [set_solver|destruct Hev as (ev & ? & ?); exists ev; split; [set_solver|done]]].
    rewrite (app_assoc t1), (app_assoc _ t3). apply bracketed_app; [plain_acts..|done].
  - inv_run H as x t4 H4. apply attached_run in H4 as (Hb & Hc & Hev). inv_run H as [] t5 H5. inv_run H as [] t6 H6.
    apply run_ret in H as [-> ->]. split; [|left; split; [set_solver|destruct Hev as (ev & ? & ?); exists ev; split; [set_solver|done]]].
    rewrite (app_assoc t1), (app_assoc _ t3). apply bracketed_app; [plain_acts..|done].
  - inv_run H as [] t4 H4. inv_run H as [] t5 H5. apply run_ret in H as [-> ->]. split; [left; plain_acts|by right].
Qed.

(** The terminal is left as it was: raw mode, when it is entered, is left once, after the
    session was closed and every goroutine was joined, whatever ended the session. *)
Theorem attach_restores_terminal opts tr r : run (Attach ToLower opts) tr r -> Forall plain tr \/ bracketed tr.
Proof. intros H. by apply Attach_run in H as [H _]. Qed.

(** ** Staying at a command *)

(** What ended a session that stays: the user at the prompt, at the keys, or by force; the
    context; standard input; or a hook or a prompt that failed. *)
Definition user_detached (opts : AttachOptions) (tr : list attact) : Prop :=
  Act AwaitFirst (FirstErr (PumpErr errDetach)) ∈ tr \/
  Act DeriveStdin DeriveEOF ∈ tr \/
  exists input key, Act PromptInput input ∈ tr /\ parseDetachKeys ToLower (ao_DetachKeys opts) = Ok key /\ prompt_answer input key = Ok PromptDetach.

Definition cancelled (tr : list attact) : Prop :=
  Act CtxCancelled true ∈ tr \/ Act CtxFirst true ∈ tr \/ Act AwaitFirst CtxDone ∈ tr.

Definition ended_by (opts : AttachOptions) (tr : list attact) (e : option stickyErr) : Prop :=
  match e with
  | None => user_detached opts tr \/ cancelled tr
  | Some (StickyAttach e) => e = ErrForceExit \/ cancelled tr
  | Some PromptCtx => cancelled tr
  | Some (StateFailed t) => Act HookState (Err t) ∈ tr
  | Some StickyInvalid => False
  | Some (PromptBadKeys e) => parseDetachKeys ToLower (ao_DetachKeys opts) = Err e
  | Some (PromptDerive t) => Act DeriveStdin (DeriveErr t) ∈ tr
  | Some (PromptRead e) => exists input key, Act PromptInput input ∈ tr /\ prompt_answer input key = Err (PromptRead e)
  end.

Lemma promptWait_run opts status tr r : run (promptWait ToLower opts status) tr r ->
  match r with Ok PromptRestart => True | Ok PromptDetach => user_detached opts tr | Err e => ended_by opts tr (Some e) end.
Proof.
  unfold promptWait. intros H. destruct (parseDetachKeys _ _) as [key|e] eqn:Hk; [|apply run_ret in H as [-> ->]; exact Hk].
  inv_run H as p t1 H1. destruct p as [| |t]; [|apply run_ret in H as [-> ->]; right; left; set_solver|].
  - inv_run H as raw t2 H2. inv_run H as [] t3 H3. inv_run H as input t4 H4. inv_run H as c t5 H5.
    inv_run H as u t6 H6. inv_run H as u' t7 H7. inv_run H as [] t8 H8. apply run_ret in H as [-> ->].
    destruct c; [right; left; set_solver|]. destruct (prompt_answer input key) as [[]|e] eqn:Ha; [done|right; right; exists input, key; split; [set_solver|done]|].
    pose proof (prompt_answer_exact input key) as Hx. rewrite Ha in Hx. case_decide; [done|]. unfold prompt_end in Hx.
    destruct (passed _).2; try done; injection Hx as ->; exists input, key; (split; [set_solver|done]).
  - inv_run H as c t2 H2. apply run_ret in H as [-> ->]. destruct c; [left; set_solver|]. simpl. set_solver.
Qed.

Lemma at_prompt_run opts status tr e : run (at_prompt ToLower opts status) tr (Some e) -> ended_by opts tr e.
Proof.
  unfold at_prompt, waitAtPrompt. intros H. inv_run H as r t1 H1. apply run_ret in H as [-> H]. rewrite app_nil_r.
  inv_run H1 as w t2 H2. apply promptWait_run in H2. destruct w as [[]|er].
  - inv_run H1 as x t3 H3. inv_run H1 as u t4 H4. apply run_ret in H1 as [_ ->]. done.
  - apply run_ret in H1 as [-> ->]. injection H as ->. rewrite app_nil_r. by left.
  - apply run_ret in H1 as [-> ->]. injection H as ->. by rewrite app_nil_r.
Qed.

Lemma ended_mono opts opts' tr tr' e : tr ⊆ tr' -> ao_DetachKeys opts = ao_DetachKeys opts' -> ended_by opts tr e -> ended_by opts' tr' e.
Proof.
  intros Hs Hk. assert (Hc : cancelled tr -> cancelled tr') by (unfold cancelled; set_solver).
  destruct e as [[ |t|e|t|e| |e]|]; simpl; rewrite <- ?Hk; try done.
  - apply Hs.
  - apply Hs.
  - intros (i & key & Hi & ?). exists i, key. split; [by apply Hs|done].
  - intros [?|?]; [by left|right; auto].
  - intros [Hu|?]; [left|right; auto]. destruct Hu as [?|[?|(i & key & Hi & ?)]]; [left; by apply Hs|right; left; by apply Hs|].
    right; right. exists i, key. rewrite <- Hk. split; [by apply Hs|done].
Qed.

Lemma sticky_round_run opts tr e : run (sticky_round ToLower opts) tr (Some e) -> ended_by opts tr e.
Proof.
  assert (Hp : forall t1 tr st, run (at_prompt ToLower opts st) tr (Some e) -> ended_by opts (t1 ++ tr) e).
  { intros t1 t st H%at_prompt_run. eapply ended_mono; [|done|exact H]. set_solver. }
  unfold sticky_round. intros H. inv_run H as s t1 H1. destruct s as [[[] status]|t]; [|by eapply Hp|apply run_ret in H as [-> H]; injection H as ->; left].
  inv_run H as o t2 H2. destruct o as [t|]; [rewrite app_assoc; by eapply Hp|].
  inv_run H as err t3 H3. apply Attach_run in H3 as [_ H3].
  assert (Hcont : forall tr', run (c ← call CtxCancelled; if (c : bool) then mret (Some (StickyAttach <$> err))
      else match err with Some e => at_prompt ToLower opts (AttachFailed e) | None => mret (Some None) end) tr' (Some e) ->
    (err = None -> user_detached opts t3 \/ cancelled t3) -> ended_by opts ([Act HookState (Ok (true, status))] ++ [Act HookOpenSession None] ++ t3 ++ tr') e).
  { intros tr' Hr Hn. inv_run Hr as c t4 H4. destruct c.
    - apply run_ret in Hr as [-> Hr]. injection Hr as ->. destruct err as [x|]; simpl; [right|right]; left; set_solver.
    - destruct err as [x|].
      + rewrite !app_assoc. by eapply Hp.
      + apply run_ret in Hr as [-> Hr]. injection Hr as ->. eapply (ended_mono opts opts t3); [set_solver|done|]. simpl. auto. }
  destruct err as [[]|]; try (apply Hcont; [exact H|done]).
  - by apply run_ret in H as [_ H].
  - apply run_ret in H as [-> H]. injection H as ->. by left.
  - apply Hcont; [exact H|]. intros _. destruct H3 as [(_ & ev & Hev & He)|[]]. destruct ev as [x| |]; simpl in He; [|done|right; right; by right].
    destruct x as [y| |]; [|done..]. destruct y; try done. left. by left.
Qed.

(** C32: a session that stays at its command ends only with its user or its context.  However
    often the command exits, the stream breaks, or a restart or an opening fails, it goes on;
    it ends when the detach keys are typed, in the session or at the prompt, when standard
    input or the context ends, by a forced exit, or when the state of the command or the
    prompt's input cannot be read or the detach keys do not parse. *)
Theorem sticky_ends_with_its_user n opts tr e : has_files opts = true ->
  run (AttachSticky ToLower n opts) tr (Some e) -> ended_by opts tr e.
Proof.
  intros Hf. unfold AttachSticky. rewrite Hf. cbn [negb]. intros H. inv_run H as [] t1 H1. clear H1.
  set (o := {| NoStdin := NoStdin opts |}) in H. assert (Hr : ended_by o t1' e).
  - revert t1' H. induction n as [|n IH]; intros tr H; cbn [sticky_rounds] in H; [by apply run_ret in H as [_ H]|].
    inv_run H as r t2 H2. destruct r as [x|].
    + apply run_ret in H as [-> H]. injection H as <-. rewrite app_nil_r. by apply sticky_round_run.
    + eapply ended_mono; [|done|by apply IH]. set_solver.
  - eapply ended_mono; [|reflexivity|exact Hr]. set_solver.
Qed.
End Session.

(** A command that exits, is restarted from the prompt, breaks the stream, and is left with
    the keys at the prompt. *)
Definition staying : AttachOptions := {|
  NoStdin := true; SigProxy := false; ao_DetachKeys := DefaultDetachKeys; ao_WorkDir := ""; has_hooks := false; has_files := true |}.

Definition scripted (X : Type) (e : attE X) (s : nat) : X * nat :=
  (match e in attE X return X with
   | DeriveStdout => Derived | DeriveStdin => Derived
   | StdinIsTerminal => true | StdoutIsTerminal => true | MakeRaw => true
   | TerminalSize => (24, 80)%Z
   | AwaitFirst => if decide (s = 0) then FirstErr RemoteEOF else FirstErr (Transport "reset")
   | SendStdin _ => None
   | HookState => Ok (negb (bool_decide (s = 1)), "exited")
   | HookOpenSession => None | HookRestart => None
   | CtxCancelled => false | CtxFirst => false
   | PromptInput => if decide (s = 1) then MkStdin [(114%Z, [])] StdinEOF else MkStdin [(16%Z, [17]%Z)] StdinEOF
   | PauseSignals => false
   | _ => tt
   end,
   match e with AwaitFirst => S s | HookRestart => S s | _ => s end).

Definition restarted (tr : list attact) : bool := existsb (fun a => match a with Act HookRestart _ => true | _ => false end) tr.

Lemma sticky_ends_with_its_user_witness :
  exists tr, run (AttachSticky id 4 staying) tr (Some None) /\ restarted tr = true /\ ended_by id staying tr None.
Proof.
  destruct (exec scripted (AttachSticky id 4 staying) 0) as [[[r tr] s]|] eqn:E; [|vm_compute in E; discriminate E].
  assert (Hr : r = Some None /\ restarted tr = true) by (vm_compute in E; injection E as <- <- <-; by split).
  destruct Hr as [-> Hx]. apply exec_run in E. exists tr. split; [exact E|]. split; [exact Hx|].
  exact (sticky_ends_with_its_user id 4 staying tr None eq_refl E).
Defined.

(** A session whose pipes cannot be had is not closed; the loop opens the next one. *)
Lemma broken_pipe_leaks_session :
  exists tr, run (Attach id staying) tr (Some (DeriveFailed "closed")) /\ ~ (Act CloseSession tt ∈ tr).
Proof.
  exists [Act DeriveStdout (DeriveErr "closed"); Act CancelCtx tt]. split.
  - unfold Attach. simpl. eexists _, _. split; [reflexivity|]. simpl. eexists tt, _. split; [reflexivity|]. done.
  - intros H. repeat (apply elem_of_cons in H as [H|H]; [discriminate H|]). by apply elem_of_nil in H.
Qed.
