(* ===== verification/Frame.v ===== *)
(** * Frame definitions

    [cmdman/frame]: the file that docks panes around the edges of a window ([spec.go]),
    its validation ([normalize.go]), the tree of panes it stands for ([carve.go],
    [component.go]) and where it is found ([discover.go]).  The file system and the YAML
    decoder are arguments; the warnings a validation logs are part of its result. *)

From S2P Require Import Config Prelude GoStr LogDriver Model ComposeSpec Normalize MuxCtl Select.

(** ** Data *)

(* src/cmdman/frame/spec.go:24-25 Edge *)
Definition Edge := string.
(* src/cmdman/frame/spec.go:28-28 EdgeTop *)
Definition EdgeTop : Edge := "top".
(* src/cmdman/frame/spec.go:29-29 EdgeBottom *)
Definition EdgeBottom : Edge := "bottom".
(* src/cmdman/frame/spec.go:30-30 EdgeLeft *)
Definition EdgeLeft : Edge := "left".
(* src/cmdman/frame/spec.go:31-31 EdgeRight *)
Definition EdgeRight : Edge := "right".

(* src/cmdman/frame/spec.go:38-38 ComponentSwitcher *)
Definition ComponentSwitcher : string := "switcher".
(* src/cmdman/frame/spec.go:42-45 BuiltinComponents *)
Definition BuiltinComponents : list string := [ComponentSwitcher].
(* src/cmdman/frame/spec.go:47-50 IsBuiltinComponent *)
Definition IsBuiltinComponent (name : string) : bool := bool_decide (name ∈ BuiltinComponents).

(* src/cmdman/frame/spec.go:86-94 Size *)
Record FrameSize := MkFrameSize { fs_N : Z; fs_Percent : bool }.

Definition no_size : FrameSize := MkFrameSize 0 false.

(* src/cmdman/frame/spec.go:96-101 Size.MuxSize *)
Definition MuxSize (s : FrameSize) : Size := MkSize (fs_N s) (negb (fs_Percent s)) (fs_Percent s).

(* src/cmdman/frame/spec.go:103-106 Size.String *)
Definition FrameSize_String (s : FrameSize) : string := Size_String (MuxSize s).

(** What a YAML node decodes to: an integer, or a string, or neither. *)
Inductive scalarNode := IntNode (n : Z) | StrNode (s : string) | OtherNode.

Inductive frameSizeErr := SizeNotPositiveCells (n : Z) | SizeNotScalar | SizeUnparsable (e : sizeErr).

(* src/cmdman/frame/spec.go:108-131 Size.UnmarshalYAML *)
Definition FrameSize_UnmarshalYAML (node : scalarNode) : result frameSizeErr FrameSize :=
  match node with
  | IntNode cells => if decide (cells <= 0)%Z then Err (SizeNotPositiveCells cells) else Ok (MkFrameSize cells false)
  | StrNode str => try parsed := lift_err SizeUnparsable (ParseSize str) in Ok (MkFrameSize (size_N parsed) (Percent parsed))
  | OtherNode => Err SizeNotScalar
  end.

(* src/cmdman/frame/spec.go:133-136 Size.MarshalYAML *)
Definition FrameSize_MarshalYAML (s : FrameSize) : scalarNode := StrNode (FrameSize_String s).

(** The keys that are not known are kept by name. *)
(* src/cmdman/frame/spec.go:63-84 RawEntry *)
Record RawEntry := {
  re_Edge : string;
  re_Size : FrameSize;
  re_Component : string;
  re_Command : list string;
  re_Managed : bool;
  re_Hooks : HookSet;
  re_Unknown : gset string;
}.

(* src/cmdman/frame/spec.go:54-61 RawSpec *)
Record RawFrame := { rf_Frame : list RawEntry; rf_Unknown : gset string }.

(** A nil map of hooks is an empty one. *)
(* src/cmdman/frame/spec.go:150-160 Entry *)
Record Entry := {
  en_Edge : Edge;
  en_Size : Size;
  en_Component : string;
  en_Command : list string;
  en_Managed : bool;
  en_Hooks : HookSet;
}.

(* src/cmdman/frame/spec.go:140-148 Spec *)
Record FrameSpec := { fr_Path : string; fr_Entries : list Entry }.

(** ** Validation *)

Inductive frameErr :=
| FrameNoEntries (path : string)
| FrameEntry (path : string) (i : nat) (e : frameErr)
| EdgeRequired
| UnknownEdge (edge : string)
| SizeRequired
| BothComponentAndCommand
| NeitherComponentNorCommand
| UnknownComponent (component : string)
| ManagedComponent
| FrameBadHooks (e : hookErr).

Inductive frameWarning :=
| UnknownTopField (path field : string)
| UnknownEntryField (path : string) (i : nat) (field : string)
| HooksIgnored (path : string) (i : nat).

(** What a step logs, and what it ends with. *)
Definition warned (A : Type) : Type := list frameWarning * result frameErr A.

(* src/cmdman/frame/normalize.go:15-23 warnUnknownFields *)
Definition warnUnknownFields (unknown : gset string) (msg : string -> frameWarning) : list frameWarning :=
  map msg (sort_strings (elements unknown)).

(* src/cmdman/frame/normalize.go:121-147 normalizeHooks *)
Definition normalizeHooks (path : string) (i : nat) (re : RawEntry) : warned HookSet :=
  if decide (re_Hooks re = ∅) then ([], Ok ∅)
  else if negb (re_Managed re) then ([HooksIgnored path i], Ok ∅)
  else ([], try _ := lift_err FrameBadHooks (HookSet_Validate (re_Hooks re)) in Ok (re_Hooks re)).

(** The checks of an entry before its hooks. *)
(* src/cmdman/frame/normalize.go:71-104 normalizeEntry *)
Definition check_entry (re : RawEntry) : result frameErr unit :=
  let hasComponent := negb (bool_decide (re_Component re = "")) in
  let hasCommand := negb (bool_decide (re_Command re = [])) in
  if bool_decide (re_Edge re = "") then Err EdgeRequired
  else if negb (bool_decide (re_Edge re ∈ [EdgeTop; EdgeBottom; EdgeLeft; EdgeRight])) then Err (UnknownEdge (re_Edge re))
  else if bool_decide (fs_N (re_Size re) = 0%Z) then Err SizeRequired
  else if hasComponent && hasCommand then Err BothComponentAndCommand
  else if negb hasComponent && negb hasCommand then Err NeitherComponentNorCommand
  else if hasComponent && negb (IsBuiltinComponent (re_Component re)) then Err (UnknownComponent (re_Component re))
  else if hasComponent && re_Managed re then Err ManagedComponent
  else Ok tt.

(* src/cmdman/frame/normalize.go:71-119 normalizeEntry *)
Definition normalizeEntry (path : string) (i : nat) (re : RawEntry) : warned Entry :=
  match check_entry re with
  | Err e => ([], Err e)
  | Ok _ =>
    let '(warnings, hooks) := normalizeHooks path i re in
    (warnings, try hooks := hooks in
               Ok {| en_Edge := re_Edge re; en_Size := MuxSize (re_Size re); en_Component := re_Component re;
                     en_Command := re_Command re; en_Managed := re_Managed re; en_Hooks := hooks |})
  end.

(* src/cmdman/frame/normalize.go:49-66 Normalize *)
Fixpoint normalize_entries (path : string) (i : nat) (raws : list RawEntry) : warned (list Entry) :=
  match raws with
  | [] => ([], Ok [])
  | re :: raws =>
    let unknown := warnUnknownFields (re_Unknown re) (UnknownEntryField path i) in
    let '(warnings, entry) := normalizeEntry path i re in
    match entry with
    | Err e => (unknown ++ warnings, Err (FrameEntry path i e))
    | Ok entry =>
      let '(more, entries) := normalize_entries path (S i) raws in
      (unknown ++ warnings ++ more, try entries := entries in Ok (entry :: entries))
    end
  end.

(* src/cmdman/frame/normalize.go:25-68 Normalize *)
Definition Frame_Normalize (path : string) (raw : RawFrame) : warned FrameSpec :=
  let unknown := warnUnknownFields (rf_Unknown raw) (UnknownTopField path) in
  if decide (rf_Frame raw = []) then (unknown, Err (FrameNoEntries path))
  else
    let '(warnings, entries) := normalize_entries path 0 (rf_Frame raw) in
    (unknown ++ warnings, try entries := entries in Ok {| fr_Path := path; fr_Entries := entries |}).

(** ** Carving *)

Inductive carveErr :=
| CarveEntry (i : nat) (e : carveErr)
| NeitherSet
| NoResolver (component : string)
| ResolverFailed (component : string) (e : carveErr)
| ResolverEmpty (component : string)
| NotBuiltin (component : string).

(** [None] is a nil resolver. *)
(* src/cmdman/frame/carve.go:12-15 ComponentArgv *)
Definition ComponentArgv : Type := option (string -> result carveErr (list string)).

(* src/cmdman/frame/component.go:8-31 WidgetArgv *)
Definition WidgetArgv (exe : string) (component : string) : result carveErr (list string) :=
  let exe := if decide (exe = "") then "cmdman" else exe in
  if negb (IsBuiltinComponent component) then Err (NotBuiltin component)
  else Ok [exe; "tui"; "widget"; component; "--no-quit"].

(* src/cmdman/frame/carve.go:17-20 restSize *)
Definition restSize : Size := MkSize 1 false false.

(* src/cmdman/frame/carve.go:22-25 EntryPaneName *)
Definition EntryPaneName (i : nat) : string := "frame-" +:+ Itoa (Z.of_nat i).

(* src/cmdman/frame/carve.go:87-105 entryArgv *)
Definition entryArgv (entry : Entry) (component : ComponentArgv) : result carveErr (list string) :=
  if decide (en_Component entry = "") then
    if decide (en_Command entry = []) then Err NeitherSet else Ok (en_Command entry)
  else match component with
       | None => Err (NoResolver (en_Component entry))
       | Some resolve =>
         try argv := lift_err (ResolverFailed (en_Component entry)) (resolve (en_Component entry)) in
         if decide (argv = []) then Err (ResolverEmpty (en_Component entry)) else Ok argv
       end.

(** The leaf of an entry. *)
(* src/cmdman/frame/carve.go:65-67 carve *)
Definition entry_pane (i : nat) (argv : list string) : PaneSpec := MkPane "" [] [] (EntryPaneName i) argv ∅ false "".

(* src/cmdman/frame/carve.go:69-84 carve *)
Definition dock (entry : Entry) (pane rest : PaneSpec) : PaneSpec :=
  let vertical := bool_decide (en_Edge entry = EdgeTop) || bool_decide (en_Edge entry = EdgeBottom) in
  let trailing := bool_decide (en_Edge entry = EdgeBottom) || bool_decide (en_Edge entry = EdgeRight) in
  let dir := if vertical then DirVertical else DirHorizontal in
  if trailing then MkPane dir [restSize; en_Size entry] [rest; pane] "" [] ∅ false ""
  else MkPane dir [en_Size entry; restSize] [pane; rest] "" [] ∅ false "".

(* src/cmdman/frame/carve.go:46-85 carve *)
Fixpoint carve (entries : list Entry) (i : nat) (main : PaneSpec) (component : ComponentArgv) : result carveErr PaneSpec :=
  match entries with
  | [] => Ok main
  | entry :: entries =>
    try argv := lift_err (CarveEntry i) (entryArgv entry component) in
    try rest := carve entries (S i) main component in
    Ok (dock entry (entry_pane i argv) rest)
  end.

(* src/cmdman/frame/carve.go:27-43 Spec.Carve *)
Definition Carve (s : FrameSpec) (main : PaneSpec) (component : ComponentArgv) : result carveErr PaneSpec :=
  carve (fr_Entries s) 0 main component.

(** ** Discovery *)

(* src/cmdman/frame/discover.go:93-101 IsBareName *)
Definition IsBareName (name : string) : bool :=
  negb (bool_decide (name = "")) && negb (bool_decide (name = ".")) && negb (bool_decide (name = "..")) &&
  negb (containsAny name ["/"; "\"]%char).

Inductive frameFileErr :=
| FrameCwd (err : string)
| FrameNameRequired
| FrameDecode (path err : string)
| FrameReadDir (dir err : string)
| FrameInvalid (e : frameErr).

Section Discover.
Context (Stat : string -> stat)
        (decodeFile : string -> result string RawFrame)
        (ReadDir : string -> result (option string) (list (string * bool)))
        (FrameConfigDir : string)
        (Getwd : result string string).

(* src/cmdman/frame/discover.go:37-37 DiscoverFile *)
Definition frame_regular (path : string) : bool := match Stat path with RegularFile => true | _ => false end.

(* src/cmdman/frame/spec.go:180-195 DecodeFile *)
Definition frame_decode (path : string) : result frameFileErr (string * RawFrame) :=
  match decodeFile path with Ok raw => Ok (path, raw) | Err e => Err (FrameDecode path e) end.

(** The directory of the defs comes without an error, see [Config.FrameConfigDir]. *)
(* src/cmdman/frame/discover.go:55-91 resolveNamedFrameFile *)
Definition resolveNamedFrameFile (name : string) : option string :=
  if negb (IsBareName name) then None
  else if decide (FrameConfigDir = "") then None
  else
    let candidates := (if hasSuffix ".yaml" name || hasSuffix ".yml" name then [Join FrameConfigDir name] else []) ++
                      [Join FrameConfigDir (name +:+ ".yaml"); Join FrameConfigDir (name +:+ ".yml")] in
    head (filter (fun c => frame_regular c = true) candidates).

(* src/cmdman/frame/discover.go:15-50 DiscoverFile *)
Definition DiscoverFrame (cwd name : string) : result frameFileErr (string * RawFrame) :=
  if decide (name = "") then Err FrameNameRequired
  else
    let path := Clean (if isAbs name then name else Join cwd name) in
    if frame_regular path then frame_decode path
    else match resolveNamedFrameFile name with
         | Some named => frame_decode named
         | None => frame_decode path
         end.

(* src/cmdman/frame/discover.go:129-139 ListNamedDefs *)
Definition def_name (e : string * bool) : option string :=
  let '(name, isDir) := e in
  if isDir : bool then None
  else if hasSuffix ".yaml" name then Some (trimSuffix ".yaml" name)
  else if hasSuffix ".yml" name then Some (trimSuffix ".yml" name)
  else None.

(* src/cmdman/frame/discover.go:103-143 ListNamedDefs *)
Definition ListNamedDefs : result frameFileErr (list string) :=
  if decide (FrameConfigDir = "") then Ok []
  else match ReadDir FrameConfigDir with
       | Err None => Ok []
       | Err (Some e) => Err (FrameReadDir FrameConfigDir e)
       | Ok entries => Ok (sort_strings (foldl (fun names n => if decide (n ∈ names) then names else names ++ [n]) []
                                           (omap def_name entries)))
       end.

(* src/cmdman/frame/discover.go:145-158 LoadAndNormalize *)
Definition LoadFrame (name : string) : result frameFileErr FrameSpec :=
  try cwd := lift_err FrameCwd Getwd in
  try found := DiscoverFrame cwd name in
  let '(path, raw) := found in
  lift_err FrameInvalid (Frame_Normalize path raw).2.
End Discover.
