(* ===== verification/FrameProps.v ===== *)
(** * What a frame definition stands for

    Validation accepts exactly the definitions that can be realised, a validated one can
    always be carved, and the panes of the carved tree get the cells that docking the
    entries one after the other into what is left gives them. *)

From S2P Require Import Config Prelude GoStr LogDriver Model ComposeSpec Normalize MuxCtl Select Frame.

(** ** Sizes *)

(** What a size in a file can be: cells, or a percentage of at most 100. *)
Definition frame_size_ok (s : FrameSize) : Prop :=
  (0 < fs_N s)%Z /\ in_int64 (fs_N s) /\ (fs_Percent s = true -> fs_N s <= 100)%Z.

Lemma MuxSize_ok s : frame_size_ok s -> size_ok (MuxSize s).
Proof. intros (H1 & H2 & H3). split; [done|split; [done|split; [by destruct s as [n []]|done]]]. Qed.

(** Every size a file can hold is well-formed (a decoded integer is one of 64 bits), and
    each well-formed one comes back from its printed form. *)
Theorem FrameSize_roundtrip s :
  (frame_size_ok s -> FrameSize_UnmarshalYAML (FrameSize_MarshalYAML s) = Ok s) /\
  (forall node, (forall n, node = IntNode n -> in_int64 n) -> FrameSize_UnmarshalYAML node = Ok s -> frame_size_ok s).
Proof.
  split.
  - intros Hs%MuxSize_ok. unfold FrameSize_MarshalYAML, FrameSize_UnmarshalYAML, FrameSize_String.
    rewrite (proj1 (ParseSize_String (MuxSize s))) by done. by destruct s.
  - intros [n|str|] Hn; simpl; [| |done].
    + case_decide; intros [= <-]. split; [simpl; lia|]. split; [by apply Hn|done].
    + intros (p & Hp & [= <-])%result_bind_ok. destruct (ParseSize str) as [q|] eqn:E; [|done]. injection Hp as ->.
      apply (proj2 (ParseSize_String p)) in E as (H1 & H2 & _ & H4). done.
Qed.

(** ** Validation *)

Definition edges : list Edge := [EdgeTop; EdgeBottom; EdgeLeft; EdgeRight].

(** The entries that can be realised. *)
Record entry_valid (re : RawEntry) : Prop := {
  ev_edge : re_Edge re ∈ edges;
  ev_size : fs_N (re_Size re) <> 0%Z;
  ev_kind : (re_Component re <> "" /\ re_Command re = [] /\ re_Component re ∈ BuiltinComponents /\ re_Managed re = false) \/
            (re_Component re = "" /\ re_Command re <> []);
  ev_hooks : re_Managed re = true -> re_Hooks re <> ∅ -> HookSet_Validate (re_Hooks re) = Ok tt;
}.

(** What they become: hooks are kept on a managed entry only. *)
Definition entry_of (re : RawEntry) : Entry :=
  {| en_Edge := re_Edge re; en_Size := MuxSize (re_Size re); en_Component := re_Component re; en_Command := re_Command re;
     en_Managed := re_Managed re; en_Hooks := if re_Managed re then re_Hooks re else ∅ |}.

Lemma check_entry_ok re :
  check_entry re = Ok tt <->
  re_Edge re ∈ edges /\ fs_N (re_Size re) <> 0%Z /\
  ((re_Component re <> "" /\ re_Command re = [] /\ re_Component re ∈ BuiltinComponents /\ re_Managed re = false) \/
   (re_Component re = "" /\ re_Command re <> [])).
Proof.
  unfold check_entry, IsBuiltinComponent. fold edges.
  destruct (decide (re_Edge re = "")) as [->|He]; [rewrite bool_decide_true by done; split; [done|]; intros [H _];
    unfold edges in H; set_solver|].
  rewrite (bool_decide_false _ He). destruct (decide (re_Edge re ∈ edges)) as [Hi|Hi];
    [rewrite bool_decide_true by done|rewrite bool_decide_false by done; simpl; naive_solver]. simpl.
  destruct (decide (fs_N (re_Size re) = 0%Z)) as [Hs|Hs]; [rewrite bool_decide_true by done; naive_solver|].
  rewrite (bool_decide_false _ Hs).
  destruct (decide (re_Component re = "")) as [->|Hc]; destruct (decide (re_Command re = [])) as [Hm|Hm].
  - rewrite !bool_decide_true by done. simpl. naive_solver.
  - rewrite bool_decide_true, bool_decide_false by done. simpl. naive_solver.
  - rewrite bool_decide_false, bool_decide_true by done. simpl. unfold BuiltinComponents in *.
    destruct (decide (re_Component re ∈ [ComponentSwitcher])) as [Hb|Hb];
      [rewrite bool_decide_true by done|rewrite bool_decide_false by done]; destruct (re_Managed re); simpl; naive_solver.
  - rewrite !bool_decide_false by done. simpl. naive_solver.
Qed.

Lemma normalizeEntry_ok path i re e :
  (normalizeEntry path i re).2 = Ok e <-> entry_valid re /\ e = entry_of re.
Proof.
  unfold normalizeEntry. pose proof (check_entry_ok re) as Hc. destruct (check_entry re) as [[]|er]; simpl.
  2:{ split; [done|]. intros [[H1 H2 H3 _] _]. discriminate (proj2 Hc (conj H1 (conj H2 H3))). }
  destruct Hc as [Hc _]. specialize (Hc eq_refl) as (He & Hs & Hk).
  assert (Hv : (re_Managed re = true -> re_Hooks re <> ∅ -> HookSet_Validate (re_Hooks re) = Ok tt) -> entry_valid re)
    by (intros; by constructor).
  clear He Hs Hk. unfold normalizeHooks, entry_of. destruct (decide (re_Hooks re = ∅)) as [Hh|Hh]; simpl.
  - rewrite Hh. split.
    + intros [= <-]. split; [by apply Hv; intros|]. by destruct (re_Managed re).
    + intros [_ ->]. by destruct (re_Managed re).
  - destruct (re_Managed re) eqn:Hm; simpl.
    + destruct (HookSet_Validate (re_Hooks re)) as [[]|er] eqn:He; simpl.
      * split; [intros [= <-]; by auto|by intros [_ ->]].
      * split; [done|]. intros [[_ _ _ H] _]. specialize (H Hm Hh). congruence.
    + split; [intros [= <-]; split; [by apply Hv|done]|by intros [_ ->]].
Qed.

Lemma normalize_entries_ok path i raws es :
  (normalize_entries path i raws).2 = Ok es <-> Forall entry_valid raws /\ es = map entry_of raws.
Proof.
  revert i es. induction raws as [|re raws IH]; intros i es; simpl.
  { split; [by intros [= <-]|by intros [_ ->]]. }
  pose proof (normalizeEntry_ok path i re) as He.
  destruct (normalizeEntry path i re) as [w [e|er]]; simpl in He.
  2:{ simpl. split; [done|]. intros [[Hv _]%Forall_cons _]. discriminate (proj2 (He _) (conj Hv eq_refl)). }
  destruct (proj1 (He e) eq_refl) as [Hv ->]. specialize (IH (S i)).
  destruct (normalize_entries path (S i) raws) as [more [es'|er]]; simpl in IH |- *.
  - destruct (proj1 (IH es') eq_refl) as [Hvs ->]. rewrite Forall_cons. split; [intros [= <-]; done|by intros [_ ->]].
  - split; [done|]. intros [[_ Hvs]%Forall_cons _]. discriminate (proj2 (IH _) (conj Hvs eq_refl)).
Qed.

(** Validation accepts exactly the definitions that can be realised as written: at least
    one entry, each on one of the four edges, with a size, and with a built-in component or
    a command but not both; only a command is managed, and its hooks are valid.  What comes
    out is in the order of the file. *)
Theorem Frame_Normalize_exact path raw spec :
  (Frame_Normalize path raw).2 = Ok spec <->
  rf_Frame raw <> [] /\ Forall entry_valid (rf_Frame raw) /\
  spec = {| fr_Path := path; fr_Entries := map entry_of (rf_Frame raw) |}.
Proof.
  unfold Frame_Normalize. destruct (decide (rf_Frame raw = [])) as [->|Hne]; simpl; [naive_solver|].
  pose proof (normalize_entries_ok path 0 (rf_Frame raw)) as H.
  destruct (normalize_entries path 0 (rf_Frame raw)) as [w [es|er]]; simpl in *.
  - destruct (proj1 (H es) eq_refl) as [Hv ->]. split; [intros [= <-]; done|by intros (_ & _ & ->)].
  - split; [done|]. intros (_ & Hv & _). discriminate (proj2 (H _) (conj Hv eq_refl)).
Qed.

(** ** Carving *)

Definition carvable (e : Entry) : Prop :=
  if decide (en_Component e = "") then en_Command e <> [] else en_Component e ∈ BuiltinComponents.

(** With the built-in widgets such an entry has something to run. *)
Lemma carvable_runs exe e : carvable e -> exists argv, entryArgv e (Some (WidgetArgv exe)) = Ok argv /\ argv <> [].
Proof.
  unfold entryArgv, carvable. intros He. case_decide.
  - exists (en_Command e). by rewrite decide_False.
  - unfold WidgetArgv, IsBuiltinComponent. rewrite bool_decide_true by done. by eexists.
Qed.

Lemma entry_carvable re : entry_valid re -> carvable (entry_of re).
Proof.
  intros [_ _ [(H1 & _ & H2 & _)|(H1 & H2)] _]; unfold carvable; simpl; case_decide; naive_solver.
Qed.

(** ** Cells

    Where the leaves of a tree are in a window, each with its name and its command: those
    of a container follow each other in the order of the document, left to right or top to
    bottom, with a line between two, and have the cells [ComputeChildCells] gives them. *)
Definition rect : Type := Z * Z * Z * Z.

Fixpoint panes_at (p : PaneSpec) (x y w h : Z) : list (string * list string * rect) :=
  match p with
  | MkPane d splits panes name cmd _ _ _ =>
    match panes with
    | [] => [(name, cmd, (x, y, w, h))]
    | _ =>
      (fix go x y ps cells :=
         match ps, cells with
         | p :: ps, c :: cells =>
           let '(w', h') := ChildDims d w h c in
           panes_at p x y w' h' ++
           (if decide (d = DirVertical) then go x (y + h' + 1)%Z ps cells else go (x + w' + 1)%Z y ps cells)
         | _, _ => []
         end) x y panes (ComputeChildCells (ParentDim d w h) splits)
    end
  end.

(** What is left when a slice and the line beside it are taken off. *)
Definition left_over (dim slice : Z) : Z := Z.max (dim - slice - 1) 0.

(** The slice an entry takes of a dimension. *)
Definition slice (e : Entry) (dim : Z) : Z :=
  if Percent (en_Size e) then (dim * size_N (en_Size e) / 100)%Z else size_N (en_Size e).

(** The reference: an entry takes its slice along its edge of a rectangle, and leaves the
    rest, a line further in. *)
Definition dock_at (e : Entry) (r : rect) : rect * rect :=
  let '(x, y, w, h) := r in
  let sh := slice e h in let rh := left_over h sh in
  let sw := slice e w in let rw := left_over w sw in
  if decide (en_Edge e = "top") then ((x, y, w, sh), (x, y + sh + 1, w, rh))%Z
  else if decide (en_Edge e = "bottom") then ((x, y + rh + 1, w, sh), (x, y, w, rh))%Z
  else if decide (en_Edge e = "left") then ((x, y, sw, h), (x + sw + 1, y, rw, h))%Z
  else ((x + rw + 1, y, sw, h), (x, y, rw, h))%Z.

(** One entry after the other, each docked into what the ones before it left, with the
    command it runs; the [i]th one's pane is named by its position. *)
Fixpoint docked (es : list Entry) (argvs : list (list string)) (i : nat) (r : rect) : list (string * list string * rect) * rect :=
  match es, argvs with
  | e :: es, argv :: argvs =>
    let '(own, rest) := dock_at e r in
    let '(panes, inner) := docked es argvs (S i) rest in
    (("frame-" +:+ Itoa (Z.of_nat i), argv, own) :: panes, inner)
  | _, _ => ([], r)
  end.

(** What an entry runs: its command, or what its component resolves to. *)
Definition runs (component : ComponentArgv) (e : Entry) (argv : list string) : Prop :=
  argv <> [] /\
  if decide (en_Component e = "") then argv = en_Command e
  else exists resolve, component = Some resolve /\ resolve (en_Component e) = Ok argv.

(** An entry on an edge, of a size whose arithmetic stays within 64 bits in dimensions of
    at most [d]. *)
Definition docks (d : Z) (e : Entry) : Prop :=
  en_Edge e ∈ edges /\ size_ok (en_Size e) /\ (Absolute (en_Size e) || Percent (en_Size e) = true) /\
  ((d + 2) * (size_N (en_Size e) + 1) <= int64_max)%Z.

Lemma docks_less d d' e : (0 <= d' <= d)%Z -> docks d e -> docks d' e.
Proof. intros Hd (H1 & (Hn & H2) & H3 & H4). split; [done|]. split; [done|]. split; [done|]. nia. Qed.

Lemma left_over_less dim s : (0 <= dim)%Z -> (0 <= s)%Z -> (0 <= left_over dim s <= dim)%Z.
Proof. unfold left_over. lia. Qed.

Lemma slice_nonneg e dim : size_ok (en_Size e) -> (0 <= dim)%Z -> (0 <= slice e dim)%Z.
Proof. intros [Hn _] Hd. unfold slice. destruct (Percent _); [apply Z.div_pos; nia|lia]. Qed.

Lemma runs_argv component e argv : runs component e argv -> entryArgv e component = Ok argv.
Proof.
  unfold runs, entryArgv. intros [Hne H]. case_decide; [subst argv; by rewrite decide_False|].
  destruct H as (resolve & -> & ->). simpl. by rewrite decide_False.
Qed.

(** Two children, one of them with a bare weight. *)
Lemma two_children e parent d :
  docks d e -> (0 <= parent <= d)%Z ->
  ComputeChildCells parent [en_Size e; restSize] = [slice e parent; left_over parent (slice e parent)] /\
  ComputeChildCells parent [restSize; en_Size e] = [left_over parent (slice e parent); slice e parent].
Proof.
  intros Hdock Hp. apply (docks_less d parent) in Hdock as (_ & Hok & Hs & Hf); [|lia].
  pose proof (slice_nonneg e parent Hok ltac:(lia)) as Hr.
  assert (Hrest : size_ok restSize) by (unfold size_ok, in_int64, int64_min, int64_max; simpl; repeat split; lia).
  assert (E : exact_reserved parent (en_Size e) = slice e parent).
  { destruct Hok as (Hn & _ & Hap & _). unfold exact_reserved, slice. destruct (Absolute _), (Percent _); try done.
    by rewrite Z.quot_div_nonneg by nia. }
  assert (Hw : weighted (en_Size e) = false) by (unfold weighted; by destruct (Absolute _), (Percent _)).
  rewrite !ComputeChildCells_exact; try done; try (by repeat apply Forall_cons_2);
    try (split; [lia|]; cbn [map Zsum foldr]; change (size_N restSize) with 1%Z; lia).
  unfold exact_cells, exact_leftover, left_over, exact_base, exact_assigned, weight_of.
  destruct (last_weighted _ [en_Size e; restSize]) as [i|] eqn:E1, (last_weighted _ [restSize; en_Size e]) as [j|] eqn:E2; clear E1 E2;
    simpl; rewrite Hw, E; change (exact_reserved parent restSize) with 0%Z; simpl;
    rewrite ?Z.mul_1_r, ?Z.quot_1_r; repeat match goal with |- context [decide (?a < ?b)%Z] => rewrite (decide_False (P := (a < b)%Z)) by lia end;
    (split; simpl; repeat case_decide; repeat f_equal; lia).
Qed.

Ltac settle_edges :=
  repeat first [rewrite bool_decide_true by done|rewrite bool_decide_false by done
               |rewrite decide_True by done|rewrite decide_False by done]; cbn [orb].

(** A docked pane and what it is docked around. *)
Lemma panes_dock e i argv rest x y w h d :
  docks d e -> (0 <= w <= d)%Z -> (0 <= h <= d)%Z ->
  let '(own, (x', y', w', h')) := dock_at e (x, y, w, h) in
  panes_at (dock e (entry_pane i argv) rest) x y w h ≡ₚ (EntryPaneName i, argv, own) :: panes_at rest x' y' w' h'.
Proof.
  intros Hd Hw Hh. unfold dock_at, dock.
  destruct (two_children e w d Hd Hw) as [W1 W2]. destruct (two_children e h d Hd Hh) as [H1 H2].
  destruct Hd as [Hedge _]. unfold edges, EdgeTop, EdgeBottom, EdgeLeft, EdgeRight in *.
  rewrite !elem_of_cons, elem_of_nil in Hedge.
  destruct Hedge as [E|[E|[E|[E|[]]]]]; rewrite E; settle_edges; cbn [panes_at]; unfold ParentDim, ChildDims; settle_edges;
    rewrite ?W1, ?W2, ?H1, ?H2; cbn [app panes_at entry_pane]; settle_edges; rewrite ?app_nil_r; try done;
    symmetry; apply Permutation_cons_append.
Qed.

(** What docking an entry leaves is no larger. *)
Lemma dock_at_less e x y w h d :
  docks d e -> (0 <= w <= d)%Z -> (0 <= h <= d)%Z ->
  let '(_, (_, _, w', h')) := dock_at e (x, y, w, h) in (0 <= w' <= d)%Z /\ (0 <= h' <= d)%Z.
Proof.
  intros (_ & Hok & _) Hw Hh. unfold dock_at.
  pose proof (left_over_less w (slice e w)) as Lw. pose proof (left_over_less h (slice e h)) as Lh.
  pose proof (slice_nonneg e w Hok). pose proof (slice_nonneg e h Hok).
  repeat case_decide; lia.
Qed.

(** C29: what carving means.  When every entry is on an edge with a size, and runs a
    command or a component that resolves, carving succeeds; and in every window in which
    the arithmetic stays within 64 bits, the panes of the tree are where docking the
    entries one after the other puts them: the [i]th entry's pane, named by its position,
    runs its command and takes its slice along its edge of the rectangle its predecessors
    left, a percentage counted of that rectangle, with a line between it and the rest;
    what the tree was carved around gets what is left in the end. *)
Theorem carved_cells component es argvs i main x y w h :
  Forall2 (runs component) es argvs -> Forall (docks (Z.max w h)) es -> (0 <= w)%Z -> (0 <= h)%Z ->
  exists tree, carve es i main component = Ok tree /\
    let '(panes, (x', y', w', h')) := docked es argvs i (x, y, w, h) in
    panes_at tree x y w h ≡ₚ panes ++ panes_at main x' y' w' h'.
Proof.
  assert (H : forall d, Forall2 (runs component) es argvs -> Forall (docks d) es -> (0 <= w <= d)%Z -> (0 <= h <= d)%Z ->
    exists tree, carve es i main component = Ok tree /\
      let '(panes, (x', y', w', h')) := docked es argvs i (x, y, w, h) in
      panes_at tree x y w h ≡ₚ panes ++ panes_at main x' y' w' h').
  2:{ intros Hr Hd Hw Hh. apply (H (Z.max w h) Hr Hd); lia. }
  intros d Hr. revert i x y w h. induction Hr as [|e argv es argvs He Hr IH]; intros i x y w h Hd Hw Hh; [exists main; split; [done|cbn; reflexivity]|].
  apply Forall_cons in Hd as [Hde Hd]. cbn [docked].
  pose proof (dock_at_less e x y w h d Hde Hw Hh) as Hless. pose proof (fun rest => panes_dock e i argv rest x y w h d Hde Hw Hh) as Hp.
  destruct (dock_at e (x, y, w, h)) as [own [[[x' y'] w'] h']]. destruct Hless as [Hw' Hh'].
  destruct (IH (S i) x' y' w' h' Hd Hw' Hh') as (rest & Hc & Hrest).
  destruct (docked es argvs (S i) (x', y', w', h')) as [panes [[[x2 y2] w2] h2]].
  exists (dock e (entry_pane i argv) rest). split.
  - cbn [carve]. rewrite (runs_argv _ _ _ He). cbn. by rewrite Hc.
  - etransitivity; [apply Hp|]. cbn [app]. by rewrite Hrest.
Qed.

Lemma entry_docks d re :
  entry_valid re -> frame_size_ok (re_Size re) -> ((d + 2) * (fs_N (re_Size re) + 1) <= int64_max)%Z -> docks d (entry_of re).
Proof.
  intros Hv Hs Hd. unfold docks, entry_of. cbn [en_Edge en_Size]. split; [apply Hv|]. split; [by apply MuxSize_ok|].
  split; [|done]. unfold MuxSize. cbn [Absolute Percent]. by destruct (fs_Percent (re_Size re)).
Qed.

(** *** The tree is a valid layout *)

Lemma dock_shape e i argv rest : argv <> [] -> shape_ok rest -> shape_ok (dock e (entry_pane i argv) rest).
Proof.
  intros Ha Hr. assert (Hp : shape_ok (entry_pane i argv)).
  { apply shape_leaf; [by apply IsLeaf_true|]. unfold entry_pane. simpl. done. }
  unfold dock. cbv zeta. destruct (_ || bool_decide (en_Edge e = EdgeRight)); apply shape_container;
    try (destruct (_ || _); by auto); try done; by repeat first [apply Forall_cons_2|apply Forall_nil_2].
Qed.

Lemma leaves_dock e i argv rest :
  argv <> [] -> leaves (dock e (entry_pane i argv) rest) ≡ₚ entry_pane i argv :: leaves rest.
Proof.
  intros Ha. assert (Hl : leaves (entry_pane i argv) = [entry_pane i argv]).
  { assert (E : IsLeaf (entry_pane i argv) = true) by (by apply IsLeaf_true). unfold entry_pane in *. cbn [leaves]. by rewrite E. }
  unfold dock. cbv zeta. destruct (_ || bool_decide (en_Edge e = EdgeRight)); cbn [leaves];
    (replace (IsLeaf _) with false; [|symmetry; apply not_true_iff_false; intros (H & _)%IsLeaf_true; done]);
    cbn [flat_map]; rewrite Hl, app_nil_r; [by rewrite Permutation_app_comm|done].
Qed.

(** Such entries are always carved: around the panes they are carved around there is one
    for each of them, named by its position, and none has the focus. *)
Lemma carve_shape exe es i main :
  Forall carvable es -> shape_ok main ->
  exists tree, carve es i main (Some (WidgetArgv exe)) = Ok tree /\ shape_ok tree /\
    map pane_Name (leaves tree) ≡ₚ (EntryPaneName <$> seq i (length es)) ++ map pane_Name (leaves main) /\
    count_focus (leaves tree) = count_focus (leaves main).
Proof.
  intros H Hm. revert i. induction H as [|e es He _ IH]; intros i; [by exists main|].
  destruct (carvable_runs exe e He) as (argv & Ha & Hne), (IH (S i)) as (rest & Hc & Hs & Hn & Hf).
  exists (dock e (entry_pane i argv) rest). split; [cbn [carve]; rewrite Ha; cbn; by rewrite Hc|].
  split; [by apply dock_shape|]. pose proof (leaves_dock e i argv rest Hne) as Hl. split.
  - rewrite Hl. cbn [map length seq fmap list_fmap app]. by rewrite Hn.
  - rewrite <- Hf. unfold count_focus. by rewrite Hl.
Qed.

Lemma EntryPaneName_inj i j : EntryPaneName i = EntryPaneName j -> i = j.
Proof. unfold EntryPaneName. intros [= H%Itoa_inj]. lia. Qed.

(** A definition that passes validation can always be carved with the built-in
    widgets, around any valid tree whose pane names are not those of its entries, into a
    valid layout: a pane for every entry, named by its position, besides the panes of what
    it is carved around. *)
Theorem validated_frame_carves path raw spec exe main l :
  (Frame_Normalize path raw).2 = Ok spec ->
  layout_ok {| layout_Name := l; Root := main |} ->
  (forall i, EntryPaneName i ∉ map pane_Name (leaves main)) ->
  exists tree, Carve spec main (Some (WidgetArgv exe)) = Ok tree /\
    map pane_Name (leaves tree) ≡ₚ (EntryPaneName <$> seq 0 (length (rf_Frame raw))) ++ map pane_Name (leaves main) /\
    MuxSpec_Validate {| Driver := {| driver_Name := ""; Path := ""; Socket := ""; Opts := ∅ |};
                        Layouts := [{| layout_Name := l; Root := tree |}] |} = Ok tt.
Proof.
  intros (Hne & Hv & ->)%Frame_Normalize_exact (Hl & Hs & Hd & Hf) Hn. simpl in *.
  assert (Hc : Forall carvable (map entry_of (rf_Frame raw))) by (apply Forall_map; eapply Forall_impl; [exact Hv|apply entry_carvable]).
  destruct (carve_shape exe _ 0 main Hc Hs) as (tree & Ht & Hts & Hp & Htf). rewrite length_map in Hp.
  exists tree. split; [done|]. split; [done|]. apply MuxSpec_Validate_exact. simpl.
  split; [|apply NoDup_singleton]. constructor; [|constructor]. split; [done|split; [done|split]]; simpl.
  - rewrite Hp. apply NoDup_app. split; [|split; [|done]].
    + apply NoDup_fmap_2; [intros ? ? H; by apply EntryPaneName_inj|]. apply NoDup_seq.
    + intros x (j & -> & _)%list_elem_of_fmap. apply Hn.
  - fold (count_focus (leaves main)) in Hf. fold (count_focus (leaves tree)). by rewrite Htf.
Qed.

(** ** Discovery *)

(** A file with nothing before its suffix is listed as a def with an empty name, which no
    load accepts. *)
Lemma suffix_only_def Stat decodeFile ReadDir dir cwd :
  dir <> "" -> ReadDir dir = Ok [(".yaml", false)] ->
  ListNamedDefs ReadDir dir = Ok [""] /\ LoadFrame Stat decodeFile dir (Ok cwd) "" = Err FrameNameRequired.
Proof. intros Hd Hr. unfold ListNamedDefs. rewrite decide_False, Hr by done. split; [by vm_compute|done]. Qed.

(** ** Witnesses *)

Definition raw_entry (edge : Edge) (n : Z) (percent : bool) (component : string) (command : list string) : RawEntry :=
  {| re_Edge := edge; re_Size := MkFrameSize n percent; re_Component := component; re_Command := command;
     re_Managed := false; re_Hooks := ∅; re_Unknown := ∅ |}.

(** A column of a fifth on the left, then a bar of two lines under the rest. *)
Definition some_frame : RawFrame :=
  {| rf_Frame := [raw_entry EdgeLeft 20 true ComponentSwitcher []; raw_entry EdgeBottom 2 false "" ["top"]]; rf_Unknown := ∅ |}.

Lemma some_frame_valid : Forall entry_valid (rf_Frame some_frame).
Proof.
  repeat first [apply Forall_cons_2|apply Forall_nil_2]; (constructor; simpl; [unfold edges; set_solver|done| |done]).
  - left. unfold BuiltinComponents. set_solver.
  - by right.
Qed.

Lemma carved_cells_witness :
  exists tree,
    carve (map entry_of (rf_Frame some_frame)) 0 (witness_leaf "main" false) (Some (WidgetArgv "cmdman")) = Ok tree /\
    panes_at tree 0 0 100 40 ≡ₚ
      [("frame-0", ["cmdman"; "tui"; "widget"; "switcher"; "--no-quit"], (0, 0, 20, 40));
       ("frame-1", ["top"], (21, 38, 79, 2)); ("main", ["cmdman"], (21, 0, 79, 37))]%Z.
Proof.
  destruct (carved_cells (Some (WidgetArgv "cmdman")) (map entry_of (rf_Frame some_frame))
    [["cmdman"; "tui"; "widget"; "switcher"; "--no-quit"]; ["top"]] 0 (witness_leaf "main" false) 0 0 100 40)
    as (tree & Hc & Ht); try lia.
  - repeat constructor; try done. by exists (WidgetArgv "cmdman").
  - pose proof some_frame_valid as Hv. cbn [some_frame rf_Frame map] in Hv |- *.
    repeat match goal with H : Forall _ (_ :: _) |- _ => apply Forall_cons in H as [? H] end.
    repeat first [apply Forall_cons_2|apply Forall_nil_2]; (apply entry_docks; [done| |unfold int64_max; simpl; lia]);
      (split; [simpl; lia|split; [unfold in_int64, int64_min, int64_max; simpl; lia|simpl; lia]]).
  - exists tree. split; [exact Hc|]. exact Ht.
Defined.

Lemma validated_frame_carves_witness :
  exists tree, Carve {| fr_Path := "f.yaml"; fr_Entries := map entry_of (rf_Frame some_frame) |} (witness_leaf "main" false)
      (Some (WidgetArgv "cmdman")) = Ok tree /\
    map pane_Name (leaves tree) ≡ₚ ["frame-0"; "frame-1"; "main"].
Proof.
  destruct (validated_frame_carves "f.yaml" some_frame {| fr_Path := "f.yaml"; fr_Entries := map entry_of (rf_Frame some_frame) |}
    "cmdman" (witness_leaf "main" false) "x") as (tree & H1 & H2 & _).
  - apply Frame_Normalize_exact. split; [done|]. split; [exact some_frame_valid|done].
  - split; [done|]. split; [by apply shape_leaf|]. split; [apply NoDup_singleton|simpl; lia].
  - intros i Hi. simpl in Hi. apply list_elem_of_singleton in Hi. done.
  - exists tree. split; [exact H1|]. exact H2.
Defined.
