(* ===== verification/MuxFrame.v ===== *)
(** * Frames around multiplexer windows

    [cmdman/mux/frame.go] and [frame_command.go]: showing, hiding, cycling and listing
    frames, and the supervised commands of managed entries; with them what all of
    [cmdman/mux] shares, the calls to the multiplexer, its server ([run.go], [identity.go],
    [land.go]) and the environment.  The multiplexer and the cmdman service answer calls;
    the frame definitions on disk are those of [Frame.v], given as functions. *)

From S2P Require Import Config Prelude GoStr LogDriver Model ComposeSpec Normalize Prog MuxCtl Mux Select Frame.

(** ** Calls *)

Definition muxErrText := string.

(* src/pkg/muxctl/driver.go:9-52 Config *)
Record MuxConfig := {
  mc_SessionName : string;
  mc_WindowName : string;
  mc_WindowID : string;
  mc_OwnedIdentity : string;
  mc_ReuseCurrentWindow : bool;
  mc_StartDirectory : string;
  mc_ViewerDetachKeys : list string;
}.

(* src/pkg/muxctl/driver.go:59-59 StateKey *)
Definition StateKey := string.
(* src/pkg/muxctl/driver.go:63-64 StateKeyScale *)
Definition StateKeyScale : StateKey := "scale".
(* src/pkg/muxctl/driver.go:66-69 StateKeyFrameDef *)
Definition StateKeyFrameDef : StateKey := "frame_def".

(* src/pkg/muxctl/driver.go:93-135 Window *)
Record Window := {
  wn_SessionName : string;
  wn_WindowID : string;
  wn_WindowName : string;
  wn_Identity : string;
  wn_Frame : string;
  wn_Created : bool;
  wn_Marker : Z;
  wn_State : gmap StateKey string;
}.

(* src/pkg/muxctl/driver.go:137-152 FocusOptions *)
Record FocusOptions := { fo_SwitchClient : bool; fo_ClientSession : string }.

(* src/cmdman/mux/frame_command.go:25-38 CommandSpec *)
Record FrameCommandSpec := { fc_Name : string; fc_Argv : list string; fc_Tty : bool; fc_Hooks : HookSet }.
(* src/cmdman/mux/frame_command.go:40-47 CommandStatus *)
Record CommandStatus := { cst_ID : string; cst_Name : string; cst_State : EventType }.

(** The lines that are printed. *)
Inductive notice :=
| AttachHint (session : string)
| NoDashboardFor (identity session : string)
| RemovedWindow (name id session : string)
| RestoredWindow (name id session : string).

(** The server's calls, those of a session by its window, the frame service's, and what is
    printed. *)
(* src/pkg/muxctl/driver.go:196-314 Server *)
Inductive muxE : Type -> Type :=
| CurrentSessionName : muxE (result muxErrText (option string))
| CurrentWindowID (session : string) : muxE (result muxErrText (option string))
| EnclosingWindowID : muxE (result muxErrText (option string))
| ReadWindowState (w : string) (k : StateKey) : muxE (result muxErrText string)
| WriteWindowState (w : string) (k : StateKey) (v : string) : muxE (option muxErrText)
| ListWindows (session identity : string) (keys : list StateKey) : muxE (result muxErrText (list Window))
| NewWindow (cfg : MuxConfig) : muxE (result muxErrText string)
| OpenWindow (cfg : MuxConfig) : muxE (result muxErrText (option string))
| FindPane (w key : string) : muxE (result muxErrText (option string))
| FocusWindow (w : string) (o : FocusOptions) : muxE (option muxErrText)
| AttachCommand (session : string) : muxE (list string)
| StatMarker (w : string) : muxE (result muxErrText Z)
| ApplyLayout (w : string) (root : PaneSpec) (marker : nat) : muxE (option muxErrText)
| ShowFrame (w : string) (root : PaneSpec) (main def : string) : muxE (option muxErrText)
| HideFrame (w : string) : muxE (option muxErrText)
| DetachWindow (w : string) : muxE (option muxErrText)
| CloseWindow (w : string) : muxE (option muxErrText)
| RespawnLeaf (w pane : string) (name : string) (cmd : list string) (opt : gmap string string) (key : string) : muxE (option muxErrText)
| SvcListCommands : muxE (result muxErrText (list CommandStatus))
| SvcCreateCommand (spec : FrameCommandSpec) : muxE (result muxErrText string)
| SvcStartCommand (id : string) : muxE (option muxErrText)
| Warn (def : string) : muxE unit
| PrintLine (line : notice) : muxE unit.

Notation muxprog := (prog muxE).
Notation muxact := (act muxE).

Inductive muxErr :=
| NoLayouts
| DriverNotImplemented (name : string)
| DriverUnknown (name : string)
| ConnectFailed (e : muxErrText)
| LayoutIndexRange (n : Z) (len : nat)
| LayoutUnknown (selector : string) (names : list string)
| EnumerateFailed (e : muxErrText)
| NewFailed (e : muxErrText)
| StatFailed (e : muxErrText)
| ApplyFailed (e : muxErrText)
| FocusFailed (w : string) (e : muxErrText)
| OpenFailed (w : string) (e : muxErrText)
| CloseFailed (w : string) (e : muxErrText)
| DetachFailed (w : string) (e : muxErrText)
| CurrentWindowFailed (e : muxErrText)
| FrameNoDef (names : list string)
| FrameListFailed (e : frameFileErr)
| FrameLoadFailed (def : string) (e : frameFileErr)
| FrameNoDefs
| FrameOutside
| FrameSessionNoWindow (session : string)
| FrameNoWindow
| FrameReadFailed (w : string) (e : muxErrText)
| FrameCarveFailed (def : string) (e : carveErr)
| FrameShowFailed (def : string) (e : muxErrText)
| FrameHideFailed (def : string) (e : muxErrText)
| FrameNeedsService (def : string) (i : nat)
| FrameEntryFailed (def : string) (i : nat) (e : muxErr)
| FrameEntryNoPane (def : string) (i : nat)
| FrameCommandNameRequired
| FrameCommandFailed (name : string) (e : muxErrText)
| NotCycleTarget (command : string)
| NoDashboard
| MarkerRange (w : string) (marker : Z) (len : nat)
| CountFailed (w command : string) (e : muxErrText)
| PositionFailed (w command : string) (e : positionErr)
| ResolveReplicaFailed (w command : string) (pos : Z) (e : muxErrText)
| FindPaneFailed (w command : string) (e : muxErrText)
| LeafGone (w command layout : string)
| RespawnFailed (w pane : string) (e : muxErrText)
| WritePositionFailed (w command : string) (e : muxErrText).

(** ** The environment and the server *)

(* src/cmdman/mux/run.go:415-425 envOf *)
Fixpoint envOf (env : list string) (key : string) : string :=
  match env with
  | [] => ""
  | e :: env => if hasPrefix (key +:+ "=") e then trimPrefix (key +:+ "=") e else envOf env key
  end.

(* src/cmdman/mux/frame.go:411-413 frameTargetPointedAt *)
Definition inside (env : list string) : bool :=
  negb (bool_decide (envOf env "TMUX" = "")) || negb (bool_decide (envOf env "ZELLIJ" = "")).

(* src/cmdman/mux/run.go:373-386 resolveDriverName *)
Definition resolveDriverName (declared : string) (env : list string) : string :=
  if negb (bool_decide (declared = "")) then declared
  else if negb (bool_decide (envOf env "TMUX" = "")) then "tmux"
  else if negb (bool_decide (envOf env "ZELLIJ" = "")) then "zellij"
  else "tmux".

(* src/cmdman/mux/run.go:328-341 deriveIdentity *)
Definition deriveIdentity (identity windowName sessionName : string) : string :=
  if negb (bool_decide (identity = "")) then identity
  else if negb (bool_decide (windowName = "")) then windowName
  else sessionName.

(* src/cmdman/mux/run.go:364-371 layoutNames *)
Definition layoutNames (layouts : list Layout) : list string := map layout_Name layouts.

(** The first layout of the name. *)
(* src/cmdman/mux/run.go:348-352 resolveLayoutIndex *)
Fixpoint layout_named (selector : string) (layouts : list Layout) : option nat :=
  match layouts with
  | [] => None
  | l :: layouts => if decide (layout_Name l = selector) then Some 0 else S <$> layout_named selector layouts
  end.

(* src/cmdman/mux/run.go:343-362 resolveLayoutIndex *)
Definition resolveLayoutIndex (selector : string) (layouts : list Layout) : result muxErr nat :=
  match layout_named selector layouts with
  | Some i => Ok i
  | None =>
    match Atoi selector with
    | Some n =>
      if bool_decide (n < 0)%Z || bool_decide (Z.of_nat (length layouts) <= n)%Z then Err (LayoutIndexRange n (length layouts))
      else Ok (Z.to_nat n)
    | None => Err (LayoutUnknown selector (layoutNames layouts))
    end
  end.

(** A window in the caller's session, else the first. *)
(* src/cmdman/mux/land.go:148-163 pickOwnedWindow *)
Definition pickOwnedWindow (rows : list Window) (sessionName : string) : option Window :=
  match filter (fun r => wn_SessionName r = sessionName) rows with
  | row :: _ => Some row
  | [] => head rows
  end.

(* src/cmdman/mux/run.go:98-106 viewerDetachKeys *)
Definition viewerDetachKeys : list string := ["C-p"; "C-q"].

(** What addresses a window by its id, and leaves the rest out. *)
(* src/cmdman/mux/frame.go:224-227 frameTarget.show *)
Definition by_id (w identity : string) : MuxConfig :=
  {| mc_SessionName := ""; mc_WindowName := ""; mc_WindowID := w; mc_OwnedIdentity := identity;
     mc_ReuseCurrentWindow := false; mc_StartDirectory := ""; mc_ViewerDetachKeys := viewerDetachKeys |}.

(** The steps of a program that may fail. *)
Notation "'let?' x := p 'in' k" :=
  (p ≫= fun r => match r with Ok x => k | Err e => mret (Err e) end)
  (at level 200, x pattern, p at level 100, k at level 200) : cmdman_scope.

(** An answer with its error in the caller's terms. *)
Definition ask {A} (f : muxErrText -> muxErr) (e : muxE (result muxErrText A)) : muxprog (result muxErr A) :=
  r ← call e; mret (lift_err f r).
Definition perform (f : muxErrText -> muxErr) (e : muxE (option muxErrText)) : muxprog (result muxErr unit) :=
  r ← call e; mret (match r with None => Ok tt | Some t => Err (f t) end).

Section Mux.
Context (registered : string -> bool)
        (Connect : DriverSpec -> option muxErrText)
        (ListDefs : result frameFileErr (list string))
        (LoadDef : string -> result frameFileErr FrameSpec)
        (SelfExecutable : option string).

(* src/cmdman/mux/run.go:388-413 resolveServer *)
Definition resolveServer (spec : DriverSpec) (env : list string) : result muxErr unit :=
  let name := resolveDriverName (driver_Name spec) env in
  if negb (registered name) then
    if bool_decide (name ∈ ["zellij"; "wezterm"]) then Err (DriverNotImplemented name) else Err (DriverUnknown name)
  else match Connect spec with Some e => Err (ConnectFailed e) | None => Ok tt end.

(* src/cmdman/mux/run.go:307-326 resolveSessionName *)
Definition resolveSessionName (override : string) (env : list string) : muxprog string :=
  if negb (bool_decide (override = "")) then mret override
  else if negb (bool_decide (envOf env "TMUX" = "")) then
    r ← call CurrentSessionName;
    mret (match r with Ok (Some name) => name | _ => "cmdman" end)
  else mret "cmdman".

(* src/cmdman/mux/identity.go:52-68 currentIdentity *)
Definition currentIdentity (sessionName windowName : string) (env : list string) : muxprog string :=
  resolved ← resolveSessionName sessionName env;
  mret (deriveIdentity "" windowName resolved).

(* src/cmdman/mux/identity.go:28-50 ResolveIdentity *)
Definition ResolveIdentity (driver : DriverSpec) (sessionName windowName : string) (env : list string) : muxprog (result muxErr string) :=
  match resolveServer driver env with
  | Err e => mret (Err e)
  | Ok _ => i ← currentIdentity sessionName windowName env; mret (Ok i)
  end.

(** ** Frame commands *)

(* src/cmdman/mux/frame_command.go:14-23 FrameCommandName *)
Definition FrameCommandName (defName : string) (i : nat) : string := "frame-" +:+ defName +:+ "-" +:+ Itoa (Z.of_nat i).

(* src/cmdman/mux/frame_command.go:156-175 frameCommandSpec *)
Definition frameCommandSpec (name : string) (argv : list string) (hooks : HookSet) : FrameCommandSpec :=
  {| fc_Name := name; fc_Argv := argv; fc_Tty := true; fc_Hooks := hooks |}.

(* src/cmdman/mux/frame_command.go:145-154 createFrameCommand *)
Definition createFrameCommand (name : string) (argv : list string) (hooks : HookSet) : muxprog (result muxErr string) :=
  let? id := ask (FrameCommandFailed name) (SvcCreateCommand (frameCommandSpec name argv hooks)) in
  let? _ := perform (FrameCommandFailed name) (SvcStartCommand id) in
  mret (Ok id).

(* src/cmdman/mux/frame_command.go:102-143 ensureFrameCommand *)
Definition ensureFrameCommand (name : string) (argv : list string) (hooks : HookSet) : muxprog (result muxErr string) :=
  if bool_decide (name = "") then mret (Err FrameCommandNameRequired)
  else
    let? commands := ask (FrameCommandFailed name) SvcListCommands in
    match filter (fun c => cst_Name c = name) commands with
    | [] => createFrameCommand name argv hooks
    | existing :: _ =>
      if bool_decide (cst_State existing = EventTypeRunning) || bool_decide (cst_State existing = EventTypeStarting)
      then mret (Ok (cst_ID existing))
      else
        let? _ := perform (FrameCommandFailed name) (SvcStartCommand (cst_ID existing)) in
        mret (Ok (cst_ID existing))
    end.

(* src/cmdman/mux/frame.go:358-369 managedEntryIndexes *)
Definition managedEntryIndexes (spec : FrameSpec) : list (nat * Entry) :=
  filter (fun p => en_Managed p.2 = true) (imap pair (fr_Entries spec)).

(** The tree with the command of the first node of the name set, when there is one. *)
(* src/cmdman/mux/frame.go:371-384 setLeafCmd *)
Fixpoint setLeafCmd (node : PaneSpec) (name : string) (argv : list string) : option PaneSpec :=
  match node with
  | MkPane d s ps n c o f k =>
    if decide (n = name) then Some (MkPane d s ps n argv o f k)
    else
      (fix go done ps :=
         match ps with
         | [] => None
         | p :: ps =>
           match setLeafCmd p name argv with
           | Some p' => Some (MkPane d s (done ++ p' :: ps) n c o f k)
           | None => go (done ++ [p]) ps
           end
         end) [] ps
  end.

(* src/cmdman/mux/frame.go:547-562 frameExecutable *)
Definition frameExecutable (exe : string) : string :=
  if decide (exe = "") then default "cmdman" SelfExecutable else exe.

(* src/cmdman/mux/frame.go:522-545 frameComponentArgv *)
Definition frameComponentArgv (exe windowID component : string) : result carveErr (list string) :=
  try argv := WidgetArgv (frameExecutable exe) component in
  Ok (if decide (windowID = "") then argv else argv ++ ["--mux-token"; windowID]).

(** The data and runtime directories of the service, when there is one. *)
(* src/cmdman/mux/frame.go:340-355 adoptManagedEntries *)
Fixpoint adopt_each (argvOpts : PaneArgvOpts) (defName : string) (managed : list (nat * Entry)) (root : PaneSpec)
  : muxprog (result muxErr PaneSpec) :=
  match managed with
  | [] => mret (Ok root)
  | (i, entry) :: managed =>
    r ← ensureFrameCommand (FrameCommandName defName i) (en_Command entry) (en_Hooks entry);
    match r with
    | Err e => mret (Err (FrameEntryFailed defName i e))
    | Ok id =>
      match setLeafCmd root (EntryPaneName i) (paneArgv argvOpts ModeAttach id) with
      | None => mret (Err (FrameEntryNoPane defName i))
      | Some root => adopt_each argvOpts defName managed root
      end
    end
  end.

(* src/cmdman/mux/frame.go:302-356 adoptManagedEntries *)
Definition adoptManagedEntries (svc : option (string * string)) (exe defName : string) (spec : FrameSpec) (root : PaneSpec)
  : muxprog (result muxErr PaneSpec) :=
  match managedEntryIndexes spec with
  | [] => mret (Ok root)
  | (i, entry) :: rest =>
    match svc with
    | None => mret (Err (FrameNeedsService defName i))
    | Some (dataDir, runtimeDir) =>
      adopt_each {| Executable := frameExecutable exe; DataDir := dataDir; RuntimeDir := runtimeDir |}
        defName ((i, entry) :: rest) root
    end
  end.

(** ** Frames *)

(* src/cmdman/mux/frame.go:16-19 frameMainPane *)
Definition frameMainPane : string := "main".

(* src/cmdman/mux/frame.go:269-300 hideFrameOf *)
Definition hideFrameOf (w defName : string) : muxprog (result muxErr unit) :=
  perform (FrameHideFailed defName) (HideFrame w).

(** The window the verb acts on, and the def shown around it. *)
(* src/cmdman/mux/frame.go:168-178 frameTarget *)
Record frameTarget := { ft_windowID : string; ft_shown : string }.

(* src/cmdman/mux/frame.go:211-211 frameTarget.show *)
Definition main_pane : PaneSpec := MkPane "" [] [] frameMainPane [] ∅ false "".

(* src/cmdman/mux/frame.go:199-242 frameTarget.show *)
Definition show (t : frameTarget) (svc : option (string * string)) (exe defName : string) (spec : FrameSpec)
  : muxprog (result muxErr unit) :=
  if decide (ft_shown t = defName) then mret (Ok tt)
  else
    match Carve spec main_pane (Some (frameComponentArgv exe (ft_windowID t))) with
    | Err e => mret (Err (FrameCarveFailed defName e))
    | Ok root =>
      let? root := adoptManagedEntries svc exe defName spec root in
      let? w := ask NewFailed (NewWindow (by_id (ft_windowID t) "")) in
      let? _ := (if decide (ft_shown t = "") then mret (Ok tt) else hideFrameOf w (ft_shown t)) in
      perform (FrameShowFailed defName) (ShowFrame w root frameMainPane defName)
    end.

(* src/cmdman/mux/frame.go:244-267 frameTarget.hide *)
Definition hide (t : frameTarget) : muxprog (result muxErr unit) :=
  let? w := ask (OpenFailed (ft_windowID t)) (OpenWindow (by_id (ft_windowID t) "")) in
  match w with
  | None => mret (Ok tt)
  | Some w => hideFrameOf w (ft_shown t)
  end.

(* src/cmdman/mux/frame.go:407-413 frameTargetPointedAt *)
Definition frameTargetPointedAt (session : string) (env : list string) : bool :=
  negb (bool_decide (session = "")) || inside env.

(* src/cmdman/mux/frame.go:415-443 frameWindowID *)
Definition frameWindowID (session : string) (env : list string) : muxprog (result muxErr string) :=
  if negb (frameTargetPointedAt session env) then mret (Err FrameOutside)
  else
    let? w := ask CurrentWindowFailed (CurrentWindowID session) in
    mret (match w with
          | Some w => Ok w
          | None => if decide (session = "") then Err FrameNoWindow else Err (FrameSessionNoWindow session)
          end).

(* src/cmdman/mux/frame.go:180-197 openFrameTarget *)
Definition openFrameTarget (driver : DriverSpec) (session : string) (env : list string) : muxprog (result muxErr frameTarget) :=
  match resolveServer driver env with
  | Err e => mret (Err e)
  | Ok _ =>
    let? w := frameWindowID session env in
    let? shown := ask (FrameReadFailed w) (ReadWindowState w StateKeyFrameDef) in
    mret (Ok {| ft_windowID := w; ft_shown := shown |})
  end.

(* src/cmdman/mux/frame.go:386-405 FrameTargetWindow *)
Definition FrameTargetWindow (driver : DriverSpec) (session : string) (env : list string) : muxprog (result muxErr (option string)) :=
  if negb (frameTargetPointedAt session env) then mret (Ok None)
  else match resolveServer driver env with
       | Err e => mret (Err e)
       | Ok _ => ask CurrentWindowFailed (CurrentWindowID session)
       end.

(* src/cmdman/mux/frame.go:445-470 resolveFrameDef *)
Definition resolveFrameDef (def configured : string) : result muxErr string :=
  if negb (bool_decide (def = "")) then Ok def
  else if negb (bool_decide (configured = "")) then Ok configured
  else try names := lift_err FrameListFailed ListDefs in Err (FrameNoDef names).

(** The candidates an error message offers are left out. *)
(* src/cmdman/mux/frame.go:472-483 loadFrameSpec *)
Definition loadFrameSpec (defName : string) : result muxErr FrameSpec := lift_err (FrameLoadFailed defName) (LoadDef defName).

(* src/cmdman/mux/frame.go:510-520 nextFrameDef *)
Definition nextFrameDef (names : list string) (shown : string) : string :=
  match list_find (fun n => n = shown) names with
  | None => default "" (head names)
  | Some (i, _) => default "" (names !! ((i + 1) mod length names))
  end.

(* src/cmdman/mux/frame.go:21-60 FrameOptions *)
Record FrameOptions := {
  fop_Def : string;
  fop_Session : string;
  fop_DefaultFrame : string;
  fop_Svc : option (string * string);
  fop_Executable : string;
  fop_Driver : DriverSpec;
  fop_Env : list string;
}.

(* src/cmdman/mux/frame.go:77-99 FrameShow *)
Definition FrameShow (opts : FrameOptions) : muxprog (result muxErr unit) :=
  match resolveFrameDef (fop_Def opts) (fop_DefaultFrame opts) with
  | Err e => mret (Err e)
  | Ok defName =>
    match loadFrameSpec defName with
    | Err e => mret (Err e)
    | Ok spec =>
      let? target := openFrameTarget (fop_Driver opts) (fop_Session opts) (fop_Env opts) in
      show target (fop_Svc opts) (fop_Executable opts) defName spec
    end
  end.

(* src/cmdman/mux/frame.go:101-113 FrameHide *)
Definition FrameHide (opts : FrameOptions) : muxprog (result muxErr unit) :=
  let? target := openFrameTarget (fop_Driver opts) (fop_Session opts) (fop_Env opts) in
  hide target.

(* src/cmdman/mux/frame.go:115-139 FrameCycle *)
Definition FrameCycle (opts : FrameOptions) : muxprog (result muxErr unit) :=
  match ListDefs with
  | Err e => mret (Err (FrameListFailed e))
  | Ok [] => mret (Err FrameNoDefs)
  | Ok names =>
    let? target := openFrameTarget (fop_Driver opts) (fop_Session opts) (fop_Env opts) in
    let next := nextFrameDef names (ft_shown target) in
    match loadFrameSpec next with
    | Err e => mret (Err e)
    | Ok spec => show target (fop_Svc opts) (fop_Executable opts) next spec
    end
  end.

(** The defs on disk, and which window shows which. *)
(* src/cmdman/mux/frame.go:141-166 FrameList *)
Definition FrameList (opts : FrameOptions) : muxprog (result muxErr (list string * gmap string string)) :=
  match ListDefs with
  | Err e => mret (Err (FrameListFailed e))
  | Ok names =>
    match resolveServer (fop_Driver opts) (fop_Env opts) with
    | Err e => mret (Err e)
    | Ok _ =>
      let? rows := ask EnumerateFailed (ListWindows (fop_Session opts) "" []) in
      mret (Ok (names, foldl (fun m r => if decide (wn_Frame r = "") then m else <[wn_WindowID r := wn_Frame r]> m) ∅ rows))
    end
  end.
End Mux.
