(* ===== verification/MuxRun.v ===== *)
(** * Dashboards on a multiplexer

    [cmdman/mux]: bringing a dashboard up ([run.go]), landing on it ([land.go]), tearing
    it down ([down.go]), listing ([list.go], [current.go]), cycling the replica a pane
    shows ([cycle_scale.go]), and what compose makes of it ([compose/mux.go]). *)

From S2P Require Import Config Prelude GoStr LogDriver Model ComposeSpec Normalize Prog MuxCtl Mux Select Frame MuxFrame.

Section Mux.
Context (registered : string -> bool)
        (Connect : DriverSpec -> option muxErrText)
        (LoadDef : string -> result frameFileErr FrameSpec)
        (SelfExecutable : option string).

Notation server_of := (resolveServer registered Connect).

(** ** Up *)

(* src/cmdman/mux/run.go:17-95 RunOptions *)
Record RunOptions := {
  ro_SessionName : string;
  ro_WindowName : string;
  ro_Identity : string;
  ro_KeepCurrentWindow : bool;
  ro_Layout : string;
  ro_KeepLayout : bool;
  ro_DefaultFrame : string;
  ro_Svc : option (string * string);
  ro_Env : list string;
}.

(** The index of the layout that comes next, from the marker of the window. *)
(* src/cmdman/mux/run.go:235-245 Run *)
Definition next_layout (keep : bool) (marker : Z) (n : nat) : nat :=
  if decide (0 <= marker)%Z then
    if keep then Nat.min (Z.to_nat marker) (n - 1) else Z.to_nat ((marker + 1) mod Z.of_nat n)
  else 0.

(* src/cmdman/mux/run.go:268-305 showDefaultFrame *)
Definition showDefaultFrame (w defName : string) (svc : option (string * string)) : muxprog (result muxErr unit) :=
  if decide (defName = "") then mret (Ok tt)
  else
    let? shown := ask (FrameReadFailed w) (ReadWindowState w StateKeyFrameDef) in
    if negb (bool_decide (shown = "")) then mret (Ok tt)
    else match loadFrameSpec LoadDef defName with
         | Err e => mret (Err e)
         | Ok spec => show SelfExecutable {| ft_windowID := w; ft_shown := shown |} svc "" defName spec
         end.

(** The layout that was asked for; none cycles. *)
(* src/cmdman/mux/run.go:177-186 Run *)
Definition explicit_layout (selector : string) (layouts : list Layout) : result muxErr (option nat) :=
  if decide (selector = "") then Ok None else try i := resolveLayoutIndex selector layouts in Ok (Some i).

(** The window to build on, and its session. *)
(* src/cmdman/mux/run.go:200-222 Run *)
Definition run_config (opts : RunOptions) (rows : list Window) (sessionName windowName identity : string) (reuse : bool)
  : MuxConfig * string :=
  match pickOwnedWindow rows sessionName with
  | Some row => (by_id (wn_WindowID row) identity, wn_SessionName row)
  | None =>
    ({| mc_SessionName := sessionName; mc_WindowName := windowName; mc_WindowID := ""; mc_OwnedIdentity := identity;
        mc_ReuseCurrentWindow := reuse; mc_StartDirectory := ""; mc_ViewerDetachKeys := viewerDetachKeys |}, sessionName)
  end.

(** Building on the window: the layout, the frame, and the hint. *)
(* src/cmdman/mux/run.go:229-265 Run *)
Definition run_on (opts : RunOptions) (spec : MuxSpec) (explicit : option nat) (w attachSession : string) : muxprog (result muxErr unit) :=
  let? next := match explicit with
               | Some i => mret (Ok i)
               | None => let? marker := ask StatFailed (StatMarker w) in
                         mret (Ok (next_layout (ro_KeepLayout opts) marker (length (Layouts spec))))
               end in
  match Layouts spec !! next with
  | None => mret (Err NoLayouts)
  | Some l =>
    let? _ := perform ApplyFailed (ApplyLayout w (Root l) next) in
    r ← showDefaultFrame w (ro_DefaultFrame opts) (ro_Svc opts);
    _ ← match r with Ok _ => mret tt | Err _ => call (Warn (ro_DefaultFrame opts)) end;
    _ ← (if inside (ro_Env opts) then mret tt else call (PrintLine (AttachHint attachSession)));
    mret (Ok tt)
  end.

(* src/cmdman/mux/run.go:106-266 Run *)
Definition Run (spec : MuxSpec) (opts : RunOptions) : muxprog (result muxErr unit) :=
  if decide (Layouts spec = []) then mret (Err NoLayouts)
  else match server_of (Driver spec) (ro_Env opts) with
       | Err e => mret (Err e)
       | Ok _ =>
         sessionName ← resolveSessionName (ro_SessionName opts) (ro_Env opts);
         let windowName := if decide (ro_WindowName opts = "") then sessionName else ro_WindowName opts in
         let identity := deriveIdentity (ro_Identity opts) (ro_WindowName opts) sessionName in
         let reuse := bool_decide (ro_SessionName opts = "") && negb (ro_KeepCurrentWindow opts) &&
                      negb (bool_decide (envOf (ro_Env opts) "TMUX" = "")) in
         match explicit_layout (ro_Layout opts) (Layouts spec) with
         | Err e => mret (Err e)
         | Ok explicit =>
           let? rows := ask EnumerateFailed (ListWindows (ro_SessionName opts) identity []) in
           let '(cfg, attachSession) := run_config opts rows sessionName windowName identity reuse in
           let? w := ask NewFailed (NewWindow cfg) in
           run_on opts spec explicit w attachSession
         end
       end.

(** ** Land *)

(* src/cmdman/mux/land.go:11-40 LandOptions *)
Record LandOptions := {
  lo_Driver : DriverSpec;
  lo_SessionName : string;
  lo_WindowName : string;
  lo_Identity : string;
  lo_WorkDir : string;
  lo_Env : list string;
}.

(* src/cmdman/mux/land.go:42-56 LandResult *)
Record LandResult := { lr_SessionName : string; lr_WindowID : string; lr_Created : bool; lr_AttachCommand : option (list string) }.

(** The window to land on, created when there is none. *)
(* src/cmdman/mux/land.go:111-130 Land *)
Definition land_window (opts : LandOptions) (rows : list Window) (sessionName windowName identity : string)
  : muxprog (result muxErr LandResult) :=
  match pickOwnedWindow rows sessionName with
  | Some row => mret (Ok {| lr_SessionName := wn_SessionName row; lr_WindowID := wn_WindowID row; lr_Created := false; lr_AttachCommand := None |})
  | None =>
    let? w := ask NewFailed (NewWindow {| mc_SessionName := sessionName; mc_WindowName := windowName; mc_WindowID := "";
                                          mc_OwnedIdentity := identity; mc_ReuseCurrentWindow := false;
                                          mc_StartDirectory := lo_WorkDir opts; mc_ViewerDetachKeys := [] |}) in
    mret (Ok {| lr_SessionName := sessionName; lr_WindowID := w; lr_Created := true; lr_AttachCommand := None |})
  end.

(** What comes with an error is the result so far. *)
(* src/cmdman/mux/land.go:58-144 Land *)
Definition Land (opts : LandOptions) : muxprog (option LandResult * option muxErr) :=
  match server_of (lo_Driver opts) (lo_Env opts) with
  | Err e => mret (None, Some e)
  | Ok _ =>
    callerSession ← resolveSessionName "" (lo_Env opts);
    let sessionName := if decide (lo_SessionName opts = "") then callerSession else lo_SessionName opts in
    let windowName := if decide (lo_WindowName opts = "") then sessionName else lo_WindowName opts in
    let identity := deriveIdentity (lo_Identity opts) (lo_WindowName opts) sessionName in
    rows ← ask EnumerateFailed (ListWindows (lo_SessionName opts) identity []);
    match rows with
    | Err e => mret (None, Some e)
    | Ok rows =>
      r ← land_window opts rows sessionName windowName identity;
      match r with
      | Err e => mret (None, Some e)
      | Ok res =>
        let within := inside (lo_Env opts) in
        f ← call (FocusWindow (lr_WindowID res) {| fo_SwitchClient := within; fo_ClientSession := if within then callerSession else "" |});
        match f with
        | Some e => mret (Some res, Some (FocusFailed (lr_WindowID res) e))
        | None =>
          if within then mret (Some res, None)
          else
            argv ← call (AttachCommand (lr_SessionName res));
            mret (Some {| lr_SessionName := lr_SessionName res; lr_WindowID := lr_WindowID res; lr_Created := lr_Created res;
                          lr_AttachCommand := Some argv |}, None)
        end
      end
    end
  end.

(** ** Down *)

(* src/cmdman/mux/down.go:13-60 DownOptions *)
Record DownOptions := {
  do_Driver : DriverSpec;
  do_SessionName : string;
  do_WindowName : string;
  do_Identity : string;
  do_Env : list string;
  do_KillCreated : bool;
}.

(** One window of the identity: closed, or restored. *)
(* src/cmdman/mux/down.go:182-224 Down *)
Definition down_one (killCreated : bool) (self : string) (row : Window) : muxprog (option muxErr) :=
  s ← call (OpenWindow (by_id (wn_WindowID row) ""));
  match s with
  | Err e => mret (Some (OpenFailed (wn_WindowID row) e))
  | Ok None => mret None
  | Ok (Some w) =>
    if killCreated && wn_Created row && negb (bool_decide (wn_WindowID row = self)) then
      e ← call (CloseWindow w);
      match e with
      | Some e => mret (Some (CloseFailed (wn_WindowID row) e))
      | None => _ ← call (PrintLine (RemovedWindow (wn_WindowName row) (wn_WindowID row) (wn_SessionName row))); mret None
      end
    else
      e ← call (DetachWindow w);
      match e with
      | Some e => mret (Some (DetachFailed (wn_WindowID row) e))
      | None => _ ← call (PrintLine (RestoredWindow (wn_WindowName row) (wn_WindowID row) (wn_SessionName row))); mret None
      end
  end.

(* src/cmdman/mux/down.go:180-226 Down *)
Fixpoint down_each (killCreated : bool) (self : string) (rows : list Window) : muxprog (list muxErr) :=
  match rows with
  | [] => mret []
  | row :: rows =>
    e ← down_one killCreated self row;
    errs ← down_each killCreated self rows;
    mret (option_list e ++ errs)
  end.

(* src/cmdman/mux/down.go:173-178 Down *)
Definition self_window (killCreated : bool) : muxprog string :=
  if killCreated then
    r ← call EnclosingWindowID;
    mret (match r with Ok (Some w) => w | _ => "" end)
  else mret "".

(* src/cmdman/mux/down.go:62-227 Down *)
Definition MuxDown (opts : DownOptions) : muxprog (list muxErr) :=
  match server_of (do_Driver opts) (do_Env opts) with
  | Err e => mret [e]
  | Ok _ =>
    identity ← (if decide (do_Identity opts = "") then currentIdentity (do_SessionName opts) (do_WindowName opts) (do_Env opts)
                else mret (do_Identity opts));
    rows ← ask EnumerateFailed (ListWindows (do_SessionName opts) identity []);
    match rows with
    | Err e => mret [e]
    | Ok [] => _ ← call (PrintLine (NoDashboardFor identity (do_SessionName opts))); mret []
    | Ok rows =>
      self ← self_window (do_KillCreated opts);
      down_each (do_KillCreated opts) self rows
    end
  end.

(** ** Listing *)

(* src/cmdman/mux/list.go:11-50 OwnedWindow *)
Record OwnedWindow := { ow_Window : Window; ow_ScalePositions : gmap string Z }.

(* src/cmdman/mux/list.go:111-120 List *)
Definition owned_window (r : Window) : OwnedWindow :=
  {| ow_Window := r; ow_ScalePositions := decodeScalePositions (default "" (wn_State r !! StateKeyScale)) |}.

(* src/cmdman/mux/list.go:74-123 List *)
Definition MuxList (driver : DriverSpec) (sessionName identity : string) (env : list string) : muxprog (result muxErr (list OwnedWindow)) :=
  match server_of driver env with
  | Err e => mret (Err e)
  | Ok _ =>
    let? rows := ask EnumerateFailed (ListWindows sessionName identity [StateKeyScale]) in
    mret (Ok (map owned_window rows))
  end.

(* src/cmdman/mux/current.go:25-52 CurrentWindowID *)
Definition MuxCurrentWindowID (driver : DriverSpec) (sessionName : string) (env : list string) : muxprog (result muxErr (option string)) :=
  match server_of driver env with
  | Err e => mret (Err e)
  | Ok _ => ask CurrentWindowFailed (CurrentWindowID sessionName)
  end.

(** ** Cycling *)

(* src/cmdman/mux/cycle_scale.go:298-333 ReadScaleState *)
Definition ReadScaleState (driver : DriverSpec) (sessionName identity : string) (env : list string) : muxprog (result muxErr (gmap string Z)) :=
  match server_of driver env with
  | Err e => mret (Err e)
  | Ok _ =>
    let? rows := ask EnumerateFailed (ListWindows sessionName identity [StateKeyScale]) in
    mret (Ok (foldl (fun m r => ow_ScalePositions (owned_window r) ∪ m) ∅ rows))
  end.

(* src/cmdman/mux/cycle_scale.go:265-296 writeScalePosition *)
Definition writeScalePosition (w command : string) (pos : Z) : muxprog (result muxErr unit) :=
  let? raw := ask (WritePositionFailed w command) (ReadWindowState w StateKeyScale) in
  let m := decodeScalePositions raw in
  let m := if decide (pos <= 0)%Z then delete command m else <[command := pos]> m in
  perform (WritePositionFailed w command) (WriteWindowState w StateKeyScale (encodeScalePositions m)).

(* src/cmdman/mux/cycle_scale.go:36-56 CycleScaleWindowResult *)
Record CycleWindow := {
  cw_Window : Window;
  cw_OldPosition : Z;
  cw_NewPosition : Z;
  cw_ResolvedName : string;
  cw_Visible : bool;
  cw_LayoutName : string;
}.

(* src/cmdman/mux/cycle_scale.go:146-151 cycleScaleWindow *)
Definition cw_base (row : Window) : CycleWindow :=
  {| cw_Window := row; cw_OldPosition := 0; cw_NewPosition := 0; cw_ResolvedName := ""; cw_Visible := false; cw_LayoutName := "" |}.

(* src/cmdman/mux/cycle_scale.go:13-34 CycleScaleOptions *)
Record CycleOptions := {
  co_Spec : Spec;
  co_Resolver : string -> Z -> result muxErrText string;
  co_Replicas : option (string -> result muxErrText Z);
  co_Opts : PaneArgvOpts;
  co_Identity : string;
  co_SessionName : string;
  co_Command : string;
  co_Position : Z;
  co_Env : list string;
}.

(** The pane that shows the command, when there is one, and the stored position. *)
(* src/cmdman/mux/cycle_scale.go:204-262 cycleScaleWindow *)
Definition respawn_and_store (opts : CycleOptions) (layout : MuxLayout) (row : Window) (id : string) (base : CycleWindow)
  : muxprog (CycleWindow * option muxErr) :=
  let wid := wn_WindowID row in
  s ← call (OpenWindow (by_id wid ""));
  match s with
  | Err e => mret (base, Some (OpenFailed wid e))
  | Ok None => mret (base, None)
  | Ok (Some w) =>
    p ← call (FindPane wid (co_Command opts));
    match p with
    | Err e => mret (base, Some (FindPaneFailed wid (co_Command opts) e))
    | Ok pane =>
      let base := {| cw_Window := row; cw_OldPosition := cw_OldPosition base; cw_NewPosition := cw_NewPosition base;
                     cw_ResolvedName := cw_ResolvedName base; cw_Visible := bool_decide (is_Some pane); cw_LayoutName := cw_LayoutName base |} in
      r ← match pane with
          | None => mret (Ok tt)
          | Some pane =>
            match findUnpinnedLeaf layout (co_Command opts) with
            | None => mret (Err (LeafGone wid (co_Command opts) (ml_Name layout)))
            | Some leaf =>
              perform (RespawnFailed wid pane)
                (RespawnLeaf w pane (cw_ResolvedName base) (paneArgv (co_Opts opts) (mp_Mode leaf) id) (mp_CmdOpt leaf) (co_Command opts))
            end
          end;
      match r with
      | Err e => mret (base, Some e)
      | Ok _ =>
        r ← writeScalePosition wid (co_Command opts) (cw_NewPosition base);
        mret (base, match r with Ok _ => None | Err e => Some e end)
      end
    end
  end.

(* src/cmdman/mux/cycle_scale.go:137-263 cycleScaleWindow *)
Definition cycleScaleWindow (count : string -> result muxErrText Z) (opts : CycleOptions) (row : Window)
  : muxprog (CycleWindow * option muxErr) :=
  let base := cw_base row in
  let wid := wn_WindowID row in
  let command := co_Command opts in
  let layouts := spec_Layouts (co_Spec opts) in
  match (if decide (wn_Marker row < 0)%Z then None else layouts !! Z.to_nat (wn_Marker row)) with
  | None => mret (base, Some (MarkerRange wid (wn_Marker row) (length layouts)))
  | Some layout =>
    let base := {| cw_Window := row; cw_OldPosition := 0; cw_NewPosition := 0; cw_ResolvedName := ""; cw_Visible := false;
                   cw_LayoutName := ml_Name layout |} in
    match count command with
    | Err e => mret (base, Some (CountFailed wid command e))
    | Ok n =>
      let n := Z.max n 1 in
      let stored := default 1%Z (decodeScalePositions (default "" (wn_State row !! StateKeyScale)) !! command) in
      let curPos := wrap_position stored n in
      let base := {| cw_Window := row; cw_OldPosition := curPos; cw_NewPosition := 0; cw_ResolvedName := ""; cw_Visible := false;
                     cw_LayoutName := ml_Name layout |} in
      match computeTargetPosition curPos (co_Position opts) n (pinnedScaleIndices layout command) with
      | Err e => mret (base, Some (PositionFailed wid command e))
      | Ok pos =>
        match co_Resolver opts command pos with
        | Err e => mret ({| cw_Window := row; cw_OldPosition := curPos; cw_NewPosition := pos; cw_ResolvedName := ""; cw_Visible := false;
                            cw_LayoutName := ml_Name layout |}, Some (ResolveReplicaFailed wid command pos e))
        | Ok id =>
          respawn_and_store opts layout row id
            {| cw_Window := row; cw_OldPosition := curPos; cw_NewPosition := pos; cw_ResolvedName := command +:+ "-" +:+ Itoa pos;
               cw_Visible := false; cw_LayoutName := ml_Name layout |}
        end
      end
    end
  end.

(** The window id of a row is never empty, so a failed window's result is kept too. *)
(* src/cmdman/mux/cycle_scale.go:121-134 CycleScale *)
Fixpoint cycle_each (count : string -> result muxErrText Z) (opts : CycleOptions) (rows : list Window)
  : muxprog (list CycleWindow * list muxErr) :=
  match rows with
  | [] => mret ([], [])
  | row :: rows =>
    '(res, e) ← cycleScaleWindow count opts row;
    '(results, errs) ← cycle_each count opts rows;
    mret (if bool_decide (is_Some e) && bool_decide (wn_WindowID (cw_Window res) = "") then (results, option_list e ++ errs)
          else (res :: results, option_list e ++ errs))
  end.

(* src/cmdman/mux/cycle_scale.go:77-133 CycleScale *)
Definition CycleScale (opts : CycleOptions) : muxprog (list CycleWindow * list muxErr) :=
  match co_Replicas opts with
  | None => mret ([], [NotCycleTarget (co_Command opts)])
  | Some count =>
    if negb (isCycleScaleTarget (co_Spec opts) (co_Command opts) true) then mret ([], [NotCycleTarget (co_Command opts)])
    else match server_of (spec_Driver (co_Spec opts)) (co_Env opts) with
         | Err e => mret ([], [e])
         | Ok _ =>
           rows ← ask EnumerateFailed (ListWindows (co_SessionName opts) (co_Identity opts) [StateKeyScale]);
           match rows with
           | Err e => mret ([], [e])
           | Ok [] => mret ([], [NoDashboard])
           | Ok rows => cycle_each count opts rows
           end
         end
  end.
End Mux.

(** ** The positions of a project *)

(** One position of one window: what is agreed on, and what is not any more. *)
(* src/cmdman/compose/mux.go:384-395 agreedScalePositions *)
Definition agree_step (st : gmap string Z * gset string) (kv : string * Z) : gmap string Z * gset string :=
  let '(agreed, diverged) := st in
  let '(command, pos) := kv in
  if decide (command ∈ diverged) then st
  else match agreed !! command with
       | None => (<[command := pos]> agreed, diverged)
       | Some prev => if decide (prev = pos) then st else (delete command agreed, {[command]} ∪ diverged)
       end.

(** Each window's positions come in any order. *)
(* src/cmdman/compose/mux.go:375-401 agreedScalePositions *)
Definition agreedScalePositions (order : gmap string Z -> list (string * Z)) (windows : list (gmap string Z)) : gmap string Z :=
  (foldl (fun st w => foldl agree_step st (order w)) (∅, ∅) windows).1.
