(* ===== verification/MuxProps.v ===== *)
(** * What the multiplexer verbs guarantee

    Theorems about every run of the programs of [MuxFrame.v] and [MuxRun.v], whatever the
    multiplexer and the service answer: which windows are built on and closed, which layout
    and which def comes next, and how frames and the commands behind them are handled. *)

From S2P Require Import Config Prelude GoStr LogDriver Model ComposeSpec Normalize Prog MuxCtl Mux Select Frame FrameProps MuxFrame MuxRun.

(** ** Agreed positions *)

Section Agreed.
Context (order : gmap string Z -> list (string * Z)) (order_perm : forall m, order m ≡ₚ map_to_list m).

(** All positions of a command agree with one of them, or one differs. *)
Lemma agree_or_differ (l : list (string * Z)) c p :
  (forall q, (c, q) ∈ l -> q = p) \/ exists q, (c, q) ∈ l /\ p <> q.
Proof.
  destruct (decide (Exists (fun kv => kv.1 = c /\ kv.2 <> p) l)) as [([c' q] & Hin & Hc & Hq)%Exists_exists|H].
  - simpl in *. subst c'. right. eauto.
  - left. intros q Hq. apply not_Exists_Forall in H; [|solve_decision]. rewrite Forall_forall in H. specialize (H _ Hq). simpl in H.
    destruct (decide (q = p)); [done|tauto].
Qed.

(** The state after some positions [l] were seen. *)
Definition agree_inv (l : list (string * Z)) (st : gmap string Z * gset string) : Prop :=
  forall c,
    (c ∈ st.2 <-> exists p q, (c, p) ∈ l /\ (c, q) ∈ l /\ p <> q) /\
    (forall p, st.1 !! c = Some p <-> (c, p) ∈ l /\ forall q, (c, q) ∈ l -> q = p).

Lemma other_position (l : list (string * Z)) c d p v : c <> d -> (c, p) ∈ l ++ [(d, v)] <-> (c, p) ∈ l.
Proof. rewrite elem_of_app, list_elem_of_singleton. intros H. split; [intros [?|[= ? ?]]; done|by left]. Qed.

Lemma same_position (l : list (string * Z)) d p v : (d, p) ∈ l ++ [(d, v)] <-> (d, p) ∈ l \/ p = v.
Proof. rewrite elem_of_app, list_elem_of_singleton. split; (intros [?|H]; [by left|right; congruence]). Qed.

Lemma agree_step_inv l st kv : agree_inv l st -> agree_inv (l ++ [kv]) (agree_step st kv).
Proof.
  destruct st as [agreed diverged], kv as [d v]. intros Hi c. unfold agree_step. destruct (Hi d) as [Hd1 Hd2].
  destruct (Hi c) as [Hc1 Hc2]. simpl in *. destruct (decide (c = d)) as [->|Hcd].
  2:{ setoid_rewrite (other_position l c d _ v Hcd). destruct (decide (d ∈ diverged)); [done|].
      destruct (agreed !! d) as [prev|]; [destruct (decide (prev = v)); [done|]|]; simpl.
      - rewrite lookup_delete_ne, elem_of_union, elem_of_singleton by done. split; [|done]. rewrite <- Hc1. tauto.
      - by rewrite lookup_insert_ne by done. }
  clear Hc1 Hc2. setoid_rewrite (same_position l d _ v). destruct (decide (d ∈ diverged)) as [Hin|Hin]; simpl.
  - apply Hd1 in Hin as Hpq. destruct Hpq as (p & q & Hp & Hq & Hne). split; [split; [eauto 8|done]|]. intros x. rewrite Hd2. split.
    + intros [_ H]. exfalso. apply Hne. by rewrite (H p Hp), (H q Hq).
    + intros [_ H]. exfalso. apply Hne. by rewrite (H p (or_introl Hp)), (H q (or_introl Hq)).
  - destruct (agreed !! d) as [prev|] eqn:Ed.
    + destruct (proj1 (Hd2 prev) eq_refl) as [Hpd Hall]. destruct (decide (prev = v)) as [->|Hne]; simpl.
      * split; [split; [done|]|]; [intros (p & q & Hp & Hq & Hne); exfalso; apply Hne|].
        { transitivity v; [|symmetry]; (destruct Hp as [Hp|Hp], Hq as [Hq|Hq]; auto). }
        intros x. rewrite ?Ed. split; [intros [= ->]; split; [by left|intros q [Hq| ->]; auto]|].
        intros [_ H]. f_equal. symmetry. rewrite <- (H v) by (by left). done.
      * split; [split; [intros _; exists prev, v; auto|set_solver]|]. intros x. rewrite lookup_delete_eq. split; [done|].
        intros [_ H]. exfalso. apply Hne. by rewrite (H prev (or_introl Hpd)), (H v (or_intror eq_refl)).
    + assert (Hno : forall p, (d, p) ∉ l).
      { intros p Hp. destruct (agree_or_differ l d p) as [H|(q & Hq & Hne)].
        - discriminate (proj2 (Hd2 p) (conj Hp H)).
        - apply Hin, Hd1. eauto 6. }
      simpl. split; [split; [done|]|]; [intros (p & q & [Hp| ->] & [Hq| ->] & Hne); exfalso; try done; by eapply Hno|].
      intros x. rewrite lookup_insert_eq. split; [intros [= <-]; split; [by right|intros q [Hq|Hq]; [by edestruct Hno|done]]|].
      intros [[Hx| ->] _]; [by edestruct Hno|done].
Qed.

Lemma agree_fold l l' st : agree_inv l st -> agree_inv (l ++ l') (foldl agree_step st l').
Proof.
  revert l st. induction l' as [|kv l' IH]; intros l st H; simpl; [by rewrite app_nil_r|].
  change (kv :: l') with ([kv] ++ l'). rewrite app_assoc. by apply IH, agree_step_inv.
Qed.

Lemma agree_windows windows l st :
  agree_inv l st -> agree_inv (l ++ concat (map order windows)) (foldl (fun st w => foldl agree_step st (order w)) st windows).
Proof.
  revert l st. induction windows as [|w windows IH]; intros l st H; simpl; [by rewrite app_nil_r|].
  rewrite app_assoc. by apply IH, agree_fold.
Qed.

(** A project's command is reported at a position exactly when some window holds that
    position for it and no window holds another one, whatever the order in which windows
    and commands are visited; windows without a position do not count. *)
Theorem agreedScalePositions_exact windows c p :
  agreedScalePositions order windows !! c = Some p <->
  (exists w, w ∈ windows /\ w !! c = Some p) /\ forall w q, w ∈ windows -> w !! c = Some q -> q = p.
Proof.
  assert (H0 : agree_inv [] (∅, ∅)).
  { intros d. simpl. split; [set_solver|]. intros x. rewrite lookup_empty. set_solver. }
  pose proof (agree_windows windows [] _ H0 c) as [_ H]. unfold agreedScalePositions. rewrite H. clear H H0. simpl.
  assert (He : forall q, (c, q) ∈ concat (map order windows) <-> exists w, w ∈ windows /\ w !! c = Some q).
  { intros q. rewrite list_elem_of_In, in_concat. split.
    - intros (l & (w & <- & Hw)%in_map_iff & Hq). exists w. split; [by apply list_elem_of_In|].
      apply list_elem_of_In in Hq. rewrite order_perm in Hq. by apply elem_of_map_to_list.
    - intros (w & Hw & Hq). exists (order w). split; [by apply in_map, list_elem_of_In|].
      apply list_elem_of_In. rewrite order_perm. by apply elem_of_map_to_list. }
  rewrite He. split; (intros [H1 H2]; split; [done|]).
  - intros w q Hw Hq. apply H2, He. eauto.
  - intros q (w & Hw & Hq)%He. eauto.
Qed.
End Agreed.

(** ** Programs that may fail *)

Lemma run_ask {A} f (e : muxE (result muxErrText A)) tr r :
  run (ask f e) tr r <-> exists x, tr = [Act e x] /\ r = lift_err f x.
Proof.
  unfold ask. rewrite run_bind. split.
  - intros (x & t1 & t2 & -> & ->%run_call & [-> ->]%run_ret). rewrite app_nil_r. eauto.
  - intros (x & -> & ->). exists x, [Act e x], []. split; [done|]. split; [by apply run_call|done].
Qed.

Lemma run_perform f (e : muxE (option muxErrText)) tr r :
  run (perform f e) tr r <-> exists x, tr = [Act e x] /\ r = match x with None => Ok tt | Some t => Err (f t) end.
Proof.
  unfold perform. rewrite run_bind. split.
  - intros (x & t1 & t2 & -> & ->%run_call & [-> ->]%run_ret). rewrite app_nil_r. eauto.
  - intros (x & -> & ->). exists x, [Act e x], []. split; [done|]. split; [by apply run_call|done].
Qed.

(** Takes one step off: an answer, or the error that ends the program. *)
Tactic Notation "inv_ask" hyp(H) "as" simple_intropattern(x) ident(e) :=
  let t := fresh "t" in let Hx := fresh "Hx" in let y := fresh "y" in
  inv_run H as y t Hx; first [apply run_ask in Hx as ([x|e] & -> & ->)|apply run_perform in Hx as ([e|] & -> & ->)]; cbn [lift_err] in H.

(** ** Frames *)

Section Frames.
Context (SelfExecutable : option string).

Notation ensure := ensureFrameCommand.
Notation show_of := (show SelfExecutable).

(** A managed entry shows the command of its name: as it stands when it runs, started
    again when it does not, and created and started only when there is none. *)
Theorem managed_command_adopted name argv hooks tr id :
  run (ensure name argv hooks) tr (Ok id) ->
  exists commands t, tr = Act SvcListCommands (Ok commands) :: t /\
  match filter (fun c => cst_Name c = name) commands with
  | c :: _ => id = cst_ID c /\
      (cst_State c ∈ [EventTypeRunning; EventTypeStarting] /\ t = [] \/
       cst_State c ∉ [EventTypeRunning; EventTypeStarting] /\ t = [Act (SvcStartCommand id) None])
  | [] => t = [Act (SvcCreateCommand (frameCommandSpec name argv hooks)) (Ok id); Act (SvcStartCommand id) None]
  end.
Proof.
  unfold ensure. destruct (bool_decide (name = "")); [intros H; inv_ret H|]. intros H. inv_ask H as commands e; [|inv_ret H].
  exists commands, t'. split; [done|]. destruct (filter _ commands) as [|c cs].
  - unfold createFrameCommand in H. inv_ask H as nid e; [|inv_ret H]. inv_ask H as u e; inv_ret H. done.
  - destruct (_ || _) eqn:Er; [inv_ret H|inv_ask H as u e; inv_ret H]; (split; [done|]).
    + left. split; [|done]. apply orb_true_iff in Er as [E|E]; apply bool_decide_eq_true in E; rewrite E; set_solver.
    + right. split; [|done]. apply orb_false_iff in Er as [E1 E2]. apply bool_decide_eq_false in E1, E2. set_solver.
Qed.

Definition is_show (a : muxact) : Prop := match a with Act (ShowFrame _ _ _ _) _ => True | _ => False end.
Definition is_svc (a : muxact) : Prop :=
  match a with Act SvcListCommands _ | Act (SvcCreateCommand _) _ | Act (SvcStartCommand _) _ => True | _ => False end.

Ltac acts := repeat first [apply Forall_nil_2 | apply Forall_cons_2; [first [exact I | exact (fun f => f)]|] | apply Forall_app_2]; try done.

Lemma ensure_acts name argv hooks tr r : run (ensure name argv hooks) tr r -> Forall is_svc tr.
Proof.
  unfold ensure. destruct (bool_decide (name = "")); [intros H; inv_ret H; acts|]. intros H. inv_ask H as commands e; [|inv_ret H; acts].
  apply Forall_cons_2; [exact I|]. destruct (filter _ commands) as [|c cs].
  - unfold createFrameCommand in H. inv_ask H as nid e; [|inv_ret H; acts]. inv_ask H as u e; inv_ret H; acts.
  - destruct (_ || _); [inv_ret H; acts|inv_ask H as u e; inv_ret H; acts].
Qed.

Lemma adopt_acts svc exe def spec root tr r : run (adoptManagedEntries SelfExecutable svc exe def spec root) tr r -> Forall is_svc tr.
Proof.
  unfold adoptManagedEntries. destruct (managedEntryIndexes spec) as [|[i entry] rest]; [intros H; inv_ret H; acts|].
  destruct svc as [[d rd]|]; [|intros H; inv_ret H; acts]. generalize ((i, entry) :: rest) as l. clear i entry rest. intros l.
  revert root tr. induction l as [|[i entry] l IH]; intros root tr H; cbn [adopt_each] in H; [inv_ret H; acts|].
  inv_run H as [id|e] t1 H1; apply ensure_acts in H1; [|inv_ret H; rewrite app_nil_r; done].
  destruct (setLeafCmd _ _ _); [|inv_ret H; rewrite app_nil_r; done]. apply Forall_app. split; [done|by eapply IH].
Qed.

(** Showing a frame never stacks two of them.  The def already shown is left alone;
    otherwise the frame is shown in the last call, once, and when another def was shown
    only after the window's frame was hidden with success.  Whatever goes wrong before
    that call leaves the window without a new frame. *)
Theorem show_never_stacks t svc exe def spec tr r :
  run (show_of t svc exe def spec) tr r ->
  (ft_shown t = def -> tr = [] /\ r = Ok tt) /\
  (ft_shown t <> def ->
     (Forall (fun a => ~ is_show a) tr /\ exists e, r = Err e) \/
     exists t1 w root x, tr = t1 ++ [Act (ShowFrame w root frameMainPane def) x] /\ Forall (fun a => ~ is_show a) t1 /\
       Act (NewWindow (by_id (ft_windowID t) "")) (Ok w) ∈ t1 /\
       (ft_shown t = "" \/ Act (HideFrame w) None ∈ t1) /\ (r = Ok tt <-> x = None)).
Proof.
  unfold show. destruct (decide (ft_shown t = def)) as [Hd|Hd]; intros H; [inv_ret H; done|]. split; [done|]. intros _.
  destruct (Carve _ _ _) as [root|e]; [|inv_ret H; left; split; [acts|eauto]].
  inv_run H as r1 t1 H1. apply adopt_acts in H1. assert (H1' : Forall (fun a => ~ is_show a) t1).
  { eapply Forall_impl; [exact H1|]. intros [X [] x]; simpl; tauto. }
  destruct r1 as [root'|e]; [|inv_ret H; left; split; [by rewrite app_nil_r|eauto]]. inv_ask H as w e.
  2:{ inv_ret H. left. split; [acts|eauto]. }
  inv_run H as r2 t2 H2. destruct (decide (ft_shown t = "")) as [Hs|Hs].
  - apply run_ret in H2 as [-> ->]. apply run_perform in H as (x & -> & ->). right.
    exists (t1 ++ [Act (NewWindow (by_id (ft_windowID t) "")) (Ok w)]), w, root', x. rewrite <- app_assoc. split; [done|].
    split; [acts|]. split; [apply elem_of_app; right; left|]. split; [by left|]. by destruct x.
  - apply run_perform in H2 as (x & -> & ->). destruct x as [e|].
    + inv_ret H. left. split; [acts|eauto].
    + apply run_perform in H as (y & -> & ->). right.
      exists (t1 ++ [Act (NewWindow (by_id (ft_windowID t) "")) (Ok w); Act (HideFrame w) None]), w, root', y. rewrite <- app_assoc.
      split; [done|]. split; [acts|]. split; [apply elem_of_app; right; left|].
      split; [right; apply elem_of_app; right; right; left|]. by destruct y.
Qed.
End Frames.

(** ** Cycling through defs and layouts *)

Lemma next_def_at names i s :
  NoDup names -> names !! i = Some s ->
  names !! ((i + 1) mod length names) = Some (nextFrameDef names s).
Proof.
  intros Hd Hi. pose proof (lookup_lt_Some _ _ _ Hi) as Hlt. unfold nextFrameDef.
  assert (Hf : list_find (fun n => n = s) names = Some (i, s)).
  { apply list_find_Some. split; [done|split; [done|]]. intros j y Hj Hji ->.
    pose proof (NoDup_lookup _ _ _ _ Hd Hi Hj). lia. }
  rewrite Hf. destruct (lookup_lt_is_Some_2 names ((i + 1) mod length names)) as [y Hy]; [apply Nat.mod_upper_bound; lia|]. by rewrite Hy.
Qed.

Lemma iter_def_at names i s k :
  NoDup names -> names !! i = Some s -> names !! ((i + k) mod length names) = Some (Nat.iter k (nextFrameDef names) s).
Proof.
  intros Hd Hi. pose proof (lookup_lt_Some _ _ _ Hi) as Hlt. induction k as [|k IH]; [by rewrite Nat.add_0_r, Nat.mod_small|].
  simpl. rewrite <- (next_def_at names ((i + k) mod length names) _ Hd IH), Nat.Div0.add_mod_idemp_l. f_equal. f_equal. lia.
Qed.

(** Cycling shows every def, each time round, from whatever the window shows now. *)
Theorem cycle_visits_all_defs names shown d :
  NoDup names -> d ∈ names -> exists k, k < length names /\ Nat.iter (S k) (nextFrameDef names) shown = d.
Proof.
  intros Hd [j Hj]%list_elem_of_lookup. pose proof (lookup_lt_Some _ _ _ Hj) as Hlt.
  assert (H0 : exists i, names !! i = Some (nextFrameDef names shown)).
  { destruct (decide (shown ∈ names)) as [[i Hi]%list_elem_of_lookup|Hn]; [by eexists; eapply next_def_at|].
    exists 0. unfold nextFrameDef. rewrite (proj2 (list_find_None _ _)); [|by apply Forall_forall; intros x Hx ->].
    by destruct names. }
  destruct H0 as [i Hi]. pose proof (lookup_lt_Some _ _ _ Hi) as Hli.
  exists ((j + length names - i) mod length names). split; [apply Nat.mod_upper_bound; lia|].
  rewrite Nat.iter_succ_r. pose proof (iter_def_at names i _ ((j + length names - i) mod length names) Hd Hi) as H.
  rewrite Nat.Div0.add_mod_idemp_r in H. replace (i + (j + length names - i)) with (j + 1 * length names) in H by lia.
  rewrite Nat.Div0.mod_add, Nat.mod_small in H by done. congruence.
Qed.

(** The marker after one more call. *)
Definition layout_step (n : nat) (m : Z) : Z := Z.of_nat (next_layout false m n).

Lemma layout_step_mod n m : 0 < n -> (0 <= m)%Z -> layout_step n m = ((m + 1) mod Z.of_nat n)%Z.
Proof. intros Hn Hm. unfold layout_step, next_layout. rewrite decide_True by done. apply Z2Nat.id, Z.mod_pos_bound. lia. Qed.

Lemma layout_step_bound n m : 0 < n -> (0 <= layout_step n m < Z.of_nat n)%Z.
Proof.
  intros Hn. unfold layout_step, next_layout. case_decide; [|lia]. pose proof (Z.mod_pos_bound (m + 1) (Z.of_nat n)). lia.
Qed.

Lemma layout_iter n m k : 0 < n -> (0 <= m < Z.of_nat n)%Z -> Nat.iter k (layout_step n) m = ((m + Z.of_nat k) mod Z.of_nat n)%Z.
Proof.
  intros Hn Hm. induction k as [|k IH]; [simpl; by rewrite Z.add_0_r, Z.mod_small|]. simpl Nat.iter. rewrite IH, layout_step_mod; [|done|].
  - rewrite Z.add_mod_idemp_l by lia. f_equal. lia.
  - apply Z.mod_pos_bound. lia.
Qed.

(** Bringing a dashboard up again and again shows every layout in turn, from any marker. *)
Theorem cycle_visits_all_layouts n m i :
  i < n -> exists k, k < n /\ Nat.iter (S k) (layout_step n) m = Z.of_nat i.
Proof.
  intros Hi. pose proof (layout_step_bound n m ltac:(lia)) as Hb. set (m' := layout_step n m) in *.
  pose proof (Z.mod_pos_bound (Z.of_nat i - m') (Z.of_nat n) ltac:(lia)) as Hk.
  exists (Z.to_nat ((Z.of_nat i - m') mod Z.of_nat n)). split; [lia|].
  rewrite Nat.iter_succ_r. fold m'. rewrite layout_iter, Z2Nat.id, Z.add_mod_idemp_r by lia.
  replace (m' + (Z.of_nat i - m'))%Z with (Z.of_nat i) by lia. apply Z.mod_small. lia.
Qed.

(** ** Up and down *)

Definition layout_name_at (ls : list Layout) (i : nat) : option string := layout_Name <$> ls !! i.

Lemma layout_named_bound selector ls i : layout_named selector ls = Some i -> i < length ls /\ layout_name_at ls i = Some selector.
Proof.
  revert i. induction ls as [|l ls IH]; intros i; simpl; [done|]. case_decide; [intros [= <-]; split; [lia|by subst]|].
  intros (k & Hk & ->)%fmap_Some. apply IH in Hk as [? ?]. split; [lia|done].
Qed.

Lemma resolveLayoutIndex_bound selector ls i : resolveLayoutIndex selector ls = Ok i -> i < length ls.
Proof.
  unfold resolveLayoutIndex. destruct (layout_named selector ls) as [k|] eqn:Hk; [intros [= <-]; by apply layout_named_bound in Hk as [? _]|].
  destruct (Atoi selector) as [n|]; [|done]. destruct (_ || _) eqn:Hb; [done|]. intros [= <-].
  apply orb_false_iff in Hb as [?%bool_decide_eq_false ?%bool_decide_eq_false]. lia.
Qed.

Section Verbs.
Context (registered : string -> bool) (Connect : DriverSpec -> option muxErrText)
        (LoadDef : string -> result frameFileErr FrameSpec) (SelfExecutable : option string).

Notation run_of := (Run registered Connect LoadDef SelfExecutable).
Notation down_of := (MuxDown registered Connect).

(** A call that neither makes a window nor changes its layout. *)
Definition builds (a : muxact) : Prop :=
  match a with Act (NewWindow _) _ | Act (ApplyLayout _ _ _) _ => True | _ => False end.

Definition applies (a : muxact) : Prop := match a with Act (ApplyLayout _ _ _) _ => True | _ => False end.

Ltac acts := repeat match goal with H : Forall _ (_ ++ _) |- _ => apply Forall_app in H as [? ?] end;
  repeat first [apply Forall_nil_2 | apply Forall_cons_2; [first [exact I | exact (fun f => f)]|] | apply Forall_app_2]; try done.

Lemma session_acts o env tr s : run (resolveSessionName o env) tr s -> tr = [] \/ exists a, tr = [Act CurrentSessionName a].
Proof.
  unfold resolveSessionName. destruct (negb _); [intros [-> ->]%run_ret; by left|].
  destruct (negb _); [|intros [-> ->]%run_ret; by left]. intros H. inv_run H as a t H1. apply run_ret in H as [-> _]. right. by exists a.
Qed.

(** After the layout: only the frame, on the window it was applied to. *)
Definition on_window (w : string) (a : muxact) : Prop :=
  match a with
  | Act (ApplyLayout _ _ _) _ => False
  | Act (NewWindow cfg) _ => cfg = by_id w ""
  | _ => True
  end.

Lemma show_on_window t svc exe def spec tr r :
  run (show SelfExecutable t svc exe def spec) tr r -> Forall (on_window (ft_windowID t)) tr.
Proof.
  unfold show. destruct (decide _); intros H; [inv_ret H; acts|]. destruct (Carve _ _ _); [|inv_ret H; acts].
  inv_run H as r1 t1 H1. apply adopt_acts in H1. assert (H1' : Forall (on_window (ft_windowID t)) t1).
  { eapply Forall_impl; [exact H1|]. intros [X [] x]; simpl; tauto. }
  clear H1. apply Forall_app_2; [done|]. destruct r1; [|inv_ret H; acts].
  inv_ask H as w e; (apply Forall_cons_2; [done|]); [|inv_ret H; acts].
  inv_run H as r2 t2 H2. apply Forall_app_2.
  - destruct (decide (ft_shown t = "")); [inv_ret H2; acts|]. apply run_perform in H2 as (x & -> & _). acts.
  - destruct r2; [|inv_ret H; acts]. apply run_perform in H as (x & -> & _). acts.
Qed.

Lemma frame_on_window w defName svc tr r :
  run (showDefaultFrame LoadDef SelfExecutable w defName svc) tr r -> Forall (on_window w) tr.
Proof.
  unfold showDefaultFrame. destruct (decide _); intros H; [inv_ret H; acts|].
  inv_ask H as shown e; (apply Forall_cons_2; [exact I|]); [|inv_ret H; acts].
  destruct (negb _); [inv_ret H; acts|]. destruct (loadFrameSpec _ _); [|inv_ret H; acts]. by apply show_on_window in H.
Qed.

(** What an up does to its window once it has it. *)
Definition built (spec : MuxSpec) (opts : RunOptions) (explicit : option nat) (w : string) (tr : list muxact) (r : result muxErr unit) : Prop :=
  (exists e, r = Err e /\ Forall (fun a => ~ builds a) tr) \/
  exists t1 i l x t2, tr = t1 ++ Act (ApplyLayout w (Root l) i) x :: t2 /\ Forall (fun a => ~ builds a) t1 /\
    Forall (on_window w) t2 /\ Layouts spec !! i = Some l /\ (r = Ok tt <-> x = None) /\
    match explicit with
    | Some e => i = e
    | None => exists m, Act (StatMarker w) (Ok m) ∈ t1 /\ i = next_layout (ro_KeepLayout opts) m (length (Layouts spec))
    end.

Lemma next_layout_bound keep m n : 0 < n -> next_layout keep m n < n.
Proof.
  intros Hn. unfold next_layout. case_decide; [|done]. destruct keep; [lia|]. pose proof (Z.mod_pos_bound (m + 1) (Z.of_nat n)). lia.
Qed.

Lemma apply_built spec opts explicit w l i attach t0 tr r :
  Layouts spec !! i = Some l -> Forall (fun a => ~ builds a) t0 ->
  match explicit with
  | Some e => i = e
  | None => exists m, Act (StatMarker w) (Ok m) ∈ t0 /\ i = next_layout (ro_KeepLayout opts) m (length (Layouts spec))
  end ->
  run (let? _ := perform ApplyFailed (ApplyLayout w (Root l) i) in
       r ← showDefaultFrame LoadDef SelfExecutable w (ro_DefaultFrame opts) (ro_Svc opts);
       _ ← match r with Ok _ => mret tt | Err _ => call (Warn (ro_DefaultFrame opts)) end;
       _ ← (if inside (ro_Env opts) then mret tt else call (PrintLine (AttachHint attach)));
       mret (Ok tt)) tr r ->
  built spec opts explicit w (t0 ++ tr) r.
Proof.
  intros Hl H0 Hi H. right. inv_ask H as u e.
  1:{ inv_ret H. do 5 eexists. split; [reflexivity|]. split; [done|]. split; [constructor|]. split; [done|]. split; [done|exact Hi]. }
  inv_run H as r1 t1 H1%frame_on_window. inv_run H as [] t2 H2. inv_run H as [] t3 H3. inv_ret H.
  do 5 eexists. split; [reflexivity|]. split; [done|]. split; [|split; [done|split; [done|exact Hi]]].
  apply Forall_app_2; [done|]. rewrite app_nil_r. apply Forall_app_2.
  - destruct r1; [inv_ret H2|apply run_call in H2 as ->]; acts.
  - destruct (inside _); [inv_ret H3|apply run_call in H3 as ->]; acts.
Qed.

Lemma run_on_built spec opts explicit w attach tr r :
  Layouts spec <> [] -> (forall i, explicit = Some i -> i < length (Layouts spec)) ->
  run (run_on LoadDef SelfExecutable opts spec explicit w attach) tr r -> built spec opts explicit w tr r.
Proof.
  intros Hne Hex H. unfold run_on in H. inv_run H as next t1 H1.
  assert (Hn : 0 < length (Layouts spec)) by (destruct (Layouts spec); [done|simpl; lia]).
  destruct explicit as [i|].
  - apply run_ret in H1 as [-> ->]. destruct (lookup_lt_is_Some_2 (Layouts spec) i) as [l Hl]; [by apply Hex|]. rewrite Hl in H.
    apply (apply_built spec opts (Some i) w l i attach [] t1' r); done.
  - inv_ask H1 as m e; apply run_ret in H1 as [-> ->].
    2:{ apply run_ret in H as [-> ->]. left. eexists. split; [done|acts]. }
    set (i := next_layout (ro_KeepLayout opts) m (length (Layouts spec))) in *.
    destruct (lookup_lt_is_Some_2 (Layouts spec) i) as [l Hl]; [by apply next_layout_bound|]. rewrite Hl in H.
    apply (apply_built spec opts None w l i attach [Act (StatMarker w) (Ok m)] t1' r); try done; [acts|].
    exists m. split; [left|done].
Qed.
(** An up builds on one window.  When a window of the server, or of the session that
    was named, carries the project's identity, it is built on that one, in the caller's
    session if there is one there, and on no other; only without one is a window made, with
    the identity as its stamp, and the caller's own window is taken over for it only
    without a session name, inside tmux and unless that was forbidden.  One layout is
    applied, the one asked for or the one that follows the window's marker, and the up
    succeeds exactly when that did: a default frame cannot fail it. *)
Theorem up_builds_on_one_window spec opts tr r :
  run (run_of spec opts) tr r ->
  (Forall (fun a => ~ builds a) tr /\ exists e, r = Err e) \/
  exists t1 session identity rows cfg x t2,
    tr = t1 ++ Act (ListWindows (ro_SessionName opts) identity []) (Ok rows) :: Act (NewWindow cfg) x :: t2 /\
    Forall (fun a => ~ builds a) t1 /\ identity = deriveIdentity (ro_Identity opts) (ro_WindowName opts) session /\
    match pickOwnedWindow rows session with
    | Some row => cfg = by_id (wn_WindowID row) identity
    | None => rows = [] /\ mc_WindowID cfg = "" /\ mc_OwnedIdentity cfg = identity /\
        (mc_ReuseCurrentWindow cfg = true -> ro_SessionName opts = "" /\ ro_KeepCurrentWindow opts = false /\ envOf (ro_Env opts) "TMUX" <> "")
    end /\
    match x with
    | Err e => t2 = [] /\ r = Err (NewFailed e)
    | Ok w => exists explicit, explicit_layout (ro_Layout opts) (Layouts spec) = Ok explicit /\ built spec opts explicit w t2 r
    end.
Proof.
  unfold Run. destruct (decide (Layouts spec = [])) as [|Hne]; intros H; [inv_ret H; left; split; [acts|eauto]|].
  destruct (resolveServer _ _ _ _); [|inv_ret H; left; split; [acts|eauto]].
  inv_run H as session t1 H1. assert (Hn1 : Forall (fun a => ~ builds a) t1) by (apply session_acts in H1 as [->|[ans ->]]; acts). clear H1.
  destruct (explicit_layout _ _) as [explicit|e] eqn:He; [|apply run_ret in H as [-> ->]; left; split; [acts|eauto]].
  inv_ask H as rows e; [|inv_ret H; left; split; [acts|eauto]].
  destruct (run_config _ _ _ _ _ _) as [cfg attach] eqn:Hc. inv_run H as w t2 H2. apply run_ask in H2 as (x & -> & ->). right.
  exists t1, session. do 2 eexists. exists cfg, x. eexists. split; [reflexivity|]. split; [done|]. split; [reflexivity|]. split.
  - unfold run_config in Hc. destruct (pickOwnedWindow rows session) as [row|] eqn:Hp; [by injection Hc as <- _|].
    injection Hc as <- _. simpl. split; [|split; [done|split; [done|]]].
    + unfold pickOwnedWindow in Hp. destruct (filter _ rows); [by destruct rows|done].
    + intros [[H2%bool_decide_eq_true H3%negb_true_iff]%andb_true_iff H4%negb_true_iff%bool_decide_eq_false]%andb_true_iff. done.
  - destruct x as [w|e]; cbn [lift_err] in H; [|by apply run_ret in H as [-> ->]]. exists explicit. split; [done|].
    eapply run_on_built; [done| |exact H]. intros i ->. unfold explicit_layout in He. destruct (decide _); [done|].
    apply result_bind_ok in He as (j & Hj & [= ->]). by eapply resolveLayoutIndex_bound.
Qed.

(** *** Tearing down *)

(** The session a name and the multiplexer's answer resolve to. *)
Definition session_name (o : string) (env : list string) (answer : result muxErrText (option string)) : string :=
  if negb (bool_decide (o = "")) then o
  else if negb (bool_decide (envOf env "TMUX" = "")) then match answer with Ok (Some n) => n | _ => "cmdman" end
  else "cmdman".

Definition asked_session (a : muxact) (answer : result muxErrText (option string)) : Prop :=
  match a in act _ return Prop with
  | Act e x => match e in muxE X return X -> Prop with CurrentSessionName => fun x => x = answer | _ => fun _ => True end x
  end.

Lemma resolve_session o env answer tr s :
  run (resolveSessionName o env) tr s -> Forall (fun a => asked_session a answer) tr -> s = session_name o env answer.
Proof.
  unfold resolveSessionName, session_name. destruct (negb _); [by intros [-> ->]%run_ret|]. destruct (negb _); [|by intros [-> ->]%run_ret].
  intros H Ha. inv_run H as x t H1. apply run_ret in H as [-> ->]. apply Forall_app in Ha as [Ha _]. inversion Ha as [|? ? Hx]; subst.
  simpl in Hx. by subst x.
Qed.

(** The identity a teardown is for: the one that was given; without one the name of the
    window, and without that the session the caller is in. *)
Definition down_identity (opts : DownOptions) (answer : result muxErrText (option string)) : string :=
  if negb (bool_decide (do_Identity opts = "")) then do_Identity opts
  else if negb (bool_decide (do_WindowName opts = "")) then do_WindowName opts
  else session_name (do_SessionName opts) (do_Env opts) answer.

Lemma down_identity_run opts tr i answer :
  run (if decide (do_Identity opts = "") then currentIdentity (do_SessionName opts) (do_WindowName opts) (do_Env opts)
       else mret (do_Identity opts)) tr i ->
  (tr = [] \/ exists ans, tr = [Act CurrentSessionName ans]) /\
  (Forall (fun a => asked_session a answer) tr -> i = down_identity opts answer).
Proof.
  unfold down_identity. case_decide as Hi; intros H.
  2:{ apply run_ret in H as [-> ->]. rewrite bool_decide_false by done. split; [by left|done]. }
  rewrite bool_decide_true by done. unfold currentIdentity, deriveIdentity in H.
  inv_run H as s t1 H1. apply run_ret in H as [-> ->]. rewrite app_nil_r. split; [by apply session_acts in H1|].
  intros Ha. apply resolve_session with (answer := answer) in H1; [|done]. subst s. simpl. by case_bool_decide; simpl; [|rewrite ?bool_decide_false by done].
Qed.

(** A window may be closed when that was asked for, cmdman made it, and the teardown does
    not run in it. *)
Definition may_close (kill : bool) (self : string) (row : Window) : Prop :=
  kill = true /\ wn_Created row = true /\ wn_WindowID row <> self.

(** Opening the window of a row by its id, as [w]. *)
Definition opens (row : Window) (w : string) : muxact := Act (OpenWindow (by_id (wn_WindowID row) "")) (Ok (Some w)).

(** The windows that are closed, or restored, at [a] after [t]: each is the window of a row,
    opened just before by its id, and the row says which of the two may become of it. *)
Definition ends_own (kill : bool) (self : string) (rows : list Window) (t : list muxact) (a : muxact) : Prop :=
  match a with
  | Act (CloseWindow w) _ => exists row, row ∈ rows /\ may_close kill self row /\ last t = Some (opens row w)
  | Act (DetachWindow w) _ => exists row, row ∈ rows /\ ~ may_close kill self row /\ last t = Some (opens row w)
  | _ => True
  end.

(** What became of a row's window without an error: it was gone, or it was closed when it
    may be and restored when it may not. *)
Definition taken_down (kill : bool) (self : string) (row : Window) (tr : list muxact) : Prop :=
  Act (OpenWindow (by_id (wn_WindowID row) "")) (Ok None) ∈ tr \/
  exists w t1 t2 a, tr = t1 ++ opens row w :: a :: t2 /\
    ((may_close kill self row /\ a = Act (CloseWindow w) None) \/ (~ may_close kill self row /\ a = Act (DetachWindow w) None)).

Lemma may_close_bool kill self row :
  kill && wn_Created row && negb (bool_decide (wn_WindowID row = self)) = true <-> may_close kill self row.
Proof using. clear. unfold may_close. rewrite !andb_true_iff, negb_true_iff, bool_decide_eq_false. tauto. Qed.

Lemma down_one_run kill self row tr e :
  run (down_one kill self row) tr e ->
  (forall t a t', tr = t ++ a :: t' -> ends_own kill self [row] t a) /\
  (exists x, Act (OpenWindow (by_id (wn_WindowID row) "")) x ∈ tr) /\
  (e = None -> taken_down kill self row tr).
Proof using.
  clear registered Connect LoadDef SelfExecutable. unfold down_one. intros H. inv_run H as s t1 H1.
  assert (Hshort : forall t a t', [Act (OpenWindow (by_id (wn_WindowID row) "")) s] = t ++ a :: t' -> ends_own kill self [row] t a).
  { intros [|c [|c' l]] b t' Heq; simplify_eq/=; exact I. }
  destruct s as [[w|]|er].
  2:{ inv_ret H. split; [done|]. split; [eexists; left|]. intros _. left. left. }
  2:{ inv_ret H. split; [done|]. split; [eexists; left|done]. }
  pose proof (may_close_bool kill self row) as Hm.
  assert (Hrest : forall (x : option muxErrText) (E : muxE (option muxErrText)) t2,
    ends_own kill self [row] [opens row w] (Act E x) -> (t2 = [] \/ exists l u, t2 = [Act (PrintLine l) u]) ->
    forall t a t', opens row w :: Act E x :: t2 = t ++ a :: t' -> ends_own kill self [row] t a).
  { intros x E t2 HE Ht2 t a t' Heq. destruct t as [|c t]; injection Heq as <- Heq; [exact I|].
    destruct t as [|c2 t]; injection Heq as <- Heq; [exact HE|].
    destruct Ht2 as [->|(l & u & ->)]; [by destruct t|]. destruct t as [|c3 t]; injection Heq as <- Heq; [exact I|by destruct t]. }
  destruct (kill && _ && _) eqn:Hk; inv_run H as x t2 H2;
    (assert (Ht2 : (t2' = [] \/ exists l u, t2' = [Act (PrintLine l) u]) /\ (e = None -> x = None));
      [destruct x; [inv_ret H; split; [by left|done]|]; inv_run H as u t3 H3; inv_ret H; split; [right; eauto|done]|]);
    destruct Ht2 as [Ht2 He]; (split; [apply Hrest; [exists row; split; [left|]; split; [|done]|done]|
      split; [eexists; left|]; intros Hn; right; exists w, [], t2'; eexists; (split; [reflexivity|]); rewrite (He Hn)]).
  - exact (proj1 Hm eq_refl).
  - left. split; [exact (proj1 Hm eq_refl)|done].
  - intros Hc. discriminate (proj2 Hm Hc).
  - right. split; [intros Hc; discriminate (proj2 Hm Hc)|done].
Qed.

(** Splitting a trace at an action splits it in one of its two halves. *)
Lemma app_cons_split {A} (l1 l2 t : list A) a t' :
  l1 ++ l2 = t ++ a :: t' ->
  (exists u, l1 = t ++ a :: u /\ t' = u ++ l2) \/ (exists u, t = l1 ++ u /\ l2 = u ++ a :: t').
Proof using.
  clear registered Connect LoadDef SelfExecutable.
  revert t. induction l1 as [|x l1 IH]; intros t H; [right; by exists t|].
  destruct t as [|y t]; injection H as -> H; [left; by exists l1|].
  destruct (IH t H) as [(u & -> & ->)|(u & -> & ->)]; [left; by exists u|right; by exists u].
Qed.

Lemma down_each_run kill self rows tr errs :
  run (down_each kill self rows) tr errs ->
  (forall t a t', tr = t ++ a :: t' -> ends_own kill self rows t a) /\
  forall row, row ∈ rows ->
    (exists x, Act (OpenWindow (by_id (wn_WindowID row) "")) x ∈ tr) /\ (errs = [] -> taken_down kill self row tr).
Proof using.
  clear registered Connect LoadDef SelfExecutable.
  revert tr errs. induction rows as [|r rows IH]; intros tr errs H; cbn [down_each] in H.
  { inv_ret H. split; [intros t a t' Heq; by destruct t|set_solver]. }
  inv_run H as e t1 H1. inv_run H as es t2 H2. inv_ret H. rewrite app_nil_r. apply down_one_run in H1 as (Hc1 & Ho1 & Ht1).
  apply IH in H2 as [Hc2 Hr2]. split.
  - assert (Hw : forall rs u v a, (forall row, row ∈ rs -> row ∈ r :: rows) -> ends_own kill self rs v a -> ends_own kill self (r :: rows) (u ++ v) a).
    { intros rs u v [X [] x] Hs; try done; simpl; intros (row & Hin & Hm & Hl); exists row; (split; [by apply Hs|]); (split; [done|]);
        by rewrite last_app, Hl. }
    intros t a t' [(u & -> & ->)|(u & -> & ->)]%app_cons_split.
    + apply (Hw [r] [] t a); [set_solver|]. by eapply Hc1.
    + apply (Hw rows t1 u a); [set_solver|]. by eapply Hc2.
  - assert (Hm : forall row u t v, taken_down kill self row t -> taken_down kill self row (u ++ t ++ v)).
    { intros row u t v [Hg|(w & v1 & v2 & a & -> & Ha)]; [left; set_solver|right]. exists w, (u ++ v1), (v2 ++ v), a. split; [|done].
      by rewrite <- !app_assoc. }
    intros row [->|Hin]%elem_of_cons.
    + split; [destruct Ho1 as [x Hx]; exists x; apply elem_of_app; by left|]. intros [He _]%app_eq_nil.
      apply (Hm r [] t1 t2). apply Ht1. by destruct e.
    + destruct (Hr2 row Hin) as [[x Hx] Ht]. split; [exists x; apply elem_of_app; by right|]. intros [_ He]%app_eq_nil.
      rewrite <- (app_nil_r t2). apply (Hm row t1 t2 []). by apply Ht.
Qed.

(** C30: tearing down closes only what it may close.  It searches the session it was
    given, or the whole server, for the identity it was given (for the window's name, or
    else the caller's session, when it was given none), and every window it closes or
    restores is one of those found, opened just before by its id: closed when that was
    asked for, cmdman made it and it is not the one the teardown itself runs in, restored
    otherwise.  Every window found is tried, whatever happens to the others, and without
    an error each of them is gone, closed, or restored; one that ends early with no window
    touched has failed or found none. *)
Theorem down_closes_only_its_own opts tr errs :
  run (down_of opts) tr errs ->
  (Forall (fun a => match a with Act (OpenWindow _) _ | Act (CloseWindow _) _ | Act (DetachWindow _) _ => False | _ => True end) tr /\
   (errs <> [] \/ exists identity, Act (ListWindows (do_SessionName opts) identity []) (Ok []) ∈ tr)) \/
  exists t1 identity rows t2 self t3,
    tr = t1 ++ Act (ListWindows (do_SessionName opts) identity []) (Ok rows) :: t2 ++ t3 /\
    (t1 = [] \/ exists ans, t1 = [Act CurrentSessionName ans]) /\
    (forall answer, Forall (fun a => asked_session a answer) t1 -> identity = down_identity opts answer) /\
    (do_KillCreated opts = true -> exists x, t2 = [Act EnclosingWindowID x] /\ self = match x with Ok (Some w) => w | _ => "" end) /\
    (do_KillCreated opts = false -> t2 = []) /\
    (forall t a t', t3 = t ++ a :: t' -> ends_own (do_KillCreated opts) self rows t a) /\
    forall row, row ∈ rows ->
      (exists x, Act (OpenWindow (by_id (wn_WindowID row) "")) x ∈ t3) /\
      (errs = [] -> taken_down (do_KillCreated opts) self row t3).
Proof using registered Connect.
  unfold MuxDown. intros H. destruct (resolveServer _ _ _ _); [|inv_ret H; left; split; [acts|by left]].
  inv_run H as identity t1 H1. pose proof (fun answer => down_identity_run opts t1 identity answer H1) as Hid.
  destruct (Hid (Ok None)) as [Hi _]. clear H1.
  inv_ask H as rows e; [|inv_ret H; left; split; [destruct Hi as [->|[ans ->]]; acts|by left]].
  destruct rows as [|r rows].
  { inv_run H as u t3 H3. inv_ret H. left. split; [destruct Hi as [->|[ans ->]]; acts|right; exists identity; apply elem_of_app; right; left]. }
  right. inv_run H as self t3 H3. apply down_each_run in H as [Hc Hr].
  exists t1, identity, (r :: rows), t3, self. eexists. split; [reflexivity|]. split; [done|]. split; [intros answer; apply Hid|].
  split; [|split; [|done]]; intros Hk; unfold self_window in H3; rewrite Hk in H3; [inv_run H3 as x t4 H4|];
    apply run_ret in H3 as [-> ->]; [by exists x|done].
Qed.


(** *** Up and down agree on the identity *)

(** The windows that are listed, when the multiplexer gives one answer for the session. *)
Definition lists (s i : string) (a : muxact) : Prop :=
  match a with Act (ListWindows s' i' _) _ => s' = s /\ i' = i | _ => True end.

Ltac listing := repeat match goal with H : Forall _ (_ ++ _) |- _ => apply Forall_app in H as [? ?] end;
  repeat first [apply Forall_nil_2 | apply Forall_cons_2; [first [exact I | split; reflexivity]|] | apply Forall_app_2]; try done.

Lemma show_lists s i w d svc tr r :
  run (showDefaultFrame LoadDef SelfExecutable w d svc) tr r -> Forall (lists s i) tr.
Proof.
  unfold showDefaultFrame. destruct (decide _); intros H; [inv_ret H; listing|].
  inv_ask H as shown e; (apply Forall_cons_2; [exact I|]); [|inv_ret H; listing].
  destruct (negb _); [inv_ret H; listing|]. destruct (loadFrameSpec _ _) as [fs|]; [|inv_ret H; listing].
  unfold show in H. destruct (decide _); [inv_ret H; listing|]. destruct (Carve _ _ _); [|inv_ret H; listing].
  inv_run H as r1 t1 H1. apply adopt_acts in H1. apply Forall_app_2.
  { eapply Forall_impl; [exact H1|]. intros [X [] x]; simpl; tauto. }
  destruct r1; [|inv_ret H; listing]. inv_ask H as w' e; (apply Forall_cons_2; [exact I|]); [|inv_ret H; listing].
  inv_run H as r2 t2 H2. apply Forall_app_2.
  - destruct (decide _); [inv_ret H2; listing|]. apply run_perform in H2 as (x & -> & _). listing.
  - destruct r2; [|inv_ret H; listing]. apply run_perform in H as (x & -> & _). listing.
Qed.

Lemma up_lists spec opts answer tr r :
  run (run_of spec opts) tr r -> Forall (fun a => asked_session a answer) tr ->
  Forall (lists (ro_SessionName opts) (deriveIdentity (ro_Identity opts) (ro_WindowName opts)
    (session_name (ro_SessionName opts) (ro_Env opts) answer))) tr.
Proof.
  unfold Run. destruct (decide (Layouts spec = [])); intros H Ha; [inv_ret H; listing|].
  destruct (resolveServer _ _ _ _); [|inv_ret H; listing]. inv_run H as session t1 H1. apply Forall_app in Ha as [Ha1 Ha].
  rewrite <- (resolve_session _ _ _ _ _ H1 Ha1). apply Forall_app_2; [apply session_acts in H1 as [->|[ans ->]]; listing|].
  destruct (explicit_layout _ _) as [explicit|]; [|apply run_ret in H as [-> ->]; listing]. clear Ha.
  inv_ask H as rows e; (apply Forall_cons_2; [by split|]); [|inv_ret H; listing].
  destruct (run_config _ _ _ _ _ _) as [cfg attach]. inv_ask H as w e; (apply Forall_cons_2; [exact I|]); [|inv_ret H; listing].
  unfold run_on in H. inv_run H as next t2 H2. apply Forall_app_2.
  - destruct explicit; [apply run_ret in H2 as [-> _]; listing|]. inv_ask H2 as m e; apply run_ret in H2 as [-> _]; listing.
  - destruct next as [i|]; [|inv_ret H; listing]. destruct (Layouts spec !! i); [|inv_ret H; listing].
    inv_ask H as u e; (apply Forall_cons_2; [exact I|]); [inv_ret H; listing|].
    inv_run H as r1 t3 H3. apply Forall_app_2; [by eapply show_lists|]. inv_run H as [] t4 H4. inv_run H as [] t5 H5. inv_ret H.
    destruct r1; [inv_ret H4|apply run_call in H4 as ->]; (destruct (inside _); [inv_ret H5|apply run_call in H5 as ->]); listing.
Qed.

Lemma down_each_lists sess i kill self rows tr errs : run (down_each kill self rows) tr errs -> Forall (lists sess i) tr.
Proof.
  revert tr errs. induction rows as [|x rows IH]; intros tr errs H; cbn [down_each] in H; [inv_ret H; listing|].
  inv_run H as e t1 H1. inv_run H as es t2 H2. inv_ret H. apply Forall_app_2; [|rewrite app_nil_r; by eapply IH].
  unfold down_one in H1. inv_run H1 as s t3 H3. apply Forall_cons_2; [exact I|]. destruct s as [[w|]|er]; [|inv_ret H1; listing..].
  destruct (_ && _); inv_run H1 as y t4 H4; (apply Forall_cons_2; [exact I|]); (destruct y; [inv_ret H1; listing|]); inv_run H1 as u t5 H5; inv_ret H1; listing.
Qed.

Lemma down_lists opts answer tr errs :
  run (down_of opts) tr errs -> Forall (fun a => asked_session a answer) tr ->
  Forall (lists (do_SessionName opts) (deriveIdentity (do_Identity opts) (do_WindowName opts)
    (session_name (do_SessionName opts) (do_Env opts) answer))) tr.
Proof.
  unfold MuxDown. intros H Ha. destruct (resolveServer _ _ _ _); [|inv_ret H; listing].
  inv_run H as identity t1 H1. apply Forall_app in Ha as [Ha1 _].
  assert (Hi : identity = deriveIdentity (do_Identity opts) (do_WindowName opts) (session_name (do_SessionName opts) (do_Env opts) answer)).
  { unfold deriveIdentity at 1. destruct (decide (do_Identity opts = "")) as [He|He].
    - rewrite bool_decide_true by done. unfold currentIdentity in H1. inv_run H1 as s t2 H2. apply run_ret in H1 as [-> ->].
      rewrite app_nil_r in Ha1. by rewrite (resolve_session _ _ _ _ _ H2 Ha1).
    - apply run_ret in H1 as [_ ->]. by rewrite bool_decide_false by done. }
  assert (Ht : forall s i, Forall (lists s i) t1).
  { intros s i. destruct (decide _); [|inv_ret H1; listing]. unfold currentIdentity in H1. inv_run H1 as x t2 H2. apply run_ret in H1 as [-> _].
    apply session_acts in H2 as [->|[ans ->]]; listing. }
  rewrite <- Hi. apply Forall_app_2; [done|]. inv_ask H as rows e; (apply Forall_cons_2; [by split|]); [|inv_ret H; listing].
  destruct rows as [|row rows]; [inv_run H as u t3 H3; inv_ret H; listing|]. inv_run H as self t3 H3. apply Forall_app_2.
  { unfold self_window in H3. destruct (do_KillCreated opts); [inv_run H3 as x t4 H4|]; apply run_ret in H3 as [-> _]; listing. }
  by eapply down_each_lists.
Qed.

(** A teardown finds what an up built: given the same names and environment, and the
    same answer to which session the caller is in, both search the same session for the
    same identity, which is the one the up stamps. *)
Theorem down_searches_what_up_stamps spec up down answer tr1 r tr2 errs s1 i1 k1 x1 s2 i2 k2 x2 :
  ro_SessionName up = do_SessionName down -> ro_WindowName up = do_WindowName down -> ro_Identity up = do_Identity down ->
  ro_Env up = do_Env down ->
  run (run_of spec up) tr1 r -> run (down_of down) tr2 errs ->
  Forall (fun a => asked_session a answer) (tr1 ++ tr2) ->
  Act (ListWindows s1 i1 k1) x1 ∈ tr1 -> Act (ListWindows s2 i2 k2) x2 ∈ tr2 -> s1 = s2 /\ i1 = i2.
Proof.
  intros Hs Hw Hi He H1 H2 [Ha1 Ha2]%Forall_app Hl1 Hl2. apply up_lists with (answer := answer) in H1; [|done].
  apply down_lists with (answer := answer) in H2; [|done]. rewrite Forall_forall in H1, H2.
  apply H1 in Hl1 as [-> ->]. apply H2 in Hl2 as [-> ->]. by rewrite Hs, Hw, Hi, He.
Qed.
End Verbs.

(** ** Cycling through replicas *)

Section Cycle.
Context (count : string -> result muxErrText Z) (opts : CycleOptions).

(** What is written is the stored map with the new position of the command. *)
Definition stores (row : Window) (res : CycleWindow) (a : muxact) : Prop :=
  match a with
  | Act (WriteWindowState w k v) _ =>
    w = wn_WindowID row /\ k = StateKeyScale /\ (0 < cw_NewPosition res)%Z /\
    exists raw, v = encodeScalePositions (<[co_Command opts := cw_NewPosition res]> (decodeScalePositions raw))
  | _ => True
  end.

(** The pane of the command, when the window has one, was given the replica first. *)
Definition shown_first (row : Window) (layout : MuxLayout) (id : string) (res : CycleWindow) (tr : list muxact) : Prop :=
  forall w v x, Act (WriteWindowState w StateKeyScale v) x ∈ tr ->
    Act (FindPane (wn_WindowID row) (co_Command opts)) (Ok None) ∈ tr \/
    exists s pane leaf, Act (FindPane (wn_WindowID row) (co_Command opts)) (Ok (Some pane)) ∈ tr /\
      findUnpinnedLeaf layout (co_Command opts) = Some leaf /\
      Act (RespawnLeaf s pane (cw_ResolvedName res) (paneArgv (co_Opts opts) (mp_Mode leaf) id) (mp_CmdOpt leaf) (co_Command opts)) None ∈ tr.

Definition writes (a : muxact) : Prop := match a with Act (WriteWindowState _ _ _) _ => True | _ => False end.

Lemma no_writes row layout id res tr :
  Forall (fun a => ~ writes a) tr -> Forall (stores row res) tr /\ shown_first row layout id res tr.
Proof.
  intros H. split.
  - eapply Forall_impl; [exact H|]. intros [X [] x]; simpl; tauto.
  - intros w v x Hin. rewrite Forall_forall in H. by destruct (H _ Hin).
Qed.

Ltac acts := repeat first [apply Forall_nil_2 | apply Forall_cons_2; [exact (fun f => f)|] | apply Forall_app_2]; try done.

Lemma respawn_and_store_run layout row id base tr res e :
  run (respawn_and_store opts layout row id base) tr (res, e) -> cw_Window base = row -> (0 < cw_NewPosition base)%Z ->
  cw_Window res = row /\ cw_NewPosition res = cw_NewPosition base /\ cw_OldPosition res = cw_OldPosition base /\
  Forall (stores row res) tr /\ shown_first row layout id res tr.
Proof.
  unfold respawn_and_store. intros H Hb Hp. inv_run H as s t1 H1. destruct s as [[w|]|er].
  2:{ inv_ret H. split; [done|split; [done|split; [done|apply no_writes; acts]]]. }
  2:{ inv_ret H. split; [done|split; [done|split; [done|apply no_writes; acts]]]. }
  inv_run H as p t2 H2. destruct p as [pane|er]; [|inv_ret H; split; [done|split; [done|split; [done|apply no_writes; acts]]]].
  cbv zeta in H. cbn [cw_ResolvedName cw_NewPosition] in H. inv_run H as r t3 H3.
  assert (Hr : Forall (fun a => ~ writes a) t3 /\ (r = Ok tt -> pane = None \/ exists p leaf, pane = Some p /\ findUnpinnedLeaf layout (co_Command opts) = Some leaf /\
    Act (RespawnLeaf w p (cw_ResolvedName base) (paneArgv (co_Opts opts) (mp_Mode leaf) id) (mp_CmdOpt leaf) (co_Command opts)) None ∈ t3)).
  { destruct pane as [p|]; [|apply run_ret in H3 as [-> ->]; split; [acts|by left]].
    destruct (findUnpinnedLeaf layout (co_Command opts)) as [leaf|] eqn:Hf; [|apply run_ret in H3 as [-> ->]; split; [acts|done]].
    apply run_perform in H3 as (x & -> & ->). split; [acts|]. intros Hx. right. exists p, leaf. destruct x; [done|]. split; [done|split; [done|left]]. }
  destruct Hr as [Hn Hr]. destruct r as [[]|er].
  2:{ inv_ret H. split; [done|split; [done|split; [done|apply no_writes]]]. acts. }
  inv_run H as r2 t4 H4. apply run_ret in H as [-> [= -> _]]. split; [done|split; [done|split; [done|]]]. cbn [cw_NewPosition cw_ResolvedName].
  unfold writeScalePosition in H4. inv_ask H4 as raw er.
  2:{ apply run_ret in H4 as [-> _]. apply no_writes. acts. }
  apply run_perform in H4 as (x & -> & _). rewrite decide_False by lia. split.
  - destruct (no_writes row layout id {| cw_Window := row; cw_OldPosition := 0; cw_NewPosition := cw_NewPosition base; cw_ResolvedName := "";
      cw_Visible := false; cw_LayoutName := "" |} t3 Hn) as [Hs _].
    do 2 (apply Forall_cons_2; [exact I|]). apply Forall_app_2; [|apply Forall_cons_2; [exact I|apply Forall_cons_2; [|constructor]]].
    + eapply Forall_impl; [exact Hn|]. intros [X [] y]; simpl; tauto.
    + split; [done|split; [done|split; [done|by exists raw]]].
  - intros w' v y _. destruct (Hr eq_refl) as [->|(p & leaf & -> & Hf & Hin)]; [left; right; left|right].
    exists w, p, leaf. split; [right; left|split; [done|]]. do 2 right. apply elem_of_app. by left.
Qed.

(** Only positive positions are decoded. *)
Lemma stored_positive raw command : (1 <= default 1 (decodeScalePositions raw !! command))%Z.
Proof.
  unfold decodeScalePositions. destruct (decide _); [rewrite lookup_empty; simpl; lia|]. generalize (fields (trimSpace raw)) as l.
  assert (H : forall l m, (forall c p, m !! c = Some p -> (0 < p)%Z) -> forall c p, foldl decode_pair m l !! c = Some p -> (0 < p)%Z).
  { induction l as [|pair l IH]; intros m Hm; simpl; [done|]. apply IH. unfold decode_pair. destruct (cut "=" pair) as [[name pos] ok].
    destruct (_ || _ || _); [done|]. destruct (Atoi pos) as [q|]; [|done]. case_decide; [done|]. intros c p.
    destruct (decide (c = name)) as [->|]; [rewrite lookup_insert_eq; intros [= <-]; lia|rewrite lookup_insert_ne by done; apply Hm]. }
  intros l. specialize (H l ∅ ltac:(by intros c p; rewrite lookup_empty) command).
  destruct (foldl decode_pair ∅ l !! command) as [p|]; simpl; [specialize (H p eq_refl)|]; lia.
Qed.

(** Cycling a window stores only what it shows.  A new position is written only for the
    window and the command, into the positions stored at that moment, others kept; the
    position is a replica that no other leaf of the layout pins, the one asked for or the
    next; and it is written only after the pane of the command, if the window has one, was
    given that replica. *)
Theorem cycle_stores_what_it_shows row tr res e :
  run (cycleScaleWindow count opts row) tr (res, e) ->
  Forall (stores row res) tr /\
  forall w v x, Act (WriteWindowState w StateKeyScale v) x ∈ tr ->
    exists layout n id, spec_Layouts (co_Spec opts) !! Z.to_nat (wn_Marker row) = Some layout /\
      count (co_Command opts) = Ok n /\ co_Resolver opts (co_Command opts) (cw_NewPosition res) = Ok id /\
      computeTargetPosition (cw_OldPosition res) (co_Position opts) (Z.max n 1) (pinnedScaleIndices layout (co_Command opts)) = Ok (cw_NewPosition res) /\
      shown_first row layout id res tr.
Proof.
  unfold cycleScaleWindow. intros H.
  assert (Hnil : tr = [] -> Forall (stores row res) tr /\ forall w v x, Act (WriteWindowState w StateKeyScale v) x ∈ tr ->
    exists layout n id, spec_Layouts (co_Spec opts) !! Z.to_nat (wn_Marker row) = Some layout /\
      count (co_Command opts) = Ok n /\ co_Resolver opts (co_Command opts) (cw_NewPosition res) = Ok id /\
      computeTargetPosition (cw_OldPosition res) (co_Position opts) (Z.max n 1) (pinnedScaleIndices layout (co_Command opts)) = Ok (cw_NewPosition res) /\
      shown_first row layout id res tr).
  { intros ->. split; [constructor|]. intros w v x Hin. by apply elem_of_nil in Hin. }
  destruct (if decide (wn_Marker row < 0)%Z then None else _) as [layout|] eqn:Hl; [|apply run_ret in H as [-> _]; by apply Hnil].
  case_decide; [done|]. destruct (count (co_Command opts)) as [n|er] eqn:Hc; [|apply run_ret in H as [-> _]; by apply Hnil].
  cbv zeta in H. set (cur := wrap_position _ (Z.max n 1)) in H.
  destruct (computeTargetPosition cur _ _ _) as [pos|er] eqn:Hp; [|apply run_ret in H as [-> _]; by apply Hnil].
  destruct (co_Resolver opts (co_Command opts) pos) as [id|er] eqn:Hr; [|apply run_ret in H as [-> _]; by apply Hnil].
  assert (Hcur : (1 <= cur <= Z.max n 1)%Z).
  { unfold cur, wrap_position. pose proof (stored_positive (default "" (wn_State row !! StateKeyScale)) (co_Command opts)).
    pose proof (Z.rem_bound_pos (default 1%Z (decodeScalePositions (default "" (wn_State row !! StateKeyScale)) !! co_Command opts) - 1) (Z.max n 1)). lia. }
  assert (Hpos : (1 <= pos)%Z).
  { pose proof (computeTargetPosition_spec cur (co_Position opts) (Z.max n 1) (pinnedScaleIndices layout (co_Command opts)) ltac:(lia) Hcur) as Hx.
    rewrite Hp in Hx. lia. }
  apply respawn_and_store_run in H as (_ & Hnew & Hold & Hs & Hf); [|done|simpl; lia]. simpl in Hnew, Hold. split; [done|]. intros w v x _.
  exists layout, n, id. rewrite Hnew, Hold. done.
Qed.
End Cycle.

(** The results name every window that was listed, those that failed too. *)
Lemma cycle_results_all count opts rows tr results errs :
  Forall (fun row => wn_WindowID row <> "") rows -> run (cycle_each count opts rows) tr (results, errs) ->
  map cw_Window results = rows.
Proof.
  intros Hr. revert tr results errs. induction Hr as [|row rows Hrow _ IH]; intros tr results errs H; cbn [cycle_each] in H; [by inv_ret H|].
  inv_run H as [res e] t1 H1. inv_run H as [rs es] t2 H2. apply IH in H2. apply run_ret in H as [-> H].
  assert (Hw : cw_Window res = row).
  { unfold cycleScaleWindow in H1. destruct (if decide _ then None else _) as [layout|]; [|by apply run_ret in H1 as [_ [= -> _]]].
    destruct (count _); [|by apply run_ret in H1 as [_ [= -> _]]]. cbv zeta in H1.
    destruct (computeTargetPosition _ _ _ _) as [pos|]; [|by apply run_ret in H1 as [_ [= -> _]]].
    destruct (co_Resolver _ _ _) as [id|]; [|by apply run_ret in H1 as [_ [= -> _]]].
    unfold respawn_and_store in H1. inv_run H1 as s t3 H3. destruct s as [[w|]|]; [|by apply run_ret in H1 as [_ [= -> _]]..].
    inv_run H1 as p t4 H4. destruct p as [pane|]; [|by apply run_ret in H1 as [_ [= -> _]]]. cbv zeta in H1.
    inv_run H1 as r t5 H5. destruct r; [|by apply run_ret in H1 as [_ [= -> _]]]. inv_run H1 as r2 t6 H6.
    by apply run_ret in H1 as [_ [= -> _]]. }
  rewrite Hw, (bool_decide_false (wn_WindowID row = "")), andb_false_r in H by done. injection H as -> _. simpl. by rewrite Hw, H2.
Qed.

(** ** Witnesses *)

Definition window_row (w session : string) (created : bool) : Window :=
  {| wn_SessionName := session; wn_WindowID := w; wn_WindowName := "cmdman-p"; wn_Identity := "p"; wn_Frame := "";
     wn_Created := created; wn_Marker := 0; wn_State := ∅ |}.

(** A server with the given windows on which every call succeeds. *)
Definition calm (rows : list Window) (X : Type) (e : muxE X) (s : unit) : X * unit :=
  (match e in muxE X return X with
   | CurrentSessionName => Ok (Some "main")
   | CurrentWindowID _ => Ok (Some "@1")
   | EnclosingWindowID => Ok (Some "@1")
   | ReadWindowState _ _ => Ok ""
   | WriteWindowState _ _ _ => None
   | ListWindows _ _ _ => Ok rows
   | NewWindow _ => Ok "@9"
   | OpenWindow cfg => Ok (Some (mc_WindowID cfg))
   | FindPane _ _ => Ok (Some "%3")
   | FocusWindow _ _ => None
   | AttachCommand s => ["tmux"; "attach-session"; "-t"; s]
   | StatMarker _ => Ok 0%Z
   | ApplyLayout _ _ _ => None
   | ShowFrame _ _ _ _ => None
   | HideFrame _ => None
   | DetachWindow _ => None
   | CloseWindow _ => None
   | RespawnLeaf _ _ _ _ _ _ => None
   | SvcListCommands => Ok []
   | SvcCreateCommand _ => Ok "1"
   | SvcStartCommand _ => None
   | Warn _ => tt
   | PrintLine _ => tt
   end, s).

Lemma calm_check rows {A} (p : muxprog A) (check : A -> list muxact -> bool) :
  match exec (calm rows) p tt with Some (a, tr, _) => check a tr | None => false end = true ->
  exists tr a, run p tr a /\ check a tr = true.
Proof.
  destruct (exec (calm rows) p tt) as [[[a tr] s]|] eqn:E; [|done]. intros H. exists tr, a. split; [by eapply exec_run|done].
Qed.

Definition tmux : DriverSpec := {| driver_Name := "tmux"; Path := ""; Socket := ""; Opts := ∅ |}.

(** The window the teardown runs in, another one cmdman made, and a borrowed one. *)
Definition three_windows : list Window := [window_row "@1" "main" true; window_row "@2" "main" true; window_row "@3" "work" false].
Definition closing_down : DownOptions :=
  {| do_Driver := tmux; do_SessionName := ""; do_WindowName := ""; do_Identity := "p"; do_Env := ["TMUX=x"]; do_KillCreated := true |}.
Definition tmux_down : muxprog (list muxErr) := MuxDown (fun _ => true) (fun _ => None) closing_down.

Definition closed (tr : list muxact) : list string :=
  omap (fun a => match a with Act (CloseWindow w) _ => Some w | _ => None end) tr.

Lemma down_closes_only_its_own_witness :
  exists tr (rows : list Window) t3, run tmux_down tr [] /\ closed tr = ["@2"] /\
    Act (ListWindows "" "p" []) (Ok rows) ∈ tr /\
    (exists self, (forall t a t', t3 = t ++ a :: t' -> ends_own true self rows t a) /\ forall row, row ∈ rows -> taken_down true self row t3).
Proof.
  destruct (calm_check three_windows tmux_down (fun r tr => bool_decide (r = []) && bool_decide (closed tr = ["@2"])))
    as (tr & r & Hr & [Hc1%bool_decide_eq_true Hc2%bool_decide_eq_true]%andb_true_iff); [vm_compute; reflexivity|]. subst r.
  destruct (down_closes_only_its_own (fun _ => true) (fun _ => None) closing_down tr [] Hr)
    as [[Hn _]|(t1 & identity & rows & t2 & self & t3 & Ht & Ht1 & Hi & _ & _ & Hc & Hall)].
  - exfalso. assert (He : closed tr = []); [|by rewrite He in Hc2]. clear -Hn. induction Hn as [|[X [] x] tr Ha _ IH]; simpl in *; try done.
  - exists tr, rows, t3. split; [exact Hr|]. split; [exact Hc2|]. split.
    + assert (Hp : identity = "p").
      { destruct Ht1 as [->|[ans ->]]; [apply (Hi (Ok None)), Forall_nil_2|apply (Hi ans), Forall_singleton; done]. }
      subst identity. rewrite Ht. apply elem_of_app. right. left.
    + exists self. split; [exact Hc|]. intros row Hin. by apply Hall.
Defined.

(** One window whose pane shows the first of three replicas. *)
Definition cycling : CycleOptions := {|
  co_Spec := {| spec_Driver := tmux; spec_Layouts := [{| ml_Name := "main"; ml_Root := MkMuxPane "" [] [] "web" 0 "" ∅ false |}] |};
  co_Resolver := fun c i => Ok (c +:+ Itoa i); co_Replicas := Some (fun _ => Ok 3%Z);
  co_Opts := {| Executable := "cmdman"; DataDir := ""; RuntimeDir := "" |};
  co_Identity := "p"; co_SessionName := ""; co_Command := "web"; co_Position := 0; co_Env := [] |}.
Definition cycle_one : muxprog (CycleWindow * option muxErr) := cycleScaleWindow (fun _ => Ok 3%Z) cycling (window_row "@2" "main" true).

Definition written (tr : list muxact) : list string :=
  omap (fun a => match a with Act (WriteWindowState _ _ v) _ => Some v | _ => None end) tr.

Lemma cycle_stores_what_it_shows_witness :
  exists tr res e, run cycle_one tr (res, e) /\ written tr = ["web=2"] /\ Forall (stores cycling (window_row "@2" "main" true) res) tr.
Proof.
  destruct (calm_check [] cycle_one (fun r tr => bool_decide (written tr = ["web=2"])))
    as (tr & [res e] & Hr & Hc%bool_decide_eq_true); [vm_compute; reflexivity|].
  destruct (cycle_stores_what_it_shows (fun _ => Ok 3%Z) cycling (window_row "@2" "main" true) tr res e Hr) as [H _].
  exists tr, res, e. split; [exact Hr|]. split; [exact Hc|exact H].
Defined.

Lemma agreedScalePositions_exact_witness :
  (forall m : gmap string Z, map_to_list m ≡ₚ map_to_list m) /\
  agreedScalePositions map_to_list [{["a" := 1%Z]}; {["a" := 1%Z; "b" := 2%Z]}; {["b" := 3%Z]}] !! "a" = Some 1%Z.
Proof.
  split; [done|]. apply (agreedScalePositions_exact map_to_list (fun m => reflexivity (map_to_list m))). split.
  - exists {["a" := 1%Z]}. split; [left|done].
  - intros w q Hw Hq. apply elem_of_cons in Hw as [->|[->|[->|[]%elem_of_nil]%elem_of_cons]%elem_of_cons]; vm_compute in Hq; congruence.
Defined.
