(* ===== verification/ComposeMux.v ===== *)
(** * Dashboards of a compose project

    [cmdman/compose/mux.go] and [service_mux.go]: the replicas of a project as the leaves
    of its dashboards, and the verbs of [cmdman/mux] called for a project.  The listing of
    the project's commands is an answer, given as an argument; the multiplexer answers
    calls, as in [MuxRun.v]. *)

From S2P Require Import Config Prelude GoStr LogDriver Model ComposeSpec Naming Normalize Prog MuxCtl Mux Select Frame FrameProps MuxFrame MuxRun MuxProps Targets Down.

(** ** Replicas *)

(* src/cmdman/compose/service_mux.go:26-47 Service.MuxLeafResolver *)
Inductive leafErr :=
| LeafNotFound (leaf : string)
| LeafAmbiguous (leaf : string) (replicas : nat)
| LeafNoReplica (leaf : string) (index : Z) (scale : nat).

(* src/cmdman/compose/service_mux.go:79-88 Service.projectReplicaIDs *)
Definition add_replica (grouped : gmap string (list (string * Z))) (e : CommandEntry) : gmap string (list (string * Z)) :=
  match ConfigJSON e with
  | None => grouped
  | Some _ =>
    let name := commandNameOf e in
    if decide (name = "") then grouped else <[name := default [] (grouped !! name) ++ [(ID e, scaleIndexOf e)]]> grouped
  end.

(** By scale index; the order of equal ones is open. *)
Definition index_le (x y : string * Z) : Prop := (x.2 <= y.2)%Z.

#[export] Instance index_le_dec : RelDecision index_le.
Proof. intros x y. unfold index_le. apply _. Defined.
#[export] Instance index_le_trans : Transitive index_le.
Proof. intros x y z. unfold index_le. lia. Qed.
#[export] Instance index_le_total : Total index_le.
Proof. intros x y. unfold index_le. lia. Qed.

(* src/cmdman/compose/service_mux.go:60-99 Service.projectReplicaIDs *)
Definition projectReplicaIDs (entries : list CommandEntry) : gmap string (list string) :=
  (fun items => (merge_sort index_le items).*1) <$> foldl add_replica ∅ entries.

(* src/cmdman/compose/service_mux.go:30-49 Service.MuxLeafResolver *)
Definition leaf_resolver (byCommand : gmap string (list string)) (leaf : string) (scaleIndex : Z) : result leafErr string :=
  let ids := default [] (byCommand !! leaf) in
  match ids with
  | [] => Err (LeafNotFound leaf)
  | id :: rest =>
    if decide (scaleIndex <= 0)%Z then
      if decide (rest = []) then Ok id else Err (LeafAmbiguous leaf (length ids))
    else match ids !! Z.to_nat (scaleIndex - 1) with
         | None => Err (LeafNoReplica leaf scaleIndex (length ids))
         | Some id => Ok id
         end
  end.

(* src/cmdman/compose/service_mux.go:50-56 Service.MuxLeafResolver *)
Definition leaf_counter (byCommand : gmap string (list string)) (leaf : string) : result leafErr Z :=
  match default [] (byCommand !! leaf) with
  | [] => Err (LeafNotFound leaf)
  | ids => Ok (Z.of_nat (length ids))
  end.

(* src/cmdman/compose/service_mux.go:12-58 Service.MuxLeafResolver *)
Definition MuxLeafResolver (listed : result string (list CommandEntry))
  : result string ((string -> Z -> result leafErr string) * (string -> result leafErr Z)) :=
  try entries := listed in
  let byCommand := projectReplicaIDs entries in
  Ok (leaf_resolver byCommand, leaf_counter byCommand).

(** ** The verbs *)

Section Verbs.
Context (registered : string -> bool)
        (Connect : DriverSpec -> option muxErrText)
        (LoadDef : string -> result frameFileErr FrameSpec)
        (SelfExecutable : option string)
        (workdirHash : string -> string)
        (environ : list string)
        (cfg : Config)
        (frameSvc : option (string * string))
        (leaf_text : leafErr -> muxErrText).

(* src/cmdman/compose/selection.go:31-42 ProjectSelection.ProjectIdentity *)
Definition ProjectIdentity (s : ProjectSelection) : string := GenerateProjectIdentity (workdirHash (sel_WorkDir s)) (sel_Project s).

(* src/cmdman/compose/selection.go:44-55 ProjectSelection.MuxWindowName *)
Definition MuxWindowName (s : ProjectSelection) : string :=
  if decide (sel_Project s = "") then "cmdman" else "cmdman-" +:+ sel_Project s.

(** The mux section of a selection; without one the verbs that need it panic. *)
Definition sel_mux (s : ProjectSelection) : option Spec := sel_Spec s ≫= spec_Mux.

(* src/cmdman/compose/mux.go:75-108 Service.MuxUp *)
Inductive composeMuxErr :=
| CMuxNoSection
| CMuxNoExecutable
| CMuxList (t : string)
| CMuxScaleState (e : muxErr)
| CMuxBuild (e : buildErr (E := leafErr))
| CMuxVerb (e : muxErr).

(* src/cmdman/compose/mux.go:27-53 MuxUpOption *)
Record MuxUpOption := {
  mu_Selection : ProjectSelection;
  mu_WindowName : string;
  mu_Layout : string;
  mu_KeepLayout : bool;
  mu_SessionName : string;
  mu_KeepCurrentWindow : bool;
}.

(** The name that was given, or else the project's; [MuxUpOption] and [MuxLandOption]. *)
(* src/cmdman/compose/mux.go:55-60 MuxUpOption.windowName *)
Definition windowName (name : string) (s : ProjectSelection) : string := if decide (name = "") then MuxWindowName s else name.

(* src/cmdman/compose/mux.go:99-103 Service.MuxUp *)
Definition pane_opts (exe : string) : PaneArgvOpts :=
  {| Executable := exe; DataDir := cf_DataDir cfg; RuntimeDir := cf_RuntimeDir cfg |}.

(* src/cmdman/compose/mux.go:110-120 Service.MuxUp *)
Definition run_options (opts : MuxUpOption) : RunOptions := {|
  ro_SessionName := mu_SessionName opts; ro_WindowName := windowName (mu_WindowName opts) (mu_Selection opts);
  ro_Identity := ProjectIdentity (mu_Selection opts); ro_KeepCurrentWindow := mu_KeepCurrentWindow opts;
  ro_Layout := mu_Layout opts; ro_KeepLayout := mu_KeepLayout opts; ro_DefaultFrame := cf_DefaultFrame cfg;
  ro_Svc := frameSvc; ro_Env := environ |}.

(* src/cmdman/compose/mux.go:62-121 Service.MuxUp *)
Definition ComposeMuxUp (listed : result string (list CommandEntry)) (opts : MuxUpOption) : muxprog (result composeMuxErr unit) :=
  match sel_mux (mu_Selection opts), SelfExecutable with
  | None, _ => mret (Err CMuxNoSection)
  | _, None => mret (Err CMuxNoExecutable)
  | Some spec, Some exe =>
    match MuxLeafResolver listed with
    | Err t => mret (Err (CMuxList t))
    | Ok (resolver, replicas) =>
      s ← ReadScaleState registered Connect (spec_Driver spec) (mu_SessionName opts) (ProjectIdentity (mu_Selection opts)) environ;
      match s with
      | Err e => mret (Err (CMuxScaleState e))
      | Ok scalePositions =>
        match Build resolver (Some replicas) (pane_opts exe) scalePositions spec with
        | Err e => mret (Err (CMuxBuild e))
        | Ok built =>
          r ← Run registered Connect LoadDef SelfExecutable built (run_options opts);
          mret (lift_err CMuxVerb r)
        end
      end
    end
  end.

(** Without a mux section the driver is autodetected. *)
Definition no_driver : DriverSpec := {| driver_Name := ""; Path := ""; Socket := ""; Opts := ∅ |}.

(* src/cmdman/compose/mux.go:144-170 Service.MuxLand *)
Definition ComposeMuxLand (selection : ProjectSelection) (name sessionName : string) : muxprog (option LandResult * option muxErr) :=
  Land registered Connect {|
    lo_Driver := match sel_mux selection with Some m => spec_Driver m | None => no_driver end;
    lo_SessionName := sessionName; lo_WindowName := windowName name selection;
    lo_Identity := ProjectIdentity selection; lo_WorkDir := sel_WorkDir selection; lo_Env := environ |}.

(* src/cmdman/compose/mux.go:188-206 Service.MuxDown *)
Definition ComposeMuxDown (selection : ProjectSelection) (sessionName : string) (killCreated : bool) : muxprog (result composeMuxErr (list muxErr)) :=
  match sel_mux selection with
  | None => mret (Err CMuxNoSection)
  | Some spec =>
    errs ← MuxDown registered Connect {|
      do_Driver := spec_Driver spec; do_SessionName := sessionName; do_WindowName := "";
      do_Identity := ProjectIdentity selection; do_Env := environ; do_KillCreated := killCreated |};
    mret (Ok errs)
  end.

(* src/cmdman/compose/mux.go:216-228 MuxLsResult *)
Record MuxLsResult := { ml_Windows : list OwnedWindow; ml_ReplicaCounts : gmap string Z; ml_CycleTargets : list string }.

(** What could be counted. *)
(* src/cmdman/compose/mux.go:253-263 Service.MuxLs *)
Definition replica_counts (listed : option (result string (list CommandEntry))) (targets : list string) : gmap string Z :=
  match listed with
  | Some l =>
    match MuxLeafResolver l with
    | Ok (_, counter) => foldl (fun m t => match counter t with Ok n => <[t := n]> m | Err _ => m end) ∅ targets
    | Err _ => ∅
    end
  | None => ∅
  end.

(** A service built without a cmdman service lists nothing. *)
(* src/cmdman/compose/mux.go:230-270 Service.MuxLs *)
Definition MuxLs (listed : option (result string (list CommandEntry))) (selection : ProjectSelection) (sessionName : string)
  : muxprog (result composeMuxErr MuxLsResult) :=
  match sel_mux selection with
  | None => mret (Err CMuxNoSection)
  | Some spec =>
    w ← MuxList registered Connect (spec_Driver spec) sessionName (ProjectIdentity selection) environ;
    match w with
    | Err e => mret (Err (CMuxVerb e))
    | Ok windows =>
      let targets := CollectCycleTargets spec in
      mret (Ok {| ml_Windows := windows; ml_ReplicaCounts := replica_counts listed targets; ml_CycleTargets := targets |})
    end
  end.

(* src/cmdman/compose/mux.go:290-327 Service.MuxCycleScale *)
Definition MuxCycleScale (listed : result string (list CommandEntry)) (selection : ProjectSelection) (sessionName command : string)
    (position : Z) (env : option (list string)) : muxprog (result composeMuxErr (list CycleWindow * list muxErr)) :=
  match sel_mux selection, SelfExecutable with
  | None, _ => mret (Err CMuxNoSection)
  | _, None => mret (Err CMuxNoExecutable)
  | Some spec, Some exe =>
    match MuxLeafResolver listed with
    | Err t => mret (Err (CMuxList t))
    | Ok (resolver, replicas) =>
      r ← CycleScale registered Connect {|
        co_Spec := spec; co_Resolver := fun leaf i => lift_err leaf_text (resolver leaf i);
        co_Replicas := Some (fun leaf => lift_err leaf_text (replicas leaf)); co_Opts := pane_opts exe;
        co_Identity := ProjectIdentity selection; co_SessionName := sessionName; co_Command := command;
        co_Position := position; co_Env := default environ env |};
      mret (Ok r)
    end
  end.

(* src/cmdman/compose/mux.go:337-373 Service.MuxScaleState *)
Definition MuxScaleState (order : gmap string Z -> list (string * Z)) (selection : ProjectSelection) (sessionName : string)
  : muxprog (result composeMuxErr (gmap string Z)) :=
  match sel_mux selection with
  | None => mret (Err CMuxNoSection)
  | Some spec =>
    w ← MuxList registered Connect (spec_Driver spec) sessionName (ProjectIdentity selection) environ;
    match w with
    | Err e => mret (Err (CMuxVerb e))
    | Ok windows => mret (Ok (agreedScalePositions order (map ow_ScalePositions windows)))
    end
  end.
End Verbs.

(** ** Which replica a leaf shows *)

(** The replicas of a command among the entries of its project. *)
Definition replicas_of (command : string) (entries : list CommandEntry) : list CommandEntry :=
  filter (fun e => commandNameOf e = command) entries.

(** The replicas of a command have the indices from one to their number, in any order. *)
Definition numbered_replicas (command : string) (entries : list CommandEntry) : Prop :=
  scaleIndexOf <$> replicas_of command entries ≡ₚ (fun i => Z.of_nat i) <$> seq 1 (length (replicas_of command entries)).

Definition item_of (e : CommandEntry) : string * Z := (ID e, scaleIndexOf e).

Lemma grouped_items entries g command : command <> "" ->
  default [] (foldl add_replica g entries !! command) = default [] (g !! command) ++ (item_of <$> replicas_of command entries).
Proof.
  intros Hc. revert g. induction entries as [|e entries IH]; intros g; cbn [foldl]; [by rewrite app_nil_r|].
  rewrite IH. unfold replicas_of. rewrite filter_cons. unfold add_replica, commandNameOf.
  destruct (ConfigJSON e) as [cfg|] eqn:E; [|by rewrite decide_False by congruence]. fold (commandNameOf e).
  destruct (decide (label (Labels cfg) LabelCommand = command)) as [<-|Hne].
  - rewrite decide_False by done. rewrite lookup_insert_eq. cbn. by rewrite <- app_assoc.
  - case_decide; [done|]. by rewrite lookup_insert_ne.
Qed.

Lemma sorted_indices (items : list (string * Z)) n :
  items.*2 ≡ₚ (fun i => Z.of_nat i) <$> seq 1 n -> (merge_sort index_le items).*2 = (fun i => Z.of_nat i) <$> seq 1 n.
Proof.
  intros H. apply (StronglySorted_unique Z.le).
  - pose proof (StronglySorted_merge_sort index_le items) as Hs. induction Hs as [|x l _ IH Hx]; [constructor|]. cbn. constructor; [exact IH|].
    apply Forall_fmap. eapply Forall_impl; [exact Hx|]. intros y Hy. exact Hy.
  - clear H. generalize 1. induction n as [|n IH]; intros k; cbn; [constructor|]. constructor; [apply IH|].
    apply Forall_fmap, Forall_forall. intros i Hi%elem_of_seq. cbn. lia.
  - rewrite <- H. by rewrite merge_sort_Permutation.
Qed.

(** What the resolver and the counter answer for a command with numbered replicas. *)
Lemma resolver_numbered entries command : command <> "" -> numbered_replicas command entries ->
  let n := Z.of_nat (length (replicas_of command entries)) in
  let ids := projectReplicaIDs entries in
  leaf_counter ids command = (if decide (n = 0)%Z then Err (LeafNotFound command) else Ok n) /\
  (forall i id, leaf_resolver ids command i = Ok id ->
     exists e, e ∈ replicas_of command entries /\ ID e = id /\ (scaleIndexOf e = i \/ (i <= 0 /\ n = 1))%Z) /\
  (forall i, (1 <= i <= n)%Z -> is_ok (leaf_resolver ids command i) = true).
Proof.
  intros Hc Hnum n ids. set (items := item_of <$> replicas_of command entries). set (sorted := merge_sort index_le items).
  assert (Hids : default [] (ids !! command) = sorted.*1).
  { unfold ids, projectReplicaIDs, sorted, items. rewrite lookup_fmap. pose proof (grouped_items entries ∅ command Hc) as Hg. rewrite lookup_empty in Hg.
    cbn in Hg. rewrite <- Hg. by destruct (foldl add_replica ∅ entries !! command). }
  assert (Hidx : sorted.*2 = (fun i => Z.of_nat i) <$> seq 1 (length (replicas_of command entries))).
  { apply sorted_indices. unfold items. rewrite <- list_fmap_compose. exact Hnum. }
  assert (Hlen : length sorted = length (replicas_of command entries)).
  { unfold sorted, items. by rewrite merge_sort_Permutation, length_fmap. }
  assert (Hnth : forall k id, sorted.*1 !! k = Some id -> exists e, e ∈ replicas_of command entries /\ ID e = id /\ scaleIndexOf e = Z.of_nat (S k)).
  { intros k id Hk. rewrite list_lookup_fmap in Hk. destruct (sorted !! k) as [[id' z]|] eqn:Hs; [|done]. injection Hk as <-.
    assert (Hz : sorted.*2 !! k = Some z) by (by rewrite list_lookup_fmap, Hs). rewrite Hidx, list_lookup_fmap in Hz.
    destruct (seq 1 _ !! k) as [m|] eqn:Hm; [|done]. apply lookup_seq in Hm as [-> _]. injection Hz as <-.
    apply list_elem_of_lookup_2 in Hs. unfold sorted in Hs. rewrite merge_sort_Permutation in Hs. unfold items in Hs.
    apply list_elem_of_fmap in Hs as (e & He & Hin). injection He as -> Hz. exists e. split; [done|]. split; [done|]. by rewrite <- Hz. }
  unfold leaf_counter, leaf_resolver. rewrite Hids. assert (Hl1 : length sorted.*1 = length (replicas_of command entries)) by (by rewrite length_fmap).
  split; [|split].
  - destruct sorted.*1 as [|x l] eqn:E; simpl in Hl1; [by rewrite decide_True by lia|]. rewrite decide_False by lia. f_equal. simpl. lia.
  - intros i id H. destruct sorted.*1 as [|x l] eqn:E; [done|]. destruct (decide (i <= 0)%Z).
    + destruct (decide (l = [])) as [->|]; [|done]. injection H as ->. destruct (Hnth 0 id eq_refl) as (e & He & Hid & _).
      exists e. split; [done|]. split; [done|]. right. simpl in Hl1. split; [done|lia].
    + destruct ((x :: l) !! _) as [id'|] eqn:Hk; [|done]. injection H as ->. apply Hnth in Hk as (e & He & Hid & Hs). exists e.
      split; [done|]. split; [done|]. left. rewrite Hs. lia.
  - intros i Hi. destruct sorted.*1 as [|x l] eqn:E; [simpl in Hl1; lia|]. rewrite decide_False by lia.
    destruct (lookup_lt_is_Some_2 (x :: l) (Z.to_nat (i - 1))) as [id ->]; [lia|done].
Qed.

(** *** Through the build *)

Fixpoint pane_leaves (p : PaneSpec) : list PaneSpec :=
  if IsLeaf p then [p] else match p with MkPane _ _ ps _ _ _ _ _ => flat_map pane_leaves ps end.

Section Built.
Context {E : Type} (resolver : string -> Z -> result E string) (count : string -> result E Z) (opts : PaneArgvOpts) (positions : gmap string Z).

(** A pane that runs a viewer of what the resolver answers for the leaf's replica. *)
Definition shows (l : MuxPane) (p : PaneSpec) : Prop :=
  exists idx id, resolver (mp_Command l) idx = Ok id /\ Cmd p = paneArgv opts (mp_Mode l) id /\
    if decide (0 < mp_Scale l)%Z then idx = mp_Scale l
    else exists n, count (mp_Command l) = Ok n /\ idx = wrap_position (default 1%Z (positions !! mp_Command l)) (Z.max n 1).

Lemma buildPane_shows p seen q seen' : buildPane resolver (Some count) opts positions p seen = Ok (q, seen') -> Forall2 shows (mp_leaves p) (pane_leaves q).
Proof.
  revert seen q seen'. induction p as [d sp ps c s m o f IH] using MuxPane_ind'. intros seen q seen'. cbn [buildPane mp_leaves].
  destruct (mp_IsLeaf _) eqn:El.
  - clear IH El. unfold build_leaf. set (l := MkMuxPane _ _ _ _ _ _ _ _). intros H. inv_bind H as t Ht. destruct t as [[idx name] key].
    inv_bind H as id Hid. destruct (bool_decide _); [done|]. injection H as <- _.
    change (pane_leaves _) with [MkPane "" [] [] name (paneArgv opts (mp_Mode l) id) (mp_CmdOpt l) (mp_Focus l) key]. constructor; [|constructor].
    exists idx, id. split; [exact Hid|]. split; [done|]. unfold leaf_target in Ht.
    destruct (decide (0 < mp_Scale l)%Z); [by injection Ht as <- _ _|]. apply result_bind_ok in Ht as (cnt & Hcnt%lift_err_ok & Ht). injection Ht as <- _ _. exists cnt. by split.
  - destruct (mp_IsContainer _); [|done]. clear El. intros H. inv_bind H as r Hr. destruct r as [children seen2]. injection H as <- _.
    change (pane_leaves _) with (flat_map pane_leaves children).
    enough (Hall : forall i seen children seen2, (fix go i ps seen :=
           match ps with
           | [] => Ok ([], seen)
           | c :: ps =>
             try (b, seen) := lift_err (BuildInPane i) (buildPane resolver (Some count) opts positions c seen) in
             try (bs, seen) := go (S i) ps seen in
             Ok (b :: bs, seen)
           end) i ps seen = Ok (children, seen2) -> Forall2 shows (flat_map mp_leaves ps) (flat_map pane_leaves children)) by (by eapply Hall).
    clear Hr. induction IH as [|p ps Hp _ IHps]; intros i sn ch sn2 Hr; [injection Hr as <- _; constructor|].
    inv_bind Hr as b Hb. destruct b as [b sn1]. inv_bind Hr as bs Hbs. destruct bs as [bs sn3]. injection Hr as <- _. cbn [flat_map].
    apply Forall2_app; [by eapply Hp|by eapply IHps].
Qed.

Lemma Build_shows spec built i l : Build resolver (Some count) opts positions spec = Ok built -> Layouts built !! i = Some l ->
  exists ml, spec_Layouts spec !! i = Some ml /\ Forall2 shows (mp_leaves (ml_Root ml)) (pane_leaves (Root l)).
Proof.
  unfold Build. destruct (bool_decide _); [done|]. intros H Hl. inv_bind H as ls Hls. inv_bind H as u Hu. injection H as <-. cbn in Hl. clear Hu.
  revert i Hl. generalize 0 Hls. clear Hls. revert ls. induction (spec_Layouts spec) as [|ml mls IH]; intros ls k Hls i Hl; cbn [build_layouts] in Hls.
  - by injection Hls as <-.
  - inv_bind Hls as b Hb. inv_bind Hls as bs Hbs. injection Hls as <-. destruct i as [|i].
    + injection Hl as <-. exists ml. split; [done|]. unfold buildLayout in Hb. inv_bind Hb as r Hr. destruct r as [root sn]. injection Hb as <-.
      by eapply buildPane_shows.
    + by eapply IH.
Qed.
End Built.

(** *** Through the up *)

Section Up.
Context (registered : string -> bool)
        (Connect : DriverSpec -> option muxErrText)
        (LoadDef : string -> result frameFileErr FrameSpec)
        (SelfExecutable : option string)
        (workdirHash : string -> string)
        (environ : list string)
        (cfg : Config)
        (frameSvc : option (string * string)).

Notation up_of := (ComposeMuxUp registered Connect LoadDef SelfExecutable workdirHash environ cfg frameSvc).

Lemma run_applies spec opts tr r w root m x : run (Run registered Connect LoadDef SelfExecutable spec opts) tr r ->
  Act (ApplyLayout w root m) x ∈ tr -> exists l, Layouts spec !! m = Some l /\ root = Root l.
Proof.
  intros H Hin. assert (Hno : forall t, Forall (fun a => ~ builds a) t -> Act (ApplyLayout w root m) x ∉ t).
  { intros t Ht Ha. rewrite Forall_forall in Ht. by apply (Ht _ Ha). }
  apply up_builds_on_one_window in H as [[Hn _]|(t1 & session & ident & rows & c & y & t2 & -> & Hn & _ & _ & Hy)]; [by destruct (Hno tr)|].
  apply elem_of_app in Hin as [Hin|Hin]; [by destruct (Hno t1)|].
  apply elem_of_cons in Hin as [Hin|Hin]; [done|]. apply elem_of_cons in Hin as [Hin|Hin]; [done|].
  destruct y as [w'|e]; [|destruct Hy as [-> _]; by apply elem_of_nil in Hin].
  destruct Hy as (explicit & _ & [(e & _ & Hb)|(t3 & i & l & z & t4 & -> & Hn3 & Hon & Hl & _)]); [by destruct (Hno t2)|].
  apply elem_of_app in Hin as [Hin|Hin]; [by destruct (Hno t3)|]. apply elem_of_cons in Hin as [Hin|Hin].
  - injection Hin as _ -> ->. by exists l.
  - rewrite Forall_forall in Hon. by destruct (Hon _ Hin).
Qed.

(** The positions that the windows of a project hold. *)
Definition held (rows : list Window) : gmap string Z := foldl (fun m r => ow_ScalePositions (owned_window r) ∪ m) ∅ rows.

Lemma held_positive rows c : (1 <= default 1 (held rows !! c))%Z.
Proof.
  unfold held. assert (H : forall m : gmap string Z, (1 <= default 1 (m !! c))%Z ->
    (1 <= default 1 (foldl (fun m r => ow_ScalePositions (owned_window r) ∪ m) m rows !! c))%Z); [|apply H; by rewrite lookup_empty].
  induction rows as [|r rows IH]; intros m Hm; [done|]. cbn [foldl]. apply IH. rewrite lookup_union.
  pose proof (stored_positive (default "" (wn_State r !! StateKeyScale)) c) as Hp. cbn. destruct (decodeScalePositions _ !! c); [by destruct (m !! c)|].
  by destruct (m !! c).
Qed.

Lemma read_scale_run driver session ident env tr s : run (ReadScaleState registered Connect driver session ident env) tr s ->
  Forall (fun a => ~ applies a) tr /\ forall m, s = Ok m -> exists rows, Act (ListWindows session ident [StateKeyScale]) (Ok rows) ∈ tr /\ m = held rows.
Proof.
  unfold ReadScaleState. destruct (resolveServer _ _ _ _); intros H; [|by apply run_ret in H as [-> ->]; split; [constructor|]].
  inv_ask H as rows e; apply run_ret in H as [-> ->]; (split; [repeat constructor; exact (fun f => f)|]); [|done].
  intros m [= <-]. exists rows. split; [left|done].
Qed.

Lemma mp_leaves_named p l : l ∈ mp_leaves p -> mp_Command l <> "".
Proof.
  induction p as [d sp ps c s m o f IH] using MuxPane_ind'. cbn [mp_leaves]. destruct (mp_IsLeaf _) eqn:El.
  - intros ->%list_elem_of_singleton. unfold mp_IsLeaf in El. cbn in *. apply andb_true_iff in El as [El _]. apply andb_true_iff in El as [El _].
    apply andb_true_iff in El as [El _]. by apply negb_true_iff, bool_decide_eq_false in El.
  - intros (q & Hl & Hq)%list_elem_of_In%in_flat_map. rewrite Forall_forall in IH. apply list_elem_of_In in Hl; apply list_elem_of_In in Hq. by apply (IH q).
Qed.

(** A pane that runs a viewer of a replica of the leaf's command: of the one it is pinned
    to, or of the one at the held position, wrapped to their number. *)
Definition shows_replica (exe : string) (entries : list CommandEntry) (positions : gmap string Z) (l : MuxPane) (p : PaneSpec) : Prop :=
  exists e, e ∈ entries /\ commandNameOf e = mp_Command l /\
    Cmd p = paneArgv (pane_opts cfg exe) (mp_Mode l) (ID e) /\
    scaleIndexOf e = (if decide (0 < mp_Scale l)%Z then mp_Scale l
                      else wrap_position (default 1%Z (positions !! mp_Command l)) (Z.of_nat (length (replicas_of (mp_Command l) entries)))).

Lemma shows_its_replica entries rows exe l p :
  mp_Command l <> "" -> numbered_replicas (mp_Command l) entries ->
  shows (leaf_resolver (projectReplicaIDs entries)) (leaf_counter (projectReplicaIDs entries)) (pane_opts cfg exe) (held rows) l p ->
  shows_replica exe entries (held rows) l p.
Proof.
  intros Hc Hn (idx & id & Hid & Hcmd & Hidx). destruct (resolver_numbered entries (mp_Command l) Hc Hn) as (Hcount & Hres & _).
  apply Hres in Hid as (e & He & <- & Hs). apply list_elem_of_filter in He as [Hname He]. exists e. split; [done|]. split; [done|]. split; [done|].
  destruct (decide (0 < mp_Scale l)%Z); [subst idx; destruct Hs; lia|]. destruct Hidx as (k & Hcn & ->). rewrite Hcount in Hcn.
  destruct (decide _) as [|Hne] in Hcn; [done|]. injection Hcn as <-. rewrite Z.max_l in * by lia.
  assert (Hp : (1 <= wrap_position (default 1 (held rows !! mp_Command l)) (Z.of_nat (length (replicas_of (mp_Command l) entries))))%Z).
  { unfold wrap_position. apply rem_position_range; [lia|]. pose proof (held_positive rows (mp_Command l)). lia. }
  destruct Hs; [done|lia].
Qed.

(** C37: a dashboard shows the replicas its file names.  When the replicas of every command
    of the project have the indices from one to their number, then every layout that an up
    applies is the one of that index in the file, and its panes, in their order, run
    viewers of replicas of the commands of its leaves: a pinned leaf the replica it is
    pinned to, another one the replica at the position that the project's windows hold,
    or the first. *)
Theorem up_shows_the_replicas entries opts spec exe tr r w root m x :
  run (up_of (Ok entries) opts) tr r ->
  Act (ApplyLayout w root m) x ∈ tr ->
  sel_mux (mu_Selection opts) = Some spec -> SelfExecutable = Some exe ->
  (forall c, c <> "" -> numbered_replicas c entries) ->
  exists rows layout,
    Act (ListWindows (mu_SessionName opts) (ProjectIdentity workdirHash (mu_Selection opts)) [StateKeyScale]) (Ok rows) ∈ tr /\
    spec_Layouts spec !! m = Some layout /\
    Forall2 (shows_replica exe entries (held rows)) (mp_leaves (ml_Root layout)) (pane_leaves root).
Proof.
  intros H Hin Hm He Hnum. unfold ComposeMuxUp in H. rewrite Hm, He in H. cbn [MuxLeafResolver result_bind] in H.
  inv_run H as s t1 H1. apply read_scale_run in H1 as [Hn1 Hrows]. rewrite elem_of_app in Hin.
  assert (Hnot : Act (ApplyLayout w root m) x ∉ t1) by (intros Ha; rewrite Forall_forall in Hn1; by apply (Hn1 _ Ha)).
  destruct Hin as [Hin|Hin]; [done|]. destruct s as [positions|e]; [|apply run_ret in H as [-> _]; by apply elem_of_nil in Hin].
  destruct (Hrows positions eq_refl) as (rows & Hl & ->). destruct (Build _ _ _ _ _) as [built|e] eqn:Hb; [|apply run_ret in H as [-> _]; by apply elem_of_nil in Hin].
  inv_run H as r2 t2 H2. apply run_ret in H as [-> _]. rewrite app_nil_r in Hin. rewrite <- He in H2. destruct (run_applies _ _ _ _ _ _ _ _ H2 Hin) as (l & Hlk & ->).
  eapply Build_shows in Hb as (ml & Hml & Hs); [|exact Hlk]. exists rows, ml. split; [set_solver|]. split; [done|].
  apply Forall2_same_length_lookup in Hs as [Hlen Hs]. apply Forall2_same_length_lookup. split; [done|]. intros i a b Ha Hb.
  pose proof (Hs i a b Ha Hb) as Hab. apply list_elem_of_lookup_2, mp_leaves_named in Ha. by apply shows_its_replica; [|apply Hnum|].
Qed.
End Up.

(** ** A project with three replicas of one command *)

Definition web_config (index : Z) : CommandConfig := {|
  Argv := ["serve"]; cc_Dir := "/srv"; cc_Env := []; cc_InjectEnv := true; cc_RestartPolicy := ""; cc_MaxRetries := 0; cc_StopSignal := "";
  StopTimeout := None; cc_StopCommand := None; cc_Tty := false; cc_ScrollbackBytes := 0; cc_LogDriver := ""; cc_LogOpts := ∅;
  Labels := <[LabelCommand := "web"]> {[LabelScaleIndex := Itoa index]}; Annotations := ∅; cc_Hooks := ∅; CommandDir := "" |}.

Definition web (id : string) (index : Z) : CommandEntry := {|
  ID := id; entry_Name := "web"; CreatedAt := ""; entry_State := EventTypeRunning; ExitCode := None;
  ConfigJSON := Some (web_config index); StateJSON := None |}.

(** One pane for the third replica, one that cycles; the window holds the second. *)
Definition two_panes : Spec := {|
  spec_Driver := tmux;
  spec_Layouts := [{| ml_Name := "main"; ml_Root := MkMuxPane "h" [MkSize 50 false true; MkSize 50 false true] [MkMuxPane "" [] [] "web" 3 "" ∅ false; MkMuxPane "" [] [] "web" 0 ModeLogs ∅ true]
                                                              "" 0 "" ∅ false |}] |}.

Definition demo_selection : ProjectSelection := {|
  sel_Spec := Some {| ComposeFile := "/srv/compose.yaml"; Project := "p"; WorkDir := "/srv"; WorkDirDeclared := false; Commands := []; spec_Mux := Some two_panes |};
  sel_WorkDir := "/srv"; sel_Project := "p" |}.

Definition demo_cfg : Config := {|
  cf_DataDir := "/d"; cf_RuntimeDir := ""; cf_DefaultWorkingDir := ""; cf_DefaultEnvironment := []; cf_DefaultScrollbackBytes := 1;
  cf_DefaultLogDriver := ""; cf_EventWatcherKind := ""; cf_DefaultHooks := ∅; cf_DefaultFrame := ""; cf_ConfigPath := "" |}.

Definition demo_up : MuxUpOption := {|
  mu_Selection := demo_selection; mu_WindowName := ""; mu_Layout := ""; mu_KeepLayout := false; mu_SessionName := ""; mu_KeepCurrentWindow := false |}.

Definition three_replicas : list CommandEntry := [web "c" 3; web "a" 1; web "b" 2].

Definition demo_window : Window := {|
  wn_SessionName := "main"; wn_WindowID := "@1"; wn_WindowName := "w"; wn_Identity := "h-p"; wn_Frame := ""; wn_Created := true; wn_Marker := 0;
  wn_State := {[StateKeyScale := "web=5"]} |}.

Definition demo_compose_up : muxprog (result composeMuxErr unit) :=
  ComposeMuxUp (fun _ => true) (fun _ => None) (fun _ => Err FrameNameRequired) (Some "cmdman") (fun _ => "h") ["TMUX=x"] demo_cfg None (Ok three_replicas) demo_up.

Definition applied_layout (a : muxact) : option (string * PaneSpec * nat) :=
  match a with Act (ApplyLayout w root m) _ => Some (w, root, m) | _ => None end.

Lemma three_numbered c : c <> "" -> numbered_replicas c three_replicas.
Proof.
  intros _. unfold numbered_replicas, replicas_of, three_replicas. rewrite !filter_cons, filter_nil.
  change (commandNameOf (web _ _)) with "web". destruct (decide ("web" = c)); [|reflexivity].
  vm_compute. apply (Permutation_cons_app [1; 2]%Z []). reflexivity.
Qed.

Lemma up_shows_the_replicas_witness :
  exists tr w root m, run demo_compose_up tr (Ok tt) /\ omap applied_layout tr = [(w, root, m)] /\ m = 0 /\
    Cmd <$> pane_leaves root = [["cmdman"; "--data-dir"; "/d"; "attach"; "c"]; ["cmdman"; "--data-dir"; "/d"; "logs"; "--sticky"; "b"]] /\
    exists rows layout, spec_Layouts two_panes !! m = Some layout /\
      Forall2 (shows_replica demo_cfg "cmdman" three_replicas (held rows)) (mp_leaves (ml_Root layout)) (pane_leaves root).
Proof.
  destruct (exec (calm [demo_window]) demo_compose_up tt) as [[[r tr] s]|] eqn:E; [|vm_compute in E; discriminate E].
  assert (H : r = Ok tt /\ exists w root m, omap applied_layout tr = [(w, root, m)] /\ m = 0 /\
    Cmd <$> pane_leaves root = [["cmdman"; "--data-dir"; "/d"; "attach"; "c"]; ["cmdman"; "--data-dir"; "/d"; "logs"; "--sticky"; "b"]]).
  { vm_compute in E. injection E as <- <- _. split; [reflexivity|]. do 3 eexists. split; [reflexivity|]. split; reflexivity. }
  destruct H as (-> & w & root & m & Ha & Hm & Hc). apply exec_run in E.
  assert (Hin : exists x, Act (ApplyLayout w root m) x ∈ tr).
  { assert (Hi : (w, root, m) ∈ omap applied_layout tr) by (rewrite Ha; left). apply list_elem_of_omap in Hi as ([X e x] & Hin & He).
    destruct e; try discriminate He. injection He as -> -> ->. by exists x. }
  destruct Hin as [x Hin]. exists tr, w, root, m. split; [exact E|]. split; [exact Ha|]. split; [exact Hm|]. split; [exact Hc|].
  destruct (up_shows_the_replicas (fun _ => true) (fun _ => None) (fun _ => Err FrameNameRequired) (Some "cmdman") (fun _ => "h") ["TMUX=x"] demo_cfg None
    three_replicas demo_up two_panes "cmdman" tr (Ok tt) w root m x E Hin eq_refl eq_refl three_numbered) as (rows & layout & _ & Hl & Hs).
  exists rows, layout. split; [exact Hl|exact Hs].
Defined.

(** Without the second of three replicas, the second place is the third replica's, and the
    third is refused. *)
Lemma gap_shifts_replicas :
  let ids := projectReplicaIDs [web "a" 1; web "c" 3] in
  leaf_resolver ids "web" 2 = Ok "c" /\ leaf_resolver ids "web" 3 = Err (LeafNoReplica "web" 3 2).
Proof. split; vm_compute; reflexivity. Qed.
