(* ===== verification/DownJob.v ===== *)
(** * Compose downs that run as jobs

    [cmdman/cli/compose_down_job.go], [compose_down_follow.go], [compose_down_output.go]:
    a down as a command of its own, launched at most once for those who ask at the same
    time, and followed to its end.  The cmdman service, the lock file, the clock and the
    event log answer calls; what polling for the lock gives in the end is one answer. *)

From S2P Require Import Config Prelude GoStr LogDriver Model SendKeys ComposeSpec Naming Normalize Prog Plan Select HookOutput ComposeSvc Down ComposeMux.

(** ** Calls *)

(** How the waiting for the lock ends. *)
Inductive lockEnd := LockAcquired | LockFailed (t : string) | LockCtxDone.

(** What a follower wakes up from. *)
Inductive followWake :=
| WakeCancelled
| WakeClosed
| WakeBadRecord
| WakeEvent (type : EventType) (exitCode : option Z) (failure : string)
| WakeTick.

(* src/cmdman/tui/internal/core/backend.go:151-176 DownSummary *)
Record DownSummary := MkSummary { ds_Stopped : Z; ds_Removed : Z; ds_ForceKilled : Z; ds_Unreleased : Z; ds_Running : bool }.

(** The records of an output, each a line or an error. *)
Definition outputRecord : Type := result string LogLine.

Inductive jobE : Type -> Type :=
| MakeLockDir (dir : string) : jobE (option string)
| OpenLock (path : string) : jobE (option string)
| WaitLock : jobE lockEnd
| TryLock : jobE (result string bool)
| CloseLock : jobE unit
| ListCommands : jobE (result string (list CommandEntry))
| HoldPIDLock (id : string) : jobE (result string bool)
| ReleasePIDLock (id : string) : jobE unit
| RemoveCommand (target : string) (force : bool) : jobE (result string (list (option string)))
| CreateCommand (req : CreateRequest) : jobE (result string string)
| StartCommand (id : string) : jobE (option string)
| TimeNow : jobE Z
| Await : jobE followWake
| SubscribeEnds (id : string) : jobE (option string)
| CloseEnds : jobE unit
| OpenOutput (id : string) (follow : bool) : jobE (option string)
| ReadOutput : jobE (list outputRecord)
| CloseOutput : jobE unit
| Publish (s : DownSummary) : jobE unit
| CtxErr : jobE bool.

Notation jobprog := (prog jobE).
Notation jobact := (act jobE).

Inductive jobErr :=
| JobAbs (t : string)
| JobExecutable
| JobNoRuntimeDir
| JobLockDir (t : string)
| JobLockOpen (t : string)
| JobLock (t : string)
| JobLockWait
| JobLookup (name t : string)
| JobMonitorCheck (name t : string)
| JobRemove (name t : string)
| JobRegister (name t : string)
| JobLeftover (name t : string)
| JobStart (name t : string)
| JobGone (name : string)
| JobBoth (e e' : jobErr).

(** ** The job *)

(* src/cmdman/compose/spec.go:53-53 LabelJob *)
Definition LabelJob : string := "cmdman.compose.job".
(* src/cmdman/compose/spec.go:54-56 LabelJobWorkdir *)
Definition LabelJobWorkdir : string := "cmdman.compose.job.workdir".
(* src/cmdman/compose/spec.go:57-58 LabelJobProject *)
Definition LabelJobProject : string := "cmdman.compose.job.project".
(* src/cmdman/compose/spec.go:61-62 JobDown *)
Definition JobDown : string := "down".

(* src/cmdman/cli/compose_down_job.go:26-43 ComposeDownJobOptions *)
Record ComposeDownJobOptions := { dj_WorkDir : string; dj_Project : string; dj_File : string; dj_Env : list string }.

(* src/cmdman/cli/compose_down_job.go:45-55 ComposeDownJob *)
Record ComposeDownJob := { cj_ID : string; cj_Name : string; cj_State : EventType; cj_NeverRan : bool }.

(* src/cmdman/cli/compose_down_job.go:505-507 composeDownJobOf *)
Definition composeDownJobOf (e : CommandEntry) : ComposeDownJob :=
  {| cj_ID := ID e; cj_Name := entry_Name e; cj_State := entry_State e; cj_NeverRan := false |}.

Section Job.
Context (Executable : option string) (Getwd : result string string) (workdirHash : string -> string) (cfg : Config)
  (ParseTime : string -> option Z).

(* src/cmdman/cli/mux_op_supervise.go:213-235 selfArgv *)
Definition selfArgv (verbArgv : list string) : result jobErr (list string) :=
  match Executable with
  | None => Err JobExecutable
  | Some exe =>
    Ok ([exe; "--data-dir"; cf_DataDir cfg; "--runtime-dir"; cf_RuntimeDir cfg]
        ++ (if decide (cf_ConfigPath cfg = "") then [] else ["--config"; cf_ConfigPath cfg]) ++ verbArgv)
  end.

(** [filepath.Abs]. *)
Definition Abs (p : string) : result string string :=
  if isAbs p then Ok (Clean p) else try cwd := Getwd in Ok (Join cwd p).

(* src/cmdman/cli/compose_down_job.go:137-147 composeDownJobSelection *)
Definition composeDownJobSelection (opts : ComposeDownJobOptions) : result jobErr ProjectSelection :=
  try workDir := lift_err JobAbs (Abs (dj_WorkDir opts)) in
  Ok {| sel_Spec := None; sel_WorkDir := workDir; sel_Project := dj_Project opts |}.

(* src/cmdman/cli/compose_down_job.go:149-154 composeDownJobName *)
Definition composeDownJobName (selection : ProjectSelection) : string := ProjectIdentity workdirHash selection +:+ ".down".

(* src/cmdman/cli/compose_down_job.go:92-135 composeDownJobRequest *)
Definition composeDownJobRequest (opts : ComposeDownJobOptions) : result jobErr CreateRequest :=
  try selection := composeDownJobSelection opts in
  let workDir := sel_WorkDir selection in
  try argv := selfArgv (["compose"; "--workdir"; workDir]
                        ++ (if decide (dj_Project opts = "") then [] else ["-p"; dj_Project opts])
                        ++ (if decide (dj_File opts = "") then [] else ["-f"; dj_File opts])
                        ++ ["down"; "--progress"; "json"; "--close-windows"]) in
  Ok {| cr_Name := composeDownJobName selection; cr_Dir := workDir; cr_Env := dj_Env opts; cr_ImportHostEnv := Some false;
        cr_InjectEnv := None; cr_AppendEnv := [];
        cr_Labels := <[LabelJob := JobDown]> (<[LabelJobWorkdir := workDir]> {[LabelJobProject := dj_Project opts]});
        cr_RestartPolicy := RestartPolicyNo; cr_MaxRetries := 0; cr_StopSignal := ""; cr_StopTimeout := 0%Z; cr_StopCommand := [];
        cr_AutoRemove := false; cr_Tty := false; cr_ScrollbackBytes := 0; cr_LogDriver := DriverK8sFile; cr_LogOpts := ∅; cr_Hooks := ∅;
        cr_Argv := argv; cr_Replace := false |}.

(** ** The lock *)

(* src/cmdman/cli/compose_down_job.go:487-503 openComposeJobLock *)
Definition openComposeJobLock (name : string) : jobprog (result jobErr unit) :=
  if decide (cf_RuntimeDir cfg = "") then mret (Err JobNoRuntimeDir)
  else
    let dir := Join (cf_RuntimeDir cfg) "compose-jobs" in
    e ← call (MakeLockDir dir);
    match e with
    | Some t => mret (Err (JobLockDir t))
    | None =>
      e ← call (OpenLock (Join dir (name +:+ ".lock")));
      mret (match e with Some t => Err (JobLockOpen t) | None => Ok tt end)
    end.

(* src/cmdman/cli/compose_down_job.go:427-463 lockComposeJob *)
Definition lockComposeJob (name : string) : jobprog (result jobErr unit) :=
  o ← openComposeJobLock name;
  match o with
  | Err e => mret (Err e)
  | Ok _ =>
    l ← call WaitLock;
    match l with
    | LockAcquired => mret (Ok tt)
    | LockFailed t => _ ← call CloseLock; mret (Err (JobLock t))
    | LockCtxDone => _ ← call CloseLock; mret (Err JobLockWait)
    end
  end.

(** Whether the lock was got. *)
(* src/cmdman/cli/compose_down_job.go:465-485 tryLockComposeJob *)
Definition tryLockComposeJob (name : string) : jobprog (result jobErr bool) :=
  o ← openComposeJobLock name;
  match o with
  | Err e => mret (Err e)
  | Ok _ =>
    l ← call TryLock;
    match l with
    | Ok true => mret (Ok true)
    | Ok false => _ ← call CloseLock; mret (Ok false)
    | Err t => _ ← call CloseLock; mret (Err (JobLock t))
    end
  end.

(** ** Looking up *)

(** The first record that [p] picks. *)
Definition first_entry (p : CommandEntry -> bool) (entries : list CommandEntry) : option CommandEntry := List.find p entries.

(* src/cmdman/cli/mux_op_supervise.go:343-361 findCommandByName *)
Definition findCommandByName (name : string) : jobprog (result string (option CommandEntry)) :=
  l ← call ListCommands;
  mret (match l with Err t => Err t | Ok es => Ok (first_entry (fun e => bool_decide (entry_Name e = name)) es) end).

(* src/cmdman/cli/compose_down_follow.go:279-294 findCommandEntryByID *)
Definition findCommandEntryByID (id : string) : jobprog (result string (option CommandEntry)) :=
  l ← call ListCommands;
  mret (match l with Err t => Err t | Ok es => Ok (first_entry (fun e => bool_decide (ID e = id)) es) end).

(* src/cmdman/cli/compose_down_job.go:188-228 composeDownJobNeverRan *)
Definition composeDownJobNeverRan (entry : CommandEntry) : jobprog (result jobErr bool) :=
  l ← tryLockComposeJob (entry_Name entry);
  match l with
  | Err e => mret (Err e)
  | Ok false => mret (Ok false)
  | Ok true =>
    r ← (found ← findCommandEntryByID (ID entry);
         match found with
         | Err t => mret (Err (JobLookup (entry_Name entry) t))
         | Ok None => mret (Ok false)
         | Ok (Some current) =>
           if negb (bool_decide (entry_State current = EventTypeCreated)) then mret (Ok false)
           else
             h ← call (HoldPIDLock (ID entry));
             match h with
             | Err t => mret (Err (JobMonitorCheck (entry_Name entry) t))
             | Ok false => mret (Ok false)
             | Ok true => _ ← call (ReleasePIDLock (ID entry)); mret (Ok true)
             end
         end);
    _ ← call CloseLock;
    mret r
  end.

(* src/cmdman/cli/compose_down_job.go:156-186 findComposeDownJob *)
Definition findComposeDownJob (opts : ComposeDownJobOptions) : jobprog (result jobErr (option ComposeDownJob)) :=
  match composeDownJobSelection opts with
  | Err e => mret (Err e)
  | Ok selection =>
    let name := composeDownJobName selection in
    found ← findCommandByName name;
    match found with
    | Err t => mret (Err (JobLookup name t))
    | Ok None => mret (Ok None)
    | Ok (Some entry) =>
      if decide (entry_State entry = EventTypeCreated) then
        n ← composeDownJobNeverRan entry;
        mret (match n with
              | Err e => Err e
              | Ok b => Ok (Some {| cj_ID := ID entry; cj_Name := entry_Name entry; cj_State := entry_State entry; cj_NeverRan := b |})
              end)
      else mret (Ok (Some (composeDownJobOf entry)))
    end
  end.

(** ** Launching *)

(** The first error of a removal's results. *)
Fixpoint first_error (rs : list (option string)) : option string :=
  match rs with [] => None | Some t :: _ => Some t | None :: rs => first_error rs end.

(* src/cmdman/cli/compose_down_job.go:345-361 removeUnmonitoredComposeDownJob *)
Definition remove_forced (id : string) : jobprog (option string) :=
  r ← call (RemoveCommand id true);
  mret (match r with Err t => Some t | Ok rs => first_error rs end).

(* src/cmdman/cli/compose_down_job.go:328-363 removeUnmonitoredComposeDownJob *)
Definition removeUnmonitoredComposeDownJob (id name : string) : jobprog (result jobErr bool) :=
  h ← call (HoldPIDLock id);
  match h with
  | Err t => mret (Err (JobMonitorCheck name t))
  | Ok false => mret (Ok false)
  | Ok true =>
    e ← remove_forced id;
    _ ← call (ReleasePIDLock id);
    mret (match e with Some t => Err (JobRemove name t) | None => Ok true end)
  end.

Definition nanos_per_second : Z := 1000000000.

(* src/cmdman/cli/compose_down_job.go:365-383 composeDownJobRanSince *)
Definition composeDownJobRanSince (entry : CommandEntry) (requested : Z) : bool :=
  let stamp := match StateJSON entry with
               | Some st => if decide (StartedAt st = "") then CreatedAt entry else StartedAt st
               | None => CreatedAt entry
               end in
  match ParseTime stamp with
  | None => false
  | Some started => bool_decide (requested - requested mod nanos_per_second <= started)%Z
  end.

(* src/cmdman/cli/compose_down_job.go:297-326 reuseOrRemoveComposeDownJob *)
Definition reuseOrRemoveComposeDownJob (entry : CommandEntry) (requested : Z) : jobprog (result jobErr bool) :=
  if decide (entry_State entry = EventTypeStarting \/ entry_State entry = EventTypeRunning) then mret (Ok true)
  else if bool_decide (entry_State entry = EventTypeExited \/ entry_State entry = EventTypeFailed) && composeDownJobRanSince entry requested
  then mret (Ok true)
  else
    r ← removeUnmonitoredComposeDownJob (ID entry) (entry_Name entry);
    mret (match r with Err e => Err e | Ok removed => Ok (negb removed) end).

(* src/cmdman/cli/compose_down_job.go:385-425 createComposeDownJob *)
Definition createComposeDownJob (req : CreateRequest) : jobprog (result jobErr string) :=
  c ← call (CreateCommand req);
  match c with
  | Ok id => mret (Ok id)
  | Err t =>
    r ← call (RemoveCommand (cr_Name req) true);
    match r with
    | Err _ => mret (Err (JobRegister (cr_Name req) t))
    | Ok rs =>
      match first_error rs with
      | Some t' => mret (Err (JobBoth (JobRegister (cr_Name req) t) (JobLeftover (cr_Name req) t')))
      | None =>
        c ← call (CreateCommand req);
        mret (match c with Ok id => Ok id | Err t => Err (JobRegister (cr_Name req) t) end)
      end
    end
  end.

(* src/cmdman/cli/compose_down_job.go:264-294 launchComposeDownJob *)
Definition create_and_start (req : CreateRequest) : jobprog (result jobErr (ComposeDownJob * bool)) :=
  c ← createComposeDownJob req;
  match c with
  | Err e => mret (Err e)
  | Ok id =>
    s ← call (StartCommand id);
    match s with
    | Some t =>
      r ← removeUnmonitoredComposeDownJob id (cr_Name req);
      mret (match r with Err e => Err (JobBoth (JobStart (cr_Name req) t) e) | Ok _ => Err (JobStart (cr_Name req) t) end)
    | None =>
      started ← findCommandByName (cr_Name req);
      mret (match started with
            | Err t => Err (JobLookup (cr_Name req) t)
            | Ok None => Err (JobGone (cr_Name req))
            | Ok (Some e) => if decide (ID e = id) then Ok (composeDownJobOf e, true) else Err (JobGone (cr_Name req))
            end)
    end
  end.

(* src/cmdman/cli/compose_down_job.go:248-294 launchComposeDownJob *)
Definition launch_locked (req : CreateRequest) (requested : Z) : jobprog (result jobErr (ComposeDownJob * bool)) :=
  existing ← findCommandByName (cr_Name req);
  match existing with
  | Err t => mret (Err (JobLookup (cr_Name req) t))
  | Ok None => create_and_start req
  | Ok (Some e) =>
    reuse ← reuseOrRemoveComposeDownJob e requested;
    match reuse with
    | Err err => mret (Err err)
    | Ok true => mret (Ok (composeDownJobOf e, false))
    | Ok false => create_and_start req
    end
  end.

(* src/cmdman/cli/compose_down_job.go:230-295 launchComposeDownJob *)
Definition launchComposeDownJob (req : CreateRequest) (requested : Z) : jobprog (result jobErr (ComposeDownJob * bool)) :=
  l ← lockComposeJob (cr_Name req);
  match l with
  | Err e => mret (Err e)
  | Ok _ =>
    r ← launch_locked req requested;
    _ ← call CloseLock;
    mret r
  end.

(* src/cmdman/cli/compose_down_job.go:57-90 LaunchComposeDownJob *)
Definition LaunchComposeDownJob (opts : ComposeDownJobOptions) : jobprog (result jobErr (ComposeDownJob * bool)) :=
  requested ← call TimeNow;
  match composeDownJobRequest opts with
  | Err e => mret (Err e)
  | Ok req => launchComposeDownJob req requested
  end.
End Job.

(** ** The output of a job *)

(** What a progress record says that is counted. *)
Record progressLine := { pl_Phase : Phase; pl_Error : string; pl_ForceKilled : bool }.

(* src/cmdman/cli/compose_down_output.go:78-88 downProgress *)
Record downProgress := MkProgress { dp_summary : DownSummary; dp_lastErr : list Z; dp_partial : gmap Stream (list Z) }.

Definition no_summary : DownSummary := MkSummary 0 0 0 0 false.
Definition no_progress : downProgress := MkProgress no_summary [] ∅.

Definition with_running (s : DownSummary) : DownSummary :=
  MkSummary (ds_Stopped s) (ds_Removed s) (ds_ForceKilled s) (ds_Unreleased s) true.

Section Output.
(** [json.Unmarshal] into a progress line. *)
Context (unmarshalProgress : list Z -> option progressLine).

(* src/cmdman/cli/compose_down_output.go:115-142 downProgress.count *)
Definition count (s : DownSummary) (text : list Z) : DownSummary * bool :=
  match unmarshalProgress text with
  | None => (s, false)
  | Some line =>
    if decide (pl_Phase line = PhaseStopped) then
      if decide (pl_Error line = "") then
        (MkSummary (ds_Stopped s + 1) (ds_Removed s) (if pl_ForceKilled line then ds_ForceKilled s + 1 else ds_ForceKilled s) (ds_Unreleased s) (ds_Running s), true)
      else (s, false)
    else if decide (pl_Phase line = PhaseRemoved) then
      (MkSummary (ds_Stopped s) (ds_Removed s + 1) (ds_ForceKilled s) (ds_Unreleased s) (ds_Running s), true)
    else if decide (pl_Phase line = PhaseUnreleased) then
      (MkSummary (ds_Stopped s) (ds_Removed s) (ds_ForceKilled s) (ds_Unreleased s + 1) (ds_Running s), true)
    else (s, false)
  end.

(** [strings.CutPrefix] of the mark of an error. *)
Definition error_mark : list Z := bytes_of "error: ".
Definition cut_error (text : list Z) : option (list Z) :=
  if bool_decide (take (length error_mark) text = error_mark) then Some (drop (length error_mark) text) else None.

(* src/cmdman/cli/compose_down_output.go:90-113 downProgress.add *)
Definition add (p : downProgress) (line : LogLine) : downProgress * bool :=
  let buf := default [] (dp_partial p !! stream line) ++ Line line in
  if Partial line then (MkProgress (dp_summary p) (dp_lastErr p) (<[stream line := buf]> (dp_partial p)), false)
  else
    let partial := delete (stream line) (dp_partial p) in
    let text := TrimRight_eol buf in
    if decide (stream line = StreamStderr) then
      (MkProgress (dp_summary p) (default (dp_lastErr p) (cut_error text)) partial, false)
    else
      let '(s, changed) := count (dp_summary p) text in
      (MkProgress s (dp_lastErr p) partial, changed).

(** The loop over the records; each change is published, when it is followed. *)
(* src/cmdman/cli/compose_down_output.go:40-53 readComposeDownOutput *)
Fixpoint read_records (p : downProgress) (follow : bool) (recs : list outputRecord) : jobprog downProgress :=
  match recs with
  | [] => mret p
  | Err _ :: recs => read_records p follow recs
  | Ok l :: recs =>
    let '(p, changed) := add p l in
    _ ← (if changed && follow then call (Publish (with_running (dp_summary p))) else mret tt);
    read_records p follow recs
  end.

(* src/cmdman/cli/compose_down_output.go:17-54 readComposeDownOutput *)
Definition readComposeDownOutput (id : string) (follow : bool) : jobprog downProgress :=
  e ← call (OpenOutput id follow);
  match e with
  | Some _ => mret no_progress
  | None =>
    recs ← call ReadOutput;
    p ← read_records no_progress follow recs;
    _ ← call CloseOutput;
    mret p
  end.

(* src/cmdman/cli/compose_down_output.go:68-75 readStoredComposeDownOutput *)
Fixpoint stored_records (p : downProgress) (recs : list outputRecord) : option downProgress :=
  match recs with
  | [] => Some p
  | Err _ :: _ => None
  | Ok l :: recs => stored_records (add p l).1 recs
  end.

(* src/cmdman/cli/compose_down_output.go:56-76 readStoredComposeDownOutput *)
Definition readStoredComposeDownOutput (id : string) : jobprog (option downProgress) :=
  e ← call (OpenOutput id false);
  match e with
  | Some _ => mret None
  | None =>
    recs ← call ReadOutput;
    _ ← call CloseOutput;
    mret (stored_records no_progress recs)
  end.
End Output.

(** ** Following a job *)

(* src/cmdman/cli/compose_down_follow.go:158-166 composeDownExitErr *)
Inductive followErr :=
| FollowFailed (failure : string)
| FollowExit (code : Z) (lastErr : list Z)
| FollowGone
| FollowNotStarted
| FollowClosed
| FollowCtx.

(** The end of a run: its exit status, or its failure. *)
(* src/cmdman/cli/compose_down_follow.go:249-270 composeDownJobEnd *)
Definition composeDownJobEnd (state : EventType) (exitCode : option Z) (failure : string) : option (Z * option followErr) :=
  if decide (state = EventTypeExited) then Some (default 0%Z exitCode, None)
  else if decide (state = EventTypeFailed) then Some (0%Z, Some (FollowFailed failure))
  else None.

(* src/cmdman/cli/compose_down_follow.go:272-277 stateError *)
Definition stateError (st : option CommandState) : string := match st with Some st => cs_Error st | None => "" end.

(** The times a waiting follower has set itself. *)
(* src/cmdman/cli/compose_down_follow.go:189-189 waitComposeDownJobExit *)
Record waitTimes := MkTimes { wt_goneUntil : option Z; wt_startBy : option Z }.

(* src/cmdman/tui/internal/core/backend.go:178-193 DownJob *)
Record DownJob := { tj_ID : string; tj_Finished : bool }.

Section Follow.
Context (cfg : Config) (unmarshalProgress : list Z -> option progressLine) (grace startWait : Z).

(** A look at the record of a job that is not over: how the following ends, or goes on. *)
(* src/cmdman/cli/compose_down_follow.go:210-224 waitComposeDownJobExit *)
Definition look_at_created (t : waitTimes) (entry : CommandEntry) : jobprog (waitTimes + Z * option followErr) :=
  startBy ← match wt_startBy t with Some s => mret s | None => now ← call TimeNow; mret (now + startWait)%Z end;
  let t := MkTimes (wt_goneUntil t) (Some startBy) in
  n ← composeDownJobNeverRan cfg entry;
  match n with
  | Ok true => mret (inr (0%Z, Some FollowNotStarted))
  | _ =>
    now ← call TimeNow;
    mret (if decide (startBy < now)%Z then inr (0%Z, Some FollowNotStarted) else inl t)
  end.

(* src/cmdman/cli/compose_down_follow.go:192-225 waitComposeDownJobExit *)
Definition look (t : waitTimes) (id : string) : jobprog (waitTimes + Z * option followErr) :=
  found ← findCommandEntryByID id;
  match found with
  | Err _ => mret (inl t)
  | Ok None =>
    match wt_goneUntil t with
    | None => now ← call TimeNow; mret (inl (MkTimes (Some (now + grace)%Z) (wt_startBy t)))
    | Some until => now ← call TimeNow; mret (if decide (until < now)%Z then inr (0%Z, Some FollowGone) else inl t)
    end
  | Ok (Some entry) =>
    let t := MkTimes None (wt_startBy t) in
    match composeDownJobEnd (entry_State entry) (ExitCode entry) (stateError (StateJSON entry)) with
    | Some r => mret (inr r)
    | None => if decide (entry_State entry = EventTypeCreated) then look_at_created t entry else mret (inl t)
    end
  end.

(* src/cmdman/cli/compose_down_follow.go:227-245 waitComposeDownJobExit *)
Definition await_news (t : waitTimes) : jobprog (waitTimes + Z * option followErr) :=
  w ← call Await;
  mret (match w with
        | WakeCancelled => inr (0%Z, Some FollowCtx)
        | WakeClosed => inr (0%Z, Some FollowClosed)
        | WakeBadRecord | WakeTick => inl t
        | WakeEvent type exitCode failure => match composeDownJobEnd type exitCode failure with Some r => inr r | None => inl t end
        end).

(* src/cmdman/cli/compose_down_follow.go:191-246 waitComposeDownJobExit *)
Definition wait_round (t : waitTimes) (id : string) : jobprog (waitTimes + Z * option followErr) :=
  r ← look t id;
  match r with inr _ => mret r | inl t => await_news t end.

(** The first [rounds] rounds; [None] when the loop goes on after them. *)
(* src/cmdman/cli/compose_down_follow.go:168-247 waitComposeDownJobExit *)
Fixpoint waitComposeDownJobExit (rounds : nat) (t : waitTimes) (id : string) : jobprog (option (Z * option followErr)) :=
  match rounds with
  | 0 => mret None
  | S rounds =>
    r ← wait_round t id;
    match r with inr r => mret (Some r) | inl t => waitComposeDownJobExit rounds t id end
  end.

(* src/cmdman/cli/compose_down_follow.go:122-156 composeDownStream.run *)
Definition stream_run (rounds : nat) (job : DownJob) : jobprog (option (DownSummary * option followErr)) :=
  live ← (if tj_Finished job then mret no_progress
          else _ ← call (Publish (with_running no_summary)); readComposeDownOutput unmarshalProgress (tj_ID job) true);
  r ← waitComposeDownJobExit rounds (MkTimes None None) (tj_ID job);
  match r with
  | None => mret None
  | Some (code, exitErr) =>
    c ← call CtxErr;
    stored ← (if (c : bool) then mret None else readStoredComposeDownOutput unmarshalProgress (tj_ID job));
    let final := default live stored in
    let err := match exitErr with
               | Some e => Some e
               | None => if decide (code = 0)%Z then None else Some (FollowExit code (dp_lastErr final))
               end in
    _ ← call CloseEnds;
    mret (Some (dp_summary final, err))
  end.

(** The stream that is started, when the events can be subscribed to. *)
(* src/cmdman/cli/compose_down_follow.go:57-80 followComposeDownJobWithin *)
Definition followComposeDownJobWithin (rounds : nat) (job : DownJob) : jobprog (result string (option (DownSummary * option followErr))) :=
  e ← call (SubscribeEnds (tj_ID job));
  match e with
  | Some t => mret (Err t)
  | None => r ← stream_run rounds job; mret (Ok r)
  end.
End Follow.

(** ** Publishing

    The channel holds one summary; its only sender replaces what nobody has read yet.
    Before each attempt the consumer may have taken what the channel held; after a failed
    one the sender empties it, if the consumer does not. *)

(* src/cmdman/cli/compose_down_follow.go:108-120 composeDownStream.publish *)
Fixpoint publish {A} (rounds : nat) (taken : nat -> bool) (s : A) (ch : option A) : option (option A) :=
  match rounds with
  | 0 => None
  | S rounds =>
    let ch := if taken 0 then None else ch in
    match ch with
    | None => Some (Some s)
    | Some _ => publish rounds (fun n => taken (S n)) s None
    end
  end.
