(* ===== verification/DownJobProps.v ===== *)
(** * What jobs that run a down guarantee

    A launch changes the project's record under its lock only, never takes a record from
    under a monitor, and is answered by a down that began no earlier than it was asked
    for; a follower reports an end only on evidence, and does not wait for a job that is
    gone. *)

From S2P Require Import Config Prelude GoStr LogDriver Model SendKeys ComposeSpec Naming Normalize Prog Plan Select HookOutput ComposeSvc Down ComposeMux DownJob.

(** ** Launching *)




Definition holds (tr : list jobact) : list (string * result string bool) :=
  omap (fun a => match a with Act e x => match e in jobE X return X -> _ with HoldPIDLock id => fun x => Some (id, x) | _ => fun _ => None end x end) tr.


Lemma holds_app t1 t2 : holds (t1 ++ t2) = holds t1 ++ holds t2.
Proof. apply omap_app. Qed.



Ltac job_inv H := first [apply run_ret in H as [-> ->] | apply run_ret in H as [-> H]].

Ltac elem := first [apply list_elem_of_here | apply list_elem_of_further; elem].

Section Launch.
Context (cfg : Config) (ParseTime : string -> option Z).




















End Launch.

(** ** Following *)

(** The record under an id in a listing that was answered. *)
Definition shown (id : string) (l : result string (list CommandEntry)) : option CommandEntry :=
  match l with Ok es => first_entry (fun e => bool_decide (ID e = id)) es | Err _ => None end.

(** What a state, an exit status and a failure say of the end of a run: it exited with that
    status, which is 0 when none is given, or it failed. *)
Definition says_end (state : EventType) (code : option Z) (failure : string) (res : Z * option followErr) : Prop :=
  (state = EventTypeExited /\ (forall c, code = Some c -> res = (c, None)) /\ (code = None -> res = (0%Z, None))) \/
  (state = EventTypeFailed /\ res = (0%Z, Some (FollowFailed failure))).

(** The failure a record gives, if any. *)
Definition record_failure (e : CommandEntry) (failure : string) : Prop :=
  (exists st, StateJSON e = Some st /\ cs_Error st = failure) \/ (StateJSON e = None /\ failure = "").

(** An answer tells that the job came to that end: a listing in which its record says so,
    or an event that does. *)
Definition told_end (id : string) (res : Z * option followErr) (a : jobact) : Prop :=
  match a with
  | Act e x =>
    match e in jobE X return X -> Prop with
    | ListCommands => fun l => exists e failure, shown id l = Some e /\ record_failure e failure /\ says_end (entry_State e) (ExitCode e) failure res
    | Await => fun w => exists type code failure, w = WakeEvent type code failure /\ says_end type code failure res
    | _ => fun _ => False
    end x
  end.

Lemma end_says state code failure res : composeDownJobEnd state code failure = Some res -> says_end state code failure res.
Proof.
  unfold composeDownJobEnd, says_end. intros H. case_decide as He; [injection H as <-; left; split; [done|]; split; [by intros c ->|by intros ->]|].
  case_decide; [|done]. injection H as <-. by right.
Qed.

Lemma state_failure e : record_failure e (stateError (StateJSON e)).
Proof. unfold record_failure, stateError. destruct (StateJSON e) as [st|]; [left; by exists st|by right]. Qed.

(** Not a listing with the record in it. *)
Definition unseen (id : string) (a : jobact) : Prop :=
  match a with
  | Act e x => match e in jobE X return X -> Prop with ListCommands => fun l => shown id l = None | _ => fun _ => True end x
  end.

Section Following.
Context (cfg : Config) (unmarshalProgress : list Z -> option progressLine) (grace startWait : Z) (id : string).

(** The record was missing at [t0], and has not been seen since. *)
Definition missing_since (t0 : Z) (tr : list jobact) : Prop :=
  exists h1 l h2, tr = h1 ++ Act ListCommands (Ok l) :: Act TimeNow t0 :: h2 /\ shown id (Ok l) = None /\ Forall (unseen id) h2.

(** The record was there at [t0], as one of a job that has not started. *)
Definition pending_at (t0 : Z) (tr : list jobact) : Prop :=
  exists h1 l e h2, tr = h1 ++ Act ListCommands l :: Act TimeNow t0 :: h2 /\ shown id l = Some e /\ entry_State e = EventTypeCreated.

(** What a follower must have been told to end with [res]. *)
Definition justified (res : Z * option followErr) (tr : list jobact) : Prop :=
  match res.2 with
  | None | Some (FollowFailed _) => exists a, a ∈ tr /\ told_end id res a
  | Some (FollowExit _ _) => False
  | Some FollowGone => exists t0 t1 h l h', tr = h ++ Act ListCommands (Ok l) :: Act TimeNow t1 :: h' /\
      missing_since t0 h /\ shown id (Ok l) = None /\ (t0 + grace < t1)%Z
  | Some FollowNotStarted => (exists t0, pending_at t0 tr) /\
      ((id, Ok true) ∈ holds tr \/ exists t0 t1 h h', tr = h ++ Act TimeNow t1 :: h' /\ pending_at t0 h /\ (t0 + startWait < t1)%Z)
  | Some FollowClosed => Act Await WakeClosed ∈ tr
  | Some FollowCtx => Act Await WakeCancelled ∈ tr
  end.

(** What the times a follower has set itself stand for. *)
Definition times_ok (t : waitTimes) (tr : list jobact) : Prop :=
  match wt_goneUntil t with Some u => exists t0, u = (t0 + grace)%Z /\ missing_since t0 tr | None => True end /\
  match wt_startBy t with Some s => exists t0, s = (t0 + startWait)%Z /\ pending_at t0 tr | None => True end.

Lemma pending_app t0 tr tr' : pending_at t0 tr -> pending_at t0 (tr ++ tr').
Proof. intros (h1 & l & e & h2 & -> & H). exists h1, l, e, (h2 ++ tr'). by rewrite <- app_assoc. Qed.

Lemma missing_app t0 tr tr' : missing_since t0 tr -> Forall (unseen id) tr' -> missing_since t0 (tr ++ tr').
Proof.
  intros (h1 & l & h2 & -> & Hs & Hh) Ht. exists h1, l, (h2 ++ tr'). rewrite <- app_assoc. split_and!; [done..|]. by apply Forall_app.
Qed.

Lemma justified_app res tr tr' : justified res tr -> justified res (tr ++ tr').
Proof.
  unfold justified, holds. destruct (res.2) as [[]|].
  1,7: intros (a & Ha & He); exists a; split; [apply elem_of_app; by left|done].
  - done.
  - intros (t0 & t1 & h & l & h' & -> & H). exists t0, t1, h, l, (h' ++ tr'). by rewrite <- app_assoc.
  - intros [(t0 & Hp) Hr]. split; [exists t0; by apply pending_app|]. destruct Hr as [Hr|(u0 & u1 & h & h' & -> & H)].
    + left. rewrite omap_app. apply elem_of_app. by left.
    + right. exists u0, u1, h, (h' ++ tr'). by rewrite <- app_assoc.
  - intros H. apply elem_of_app. by left.
  - intros H. apply elem_of_app. by left.
Qed.

Lemma justified_prepend res tr tr' : justified res tr -> justified res (tr' ++ tr).
Proof.
  unfold justified, holds. destruct (res.2) as [[]|].
  1,7: intros (a & Ha & He); exists a; split; [apply elem_of_app; by right|done].
  - done.
  - intros (t0 & t1 & h & l & h' & -> & Hm & H). exists t0, t1, (tr' ++ h), l, h'. rewrite <- app_assoc. split; [done|]. split; [|done].
    destruct Hm as (h1 & l0 & h2 & -> & Hm). exists (tr' ++ h1), l0, h2. by rewrite <- app_assoc.
  - assert (Hpre : forall t0 tr, pending_at t0 tr -> pending_at t0 (tr' ++ tr)).
    { intros t0 tr0 (h1 & l & e & h2 & -> & H). exists (tr' ++ h1), l, e, h2. by rewrite <- app_assoc. }
    intros [(t0 & Hp) Hr]. split; [exists t0; by apply Hpre|]. destruct Hr as [Hr|(u0 & u1 & h & h' & -> & Hp' & H)].
    + left. rewrite omap_app. apply elem_of_app. by right.
    + right. exists u0, u1, (tr' ++ h), h'. rewrite <- app_assoc. split; [done|]. split; [by apply Hpre|done].
  - intros H. apply elem_of_app. by right.
  - intros H. apply elem_of_app. by right.
Qed.

Lemma run_find_by_id tr r : run (findCommandEntryByID id) tr r ->
  exists l, tr = [Act ListCommands l] /\ match r with Err _ => exists t, l = Err t | Ok None => exists es, l = Ok es /\ shown id l = None | Ok (Some e) => shown id l = Some e end.
Proof.
  unfold findCommandEntryByID. intros H. inv_run H as l t1 H1. apply run_ret in H as [-> ->]. exists l. split; [done|].
  destruct l as [es|t]; [|by exists t]. cbn. destruct (first_entry _ es) eqn:E; [done|]. by exists es.
Qed.

Lemma never_ran_holds e tr r : ID e = id -> run (composeDownJobNeverRan cfg e) tr r -> r = Ok true -> (id, Ok true) ∈ holds tr.
Proof.
  unfold composeDownJobNeverRan. intros <- H Hr. inv_run H as l t1 H1. destruct l as [[]|]; [|apply run_ret in H as [-> ->]; done..].
  inv_run H as r' t2 H2. inv_run H as [] t3 H3. apply run_ret in H as [-> ->]. subst r'. inv_run H2 as f t4 H4.
  destruct f as [[cur|]|]; [|by apply run_ret in H2 as [-> ?]..]. destruct (negb _); [by apply run_ret in H2 as [-> ?]|].
  inv_run H2 as h t5 H5. destruct h as [[]|]; [|by apply run_ret in H2 as [-> ?]..].
  rewrite !holds_app, !elem_of_app. cbn. rewrite list_elem_of_singleton. tauto.
Qed.

Lemma shown_id l e : shown id l = Some e -> ID e = id.
Proof.
  destruct l as [es|]; [|done]. intros H. apply find_some in H as [_ H]. by apply bool_decide_eq_true in H.
Qed.

Lemma pending_now tr l e t0 : shown id l = Some e -> entry_State e = EventTypeCreated ->
  pending_at t0 (tr ++ [Act ListCommands l; Act TimeNow t0]).
Proof. intros Hs He. by exists tr, l, e, []. Qed.

Lemma look_created_ok t e l hist tr r : run (look_at_created cfg startWait t e) tr r ->
  times_ok (MkTimes None (wt_startBy t)) hist -> wt_goneUntil t = None -> shown id l = Some e -> entry_State e = EventTypeCreated ->
  match r with inl t' => times_ok t' (hist ++ Act ListCommands l :: tr) | inr res => justified res (hist ++ Act ListCommands l :: tr) end.
Proof.
  unfold look_at_created. intros H [_ Hb] Hg Hs He. inv_run H as s t1 H1.
  assert (Hp : exists t0, s = (t0 + startWait)%Z /\ pending_at t0 (hist ++ Act ListCommands l :: t1)).
  { destruct (wt_startBy t) as [s'|]; cbn in Hb.
    - apply run_ret in H1 as [-> ->]. destruct Hb as (t0 & -> & Hp). exists t0. split; [done|by apply pending_app].
    - inv_run H1 as now t2 H2. apply run_ret in H1 as [-> ->]. exists now. split; [done|by eapply pending_now]. }
  destruct Hp as (t0 & -> & Hp). inv_run H as n t3 H3. rewrite app_comm_cons.
  rewrite (app_assoc hist).
  assert (Hnot : n = Ok true \/ n <> Ok true) by (destruct n as [[]|]; auto). destruct Hnot as [->|Hn].
  { apply run_ret in H as [-> ->]. rewrite app_nil_r. split; [exists t0; by apply pending_app|]. left.
    rewrite !holds_app, !elem_of_app. right. eapply never_ran_holds; [by eapply shown_id|done|done]. }
  replace (match n with Ok true => _ | _ => _ end) with
    (now ← call TimeNow; mret (if decide (t0 + startWait < now)%Z then inr (0%Z, Some FollowNotStarted) else inl (MkTimes (wt_goneUntil t) (Some (t0 + startWait)%Z))) : jobprog (waitTimes + Z * option followErr)) in H
    by (destruct n as [[]|]; done).
  inv_run H as now t4 H4. apply run_ret in H as [-> ->]. destruct (decide _) as [Hlt|_].
  - split; [exists t0; by apply pending_app|]. right. exists t0, now, ((hist ++ Act ListCommands l :: t1) ++ t3), []. split_and!; [by rewrite <- !app_assoc|by apply pending_app|done].
  - rewrite Hg. split; [done|]. exists t0. split; [done|by apply pending_app].
Qed.

Lemma told_justified state code failure res a tr : composeDownJobEnd state code failure = Some res -> a ∈ tr -> told_end id res a -> justified res tr.
Proof.
  intros Hend Ha Ht. assert (Hj : exists a, a ∈ tr /\ told_end id res a) by eauto.
  unfold composeDownJobEnd in Hend. destruct (decide (state = EventTypeExited)); [by injection Hend as <-|].
  destruct (decide (state = EventTypeFailed)); [by injection Hend as <-|done].
Qed.

(** A part of a round keeps what the times stand for, or ends for a reason. *)
Definition goes_on (hist : list jobact) (tr : list jobact) (r : waitTimes + Z * option followErr) : Prop :=
  match r with inl t => times_ok t (hist ++ tr) | inr res => justified res (hist ++ tr) end.

Lemma times_app t hist tr : times_ok t hist -> Forall (unseen id) tr -> times_ok t (hist ++ tr).
Proof.
  intros [Hg Hb] Hu. split.
  - destruct (wt_goneUntil t); [|done]. destruct Hg as (t0 & ? & ?). exists t0. split; [done|by apply missing_app].
  - destruct (wt_startBy t); [|done]. destruct Hb as (t0 & ? & ?). exists t0. split; [done|by apply pending_app].
Qed.

Lemma look_missing_ok t es hist tr r : shown id (Ok es) = None -> times_ok t hist ->
  run (match wt_goneUntil t with
       | None => now ← call TimeNow; mret (inl (MkTimes (Some (now + grace)%Z) (wt_startBy t)))
       | Some until => now ← call TimeNow; mret (if decide (until < now)%Z then inr (0%Z, Some FollowGone) else inl t)
       end) tr r -> goes_on hist (Act ListCommands (Ok es) :: tr) r.
Proof.
  intros Hs Ht H. destruct (wt_goneUntil t) as [u|] eqn:Hu; inv_run H as now t1 H1; apply run_ret in H as [-> ->].
  - destruct (decide _) as [Hlt|_]; [|apply times_app; [done|by repeat constructor]].
    destruct Ht as [Ht _]. rewrite Hu in Ht. destruct Ht as (t0 & -> & Hm). exists t0, now, hist, es, []. done.
  - split; [|apply (times_app t _ _ Ht); by repeat constructor]. exists now. split; [done|]. exists hist, es, []. by split_and!.
Qed.

Lemma look_ok t hist tr r : run (look cfg grace startWait t id) tr r -> times_ok t hist -> goes_on hist tr r.
Proof.
  unfold look. intros H Ht. inv_run H as found t1 H1. apply run_find_by_id in H1 as (l & -> & Hl).
  destruct found as [[e|]|]; cbv beta iota zeta in H.
  - set (t' := MkTimes None (wt_startBy t)) in H. assert (Ht' : times_ok t' hist) by (by split; [|apply Ht]).
    destruct (composeDownJobEnd _ _ _) as [res|] eqn:Hend in H.
    + apply run_ret in H as [-> ->]. eapply told_justified; [exact Hend|apply elem_of_app; right; elem|].
      exists e, (stateError (StateJSON e)). split; [done|]. split; [apply state_failure|by apply end_says].
    + destruct (decide _) as [Hc|_] in H; [by apply (look_created_ok t' e l hist)|]. apply run_ret in H as [-> ->].
      destruct Ht' as [_ Hb]. split; [done|]. cbn in *. destruct (wt_startBy t); [|done]. destruct Hb as (t0 & ? & ?). exists t0. split; [done|by apply pending_app].
  - destruct Hl as (es & -> & Hs). by apply look_missing_ok with t.
  - destruct Hl as [t' ->]. apply run_ret in H as [-> ->]. apply times_app; [done|by repeat constructor].
Qed.

Lemma await_ok t hist tr r : run (await_news t) tr r -> times_ok t hist -> goes_on hist tr r.
Proof.
  unfold await_news. intros H Ht. inv_run H as w t1 H1. apply run_ret in H as [-> ->].
  assert (Hin : Act Await w ∈ hist ++ [Act Await w]) by (apply elem_of_app; right; elem).
  assert (Ht' : times_ok t (hist ++ [Act Await w])) by (apply times_app; [done|by repeat constructor]).
  destruct w as [| | |type code failure|]; try done. destruct (composeDownJobEnd type code failure) as [res|] eqn:Hend; [|done].
  eapply told_justified; [exact Hend|exact Hin|]. exists type, code, failure. split; [done|by apply end_says].
Qed.

Lemma wait_ok rounds t hist tr res : run (waitComposeDownJobExit cfg grace startWait rounds t id) tr (Some res) -> times_ok t hist ->
  justified res (hist ++ tr).
Proof.
  revert t hist tr. induction rounds as [|rounds IH]; intros t hist tr H Ht; [by apply run_ret in H as [_ ?]|].
  change (run (r ← wait_round cfg grace startWait t id; match r with inr r => mret (Some r) | inl t => waitComposeDownJobExit cfg grace startWait rounds t id end) tr (Some res)) in H.
  inv_run H as r t1 H1. assert (Hr : goes_on hist t1 r).
  { unfold wait_round in H1. inv_run H1 as r' t2 H2. pose proof (look_ok _ _ _ _ H2 Ht) as Hl. destruct r' as [t'|].
    - unfold goes_on. rewrite app_assoc. by apply (await_ok _ _ _ _ H1).
    - apply run_ret in H1 as [-> ->]. by rewrite app_nil_r. }
  destruct r as [t'|res'].
  - rewrite app_assoc. by apply IH with t'.
  - apply run_ret in H as [-> [= <-]]. by rewrite app_nil_r.
Qed.
End Following.

(** The outputs that were read. *)
Definition reads (tr : list jobact) : list (list outputRecord) :=
  omap (fun a => match a with Act e x => match e in jobE X return X -> _ with ReadOutput => fun x => Some x | _ => fun _ => None end x end) tr.

Lemma read_stored unmarshalProgress id tr r : run (readStoredComposeDownOutput unmarshalProgress id) tr r ->
  (exists t, tr = [Act (OpenOutput id false) (Some t)] /\ r = None) \/
  exists recs, tr = [Act (OpenOutput id false) None; Act ReadOutput recs; Act CloseOutput tt] /\ r = stored_records unmarshalProgress no_progress recs.
Proof.
  unfold readStoredComposeDownOutput. intros H. inv_run H as e t1 H1. destruct e as [t|]; [apply run_ret in H as [-> ->]; left; eauto|].
  inv_run H as recs t2 H2. inv_run H as [] t3 H3. apply run_ret in H as [-> ->]. right. by exists recs.
Qed.

(** What a follower has been told when it gives [err] as the end. *)
Definition end_told grace startWait id (err : option followErr) (tr : list jobact) : Prop :=
  match err with
  | None => exists a, a ∈ tr /\ told_end id (0%Z, None) a
  | Some (FollowExit code _) => code <> 0%Z /\ exists a, a ∈ tr /\ told_end id (code, None) a
  | Some e => exists code, justified grace startWait id (code, Some e) tr
  end.

(** C39: A follower gives an end only on evidence: that the job succeeded, only when its
    record or an exit event says that it exited with status 0; that it exited with another
    status, only when one of them gives that status, and that it failed, only when one
    gives that failure; that the job is gone, only when its record was missing at two
    times further apart than the grace, and not seen in between; that it never started,
    only when its record was found created, and either its monitor lock could be taken or
    the time to start ran out.  The subscription is closed last, and when the stored
    output is read to its end without an error, the final counts, and the line that
    explains a failure, are that output's. *)
Theorem follower_ends_on_evidence cfg unmarshalProgress grace startWait rounds job tr s err :
  run (stream_run cfg unmarshalProgress grace startWait rounds job) tr (Some (s, err)) ->
  exists t1 c t2, tr = t1 ++ Act CtxErr c :: t2 ++ [Act CloseEnds tt] /\ end_told grace startWait (tj_ID job) err t1 /\
    (forall recs p, reads t2 = [recs] -> stored_records unmarshalProgress no_progress recs = Some p ->
      s = dp_summary p /\ forall code l, err = Some (FollowExit code l) -> l = dp_lastErr p).
Proof.
  unfold stream_run. intros H. inv_run H as live t1 H1. inv_run H as r t2 H2. destruct r as [[code exitErr]|]; [|by apply run_ret in H as [_ ?]].
  assert (Hj : justified grace startWait (tj_ID job) (code, exitErr) (t1 ++ t2))
    by (apply justified_prepend; apply (wait_ok _ _ _ _ _ (MkTimes None None) [] _ _ H2); done).
  inv_run H as c t3 H3. inv_run H as stored t4 H4. inv_run H as [] t5 H5. apply run_ret in H as [-> [= -> ->]].
  exists (t1 ++ t2), c, t4. split; [by rewrite <- app_assoc|]. split.
  - destruct exitErr as [e|]; [|destruct (decide (code = 0%Z)) as [->|Hc]; [exact Hj|by split]].
    destruct e; by try (exists code).
  - intros recs p Hrecs Hp. assert (stored = Some p) as ->; [|split; [done|by destruct exitErr as [[]|]; [..|destruct (decide _)]; intros ? ? [= ? ?]]].
    destruct (c : bool); [by apply run_ret in H4 as [-> ->]|].
    apply read_stored in H4 as [(t & -> & ->)|(recs' & -> & ->)]; [done|]. injection Hrecs as ->. done.
Qed.

(** ** Giving up *)

(** The readings of the clock. *)
Definition clocks (tr : list jobact) : list Z :=
  omap (fun a => match a with Act e x => match e in jobE X return X -> _ with TimeNow => fun x => Some x | _ => fun _ => None end x end) tr.

(** Each reading is at least [d] after the one before. *)
Definition spaced (d : Z) (l : list Z) : Prop := forall i x y, l !! i = Some x -> l !! S i = Some y -> (x + d <= y)%Z.

(** Every listing is answered and shows for the id what [P] says. *)
Definition listings (id : string) (P : option CommandEntry -> Prop) (tr : list jobact) : Prop :=
  Forall (fun a => match a with
                   | Act e x => match e in jobE X return X -> Prop with ListCommands => fun l => (exists es, l = Ok es) /\ P (shown id l) | _ => fun _ => True end x
                   end) tr.

Lemma clocks_app t1 t2 : clocks (t1 ++ t2) = clocks t1 ++ clocks t2.
Proof. apply omap_app. Qed.

(** Readings up to a limit after the first are not many. *)
Lemma spaced_few d x l limit : spaced d (x :: l) -> Forall (fun y => y <= x + limit)%Z l -> (0 <= limit)%Z -> (Z.of_nat (length l) * d <= limit)%Z.
Proof.
  intros Hs Hl Hlim. assert (Hk : forall k y, (x :: l) !! k = Some y -> (x + Z.of_nat k * d <= y)%Z).
  { induction k as [|k IH]; intros y Hy; [injection Hy as <-; lia|].
    destruct (lookup_lt_is_Some_2 (x :: l) k) as [z Hz]; [apply lookup_lt_Some in Hy; lia|].
    specialize (IH z Hz). specialize (Hs k z y Hz Hy). lia. }
  destruct (decide (l = [])) as [->|Hne]; [simpl; lia|]. destruct (last l) as [y|] eqn:Hy; [|by apply last_None in Hy].
  rewrite last_lookup in Hy. assert (Hy' : (x :: l) !! length l = Some y) by (destruct l; [done|exact Hy]).
  specialize (Hk _ _ Hy'). rewrite Forall_lookup in Hl. specialize (Hl _ _ Hy). lia.
Qed.

Section GivingUp.
Context (cfg : Config) (grace startWait : Z) (id : string).

Lemma wait_round_on rounds t tr : run (waitComposeDownJobExit cfg grace startWait (S rounds) t id) tr None ->
  exists t' w t1 t2, tr = t1 ++ Act Await w :: t2 /\ run (look cfg grace startWait t id) t1 (inl t') /\
    run (waitComposeDownJobExit cfg grace startWait rounds t' id) t2 None.
Proof.
  intros H.
  change (run (r ← wait_round cfg grace startWait t id; match r with inr r => mret (Some r) | inl t => waitComposeDownJobExit cfg grace startWait rounds t id end) tr None) in H.
  inv_run H as r t1 H1. destruct r as [t'|]; [|by apply run_ret in H as [_ ?]]. unfold wait_round in H1. inv_run H1 as r t2 H2.
  destruct r as [t3|]; [|by apply run_ret in H1 as [_ ?]]. unfold await_news in H1. inv_run H1 as w t4 H4. apply run_ret in H1 as [-> H1].
  assert (t' = t3) as -> by (destruct w as [| | |ty c f|]; try congruence; destruct (composeDownJobEnd ty c f); congruence).
  exists t3, w, t2, t1'. split; [by rewrite <- app_assoc|done].
Qed.

Lemma never_ran_clocks e tr r : run (composeDownJobNeverRan cfg e) tr r -> clocks tr = [].
Proof.
  assert (H : always (composeDownJobNeverRan cfg e) (fun a => clocks [a] = [])).
  { unfold composeDownJobNeverRan, tryLockComposeJob, openComposeJobLock, findCommandEntryByID.
    repeat first [apply always_call; done | apply always_ret | apply always_bind; [|intros ?] | case_match]. }
  intros Hr. specialize (H _ _ Hr). cbv beta in H. clear Hr. induction H as [|a l Ha _ IH]; [done|]. change (a :: l) with ([a] ++ l).
  by rewrite clocks_app, Ha, IH.
Qed.

(** A round in which the record is missing. *)
Lemma look_missing t t' tr : run (look cfg grace startWait t id) tr (inl t') -> listings id (fun o => o = None) tr ->
  exists c, clocks tr = [c] /\ match wt_goneUntil t with Some u => wt_goneUntil t' = Some u /\ (c <= u)%Z | None => wt_goneUntil t' = Some (c + grace)%Z end.
Proof.
  unfold look. intros H Hl. inv_run H as found t1 H1. apply run_find_by_id in H1 as (l & -> & Hf). apply Forall_app in Hl as [Hl _].
  apply Forall_inv in Hl as [[es ->] Hs]. cbn [shown] in *. destruct found as [[e|]|]; [congruence| |].
  - destruct (wt_goneUntil t) as [u|] eqn:Hu; inv_run H as now t2 H2; apply run_ret in H as [-> H]; exists now.
    + destruct (decide (u < now)%Z); [done|]. injection H as ->. split; [done|]. split; [done|lia].
    + injection H as ->. done.
  - by destruct Hf.
Qed.

(** A round in which the record is there, of a job that has not started. *)
Lemma look_created_on t t' tr : run (look cfg grace startWait t id) tr (inl t') ->
  listings id (fun o => exists e, o = Some e /\ entry_State e = EventTypeCreated) tr ->
  exists c s, wt_startBy t' = Some s /\ (c <= s)%Z /\
    match wt_startBy t with Some s' => s = s' /\ clocks tr = [c] | None => exists c0, s = (c0 + startWait)%Z /\ clocks tr = [c0; c] end.
Proof.
  unfold look. intros H Hl. inv_run H as found t1 H1. apply run_find_by_id in H1 as (l & -> & Hf). apply Forall_app in Hl as [Hl _].
  apply Forall_inv in Hl as [[es ->] (e & Hs & He)]. destruct found as [[e'|]|]; [|by destruct Hf as (? & _ & ?); congruence|by destruct Hf].
  assert (e' = e) as -> by congruence. cbv beta iota zeta in H.
  destruct (composeDownJobEnd _ _ _) eqn:Hend; [by apply run_ret in H as [_ ?]|]. destruct (decide _); [|done].
  unfold look_at_created in H. inv_run H as s t2 H2. inv_run H as n t3 H3. apply never_ran_clocks in H3.
  assert (Hn : exists now tr', t3' = Act TimeNow now :: tr' /\ run (mret (if decide (s < now)%Z then inr (0%Z, Some FollowNotStarted) else inl (MkTimes None (Some s)))) tr' (inl t') ).
  { destruct n as [[]|]; [by apply run_ret in H as [_ ?]| |]; inv_run H as now t4 H4; by exists now, t4'. }
  destruct Hn as (now & tr' & -> & Hn). apply run_ret in Hn as [-> Hn]. destruct (decide (s < now)%Z); [done|]. injection Hn as ->.
  exists now, s. split; [done|]. split; [lia|]. cbn [wt_startBy] in H2. rewrite !clocks_app, H3. cbn.
  destruct (wt_startBy t) as [s'|]; [apply run_ret in H2 as [-> ->]; done|].
  inv_run H2 as c0 t5 H5. apply run_ret in H2 as [-> ->]. by exists c0.
Qed.

Lemma await_listings P t1 w t2 : listings id P (t1 ++ Act Await w :: t2) -> listings id P t1 /\ listings id P t2.
Proof. intros [H1 H2]%Forall_app. by apply Forall_inv_tail in H2. Qed.

Lemma missing_rounds rounds t u tr : wt_goneUntil t = Some u -> run (waitComposeDownJobExit cfg grace startWait rounds t id) tr None ->
  listings id (fun o => o = None) tr -> length (clocks tr) = rounds /\ Forall (fun c => c <= u)%Z (clocks tr).
Proof.
  revert t tr. induction rounds as [|rounds IH]; intros t tr Hu H Hl; [by apply run_ret in H as [-> _]|].
  apply wait_round_on in H as (t' & w & t1 & t2 & -> & H1 & H2). apply await_listings in Hl as [Hl1 Hl2].
  apply look_missing in H1 as (c & Hc & Hg); [|done]. rewrite Hu in Hg. destruct Hg as [Hu' Hle].
  destruct (IH t' t2 Hu' H2 Hl2) as [Hlen Hall]. rewrite clocks_app, Hc. cbn. split; [by f_equal|by constructor].
Qed.

Lemma created_rounds rounds t s tr : wt_startBy t = Some s -> run (waitComposeDownJobExit cfg grace startWait rounds t id) tr None ->
  listings id (fun o => exists e, o = Some e /\ entry_State e = EventTypeCreated) tr -> length (clocks tr) = rounds /\ Forall (fun c => c <= s)%Z (clocks tr).
Proof.
  revert t tr. induction rounds as [|rounds IH]; intros t tr Hu H Hl; [by apply run_ret in H as [-> _]|].
  apply wait_round_on in H as (t' & w & t1 & t2 & -> & H1 & H2). apply await_listings in Hl as [Hl1 Hl2].
  apply look_created_on in H1 as (c & s' & Hs & Hle & Hc); [|done]. rewrite Hu in Hc. destruct Hc as [-> Hc].
  destruct (IH t' t2 Hs H2 Hl2) as [Hlen Hall]. rewrite clocks_app, Hc. cbn. split; [by f_equal|by constructor].
Qed.

(** C40: A follower does not wait for ever.  While the record is missing each time it is
    looked for, or is there each time as that of a job that has not started, and the clock
    moves by at least [d] from reading to reading, the rounds that go on take no longer
    than the grace, or the time to start: with enough rounds each run has come to an end. *)
Theorem follower_gives_up rounds d tr r :
  (0 < d)%Z -> (0 <= grace)%Z -> (0 <= startWait)%Z -> (grace + d < Z.of_nat rounds * d)%Z -> (startWait < Z.of_nat rounds * d)%Z ->
  run (waitComposeDownJobExit cfg grace startWait rounds (MkTimes None None) id) tr r -> spaced d (clocks tr) ->
  listings id (fun o => o = None) tr \/ listings id (fun o => exists e, o = Some e /\ entry_State e = EventTypeCreated) tr ->
  exists res, r = Some res.
Proof.
  intros Hd Hg0 Hs0 Hg Hs H Hsp Hl. destruct r as [res|]; [by exists res|exfalso].
  destruct rounds as [|rounds]; [lia|]. apply wait_round_on in H as (t' & w & t1 & t2 & -> & H1 & H2).
  rewrite clocks_app in Hsp. destruct Hl as [Hl|Hl]; apply await_listings in Hl as [Hl1 Hl2].
  - apply look_missing in H1 as (c & Hc & Hgu); [|done]. cbn [wt_goneUntil] in Hgu.
    destruct (missing_rounds _ _ _ _ Hgu H2 Hl2) as [Hlen Hall]. rewrite Hc in Hsp.
    pose proof (spaced_few _ _ _ grace Hsp Hall Hg0) as Hf. change (clocks (Act Await w :: t2)) with (clocks t2) in Hf. lia.
  - apply look_created_on in H1 as (c & s & Hst & Hle & c0 & -> & Hc); [|done].
    destruct (created_rounds _ _ _ _ Hst H2 Hl2) as [Hlen Hall]. rewrite Hc in Hsp.
    pose proof (spaced_few _ _ (c :: clocks t2) startWait Hsp ltac:(by constructor) Hs0) as Hf. cbn [length] in Hf. lia.
Qed.
End GivingUp.

(** ** Reading the output *)

(** How a line is cut into records does not matter. *)
Lemma add_pieces unmarshalProgress p st pieces rest :
  (add unmarshalProgress (foldl (fun p b => (add unmarshalProgress p {| Time := 0; stream := st; Partial := true; Line := b |}).1) p pieces)
     {| Time := 0; stream := st; Partial := false; Line := rest |}) =
  add unmarshalProgress p {| Time := 0; stream := st; Partial := false; Line := concat pieces ++ rest |}.
Proof.
  revert p. induction pieces as [|b pieces IH]; intros p; [done|]. cbn [foldl concat]. rewrite IH. unfold add. cbn.
  rewrite lookup_insert_eq, delete_insert_eq. cbn. by rewrite !app_assoc.
Qed.

(** What the only sender publishes is what the channel holds next, after two attempts at most. *)
Lemma publish_latest {A} (taken : nat -> bool) (s : A) ch rounds : publish (S (S rounds)) taken s ch = Some (Some s).
Proof. destruct ch; cbn; [|by destruct (taken 0)]. destruct (taken 0); [done|]. by destruct (taken 1). Qed.

(** ** A machine with one project *)

Record world := MkWorld { w_recs : list CommandEntry; w_now : Z }.

Definition job_record (id name : string) (state : EventType) (code : option Z) : CommandEntry := {|
  ID := id; entry_Name := name; CreatedAt := "then"; entry_State := state; ExitCode := code; ConfigJSON := None; StateJSON := None |}.

Definition tick (w : world) : world := MkWorld (w_recs w) (w_now w + 1).
Definition with_recs (f : list CommandEntry -> list CommandEntry) (w : world) : world := MkWorld (f (w_recs w)) (w_now w).

Definition boom : outputRecord := Ok {| Time := 0; stream := StreamStderr; Partial := false; Line := bytes_of ("error: boom" +:+ String "010" "") |}.

Definition on_machine (X : Type) (e : jobE X) (w : world) : X * world :=
  match e in jobE X return X * world with
  | MakeLockDir _ | OpenLock _ | SubscribeEnds _ | OpenOutput _ _ => (None, w)
  | WaitLock => (LockAcquired, w)
  | TryLock | HoldPIDLock _ => (Ok true, w)
  | CloseLock | ReleasePIDLock _ | CloseEnds | CloseOutput => (tt, w)
  | ListCommands => (Ok (w_recs w), w)
  | RemoveCommand target _ => (Ok [], with_recs (List.filter (fun e => negb (bool_decide (ID e = target)))) w)
  | CreateCommand req => (Ok "new", with_recs (cons (job_record "new" (cr_Name req) EventTypeCreated None)) w)
  | StartCommand id => (None, with_recs (map (fun e => if bool_decide (ID e = id) then job_record id (entry_Name e) EventTypeRunning None else e)) w)
  | TimeNow => (w_now w, tick w)
  | Await => (WakeTick, w)
  | ReadOutput => ([boom], w)
  | Publish _ => (tt, w)
  | CtxErr => (false, w)
  end.


Definition locked_cfg : Config := {|
  cf_DataDir := "/d"; cf_RuntimeDir := "/r"; cf_DefaultWorkingDir := ""; cf_DefaultEnvironment := []; cf_DefaultScrollbackBytes := 1;
  cf_DefaultLogDriver := ""; cf_EventWatcherKind := ""; cf_DefaultHooks := ∅; cf_DefaultFrame := ""; cf_ConfigPath := "" |}.


Lemma follower_ends_on_evidence_witness :
  exists tr, run (stream_run locked_cfg (fun _ => None) 5 10 3 {| tj_ID := "j"; tj_Finished := false |}) tr (Some (no_summary, Some (FollowExit 3 (bytes_of "boom")))) /\
    exists a, a ∈ tr /\ told_end "j" (3%Z, None) a.
Proof.
  destruct (exec on_machine (stream_run locked_cfg (fun _ => None) 5 10 3 {| tj_ID := "j"; tj_Finished := false |}) (MkWorld [job_record "j" "n" EventTypeExited (Some 3%Z)] 0)) as [[[r tr] w]|] eqn:E;
    [|vm_compute in E; discriminate E].
  assert (Hr : r = Some (no_summary, Some (FollowExit 3 (bytes_of "boom")))) by (vm_compute in E; injection E as <- _ _; reflexivity).
  apply exec_run in E. rewrite Hr in E. exists tr. split; [exact E|].
  destruct (follower_ends_on_evidence _ _ _ _ _ _ _ _ _ E) as (t1 & c & t2 & -> & [_ (a & Ha & Hend)] & _).
  exists a. split; [apply elem_of_app; by left|exact Hend].
Defined.

(** A job whose record is gone: the clock moves by one from look to look. *)
Definition gone_trace (times : list Z) : list jobact := concat (map (fun t => [Act ListCommands (Ok []); Act TimeNow t; Act Await WakeTick]) times).

Lemma follower_gives_up_witness :
  exists res tr, run (waitComposeDownJobExit locked_cfg 2 3 4 (MkTimes None None) "j") tr (Some res) /\ tr = gone_trace [0; 1; 2]%Z ++ [Act ListCommands (Ok []); Act TimeNow 3%Z].
Proof.
  assert (H : exists r tr, run (waitComposeDownJobExit locked_cfg 2 3 4 (MkTimes None None) "j") tr r /\ tr = gone_trace [0; 1; 2]%Z ++ [Act ListCommands (Ok []); Act TimeNow 3%Z]).
  { eexists _, _. split; [eapply (exec_run on_machine _ (MkWorld [] 0)); vm_compute; reflexivity|reflexivity]. }
  destruct H as (r & tr & H & Ht). destruct (follower_gives_up locked_cfg 2 3 "j" 4 1 tr r) as [res ->]; [lia|lia|lia|lia|lia|exact H| |left|by exists res, tr].
  - subst tr. intros i x y Hx Hy. do 4 (destruct i as [|i]; [cbn in Hx, Hy; injection Hx as <-; first [discriminate Hy|injection Hy as <-; lia]|]). discriminate Hx.
  - subst tr. repeat constructor; eauto.
Defined.
