(* ===== verification/Replicas.v ===== *)
(** * Verbs on single replicas, broadcasts and logs

    [cmdman/compose/service_attach.go], [service_capture-screen.go], [service_inspect.go],
    [service_send-keys.go], [service_signal.go], [service_status.go], [service_events.go]
    and the stored phase of [service_logs.go].  What the cmdman service answers is an
    argument of each; the goroutines of a broadcast write disjoint slots of a list. *)

From S2P Require Import Reconcile Walk Service Prelude GoStr LogDriver Model Prog ComposeSpec Naming Lifecycle Graph Targets Plan HookData HookOutput ComposeSvc HookRunner HookSteps Down Create Verbs VerbProps Listing SendKeys.

(** What each verb does first: the entries of the project and those the targets select. *)
(* src/cmdman/compose/service_status.go:45-57 Service.Status *)
Definition selected (ls : lister) (selection : ProjectSelection) (targets : list Target)
  : result err (list CommandEntry * list CommandEntry) :=
  try entries := lift_err ListCommands (ls (projectLabels (sel_WorkDir selection) (sel_Project selection))) in
  try ts := lift_err BadTargets (resolveTargets targets (storedReplicas (sel_Spec selection) entries)) in
  Ok (entries, ts_filter ts entries).

(** ** One replica *)

Inductive replicaErr :=
| ReplicaSelect (e : err)
| NotCreated (command : string)
| ManyReplicas (command : string) (n : nat)
| NoSuchReplica (command : string) (index : Z) (n : nat).

Section Resolve.
Context (sortByScaleIndex : list CommandEntry -> list CommandEntry).  (* [slices.SortFunc], which is not stable *)

(* src/cmdman/compose/service_attach.go:67-97 Service.ResolveReplicas *)
Definition ResolveReplicas (ls : lister) (selection : ProjectSelection) (commandName : string)
  : result replicaErr (list CommandEntry) :=
  try found := lift_err ReplicaSelect (selected ls selection (TargetsOf [commandName])) in
  match found.2 with
  | [] => Err (NotCreated commandName)
  | matched => Ok (sortByScaleIndex matched)
  end.

(* src/cmdman/compose/service_attach.go:36-65 Service.ResolveCommandID *)
Definition ResolveCommandID (ls : lister) (selection : ProjectSelection) (commandName : string) (scaleIndex : Z)
  : result replicaErr string :=
  try replicas := ResolveReplicas ls selection commandName in
  if decide (scaleIndex <= 0)%Z then
    match replicas with
    | [r] => Ok (ID r)
    | _ => Err (ManyReplicas commandName (length replicas))
    end
  else match replicas !! Z.to_nat (scaleIndex - 1) with
       | Some r => Ok (ID r)
       | None => Err (NoSuchReplica commandName scaleIndex (length replicas))
       end.

(* src/cmdman/compose/service_attach.go:11-34 Service.OpenAttachSession *)
Definition OpenAttachSession {Session} (open_session : string -> result replicaErr Session) (ls : lister)
    (selection : ProjectSelection) (commandName : string) (scaleIndex : Z) : result replicaErr Session :=
  try id := ResolveCommandID ls selection commandName scaleIndex in open_session id.

(* src/cmdman/compose/service_capture-screen.go:10-26 CaptureScreenOption *)
Record CaptureScreenOption := {
  cso_CommandName : string;
  cso_ScaleIndex : Z;
  cso_Escapes : bool;
  cso_AltScreen : bool;
  cso_Quiet : bool;
  cso_PreserveTrailingSpaces : bool;
  cso_StartLine : string;
  cso_EndLine : string;
}.

(** The capture of the service gets the options beside the replica. *)
(* src/cmdman/compose/service_capture-screen.go:28-58 Service.CaptureScreen *)
Definition CaptureScreen (capture : string -> CaptureScreenOption -> result replicaErr (list Z)) (ls : lister)
    (selection : ProjectSelection) (opts : CaptureScreenOption) : result replicaErr (list Z) :=
  try id := ResolveCommandID ls selection (cso_CommandName opts) (cso_ScaleIndex opts) in capture id opts.
End Resolve.

(** ** Broadcasts *)

(* src/cmdman/compose/service_signal.go:31-37 SignalOutcome *)
Record BroadcastOutcome := { bo_Command : string; bo_Err : option err }.

Inductive broadcastErr :=
| SignalRequired
| InvalidSignal (s : string) (e : hrErr)
| KeysRequired
| BroadcastSelect (e : err)
| SendFailed (verb name id : string) (e : err).

(** One goroutine per replica, each with its own slot. *)
(* src/cmdman/compose/service_signal.go:86-110 Service.Signal *)
Definition broadcast (send : string -> option err) (nameOf : CommandEntry -> string) (es : list CommandEntry)
  : list BroadcastOutcome :=
  (fun e => {| bo_Command := nameOf e; bo_Err := send (ID e) |}) <$> es.

(* src/cmdman/compose/service_signal.go:48-111 Service.Signal *)
Definition Signal (SignalName : Z -> string) (SignalNum : string -> Z) (send : string -> Z -> option err) (ls : lister)
    (selection : ProjectSelection) (targets : list Target) (signal : string) : result broadcastErr (list BroadcastOutcome) :=
  if decide (signal = "") then Err SignalRequired
  else
    try sig := lift_err (InvalidSignal signal) (ParseSignal SignalName SignalNum signal) in
    try found := lift_err BroadcastSelect (selected ls selection targets) in
    Ok (broadcast (fun id => send id sig.1) (replicaNamer (sel_Spec selection) found.1) found.2).

(* src/cmdman/compose/service_send-keys.go:43-116 Service.SendKeys *)
Definition SendKeys_project (send : string -> SendKeysRequest -> option err) (ls : lister) (selection : ProjectSelection)
    (targets : list Target) (req : SendKeysRequest) : result broadcastErr (list BroadcastOutcome) :=
  match skr_Keys req with
  | [] => Err KeysRequired
  | _ =>
    try found := lift_err BroadcastSelect (selected ls selection targets) in
    Ok (broadcast (fun id => send id req) (replicaNamer (sel_Spec selection) found.1) found.2)
  end.

(** ** Inspect, status, events *)

(** By command name, then by ID. *)
Definition entry_le (a b : CommandEntry) : Prop :=
  if decide (commandNameOf a = commandNameOf b) then string_le (ID a) (ID b) else string_le (commandNameOf a) (commandNameOf b).

#[export] Instance entry_le_dec : RelDecision entry_le.
Proof. intros a b. unfold entry_le. case_decide; apply _. Defined.

(** The outputs of those that could be inspected, and the errors of the others. *)
(* src/cmdman/compose/service_inspect.go:22-79 Service.Inspect *)
Definition Inspect {Out} (inspect : string -> result err Out) (ls : lister) (selection : ProjectSelection)
    (targets : list Target) : result err (list Out * list (string * string * err)) :=
  try found := selected ls selection targets in
  let answers := (fun e => (e, inspect (ID e))) <$> merge_sort entry_le found.2 in
  Ok (omap (fun a => match a.2 with Ok o => Some o | Err _ => None end) answers,
      omap (fun a => match a.2 with Ok _ => None | Err e => Some (commandNameOf a.1, ID a.1, e) end) answers).

(* src/cmdman/compose/service_status.go:21-35 CommandRuntimeState *)
Record CommandRuntimeState := {
  crs_Command : string;
  crs_ID : string;
  crs_Name : string;
  crs_State : EventType;
  crs_Title : string;
  crs_Status : string;
  crs_Detail : string;
  crs_BellUnread : bool;
}.

(* src/cmdman/compose/service_status.go:61-77 Service.Status *)
Definition runtime_row (runtime : gmap string RuntimeState) (e : CommandEntry) : option CommandRuntimeState :=
  (fun c => let rs := default no_runtime (runtime !! ID e) in
     {| crs_Command := label (Labels c) LabelCommand; crs_ID := ID e; crs_Name := entry_Name e; crs_State := entry_State e;
        crs_Title := rt_Title rs; crs_Status := rt_Status rs; crs_Detail := rt_Detail rs; crs_BellUnread := rt_BellUnread rs |})
  <$> ConfigJSON e.

Definition row_le (a b : CommandRuntimeState) : Prop :=
  if decide (crs_Command a = crs_Command b) then string_le (crs_ID a) (crs_ID b) else string_le (crs_Command a) (crs_Command b).

#[export] Instance row_le_dec : RelDecision row_le.
Proof. intros a b. unfold row_le. case_decide; apply _. Defined.

(* src/cmdman/compose/service_status.go:37-82 Service.Status *)
Definition Status_project (ls : lister) (runtimeStates : list CommandEntry -> gmap string RuntimeState)
    (selection : ProjectSelection) (targets : list Target) : result err (list CommandRuntimeState) :=
  try found := selected ls selection targets in
  Ok (merge_sort row_le (omap (runtime_row (runtimeStates found.2)) found.2)).

(** The IDs to filter the event log by; [None] when there is nothing to stream. *)
(* src/cmdman/compose/service_events.go:28-77 Service.Events *)
Definition event_ids (ls : lister) (selection : ProjectSelection) (targets : list Target) : result err (option (list string)) :=
  try found := selected ls selection targets in
  Ok (match found.2 with [] => None | es => Some (ID <$> es) end).

(** ** Stored logs *)

(** A record of a command, or an error in its stead. *)
(* src/cmdman/compose/service_logs.go:153-156 Service.logsStock *)
Record namedRecord := { nr_command : string; nr_line : LogLine; nr_err : option err }.

Inductive logsErr := OpenLogs (command id : string) (e : err) | ReadLogs (command : string) (e : err).

Section Logs.
(** [cmdman.Service.Logs] with what its reader then delivers, and [hiter.MergeFunc] by
    the time of the lines. *)
Context (open_logs : string -> result err (list (LogLine * option err)))
        (MergeFunc : list namedRecord -> list namedRecord -> list namedRecord).

Definition name_record (command : string) (r : LogLine * option err) : namedRecord :=
  {| nr_command := command; nr_line := r.1; nr_err := r.2 |}.

(** The sequences that open, and the errors of the others. *)
(* src/cmdman/compose/service_logs.go:167-201 Service.logsStock *)
Fixpoint open_all (es : list CommandEntry) : list (list namedRecord) * list logsErr :=
  match es with
  | [] => ([], [])
  | e :: es =>
    let command := commandNameOf e in
    let '(seqs, errs) := open_all es in
    match open_logs (ID e) with
    | Ok records => ((name_record command <$> records) :: seqs, errs)
    | Err er => (seqs, OpenLogs command (ID e) er :: errs)
    end
  end.

(** What is sent when nobody cancels, and the errors. *)
(* src/cmdman/compose/service_logs.go:140-243 Service.logsStock *)
Definition logsStock (es : list CommandEntry) : list (string * LogLine) * list logsErr :=
  let '(seqs, errs) := open_all es in
  match seqs with
  | [] => ([], errs)
  | seq0 :: rest =>
    let merged := foldl MergeFunc seq0 rest in
    (omap (fun r => match nr_err r with None => Some (nr_command r, nr_line r) | Some _ => None end) merged,
     errs ++ omap (fun r => ReadLogs (nr_command r) <$> nr_err r) merged)
  end.
End Logs.

(** * What the verbs on single replicas guarantee

    A scale index selects the replica with that index exactly when the stored replicas
    are numbered from 1 without gaps; the stored logs of several commands come out in the
    order of time, each command's own in their order. *)

(** ** Selecting a replica *)

Section Resolve.
Context (sortByScaleIndex : list CommandEntry -> list CommandEntry).
Context (sort_perm : forall l, sortByScaleIndex l ≡ₚ l)
        (sort_sorted : forall l, StronglySorted (fun a b => (Targets.scaleIndexOf a <= Targets.scaleIndexOf b)%Z) (sortByScaleIndex l)).

(** The indices 1 to n, each once. *)
Definition numbered_from (k : Z) (l : list CommandEntry) : Prop :=
  (Targets.scaleIndexOf <$> l) ≡ₚ ((fun i => k + Z.of_nat i)%Z <$> seq 0 (length l)).

(** Sorting a list that is numbered puts each index at its place. *)
Lemma sorted_numbering (l : list Z) k :
  StronglySorted Z.le l -> l ≡ₚ ((fun i => k + Z.of_nat i)%Z <$> seq 0 (length l)) ->
  l = ((fun i => k + Z.of_nat i)%Z <$> seq 0 (length l)).
Proof.
  intros Hs Hp. apply (StronglySorted_unique Z.le); [done| |done]. clear Hs Hp. generalize 0 as j.
  induction (length l) as [|n IH]; intros j; simpl; [constructor|]. constructor; [apply IH|].
  apply Forall_forall. intros x (i & -> & Hi)%list_elem_of_fmap. apply elem_of_seq in Hi. lia.
Qed.

Lemma selected_index l i :
  numbered_from 1 l -> (1 <= i <= Z.of_nat (length l))%Z ->
  exists e, sortByScaleIndex l !! Z.to_nat (i - 1) = Some e /\ e ∈ l /\ Targets.scaleIndexOf e = i.
Proof.
  intros Hn Hi. assert (Hlen : length (sortByScaleIndex l) = length l) by (by rewrite sort_perm).
  assert (Hl : Targets.scaleIndexOf <$> sortByScaleIndex l = ((fun i => 1 + Z.of_nat i)%Z <$> seq 0 (length (sortByScaleIndex l)))).
  { rewrite <- (length_fmap Targets.scaleIndexOf (sortByScaleIndex l)). apply sorted_numbering.
    - generalize (sort_sorted l). clear. generalize (sortByScaleIndex l) as t. induction 1; [constructor|].
      rewrite fmap_cons. constructor; [done|]. by apply Forall_fmap.
    - rewrite length_fmap, Hlen, sort_perm. exact Hn. }
  destruct (lookup_lt_is_Some_2 (sortByScaleIndex l) (Z.to_nat (i - 1))) as [e He]; [lia|].
  exists e. split; [done|]. split; [rewrite <- sort_perm; by eapply list_elem_of_lookup_2|].
  assert (Hx : (Targets.scaleIndexOf <$> sortByScaleIndex l) !! Z.to_nat (i - 1) = Some (Targets.scaleIndexOf e))
    by (by rewrite list_lookup_fmap, He).
  rewrite Hl, list_lookup_fmap, lookup_seq_lt in Hx by lia. simpl in Hx. injection Hx as <-. lia.
Qed.

(** When the stored replicas of the command are numbered from 1 without a gap, a scale
    index between 1 and their number resolves to the replica with that index, 0 resolves
    when there is just one, and any other index is an error. *)
Theorem ResolveCommandID_exact (ls : lister) selection name i entries matched :
  selected ls selection (TargetsOf [name]) = Ok (entries, matched) -> matched <> [] -> numbered_from 1 matched ->
  match ResolveCommandID sortByScaleIndex ls selection name i with
  | Ok id => exists e, e ∈ matched /\ ID e = id /\ (Targets.scaleIndexOf e = i \/ (i <= 0)%Z /\ matched = [e])
  | Err (ManyReplicas _ n) => (i <= 0)%Z /\ n = length matched /\ n <> 1
  | Err (NoSuchReplica _ j n) => j = i /\ n = length matched /\ (Z.of_nat n < i)%Z
  | Err _ => False
  end.
Proof.
  intros Hsel Hne Hn. unfold ResolveCommandID, ResolveReplicas. rewrite Hsel. simpl.
  destruct matched as [|m ms]; [done|]. set (matched := m :: ms) in *. simpl.
  assert (Hlen : length (sortByScaleIndex matched) = length matched) by (by rewrite sort_perm).
  destruct (decide (i <= 0)%Z) as [Hi|Hi].
  - destruct (sortByScaleIndex matched) as [|r [|r2 rs]] eqn:Hs; [done| |by simpl in *; lia].
    exists r. assert (Hm : matched = [r]) by (apply Permutation_singleton_r; by rewrite <- Hs). rewrite Hm.
    split; [by left|]. split; [done|by right].
  - destruct (sortByScaleIndex matched !! Z.to_nat (i - 1)) as [r|] eqn:Hr.
    + apply lookup_lt_Some in Hr as Hlt. destruct (selected_index matched i Hn) as (e & He & Hin & Hie); [lia|].
      rewrite Hr in He. injection He as ->. exists e. auto.
    + apply lookup_ge_None in Hr. rewrite Hlen in *. split_and!; try done. lia.
Qed.
End Resolve.

(** With a gap in the numbering a scale index selects another replica: when the only
    replica of a command that is stored has index 2, asking for index 1 resolves to it,
    and asking for index 2 fails. *)
Theorem scale_index_is_a_position sort (ls : lister) selection name entries e :
  sort [e] = [e] -> selected ls selection (TargetsOf [name]) = Ok (entries, [e]) -> Targets.scaleIndexOf e = 2%Z ->
  ResolveCommandID sort ls selection name 1 = Ok (ID e) /\
  ResolveCommandID sort ls selection name 2 = Err (NoSuchReplica name 2 1).
Proof. intros Hs Hsel _. unfold ResolveCommandID, ResolveReplicas. rewrite Hsel. simpl. rewrite Hs. done. Qed.

(** ** Stored logs *)

Definition by_time (a b : namedRecord) : Prop := (Time (nr_line a) <= Time (nr_line b))%Z.

Section Logs.
Context (open_logs : string -> result err (list (LogLine * option err)))
        (MergeFunc : list namedRecord -> list namedRecord -> list namedRecord).
(** [hiter.MergeFunc] interleaves its arguments, and merges sorted ones to a sorted one. *)
Context (merge_interleaves : forall a b, merge a b (MergeFunc a b))
        (merge_sorts : forall a b, StronglySorted by_time a -> StronglySorted by_time b -> StronglySorted by_time (MergeFunc a b)).

Lemma merges_foldl s0 ss : merges (s0 :: ss) (foldl MergeFunc s0 ss).
Proof.
  enough (H : forall ls l, merges ls l -> merges (ls ++ ss) (foldl MergeFunc l ss)).
  { apply (H [s0]). econstructor; [constructor|]. apply merge_refl_l. }
  clear s0. induction ss as [|s ss IH]; intros ls l Hl; simpl; [by rewrite app_nil_r|].
  rewrite cons_middle, app_assoc. apply IH. by eapply merges_snoc.
Qed.

Lemma sorted_foldl s0 ss :
  StronglySorted by_time s0 -> Forall (StronglySorted by_time) ss -> StronglySorted by_time (foldl MergeFunc s0 ss).
Proof.
  revert s0. induction ss as [|s ss IH]; intros s0 H0; simpl; [done|]. intros [Hs Hss]%Forall_cons. apply IH; auto.
Qed.

Lemma sorted_omap {B} (f : namedRecord -> option B) (R : B -> B -> Prop) l :
  (forall a b x y, by_time a b -> f a = Some x -> f b = Some y -> R x y) -> StronglySorted by_time l -> StronglySorted R (omap f l).
Proof.
  intros Hf. induction 1 as [|a l Hs IH Hall]; simpl; [constructor|]. destruct (f a) as [x|] eqn:Hx; [|done].
  constructor; [done|]. rewrite Forall_forall in Hall. apply Forall_forall. intros y (b & Hb & Hy)%list_elem_of_omap. eauto.
Qed.

(** The records that the readers deliver. *)
Definition delivered (e : CommandEntry) : list (LogLine * option err) :=
  match open_logs (ID e) with Ok rs => rs | Err _ => [] end.

Lemma open_all_spec es : (open_all open_logs es).1 =
  omap (fun e => match open_logs (ID e) with Ok rs => Some (name_record (commandNameOf e) <$> rs) | Err _ => None end) es.
Proof.
  induction es as [|e es IH]; [done|]. simpl. destruct (open_all open_logs es) as [seqs errs]. simpl in IH.
  destruct (open_logs (ID e)); simpl; by rewrite IH.
Qed.

(** The lines of a reader's records; those that could not be opened have none. *)
Lemma sent_lines es sent :
  merges (map (omap (fun r => match nr_err r with None => Some (nr_command r, nr_line r) | Some _ => None end))
    (omap (fun e => match open_logs (ID e) with Ok rs => Some (name_record (commandNameOf e) <$> rs) | Err _ => None end) es)) sent ->
  merges ((fun e => omap (fun r => match r.2 with None => Some (commandNameOf e, r.1) | Some _ => None end) (delivered e)) <$> es) sent.
Proof.
  revert sent. induction es as [|e es IH]; intros sent; [done|]. rewrite fmap_cons. simpl. unfold delivered at 1.
  destruct (open_logs (ID e)) as [rs|]; simpl; [|intros H; by apply merges_nil_add, IH].
  intros H. inversion H as [|l1 ls l2 l Hms Hm]; subst. econstructor; [by apply IH|].
  replace (omap _ rs) with (omap (fun r => match nr_err r with None => Some (nr_command r, nr_line r) | Some _ => None end)
    (name_record (commandNameOf e) <$> rs)); [done|].
  exact (omap_fmap (name_record (commandNameOf e)) _ rs).
Qed.

(** When the records of each command are in the order of time, what the stored phase
    sends is in the order of time, and is an interleaving of the lines of the commands:
    none is lost, none is doubled, and those of a command keep their order. *)
Theorem logsStock_ordered es sent errs :
  Forall (fun e => StronglySorted (fun a b => (Time a.1 <= Time b.1)%Z) (delivered e)) es ->
  logsStock open_logs MergeFunc es = (sent, errs) ->
  StronglySorted (fun a b => (Time a.2 <= Time b.2)%Z) sent /\
  merges ((fun e => omap (fun r => match r.2 with None => Some (commandNameOf e, r.1) | Some _ => None end) (delivered e)) <$> es) sent.
Proof.
  intros Hs H. unfold logsStock in H. pose proof (open_all_spec es) as Ho. destruct (open_all open_logs es) as [seqs oe]. simpl in Ho.
  set (line r := match nr_err r with None => Some (nr_command r, nr_line r) | Some _ => None end) in *.
  assert (Hseqs : merges seqs (match seqs with [] => [] | s :: ss => foldl MergeFunc s ss end) /\ Forall (StronglySorted by_time) seqs).
  { split; [destruct seqs; [constructor|apply merges_foldl]|]. subst seqs. apply Forall_forall.
    intros l (e & Hin & Hl)%list_elem_of_omap. rewrite Forall_forall in Hs. specialize (Hs e Hin). unfold delivered in Hs.
    destruct (open_logs (ID e)) as [rs|]; [|done]. injection Hl as <-. clear -Hs. induction Hs as [|r rs Hs IH Hall]; [constructor|].
    rewrite fmap_cons. constructor; [done|]. by apply Forall_fmap. }
  destruct Hseqs as [Hm Hsorted].
  assert (Hsent : sent = omap line (match seqs with [] => [] | s :: ss => foldl MergeFunc s ss end)) by (destruct seqs; by injection H as <- _).
  subst sent. split.
  - apply (sorted_omap line); [|destruct seqs as [|s ss]; [constructor|apply Forall_cons in Hsorted as [? ?]; by apply sorted_foldl]].
    intros a b x y Hab Hx Hy. unfold line in *. destruct (nr_err a), (nr_err b); try done. injection Hx as <-. by injection Hy as <-.
  - apply (merges_omap line) in Hm. subst seqs. revert Hm. clear. apply sent_lines.
Qed.
End Logs.

(** ** Witnesses *)

Definition replica_entry (id command : string) (index : Z) : CommandEntry := {|
  ID := id; entry_Name := id; CreatedAt := ""; entry_State := EventTypeRunning; ExitCode := None;
  ConfigJSON := Some (labelled {[LabelProject := "p"; LabelWorkdir := "/w"; LabelCommand := command; LabelScaleIndex := Itoa index]});
  StateJSON := None |}.

Definition in_w : ProjectSelection := {| sel_Spec := None; sel_WorkDir := "/w"; sel_Project := "p" |}.

(** A sort by scale index. *)
Definition index_le (a b : CommandEntry) : Prop := (Targets.scaleIndexOf a <= Targets.scaleIndexOf b)%Z.
#[export] Instance index_le_dec : RelDecision index_le.
Proof. intros a b. unfold index_le. apply _. Defined.
#[export] Instance index_le_trans : Transitive index_le.
Proof. intros a b c. unfold index_le. lia. Qed.
#[export] Instance index_le_total : Total index_le.
Proof. intros a b. unfold index_le. lia. Qed.

Lemma ResolveCommandID_exact_witness :
  exists e, e ∈ [replica_entry "2" "web" 2; replica_entry "1" "web" 1] /\ ID e = "2" /\ Targets.scaleIndexOf e = 2%Z.
Proof.
  pose proof (ResolveCommandID_exact (merge_sort index_le) (merge_sort_Permutation index_le)
    (fun l => StronglySorted_merge_sort index_le l)
    (fun _ => Ok [replica_entry "2" "web" 2; replica_entry "1" "web" 1; replica_entry "3" "db" 1]) in_w "web" 2
    [replica_entry "2" "web" 2; replica_entry "1" "web" 1; replica_entry "3" "db" 1]
    [replica_entry "2" "web" 2; replica_entry "1" "web" 1] ltac:(vm_compute; reflexivity) ltac:(discriminate)) as H.
  match type of H with _ -> match ?x with _ => _ end => replace x with (@Ok replicaErr string "2") in H by (vm_compute; reflexivity) end.
  destruct H as (e & He & Hid & Hor).
  - apply (Permutation_trans (l' := [2; 1]%Z)); [apply reflexive_eq; vm_compute; reflexivity|].
    apply (Permutation_trans (l' := [1; 2]%Z)); [constructor|apply reflexive_eq; reflexivity].
  - exists e. split_and!; [done|done|]. destruct Hor as [?|[? _]]; [done|lia].
Defined.

Lemma scale_index_is_a_position_witness :
  ResolveCommandID id (fun _ => Ok [replica_entry "2" "web" 2]) in_w "web" 1 = Ok "2" /\
  ResolveCommandID id (fun _ => Ok [replica_entry "2" "web" 2]) in_w "web" 2 = Err (NoSuchReplica "web" 2 1).
Proof.
  apply (scale_index_is_a_position id (fun _ => Ok [replica_entry "2" "web" 2]) in_w "web" [replica_entry "2" "web" 2] (replica_entry "2" "web" 2));
    vm_compute; reflexivity.
Defined.

(** A merge by time. *)
#[export] Instance by_time_dec : RelDecision by_time.
Proof. intros a b. unfold by_time. apply _. Defined.

Fixpoint merge_by_time (a : list namedRecord) : list namedRecord -> list namedRecord :=
  match a with
  | [] => id
  | x :: a' => fix go b := match b with
                         | [] => x :: a'
                         | y :: b' => if decide (by_time x y) then x :: merge_by_time a' b else y :: go b'
                         end
  end.

Lemma merge_by_time_merge a b : merge a b (merge_by_time a b).
Proof.
  revert b. induction a as [|x a IHa]; intros b; simpl; [apply merge_refl_r|].
  induction b as [|y b IHb]; [apply merge_refl_l|]. destruct (decide (by_time x y)); constructor; auto.
Qed.

Lemma merge_by_time_sorts a b :
  StronglySorted by_time a -> StronglySorted by_time b -> StronglySorted by_time (merge_by_time a b).
Proof.
  intros Ha. revert b. induction Ha as [|x a Ha IHa Hx]; intros b Hb; [done|]. simpl.
  induction Hb as [|y b Hb IHb Hy]; [by constructor|]. case_decide as Hxy.
  - constructor; [apply IHa; by constructor|]. apply (merge_Forall _ _ _ _ (merge_by_time_merge a (y :: b))).
    split; [done|]. constructor; [done|]. eapply Forall_impl; [exact Hy|]. unfold by_time in *. intros z. simpl. lia.
  - constructor; [exact IHb|]. apply (merge_Forall _ _ _ _ (merge_by_time_merge (x :: a) b)). unfold by_time in *.
    split; [|done]. constructor; [lia|]. eapply Forall_impl; [exact Hx|]. intros z. simpl. lia.
Qed.

Definition at_time (t : Z) : LogLine * option err := ({| Time := t; stream := StreamStdout; Partial := false; Line := [] |}, None).

Lemma logsStock_ordered_witness :
  (fun m => Time m.2) <$> (logsStock (fun i => Ok (if decide (i = "1") then [at_time 1; at_time 4] else [at_time 2]))
    merge_by_time [replica_entry "1" "web" 1; replica_entry "3" "db" 1]).1 = [1; 2; 4]%Z /\
  StronglySorted (fun a b => (Time a.2 <= Time b.2)%Z)
    (logsStock (fun i => Ok (if decide (i = "1") then [at_time 1; at_time 4] else [at_time 2]))
       merge_by_time [replica_entry "1" "web" 1; replica_entry "3" "db" 1]).1.
Proof.
  split; [vm_compute; reflexivity|].
  eapply (logsStock_ordered _ merge_by_time merge_by_time_merge merge_by_time_sorts); [|by apply surjective_pairing].
  repeat constructor; vm_compute; discriminate.
Defined.
